(* ===== verification/_CoqProject ===== *)
-Q . S2P
Prelude.v
Status.v
Bytes.v
Token.v
Signature.v
FieldLayout.v
MetadataTables.v
MetadataReader.v
PeImage.v
KernelHeap.v
HandleTable.v
MethodMap.v
TypeMap.v
ProcessTable.v
EvalStack.v
ManagedObject.v
ManagedHeap.v
Gc.v
GcMark.v
GcCollect.v
GcAllocate.v
ObjectGraph.v
KHeap.v
Process.v
Sched.v
Ipc.v
Syscall.v
IrqRouter.v
Pmm.v
Tinflate.v
Huffman.v
Inflate.v
Deflate.v
Cpio.v
Initramfs.v
Boot.v
EmulatedFloat.v
Opcode.v
GenericContext.v
GenericCorrect.v
GenericTheorems.v
Frame.v
Arith.v
Exceptions.v
Dispatch.v
DispatchSafe.v
Program.v
FrameCreate.v
FrameCorrect.v
Call.v
CallCorrect.v
Arrays.v
ArraysCorrect.v
ArraysHeap.v
ManagedStrings.v
