(* ===== verification/Prelude.v ===== *)
(** * Verification of the ZapadaOS kernel runtime

    ZapadaOS is a small operating system whose kernel, in C and C++, boots the
    machine, runs threads and message channels, and executes managed (CLI) programs
    with ZACLR, a runtime of its own: a metadata reader, a loader, an interpreter, a
    managed heap and a garbage collector.  This library translates the core of both
    halves into Rocq definitions and proves what makes them correct.

    ** The parts of the system

    At boot ([src/kernel/main.c]) the kernel divides the memory, finds the initial
    ramdisk the boot loader left behind, decompresses and indexes it, and starts the
    runtime.  Below everything lie the frame allocator and the kernel heap.  Threads
    are scheduled by priority and talk through bounded channels; interrupts arrive
    as messages; user code enters through system calls.  The runtime parses an
    assembly (PE headers, metadata tables, signatures), builds its method and type
    maps, and interprets the instructions of its methods in frames whose values live
    on evaluation stacks and in the managed heap, which the collector sweeps.

    ** The files (paths below [src/src/kernel])

    Foundations:
    - [Prelude]: machine integers, arrays, the shared lemmas, hints and tactics.
    - [Status]: [zaclr/include/zaclr_status.h] and the [outcome] monad: a result, an
      error status, a [Fault] (an access C leaves undefined) or [NoFuel].
    - [Bytes]: byte images, the primitive readers and their encoders.
    - [KernelHeap]: the interface [kernel_alloc]/[kernel_free] promises to its
      clients, as a class with laws; [KHeap] discharges it.

    The kernel:
    - [KHeap]: [mm/heap.c], the segmented free-list allocator.
    - [Pmm], [Boot]: [mm/pmm.c], [boot/multiboot2.h], and the division of memory in
      [main.c] and [main_aarch64.c].
    - [Process], [Sched], [Ipc], [IrqRouter], [Syscall]: [process/process.c],
      [sched/sched.c], [ipc/ipc.c], [irq/irq_router.c] with [sched/timer.c], and
      [syscall/syscall.c].
    - [Tinflate], [Huffman], [Inflate], [Deflate]: [initramfs/tinflate.c], its bit
      reader and trees, its safety, and the DEFLATE format it decodes.
    - [Cpio], [Initramfs]: [initramfs/cpio.c], [ramdisk.c], [loader.c] and
      [bootstrap.c], and the archive format they read.

    The runtime ([zaclr/]):
    - [Token], [Signature], [FieldLayout]: [metadata/zaclr_token.cpp],
      [metadata/zaclr_signature.cpp], the primitives of
      [typesystem/zaclr_field_layout.cpp].
    - [MetadataTables], [MetadataReader], [PeImage]: [metadata/zaclr_metadata_reader.cpp]
      and [loader/zaclr_pe_image.cpp].
    - [MethodMap], [TypeMap]: [metadata/zaclr_method_map.cpp], [zaclr_type_map.cpp].
    - [HandleTable], [ProcessTable]: [process/zaclr_handle_table.cpp],
      [process/zaclr_process_table.cpp].
    - [EvalStack]: [exec/zaclr_eval_stack.cpp].
    - [ManagedObject], [ManagedHeap], [Gc], [GcMark], [GcCollect], [GcAllocate],
      [ObjectGraph]: [heap/zaclr_object.cpp] (in part), [zaclr_heap.cpp],
      [zaclr_gc.cpp], [zaclr_gc_roots.cpp], and the proofs about them; the graph of
      objects that the theorems about the collector refer to is defined in
      [ObjectGraph] from the contents of the objects.
    - [EmulatedFloat], [Opcode], [Frame], [Arith], [Exceptions], [Dispatch]: the
      interpreter, [exec/zaclr_dispatch.cpp], [zaclr_frame.cpp], [zaclr_engine.cpp],
      for the instructions that work on the current frame.
    - [DispatchSafe], [Program]: the invariant of the interpreter, and the programs
      it runs.
    - [GenericContext], [GenericCorrect], [GenericTheorems]:
      [typesystem/zaclr_generic_context.cpp], the ownership of argument buffers, and
      substitution and instantiation blobs.
    - [FrameCreate], [FrameCorrect]: the rest of [exec/zaclr_frame.cpp], frames from
      method bodies, and what their creation allocates.
    - [Call], [CallCorrect]: the entry of a resolved method in
      [exec/zaclr_dispatch.cpp], the entry points of [exec/zaclr_engine.cpp], and the
      composition of creation, binding, execution and return.
    - [Arrays], [ArraysCorrect], [ArraysHeap]: [heap/zaclr_array.cpp] and the array
      instructions of [exec/zaclr_dispatch.cpp]; element accesses, and allocation and
      reference stores under the invariant of the collector.
    - [ManagedStrings]: [heap/zaclr_string.cpp], the user string heap and [ldstr].
    A component is a Module or a Section with its state as a [Record]; a C function
    is a definition of the same name; a loop is a structural recursion or a
    [Fixpoint] with fuel.  Pointers are addresses or offsets into an image, [NULL] is
    0 or [None].

    ** What the theorems show

    The comment before each theorem lists its conditions; where the code does not check
    one of them, a lemma named there shows what happens without it.

    - Parsing: no blob, however malformed, makes the signature parsers read outside it;
      the metadata and PE parsers stay inside every image whose metadata satisfies
      [image_ok], four facts the code relies on and does not check; encoded
      signatures, rows and field signatures are read back, apart from the two forms
      the signature decoder gets wrong ([signature_parsers_safe],
      [signature_roundtrip], [metadata_initialize_ok], [row_readers_roundtrip],
      [table_row_size_schema], [pe_image_parse_safe], ...).
    - Memory: while requests stay below 4 GiB the live blocks of the kernel heap never
      overlap, an allocation terminates with a fresh block or NULL, the frames handed out are owned once, and the
      boot divides the memory without overlap ([kheap_blocks_disjoint],
      [kheap_alloc_correct], [pmm_ownership], [boot_memory_disjoint]).
    - The collector, on heaps without reference fields in base types, which it does not
      follow, frees exactly what is unreachable in the object graph and leaves no
      dangling reference (long weak handles apart), and the allocation keeps what the
      program can reach ([gc_collect_correct], [gc_marks_exactly_reachable],
      [heap_allocate_correct]).
    - Threads: the linked run queues refine FIFO bands, channels refine bounded
      queues, the recorded receiver is woken and queued, a destroyed handle stays
      dead, yields are round robin and system calls with valid message pointers are
      safe ([sched_refines_bands], [ipc_transfer_fifo], [sleeping_receiver_served],
      [stale_handle_rejected], [yield_round_robin], [syscall_dispatch_safe]).
    - Boot files: the decompressor inverts the DEFLATE format and is safe on any
      input, and the ramdisk answers the files of the archive when the kernel heap
      has a buffer for it ([inflate_roundtrip],
      [inflate_safe], [huffman_correct], [bootstrap_correct]).
    - The interpreter: operators and conversions are those of ECMA-335 (two conversions
      on x86-64 apart), forward leaves and exceptions thrown outside finally blocks
      run the finally blocks between and reach their targets, every instruction keeps
      the frame well formed, and the engine computes what structured programs mean
      ([checked_arithmetic_exact], [integer_operators_correct], [conversions_exact],
      [leave_runs_finallies], [throw_reaches_handler], [dispatch_step_safe],
      [engine_runs_method]).
    - Generic contexts: copies own fresh buffers, substitution is substitution on trees
      and composes, instantiation blobs are read back and no blob makes the parser
      fault ([generic_copies_correct], [generic_substitution_correct],
      [generic_substitution_composes], [generic_instantiation_roundtrip],
      [generic_instantiation_safe]).
    - Calls: a frame is created with exactly what the body in the image says, arguments
      are bound or refused, a call gives the caller the value of the method's program
      and loses no memory, generic arguments are those of the call, and a launch
      completes ([frame_create_correct], [bind_arguments_correct],
      [method_call_correct], [generic_call_correct], [launch_completes]).
    - Arrays and strings: an element is what was stored, accesses at 32-bit
      indices outside an array are refused, new arrays are cleared and held, a stored reference is held with its
      array, and [ldstr] gives the text of the metadata ([array_store_load],
      [array_access_checked], [newarr_correct], [reference_store_keeps],
      [ldstr_correct]).
    Where the code does not do what it means to, a lemma named after the defect
    shows it on a concrete input (for instance [long_weak_handle_dangles],
    [preempted_thread_lost], [backward_leave_skips_finally]).

    ** Bounds and fuel

    Recursive decoders are given the length of their blob (every level consumes a
    byte), marking the number of objects (every level marks one), walks of a run
    queue the number of threads, searches of a free list the number of blocks, the
    decompressor the bits of its input; each theorem about them excludes [NoFuel].
    The engine takes the number of instructions as fuel, and [engine_runs_method]
    gives a number that is enough for every terminating program.

    ** What is not modelled

    - Hardware and output: the assembly stubs, interrupt controllers, timers, serial
      ports, framebuffer and text consoles, panics and boot banners have no state the
      kernel's logic depends on.
    - The instructions of the interpreter that reach into the type system (the
      resolution of callees, object creation, fields, boxing, tokens) are a parameter
      of the engine; the entry of a resolved method is modelled in [Call], arrays in
      [Arrays] and string literals in [ManagedStrings], as steps of their own.
      Their helpers resolve members across assemblies, prepare types and run native
      routines; the loader, the binder, type preparation, delegates, member resolution
      and the intrinsics behind them are left out, as are the native libraries in
      [src/libraries] and the self tests.
    - The type test of a catch clause and the allocation of exception objects are
      parameters of [Exceptions]; the values of the instruction codes come from a
      table the build generates and are the parameter [OpcodeTable] of [Opcode].

    ** Extending it

    The next parts in reach are the field instructions and boxing with the rest of
    [zaclr_object.cpp], and the resolution of callees with the loader. *)

From stdpp Require Export base option list gmap.
From Stdlib Require Export ZArith Lia.
From Stdlib Require Import Zbitwise.

#[export] Set Default Goal Selector "1".

Declare Scope zapada_scope.
Delimit Scope zapada_scope with zapada.
#[global] Open Scope zapada_scope.
#[global] Open Scope Z_scope.

Create HintDb zapada discriminated.
Create Rewrite HintDb zapada_simp.

(** ** Fixed-width integers

    The sources compute on [uint8_t], [uint16_t], [uint32_t], [uint64_t]
    (equally [size_t], [uintptr_t] on the two 64-bit targets) and on the signed
    types of the same widths.  A value is a [Z]; every operation that can leave
    the width of its C type is followed by one of the conversions below. *)

Definition u8 (x : Z) : Z := x mod 2 ^ 8.
Definition u16 (x : Z) : Z := x mod 2 ^ 16.
Definition u32 (x : Z) : Z := x mod 2 ^ 32.
Definition u64 (x : Z) : Z := x mod 2 ^ 64.

Definition i32 (x : Z) : Z := if u32 x <? 2 ^ 31 then u32 x else u32 x - 2 ^ 32.
Definition i64 (x : Z) : Z := if u64 x <? 2 ^ 63 then u64 x else u64 x - 2 ^ 64.

Definition UINT32_MAX : Z := 0xFFFFFFFF.

Arguments u8 : simpl never.
Arguments u16 : simpl never.
Arguments u32 : simpl never.
Arguments u64 : simpl never.
Arguments i32 : simpl never.
Arguments i64 : simpl never.

(** [flag_set f m] is the C test [(f & m) != 0u]. *)
Definition flag_set (f m : Z) : bool := negb (Z.land f m =? 0).

(** ** Arrays

    An array of the program is a list indexed by [Z].  [get] answers [None]
    outside the array; [set] is only used at indices the program has checked, and
    like the list update it leaves the list alone elsewhere. *)

Definition get {A} (l : list A) (i : Z) : option A :=
  if i <? 0 then None else l !! Z.to_nat i.

Definition set {A} (l : list A) (i : Z) (x : A) : list A :=
  if i <? 0 then l else <[Z.to_nat i := x]> l.

Definition zlength {A} (l : list A) : Z := Z.of_nat (length l).

Notation "l .@ i" := (get l i) (at level 20, i at level 9) : zapada_scope.

(** The index of the first element that satisfies a test, counted from [i]: the
    shape of every linear scan of the sources. *)
Fixpoint find_from {A} (p : A -> bool) (l : list A) (i : Z) : option Z :=
  match l with
  | [] => None
  | x :: l' => if p x then Some i else find_from p l' (i + 1)
  end.

Definition find_index {A} (p : A -> bool) (l : list A) : option Z := find_from p l 0.

(** ** Tactics *)

(** Case analysis on the conditional of the goal (or of a hypothesis), with the
    boolean comparison turned into the proposition it decides. *)
Ltac bool_cases :=
  repeat match goal with
  | H : (_ && _)%bool = true |- _ => apply andb_true_iff in H as [? ?]
  | H : (_ || _)%bool = false |- _ => apply orb_false_iff in H as [? ?]
  | H : negb _ = true |- _ => apply negb_true_iff in H
  | H : negb _ = false |- _ => apply negb_false_iff in H
  | H : (_ <? _) = true |- _ => apply Z.ltb_lt in H
  | H : (_ <? _) = false |- _ => apply Z.ltb_ge in H
  | H : (_ <=? _) = true |- _ => apply Z.leb_le in H
  | H : (_ <=? _) = false |- _ => apply Z.leb_gt in H
  | H : (_ =? _) = true |- _ => apply Z.eqb_eq in H
  | H : (_ =? _) = false |- _ => apply Z.eqb_neq in H
  end.

Ltac case_if :=
  match goal with
  | |- context [if ?b then _ else _] => destruct b eqn:?
  end; bool_cases.

Ltac case_if_in H :=
  match type of H with
  | context [if ?b then _ else _] => destruct b eqn:?
  end; bool_cases.

(** Linear arithmetic with quotients and remainders by constants. *)
Ltac zlia := Z.div_mod_to_equations; lia.

(** ** Facts about fixed-width integers *)

Lemma u8_range x : 0 <= u8 x < 256.
Proof. unfold u8. apply (Z.mod_pos_bound x (2 ^ 8)). lia. Qed.

Lemma u16_range x : 0 <= u16 x < 65536.
Proof. unfold u16. apply (Z.mod_pos_bound x (2 ^ 16)). lia. Qed.

Lemma u32_range x : 0 <= u32 x < 2 ^ 32.
Proof. unfold u32. apply Z.mod_pos_bound. lia. Qed.

Lemma u64_range x : 0 <= u64 x < 2 ^ 64.
Proof. unfold u64. apply Z.mod_pos_bound. lia. Qed.

Lemma u8_id x : 0 <= x < 256 -> u8 x = x.
Proof. intros. apply Z.mod_small. lia. Qed.

Lemma u16_id x : 0 <= x < 65536 -> u16 x = x.
Proof. intros. apply Z.mod_small. lia. Qed.

Lemma u32_id x : 0 <= x < 2 ^ 32 -> u32 x = x.
Proof. intros. apply Z.mod_small. lia. Qed.

Lemma u8_le x : 0 <= x -> u8 x <= x.
Proof. intros. apply Z.mod_le; lia. Qed.

Lemma u32_le x : 0 <= x -> u32 x <= x.
Proof. intros. apply Z.mod_le; lia. Qed.

Lemma i32_id x : - 2 ^ 31 <= x < 2 ^ 31 -> i32 x = x.
Proof.
  intros Hx. unfold i32, u32. destruct (Z.ltb_spec x 0).
  - rewrite <- (Z.mod_unique x (2 ^ 32) (-1) (x + 2 ^ 32)) by lia. case_if; lia.
  - rewrite Z.mod_small by lia. case_if; lia.
Qed.

Lemma i64_id x : - 2 ^ 63 <= x < 2 ^ 63 -> i64 x = x.
Proof.
  intros Hx. unfold i64, u64. destruct (Z.ltb_spec x 0).
  - rewrite <- (Z.mod_unique x (2 ^ 64) (-1) (x + 2 ^ 64)) by lia. case_if; lia.
  - rewrite Z.mod_small by lia. case_if; lia.
Qed.

#[export] Hint Resolve u8_range u16_range u32_range u64_range : zapada.

(** ** Facts about bit operations *)

Lemma lor_range w a b : 0 <= w -> 0 <= a < 2 ^ w -> 0 <= b < 2 ^ w -> 0 <= Z.lor a b < 2 ^ w.
Proof.
  intros Hw Ha Hb. split; [apply Z.lor_nonneg; lia|].
  assert (Z.lor a b = Z.lor a b mod 2 ^ w) as ->; [|apply Z.mod_pos_bound; lia].
  rewrite <- Z.land_ones by lia. rewrite Z.land_lor_distr_l, !Z.land_ones by lia.
  rewrite !Z.mod_small by lia. reflexivity.
Qed.

(** Disjoint bit fields are added. *)
Lemma lor_shiftl_add n a b : 0 <= n -> 0 <= b < 2 ^ n -> Z.lor (Z.shiftl a n) b = a * 2 ^ n + b.
Proof.
  intros Hn Hb. rewrite Z.shiftl_mul_pow2 by lia.
  assert (Z.land (a * 2 ^ n) b = 0) as Hl.
  { rewrite <- (Z.mod_small b (2 ^ n)) by lia. rewrite <- Z.land_ones by lia.
    apply Z.bits_inj'. intros i Hi. rewrite !Z.land_spec, Z.bits_0.
    destruct (Z_lt_ge_dec i n).
    - by rewrite Z.mul_pow2_bits_low by lia.
    - rewrite Z.ones_spec_high by lia. by rewrite !andb_false_r. }
  by rewrite <- Z.lxor_lor, <- Z.add_nocarry_lxor.
Qed.

Lemma land_range a m : 0 <= a -> 0 <= m -> 0 <= Z.land a m <= m.
Proof.
  intros Ha Hm. rewrite <- (Z2N.id a), <- (Z2N.id m) by lia.
  rewrite <- N2Z.inj_land. pose proof (N.land_le_r (Z.to_N a) (Z.to_N m)). lia.
Qed.

(** Clearing the low bits rounds down to a multiple of the power of two. *)
Lemma land_lnot_ones x k : 0 <= k -> Z.land x (Z.lnot (2 ^ k - 1)) = x / 2 ^ k * 2 ^ k.
Proof.
  intros Hk. rewrite <- Z.ldiff_land. rewrite Z.sub_1_r, <- Z.ones_equiv.
  rewrite Z.ldiff_ones_r by done. by rewrite Z.shiftl_mul_pow2, Z.shiftr_div_pow2 by done.
Qed.

Lemma u64_id x : 0 <= x < 2 ^ 64 -> u64 x = x.
Proof. intros. apply Z.mod_small. lia. Qed.

(** ** Facts about arrays *)

Section arrays.
Context {A : Type}.
Implicit Types (l : list A) (x y : A) (i j : Z).

Lemma get_Some_range l i x : l .@ i = Some x -> 0 <= i < zlength l.
Proof.
  unfold get, zlength. case_if; [discriminate|]. intros H%lookup_lt_Some. lia.
Qed.

Lemma get_Some l i : 0 <= i < zlength l -> exists x, l .@ i = Some x.
Proof.
  unfold get, zlength. intros. case_if; [lia|].
  destruct (lookup_lt_is_Some_2 l (Z.to_nat i)) as [x Hx]; [lia|eauto].
Qed.

Lemma get_nil i : @nil A .@ i = None.
Proof. unfold get. by destruct (i <? 0). Qed.

Lemma get_cons_inv x l i y :
  (x :: l) .@ i = Some y -> (i = 0 /\ y = x) \/ (0 < i /\ l .@ (i - 1) = Some y).
Proof.
  unfold get. case_if; [done|]. destruct (Z.eq_dec i 0) as [->|Hi]; [left; simpl in *; split; congruence|].
  right. destruct (Z.ltb_spec (i - 1) 0); [lia|]. replace (Z.to_nat i) with (S (Z.to_nat (i - 1))) in * by lia.
  split; [lia|done].
Qed.

Lemma get_None l i : zlength l <= i -> l .@ i = None.
Proof.
  unfold get, zlength. intros. case_if; [reflexivity|]. apply lookup_ge_None_2. lia.
Qed.

Lemma zlength_nonneg l : 0 <= zlength l.
Proof. unfold zlength. lia. Qed.

Lemma zlength_set l i x : zlength (set l i x) = zlength l.
Proof. unfold zlength, set. case_if; [reflexivity|]. by rewrite length_insert. Qed.

Lemma get_set_eq l i x : 0 <= i < zlength l -> set l i x .@ i = Some x.
Proof.
  unfold get, set, zlength. intros. case_if; [lia|].
  apply list_lookup_insert_eq. lia.
Qed.

Lemma get_set_ne l i j x : i <> j -> set l i x .@ j = l .@ j.
Proof.
  unfold get, set. intros. case_if; [reflexivity|]. case_if; [reflexivity|].
  apply list_lookup_insert_ne. lia.
Qed.

Lemma get_app_l l1 l2 i : i < zlength l1 -> (l1 ++ l2) .@ i = l1 .@ i.
Proof.
  unfold get, zlength. intros. case_if; [reflexivity|]. apply lookup_app_l. lia.
Qed.

Lemma get_app_r l1 l2 i : zlength l1 <= i -> (l1 ++ l2) .@ i = l2 .@ (i - zlength l1).
Proof.
  unfold get, zlength. intros. case_if; [lia|]. case_if; [lia|].
  rewrite lookup_app_r by lia. f_equal. lia.
Qed.

Lemma zlength_app l1 l2 : zlength (l1 ++ l2) = zlength l1 + zlength l2.
Proof. unfold zlength. rewrite length_app. lia. Qed.

Lemma zlength_cons x l : zlength (x :: l) = 1 + zlength l.
Proof. unfold zlength. simpl length. lia. Qed.

Lemma get_In l i x : l .@ i = Some x -> x ∈ l.
Proof. unfold get. case_if; [discriminate|]. apply list_elem_of_lookup_2. Qed.

Lemma In_get l x : x ∈ l -> exists i, l .@ i = Some x.
Proof.
  intros [n Hn]%list_elem_of_lookup. exists (Z.of_nat n). unfold get.
  case_if; [lia|]. by rewrite Nat2Z.id.
Qed.

(** *** Linear scans *)

Lemma find_from_Some p l k i :
  find_from p l k = Some i ->
  k <= i < k + zlength l /\ (exists x, l .@ (i - k) = Some x /\ p x = true) /\
  (forall j x, k <= j < i -> l .@ (j - k) = Some x -> p x = false).
Proof.
  unfold get, zlength. revert k. induction l as [|y l IH]; intros k; simpl; [discriminate|].
  destruct (p y) eqn:Hy.
  - intros [= <-]. split; [lia|]. rewrite Z.sub_diag. split; [by eauto|]. intros; lia.
  - intros (Hr & (x & Hx & Hp) & Hlt)%IH. split; [lia|].
    assert (forall j, k + 1 <= j -> Z.to_nat (j - k) = S (Z.to_nat (j - (k + 1)))) as Hs by lia.
    split.
    + exists x. case_if_in Hx; [discriminate|]. case_if; [lia|]. by rewrite Hs by lia.
    + intros j z Hj. case_if; [discriminate|].
      destruct (Z.eq_dec j k) as [->|]; [rewrite Z.sub_diag; by intros [= <-]|].
      rewrite Hs by lia. simpl. intros Hz. apply (Hlt j z); [lia|]. by case_if; [lia|].
Qed.

Lemma find_from_None p l k : find_from p l k = None -> forall x, x ∈ l -> p x = false.
Proof.
  revert k. induction l as [|y l IH]; intros k H x Hx; [by apply elem_of_nil in Hx|].
  simpl in H. destruct (p y) eqn:Hy; [discriminate|].
  apply elem_of_cons in Hx as [->|Hx]; [done|]. by eapply IH.
Qed.

Lemma find_index_Some p l i :
  find_index p l = Some i ->
  exists x, l .@ i = Some x /\ p x = true /\
            forall j y, 0 <= j < i -> l .@ j = Some y -> p y = false.
Proof.
  intros (Hr & (x & Hx & Hp) & Hlt)%find_from_Some.
  rewrite Z.sub_0_r in Hx. exists x. split; [done|]. split; [done|].
  intros j y Hj Hy. apply (Hlt j y); [lia|]. by rewrite Z.sub_0_r.
Qed.

Lemma find_index_None p l : find_index p l = None -> forall x, x ∈ l -> p x = false.
Proof. apply find_from_None. Qed.

Lemma find_index_range p l i : find_index p l = Some i -> 0 <= i < zlength l.
Proof. intros (Hr & _)%find_from_Some. lia. Qed.

Lemma find_index_is_Some p l x : x ∈ l -> p x = true -> exists i, find_index p l = Some i.
Proof.
  intros Hx Hp. destruct (find_index p l) eqn:E; [by eauto|].
  pose proof (find_index_None p l E x Hx). congruence.
Qed.

End arrays.

#[export] Hint Resolve zlength_nonneg : zapada.
#[export] Hint Rewrite @zlength_set @zlength_app @zlength_cons : zapada_simp.

(** ** Sums over arrays *)

Fixpoint zsum {A} (f : A -> Z) (l : list A) : Z :=
  match l with [] => 0 | x :: l => f x + zsum f l end.

Section sums.
Context {A : Type} (f : A -> Z).
Implicit Types (l : list A).

Lemma zsum_app l1 l2 : zsum f (l1 ++ l2) = zsum f l1 + zsum f l2.
Proof. induction l1; simpl; lia. Qed.

Lemma zsum_set l i x y : l .@ i = Some x -> zsum f (set l i y) = zsum f l - f x + f y.
Proof.
  unfold get, set. case_if; [done|]. intros Hx.
  assert (l = take (Z.to_nat i) l ++ x :: drop (S (Z.to_nat i)) l) as Hl
    by (by rewrite take_drop_middle).
  rewrite insert_take_drop by (by eapply lookup_lt_Some).
  rewrite Hl at 3. rewrite !zsum_app. simpl. lia.
Qed.

Lemma zsum_nonneg l : (forall x, x ∈ l -> 0 <= f x) -> 0 <= zsum f l.
Proof.
  induction l as [|x l IH]; intros Hf; simpl; [done|].
  pose proof (Hf x (list_elem_of_here _ _)).
  assert (0 <= zsum f l) by (apply IH; intros y Hy; apply Hf; by apply list_elem_of_further). lia.
Qed.

Lemma zsum_get l i x : (forall y, y ∈ l -> 0 <= f y) -> l .@ i = Some x -> f x <= zsum f l.
Proof.
  intros Hf Hx. unfold get in Hx. case_if_in Hx; [done|].
  assert (l = take (Z.to_nat i) l ++ x :: drop (S (Z.to_nat i)) l) as Hl by (by rewrite take_drop_middle).
  rewrite Hl in Hf |- *. rewrite zsum_app. simpl.
  pose proof (zsum_nonneg (take (Z.to_nat i) l)). pose proof (zsum_nonneg (drop (S (Z.to_nat i)) l)).
  assert (0 <= zsum f (take (Z.to_nat i) l)) by (apply H; intros; apply Hf; set_solver).
  assert (0 <= zsum f (drop (S (Z.to_nat i)) l)) by (apply H0; intros; apply Hf; set_solver). lia.
Qed.

Lemma zsum_zero l : (forall x, x ∈ l -> f x = 0) -> zsum f l = 0.
Proof.
  induction l as [|x l IH]; intros Hf; simpl; [done|].
  rewrite (Hf x (list_elem_of_here _ _)), IH; [done|]. intros y Hy. apply Hf. by apply list_elem_of_further.
Qed.

Lemma zsum_le_length l : (forall x, x ∈ l -> f x <= 1) -> zsum f l <= zlength l.
Proof.
  induction l as [|x l IH]; intros Hf; simpl; [done|].
  pose proof (Hf x (list_elem_of_here _ _)).
  assert (zsum f l <= zlength l) by (apply IH; intros y Hy; apply Hf; by apply list_elem_of_further).
  unfold zlength in *. simpl. lia.
Qed.

Lemma zsum_concat (ll : list (list A)) : zsum f (concat ll) = zsum (zsum f) ll.
Proof. induction ll as [|l ll IH]; simpl; [done|]. rewrite zsum_app. lia. Qed.

Lemma zsum_perm l1 l2 : l1 ≡ₚ l2 -> zsum f l1 = zsum f l2.
Proof. induction 1; simpl; lia. Qed.

Lemma zsum_replicate n x : zsum f (replicate n x) = Z.of_nat n * f x.
Proof. induction n; simpl; lia. Qed.
End sums.

Lemma zsum_ext {A} (f g : A -> Z) l : (forall x, x ∈ l -> f x = g x) -> zsum f l = zsum g l.
Proof.
  induction l as [|x l IH]; intros Hf; simpl; [done|].
  rewrite (Hf x (list_elem_of_here _ _)), IH; [done|]. intros y Hy. apply Hf. by apply list_elem_of_further.
Qed.

(** An element of a list without duplicates has one position. *)
Lemma split_unique {A} (x : A) l1 l2 k1 k2 :
  NoDup (l1 ++ x :: l2) -> l1 ++ x :: l2 = k1 ++ x :: k2 -> l1 = k1 /\ l2 = k2.
Proof.
  revert k1. induction l1 as [|y l1 IH]; intros k1; simpl.
  - intros [Hx _]%NoDup_cons. destruct k1 as [|z k1]; simpl; [by intros [= ->]|]. intros [= -> ->]. set_solver.
  - intros [Hy Hn]%NoDup_cons. destruct k1 as [|z k1]; simpl; [intros [= -> <-]; set_solver|].
    intros [= -> E]. by destruct (IH k1 Hn E) as [-> ->].
Qed.

(** Replacing one list of a list of lists. *)
Lemma concat_set {A} (ll : list (list A)) i l l' : ll .@ i = Some l ->
  exists a b, concat ll = a ++ l ++ b /\ concat (set ll i l') = a ++ l' ++ b.
Proof.
  unfold get, set. case_if; [done|]. intros Hl.
  exists (concat (take (Z.to_nat i) ll)), (concat (drop (S (Z.to_nat i)) ll)).
  split.
  - rewrite <- (take_drop_middle ll (Z.to_nat i) l) at 1 by done. by rewrite concat_app.
  - rewrite insert_take_drop by (by eapply lookup_lt_Some). by rewrite concat_app.
Qed.

Lemma elem_of_concat {A} (ll : list (list A)) x : x ∈ concat ll <-> exists i l, ll .@ i = Some l /\ x ∈ l.
Proof.
  rewrite list_elem_of_In, in_concat. split.
  - intros (l & Hl & Hx). apply list_elem_of_In in Hl. apply list_elem_of_In in Hx.
    apply In_get in Hl as (i & Hi). by exists i, l.
  - intros (i & l & Hi & Hx). exists l. split; apply list_elem_of_In; [by eapply get_In|done].
Qed.

(** A list of lists without duplicates, within a list or across lists. *)
Lemma NoDup_concat_get {A} (ll : list (list A)) :
  (forall i l, ll .@ i = Some l -> NoDup l) ->
  (forall i j l k x, ll .@ i = Some l -> ll .@ j = Some k -> x ∈ l -> x ∈ k -> i = j) ->
  NoDup (concat ll).
Proof.
  assert (forall (l : list A) ll i, 0 <= i -> (l :: ll) .@ (i + 1) = ll .@ i) as Hs.
  { intros l ll' i Hi. unfold get. destruct (Z.ltb_spec (i + 1) 0), (Z.ltb_spec i 0); try lia.
    by replace (Z.to_nat (i + 1)) with (S (Z.to_nat i)) by lia. }
  induction ll as [|l ll IH]; intros Hn Hd; simpl; [constructor|].
  apply NoDup_app. split; [by apply (Hn 0)|]. split.
  - intros x Hx (k & Hk & Hin)%list_elem_of_In%in_concat.
    apply list_elem_of_In in Hk. apply In_get in Hk as (j & Hj). apply list_elem_of_In in Hin.
    pose proof (get_Some_range _ _ _ Hj) as Hr.
    pose proof (Hd 0 (j + 1) l k x eq_refl) as He. rewrite Hs in He by lia. specialize (He Hj Hx Hin). lia.
  - apply IH.
    + intros i k Hk. pose proof (get_Some_range _ _ _ Hk). apply (Hn (i + 1)). by rewrite Hs by lia.
    + intros i j k k' x Hk Hk' Hx Hx'. pose proof (get_Some_range _ _ _ Hk). pose proof (get_Some_range _ _ _ Hk').
      enough (i + 1 = j + 1) by lia. eapply Hd; [| | exact Hx | exact Hx']; by rewrite Hs by lia.
Qed.
