(* ===== verification/Status.v ===== *)
(** * Status values and the outcome monad

    [zaclr_result] of [zaclr/include/zaclr_status.h], and the monad in which the
    fallible routines of the runtime are written.  An [outcome] separates the two
    ways a C routine can go wrong: it returns a status other than
    [ZACLR_STATUS_OK] ([Err]), or it performs an access the C language leaves
    undefined ([Fault]: a NULL pointer or a byte outside its buffer).  [NoFuel] is
    not a behaviour of the program: it says that the bound given to a recursive
    definition was too small, and the theorems exclude it. *)

From S2P Require Import Prelude.

(** ** zaclr_status.h *)

Inductive zaclr_status :=
| ZACLR_STATUS_OK
| ZACLR_STATUS_NOT_IMPLEMENTED
| ZACLR_STATUS_INVALID_ARGUMENT
| ZACLR_STATUS_OUT_OF_MEMORY
| ZACLR_STATUS_NOT_FOUND
| ZACLR_STATUS_ALREADY_EXISTS
| ZACLR_STATUS_BUFFER_TOO_SMALL
| ZACLR_STATUS_UNSUPPORTED
| ZACLR_STATUS_BAD_STATE
| ZACLR_STATUS_BAD_IMAGE
| ZACLR_STATUS_BAD_METADATA
| ZACLR_STATUS_DISPATCH_ERROR
| ZACLR_STATUS_TRACE_DROPPED.

Inductive zaclr_status_category :=
| ZACLR_STATUS_CATEGORY_GENERAL
| ZACLR_STATUS_CATEGORY_HOST
| ZACLR_STATUS_CATEGORY_RUNTIME
| ZACLR_STATUS_CATEGORY_PROCESS
| ZACLR_STATUS_CATEGORY_LOADER
| ZACLR_STATUS_CATEGORY_METADATA
| ZACLR_STATUS_CATEGORY_EXEC
| ZACLR_STATUS_CATEGORY_HEAP
| ZACLR_STATUS_CATEGORY_INTEROP
| ZACLR_STATUS_CATEGORY_DIAG.

#[global] Instance zaclr_status_eq_dec : EqDecision zaclr_status.
Proof. solve_decision. Defined.
#[global] Instance zaclr_status_category_eq_dec : EqDecision zaclr_status_category.
Proof. solve_decision. Defined.

Record zaclr_result := zaclr_result_make
  { status : zaclr_status; category : zaclr_status_category }.

#[global] Instance zaclr_result_eq_dec : EqDecision zaclr_result.
Proof. solve_decision. Defined.

Definition zaclr_result_ok : zaclr_result :=
  zaclr_result_make ZACLR_STATUS_OK ZACLR_STATUS_CATEGORY_GENERAL.

(** [is_ok r] is the test [r.status == ZACLR_STATUS_OK]. *)
Definition is_ok (r : zaclr_result) : bool := bool_decide (status r = ZACLR_STATUS_OK).

(** ** Outcomes *)

Inductive outcome (A : Type) :=
| Ret (a : A)
| Err (r : zaclr_result)
| Fault
| NoFuel.
Arguments Ret {A} _.
Arguments Err {A} _.
Arguments Fault {A}.
Arguments NoFuel {A}.

#[global] Instance outcome_ret : MRet outcome := fun A a => Ret a.
#[global] Instance outcome_bind : MBind outcome := fun A B f m =>
  match m with Ret a => f a | Err r => Err r | Fault => Fault | NoFuel => NoFuel end.

(** [guard b else r; k] is [if (!b) return r;]. *)
Notation "'require' b 'else' r ; k" := (if b then k else Err r)
  (at level 100, b at level 99, r at level 99, k at level 200, right associativity,
   format "'require'  b  'else'  r ;  '/' k") : zapada_scope.

(** A run that neither faults nor exhausts its bound. *)
Definition safe {A} (m : outcome A) : Prop := m <> Fault /\ m <> NoFuel.

(** A run that, when it returns normally, returns a value in [P], and is safe. *)
Definition safe_post {A} (m : outcome A) (P : A -> Prop) : Prop :=
  match m with Ret a => P a | Err _ => True | Fault | NoFuel => False end.

(** A C loop [for (index = i; index < n; ++index)] over a state, with the
    early exit of the outcome monad.  The counter is a mathematical integer: the
    bound [n] is a [uint32_t] wherever this is used, so the increment never
    wraps. *)
Fixpoint for_loop {S : Type} (fuel : nat) (i n : Z) (body : Z -> S -> outcome S) (s : S)
  : outcome S :=
  if i <? n then
    match fuel with
    | O => NoFuel
    | Datatypes.S fuel' => s' ← body i s; for_loop fuel' (i + 1) n body s'
    end
  else Ret s.

(** ** Reasoning about outcomes *)

Section outcomes.
Context {A B : Type}.
Implicit Types (m : outcome A) (f : A -> outcome B).

Lemma bind_Ret m f b : (m ≫= f) = Ret b -> exists a, m = Ret a /\ f a = Ret b.
Proof. destruct m; simpl; intros H; try discriminate. eauto. Qed.

Lemma Ret_bind a f : (Ret a ≫= f) = f a.
Proof. reflexivity. Qed.

Lemma Err_bind r f : (Err r ≫= f) = Err r.
Proof. reflexivity. Qed.

Lemma Fault_bind f : (Fault ≫= f) = Fault.
Proof. reflexivity. Qed.

Lemma NoFuel_bind f : (NoFuel ≫= f) = NoFuel.
Proof. reflexivity. Qed.

Lemma safe_post_bind m f (P : A -> Prop) (Q : B -> Prop) :
  safe_post m P -> (forall a, m = Ret a -> P a -> safe_post (f a) Q) -> safe_post (m ≫= f) Q.
Proof. destruct m; simpl; naive_solver. Qed.

Lemma safe_post_mono m (P Q : A -> Prop) :
  safe_post m P -> (forall a, m = Ret a -> P a -> Q a) -> safe_post m Q.
Proof. destruct m; simpl; naive_solver. Qed.

Lemma safe_post_safe m P : safe_post m P -> safe m.
Proof. unfold safe. destruct m; simpl; intros; split; (discriminate || contradiction). Qed.

Lemma safe_post_Ret m P a : safe_post m P -> m = Ret a -> P a.
Proof. by intros H ->. Qed.

Lemma safe_safe_post m : safe m -> safe_post m (fun _ => True).
Proof. unfold safe. destruct m; simpl; intros []; done. Qed.

Lemma safe_post_require (b : bool) r m (P : A -> Prop) :
  (b = true -> safe_post m P) -> safe_post (if b then m else Err r) P.
Proof. destruct b; simpl; naive_solver. Qed.
End outcomes.

Lemma is_ok_ok : is_ok zaclr_result_ok = true.
Proof. reflexivity. Qed.

(** The rule for loops: an invariant indexed by the counter, together with
    enough fuel for the iterations that remain. *)
Lemma for_loop_safe_post {S} (body : Z -> S -> outcome S) (I : Z -> S -> Prop) n fuel i s :
  n - i <= Z.of_nat fuel -> i <= n ->
  I i s ->
  (forall j t, i <= j < n -> I j t -> safe_post (body j t) (I (j + 1))) ->
  safe_post (for_loop fuel i n body s) (I n).
Proof.
  revert i s. induction fuel as [|fuel IH]; intros i s Hf Hin HI Hb; simpl.
  - case_if; [lia|]. assert (i = n) as -> by lia. done.
  - case_if; [|by assert (i = n) as -> by lia].
    eapply safe_post_bind; [apply Hb; [lia|done]|]. intros t _ Ht.
    apply IH; [lia|lia|done|]. intros; apply Hb; [lia|done].
Qed.

(** The same rule when each iteration consumes a resource [r], such as the bytes
    left in a buffer: the fuel is then bounded by the resource instead of by the
    number of iterations, which can be astronomically larger. *)
Lemma for_loop_consume {S} (body : Z -> S -> outcome S) (I : S -> Prop) (r : S -> Z) n fuel i s :
  r s < Z.of_nat fuel -> I s ->
  (forall t, I t -> 0 <= r t) ->
  (forall j t, I t -> safe_post (body j t) (fun t' => I t' /\ r t' < r t)) ->
  safe_post (for_loop fuel i n body s) (fun t => I t /\ r t <= r s).
Proof.
  revert i s. induction fuel as [|fuel IH]; intros i s Hf HI H0 Hb; simpl.
  - specialize (H0 s HI). lia.
  - case_if; [|by split; [|lia]].
    eapply safe_post_bind; [by apply Hb|]. intros t _ [Ht Hlt]; simpl in Ht, Hlt.
    eapply safe_post_mono; [apply IH; (done || lia)|]. intros u _ [??]. split; [done|lia].
Qed.

(** A loop whose body has no error exit has none. *)
Lemma for_loop_no_err {S} (body : Z -> S -> outcome S) n fuel i s r :
  (forall j t e, body j t <> Err e) -> for_loop fuel i n body s <> Err r.
Proof.
  intros Hb. revert i s. induction fuel as [|fuel IH]; intros i s; simpl; case_if; try done.
  pose proof (Hb i s) as Hbi. destruct (body i s) as [t|e| |]; simpl; done || auto.
Qed.
