(* ===== verification/Bytes.v ===== *)
(** * Byte buffers

    The read-only byte memory the loader parses (an assembly image) and the
    primitive reads of the metadata code: [read_u16]/[read_u32], the kernel's
    [kernel_strlen] and the string comparisons.  A pointer into the image is its
    offset; a read outside the image is a [Fault]. *)

From Stdlib Require Import Strings.Byte NArith.
From S2P Require Import Prelude Status.

Definition memory := list byte.

#[global] Instance byte_eq_decision : EqDecision byte := Byte.byte_eq_dec.

Definition byte_Z (b : byte) : Z := Z.of_N (Byte.to_N b).

Definition byte_of_Z (z : Z) : byte :=
  match Byte.of_N (Z.to_N (u8 z)) with Some b => b | None => x00 end.

(** Byte strings given by their codes. *)
Definition bytes_of (l : list Z) : memory := byte_of_Z <$> l.

(** A pointer into the image, [None] being [NULL]. *)
Definition ptr := option Z.

(** [struct zaclr_slice]: [data] is a pointer, [size] a [size_t]. *)
Record zaclr_slice := mk_slice { sl_data : ptr; sl_size : Z }.

Definition zero_slice : zaclr_slice := mk_slice None 0.

(** [struct zaclr_name_view]: [text] points to a NUL-terminated string that is
    never modified, and is represented by the characters before the NUL. *)
Record zaclr_name_view := mk_name { nv_text : option (list byte); nv_length : Z }.

Definition zero_name : zaclr_name_view := mk_name None 0.

(** ** Primitive reads *)

Definition read_u8 (m : memory) (p : Z) : outcome Z :=
  match m .@ p with Some b => Ret (byte_Z b) | None => Fault end.

Definition read_u16 (m : memory) (p : Z) : outcome Z :=
  b0 ← read_u8 m p;
  b1 ← read_u8 m (p + 1);
  Ret (Z.lor b0 (Z.shiftl b1 8)).

Definition read_u32 (m : memory) (p : Z) : outcome Z :=
  b0 ← read_u8 m p;
  b1 ← read_u8 m (p + 1);
  b2 ← read_u8 m (p + 2);
  b3 ← read_u8 m (p + 3);
  Ret (Z.lor (Z.lor (Z.lor b0 (Z.shiftl b1 8)) (Z.shiftl b2 16)) (Z.shiftl b3 24)).

(** The dereference of a pointer that may be [NULL]. *)
Definition deref (p : ptr) : outcome Z :=
  match p with Some a => Ret a | None => Fault end.

(** The scan of [kernel_strlen] from the start of [l], [n] characters seen. *)
Fixpoint strlen_from (l : memory) (n : Z) : outcome Z :=
  match l with
  | [] => Fault
  | b :: l' => if byte_Z b =? 0 then Ret n else strlen_from l' (n + 1)
  end.

Definition kernel_strlen (m : memory) (text : ptr) : outcome Z :=
  match text with
  | None => Ret 0
  | Some p => if p <? 0 then Fault else strlen_from (drop (Z.to_nat p) m) 0
  end.

(** The characters [p], ..., [p + n - 1] of the image. *)
Definition chars (m : memory) (p n : Z) : list byte :=
  take (Z.to_nat n) (drop (Z.to_nat p) m).

(** The comparison loop shared by the [strings_equal]/[text_equals] helpers,
    against a string literal: equal characters up to and including the
    terminator. *)
Fixpoint text_equals_at (m : memory) (p : Z) (lit : list byte) : outcome bool :=
  c ← read_u8 m p;
  match lit with
  | [] => Ret (c =? 0)
  | x :: lit' => if c =? byte_Z x then text_equals_at m (p + 1) lit' else Ret false
  end.

(** [strings_equal(lhs, rhs)] of the metadata reader where [rhs] is a literal
    (so not [NULL]); its characters are all non-NUL. *)
Definition strings_equal (m : memory) (lhs : ptr) (lit : list byte) : outcome bool :=
  match lhs with
  | None => Ret false
  | Some p => text_equals_at m p lit
  end.

(** Encoders, the inverses of the reads; they are specification. *)
Definition encode_u16 (v : Z) : list byte := [byte_of_Z v; byte_of_Z (v / 2 ^ 8)].
Definition encode_u32 (v : Z) : list byte :=
  [byte_of_Z v; byte_of_Z (v / 2 ^ 8); byte_of_Z (v / 2 ^ 16); byte_of_Z (v / 2 ^ 24)].

(** A slice that lies inside the image. *)
Definition slice_ok (m : memory) (s : zaclr_slice) : Prop :=
  0 <= sl_size s /\
  match sl_data s with
  | None => sl_size s = 0
  | Some d => 0 <= d /\ d + sl_size s <= zlength m
  end.

(** ** Facts *)

Lemma byte_Z_range b : 0 <= byte_Z b < 256.
Proof. unfold byte_Z. pose proof (Byte.to_N_bounded b). lia. Qed.

Lemma byte_Z_inj b c : byte_Z b = byte_Z c -> b = c.
Proof.
  unfold byte_Z. intros H%N2Z.inj.
  assert (Some b = Some c) as [=] by (rewrite <- !Byte.of_to_N; congruence). done.
Qed.

Lemma byte_Z_of_Z z : byte_Z (byte_of_Z z) = u8 z.
Proof.
  unfold byte_Z, byte_of_Z. pose proof (u8_range z).
  destruct (Byte.of_N (Z.to_N (u8 z))) as [b|] eqn:E.
  - apply Byte.to_of_N in E. rewrite E. lia.
  - apply Byte.of_N_None_iff in E. lia.
Qed.

Lemma byte_of_Z_Z b : byte_of_Z (byte_Z b) = b.
Proof. apply byte_Z_inj. rewrite byte_Z_of_Z. apply u8_id, byte_Z_range. Qed.

Lemma read_u8_post m p :
  0 <= p < zlength m -> safe_post (read_u8 m p) (fun v => 0 <= v < 256).
Proof.
  intros H. unfold read_u8. destruct (get_Some m p H) as [b ->]. simpl. apply byte_Z_range.
Qed.

Lemma read_u16_post m p :
  0 <= p -> p + 2 <= zlength m -> safe_post (read_u16 m p) (fun v => 0 <= v < 65536).
Proof.
  intros ??. unfold read_u16.
  eapply safe_post_bind; [apply read_u8_post; lia|]. intros b0 _ Hb0. simpl in Hb0.
  eapply safe_post_bind; [apply read_u8_post; lia|]. intros b1 _ Hb1. simpl in *.
  rewrite Z.lor_comm, lor_shiftl_add; lia.
Qed.

Lemma read_u32_post m p :
  0 <= p -> p + 4 <= zlength m -> safe_post (read_u32 m p) (fun v => 0 <= v < 2 ^ 32).
Proof.
  intros ??. unfold read_u32.
  do 4 (eapply safe_post_bind; [apply read_u8_post; lia|]; intros ? _ ?; simpl in *).
  repeat apply lor_range; rewrite ?Z.shiftl_mul_pow2; lia.
Qed.

#[export] Hint Resolve read_u8_post read_u16_post read_u32_post : zapada.

(** Reads succeed exactly inside the image. *)
Lemma read_u16_inv m p v : read_u16 m p = Ret v -> 0 <= p /\ p + 2 <= zlength m.
Proof.
  unfold read_u16, read_u8. destruct (m .@ p) eqn:E0; [|discriminate].
  destruct (m .@ (p + 1)) eqn:E1; [|discriminate].
  apply get_Some_range in E0, E1. lia.
Qed.

Lemma read_u32_inv m p v : read_u32 m p = Ret v -> 0 <= p /\ p + 4 <= zlength m.
Proof.
  unfold read_u32, read_u8. destruct (m .@ p) eqn:E0; [|discriminate].
  destruct (m .@ (p + 1)); [|discriminate]. destruct (m .@ (p + 2)); [|discriminate].
  destruct (m .@ (p + 3)) eqn:E1; [|discriminate].
  apply get_Some_range in E0, E1. lia.
Qed.

Lemma u8_shifts_16 v : 0 <= v < 2 ^ 16 -> u8 v + u8 (v / 2 ^ 8) * 2 ^ 8 = v.
Proof. intros. unfold u8. change (2 ^ 8) with 256 in *. change (2 ^ 16) with 65536 in *.
  change (2 ^ 24) with 16777216 in *. change (2 ^ 32) with 4294967296 in *. zlia. Qed.

Lemma u8_shifts_32 v : 0 <= v < 2 ^ 32 ->
  u8 v + u8 (v / 2 ^ 8) * 2 ^ 8 + u8 (v / 2 ^ 16) * 2 ^ 16 + u8 (v / 2 ^ 24) * 2 ^ 24 = v.
Proof. intros. unfold u8. change (2 ^ 8) with 256 in *. change (2 ^ 16) with 65536 in *.
  change (2 ^ 24) with 16777216 in *. change (2 ^ 32) with 4294967296 in *. zlia. Qed.

Lemma lor_le32 a b c d :
  0 <= a < 256 -> 0 <= b < 256 -> 0 <= c < 256 -> 0 <= d < 256 ->
  Z.lor (Z.lor (Z.lor a (Z.shiftl b 8)) (Z.shiftl c 16)) (Z.shiftl d 24)
  = a + b * 2 ^ 8 + c * 2 ^ 16 + d * 2 ^ 24.
Proof.
  intros. rewrite (Z.lor_comm a), (lor_shiftl_add 8) by lia.
  rewrite (Z.lor_comm _ (Z.shiftl c 16)), (lor_shiftl_add 16) by lia.
  rewrite (Z.lor_comm _ (Z.shiftl d 24)), (lor_shiftl_add 24) by lia. lia.
Qed.

Lemma lor_be32 a b c d :
  0 <= a < 256 -> 0 <= b < 256 -> 0 <= c < 256 -> 0 <= d < 256 ->
  Z.lor (Z.lor (Z.lor (Z.shiftl d 24) (Z.shiftl c 16)) (Z.shiftl b 8)) a
  = a + b * 2 ^ 8 + c * 2 ^ 16 + d * 2 ^ 24.
Proof.
  intros. rewrite <- lor_le32 by done.
  apply Z.bits_inj'. intros i _. rewrite !Z.lor_spec.
  destruct (Z.testbit a i), (Z.testbit (Z.shiftl b 8) i), (Z.testbit (Z.shiftl c 16) i); 
    by rewrite ?orb_true_r, ?orb_false_r.
Qed.

(** *** Strings *)

Lemma strlen_from_Ret l n k :
  strlen_from l n = Ret k -> n <= k < n + zlength l.
Proof.
  revert n. induction l as [|b l IH]; intros n; simpl; [discriminate|].
  unfold zlength in *. simpl. case_if; [intros [= <-]; lia|].
  intros H%IH. lia.
Qed.

Lemma strlen_from_safe l n :
  (exists b, b ∈ l /\ byte_Z b = 0) -> safe_post (strlen_from l n) (fun _ => True).
Proof.
  revert n. induction l as [|b l IH]; intros n (c & Hc & H0); [by apply elem_of_nil in Hc|].
  simpl. case_if; [done|]. apply IH. exists c.
  apply elem_of_cons in Hc as [->|]; [congruence|done].
Qed.

Lemma strlen_from_no_fuel l n : strlen_from l n <> NoFuel.
Proof. revert n. induction l; intros n; simpl; [done|]. case_if; [done|auto]. Qed.

Lemma kernel_strlen_no_err m p e : kernel_strlen m (Some p) <> Err e.
Proof.
  simpl. case_if; [done|]. generalize 0. induction (drop _ _); intros n; simpl; [done|].
  case_if; [done|auto].
Qed.

Lemma kernel_strlen_Ret m p k :
  kernel_strlen m (Some p) = Ret k -> 0 <= p /\ 0 <= k /\ p + k < zlength m.
Proof.
  simpl. case_if; [discriminate|]. intros H%strlen_from_Ret. unfold zlength in *.
  rewrite length_drop in H. lia.
Qed.

(** A string whose terminator lies in the image is scanned inside the image. *)
Lemma kernel_strlen_safe m p q :
  0 <= p <= q -> read_u8 m q = Ret 0 ->
  safe_post (kernel_strlen m (Some p)) (fun k => 0 <= k <= q - p).
Proof.
  intros Hp Hq. simpl. case_if; [lia|]. unfold read_u8 in Hq.
  destruct (m .@ q) as [b|] eqn:Hb; [|discriminate]. injection Hq as Hq.
  unfold get in Hb. case_if_in Hb; [discriminate|].
  assert (drop (Z.to_nat p) m !! Z.to_nat (q - p) = Some b) as Hl.
  { rewrite lookup_drop, <- Hb. f_equal. lia. }
  assert (forall l n i, l !! i = Some b ->
    safe_post (strlen_from l n) (fun k => n <= k <= n + Z.of_nat i)) as Hgen.
  { clear -Hq. induction l as [|c l IH]; intros n i Hi; [done|]. simpl.
    case_if; [simpl; lia|]. destruct i as [|i]; simpl in Hi; [congruence|].
    eapply safe_post_mono; [by apply IH|]. simpl. lia. }
  eapply safe_post_mono; [by apply Hgen|]. simpl. lia.
Qed.

(** Comparing a terminated string with a literal stays inside the image. *)
Lemma text_equals_at_safe m lit p q :
  0 <= p <= q -> read_u8 m q = Ret 0 ->
  Forall (fun c => byte_Z c <> 0) lit ->
  safe_post (text_equals_at m p lit) (fun _ => True).
Proof.
  intros Hp Hq Hl. revert p Hp. induction Hl as [|x lit Hx Hl IH]; intros p Hp; simpl;
    assert (zlength m > q) by
      (unfold read_u8 in Hq; destruct (m .@ q) eqn:E; [apply get_Some_range in E; lia|discriminate]).
  - eapply safe_post_bind; [apply read_u8_post; lia|]. done.
  - eapply safe_post_bind; [apply read_u8_post; lia|]. intros c Hc _. simpl.
    case_if; [|done]. apply IH.
    destruct (Z.eq_dec p q) as [->|]; [|lia]. congruence.
Qed.


(** *** Segments

    [seg m p l]: the bytes [l] stand in the image from offset [p] on. *)
Definition seg (m : memory) (p : Z) (l : list byte) : Prop :=
  forall i b, l .@ i = Some b -> m .@ (p + i) = Some b.

Lemma seg_nil m p : seg m p [].
Proof. intros i b. unfold get. case_if; [done|]. by rewrite lookup_nil. Qed.

Lemma seg_cons m p x l : seg m p (x :: l) <-> m .@ p = Some x /\ seg m (p + 1) l.
Proof.
  unfold seg. split.
  - intros H. split.
    + rewrite <- (Z.add_0_r p). by apply H.
    + intros i b Hi. pose proof (get_Some_range _ _ _ Hi). rewrite <- Z.add_assoc. apply H.
      rewrite <- Hi. unfold get. repeat case_if; try lia.
      by replace (Z.to_nat (1 + i)) with (S (Z.to_nat i)) by lia.
  - intros [Hx H] i b Hi. pose proof (get_Some_range _ _ _ Hi).
    destruct (Z.eq_dec i 0) as [->|].
    + rewrite Z.add_0_r. unfold get in Hi. simpl in Hi. congruence.
    + replace (p + i) with (p + 1 + (i - 1)) by lia. apply H. rewrite <- Hi.
      unfold get. repeat case_if; try lia.
      by replace (Z.to_nat i) with (S (Z.to_nat (i - 1))) by lia.
Qed.

Lemma seg_app m p l1 l2 : seg m p (l1 ++ l2) <-> seg m p l1 /\ seg m (p + zlength l1) l2.
Proof.
  revert p. induction l1 as [|x l1 IH]; intros p.
  - unfold zlength. simpl. rewrite Z.add_0_r. pose proof (seg_nil m p). tauto.
  - simpl. rewrite !seg_cons, IH. unfold zlength. simpl length.
    replace (p + Z.of_nat (S (length l1))) with (p + 1 + Z.of_nat (length l1)) by lia. tauto.
Qed.

Lemma seg_refl m : seg m 0 m.
Proof. by intros i b. Qed.

Lemma seg_read_u8 m p x l : seg m p (x :: l) -> read_u8 m p = Ret (byte_Z x).
Proof. unfold read_u8. intros [-> _]%seg_cons. done. Qed.

Lemma seg_read_u16 m p v : 0 <= v < 2 ^ 16 -> seg m p (encode_u16 v) -> read_u16 m p = Ret v.
Proof.
  intros Hv Hseg. unfold encode_u16 in Hseg. rewrite !seg_cons in Hseg. destruct Hseg as (H0 & H1 & _).
  unfold read_u16, read_u8. rewrite H0, H1. simpl. rewrite !byte_Z_of_Z.
  f_equal. rewrite Z.lor_comm, lor_shiftl_add by (auto with zapada; lia).
  rewrite <- (u8_shifts_16 v) at 3 by done. lia.
Qed.

Lemma seg_read_u32 m p v : 0 <= v < 2 ^ 32 -> seg m p (encode_u32 v) -> read_u32 m p = Ret v.
Proof.
  intros Hv Hseg. unfold encode_u32 in Hseg. rewrite !seg_cons in Hseg.
  destruct Hseg as (H0 & H1 & H2 & H3 & _).
  replace (p + 1 + 1 + 1) with (p + 3) in H3 by lia. replace (p + 1 + 1) with (p + 2) in H2 by lia.
  unfold read_u32, read_u8. rewrite H0, H1, H2, H3. simpl. rewrite !byte_Z_of_Z.
  f_equal. rewrite lor_le32 by auto with zapada. by apply u8_shifts_32.
Qed.

(** A property of bytes that holds by computation. *)
Lemma byte_cases (f : Z -> bool) n :
  forallb f (seqZ 0 n) = true -> forall x, 0 <= x < n -> f x = true.
Proof.
  intros H x Hx. rewrite forallb_forall in H. apply H.
  apply list_elem_of_In, elem_of_seqZ. lia.
Qed.
