(* ===== verification/Token.v ===== *)
(** * Metadata tokens

    [zaclr/metadata/zaclr_token.h] and [zaclr_token.cpp]: a token packs a table
    number in its high byte and a row number in the low 24 bits.  A pointer to a
    token that may be [NULL] is an [option]. *)

From S2P Require Import Prelude.

(** [enum zaclr_token_table]. *)
Definition ZACLR_TOKEN_TABLE_INVALID : Z := 0xFF.
Definition ZACLR_TOKEN_TABLE_MODULE : Z := 0x00.
Definition ZACLR_TOKEN_TABLE_TYPEREF : Z := 0x01.
Definition ZACLR_TOKEN_TABLE_TYPEDEF : Z := 0x02.
Definition ZACLR_TOKEN_TABLE_FIELD : Z := 0x04.
Definition ZACLR_TOKEN_TABLE_METHOD : Z := 0x06.
Definition ZACLR_TOKEN_TABLE_MEMBERREF : Z := 0x0A.
Definition ZACLR_TOKEN_TABLE_TYPESPEC : Z := 0x1B.
Definition ZACLR_TOKEN_TABLE_ASSEMBLYREF : Z := 0x23.
Definition ZACLR_TOKEN_TABLE_METHODSPEC : Z := 0x2B.

Record zaclr_token := zaclr_token_make { raw : Z }.

#[global] Instance zaclr_token_eq_dec : EqDecision zaclr_token.
Proof. solve_decision. Defined.

Definition zaclr_token_table (token : option zaclr_token) : Z :=
  match token with
  | Some t => Z.land (Z.shiftr (raw t) 24) 0xFF
  | None => ZACLR_TOKEN_TABLE_INVALID
  end.

Definition zaclr_token_row (token : option zaclr_token) : Z :=
  match token with
  | Some t => Z.land (raw t) 0x00FFFFFF
  | None => 0
  end.

Definition zaclr_token_is_nil (token : option zaclr_token) : bool :=
  match token with
  | None => true
  | Some _ => zaclr_token_row token =? 0
  end.

Definition zaclr_token_matches_table (token : option zaclr_token) (table : Z) : bool :=
  match token with
  | None => false
  | Some _ => (zaclr_token_table token =? table) && negb (zaclr_token_is_nil token)
  end.

(** [((uint32_t)table << 24) | row], the expression by which the sources build
    a token. *)
Definition token_of (table row : Z) : zaclr_token :=
  zaclr_token_make (Z.lor (Z.shiftl table 24) row).

(** ** Facts *)

Lemma token_of_raw table row :
  0 <= row < 2 ^ 24 -> raw (token_of table row) = table * 2 ^ 24 + row.
Proof. intros. unfold token_of. simpl raw. apply lor_shiftl_add; lia. Qed.

Lemma token_table_of table row :
  0 <= table < 256 -> 0 <= row < 2 ^ 24 -> zaclr_token_table (Some (token_of table row)) = table.
Proof.
  intros. unfold zaclr_token_table. rewrite token_of_raw by done.
  change 0xFF with (Z.ones 8). rewrite Z.land_ones, Z.shiftr_div_pow2 by lia.
  rewrite Z.div_add_l, (Z.div_small row), Z.add_0_r by lia. apply Z.mod_small. lia.
Qed.

Lemma token_row_of table row :
  0 <= table < 256 -> 0 <= row < 2 ^ 24 -> zaclr_token_row (Some (token_of table row)) = row.
Proof.
  intros. unfold zaclr_token_row. rewrite token_of_raw by done.
  change 0x00FFFFFF with (Z.ones 24). rewrite Z.land_ones by lia.
  rewrite Z.add_comm, Z.mod_add by lia. apply Z.mod_small. lia.
Qed.

(** Packing and unpacking a token are inverse on tables below 256 and rows below
    2^24, and a non-zero row makes a token of its table and of no other. *)
Lemma token_roundtrip table row :
  0 <= table < 256 -> 0 < row < 2 ^ 24 ->
  zaclr_token_table (Some (token_of table row)) = table /\
  zaclr_token_row (Some (token_of table row)) = row /\
  forall t, zaclr_token_matches_table (Some (token_of table row)) t = (table =? t).
Proof.
  intros Ht Hr. assert (0 <= row < 2 ^ 24) by lia.
  split; [by apply token_table_of|]. split; [by apply token_row_of|].
  intros t. unfold zaclr_token_matches_table, zaclr_token_is_nil.
  rewrite token_table_of, token_row_of by done.
  assert ((row =? 0) = false) as -> by lia. apply andb_true_r.
Qed.
