(* ===== verification/Signature.v ===== *)
(** * Metadata signatures

    [zaclr/metadata/zaclr_signature.h] and [zaclr_signature.cpp]: the decoder of
    ECMA-335 compressed integers, the recursive decoder of one type, the parsers
    of method signatures and of generic instantiations, and the accessor of one
    parameter.  All of them read a slice of the image.  Out-parameters are
    results; a routine that returns an error status leaves them unspecified and
    every caller discards them, so they are not part of [Err]. *)

From S2P Require Import Prelude Status Bytes Token.

Definition bad_metadata : zaclr_result :=
  zaclr_result_make ZACLR_STATUS_BAD_METADATA ZACLR_STATUS_CATEGORY_METADATA.

Definition invalid_argument : zaclr_result :=
  zaclr_result_make ZACLR_STATUS_INVALID_ARGUMENT ZACLR_STATUS_CATEGORY_METADATA.

(** ** Constants and records *)

Definition ZACLR_SIGNATURE_FLAG_METHOD : Z := 0x1.

(** [enum zaclr_element_type]. *)
Definition ZACLR_ELEMENT_TYPE_VOID : Z := 0x01.
Definition ZACLR_ELEMENT_TYPE_BOOLEAN : Z := 0x02.
Definition ZACLR_ELEMENT_TYPE_CHAR : Z := 0x03.
Definition ZACLR_ELEMENT_TYPE_I1 : Z := 0x04.
Definition ZACLR_ELEMENT_TYPE_U1 : Z := 0x05.
Definition ZACLR_ELEMENT_TYPE_I2 : Z := 0x06.
Definition ZACLR_ELEMENT_TYPE_U2 : Z := 0x07.
Definition ZACLR_ELEMENT_TYPE_I4 : Z := 0x08.
Definition ZACLR_ELEMENT_TYPE_U4 : Z := 0x09.
Definition ZACLR_ELEMENT_TYPE_I8 : Z := 0x0A.
Definition ZACLR_ELEMENT_TYPE_U8 : Z := 0x0B.
Definition ZACLR_ELEMENT_TYPE_R4 : Z := 0x0C.
Definition ZACLR_ELEMENT_TYPE_R8 : Z := 0x0D.
Definition ZACLR_ELEMENT_TYPE_STRING : Z := 0x0E.
Definition ZACLR_ELEMENT_TYPE_PTR : Z := 0x0F.
Definition ZACLR_ELEMENT_TYPE_BYREF : Z := 0x10.
Definition ZACLR_ELEMENT_TYPE_VALUETYPE : Z := 0x11.
Definition ZACLR_ELEMENT_TYPE_CLASS : Z := 0x12.
Definition ZACLR_ELEMENT_TYPE_VAR : Z := 0x13.
Definition ZACLR_ELEMENT_TYPE_ARRAY : Z := 0x14.
Definition ZACLR_ELEMENT_TYPE_GENERICINST : Z := 0x15.
Definition ZACLR_ELEMENT_TYPE_I : Z := 0x18.
Definition ZACLR_ELEMENT_TYPE_U : Z := 0x19.
Definition ZACLR_ELEMENT_TYPE_FNPTR : Z := 0x1B.
Definition ZACLR_ELEMENT_TYPE_OBJECT : Z := 0x1C.
Definition ZACLR_ELEMENT_TYPE_SZARRAY : Z := 0x1D.
Definition ZACLR_ELEMENT_TYPE_MVAR : Z := 0x1E.
Definition ZACLR_ELEMENT_TYPE_CMOD_REQD : Z := 0x1F.
Definition ZACLR_ELEMENT_TYPE_CMOD_OPT : Z := 0x20.
Definition ZACLR_ELEMENT_TYPE_PINNED : Z := 0x45.

Definition ZACLR_SIGNATURE_TYPE_FLAG_BYREF : Z := 0x1.
Definition ZACLR_SIGNATURE_TYPE_FLAG_PINNED : Z := 0x2.

(** [struct zaclr_signature_type], without its two reserved fields. *)
Record zaclr_signature_type := mk_sigtype {
  element_type : Z;
  type_token : zaclr_token;
  generic_param_index : Z;
  st_flags : Z }.

Record zaclr_signature_desc := mk_sigdesc {
  sd_blob : zaclr_slice;
  calling_convention : Z;
  header_size : Z;
  parameter_count : Z;
  generic_parameter_count : Z;
  parameter_types_offset : Z;
  return_type : zaclr_signature_type;
  sd_flags : Z }.

Record zaclr_generic_instantiation_desc := mk_gendesc {
  gi_blob : zaclr_slice;
  gi_calling_convention : Z;
  gi_header_size : Z;
  argument_count : Z }.

(** ** The decoders *)

(** One compressed integer at [offset]: its value and the offset after it. *)
Definition decode_compressed_uint (m : memory) (blob : zaclr_slice) (offset : Z)
  : outcome (Z * Z) :=
  if sl_size blob <=? offset then Err bad_metadata else
  data ← deref (sl_data blob);
  first ← read_u8 m (data + offset);
  if Z.land first 0x80 =? 0 then Ret (first, u32 (offset + 1))
  else if Z.land first 0xC0 =? 0x80 then
    require negb (sl_size blob <=? u32 (offset + 1)) else bad_metadata;
    b1 ← read_u8 m (data + u32 (offset + 1));
    Ret (Z.lor (Z.shiftl (Z.land first 0x3F) 8) b1, u32 (offset + 2))
  else if Z.land first 0xE0 =? 0xC0 then
    require negb (sl_size blob <=? u32 (offset + 3)) else bad_metadata;
    b1 ← read_u8 m (data + u32 (offset + 1));
    b2 ← read_u8 m (data + u32 (offset + 2));
    b3 ← read_u8 m (data + u32 (offset + 3));
    Ret (Z.lor (Z.lor (Z.lor (Z.shiftl (Z.land first 0x1F) 24) (Z.shiftl b1 16))
                      (Z.shiftl b2 8)) b3,
         u32 (offset + 4))
  else Err bad_metadata.

(** The loop over the BYREF and PINNED prefixes: element type, flags, offset. *)
Fixpoint skip_modifiers (fuel : nat) (m : memory) (blob : zaclr_slice)
    (et flags offset : Z) : outcome (Z * Z * Z) :=
  if (et =? ZACLR_ELEMENT_TYPE_BYREF) || (et =? ZACLR_ELEMENT_TYPE_PINNED) then
    match fuel with
    | O => NoFuel
    | S fuel =>
      let flags := if et =? ZACLR_ELEMENT_TYPE_BYREF
                   then Z.lor flags ZACLR_SIGNATURE_TYPE_FLAG_BYREF
                   else Z.lor flags ZACLR_SIGNATURE_TYPE_FLAG_PINNED in
      if sl_size blob <=? offset then Err bad_metadata else
      data ← deref (sl_data blob);
      et' ← read_u8 m (data + offset);
      skip_modifiers fuel m blob et' flags (u32 (offset + 1))
    end
  else Ret (et, flags, offset).

(** The bound on the iterations of a loop whose body consumes the blob. *)
Definition blob_fuel (blob : zaclr_slice) : nat := S (Z.to_nat (sl_size blob)).

(** The token of a TypeDefOrRef-coded index, as the decoders build it. *)
Definition coded_type_token (value : Z) : zaclr_token :=
  let token_table := Z.land value 0x3 in
  zaclr_token_make
    (Z.lor (Z.shiftl (if token_table =? 0 then ZACLR_TOKEN_TABLE_TYPEDEF
                      else if token_table =? 1 then ZACLR_TOKEN_TABLE_TYPEREF
                      else ZACLR_TOKEN_TABLE_TYPESPEC) 24)
           (Z.shiftr value 2)).

Definition skip_compressed (m : memory) (blob : zaclr_slice) (_ offset : Z) : outcome Z :=
  '(_, offset) ← decode_compressed_uint m blob offset; Ret offset.

(** The [switch] of [decode_signature_type], after the prefixes: [skip], [decode]
    and [parse] are the recursive calls. *)
Definition decode_switch (skip : Z -> Z -> outcome Z)
    (decode : Z -> outcome (zaclr_signature_type * Z))
    (parse : zaclr_slice -> outcome zaclr_signature_desc)
    (m : memory) (blob : zaclr_slice) (data et flags offset : Z)
  : outcome (zaclr_signature_type * Z) :=
  let type := mk_sigtype et (zaclr_token_make 0) 0 flags in
  if (et =? ZACLR_ELEMENT_TYPE_CLASS) || (et =? ZACLR_ELEMENT_TYPE_VALUETYPE) then
    '(value, offset) ← decode_compressed_uint m blob offset;
    Ret (mk_sigtype et (coded_type_token value) 0 flags, offset)
  else if (et =? ZACLR_ELEMENT_TYPE_VAR) || (et =? ZACLR_ELEMENT_TYPE_MVAR) then
    '(value, offset) ← decode_compressed_uint m blob offset;
    Ret (mk_sigtype et (zaclr_token_make 0) value flags, offset)
  else if (et =? ZACLR_ELEMENT_TYPE_PTR) || (et =? ZACLR_ELEMENT_TYPE_SZARRAY) then
    offset ← skip 0 offset;
    Ret (type, offset)
  else if et =? ZACLR_ELEMENT_TYPE_ARRAY then
    offset ← skip 0 offset;
    '(rank, offset) ← decode_compressed_uint m blob offset;
    '(count, offset) ← decode_compressed_uint m blob offset;
    offset ← for_loop (blob_fuel blob) 0 count (skip_compressed m blob) offset;
    '(count, offset) ← decode_compressed_uint m blob offset;
    offset ← for_loop (blob_fuel blob) 0 count (skip_compressed m blob) offset;
    Ret (type, offset)
  else if et =? ZACLR_ELEMENT_TYPE_GENERICINST then
    '(inner, offset) ← decode offset;
    '(arg_count, offset) ← decode_compressed_uint m blob offset;
    offset ← for_loop (blob_fuel blob) 0 arg_count skip offset;
    Ret (mk_sigtype ZACLR_ELEMENT_TYPE_GENERICINST (type_token inner)
           (generic_param_index inner) (st_flags inner), offset)
  else if et =? ZACLR_ELEMENT_TYPE_FNPTR then
    nested ← parse (mk_slice (Some (data + offset)) (sl_size blob - offset));
    Ret (type, u32 (offset + header_size nested))
  else Ret (type, offset).

(** [decode_signature_type] and [zaclr_signature_parse_method] call each other;
    [fuel] bounds the depth of the recursion. *)
Fixpoint decode_signature_type (fuel : nat) (m : memory) (blob : zaclr_slice) (offset : Z)
  {struct fuel} : outcome (zaclr_signature_type * Z) :=
  match fuel with
  | O => NoFuel
  | S fuel =>
    if sl_size blob <=? offset then Err invalid_argument else
    data ← deref (sl_data blob);
    et0 ← read_u8 m (data + offset);
    '(et, flags, offset) ← skip_modifiers (blob_fuel blob) m blob et0 0 (u32 (offset + 1));
    decode_switch
      (fun _ offset => '(_, offset) ← decode_signature_type fuel m blob offset; Ret offset)
      (decode_signature_type fuel m blob)
      (zaclr_signature_parse_method fuel m)
      m blob data et flags offset
  end

with zaclr_signature_parse_method (fuel : nat) (m : memory) (blob : zaclr_slice)
  {struct fuel} : outcome zaclr_signature_desc :=
  match fuel with
  | O => NoFuel
  | S fuel =>
    match sl_data blob with
    | None => Err invalid_argument
    | Some data =>
      if sl_size blob =? 0 then Err invalid_argument else
      cc ← read_u8 m data;
      '(gpc, offset) ← (if flag_set cc 0x10 then decode_compressed_uint m blob 1 else Ret (0, 1));
      '(pc, offset) ← decode_compressed_uint m blob offset;
      '(ret, types_offset) ← decode_signature_type fuel m blob offset;
      offset ← for_loop (blob_fuel blob) 0 (u16 pc)
                 (fun _ offset => '(_, offset) ← decode_signature_type fuel m blob offset;
                                  Ret offset)
                 types_offset;
      Ret (mk_sigdesc blob cc (u8 offset) (u16 pc) (u16 gpc) types_offset ret
             ZACLR_SIGNATURE_FLAG_METHOD)
    end
  end.

(** [skip_signature_type]. *)
Definition skip_signature_type (fuel : nat) (m : memory) (blob : zaclr_slice) (_ offset : Z)
  : outcome Z :=
  '(_, offset) ← decode_signature_type fuel m blob offset; Ret offset.

(** The entry points run the recursion with the size of the blob as bound. *)
Definition decode_type (m : memory) (blob : zaclr_slice) (offset : Z) :=
  decode_signature_type (blob_fuel blob) m blob offset.

Definition parse_method (m : memory) (blob : zaclr_slice) : outcome zaclr_signature_desc :=
  zaclr_signature_parse_method (blob_fuel blob) m blob.

Definition zaclr_signature_flags (signature : option zaclr_signature_desc) : Z :=
  match signature with Some s => sd_flags s | None => 0 end.

(** The 64-bit FNV-1a hash of a NUL-terminated text. *)
Definition zaclr_signature_hash_text (text : option (list Byte.byte)) : Z :=
  match text with
  | None => 0
  | Some l => fold_left (fun hash c => u64 (Z.lxor hash (byte_Z c) * 1099511628211)) l
                14695981039346656037
  end.

Definition zaclr_signature_parse_generic_instantiation (m : memory) (blob : zaclr_slice)
  : outcome zaclr_generic_instantiation_desc :=
  match sl_data blob with
  | None => Err invalid_argument
  | Some data =>
    if sl_size blob =? 0 then Err invalid_argument else
    cc ← read_u8 m data;
    require cc =? 0x0A else bad_metadata;
    '(count, offset) ← decode_compressed_uint m blob 1;
    offset ← for_loop (blob_fuel blob) 0 count
               (skip_signature_type (blob_fuel blob) m blob) offset;
    Ret (mk_gendesc blob cc (u8 offset) (u16 count))
  end.

Definition zaclr_signature_read_method_parameter (m : memory) (signature : zaclr_signature_desc)
    (parameter_index : Z) : outcome zaclr_signature_type :=
  require negb (parameter_count signature <=? parameter_index) else
    zaclr_result_make ZACLR_STATUS_NOT_FOUND ZACLR_STATUS_CATEGORY_METADATA;
  let blob := sd_blob signature in
  offset ← for_loop (blob_fuel blob) 0 parameter_index
             (skip_signature_type (blob_fuel blob) m blob) (parameter_types_offset signature);
  '(type, _) ← decode_signature_type (blob_fuel blob) m blob offset;
  Ret type.

(** ** The encoding of signatures (specification)

    ECMA-335 II.23.2: compressed unsigned integers, types and method signatures.
    The runtime only decodes; these encoders say what it must accept. *)

Definition encode_uint (v : Z) : list Byte.byte :=
  if v <? 0x80 then [byte_of_Z v]
  else if v <? 0x4000 then [byte_of_Z (0x80 + v / 2 ^ 8); byte_of_Z v]
  else [byte_of_Z (0xC0 + v / 2 ^ 24); byte_of_Z (v / 2 ^ 16); byte_of_Z (v / 2 ^ 8); byte_of_Z v].

#[warnings="-register-all"]
Inductive sig_type :=
| TPrim (e : Z)
| TNamed (valuetype : bool) (coded : Z)
| TVar (mvar : bool) (index : Z)
| TPtr (szarray : bool) (t : sig_type)
| TArray (t : sig_type) (rank : Z) (sizes lo_bounds : list Z)
| TInst (valuetype : bool) (coded : Z) (args : list sig_type)
| TFnPtr (cc : Z) (ret : sig_type) (params : list sig_type)
| TMod (pinned : bool) (t : sig_type).

Definition named_code (valuetype : bool) : Z :=
  if valuetype then ZACLR_ELEMENT_TYPE_VALUETYPE else ZACLR_ELEMENT_TYPE_CLASS.

Fixpoint encode_type (t : sig_type) : list Byte.byte :=
  match t with
  | TPrim e => [byte_of_Z e]
  | TNamed vt coded => byte_of_Z (named_code vt) :: encode_uint coded
  | TVar mv i =>
    byte_of_Z (if mv then ZACLR_ELEMENT_TYPE_MVAR else ZACLR_ELEMENT_TYPE_VAR) :: encode_uint i
  | TPtr sz t =>
    byte_of_Z (if sz then ZACLR_ELEMENT_TYPE_SZARRAY else ZACLR_ELEMENT_TYPE_PTR) :: encode_type t
  | TArray t rank sizes los =>
    byte_of_Z ZACLR_ELEMENT_TYPE_ARRAY :: encode_type t ++ encode_uint rank
      ++ encode_uint (zlength sizes) ++ concat (map encode_uint sizes)
      ++ encode_uint (zlength los) ++ concat (map encode_uint los)
  | TInst vt coded args =>
    byte_of_Z ZACLR_ELEMENT_TYPE_GENERICINST :: (byte_of_Z (named_code vt) :: encode_uint coded)
      ++ encode_uint (zlength args) ++ concat (map encode_type args)
  | TFnPtr cc ret params =>
    byte_of_Z ZACLR_ELEMENT_TYPE_FNPTR :: byte_of_Z cc :: encode_uint (zlength params)
      ++ encode_type ret ++ concat (map encode_type params)
  | TMod pinned t =>
    byte_of_Z (if pinned then ZACLR_ELEMENT_TYPE_PINNED else ZACLR_ELEMENT_TYPE_BYREF)
      :: encode_type t
  end.

(** A method signature: the generic parameter count is present exactly when the
    calling convention has the GENERIC bit. *)
Definition encode_method (cc gpc : Z) (ret : sig_type) (params : list sig_type)
  : list Byte.byte :=
  byte_of_Z cc :: (if flag_set cc 0x10 then encode_uint gpc else [])
    ++ encode_uint (zlength params) ++ encode_type ret ++ concat (map encode_type params).

(** The element types that stand alone in a signature. *)
Definition is_prim (e : Z) : bool :=
  (0 <=? e) && (e <? 256) &&
  negb (existsb (Z.eqb e) [0x0F; 0x10; 0x11; 0x12; 0x13; 0x14; 0x15; 0x1B; 0x1D; 0x1E; 0x45]).

Definition is_uint29 (v : Z) : bool := (0 <=? v) && (v <? 2 ^ 29).

(** Encodable types.  A function pointer must have a non-generic signature
    shorter than 256 bytes with at most 65535 parameters. *)
Fixpoint wf_type (t : sig_type) : bool :=
  match t with
  | TPrim e => is_prim e
  | TNamed _ coded => is_uint29 coded
  | TVar _ i => is_uint29 i
  | TPtr _ t => wf_type t
  | TArray t rank sizes los =>
    wf_type t && is_uint29 rank && is_uint29 (zlength sizes) && forallb is_uint29 sizes
      && is_uint29 (zlength los) && forallb is_uint29 los
  | TInst _ coded args => is_uint29 coded && is_uint29 (zlength args) && forallb wf_type args
  | TFnPtr cc ret params =>
    (0 <=? cc) && (cc <? 256) && negb (flag_set cc 0x10) && wf_type ret
      && (zlength params <? 2 ^ 16) && forallb wf_type params
      && (zlength (encode_type (TFnPtr cc ret params)) <? 257)
  | TMod _ t => wf_type t
  end.

(** What the decoder reports of a type: the prefixes as flags and the outermost
    constructor.  The recursive call for a generic instantiation clears the
    record, so the flags of the prefixes before it are lost. *)
Fixpoint mods (t : sig_type) : Z :=
  match t with
  | TMod pinned t =>
    Z.lor (if pinned then ZACLR_SIGNATURE_TYPE_FLAG_PINNED else ZACLR_SIGNATURE_TYPE_FLAG_BYREF)
      (mods t)
  | _ => 0
  end.

Fixpoint core (t : sig_type) : sig_type := match t with TMod _ t => core t | _ => t end.

Definition core_repr (t : sig_type) (flags : Z) : zaclr_signature_type :=
  let none := zaclr_token_make 0 in
  match t with
  | TPrim e => mk_sigtype e none 0 flags
  | TNamed vt coded => mk_sigtype (named_code vt) (coded_type_token coded) 0 flags
  | TVar mv i =>
    mk_sigtype (if mv then ZACLR_ELEMENT_TYPE_MVAR else ZACLR_ELEMENT_TYPE_VAR) none i flags
  | TPtr sz _ =>
    mk_sigtype (if sz then ZACLR_ELEMENT_TYPE_SZARRAY else ZACLR_ELEMENT_TYPE_PTR) none 0 flags
  | TArray _ _ _ _ => mk_sigtype ZACLR_ELEMENT_TYPE_ARRAY none 0 flags
  | TInst vt coded _ => mk_sigtype ZACLR_ELEMENT_TYPE_GENERICINST (coded_type_token coded) 0 0
  | TFnPtr _ _ _ => mk_sigtype ZACLR_ELEMENT_TYPE_FNPTR none 0 flags
  | TMod _ _ => mk_sigtype 0 none 0 flags
  end.

Definition sig_repr (t : sig_type) : zaclr_signature_type := core_repr (core t) (mods t).

(** A slice of an image below 2 GiB: offsets into it never wrap. *)
Definition blob_ok (m : memory) (blob : zaclr_slice) : Prop :=
  slice_ok m blob /\ sl_size blob < 2 ^ 31.

(** ** Safety and termination *)

Lemma blob_ok_data m blob off :
  blob_ok m blob -> 0 <= off < sl_size blob ->
  exists d, sl_data blob = Some d /\ 0 <= d /\ d + sl_size blob <= zlength m.
Proof.
  intros [[_ H] _] Hoff. destruct (sl_data blob) as [d|]; [exists d; tauto|lia].
Qed.

Ltac step :=
  lazymatch goal with
  | |- safe_post (_ ≫= _) _ => eapply safe_post_bind
  end.

Lemma land_le_ones a n : 0 <= n -> 0 <= Z.land a (Z.ones n) < 2 ^ n.
Proof. intros. rewrite Z.land_ones by lia. apply Z.mod_pos_bound. lia. Qed.

Lemma decode_compressed_uint_post m blob off :
  blob_ok m blob -> 0 <= off ->
  safe_post (decode_compressed_uint m blob off)
    (fun '(v, off') => 0 <= v < 2 ^ 29 /\ off < off' <= sl_size blob).
Proof.
  intros Hb Hoff. unfold decode_compressed_uint. case_if; [done|].
  destruct (blob_ok_data m blob off Hb) as (d & Hd & Hd0 & Hdl); [lia|].
  destruct Hb as [_ Hs]. rewrite Hd. simpl deref.
  step; [simpl; exact I|]. intros ? [= <-] _.
  step; [apply read_u8_post; lia|]. intros first _ Hf. simpl in Hf.
  case_if; [simpl; rewrite u32_id by lia; lia|].
  pose proof (land_le_ones first 6) as H6. pose proof (land_le_ones first 5) as H5.
  change (Z.ones 6) with 0x3F in H6. change (Z.ones 5) with 0x1F in H5.
  case_if.
  - apply safe_post_require. intros ?. bool_cases. rewrite !u32_id in * by lia.
    step; [apply read_u8_post; lia|]. intros b1 _ Hb1. simpl in *.
    rewrite lor_shiftl_add by lia. lia.
  - case_if; [|done]. apply safe_post_require. intros ?. bool_cases. rewrite !u32_id in * by lia.
    do 3 (step; [apply read_u8_post; lia|]; intros ? _ ?; simpl in *).
    split; [|lia].
    repeat apply lor_range; rewrite ?Z.shiftl_mul_pow2; lia.
Qed.

Lemma skip_modifiers_post m blob fuel et flags off :
  blob_ok m blob -> 0 <= off <= sl_size blob -> sl_size blob - off < Z.of_nat fuel ->
  safe_post (skip_modifiers fuel m blob et flags off)
    (fun '(_, _, off') => off <= off' <= sl_size blob).
Proof.
  intros Hb. revert et flags off. induction fuel as [|fuel IH]; intros et flags off Hoff Hf; [lia|].
  simpl. case_if; [|simpl; lia]. case_if; [done|].
  destruct (blob_ok_data m blob off Hb) as (d & Hd & Hd0 & Hdl); [lia|]. rewrite Hd.
  step; [simpl; exact I|]. intros ? [= <-] _.
  step; [apply read_u8_post; lia|]. intros et' _ _. destruct Hb as [Hb Hs].
  rewrite u32_id by lia. eapply safe_post_mono; [apply IH; lia|].
  intros [[??]?]. lia.
Qed.

Lemma skip_compressed_loop m blob n off :
  blob_ok m blob -> 0 <= off <= sl_size blob ->
  safe_post (for_loop (blob_fuel blob) 0 n (skip_compressed m blob) off)
    (fun off' => off <= off' <= sl_size blob).
Proof.
  intros Hb Hoff. eapply safe_post_mono.
  - eapply (for_loop_consume _ (fun o => off <= o <= sl_size blob) (fun o => sl_size blob - o)).
    + unfold blob_fuel. lia.
    + lia.
    + intros. lia.
    + intros j o Ho. unfold skip_compressed.
      step; [apply decode_compressed_uint_post; [done|lia]|].
      intros [v o'] _ [_ ?]. simpl. lia.
  - simpl. lia.
Qed.

(** One call of either parser, given the property of the calls it makes. *)
Definition decode_spec (fuel : nat) : Prop :=
  forall m blob off, blob_ok m blob -> 0 <= off <= sl_size blob ->
    sl_size blob - off < Z.of_nat fuel ->
    safe_post (decode_signature_type fuel m blob off)
      (fun '(_, off') => off < off' <= sl_size blob).

Definition parse_spec (fuel : nat) : Prop :=
  forall m blob, blob_ok m blob -> sl_size blob < Z.of_nat fuel ->
    safe_post (zaclr_signature_parse_method fuel m blob)
      (fun s => sd_blob s = blob /\ 0 <= header_size s <= sl_size blob /\
                0 < parameter_types_offset s <= sl_size blob /\
                0 <= parameter_count s < 65536).

Lemma skip_type_loop fuel m blob n off :
  decode_spec fuel -> blob_ok m blob -> 0 <= off <= sl_size blob ->
  sl_size blob - off < Z.of_nat fuel ->
  safe_post (for_loop (blob_fuel blob) 0 n (skip_signature_type fuel m blob) off)
    (fun off' => off <= off' <= sl_size blob).
Proof.
  intros Hd Hb Hoff Hf. eapply safe_post_mono.
  - eapply (for_loop_consume _ (fun o => off <= o <= sl_size blob) (fun o => sl_size blob - o)).
    + unfold blob_fuel. lia.
    + lia.
    + intros. lia.
    + intros j o Ho. unfold skip_signature_type.
      step; [apply Hd; [done|lia|lia]|]. intros [t o'] _ ?. simpl. lia.
  - simpl. lia.
Qed.

Lemma decode_spec_step fuel : decode_spec fuel -> parse_spec fuel -> decode_spec (S fuel).
Proof.
  intros Hd Hp m blob off Hb Hoff Hf. cbn [decode_signature_type]. cbv zeta.
  case_if; [done|].
  destruct (blob_ok_data m blob off Hb) as (d & Hdd & Hd0 & Hdl); [lia|].
  rewrite Hdd. pose proof (proj2 Hb) as Hs.
  step; [simpl; exact I|]. intros ? [= <-] _.
  step; [apply read_u8_post; lia|]. intros et0 _ _.
  rewrite u32_id by lia.
  step; [apply skip_modifiers_post; [done|lia|unfold blob_fuel; lia]|].
  intros [[et flags] o1] _ Ho1. cbv beta iota in Ho1. unfold decode_switch.
  pose proof (fun n o => skip_type_loop fuel m blob n o Hd Hb) as Hloop.
  pose proof (fun o Ho => decode_compressed_uint_post m blob o Hb Ho) as Hc.
  pose proof (fun o Ho => Hd m blob o Hb Ho) as Hdec.
  pose proof (fun n o => skip_compressed_loop m blob n o Hb) as Hcl.
  destruct (_ || _); [|destruct (_ || _); [|destruct (_ || _); [|case_if; [|case_if; [|case_if]]]]].
  - step; [apply Hc; lia|]. intros [??] _ [_ ?]. simpl. lia.
  - step; [apply Hc; lia|]. intros [??] _ [_ ?]. simpl. lia.
  - step; [step; [apply Hdec; lia|]; intros [??] _ Hx; exact Hx|]. intros ? _ ?. simpl in *. lia.
  - step; [step; [apply Hdec; lia|]; intros [??] _ Hx; exact Hx|]. intros o2 _ ?. simpl in *.
    step; [apply Hc; lia|]. intros [? o3] _ [_ ?].
    step; [apply Hc; lia|]. intros [? o4] _ [_ ?].
    step; [apply Hcl; lia|]. intros o5 _ ?. simpl in *.
    step; [apply Hc; lia|]. intros [? o6] _ [_ ?].
    step; [apply Hcl; lia|]. intros o7 _ ?. simpl in *. lia.
  - step; [apply Hdec; lia|]. intros [inner o2] _ ?. simpl in *.
    step; [apply Hc; lia|]. intros [? o3] _ [_ ?].
    step; [apply Hloop; lia|]. intros o4 _ ?. simpl in *. lia.
  - step; [apply Hp|].
    + split; [|simpl; lia]. split; simpl; lia.
    + simpl. lia.
    + intros s _ (_ & Hh & _). simpl in Hh |- *. rewrite u32_id by lia. lia.
  - simpl. lia.
Qed.

Lemma parse_spec_step fuel : decode_spec fuel -> parse_spec (S fuel).
Proof.
  intros Hd m blob Hb Hf. cbn [zaclr_signature_parse_method].
  destruct (sl_data blob) as [d|] eqn:Hdd; [|done]. case_if; [done|].
  pose proof (proj2 Hb) as Hs. destruct (proj1 Hb) as [Hs0 Hdl]. rewrite Hdd in Hdl.
  step; [apply read_u8_post; lia|]. intros cc _ _.
  pose proof (fun o Ho => decode_compressed_uint_post m blob o Hb Ho) as Hc.
  step; [instantiate (1 := fun '(_, o) => 0 < o <= sl_size blob)|].
  { case_if; [|simpl; lia]. eapply safe_post_mono; [apply Hc; lia|].
    intros [??] _ [_ ?]. lia. }
  intros [gpc o1] _ Ho1. cbv beta iota in Ho1.
  step; [apply Hc; lia|]. intros [pc o2] _ [_ ?].
  step; [apply Hd; [done|lia|lia]|]. intros [ret o3] _ ?. cbv beta iota in *.
  step; [apply (skip_type_loop fuel m blob (u16 pc) o3 Hd Hb); lia|].
  intros o4 _ ?. simpl in *. pose proof (u16_range pc). pose proof (u8_range o4).
  pose proof (u8_le o4). split; [done|]. lia.
Qed.

Lemma decode_parse_spec fuel : decode_spec fuel /\ parse_spec fuel.
Proof.
  induction fuel as [|fuel [IHd IHp]].
  - split; [intros m blob off Hb ? ?|intros m blob [[? _] _] ?]; lia.
  - split; [by apply decode_spec_step|by apply parse_spec_step].
Qed.

(** C21: on any image and any slice of it shorter than 2 GiB,
    [decode_signature_type] and the signature parsers never read outside the slice
    and always return, whatever the counts in the untrusted blob say: a recursion
    depth of one more than the size of the blob is enough.  A successful decode
    moves the cursor forward and leaves it inside the blob. *)
Lemma signature_parsers_safe m blob :
  blob_ok m blob ->
  (forall off, 0 <= off <= sl_size blob ->
     safe_post (decode_type m blob off) (fun '(_, off') => off < off' <= sl_size blob)) /\
  safe_post (parse_method m blob)
    (fun s => sd_blob s = blob /\ 0 <= header_size s <= sl_size blob /\
              0 < parameter_types_offset s <= sl_size blob /\ 0 <= parameter_count s < 65536) /\
  safe (zaclr_signature_parse_generic_instantiation m blob).
Proof.
  intros Hb. destruct (decode_parse_spec (blob_fuel blob)) as [Hd Hp]. split_and!.
  - intros off Hoff. apply Hd; [done|lia|unfold blob_fuel; lia].
  - apply Hp; [done|unfold blob_fuel; destruct Hb as [[? _] _]; lia].
  - eapply safe_post_safe. unfold zaclr_signature_parse_generic_instantiation.
    destruct (sl_data blob) as [d|] eqn:Hdd; [|done]. case_if; [done|].
    destruct (proj1 Hb) as [Hs0 Hdl]. rewrite Hdd in Hdl.
    step; [apply read_u8_post; lia|]. intros cc _ _. apply safe_post_require. intros _.
    step; [apply decode_compressed_uint_post; [done|lia]|]. intros [n o] _ [_ ?].
    step; [apply (skip_type_loop (blob_fuel blob)); (done || unfold blob_fuel; lia)|].
    intros ? _ _. by instantiate (1 := fun _ => True).
Qed.

(** ** The decoder inverts the encoder *)

Lemma encode_uint_length v : 1 <= zlength (encode_uint v) <= 4.
Proof. unfold encode_uint. repeat case_if; unfold zlength; simpl; lia. Qed.

Lemma first_byte_1 x : 0 <= x < 128 -> Z.land x 0x80 = 0.
Proof.
  intros H. apply Z.eqb_eq. revert x H. apply (byte_cases (fun x => Z.land x 0x80 =? 0)).
  by vm_compute.
Qed.

Lemma first_byte_2 x : 0 <= x < 64 ->
  Z.land (0x80 + x) 0x80 <> 0 /\ Z.land (0x80 + x) 0xC0 = 0x80 /\ Z.land (0x80 + x) 0x3F = x.
Proof.
  intros H. assert (negb (Z.land (0x80 + x) 0x80 =? 0) && (Z.land (0x80 + x) 0xC0 =? 0x80)
    && (Z.land (0x80 + x) 0x3F =? x) = true); [|bool_cases; done].
  revert x H. apply (byte_cases (fun x => _ && _ && _)). by vm_compute.
Qed.

Lemma first_byte_4 x : 0 <= x < 32 ->
  Z.land (0xC0 + x) 0x80 <> 0 /\ Z.land (0xC0 + x) 0xC0 <> 0x80 /\
  Z.land (0xC0 + x) 0xE0 = 0xC0 /\ Z.land (0xC0 + x) 0x1F = x.
Proof.
  intros H. assert (negb (Z.land (0xC0 + x) 0x80 =? 0) && negb (Z.land (0xC0 + x) 0xC0 =? 0x80)
    && (Z.land (0xC0 + x) 0xE0 =? 0xC0) && (Z.land (0xC0 + x) 0x1F =? x) = true); [|bool_cases; done].
  revert x H. apply (byte_cases (fun x => _ && _ && _ && _)). by vm_compute.
Qed.

Lemma decode_encode_uint m blob d off v :
  blob_ok m blob -> sl_data blob = Some d -> 0 <= off ->
  seg m (d + off) (encode_uint v) -> off + zlength (encode_uint v) <= sl_size blob ->
  is_uint29 v = true ->
  decode_compressed_uint m blob off = Ret (v, off + zlength (encode_uint v)).
Proof.
  intros [_ Hs] Hd Hoff Hseg Hlen Hv. unfold is_uint29 in Hv. bool_cases.
  pose proof (encode_uint_length v). unfold decode_compressed_uint.
  destruct (Z.leb_spec (sl_size blob) off); [lia|]. rewrite Hd.
  revert Hseg Hlen. unfold encode_uint. case_if; [|case_if]; intros Hseg Hlen;
    unfold zlength in *; cbn [length mbind outcome_bind deref] in *;
    rewrite (seg_read_u8 _ _ _ _ Hseg), byte_Z_of_Z; cbn [mbind outcome_bind].
  - rewrite u8_id by lia. rewrite first_byte_1 by lia. simpl. by rewrite u32_id by lia.
  - assert (0 <= v / 2 ^ 8 < 64) by zlia. rewrite u8_id by lia.
    destruct (first_byte_2 (v / 2 ^ 8)) as (E1 & E2 & E3); [done|].
    rewrite (proj2 (Z.eqb_neq _ _) E1), E2, E3. simpl (_ =? _).
    apply seg_cons in Hseg as [_ Hseg]. rewrite <- Z.add_assoc in Hseg.
    rewrite !u32_id by lia. destruct (Z.leb_spec (sl_size blob) (off + 1)); [lia|].
    rewrite (seg_read_u8 _ _ _ _ Hseg), byte_Z_of_Z. simpl.
    rewrite lor_shiftl_add by (auto with zapada; lia). do 2 f_equal. unfold u8. zlia.
  - assert (0 <= v / 2 ^ 24 < 32) by zlia. rewrite u8_id by lia.
    destruct (first_byte_4 (v / 2 ^ 24)) as (E1 & E2 & E3 & E4); [done|].
    rewrite (proj2 (Z.eqb_neq _ _) E1), (proj2 (Z.eqb_neq _ _) E2), E3, E4. simpl (_ =? _).
    apply seg_cons in Hseg as [_ Hseg]. apply seg_cons in Hseg as [Hs1 Hseg].
    apply seg_cons in Hseg as [Hs2 Hseg]. apply seg_cons in Hseg as [Hs3 _].
    replace (d + off + 1 + 1 + 1) with (d + (off + 3)) in * by lia.
    replace (d + off + 1 + 1) with (d + (off + 2)) in * by lia.
    replace (d + off + 1) with (d + (off + 1)) in * by lia.
    rewrite !u32_id by lia. destruct (Z.leb_spec (sl_size blob) (off + 3)); [lia|].
    unfold read_u8. rewrite Hs1, Hs2, Hs3. simpl. rewrite !byte_Z_of_Z.
    rewrite lor_be32 by (auto with zapada; lia). do 2 f_equal.
    rewrite <- (u8_shifts_32 v) at 5 by lia. rewrite (u8_id (v / 2 ^ 24)) by lia. done.
Qed.

Lemma encode_type_length t : 1 <= zlength (encode_type t).
Proof. destruct t; unfold zlength; simpl; lia. Qed.

(** A loop whose body advances over one encoded item at a time advances over
    the whole list. *)
Lemma for_loop_items {T} (enc : T -> list Byte.byte) (body : Z -> Z -> outcome Z) m d lo hi
    (ts : list T) fuel i off :
  (forall t j o, t ∈ ts -> lo <= o -> o + zlength (enc t) <= hi -> seg m (d + o) (enc t) ->
     body j o = Ret (o + zlength (enc t))) ->
  zlength ts <= Z.of_nat fuel -> lo <= off -> off + zlength (concat (map enc ts)) <= hi ->
  seg m (d + off) (concat (map enc ts)) ->
  for_loop fuel i (i + zlength ts) body off = Ret (off + zlength (concat (map enc ts))).
Proof.
  revert fuel i off. induction ts as [|t ts IH]; intros fuel i off Hb Hf Hlo Hhi Hseg;
    simpl in *.
  - unfold zlength. simpl. rewrite !Z.add_0_r.
    destruct fuel; simpl; by rewrite Z.ltb_irrefl.
  - apply seg_app in Hseg as [H1 H2]. rewrite zlength_app in *.
    change (zlength (t :: ts)) with (Z.of_nat (S (length ts))) in *.
    pose proof (zlength_nonneg (enc t)). pose proof (zlength_nonneg (concat (map enc ts))).
    destruct fuel as [|fuel]; [lia|]. simpl.
    destruct (Z.ltb_spec i (i + Z.of_nat (S (length ts)))); [|lia].
    rewrite (Hb t i off) by (done || lia || by left). simpl.
    replace (i + Z.of_nat (S (length ts))) with (i + 1 + zlength ts) by (unfold zlength; lia).
    rewrite IH.
    + f_equal. lia.
    + intros. apply Hb; [by right|done..].
    + unfold zlength. lia.
    + lia.
    + lia.
    + by rewrite Z.add_assoc.
Qed.

(** The first byte of an encoded type. *)
Definition head_code (t : sig_type) : Z :=
  match t with
  | TPrim e => e
  | TNamed vt _ => named_code vt
  | TVar mv _ => if mv then ZACLR_ELEMENT_TYPE_MVAR else ZACLR_ELEMENT_TYPE_VAR
  | TPtr sz _ => if sz then ZACLR_ELEMENT_TYPE_SZARRAY else ZACLR_ELEMENT_TYPE_PTR
  | TArray _ _ _ _ => ZACLR_ELEMENT_TYPE_ARRAY
  | TInst _ _ _ => ZACLR_ELEMENT_TYPE_GENERICINST
  | TFnPtr _ _ _ => ZACLR_ELEMENT_TYPE_FNPTR
  | TMod pinned _ => if pinned then ZACLR_ELEMENT_TYPE_PINNED else ZACLR_ELEMENT_TYPE_BYREF
  end.

Lemma head_code_range t : wf_type t = true -> 0 <= head_code t < 256.
Proof.
  destruct t as [e|[]|[]|[]| | | |[]]; cbn -[is_prim]; intros H; try (vm_compute; split; congruence).
  unfold is_prim in H. bool_cases. lia.
Qed.

Lemma seg_head m p t :
  wf_type t = true -> seg m p (encode_type t) -> read_u8 m p = Ret (head_code t).
Proof.
  intros Hwf Hseg. pose proof (head_code_range t Hwf).
  assert (exists l, encode_type t = byte_of_Z (head_code t) :: l) as [l E] by (destruct t; simpl; eauto).
  rewrite E in Hseg. rewrite (seg_read_u8 _ _ _ _ Hseg), byte_Z_of_Z, u8_id by done. done.
Qed.

Lemma core_wf t : wf_type t = true -> wf_type (core t) = true.
Proof. induction t; simpl; auto. Qed.

Lemma core_head t :
  wf_type t = true ->
  head_code (core t) <> ZACLR_ELEMENT_TYPE_BYREF /\ head_code (core t) <> ZACLR_ELEMENT_TYPE_PINNED.
Proof.
  induction t as [e|[]|[]|[]| | | |]; cbn -[is_prim]; intros H; auto; try (vm_compute; split; congruence).
  unfold is_prim in H. bool_cases. simpl in H0. bool_cases. done.
Qed.

(** The prefixes of an encoded type are consumed, and the cursor then stands
    behind the head byte of its core. *)
Lemma skip_modifiers_encoded m blob d t fuel flags off :
  blob_ok m blob -> sl_data blob = Some d -> 0 <= off -> wf_type t = true ->
  seg m (d + off) (encode_type t) -> off + zlength (encode_type t) <= sl_size blob ->
  zlength (encode_type t) <= Z.of_nat fuel ->
  let o := off + zlength (encode_type t) - zlength (encode_type (core t)) in
  off <= o /\ seg m (d + o) (encode_type (core t)) /\
  skip_modifiers fuel m blob (head_code t) flags (off + 1)
    = Ret (head_code (core t), Z.lor flags (mods t), o + 1).
Proof.
  intros Hb Hd. revert fuel flags off.
  induction t as [| | | | | | |pinned t IH]; intros fuel flags off Hoff Hwf Hseg Hlen Hf;
    try (cbv zeta; simpl core; rewrite Z.add_simpl_r; split; [lia|]; split; [done|];
         pose proof (core_head _ Hwf) as [E1 E2]; simpl core in E1, E2; simpl mods;
         rewrite Z.lor_0_r; destruct fuel; cbn [skip_modifiers];
         rewrite (proj2 (Z.eqb_neq _ _) E1), (proj2 (Z.eqb_neq _ _) E2); done).
  cbn [encode_type core mods wf_type] in *.
  apply seg_cons in Hseg as [_ Hseg]. rewrite <- Z.add_assoc in Hseg. rewrite zlength_cons in *.
  pose proof (encode_type_length t). pose proof (proj2 Hb).
  destruct fuel as [|fuel]; [lia|]. cbv zeta. cbn [skip_modifiers head_code].
  assert (((if pinned then ZACLR_ELEMENT_TYPE_PINNED else ZACLR_ELEMENT_TYPE_BYREF) =?
           ZACLR_ELEMENT_TYPE_BYREF) = negb pinned) as -> by (by destruct pinned).
  assert (negb pinned || ((if pinned then ZACLR_ELEMENT_TYPE_PINNED else ZACLR_ELEMENT_TYPE_BYREF)
           =? ZACLR_ELEMENT_TYPE_PINNED) = true) as -> by (by destruct pinned).
  destruct (Z.leb_spec (sl_size blob) (off + 1)); [lia|].
  rewrite Hd. cbn [mbind outcome_bind deref]. rewrite (seg_head m _ t Hwf Hseg).
  cbn [mbind outcome_bind]. rewrite u32_id by lia.
  edestruct (IH fuel) as (I1 & I2 & I3);
    [| |exact Hseg| | |]; [lia|done|lia|lia|].
  split; [lia|]. split; [by replace (off + (1 + zlength (encode_type t)) - zlength (encode_type (core t)))
    with (off + 1 + zlength (encode_type t) - zlength (encode_type (core t))) by lia|].
  rewrite I3. do 2 f_equal; [|lia]. f_equal. rewrite Z.lor_assoc. by destruct pinned.
Qed.

(** *** One step of the recursion *)

Definition decode_inverts (fuel : nat) : Prop :=
  forall m blob d off t,
    blob_ok m blob -> sl_data blob = Some d -> 0 <= off -> wf_type t = true ->
    seg m (d + off) (encode_type t) -> off + zlength (encode_type t) <= sl_size blob ->
    sl_size blob - off < Z.of_nat fuel ->
    decode_signature_type fuel m blob off = Ret (sig_repr t, off + zlength (encode_type t)).

(** The method signatures the parser reads back. *)
Definition wf_method (cc gpc : Z) (ret : sig_type) (params : list sig_type) : bool :=
  (0 <=? cc) && (cc <? 256) && is_uint29 gpc && wf_type ret && (zlength params <? 2 ^ 16)
    && forallb wf_type params.

(** The offset of the first parameter. *)
Definition params_offset (cc gpc : Z) (ret : sig_type) (params : list sig_type) : Z :=
  1 + zlength (if flag_set cc 0x10 then encode_uint gpc else [])
    + zlength (encode_uint (zlength params)) + zlength (encode_type ret).

Definition parse_inverts (fuel : nat) : Prop :=
  forall m blob d cc gpc ret params,
    blob_ok m blob -> sl_data blob = Some d ->
    wf_method cc gpc ret params = true ->
    seg m d (encode_method cc gpc ret params) ->
    zlength (encode_method cc gpc ret params) <= sl_size blob ->
    sl_size blob < Z.of_nat fuel ->
    zaclr_signature_parse_method fuel m blob =
      Ret (mk_sigdesc blob cc (u8 (zlength (encode_method cc gpc ret params))) (zlength params)
             (u16 (if flag_set cc 0x10 then gpc else 0)) (params_offset cc gpc ret params)
             (sig_repr ret) ZACLR_SIGNATURE_FLAG_METHOD).

(** The form of [for_loop_items] the decoders need: at least one byte per item
    makes the size of the blob a sufficient bound. *)
Lemma blob_loop_items {T} (enc : T -> list Byte.byte) (body : Z -> Z -> outcome Z) m blob d
    (ts : list T) off :
  (forall t, 1 <= zlength (enc t)) ->
  (forall t j o, t ∈ ts -> off <= o -> o + zlength (enc t) <= sl_size blob ->
     seg m (d + o) (enc t) -> body j o = Ret (o + zlength (enc t))) ->
  0 <= off -> seg m (d + off) (concat (map enc ts)) ->
  off + zlength (concat (map enc ts)) <= sl_size blob ->
  for_loop (blob_fuel blob) 0 (zlength ts) body off = Ret (off + zlength (concat (map enc ts))).
Proof.
  intros Henc Hbody Hoff Hseg Hlen. rewrite <- (Z.add_0_l (zlength ts)).
  apply (for_loop_items enc body m d off (sl_size blob)); try done.
  assert (zlength ts <= zlength (concat (map enc ts))); [|unfold blob_fuel; lia].
  clear -Henc. induction ts as [|t ts IH]; [done|]. simpl. rewrite zlength_cons, zlength_app.
  specialize (Henc t). lia.
Qed.

Lemma skip_types_encoded fuel m blob d off ts :
  decode_inverts fuel -> blob_ok m blob -> sl_data blob = Some d -> 0 <= off ->
  forallb wf_type ts = true ->
  seg m (d + off) (concat (map encode_type ts)) ->
  off + zlength (concat (map encode_type ts)) <= sl_size blob ->
  sl_size blob - off < Z.of_nat fuel ->
  for_loop (blob_fuel blob) 0 (zlength ts) (skip_signature_type fuel m blob) off
    = Ret (off + zlength (concat (map encode_type ts))).
Proof.
  intros Hinv Hb Hd Hoff Hwf Hseg Hlen Hf.
  apply (blob_loop_items encode_type _ m blob d); try done; [apply encode_type_length|].
  intros t j o Ht Ho Ho' Hs. unfold skip_signature_type.
  rewrite forallb_forall in Hwf. rewrite (Hinv m blob d o t); try done; [lia| |lia].
  apply Hwf. by apply list_elem_of_In.
Qed.

Lemma skip_uints_encoded m blob d off vs :
  blob_ok m blob -> sl_data blob = Some d -> 0 <= off -> forallb is_uint29 vs = true ->
  seg m (d + off) (concat (map encode_uint vs)) ->
  off + zlength (concat (map encode_uint vs)) <= sl_size blob ->
  for_loop (blob_fuel blob) 0 (zlength vs) (skip_compressed m blob) off
    = Ret (off + zlength (concat (map encode_uint vs))).
Proof.
  intros Hb Hd Hoff Hwf Hseg Hlen.
  apply (blob_loop_items encode_uint _ m blob d); try done;
    [intros v; pose proof (encode_uint_length v); lia|].
  intros t j o Ht Ho Ho' Hs. unfold skip_compressed.
  rewrite forallb_forall in Hwf. rewrite (decode_encode_uint m blob d o t); try done; [lia|].
  apply Hwf. by apply list_elem_of_In.
Qed.

(** Splits what is known of the segment of a concatenation. *)
Ltac split_seg :=
  repeat match goal with
  | H : seg _ _ (_ ++ _) |- _ => apply seg_app in H as [? ?]
  | H : seg _ _ (_ :: _) |- _ => apply seg_cons in H as [? ?]
  end;
  autorewrite with zapada_simp in *; rewrite <- ?Z.add_assoc in *.

Lemma seg_at m p q l : seg m p l -> p = q -> seg m q l.
Proof. by intros ? <-. Qed.

(** Discharges the side conditions of the rules for encoded items. *)
Ltac encoded :=
  cbn [mbind outcome_bind];
  first [done | lia | by eapply seg_at; [eassumption|lia]].

Section decode_step.
Context (fuel : nat) (m : memory) (blob : zaclr_slice) (d off flags : Z).
Context (Hinv : decode_inverts fuel) (Hpar : parse_inverts fuel).
Context (Hb : blob_ok m blob) (Hd : sl_data blob = Some d) (Hoff : 0 <= off)
  (Hf : sl_size blob - off <= Z.of_nat fuel).

Definition switch_inverts (t : sig_type) : Prop :=
  wf_type t = true -> seg m (d + off) (encode_type t) ->
  off + zlength (encode_type t) <= sl_size blob ->
  decode_switch (skip_signature_type fuel m blob) (decode_signature_type fuel m blob)
    (zaclr_signature_parse_method fuel m) m blob d (head_code t) flags (off + 1)
  = Ret (core_repr t flags, off + zlength (encode_type t)).

Lemma switch_array t rank sizes los : switch_inverts (TArray t rank sizes los).
Proof.
  unfold switch_inverts. cbn [wf_type encode_type]. intros Hwf Hseg Hlen. bool_cases. split_seg.
  pose proof (encode_type_length t). pose proof (encode_uint_length rank).
  pose proof (encode_uint_length (zlength sizes)). pose proof (encode_uint_length (zlength los)).
  pose proof (zlength_nonneg (concat (map encode_uint sizes))).
  pose proof (zlength_nonneg (concat (map encode_uint los))).
  cbv [decode_switch head_code core_repr skip_signature_type]. cbn -[Z.add zlength for_loop].
  rewrite (Hinv m blob d (off + 1) t) by encoded. cbn [mbind outcome_bind].
  rewrite (decode_encode_uint m blob d _ rank) by encoded. cbn [mbind outcome_bind].
  rewrite (decode_encode_uint m blob d _ (zlength sizes)) by encoded. cbn [mbind outcome_bind].
  rewrite (skip_uints_encoded m blob d _ sizes) by encoded. cbn [mbind outcome_bind].
  rewrite (decode_encode_uint m blob d _ (zlength los)) by encoded. cbn [mbind outcome_bind].
  rewrite (skip_uints_encoded m blob d _ los) by encoded. cbn [mbind outcome_bind].
  do 2 f_equal. lia.
Qed.

Lemma switch_inst vt coded args : switch_inverts (TInst vt coded args).
Proof.
  unfold switch_inverts. cbn [wf_type encode_type]. intros Hwf Hseg Hlen. bool_cases.
  change (byte_of_Z (named_code vt) :: encode_uint coded) with (encode_type (TNamed vt coded)) in *.
  pose proof (encode_type_length (TNamed vt coded)).
  remember (encode_type (TNamed vt coded)) as enc eqn:Henc. split_seg.
  pose proof (encode_uint_length (zlength args)).
  pose proof (zlength_nonneg (concat (map encode_type args))).
  cbv [decode_switch head_code core_repr]. cbn -[Z.add zlength for_loop skip_signature_type].
  rewrite (Hinv m blob d (off + 1) (TNamed vt coded)) by (rewrite <- ?Henc; encoded).
  rewrite <- Henc. cbn [mbind outcome_bind].
  rewrite (decode_encode_uint m blob d _ (zlength args)) by encoded. cbn [mbind outcome_bind].
  rewrite (skip_types_encoded fuel m blob d _ args) by encoded. cbn [mbind outcome_bind].
  do 2 f_equal. lia.
Qed.

Lemma switch_fnptr cc ret params : switch_inverts (TFnPtr cc ret params).
Proof.
  unfold switch_inverts. cbn [wf_type]. intros Hwf Hseg Hlen. bool_cases.
  assert (encode_type (TFnPtr cc ret params) =
    byte_of_Z ZACLR_ELEMENT_TYPE_FNPTR :: encode_method cc 0 ret params) as Henc.
  { unfold encode_method. assert (flag_set cc 16 = false) as -> by done. done. }
  rewrite Henc in *. split_seg. pose proof (zlength_nonneg (encode_method cc 0 ret params)).
  destruct Hb as [[Hs0 Hs1] Hs2]. rewrite Hd in Hs1.
  cbv [decode_switch head_code core_repr]. cbn -[Z.add zlength for_loop].
  rewrite (Hpar m _ (d + (off + 1)) cc 0 ret params); simpl; try encoded.
  - rewrite u8_id, u32_id by lia. do 2 f_equal. lia.
  - split; [split|]; simpl; lia.
  - unfold wf_method. rewrite !andb_true_iff. repeat split; lia || done.
Qed.

Lemma switch_core t : core t = t -> switch_inverts t.
Proof.
  destruct t as [e|vt coded|mv i|sz t| | | |pinned t]; intros Hc.
  - intros Hwf Hseg Hlen. cbn -[zlength is_prim] in *. unfold is_prim in Hwf.
    apply andb_true_iff in Hwf as [_ Hp]. apply negb_true_iff in Hp. simpl in Hp. bool_cases.
    unfold decode_switch.
    repeat match goal with |- context [e =? ?c] =>
      rewrite (proj2 (Z.eqb_neq e c)) by assumption; cbn [orb] end.
    done.
  - intros Hwf Hseg Hlen. cbn [wf_type encode_type] in *. split_seg.
    pose proof (encode_uint_length coded). unfold decode_switch.
    assert (head_code (TNamed vt coded) = named_code vt) as -> by done.
    assert (((named_code vt =? ZACLR_ELEMENT_TYPE_CLASS)
      || (named_code vt =? ZACLR_ELEMENT_TYPE_VALUETYPE)) = true) as -> by (by destruct vt).
    rewrite (decode_encode_uint m blob d _ coded) by encoded. cbn [mbind outcome_bind].
    by rewrite <- Z.add_assoc.
  - intros Hwf Hseg Hlen. cbn [wf_type encode_type] in *. split_seg.
    pose proof (encode_uint_length i). destruct mv; unfold decode_switch; cbn -[zlength Z.add];
    rewrite (decode_encode_uint m blob d _ i) by encoded; cbn [mbind outcome_bind];
    by rewrite <- Z.add_assoc.
  - intros Hwf Hseg Hlen. cbn [wf_type encode_type] in *. split_seg.
    pose proof (encode_type_length t).
    destruct sz; unfold decode_switch, skip_signature_type; cbn -[zlength Z.add];
    rewrite (Hinv m blob d _ t) by encoded; cbn [mbind outcome_bind];
    by rewrite <- Z.add_assoc.
  - apply switch_array.
  - apply switch_inst.
  - apply switch_fnptr.
  - exfalso. clear -Hc. simpl in Hc. assert (forall t p t', core t <> TMod p t') as Hn.
    { clear. induction t; intros; simpl; congruence || auto. }
    by apply (Hn t pinned t).
Qed.

End decode_step.

Lemma decode_inverts_step fuel : decode_inverts fuel -> parse_inverts fuel -> decode_inverts (S fuel).
Proof.
  intros Hinv Hpar m blob d off t Hb Hd Hoff Hwf Hseg Hlen Hf.
  pose proof (encode_type_length t). cbn [decode_signature_type]. cbv zeta.
  destruct (Z.leb_spec (sl_size blob) off); [lia|]. rewrite Hd. cbn [mbind outcome_bind deref].
  rewrite (seg_head m _ t) by done. cbn [mbind outcome_bind]. pose proof (proj2 Hb).
  rewrite u32_id by lia.
  destruct (skip_modifiers_encoded m blob d t (blob_fuel blob) 0 off) as (Ho & Hs & ->);
    try done; [unfold blob_fuel; lia|]. cbn [mbind outcome_bind]. rewrite Z.lor_0_l.
  assert (core (core t) = core t) as Hcc by (clear; induction t; done).
  pose proof (fun a b => switch_core fuel m blob d _ (mods t) Hinv Hpar Hb Hd a b _ Hcc
    (core_wf t Hwf) Hs) as Hsw. unfold skip_signature_type in Hsw.
  rewrite Hsw by lia.
  do 2 f_equal. lia.
Qed.

Lemma parse_inverts_step fuel : decode_inverts fuel -> parse_inverts (S fuel).
Proof.
  intros Hinv m blob d cc gpc ret params Hb Hd Hwf Hseg Hlen Hf.
  unfold wf_method in Hwf. bool_cases. unfold encode_method in Hseg, Hlen |- *. 
  split_seg. cbn [zaclr_signature_parse_method]. rewrite Hd. pose proof (proj2 Hb).
  pose proof (encode_type_length ret). pose proof (encode_uint_length (zlength params)).
  pose proof (encode_uint_length gpc). pose proof (zlength_nonneg params).
  pose proof (zlength_nonneg (concat (map encode_type params))).
  pose proof (zlength_nonneg (if flag_set cc 16 then encode_uint gpc else [])).
  destruct (Z.eqb_spec (sl_size blob) 0); [lia|].
  assert (read_u8 m d = Ret cc) as ->.
  { unfold read_u8. rewrite H5. by rewrite byte_Z_of_Z, u8_id by lia. }
  cbn [mbind outcome_bind].
  assert ((if flag_set cc 16 then decode_compressed_uint m blob 1 else Ret (0, 1)) =
    Ret (if flag_set cc 16 then gpc else 0,
         1 + zlength (if flag_set cc 16 then encode_uint gpc else []))) as ->.
  { destruct (flag_set cc 16); [|done]. by rewrite (decode_encode_uint m blob d _ gpc) by encoded. }
  cbn [mbind outcome_bind]. unfold params_offset.
  remember (if flag_set cc 16 then encode_uint gpc else []) as gp eqn:Hgp.
  rewrite (decode_encode_uint m blob d _ (zlength params)) by (unfold is_uint29; encoded).
  cbn [mbind outcome_bind].
  rewrite (Hinv m blob d _ ret) by encoded. cbn [mbind outcome_bind].
  rewrite (u16_id (zlength params)) by lia.
  pose proof (skip_types_encoded fuel m blob d (1 + zlength gp + zlength (encode_uint (zlength params))
     + zlength (encode_type ret)) params Hinv) as Hskip. unfold skip_signature_type in Hskip.
  rewrite Hskip by encoded. cbn [mbind outcome_bind]. f_equal. f_equal. f_equal. lia.
Qed.

Lemma decode_parse_invert fuel : decode_inverts fuel /\ parse_inverts fuel.
Proof.
  induction fuel as [|fuel [IHd IHp]].
  - split; [intros m blob d off t ? ? ? ? ? ? ?|intros m blob d cc gpc ret ps [[? _] _] ? ? ? ?];
      [pose proof (encode_type_length t)|]; lia.
  - split; [by apply decode_inverts_step|by apply parse_inverts_step].
Qed.

(** The parameters before the [i]-th are skipped. *)
Lemma skip_params_encoded m blob d off ts i :
  blob_ok m blob -> sl_data blob = Some d -> 0 <= off -> 0 <= i <= zlength ts ->
  forallb wf_type ts = true ->
  seg m (d + off) (concat (map encode_type ts)) ->
  off + zlength (concat (map encode_type ts)) <= sl_size blob ->
  for_loop (blob_fuel blob) 0 i (skip_signature_type (blob_fuel blob) m blob) off
    = Ret (off + zlength (concat (map encode_type (take (Z.to_nat i) ts)))).
Proof.
  intros Hb Hd Hoff Hi Hwf Hseg Hlen.
  rewrite <- (take_drop (Z.to_nat i) ts), map_app, concat_app in Hseg, Hlen.
  rewrite <- (take_drop (Z.to_nat i) ts), forallb_app in Hwf. bool_cases. split_seg.
  pose proof (zlength_nonneg (concat (map encode_type (drop (Z.to_nat i) ts)))).
  pose proof (zlength_nonneg (concat (map encode_type (take (Z.to_nat i) ts)))).
  assert (i = zlength (take (Z.to_nat i) ts)) as Hl
    by (unfold zlength in *; rewrite length_take; lia).
  rewrite Hl at 1. destruct (decode_parse_invert (blob_fuel blob)) as [Hinv _].
  apply (skip_types_encoded _ m blob d); try done; [lia|unfold blob_fuel; lia].
Qed.

(** Where the [i]-th parameter stands. *)
Lemma seg_item m p ts i t :
  seg m p (concat (map encode_type ts)) -> ts .@ i = Some t ->
  let o := zlength (concat (map encode_type (take (Z.to_nat i) ts))) in
  seg m (p + o) (encode_type t) /\
  o + zlength (encode_type t) <= zlength (concat (map encode_type ts)).
Proof.
  intros Hseg Ht o. unfold get in Ht. case_if_in Ht; [discriminate|].
  assert (concat (map encode_type ts) = concat (map encode_type (take (Z.to_nat i) ts)) ++
    encode_type t ++ concat (map encode_type (drop (S (Z.to_nat i)) ts))) as Heq.
  { rewrite <- (take_drop_middle ts (Z.to_nat i) t Ht) at 1. by rewrite map_app, concat_app. }
  rewrite Heq in *. unfold o.
  pose proof (zlength_nonneg (concat (map encode_type (drop (S (Z.to_nat i)) ts)))). split_seg.
  split; [done|lia].
Qed.

(** What a signature says of a type (ECMA-335 II.23.2): the code of its outermost
    constructor, the token of a class, value type or instantiation, the number of a
    variable, and as flags whether a BYREF or a PINNED prefix stands before it. *)
Definition type_summary (t : sig_type) : zaclr_signature_type :=
  let none := zaclr_token_make 0 in
  let '(code, token, index) :=
    match core t with
    | TPrim e => (e, none, 0)
    | TNamed true coded => (ZACLR_ELEMENT_TYPE_VALUETYPE, coded_type_token coded, 0)
    | TNamed false coded => (ZACLR_ELEMENT_TYPE_CLASS, coded_type_token coded, 0)
    | TVar false i => (ZACLR_ELEMENT_TYPE_VAR, none, i)
    | TVar true i => (ZACLR_ELEMENT_TYPE_MVAR, none, i)
    | TPtr false _ => (ZACLR_ELEMENT_TYPE_PTR, none, 0)
    | TPtr true _ => (ZACLR_ELEMENT_TYPE_SZARRAY, none, 0)
    | TArray _ _ _ _ => (ZACLR_ELEMENT_TYPE_ARRAY, none, 0)
    | TInst _ coded _ => (ZACLR_ELEMENT_TYPE_GENERICINST, coded_type_token coded, 0)
    | TFnPtr _ _ _ => (ZACLR_ELEMENT_TYPE_FNPTR, none, 0)
    | TMod _ _ => (0, none, 0)
    end in
  mk_sigtype code token index (mods t).

(** The decoder loses the prefixes of an instantiation
    ([byref_of_generic_instance_is_lost]); elsewhere it keeps them. *)
Definition prefixes_kept (t : sig_type) : Prop :=
  match core t with TInst _ _ _ => mods t = 0 | _ => True end.

Lemma kept_summary t : prefixes_kept t -> sig_repr t = type_summary t.
Proof.
  unfold prefixes_kept, sig_repr, type_summary, core_repr. intros Hk.
  destruct (core t); repeat case_match; simplify_eq; try done; by rewrite Hk.
Qed.


(** ** Concrete signatures *)

(** A generic method: two generic parameters, [int32& F(!!0[], ref List<string>,
    void* (int32))]. *)
Definition sample_ret : sig_type := TMod false (TPrim ZACLR_ELEMENT_TYPE_I4).
Definition sample_params : list sig_type :=
  [TPtr true (TVar true 0);
   TInst false 0x49 [TMod false (TPrim ZACLR_ELEMENT_TYPE_STRING)];
   TFnPtr 0 (TPtr false (TPrim ZACLR_ELEMENT_TYPE_VOID)) [TPrim ZACLR_ELEMENT_TYPE_I4];
   TArray (TNamed true 0x1234) 2 [3; 200] []].
Definition sample_image : memory := encode_method 0x30 2 sample_ret sample_params.
Definition sample_blob : zaclr_slice := mk_slice (Some 0) (zlength sample_image).

Lemma sample_blob_ok : blob_ok sample_image sample_blob.
Proof. split; [split|]; vm_compute; try split; congruence. Qed.

Lemma signature_parsers_safe_witness :
  safe (parse_method sample_image sample_blob) /\ safe (decode_type sample_image sample_blob 3).
Proof.
  destruct (signature_parsers_safe sample_image sample_blob sample_blob_ok) as (Hd & Hp & _).
  split; eapply safe_post_safe; [exact Hp|]. apply (Hd 3). vm_compute. split; congruence.
Defined.


(** ** What the decoder gets wrong *)

(** The recursive call for a generic instantiation starts by clearing the record
    it shares with its caller, so [ref List<T>] is reported without the BYREF
    flag its prefix set; a class type in the same place keeps it. *)
Lemma byref_of_generic_instance_is_lost :
  let flags_of t :=
    match decode_type (encode_type t) (mk_slice (Some 0) (zlength (encode_type t))) 0 with
    | Ret (ty, _) => Some (st_flags ty) | _ => None end in
  flags_of (TMod false (TInst false 0x49 [TPrim ZACLR_ELEMENT_TYPE_STRING])) = Some 0 /\
  flags_of (TMod false (TNamed false 0x49)) = Some ZACLR_SIGNATURE_TYPE_FLAG_BYREF.
Proof. split; reflexivity. Qed.

(** The length of a nested signature goes through a [uint8_t] field: a function
    pointer whose signature takes 304 bytes moves the cursor by 48 only, into the
    middle of its own parameters. *)
Lemma long_function_pointer_misparsed :
  let t := TFnPtr 0 (TPrim ZACLR_ELEMENT_TYPE_VOID) (replicate 300 (TPrim ZACLR_ELEMENT_TYPE_I4)) in
  let blob := mk_slice (Some 0) (zlength (encode_type t)) in
  zlength (encode_type t) = 305 /\
  match decode_type (encode_type t) blob 0 with Ret (_, off) => off = 49 | _ => False end.
Proof. split; vm_compute; reflexivity. Qed.
