(* ===== verification/FieldLayout.v ===== *)
(** * Field signatures and element sizes

    [zaclr/typesystem/zaclr_field_layout.cpp]: the size, alignment and
    reference-ness of an element type, and the parser of field signatures. *)

From S2P Require Import Prelude Status Bytes Token Signature.

Definition ZACLR_FIELD_SIG_MARKER : Z := 0x06.

(** The [switch] of a C function over [uint8_t] labels. *)
Definition one_of (x : Z) (labels : list Z) : bool := existsb (Z.eqb x) labels.

Definition zaclr_field_layout_size_from_element_type (element_type : Z) : Z :=
  if one_of element_type
       [ZACLR_ELEMENT_TYPE_BOOLEAN; ZACLR_ELEMENT_TYPE_I1; ZACLR_ELEMENT_TYPE_U1] then 1
  else if one_of element_type
       [ZACLR_ELEMENT_TYPE_CHAR; ZACLR_ELEMENT_TYPE_I2; ZACLR_ELEMENT_TYPE_U2] then 2
  else if one_of element_type
       [ZACLR_ELEMENT_TYPE_I4; ZACLR_ELEMENT_TYPE_U4; ZACLR_ELEMENT_TYPE_R4] then 4
  else if one_of element_type
       [ZACLR_ELEMENT_TYPE_I8; ZACLR_ELEMENT_TYPE_U8; ZACLR_ELEMENT_TYPE_R8] then 8
  else if one_of element_type [ZACLR_ELEMENT_TYPE_I; ZACLR_ELEMENT_TYPE_U] then 8
  else if one_of element_type
       [ZACLR_ELEMENT_TYPE_CLASS; ZACLR_ELEMENT_TYPE_OBJECT; ZACLR_ELEMENT_TYPE_STRING;
        ZACLR_ELEMENT_TYPE_SZARRAY; ZACLR_ELEMENT_TYPE_ARRAY; ZACLR_ELEMENT_TYPE_PTR;
        ZACLR_ELEMENT_TYPE_FNPTR] then 8
  else 0.

Definition zaclr_field_layout_is_reference (element_type : Z) : bool :=
  one_of element_type
    [ZACLR_ELEMENT_TYPE_CLASS; ZACLR_ELEMENT_TYPE_OBJECT; ZACLR_ELEMENT_TYPE_STRING;
     ZACLR_ELEMENT_TYPE_SZARRAY; ZACLR_ELEMENT_TYPE_ARRAY].

Definition zaclr_field_layout_compute_alignment (element_type : Z) : Z :=
  let size := zaclr_field_layout_size_from_element_type element_type in
  if size =? 0 then 1 else if 8 <? size then 8 else size.

(** The file has its own copy of the decoder of compressed integers, the same
    text as the one of [zaclr_signature.cpp]. *)
Definition decode_compressed_uint : memory -> zaclr_slice -> Z -> outcome (Z * Z) :=
  Signature.decode_compressed_uint.

(** The loop over the CMOD_OPT and CMOD_REQD prefixes: element type, offset. *)
Fixpoint skip_cmods (fuel : nat) (m : memory) (blob : zaclr_slice) (et offset : Z)
  : outcome (Z * Z) :=
  if (et =? ZACLR_ELEMENT_TYPE_CMOD_OPT) || (et =? ZACLR_ELEMENT_TYPE_CMOD_REQD) then
    match fuel with
    | O => NoFuel
    | S fuel =>
      '(_, offset) ← decode_compressed_uint m blob offset;
      if sl_size blob <=? offset then Err bad_metadata else
      data ← deref (sl_data blob);
      et' ← read_u8 m (data + offset);
      skip_cmods fuel m blob et' (u32 (offset + 1))
    end
  else Ret (et, offset).

(** The [switch] at the end of the parser: the token of a class, value type or
    generic instance. *)
Definition field_switch (m : memory) (blob : zaclr_slice) (data et flags offset : Z)
  : outcome zaclr_signature_type :=
  let no_token := mk_sigtype et (zaclr_token_make 0) 0 flags in
  if (et =? ZACLR_ELEMENT_TYPE_CLASS) || (et =? ZACLR_ELEMENT_TYPE_VALUETYPE) then
    '(value, _) ← decode_compressed_uint m blob offset;
    Ret (mk_sigtype et (coded_type_token value) 0 flags)
  else if et =? ZACLR_ELEMENT_TYPE_GENERICINST then
    if offset <? sl_size blob then
      inner ← read_u8 m (data + offset);
      if (inner =? ZACLR_ELEMENT_TYPE_CLASS) || (inner =? ZACLR_ELEMENT_TYPE_VALUETYPE) then
        '(value, _) ← decode_compressed_uint m blob (u32 (offset + 1));
        Ret (mk_sigtype et (coded_type_token value) 0 flags)
      else Ret no_token
    else Ret no_token
  else Ret no_token.

Definition zaclr_field_layout_parse_field_signature (m : memory) (blob : zaclr_slice)
  : outcome zaclr_signature_type :=
  match sl_data blob with
  | None => Err invalid_argument
  | Some data =>
    if sl_size blob =? 0 then Err invalid_argument else
    marker ← read_u8 m (data + 0);
    require marker =? ZACLR_FIELD_SIG_MARKER else bad_metadata;
    if sl_size blob <=? 1 then Err bad_metadata else
    et0 ← read_u8 m (data + 1);
    '(et, flags, offset) ← skip_modifiers (blob_fuel blob) m blob et0 0 2;
    '(et, offset) ← skip_cmods (blob_fuel blob) m blob et offset;
    field_switch m blob data et flags offset
  end.

(** ** Specification: field signatures

    BYREF and PINNED prefixes ([mods]), custom modifiers ([cmods]: the kind and
    the coded type of each), then a type without prefixes. *)
Definition encode_cmod (c : bool * Z) : list Byte.byte :=
  byte_of_Z (if c.1 then ZACLR_ELEMENT_TYPE_CMOD_REQD else ZACLR_ELEMENT_TYPE_CMOD_OPT)
    :: encode_uint c.2.

Definition encode_field (cmods : list (bool * Z)) (t : sig_type) : list Byte.byte :=
  byte_of_Z ZACLR_FIELD_SIG_MARKER :: concat (map encode_cmod cmods) ++ encode_type t.

(** ** Sizes and alignments *)

Lemma element_size_cases et :
  zaclr_field_layout_size_from_element_type et ∈ [0; 1; 2; 4; 8].
Proof.
  unfold zaclr_field_layout_size_from_element_type.
  repeat case_if; rewrite !elem_of_cons; tauto.
Qed.

Lemma alignment_cases et : zaclr_field_layout_compute_alignment et ∈ [1; 2; 4; 8].
Proof.
  pose proof (element_size_cases et) as H. unfold zaclr_field_layout_compute_alignment.
  rewrite !elem_of_cons in *. case_if; [tauto|]. case_if; [tauto|]. tauto.
Qed.

(** The alignment of an element type is a power of two up to 8 that divides
    the size (a size of 0, "not a primitive", has alignment 1), and a reference
    always takes the 8 bytes of a pointer, aligned to 8. *)
Theorem element_sizes_aligned et :
  zaclr_field_layout_compute_alignment et ∈ [1; 2; 4; 8] /\
  zaclr_field_layout_size_from_element_type et mod zaclr_field_layout_compute_alignment et = 0 /\
  (zaclr_field_layout_is_reference et = true ->
   zaclr_field_layout_size_from_element_type et = 8 /\
   zaclr_field_layout_compute_alignment et = 8).
Proof.
  split; [apply alignment_cases|]. split.
  - pose proof (element_size_cases et) as H. unfold zaclr_field_layout_compute_alignment.
    rewrite !elem_of_cons in H. destruct H as [H|[H|[H|[H|[H|H]]]]]; rewrite ?H; try done.
    by apply elem_of_nil in H.
  - unfold zaclr_field_layout_is_reference, one_of. intros Hr.
    apply existsb_exists in Hr as (x & Hx & ->%Z.eqb_eq). simpl in Hx.
    repeat (destruct Hx as [<-|Hx]; [done|]). done.
Qed.

(** ** Safety of the parser *)

Lemma skip_cmods_post m blob fuel et off :
  blob_ok m blob -> 0 <= off <= sl_size blob -> sl_size blob - off < Z.of_nat fuel ->
  safe_post (skip_cmods fuel m blob et off) (fun '(_, off') => off <= off' <= sl_size blob).
Proof.
  intros Hb. revert et off. induction fuel as [|fuel IH]; intros et off Hoff Hf; [lia|].
  simpl. case_if; [|simpl; lia].
  step; [apply decode_compressed_uint_post; [done|lia]|]. intros [v o] _ [_ Ho].
  case_if; [done|]. destruct (blob_ok_data m blob o Hb) as (d & Hd & Hd0 & Hdl); [lia|].
  rewrite Hd. step; [simpl; exact I|]. intros ? [= <-] _.
  step; [apply read_u8_post; lia|]. intros et' _ _. pose proof (proj2 Hb).
  rewrite u32_id by lia. eapply safe_post_mono; [apply IH; lia|]. intros [??]. lia.
Qed.

(** The field-signature parser reads only the bytes of its blob and
    terminates on every input. *)
Theorem parse_field_signature_safe m blob :
  blob_ok m blob -> safe (zaclr_field_layout_parse_field_signature m blob).
Proof.
  intros Hb. apply (safe_post_safe _ (fun _ => True)).
  unfold zaclr_field_layout_parse_field_signature.
  destruct (sl_data blob) as [d|] eqn:Hdd; [|done]. case_if; [done|].
  destruct (proj1 Hb) as [Hs0 Hdl]. rewrite Hdd in Hdl. pose proof (proj2 Hb).
  step; [apply read_u8_post; lia|]. intros marker _ _. apply safe_post_require. intros _.
  case_if; [done|]. step; [apply read_u8_post; lia|]. intros et0 _ _.
  step; [apply skip_modifiers_post; [done|lia|unfold blob_fuel; lia]|].
  intros [[et1 flags] o1] _ Ho1. cbv beta iota in Ho1.
  step; [apply skip_cmods_post; [done|lia|unfold blob_fuel; lia]|].
  intros [et o] _ Ho. cbv beta iota in Ho.
  unfold field_switch.
  case_if; [step; [apply decode_compressed_uint_post; [done|lia]|]; by intros []|].
  case_if; [|done]. case_if; [|done].
  step; [apply read_u8_post; lia|]. intros inner _ _. case_if; [|done].
  rewrite u32_id by lia.
  step; [apply decode_compressed_uint_post; [done|lia]|]; by intros [].
Qed.

(** ** The parser inverts the encoder *)

(** What the parser reports: as the signature decoder, except that it does not
    read the index of a type variable. *)
Definition field_repr (t : sig_type) : zaclr_signature_type :=
  match t with
  | TVar mv _ => core_repr (TVar mv 0) 0
  | _ => core_repr t 0
  end.

Definition cmod_code (required : bool) : Z :=
  if required then ZACLR_ELEMENT_TYPE_CMOD_REQD else ZACLR_ELEMENT_TYPE_CMOD_OPT.

(** The first byte after the marker. *)
Definition field_head (cmods : list (bool * Z)) (t : sig_type) : Z :=
  match cmods with [] => head_code t | c :: _ => cmod_code c.1 end.

Definition plain (t : sig_type) : bool :=
  negb (one_of (head_code t)
    [ZACLR_ELEMENT_TYPE_BYREF; ZACLR_ELEMENT_TYPE_PINNED; ZACLR_ELEMENT_TYPE_CMOD_OPT;
     ZACLR_ELEMENT_TYPE_CMOD_REQD]).

Lemma plain_head t : plain t = true ->
  head_code t <> ZACLR_ELEMENT_TYPE_BYREF /\ head_code t <> ZACLR_ELEMENT_TYPE_PINNED /\
  head_code t <> ZACLR_ELEMENT_TYPE_CMOD_OPT /\ head_code t <> ZACLR_ELEMENT_TYPE_CMOD_REQD.
Proof. unfold plain, one_of. intros H. simpl in H. bool_cases. done. Qed.

Lemma field_head_read m p cmods t :
  wf_type t = true -> seg m p (concat (map encode_cmod cmods) ++ encode_type t) ->
  read_u8 m p = Ret (field_head cmods t).
Proof.
  intros Hwf Hseg. destruct cmods as [|[r v] cmods]; simpl in *; [by apply seg_head|].
  rewrite (seg_read_u8 _ _ _ _ Hseg), byte_Z_of_Z. by destruct r.
Qed.

Lemma encode_cmod_length c : 1 <= zlength (encode_cmod c).
Proof.
  unfold encode_cmod. rewrite zlength_cons. pose proof (zlength_nonneg (encode_uint c.2)). lia.
Qed.

Lemma skip_cmods_encoded m blob d cmods t fuel off :
  blob_ok m blob -> sl_data blob = Some d -> 0 <= off -> wf_type t = true -> plain t = true ->
  forallb (fun c => is_uint29 c.2) cmods = true ->
  seg m (d + off) (concat (map encode_cmod cmods) ++ encode_type t) ->
  off + zlength (concat (map encode_cmod cmods)) + zlength (encode_type t) <= sl_size blob ->
  zlength cmods <= Z.of_nat fuel ->
  skip_cmods fuel m blob (field_head cmods t) (off + 1)
    = Ret (head_code t, off + zlength (concat (map encode_cmod cmods)) + 1).
Proof.
  intros Hb Hd Hoff Hwf Hpl Hc. revert fuel off Hoff.
  pose proof (encode_type_length t).
  induction cmods as [|[r v] cmods IH]; intros fuel off Hoff Hseg Hlen Hf.
  - apply plain_head in Hpl as (_ & _ & H1 & H2). cbn [field_head map concat] in *.
    unfold zlength at 1. simpl length. rewrite Z.add_0_r. destruct fuel; cbn [skip_cmods];
      by rewrite (proj2 (Z.eqb_neq _ _) H1), (proj2 (Z.eqb_neq _ _) H2).
  - cbn [map concat] in *. rewrite <- app_assoc in Hseg. unfold encode_cmod at 1 in Hseg.
    unfold encode_cmod at 1 in Hlen. unfold encode_cmod at 1. cbn [fst snd] in *.
    cbn [forallb snd] in Hc. bool_cases. cbn [app] in *.
    apply seg_cons in Hseg as [_ Hseg]. apply seg_app in Hseg as [Hv Hseg].
    autorewrite with zapada_simp in *. pose proof (encode_uint_length v).
    pose proof (zlength_nonneg (concat (map encode_cmod cmods))). pose proof (proj2 Hb).
    pose proof (zlength_nonneg cmods).
    destruct fuel as [|fuel]; [lia|]. cbn [skip_cmods field_head fst].
    assert (((cmod_code r =? ZACLR_ELEMENT_TYPE_CMOD_OPT)
             || (cmod_code r =? ZACLR_ELEMENT_TYPE_CMOD_REQD)) = true) as -> by (by destruct r).
    unfold decode_compressed_uint.
    rewrite (decode_encode_uint m blob d _ v) by encoded. cbn [mbind outcome_bind].
    destruct (Z.leb_spec (sl_size blob) (off + 1 + zlength (encode_uint v))); [lia|].
    rewrite Hd. cbn [mbind outcome_bind deref].
    rewrite (field_head_read m _ cmods t) by encoded. cbn [mbind outcome_bind].
    rewrite u32_id by lia. rewrite IH by encoded. do 2 f_equal. lia.
Qed.

Lemma field_switch_encoded m blob d t off :
  blob_ok m blob -> sl_data blob = Some d -> 0 <= off -> wf_type t = true -> plain t = true ->
  seg m (d + off) (encode_type t) -> off + zlength (encode_type t) <= sl_size blob ->
  field_switch m blob d (head_code t) 0 (off + 1) = Ret (field_repr t).
Proof.
  intros Hb Hd Hoff Hwf Hpl Hseg Hlen. unfold field_switch, decode_compressed_uint.
  pose proof (proj2 Hb).
  destruct t as [e|vt coded|[] i|[] t| |vt coded args| |[] t]; try reflexivity; try discriminate Hpl.
  - cbn -[is_prim] in Hwf. unfold is_prim in Hwf. apply andb_true_iff in Hwf as [_ Hp].
    apply negb_true_iff in Hp. simpl in Hp. bool_cases. cbn [head_code].
    repeat match goal with |- context [e =? ?c] =>
      rewrite (proj2 (Z.eqb_neq e c)) by assumption; cbn [orb] end.
    done.
  - cbn [wf_type encode_type head_code] in *. split_seg. pose proof (encode_uint_length coded).
    assert (((named_code vt =? ZACLR_ELEMENT_TYPE_CLASS)
      || (named_code vt =? ZACLR_ELEMENT_TYPE_VALUETYPE)) = true) as -> by (by destruct vt).
    by rewrite (decode_encode_uint m blob d _ coded) by encoded.
  - cbn [wf_type encode_type head_code] in *. bool_cases. cbn [app] in *. split_seg.
    pose proof (encode_uint_length coded). pose proof (encode_uint_length (zlength args)).
    pose proof (zlength_nonneg (concat (map encode_type args))).
    destruct (Z.ltb_spec (off + 1) (sl_size blob)); [|lia]. cbn [orb Z.eqb Pos.eqb].
    assert (read_u8 m (d + (off + 1)) = Ret (named_code vt)) as ->.
    { unfold read_u8. erewrite H4. by destruct vt. }
    destruct vt; cbn -[zlength Z.add];
      rewrite u32_id by lia; by rewrite (decode_encode_uint m blob d _ coded) by encoded.
Qed.

(** Parsing the encoding of a field signature, with any custom modifiers,
    reports the element type and the type token of the field. *)
Theorem field_signature_roundtrip m blob d cmods t :
  blob_ok m blob -> sl_data blob = Some d -> wf_type t = true -> plain t = true ->
  forallb (fun c => is_uint29 c.2) cmods = true ->
  seg m d (encode_field cmods t) -> zlength (encode_field cmods t) <= sl_size blob ->
  zaclr_field_layout_parse_field_signature m blob = Ret (field_repr t).
Proof.
  intros Hb Hd Hwf Hpl Hc Hseg Hlen. unfold encode_field in *.
  apply seg_cons in Hseg as [H0 Hseg]. rewrite zlength_cons, zlength_app in Hlen.
  pose proof (encode_type_length t). pose proof (proj2 Hb).
  pose proof (zlength_nonneg (concat (map encode_cmod cmods))).
  unfold zaclr_field_layout_parse_field_signature. rewrite Hd.
  destruct (Z.eqb_spec (sl_size blob) 0); [lia|].
  assert (read_u8 m (d + 0) = Ret ZACLR_FIELD_SIG_MARKER) as -> by
    (unfold read_u8; by rewrite Z.add_0_r, H0).
  cbn [mbind outcome_bind]. rewrite Z.eqb_refl.
  destruct (Z.leb_spec (sl_size blob) 1); [lia|].
  rewrite (field_head_read m _ cmods t) by done. cbn [mbind outcome_bind].
  assert (skip_modifiers (blob_fuel blob) m blob (field_head cmods t) 0 2
          = Ret (field_head cmods t, 0, 2)) as ->.
  { apply plain_head in Hpl as (Hp1 & Hp2 & _). destruct cmods as [|[[] v] ?]; try done.
    cbn [field_head]. unfold blob_fuel. cbn [skip_modifiers].
    by rewrite (proj2 (Z.eqb_neq _ _) Hp1), (proj2 (Z.eqb_neq _ _) Hp2). }
  cbn [mbind outcome_bind]. change 2 with (1 + 1).
  assert (zlength cmods <= zlength (concat (map encode_cmod cmods))).
  { clear. induction cmods as [|c cs IH]; [done|]. cbn [map concat]. rewrite zlength_cons, zlength_app.
    pose proof (encode_cmod_length c). lia. }
  rewrite (skip_cmods_encoded m blob d cmods t) by (unfold blob_fuel; encoded).
  cbn [mbind outcome_bind]. apply seg_app in Hseg as [_ Hseg].
  replace (1 + zlength (concat (map encode_cmod cmods)) + 1)
    with ((1 + zlength (concat (map encode_cmod cmods))) + 1) by lia.
  apply field_switch_encoded; encoded.
Qed.

(** [modreq(T1) modopt(T2) List<int> f]. *)
Definition sample_field : sig_type := TInst false 0x49 [TPrim ZACLR_ELEMENT_TYPE_I4].
Definition sample_cmods : list (bool * Z) := [(true, 0x11); (false, 0x4321)].
Definition sample_field_image : memory := encode_field sample_cmods sample_field.
Definition sample_field_blob : zaclr_slice := mk_slice (Some 0) (zlength sample_field_image).

Lemma sample_field_blob_ok : blob_ok sample_field_image sample_field_blob.
Proof. split; [split|]; vm_compute; try split; congruence. Qed.

Lemma parse_field_signature_safe_witness :
  safe (zaclr_field_layout_parse_field_signature sample_field_image sample_field_blob).
Proof. apply (parse_field_signature_safe _ _ sample_field_blob_ok). Defined.

Lemma field_signature_roundtrip_witness :
  zaclr_field_layout_parse_field_signature sample_field_image sample_field_blob
  = Ret (mk_sigtype ZACLR_ELEMENT_TYPE_GENERICINST (zaclr_token_make 0x01000012) 0 0).
Proof.
  apply (field_signature_roundtrip _ _ 0 sample_cmods sample_field sample_field_blob_ok);
    try reflexivity. apply seg_refl.
Defined.

Lemma element_sizes_aligned_witness :
  zaclr_field_layout_size_from_element_type ZACLR_ELEMENT_TYPE_STRING = 8.
Proof. apply (element_sizes_aligned ZACLR_ELEMENT_TYPE_STRING). reflexivity. Defined.
