(* ===== verification/MetadataTables.v ===== *)
(** * Metadata tables

    The table part of [zaclr/metadata/zaclr_metadata_reader.cpp]: the widths of
    the columns, the size of a row of each table, and the readers of the rows of
    the 22 tables the runtime uses.  Each reader is the sequence of field reads of
    its C function, with the cursor [p] threaded through.

    The specification is [schema], the columns of every table in the order of
    ECMA-335 II.22, with a generic reader of the columns it lists.  The interface
    [RowReader] and its laws say that the reader of a table follows the schema; it
    is instantiated once per table, and what the runtime relies on (rows inside
    the table are read inside the image, the reader inverts the encoder) is proved
    once, against the interface.

    A routine's pointer arguments to structures (the reader, the row to fill) are
    addresses of existing objects at every call; they are passed by value here
    and the tests for [NULL] have no counterpart. *)

From S2P Require Import Prelude Status Bytes Signature.

Definition ZACLR_METADATA_MAX_TABLES : Z := 64.

(** ** The reader *)

Record zaclr_metadata_table_view := mk_table_view {
  rows : ptr; row_size : Z; row_count : Z }.

Record zaclr_metadata_reader := mk_reader {
  metadata_root : zaclr_slice;
  strings_heap : zaclr_slice;
  blob_heap : zaclr_slice;
  user_string_heap : zaclr_slice;
  tilde_stream : zaclr_slice;
  heap_sizes : Z;
  valid_mask : Z;
  tables : list zaclr_metadata_table_view;
  row_counts : list Z;
  rd_assembly_name_index : Z }.

Definition zaclr_metadata_reader_get_row_count (reader : option zaclr_metadata_reader)
    (table_id : Z) : Z :=
  match reader with
  | None => 0
  | Some reader =>
    if ZACLR_METADATA_MAX_TABLES <=? table_id then 0 else default 0 (row_counts reader .@ table_id)
  end.

(** ** Widths *)

(** [*p += w] after a read of [w] bytes. *)
Definition next_u16 (m : memory) (p : Z) : outcome (Z * Z) := v ← read_u16 m p; Ret (v, p + 2).
Definition next_u32 (m : memory) (p : Z) : outcome (Z * Z) := v ← read_u32 m p; Ret (v, p + 4).

Definition read_heap_index (m : memory) (reader : zaclr_metadata_reader) (p heap_bit : Z)
  : outcome (Z * Z) :=
  if flag_set (heap_sizes reader) heap_bit then next_u32 m p else next_u16 m p.

(** [size == 4u ? read_u32(p) : read_u16(p); p += size], the reads of table and
    coded indices. *)
Definition next_index (m : memory) (size p : Z) : outcome (Z * Z) :=
  v ← (if size =? 4 then read_u32 m p else read_u16 m p); Ret (v, p + size).

Definition table_index_size (reader : zaclr_metadata_reader) (table : Z) : Z :=
  if ZACLR_METADATA_MAX_TABLES <=? table then 2
  else if 0xFFFF <? default 0 (row_counts reader .@ table) then 4 else 2.

Definition max_rows_for_tables (reader : zaclr_metadata_reader) (l : list Z) : Z :=
  fold_left (fun max_rows table =>
    if (table <? ZACLR_METADATA_MAX_TABLES) && (max_rows <? default 0 (row_counts reader .@ table))
    then default 0 (row_counts reader .@ table) else max_rows) l 0.

Definition coded_index_size (reader : zaclr_metadata_reader) (l : list Z) (tag_bits : Z) : Z :=
  if Z.shiftl 1 (16 - tag_bits) <=? max_rows_for_tables reader l then 4 else 2.

Definition resolution_scope_tables : list Z := [0x00; 0x1A; 0x23; 0x01].
Definition typedef_or_ref_tables : list Z := [0x02; 0x01; 0x1B].
Definition has_constant_tables : list Z := [0x04; 0x08; 0x17].
Definition has_custom_attribute_tables : list Z :=
  [0x06; 0x04; 0x01; 0x02; 0x08; 0x09; 0x0A; 0x00; 0x0E; 0x17; 0x14; 0x11; 0x1A; 0x1B; 0x20;
   0x23; 0x26; 0x27; 0x2A; 0x2C; 0x2B].
Definition custom_attribute_type_tables : list Z := [0x06; 0x0A].
Definition has_field_marshal_tables : list Z := [0x04; 0x08].
Definition has_decl_security_tables : list Z := [0x02; 0x06; 0x20].
Definition member_ref_parent_tables : list Z := [0x02; 0x01; 0x1A; 0x06; 0x1B].
Definition has_semantics_tables : list Z := [0x14; 0x17].
Definition method_def_or_ref_tables : list Z := [0x06; 0x0A].
Definition member_forwarded_tables : list Z := [0x04; 0x06].
Definition implementation_tables : list Z := [0x26; 0x27; 0x23].
Definition type_or_method_def_tables : list Z := [0x02; 0x06].

Definition table_row_size (reader : zaclr_metadata_reader) (table : Z) : Z :=
  let str_w := if flag_set (heap_sizes reader) 0x01 then 4 else 2 in
  let guid_w := if flag_set (heap_sizes reader) 0x02 then 4 else 2 in
  let blob_w := if flag_set (heap_sizes reader) 0x04 then 4 else 2 in
  let coded := coded_index_size reader in
  let index := table_index_size reader in
  match table with
  | 0x00 => 2 + str_w + guid_w + guid_w + guid_w
  | 0x01 => coded resolution_scope_tables 2 + str_w + str_w
  | 0x02 => 4 + str_w + str_w + coded typedef_or_ref_tables 2 + index 0x04 + index 0x06
  | 0x03 => index 0x04
  | 0x04 => 2 + str_w + blob_w
  | 0x05 => index 0x06
  | 0x06 => 4 + 2 + 2 + str_w + blob_w + index 0x08
  | 0x07 => index 0x08
  | 0x08 => 2 + 2 + str_w
  | 0x09 => index 0x02 + coded typedef_or_ref_tables 2
  | 0x0A => coded member_ref_parent_tables 3 + str_w + blob_w
  | 0x0B => 2 + coded has_constant_tables 2 + blob_w
  | 0x0C => coded has_custom_attribute_tables 5 + coded custom_attribute_type_tables 3 + blob_w
  | 0x0D => coded has_field_marshal_tables 1 + blob_w
  | 0x0E => 2 + coded has_decl_security_tables 2 + blob_w
  | 0x0F => 2 + 4 + index 0x02
  | 0x10 => 4 + index 0x04
  | 0x11 => blob_w
  | 0x12 => index 0x02 + index 0x14
  | 0x13 => index 0x14
  | 0x14 => 2 + str_w + coded typedef_or_ref_tables 2
  | 0x15 => index 0x02 + index 0x17
  | 0x16 => index 0x17
  | 0x17 => 2 + str_w + blob_w
  | 0x18 => 2 + index 0x06 + coded has_semantics_tables 1
  | 0x19 => index 0x02 + coded method_def_or_ref_tables 1 + coded method_def_or_ref_tables 1
  | 0x1A => str_w
  | 0x1B => blob_w
  | 0x1C => 2 + coded member_forwarded_tables 1 + str_w + index 0x1A
  | 0x1D => 4 + index 0x04
  | 0x1E => 4 + index 0x14
  | 0x20 => 4 + 2 + 2 + 2 + 2 + 4 + blob_w + str_w + str_w
  | 0x21 => 4
  | 0x22 => 4 + 4 + str_w + blob_w
  | 0x23 => 2 + 2 + 2 + 2 + 4 + blob_w + str_w + str_w + blob_w
  | 0x24 => 4 + index 0x26 + index 0x23
  | 0x25 => 4 + index 0x23 + index 0x23
  | 0x26 => 4 + str_w + blob_w
  | 0x27 => 4 + 4 + str_w + str_w + coded implementation_tables 2
  | 0x28 => 4 + 4 + str_w + coded implementation_tables 2
  | 0x29 => index 0x02 + index 0x02
  | 0x2A => 2 + 2 + coded type_or_method_def_tables 1 + str_w
  | 0x2B => coded method_def_or_ref_tables 1 + blob_w
  | 0x2C => index 0x2A + coded typedef_or_ref_tables 2
  | _ => 0
  end.

(** ** Row readers *)

(** The checks on the row number and the pointer to the row, which every reader
    starts with. *)
Definition row_start (reader : zaclr_metadata_reader) (table row_1based : Z) : outcome Z :=
  match tables reader .@ table with
  | None => Fault
  | Some view =>
    if (row_1based =? 0) || (row_count view <? row_1based) then Err bad_metadata else
    match rows view with
    | None => Err bad_metadata
    | Some p => Ret (p + u32 ((row_1based - 1) * row_size view))
    end
  end.

(** The rows, [zaclr_metadata_reader.h]. *)

Record zaclr_assembly_row := mk_assembly_row {
  assembly_major_version : Z; assembly_minor_version : Z; assembly_build_number : Z;
  assembly_revision_number : Z; assembly_flags : Z; assembly_public_key_blob_index : Z;
  assembly_name_index : Z; assembly_culture_index : Z }.

Record zaclr_module_row := mk_module_row {
  module_generation : Z; module_name_index : Z; module_mvid_index : Z;
  module_enc_id_index : Z; module_enc_base_id_index : Z }.

Record zaclr_typedef_row := mk_typedef_row {
  typedef_flags : Z; typedef_name_index : Z; typedef_namespace_index : Z; typedef_extends : Z;
  typedef_field_list : Z; typedef_method_list : Z }.

Record zaclr_field_row := mk_field_row {
  field_flags : Z; field_name_index : Z; field_signature_blob_index : Z }.

Record zaclr_methoddef_row := mk_methoddef_row {
  methoddef_rva : Z; methoddef_impl_flags : Z; methoddef_flags : Z; methoddef_name_index : Z;
  methoddef_signature_blob_index : Z; methoddef_param_list : Z }.

Record zaclr_param_row := mk_param_row {
  param_flags : Z; param_sequence : Z; param_name_index : Z }.

Record zaclr_memberref_row := mk_memberref_row {
  memberref_class_coded_index : Z; memberref_name_index : Z;
  memberref_signature_blob_index : Z }.

Record zaclr_constant_row := mk_constant_row {
  constant_type : Z; constant_parent_coded_index : Z; constant_value_blob_index : Z }.

Record zaclr_customattribute_row := mk_customattribute_row {
  customattribute_parent_coded_index : Z; customattribute_type_coded_index : Z;
  customattribute_value_blob_index : Z }.

Record zaclr_fieldmarshal_row := mk_fieldmarshal_row {
  fieldmarshal_parent_coded_index : Z; fieldmarshal_native_type_blob_index : Z }.

Record zaclr_classlayout_row := mk_classlayout_row {
  classlayout_packing_size : Z; classlayout_class_size : Z; classlayout_parent : Z }.

Record zaclr_fieldlayout_row := mk_fieldlayout_row {
  fieldlayout_offset : Z; fieldlayout_field : Z }.

Record zaclr_event_row := mk_event_row {
  event_flags : Z; event_name_index : Z; event_event_type_coded_index : Z }.

Record zaclr_property_row := mk_property_row {
  property_flags : Z; property_name_index : Z; property_type_blob_index : Z }.

Record zaclr_genericparam_row := mk_genericparam_row {
  genericparam_number : Z; genericparam_flags : Z; genericparam_owner_coded_index : Z;
  genericparam_name_index : Z }.

Record zaclr_assemblyref_row := mk_assemblyref_row {
  assemblyref_major_version : Z; assemblyref_minor_version : Z; assemblyref_build_number : Z;
  assemblyref_revision_number : Z; assemblyref_flags : Z;
  assemblyref_public_key_or_token_blob_index : Z; assemblyref_name_index : Z;
  assemblyref_culture_index : Z; assemblyref_hash_value_blob_index : Z }.

Record zaclr_exportedtype_row := mk_exportedtype_row {
  exportedtype_flags : Z; exportedtype_type_def_id : Z; exportedtype_name_index : Z;
  exportedtype_namespace_index : Z; exportedtype_implementation_coded_index : Z }.

Record zaclr_standalonesig_row := mk_standalonesig_row {
  standalonesig_signature_blob_index : Z }.

Record zaclr_moduleref_row := mk_moduleref_row {
  moduleref_name_index : Z }.

Record zaclr_implmap_row := mk_implmap_row {
  implmap_flags : Z; implmap_member_forwarded_coded_index : Z; implmap_import_name_index : Z;
  implmap_import_scope : Z }.

Record zaclr_methodspec_row := mk_methodspec_row {
  methodspec_method_coded_index : Z; methodspec_instantiation_blob_index : Z }.

Record zaclr_nestedclass_row := mk_nestedclass_row {
  nestedclass_nested_class : Z; nestedclass_enclosing_class : Z }.

(** The readers, one per table. *)

Definition zaclr_metadata_reader_get_assembly_row (m : memory) (reader : zaclr_metadata_reader)
    (row_1based : Z) : outcome zaclr_assembly_row :=
  p ← row_start reader 0x20 row_1based;
  '(_, p) ← next_u32 m p;
  '(major_version, p) ← next_u16 m p;
  '(minor_version, p) ← next_u16 m p;
  '(build_number, p) ← next_u16 m p;
  '(revision_number, p) ← next_u16 m p;
  '(flags, p) ← next_u32 m p;
  '(public_key_blob_index, p) ← read_heap_index m reader p 0x04;
  '(name_index, p) ← read_heap_index m reader p 0x01;
  '(culture_index, _) ← read_heap_index m reader p 0x01;
  Ret (mk_assembly_row major_version minor_version build_number revision_number flags
    public_key_blob_index name_index culture_index).

Definition zaclr_metadata_reader_get_module_row (m : memory) (reader : zaclr_metadata_reader)
    (row_1based : Z) : outcome zaclr_module_row :=
  p ← row_start reader 0x00 row_1based;
  '(generation, p) ← next_u16 m p;
  '(name_index, p) ← read_heap_index m reader p 0x01;
  '(mvid_index, p) ← read_heap_index m reader p 0x02;
  '(enc_id_index, p) ← read_heap_index m reader p 0x02;
  '(enc_base_id_index, _) ← read_heap_index m reader p 0x02;
  Ret (mk_module_row generation name_index mvid_index enc_id_index enc_base_id_index).

Definition zaclr_metadata_reader_get_typedef_row (m : memory) (reader : zaclr_metadata_reader)
    (row_1based : Z) : outcome zaclr_typedef_row :=
  p ← row_start reader 0x02 row_1based;
  '(flags, p) ← next_u32 m p;
  '(name_index, p) ← read_heap_index m reader p 0x01;
  '(namespace_index, p) ← read_heap_index m reader p 0x01;
  '(extends, p) ← next_index m (coded_index_size reader typedef_or_ref_tables 2) p;
  '(field_list, p) ← next_index m (table_index_size reader 0x04) p;
  '(method_list, _) ← next_index m (table_index_size reader 0x06) p;
  Ret (mk_typedef_row flags name_index namespace_index extends field_list method_list).

Definition zaclr_metadata_reader_get_field_row (m : memory) (reader : zaclr_metadata_reader)
    (row_1based : Z) : outcome zaclr_field_row :=
  p ← row_start reader 0x04 row_1based;
  '(flags, p) ← next_u16 m p;
  '(name_index, p) ← read_heap_index m reader p 0x01;
  '(signature_blob_index, _) ← read_heap_index m reader p 0x04;
  Ret (mk_field_row flags name_index signature_blob_index).

Definition zaclr_metadata_reader_get_methoddef_row (m : memory) (reader : zaclr_metadata_reader)
    (row_1based : Z) : outcome zaclr_methoddef_row :=
  p ← row_start reader 0x06 row_1based;
  '(rva, p) ← next_u32 m p;
  '(impl_flags, p) ← next_u16 m p;
  '(flags, p) ← next_u16 m p;
  '(name_index, p) ← read_heap_index m reader p 0x01;
  '(signature_blob_index, p) ← read_heap_index m reader p 0x04;
  '(param_list, _) ← next_index m (table_index_size reader 0x08) p;
  Ret (mk_methoddef_row rva impl_flags flags name_index signature_blob_index param_list).

Definition zaclr_metadata_reader_get_param_row (m : memory) (reader : zaclr_metadata_reader)
    (row_1based : Z) : outcome zaclr_param_row :=
  p ← row_start reader 0x08 row_1based;
  '(flags, p) ← next_u16 m p;
  '(sequence, p) ← next_u16 m p;
  '(name_index, _) ← read_heap_index m reader p 0x01;
  Ret (mk_param_row flags sequence name_index).

Definition zaclr_metadata_reader_get_memberref_row (m : memory) (reader : zaclr_metadata_reader)
    (row_1based : Z) : outcome zaclr_memberref_row :=
  p ← row_start reader 0x0A row_1based;
  '(class_coded_index, p) ← next_index m (coded_index_size reader member_ref_parent_tables 3) p;
  '(name_index, p) ← read_heap_index m reader p 0x01;
  '(signature_blob_index, _) ← read_heap_index m reader p 0x04;
  Ret (mk_memberref_row class_coded_index name_index signature_blob_index).

Definition zaclr_metadata_reader_get_constant_row (m : memory) (reader : zaclr_metadata_reader)
    (row_1based : Z) : outcome zaclr_constant_row :=
  p ← row_start reader 0x0B row_1based;
  '(type, p) ← next_u16 m p;
  '(parent_coded_index, p) ← next_index m (coded_index_size reader has_constant_tables 2) p;
  '(value_blob_index, _) ← read_heap_index m reader p 0x04;
  Ret (mk_constant_row type parent_coded_index value_blob_index).

Definition zaclr_metadata_reader_get_customattribute_row (m : memory) (reader :
  zaclr_metadata_reader)
    (row_1based : Z) : outcome zaclr_customattribute_row :=
  p ← row_start reader 0x0C row_1based;
  '(parent_coded_index, p) ← next_index m (coded_index_size reader has_custom_attribute_tables 5)
    p;
  '(type_coded_index, p) ← next_index m (coded_index_size reader custom_attribute_type_tables 3)
    p;
  '(value_blob_index, _) ← read_heap_index m reader p 0x04;
  Ret (mk_customattribute_row parent_coded_index type_coded_index value_blob_index).

Definition zaclr_metadata_reader_get_fieldmarshal_row (m : memory) (reader :
  zaclr_metadata_reader)
    (row_1based : Z) : outcome zaclr_fieldmarshal_row :=
  p ← row_start reader 0x0D row_1based;
  '(parent_coded_index, p) ← next_index m (coded_index_size reader has_field_marshal_tables 1) p;
  '(native_type_blob_index, _) ← read_heap_index m reader p 0x04;
  Ret (mk_fieldmarshal_row parent_coded_index native_type_blob_index).

Definition zaclr_metadata_reader_get_classlayout_row (m : memory) (reader : zaclr_metadata_reader)
    (row_1based : Z) : outcome zaclr_classlayout_row :=
  p ← row_start reader 0x0F row_1based;
  '(packing_size, p) ← next_u16 m p;
  '(class_size, p) ← next_u32 m p;
  '(parent, _) ← next_index m (table_index_size reader 0x02) p;
  Ret (mk_classlayout_row packing_size class_size parent).

Definition zaclr_metadata_reader_get_fieldlayout_row (m : memory) (reader : zaclr_metadata_reader)
    (row_1based : Z) : outcome zaclr_fieldlayout_row :=
  p ← row_start reader 0x10 row_1based;
  '(offset, p) ← next_u32 m p;
  '(field, _) ← next_index m (table_index_size reader 0x04) p;
  Ret (mk_fieldlayout_row offset field).

Definition zaclr_metadata_reader_get_event_row (m : memory) (reader : zaclr_metadata_reader)
    (row_1based : Z) : outcome zaclr_event_row :=
  p ← row_start reader 0x14 row_1based;
  '(flags, p) ← next_u16 m p;
  '(name_index, p) ← read_heap_index m reader p 0x01;
  '(event_type_coded_index, _) ← next_index m (coded_index_size reader typedef_or_ref_tables 2) p;
  Ret (mk_event_row flags name_index event_type_coded_index).

Definition zaclr_metadata_reader_get_property_row (m : memory) (reader : zaclr_metadata_reader)
    (row_1based : Z) : outcome zaclr_property_row :=
  p ← row_start reader 0x17 row_1based;
  '(flags, p) ← next_u16 m p;
  '(name_index, p) ← read_heap_index m reader p 0x01;
  '(type_blob_index, _) ← read_heap_index m reader p 0x04;
  Ret (mk_property_row flags name_index type_blob_index).

Definition zaclr_metadata_reader_get_genericparam_row (m : memory) (reader :
  zaclr_metadata_reader)
    (row_1based : Z) : outcome zaclr_genericparam_row :=
  p ← row_start reader 0x2A row_1based;
  '(number, p) ← next_u16 m p;
  '(flags, p) ← next_u16 m p;
  '(owner_coded_index, p) ← next_index m (coded_index_size reader type_or_method_def_tables 1) p;
  '(name_index, _) ← read_heap_index m reader p 0x01;
  Ret (mk_genericparam_row number flags owner_coded_index name_index).

Definition zaclr_metadata_reader_get_assemblyref_row (m : memory) (reader : zaclr_metadata_reader)
    (row_1based : Z) : outcome zaclr_assemblyref_row :=
  p ← row_start reader 0x23 row_1based;
  '(major_version, p) ← next_u16 m p;
  '(minor_version, p) ← next_u16 m p;
  '(build_number, p) ← next_u16 m p;
  '(revision_number, p) ← next_u16 m p;
  '(flags, p) ← next_u32 m p;
  '(public_key_or_token_blob_index, p) ← read_heap_index m reader p 0x04;
  '(name_index, p) ← read_heap_index m reader p 0x01;
  '(culture_index, p) ← read_heap_index m reader p 0x01;
  '(hash_value_blob_index, _) ← read_heap_index m reader p 0x04;
  Ret (mk_assemblyref_row major_version minor_version build_number revision_number flags
    public_key_or_token_blob_index name_index culture_index hash_value_blob_index).

Definition zaclr_metadata_reader_get_exportedtype_row (m : memory) (reader :
  zaclr_metadata_reader)
    (row_1based : Z) : outcome zaclr_exportedtype_row :=
  p ← row_start reader 0x27 row_1based;
  '(flags, p) ← next_u32 m p;
  '(type_def_id, p) ← next_u32 m p;
  '(name_index, p) ← read_heap_index m reader p 0x01;
  '(namespace_index, p) ← read_heap_index m reader p 0x01;
  '(implementation_coded_index, _) ← next_index m (coded_index_size reader implementation_tables
    2) p;
  Ret (mk_exportedtype_row flags type_def_id name_index namespace_index
    implementation_coded_index).

Definition zaclr_metadata_reader_get_standalonesig_row (m : memory) (reader :
  zaclr_metadata_reader)
    (row_1based : Z) : outcome zaclr_standalonesig_row :=
  p ← row_start reader 0x11 row_1based;
  '(signature_blob_index, _) ← read_heap_index m reader p 0x04;
  Ret (mk_standalonesig_row signature_blob_index).

Definition zaclr_metadata_reader_get_moduleref_row (m : memory) (reader : zaclr_metadata_reader)
    (row_1based : Z) : outcome zaclr_moduleref_row :=
  p ← row_start reader 0x1A row_1based;
  '(name_index, _) ← read_heap_index m reader p 0x01;
  Ret (mk_moduleref_row name_index).

Definition zaclr_metadata_reader_get_implmap_row (m : memory) (reader : zaclr_metadata_reader)
    (row_1based : Z) : outcome zaclr_implmap_row :=
  p ← row_start reader 0x1C row_1based;
  '(flags, p) ← next_u16 m p;
  '(member_forwarded_coded_index, p) ← next_index m (coded_index_size reader
    member_forwarded_tables 1) p;
  '(import_name_index, p) ← read_heap_index m reader p 0x01;
  '(import_scope, _) ← next_index m (table_index_size reader 0x1A) p;
  Ret (mk_implmap_row flags member_forwarded_coded_index import_name_index import_scope).

Definition zaclr_metadata_reader_get_methodspec_row (m : memory) (reader : zaclr_metadata_reader)
    (row_1based : Z) : outcome zaclr_methodspec_row :=
  p ← row_start reader 0x2B row_1based;
  '(method_coded_index, p) ← next_index m (coded_index_size reader method_def_or_ref_tables 1) p;
  '(instantiation_blob_index, _) ← read_heap_index m reader p 0x04;
  Ret (mk_methodspec_row method_coded_index instantiation_blob_index).

Definition zaclr_metadata_reader_get_nestedclass_row (m : memory) (reader : zaclr_metadata_reader)
    (row_1based : Z) : outcome zaclr_nestedclass_row :=
  p ← row_start reader 0x29 row_1based;
  '(nested_class, p) ← next_index m (table_index_size reader 0x02) p;
  '(enclosing_class, _) ← next_index m (table_index_size reader 0x02) p;
  Ret (mk_nestedclass_row nested_class enclosing_class).

(** ** Specification: the columns of the tables *)

Inductive column :=
| CU16
| CU32
| CHeap (heap_bit : Z)
| CIndex (table : Z)
| CCoded (l : list Z) (tag_bits : Z).

Definition column_width (r : zaclr_metadata_reader) (c : column) : Z :=
  match c with
  | CU16 => 2
  | CU32 => 4
  | CHeap b => if flag_set (heap_sizes r) b then 4 else 2
  | CIndex t => table_index_size r t
  | CCoded l b => coded_index_size r l b
  end.

Definition CStr := CHeap 0x01.
Definition CGuid := CHeap 0x02.
Definition CBlob := CHeap 0x04.
Definition CTypeDefOrRef := CCoded typedef_or_ref_tables 2.
Definition CMethodDefOrRef := CCoded method_def_or_ref_tables 1.
Definition CImplementation := CCoded implementation_tables 2.

(** ECMA-335 II.22, table by table. *)
Definition schema (table : Z) : list column :=
  match table with
  | 0x00 => [CU16; CStr; CGuid; CGuid; CGuid]                          (* Module *)
  | 0x01 => [CCoded resolution_scope_tables 2; CStr; CStr]             (* TypeRef *)
  | 0x02 => [CU32; CStr; CStr; CTypeDefOrRef; CIndex 0x04; CIndex 0x06] (* TypeDef *)
  | 0x03 => [CIndex 0x04]                                              (* FieldPtr *)
  | 0x04 => [CU16; CStr; CBlob]                                        (* Field *)
  | 0x05 => [CIndex 0x06]                                              (* MethodPtr *)
  | 0x06 => [CU32; CU16; CU16; CStr; CBlob; CIndex 0x08]               (* MethodDef *)
  | 0x07 => [CIndex 0x08]                                              (* ParamPtr *)
  | 0x08 => [CU16; CU16; CStr]                                         (* Param *)
  | 0x09 => [CIndex 0x02; CTypeDefOrRef]                               (* InterfaceImpl *)
  | 0x0A => [CCoded member_ref_parent_tables 3; CStr; CBlob]           (* MemberRef *)
  | 0x0B => [CU16; CCoded has_constant_tables 2; CBlob]                (* Constant *)
  | 0x0C => [CCoded has_custom_attribute_tables 5;
             CCoded custom_attribute_type_tables 3; CBlob]             (* CustomAttribute *)
  | 0x0D => [CCoded has_field_marshal_tables 1; CBlob]                 (* FieldMarshal *)
  | 0x0E => [CU16; CCoded has_decl_security_tables 2; CBlob]           (* DeclSecurity *)
  | 0x0F => [CU16; CU32; CIndex 0x02]                                  (* ClassLayout *)
  | 0x10 => [CU32; CIndex 0x04]                                        (* FieldLayout *)
  | 0x11 => [CBlob]                                                    (* StandAloneSig *)
  | 0x12 => [CIndex 0x02; CIndex 0x14]                                 (* EventMap *)
  | 0x13 => [CIndex 0x14]                                              (* EventPtr *)
  | 0x14 => [CU16; CStr; CTypeDefOrRef]                                (* Event *)
  | 0x15 => [CIndex 0x02; CIndex 0x17]                                 (* PropertyMap *)
  | 0x16 => [CIndex 0x17]                                              (* PropertyPtr *)
  | 0x17 => [CU16; CStr; CBlob]                                        (* Property *)
  | 0x18 => [CU16; CIndex 0x06; CCoded has_semantics_tables 1]         (* MethodSemantics *)
  | 0x19 => [CIndex 0x02; CMethodDefOrRef; CMethodDefOrRef]            (* MethodImpl *)
  | 0x1A => [CStr]                                                     (* ModuleRef *)
  | 0x1B => [CBlob]                                                    (* TypeSpec *)
  | 0x1C => [CU16; CCoded member_forwarded_tables 1; CStr; CIndex 0x1A] (* ImplMap *)
  | 0x1D => [CU32; CIndex 0x04]                                        (* FieldRVA *)
  | 0x1E => [CU32; CIndex 0x14]                                        (* EncLog *)
  | 0x20 => [CU32; CU16; CU16; CU16; CU16; CU32; CBlob; CStr; CStr]    (* Assembly *)
  | 0x21 => [CU32]                                                     (* AssemblyProcessor *)
  | 0x22 => [CU32; CU32; CStr; CBlob]
  | 0x23 => [CU16; CU16; CU16; CU16; CU32; CBlob; CStr; CStr; CBlob]   (* AssemblyRef *)
  | 0x24 => [CU32; CIndex 0x26; CIndex 0x23]
  | 0x25 => [CU32; CIndex 0x23; CIndex 0x23]
  | 0x26 => [CU32; CStr; CBlob]                                        (* File *)
  | 0x27 => [CU32; CU32; CStr; CStr; CImplementation]                  (* ExportedType *)
  | 0x28 => [CU32; CU32; CStr; CImplementation]                        (* ManifestResource *)
  | 0x29 => [CIndex 0x02; CIndex 0x02]                                 (* NestedClass *)
  | 0x2A => [CU16; CU16; CCoded type_or_method_def_tables 1; CStr]     (* GenericParam *)
  | 0x2B => [CMethodDefOrRef; CBlob]                                   (* MethodSpec *)
  | 0x2C => [CIndex 0x2A; CTypeDefOrRef]                     (* GenericParamConstraint *)
  | _ => []
  end.

Definition columns_width (r : zaclr_metadata_reader) (cs : list column) : Z :=
  foldr (fun c n => column_width r c + n) 0 cs.

Definition read_column (m : memory) (r : zaclr_metadata_reader) (p : Z) (c : column) : outcome Z :=
  if column_width r c =? 4 then read_u32 m p else read_u16 m p.

Fixpoint read_columns (m : memory) (r : zaclr_metadata_reader) (p : Z) (cs : list column)
  : outcome (list Z) :=
  match cs with
  | [] => Ret []
  | c :: cs => v ← read_column m r p c; vs ← read_columns m r (p + column_width r c) cs; Ret (v :: vs)
  end.

Definition encode_column (r : zaclr_metadata_reader) (c : column) (v : Z) : list Byte.byte :=
  if column_width r c =? 4 then encode_u32 v else encode_u16 v.

Definition encode_columns (r : zaclr_metadata_reader) (cs : list column) (vs : list Z)
  : list Byte.byte := concat (zip_with (encode_column r) cs vs).

Definition columns_fit (r : zaclr_metadata_reader) (cs : list column) (vs : list Z) : Prop :=
  Forall2 (fun c v => 0 <= v < 2 ^ (8 * column_width r c)) cs vs.

(** The range of a column. *)
Definition u32_value (v : Z) : Prop := 0 <= v < 2 ^ 32.

(** ** The interface of a row reader *)

Class RowReader (row : Type) := {
  row_table : Z;
  get_row : memory -> zaclr_metadata_reader -> Z -> outcome row;
  of_columns : list Z -> option row;
  to_columns : row -> list Z }.

Class RowReaderLaws (row : Type) `{RowReader row} : Prop := {
  row_table_range : 0 <= row_table < ZACLR_METADATA_MAX_TABLES;
  get_row_columns m r i :
    get_row m r i =
      (p ← row_start r row_table i;
       vs ← read_columns m r p (schema row_table);
       match of_columns vs with Some a => Ret a | None => Fault end);
  of_columns_total vs : length vs = length (schema row_table) -> is_Some (of_columns vs);
  of_to_columns a : of_columns (to_columns a) = Some a;
  columns_u32 vs a : of_columns vs = Some a -> Forall u32_value vs ->
    Forall u32_value (to_columns a) }.

#[global] Instance assembly_row_reader : RowReader zaclr_assembly_row := {
  row_table := 0x20;
  get_row := zaclr_metadata_reader_get_assembly_row;
  of_columns l := match l with
    | [_; major_version; minor_version; build_number; revision_number; flags;
      public_key_blob_index; name_index; culture_index] =>
      Some (mk_assembly_row major_version minor_version build_number revision_number flags
        public_key_blob_index name_index culture_index)
    | _ => None end;
  to_columns row :=
    [0; assembly_major_version row; assembly_minor_version row; assembly_build_number row;
     assembly_revision_number row; assembly_flags row; assembly_public_key_blob_index row;
     assembly_name_index row; assembly_culture_index row] }.

#[global] Instance module_row_reader : RowReader zaclr_module_row := {
  row_table := 0x00;
  get_row := zaclr_metadata_reader_get_module_row;
  of_columns l := match l with
    | [generation; name_index; mvid_index; enc_id_index; enc_base_id_index] =>
      Some (mk_module_row generation name_index mvid_index enc_id_index enc_base_id_index)
    | _ => None end;
  to_columns row :=
    [module_generation row; module_name_index row; module_mvid_index row;
     module_enc_id_index row; module_enc_base_id_index row] }.

#[global] Instance typedef_row_reader : RowReader zaclr_typedef_row := {
  row_table := 0x02;
  get_row := zaclr_metadata_reader_get_typedef_row;
  of_columns l := match l with
    | [flags; name_index; namespace_index; extends; field_list; method_list] =>
      Some (mk_typedef_row flags name_index namespace_index extends field_list method_list)
    | _ => None end;
  to_columns row :=
    [typedef_flags row; typedef_name_index row; typedef_namespace_index row;
     typedef_extends row; typedef_field_list row; typedef_method_list row] }.

#[global] Instance field_row_reader : RowReader zaclr_field_row := {
  row_table := 0x04;
  get_row := zaclr_metadata_reader_get_field_row;
  of_columns l := match l with
    | [flags; name_index; signature_blob_index] =>
      Some (mk_field_row flags name_index signature_blob_index)
    | _ => None end;
  to_columns row :=
    [field_flags row; field_name_index row; field_signature_blob_index row] }.

#[global] Instance methoddef_row_reader : RowReader zaclr_methoddef_row := {
  row_table := 0x06;
  get_row := zaclr_metadata_reader_get_methoddef_row;
  of_columns l := match l with
    | [rva; impl_flags; flags; name_index; signature_blob_index; param_list] =>
      Some (mk_methoddef_row rva impl_flags flags name_index signature_blob_index param_list)
    | _ => None end;
  to_columns row :=
    [methoddef_rva row; methoddef_impl_flags row; methoddef_flags row;
     methoddef_name_index row; methoddef_signature_blob_index row; methoddef_param_list row] }.

#[global] Instance param_row_reader : RowReader zaclr_param_row := {
  row_table := 0x08;
  get_row := zaclr_metadata_reader_get_param_row;
  of_columns l := match l with
    | [flags; sequence; name_index] =>
      Some (mk_param_row flags sequence name_index)
    | _ => None end;
  to_columns row :=
    [param_flags row; param_sequence row; param_name_index row] }.

#[global] Instance memberref_row_reader : RowReader zaclr_memberref_row := {
  row_table := 0x0A;
  get_row := zaclr_metadata_reader_get_memberref_row;
  of_columns l := match l with
    | [class_coded_index; name_index; signature_blob_index] =>
      Some (mk_memberref_row class_coded_index name_index signature_blob_index)
    | _ => None end;
  to_columns row :=
    [memberref_class_coded_index row; memberref_name_index row;
     memberref_signature_blob_index row] }.

#[global] Instance constant_row_reader : RowReader zaclr_constant_row := {
  row_table := 0x0B;
  get_row := zaclr_metadata_reader_get_constant_row;
  of_columns l := match l with
    | [type; parent_coded_index; value_blob_index] =>
      Some (mk_constant_row type parent_coded_index value_blob_index)
    | _ => None end;
  to_columns row :=
    [constant_type row; constant_parent_coded_index row; constant_value_blob_index row] }.

#[global] Instance customattribute_row_reader : RowReader zaclr_customattribute_row := {
  row_table := 0x0C;
  get_row := zaclr_metadata_reader_get_customattribute_row;
  of_columns l := match l with
    | [parent_coded_index; type_coded_index; value_blob_index] =>
      Some (mk_customattribute_row parent_coded_index type_coded_index value_blob_index)
    | _ => None end;
  to_columns row :=
    [customattribute_parent_coded_index row; customattribute_type_coded_index row;
     customattribute_value_blob_index row] }.

#[global] Instance fieldmarshal_row_reader : RowReader zaclr_fieldmarshal_row := {
  row_table := 0x0D;
  get_row := zaclr_metadata_reader_get_fieldmarshal_row;
  of_columns l := match l with
    | [parent_coded_index; native_type_blob_index] =>
      Some (mk_fieldmarshal_row parent_coded_index native_type_blob_index)
    | _ => None end;
  to_columns row :=
    [fieldmarshal_parent_coded_index row; fieldmarshal_native_type_blob_index row] }.

#[global] Instance classlayout_row_reader : RowReader zaclr_classlayout_row := {
  row_table := 0x0F;
  get_row := zaclr_metadata_reader_get_classlayout_row;
  of_columns l := match l with
    | [packing_size; class_size; parent] =>
      Some (mk_classlayout_row packing_size class_size parent)
    | _ => None end;
  to_columns row :=
    [classlayout_packing_size row; classlayout_class_size row; classlayout_parent row] }.

#[global] Instance fieldlayout_row_reader : RowReader zaclr_fieldlayout_row := {
  row_table := 0x10;
  get_row := zaclr_metadata_reader_get_fieldlayout_row;
  of_columns l := match l with
    | [offset; field] =>
      Some (mk_fieldlayout_row offset field)
    | _ => None end;
  to_columns row :=
    [fieldlayout_offset row; fieldlayout_field row] }.

#[global] Instance event_row_reader : RowReader zaclr_event_row := {
  row_table := 0x14;
  get_row := zaclr_metadata_reader_get_event_row;
  of_columns l := match l with
    | [flags; name_index; event_type_coded_index] =>
      Some (mk_event_row flags name_index event_type_coded_index)
    | _ => None end;
  to_columns row :=
    [event_flags row; event_name_index row; event_event_type_coded_index row] }.

#[global] Instance property_row_reader : RowReader zaclr_property_row := {
  row_table := 0x17;
  get_row := zaclr_metadata_reader_get_property_row;
  of_columns l := match l with
    | [flags; name_index; type_blob_index] =>
      Some (mk_property_row flags name_index type_blob_index)
    | _ => None end;
  to_columns row :=
    [property_flags row; property_name_index row; property_type_blob_index row] }.

#[global] Instance genericparam_row_reader : RowReader zaclr_genericparam_row := {
  row_table := 0x2A;
  get_row := zaclr_metadata_reader_get_genericparam_row;
  of_columns l := match l with
    | [number; flags; owner_coded_index; name_index] =>
      Some (mk_genericparam_row number flags owner_coded_index name_index)
    | _ => None end;
  to_columns row :=
    [genericparam_number row; genericparam_flags row; genericparam_owner_coded_index row;
     genericparam_name_index row] }.

#[global] Instance assemblyref_row_reader : RowReader zaclr_assemblyref_row := {
  row_table := 0x23;
  get_row := zaclr_metadata_reader_get_assemblyref_row;
  of_columns l := match l with
    | [major_version; minor_version; build_number; revision_number; flags;
      public_key_or_token_blob_index; name_index; culture_index; hash_value_blob_index] =>
      Some (mk_assemblyref_row major_version minor_version build_number revision_number flags
        public_key_or_token_blob_index name_index culture_index hash_value_blob_index)
    | _ => None end;
  to_columns row :=
    [assemblyref_major_version row; assemblyref_minor_version row;
     assemblyref_build_number row; assemblyref_revision_number row; assemblyref_flags row;
     assemblyref_public_key_or_token_blob_index row; assemblyref_name_index row;
     assemblyref_culture_index row; assemblyref_hash_value_blob_index row] }.

#[global] Instance exportedtype_row_reader : RowReader zaclr_exportedtype_row := {
  row_table := 0x27;
  get_row := zaclr_metadata_reader_get_exportedtype_row;
  of_columns l := match l with
    | [flags; type_def_id; name_index; namespace_index; implementation_coded_index] =>
      Some (mk_exportedtype_row flags type_def_id name_index namespace_index
        implementation_coded_index)
    | _ => None end;
  to_columns row :=
    [exportedtype_flags row; exportedtype_type_def_id row; exportedtype_name_index row;
     exportedtype_namespace_index row; exportedtype_implementation_coded_index row] }.

#[global] Instance standalonesig_row_reader : RowReader zaclr_standalonesig_row := {
  row_table := 0x11;
  get_row := zaclr_metadata_reader_get_standalonesig_row;
  of_columns l := match l with
    | [signature_blob_index] =>
      Some (mk_standalonesig_row signature_blob_index)
    | _ => None end;
  to_columns row :=
    [standalonesig_signature_blob_index row] }.

#[global] Instance moduleref_row_reader : RowReader zaclr_moduleref_row := {
  row_table := 0x1A;
  get_row := zaclr_metadata_reader_get_moduleref_row;
  of_columns l := match l with
    | [name_index] =>
      Some (mk_moduleref_row name_index)
    | _ => None end;
  to_columns row :=
    [moduleref_name_index row] }.

#[global] Instance implmap_row_reader : RowReader zaclr_implmap_row := {
  row_table := 0x1C;
  get_row := zaclr_metadata_reader_get_implmap_row;
  of_columns l := match l with
    | [flags; member_forwarded_coded_index; import_name_index; import_scope] =>
      Some (mk_implmap_row flags member_forwarded_coded_index import_name_index import_scope)
    | _ => None end;
  to_columns row :=
    [implmap_flags row; implmap_member_forwarded_coded_index row;
     implmap_import_name_index row; implmap_import_scope row] }.

#[global] Instance methodspec_row_reader : RowReader zaclr_methodspec_row := {
  row_table := 0x2B;
  get_row := zaclr_metadata_reader_get_methodspec_row;
  of_columns l := match l with
    | [method_coded_index; instantiation_blob_index] =>
      Some (mk_methodspec_row method_coded_index instantiation_blob_index)
    | _ => None end;
  to_columns row :=
    [methodspec_method_coded_index row; methodspec_instantiation_blob_index row] }.

#[global] Instance nestedclass_row_reader : RowReader zaclr_nestedclass_row := {
  row_table := 0x29;
  get_row := zaclr_metadata_reader_get_nestedclass_row;
  of_columns l := match l with
    | [nested_class; enclosing_class] =>
      Some (mk_nestedclass_row nested_class enclosing_class)
    | _ => None end;
  to_columns row :=
    [nestedclass_nested_class row; nestedclass_enclosing_class row] }.

(** ** The readers follow the schema *)

Lemma next_u16_column m r p :
  next_u16 m p = (v ← read_column m r p CU16; Ret (v, p + column_width r CU16)).
Proof. reflexivity. Qed.

Lemma next_u32_column m r p :
  next_u32 m p = (v ← read_column m r p CU32; Ret (v, p + column_width r CU32)).
Proof. reflexivity. Qed.

Lemma read_heap_index_column m r p b :
  read_heap_index m r p b = (v ← read_column m r p (CHeap b); Ret (v, p + column_width r (CHeap b))).
Proof.
  unfold read_heap_index, read_column, next_u32, next_u16. simpl. by destruct (flag_set _ _).
Qed.

Lemma next_table_index_column m r p t :
  next_index m (table_index_size r t) p
  = (v ← read_column m r p (CIndex t); Ret (v, p + column_width r (CIndex t))).
Proof. reflexivity. Qed.

Lemma next_coded_index_column m r p l b :
  next_index m (coded_index_size r l b) p
  = (v ← read_column m r p (CCoded l b); Ret (v, p + column_width r (CCoded l b))).
Proof. reflexivity. Qed.

#[local] Opaque coded_index_size table_index_size next_index next_u16 next_u32 read_heap_index read_column.

Ltac run_bind := rewrite ?Ret_bind, ?Err_bind, ?Fault_bind, ?NoFuel_bind.

Ltac row_laws getter inst :=
  split; [cbv; split; congruence| | |by intros []|];
  [ intros m r i; unfold inst; cbn [get_row row_table of_columns schema read_columns];
    unfold getter, CStr, CBlob, CGuid, CTypeDefOrRef, CMethodDefOrRef, CImplementation;
    destruct (row_start r _ i); run_bind; try reflexivity;
    repeat first [rewrite (next_u16_column m r) | rewrite (next_u32_column m r)
                 | rewrite read_heap_index_column | rewrite next_table_index_column
                 | rewrite next_coded_index_column
                 | match goal with |- context [read_column m r ?p ?c ≫= _] =>
                     destruct (read_column m r p c) end; run_bind; try reflexivity ]
  | intros vs Hl; simpl in *;
    repeat (destruct vs as [|? vs]; [discriminate Hl|]); destruct vs; [by eexists|discriminate Hl]
  | intros vs a Ha Hvs; unfold inst in *; cbn [of_columns to_columns] in *;
    repeat (destruct Hvs as [|? ? ? Hvs]; [discriminate Ha|]); destruct Hvs; [|discriminate Ha];
    injection Ha as <-; repeat (apply Forall_cons; split); try done; try apply Forall_nil ].

#[global] Instance assembly_row_laws : RowReaderLaws zaclr_assembly_row.
Proof. row_laws zaclr_metadata_reader_get_assembly_row assembly_row_reader. Qed.

#[global] Instance module_row_laws : RowReaderLaws zaclr_module_row.
Proof. row_laws zaclr_metadata_reader_get_module_row module_row_reader. Qed.

#[global] Instance typedef_row_laws : RowReaderLaws zaclr_typedef_row.
Proof. row_laws zaclr_metadata_reader_get_typedef_row typedef_row_reader. Qed.

#[global] Instance field_row_laws : RowReaderLaws zaclr_field_row.
Proof. row_laws zaclr_metadata_reader_get_field_row field_row_reader. Qed.

#[global] Instance methoddef_row_laws : RowReaderLaws zaclr_methoddef_row.
Proof. row_laws zaclr_metadata_reader_get_methoddef_row methoddef_row_reader. Qed.

#[global] Instance param_row_laws : RowReaderLaws zaclr_param_row.
Proof. row_laws zaclr_metadata_reader_get_param_row param_row_reader. Qed.

#[global] Instance memberref_row_laws : RowReaderLaws zaclr_memberref_row.
Proof. row_laws zaclr_metadata_reader_get_memberref_row memberref_row_reader. Qed.

#[global] Instance constant_row_laws : RowReaderLaws zaclr_constant_row.
Proof. row_laws zaclr_metadata_reader_get_constant_row constant_row_reader. Qed.

#[global] Instance customattribute_row_laws : RowReaderLaws zaclr_customattribute_row.
Proof. row_laws zaclr_metadata_reader_get_customattribute_row customattribute_row_reader. Qed.

#[global] Instance fieldmarshal_row_laws : RowReaderLaws zaclr_fieldmarshal_row.
Proof. row_laws zaclr_metadata_reader_get_fieldmarshal_row fieldmarshal_row_reader. Qed.

#[global] Instance classlayout_row_laws : RowReaderLaws zaclr_classlayout_row.
Proof. row_laws zaclr_metadata_reader_get_classlayout_row classlayout_row_reader. Qed.

#[global] Instance fieldlayout_row_laws : RowReaderLaws zaclr_fieldlayout_row.
Proof. row_laws zaclr_metadata_reader_get_fieldlayout_row fieldlayout_row_reader. Qed.

#[global] Instance event_row_laws : RowReaderLaws zaclr_event_row.
Proof. row_laws zaclr_metadata_reader_get_event_row event_row_reader. Qed.

#[global] Instance property_row_laws : RowReaderLaws zaclr_property_row.
Proof. row_laws zaclr_metadata_reader_get_property_row property_row_reader. Qed.

#[global] Instance genericparam_row_laws : RowReaderLaws zaclr_genericparam_row.
Proof. row_laws zaclr_metadata_reader_get_genericparam_row genericparam_row_reader. Qed.

#[global] Instance assemblyref_row_laws : RowReaderLaws zaclr_assemblyref_row.
Proof. row_laws zaclr_metadata_reader_get_assemblyref_row assemblyref_row_reader. Qed.

#[global] Instance exportedtype_row_laws : RowReaderLaws zaclr_exportedtype_row.
Proof. row_laws zaclr_metadata_reader_get_exportedtype_row exportedtype_row_reader. Qed.

#[global] Instance standalonesig_row_laws : RowReaderLaws zaclr_standalonesig_row.
Proof. row_laws zaclr_metadata_reader_get_standalonesig_row standalonesig_row_reader. Qed.

#[global] Instance moduleref_row_laws : RowReaderLaws zaclr_moduleref_row.
Proof. row_laws zaclr_metadata_reader_get_moduleref_row moduleref_row_reader. Qed.

#[global] Instance implmap_row_laws : RowReaderLaws zaclr_implmap_row.
Proof. row_laws zaclr_metadata_reader_get_implmap_row implmap_row_reader. Qed.

#[global] Instance methodspec_row_laws : RowReaderLaws zaclr_methodspec_row.
Proof. row_laws zaclr_metadata_reader_get_methodspec_row methodspec_row_reader. Qed.

#[global] Instance nestedclass_row_laws : RowReaderLaws zaclr_nestedclass_row.
Proof. row_laws zaclr_metadata_reader_get_nestedclass_row nestedclass_row_reader. Qed.

#[local] Transparent coded_index_size table_index_size next_index next_u16 next_u32 read_heap_index
  read_column.

(** ** Row sizes *)

Lemma row_size_columns r table : table_row_size r table = columns_width r (schema table).
Proof.
  unfold table_row_size. cbv zeta.
  repeat match goal with |- context [match ?t with _ => _ end] => is_var t; destruct t end;
    cbn [schema columns_width foldr column_width CStr CBlob CGuid CTypeDefOrRef CMethodDefOrRef
         CImplementation]; lia.
Qed.

(** For every table number, the size [table_row_size] gives is the sum of
    the widths of the columns ECMA-335 gives that table (0 for the numbers it does
    not define). *)
Theorem table_row_size_schema r table :
  table_row_size r table = columns_width r (schema table).
Proof. apply row_size_columns. Qed.

Lemma column_width_cases r c : column_width r c = 2 \/ column_width r c = 4.
Proof.
  destruct c; simpl; try tauto; unfold table_index_size, coded_index_size; repeat case_if; tauto.
Qed.

Lemma columns_width_bound r cs : 0 <= columns_width r cs <= 4 * zlength cs.
Proof.
  induction cs as [|c cs IH]; [done|]. rewrite zlength_cons. simpl.
  pose proof (column_width_cases r c). lia.
Qed.

Lemma table_row_size_bound r table : 0 <= table_row_size r table <= 36.
Proof.
  rewrite row_size_columns. pose proof (columns_width_bound r (schema table)).
  assert (zlength (schema table) <= 9); [|lia]. unfold schema.
  repeat match goal with |- context [match ?t with _ => _ end] => is_var t; destruct t end;
    vm_compute; congruence.
Qed.

(** ** Readers of well-formed tables *)

(** A table whose rows lie in the image. *)
Definition view_ok (m : memory) (r : zaclr_metadata_reader) (t : Z) (v : zaclr_metadata_table_view)
  : Prop :=
  0 <= row_count v /\
  match rows v with
  | None => True
  | Some p => row_size v = table_row_size r t /\ 0 <= p /\
              p + row_size v * row_count v <= zlength m /\ row_size v * row_count v < 2 ^ 32
  end.

Record reader_ok (m : memory) (r : zaclr_metadata_reader) : Prop := {
  ro_strings : slice_ok m (strings_heap r);
  ro_blob : slice_ok m (blob_heap r);
  ro_user_strings : slice_ok m (user_string_heap r);
  ro_tables : zlength (tables r) = ZACLR_METADATA_MAX_TABLES;
  ro_row_counts : zlength (row_counts r) = ZACLR_METADATA_MAX_TABLES;
  ro_name : 0 <= rd_assembly_name_index r;
  ro_view t v : tables r .@ t = Some v -> view_ok m r t v }.

(** Row sizes, and with them well-formed tables, depend on the heap sizes and the
    row counts only. *)
Lemma table_row_size_ext r r' t :
  heap_sizes r = heap_sizes r' -> row_counts r = row_counts r' ->
  table_row_size r t = table_row_size r' t.
Proof.
  intros Hh Hc. unfold table_row_size, coded_index_size, table_index_size, max_rows_for_tables.
  by rewrite Hh, Hc.
Qed.

Lemma view_ok_ext m r r' t v :
  heap_sizes r = heap_sizes r' -> row_counts r = row_counts r' -> view_ok m r t v -> view_ok m r' t v.
Proof. intros Hh Hc. unfold view_ok. by rewrite (table_row_size_ext r r' t Hh Hc). Qed.

Lemma read_column_safe m r p c :
  0 <= p -> p + column_width r c <= zlength m -> exists v, read_column m r p c = Ret v.
Proof.
  intros Hp Hl. unfold read_column. destruct (column_width_cases r c) as [E|E]; rewrite E in *.
  - pose proof (read_u16_post m p Hp Hl) as H. simpl.
    destruct (read_u16 m p) eqn:E2; simpl in H; try done; [eauto|].
    unfold read_u16, read_u8 in E2. destruct (m .@ p); [|done]. by destruct (m .@ (p + 1)).
  - pose proof (read_u32_post m p Hp Hl) as H. simpl.
    destruct (read_u32 m p) eqn:E2; simpl in H; try done; [eauto|].
    unfold read_u32, read_u8 in E2. destruct (m .@ p); [|done].
    destruct (m .@ (p + 1)); [|done]. destruct (m .@ (p + 2)); [|done].
    by destruct (m .@ (p + 3)).
Qed.

Lemma read_columns_safe m r cs p :
  0 <= p -> p + columns_width r cs <= zlength m ->
  exists vs, read_columns m r p cs = Ret vs /\ length vs = length cs.
Proof.
  revert p. induction cs as [|c cs IH]; intros p Hp Hl; [by eexists|]. simpl in Hl.
  pose proof (column_width_cases r c). pose proof (columns_width_bound r cs).
  destruct (read_column_safe m r p c) as [v Hv]; [lia|lia|].
  destruct (IH (p + column_width r c)) as (vs & Hvs & Hlen); [lia|lia|].
  exists (v :: vs). cbn [read_columns]. rewrite Hv, Ret_bind, Hvs, Ret_bind. simpl. by rewrite Hlen.
Qed.

Lemma read_columns_u32 m r cs p vs :
  read_columns m r p cs = Ret vs -> Forall u32_value vs.
Proof.
  revert p vs. induction cs as [|c cs IH]; intros p vs; cbn [read_columns]; [by intros [= <-]|].
  intros (v & Hv & (ws & Hws & [= <-])%bind_Ret)%bind_Ret. constructor; [|by eapply IH].
  unfold read_column, u32_value in *. case_if_in Hv.
  - pose proof (read_u32_inv _ _ _ Hv) as [Hp Hl].
    exact (safe_post_Ret _ _ _ (read_u32_post m p Hp Hl) Hv).
  - pose proof (read_u16_inv _ _ _ Hv) as [Hp Hl].
    pose proof (safe_post_Ret _ _ _ (read_u16_post m p Hp Hl) Hv). simpl in *. lia.
Qed.

(** Where a row of a well-formed table starts. *)
Lemma row_start_ok m r t v p i :
  tables r .@ t = Some v -> view_ok m r t v -> rows v = Some p -> 1 <= i <= row_count v ->
  row_start r t i = Ret (p + (i - 1) * row_size v) /\
  0 <= p + (i - 1) * row_size v /\
  p + (i - 1) * row_size v + columns_width r (schema t) <= zlength m.
Proof.
  intros Ht [Hc Hv] Hp Hi. rewrite Hp in Hv. destruct Hv as (Hs & Hp0 & Hl & Hw).
  pose proof (table_row_size_bound r t). unfold row_start. rewrite Ht, Hp.
  destruct (Z.eqb_spec i 0); [lia|]. destruct (Z.ltb_spec (row_count v) i); [lia|]. simpl.
  rewrite <- row_size_columns, <- Hs, u32_id by nia. split; [done|]. nia.
Qed.

Section row_readers.
Context {row : Type} `{RowReaderLaws row}.

Lemma get_row_inside m r v p i :
  reader_ok m r -> tables r .@ row_table = Some v -> rows v = Some p -> 1 <= i <= row_count v ->
  exists a, get_row m r i = Ret a.
Proof.
  intros Hr Ht Hp Hi. rewrite get_row_columns.
  destruct (row_start_ok m r row_table v p i) as (-> & Hlo & Hhi); try done; [by eapply ro_view|].
  rewrite Ret_bind.
  destruct (read_columns_safe m r (schema row_table) (p + (i - 1) * row_size v)) as (vs & -> & Hl);
    [done|done|]. rewrite Ret_bind.
  destruct (of_columns_total vs Hl) as [a ->]. eauto.
Qed.

Lemma get_row_outside m r v i :
  tables r .@ row_table = Some v -> i = 0 \/ row_count v < i \/ rows v = None ->
  get_row m r i = Err bad_metadata.
Proof.
  intros Ht Hi. rewrite get_row_columns. unfold row_start. rewrite Ht.
  destruct (Z.eqb_spec i 0); [done|]. destruct (Z.ltb_spec (row_count v) i); [done|]. simpl.
  destruct Hi as [|[| ->]]; [lia|lia|done].
Qed.

Lemma get_row_safe m r i : reader_ok m r -> 0 <= i -> safe (get_row m r i).
Proof.
  intros Hr Hi. pose proof row_table_range as Ht.
  destruct (get_Some (tables r) row_table) as [v Hv]; [by rewrite (ro_tables m r)|].
  destruct (rows v) as [p|] eqn:Hp.
  - destruct (decide (1 <= i <= row_count v)) as [Hin|].
    + by destruct (get_row_inside m r v p i Hr Hv Hp Hin) as [a ->].
    + rewrite (get_row_outside m r v i Hv); [done|lia].
  - rewrite (get_row_outside m r v i Hv); [done|tauto].
Qed.

Lemma get_row_u32 m r i a : get_row m r i = Ret a -> Forall u32_value (to_columns a).
Proof.
  rewrite get_row_columns. intros (p & _ & (vs & Hvs & Ha)%bind_Ret)%bind_Ret.
  destruct (of_columns vs) as [b|] eqn:E; [|done]. injection Ha as ->.
  eapply columns_u32; [done|]. by eapply read_columns_u32.
Qed.

Lemma read_columns_encoded m r cs vs p :
  columns_fit r cs vs -> seg m p (encode_columns r cs vs) -> read_columns m r p cs = Ret vs.
Proof.
  intros Hf. revert p. induction Hf as [|c v cs vs Hv Hf IH]; intros p Hseg; [done|].
  unfold encode_columns in Hseg. cbn [zip_with concat] in Hseg. apply seg_app in Hseg as [H1 H2].
  assert (read_column m r p c = Ret v /\ zlength (encode_column r c v) = column_width r c) as [Hc Hw].
  { unfold read_column, encode_column in *. destruct (column_width_cases r c) as [E|E]; rewrite E in *.
    - split; [|done]. by apply seg_read_u16.
    - split; [|done]. by apply seg_read_u32. }
  cbn [read_columns]. rewrite Hc, Ret_bind, IH, Ret_bind; [done|]. by rewrite Hw in H2.
Qed.

Lemma get_row_encoded m r v p i vs a :
  reader_ok m r -> tables r .@ row_table = Some v -> rows v = Some p -> 1 <= i <= row_count v ->
  of_columns vs = Some a -> columns_fit r (schema row_table) vs ->
  seg m (p + (i - 1) * row_size v) (encode_columns r (schema row_table) vs) ->
  get_row m r i = Ret a.
Proof.
  intros Hr Ht Hp Hi Ha Hf Hseg. rewrite get_row_columns.
  destruct (row_start_ok m r row_table v p i) as (-> & _); try done; [by eapply ro_view|].
  by rewrite Ret_bind, (read_columns_encoded _ _ _ _ _ Hf Hseg), Ret_bind, Ha.
Qed.

End row_readers.

(** The Assembly row, which initialisation reads. *)
Lemma assembly_row_post m r :
  reader_ok m r ->
  safe_post (zaclr_metadata_reader_get_assembly_row m r 1) (fun row => 0 <= assembly_name_index row).
Proof.
  intros Hr. eapply safe_post_mono.
  - apply (safe_safe_post _ (get_row_safe (H := assembly_row_reader) m r 1 Hr ltac:(lia))).
  - intros row Hrow _. apply (get_row_u32 (H := assembly_row_reader)) in Hrow.
    unfold to_columns, assembly_row_reader in Hrow. rewrite !Forall_cons in Hrow. unfold u32_value in Hrow. tauto.
Qed.

(** On a well-formed reader, the reader of each of the 22 tables answers every
    row number: rows 1 to the row count are read without leaving the image, and any
    other number is BAD_METADATA. *)
Theorem row_readers_total {row} `{RowReaderLaws row} m r v i :
  reader_ok m r -> tables r .@ row_table = Some v ->
  (forall p, rows v = Some p -> 1 <= i <= row_count v -> exists a, get_row m r i = Ret a) /\
  (i = 0 \/ row_count v < i \/ rows v = None -> get_row m r i = Err bad_metadata).
Proof. intros Hr Ht. split; intros; [by eapply get_row_inside|by eapply get_row_outside]. Qed.

(** C39: the reader of each of the 22 tables gives back the row that stands at its place.
    If the bytes of row [i] are the encoding of the columns [vs], column by column with
    the widths of the schema, and each column fits its width, then the reader answers
    the record of those columns: [of_columns] names them in the order of ECMA-335.
    Every column the record keeps is pinned, and those it does not keep (the hash
    algorithm of an assembly) may hold any value; a record is the answer for its own
    columns. *)
Theorem row_readers_roundtrip {row} `{RowReaderLaws row} m r v p i vs a :
  reader_ok m r -> tables r .@ row_table = Some v -> rows v = Some p -> 1 <= i <= row_count v ->
  of_columns vs = Some a \/ vs = to_columns a -> columns_fit r (schema row_table) vs ->
  seg m (p + (i - 1) * row_size v) (encode_columns r (schema row_table) vs) ->
  get_row m r i = Ret a.
Proof.
  intros Hr Ht Hp Hi Ha. apply (get_row_encoded m r v p i vs a); try done. destruct Ha as [Ha | ->]; [done|apply of_to_columns].
Qed.

(** An image of two TypeDef rows, 16-bit indices except for the string heap. *)
Definition sample_typedef (flags : Z) : zaclr_typedef_row := mk_typedef_row flags 0x10203 7 9 1 1.

Definition sample_counts : list Z := set (replicate 64 0) 0x02 2.

Definition sample_reader_of (views : list zaclr_metadata_table_view) : zaclr_metadata_reader :=
  mk_reader zero_slice zero_slice zero_slice zero_slice zero_slice 0x01 0x04 views sample_counts 0.

Definition sample_rows_image : memory :=
  let r := sample_reader_of [] in
  encode_columns r (schema 0x02) (to_columns (sample_typedef 1))
    ++ encode_columns r (schema 0x02) (to_columns (sample_typedef 0x100001)).

Definition sample_views : list zaclr_metadata_table_view :=
  set (replicate 64 (mk_table_view None 0 0)) 0x02 (mk_table_view (Some 0) 18 2).

Definition sample_reader : zaclr_metadata_reader := sample_reader_of sample_views.

Lemma sample_reader_ok : reader_ok sample_rows_image sample_reader.
Proof.
  split; [by split|by split|by split|done|done|done|].
  intros t v Hv. destruct (Z.eq_dec t 2) as [->|Ht].
  - vm_compute in Hv. injection Hv as <-. split; [done|]. simpl rows. cbv iota.
    repeat split; vm_compute; congruence.
  - change (tables sample_reader) with sample_views in Hv. unfold sample_views in Hv.
    rewrite get_set_ne in Hv by done. apply get_In in Hv.
    apply elem_of_replicate in Hv as [-> _]. done.
Qed.

Lemma row_readers_total_witness :
  (exists a : zaclr_typedef_row, get_row sample_rows_image sample_reader 2 = Ret a) /\
  zaclr_metadata_reader_get_typedef_row sample_rows_image sample_reader 3 = Err bad_metadata.
Proof.
  split.
  - apply (proj1 (@row_readers_total _ typedef_row_reader typedef_row_laws sample_rows_image sample_reader
      (mk_table_view (Some 0) 18 2) 2 sample_reader_ok eq_refl) 0 eq_refl). simpl. lia.
  - apply (proj2 (@row_readers_total _ typedef_row_reader typedef_row_laws sample_rows_image sample_reader
      (mk_table_view (Some 0) 18 2) 3 sample_reader_ok eq_refl)). simpl. lia.
Defined.

(** An image of one Assembly row, with the hash algorithm SHA-1. *)
Definition assembly_columns : list Z := [0x8004; 1; 2; 3; 4; 0; 5; 6; 7].
Definition assembly_reader_of (views : list zaclr_metadata_table_view) : zaclr_metadata_reader :=
  mk_reader zero_slice zero_slice zero_slice zero_slice zero_slice 0 0 views (set (replicate 64 0) 0x20 1) 0.
Definition assembly_reader : zaclr_metadata_reader :=
  assembly_reader_of (set (replicate 64 (mk_table_view None 0 0)) 0x20 (mk_table_view (Some 0) 22 1)).
Definition assembly_image : memory := encode_columns assembly_reader (schema 0x20) assembly_columns.

Lemma assembly_reader_ok : reader_ok assembly_image assembly_reader.
Proof.
  split; [by split|by split|by split|done|done|done|].
  intros t v Hv. destruct (Z.eq_dec t 0x20) as [->|Ht].
  - vm_compute in Hv. injection Hv as <-. split; [done|]. simpl rows. cbv iota. repeat split; vm_compute; congruence.
  - unfold assembly_reader, assembly_reader_of in Hv. cbn [tables] in Hv. rewrite get_set_ne in Hv by done. apply get_In in Hv.
    by apply elem_of_replicate in Hv as [-> _].
Qed.

Lemma row_readers_roundtrip_witness :
  zaclr_metadata_reader_get_assembly_row assembly_image assembly_reader 1 = Ret (mk_assembly_row 1 2 3 4 0 5 6 7).
Proof.
  apply (@row_readers_roundtrip _ assembly_row_reader assembly_row_laws assembly_image assembly_reader
    (mk_table_view (Some 0) 22 1) 0 1 assembly_columns (mk_assembly_row 1 2 3 4 0 5 6 7) assembly_reader_ok eq_refl eq_refl).
  - simpl. lia.
  - left. reflexivity.
  - unfold columns_fit, assembly_columns. change (schema row_table) with (schema 0x20). cbn [schema].
    repeat (apply Forall2_cons_2; [vm_compute; split; congruence|]). apply Forall2_nil_2.
  - apply seg_refl.
Defined.
