(* ===== verification/MetadataReader.v ===== *)
(** * The metadata reader

    The rest of [zaclr/metadata/zaclr_metadata_reader.cpp]: the scan of the
    stream headers, the parser of the [#~] stream that lays out the tables, and
    the accessors of the string and blob heaps. *)

From Stdlib Require Import Strings.Byte.
From S2P Require Import Prelude Status Bytes Signature MetadataTables.

(** ** Laying out the tables *)

Definition table_bit (table : Z) : Z := Z.shiftl 1 table.

Definition set_row_count (reader : zaclr_metadata_reader) (table n : Z) : zaclr_metadata_reader :=
  mk_reader (metadata_root reader) (strings_heap reader) (blob_heap reader)
    (user_string_heap reader) (tilde_stream reader) (heap_sizes reader) (valid_mask reader)
    (tables reader) (set (row_counts reader) table n) (rd_assembly_name_index reader).

Definition set_table (reader : zaclr_metadata_reader) (table : Z) (v : zaclr_metadata_table_view)
  : zaclr_metadata_reader :=
  mk_reader (metadata_root reader) (strings_heap reader) (blob_heap reader)
    (user_string_heap reader) (tilde_stream reader) (heap_sizes reader) (valid_mask reader)
    (set (tables reader) table v) (row_counts reader) (rd_assembly_name_index reader).

Definition set_header (reader : zaclr_metadata_reader) (hs mask : Z) : zaclr_metadata_reader :=
  mk_reader (metadata_root reader) (strings_heap reader) (blob_heap reader)
    (user_string_heap reader) (tilde_stream reader) hs mask
    (tables reader) (row_counts reader) (rd_assembly_name_index reader).

Definition set_assembly_name_index (reader : zaclr_metadata_reader) (index : Z)
  : zaclr_metadata_reader :=
  mk_reader (metadata_root reader) (strings_heap reader) (blob_heap reader)
    (user_string_heap reader) (tilde_stream reader) (heap_sizes reader) (valid_mask reader)
    (tables reader) (row_counts reader) index.

(** The body of the loop that reads the row counts; the state is the reader and
    [row_counts_ptr]. *)
Definition read_row_count (m : memory) (ts : Z) (table : Z) (s : zaclr_metadata_reader * Z)
  : outcome (zaclr_metadata_reader * Z) :=
  let '(reader, row_counts_ptr) := s in
  if flag_set (valid_mask reader) (table_bit table) then
    if sl_size (tilde_stream reader) <? row_counts_ptr - ts + 4 then Err bad_metadata else
    n ← read_u32 m row_counts_ptr;
    Ret (set_row_count reader table n, row_counts_ptr + 4)
  else Ret (reader, row_counts_ptr).

(** The body of the loop that lays out the tables; the state is the reader and
    [table_ptr]. *)
Definition lay_out_table (ts : Z) (table : Z) (s : zaclr_metadata_reader * Z)
  : outcome (zaclr_metadata_reader * Z) :=
  let '(reader, table_ptr) := s in
  if negb (flag_set (valid_mask reader) (table_bit table)) then Ret (reader, table_ptr) else
  let n := default 0 (row_counts reader .@ table) in
  let row_size := table_row_size reader table in
  if (row_size =? 0) && negb (n =? 0) then Err bad_metadata else
  let bytes_required := u32 (row_size * n) in
  if sl_size (tilde_stream reader) <? table_ptr - ts + bytes_required then Err bad_metadata else
  Ret (set_table reader table (mk_table_view (Some table_ptr) row_size n), table_ptr + bytes_required).

Definition parse_tilde_stream (m : memory) (reader : zaclr_metadata_reader)
  : outcome zaclr_metadata_reader :=
  match sl_data (tilde_stream reader) with
  | None => Err bad_metadata
  | Some ts =>
    if sl_size (tilde_stream reader) <? 24 then Err bad_metadata else
    hs ← read_u8 m (ts + 6);
    lo ← read_u32 m (ts + 8);
    hi ← read_u32 m (ts + 12);
    let reader := set_header reader hs (Z.lor lo (Z.shiftl hi 32)) in
    '(reader, table_ptr) ← for_loop 64 0 ZACLR_METADATA_MAX_TABLES (read_row_count m ts)
                             (reader, ts + 24);
    '(reader, _) ← for_loop 64 0 ZACLR_METADATA_MAX_TABLES (lay_out_table ts) (reader, table_ptr);
    if 0 <? default 0 (row_counts reader .@ 0x20) then
      row ← zaclr_metadata_reader_get_assembly_row m reader 1;
      Ret (set_assembly_name_index reader (assembly_name_index row))
    else Ret reader
  end.

(** ** The stream headers *)

Definition STRINGS_NAME : list byte := [x23; x53; x74; x72; x69; x6e; x67; x73]. (* #Strings *)
Definition BLOB_NAME : list byte := [x23; x42; x6c; x6f; x62].                   (* #Blob *)
Definition US_NAME : list byte := [x23; x55; x53].                               (* #US *)
Definition TILDE_NAME : list byte := [x23; x7e].                                 (* #~ *)
Definition MINUS_NAME : list byte := [x23; x2d].                                 (* #- *)

Definition set_streams (reader : zaclr_metadata_reader) (strings blob us tilde : zaclr_slice)
  : zaclr_metadata_reader :=
  mk_reader (metadata_root reader) strings blob us tilde (heap_sizes reader) (valid_mask reader)
    (tables reader) (row_counts reader) (rd_assembly_name_index reader).

(** The chain of [strings_equal] tests that records a stream. *)
Definition record_stream (m : memory) (reader : zaclr_metadata_reader) (stream_name : Z)
    (s : zaclr_slice) : outcome zaclr_metadata_reader :=
  let name := Some stream_name in
  b ← strings_equal m name STRINGS_NAME;
  if b : bool then
    Ret (set_streams reader s (blob_heap reader) (user_string_heap reader) (tilde_stream reader))
  else
  b ← strings_equal m name BLOB_NAME;
  if b : bool then
    Ret (set_streams reader (strings_heap reader) s (user_string_heap reader) (tilde_stream reader))
  else
  b ← strings_equal m name US_NAME;
  if b : bool then
    Ret (set_streams reader (strings_heap reader) (blob_heap reader) s (tilde_stream reader))
  else
  b ← strings_equal m name TILDE_NAME;
  b' ← (if b : bool then Ret true else strings_equal m name MINUS_NAME);
  if b' : bool then
    Ret (set_streams reader (strings_heap reader) (blob_heap reader) (user_string_heap reader) s)
  else Ret reader.

(** One stream header; the state is the reader and [stream_ptr].  The mask is
    the 32-bit [~3u], widened. *)
Definition read_stream_header (m : memory) (root : zaclr_slice) (data : Z) (_ : Z)
    (s : zaclr_metadata_reader * Z) : outcome (zaclr_metadata_reader * Z) :=
  let '(reader, stream_ptr) := s in
  if sl_size root <? stream_ptr - data + 8 then Err bad_metadata else
  offset ← read_u32 m stream_ptr;
  size ← read_u32 m (stream_ptr + 4);
  let stream_name := stream_ptr + 8 in
  name_length ← kernel_strlen m (Some stream_name);
  let padded_name_bytes := Z.land (name_length + 1 + 3) 0xFFFFFFFC in
  if sl_size root <? stream_ptr - data + 8 + padded_name_bytes then Err bad_metadata else
  if sl_size root <? offset + size then Err bad_metadata else
  reader ← record_stream m reader stream_name (mk_slice (Some (data + offset)) size);
  Ret (reader, stream_ptr + 8 + padded_name_bytes).

(** [*reader = {}] with the root recorded. *)
Definition empty_reader (root : zaclr_slice) : zaclr_metadata_reader :=
  mk_reader root zero_slice zero_slice zero_slice zero_slice 0 0
    (replicate 64 (mk_table_view None 0 0)) (replicate 64 0) 0.

(** [zaclr_metadata_reader_initialize] up to the call of [parse_tilde_stream]. *)
Definition read_streams (m : memory) (root : zaclr_slice) : outcome zaclr_metadata_reader :=
  match sl_data root with
  | None => Err invalid_argument
  | Some data =>
    if sl_size root <? 20 then Err invalid_argument else
    signature ← read_u32 m data;
    require signature =? 0x424A5342 else bad_metadata;
    version_length ← read_u32 m (data + 12);
    if sl_size root <? u32 (u32 (16 + version_length) + 4) then Err bad_metadata else
    stream_count ← read_u16 m (data + 16 + version_length + 2);
    '(reader, _) ← for_loop (Z.to_nat stream_count) 0 stream_count (read_stream_header m root data)
                     (empty_reader root, data + 16 + version_length + 4);
    match sl_data (tilde_stream reader) with
    | None => Err bad_metadata
    | Some _ => Ret reader
    end
  end.

Definition zaclr_metadata_reader_initialize (m : memory) (root : zaclr_slice)
  : outcome zaclr_metadata_reader :=
  reader ← read_streams m root;
  parse_tilde_stream m reader.

(** ** The heaps *)

Definition zaclr_metadata_reader_get_string (m : memory) (reader : zaclr_metadata_reader)
    (index : Z) : outcome zaclr_name_view :=
  if sl_size (strings_heap reader) <=? index then Err bad_metadata else
  data ← deref (sl_data (strings_heap reader));
  let text := data + index in
  length ← kernel_strlen m (Some text);
  if sl_size (strings_heap reader) <=? index + length then Err bad_metadata else
  Ret (mk_name (Some (chars m text length)) length).

Definition zaclr_metadata_reader_get_blob (m : memory) (reader : zaclr_metadata_reader)
    (index : Z) : outcome zaclr_slice :=
  match sl_data (blob_heap reader) with
  | None => Err bad_metadata
  | Some data =>
    let heap_size := sl_size (blob_heap reader) in
    if heap_size <=? index then Err bad_metadata else
    header ← read_u8 m (data + index);
    '(length, payload_offset) ←
      (if Z.land header 0x80 =? 0 then Ret (header, u32 (index + 1))
       else if Z.land header 0xC0 =? 0x80 then
         if heap_size <=? u32 (index + 1) then Err bad_metadata else
         b1 ← read_u8 m (data + u32 (index + 1));
         Ret (Z.lor (Z.shiftl (Z.land header 0x3F) 8) b1, u32 (index + 2))
       else
         if heap_size <=? u32 (index + 3) then Err bad_metadata else
         b1 ← read_u8 m (data + u32 (index + 1));
         b2 ← read_u8 m (data + u32 (index + 2));
         b3 ← read_u8 m (data + u32 (index + 3));
         Ret (Z.lor (Z.lor (Z.lor (Z.shiftl (Z.land header 0x1F) 24) (Z.shiftl b1 16))
                           (Z.shiftl b2 8)) b3,
              u32 (index + 4)));
    if heap_size <? payload_offset + length then Err bad_metadata else
    Ret (mk_slice (Some (data + payload_offset)) length)
  end.

Definition zaclr_metadata_reader_get_assembly_name (m : memory) (reader : zaclr_metadata_reader)
  : outcome zaclr_name_view :=
  if rd_assembly_name_index reader =? 0 then Ret (mk_name (Some []) 0)
  else zaclr_metadata_reader_get_string m reader (rd_assembly_name_index reader).

(** ** Well-formedness of an initialised reader *)

(** How many of the tables below [t] the mask announces: a row count is stored for
    each of these. *)
Definition tables_before (mask t : Z) : Z :=
  zlength (List.filter (fun i => flag_set mask (table_bit i)) (seqZ 0 t)).

(** The facts about the image that the code relies on and does not check. *)
Record image_ok (m : memory) (root : zaclr_slice) : Prop := {
  io_root : slice_ok m root;
  io_size : sl_size root < 2 ^ 31;
  (* a NUL byte follows the metadata, so that stream names end inside the image *)
  io_nul : exists q, read_u8 m q = Ret 0 /\ forall d, sl_data root = Some d -> d + sl_size root <= q;
  (* the version string is shorter than 2 GiB *)
  io_version d v : sl_data root = Some d -> read_u32 m (d + 12) = Ret v -> v < 2 ^ 31;
  (* row counts fit the 24 bits of a token *)
  io_counts r ts lo hi i n : read_streams m root = Ret r -> sl_data (tilde_stream r) = Some ts ->
    read_u32 m (ts + 8) = Ret lo -> read_u32 m (ts + 12) = Ret hi ->
    0 <= i < tables_before (Z.lor lo (Z.shiftl hi 32)) 64 -> read_u32 m (ts + 24 + 4 * i) = Ret n -> n < 2 ^ 24 }.

(** A reader whose streams are recorded and whose tables are still empty. *)
Record streams_ok (m : memory) (r : zaclr_metadata_reader) : Prop := {
  so_strings : slice_ok m (strings_heap r);
  so_blob : slice_ok m (blob_heap r);
  so_user_strings : slice_ok m (user_string_heap r);
  so_tilde : slice_ok m (tilde_stream r);
  so_tables : tables r = replicate 64 (mk_table_view None 0 0);
  so_row_counts : row_counts r = replicate 64 0;
  so_name : 0 <= rd_assembly_name_index r }.

Section initialize.
Context (m : memory) (root : zaclr_slice) (data : Z).
Context (Hroot : image_ok m root) (Hdata : sl_data root = Some data).

Lemma root_bounds : 0 <= data /\ data + sl_size root <= zlength m /\ sl_size root < 2 ^ 31.
Proof.
  destruct (io_root _ _ Hroot) as [? H]. rewrite Hdata in H. pose proof (io_size _ _ Hroot). lia.
Qed.

Lemma name_safe p lit :
  0 <= p <= data + sl_size root -> Forall (fun c => byte_Z c <> 0) lit ->
  safe_post (strings_equal m (Some p) lit) (fun _ => True).
Proof.
  intros Hp Hl. destruct (io_nul _ _ Hroot) as (q & Hq & Hle). specialize (Hle _ Hdata).
  apply (text_equals_at_safe m lit p q); [lia|done|done].
Qed.

Lemma record_stream_post r p s :
  0 <= p <= data + sl_size root -> streams_ok m r -> slice_ok m s ->
  safe_post (record_stream m r p s) (streams_ok m).
Proof.
  intros Hp Hr Hs. unfold record_stream.
  assert (forall lit, Forall (fun c => byte_Z c <> 0) lit ->
    safe_post (strings_equal m (Some p) lit) (fun _ => True)) as Hn by (intros; by apply name_safe).
  destruct Hr.
  do 3 (step; [apply Hn; repeat constructor; done|]; intros b _ _; destruct b; [by split|]).
  step; [apply Hn; repeat constructor; done|]; intros b _ _.
  step; [instantiate (1 := fun _ => True); destruct b; [done|apply Hn; repeat constructor; done]|].
  intros b' _ _. destruct b'; by split.
Qed.

Lemma read_stream_header_post i r p :
  streams_ok m r -> data <= p <= data + sl_size root ->
  safe_post (read_stream_header m root data i (r, p))
    (fun '(r', p') => streams_ok m r' /\ data <= p' <= data + sl_size root).
Proof.
  intros Hr Hp. pose proof root_bounds. unfold read_stream_header. case_if; [done|].
  step; [apply read_u32_post; lia|]. intros off _ Hoff.
  step; [apply read_u32_post; lia|]. intros size _ Hsize. simpl in Hoff, Hsize.
  destruct (io_nul _ _ Hroot) as (q & Hq & Hle). specialize (Hle _ Hdata).
  step; [apply (kernel_strlen_safe m (p + 8) q); [lia|done]|]. intros len _ Hlen. simpl in Hlen.
  cbv zeta. case_if; [done|]. case_if; [done|].
  assert (0 <= Z.land (len + 1 + 3) 0xFFFFFFFC) by (apply Z.land_nonneg; lia).
  step; [apply record_stream_post; [lia|done|split; simpl; lia]|].
  intros r' _ Hr'. simpl. split; [done|lia].
Qed.

End initialize.

Lemma read_streams_post m root :
  image_ok m root -> safe_post (read_streams m root) (streams_ok m).
Proof.
  intros Hroot. unfold read_streams. destruct (sl_data root) as [data|] eqn:Hdata; [|done].
  pose proof (root_bounds m root data Hroot Hdata). case_if; [done|].
  step; [apply read_u32_post; lia|]. intros sig _ _. apply safe_post_require. intros _.
  step; [apply read_u32_post; lia|]. intros vl Hvl Hvr. simpl in Hvr.
  pose proof (io_version _ _ Hroot _ _ Hdata Hvl). rewrite !u32_id by (rewrite ?u32_id; lia).
  case_if; [done|]. step; [apply read_u16_post; lia|]. intros n _ Hn. simpl in Hn.
  step; [apply (for_loop_safe_post _ (fun _ '(r, p) => streams_ok m r /\
                                        data <= p <= data + sl_size root))|].
  - lia.
  - lia.
  - split; [|lia]. split; done.
  - intros j [r p] _ [Hr Hp]. by apply read_stream_header_post.
  - intros [r p] _ [Hr _]. by destruct (sl_data (tilde_stream r)).
Qed.

(** *** The tables *)

Section tilde.
Context (m : memory) (r0 : zaclr_metadata_reader) (ts : Z).
Context (Hr0 : streams_ok m r0) (Hts : sl_data (tilde_stream r0) = Some ts).
Context (mask : Z) (Hcounts : forall i n, 0 <= i < tables_before mask 64 -> read_u32 m (ts + 24 + 4 * i) = Ret n -> n < 2 ^ 24).

Definition counts_small (r : zaclr_metadata_reader) : Prop :=
  zlength (row_counts r) = 64 /\ forall n, n ∈ row_counts r -> 0 <= n < 2 ^ 24.

(** What stays of the reader while the row counts are read. *)
Definition counting (t : Z) (s : zaclr_metadata_reader * Z) : Prop :=
  let '(r, p) := s in
  0 <= rd_assembly_name_index r /\ strings_heap r = strings_heap r0 /\ blob_heap r = blob_heap r0 /\
  user_string_heap r = user_string_heap r0 /\ tilde_stream r = tilde_stream r0 /\
  tables r = replicate 64 (mk_table_view None 0 0) /\ counts_small r /\ valid_mask r = mask /\
  p = ts + 24 + 4 * tables_before mask t /\ p <= ts + sl_size (tilde_stream r0).

Lemma tilde_bounds : 0 <= ts /\ ts + sl_size (tilde_stream r0) <= zlength m.
Proof. destruct (so_tilde _ _ Hr0) as [? H]. rewrite Hts in H. lia. Qed.

Lemma counts_small_set r t n :
  counts_small r -> 0 <= n < 2 ^ 24 -> counts_small (set_row_count r t n).
Proof.
  intros [Hl Hc] Hn. split; [by unfold set_row_count; simpl; rewrite zlength_set|].
  simpl. intros k Hk. unfold set in Hk. case_if_in Hk; [by apply Hc|].
  apply list_elem_of_lookup in Hk as [i Hi]. apply list_lookup_insert_Some in Hi as [(_ & -> & _)|[_ Hi]];
    [done|]. apply Hc. by eapply list_elem_of_lookup_2.
Qed.

Lemma tables_before_succ t : 0 <= t -> tables_before mask (t + 1) = tables_before mask t + (if flag_set mask (table_bit t) then 1 else 0).
Proof.
  intros Ht. unfold tables_before. rewrite (seqZ_app 0 t 1), Z.add_0_l by lia. change (seqZ t 1) with [t].
  rewrite List.filter_app. unfold zlength. rewrite length_app. cbn [List.filter]. destruct (flag_set _ _); cbn [length]; lia.
Qed.

Lemma tables_before_mono t : 0 <= t <= 64 -> 0 <= tables_before mask t <= tables_before mask 64.
Proof.
  intros Ht. unfold tables_before. replace 64 with (t + (64 - t)) by lia. rewrite (seqZ_app 0 t (64 - t)) by lia.
  rewrite List.filter_app. unfold zlength. rewrite length_app. lia.
Qed.

Lemma read_row_count_post t s :
  0 <= t < 64 -> counting t s -> safe_post (read_row_count m ts t s) (counting (t + 1)).
Proof.
  destruct s as [r p]. intros Ht (Hnm & Hs & Hb & Hu & Htl & Htb & Hc & Hm & -> & Hp).
  pose proof tilde_bounds. pose proof (tables_before_succ t ltac:(lia)) as Hsucc.
  pose proof (tables_before_mono t ltac:(lia)). pose proof (tables_before_mono (t + 1) ltac:(lia)).
  unfold read_row_count. rewrite Htl, Hm. case_if.
  - case_if; [done|]. step; [apply read_u32_post; lia|]. intros n Hn Hnr. simpl in Hnr.
    apply Hcounts in Hn; [|lia]. simpl. split_and!; try done.
    + apply counts_small_set; [done|lia].
    + lia.
    + lia.
  - simpl. split_and!; try done; lia.
Qed.

(** What holds while the tables are laid out. *)
Definition laying_out (s : zaclr_metadata_reader * Z) : Prop :=
  let '(r, p) := s in
  reader_ok m r /\ tilde_stream r = tilde_stream r0 /\ counts_small r /\
  ts <= p <= ts + sl_size (tilde_stream r0).

Lemma counting_laying_out t s : counting t s -> laying_out s.
Proof.
  destruct s as [r p]. intros (Hnm & Hs & Hb & Hu & Htl & Htb & Hc & _ & -> & Hp).
  assert (0 <= tables_before mask t) by apply zlength_nonneg. destruct Hr0. split; [|split; [done|split; [done|lia]]].
  split; try congruence.
  - by rewrite Htb.
  - apply Hc.
  - intros t' v Hv. rewrite Htb in Hv. apply get_In, elem_of_replicate in Hv as [-> _]. done.
Qed.

Lemma lay_out_table_post t s :
  0 <= t < 64 -> laying_out s -> safe_post (lay_out_table ts t s) laying_out.
Proof.
  destruct s as [r p]. intros Ht (Hr & Htl & Hc & Hp). pose proof tilde_bounds.
  unfold lay_out_table. case_if; [done|]. cbv zeta.
  destruct (get_Some (row_counts r) t) as [n Hn]; [destruct Hc; lia|]. rewrite Hn.
  change (default 0 (Some n)) with n.
  assert (0 <= n < 2 ^ 24) as Hnr by (apply Hc; by eapply get_In).
  pose proof (table_row_size_bound r t).
  case_if; [done|]. assert (0 <= table_row_size r t * n < 2 ^ 32) by nia. rewrite u32_id by done. rewrite Htl. case_if; [done|].
  split; [|split; [done|split; [done|nia]]].
  destruct Hr. split; try done; [by simpl; rewrite zlength_set|].
  intros t' v Hv. destruct (Z.eq_dec t t') as [<-|].
  - simpl in Hv. rewrite get_set_eq in Hv by (unfold ZACLR_METADATA_MAX_TABLES in *; lia).
    injection Hv as <-. apply (view_ok_ext m r); [done|done|].
    split; cbn [rows row_size row_count]; [lia|]. split; [done|lia].
  - simpl in Hv. rewrite get_set_ne in Hv by done. apply (view_ok_ext m r); [done|done|].
    apply (ro_view t' v Hv).
Qed.

Lemma parse_tilde_stream_post : (forall lo hi, read_u32 m (ts + 8) = Ret lo -> read_u32 m (ts + 12) = Ret hi -> mask = Z.lor lo (Z.shiftl hi 32)) ->
  safe_post (parse_tilde_stream m r0) (reader_ok m).
Proof.
  intros Hmask. pose proof tilde_bounds. unfold parse_tilde_stream. rewrite Hts. case_if; [done|].
  step; [apply read_u8_post; lia|]. intros hs _ _.
  step; [apply read_u32_post; lia|]. intros lo Hlo _.
  step; [apply read_u32_post; lia|]. intros hi Hhi _. cbv zeta. rewrite <- (Hmask lo hi Hlo Hhi).
  step; [apply (for_loop_safe_post _ counting)|].
  - done.
  - done.
  - destruct Hr0. unfold counting. simpl. split_and!; try done.
    + split; cbn [row_counts set_header]; rewrite so_row_counts0; [done|]. intros n.
      intros [-> _]%elem_of_replicate. done.
    + change (tables_before mask 0) with 0. lia.
    + lia.
  - intros j s Hj Hs. by apply read_row_count_post.
  - intros [r1 p1] _ H1. step; [apply (for_loop_safe_post _ (fun _ => laying_out))|].
    + done.
    + done.
    + by eapply counting_laying_out.
    + intros j s Hj Hs. by apply lay_out_table_post.
    + intros [r2 p2] _ (Hok & _). case_if; [|done].
      step; [apply (assembly_row_post m r2 Hok)|].
      intros row _ Hrow. destruct Hok. split; [done..|].
      intros t v Hv. by apply (view_ok_ext m r2); [..|apply ro_view].
Qed.

End tilde.

Lemma initialize_post m root :
  image_ok m root -> safe_post (zaclr_metadata_reader_initialize m root) (reader_ok m).
Proof.
  intros Hroot. unfold zaclr_metadata_reader_initialize.
  step; [by apply read_streams_post|]. intros r Hr Hok.
  destruct (sl_data (tilde_stream r)) as [ts|] eqn:Hts.
  - destruct (read_u32 m (ts + 8)) as [lo| | |] eqn:Hlo, (read_u32 m (ts + 12)) as [hi| | |] eqn:Hhi.
    { apply (parse_tilde_stream_post m r ts Hok Hts (Z.lor lo (Z.shiftl hi 32))); [|congruence].
      intros i n Hi Hn. by eapply (io_counts m root). }
    all: apply (parse_tilde_stream_post m r ts Hok Hts 0); [|congruence]; intros i n Hi; change (tables_before 0 64) with 0 in Hi; lia.
  - unfold parse_tilde_stream. by rewrite Hts.
Qed.

(** C23: on an image that satisfies [image_ok], initialising the metadata reader
    never reads outside the image, always returns, and when it succeeds every table
    lies inside the image with the row size of its schema, so that the row readers
    are total on it.  [image_ok] holds what the code does not check: the metadata lies in
    the image and is smaller than 2 GiB, a NUL byte stands behind it, the length of the
    version string is below 2^31 and the row counts of the announced tables are below
    2^24.  Without the last two the statement is false
    ([version_length_overflow_faults], [row_count_overflow_accepted]). *)
Theorem metadata_initialize_ok m root :
  image_ok m root -> safe_post (zaclr_metadata_reader_initialize m root) (reader_ok m).
Proof. apply initialize_post. Qed.

(** ** The heaps *)

Lemma get_string_cases m r d i :
  slice_ok m (strings_heap r) -> sl_data (strings_heap r) = Some d -> 0 <= i ->
  read_u8 m (d + sl_size (strings_heap r) - 1) = Ret 0 ->
  if i <? sl_size (strings_heap r) then
    exists n, zaclr_metadata_reader_get_string m r i = Ret (mk_name (Some (chars m (d + i) n)) n) /\
      0 <= n /\ i + n < sl_size (strings_heap r) /\ kernel_strlen m (Some (d + i)) = Ret n
  else zaclr_metadata_reader_get_string m r i = Err bad_metadata.
Proof.
  intros [Hs Hd] Hdata Hi Hnul. rewrite Hdata in Hd. unfold zaclr_metadata_reader_get_string.
  destruct (Z.ltb_spec i (sl_size (strings_heap r)));
    destruct (Z.leb_spec (sl_size (strings_heap r)) i); try lia; [|done].
  rewrite Hdata. cbn [mbind outcome_bind deref]. cbv zeta.
  pose proof (kernel_strlen_safe m (d + i) (d + sl_size (strings_heap r) - 1) ltac:(lia) Hnul) as Hl.
  pose proof (kernel_strlen_no_err m (d + i)) as Hne.
  destruct (kernel_strlen m (Some (d + i))) as [n|e| |] eqn:En; try done; [|by destruct (Hne e)].
  simpl in Hl. rewrite Ret_bind. exists n.
  destruct (Z.leb_spec (sl_size (strings_heap r)) (i + n)); [lia|]. split; [done|]. split_and!; done || lia.
Qed.

(** When the string heap ends with a NUL byte, as the format requires,
    [get_string] answers every index of the heap with the characters up to the next
    NUL, and refuses every other index. *)
Theorem get_string_total m r d i :
  slice_ok m (strings_heap r) -> sl_data (strings_heap r) = Some d -> 0 <= i ->
  read_u8 m (d + sl_size (strings_heap r) - 1) = Ret 0 ->
  if i <? sl_size (strings_heap r) then
    exists n, zaclr_metadata_reader_get_string m r i = Ret (mk_name (Some (chars m (d + i) n)) n) /\
      0 <= n /\ i + n < sl_size (strings_heap r) /\ kernel_strlen m (Some (d + i)) = Ret n
  else zaclr_metadata_reader_get_string m r i = Err bad_metadata.
Proof. apply get_string_cases. Qed.

(** A string heap that ends with a NUL byte, or that is absent, and a blob heap of
    less than 2 GiB: what the accessors need of an initialised reader. *)
Record heaps_ok (m : memory) (r : zaclr_metadata_reader) : Prop := {
  ho_nul d : sl_data (strings_heap r) = Some d ->
    read_u8 m (d + sl_size (strings_heap r) - 1) = Ret 0;
  ho_blob : sl_size (blob_heap r) < 2 ^ 31 }.

Lemma get_string_safe m r i :
  slice_ok m (strings_heap r) -> heaps_ok m r -> 0 <= i ->
  safe (zaclr_metadata_reader_get_string m r i).
Proof.
  intros Hs Hh Hi. destruct (sl_data (strings_heap r)) as [d|] eqn:Hd.
  - pose proof (get_string_cases m r d i Hs Hd Hi (ho_nul _ _ Hh d Hd)) as H.
    case_if_in H; [destruct H as (n & -> & _)|rewrite H]; done.
  - destruct Hs as [_ Hs]. rewrite Hd in Hs. unfold zaclr_metadata_reader_get_string.
    by destruct (Z.leb_spec (sl_size (strings_heap r)) i); [|lia].
Qed.

(** The name of the assembly is read safely from such a heap. *)
Lemma get_assembly_name_safe m r :
  reader_ok m r -> heaps_ok m r -> safe (zaclr_metadata_reader_get_assembly_name m r).
Proof.
  intros Hr Hh. unfold zaclr_metadata_reader_get_assembly_name. case_if; [done|].
  apply get_string_safe; [apply Hr|done|apply Hr].
Qed.

Lemma get_blob_post m r i :
  slice_ok m (blob_heap r) -> sl_size (blob_heap r) < 2 ^ 31 -> 0 <= i ->
  safe_post (zaclr_metadata_reader_get_blob m r i)
    (fun s => slice_ok m s /\ exists d o, sl_data (blob_heap r) = Some d /\
       sl_data s = Some (d + o) /\ i < o /\ o + sl_size s <= sl_size (blob_heap r)).
Proof.
  intros [Hs Hd] Hsz Hi. unfold zaclr_metadata_reader_get_blob.
  destruct (sl_data (blob_heap r)) as [d|] eqn:Hdata; [|done]. cbv zeta. case_if; [done|].
  step; [apply read_u8_post; lia|]. intros h _ Hh. simpl in Hh.
  step; [instantiate (1 := fun '(n, o) => 0 <= n < 2 ^ 29 /\ i < o <= i + 4)|].
  - case_if; [simpl; rewrite u32_id by lia; lia|].
    pose proof (land_le_ones h 6) as H6. pose proof (land_le_ones h 5) as H5.
    change (Z.ones 6) with 0x3F in H6. change (Z.ones 5) with 0x1F in H5.
    case_if; rewrite !u32_id by lia; (case_if; [done|]).
    + step; [apply read_u8_post; lia|]. intros b1 _ Hb1. simpl in *.
      rewrite lor_shiftl_add by lia. lia.
    + do 3 (step; [apply read_u8_post; lia|]; intros ? _ ?; simpl in *).
      split; [|lia]. repeat apply lor_range; rewrite ?Z.shiftl_mul_pow2; lia.
  - intros [n o] _ [Hn Ho]. case_if; [done|]. simpl. split; [split; simpl; lia|].
    exists d, o. split; [done|]. split; [done|]. lia.
Qed.

(** [get_blob] never reads outside the image, and the slice it returns lies
    inside the blob heap, behind its length prefix. *)
Theorem get_blob_inside m r i :
  slice_ok m (blob_heap r) -> sl_size (blob_heap r) < 2 ^ 31 -> 0 <= i ->
  safe_post (zaclr_metadata_reader_get_blob m r i)
    (fun s => slice_ok m s /\ exists d o, sl_data (blob_heap r) = Some d /\
       sl_data s = Some (d + o) /\ i < o /\ o + sl_size s <= sl_size (blob_heap r)).
Proof. apply get_blob_post. Qed.

(** ** A concrete image *)

(** A metadata root with one [#~] stream that holds the ModuleRef table (0x1A),
    of the given row count, and two of its rows. *)
Definition sample_root_bytes (count : Z) : memory :=
  encode_u32 0x424A5342 ++ encode_u32 0x00010001 ++ encode_u32 0 ++ encode_u32 4 ++
  bytes_of [0x76; 0x34; 0; 0] ++ encode_u16 0 ++ encode_u16 1 ++
  encode_u32 36 ++ encode_u32 32 ++ TILDE_NAME ++ bytes_of [0; 0] ++
  encode_u32 0 ++ bytes_of [2; 0; 0; 1] ++ encode_u32 0x04000000 ++ encode_u32 0 ++
  encode_u32 0 ++ encode_u32 0 ++ encode_u32 count ++ encode_u16 5 ++ encode_u16 9.

Definition sample_image (count : Z) : memory := sample_root_bytes count ++ [x00].

Definition sample_root (count : Z) : zaclr_slice :=
  mk_slice (Some 0) (zlength (sample_root_bytes count)).

Lemma sample_image_ok : image_ok (sample_image 2) (sample_root 2).
Proof.
  split.
  - by split; vm_compute.
  - by vm_compute.
  - exists 68. split; [by vm_compute|]. intros d [= <-]. by vm_compute.
  - intros d v [= <-] Hv.
    assert (read_u32 (sample_image 2) (0 + 12) = Ret 4) as E by (vm_compute; reflexivity).
    assert (v = 4) as -> by congruence. lia.
  - intros r ts lo hi i n Hr Hts Hlo Hhi Hi Hn.
    assert (sl_data (tilde_stream r) = Some 36) as E.
    { revert Hr. vm_compute. by intros [= <-]. }
    rewrite E in Hts. injection Hts as <-. vm_compute in Hlo, Hhi. injection Hlo as <-. injection Hhi as <-.
    change (0 <= i < 1) in Hi. assert (i = 0) as -> by lia. vm_compute in Hn. injection Hn as <-. done.
Qed.

Lemma metadata_initialize_ok_witness :
  exists r, zaclr_metadata_reader_initialize (sample_image 2) (sample_root 2) = Ret r /\
    reader_ok (sample_image 2) r /\
    zaclr_metadata_reader_get_moduleref_row (sample_image 2) r 2 = Ret (mk_moduleref_row 9).
Proof.
  pose proof (metadata_initialize_ok _ _ sample_image_ok) as H.
  destruct (zaclr_metadata_reader_initialize (sample_image 2) (sample_root 2)) as [r|e| |] eqn:E;
    vm_compute in E; try discriminate E.
  exists r. split; [reflexivity|]. split; [exact H|]. injection E as <-. vm_compute. reflexivity.
Defined.

(** A string heap [\0 ab\0] and a blob heap [\0 \2xy] in one image. *)
Definition sample_heaps : memory := bytes_of [0; 97; 98; 0; 0; 2; 120; 121].

Definition sample_heap_reader : zaclr_metadata_reader :=
  mk_reader zero_slice (mk_slice (Some 0) 4) (mk_slice (Some 4) 4) zero_slice zero_slice 0 0 [] [] 0.

Lemma get_string_total_witness :
  exists n, zaclr_metadata_reader_get_string sample_heaps sample_heap_reader 1
            = Ret (mk_name (Some (chars sample_heaps 1 n)) n).
Proof.
  destruct (get_string_total sample_heaps sample_heap_reader 0 1) as (n & H & _);
    [split; vm_compute; intuition congruence|reflexivity|lia|reflexivity|]. exists n. exact H.
Defined.

Lemma get_blob_inside_witness :
  zaclr_metadata_reader_get_blob sample_heaps sample_heap_reader 1 = Ret (mk_slice (Some 6) 2) /\
  safe (zaclr_metadata_reader_get_blob sample_heaps sample_heap_reader 1).
Proof.
  split; [reflexivity|]. eapply safe_post_safe.
  apply (get_blob_inside sample_heaps sample_heap_reader 1); [|reflexivity|lia].
  split; vm_compute; intuition congruence.
Defined.

(** ** Why [image_ok] is needed *)

(** [row_size * row_count] is computed in 32 bits: 2^31 rows of two bytes need no
    bytes at all, the table is accepted, and reading one of its rows leaves the
    image. *)
Lemma row_count_overflow_accepted :
  match zaclr_metadata_reader_initialize (sample_image (2 ^ 31)) (sample_root (2 ^ 31)) with
  | Ret r => zaclr_metadata_reader_get_moduleref_row (sample_image (2 ^ 31)) r 1000000 = Fault
  | _ => False
  end.
Proof. vm_compute. reflexivity. Qed.

(** The end of the version string is computed in 32 bits too. *)
Lemma version_length_overflow_faults :
  let m := encode_u32 0x424A5342 ++ encode_u32 0 ++ encode_u32 0 ++ encode_u32 0xFFFFFFF0 ++
           encode_u32 0 in
  zaclr_metadata_reader_initialize m (mk_slice (Some 0) 20) = Fault.
Proof.
  intros m. unfold zaclr_metadata_reader_initialize, read_streams. cbn [sl_data sl_size].
  assert (read_u32 m 0 = Ret 0x424A5342) as -> by (vm_compute; reflexivity).
  assert (read_u32 m (0 + 12) = Ret 0xFFFFFFF0) as -> by (vm_compute; reflexivity).
  rewrite !Ret_bind. assert (u32 (u32 (16 + 0xFFFFFFF0) + 4) = 4) as -> by reflexivity.
  assert (zlength m = 20) as Hl by reflexivity. cbn [Z.eqb Z.ltb Z.compare Pos.compare Pos.eqb].
  unfold read_u16, read_u8. by rewrite get_None by (rewrite Hl; lia).
Qed.
