(* ===== verification/PeImage.v ===== *)
(** * PE images

    [zaclr/loader/zaclr_pe_image.cpp]: the parser of the PE/COFF headers of an
    assembly, the translation of relative virtual addresses to file offsets, and
    the location of the CLI metadata. *)

From S2P Require Import Prelude Status Bytes Signature MetadataTables MetadataReader.

Definition ZACLR_PE_MAX_SECTIONS : Z := 32.

Definition bad_image : zaclr_result :=
  zaclr_result_make ZACLR_STATUS_BAD_IMAGE ZACLR_STATUS_CATEGORY_LOADER.

Definition invalid_argument : zaclr_result :=
  zaclr_result_make ZACLR_STATUS_INVALID_ARGUMENT ZACLR_STATUS_CATEGORY_LOADER.

Record zaclr_pe_section := mk_section {
  virtual_address : Z; virtual_size : Z; raw_offset : Z; raw_size : Z }.

Record zaclr_pe_image := mk_pe_image {
  pe_image : zaclr_slice;
  pe_assembly_name : zaclr_name_view;
  pe_metadata_root : zaclr_slice;
  cli_header_rva : Z;
  cli_header_size : Z;
  metadata_rva : Z;
  metadata_size : Z;
  entry_point_token : Z;
  pe_header_offset : Z;
  optional_header_magic : Z;
  section_count : Z;
  sections : list zaclr_pe_section;
  pe_flags : Z }.

Definition zaclr_pe_image_flags (image : option zaclr_pe_image) : Z :=
  match image with Some i => pe_flags i | None => 0 end.

(** ** Relative virtual addresses *)

Definition span (s : zaclr_pe_section) : Z :=
  if raw_size s <? virtual_size s then virtual_size s else raw_size s.

Definition contains_rva (rva : Z) (s : zaclr_pe_section) : bool :=
  (virtual_address s <=? rva) && (rva <? u32 (virtual_address s + span s)).

(** The loop over the sections in use. *)
Fixpoint rva_scan (l : list zaclr_pe_section) (rva image_size : Z) : outcome Z :=
  match l with
  | [] => Err bad_image
  | s :: l =>
    if contains_rva rva s then
      let out_offset := u32 (raw_offset s + u32 (rva - virtual_address s)) in
      if image_size <? out_offset then Err bad_image else Ret out_offset
    else rva_scan l rva image_size
  end.

Definition zaclr_pe_image_rva_to_offset (image : zaclr_pe_image) (rva : Z) : outcome Z :=
  rva_scan (take (Z.to_nat (section_count image)) (sections image)) rva (sl_size (pe_image image)).

(** ** The headers *)

(** One section header; the state is the section array. *)
Definition read_section (m : memory) (data size first index : Z) (l : list zaclr_pe_section)
  : outcome (list zaclr_pe_section) :=
  let section := data + first + u32 (index * 40) in
  if size <? section - data + 40 then Err bad_image else
  vs ← read_u32 m (section + 8);
  va ← read_u32 m (section + 12);
  rs ← read_u32 m (section + 16);
  ro ← read_u32 m (section + 20);
  Ret (set l index (mk_section va vs ro rs)).

(** [result.status != OK] of a called routine, turned into the caller's status. *)
Definition or_else {A} (x : outcome A) (r : zaclr_result) : outcome A :=
  match x with Err _ => Err r | _ => x end.

(** [zaclr_pe_image_parse] up to the recording of the metadata root. *)
Definition parse_headers (m : memory) (image_bytes : zaclr_slice) : outcome zaclr_pe_image :=
  match sl_data image_bytes with
  | None => Err invalid_argument
  | Some data =>
    let size := sl_size image_bytes in
    if size <? 0x40 then Err invalid_argument else
    c0 ← read_u8 m data;
    c1 ← read_u8 m (data + 1);
    require (c0 =? 77) && (c1 =? 90) else bad_image;
    pe_offset ← read_u32 m (data + 0x3C);
    if size <? pe_offset + 24 then Err bad_image else
    p0 ← read_u8 m (data + pe_offset);
    p1 ← read_u8 m (data + u32 (pe_offset + 1));
    p2 ← read_u8 m (data + u32 (pe_offset + 2));
    p3 ← read_u8 m (data + u32 (pe_offset + 3));
    require (p0 =? 80) && (p1 =? 69) && (p2 =? 0) && (p3 =? 0) else bad_image;
    let coff_offset := u32 (pe_offset + 4) in
    section_count ← read_u16 m (data + coff_offset + 2);
    optional_size ← read_u16 m (data + coff_offset + 16);
    let optional_offset := u32 (coff_offset + 20) in
    if (size <? optional_offset + optional_size) || (ZACLR_PE_MAX_SECTIONS <? section_count)
    then Err bad_image else
    optional_magic ← read_u16 m (data + optional_offset);
    require (optional_magic =? 0x10B) || (optional_magic =? 0x20B) else bad_image;
    let data_directory_offset := u32 (optional_offset + (if optional_magic =? 0x20B then 112 else 96)) in
    if size <? data_directory_offset + 15 * 8 + 8 then Err bad_image else
    sections ← for_loop 32 0 section_count (read_section m data size (optional_offset + optional_size))
                 (replicate 32 (mk_section 0 0 0 0));
    cli_rva ← read_u32 m (data + data_directory_offset + 14 * 8);
    cli_size ← read_u32 m (data + data_directory_offset + 14 * 8 + 4);
    if cli_rva =? 0 then Err bad_image else
    let image := mk_pe_image image_bytes zero_name zero_slice cli_rva cli_size 0 0 0 pe_offset
                   optional_magic section_count sections 0 in
    cli_offset ← or_else (zaclr_pe_image_rva_to_offset image cli_rva) bad_image;
    if size <? cli_offset + 24 then Err bad_image else
    metadata_rva ← read_u32 m (data + cli_offset + 8);
    metadata_size ← read_u32 m (data + cli_offset + 12);
    entry_point ← read_u32 m (data + cli_offset + 20);
    metadata_offset ← or_else (zaclr_pe_image_rva_to_offset image metadata_rva) bad_image;
    if size <? metadata_offset + metadata_size then Err bad_image else
    Ret (mk_pe_image image_bytes zero_name (mk_slice (Some (data + metadata_offset)) metadata_size)
           cli_rva cli_size metadata_rva metadata_size entry_point pe_offset optional_magic
           section_count sections 0)
  end.

Definition loader_bad_metadata : zaclr_result :=
  zaclr_result_make ZACLR_STATUS_BAD_METADATA ZACLR_STATUS_CATEGORY_LOADER.

Definition set_assembly_name (image : zaclr_pe_image) (name : zaclr_name_view) : zaclr_pe_image :=
  mk_pe_image (pe_image image) name (pe_metadata_root image) (cli_header_rva image)
    (cli_header_size image) (metadata_rva image) (metadata_size image) (entry_point_token image)
    (pe_header_offset image) (optional_header_magic image) (section_count image) (sections image)
    (pe_flags image).

Definition zaclr_pe_image_parse (m : memory) (image_bytes : zaclr_slice) : outcome zaclr_pe_image :=
  image ← parse_headers m image_bytes;
  reader ← or_else (zaclr_metadata_reader_initialize m (pe_metadata_root image)) loader_bad_metadata;
  name ← or_else (zaclr_metadata_reader_get_assembly_name m reader) loader_bad_metadata;
  Ret (set_assembly_name image name).

(** ** Address translation *)

Lemma rva_scan_spec l rva size :
  rva_scan l rva size =
    match find_index (contains_rva rva) l with
    | None => Err bad_image
    | Some i =>
      match l .@ i with
      | None => Err bad_image
      | Some s => let off := u32 (raw_offset s + u32 (rva - virtual_address s)) in
                  if size <? off then Err bad_image else Ret off
      end
    end.
Proof.
  assert (forall k, rva_scan l rva size =
    match find_from (contains_rva rva) l k with
    | None => Err bad_image
    | Some i => match l .@ (i - k) with
                | None => Err bad_image
                | Some s => let off := u32 (raw_offset s + u32 (rva - virtual_address s)) in
                            if size <? off then Err bad_image else Ret off end
    end) as H.
  { induction l as [|s l IH]; intros k; [done|]. cbn [rva_scan find_from].
    destruct (contains_rva rva s); [by rewrite Z.sub_diag|]. rewrite (IH (k + 1)).
    destruct (find_from (contains_rva rva) l (k + 1)) as [i|] eqn:E; [|done].
    apply find_from_Some in E as (Hr & _).
    replace ((s :: l) .@ (i - k)) with (l .@ (i - (k + 1))); [done|].
    unfold get. repeat case_if; try lia.
    by replace (Z.to_nat (i - k)) with (S (Z.to_nat (i - (k + 1)))) by lia. }
  rewrite (H 0). unfold find_index. destruct (find_from _ _ _); [|done]. by rewrite Z.sub_0_r.
Qed.

Lemma rva_scan_post l rva size :
  safe_post (rva_scan l rva size) (fun off => 0 <= off <= size).
Proof.
  induction l as [|s l IH]; [done|]. cbn [rva_scan]. case_if; [|done]. cbv zeta. case_if; [done|].
  simpl. pose proof (u32_range (raw_offset s + u32 (rva - virtual_address s))). lia.
Qed.

(** An address is translated by the first section in use whose virtual range
    contains it, to the file offset at the same distance from the start of the
    section's raw data; an address in no section, or one whose offset lies behind
    the end of the file, is BAD_IMAGE. *)
Theorem rva_to_offset_first_section image rva i s :
  sections image .@ i = Some s -> i < section_count image -> contains_rva rva s = true ->
  (forall j s', 0 <= j < i -> sections image .@ j = Some s' -> contains_rva rva s' = false) ->
  raw_offset s + (rva - virtual_address s) < 2 ^ 32 -> 0 <= raw_offset s ->
  0 <= virtual_address s -> rva < 2 ^ 32 ->
  zaclr_pe_image_rva_to_offset image rva =
    let off := raw_offset s + (rva - virtual_address s) in
    if sl_size (pe_image image) <? off then Err bad_image else Ret off.
Proof.
  intros Hs Hi Hc Hfirst Hoff Hro Hva Hrva. unfold zaclr_pe_image_rva_to_offset.
  rewrite rva_scan_spec. pose proof (get_Some_range _ _ _ Hs) as Hr.
  set (l := take (Z.to_nat (section_count image)) (sections image)).
  assert (forall j, j < section_count image -> l .@ j = sections image .@ j) as Hl.
  { intros j Hj. unfold get, l. case_if; [done|]. apply lookup_take_lt. lia. }
  assert (find_index (contains_rva rva) l = Some i) as ->.
  { destruct (find_index_is_Some (contains_rva rva) l s) as [j Hj];
      [apply (get_In l i); by rewrite Hl|done|].
    rewrite Hj. f_equal. pose proof (find_index_range _ _ _ Hj).
    apply find_index_Some in Hj as (x & Hx & Hpx & Hmin).
    destruct (Z.lt_trichotomy j i) as [Hlt|[?|Hlt]]; [|done|].
    - rewrite Hl in Hx by lia. rewrite (Hfirst j x) in Hpx; [done|lia|done].
    - rewrite (Hmin i s) in Hc; [done|lia|by rewrite Hl]. }
  rewrite Hl, Hs by done. unfold contains_rva in Hc. bool_cases. cbv zeta.
  by rewrite (u32_id (rva - virtual_address s)), u32_id by lia.
Qed.

(** ** Safety of the parser *)

Lemma or_else_post {A} (x : outcome A) r P : safe_post x P -> safe_post (or_else x r) P.
Proof. by destruct x. Qed.

Lemma read_section_post m data size first index l :
  0 <= data -> data + size <= zlength m -> 0 <= first -> 0 <= index < 32 -> zlength l = 32 ->
  safe_post (read_section m data size first index l) (fun l' => zlength l' = 32).
Proof.
  intros Hd Hs Hf Hi Hl. unfold read_section. cbv zeta. rewrite u32_id by lia. case_if; [done|].
  do 4 (step; [apply read_u32_post; lia|]; intros ? _ _). simpl. by rewrite zlength_set.
Qed.

(** An image whose metadata lies inside the file. *)
Record pe_image_ok (m : memory) (bytes : zaclr_slice) (image : zaclr_pe_image) : Prop := {
  pio_image : pe_image image = bytes;
  pio_root : slice_ok m (pe_metadata_root image);
  pio_inside : forall d r, sl_data bytes = Some d -> sl_data (pe_metadata_root image) = Some r ->
    d <= r /\ r + sl_size (pe_metadata_root image) <= d + sl_size bytes;
  pio_sections : zlength (sections image) = ZACLR_PE_MAX_SECTIONS;
  pio_count : 0 <= section_count image <= ZACLR_PE_MAX_SECTIONS }.

Lemma parse_headers_post m bytes :
  slice_ok m bytes -> sl_size bytes < 2 ^ 31 ->
  (forall d, sl_data bytes = Some d -> d + sl_size bytes + 2 <= zlength m) ->
  safe_post (parse_headers m bytes) (pe_image_ok m bytes).
Proof.
  intros [Hs0 Hd] Hsz Hpad. unfold parse_headers.
  destruct (sl_data bytes) as [d|] eqn:Hdata; [|done]. specialize (Hpad d eq_refl). cbv zeta.
  case_if; [done|]. do 2 (step; [apply read_u8_post; lia|]; intros ? _ _).
  apply safe_post_require. intros _. step; [apply read_u32_post; lia|]. intros pe _ Hpe. simpl in Hpe.
  case_if; [done|]. rewrite !(u32_id (pe + _)) by lia.
  do 4 (step; [apply read_u8_post; lia|]; intros ? _ _). apply safe_post_require. intros _.
  step; [apply read_u16_post; lia|]. intros nsec _ Hnsec.
  step; [apply read_u16_post; lia|]. intros osz _ Hosz. simpl in Hnsec, Hosz.
  rewrite !(u32_id (pe + _ + _)) by lia. case_if; [done|].
  step; [apply read_u16_post; lia|]. intros magic _ _.
  apply safe_post_require. intros _.
  assert (96 <= (if magic =? 0x20B then 112 else 96) <= 112) as Hdir by (case_if; lia).
  remember (if magic =? 0x20B then 112 else 96) as dir eqn:Ed. clear Ed.
  rewrite !u32_id by lia. case_if; [done|].
  step; [apply (for_loop_safe_post _ (fun _ l => zlength l = 32)); [..|done|]|].
  - unfold ZACLR_PE_MAX_SECTIONS in *. lia.
  - lia.
  - unfold ZACLR_PE_MAX_SECTIONS in *. intros j l Hj Hl. apply read_section_post; lia.
  - intros secs _ Hsecs. simpl in Hsecs.
    do 2 (step; [apply read_u32_post; lia|]; intros ? _ _). case_if; [done|].
    step; [apply or_else_post, rva_scan_post|]. intros cli _ Hcli. simpl in Hcli. case_if; [done|].
    step; [apply read_u32_post; lia|]. intros mrva _ _.
    step; [apply read_u32_post; lia|]. intros msz _ Hmsz. simpl in Hmsz.
    step; [apply read_u32_post; lia|]. intros ep _ _.
    step; [apply or_else_post, rva_scan_post|]. intros moff _ Hmoff. simpl in Hmoff.
    case_if; [done|].
    split; simpl; unfold ZACLR_PE_MAX_SECTIONS in *; try done; try lia.
    + split; simpl; lia.
    + intros ? ? ? [= <-]. simplify_eq. lia.
Qed.

(** Parsing the headers of a file of less than 2 GiB, followed in memory by
    two more bytes, never reads outside memory, and on success the metadata root
    and the section table lie inside the file. *)
Theorem pe_headers_inside m bytes :
  slice_ok m bytes -> sl_size bytes < 2 ^ 31 ->
  (forall d, sl_data bytes = Some d -> d + sl_size bytes + 2 <= zlength m) ->
  safe_post (parse_headers m bytes) (pe_image_ok m bytes).
Proof. apply parse_headers_post. Qed.

(** C40: the whole parser is safe on a file whose metadata satisfies [image_ok]
    and whose heaps satisfy [heaps_ok]. *)
Theorem pe_image_parse_safe m bytes :
  slice_ok m bytes -> sl_size bytes < 2 ^ 31 ->
  (forall d, sl_data bytes = Some d -> d + sl_size bytes + 2 <= zlength m) ->
  (forall image, parse_headers m bytes = Ret image -> image_ok m (pe_metadata_root image) /\
     forall r, zaclr_metadata_reader_initialize m (pe_metadata_root image) = Ret r -> heaps_ok m r) ->
  safe_post (zaclr_pe_image_parse m bytes) (pe_image_ok m bytes).
Proof.
  intros Hs Hsz Hpad Hmeta. unfold zaclr_pe_image_parse.
  step; [by apply parse_headers_post|]. intros image Hi Hok. destruct (Hmeta image Hi) as [Hio Hnul].
  step; [apply or_else_post, initialize_post, Hio|]. intros r Hr Hrok. simpl in Hrok.
  unfold or_else in Hr.
  destruct (zaclr_metadata_reader_initialize m (pe_metadata_root image)) as [r'| | |] eqn:Er;
    try done. injection Hr as ->.
  step; [apply or_else_post, safe_safe_post, get_assembly_name_safe; [done|by apply Hnul]|].
  intros name _ _. destruct Hok. by split.
Qed.

(** ** A concrete file

    One section at 0x2000 that holds the CLI header and the metadata of
    [MetadataReader.sample_root_bytes]. *)
Definition zeros (n : nat) : memory := replicate n Byte.x00.

Definition sample_file : memory :=
  bytes_of [77; 90] ++ zeros 58 ++ encode_u32 0x40 ++
  bytes_of [80; 69; 0; 0] ++ encode_u16 0x14C ++ encode_u16 1 ++ zeros 12 ++ encode_u16 224 ++
  encode_u16 0 ++
  encode_u16 0x10B ++ zeros 94 ++ zeros 112 ++ encode_u32 0x2000 ++ encode_u32 24 ++ zeros 8 ++
  zeros 8 ++ encode_u32 0x200 ++ encode_u32 0x2000 ++ encode_u32 0x200 ++ encode_u32 0x160 ++
  zeros 16 ++
  zeros 8 ++ encode_u32 0x2018 ++ encode_u32 68 ++ zeros 4 ++ encode_u32 0x06000001 ++
  sample_root_bytes 2.

Definition sample_file_image : memory := sample_file ++ zeros 2.
Definition sample_file_bytes : zaclr_slice := mk_slice (Some 0) (zlength sample_file).

Lemma sample_file_slice : slice_ok sample_file_image sample_file_bytes.
Proof. by split; vm_compute. Qed.

Lemma sample_file_padded d :
  sl_data sample_file_bytes = Some d -> d + sl_size sample_file_bytes + 2 <= zlength sample_file_image.
Proof. intros [= <-]. by vm_compute. Qed.

Lemma pe_headers_inside_witness :
  exists image, parse_headers sample_file_image sample_file_bytes = Ret image /\
    pe_image_ok sample_file_image sample_file_bytes image /\
    pe_metadata_root image = mk_slice (Some 376) 68.
Proof.
  pose proof (pe_headers_inside sample_file_image sample_file_bytes sample_file_slice eq_refl
    sample_file_padded) as H.
  destruct (parse_headers sample_file_image sample_file_bytes) as [image| | |] eqn:E;
    vm_compute in E; try discriminate E.
  exists image. split; [reflexivity|]. split; [exact H|]. injection E as <-. reflexivity.
Defined.

(** The metadata root that the headers of the sample locate. *)
Lemma sample_file_root image :
  parse_headers sample_file_image sample_file_bytes = Ret image ->
  pe_metadata_root image = mk_slice (Some 376) 68.
Proof. vm_compute. by intros [= <-]. Qed.

Lemma sample_file_image_ok : image_ok sample_file_image (mk_slice (Some 376) 68).
Proof.
  split.
  - by split; vm_compute.
  - by vm_compute.
  - exists 444. split; [by vm_compute|]. intros d [= <-]. by vm_compute.
  - intros d v [= <-] Hv.
    assert (read_u32 sample_file_image (376 + 12) = Ret 4) as E by (vm_compute; reflexivity).
    assert (v = 4) as -> by congruence. lia.
  - intros r ts lo hi i n Hr Hts Hlo Hhi Hi Hn.
    assert (sl_data (tilde_stream r) = Some 412) as E.
    { revert Hr. vm_compute. by intros [= <-]. }
    rewrite E in Hts. injection Hts as <-. vm_compute in Hlo, Hhi. injection Hlo as <-. injection Hhi as <-.
    change (0 <= i < 1) in Hi. assert (i = 0) as -> by lia. vm_compute in Hn. injection Hn as <-. done.
Qed.

Lemma pe_image_parse_safe_witness :
  exists image, zaclr_pe_image_parse sample_file_image sample_file_bytes = Ret image /\
    pe_image_ok sample_file_image sample_file_bytes image /\ entry_point_token image = 0x06000001.
Proof.
  pose proof (pe_image_parse_safe sample_file_image sample_file_bytes sample_file_slice eq_refl
    sample_file_padded) as H.
  destruct (zaclr_pe_image_parse sample_file_image sample_file_bytes) as [image| | |] eqn:E;
    vm_compute in E; try discriminate E.
  exists image. split; [reflexivity|]. split; [apply H|injection E as <-; reflexivity].
  intros i Hi. rewrite (sample_file_root i Hi). split; [apply sample_file_image_ok|].
  intros r Hr.
  assert (match zaclr_metadata_reader_initialize sample_file_image (mk_slice (Some 376) 68) with
          | Ret r => (sl_data (strings_heap r), sl_size (blob_heap r)) = (None, 0)
          | _ => True end) as E2 by (vm_compute; reflexivity).
  rewrite Hr in E2. injection E2 as E2 E3. split; [congruence|lia].
Defined.

Definition sample_pe : zaclr_pe_image :=
  mk_pe_image (mk_slice (Some 0) 0x4000) zero_name zero_slice 0 0 0 0 0 0 0 2
    (set (set (replicate 32 (mk_section 0 0 0 0)) 0 (mk_section 0x1000 0x500 0x200 0x600))
         1 (mk_section 0x2000 0x500 0x800 0x600)) 0.

Lemma rva_to_offset_first_section_witness :
  zaclr_pe_image_rva_to_offset sample_pe 0x2010 = Ret 0x810.
Proof.
  apply (rva_to_offset_first_section sample_pe 0x2010 1 (mk_section 0x2000 0x500 0x800 0x600));
    [reflexivity|reflexivity|reflexivity| |reflexivity|simpl; lia|simpl; lia|reflexivity].
  intros j s' Hj. assert (j = 0) as -> by lia. intros [= <-]. reflexivity.
Defined.

(** ** What the parser does not check *)

(** An optional header of size 0 at the very end of the file passes the bounds
    check, and its magic is read behind the file. *)
Lemma optional_magic_read_behind_file :
  let m := bytes_of [77; 90] ++ zeros 58 ++ encode_u32 0x40 ++ bytes_of [80; 69; 0; 0] ++ zeros 20 in
  parse_headers m (mk_slice (Some 0) (zlength m)) = Fault.
Proof. vm_compute. reflexivity. Qed.
