(* ===== verification/KernelHeap.v ===== *)
(** * The kernel allocator, as its clients see it

    [kernel_alloc] and [kernel_free] of [kernel/support/kernel_memory.c]: the
    interface the runtime allocates through.  A client's theorems are proved
    against [KernelHeapLaws], which says of an allocator state which blocks are
    live; the allocator at the end is a small implementation that discharges
    the laws, used to evaluate examples.  Pointers are addresses, 0 is [NULL]. *)

From S2P Require Import Prelude.

Class KernelHeap (K : Type) := {
  kernel_alloc : K -> Z -> Z * K;
  kernel_free : K -> Z -> K;
  live : K -> gset Z }.

Class KernelHeapLaws (K : Type) `{KernelHeap K} : Prop := {
  null_not_live k : 0 ∉ live k;
  alloc_spec k size p k' :
    kernel_alloc k size = (p, k') ->
    (p = 0 /\ live k' = live k) \/ (p <> 0 /\ (p ∉ live k) /\ live k' = {[p]} ∪ live k);
  free_spec k p : live (kernel_free k p) = live k ∖ {[p]} }.

(** Sets of live blocks after an allocation followed by a release. *)
Lemma live_swap (L : gset Z) p b :
  p ∉ L -> b ∈ L -> ({[p]} ∪ L) ∖ {[b]} = {[p]} ∪ (L ∖ {[b]}).
Proof. set_solver. Qed.

Lemma live_drop_null (L : gset Z) b : b ∉ L -> L ∖ {[b]} = L.
Proof. set_solver. Qed.

(** ** A small allocator

    It hands out a block that is not live, until its budget of blocks is spent. *)

Record small_heap := mk_small_heap { blocks_left : nat; allocated : gset positive }.

#[global] Instance small_kernel_heap : KernelHeap small_heap := {
  kernel_alloc k _ :=
    match blocks_left k with
    | O => (0, k)
    | S n => let p := fresh (allocated k) in (Zpos p, mk_small_heap n ({[p]} ∪ allocated k))
    end;
  kernel_free k p :=
    match p with
    | Zpos q => mk_small_heap (blocks_left k) (allocated k ∖ {[q]})
    | _ => k
    end;
  live k := set_map Zpos (allocated k) }.

#[global] Instance small_kernel_heap_laws : KernelHeapLaws small_heap.
Proof.
  split.
  - intros k. simpl. set_solver.
  - intros k size p k'. simpl. destruct (blocks_left k) as [|n]; intros [= <- <-]; [by left|].
    right. simpl. pose proof (is_fresh (allocated k)). set_solver.
  - intros k p. destruct p as [|q|q]; simpl; set_solver.
Qed.
