(* ===== verification/HandleTable.v ===== *)
(** * GC handle tables

    [zaclr/process/zaclr_handle_table.cpp]: the growable table of GC handles of a
    process.  The table is a [Record] that holds the address of its entry buffer
    (0 is [NULL]) and the contents of the buffer; the operations pass the state of
    the kernel heap and of the table and return an [outcome] with the new state.
    An access to an entry outside the buffer is a [Fault].  The structure pointers
    of the C functions are never [NULL] at their call sites; their tests have no
    counterpart. *)

From S2P Require Import Prelude Status KernelHeap.

Definition ZACLR_GC_HANDLE_KIND_STRONG : Z := 0.
Definition ZACLR_GC_HANDLE_KIND_WEAK : Z := 1.
Definition ZACLR_GC_HANDLE_KIND_WEAK_TRACK_RESURRECTION : Z := 2.
Definition ZACLR_GC_HANDLE_KIND_PINNED : Z := 3.
Definition ZACLR_GC_HANDLE_ENTRY_FLAG_ALLOCATED : Z := 0x01.

Record zaclr_gc_handle_entry := mk_entry {
  he_handle : Z; he_kind : Z; he_flags : Z; he_reserved : Z }.

Record zaclr_handle_table := mk_handle_table {
  ht_id : Z;
  ht_buffer : Z;
  ht_entries : list zaclr_gc_handle_entry;
  ht_count : Z;
  ht_capacity : Z;
  ht_flags : Z }.

#[global] Instance zaclr_gc_handle_entry_eq_dec : EqDecision zaclr_gc_handle_entry.
Proof. solve_decision. Defined.

Definition process_error (s : zaclr_status) : zaclr_result :=
  zaclr_result_make s ZACLR_STATUS_CATEGORY_PROCESS.

(** The all-zero entry of [kernel_memset], and [sizeof(zaclr_gc_handle_entry)]. *)
Definition zero_entry : zaclr_gc_handle_entry := mk_entry 0 0 0 0.
Definition sizeof_entry : Z := 16.

Definition entry_allocated (e : zaclr_gc_handle_entry) : bool :=
  flag_set (he_flags e) ZACLR_GC_HANDLE_ENTRY_FLAG_ALLOCATED.

(** ** The operations *)

(** The loop of [store_ex] over the entries in use, from index [i] with the
    first free slot seen so far: the slot of an equal entry, or the first free
    slot ([UINT32_MAX] for none). *)
Fixpoint scan_entries (l : list zaclr_gc_handle_entry) (i free_index handle kind : Z)
  : option Z * Z :=
  match l with
  | [] => (None, free_index)
  | e :: l =>
    if negb (entry_allocated e) then
      scan_entries l (i + 1) (if free_index =? UINT32_MAX then i else free_index) handle kind
    else if negb (handle =? 0) && (he_handle e =? handle) && (he_kind e =? kind) then
      (Some i, free_index)
    else scan_entries l (i + 1) free_index handle kind
  end.

Definition new_entry (handle kind : Z) : zaclr_gc_handle_entry :=
  mk_entry handle (u8 kind) ZACLR_GC_HANDLE_ENTRY_FLAG_ALLOCATED 0.

Section operations.
Context {K : Type} `{KernelHeap K}.

Definition zaclr_handle_table_initialize (k : K) (id capacity : Z)
  : outcome unit * (K * zaclr_handle_table) :=
  if capacity =? 0 then (Ret (), (k, mk_handle_table id 0 [] 0 0 0))
  else
    let '(p, k) := kernel_alloc k (sizeof_entry * capacity) in
    if p =? 0 then
      (Err (process_error ZACLR_STATUS_OUT_OF_MEMORY), (k, mk_handle_table id 0 [] 0 capacity 0))
    else (Ret (), (k, mk_handle_table id p (replicate (Z.to_nat capacity) zero_entry) 0 capacity 0)).

Definition zaclr_handle_table_reset (k : K) (t : zaclr_handle_table) : K * zaclr_handle_table :=
  let k := if ht_buffer t =? 0 then k else kernel_free k (ht_buffer t) in
  (k, mk_handle_table 0 0 [] 0 0 0).

Definition zaclr_handle_table_grow (k : K) (t : zaclr_handle_table)
  : outcome unit * (K * zaclr_handle_table) :=
  let new_capacity := if ht_capacity t =? 0 then 8 else u32 (ht_capacity t * 2) in
  if new_capacity <=? ht_capacity t then
    (Err (process_error ZACLR_STATUS_BUFFER_TOO_SMALL), (k, t))
  else
    let '(new_entries, k) := kernel_alloc k (sizeof_entry * new_capacity) in
    if new_entries =? 0 then (Err (process_error ZACLR_STATUS_OUT_OF_MEMORY), (k, t))
    else
      let zeroed := replicate (Z.to_nat new_capacity) zero_entry in
      let contents :=
        if negb (ht_buffer t =? 0) && negb (ht_count t =? 0)
        then take (Z.to_nat (ht_count t)) (ht_entries t) ++ drop (Z.to_nat (ht_count t)) zeroed
        else zeroed in
      let k := if ht_buffer t =? 0 then k else kernel_free k (ht_buffer t) in
      (Ret (), (k, mk_handle_table (ht_id t) new_entries contents (ht_count t) new_capacity (ht_flags t))).

(** [table->entries[index] = ...]. *)
Definition write_entry (t : zaclr_handle_table) (index : Z) (e : zaclr_gc_handle_entry)
  : outcome zaclr_handle_table :=
  match ht_entries t .@ index with
  | None => Fault
  | Some _ => Ret (mk_handle_table (ht_id t) (ht_buffer t) (set (ht_entries t) index e) (ht_count t)
                     (ht_capacity t) (ht_flags t))
  end.

(** The end of [store_ex]: append at [count]. *)
Definition append_entry (k : K) (t : zaclr_handle_table) (e : zaclr_gc_handle_entry)
  : outcome Z * (K * zaclr_handle_table) :=
  match write_entry t (ht_count t) e with
  | Ret t' => (Ret (ht_count t),
               (k, mk_handle_table (ht_id t') (ht_buffer t') (ht_entries t') (u32 (ht_count t' + 1))
                     (ht_capacity t') (ht_flags t')))
  | _ => (Fault, (k, t))
  end.

Definition zaclr_handle_table_store_ex (k : K) (t : zaclr_handle_table) (handle kind : Z)
  : outcome Z * (K * zaclr_handle_table) :=
  let used := take (Z.to_nat (ht_count t)) (ht_entries t) in
  if zlength used <? ht_count t then (Fault, (k, t)) else
  match scan_entries used 0 UINT32_MAX handle kind with
  | (Some index, _) => (Ret index, (k, t))
  | (None, free_index) =>
    if negb (free_index =? UINT32_MAX) then
      match write_entry t free_index (new_entry handle kind) with
      | Ret t' => (Ret free_index, (k, t'))
      | _ => (Fault, (k, t))
      end
    else if (ht_buffer t =? 0) || (ht_capacity t <=? ht_count t) then
      match zaclr_handle_table_grow k t with
      | (Ret _, (k, t)) => append_entry k t (new_entry handle kind)
      | (Err r, s) => (Err r, s)
      | (_, s) => (Fault, s)
      end
    else append_entry k t (new_entry handle kind)
  end.

Definition zaclr_handle_table_store (k : K) (t : zaclr_handle_table) (handle : Z)
  : outcome Z * (K * zaclr_handle_table) :=
  zaclr_handle_table_store_ex k t handle ZACLR_GC_HANDLE_KIND_STRONG.

End operations.

Definition zaclr_handle_table_load_entry (t : zaclr_handle_table) (index : Z)
  : outcome zaclr_gc_handle_entry :=
  if ht_count t <=? index then Err (process_error ZACLR_STATUS_INVALID_ARGUMENT)
  else match ht_entries t .@ index with
       | None => Fault
       | Some e => if entry_allocated e then Ret e
                   else Err (process_error ZACLR_STATUS_NOT_FOUND)
       end.

Definition zaclr_handle_table_load (t : zaclr_handle_table) (index : Z) : outcome Z :=
  if ht_count t <=? index then Err (process_error ZACLR_STATUS_INVALID_ARGUMENT)
  else match ht_entries t .@ index with
       | None => Fault
       | Some e => if entry_allocated e then Ret (he_handle e)
                   else Err (process_error ZACLR_STATUS_NOT_FOUND)
       end.

Definition zaclr_handle_table_count (t : option zaclr_handle_table) : Z :=
  match t with Some t => ht_count t | None => 0 end.

Definition zaclr_handle_table_capacity (t : option zaclr_handle_table) : Z :=
  match t with Some t => ht_capacity t | None => 0 end.

(** ** The invariant *)

(** The live entries of a table: allocated and below the count. *)
Definition live_entry (t : zaclr_handle_table) (i : Z) (e : zaclr_gc_handle_entry) : Prop :=
  i < ht_count t /\ ht_entries t .@ i = Some e /\ entry_allocated e = true.

Record table_ok {K} `{KernelHeap K} (k : K) (t : zaclr_handle_table) : Prop := {
  tk_capacity : 0 <= ht_capacity t < 2 ^ 32;
  tk_null : ht_buffer t = 0 -> ht_entries t = [] /\ ht_count t = 0;
  tk_buffer : ht_buffer t <> 0 ->
    ht_buffer t ∈ live k /\ zlength (ht_entries t) = ht_capacity t /\ ht_count t <= ht_capacity t;
  tk_count : 0 <= ht_count t;
  tk_unique i j e1 e2 : live_entry t i e1 -> live_entry t j e2 ->
    he_handle e1 = he_handle e2 -> he_kind e1 = he_kind e2 -> he_handle e1 <> 0 -> i = j }.

Lemma new_entry_allocated h kind : entry_allocated (new_entry h kind) = true.
Proof. reflexivity. Qed.

(** What the scan of [store_ex] finds. *)
Lemma scan_entries_spec l i free h kind :
  0 <= i -> i + zlength l <= UINT32_MAX ->
  match scan_entries l i free h kind with
  | (Some j, _) => h <> 0 /\ i <= j /\ exists e, l .@ (j - i) = Some e /\
      entry_allocated e = true /\ he_handle e = h /\ he_kind e = kind
  | (None, f) =>
      (h <> 0 -> forall e, e ∈ l -> entry_allocated e = true -> he_handle e = h -> he_kind e <> kind) /\
      (f = free /\ (free = UINT32_MAX -> forall e, e ∈ l -> entry_allocated e = true) \/
       free = UINT32_MAX /\ i <= f /\ exists e, l .@ (f - i) = Some e /\ entry_allocated e = false)
  end.
Proof.
  revert i free. induction l as [|e l IH]; intros i free Hi Hlen; simpl.
  { split; [intros _ e He; by apply elem_of_nil in He|]. left. split; [done|].
    intros _ e He. by apply elem_of_nil in He. }
  rewrite zlength_cons in Hlen. pose proof (zlength_nonneg l).
  assert (forall j x, i + 1 <= j -> l .@ (j - (i + 1)) = Some x -> (e :: l) .@ (j - i) = Some x) as Hshift.
  { intros j x Hj Hx. unfold get in *. case_if_in Hx; [done|]. case_if; [lia|].
    by replace (Z.to_nat (j - i)) with (S (Z.to_nat (j - (i + 1)))) by lia. }
  destruct (entry_allocated e) eqn:He; simpl negb; cbv iota.
  - case_if.
    + split; [done|]. split; [lia|]. exists e. rewrite Z.sub_diag. done.
    + specialize (IH (i + 1) free ltac:(lia) ltac:(lia)).
      destruct (scan_entries l (i + 1) free h kind) as [[j|] f].
      * destruct IH as (? & ? & x & Hx & ?). split; [done|]. split; [lia|]. exists x.
        split; [apply Hshift; [lia|done]|done].
      * destruct IH as [Hno Hf]. split.
        -- intros Hh x [->|Hx]%elem_of_cons; [|by apply Hno]. intros _ Hhx Hk.
           destruct (Z.eqb_spec h 0), (Z.eqb_spec (he_handle e) h), (Z.eqb_spec (he_kind e) kind);
             simpl in *; congruence.
        -- destruct Hf as [[-> Hall]|(? & ? & x & Hx & ?)].
           ++ left. split; [done|]. intros Hm x [->|Hx]%elem_of_cons; [done|by apply Hall].
           ++ right. split; [done|]. split; [lia|]. exists x. split; [apply Hshift; [lia|done]|done].
  - specialize (IH (i + 1) (if free =? UINT32_MAX then i else free) ltac:(lia) ltac:(lia)).
    destruct (scan_entries l (i + 1) _ h kind) as [[j|] f].
    + destruct IH as (? & ? & x & Hx & ?). split; [done|]. split; [lia|]. exists x.
      split; [apply Hshift; [lia|done]|done].
    + destruct IH as [Hno Hf]. split.
      * intros Hh x [->|Hx]%elem_of_cons; [congruence|by apply Hno].
      * destruct (Z.eqb_spec free UINT32_MAX) as [->|Hne].
        -- right. split; [done|]. destruct Hf as [[-> _]|(-> & Hf)]; [|lia].
           split; [lia|]. exists e. by rewrite Z.sub_diag.
        -- destruct Hf as [[-> _]|(-> & _)]; [|done]. by left.
Qed.

(** The entries in use, as the scan sees them. *)
Lemma used_entries {K} `{KernelHeap K} (k : K) t :
  table_ok k t ->
  zlength (take (Z.to_nat (ht_count t)) (ht_entries t)) = ht_count t /\
  ht_count t <= UINT32_MAX /\
  forall i, 0 <= i < ht_count t ->
    take (Z.to_nat (ht_count t)) (ht_entries t) .@ i = ht_entries t .@ i.
Proof.
  intros [Hc Hn Hb Hct _]. unfold zlength, UINT32_MAX in *.
  rewrite length_take. destruct (Z.eq_dec (ht_buffer t) 0) as [E|E].
  - destruct (Hn E) as [-> ->]. simpl. split; [done|]. split; lia.
  - destruct (Hb E) as (_ & Hl & Hle). split; [lia|]. split; [lia|].
    intros i Hi. unfold get. case_if; [lia|]. apply lookup_take_lt. lia.
Qed.

Section facts.
Context {K : Type} `{KernelHeapLaws K}.
Implicit Types (k : K) (t : zaclr_handle_table).

(** [t'] has the live entries of [t] and, at [i], a new one. *)
Definition stored (t t' : zaclr_handle_table) (i h kind : Z) : Prop :=
  live_entry t' i (new_entry h kind) /\
  (forall j e, j <> i -> live_entry t' j e <-> live_entry t j e) /\
  ht_id t' = ht_id t /\ ht_buffer t' = ht_buffer t.

Definition no_equal_entry (t : zaclr_handle_table) (h kind : Z) : Prop :=
  h <> 0 -> forall j e, live_entry t j e -> he_handle e = h -> he_kind e <> kind.

(** Writing a new entry into a slot that is not live, or just behind the last. *)
Lemma put_entry k t i h kind :
  table_ok k t -> ht_buffer t <> 0 -> 0 <= i < ht_capacity t -> i <= ht_count t ->
  0 <= kind < 256 -> no_equal_entry t h kind ->
  (forall e, i < ht_count t -> ht_entries t .@ i = Some e -> entry_allocated e = false) ->
  let t' := mk_handle_table (ht_id t) (ht_buffer t) (set (ht_entries t) i (new_entry h kind))
              (Z.max (ht_count t) (i + 1)) (ht_capacity t) (ht_flags t) in
  table_ok k t' /\ stored t t' i h kind.
Proof.
  intros Hok Hb Hi Hic Hk Hno Hslot t'. pose proof Hok as Hok'.
  destruct Hok' as [Hc Hn Hbuf Hct Hu]. destruct (Hbuf Hb) as (Hl & Hlen & Hle).
  assert (live_entry t' i (new_entry h kind)) as Hnew.
  { split; [simpl; lia|]. split; [simpl; apply get_set_eq; lia|done]. }
  assert (forall j e, j <> i -> live_entry t' j e <-> live_entry t j e) as Hother.
  { intros j e Hj. unfold live_entry, t'. simpl. rewrite get_set_ne by done.
    split; intros (? & ? & ?); (split; [|done]); [|lia].
    destruct (Z.eq_dec i (ht_count t)); lia. }
  split; [|by split].
  split; simpl; try done; try lia; [rewrite zlength_set; intros _; repeat split; try done; lia|].
  intros j1 j2 e1 e2 H1 H2 Eh Ek Hne.
  assert (forall e, live_entry t' i e -> e = new_entry h kind) as Hinew.
  { intros e (_ & He & _). unfold t' in He. simpl in He. rewrite get_set_eq in He by lia. congruence. }
  destruct (Z.eq_dec j1 i) as [->|N1], (Z.eq_dec j2 i) as [->|N2]; [done| | |].
  - apply Hinew in H1 as ->. apply Hother in H2; [|done]. simpl in *. rewrite u8_id in Ek by done.
    by destruct (Hno Hne j2 e2 H2).
  - apply Hinew in H2 as ->. apply Hother in H1; [|done]. simpl in *. rewrite u8_id in Ek by done.
    destruct (Hno ltac:(congruence) j1 e1 H1); congruence.
  - apply Hother in H1, H2; try done. by eapply Hu.
Qed.

Lemma grow_spec k t :
  table_ok k t -> (ht_buffer t = 0 \/ ht_capacity t <= ht_count t) ->
  match zaclr_handle_table_grow k t with
  | (Ret _, (k', t')) =>
    table_ok k' t' /\ ht_buffer t' <> 0 /\ ht_count t' = ht_count t /\ ht_id t' = ht_id t /\
    ht_count t' < ht_capacity t' /\ (forall i, i < ht_count t -> ht_entries t' .@ i = ht_entries t .@ i) /\
    live k' = {[ht_buffer t']} ∪ (live k ∖ {[ht_buffer t]}) /\ (ht_buffer t' ∉ live k)
  | (Err r, (k', t')) => t' = t /\ live k' = live k /\
    r ∈ [process_error ZACLR_STATUS_BUFFER_TOO_SMALL; process_error ZACLR_STATUS_OUT_OF_MEMORY]
  | _ => False
  end.
Proof.
  intros Hok Hfull. pose proof Hok as [Hc Hn Hb Hct Hu]. unfold zaclr_handle_table_grow. cbv zeta.
  case_if; [simpl; split; [done|]; split; [done|]; by left|].
  destruct (kernel_alloc k _) as [p k'] eqn:Ha. apply alloc_spec in Ha.
  case_if; [destruct Ha as [[_ Hl]|[? _]]; [|done]; split; [done|]; split; [done|]; by right; left|].
  destruct Ha as [[? _]|(Hp & Hfresh & Hl)]; [done|].
  set (cap := if ht_capacity t =? 0 then 8 else u32 (ht_capacity t * 2)) in *.
  assert (0 <= cap < 2 ^ 32) as Hcap by (unfold cap; case_if; [lia|apply u32_range]).
  set (contents := if _ && _ then _ else _).
  assert (zlength contents = cap /\ forall i, i < ht_count t -> contents .@ i = ht_entries t .@ i)
    as [Hcl Hce].
  { unfold contents. destruct (Z.eq_dec (ht_buffer t) 0) as [E|E].
    - rewrite E. simpl. split; [unfold zlength; rewrite length_replicate; lia|].
      destruct (Hn E) as [-> ->]. intros i Hi. unfold get. by case_if; [|lia].
    - destruct (Hb E) as (_ & Hlen & Hle). rewrite (proj2 (Z.eqb_neq _ _) E). simpl.
      destruct (Z.eqb_spec (ht_count t) 0) as [E0|E0]; simpl.
      + split; [unfold zlength; rewrite length_replicate; lia|].
        intros i Hi. unfold get. by case_if; [|lia].
      + unfold zlength in *. rewrite length_app, length_take, length_drop, length_replicate.
        split; [lia|]. intros i Hi. unfold get. case_if; [done|].
        rewrite lookup_app_l by (rewrite length_take; lia). apply lookup_take_lt. lia. }
  assert (live (if ht_buffer t =? 0 then k' else kernel_free k' (ht_buffer t))
          = {[p]} ∪ (live k ∖ {[ht_buffer t]})) as Hlive.
  { pose proof (null_not_live k). case_if.
    - rewrite Hl, live_drop_null by congruence. done.
    - rewrite free_spec, Hl. destruct (Hb ltac:(done)) as [? _]. by rewrite live_swap. }
  split; [|simpl; repeat split; try done].
  - split; cbn [ht_capacity ht_buffer ht_entries ht_count].
    + lia.
    + done.
    + intros _. rewrite Hlive, Hcl. split; [apply elem_of_union_l, elem_of_singleton_2; done|].
      split; [done|]. destruct (Z.eq_dec (ht_buffer t) 0) as [E|E];
        [destruct (Hn E); lia|destruct (Hb E); lia].
    + done.
    + intros i j e1 e2. unfold live_entry. simpl. intros (Hi1 & Hi2 & Hi3) (Hj1 & Hj2 & Hj3).
      rewrite Hce in Hi2, Hj2 by done. by apply Hu.
  - destruct (Z.eq_dec (ht_buffer t) 0) as [E|E]; [destruct (Hn E) as [_ ->]; lia|].
    destruct (Hb E) as (_ & _ & ?). lia.
Qed.

(** What [store_ex] does, on every branch. *)
Definition store_post (k : K) (t : zaclr_handle_table) (h kind : Z) (o : outcome Z)
    (k' : K) (t' : zaclr_handle_table) : Prop :=
  match o with
  | Ret i =>
    table_ok k' t' /\ ht_id t' = ht_id t /\
    (exists e, live_entry t' i e /\ he_handle e = h /\ he_kind e = kind) /\
    (forall j e, j <> i -> live_entry t' j e <-> live_entry t j e) /\
    (forall e, live_entry t i e -> t' = t)
  | Err r => t' = t /\ live k' = live k /\
    r ∈ [process_error ZACLR_STATUS_BUFFER_TOO_SMALL; process_error ZACLR_STATUS_OUT_OF_MEMORY]
  | _ => False
  end.

Lemma stored_post k k' t t0 t' i h kind :
  table_ok k' t' -> stored t0 t' i h kind -> 0 <= kind < 256 -> ht_id t0 = ht_id t ->
  (forall j e, live_entry t0 j e <-> live_entry t j e) -> (forall e, ~ live_entry t i e) ->
  store_post k t h kind (Ret i) k' t'.
Proof.
  intros Hok (Hnew & Hother & Hid & _) Hk Hid0 Hsame Hi. simpl. split; [done|]. split; [congruence|].
  split; [exists (new_entry h kind); split; [done|]; simpl; by rewrite u8_id|].
  split; [intros j e Hj; by rewrite Hother|]. intros e He. by destruct (Hi e).
Qed.

Lemma append_entry_post k t k0 t0 h kind :
  table_ok k0 t0 -> ht_buffer t0 <> 0 -> ht_count t0 < ht_capacity t0 -> 0 <= kind < 256 ->
  no_equal_entry t0 h kind -> ht_id t0 = ht_id t -> ht_count t0 = ht_count t ->
  (forall j e, live_entry t0 j e <-> live_entry t j e) ->
  let '(o, (k', t')) := append_entry k0 t0 (new_entry h kind) in
  store_post k t h kind o k' t' /\ k' = k0.
Proof.
  intros Hok Hb Hc Hk Hno Hid Hcnt Hsame. pose proof (tk_count _ _ Hok).
  pose proof (tk_capacity _ _ Hok). destruct (tk_buffer _ _ Hok Hb) as (_ & Hl & _).
  unfold append_entry, write_entry.
  destruct (get_Some (ht_entries t0) (ht_count t0)) as [e ->]; [lia|].
  cbn [ht_id ht_buffer ht_entries ht_count ht_capacity ht_flags]. rewrite u32_id by lia.
  destruct (put_entry k0 t0 (ht_count t0) h kind) as [Hok' Hst]; try done; [intros; lia|].
  rewrite Z.max_r in Hok', Hst by lia. split; [|done].
  eapply stored_post; try done. intros e' He'. apply Hsame in He' as [? _]. lia.
Qed.

Lemma store_ex_post k t h kind :
  table_ok k t -> 0 <= kind < 256 ->
  let '(o, (k', t')) := zaclr_handle_table_store_ex k t h kind in store_post k t h kind o k' t'.
Proof.
  intros Hok Hk. destruct (used_entries k t Hok) as (Hul & Hum & Hue).
  unfold zaclr_handle_table_store_ex. cbv zeta. rewrite Hul, Z.ltb_irrefl.
  pose proof (scan_entries_spec (take (Z.to_nat (ht_count t)) (ht_entries t)) 0 UINT32_MAX h kind
    ltac:(lia) ltac:(lia)) as Hscan.
  destruct (scan_entries _ 0 UINT32_MAX h kind) as [[i|] f].
  - destruct Hscan as (Hh & Hi & e & He & Ha & Hhe & Hke). rewrite Z.sub_0_r in He.
    pose proof (get_Some_range _ _ _ He) as Hr. rewrite Hul in Hr. rewrite Hue in He by done.
    simpl. split; [done|]. split; [done|]. split; [exists e; by split; [split; [lia|]|]|].
    split; [by intros|done].
  - destruct Hscan as [Hno Hf].
    assert (no_equal_entry t h kind) as Hne.
    { intros Hh j e (Hj & He & Ha) Hhe. apply Hno; try done. apply (get_In _ j).
      pose proof (get_Some_range _ _ _ He). by rewrite Hue by lia. }
    destruct (Z.eqb_spec f UINT32_MAX) as [->|Hfm]; simpl negb; cbv iota.
    + destruct ((ht_buffer t =? 0) || (ht_capacity t <=? ht_count t)) eqn:Hfull.
      * assert (ht_buffer t = 0 \/ ht_capacity t <= ht_count t) as Hfl.
        { apply orb_true_iff in Hfull as [?|?]; bool_cases; [by left|by right]. }
        pose proof (grow_spec k t Hok Hfl) as Hg.
        destruct (zaclr_handle_table_grow k t) as [[u|r| |] [k1 t1]]; try done.
        destruct Hg as (Hok1 & Hb1 & Hc1 & Hid1 & Hlt & Hsame & _ & _).
        assert (forall j e, live_entry t1 j e <-> live_entry t j e) as Hl.
        { intros j e. unfold live_entry. rewrite Hc1. split; intros (Hj & He & Ha);
            (split; [done|]; split; [|done]); [by rewrite <- Hsame|by rewrite Hsame]. }
        pose proof (append_entry_post k t k1 t1 h kind Hok1 Hb1 Hlt Hk) as Ha.
        destruct (append_entry k1 t1 (new_entry h kind)) as [o [k2 t2]]. apply Ha; try done.
        intros Hh j e He. apply Hl in He. by apply Hne with j.
      * apply orb_false_iff in Hfull as [Hb0 Hc0]. bool_cases.
        pose proof (append_entry_post k t k t h kind Hok Hb0 Hc0 Hk Hne) as Ha.
        destruct (append_entry k t (new_entry h kind)) as [o [k2 t2]]. by apply Ha.
    + destruct Hf as [[-> _]|(_ & Hf0 & e & He & Ha)]; [done|]. rewrite Z.sub_0_r in He.
      pose proof (get_Some_range _ _ _ He) as Hr. rewrite Hul in Hr. rewrite Hue in He by done.
      assert (ht_buffer t <> 0) as Hb.
      { intros E. destruct (tk_null _ _ Hok E) as [_ E0]. lia. }
      destruct (tk_buffer _ _ Hok Hb) as (_ & Hlen & Hle).
      unfold write_entry. rewrite He.
      destruct (put_entry k t f h kind) as [Hok' Hst]; try done; [lia|lia| |].
      { intros e' _ He'. congruence. }
      rewrite Z.max_l in Hok', Hst by lia.
      eapply stored_post; try done. intros e' (_ & He' & Ha'). congruence.
Qed.

(** The buffer of a table that was stored into: the old one, or a fresh one in its
    place. *)
Definition buffer_moved (k : K) (t : zaclr_handle_table) (k' : K) (t' : zaclr_handle_table) : Prop :=
  (ht_buffer t' = ht_buffer t /\ live k' = live k) \/
  ((ht_buffer t' ∉ live k) /\ live k' = {[ht_buffer t']} ∪ (live k ∖ {[ht_buffer t]})).

(** Each slot in use but the one that is answered holds what it held before. *)
Definition other_slots_kept (t t' : zaclr_handle_table) (i : Z) : Prop :=
  forall j e, j <> i -> j < ht_count t' -> ht_entries t' .@ j = Some e ->
    j < ht_count t /\ ht_entries t .@ j = Some e.

Lemma append_entry_frame k t e i k' t' :
  table_ok k t -> ht_count t < ht_capacity t -> append_entry k t e = (Ret i, (k', t')) ->
  k' = k /\ ht_buffer t' = ht_buffer t /\ other_slots_kept t t' i.
Proof.
  intros Hok Hc. unfold append_entry, write_entry.
  pose proof (tk_capacity _ _ Hok). pose proof (tk_count _ _ Hok).
  destruct (ht_entries t .@ (ht_count t)); [|done]. simpl. rewrite u32_id by lia.
  intros [= <- <- <-]. split; [done|]. split; [done|]. intros j x Hj Hlt. simpl in *.
  rewrite get_set_ne by done. intros Hx. split; [lia|done].
Qed.

Lemma store_ex_frame k t h kind i k' t' :
  table_ok k t -> zaclr_handle_table_store_ex k t h kind = (Ret i, (k', t')) ->
  buffer_moved k t k' t' /\ other_slots_kept t t' i.
Proof.
  intros Hok. unfold zaclr_handle_table_store_ex. cbv zeta. case_if; [done|].
  destruct (scan_entries _ 0 UINT32_MAX h kind) as [[j|] f].
  { intros [= <- <- <-]. split; [by left|]. by intros j' e _. }
  destruct (Z.eqb_spec f UINT32_MAX) as [->|Hf]; cbn [negb]; [|].
  - destruct ((ht_buffer t =? 0) || (ht_capacity t <=? ht_count t)) eqn:Hfull.
    + assert (ht_buffer t = 0 \/ ht_capacity t <= ht_count t) as Hfl.
      { apply orb_true_iff in Hfull as [?|?]; bool_cases; [by left|by right]. }
      pose proof (grow_spec k t Hok Hfl) as Hg.
      destruct (zaclr_handle_table_grow k t) as [[u|r| |] [k1 t1]]; try done.
      destruct Hg as (Hok1 & _ & Hc1 & _ & Hlt & Hsame & Hl1 & Hfr).
      intros Ha. apply append_entry_frame in Ha as (-> & Hb & Hs); [|done|done].
      split; [right; by rewrite Hb|]. intros j e Hj Hlt' He.
      destruct (Hs j e Hj Hlt' He) as [? He1]. rewrite Hsame in He1 by lia. split; [lia|done].
    + bool_cases. intros Ha. apply append_entry_frame in Ha as (-> & Hb & Hs); [|done|done].
      split; [by left|done].
  - unfold write_entry. destruct (ht_entries t .@ f); [|done]. intros [= <- <- <-].
    split; [by left|]. intros j x Hj Hlt. simpl in *. by rewrite get_set_ne.
Qed.

End facts.

(** ** What clients rely on *)

(** [store_ex] keeps the table well formed (the buffer live and as long as the
    capacity, the count within it, no two live entries with the same non-zero
    handle and kind), never touches an entry outside the buffer, gives a slot that
    holds the stored handle and kind, and leaves every other entry as it was; when
    it fails, the table and the set of live blocks are unchanged and the status is
    BUFFER_TOO_SMALL or OUT_OF_MEMORY. *)
Theorem handle_store_correct {K} `{KernelHeapLaws K} (k : K) t h kind :
  table_ok k t -> 0 <= kind < 256 ->
  let '(o, (k', t')) := zaclr_handle_table_store_ex k t h kind in store_post k t h kind o k' t'.
Proof. apply store_ex_post. Qed.

Lemma load_live t i e :
  live_entry t i e -> zaclr_handle_table_load_entry t i = Ret e /\
                      zaclr_handle_table_load t i = Ret (he_handle e).
Proof.
  intros (Hi & He & Ha). unfold zaclr_handle_table_load_entry, zaclr_handle_table_load.
  destruct (Z.leb_spec (ht_count t) i); [lia|]. by rewrite He, Ha.
Qed.

(** A handle that was stored is loaded back from the slot [store_ex] gave, with
    its kind, and storing the same non-zero handle and kind again gives the same
    slot and changes nothing. *)
Theorem handle_store_load {K} `{KernelHeapLaws K} (k k' : K) t t' h kind i :
  table_ok k t -> 0 <= kind < 256 ->
  zaclr_handle_table_store_ex k t h kind = (Ret i, (k', t')) ->
  zaclr_handle_table_load t' i = Ret h /\
  (exists e, zaclr_handle_table_load_entry t' i = Ret e /\ he_kind e = kind) /\
  (h <> 0 -> zaclr_handle_table_store_ex k' t' h kind = (Ret i, (k', t'))).
Proof.
  intros Hok Hk Hst. pose proof (store_ex_post k t h kind Hok Hk) as Hp. rewrite Hst in Hp.
  destruct Hp as (Hok' & _ & (e & He & <- & <-) & _).
  destruct (load_live t' i e He) as [Hle Hl]. split; [done|]. split; [by exists e|]. intros Hh.
  destruct (used_entries k' t' Hok') as (Hul & Hum & Hue). pose proof He as (Hi & Hie & Ha).
  pose proof (get_Some_range _ _ _ Hie) as Hr.
  unfold zaclr_handle_table_store_ex. cbv zeta. rewrite Hul, Z.ltb_irrefl.
  pose proof (scan_entries_spec (take (Z.to_nat (ht_count t')) (ht_entries t')) 0 UINT32_MAX
    (he_handle e) (he_kind e) ltac:(lia) ltac:(lia)) as Hscan.
  destruct (scan_entries _ 0 UINT32_MAX _ _) as [[j|] f].
  - destruct Hscan as (_ & Hj & e' & He' & Ha' & Hh' & Hk'). rewrite Z.sub_0_r in He'.
    pose proof (get_Some_range _ _ _ He') as Hr'. rewrite Hul in Hr'. rewrite Hue in He' by done.
    assert (j = i) as ->; [|done].
    apply (tk_unique _ _ Hok' j i e' e); try congruence. split; [lia|done].
  - destruct Hscan as [Hno _]. exfalso. apply (Hno Hh e); try done.
    apply (get_In _ i). by rewrite Hue by lia.
Qed.

(** A fresh table is well formed, its buffer is the only block it holds, and
    resetting it gives back exactly that block. *)
Theorem handle_table_lifecycle {K} `{KernelHeapLaws K} (k : K) id capacity :
  0 <= capacity < 2 ^ 32 ->
  let '(o, (k', t)) := zaclr_handle_table_initialize k id capacity in
  table_ok k' t /\ ht_count t = 0 /\ live (zaclr_handle_table_reset k' t).1 = live k /\
  (o = Ret () \/ o = Err (process_error ZACLR_STATUS_OUT_OF_MEMORY) /\ ht_buffer t = 0).
Proof.
  intros Hc. unfold zaclr_handle_table_initialize, zaclr_handle_table_reset. case_if.
  - split; [|by split; [|split; [|left]]].
    split; simpl; try done. intros i j e1 e2 (? & He & _). exfalso. unfold get in He.
    case_if_in He; done.
  - destruct (kernel_alloc k _) as [p k'] eqn:Ha. apply alloc_spec in Ha.
    case_if; (destruct Ha as [[? Hl]|(? & Hf & Hl)]; try done).
    + split; [|by split; [|split; [|right]]].
      split; simpl; try done. intros i j e1 e2 (? & He & _). exfalso. unfold get in He.
      case_if_in He; done.
    + split; [|split; [done|split; [|by left]]].
      * split; simpl; try done; [|].
        -- intros _. rewrite Hl. split; [apply elem_of_union_l, elem_of_singleton_2; done|].
           unfold zlength. rewrite length_replicate. lia.
        -- intros i j e1 e2 (Hi & He & _). apply get_Some_range in He. simpl in *. lia.
      * simpl. rewrite (proj2 (Z.eqb_neq p 0)) by done. simpl. rewrite free_spec, Hl.
        clear -Hf. set_solver.
Qed.

(** ** Concrete tables *)

Definition sample_heap : small_heap := mk_small_heap 5 ∅.
Definition sample_table : zaclr_handle_table := mk_handle_table 7 0 [] 0 0 0.

Lemma sample_table_ok : table_ok sample_heap sample_table.
Proof.
  split; simpl; try done. intros i j e1 e2 (? & He & _). exfalso. unfold get in He.
  case_if_in He; done.
Qed.

Lemma handle_store_correct_witness :
  let '(o, (k', t')) :=
    zaclr_handle_table_store_ex sample_heap sample_table 0x1000 ZACLR_GC_HANDLE_KIND_PINNED in
  o = Ret 0 /\ table_ok k' t'.
Proof.
  pose proof (handle_store_correct sample_heap sample_table 0x1000 ZACLR_GC_HANDLE_KIND_PINNED
    sample_table_ok ltac:(vm_compute; split; congruence)) as Hs.
  destruct (zaclr_handle_table_store_ex sample_heap sample_table 0x1000
    ZACLR_GC_HANDLE_KIND_PINNED) as [o [k' t']] eqn:E.
  assert (o = Ret 0) as -> by (vm_compute in E; congruence).
  split; [reflexivity|]. apply Hs.
Defined.

Lemma handle_store_load_witness :
  exists k' t', zaclr_handle_table_store_ex sample_heap sample_table 0x1000 1 = (Ret 0, (k', t')) /\
    zaclr_handle_table_load t' 0 = Ret 0x1000.
Proof.
  destruct (zaclr_handle_table_store_ex sample_heap sample_table 0x1000 1) as [o [k' t']] eqn:E.
  assert (o = Ret 0) as -> by (vm_compute in E; congruence).
  exists k', t'. split; [reflexivity|].
  apply (handle_store_load sample_heap k' sample_table t' 0x1000 1 0 sample_table_ok
    ltac:(vm_compute; split; congruence) E).
Defined.

Lemma handle_table_lifecycle_witness :
  ht_count (zaclr_handle_table_initialize sample_heap 3 3).2.2 = 0.
Proof.
  pose proof (handle_table_lifecycle sample_heap 3 3 ltac:(lia)) as Hi.
  destruct (zaclr_handle_table_initialize sample_heap 3 3) as [o [k' t]]. apply Hi.
Defined.
