(* ===== verification/MethodMap.v ===== *)
(** * Method maps

    [zaclr/metadata/zaclr_method_map.cpp]: the array of method descriptors of an
    assembly, built from the MethodDef and ImplMap tables.  The map holds the
    address of the array (0 is [NULL]) and its contents. *)

From S2P Require Import Prelude Status Bytes Token Signature MetadataTables MetadataReader KernelHeap.

Definition metadata_error (s : zaclr_status) : zaclr_result :=
  zaclr_result_make s ZACLR_STATUS_CATEGORY_METADATA.

Record zaclr_method_desc := mk_method_desc {
  md_id : Z;
  md_token : zaclr_token;
  md_owning_type_token : zaclr_token;
  md_name : zaclr_name_view;
  md_signature : zaclr_signature_desc;
  md_rva : Z;
  md_impl_flags : Z;
  md_method_flags : Z;
  md_param_list : Z;
  md_flags : Z;
  md_pinvoke_import_name : zaclr_name_view;
  md_pinvoke_module_name : zaclr_name_view }.

Record zaclr_method_map := mk_method_map {
  mm_buffer : Z; mm_methods : list zaclr_method_desc; mm_count : Z; mm_flags : Z }.

Definition sizeof_method_desc : Z := 128.

Definition zero_token : zaclr_token := zaclr_token_make 0.
Definition zero_signature : zaclr_signature_desc :=
  mk_sigdesc zero_slice 0 0 0 0 0 (mk_sigtype 0 zero_token 0 0) 0.
Definition zero_method : zaclr_method_desc :=
  mk_method_desc 0 zero_token zero_token zero_name zero_signature 0 0 0 0 0 zero_name zero_name.

Definition empty_method_map : zaclr_method_map := mk_method_map 0 [] 0 0.

(** ** Building the array *)

(** One iteration of the first loop: the descriptor of a MethodDef row. *)
Definition read_method (m : memory) (reader : zaclr_metadata_reader) (method_index : Z)
    (methods : list zaclr_method_desc) : outcome (list zaclr_method_desc) :=
  row ← zaclr_metadata_reader_get_methoddef_row m reader (u32 (method_index + 1));
  signature_blob ← zaclr_metadata_reader_get_blob m reader (methoddef_signature_blob_index row);
  method_name ← zaclr_metadata_reader_get_string m reader (methoddef_name_index row);
  signature ← parse_method m signature_blob;
  Ret (set methods method_index
         (mk_method_desc (u32 (method_index + 1))
            (token_of ZACLR_TOKEN_TABLE_METHOD (u32 (method_index + 1)))
            zero_token method_name signature (methoddef_rva row) (methoddef_impl_flags row)
            (methoddef_flags row) (methoddef_param_list row) 0 zero_name zero_name)).

Definition set_pinvoke (d : zaclr_method_desc) (import_name module_name : zaclr_name_view)
  : zaclr_method_desc :=
  mk_method_desc (md_id d) (md_token d) (md_owning_type_token d) (md_name d) (md_signature d)
    (md_rva d) (md_impl_flags d) (md_method_flags d) (md_param_list d) (md_flags d)
    import_name module_name.

(** One iteration of the second loop: the ImplMap row [i + 1]. *)
Definition read_implmap (m : memory) (reader : zaclr_metadata_reader) (method_count i : Z)
    (methods : list zaclr_method_desc) : outcome (list zaclr_method_desc) :=
  row ← zaclr_metadata_reader_get_implmap_row m reader (i + 1);
  let forwarded_tag := Z.land (implmap_member_forwarded_coded_index row) 0x1 in
  let forwarded_row := Z.shiftr (implmap_member_forwarded_coded_index row) 1 in
  if negb (forwarded_tag =? 1) || (forwarded_row =? 0) || (method_count <? forwarded_row)
  then Ret methods else
  import_name ← zaclr_metadata_reader_get_string m reader (implmap_import_name_index row);
  moduleref_row ← zaclr_metadata_reader_get_moduleref_row m reader (implmap_import_scope row);
  module_name ← zaclr_metadata_reader_get_string m reader (moduleref_name_index moduleref_row);
  match methods .@ (forwarded_row - 1) with
  | None => Fault
  | Some d => Ret (set methods (forwarded_row - 1) (set_pinvoke d import_name module_name))
  end.

(** Both loops over the zeroed array. *)
Definition read_methods (m : memory) (reader : zaclr_metadata_reader) (method_count : Z)
  : outcome (list zaclr_method_desc) :=
  methods ← for_loop (Z.to_nat method_count) 0 method_count (read_method m reader)
              (replicate (Z.to_nat method_count) zero_method);
  let n := zaclr_metadata_reader_get_row_count (Some reader) 0x1C in
  for_loop (Z.to_nat n) 0 n (read_implmap m reader method_count) methods.

Section operations.
Context {K : Type} `{KernelHeap K}.

Definition zaclr_method_map_initialize (k : K) (m : memory) (reader : zaclr_metadata_reader)
  : outcome unit * (K * zaclr_method_map) :=
  let method_count := zaclr_metadata_reader_get_row_count (Some reader) ZACLR_TOKEN_TABLE_METHOD in
  if method_count =? 0 then (Ret (), (k, empty_method_map)) else
  let '(methods, k) := kernel_alloc k (sizeof_method_desc * method_count) in
  if methods =? 0 then (Err (metadata_error ZACLR_STATUS_OUT_OF_MEMORY), (k, empty_method_map)) else
  match read_methods m reader method_count with
  | Ret l => (Ret (), (k, mk_method_map methods l method_count 0))
  | Err r => (Err r, (kernel_free k methods, empty_method_map))
  | Fault => (Fault, (k, empty_method_map))
  | NoFuel => (NoFuel, (k, empty_method_map))
  end.

Definition zaclr_method_map_reset (k : K) (map : zaclr_method_map) : K * zaclr_method_map :=
  (if mm_buffer map =? 0 then k else kernel_free k (mm_buffer map), empty_method_map).

End operations.

(** The result is the address of a descriptor: its index in the array. *)
Definition zaclr_method_map_find_by_token (map : zaclr_method_map) (token : zaclr_token)
  : option Z :=
  if negb (zaclr_token_matches_table (Some token) ZACLR_TOKEN_TABLE_METHOD) then None else
  let row := zaclr_token_row (Some token) in
  if (row =? 0) || (mm_count map <? row) then None else Some (row - 1).

Definition zaclr_method_flags (method : option zaclr_method_desc) : Z :=
  match method with Some d => md_method_flags d | None => 0 end.

(** ** Well-formed maps *)

(** Descriptor [i] has the id and the token of row [i + 1]. *)
Definition methods_ok (l : list zaclr_method_desc) (n : Z) : Prop :=
  forall i d, 0 <= i < n -> l .@ i = Some d ->
    md_id d = i + 1 /\ md_token d = token_of ZACLR_TOKEN_TABLE_METHOD (i + 1).

Record method_map_ok (map : zaclr_method_map) : Prop := {
  mo_length : zlength (mm_methods map) = mm_count map;
  mo_count : 0 <= mm_count map < 2 ^ 32;
  mo_methods : methods_ok (mm_methods map) (mm_count map) }.

Section reading.
Context (m : memory) (r : zaclr_metadata_reader).
Context (Hr : reader_ok m r) (Hh : heaps_ok m r) (Hblob : slice_ok m (blob_heap r)).

Lemma read_method_post i l n :
  0 <= i < n -> n < 2 ^ 32 -> zlength l = n -> methods_ok l i ->
  safe_post (read_method m r i l) (fun l' => zlength l' = n /\ methods_ok l' (i + 1)).
Proof.
  intros Hi Hn Hl Hok. unfold read_method. rewrite u32_id by lia.
  step; [apply (safe_safe_post _ (get_row_safe (H := methoddef_row_reader) m r (i + 1) Hr ltac:(lia)))|].
  intros row Hrow _. apply (get_row_u32 (H := methoddef_row_reader)) in Hrow.
  unfold to_columns, methoddef_row_reader in Hrow. rewrite !Forall_cons in Hrow. unfold u32_value in Hrow.
  step; [apply get_blob_post; [done|apply Hh|tauto]|]. intros blob _ [Hb (d & o & _ & _ & Ho & Hs)].
  step; [apply safe_safe_post, get_string_safe; [apply Hr|done|tauto]|]. intros name _ _.
  pose proof (ho_blob _ _ Hh).
  assert (blob_ok m blob) as Hbo by (split; [done|lia]).
  destruct (decode_parse_spec (blob_fuel blob)) as [_ Hp].
  step; [apply Hp; [done|unfold blob_fuel; destruct Hb; lia]|]. intros sig _ _. simpl.
  split; [by rewrite zlength_set|]. intros j e Hj He.
  destruct (Z.eq_dec i j) as [<-|].
  - rewrite get_set_eq in He by lia. injection He as <-. done.
  - rewrite get_set_ne in He by done. apply Hok; [lia|done].
Qed.

Lemma read_implmap_post i l n :
  0 <= i -> 0 <= n -> zlength l = n -> methods_ok l n ->
  safe_post (read_implmap m r n i l) (fun l' => zlength l' = n /\ methods_ok l' n).
Proof.
  intros Hi Hn Hl Hok. unfold read_implmap.
  step; [apply (safe_safe_post _ (get_row_safe (H := implmap_row_reader) m r (i + 1) Hr ltac:(lia)))|].
  intros row Hrow _. apply (get_row_u32 (H := implmap_row_reader)) in Hrow.
  unfold to_columns, implmap_row_reader in Hrow. rewrite !Forall_cons in Hrow. unfold u32_value in Hrow. cbv zeta.
  destruct Hrow as (_ & [Hfwd _] & [Himp _] & [Hscope _] & _).
  case_if; [done|]. assert (0 <= Z.shiftr (implmap_member_forwarded_coded_index row) 1)
    by (by apply Z.shiftr_nonneg).
  step; [apply safe_safe_post, get_string_safe; [apply Hr|done|done]|]. intros import _ _.
  step; [apply (safe_safe_post _ (get_row_safe (H := moduleref_row_reader) m r _ Hr Hscope))|].
  intros mr Hmr _. apply (get_row_u32 (H := moduleref_row_reader)) in Hmr.
  unfold to_columns, moduleref_row_reader in Hmr. rewrite !Forall_cons in Hmr. unfold u32_value in Hmr.
  step; [apply safe_safe_post, get_string_safe; [apply Hr|done|tauto]|]. intros module _ _.
  destruct (get_Some l (Z.shiftr (implmap_member_forwarded_coded_index row) 1 - 1)) as [d Hd]; [lia|].
  rewrite Hd. simpl. split; [by rewrite zlength_set|]. intros j e Hj He.
  destruct (Z.eq_dec (Z.shiftr (implmap_member_forwarded_coded_index row) 1 - 1) j) as [E|].
  - rewrite E in *. rewrite get_set_eq in He by lia. injection He as <-. by apply (Hok j d).
  - rewrite get_set_ne in He by done. by apply Hok.
Qed.

Lemma read_methods_post n :
  0 <= n < 2 ^ 32 ->
  safe_post (read_methods m r n) (fun l => zlength l = n /\ methods_ok l n).
Proof.
  intros Hn. unfold read_methods.
  step; [apply (for_loop_safe_post _ (fun i l => zlength l = n /\ methods_ok l i))|].
  - lia.
  - lia.
  - split; [unfold zlength; rewrite length_replicate; lia|]. intros i d Hi. lia.
  - intros j l Hj [Hl Hok]. apply read_method_post; [done|lia|done|done].
  - intros l _ [Hl Hok]. cbv zeta.
    set (k := zaclr_metadata_reader_get_row_count (Some r) 0x1C).
    destruct (Z_le_gt_dec 0 k).
    + apply (for_loop_safe_post _ (fun _ l => zlength l = n /\ methods_ok l n)); [lia|lia|done|].
      intros j l' Hj [Hl' Hok']. apply read_implmap_post; [lia|lia|done|done].
    + replace (Z.to_nat k) with 0%nat by lia. simpl. by destruct (Z.ltb_spec 0 k); [lia|].
Qed.

End reading.

(** What initialisation leaves: a well-formed map that owns one block, or an empty
    map and no block. *)
Definition method_map_post {K} `{KernelHeap K} (k : K) (r : zaclr_metadata_reader)
    (o : outcome unit) (k' : K) (map : zaclr_method_map) : Prop :=
  match o with
  | Ret _ => method_map_ok map /\
      mm_count map = zaclr_metadata_reader_get_row_count (Some r) ZACLR_TOKEN_TABLE_METHOD /\
      live k' = (if mm_count map =? 0 then live k else {[mm_buffer map]} ∪ live k) /\
      (mm_buffer map ∉ live k) /\ (mm_buffer map = 0 <-> mm_count map = 0)
  | Err _ => map = empty_method_map /\ live k' = live k
  | _ => False
  end.

Definition row_counts_fit (r : zaclr_metadata_reader) : Prop :=
  forall t n, row_counts r .@ t = Some n -> 0 <= n < 2 ^ 32.

Lemma get_row_count_range r t :
  row_counts_fit r -> 0 <= zaclr_metadata_reader_get_row_count (Some r) t < 2 ^ 32.
Proof.
  intros Hr. simpl. case_if; [lia|]. destruct (row_counts r .@ t) as [n|] eqn:E; [|done].
  by apply (Hr t n).
Qed.

Lemma method_map_initialize_post {K} `{KernelHeapLaws K} (k : K) m r :
  reader_ok m r -> heaps_ok m r -> row_counts_fit r ->
  let '(o, (k', map)) := zaclr_method_map_initialize k m r in method_map_post k r o k' map.
Proof.
  intros Hr Hh Hfit. unfold zaclr_method_map_initialize. cbv zeta.
  pose proof (get_row_count_range r ZACLR_TOKEN_TABLE_METHOD Hfit) as Hn.
  set (n := zaclr_metadata_reader_get_row_count _ _) in *. case_if.
  - split; [split; [done|done|]; intros i d Hi; simpl in Hi; lia|].
    cbn [empty_method_map mm_count mm_buffer]. split; [by symmetry|]. split; [done|]. split; [apply null_not_live|done].
  - destruct (kernel_alloc k _) as [p k1] eqn:Ha. apply alloc_spec in Ha.
    case_if; [destruct Ha as [[_ Hl]|[? _]]; [by split|done]|].
    destruct Ha as [[? _]|(Hp & Hf & Hl)]; [done|].
    pose proof (read_methods_post m r Hr Hh (ro_blob _ _ Hr) n Hn) as Hpost.
    destruct (read_methods m r n) as [l|e| |]; simpl in Hpost; try done.
    + destruct Hpost as [Hlen Hok]. split; [by split|]. split; [done|].
      cbn [mm_count mm_buffer]. rewrite (proj2 (Z.eqb_neq n 0)) by done. split; [done|]. split; [done|]. split; [done|lia].
    + split; [done|]. rewrite free_spec, Hl. clear -Hf. set_solver.
Qed.

(** Building the method map of a well-formed reader never leaves the image and
    terminates; on success the map has one descriptor per MethodDef row, each with
    its row's id and token, in one freshly allocated block; on any error that block
    is released again. *)
Theorem method_map_initialize_correct {K} `{KernelHeapLaws K} (k : K) m r :
  reader_ok m r -> heaps_ok m r -> row_counts_fit r ->
  let '(o, (k', map)) := zaclr_method_map_initialize k m r in method_map_post k r o k' map.
Proof. apply method_map_initialize_post. Qed.

(** In a well-formed map, the token of MethodDef row [row] finds the descriptor
    with that id, for every row of the map, and no other token finds anything. *)
Theorem method_find_by_token_correct map row :
  method_map_ok map -> 0 < row < 2 ^ 24 ->
  match zaclr_method_map_find_by_token map (token_of ZACLR_TOKEN_TABLE_METHOD row) with
  | Some i => row <= mm_count map /\ exists d, mm_methods map .@ i = Some d /\ md_id d = row /\
                md_token d = token_of ZACLR_TOKEN_TABLE_METHOD row
  | None => mm_count map < row
  end /\
  forall table, 0 <= table < 256 -> table <> ZACLR_TOKEN_TABLE_METHOD ->
    zaclr_method_map_find_by_token map (token_of table row) = None.
Proof.
  intros [Hl Hc Hm] Hrow. unfold zaclr_method_map_find_by_token. split.
  - destruct (token_roundtrip ZACLR_TOKEN_TABLE_METHOD row) as (_ & -> & ->); [done|done|].
    rewrite Z.eqb_refl. simpl negb. cbv iota zeta.
    destruct (Z.eqb_spec row 0); [lia|]. destruct (Z.ltb_spec (mm_count map) row); [done|]. simpl.
    split; [lia|]. destruct (get_Some (mm_methods map) (row - 1)) as [d Hd]; [lia|].
    exists d. destruct (Hm (row - 1) d) as [H1 H2]; [lia|done|].
    rewrite Z.sub_add in H1, H2. done.
  - intros table Ht Hne. destruct (token_roundtrip table row) as (_ & _ & ->); [done|done|].
    by rewrite (proj2 (Z.eqb_neq _ _) Hne).
Qed.

(** ** A concrete image

    One method [void F()] named "F": the string heap, the blob heap and the
    MethodDef table stand one after the other. *)
Definition sample_methods_image : memory :=
  bytes_of [0; 70; 0; 0] ++ bytes_of [0; 3; 0; 0; 1; 0] ++
  encode_u32 0x2050 ++ encode_u16 0 ++ encode_u16 6 ++ encode_u16 1 ++ encode_u16 1 ++ encode_u16 1.

Definition sample_methods_reader : zaclr_metadata_reader :=
  mk_reader zero_slice (mk_slice (Some 0) 4) (mk_slice (Some 4) 6) zero_slice zero_slice 0 0
    (set (replicate 64 (mk_table_view None 0 0)) 6 (mk_table_view (Some 10) 14 1))
    (set (replicate 64 0) 6 1) 0.

Lemma sample_methods_reader_ok : reader_ok sample_methods_image sample_methods_reader.
Proof.
  split; [by split; vm_compute|by split; vm_compute|by split|done|done|done|].
  intros t v Hv. destruct (Z.eq_dec t 6) as [->|Ht].
  - vm_compute in Hv. injection Hv as <-. split; [done|]. simpl rows. cbv iota.
    repeat split; vm_compute; congruence.
  - unfold sample_methods_reader in Hv. cbn [tables] in Hv.
    rewrite get_set_ne in Hv by done. apply get_In in Hv.
    apply elem_of_replicate in Hv as [-> _]. done.
Qed.

Lemma sample_methods_heaps_ok : heaps_ok sample_methods_image sample_methods_reader.
Proof. split; [intros d [= <-]; reflexivity|reflexivity]. Qed.

Lemma sample_methods_counts : row_counts_fit sample_methods_reader.
Proof.
  intros t n Hn. unfold sample_methods_reader in Hn. cbn [row_counts] in Hn.
  destruct (Z.eq_dec t 6) as [->|Ht]; [vm_compute in Hn; injection Hn as <-; lia|].
  rewrite get_set_ne in Hn by done. apply get_In, elem_of_replicate in Hn as [-> _]. lia.
Qed.

Definition sample_method_map : zaclr_method_map :=
  (zaclr_method_map_initialize (mk_small_heap 3 ∅) sample_methods_image sample_methods_reader).2.2.

Lemma method_map_initialize_correct_witness :
  (zaclr_method_map_initialize (mk_small_heap 3 ∅) sample_methods_image sample_methods_reader).1
    = Ret () /\
  method_map_ok sample_method_map /\ mm_count sample_method_map = 1.
Proof.
  pose proof (method_map_initialize_correct (mk_small_heap 3 ∅) _ _ sample_methods_reader_ok
    sample_methods_heaps_ok sample_methods_counts) as H.
  unfold sample_method_map.
  assert ((zaclr_method_map_initialize (mk_small_heap 3 ∅) sample_methods_image
    sample_methods_reader).1 = Ret ()) as E by (vm_compute; reflexivity).
  destruct (zaclr_method_map_initialize (mk_small_heap 3 ∅) _ _) as [o [k' map]].
  simpl in E. subst o. split; [reflexivity|]. destruct H as (Hok & Hc & _).
  split; [exact Hok|exact Hc].
Defined.

Definition sample_map : zaclr_method_map :=
  mk_method_map 1
    [mk_method_desc 1 (token_of ZACLR_TOKEN_TABLE_METHOD 1) zero_token zero_name zero_signature 0 0
       0 0 0 zero_name zero_name] 1 0.

Lemma method_find_by_token_correct_witness :
  zaclr_method_map_find_by_token sample_map (token_of ZACLR_TOKEN_TABLE_METHOD 1) = Some 0 /\
  zaclr_method_map_find_by_token sample_map (token_of ZACLR_TOKEN_TABLE_FIELD 1) = None.
Proof.
  split; [reflexivity|].
  apply (method_find_by_token_correct sample_map 1); [|lia|vm_compute; split; congruence|discriminate].
  split; [reflexivity|simpl; lia|]. intros i d Hi. simpl in Hi. assert (i = 0) as -> by lia.
  intros [= <-]. done.
Defined.
