(* ===== verification/TypeMap.v ===== *)
(** * Type maps

    [zaclr/metadata/zaclr_type_map.cpp]: the array of type descriptors of an
    assembly, built from the TypeDef table.  Each descriptor records the range of
    fields and methods of its type; a second pass writes the token of the owning
    type into the method descriptors.  The console trace of one type is not
    modelled. *)

From Stdlib Require Import Strings.Byte.
From S2P Require Import Prelude Status Bytes Token Signature MetadataTables MetadataReader KernelHeap.
From S2P Require Import MethodMap.

Record zaclr_type_desc := mk_type_desc {
  td_id : Z;
  td_token : zaclr_token;
  td_namespace : zaclr_name_view;
  td_name : zaclr_name_view;
  td_extends : zaclr_token;
  td_field_list : Z;
  td_field_count : Z;
  td_method_list : Z;
  td_first_method_index : Z;
  td_method_count : Z;
  td_flags : Z;
  td_runtime_flags : Z }.

Definition ZACLR_TYPE_RUNTIME_FLAG_HAS_FINALIZER : Z := 0x1.
Definition ZACLR_TYPE_RUNTIME_FLAG_HAS_COMPONENT_SIZE : Z := 0x2.

Record zaclr_type_map := mk_type_map {
  tm_buffer : Z; tm_types : list zaclr_type_desc; tm_count : Z; tm_flags : Z }.

Definition sizeof_type_desc : Z := 72.

Definition zero_type : zaclr_type_desc :=
  mk_type_desc 0 zero_token zero_name zero_name zero_token 0 0 0 0 0 0 0.

Definition empty_type_map : zaclr_type_map := mk_type_map 0 [] 0 0.

(** [text_equals] on NUL-terminated texts. *)
Definition text_equals (left right : option (list byte)) : bool := bool_decide (left = right).

Definition SYSTEM_TEXT : list byte := [x53; x79; x73; x74; x65; x6d].
Definition STRING_TEXT : list byte := [x53; x74; x72; x69; x6e; x67].
Definition FINALIZE_TEXT : list byte := [x46; x69; x6e; x61; x6c; x69; x7a; x65].

Definition decode_typedef_or_ref_token (coded_index : Z) : zaclr_token :=
  if coded_index =? 0 then zaclr_token_make 0 else
  let row := Z.shiftr coded_index 2 in
  match Z.land coded_index 0x3 with
  | 0 => token_of ZACLR_TOKEN_TABLE_TYPEDEF row
  | 1 => token_of ZACLR_TOKEN_TABLE_TYPEREF row
  | 2 => token_of ZACLR_TOKEN_TABLE_TYPESPEC row
  | _ => zaclr_token_make 0
  end.

(** ** Building the array *)

(** The size of the range that starts at [first] and ends before [next]. *)
Definition list_count (next first : Z) : Z := if first <? next then next - first else 0.

(** One iteration of the first loop. *)
Definition read_type (m : memory) (reader : zaclr_metadata_reader) (method_total type_count : Z)
    (type_index : Z) (types : list zaclr_type_desc) : outcome (list zaclr_type_desc) :=
  row ← zaclr_metadata_reader_get_typedef_row m reader (u32 (type_index + 1));
  type_name ← zaclr_metadata_reader_get_string m reader (typedef_name_index row);
  type_namespace ← zaclr_metadata_reader_get_string m reader (typedef_namespace_index row);
  '(next_field_list, next_method_list) ←
    (if u32 (type_index + 1) <? type_count then
       next_row ← zaclr_metadata_reader_get_typedef_row m reader (u32 (type_index + 2));
       Ret (typedef_field_list next_row, typedef_method_list next_row)
     else
       Ret (u32 (zaclr_metadata_reader_get_row_count (Some reader) ZACLR_TOKEN_TABLE_FIELD + 1),
            u32 (method_total + 1)));
  Ret (set types type_index
         (mk_type_desc (u32 (type_index + 1))
            (token_of ZACLR_TOKEN_TABLE_TYPEDEF (u32 (type_index + 1)))
            type_namespace type_name (decode_typedef_or_ref_token (typedef_extends row))
            (typedef_field_list row) (list_count next_field_list (typedef_field_list row))
            (typedef_method_list row)
            (if 0 <? typedef_method_list row then typedef_method_list row - 1 else 0)
            (list_count next_method_list (typedef_method_list row))
            (typedef_flags row)
            (if text_equals (nv_text type_namespace) (Some SYSTEM_TEXT)
                && text_equals (nv_text type_name) (Some STRING_TEXT)
             then ZACLR_TYPE_RUNTIME_FLAG_HAS_COMPONENT_SIZE else 0))).

Definition set_owning_type (d : zaclr_method_desc) (token : zaclr_token) : zaclr_method_desc :=
  mk_method_desc (md_id d) (md_token d) token (md_name d) (md_signature d) (md_rva d)
    (md_impl_flags d) (md_method_flags d) (md_param_list d) (md_flags d) (md_pinvoke_import_name d)
    (md_pinvoke_module_name d).

Definition set_runtime_flags (t : zaclr_type_desc) (flags : Z) : zaclr_type_desc :=
  mk_type_desc (td_id t) (td_token t) (td_namespace t) (td_name t) (td_extends t) (td_field_list t)
    (td_field_count t) (td_method_list t) (td_first_method_index t) (td_method_count t) (td_flags t)
    flags.

Definition is_finalizer (d : zaclr_method_desc) : bool :=
  text_equals (nv_text (md_name d)) (Some FINALIZE_TEXT)
  && (parameter_count (md_signature d) =? 0).

(** One iteration of the inner loop of the second pass: the method at
    [first + index] of the type [t]; the state is [t] and the method array. *)
Definition link_method (method_total first index : Z) (s : zaclr_type_desc * list zaclr_method_desc)
  : outcome (zaclr_type_desc * list zaclr_method_desc) :=
  let '(t, methods) := s in
  let i := u32 (first + index) in
  if i <? method_total then
    match methods .@ i with
    | None => Fault
    | Some d =>
      let d := set_owning_type d (td_token t) in
      Ret (if is_finalizer d
           then set_runtime_flags t (Z.lor (td_runtime_flags t) ZACLR_TYPE_RUNTIME_FLAG_HAS_FINALIZER)
           else t, set methods i d)
    end
  else Ret (t, methods).

(** One iteration of the outer loop of the second pass. *)
Definition link_type (method_total type_index : Z)
    (s : list zaclr_type_desc * list zaclr_method_desc)
  : outcome (list zaclr_type_desc * list zaclr_method_desc) :=
  let '(types, methods) := s in
  match types .@ type_index with
  | None => Fault
  | Some t =>
    '(t, methods) ← for_loop (Z.to_nat (td_method_count t)) 0 (td_method_count t)
                      (link_method method_total (td_first_method_index t)) (t, methods);
    Ret (set types type_index t, methods)
  end.

Section operations.
Context {K : Type} `{KernelHeap K}.

(** The result also carries the method map, which the second pass updates. *)
Definition zaclr_type_map_initialize (k : K) (m : memory) (reader : zaclr_metadata_reader)
    (methods : zaclr_method_map) : outcome unit * (K * zaclr_type_map * zaclr_method_map) :=
  let type_count := zaclr_metadata_reader_get_row_count (Some reader) ZACLR_TOKEN_TABLE_TYPEDEF in
  if type_count =? 0 then (Ret (), (k, empty_type_map, methods)) else
  let '(types, k) := kernel_alloc k (sizeof_type_desc * type_count) in
  if types =? 0 then (Err (metadata_error ZACLR_STATUS_OUT_OF_MEMORY), (k, empty_type_map, methods))
  else
  match for_loop (Z.to_nat type_count) 0 type_count (read_type m reader (mm_count methods) type_count)
          (replicate (Z.to_nat type_count) zero_type) with
  | Ret l =>
    match for_loop (Z.to_nat type_count) 0 type_count (link_type (mm_count methods))
            (l, mm_methods methods) with
    | Ret (l, ms) => (Ret (), (k, mk_type_map types l type_count 0,
                               mk_method_map (mm_buffer methods) ms (mm_count methods) (mm_flags methods)))
    | Err r => (Err r, (k, empty_type_map, methods))
    | Fault => (Fault, (k, empty_type_map, methods))
    | NoFuel => (NoFuel, (k, empty_type_map, methods))
    end
  | Err r => (Err r, (kernel_free k types, empty_type_map, methods))
  | Fault => (Fault, (k, empty_type_map, methods))
  | NoFuel => (NoFuel, (k, empty_type_map, methods))
  end.

Definition zaclr_type_map_reset (k : K) (map : zaclr_type_map) : K * zaclr_type_map :=
  (if tm_buffer map =? 0 then k else kernel_free k (tm_buffer map), empty_type_map).

End operations.

(** The result is the address of a descriptor: its index in the array. *)
Definition zaclr_type_map_find_by_token (map : zaclr_type_map) (token : zaclr_token) : option Z :=
  if negb (zaclr_token_matches_table (Some token) ZACLR_TOKEN_TABLE_TYPEDEF) then None else
  let row := zaclr_token_row (Some token) in
  if (row =? 0) || (tm_count map <? row) then None else Some (row - 1).

Definition zaclr_type_flags (type : option zaclr_type_desc) : Z :=
  match type with Some t => td_flags t | None => 0 end.

Definition zaclr_type_runtime_flags (type : option zaclr_type_desc) : Z :=
  match type with Some t => td_runtime_flags t | None => 0 end.

(** ** Well-formed maps *)

Definition types_ok (l : list zaclr_type_desc) (n : Z) : Prop :=
  forall i t, 0 <= i < n -> l .@ i = Some t ->
    td_id t = i + 1 /\ td_token t = token_of ZACLR_TOKEN_TABLE_TYPEDEF (i + 1) /\
    0 <= td_first_method_index t /\ 0 <= td_method_count t /\
    td_first_method_index t + td_method_count t < 2 ^ 32.

Record type_map_ok (map : zaclr_type_map) : Prop := {
  to_length : zlength (tm_types map) = tm_count map;
  to_count : 0 <= tm_count map < 2 ^ 32;
  to_types : types_ok (tm_types map) (tm_count map) }.

(** The methods of a type, as indices into the method array. *)
Definition owns (t : zaclr_type_desc) (j : Z) : Prop :=
  td_first_method_index t <= j < td_first_method_index t + td_method_count t.

(** Equal up to the runtime flags. *)
Definition same_type (t t' : zaclr_type_desc) : Prop :=
  exists flags, t' = set_runtime_flags t flags.

Lemma same_type_refl t : same_type t t.
Proof. exists (td_runtime_flags t). by destruct t. Qed.

Lemma same_type_trans t1 t2 t3 : same_type t1 t2 -> same_type t2 t3 -> same_type t1 t3.
Proof. intros [f1 ->] [f2 ->]. by exists f2. Qed.

Section reading.
Context (m : memory) (r : zaclr_metadata_reader).
Context (Hr : reader_ok m r) (Hh : heaps_ok m r) (Hfit : row_counts_fit r).

Lemma typedef_row_post i :
  0 <= i ->
  safe_post (zaclr_metadata_reader_get_typedef_row m r i)
    (fun row => u32_value (typedef_name_index row) /\ u32_value (typedef_namespace_index row) /\
                u32_value (typedef_field_list row) /\ u32_value (typedef_method_list row)).
Proof.
  intros Hi. eapply safe_post_mono.
  - apply (safe_safe_post _ (get_row_safe (H := typedef_row_reader) m r i Hr Hi)).
  - intros row Hrow _. apply (get_row_u32 (H := typedef_row_reader)) in Hrow.
    unfold to_columns, typedef_row_reader in Hrow. rewrite !Forall_cons in Hrow. tauto.
Qed.

Lemma read_type_post total n i l :
  0 <= total < 2 ^ 32 -> 0 <= i < n -> n < 2 ^ 32 - 1 -> zlength l = n -> types_ok l i ->
  safe_post (read_type m r total n i l) (fun l' => zlength l' = n /\ types_ok l' (i + 1)).
Proof.
  intros Ht Hi Hn Hl Hok. unfold read_type, u32_value in *.
  rewrite (u32_id (i + 1)), (u32_id (i + 2)) by lia.
  step; [apply typedef_row_post; lia|]. intros row _ (Hname & Hns & Hfl & Hml).
  unfold u32_value in *.
  step; [apply safe_safe_post, get_string_safe; [apply Hr|done|lia]|]. intros name _ _.
  step; [apply safe_safe_post, get_string_safe; [apply Hr|done|lia]|]. intros ns _ _.
  step; [instantiate (1 := fun '(_, nm) => 0 <= nm < 2 ^ 32)|].
  { case_if; [|simpl; apply u32_range].
    step; [apply typedef_row_post; lia|]. intros row' _ (_ & _ & _ & Hml'). done. }
  intros [nf nm] _ Hnm. cbv beta iota in Hnm. simpl.
  split; [by rewrite zlength_set|]. intros j t Hj Hjt.
  destruct (Z.eq_dec i j) as [<-|].
  - rewrite get_set_eq in Hjt by lia. injection Hjt as <-. simpl. unfold list_count.
    split; [done|]. split; [done|]. repeat case_if; lia.
  - rewrite get_set_ne in Hjt by done. apply Hok; [lia|done].
Qed.

Lemma read_types_post total n :
  0 <= total < 2 ^ 32 -> 0 <= n < 2 ^ 32 - 1 ->
  safe_post (for_loop (Z.to_nat n) 0 n (read_type m r total n) (replicate (Z.to_nat n) zero_type))
    (fun l => zlength l = n /\ types_ok l n).
Proof.
  intros Ht Hn. apply (for_loop_safe_post _ (fun i l => zlength l = n /\ types_ok l i)); try lia.
  - split; [unfold zlength; rewrite length_replicate; lia|]. intros i d Hi. lia.
  - intros j l Hj [Hl Hok]. apply read_type_post; try done; lia.
Qed.

End reading.

(** ** The second pass *)

(** The method array after the methods [first], ..., [first + q - 1] of a type
    were linked. *)
Definition linked (total first q : Z) (token : zaclr_token) (ms ms' : list zaclr_method_desc) : Prop :=
  zlength ms' = zlength ms /\
  forall j d, ms .@ j = Some d -> exists d', ms' .@ j = Some d' /\
    md_id d' = md_id d /\ md_token d' = md_token d /\ md_name d' = md_name d /\
    md_signature d' = md_signature d /\
    md_owning_type_token d' =
      (if (first <=? j) && (j <? first + q) && (j <? total) then token else md_owning_type_token d).

Lemma link_method_post total first q token t ms0 ms :
  zlength ms0 = total -> 0 <= first -> 0 <= q -> first + q < 2 ^ 32 -> td_token t = token ->
  linked total first q token ms0 ms ->
  safe_post (link_method total first q (t, ms))
    (fun '(t', ms') => same_type t t' /\ linked total first (q + 1) token ms0 ms').
Proof.
  intros Hl Hf Hq Hw Htok [Hlen Hms]. unfold link_method. rewrite u32_id by lia. case_if.
  - destruct (get_Some ms (first + q)) as [d Hd]; [lia|]. rewrite Hd. cbv zeta.
    split; [case_if; [by eexists|apply same_type_refl]|].
    split; [by rewrite zlength_set|]. intros j d0 Hj. destruct (Hms j d0 Hj) as (d' & Hd' & H1 & H2 & H3 & H4 & H5).
    destruct (Z.eq_dec (first + q) j) as [<-|Hne].
    + rewrite get_set_eq by lia. assert (d' = d) as -> by congruence. eexists. split; [done|].
      simpl. repeat split; try done.
      destruct (Z.leb_spec first (first + q)), (Z.ltb_spec (first + q) (first + (q + 1))),
        (Z.ltb_spec (first + q) total); simpl; done || lia.
    + rewrite get_set_ne by done. exists d'. repeat split; try done. rewrite H5.
      destruct (Z.leb_spec first j), (Z.ltb_spec j (first + q)), (Z.ltb_spec j (first + (q + 1)));
        simpl; done || lia.
  - split; [apply same_type_refl|]. split; [done|]. intros j d0 Hj.
    destruct (Hms j d0 Hj) as (d' & Hd' & H1 & H2 & H3 & H4 & H5). exists d'. repeat split; try done.
    rewrite H5. apply get_Some_range in Hj.
    destruct (Z.leb_spec first j), (Z.ltb_spec j (first + q)), (Z.ltb_spec j (first + (q + 1))),
      (Z.ltb_spec j total); simpl; done || lia.
Qed.

Lemma link_type_post total i types ms t :
  zlength ms = total -> types .@ i = Some t -> 0 <= td_first_method_index t ->
  0 <= td_method_count t -> td_first_method_index t + td_method_count t < 2 ^ 32 ->
  safe_post (link_type total i (types, ms))
    (fun '(types', ms') => (exists t', types' = set types i t' /\ same_type t t') /\
       linked total (td_first_method_index t) (td_method_count t) (td_token t) ms ms').
Proof.
  intros Hl Ht Hf Hc Hw. unfold link_type. rewrite Ht.
  step; [apply (for_loop_safe_post _ (fun q '(t', ms') => same_type t t' /\
           linked total (td_first_method_index t) q (td_token t) ms ms'))|].
  - lia.
  - lia.
  - split; [apply same_type_refl|]. split; [done|]. intros j d Hd. exists d. repeat split; try done.
    destruct (Z.leb_spec (td_first_method_index t) j),
      (Z.ltb_spec j (td_first_method_index t + 0)); simpl; done || lia.
  - intros q [t' ms'] Hq [Hs Hlk]. eapply safe_post_mono.
    + apply (link_method_post total _ q (td_token t) t' ms ms'); try done; try lia.
      by destruct Hs as [? ->].
    + intros [t2 ms2] _ [Hs2 Hlk2]. split; [by eapply same_type_trans|done].
  - intros [t' ms'] _ [Hs Hlk]. simpl. split; [by exists t'|done].
Qed.

(** The state after the types below [i] were linked. *)
Definition linking (types0 : list zaclr_type_desc) (ms0 : list zaclr_method_desc) (i : Z)
    (s : list zaclr_type_desc * list zaclr_method_desc) : Prop :=
  let '(types, ms) := s in
  zlength types = zlength types0 /\ zlength ms = zlength ms0 /\
  (forall k t, types .@ k = Some t -> exists t0, types0 .@ k = Some t0 /\ same_type t0 t) /\
  forall j d0, ms0 .@ j = Some d0 -> exists d, ms .@ j = Some d /\
    md_id d = md_id d0 /\ md_token d = md_token d0 /\
    forall k t, k < i -> types0 .@ k = Some t -> owns t j ->
      (forall k' t', k < k' < i -> types0 .@ k' = Some t' -> ~ owns t' j) ->
      md_owning_type_token d = td_token t.

Lemma link_step n types0 ms0 i s :
  types_ok types0 n -> zlength types0 = n -> 0 <= i < n -> linking types0 ms0 i s ->
  safe_post (link_type (zlength ms0) i s) (linking types0 ms0 (i + 1)).
Proof.
  destruct s as [types ms]. intros Hok Hn Hi (Hlt & Hlm & Hty & Hms).
  destruct (get_Some types i) as [t Ht]; [lia|]. destruct (Hty i t Ht) as (t0 & Ht0 & fl & Hfl).
  destruct (Hok i t0 Hi Ht0) as (_ & _ & Hf & Hc & Hw).
  eapply safe_post_mono; [apply (link_type_post (zlength ms0) i types ms t); subst t; try done|].
  intros [types' ms'] _ [(t' & -> & fl' & Hfl') [Hlm' Hlk]].
  split; [by rewrite zlength_set|]. split; [lia|]. split.
  - intros k u Hu. destruct (Z.eq_dec i k) as [<-|].
    + rewrite get_set_eq in Hu by lia. injection Hu as <-. exists t0. split; [done|].
      subst. by eexists.
    + rewrite get_set_ne in Hu by done. by apply Hty.
  - intros j d0 Hd0. destruct (Hms j d0 Hd0) as (d & Hd & Hid & Htok & Hown).
    destruct (Hlk j d Hd) as (d' & Hd' & H1 & H2 & _ & _ & H5). exists d'. split; [done|].
    split; [congruence|]. split; [congruence|]. intros k u Hk Hu Huo Hlast. rewrite H5.
    pose proof (get_Some_range _ _ _ Hd0).
    assert (td_first_method_index t = td_first_method_index t0 /\
            td_method_count t = td_method_count t0 /\ td_token t = td_token t0) as (-> & -> & ->)
      by (by subst t).
    destruct (Z.eq_dec k i) as [->|Hne].
    + assert (u = t0) as -> by congruence. unfold owns in Huo.
      destruct (Z.leb_spec (td_first_method_index t0) j),
        (Z.ltb_spec j (td_first_method_index t0 + td_method_count t0)),
        (Z.ltb_spec j (zlength ms0)); simpl; done || lia.
    + assert (~ owns t0 j) as Hno by (apply (Hlast i); [lia|done]). unfold owns in Hno.
      assert ((td_first_method_index t0 <=? j) &&
        (j <? td_first_method_index t0 + td_method_count t0) && (j <? zlength ms0) = false) as ->.
      { destruct (Z.leb_spec (td_first_method_index t0) j),
          (Z.ltb_spec j (td_first_method_index t0 + td_method_count t0)); simpl; done || lia. }
      apply (Hown k u); [lia|done|done|]. intros k' u' Hk' Hu'. apply (Hlast k'); [lia|done].
Qed.

Lemma link_types_post n types ms :
  types_ok types n -> zlength types = n -> 0 <= n ->
  safe_post (for_loop (Z.to_nat n) 0 n (link_type (zlength ms)) (types, ms)) (linking types ms n).
Proof.
  intros Hok Hn Hn0. apply (for_loop_safe_post _ (linking types ms)); try lia.
  - split; [done|]. split; [done|]. split; [intros k t Ht; exists t; split; [done|apply same_type_refl]|].
    intros j d Hd. exists d. do 3 (split; [done|]). intros k t Hk Ht. apply get_Some_range in Ht. lia.
  - intros j s Hj Hs. by eapply link_step.
Qed.

(** The second pass has no error exit. *)
Lemma link_types_no_err total n s fuel e : for_loop fuel 0 n (link_type total) s <> Err e.
Proof.
  apply for_loop_no_err. intros i [types ms] e'. unfold link_type.
  destruct (types .@ i) as [t|]; [|done].
  destruct (for_loop _ _ _ _ _) as [[]|e2| |] eqn:E; simpl; try done.
  exfalso. revert E. apply for_loop_no_err. intros j [t' ms'] e3. unfold link_method.
  case_if; [|done]. by destruct (ms' .@ _).
Qed.

(** ** Initialisation *)

Definition type_map_post {K} `{KernelHeap K} (k : K) (r : zaclr_metadata_reader)
    (ms : zaclr_method_map) (o : outcome unit) (k' : K) (map : zaclr_type_map)
    (ms' : zaclr_method_map) : Prop :=
  match o with
  | Ret _ =>
    type_map_ok map /\ method_map_ok ms' /\
    mm_buffer ms' = mm_buffer ms /\ mm_count ms' = mm_count ms /\
    tm_count map = zaclr_metadata_reader_get_row_count (Some r) ZACLR_TOKEN_TABLE_TYPEDEF /\
    live k' = (if tm_count map =? 0 then live k else {[tm_buffer map]} ∪ live k) /\
    (tm_buffer map ∉ live k) /\
    (forall i t j, tm_types map .@ i = Some t -> owns t j -> 0 <= j < mm_count ms' ->
       (forall i' t', i < i' -> tm_types map .@ i' = Some t' -> ~ owns t' j) ->
       exists d, mm_methods ms' .@ j = Some d /\ md_owning_type_token d = td_token t)
  | Err _ => map = empty_type_map /\ ms' = ms /\ live k' = live k
  | _ => False
  end.

Lemma linking_maps n types ms buf types' ms' :
  types_ok types n -> zlength types = n -> 0 <= n < 2 ^ 32 -> method_map_ok ms ->
  linking types (mm_methods ms) n (types', ms') ->
  type_map_ok (mk_type_map buf types' n 0) /\
  method_map_ok (mk_method_map (mm_buffer ms) ms' (mm_count ms) (mm_flags ms)) /\
  (forall i t j, types' .@ i = Some t -> owns t j -> 0 <= j < mm_count ms ->
     (forall i' t', i < i' -> types' .@ i' = Some t' -> ~ owns t' j) ->
     exists d, ms' .@ j = Some d /\ md_owning_type_token d = td_token t).
Proof.
  intros Hok Hn Hnr [Hml Hmc Hmm] (Hlt & Hlm & Hty & Hms). split_and!.
  - split; simpl; [lia|done|]. intros i t Hi Ht. destruct (Hty i t Ht) as (t0 & Ht0 & fl & ->).
    by apply (Hok i t0).
  - split; simpl; [lia|done|]. intros j d Hj Hd.
    destruct (get_Some (mm_methods ms) j) as [d0 Hd0]; [lia|].
    destruct (Hms j d0 Hd0) as (d' & Hd' & Hid & Htok & _). assert (d' = d) as -> by congruence.
    rewrite Hid, Htok. by apply Hmm.
  - intros i t j Ht Ho Hj Hlast. destruct (get_Some (mm_methods ms) j) as [d0 Hd0]; [lia|].
    destruct (Hms j d0 Hd0) as (d & Hd & _ & _ & Hown). exists d. split; [done|].
    destruct (Hty i t Ht) as (t0 & Ht0 & fl & ->).
    apply (Hown i t0); [|done|done|].
    + apply get_Some_range in Ht0. lia.
    + intros i' u [Hi' Hin] Hu Hou.
      destruct (get_Some types' i') as [u' Hu']; [apply get_Some_range in Hu; lia|].
      apply (Hlast i' u' Hi' Hu'). destruct (Hty i' u' Hu') as (u0 & Hu0 & fl' & ->).
      assert (u0 = u) as -> by congruence. done.
Qed.

Lemma type_map_initialize_post {K} `{KernelHeapLaws K} (k : K) m r ms :
  reader_ok m r -> heaps_ok m r -> row_counts_fit r -> method_map_ok ms ->
  zaclr_metadata_reader_get_row_count (Some r) ZACLR_TOKEN_TABLE_TYPEDEF < 2 ^ 32 - 1 ->
  let '(o, (k', map, ms')) := zaclr_type_map_initialize k m r ms in
  type_map_post k r ms o k' map ms'.
Proof.
  intros Hr Hh Hfit Hms Hlt. unfold zaclr_type_map_initialize. cbv zeta.
  pose proof (get_row_count_range r ZACLR_TOKEN_TABLE_TYPEDEF Hfit) as Hn.
  remember (zaclr_metadata_reader_get_row_count (Some r) ZACLR_TOKEN_TABLE_TYPEDEF) as n eqn:En.
  case_if.
  - unfold type_map_post. rewrite <- En. cbn [empty_type_map tm_count tm_buffer tm_types].
    split; [split; [done|done|]; intros i d Hi; simpl in Hi; lia|]. split; [done|].
    do 2 (split; [done|]). split; [done|]. split; [done|]. split; [apply null_not_live|].
    intros i t j Ht. apply get_Some_range in Ht. unfold zlength in Ht. simpl in Ht. lia.
  - destruct (kernel_alloc k _) as [p k1] eqn:Ha. apply alloc_spec in Ha.
    case_if; [destruct Ha as [[_ Hl]|[? _]]; [by split|done]|].
    destruct Ha as [[? _]|(Hp & Hf & Hl)]; [done|].
    pose proof (read_types_post m r Hr Hh (mm_count ms) n (mo_count _ Hms) ltac:(lia)) as Hread.
    destruct (for_loop (Z.to_nat n) 0 n (read_type m r (mm_count ms) n) _) as [l|e| |];
      simpl in Hread; try done;
      [|split; [done|split; [done|rewrite free_spec, Hl; clear -Hf; set_solver]]].
    destruct Hread as [Hll Hok].
    pose proof (link_types_post n l (mm_methods ms) Hok Hll ltac:(lia)) as Hlink.
    rewrite (mo_length _ Hms) in Hlink.
    destruct (for_loop (Z.to_nat n) 0 n (link_type (mm_count ms)) _) as [[l' ms']|e| |] eqn:Elink;
      cbn [safe_post] in Hlink; try done.
    + destruct (linking_maps n l ms p l' ms' Hok Hll Hn Hms Hlink) as (H1 & H2 & H3).
      unfold type_map_post. cbn [tm_count tm_buffer tm_types mm_buffer mm_count mm_methods].
      split; [done|]. split; [done|]. do 2 (split; [done|]). split; [done|].
      rewrite (proj2 (Z.eqb_neq n 0)) by done. done.
    + destruct (link_types_no_err (mm_count ms) n (l, mm_methods ms) (Z.to_nat n) e Elink).
Qed.

(** Building the type map of a well-formed reader never leaves the image and
    terminates.  On success there is one descriptor per TypeDef row, with its row's
    id and token, in one fresh block, and every method descriptor carries the token
    of the (last) type whose method range contains it; the method map stays well
    formed.  On any error nothing is kept. *)
Theorem type_map_initialize_correct {K} `{KernelHeapLaws K} (k : K) m r ms :
  reader_ok m r -> heaps_ok m r -> row_counts_fit r -> method_map_ok ms ->
  zaclr_metadata_reader_get_row_count (Some r) ZACLR_TOKEN_TABLE_TYPEDEF < 2 ^ 32 - 1 ->
  let '(o, (k', map, ms')) := zaclr_type_map_initialize k m r ms in
  type_map_post k r ms o k' map ms'.
Proof. apply type_map_initialize_post. Qed.

(** ** A concrete image

    The image of [MethodMap.sample_methods_image] followed by one TypeDef row that
    owns its method. *)
Definition sample_types_image : memory :=
  sample_methods_image ++
  encode_u32 1 ++ encode_u16 1 ++ encode_u16 0 ++ encode_u16 0 ++ encode_u16 1 ++ encode_u16 1.

Definition sample_types_reader : zaclr_metadata_reader :=
  mk_reader zero_slice (mk_slice (Some 0) 4) (mk_slice (Some 4) 6) zero_slice zero_slice 0 0
    (set (set (replicate 64 (mk_table_view None 0 0)) 6 (mk_table_view (Some 10) 14 1))
         2 (mk_table_view (Some 24) 14 1))
    (set (set (replicate 64 0) 6 1) 2 1) 0.

Lemma sample_types_reader_ok : reader_ok sample_types_image sample_types_reader.
Proof.
  split; [by split; vm_compute|by split; vm_compute|by split|done|done|done|].
  intros t v Hv. destruct (Z.eq_dec t 2) as [->|Ht2]; [|destruct (Z.eq_dec t 6) as [->|Ht]].
  - vm_compute in Hv. injection Hv as <-. split; [done|]. simpl rows. cbv iota.
    repeat split; vm_compute; congruence.
  - vm_compute in Hv. injection Hv as <-. split; [done|]. simpl rows. cbv iota.
    repeat split; vm_compute; congruence.
  - unfold sample_types_reader in Hv. cbn [tables] in Hv.
    rewrite !get_set_ne in Hv by done. apply get_In in Hv.
    apply elem_of_replicate in Hv as [-> _]. done.
Qed.

Lemma sample_types_heaps_ok : heaps_ok sample_types_image sample_types_reader.
Proof. split; [intros d [= <-]; reflexivity|reflexivity]. Qed.

Lemma sample_types_counts : row_counts_fit sample_types_reader.
Proof.
  intros t n Hn. unfold sample_types_reader in Hn. cbn [row_counts] in Hn.
  destruct (Z.eq_dec t 2) as [->|Ht2]; [vm_compute in Hn; injection Hn as <-; lia|].
  destruct (Z.eq_dec t 6) as [->|Ht]; [vm_compute in Hn; injection Hn as <-; lia|].
  rewrite !get_set_ne in Hn by done. apply get_In, elem_of_replicate in Hn as [-> _]. lia.
Qed.

Lemma sample_map_ok : method_map_ok sample_map.
Proof.
  split; [reflexivity|simpl; lia|]. intros i d Hi. simpl in Hi. assert (i = 0) as -> by lia.
  intros [= <-]. done.
Qed.

Lemma type_map_initialize_correct_witness :
  let '(o, (k', map, ms')) :=
    zaclr_type_map_initialize (mk_small_heap 3 ∅) sample_types_image sample_types_reader sample_map in
  o = Ret () /\ type_map_ok map /\ tm_count map = 1 /\
  (md_owning_type_token <$> mm_methods ms' .@ 0) = Some (token_of ZACLR_TOKEN_TABLE_TYPEDEF 1).
Proof.
  pose proof (type_map_initialize_correct (mk_small_heap 3 ∅) _ _ _ sample_types_reader_ok
    sample_types_heaps_ok sample_types_counts sample_map_ok eq_refl) as H.
  assert (let '(o, (k', map, ms')) := zaclr_type_map_initialize (mk_small_heap 3 ∅) sample_types_image
    sample_types_reader sample_map in o = Ret () /\
    (md_owning_type_token <$> mm_methods ms' .@ 0) = Some (token_of ZACLR_TOKEN_TABLE_TYPEDEF 1)) as E
    by (vm_compute; split; reflexivity).
  destruct (zaclr_type_map_initialize (mk_small_heap 3 ∅) _ _ _) as [o [[k' map] ms']].
  destruct E as [-> E]. destruct H as (Hok & _ & _ & _ & Hc & _).
  split; [reflexivity|]. split; [exact Hok|]. split; [exact Hc|exact E].
Defined.
