(* ===== verification/ProcessTable.v ===== *)
(** * The process table

    [zaclr/process/zaclr_process_table.cpp]: a fixed table of 16 processes.  The
    operations return the status and the new table; pointers to an entry are
    indices into the array. *)

From Stdlib Require Import Strings.Byte.
From S2P Require Import Prelude Status Bytes.

Definition ZACLR_PROCESS_TABLE_MAX_ENTRIES : Z := 16.
Definition ZACLR_PROCESS_IMAGE_NAME_MAX : Z := 64.

Inductive zaclr_process_state :=
| ZACLR_PROCESS_STATE_FREE
| ZACLR_PROCESS_STATE_CREATED
| ZACLR_PROCESS_STATE_READY
| ZACLR_PROCESS_STATE_RUNNING
| ZACLR_PROCESS_STATE_BLOCKED
| ZACLR_PROCESS_STATE_EXITED
| ZACLR_PROCESS_STATE_FAILED
| ZACLR_PROCESS_STATE_ZOMBIE.

#[global] Instance zaclr_process_state_eq_dec : EqDecision zaclr_process_state.
Proof. solve_decision. Defined.

(** [pe_image_name] is the 64-byte array, what stands behind its terminator
    included. *)
Record zaclr_process_entry := mk_process_entry {
  pe_pid : Z;
  pe_ppid : Z;
  pe_domain_id : Z;
  pe_state : zaclr_process_state;
  pe_uid : Z;
  pe_gid : Z;
  pe_exit_code : Z;
  pe_flags : Z;
  pe_image_name : list byte }.

Record zaclr_process_table := mk_process_table {
  pt_entries : list zaclr_process_entry; pt_count : Z }.

Definition process_status (s : zaclr_status) : zaclr_result :=
  zaclr_result_make s ZACLR_STATUS_CATEGORY_PROCESS.

(** ** The operations *)

(** Every entry is cleared; of its name only the first byte. *)
Definition zaclr_process_table_initialize (t : zaclr_process_table) : zaclr_result * zaclr_process_table :=
  (zaclr_result_ok,
   mk_process_table
     ((fun e => mk_process_entry 0 0 0 ZACLR_PROCESS_STATE_FREE 0 0 0 0 (set (pe_image_name e) 0 x00))
        <$> pt_entries t) 0).

(** The copy loop: at most 63 characters, then the terminator. *)
Definition copy_image_name (image_name : option (list byte)) (buffer : list byte) : list byte :=
  match image_name with
  | None => set buffer 0 x00
  | Some name =>
    let copied := take (Z.to_nat (ZACLR_PROCESS_IMAGE_NAME_MAX - 1)) name in
    copied ++ x00 :: drop (S (length copied)) buffer
  end.

Definition zaclr_process_table_register (t : zaclr_process_table) (pid ppid domain_id uid gid : Z)
    (image_name : option (list byte)) : zaclr_result * zaclr_process_table :=
  if pid =? 0 then (process_status ZACLR_STATUS_INVALID_ARGUMENT, t) else
  if ZACLR_PROCESS_TABLE_MAX_ENTRIES <=? pt_count t
  then (process_status ZACLR_STATUS_OUT_OF_MEMORY, t) else
  match find_index (fun e => pe_pid e =? pid) (pt_entries t) with
  | Some _ => (process_status ZACLR_STATUS_ALREADY_EXISTS, t)
  | None =>
    match find_index (fun e => bool_decide (pe_state e = ZACLR_PROCESS_STATE_FREE)) (pt_entries t) with
    | None => (process_status ZACLR_STATUS_OUT_OF_MEMORY, t)
    | Some slot =>
      let old := default [] (pe_image_name <$> pt_entries t .@ slot) in
      (zaclr_result_ok,
       mk_process_table
         (set (pt_entries t) slot
            (mk_process_entry pid ppid domain_id ZACLR_PROCESS_STATE_CREATED uid gid 0 0
               (copy_image_name image_name old)))
         (u32 (pt_count t + 1)))
    end
  end.

(** The test by which the other operations look a process up. *)
Definition entry_matches (pid : Z) (e : zaclr_process_entry) : bool :=
  (pe_pid e =? pid) && negb (bool_decide (pe_state e = ZACLR_PROCESS_STATE_FREE)).

Definition zaclr_process_table_find (t : zaclr_process_table) (pid : Z) : option Z :=
  if pid =? 0 then None else find_index (entry_matches pid) (pt_entries t).

Definition with_state (s : zaclr_process_state) (e : zaclr_process_entry) : zaclr_process_entry :=
  mk_process_entry (pe_pid e) (pe_ppid e) (pe_domain_id e) s (pe_uid e) (pe_gid e) (pe_exit_code e)
    (pe_flags e) (pe_image_name e).

Definition with_exit_code (c : Z) (e : zaclr_process_entry) : zaclr_process_entry :=
  mk_process_entry (pe_pid e) (pe_ppid e) (pe_domain_id e) (pe_state e) (pe_uid e) (pe_gid e) c
    (pe_flags e) (pe_image_name e).

(** The loop of the two setters: update the first matching entry. *)
Definition update_first (f : zaclr_process_entry -> zaclr_process_entry) (t : zaclr_process_table)
    (pid : Z) : zaclr_result * zaclr_process_table :=
  if pid =? 0 then (process_status ZACLR_STATUS_INVALID_ARGUMENT, t) else
  match find_index (entry_matches pid) (pt_entries t) with
  | None => (process_status ZACLR_STATUS_NOT_FOUND, t)
  | Some i =>
    match pt_entries t .@ i with
    | None => (process_status ZACLR_STATUS_NOT_FOUND, t)
    | Some e => (zaclr_result_ok, mk_process_table (set (pt_entries t) i (f e)) (pt_count t))
    end
  end.

Definition zaclr_process_table_set_state (t : zaclr_process_table) (pid : Z)
    (state : zaclr_process_state) : zaclr_result * zaclr_process_table :=
  update_first (with_state state) t pid.

Definition zaclr_process_table_set_exit_code (t : zaclr_process_table) (pid exit_code : Z)
  : zaclr_result * zaclr_process_table :=
  update_first (with_exit_code exit_code) t pid.

Definition zaclr_process_table_count (t : option zaclr_process_table) : Z :=
  match t with Some t => pt_count t | None => 0 end.

(** ** The abstract table

    Processes by pid: what the callers of the table see. *)

Definition process_of (t : zaclr_process_table) (pid : Z) : option zaclr_process_entry :=
  i ← zaclr_process_table_find t pid; pt_entries t .@ i.

Definition occupied (e : zaclr_process_entry) : bool :=
  negb (bool_decide (pe_state e = ZACLR_PROCESS_STATE_FREE)).

Record process_table_ok (t : zaclr_process_table) : Prop := {
  po_length : zlength (pt_entries t) = ZACLR_PROCESS_TABLE_MAX_ENTRIES;
  po_count : 0 <= pt_count t <= ZACLR_PROCESS_TABLE_MAX_ENTRIES;
  po_unique i j e e' : pt_entries t .@ i = Some e -> pt_entries t .@ j = Some e' ->
    pe_pid e = pe_pid e' -> pe_pid e <> 0 -> i = j;
  po_pid e : e ∈ pt_entries t -> occupied e = true -> pe_pid e <> 0;
  (* the count is never less than the number of processes in the table *)
  po_occupied : zlength (filter (fun e => occupied e = true) (pt_entries t)) <= pt_count t;
  po_name e : e ∈ pt_entries t -> zlength (pe_image_name e) = ZACLR_PROCESS_IMAGE_NAME_MAX }.

(** The string in a NUL-terminated buffer. *)
Fixpoint c_string (buffer : list byte) : list byte :=
  match buffer with
  | [] => []
  | b :: l => if byte_Z b =? 0 then [] else b :: c_string l
  end.

(** ** Facts *)

Lemma process_of_Some t pid e :
  process_table_ok t ->
  process_of t pid = Some e <->
  pid <> 0 /\ exists i, pt_entries t .@ i = Some e /\ pe_pid e = pid /\ occupied e = true.
Proof.
  intros Hok. unfold process_of, zaclr_process_table_find. split.
  - case_if; [done|]. destruct (find_index _ _) as [i|] eqn:Hi; [|done]. simpl. intros He.
    apply find_index_Some in Hi as (x & Hx & Hm & _). assert (x = e) as -> by congruence.
    split; [done|]. exists i. unfold entry_matches in Hm. apply andb_true_iff in Hm as [Hp Ho].
    apply Z.eqb_eq in Hp. done.
  - intros (Hp & i & He & Hpid & Ho). rewrite (proj2 (Z.eqb_neq pid 0)) by done.
    assert (entry_matches pid e = true) as Hm by (unfold entry_matches; rewrite Hpid, Z.eqb_refl; done).
    destruct (find_index_is_Some (entry_matches pid) (pt_entries t) e) as [j Hj];
      [by eapply get_In|done|]. rewrite Hj. simpl.
    apply find_index_Some in Hj as (x & Hx & Hmx & _). rewrite Hx. f_equal.
    unfold entry_matches in Hmx. apply andb_true_iff in Hmx as [Hpx _]. apply Z.eqb_eq in Hpx.
    assert (i = j) as -> by (by apply (po_unique t Hok i j e x); congruence). congruence.
Qed.

(** Replacing entry [i] changes what the table says of the pids of the old and
    the new entry only. *)
Lemma process_of_set t c i e e' pid :
  process_table_ok t -> process_table_ok (mk_process_table (set (pt_entries t) i e') c) ->
  pt_entries t .@ i = Some e -> pid <> pe_pid e -> pid <> pe_pid e' ->
  process_of (mk_process_table (set (pt_entries t) i e') c) pid = process_of t pid.
Proof.
  intros Hok Hok' Hi Hne Hne'. pose proof (get_Some_range _ _ _ Hi) as Hr.
  apply option_eq. intros x. rewrite !process_of_Some by done. simpl.
  split; intros (Hp & j & Hj & Hpid & Ho); (split; [done|]); exists j.
  - destruct (Z.eq_dec i j) as [<-|]; [rewrite get_set_eq in Hj by done; congruence|].
    rewrite get_set_ne in Hj by done. done.
  - destruct (Z.eq_dec i j) as [<-|]; [congruence|]. rewrite get_set_ne by done. done.
Qed.

Lemma filter_set_length {A} (P : A -> bool) (l : list A) i x y :
  l .@ i = Some x ->
  zlength (filter (fun e => P e = true) (set l i y)) =
  zlength (filter (fun e => P e = true) l) - (if P x then 1 else 0) + (if P y then 1 else 0).
Proof.
  intros Hx. unfold get in Hx. case_if_in Hx; [done|]. unfold set.
  destruct (Z.ltb_spec i 0); [lia|]. rewrite (insert_take_drop l _ y) by (by eapply lookup_lt_Some).
  rewrite <- (take_drop_middle l _ x Hx) at 3. rewrite !filter_app, !zlength_app, !filter_cons.
  destruct (P x), (P y); simpl; repeat case_decide; try done; rewrite ?zlength_cons; lia.
Qed.

(** The conditions under which an entry may be replaced. *)
Lemma table_ok_set t i e e' c :
  process_table_ok t -> pt_entries t .@ i = Some e ->
  0 <= c <= ZACLR_PROCESS_TABLE_MAX_ENTRIES ->
  (pe_pid e' <> 0 -> forall j x, j <> i -> pt_entries t .@ j = Some x -> pe_pid x <> pe_pid e') ->
  (occupied e' = true -> pe_pid e' <> 0) ->
  zlength (pe_image_name e') = ZACLR_PROCESS_IMAGE_NAME_MAX ->
  pt_count t - (if occupied e then 1 else 0) + (if occupied e' then 1 else 0) <= c ->
  process_table_ok (mk_process_table (set (pt_entries t) i e') c).
Proof.
  intros [Hl Hc Hu Hp Ho Hn] Hi Hcr Huniq Hpid Hname Hcnt. pose proof (get_Some_range _ _ _ Hi).
  assert (forall x, x ∈ set (pt_entries t) i e' -> x = e' \/ x ∈ pt_entries t) as Hin.
  { intros x [j Hj]%In_get. destruct (Z.eq_dec i j) as [<-|].
    - rewrite get_set_eq in Hj by done. left. congruence.
    - rewrite get_set_ne in Hj by done. right. by eapply get_In. }
  split; simpl.
  - by rewrite zlength_set.
  - done.
  - intros j1 j2 x1 x2 H1 H2 Heq Hne.
    destruct (Z.eq_dec i j1) as [<-|N1], (Z.eq_dec i j2) as [<-|N2]; [done| | |].
    + rewrite get_set_eq in H1 by done. rewrite get_set_ne in H2 by done. injection H1 as <-.
      by destruct (Huniq Hne j2 x2 ltac:(done) H2).
    + rewrite get_set_eq in H2 by done. rewrite get_set_ne in H1 by done. injection H2 as <-.
      by destruct (Huniq ltac:(congruence) j1 x1 ltac:(done) H1).
    + rewrite get_set_ne in H1, H2 by done. by eapply Hu.
  - intros x [->|Hx]%Hin; [done|by apply Hp].
  - rewrite (filter_set_length occupied _ i e e' Hi). lia.
  - intros x [->|Hx]%Hin; [done|by apply Hn].
Qed.

Lemma copy_image_name_length name buffer :
  zlength buffer = ZACLR_PROCESS_IMAGE_NAME_MAX ->
  zlength (copy_image_name name buffer) = ZACLR_PROCESS_IMAGE_NAME_MAX.
Proof.
  unfold ZACLR_PROCESS_IMAGE_NAME_MAX, copy_image_name. intros Hl. destruct name as [n|].
  - unfold zlength in *. cbv zeta. rewrite length_app. cbn [length].
    rewrite length_drop, length_take. unfold ZACLR_PROCESS_IMAGE_NAME_MAX. lia.
  - by rewrite zlength_set.
Qed.

Lemma c_string_copy name buffer :
  Forall (fun b => byte_Z b <> 0) name ->
  c_string (copy_image_name (Some name) buffer) = take 63 name.
Proof.
  intros Hn. unfold copy_image_name. cbv zeta.
  change (Z.to_nat (ZACLR_PROCESS_IMAGE_NAME_MAX - 1)) with 63%nat.
  apply (Forall_take _ 63) in Hn. induction Hn as [|b l Hb Hn IH]; [done|].
  cbn [app c_string]. rewrite (proj2 (Z.eqb_neq _ _) Hb). f_equal.
  assert (forall x y, c_string (l ++ x00 :: x) = c_string (l ++ x00 :: y)) as Hs.
  { clear. intros x y. induction l as [|c l IH]; [done|]. cbn [app c_string]. by rewrite IH. }
  etransitivity; [apply Hs|exact IH].
Qed.

(** Updating a process that keeps its pid. *)
Lemma update_first_spec f t pid :
  process_table_ok t -> pid <> 0 ->
  (forall e, pe_pid (f e) = pe_pid e /\ pe_image_name (f e) = pe_image_name e /\
             (occupied e = true -> occupied (f e) = true \/ pe_state (f e) = ZACLR_PROCESS_STATE_FREE)) ->
  let '(r, t') := update_first f t pid in
  process_table_ok t' /\ pt_count t' = pt_count t /\
  (forall pid', pid' <> pid -> process_of t' pid' = process_of t pid') /\
  match process_of t pid with
  | None => r = process_status ZACLR_STATUS_NOT_FOUND /\ t' = t
  | Some e => r = zaclr_result_ok /\ process_of t' pid = (if occupied (f e) then Some (f e) else None)
  end.
Proof.
  intros Hok Hpid Hf. unfold update_first. rewrite (proj2 (Z.eqb_neq pid 0)) by done.
  unfold process_of at 3, zaclr_process_table_find. rewrite (proj2 (Z.eqb_neq pid 0)) by done.
  destruct (find_index (entry_matches pid) (pt_entries t)) as [i|] eqn:Hi; [|done].
  apply find_index_Some in Hi as (e & He & Hm & _). rewrite He. simpl. rewrite He.
  unfold entry_matches in Hm. apply andb_true_iff in Hm as [Hp Ho]. apply Z.eqb_eq in Hp.
  destruct (Hf e) as (Hfp & Hfn & Hfo). pose proof (get_In _ _ _ He) as Hin.
  assert (process_table_ok (mk_process_table (set (pt_entries t) i (f e)) (pt_count t))) as Hok'.
  { apply (table_ok_set t i e); try done.
    - apply Hok.
    - rewrite Hfp. intros _ j x Hj Hx Hpx. apply Hj.
      symmetry. eapply (po_unique t Hok); [exact He|exact Hx|congruence|congruence].
    - congruence.
    - rewrite Hfn. by apply (po_name t Hok).
    - change (occupied e = true) in Ho. rewrite Ho. destruct (occupied (f e)); lia. }
  split; [done|]. split; [done|]. split.
  { intros pid' Hne. apply (process_of_set t _ i e (f e)); try done; congruence. }
  split; [done|]. pose proof (get_Some_range _ _ _ He).
  destruct (occupied (f e)) eqn:Eo.
  - apply process_of_Some; [done|]. split; [done|]. exists i. simpl.
    rewrite get_set_eq by done. split; [done|]. split; [congruence|done].
  - destruct (process_of _ pid) as [x|] eqn:E; [|done]. exfalso.
    apply process_of_Some in E as (_ & j & Hj & Hpj & Hoj); [|done]. simpl in Hj.
    destruct (Z.eq_dec i j) as [<-|].
    + rewrite get_set_eq in Hj by done. congruence.
    + rewrite get_set_ne in Hj by done. 
      assert (i = j) by (eapply (po_unique t Hok); [exact He|exact Hj|congruence|congruence]). done.
Qed.

(** ** What the callers rely on *)

(** [register] refines the insertion of a fresh pid: it succeeds exactly when
    the pid is not 0, no entry has it, fewer than 16 registrations were made and a
    slot is free; then the table maps the pid to the new entry, in state CREATED
    with the first 63 characters of the name, every other process is unchanged, and
    the count grows by one.  Otherwise the table is unchanged.  The invariant
    holds after it. *)
Theorem process_register_correct t pid ppid domain uid gid name :
  process_table_ok t -> Forall (fun b => byte_Z b <> 0) name ->
  let '(r, t') := zaclr_process_table_register t pid ppid domain uid gid (Some name) in
  process_table_ok t' /\
  (forall pid', pid' <> pid -> process_of t' pid' = process_of t pid') /\
  (r = zaclr_result_ok <->
     pid <> 0 /\ pt_count t < ZACLR_PROCESS_TABLE_MAX_ENTRIES /\
     (forall e, e ∈ pt_entries t -> pe_pid e <> pid) /\ exists e, e ∈ pt_entries t /\ occupied e = false) /\
  (r = zaclr_result_ok -> pt_count t' = pt_count t + 1 /\
     exists e, process_of t' pid = Some e /\ pe_ppid e = ppid /\ pe_domain_id e = domain /\
       pe_uid e = uid /\ pe_gid e = gid /\ pe_exit_code e = 0 /\
       pe_state e = ZACLR_PROCESS_STATE_CREATED /\ c_string (pe_image_name e) = take 63 name) /\
  (r <> zaclr_result_ok -> t' = t).
Proof.
  intros Hok Hname. unfold zaclr_process_table_register.
  case_if; [split_and!; try done; split; [done|]; by intros (? & _)|].
  case_if; [split_and!; try done; split; [done|]; intros (_ & ? & _); lia|].
  destruct (find_index (fun e => pe_pid e =? pid) (pt_entries t)) as [k|] eqn:Hk.
  { apply find_index_Some in Hk as (x & Hx & Hp & _). bool_cases.
    split_and!; try done. split; [done|]. intros (_ & _ & Hno & _). by destruct (Hno x (get_In _ _ _ Hx)). }
  pose proof (find_index_None _ _ Hk) as Hno. cbv beta in Hno.
  assert (forall e, e ∈ pt_entries t -> pe_pid e <> pid) as Hfresh
    by (intros e He; specialize (Hno e He); by bool_cases).
  destruct (find_index (fun e => bool_decide (pe_state e = ZACLR_PROCESS_STATE_FREE)) (pt_entries t))
    as [i|] eqn:Hi.
  2: { pose proof (find_index_None _ _ Hi) as Hall. cbv beta in Hall.
       split_and!; try done. split; [done|]. intros (_ & _ & _ & e & He & Hoe). specialize (Hall e He).
       unfold occupied in Hoe. rewrite Hall in Hoe. done. }
  apply find_index_Some in Hi as (e & He & Hfree & _). rewrite He. cbv zeta. simpl (default _ _).
  pose proof (get_Some_range _ _ _ He). pose proof (get_In _ _ _ He) as Hin.
  assert (occupied e = false) as Hoe by (unfold occupied; by rewrite Hfree).
  pose proof (po_count t Hok). unfold ZACLR_PROCESS_TABLE_MAX_ENTRIES in *. rewrite u32_id by lia.
  unfold id.
  set (e' := mk_process_entry pid ppid domain ZACLR_PROCESS_STATE_CREATED uid gid 0 0 _).
  assert (process_table_ok (mk_process_table (set (pt_entries t) i e') (pt_count t + 1))) as Hok'.
  { apply (table_ok_set t i e); try done.
    - unfold ZACLR_PROCESS_TABLE_MAX_ENTRIES. lia.
    - intros _ j x _ Hx. by apply Hfresh, (get_In _ j).
    - by apply copy_image_name_length, (po_name t Hok).
    - rewrite Hoe. simpl. lia. }
  assert (process_of (mk_process_table (set (pt_entries t) i e') (pt_count t + 1)) pid = Some e') as Hof.
  { apply process_of_Some; [done|]. split; [done|]. exists i. simpl. by rewrite get_set_eq. }
  split; [done|]. split.
  { intros pid' Hne. destruct (Z.eq_dec pid' (pe_pid e)) as [->|].
    - transitivity (@None zaclr_process_entry); [|symmetry].
      + destruct (process_of _ (pe_pid e)) as [x|] eqn:E; [|done]. exfalso.
        apply process_of_Some in E as (Hp0 & j & Hj & Hpj & Hoj); [|done]. simpl in Hj.
        destruct (Z.eq_dec i j) as [<-|];
          [rewrite get_set_eq in Hj by done; injection Hj as <-; by destruct Hne|].
        rewrite get_set_ne in Hj by done.
        assert (i = j) by (eapply (po_unique t Hok); [exact He|exact Hj|done|done]). done.
      + destruct (process_of t (pe_pid e)) as [x|] eqn:E; [|done]. exfalso.
        apply process_of_Some in E as (Hp0 & j & Hj & Hpj & Hoj); [|done].
        assert (i = j) as -> by (eapply (po_unique t Hok); [exact He|exact Hj|done|done]). congruence.
    - apply (process_of_set t _ i e e'); done. }
  split; [split; [intros _; split_and!; try done; by exists e|done]|].
  split; [|done]. intros _. split; [done|]. exists e'. split; [done|].
  repeat split; try done. simpl. by apply c_string_copy.
Qed.

(** [set_state] updates the state of a process of the table, and removes the
    process when the new state is FREE; [set_exit_code] updates its exit code.  A
    pid that is not in the table is NOT_FOUND and changes nothing; no other process
    and not the count is touched. *)
Theorem process_setters_correct t pid state code :
  process_table_ok t -> pid <> 0 ->
  (let '(r, t') := zaclr_process_table_set_state t pid state in
   process_table_ok t' /\ pt_count t' = pt_count t /\
   (forall pid', pid' <> pid -> process_of t' pid' = process_of t pid') /\
   match process_of t pid with
   | None => r = process_status ZACLR_STATUS_NOT_FOUND /\ t' = t
   | Some e => r = zaclr_result_ok /\
       process_of t' pid = (if bool_decide (state = ZACLR_PROCESS_STATE_FREE) then None
                            else Some (with_state state e))
   end) /\
  (let '(r, t') := zaclr_process_table_set_exit_code t pid code in
   process_table_ok t' /\ pt_count t' = pt_count t /\
   (forall pid', pid' <> pid -> process_of t' pid' = process_of t pid') /\
   match process_of t pid with
   | None => r = process_status ZACLR_STATUS_NOT_FOUND /\ t' = t
   | Some e => r = zaclr_result_ok /\ process_of t' pid = Some (with_exit_code code e)
   end).
Proof.
  intros Hok Hpid. split.
  - pose proof (update_first_spec (with_state state) t pid Hok Hpid) as Hs.
    unfold zaclr_process_table_set_state. destruct (update_first _ t pid) as [r t'].
    destruct Hs as (H1 & H2 & H3 & H4).
    { intros e. do 2 (split; [done|]). intros _. unfold occupied. simpl.
      case_bool_decide; [by right|by left]. }
    do 3 (split; [done|]). destruct (process_of t pid) as [e|]; [|done].
    destruct H4 as [-> ->]. split; [done|]. unfold occupied. simpl. by case_bool_decide.
  - pose proof (update_first_spec (with_exit_code code) t pid Hok Hpid) as Hs.
    unfold zaclr_process_table_set_exit_code. destruct (update_first _ t pid) as [r t'].
    destruct Hs as (H1 & H2 & H3 & H4).
    { intros e. do 2 (split; [done|]). intros Ho. by left. }
    do 3 (split; [done|]). destruct (process_of t pid) as [e|] eqn:E; [|done].
    destruct H4 as [-> ->]. split; [done|].
    apply process_of_Some in E as (_ & _ & _ & _ & Ho); [|done].
    assert (occupied (with_exit_code code e) = true) as -> by done. done.
Qed.

(** ** Concrete tables *)

Definition sample_entry : zaclr_process_entry :=
  mk_process_entry 0 0 0 ZACLR_PROCESS_STATE_FREE 0 0 0 0 (replicate 64 x00).
Definition empty_table : zaclr_process_table := mk_process_table (replicate 16 sample_entry) 0.

Lemma empty_table_ok : process_table_ok empty_table.
Proof.
  split; cbn [empty_table pt_entries pt_count]; try done.
  - intros i j e e' [Hi _]%get_In%elem_of_replicate _ _ H. by subst.
  - by intros e [-> _]%elem_of_replicate.
  - by intros e [-> _]%elem_of_replicate.
Qed.

Lemma process_register_correct_witness :
  let '(r, t') := zaclr_process_table_register empty_table 1 0 1 0 0 (Some [x6c; x73]) in
  r = zaclr_result_ok /\ process_table_ok t' /\ pt_count t' = 1.
Proof.
  pose proof (process_register_correct empty_table 1 0 1 0 0 [x6c; x73] empty_table_ok
    ltac:(repeat constructor; discriminate)) as H.
  assert ((zaclr_process_table_register empty_table 1 0 1 0 0 (Some [x6c; x73])).1 = zaclr_result_ok)
    as E by reflexivity.
  destruct (zaclr_process_table_register empty_table 1 0 1 0 0 (Some [x6c; x73])) as [r t'].
  simpl in E. subst r. destruct H as (Hok & _ & _ & Hc & _).
  split; [reflexivity|]. split; [exact Hok|]. apply (Hc eq_refl).
Defined.

Lemma process_setters_correct_witness :
  (zaclr_process_table_set_state empty_table 3 ZACLR_PROCESS_STATE_RUNNING).1
    = process_status ZACLR_STATUS_NOT_FOUND.
Proof.
  destruct (process_setters_correct empty_table 3 ZACLR_PROCESS_STATE_RUNNING 0 empty_table_ok
    ltac:(lia)) as [H _].
  destruct (zaclr_process_table_set_state empty_table 3 ZACLR_PROCESS_STATE_RUNNING) as [r t'].
  destruct H as (_ & _ & _ & H). assert (process_of empty_table 3 = None) as E by reflexivity.
  rewrite E in H. apply H.
Defined.

(** ** Slots are not given back *)

(** Freeing a process neither lowers the count nor forgets its pid: after sixteen
    registrations and the release of all sixteen, the table has no process and
    refuses every registration. *)
Definition registered (n : Z) : zaclr_process_table :=
  fold_left (fun t i => (zaclr_process_table_register t i 0 0 0 0 None).2) (seqZ 1 n) empty_table.

Definition released (n : Z) (t : zaclr_process_table) : zaclr_process_table :=
  fold_left (fun t i => (zaclr_process_table_set_state t i ZACLR_PROCESS_STATE_FREE).2) (seqZ 1 n) t.

Lemma released_table_is_full :
  let t := released 16 (registered 16) in
  filter (fun e => occupied e = true) (pt_entries t) = [] /\
  (zaclr_process_table_register t 17 0 0 0 0 None).1 = process_status ZACLR_STATUS_OUT_OF_MEMORY.
Proof. split; vm_compute; reflexivity. Qed.
