(* ===== verification/EvalStack.v ===== *)
(** * Evaluation stacks

    [zaclr/exec/zaclr_eval_stack.cpp]: the values of the interpreter and the
    evaluation stack of a frame.  A value type larger than 16 bytes lives in a
    buffer of its own, which the value owns.

    The state is the kernel heap and the contents of the buffers.  The union
    [data] of a value is the member last written: a word (integers, bit patterns,
    references, the address of a buffer) or the inline bytes; using the other one
    is a [Fault].  A pointer to bytes that are copied is represented by the bytes
    it points to, [None] being [NULL]. *)

From Stdlib Require Import Strings.Byte.
From S2P Require Import Prelude Status Bytes KernelHeap.

Definition ZACLR_STACK_VALUE_EMPTY : Z := 0.
Definition ZACLR_STACK_VALUE_I4 : Z := 1.
Definition ZACLR_STACK_VALUE_OBJECT_REFERENCE : Z := 2.
Definition ZACLR_STACK_VALUE_I8 : Z := 3.
Definition ZACLR_STACK_VALUE_R4 : Z := 4.
Definition ZACLR_STACK_VALUE_R8 : Z := 5.
Definition ZACLR_STACK_VALUE_LOCAL_ADDRESS : Z := 6.
Definition ZACLR_STACK_VALUE_VALUETYPE : Z := 7.
Definition ZACLR_STACK_VALUE_BYREF : Z := 8.

Definition ZACLR_STACK_VALUE_FLAG_OWNS_BUFFER : Z := 0x1.
Definition ZACLR_STACK_VALUE_INLINE_BUFFER_BYTES : Z := 16.

Inductive value_data :=
| DWord (w : Z)
| DBytes (l : list byte).

Record zaclr_stack_value := mk_value {
  sv_kind : Z;
  sv_reserved : Z;
  sv_payload_size : Z;
  sv_type_token_raw : Z;
  sv_flags : Z;
  sv_extra : Z;
  sv_data : value_data }.

Record zaclr_eval_stack := mk_eval_stack {
  es_buffer : Z; es_values : list zaclr_stack_value; es_depth : Z; es_capacity : Z }.

Definition zero_value : zaclr_stack_value := mk_value 0 0 0 0 0 0 (DWord 0).
Definition sizeof_stack_value : Z := 40.
Definition empty_stack : zaclr_eval_stack := mk_eval_stack 0 [] 0 0.

Definition exec_error (s : zaclr_status) : zaclr_result :=
  zaclr_result_make s ZACLR_STATUS_CATEGORY_EXEC.

Definition owns_flag (v : zaclr_stack_value) : bool :=
  flag_set (sv_flags v) ZACLR_STACK_VALUE_FLAG_OWNS_BUFFER.

Definition is_valuetype (v : zaclr_stack_value) : bool := sv_kind v =? ZACLR_STACK_VALUE_VALUETYPE.

(** [stack_value_uses_owned_buffer], with the address of the buffer; [None] when
    there is no buffer.  The flag is only ever set together with the address. *)
Definition owned_buffer (v : zaclr_stack_value) : option Z :=
  if is_valuetype v && owns_flag v then
    match sv_data v with DWord p => if p =? 0 then None else Some p | DBytes _ => None end
  else None.

(** ** Values *)

(** The 16 inline bytes after [l] was written to the zeroed array. *)
Definition inline_bytes (l : list byte) : list byte := l ++ replicate (16 - length l) x00.

Section values.
Context {K : Type} `{KernelHeap K}.

(** The kernel heap and the contents of the value buffers. *)
Definition store : Type := K * gmap Z (list byte).

Definition zaclr_stack_value_reset (s : store) (v : zaclr_stack_value) : store * zaclr_stack_value :=
  (match owned_buffer v with
   | Some p => (kernel_free s.1 p, delete p s.2)
   | None => s
   end, zero_value).

(** The bytes at the payload pointer; [None] is [NULL]. *)
Definition zaclr_stack_value_payload (s : store) (v : zaclr_stack_value)
  : outcome (option (list byte)) :=
  if negb (is_valuetype v) then Ret None
  else if owns_flag v then
    match sv_data v with
    | DWord p => if p =? 0 then Ret None
                 else match s.2 !! p with Some l => Ret (Some l) | None => Fault end
    | DBytes _ => Fault
    end
  else match sv_data v with
       | DBytes l => Ret (Some l)
       | DWord w => Ret (Some (inline_bytes (bytes_of (map (fun i => Z.shiftr w (8 * i)) (seqZ 0 8)))))
       end.

(** [kernel_memcpy(storage, bytes, size)] from at least [size] bytes. *)
Definition copy_bytes (bytes : list byte) (size : Z) : outcome (list byte) :=
  if zlength bytes <? size then Fault else Ret (take (Z.to_nat size) bytes).

Definition zaclr_stack_value_set_valuetype (s : store) (v : zaclr_stack_value) (type_token_raw : Z)
    (bytes : option (list byte)) (size : Z) : outcome unit * (store * zaclr_stack_value) :=
  match bytes with
  | None =>
    if negb (size =? 0) then (Err (exec_error ZACLR_STATUS_INVALID_ARGUMENT), (s, v))
    else let '(s, _) := zaclr_stack_value_reset s v in
         (Ret (), (s, mk_value ZACLR_STACK_VALUE_VALUETYPE 0 0 type_token_raw 0 0 (DWord 0)))
  | Some bytes =>
    let '(s, _) := zaclr_stack_value_reset s v in
    if size =? 0 then
      (Ret (), (s, mk_value ZACLR_STACK_VALUE_VALUETYPE 0 0 type_token_raw 0 0 (DWord 0)))
    else
    if size <=? ZACLR_STACK_VALUE_INLINE_BUFFER_BYTES then
      match copy_bytes bytes size with
      | Ret l => (Ret (), (s, mk_value ZACLR_STACK_VALUE_VALUETYPE 0 size type_token_raw 0 0
                                (DBytes (inline_bytes l))))
      | _ => (Fault, (s, v))
      end
    else
      let '(p, k) := kernel_alloc s.1 size in
      if p =? 0 then (Err (exec_error ZACLR_STATUS_OUT_OF_MEMORY), ((k, s.2), zero_value)) else
      match copy_bytes bytes size with
      | Ret l => (Ret (), ((k, <[p := l]> s.2),
                           mk_value ZACLR_STACK_VALUE_VALUETYPE 0 size type_token_raw
                             ZACLR_STACK_VALUE_FLAG_OWNS_BUFFER 0 (DWord p)))
      | _ => (Fault, ((k, s.2), v))
      end
  end.

Definition zaclr_stack_value_set_byref (s : store) (v : zaclr_stack_value)
    (address payload_size type_token_raw flags : Z) : store * zaclr_stack_value :=
  let '(s, _) := zaclr_stack_value_reset s v in
  (s, mk_value ZACLR_STACK_VALUE_BYREF 0 payload_size type_token_raw
        (Z.land flags 0xFFFFFFFE) 0 (DWord address)).

(** [*destination = {}] without a release: the destination is not read. *)
Definition zaclr_stack_value_clone (s : store) (source : zaclr_stack_value)
  : outcome unit * (store * zaclr_stack_value) :=
  if negb (is_valuetype source) then (Ret (), (s, source))
  else match zaclr_stack_value_payload s source with
       | Ret bytes => zaclr_stack_value_set_valuetype s zero_value (sv_type_token_raw source) bytes
                        (sv_payload_size source)
       | _ => (Fault, (s, zero_value))
       end.

(** [source] is not the value that is overwritten. *)
Definition zaclr_stack_value_assign (s : store) (destination source : zaclr_stack_value)
  : outcome unit * (store * zaclr_stack_value) :=
  let '(s, _) := zaclr_stack_value_reset s destination in
  match zaclr_stack_value_clone s source with
  | (Err r, (s, v)) => let '(s, v) := zaclr_stack_value_reset s v in (Err r, (s, v))
  | x => x
  end.

(** ** Stacks *)

Definition zaclr_eval_stack_initialize (s : store) (capacity : Z)
  : outcome unit * (store * zaclr_eval_stack) :=
  if capacity =? 0 then (Ret (), (s, empty_stack)) else
  let '(p, k) := kernel_alloc s.1 (sizeof_stack_value * capacity) in
  if p =? 0 then (Err (exec_error ZACLR_STATUS_OUT_OF_MEMORY), ((k, s.2), empty_stack))
  else (Ret (), ((k, s.2), mk_eval_stack p (replicate (Z.to_nat capacity) zero_value) 0 capacity)).

Definition reset_all (s : store) (l : list zaclr_stack_value) : store :=
  fold_left (fun s v => (zaclr_stack_value_reset s v).1) l s.

Definition zaclr_eval_stack_destroy (s : store) (stack : zaclr_eval_stack) : store * zaclr_eval_stack :=
  if es_buffer stack =? 0 then (s, empty_stack)
  else let s := reset_all s (es_values stack) in
       ((kernel_free s.1 (es_buffer stack), s.2), empty_stack).

Definition set_slot (stack : zaclr_eval_stack) (i : Z) (v : zaclr_stack_value) (depth : Z)
  : zaclr_eval_stack :=
  mk_eval_stack (es_buffer stack) (set (es_values stack) i v) depth (es_capacity stack).

Definition zaclr_eval_stack_push (s : store) (stack : zaclr_eval_stack) (value : zaclr_stack_value)
  : outcome unit * (store * zaclr_eval_stack) :=
  if es_capacity stack <=? es_depth stack
  then (Err (exec_error ZACLR_STATUS_BUFFER_TOO_SMALL), (s, stack)) else
  match es_values stack .@ (es_depth stack) with
  | None => (Fault, (s, stack))
  | Some slot =>
    match zaclr_stack_value_assign s slot value with
    | (Ret _, (s, v)) =>
      (Ret (), (s, set_slot stack (es_depth stack) v (u32 (es_depth stack + 1))))
    | (o, (s, v)) => (o, (s, set_slot stack (es_depth stack) v (es_depth stack)))
    end
  end.

Definition zaclr_eval_stack_pop (stack : zaclr_eval_stack)
  : outcome zaclr_stack_value * zaclr_eval_stack :=
  if es_depth stack =? 0 then (Err (exec_error ZACLR_STATUS_DISPATCH_ERROR), stack) else
  match es_values stack .@ (es_depth stack - 1) with
  | None => (Fault, stack)
  | Some v => (Ret v, set_slot stack (es_depth stack - 1) zero_value (es_depth stack - 1))
  end.

(** [destination] is the caller's value, which is overwritten. *)
Definition zaclr_eval_stack_peek (s : store) (stack : zaclr_eval_stack)
    (destination : zaclr_stack_value) : outcome unit * (store * zaclr_stack_value) :=
  if es_depth stack =? 0 then (Err (exec_error ZACLR_STATUS_DISPATCH_ERROR), (s, destination)) else
  match es_values stack .@ (es_depth stack - 1) with
  | None => (Fault, (s, destination))
  | Some v => zaclr_stack_value_assign s destination v
  end.

End values.
Arguments store K : clear implicits.

Definition zaclr_eval_stack_depth (stack : option zaclr_eval_stack) : Z :=
  match stack with Some s => es_depth s | None => 0 end.

(** ** Well-formed values *)

Section facts.
Context {K : Type} `{KernelHeapLaws K}.
Implicit Types (s : store K) (v : zaclr_stack_value) (st : zaclr_eval_stack).

Definition value_ok (s : store K) (v : zaclr_stack_value) : Prop :=
  is_valuetype v = true -> 0 <= sv_payload_size v /\
  if owns_flag v then
    16 < sv_payload_size v /\ exists p l, sv_data v = DWord p /\ p <> 0 /\ p ∈ live s.1 /\
      s.2 !! p = Some l /\ zlength l = sv_payload_size v
  else sv_payload_size v <= 16 /\
    (sv_payload_size v = 0 \/ exists l, sv_data v = DBytes l /\ zlength l = 16).

(** The payload of a value type. *)
Definition payload (s : store K) (v : zaclr_stack_value) : list byte :=
  match sv_data v with
  | DWord p => if owns_flag v then default [] (s.2 !! p) else []
  | DBytes l => take (Z.to_nat (sv_payload_size v)) l
  end.

(** Two values that mean the same: equal, or value types of the same type with the
    same payload. *)
Definition same_value (s : store K) (v : zaclr_stack_value) (s' : store K) (v' : zaclr_stack_value)
  : Prop :=
  if is_valuetype v then
    sv_kind v' = sv_kind v /\ sv_type_token_raw v' = sv_type_token_raw v /\
    sv_payload_size v' = sv_payload_size v /\
    (sv_payload_size v <> 0 -> payload s' v' = payload s v)
  else v' = v.

(** Live buffers keep their contents. *)
Definition extends (s s' : store K) : Prop :=
  forall p, p ∈ live s.1 -> p ∈ live s'.1 /\ s'.2 !! p = s.2 !! p.

Lemma extends_refl s : extends s s.
Proof. done. Qed.

Lemma value_ok_extends s s' v : extends s s' -> value_ok s v -> value_ok s' v.
Proof.
  intros He Hv Hk. destruct (Hv Hk) as [Hs Hd]. split; [done|].
  destruct (owns_flag v); [|done]. destruct Hd as (? & p & l & Hp & Hp0 & Hl & Hm & Hz).
  split; [done|]. exists p, l. destruct (He p Hl) as [? ->]. done.
Qed.

Lemma zero_value_ok s : value_ok s zero_value.
Proof. done. Qed.

Lemma owned_buffer_ok s v p :
  value_ok s v -> owned_buffer v = Some p -> p ∈ live s.1 /\ p <> 0.
Proof.
  unfold owned_buffer. intros Hv. destruct (is_valuetype v) eqn:Hk; [|done].
  destruct (owns_flag v) eqn:Ho; [|done]. simpl. destruct (Hv Hk) as [_ Hd]. rewrite Ho in Hd.
  destruct Hd as (_ & q & l & -> & Hq & Hl & _). rewrite (proj2 (Z.eqb_neq q 0)) by done.
  by intros [= <-].
Qed.

(** The payload pointer of a well-formed value points to its payload. *)
Lemma payload_ok s v :
  value_ok s v -> is_valuetype v = true ->
  exists bytes, zaclr_stack_value_payload s v = Ret (Some bytes) /\
    sv_payload_size v <= zlength bytes /\
    (sv_payload_size v <> 0 -> take (Z.to_nat (sv_payload_size v)) bytes = payload s v).
Proof.
  intros Hv Hk. destruct (Hv Hk) as [Hs Hd]. unfold zaclr_stack_value_payload, payload.
  rewrite Hk. simpl. destruct (owns_flag v).
  - destruct Hd as (_ & p & l & -> & Hp & _ & -> & Hz). rewrite (proj2 (Z.eqb_neq p 0)) by done.
    exists l. split; [done|]. split; [lia|]. intros _. simpl. apply take_ge. unfold zlength in Hz. lia.
  - destruct Hd as [Hsz [Hz0|(l & -> & Hl)]].
    + rewrite Hz0. destruct (sv_data v); eexists; (split; [done|]); (split; [apply zlength_nonneg|done]).
    + exists l. split; [done|]. split; [lia|done].
Qed.

Lemma inline_bytes_length l : zlength l <= 16 -> zlength (inline_bytes l) = 16.
Proof. unfold inline_bytes, zlength. rewrite length_app, length_replicate. lia. Qed.

(** A copy of a value: the same meaning, and a buffer of its own. *)
Lemma clone_spec s v :
  value_ok s v ->
  match zaclr_stack_value_clone s v with
  | (Ret _, (s', w)) => value_ok s' w /\ same_value s v s' w /\ extends s s' /\
      match owned_buffer w with
      | None => s' = s
      | Some p => (p ∉ live s.1) /\ live s'.1 = {[p]} ∪ live s.1
      end
  | (Err r, (s', w)) => r = exec_error ZACLR_STATUS_OUT_OF_MEMORY /\ w = zero_value /\
      live s'.1 = live s.1 /\ s'.2 = s.2
  | _ => False
  end.
Proof.
  intros Hv. unfold zaclr_stack_value_clone, same_value. destruct (is_valuetype v) eqn:Hk; simpl.
  2: { split; [done|]. split; [done|]. split; [apply extends_refl|].
       unfold owned_buffer. by rewrite Hk. }
  destruct (payload_ok s v Hv Hk) as (bytes & -> & Hlen & Hpay). destruct (Hv Hk) as [Hs _].
  unfold zaclr_stack_value_set_valuetype, zaclr_stack_value_reset.
  change (owned_buffer zero_value) with (@None Z). cbv iota beta.
  destruct (Z.eqb_spec (sv_payload_size v) 0) as [E0|E0].
  { split; [split; [simpl; lia|]; simpl; split; [lia|by left]|]. rewrite E0.
    split; [simpl; repeat split; try done; by apply Z.eqb_eq in Hk|]. split; [apply extends_refl|done]. }
  unfold copy_bytes. destruct (Z.ltb_spec (zlength bytes) (sv_payload_size v)); [lia|].
  specialize (Hpay E0).
  assert (zlength (take (Z.to_nat (sv_payload_size v)) bytes) = sv_payload_size v) as Hlt.
  { unfold zlength in *. rewrite length_take. lia. }
  assert (sv_kind v = ZACLR_STACK_VALUE_VALUETYPE) as Hkv by (by apply Z.eqb_eq).
  destruct (Z.leb_spec (sv_payload_size v) ZACLR_STACK_VALUE_INLINE_BUFFER_BYTES) as [Hin|Hout];
    unfold ZACLR_STACK_VALUE_INLINE_BUFFER_BYTES in *.
  - split; [split; [done|]; simpl; split; [done|]; right; eexists; split; [done|];
      apply inline_bytes_length; lia|].
    split; [|split; [apply extends_refl|done]]. do 3 (split; [done|]). intros _.
    unfold payload at 1, inline_bytes. simpl. rewrite <- Hpay.
    rewrite take_app_le by (unfold zlength in Hlt; lia). rewrite take_take. f_equal. lia.
  - destruct (kernel_alloc s.1 (sv_payload_size v)) as [p k] eqn:Ha. apply alloc_spec in Ha.
    case_if; [destruct Ha as [[_ Hl]|[? _]]; done|].
    destruct Ha as [[? _]|(Hp & Hf & Hl)]; [done|].
    assert (owned_buffer (mk_value ZACLR_STACK_VALUE_VALUETYPE 0 (sv_payload_size v)
      (sv_type_token_raw v) ZACLR_STACK_VALUE_FLAG_OWNS_BUFFER 0 (DWord p)) = Some p) as Hob.
    { unfold owned_buffer. simpl. by rewrite (proj2 (Z.eqb_neq p 0)). }
    rewrite Hob. split; [|split; [|split; [|done]]].
    + intros _. split; [done|]. simpl. split; [done|]. exists p, (take (Z.to_nat (sv_payload_size v)) bytes).
      rewrite lookup_insert_eq, Hl. split; [done|]. split; [done|].
      split; [by apply elem_of_union_l, elem_of_singleton_2|done].
    + do 3 (split; [done|]). intros _. rewrite <- Hpay. unfold payload. simpl.
      by rewrite lookup_insert_eq.
    + intros q Hq. simpl. rewrite Hl. split; [by apply elem_of_union_r|].
      rewrite lookup_insert_ne; [done|]. by intros <-.
Qed.

(** ** Well-formed stacks *)

Record stack_ok (s : store K) (st : zaclr_eval_stack) : Prop := {
  sk_length : zlength (es_values st) = es_capacity st;
  sk_depth : 0 <= es_depth st <= es_capacity st;
  sk_capacity : es_capacity st < 2 ^ 32;
  sk_above i v : es_depth st <= i -> es_values st .@ i = Some v -> v = zero_value;
  sk_values i v : es_values st .@ i = Some v -> value_ok s v;
  sk_owned i j v w p : es_values st .@ i = Some v -> es_values st .@ j = Some w ->
    owned_buffer v = Some p -> owned_buffer w = Some p -> i = j;
  sk_null : es_capacity st = 0 -> es_buffer st = 0;
  sk_buffer : es_capacity st <> 0 -> es_buffer st <> 0 /\ es_buffer st ∈ live s.1 /\
    forall i v, es_values st .@ i = Some v -> owned_buffer v <> Some (es_buffer st) }.

Lemma get_set_cases {A} (l : list A) i j x y :
  0 <= i < zlength l -> set l i x .@ j = Some y -> (j = i /\ y = x) \/ (j <> i /\ l .@ j = Some y).
Proof.
  intros Hi Hy. destruct (Z.eq_dec i j) as [<-|Hne].
  - rewrite get_set_eq in Hy by done. left. split; congruence.
  - rewrite get_set_ne in Hy by done. right. split; congruence.
Qed.

(** Writing a value with a buffer of its own into a slot. *)
Lemma stack_ok_set s s' st i w d :
  stack_ok s st -> extends s s' -> 0 <= i < es_capacity st -> 0 <= d <= es_capacity st ->
  value_ok s' w -> (d <= i -> w = zero_value) -> (forall j v, d <= j -> j <> i ->
    es_values st .@ j = Some v -> v = zero_value) ->
  (forall p, owned_buffer w = Some p -> p ∉ live s.1) ->
  stack_ok s' (set_slot st i w d).
Proof.
  intros [Hl Hd Hc Ha Hv Ho Hn Hb] He Hi Hd' Hw Hwz Hz Hfresh.
  split; cbn [es_values es_capacity es_depth es_buffer set_slot].
  - by rewrite zlength_set.
  - done.
  - done.
  - intros j v Hj Hget. apply get_set_cases in Hget as [[-> ->]|[Hne Hget]]; [auto|eauto|lia].
  - intros j v Hget. apply get_set_cases in Hget as [[-> ->]|[Hne Hget]]; [done| |lia].
    eapply value_ok_extends; [done|]. by eapply Hv.
  - intros j1 j2 v1 v2 p H1 H2 Hp1 Hp2.
    apply get_set_cases in H1 as [[-> ->]|[Hn1 H1]]; [| |lia];
      apply get_set_cases in H2 as [[-> ->]|[Hn2 H2]]; try lia.
    + exfalso. apply (Hfresh p Hp1). by apply (owned_buffer_ok s v2); [eapply Hv|].
    + exfalso. apply (Hfresh p Hp2). by apply (owned_buffer_ok s v1); [eapply Hv|].
    + by eapply Ho.
  - done.
  - intros Hcap. destruct (Hb Hcap) as (Hb0 & Hbl & Hbo). split; [done|].
    split; [by apply He|]. intros j v Hget. apply get_set_cases in Hget as [[-> ->]|[Hne Hget]];
      [|by eapply Hbo|lia]. intros Hp. by apply (Hfresh _ Hp).
Qed.

Lemma set_slot_same st i v : es_values st .@ i = Some v -> set_slot st i v (es_depth st) = st.
Proof.
  intros Hv. unfold set_slot. destruct st as [b l d c]. simpl in *. f_equal.
  unfold get, set in *. case_if; [done|]. by apply list_insert_id.
Qed.

(** ** Pushing and popping *)

Definition push_post (s : store K) (st : zaclr_eval_stack) (v : zaclr_stack_value) (o : outcome unit)
    (s' : store K) (st' : zaclr_eval_stack) : Prop :=
  match o with
  | Ret _ => stack_ok s' st' /\ extends s s' /\ es_depth st < es_capacity st /\
      es_depth st' = es_depth st + 1 /\
      (forall i, i <> es_depth st -> es_values st' .@ i = es_values st .@ i) /\
      exists w, es_values st' .@ (es_depth st) = Some w /\ same_value s v s' w
  | Err r => st' = st /\ live s'.1 = live s.1 /\ s'.2 = s.2 /\
      ((r = exec_error ZACLR_STATUS_BUFFER_TOO_SMALL /\ es_depth st = es_capacity st) \/
       r = exec_error ZACLR_STATUS_OUT_OF_MEMORY)
  | _ => False
  end.

Lemma push_spec s st v :
  stack_ok s st -> value_ok s v ->
  let '(o, (s', st')) := zaclr_eval_stack_push s st v in push_post s st v o s' st'.
Proof.
  intros Hok Hv. pose proof (sk_depth _ _ Hok). pose proof (sk_length _ _ Hok) as Hl.
  pose proof (sk_capacity _ _ Hok). unfold zaclr_eval_stack_push.
  case_if; [simpl; repeat split; try done; left; split; [done|lia]|].
  destruct (get_Some (es_values st) (es_depth st)) as [slot Hslot]; [lia|]. rewrite Hslot.
  assert (slot = zero_value) as -> by (eapply (sk_above _ _ Hok); [reflexivity|done]).
  unfold zaclr_stack_value_assign, zaclr_stack_value_reset at 1.
  change (owned_buffer zero_value) with (@None Z). cbv iota beta.
  pose proof (clone_spec s v Hv) as Hc.
  destruct (zaclr_stack_value_clone s v) as [[u|r| |] [s1 w]]; try done.
  - destruct Hc as (Hw & Hsame & He & Hob). rewrite u32_id by lia.
    assert (stack_ok s1 (set_slot st (es_depth st) w (es_depth st + 1))) as Hok'.
    { apply (stack_ok_set s s1); try done; try lia.
      - intros j x Hj _ Hx. eapply (sk_above _ _ Hok); [|done]. lia.
      - intros p Hp. rewrite Hp in Hob. apply Hob. }
    split; [done|]. split; [done|]. split; [done|]. split; [done|]. simpl.
    split; [intros i Hi; by rewrite get_set_ne|]. exists w. rewrite get_set_eq by lia. done.
  - destruct Hc as (-> & -> & Hlive & Hmem). unfold zaclr_stack_value_reset.
    change (owned_buffer zero_value) with (@None Z). cbv iota beta.
    rewrite (set_slot_same st _ zero_value Hslot). simpl. repeat split; try done. by right.
Qed.

Lemma pop_spec s st :
  stack_ok s st ->
  match zaclr_eval_stack_pop st with
  | (Ret v, st') => 0 < es_depth st /\ es_values st .@ (es_depth st - 1) = Some v /\ value_ok s v /\
      st' = set_slot st (es_depth st - 1) zero_value (es_depth st - 1) /\ stack_ok s st' /\
      (forall i w p, es_values st' .@ i = Some w -> owned_buffer v = Some p -> owned_buffer w <> Some p)
  | (Err r, st') => es_depth st = 0 /\ st' = st /\ r = exec_error ZACLR_STATUS_DISPATCH_ERROR
  | _ => False
  end.
Proof.
  intros Hok. pose proof (sk_depth _ _ Hok). pose proof (sk_length _ _ Hok) as Hl.
  unfold zaclr_eval_stack_pop. case_if; [done|].
  destruct (get_Some (es_values st) (es_depth st - 1)) as [v Hv]; [lia|]. rewrite Hv.
  split; [lia|]. split; [done|]. split; [by eapply (sk_values _ _ Hok)|]. split; [done|]. split.
  - apply (stack_ok_set s s); try done; try lia.
    intros j w Hj Hne Hw. eapply (sk_above _ _ Hok); [|done]. lia.
  - intros i w p Hi Hp Hwp. simpl in Hi. apply get_set_cases in Hi as [[_ ->]|[Hne Hi]]; [done| |lia].
    apply Hne. by eapply (sk_owned _ _ Hok).
Qed.

End facts.

(** Pushing a well-formed value on a well-formed stack stores a value of the
    same meaning (with a buffer of its own when the payload is large) on top,
    leaves everything below and every live buffer unchanged, and keeps the stack
    well formed; it fails only when the stack is full or memory is exhausted, and
    then changes nothing. *)
Theorem eval_push_correct {K} `{KernelHeapLaws K} (s : store K) st v :
  stack_ok s st -> value_ok s v ->
  let '(o, (s', st')) := zaclr_eval_stack_push s st v in push_post s st v o s' st'.
Proof. apply push_spec. Qed.

(** A pop after a successful push gives back a value of the same meaning and
    the stack as it was, and the popped value is the only owner of its buffer. *)
Theorem eval_push_pop {K} `{KernelHeapLaws K} (s s' : store K) st st' v :
  stack_ok s st -> value_ok s v -> zaclr_eval_stack_push s st v = (Ret (), (s', st')) ->
  exists w, zaclr_eval_stack_pop st' = (Ret w, st) /\ same_value s v s' w /\ value_ok s' w /\
    forall i x p, es_values st .@ i = Some x -> owned_buffer w = Some p -> owned_buffer x <> Some p.
Proof.
  intros Hok Hv Hpush. pose proof (push_spec s st v Hok Hv) as Hp. rewrite Hpush in Hp.
  destruct Hp as (Hok' & He & Hd & Hd' & Hbelow & w & Hw & Hsame).
  pose proof (pop_spec s' st' Hok') as Hpop. pose proof (sk_depth _ _ Hok).
  destruct (zaclr_eval_stack_pop st') as [[w'|r| |] st2]; try done; [|lia].
  destruct Hpop as (_ & Hw' & Hvok & Hst2 & _ & Hown). rewrite Hd', Z.add_simpl_r in Hw', Hst2.
  assert (w' = w) as -> by congruence.
  assert (st2 = st) as ->; [|exists w; done].
  rewrite Hst2. unfold zaclr_eval_stack_push in Hpush.
  destruct (Z.leb_spec (es_capacity st) (es_depth st)); [lia|].
  pose proof (sk_length _ _ Hok).
  destruct (get_Some (es_values st) (es_depth st)) as [slot Hslot]; [lia|]. rewrite Hslot in Hpush.
  destruct (zaclr_stack_value_assign s slot v) as [[[]|r| |] [s2 x]]; try done.
  injection Hpush as <- <-.
  assert (slot = zero_value) as -> by (eapply (sk_above _ _ Hok); [reflexivity|done]).
  unfold set_slot. cbn [es_buffer es_values es_capacity]. unfold set.
  destruct (Z.ltb_spec (es_depth st) 0); [lia|]. rewrite list_insert_insert_eq.
  destruct st as [b l d c]. simpl in *. f_equal.
  unfold get in Hslot. case_if_in Hslot; [done|]. by apply list_insert_id.
Qed.

(** ** Initialisation and destruction *)

Section lifecycle.
Context {K : Type} `{KernelHeapLaws K}.
Implicit Types (s : store K) (st : zaclr_eval_stack).

(** The buffers the values of a list own. *)
Definition owned_buffers (l : list zaclr_stack_value) : gset Z := list_to_set (omap owned_buffer l).

Lemma live_reset s v :
  live (zaclr_stack_value_reset s v).1.1 = live s.1 ∖ owned_buffers [v].
Proof.
  unfold zaclr_stack_value_reset, owned_buffers. simpl. destruct (owned_buffer v) as [p|]; simpl.
  - rewrite free_spec. by rewrite union_empty_r_L.
  - by rewrite difference_empty_L.
Qed.

Lemma live_reset_all l s : live (reset_all s l).1 = live s.1 ∖ owned_buffers l.
Proof.
  revert s. induction l as [|v l IH]; intros s.
  { unfold owned_buffers. simpl. by rewrite difference_empty_L. }
  change (reset_all s (v :: l)) with (reset_all (zaclr_stack_value_reset s v).1 l).
  rewrite IH, live_reset. unfold owned_buffers. simpl. destruct (owned_buffer v); set_solver.
Qed.

Lemma get_replicate {A} n (x y : A) i : replicate n x .@ i = Some y -> y = x.
Proof. unfold get. case_if; [done|]. intros Hy. by apply lookup_replicate_1 in Hy as [-> _]. Qed.

Lemma initialize_spec s capacity :
  0 <= capacity < 2 ^ 32 ->
  match zaclr_eval_stack_initialize s capacity with
  | (Ret _, (s', st)) => stack_ok s' st /\ es_depth st = 0 /\ es_capacity st = capacity /\
      extends s s' /\ (live s'.1 = if capacity =? 0 then live s.1 else {[es_buffer st]} ∪ live s.1) /\
      (capacity <> 0 -> es_buffer st ∉ live s.1)
  | (Err r, (s', st)) => r = exec_error ZACLR_STATUS_OUT_OF_MEMORY /\ st = empty_stack /\
      live s'.1 = live s.1 /\ s'.2 = s.2
  | _ => False
  end.
Proof.
  intros Hc. unfold zaclr_eval_stack_initialize. case_if.
  { subst. split; [|done].
    split; simpl; try done; try lia; intros *; by rewrite !get_nil. }
  destruct (kernel_alloc s.1 (sizeof_stack_value * capacity)) as [p k] eqn:Ha. apply alloc_spec in Ha.
  case_if; [destruct Ha as [[_ Hl]|[? _]]; done|].
  destruct Ha as [[? _]|(Hp & Hf & Hl)]; [done|].
  split; [|repeat split; try done].
  - split; simpl; try done.
    + unfold zlength. rewrite length_replicate. lia.
    + lia.
    + lia.
    + intros i v _ Hv. by apply get_replicate in Hv.
    + intros i v Hv. apply get_replicate in Hv as ->. apply zero_value_ok.
    + intros i j v w q Hv Hw Hq. by apply get_replicate in Hv as ->.
    + intros _. split; [done|]. rewrite Hl. split; [set_solver|].
      intros i v Hv. by apply get_replicate in Hv as ->.
  - simpl. rewrite Hl. set_solver.
Qed.

Lemma destroy_spec s st :
  stack_ok s st ->
  let '(s', st') := zaclr_eval_stack_destroy s st in
  st' = empty_stack /\
  live s'.1 = live s.1 ∖ (owned_buffers (es_values st) ∪
                           if es_capacity st =? 0 then ∅ else {[es_buffer st]}).
Proof.
  intros Hok. unfold zaclr_eval_stack_destroy.
  destruct (Z.eqb_spec (es_capacity st) 0) as [Hc|Hc].
  - assert (es_values st = []) as Hnil.
    { pose proof (sk_length _ _ Hok). destruct (es_values st); [done|].
      unfold zlength in *. simpl in *. lia. }
    rewrite Hnil, (sk_null _ _ Hok Hc). split; [done|]. unfold owned_buffers. simpl. set_solver.
  - destruct (sk_buffer _ _ Hok Hc) as (Hb & _). rewrite (proj2 (Z.eqb_neq _ _) Hb).
    split; [done|]. simpl. rewrite free_spec, live_reset_all. set_solver.
Qed.

End lifecycle.

(** Initialisation gives an empty well-formed stack of the requested capacity
    with a fresh buffer (or reports that memory is exhausted and takes none); the
    destruction of a well-formed stack releases its buffer and exactly the buffers
    its values own. *)
Theorem eval_stack_lifecycle {K} `{KernelHeapLaws K} (s : store K) capacity :
  0 <= capacity < 2 ^ 32 ->
  match zaclr_eval_stack_initialize s capacity with
  | (Ret _, (s', st)) => stack_ok s' st /\ es_depth st = 0 /\ es_capacity st = capacity /\
      extends s s' /\ (live s'.1 = if capacity =? 0 then live s.1 else {[es_buffer st]} ∪ live s.1) /\
      (capacity <> 0 -> es_buffer st ∉ live s.1)
  | (Err r, (s', st)) => r = exec_error ZACLR_STATUS_OUT_OF_MEMORY /\ st = empty_stack /\
      live s'.1 = live s.1 /\ s'.2 = s.2
  | _ => False
  end /\
  forall (s' : store K) st, stack_ok s' st ->
  let '(s2, st2) := zaclr_eval_stack_destroy s' st in
  st2 = empty_stack /\
  live s2.1 = live s'.1 ∖ (owned_buffers (es_values st) ∪
                            if es_capacity st =? 0 then ∅ else {[es_buffer st]}).
Proof. intros Hc. split; [by apply initialize_spec|intros; by apply destroy_spec]. Qed.

(** ** A concrete stack: two slots, and a value type of 20 bytes on top *)

Definition example_store : store small_heap := (mk_small_heap 3 {[1%positive]}, ∅).
Definition example_stack : zaclr_eval_stack := mk_eval_stack 1 [zero_value; zero_value] 0 2.
Definition example_payload : list byte := replicate 20 x2a.
Definition example_big : store small_heap * zaclr_stack_value :=
  (zaclr_stack_value_set_valuetype example_store zero_value 0x02000003 (Some example_payload) 20).2.

Lemma example_big_ok : value_ok example_big.1 example_big.2.
Proof.
  intros _. split; [done|]. split; [done|]. exists 2, example_payload. split; [done|]. split; [done|].
  split; [by apply (bool_decide_unpack _)|]. done.
Qed.

Lemma example_stack_ok : stack_ok example_big.1 example_stack.
Proof.
  assert (forall i v, es_values example_stack .@ i = Some v -> v = zero_value) as Hz.
  { intros i v Hv. by apply (get_replicate 2) in Hv. }
  split; try done.
  - intros i v _ Hv. by apply (Hz i).
  - intros i v Hv. by rewrite (Hz i v Hv).
  - intros i j v w p Hv _ Hp. by rewrite (Hz i v Hv) in Hp.
  - intros _. split; [done|]. split; [by apply (bool_decide_unpack _)|].
    intros i v Hv. by rewrite (Hz i v Hv).
Qed.

Lemma eval_push_correct_witness :
  (zaclr_eval_stack_push example_big.1 example_stack example_big.2).1 = Ret () /\
  let '(o, (s', st')) := zaclr_eval_stack_push example_big.1 example_stack example_big.2 in
  push_post example_big.1 example_stack example_big.2 o s' st'.
Proof.
  split; [vm_compute; reflexivity|].
  exact (eval_push_correct example_big.1 example_stack example_big.2 example_stack_ok example_big_ok).
Defined.

Lemma eval_push_pop_witness :
  let '(_, (s', st')) := zaclr_eval_stack_push example_big.1 example_stack example_big.2 in
  exists w, zaclr_eval_stack_pop st' = (Ret w, example_stack) /\
    same_value example_big.1 example_big.2 s' w /\ value_ok s' w /\
    forall i x p, es_values example_stack .@ i = Some x -> owned_buffer w = Some p ->
      owned_buffer x <> Some p.
Proof.
  exact (eval_push_pop example_big.1 _ example_stack _ example_big.2 example_stack_ok example_big_ok
           eq_refl).
Defined.

Lemma eval_stack_lifecycle_witness :
  (zaclr_eval_stack_initialize example_store 2).1 = Ret () /\ stack_ok example_big.1 example_stack /\
  (zaclr_eval_stack_destroy example_big.1 example_stack).2 = empty_stack.
Proof.
  split; [vm_compute; reflexivity|]. split; [exact example_stack_ok|].
  destruct (eval_stack_lifecycle example_store 2) as [_ Hd]; [lia|].
  exact (proj1 (Hd example_big.1 example_stack example_stack_ok)).
Defined.
