(* ===== verification/ManagedObject.v ===== *)
(** * Managed objects

    The part of [zaclr/heap/zaclr_object.cpp] the collector and the field
    instructions rest on: the object header and its accessors, the search for the
    layout of a field along the chain of method tables, and the transfer of a
    value between an evaluation-stack slot and the bytes of a field.

    An object is the record of its header and a body per layout: arrays and the
    field areas of instances are bytes, references being 8-byte little-endian
    words with 0 for [NULL]; an instance without a prepared method table keeps an
    array of stack values instead.  Method tables are immutable once an object
    points to them and are represented by their contents. *)

From Stdlib Require Import Strings.Byte.
From S2P Require Import Prelude Status Bytes Token KernelHeap MethodMap TypeMap EvalStack Signature.

Definition ZACLR_OBJECT_FAMILY_UNKNOWN : Z := 0.
Definition ZACLR_OBJECT_FAMILY_INSTANCE : Z := 1.
Definition ZACLR_OBJECT_FAMILY_ARRAY : Z := 2.
Definition ZACLR_OBJECT_FAMILY_STRING : Z := 3.
Definition ZACLR_OBJECT_FAMILY_RUNTIME_TYPE : Z := 4.

Definition ZACLR_OBJECT_FLAG_STRING : Z := 0x1.
Definition ZACLR_OBJECT_FLAG_BOXED_VALUE : Z := 0x2.
Definition ZACLR_OBJECT_FLAG_REFERENCE_TYPE : Z := 0x4.
Definition ZACLR_OBJECT_FLAG_CONTAINS_REFERENCES : Z := 0x8.

Definition ZACLR_OBJECT_GC_STATE_NONE : Z := 0.
Definition ZACLR_OBJECT_GC_STATE_PINNED : Z := 0x01.
Definition ZACLR_OBJECT_GC_STATE_FINALIZER_PENDING : Z := 0x02.
Definition ZACLR_OBJECT_GC_STATE_FINALIZER_QUEUED : Z := 0x04.
Definition ZACLR_OBJECT_GC_STATE_FINALIZER_COMPLETE : Z := 0x08.
Definition ZACLR_OBJECT_GC_STATE_FINALIZER_SUPPRESSED : Z := 0x10.

Record zaclr_field_layout := mk_field_layout {
  fl_field_token_row : Z; fl_byte_offset : Z; fl_nested_type_token_raw : Z;
  fl_element_type : Z; fl_is_reference : Z; fl_is_static : Z; fl_field_size : Z }.

(** The members of [struct zaclr_method_table] that objects are accessed through;
    [instance_fields] is [None] for [NULL]. *)
Inductive zaclr_method_table := mk_method_table {
  mt_type_desc : option zaclr_type_desc;
  mt_parent : option zaclr_method_table;
  mt_instance_fields : option (list zaclr_field_layout) }.

Inductive reference_storage :=
| Fields (data : list byte)
| Compat (values : list zaclr_stack_value).

(** What follows the object header. *)
Inductive object_body :=
| BodyPlain (data : list byte)
| BodyArray (length element_size : Z) (element_type : zaclr_token) (data : list byte)
| BodyBoxed (type_token_raw : Z) (value : zaclr_stack_value)
| BodyReference (compatibility_field_capacity : Z) (storage : reference_storage).

Record zaclr_object_desc := mk_object {
  ob_size_bytes : Z; ob_family : Z; ob_gc_mark : Z; ob_gc_state : Z;
  ob_flags : Z; ob_method_table : option zaclr_method_table;
  ob_type_id : Z; ob_body : object_body }.

Definition set_gc_mark (o : zaclr_object_desc) (m : Z) : zaclr_object_desc :=
  mk_object (ob_size_bytes o) (ob_family o) m (ob_gc_state o) (ob_flags o) (ob_method_table o)
    (ob_type_id o) (ob_body o).

Definition set_gc_state (o : zaclr_object_desc) (s : Z) : zaclr_object_desc :=
  mk_object (ob_size_bytes o) (ob_family o) (ob_gc_mark o) s (ob_flags o) (ob_method_table o)
    (ob_type_id o) (ob_body o).

(** ** Accessors *)

Definition zaclr_object_contains_references (o : zaclr_object_desc) : bool :=
  flag_set (ob_flags o) ZACLR_OBJECT_FLAG_CONTAINS_REFERENCES.

Definition zaclr_object_is_marked (o : zaclr_object_desc) : bool := negb (ob_gc_mark o =? 0).

Definition zaclr_object_set_marked (o : zaclr_object_desc) (marked : Z) : zaclr_object_desc :=
  set_gc_mark o (if negb (marked =? 0) then 1 else 0).

Definition zaclr_stack_value_contains_references (v : zaclr_stack_value) : outcome bool :=
  if sv_kind v =? ZACLR_STACK_VALUE_OBJECT_REFERENCE then
    match sv_data v with DWord p => Ret (negb (p =? 0)) | DBytes _ => Fault end
  else Ret false.

(** ** The layout of a field *)

Definition layout_matches (row : Z) (layout : zaclr_field_layout) : bool :=
  (fl_is_static layout =? 0) && (fl_field_token_row layout =? row).

Fixpoint find_field_layout_in (mt : zaclr_method_table) (row : Z) : option zaclr_field_layout :=
  match default None (find (layout_matches row) <$> mt_instance_fields mt) with
  | Some layout => Some layout
  | None => match mt_parent mt with Some parent => find_field_layout_in parent row | None => None end
  end.

Definition find_field_layout (o : zaclr_object_desc) (token : zaclr_token) : option zaclr_field_layout :=
  if negb (zaclr_token_matches_table (Some token) ZACLR_TOKEN_TABLE_FIELD) then None
  else match ob_method_table o with
       | Some mt => find_field_layout_in mt (zaclr_token_row (Some token))
       | None => None
       end.

(** [instance_field_base(object) != NULL]. *)
Definition has_instance_field_base (o : zaclr_object_desc) : bool :=
  (ob_family o =? ZACLR_OBJECT_FAMILY_INSTANCE) || (ob_family o =? ZACLR_OBJECT_FAMILY_STRING)
  || (ob_family o =? ZACLR_OBJECT_FAMILY_RUNTIME_TYPE).

(** The address of a field, as its offset in the field area. *)
Definition object_instance_field_address (o : zaclr_object_desc) (token : zaclr_token) : option Z :=
  match find_field_layout o token with
  | Some layout => if has_instance_field_base o then Some (fl_byte_offset layout) else None
  | None => None
  end.

(** ** Words in a byte area *)

Definition read_u64 (m : memory) (p : Z) : outcome Z :=
  lo ← read_u32 m p;
  hi ← read_u32 m (p + 4);
  Ret (lo + hi * 2 ^ 32).

(** The little-endian bytes of a word. *)
Fixpoint le_bytes (n : nat) (v : Z) : list byte :=
  match n with O => [] | S n => byte_of_Z v :: le_bytes n (v / 256) end.

(** The word at the start of a list of bytes. *)
Fixpoint le_word (l : list byte) : Z :=
  match l with [] => 0 | b :: l => byte_Z b + 256 * le_word l end.

(** [kernel_memcpy(data + offset, bytes, length)]. *)
Definition write_bytes (data : list byte) (offset : Z) (bytes : list byte) : outcome (list byte) :=
  if (offset <? 0) || (zlength data <? offset + zlength bytes) then Fault
  else Ret (take (Z.to_nat offset) data ++ bytes
            ++ drop (Z.to_nat (offset + zlength bytes)) data).

(** [kernel_memcpy(&local, data + offset, size)]. *)
Definition read_bytes (data : list byte) (offset size : Z) : outcome (list byte) :=
  if (offset <? 0) || (zlength data <? offset + size) then Fault else Ret (chars data offset size).

(** ** Values in fields *)

Definition heap_error (s : zaclr_status) : zaclr_result :=
  zaclr_result_make s ZACLR_STATUS_CATEGORY_HEAP.

Definition field_width (size : Z) : bool :=
  (size =? 1) || (size =? 2) || (size =? 4) || (size =? 8).

Definition value_word (v : zaclr_stack_value) : outcome Z :=
  match sv_data v with DWord w => Ret w | DBytes _ => Fault end.

(** [address] is an offset in the field area [data]. *)
Definition store_field_value (data : list byte) (address : option Z) (layout : zaclr_field_layout)
    (value : zaclr_stack_value) : outcome (list byte) :=
  match address with
  | None => Err (heap_error ZACLR_STATUS_INVALID_ARGUMENT)
  | Some address =>
    require negb (fl_element_type layout =? ZACLR_ELEMENT_TYPE_VALUETYPE)
            || field_width (fl_field_size layout)
               && ((sv_kind value =? ZACLR_STACK_VALUE_I4) || (sv_kind value =? ZACLR_STACK_VALUE_I8))
      else heap_error ZACLR_STATUS_NOT_IMPLEMENTED;
    if negb (fl_is_reference layout =? 0) then
      reference ← (if sv_kind value =? ZACLR_STACK_VALUE_OBJECT_REFERENCE then value_word value
                   else Ret 0);
      write_bytes data address (le_bytes 8 reference)
    else
      wide ← (if sv_kind value =? ZACLR_STACK_VALUE_I8 then w ← value_word value; Ret (u64 w)
              else if sv_kind value =? ZACLR_STACK_VALUE_I4 then w ← value_word value; Ret (u32 w)
              else Err (heap_error ZACLR_STATUS_NOT_IMPLEMENTED));
      require field_width (fl_field_size layout) else heap_error ZACLR_STATUS_NOT_IMPLEMENTED;
      write_bytes data address (le_bytes (Z.to_nat (fl_field_size layout)) wide)
  end.

Section load.
Context {K : Type} `{KernelHeap K}.

Definition load_field_value (s : store K) (data : list byte) (address : option Z)
    (layout : zaclr_field_layout) (out_value : zaclr_stack_value)
  : outcome unit * (store K * zaclr_stack_value) :=
  match address with
  | None => (Err (heap_error ZACLR_STATUS_INVALID_ARGUMENT), (s, out_value))
  | Some address =>
    if fl_element_type layout =? ZACLR_ELEMENT_TYPE_VALUETYPE then
      zaclr_stack_value_set_valuetype s zero_value (fl_nested_type_token_raw layout)
        (Some (drop (Z.to_nat address) data)) (fl_field_size layout)
    else if negb (fl_is_reference layout =? 0) then
      match read_bytes data address 8 with
      | Ret l => (Ret (), (s, mk_value ZACLR_STACK_VALUE_OBJECT_REFERENCE 0 0 0 0 0 (DWord (le_word l))))
      | _ => (Fault, (s, zero_value))
      end
    else if fl_field_size layout <=? 4 then
      match read_bytes data address (fl_field_size layout) with
      | Ret l => (Ret (), (s, mk_value ZACLR_STACK_VALUE_I4 0 0 0 0 0 (DWord (i32 (le_word l)))))
      | _ => (Fault, (s, zero_value))
      end
    else if fl_field_size layout =? 8 then
      match read_bytes data address 8 with
      | Ret l => (Ret (), (s, mk_value ZACLR_STACK_VALUE_I8 0 0 0 0 0 (DWord (i64 (le_word l)))))
      | _ => (Fault, (s, zero_value))
      end
    else (Err (heap_error ZACLR_STATUS_NOT_IMPLEMENTED), (s, zero_value))
  end.
End load.

(** ** The references of an object *)

(** The field references [zaclr_gc_mark_reference_object_children] follows. *)
Definition field_reference (o : zaclr_object_desc) (storage : reference_storage)
    (layout : zaclr_field_layout) : outcome (list Z) :=
  if negb (fl_is_static layout =? 0) || (fl_is_reference layout =? 0) then Ret []
  else match object_instance_field_address o
               (token_of ZACLR_TOKEN_TABLE_FIELD (fl_field_token_row layout)) with
       | None => Ret []
       | Some address =>
         match storage with
         | Fields data => p ← read_u64 data address; Ret [p]
         | Compat _ => Fault
         end
       end.

Definition value_reference (v : zaclr_stack_value) : outcome (list Z) :=
  b ← zaclr_stack_value_contains_references v;
  if (b : bool) then p ← value_word v; Ret [p] else Ret [].

(** The references collected from the parts of an object, in order. *)
Fixpoint collect {A} (f : A -> outcome (list Z)) (l : list A) : outcome (list Z) :=
  match l with
  | [] => Ret []
  | x :: l => ps ← f x; qs ← collect f l; Ret (ps ++ qs)
  end.

Definition reference_object_children (o : zaclr_object_desc) (capacity : Z)
    (storage : reference_storage) : outcome (list Z) :=
  match ob_method_table o ≫= mt_instance_fields with
  | Some fields => collect (field_reference o storage) fields
  | None =>
    if capacity =? 0 then Ret [] else
    match storage with
    | Compat values =>
      if zlength values <? capacity then Fault
      else collect value_reference (take (Z.to_nat capacity) values)
    | Fields _ => Fault
    end
  end.

(** [length] is an [int32_t] compared with an unsigned index. *)
Definition array_children (o : zaclr_object_desc) (length element_size : Z) (data : list byte)
  : outcome (list Z) :=
  if negb (zaclr_object_contains_references o) || negb (element_size =? 8) then Ret []
  else if zlength data <? 8 * u32 length then Fault
  else collect (fun index => p ← read_u64 data (8 * index); Ret [p]) (seqZ 0 (u32 length)).

(** The objects [zaclr_gc_mark_object_children] marks, in order ([NULL] included);
    a header that does not describe the body is a [Fault]. *)
Definition object_children (o : zaclr_object_desc) : outcome (list Z) :=
  if ob_family o =? ZACLR_OBJECT_FAMILY_ARRAY then
    match ob_body o with
    | BodyArray length element_size _ data => array_children o length element_size data
    | _ => Fault
    end
  else if ob_family o =? ZACLR_OBJECT_FAMILY_INSTANCE then
    if flag_set (ob_flags o) ZACLR_OBJECT_FLAG_BOXED_VALUE then
      match ob_body o with BodyBoxed _ value => value_reference value | _ => Fault end
    else if flag_set (ob_flags o) ZACLR_OBJECT_FLAG_REFERENCE_TYPE then
      match ob_body o with
      | BodyReference capacity storage => reference_object_children o capacity storage
      | _ => Fault
      end
    else Ret []
  else Ret [].

(** ** Facts *)

Lemma le_bytes_length n v : length (le_bytes n v) = n.
Proof. revert v. induction n; intros v; simpl; [done|]. by rewrite IHn. Qed.

Lemma le_word_bytes n v : le_word (le_bytes n v) = v mod 256 ^ Z.of_nat n.
Proof.
  revert v. induction n as [|n IH]; intros v; cbn [le_bytes le_word]; [by rewrite Z.mod_1_r|].
  rewrite IH, byte_Z_of_Z. unfold u8. rewrite Nat2Z.inj_succ, Z.pow_succ_r by lia.
  pose proof (Z.pow_pos_nonneg 256 (Z.of_nat n)). rewrite Z.rem_mul_r by lia.
  change (2 ^ 8) with 256. lia.
Qed.

Lemma write_bytes_Ret data off bytes :
  0 <= off -> off + zlength bytes <= zlength data ->
  exists data', write_bytes data off bytes = Ret data' /\ zlength data' = zlength data /\
    read_bytes data' off (zlength bytes) = Ret bytes /\
    (forall o n, 0 <= o -> 0 <= n -> o + n <= off \/ off + zlength bytes <= o ->
       read_bytes data' o n = read_bytes data o n).
Proof.
  intros H0 Hle. unfold write_bytes.
  destruct (Z.ltb_spec off 0); [lia|]. destruct (Z.ltb_spec (zlength data) (off + zlength bytes)); [lia|].
  simpl. eexists. split; [reflexivity|].
  assert (length (take (Z.to_nat off) data) = Z.to_nat off) as Hoff.
  { unfold zlength in *. rewrite length_take. lia. }
  assert (zlength (take (Z.to_nat off) data ++ bytes ++ drop (Z.to_nat (off + zlength bytes)) data)
          = zlength data) as Hlen.
  { unfold zlength in *. rewrite !length_app, Hoff, length_drop. lia. }
  split; [done|]. unfold read_bytes. rewrite Hlen. split.
  - destruct (Z.ltb_spec off 0); [lia|]. destruct (Z.ltb_spec (zlength data) (off + zlength bytes)); [lia|].
    simpl. f_equal. unfold chars. rewrite drop_app_length' by done. unfold zlength.
    rewrite Nat2Z.id. by rewrite take_app_length.
  - intros o n Ho Hn Hd. destruct ((o <? 0) || (zlength data <? o + n)) eqn:E; [done|]. bool_cases.
    f_equal. unfold chars. unfold zlength in *. destruct Hd as [Hd|Hd].
    + rewrite drop_app_le by lia. rewrite take_app_le by (rewrite length_drop; lia).
      rewrite !skipn_firstn_comm, take_take. f_equal. lia.
    + rewrite app_assoc, drop_app_ge by (rewrite length_app; lia).
      rewrite drop_drop. do 2 f_equal. rewrite length_app. lia.
Qed.

(** The value a field of [size] bytes can hold, read back as the code does. *)
Definition field_value (size : Z) (w : Z) : zaclr_stack_value :=
  if size <=? 4 then mk_value ZACLR_STACK_VALUE_I4 0 0 0 0 0 (DWord (i32 (w mod 256 ^ size)))
  else mk_value ZACLR_STACK_VALUE_I8 0 0 0 0 0 (DWord (i64 w)).

Definition reference_value (p : Z) : zaclr_stack_value :=
  mk_value ZACLR_STACK_VALUE_OBJECT_REFERENCE 0 0 0 0 0 (DWord p).

Lemma field_width_cases size : field_width size = true -> size = 1 \/ size = 2 \/ size = 4 \/ size = 8.
Proof. unfold field_width. rewrite !orb_true_iff. intros [[[H|H]|H]|H]; bool_cases; lia. Qed.

Lemma i64_mod w : i64 (w mod 256 ^ 8) = i64 w.
Proof. unfold i64, u64. change (256 ^ 8) with (2 ^ 64). by rewrite Z.mod_mod by lia. Qed.

Lemma store_word data address n w :
  0 <= address -> address + Z.of_nat n <= zlength data ->
  exists data', write_bytes data address (le_bytes n w) = Ret data' /\ zlength data' = zlength data /\
    (exists l, read_bytes data' address (Z.of_nat n) = Ret l /\ le_word l = w mod 256 ^ Z.of_nat n) /\
    (forall o k, 0 <= o -> 0 <= k -> o + k <= address \/ address + Z.of_nat n <= o ->
       read_bytes data' o k = read_bytes data o k).
Proof.
  intros H0 Hle. assert (zlength (le_bytes n w) = Z.of_nat n) as Hl.
  { unfold zlength. by rewrite le_bytes_length. }
  destruct (write_bytes_Ret data address (le_bytes n w)) as (d & Hw & Hd & Hr & Hf); [lia|lia|].
  rewrite Hl in Hr, Hf. exists d. split; [done|]. split; [done|]. split; [|done].
  eexists. split; [done|]. apply le_word_bytes.
Qed.

(** The 64-bit pattern an integer value is stored from. *)
Definition integer_word (v : zaclr_stack_value) : option Z :=
  match sv_data v with
  | DWord w => if sv_kind v =? ZACLR_STACK_VALUE_I8 then Some (u64 w)
               else if sv_kind v =? ZACLR_STACK_VALUE_I4 then Some (u32 w) else None
  | DBytes _ => None
  end.

(** The number of bytes a field takes. *)
Definition field_bytes (layout : zaclr_field_layout) : Z :=
  if fl_is_reference layout =? 0 then fl_field_size layout else 8.

(** The value a load gives after a store of [v]; [None] when [v] does not fit the
    kind of the field. *)
Definition loaded_value (layout : zaclr_field_layout) (v : zaclr_stack_value) : option zaclr_stack_value :=
  if fl_is_reference layout =? 0 then
    if field_width (fl_field_size layout)
    then field_value (fl_field_size layout) <$> integer_word v else None
  else if sv_kind v =? ZACLR_STACK_VALUE_OBJECT_REFERENCE then
    match sv_data v with DWord p => Some (reference_value (u64 p)) | DBytes _ => None end
  else Some (reference_value 0).

(** Storing a value into a field and loading it gives the value back (an
    integer reduced to the width of the field, a reference as it was, anything
    else stored into a reference field as null), the bytes outside the field are
    unchanged, and neither operation leaves the field area. *)
Theorem field_store_load {K} `{KernelHeap K} (s : store K) data address layout v v' out :
  fl_element_type layout <> ZACLR_ELEMENT_TYPE_VALUETYPE ->
  0 <= address -> address + field_bytes layout <= zlength data ->
  loaded_value layout v = Some v' ->
  exists data', store_field_value data (Some address) layout v = Ret data' /\
    zlength data' = zlength data /\
    load_field_value s data' (Some address) layout out = (Ret (), (s, v')) /\
    (forall o n, 0 <= o -> 0 <= n -> o + n <= address \/ address + field_bytes layout <= o ->
       read_bytes data' o n = read_bytes data o n).
Proof.
  intros Het H0 Hle Hv. unfold store_field_value, load_field_value, loaded_value, field_bytes in *.
  rewrite (proj2 (Z.eqb_neq _ _) Het). destruct (Z.eqb_spec (fl_is_reference layout) 0); cbn [negb orb].
  - destruct (field_width (fl_field_size layout)) eqn:Hw; [|done].
    apply field_width_cases in Hw as Hc. unfold integer_word in Hv.
    set (n := Z.to_nat (fl_field_size layout)).
    assert (Z.of_nat n = fl_field_size layout) as Hn by (subst n; lia).
    assert (exists wide, (if sv_kind v =? ZACLR_STACK_VALUE_I8 then w ← value_word v; Ret (u64 w)
              else if sv_kind v =? ZACLR_STACK_VALUE_I4 then w ← value_word v; Ret (u32 w)
              else Err (heap_error ZACLR_STATUS_NOT_IMPLEMENTED)) = Ret wide /\
              field_value (fl_field_size layout) wide = v') as (wide & -> & <-).
    { unfold value_word. destruct (sv_data v) as [w|]; [|done].
      destruct (sv_kind v =? _); [simplify_eq/=; eauto|].
      destruct (sv_kind v =? _); [simplify_eq/=; eauto|done]. }
    rewrite Ret_bind.
    destruct (store_word data address n wide) as (d & -> & Hd & (l & Hr & Hl) & Hf); [lia|lia|].
    rewrite Hn in Hr, Hl, Hf. exists d. split; [done|]. split; [done|]. split; [|done].
    unfold field_value. destruct (Z.leb_spec (fl_field_size layout) 4).
    + by rewrite Hr, Hl.
    + assert (fl_field_size layout = 8) as E by lia. rewrite E in *. simpl. rewrite Hr, Hl, i64_mod. done.
  - assert (exists p, (if sv_kind v =? ZACLR_STACK_VALUE_OBJECT_REFERENCE then value_word v else Ret 0) = Ret p
      /\ v' = reference_value (u64 p)) as (p & -> & ->).
    { unfold value_word. destruct (sv_kind v =? _); [|simplify_eq; by exists 0].
      destruct (sv_data v) as [p|]; simplify_eq. by exists p. }
    rewrite Ret_bind.
    destruct (store_word data address 8 p) as (d & -> & Hd & (l & Hr & Hl) & Hf); [lia|lia|].
    change (Z.of_nat 8) with 8 in *. exists d. split; [done|]. split; [done|]. split; [|done].
    by rewrite Hr, Hl.
Qed.

(** ** Concrete fields *)

Definition sbyte_layout : zaclr_field_layout := mk_field_layout 1 4 0 0x04 0 0 1.

Definition i4_value (w : Z) : zaclr_stack_value := mk_value ZACLR_STACK_VALUE_I4 0 0 0 0 0 (DWord w).

Lemma field_store_load_witness :
  exists data', store_field_value (replicate 16 x00) (Some 8) (mk_field_layout 1 8 0 0x08 0 0 4)
                  (i4_value (-5)) = Ret data' /\
    zlength data' = 16 /\
    load_field_value (mk_small_heap 1 ∅, ∅) data' (Some 8) (mk_field_layout 1 8 0 0x08 0 0 4) zero_value
    = (Ret (), ((mk_small_heap 1 ∅, ∅), i4_value (-5))) /\
    (forall o n, 0 <= o -> 0 <= n -> o + n <= 8 \/ 8 + 4 <= o ->
       read_bytes data' o n = read_bytes (replicate 16 x00) o n).
Proof.
  apply (field_store_load (mk_small_heap 1 ∅, ∅) (replicate 16 x00) 8
           (mk_field_layout 1 8 0 0x08 0 0 4) (i4_value (-5)) (i4_value (-5)) zero_value);
    [discriminate|lia|vm_compute; discriminate|vm_compute; reflexivity].
Defined.

(** A signed byte field (element type I1) loses the sign of its value: loads of
    one- and two-byte fields zero-extend whatever the element type. *)
Lemma signed_field_zero_extended :
  exists data, store_field_value (replicate 8 x00) (Some 4) sbyte_layout (i4_value (-1)) = Ret data /\
    (load_field_value (mk_small_heap 1 ∅, ∅) data (Some 4) sbyte_layout zero_value).2.2 = i4_value 255.
Proof.
  exists (replicate 4 x00 ++ [xff; x00; x00; x00]).
  split; [vm_compute; reflexivity|].
  reflexivity.
Qed.
