(* ===== verification/ManagedHeap.v ===== *)
(** * The managed heap

    [zaclr/heap/zaclr_heap.cpp]: the table of nodes that lists the objects of the
    heap, its accounting, and the sweep.  The state is the kernel heap, the
    objects in memory by address, and the heap record.  The allocation of objects
    runs the collector and is in [Gc.v]. *)

From Stdlib Require Import Strings.Byte.
From S2P Require Import Prelude Status Bytes KernelHeap EvalStack ManagedObject.

Definition ZACLR_HEAP_FLAG_GC_ACTIVE : Z := 0x1.
Definition ZACLR_HEAP_DEFAULT_THRESHOLD_BYTES : Z := 64 * 1024.

Record zaclr_heap_object_node := mk_node {
  nd_object : Z; nd_allocation_size : Z; nd_used : Z }.

(** [runtime] is a pointer that is only tested here; [nodes] is a buffer and its
    contents. *)
Record zaclr_heap := mk_heap {
  hp_runtime : bool; hp_flags : Z; hp_buffer : Z; hp_nodes : list zaclr_heap_object_node;
  hp_node_count : Z; hp_node_capacity : Z; hp_live_object_count : Z; hp_allocated_bytes : Z;
  hp_collection_threshold_bytes : Z; hp_collection_count : Z }.

#[global] Instance node_eq_dec : EqDecision zaclr_heap_object_node.
Proof. solve_decision. Defined.

Definition zero_node : zaclr_heap_object_node := mk_node 0 0 0.
Definition sizeof_node : Z := 16.
Definition zero_heap : zaclr_heap := mk_heap false 0 0 [] 0 0 0 0 0 0.

Definition set_nodes (h : zaclr_heap) (nodes : list zaclr_heap_object_node) : zaclr_heap :=
  mk_heap (hp_runtime h) (hp_flags h) (hp_buffer h) nodes (hp_node_count h) (hp_node_capacity h)
    (hp_live_object_count h) (hp_allocated_bytes h) (hp_collection_threshold_bytes h)
    (hp_collection_count h).

Definition set_accounts (h : zaclr_heap) (live bytes : Z) : zaclr_heap :=
  mk_heap (hp_runtime h) (hp_flags h) (hp_buffer h) (hp_nodes h) (hp_node_count h)
    (hp_node_capacity h) live bytes (hp_collection_threshold_bytes h) (hp_collection_count h).

Definition set_heap_flags (h : zaclr_heap) (flags : Z) : zaclr_heap :=
  mk_heap (hp_runtime h) flags (hp_buffer h) (hp_nodes h) (hp_node_count h) (hp_node_capacity h)
    (hp_live_object_count h) (hp_allocated_bytes h) (hp_collection_threshold_bytes h)
    (hp_collection_count h).

Definition set_buffer (h : zaclr_heap) (buffer : Z) (nodes : list zaclr_heap_object_node)
    (capacity : Z) : zaclr_heap :=
  mk_heap (hp_runtime h) (hp_flags h) buffer nodes (hp_node_count h) capacity
    (hp_live_object_count h) (hp_allocated_bytes h) (hp_collection_threshold_bytes h)
    (hp_collection_count h).

Definition set_collection_count (h : zaclr_heap) (n : Z) : zaclr_heap :=
  mk_heap (hp_runtime h) (hp_flags h) (hp_buffer h) (hp_nodes h) (hp_node_count h)
    (hp_node_capacity h) (hp_live_object_count h) (hp_allocated_bytes h)
    (hp_collection_threshold_bytes h) n.

Abbreviation objects := (gmap Z zaclr_object_desc).

(** A node that holds an object. *)
Definition node_used (n : zaclr_heap_object_node) : bool :=
  negb (nd_used n =? 0) && negb (nd_object n =? 0).

Record managed (K : Type) := mk_managed { mg_kernel : K; mg_objects : objects; mg_heap : zaclr_heap }.
Arguments mk_managed {K} _ _ _.
Arguments mg_kernel {K} _.
Arguments mg_objects {K} _.
Arguments mg_heap {K} _.

Section operations.
Context {K : Type} `{KernelHeap K}.

Definition zaclr_heap_release_node (s : managed K) (index : Z) : outcome (managed K) :=
  let h := mg_heap s in
  if hp_node_count h <=? index then Ret s else
  match hp_nodes h .@ index with
  | None => Fault
  | Some node =>
    let nodes := set (hp_nodes h) index zero_node in
    if negb (node_used node) then Ret (mk_managed (mg_kernel s) (mg_objects s) (set_nodes h nodes))
    else
      let bytes := if nd_allocation_size node <=? hp_allocated_bytes h
                   then hp_allocated_bytes h - nd_allocation_size node else 0 in
      let live := if negb (hp_live_object_count h =? 0) then hp_live_object_count h - 1
                  else hp_live_object_count h in
      Ret (mk_managed (kernel_free (mg_kernel s) (nd_object node))
             (delete (nd_object node) (mg_objects s))
             (set_nodes (set_accounts h live bytes) nodes))
  end.

(** The doubling loop of [zaclr_heap_reserve_nodes]; 32 doublings of a non-zero
    [uint32_t] overflow. *)
Fixpoint double_capacity (fuel : nat) (new_capacity minimum_capacity : Z) : outcome Z :=
  if new_capacity <? minimum_capacity then
    match fuel with
    | O => NoFuel
    | S fuel =>
      require new_capacity <=? 0xFFFFFFFF / 2 else heap_error ZACLR_STATUS_OUT_OF_MEMORY;
      double_capacity fuel (new_capacity * 2) minimum_capacity
    end
  else Ret new_capacity.

Definition zaclr_heap_reserve_nodes (s : managed K) (minimum_capacity : Z)
  : outcome unit * managed K :=
  let h := mg_heap s in
  if minimum_capacity <=? hp_node_capacity h then (Ret (), s) else
  match double_capacity 33 (if hp_node_capacity h =? 0 then 16 else hp_node_capacity h)
          minimum_capacity with
  | Ret new_capacity =>
    let '(p, k) := kernel_alloc (mg_kernel s) (sizeof_node * new_capacity) in
    if p =? 0 then
      (Err (heap_error ZACLR_STATUS_OUT_OF_MEMORY), mk_managed k (mg_objects s) h)
    else
      let count := Z.to_nat (hp_node_count h) in
      let nodes := take count (hp_nodes h)
                   ++ drop count (replicate (Z.to_nat new_capacity) zero_node) in
      let k := if negb (hp_buffer h =? 0) then kernel_free k (hp_buffer h) else k in
      (Ret (), mk_managed k (mg_objects s) (set_buffer h p nodes new_capacity))
  | Err r => (Err r, s)
  | Fault => (Fault, s)
  | NoFuel => (NoFuel, s)
  end.

Definition zaclr_heap_initialize (runtime : bool) : zaclr_heap :=
  mk_heap runtime 0 0 [] 0 0 0 0 ZACLR_HEAP_DEFAULT_THRESHOLD_BYTES 0.

(** A loop over the nodes in use. *)
Definition for_nodes {S} (count : Z) (body : Z -> S -> outcome S) (s : S) : outcome S :=
  for_loop (Z.to_nat count) 0 count body s.

Definition zaclr_heap_reset (s : managed K) : outcome (managed K) :=
  s ← for_nodes (hp_node_count (mg_heap s)) (fun index s => zaclr_heap_release_node s index) s;
  let k := if negb (hp_buffer (mg_heap s) =? 0) then kernel_free (mg_kernel s) (hp_buffer (mg_heap s))
           else mg_kernel s in
  Ret (mk_managed k (mg_objects s) zero_heap).

(** [heap->nodes[index].object->gc_mark = 0u], for a node that holds an object. *)
Definition clear_mark (nodes : list zaclr_heap_object_node) (index : Z) (objs : objects)
  : outcome objects :=
  match nodes .@ index with
  | None => Fault
  | Some n =>
    if node_used n then
      match objs !! nd_object n with
      | None => Fault
      | Some o => Ret (<[nd_object n := set_gc_mark o 0]> objs)
      end
    else Ret objs
  end.

Definition zaclr_heap_clear_marks (s : managed K) : outcome (managed K) :=
  objs ← for_nodes (hp_node_count (mg_heap s)) (clear_mark (hp_nodes (mg_heap s))) (mg_objects s);
  Ret (mk_managed (mg_kernel s) objs (mg_heap s)).

(** The condition under which the sweep releases an object. *)
Definition is_garbage (o : zaclr_object_desc) : bool :=
  (ob_gc_mark o =? 0) && negb (flag_set (ob_gc_state o) ZACLR_OBJECT_GC_STATE_PINNED).

Definition sweep_node (index : Z) (s : managed K) : outcome (managed K) :=
  match hp_nodes (mg_heap s) .@ index with
  | None => Fault
  | Some n =>
    if negb (node_used n) then Ret s else
    match mg_objects s !! nd_object n with
    | None => Fault
    | Some o => if is_garbage o then zaclr_heap_release_node s index else Ret s
    end
  end.

Definition zaclr_heap_sweep_unmarked (s : managed K) : outcome (managed K) :=
  s ← for_nodes (hp_node_count (mg_heap s)) sweep_node s;
  Ret (mk_managed (mg_kernel s) (mg_objects s)
         (set_collection_count (mg_heap s) (u32 (hp_collection_count (mg_heap s) + 1)))).

End operations.

Definition zaclr_heap_live_object_count (h : option zaclr_heap) : Z :=
  match h with Some h => hp_live_object_count h | None => 0 end.

Definition zaclr_heap_allocated_bytes (h : option zaclr_heap) : Z :=
  match h with Some h => hp_allocated_bytes h | None => 0 end.

(** ** The invariant *)

Section facts.
Context {K : Type} `{KernelHeapLaws K}.
Implicit Types (s : managed K).

Definition node_count_of (n : zaclr_heap_object_node) : Z := if node_used n then 1 else 0.

(** The nodes list exactly the objects in memory, each once; every object is a
    live block of the kernel heap, apart from the node buffer; and the accounts
    are the number of the objects and the sum of their sizes. *)
Record heap_ok (s : managed K) : Prop := {
  hk_length : zlength (hp_nodes (mg_heap s)) = hp_node_capacity (mg_heap s);
  hk_count : 0 <= hp_node_count (mg_heap s) <= hp_node_capacity (mg_heap s);
  hk_capacity : hp_node_capacity (mg_heap s) < 2 ^ 32;
  hk_null : hp_node_capacity (mg_heap s) = 0 -> hp_buffer (mg_heap s) = 0;
  hk_buffer : hp_node_capacity (mg_heap s) <> 0 ->
    hp_buffer (mg_heap s) <> 0 /\ hp_buffer (mg_heap s) ∈ live (mg_kernel s) /\
    mg_objects s !! hp_buffer (mg_heap s) = None;
  hk_beyond i n : hp_node_count (mg_heap s) <= i -> hp_nodes (mg_heap s) .@ i = Some n -> n = zero_node;
  hk_node i n : hp_nodes (mg_heap s) .@ i = Some n -> n = zero_node \/
    (node_used n = true /\ 0 <= nd_allocation_size n /\ is_Some (mg_objects s !! nd_object n));
  hk_once i j n n' : hp_nodes (mg_heap s) .@ i = Some n -> hp_nodes (mg_heap s) .@ j = Some n' ->
    node_used n = true -> nd_object n = nd_object n' -> i = j;
  hk_listed p o : mg_objects s !! p = Some o ->
    exists i n, hp_nodes (mg_heap s) .@ i = Some n /\ node_used n = true /\ nd_object n = p;
  hk_live p o : mg_objects s !! p = Some o -> p ∈ live (mg_kernel s);
  hk_live_count : hp_live_object_count (mg_heap s) = zsum node_count_of (hp_nodes (mg_heap s));
  hk_bytes : hp_allocated_bytes (mg_heap s) = zsum nd_allocation_size (hp_nodes (mg_heap s)) }.

Lemma node_used_nonzero n : node_used n = true -> nd_used n <> 0 /\ nd_object n <> 0.
Proof. unfold node_used. intros. by bool_cases. Qed.

Lemma heap_sizes_nonneg s : heap_ok s ->
  forall n, n ∈ hp_nodes (mg_heap s) -> 0 <= nd_allocation_size n /\ 0 <= node_count_of n.
Proof.
  intros Hok n Hn. apply In_get in Hn as [i Hi]. unfold node_count_of.
  split; [|by destruct (node_used n)].
  destruct (hk_node _ Hok i n Hi) as [->|(_ & ? & _)]; done.
Qed.

(** The invariant depends on the addresses of the objects and on the live blocks. *)
Lemma heap_ok_frame s k objs h :
  heap_ok s ->
  (forall p, is_Some (objs !! p) <-> is_Some (mg_objects s !! p)) ->
  (forall p, is_Some (mg_objects s !! p) -> p ∈ live k) ->
  (hp_buffer (mg_heap s) <> 0 -> hp_buffer (mg_heap s) ∈ live k) ->
  set_heap_flags (set_collection_count h 0) 0 = set_heap_flags (set_collection_count (mg_heap s) 0) 0 ->
  heap_ok (mk_managed k objs h).
Proof.
  intros [Hl Hc Hcap Hn Hb Hbey Hnode Honce Hlist Hlive Hlc Hby] Hd Hk Hbl Hh.
  destruct h as [rt fl bu no co ca li by' th cc]. destruct (mg_heap s) as [rt2 fl2 bu2 no2 co2 ca2 li2 by2 th2 cc2].
  unfold set_heap_flags, set_collection_count in Hh. simpl in *. injection Hh as -> -> -> -> -> -> -> ->.
  split; simpl; try done.
  - intros Hz. destruct (Hb Hz) as (Hb0 & _ & Hbn). split; [done|]. split; [by apply Hbl|].
    apply eq_None_not_Some. rewrite Hd, Hbn. by intros [].
  - intros i n Hi. destruct (Hnode i n Hi) as [->|(Hu & Hs & Ho)]; [by left|right].
    split; [done|]. split; [done|]. by apply Hd.
  - intros p o Hp. assert (is_Some (mg_objects s !! p)) as [o' Ho'] by (apply Hd; by exists o).
    by eapply Hlist.
  - intros p o Hp. apply Hk, Hd. by exists o.
Qed.

(** What the release of a node and the sweep leave alone. *)
Definition same_config (h h' : zaclr_heap) : Prop :=
  hp_runtime h' = hp_runtime h /\ hp_flags h' = hp_flags h /\ hp_buffer h' = hp_buffer h /\
  hp_node_count h' = hp_node_count h /\ hp_node_capacity h' = hp_node_capacity h /\
  hp_collection_threshold_bytes h' = hp_collection_threshold_bytes h.

Lemma node_index s i n :
  heap_ok s -> hp_nodes (mg_heap s) .@ i = Some n -> node_used n = true ->
  0 <= i < hp_node_count (mg_heap s) /\ nd_object n <> 0 /\
  exists o, mg_objects s !! nd_object n = Some o.
Proof.
  intros Hok Hi Hu. pose proof (get_Some_range _ _ _ Hi). split.
  - split; [lia|]. destruct (Z.lt_ge_cases i (hp_node_count (mg_heap s))); [done|].
    by rewrite (hk_beyond _ Hok i n) in Hu.
  - split; [by apply node_used_nonzero|]. destruct (hk_node _ Hok i n Hi) as [->|(_ & _ & [o Ho])]; [done|].
    by exists o.
Qed.

(** The release of a node that holds an object. *)
Lemma release_spec s i n :
  heap_ok s -> hp_nodes (mg_heap s) .@ i = Some n -> node_used n = true ->
  exists s', zaclr_heap_release_node s i = Ret s' /\ heap_ok s' /\
    mg_objects s' = delete (nd_object n) (mg_objects s) /\
    live (mg_kernel s') = live (mg_kernel s) ∖ {[nd_object n]} /\
    same_config (mg_heap s) (mg_heap s') /\
    hp_collection_count (mg_heap s') = hp_collection_count (mg_heap s) /\
    hp_nodes (mg_heap s') = set (hp_nodes (mg_heap s)) i zero_node /\
    hp_allocated_bytes (mg_heap s') <= hp_allocated_bytes (mg_heap s).
Proof.
  intros Hok Hi Hu. destruct (node_index s i n Hok Hi Hu) as (Hr & Hn0 & o & Ho).
  pose proof (heap_sizes_nonneg s Hok) as Hnn. pose proof (get_Some_range _ _ _ Hi) as Hlen.
  assert (nd_allocation_size n <= hp_allocated_bytes (mg_heap s)) as Hsz.
  { rewrite (hk_bytes _ Hok). apply (zsum_get _ _ i); [|done]. intros y Hy. by apply Hnn. }
  assert (1 <= hp_live_object_count (mg_heap s)) as Hlc.
  { rewrite (hk_live_count _ Hok). transitivity (node_count_of n); [unfold node_count_of; by rewrite Hu|].
    apply (zsum_get _ _ i); [|done]. intros y Hy. by apply Hnn. }
  unfold zaclr_heap_release_node. destruct (Z.leb_spec (hp_node_count (mg_heap s)) i); [lia|].
  rewrite Hi, Hu. cbn [negb]. destruct (Z.leb_spec (nd_allocation_size n) (hp_allocated_bytes (mg_heap s))); [|lia].
  destruct (Z.eqb_spec (hp_live_object_count (mg_heap s)) 0); [lia|]. cbn [negb].
  eexists. split; [reflexivity|]. destruct Hok as [Hl Hc Hcap Hnull Hb Hbey Hnode Honce Hlist Hlive Hlcn Hby].
  split; [|simpl; rewrite free_spec; repeat split; try done; pose proof (heap_sizes_nonneg s);
    destruct (Hnode i n Hi) as [->|(_ & ? & _)]; simpl in *; lia].
  assert (forall j n', set (hp_nodes (mg_heap s)) i zero_node .@ j = Some n' -> n' <> zero_node ->
     j <> i /\ hp_nodes (mg_heap s) .@ j = Some n' /\ nd_object n' <> nd_object n) as Hset.
  { intros j n' Hj Hz. apply get_set_cases in Hj as [[_ ->]|[Hne Hj]]; [done| |lia].
    split; [done|]. split; [done|]. intros E. apply Hne. symmetry. by apply (Honce i j n n'). }
  split; simpl; try done.
  - by rewrite zlength_set.
  - intros Hz. destruct (Hb Hz) as (Hb0 & Hbl & Hbn). split; [done|]. rewrite free_spec.
    split; [|by apply lookup_delete_None; right].
    apply elem_of_difference. split; [done|]. rewrite elem_of_singleton. intros E. congruence.
  - intros j n' Hj Hget. apply get_set_cases in Hget as [[_ ->]|[_ Hget]]; [done|by eapply Hbey|lia].
  - intros j n' Hget. destruct (decide (n' = zero_node)) as [|Hz]; [by left|].
    destruct (Hset j n' Hget Hz) as (Hne & Hg & Hno). right.
    destruct (Hnode j n' Hg) as [|(? & ? & ?)]; [done|]. split; [done|]. split; [done|].
    by rewrite lookup_delete_ne.
  - intros j1 j2 n1 n2 Hj1 Hj2 Hu1 E. destruct (decide (n1 = zero_node)) as [->|Hz1]; [done|].
    destruct (Hset _ _ Hj1 Hz1) as (Hn1 & Hg1 & _).
    apply get_set_cases in Hj2 as [[-> ->]|[_ Hg2]]; [|by eapply Honce|lia].
    apply node_used_nonzero in Hu1 as [_ Hne]. simpl in E. done.
  - intros p o' Hp. apply lookup_delete_Some in Hp as [Hne Hp].
    destruct (Hlist p o' Hp) as (j & n' & Hj & Hu' & <-). exists j, n'. split; [|done].
    rewrite get_set_ne; [done|]. intros <-. congruence.
  - intros p o' Hp. apply lookup_delete_Some in Hp as [Hne Hp]. rewrite free_spec.
    apply elem_of_difference. split; [by eapply Hlive|]. by rewrite elem_of_singleton.
  - rewrite (zsum_set _ _ _ n), Hlcn by done. unfold node_count_of at 3 4. rewrite Hu. simpl. lia.
  - rewrite (zsum_set _ _ _ n), Hby by done. simpl. lia.
Qed.

(** ** The sweep *)

Lemma same_config_refl h : same_config h h.
Proof. done. Qed.

Lemma same_config_trans h1 h2 h3 : same_config h1 h2 -> same_config h2 h3 -> same_config h1 h3.
Proof. unfold same_config. intros (?&?&?&?&?&?) (?&?&?&?&?&?). repeat split; congruence. Qed.

(** The state of the sweep from [s] before index [i]. *)
Definition sweeping (s : managed K) (i : Z) (t : managed K) : Prop :=
  heap_ok t /\ same_config (mg_heap s) (mg_heap t) /\
  (hp_collection_count (mg_heap t) = hp_collection_count (mg_heap s) /\
   hp_allocated_bytes (mg_heap t) <= hp_allocated_bytes (mg_heap s)) /\
  mg_objects t ⊆ mg_objects s /\
  (forall p o, mg_objects s !! p = Some o -> is_garbage o = false -> mg_objects t !! p = Some o) /\
  (forall j n o, j < i -> hp_nodes (mg_heap t) .@ j = Some n -> node_used n = true ->
     mg_objects t !! nd_object n = Some o -> is_garbage o = false) /\
  live (mg_kernel t) = live (mg_kernel s) ∖ (dom (mg_objects s) ∖ dom (mg_objects t)).

Lemma sweep_node_spec s i t :
  sweeping s i t -> 0 <= i < hp_node_count (mg_heap t) -> safe_post (sweep_node i t) (sweeping s (i + 1)).
Proof.
  intros (Hok & Hc & Hcc & Hsub & Hkeep & Hdone & Hlive) Hi. unfold sweep_node.
  pose proof (hk_count _ Hok). pose proof (hk_length _ Hok).
  destruct (get_Some (hp_nodes (mg_heap t)) i) as [n Hn]; [lia|]. rewrite Hn.
  destruct (node_used n) eqn:Hu; cbn [negb].
  2: { do 5 (split; [done|]). split; [|done]. intros j n' o Hj Hn' Hu'.
       destruct (Z.eq_dec j i) as [->|]; [congruence|apply (Hdone j n' o); (done || lia)]. }
  destruct (node_index t i n Hok Hn Hu) as (_ & Hn0 & o & Ho). rewrite Ho.
  destruct (is_garbage o) eqn:Hg.
  2: { do 5 (split; [done|]). split; [|done]. intros j n' o' Hj Hn' Hu' Ho'.
       destruct (Z.eq_dec j i) as [->|]; [congruence|apply (Hdone j n' o'); (done || lia)]. }
  destruct (release_spec t i n Hok Hn Hu) as (t' & -> & Hok' & Ho' & Hl' & Hc' & Hcc' & Hn' & Hby').
  split; [done|]. split; [by eapply same_config_trans|]. split; [split; [|lia]; destruct Hcc; congruence|].
  rewrite Ho'. split; [etrans; [apply delete_subseteq|done]|].
  split; [|split].
  - intros p o' Hp Hng. rewrite lookup_delete_ne; [by apply Hkeep|]. intros <-.
    assert (mg_objects t !! nd_object n = Some o') by (by apply Hkeep). congruence.
  - intros j n' o' Hj Hget Hu' Ho2. rewrite Hn' in Hget. apply lookup_delete_Some in Ho2 as [Hne Ho2].
    apply get_set_cases in Hget as [[-> ->]|[Hji Hget]]; [done| |lia].
    apply (Hdone j n' o'); (done || lia).
  - rewrite Hl', Hlive, dom_delete_L.
    assert (nd_object n ∈ dom (mg_objects s)) as Hd.
    { apply elem_of_dom. exists o. by eapply lookup_weaken. }
    clear -Hd. set_solver.
Qed.

(** The sweep releases exactly the unmarked objects that are not pinned. *)
Lemma sweep_spec s :
  heap_ok s ->
  exists s', zaclr_heap_sweep_unmarked s = Ret s' /\ heap_ok s' /\
    mg_objects s' = filter (fun po => is_garbage po.2 = false) (mg_objects s) /\
    live (mg_kernel s') = live (mg_kernel s) ∖ (dom (mg_objects s) ∖ dom (mg_objects s')) /\
    same_config (mg_heap s) (mg_heap s') /\
    hp_collection_count (mg_heap s') = u32 (hp_collection_count (mg_heap s) + 1) /\
    hp_allocated_bytes (mg_heap s') <= hp_allocated_bytes (mg_heap s).
Proof.
  intros Hok. unfold zaclr_heap_sweep_unmarked, for_nodes.
  pose proof (hk_count _ Hok).
  assert (safe_post (for_loop (Z.to_nat (hp_node_count (mg_heap s))) 0 (hp_node_count (mg_heap s)) sweep_node s)
            (sweeping s (hp_node_count (mg_heap s)))) as Hp.
  { apply (for_loop_safe_post sweep_node (sweeping s)); [lia|lia| |].
    - split; [done|]. split; [apply same_config_refl|]. split; [done|]. split; [done|].
      split; [done|]. split; [|clear; set_solver].
      intros j n o Hj Hn. apply get_Some_range in Hn. lia.
    - intros j t Hj Ht. apply sweep_node_spec; [done|]. destruct Ht as (_ & (_ & _ & _ & -> & _) & _). lia. }
  pose proof (for_loop_no_err (@sweep_node K _) (hp_node_count (mg_heap s))
    (Z.to_nat (hp_node_count (mg_heap s))) 0 s) as Hne.
  destruct (for_loop _ _ _ _ _) as [t|r| |]; try done.
  2: { exfalso. apply (Hne r); [|done]. intros j t e. unfold sweep_node, zaclr_heap_release_node.
       repeat (case_match; try done). }
  destruct Hp as (Hokt & Hc & Hcc & Hsub & Hkeep & Hdone & Hlive).
  rewrite Ret_bind. eexists. split; [reflexivity|]. simpl.
  assert (mg_objects t = filter (fun po => is_garbage po.2 = false) (mg_objects s)) as Hf.
  { apply map_eq. intros p. apply option_eq. intros o. rewrite map_lookup_filter_Some. simpl.
    split; [|naive_solver]. intros Hp. split; [by eapply lookup_weaken|].
    destruct (hk_listed _ Hokt p o Hp) as (i & n & Hi & Hu & <-).
    apply (Hdone i n o); try done.
    destruct (node_index t i n Hokt Hi Hu) as ([_ ?] & _).
    destruct Hc as (_ & _ & _ & <- & _). done. }
  split; [|split; [done|split; [done|split; [done|destruct Hcc as [-> ?]; done]]]].
  eapply (heap_ok_frame t); [done|done| | |done].
  - intros p [o Ho]. by eapply hk_live.
  - intros Hb. destruct (Z.eq_dec (hp_node_capacity (mg_heap t)) 0) as [E|E];
      [by apply (hk_null _ Hokt) in E|by apply (hk_buffer _ Hokt)].
Qed.

(** ** Clearing the marks *)

Definition clear (o : zaclr_object_desc) : zaclr_object_desc := set_gc_mark o 0.

Definition clearing (s : managed K) (i : Z) (objs : objects) : Prop :=
  (forall p, objs !! p = mg_objects s !! p \/ objs !! p = clear <$> mg_objects s !! p) /\
  (forall j n, j < i -> hp_nodes (mg_heap s) .@ j = Some n -> node_used n = true ->
     objs !! nd_object n = clear <$> mg_objects s !! nd_object n).

Lemma clear_mark_spec s i objs :
  heap_ok s -> clearing s i objs -> 0 <= i < hp_node_count (mg_heap s) ->
  safe_post (clear_mark (hp_nodes (mg_heap s)) i objs) (clearing s (i + 1)).
Proof.
  intros Hok [Hcase Hdone] Hi. unfold clear_mark. pose proof (hk_count _ Hok).
  pose proof (hk_length _ Hok).
  destruct (get_Some (hp_nodes (mg_heap s)) i) as [n Hn]; [lia|]. rewrite Hn.
  destruct (node_used n) eqn:Hu.
  2: { split; [done|]. intros j n' Hj Hn' Hu'. destruct (Z.eq_dec j i) as [->|]; [congruence|].
       apply (Hdone j); (done || lia). }
  destruct (node_index s i n Hok Hn Hu) as (_ & Hn0 & o & Ho).
  destruct (Hcase (nd_object n)) as [E|E]; rewrite E, Ho; simpl.
  - split.
    + intros p. destruct (decide (p = nd_object n)) as [->|Hne].
      * rewrite lookup_insert_eq, Ho. by right.
      * by rewrite lookup_insert_ne.
    + intros j n' Hj Hn' Hu'. destruct (decide (nd_object n' = nd_object n)) as [->|Hne].
      * by rewrite lookup_insert_eq, Ho.
      * rewrite lookup_insert_ne by done. apply (Hdone j); try done.
        destruct (Z.eq_dec j i) as [->|]; [congruence|lia].
  - split.
    + intros p. destruct (decide (p = nd_object n)) as [->|Hne].
      * rewrite lookup_insert_eq, Ho. by right.
      * by rewrite lookup_insert_ne.
    + intros j n' Hj Hn' Hu'. destruct (decide (nd_object n' = nd_object n)) as [->|Hne].
      * by rewrite lookup_insert_eq, Ho.
      * rewrite lookup_insert_ne by done. apply (Hdone j); try done.
        destruct (Z.eq_dec j i) as [->|]; [congruence|lia].
Qed.

Lemma clear_marks_spec s :
  heap_ok s ->
  zaclr_heap_clear_marks s = Ret (mk_managed (mg_kernel s) (clear <$> mg_objects s) (mg_heap s)).
Proof.
  intros Hok. unfold zaclr_heap_clear_marks, for_nodes. pose proof (hk_count _ Hok).
  assert (safe_post (for_loop (Z.to_nat (hp_node_count (mg_heap s))) 0 (hp_node_count (mg_heap s))
    (clear_mark (hp_nodes (mg_heap s))) (mg_objects s)) (clearing s (hp_node_count (mg_heap s)))) as Hp.
  { apply (for_loop_safe_post _ (clearing s)); [lia|lia| |].
    - split; [by left|]. intros j n Hj Hn. apply get_Some_range in Hn. lia.
    - intros j t Hj Ht. by apply clear_mark_spec. }
  pose proof (for_loop_no_err (clear_mark (hp_nodes (mg_heap s))) (hp_node_count (mg_heap s))
    (Z.to_nat (hp_node_count (mg_heap s))) 0 (mg_objects s)) as Hne.
  destruct (for_loop _ _ _ _ _) as [objs|r| |]; try done.
  2: { exfalso. apply (Hne r); [|done]. intros j t e. unfold clear_mark. by repeat case_match. }
  rewrite Ret_bind. do 2 f_equal. apply map_eq. intros p. rewrite lookup_fmap.
  destruct Hp as [Hcase Hdone]. destruct (mg_objects s !! p) as [o|] eqn:Ho.
  - destruct (hk_listed _ Hok p o Ho) as (i & n & Hi & Hu & <-).
    rewrite (Hdone i n), Ho; try done. by apply (node_index s i n).
  - destruct (Hcase p) as [->| ->]; by rewrite Ho.
Qed.

(** ** Growing the node table *)

Lemma double_capacity_spec fuel c m :
  0 < c -> m < 2 ^ 32 -> m <= c * 2 ^ Z.of_nat fuel -> c < 2 ^ 32 ->
  match double_capacity fuel c m with
  | Ret c' => m <= c' /\ c <= c' < 2 ^ 32
  | Err r => r = heap_error ZACLR_STATUS_OUT_OF_MEMORY
  | _ => False
  end.
Proof.
  revert c. induction fuel as [|fuel IH]; intros c Hc Hm Hf Hb; simpl.
  - case_if; [|lia]. simpl in Hf. lia.
  - case_if; [|lia]. case_if; [|done]. rewrite Nat2Z.inj_succ, Z.pow_succ_r in Hf by lia.
    specialize (IH (c * 2)). change (4294967295 / 2) with 2147483647 in *.
    destruct (double_capacity fuel (c * 2) m) as [c'|r| |]; [|apply IH; lia|apply IH; lia|apply IH; lia].
    destruct IH as [? ?]; lia.
Qed.

Lemma regrow_nodes (l : list zaclr_heap_object_node) cnt nc :
  0 <= cnt <= zlength l -> cnt <= nc ->
  (forall i n, cnt <= i -> l .@ i = Some n -> n = zero_node) ->
  let l' := take (Z.to_nat cnt) l ++ drop (Z.to_nat cnt) (replicate (Z.to_nat nc) zero_node) in
  zlength l' = nc /\ (forall i, i < cnt -> l' .@ i = l .@ i) /\
  (forall i n, cnt <= i -> l' .@ i = Some n -> n = zero_node) /\
  (forall f, f zero_node = 0 -> zsum f l' = zsum f l).
Proof.
  intros Hc Hn Hz. cbv zeta.
  assert (length (take (Z.to_nat cnt) l) = Z.to_nat cnt) as Ht
    by (unfold zlength in Hc; rewrite length_take; lia).
  rewrite drop_replicate. split; [|split; [|split]].
  - unfold zlength. rewrite length_app, Ht, length_replicate. lia.
  - intros i Hi. rewrite get_app_l by (unfold zlength; lia). unfold get. case_if; [done|].
    apply lookup_take_lt. lia.
  - intros i n Hi. rewrite get_app_r by (unfold zlength; lia). unfold get. case_if; [done|].
    intros E. by apply lookup_replicate_1 in E as [-> _].
  - intros f Hf. rewrite <- (take_drop (Z.to_nat cnt) l) at 2. rewrite !zsum_app. f_equal.
    rewrite zsum_replicate, Hf. rewrite zsum_zero; [lia|]. intros x [j Hj]%list_elem_of_lookup.
    rewrite lookup_drop in Hj. rewrite (Hz (Z.of_nat (Z.to_nat cnt + j)) x); [done|lia|].
    unfold get. case_if; [lia|]. by rewrite Nat2Z.id.
Qed.

Lemma reserve_spec s m :
  heap_ok s -> 0 <= m < 2 ^ 32 -> m <= hp_node_count (mg_heap s) + 1 ->
  match zaclr_heap_reserve_nodes s m with
  | (Ret _, s') => heap_ok s' /\ mg_objects s' = mg_objects s /\ m <= hp_node_capacity (mg_heap s') /\
      hp_node_count (mg_heap s') = hp_node_count (mg_heap s) /\
      (forall i, i < hp_node_count (mg_heap s) ->
         hp_nodes (mg_heap s') .@ i = hp_nodes (mg_heap s) .@ i) /\
      hp_flags (mg_heap s') = hp_flags (mg_heap s) /\ hp_runtime (mg_heap s') = hp_runtime (mg_heap s) /\
      hp_live_object_count (mg_heap s') = hp_live_object_count (mg_heap s) /\
      hp_allocated_bytes (mg_heap s') = hp_allocated_bytes (mg_heap s) /\
      ((hp_buffer (mg_heap s') = hp_buffer (mg_heap s) /\ live (mg_kernel s') = live (mg_kernel s)) \/
       (hp_buffer (mg_heap s') ∉ live (mg_kernel s)) /\
       live (mg_kernel s') = {[hp_buffer (mg_heap s')]} ∪ (live (mg_kernel s) ∖ {[hp_buffer (mg_heap s)]}))
  | (Err r, s') => r = heap_error ZACLR_STATUS_OUT_OF_MEMORY /\ mg_objects s' = mg_objects s /\
      mg_heap s' = mg_heap s /\ live (mg_kernel s') = live (mg_kernel s)
  | _ => False
  end.
Proof.
  intros Hok Hm Hmc. unfold zaclr_heap_reserve_nodes. case_if; [split; [done|]; do 8 (split; [done|]); by left|].
  pose proof (hk_capacity _ Hok) as Hcap. pose proof (hk_count _ Hok) as Hcnt.
  pose proof (hk_length _ Hok) as Hlen.
  set (c := if hp_node_capacity (mg_heap s) =? 0 then 16 else hp_node_capacity (mg_heap s)).
  pose proof (double_capacity_spec 33 c m) as Hd.
  assert (0 < c < 2 ^ 32 /\ hp_node_capacity (mg_heap s) <= c) as [Hc Hcc] by (unfold c; case_if; lia).
  destruct (double_capacity 33 c m) as [nc|r| |]; [|by rewrite Hd by (lia || nia)|apply Hd; (lia || nia)|apply Hd; (lia || nia)].
  destruct Hd as [Hmn Hcn]; [lia|lia|nia|lia|].
  destruct (kernel_alloc (mg_kernel s) (sizeof_node * nc)) as [p k] eqn:Ha. apply alloc_spec in Ha.
  case_if; [destruct Ha as [[_ Hl]|[? _]]; done|]. destruct Ha as [[? _]|(Hp & Hfresh & Hl)]; [done|].
  destruct (regrow_nodes (hp_nodes (mg_heap s)) (hp_node_count (mg_heap s)) nc) as (Hl1 & Hl2 & Hl3 & Hl4);
    [lia|lia|apply (hk_beyond _ Hok)|]. cbv zeta in Hl1, Hl2, Hl3, Hl4 |- *.
  set (nodes := _ ++ _) in *.
  assert (live (if negb (hp_buffer (mg_heap s) =? 0) then kernel_free k (hp_buffer (mg_heap s)) else k)
          = {[p]} ∪ (live (mg_kernel s) ∖ {[hp_buffer (mg_heap s)]})) as Hlive.
  { pose proof (null_not_live (mg_kernel s)). destruct (Z.eqb_spec (hp_buffer (mg_heap s)) 0) as [E|E]; simpl.
    - rewrite Hl, live_drop_null by congruence. done.
    - rewrite free_spec, Hl. rewrite live_swap; [done|done|]. apply (hk_buffer _ Hok).
      intros E0. by apply (hk_null _ Hok) in E0. }
  assert (forall i n, nodes .@ i = Some n -> n = zero_node \/ hp_nodes (mg_heap s) .@ i = Some n) as Hold.
  { intros i n Hi. destruct (Z.lt_ge_cases i (hp_node_count (mg_heap s))).
    - right. by rewrite <- Hl2.
    - left. by apply (Hl3 i). }
  split; [|simpl; do 8 (split; [done || lia|]); right; by rewrite Hlive].
  split; simpl.
  - done.
  - lia.
  - lia.
  - lia.
  - intros _. split; [done|]. rewrite Hlive. split; [by apply elem_of_union_l, elem_of_singleton_2|].
    apply eq_None_not_Some. intros [o Ho]. by apply (hk_live _ Hok) in Ho.
  - done.
  - intros i n Hi. destruct (Hold i n Hi) as [|Hi']; [by left|]. by apply (hk_node _ Hok i).
  - intros i j n n' Hi Hj Hu E. destruct (Hold i n Hi) as [->|Hi']; [done|].
    destruct (Hold j n' Hj) as [->|Hj']; [|by eapply (hk_once _ Hok)].
    apply node_used_nonzero in Hu as [_ Hu]. simpl in E. done.
  - intros q o Hq. destruct (hk_listed _ Hok q o Hq) as (i & n & Hi & Hu & <-). exists i, n.
    split; [|done]. rewrite Hl2; [done|]. by apply (node_index s i n).
  - intros q o Hq. rewrite Hlive. apply elem_of_union_r, elem_of_difference.
    split; [by eapply (hk_live _ Hok)|]. rewrite elem_of_singleton. intros ->.
    destruct (Z.eq_dec (hp_node_capacity (mg_heap s)) 0) as [E|E].
    + destruct (hk_listed _ Hok _ o Hq) as (i & n & Hi & _). apply get_Some_range in Hi. lia.
    + destruct (hk_buffer _ Hok E) as (_ & _ & Hb). congruence.
  - rewrite Hl4 by done. apply (hk_live_count _ Hok).
  - rewrite Hl4 by done. apply (hk_bytes _ Hok).
Qed.

(** ** Releasing the heap *)

Definition releasing (s : managed K) (i : Z) (t : managed K) : Prop :=
  heap_ok t /\ same_config (mg_heap s) (mg_heap t) /\ mg_objects t ⊆ mg_objects s /\
  (forall j n, j < i -> hp_nodes (mg_heap t) .@ j = Some n -> n = zero_node) /\
  live (mg_kernel t) = live (mg_kernel s) ∖ (dom (mg_objects s) ∖ dom (mg_objects t)).

Lemma release_node_spec s i t :
  releasing s i t -> 0 <= i < hp_node_count (mg_heap t) ->
  safe_post (zaclr_heap_release_node t i) (releasing s (i + 1)).
Proof.
  intros (Hok & Hc & Hsub & Hdone & Hlive) Hi. pose proof (hk_count _ Hok). pose proof (hk_length _ Hok).
  destruct (get_Some (hp_nodes (mg_heap t)) i) as [n Hn]; [lia|].
  destruct (hk_node _ Hok i n Hn) as [->|(Hu & _ & [o Ho])].
  - unfold zaclr_heap_release_node. destruct (Z.leb_spec (hp_node_count (mg_heap t)) i); [lia|].
    rewrite Hn. simpl. unfold set. destruct (Z.ltb_spec i 0); [lia|]. unfold get in Hn.
    destruct (Z.ltb_spec i 0); [lia|]. rewrite list_insert_id by done.
    assert (mk_managed (mg_kernel t) (mg_objects t) (set_nodes (mg_heap t) (hp_nodes (mg_heap t))) = t) as ->.
    { by destruct t as [? ? []]. }
    do 3 (split; [done|]). split; [|done]. intros j n Hj Hnj.
    destruct (Z.eq_dec j i) as [->|]; [|apply (Hdone j); (done || lia)].
    unfold get in Hnj. case_if_in Hnj; [done|]. congruence.
  - destruct (release_spec t i n Hok Hn Hu) as (t' & -> & Hok' & Ho' & Hl' & Hc' & _ & Hn' & _).
    split; [done|]. split; [by eapply same_config_trans|]. rewrite Ho'.
    split; [etrans; [apply delete_subseteq|done]|]. split.
    + intros j n' Hj Hget. rewrite Hn' in Hget. apply get_set_cases in Hget as [[_ ->]|[? Hget]]; [done| |lia].
      apply (Hdone j); (done || lia).
    + rewrite Hl', Hlive, dom_delete_L.
      assert (nd_object n ∈ dom (mg_objects s)) as Hd by (apply elem_of_dom; exists o; by eapply lookup_weaken).
      clear -Hd. set_solver.
Qed.

Lemma reset_spec s :
  heap_ok s ->
  exists s', zaclr_heap_reset s = Ret s' /\ mg_objects s' = ∅ /\ mg_heap s' = zero_heap /\
    live (mg_kernel s') = live (mg_kernel s) ∖ (dom (mg_objects s) ∪ {[hp_buffer (mg_heap s)]}).
Proof.
  intros Hok. unfold zaclr_heap_reset, for_nodes. pose proof (hk_count _ Hok).
  set (body := fun index s => zaclr_heap_release_node s index).
  assert (safe_post (for_loop (Z.to_nat (hp_node_count (mg_heap s))) 0 (hp_node_count (mg_heap s)) body s)
            (releasing s (hp_node_count (mg_heap s)))) as Hp.
  { apply (for_loop_safe_post body (releasing s)); [lia|lia| |].
    - split; [done|]. split; [apply same_config_refl|]. split; [done|]. split; [|clear; set_solver].
      intros j n Hj Hn. apply get_Some_range in Hn. lia.
    - intros j t Hj Ht. apply release_node_spec; [done|]. destruct Ht as (_ & (_ & _ & _ & -> & _) & _). lia. }
  pose proof (for_loop_no_err body (hp_node_count (mg_heap s))
    (Z.to_nat (hp_node_count (mg_heap s))) 0 s) as Hne.
  destruct (for_loop _ _ _ _ _) as [t|r| |]; try done.
  2: { exfalso. apply (Hne r); [|done]. intros j t e. unfold body, zaclr_heap_release_node.
       repeat (case_match; try done). }
  destruct Hp as (Hokt & Hc & Hsub & Hdone & Hlive). rewrite Ret_bind.
  assert (mg_objects t = ∅) as He.
  { apply map_eq. intros p. rewrite lookup_empty. apply eq_None_not_Some. intros [o Ho].
    destruct (hk_listed _ Hokt p o Ho) as (i & n & Hi & Hu & _).
    destruct (node_index t i n Hokt Hi Hu) as ([_ Hlt] & _).
    destruct Hc as (_ & _ & _ & Hcn & _). rewrite (Hdone i n) in Hu; [done| |done]. lia. }
  eexists. split; [reflexivity|]. simpl. split; [done|]. split; [done|].
  pose proof (null_not_live (mg_kernel s)) as Hnull. destruct Hc as (_ & _ & -> & _).
  rewrite He, dom_empty_L in Hlive.
  destruct (Z.eqb_spec (hp_buffer (mg_heap s)) 0) as [E|E]; simpl.
  - rewrite Hlive, E. clear -Hnull. set_solver.
  - rewrite free_spec, Hlive. clear. set_solver.
Qed.

End facts.

(** The sweep keeps exactly the objects that are marked or pinned, releases the
    memory of exactly the others, and keeps the heap well formed: the nodes list
    the objects in memory, each once, and the accounts are their number and their
    total size. *)
Theorem heap_sweep_correct {K} `{KernelHeapLaws K} (s : managed K) :
  heap_ok s ->
  exists s', zaclr_heap_sweep_unmarked s = Ret s' /\ heap_ok s' /\
    mg_objects s' = filter (fun po => is_garbage po.2 = false) (mg_objects s) /\
    live (mg_kernel s') = live (mg_kernel s) ∖ (dom (mg_objects s) ∖ dom (mg_objects s')) /\
    same_config (mg_heap s) (mg_heap s') /\
    hp_collection_count (mg_heap s') = u32 (hp_collection_count (mg_heap s) + 1) /\
    hp_allocated_bytes (mg_heap s') <= hp_allocated_bytes (mg_heap s).
Proof. apply sweep_spec. Qed.

(** Resetting the heap gives back every object and the node table, and nothing
    else. *)
Theorem heap_reset_releases_all {K} `{KernelHeapLaws K} (s : managed K) :
  heap_ok s ->
  exists s', zaclr_heap_reset s = Ret s' /\ mg_objects s' = ∅ /\ mg_heap s' = zero_heap /\
    live (mg_kernel s') = live (mg_kernel s) ∖ (dom (mg_objects s) ∪ {[hp_buffer (mg_heap s)]}).
Proof. apply reset_spec. Qed.
