(* ===== verification/Gc.v ===== *)
(** * The garbage collector

    [zaclr/heap/zaclr_gc.cpp], [zaclr/heap/zaclr_gc_roots.cpp] and the object
    allocation of [zaclr/heap/zaclr_heap.cpp]: the enumeration of the roots, the
    recursive marking, weak handles, the promotion of objects that wait for their
    finalizer, the collection, and the allocation that triggers it.

    The recursion of [zaclr_gc_mark_object_impl] is bounded by the number of
    objects: every level marks an object that was not marked.  An object that is
    dereferenced is looked up by its address, and an address without an object is
    a [Fault]. *)

From Stdlib Require Import Strings.Byte.
From stdpp Require Import relations.
From S2P Require Import Prelude Status Bytes Token KernelHeap HandleTable TypeMap EvalStack.
From S2P Require Import ManagedObject ManagedHeap.

(** ** Visiting *)

(** A loop that passes each element to a callback over a state. *)
Fixpoint visit_each {A S} (visit : A -> S -> outcome S) (l : list A) (s : S) : outcome S :=
  match l with
  | [] => Ret s
  | x :: l => s ← visit x s; visit_each visit l s
  end.

(** The first [count] elements of a buffer. *)
Definition first_n {A} (l : list A) (count : Z) : outcome (list A) :=
  if zlength l <? count then Fault else Ret (take (Z.to_nat count) l).

(** ** Marking *)

(** [zaclr_gc_mark_object_impl] with [zaclr_gc_mark_object_children]. *)
Fixpoint mark_object (fuel : nat) (p : Z) (objs : objects) : outcome objects :=
  if p =? 0 then Ret objs else
  match objs !! p with
  | None => Fault
  | Some o =>
    if zaclr_object_is_marked o then Ret objs else
    match fuel with
    | O => NoFuel
    | S fuel =>
      let o := zaclr_object_set_marked o 1 in
      children ← object_children o;
      visit_each (mark_object fuel) children (<[p := o]> objs)
    end
  end.

Definition zaclr_gc_mark_object (p : Z) (objs : objects) : outcome objects :=
  mark_object (size objs) p objs.

(** ** Roots *)

Record zaclr_frame := mk_frame {
  fr_arguments : option (list zaclr_stack_value); fr_argument_count : Z;
  fr_locals : option (list zaclr_stack_value); fr_local_count : Z;
  fr_eval_stack : zaclr_eval_stack }.

(** The members of [struct zaclr_loaded_assembly] that hold references;
    [generic_static_fields] is the list of the values of its slots. *)
Record zaclr_loaded_assembly := mk_assembly {
  as_static_fields : option (list zaclr_stack_value); as_static_field_count : Z;
  as_generic_static_fields : list zaclr_stack_value;
  as_runtime_type_cache : option (list Z); as_runtime_type_cache_count : Z;
  as_exposed_assembly_handle : Z }.

(** The runtime: [rt_frames] is the chain of frames from [active_frame],
    [rt_domain] the assemblies of the current domain ([None] when there is none). *)
Record zaclr_runtime (K : Type) := mk_runtime {
  rt_managed : managed K;
  rt_finalizer_queue : zaclr_handle_table;
  rt_handle_table : zaclr_handle_table;
  rt_current_exception : Z;
  rt_frames : list zaclr_frame;
  rt_domain : option (list zaclr_loaded_assembly) }.
Arguments mk_runtime {K} _ _ _ _ _ _.
Arguments rt_managed {K} _.
Arguments rt_finalizer_queue {K} _.
Arguments rt_handle_table {K} _.
Arguments rt_current_exception {K} _.
Arguments rt_frames {K} _.
Arguments rt_domain {K} _.

Definition zaclr_heap_get_object (handle : Z) : Z := if handle =? 0 then 0 else handle.
Definition zaclr_heap_get_object_handle (object : Z) : Z := object.

Section roots.
Context {S : Type} (visit : Z -> S -> outcome S).

Definition visit_stack_value (value : zaclr_stack_value) (s : S) : outcome S :=
  references ← value_reference value; visit_each visit references s.

Definition zaclr_gc_visit_stack_values (values : option (list zaclr_stack_value)) (count : Z) (s : S)
  : outcome S :=
  match values with
  | None => Ret s
  | Some values => values ← first_n values count; visit_each visit_stack_value values s
  end.

(** The callback on an object found through a handle. *)
Definition visit_handle (handle : Z) (s : S) : outcome S :=
  let object := zaclr_heap_get_object handle in
  if negb (object =? 0) then visit object s else Ret s.

Definition zaclr_gc_enumerate_assembly_static_roots (assembly : zaclr_loaded_assembly) (s : S)
  : outcome S :=
  s ← zaclr_gc_visit_stack_values (as_static_fields assembly) (as_static_field_count assembly) s;
  s ← visit_each (fun value => zaclr_gc_visit_stack_values (Some [value]) 1)
        (as_generic_static_fields assembly) s;
  s ← match as_runtime_type_cache assembly with
      | None => Ret s
      | Some cache => cache ← first_n cache (as_runtime_type_cache_count assembly);
                      visit_each visit_handle cache s
      end;
  if negb (as_exposed_assembly_handle assembly =? 0)
  then visit_handle (as_exposed_assembly_handle assembly) s else Ret s.

Definition is_weak (kind : Z) : bool :=
  (kind =? ZACLR_GC_HANDLE_KIND_WEAK) || (kind =? ZACLR_GC_HANDLE_KIND_WEAK_TRACK_RESURRECTION).

Definition visit_entry (entry : zaclr_gc_handle_entry) (s : S) : outcome S :=
  if he_handle entry =? 0 then Ret s
  else if is_weak (he_kind entry) then Ret s
  else visit_handle (he_handle entry) s.

Definition zaclr_gc_enumerate_handle_table_roots (table : zaclr_handle_table) (s : S) : outcome S :=
  entries ← first_n (ht_entries table) (ht_count table);
  visit_each visit_entry entries s.

Definition stack_values (stack : zaclr_eval_stack) : option (list zaclr_stack_value) :=
  if es_buffer stack =? 0 then None else Some (es_values stack).

Definition zaclr_gc_enumerate_frame_roots (frame : zaclr_frame) (s : S) : outcome S :=
  s ← zaclr_gc_visit_stack_values (fr_arguments frame) (fr_argument_count frame) s;
  s ← zaclr_gc_visit_stack_values (fr_locals frame) (fr_local_count frame) s;
  zaclr_gc_visit_stack_values (stack_values (fr_eval_stack frame)) (es_depth (fr_eval_stack frame)) s.

Definition zaclr_gc_enumerate_thread_roots (current_exception : Z) (frames : list zaclr_frame) (s : S)
  : outcome S :=
  s ← (if negb (current_exception =? 0) then visit current_exception s else Ret s);
  visit_each zaclr_gc_enumerate_frame_roots frames s.

Definition zaclr_gc_enumerate_runtime_roots {K} (rt : zaclr_runtime K) (s : S) : outcome S :=
  s ← zaclr_gc_enumerate_handle_table_roots (rt_finalizer_queue rt) s;
  s ← zaclr_gc_enumerate_handle_table_roots (rt_handle_table rt) s;
  s ← zaclr_gc_enumerate_thread_roots (rt_current_exception rt) (rt_frames rt) s;
  match rt_domain rt with
  | None => Ret s
  | Some assemblies => visit_each zaclr_gc_enumerate_assembly_static_roots assemblies s
  end.
End roots.

(** ** Weak handles *)

Definition clear_handle (e : zaclr_gc_handle_entry) : zaclr_gc_handle_entry :=
  mk_entry 0 (he_kind e) (he_flags e) (he_reserved e).

Definition set_entries (t : zaclr_handle_table) (entries : list zaclr_gc_handle_entry)
  : zaclr_handle_table :=
  mk_handle_table (ht_id t) (ht_buffer t) entries (ht_count t) (ht_capacity t) (ht_flags t).

(** A loop that rewrites the entries in use one by one. *)
Definition update_entries (f : zaclr_gc_handle_entry -> outcome zaclr_gc_handle_entry)
    (t : zaclr_handle_table) : outcome zaclr_handle_table :=
  entries ← first_n (ht_entries t) (ht_count t);
  entries ← mapM f entries;
  Ret (set_entries t (entries ++ drop (Z.to_nat (ht_count t)) (ht_entries t))).

Definition clear_short_weak (objs : objects) (e : zaclr_gc_handle_entry)
  : outcome zaclr_gc_handle_entry :=
  if he_handle e =? 0 then Ret e
  else if negb (he_kind e =? ZACLR_GC_HANDLE_KIND_WEAK) then Ret e
  else
    let object := zaclr_heap_get_object (he_handle e) in
    if object =? 0 then Ret (clear_handle e) else
    match objs !! object with
    | None => Fault
    | Some o => if zaclr_object_is_marked o then Ret e else Ret (clear_handle e)
    end.

Definition zaclr_gc_clear_short_weak_handles (objs : objects) (t : zaclr_handle_table)
  : outcome zaclr_handle_table :=
  if ht_buffer t =? 0 then Ret t else update_entries (clear_short_weak objs) t.

Definition clear_long_weak (e : zaclr_gc_handle_entry) : outcome zaclr_gc_handle_entry :=
  if (he_handle e =? 0) || negb (he_kind e =? ZACLR_GC_HANDLE_KIND_WEAK_TRACK_RESURRECTION) then Ret e
  else if zaclr_heap_get_object (he_handle e) =? 0 then Ret (clear_handle e) else Ret e.

Definition zaclr_gc_clear_long_weak_handles (t : zaclr_handle_table) : outcome zaclr_handle_table :=
  if ht_buffer t =? 0 then Ret t else update_entries clear_long_weak t.

Definition remove_handle (handle : Z) (e : zaclr_gc_handle_entry) : outcome zaclr_gc_handle_entry :=
  Ret (if he_handle e =? handle then zero_entry else e).

Definition zaclr_gc_remove_handle_from_table (t : zaclr_handle_table) (handle : Z)
  : outcome zaclr_handle_table :=
  if (handle =? 0) || (ht_buffer t =? 0) then Ret t else update_entries (remove_handle handle) t.

(** ** The collection *)

Section collection.
Context {K : Type} `{KernelHeap K}.
Implicit Types (rt : zaclr_runtime K).

Definition set_managed rt (m : managed K) : zaclr_runtime K :=
  mk_runtime m (rt_finalizer_queue rt) (rt_handle_table rt) (rt_current_exception rt) (rt_frames rt)
    (rt_domain rt).

Definition set_queue rt (q : zaclr_handle_table) : zaclr_runtime K :=
  mk_runtime (rt_managed rt) q (rt_handle_table rt) (rt_current_exception rt) (rt_frames rt)
    (rt_domain rt).

Definition set_handle_table rt (t : zaclr_handle_table) : zaclr_runtime K :=
  mk_runtime (rt_managed rt) (rt_finalizer_queue rt) t (rt_current_exception rt) (rt_frames rt)
    (rt_domain rt).

Definition set_objects rt (objs : objects) : zaclr_runtime K :=
  set_managed rt (mk_managed (mg_kernel (rt_managed rt)) objs (mg_heap (rt_managed rt))).

Definition set_kernel rt (k : K) : zaclr_runtime K :=
  set_managed rt (mk_managed k (mg_objects (rt_managed rt)) (mg_heap (rt_managed rt))).

Definition set_rt_flags rt (flags : Z) : zaclr_runtime K :=
  set_managed rt (mk_managed (mg_kernel (rt_managed rt)) (mg_objects (rt_managed rt))
                    (set_heap_flags (mg_heap (rt_managed rt)) flags)).

(** A step that can fail without changing the runtime, then the rest. *)
Definition step {A B S} (m : outcome A) (s : S) (k : A -> outcome B * S) : outcome B * S :=
  match m with
  | Ret a => k a
  | Err r => (Err r, s)
  | Fault => (Fault, s)
  | NoFuel => (NoFuel, s)
  end.

(** An unreachable object whose finalizer has to run. *)
Definition awaits_finalizer (o : zaclr_object_desc) : bool :=
  negb (zaclr_object_is_marked o
        || flag_set (ob_gc_state o) ZACLR_OBJECT_GC_STATE_FINALIZER_SUPPRESSED
        || negb (flag_set (ob_gc_state o) ZACLR_OBJECT_GC_STATE_FINALIZER_PENDING)
        || flag_set (ob_gc_state o) ZACLR_OBJECT_GC_STATE_FINALIZER_QUEUED).

(** The body of the loop of [zaclr_gc_promote_unreachable_finalizable_objects]. *)
Definition promote_node (index : Z) rt : outcome unit * zaclr_runtime K :=
  match hp_nodes (mg_heap (rt_managed rt)) .@ index with
  | None => (Fault, rt)
  | Some n =>
    if negb (node_used n) then (Ret (), rt) else
    let objs := mg_objects (rt_managed rt) in
    match objs !! nd_object n with
    | None => (Fault, rt)
    | Some o =>
      if negb (awaits_finalizer o) then (Ret (), rt) else
      match zaclr_handle_table_store_ex (mg_kernel (rt_managed rt)) (rt_finalizer_queue rt)
              (zaclr_heap_get_object_handle (nd_object n)) ZACLR_GC_HANDLE_KIND_STRONG with
      | (Ret _, (k, q)) =>
        let o := set_gc_state o (u8 (Z.lor (ob_gc_state o) ZACLR_OBJECT_GC_STATE_FINALIZER_QUEUED)) in
        let rt := set_queue (set_kernel rt k) q in
        step (zaclr_gc_mark_object (nd_object n) (<[nd_object n := o]> objs)) rt
          (fun objs => (Ret (), set_objects rt objs))
      | (Err r, (k, q)) => (Err r, set_queue (set_kernel rt k) q)
      | (Fault, _) => (Fault, rt)
      | (NoFuel, _) => (NoFuel, rt)
      end
    end
  end.

Fixpoint promote_from (fuel : nat) (index : Z) rt : outcome unit * zaclr_runtime K :=
  if index <? hp_node_count (mg_heap (rt_managed rt)) then
    match fuel with
    | O => (NoFuel, rt)
    | S fuel =>
      match promote_node index rt with
      | (Ret _, rt) => promote_from fuel (index + 1) rt
      | x => x
      end
    end
  else (Ret (), rt).

Definition zaclr_gc_promote_unreachable_finalizable_objects rt : outcome unit * zaclr_runtime K :=
  if hp_buffer (mg_heap (rt_managed rt)) =? 0 then (Ret (), rt)
  else promote_from (Z.to_nat (hp_node_count (mg_heap (rt_managed rt)))) 0 rt.

Definition gc_active rt : bool := flag_set (hp_flags (mg_heap (rt_managed rt))) ZACLR_HEAP_FLAG_GC_ACTIVE.

(** [runtime->heap.flags &= ~ZACLR_HEAP_FLAG_GC_ACTIVE]. *)
Definition end_collection rt : zaclr_runtime K :=
  set_rt_flags rt (Z.land (hp_flags (mg_heap (rt_managed rt))) (UINT32_MAX - ZACLR_HEAP_FLAG_GC_ACTIVE)).

(** [zaclr_gc_collect] from the promotion on. *)
Definition finish_collection rt : outcome unit * zaclr_runtime K :=
  match zaclr_gc_promote_unreachable_finalizable_objects rt with
  | (Ret _, rt) =>
    step (zaclr_heap_sweep_unmarked (rt_managed rt)) rt (fun m =>
    let rt := set_managed rt m in
    step (zaclr_gc_clear_long_weak_handles (rt_handle_table rt)) rt (fun table =>
    (Ret (), end_collection (set_handle_table rt table))))
  | (Err r, rt) => (Err r, end_collection rt)
  | x => x
  end.

Definition zaclr_gc_collect rt : outcome unit * zaclr_runtime K :=
  if gc_active rt then (Ret (), rt) else
  let rt := set_rt_flags rt (Z.lor (hp_flags (mg_heap (rt_managed rt))) ZACLR_HEAP_FLAG_GC_ACTIVE) in
  step (zaclr_heap_clear_marks (rt_managed rt)) rt (fun m =>
  let rt := set_managed rt m in
  step (zaclr_gc_enumerate_runtime_roots zaclr_gc_mark_object rt (mg_objects (rt_managed rt))) rt
    (fun objs =>
  let rt := set_objects rt objs in
  step (zaclr_gc_clear_short_weak_handles (mg_objects (rt_managed rt)) (rt_handle_table rt)) rt
    (fun table =>
  finish_collection (set_handle_table rt table)))).

Definition zaclr_gc_collection_count (rt : option (zaclr_runtime K)) : Z :=
  match rt with Some rt => hp_collection_count (mg_heap (rt_managed rt)) | None => 0 end.

(** ** Finalization requests *)

Definition finalizer_state_mask : Z :=
  Z.lor (Z.lor ZACLR_OBJECT_GC_STATE_FINALIZER_PENDING ZACLR_OBJECT_GC_STATE_FINALIZER_QUEUED)
    ZACLR_OBJECT_GC_STATE_FINALIZER_COMPLETE.

Definition zaclr_gc_suppress_finalize rt (handle : Z) : outcome unit * zaclr_runtime K :=
  if handle =? 0 then (Err (heap_error ZACLR_STATUS_INVALID_ARGUMENT), rt) else
  let object := zaclr_heap_get_object handle in
  if object =? 0 then (Err (heap_error ZACLR_STATUS_NOT_FOUND), rt) else
  match mg_objects (rt_managed rt) !! object with
  | None => (Fault, rt)
  | Some o =>
    let state := u8 (Z.lor (Z.land (ob_gc_state o) (255 - finalizer_state_mask))
                       ZACLR_OBJECT_GC_STATE_FINALIZER_SUPPRESSED) in
    let rt := set_objects rt (<[object := set_gc_state o state]> (mg_objects (rt_managed rt))) in
    step (zaclr_gc_remove_handle_from_table (rt_finalizer_queue rt) handle) rt
      (fun q => (Ret (), set_queue rt q))
  end.

Definition zaclr_gc_object_has_finalizer (o : zaclr_object_desc) : bool :=
  match ob_method_table o ≫= mt_type_desc with
  | Some type => flag_set (zaclr_type_runtime_flags (Some type)) ZACLR_TYPE_RUNTIME_FLAG_HAS_FINALIZER
  | None => false
  end.

Definition zaclr_gc_reregister_for_finalize rt (handle : Z) : outcome unit * zaclr_runtime K :=
  if handle =? 0 then (Err (heap_error ZACLR_STATUS_INVALID_ARGUMENT), rt) else
  let object := zaclr_heap_get_object handle in
  if object =? 0 then (Err (heap_error ZACLR_STATUS_NOT_FOUND), rt) else
  match mg_objects (rt_managed rt) !! object with
  | None => (Fault, rt)
  | Some o =>
    if negb (zaclr_gc_object_has_finalizer o) then (Ret (), rt) else
    let state := u8 (Z.lor (Z.land (Z.land (ob_gc_state o) (255 - finalizer_state_mask))
                              (255 - ZACLR_OBJECT_GC_STATE_FINALIZER_SUPPRESSED))
                       ZACLR_OBJECT_GC_STATE_FINALIZER_PENDING) in
    let rt := set_objects rt (<[object := set_gc_state o state]> (mg_objects (rt_managed rt))) in
    step (zaclr_gc_remove_handle_from_table (rt_finalizer_queue rt) handle) rt
      (fun q => (Ret (), set_queue rt q))
  end.

(** ** Allocation *)

Definition sizeof_object_desc : Z := 40.
Definition sizeof_reference_object_desc : Z := 48.
Definition sizeof_array_desc : Z := 56.

(** Zeroed memory of [size] bytes, seen as the body its header announces. *)
Definition zero_body (size object_family object_flags : Z) : object_body :=
  let zeros n := replicate (Z.to_nat (size - n)) x00 in
  if u16 object_family =? ZACLR_OBJECT_FAMILY_ARRAY then BodyArray 0 0 (zaclr_token_make 0) (zeros sizeof_array_desc)
  else if u16 object_family =? ZACLR_OBJECT_FAMILY_INSTANCE then
    if flag_set object_flags ZACLR_OBJECT_FLAG_BOXED_VALUE then BodyBoxed 0 zero_value
    else if flag_set object_flags ZACLR_OBJECT_FLAG_REFERENCE_TYPE
    then BodyReference 0 (Fields (zeros sizeof_reference_object_desc))
    else BodyPlain (zeros sizeof_object_desc)
  else BodyPlain (zeros sizeof_object_desc).

Definition new_object (size type_id object_family object_flags : Z) : zaclr_object_desc :=
  mk_object (u32 size) (u16 object_family) 0 ZACLR_OBJECT_GC_STATE_NONE object_flags None type_id
    (zero_body size object_family object_flags).

(** The end of the allocation: the object is initialised and listed. *)
Definition install_object rt (object size type_id object_family object_flags : Z)
  : outcome Z * zaclr_runtime K :=
  let h := mg_heap (rt_managed rt) in
  match hp_nodes h .@ (hp_node_count h) with
  | None => (Fault, rt)
  | Some _ =>
    let nodes := set (hp_nodes h) (hp_node_count h) (mk_node object (u32 size) 1) in
    let h := mk_heap (hp_runtime h) (hp_flags h) (hp_buffer h) nodes (u32 (hp_node_count h + 1))
               (hp_node_capacity h) (u32 (hp_live_object_count h + 1))
               (u32 (hp_allocated_bytes h + u32 size)) (hp_collection_threshold_bytes h)
               (hp_collection_count h) in
    (Ret object,
     set_managed rt (mk_managed (mg_kernel (rt_managed rt))
       (<[object := new_object size type_id object_family object_flags]> (mg_objects (rt_managed rt))) h))
  end.

(** The test that triggers a collection before an allocation. *)
Definition over_threshold (h : zaclr_heap) (allocation_size : Z) : bool :=
  hp_runtime h && negb (hp_collection_threshold_bytes h =? 0)
  && (allocation_size <=? 0xFFFFFFFF)
  && (u32 (hp_collection_threshold_bytes h - u32 allocation_size) <? hp_allocated_bytes h).

Definition allocate_listed rt (allocation_size type_id object_family object_flags : Z)
  : outcome Z * zaclr_runtime K :=
  match zaclr_heap_reserve_nodes (rt_managed rt) (u32 (hp_node_count (mg_heap (rt_managed rt)) + 1)) with
  | (Ret _, m) =>
    let '(object, k) := kernel_alloc (mg_kernel m) allocation_size in
    let rt := set_kernel (set_managed rt m) k in
    if negb (object =? 0) then install_object rt object allocation_size type_id object_family object_flags
    else if hp_runtime (mg_heap m) && negb (gc_active rt) then
      match zaclr_gc_collect rt with
      | (Ret _, rt) =>
        let '(object, k) := kernel_alloc (mg_kernel (rt_managed rt)) allocation_size in
        let rt := set_kernel rt k in
        if negb (object =? 0)
        then install_object rt object allocation_size type_id object_family object_flags
        else (Err (heap_error ZACLR_STATUS_OUT_OF_MEMORY), rt)
      | (Err r, rt) => (Err r, rt)
      | (Fault, rt) => (Fault, rt)
      | (NoFuel, rt) => (NoFuel, rt)
      end
    else (Err (heap_error ZACLR_STATUS_OUT_OF_MEMORY), rt)
  | (Err r, m) => (Err r, set_managed rt m)
  | (Fault, m) => (Fault, set_managed rt m)
  | (NoFuel, m) => (NoFuel, set_managed rt m)
  end.

Definition zaclr_heap_allocate_object rt (allocation_size type_id object_family object_flags : Z)
  : outcome Z * zaclr_runtime K :=
  if allocation_size <? sizeof_object_desc then (Err (heap_error ZACLR_STATUS_INVALID_ARGUMENT), rt)
  else if over_threshold (mg_heap (rt_managed rt)) allocation_size then
    match zaclr_gc_collect rt with
    | (Ret _, rt) => allocate_listed rt allocation_size type_id object_family object_flags
    | (Err r, rt) => (Err r, rt)
    | (Fault, rt) => (Fault, rt)
    | (NoFuel, rt) => (NoFuel, rt)
    end
  else allocate_listed rt allocation_size type_id object_family object_flags.

End collection.
