(* ===== verification/GcMark.v ===== *)
(** * Correctness of the marking phase

    Marking never follows a dangling reference, terminates within the bound given
    by the number of objects, changes nothing but marks, and marks exactly the
    objects reachable from the roots; the enumeration of the roots visits exactly
    the references held by the handle tables, the frames and the assemblies. *)

From Stdlib Require Import Strings.Byte.
From stdpp Require Import relations.
From S2P Require Import Prelude Status Bytes Token KernelHeap HandleTable TypeMap EvalStack.
From S2P Require Import ManagedObject ManagedHeap Gc.

(** ** The object graph *)

(** The references of the object at an address. *)
Definition kids (objs : objects) (p : Z) : list Z :=
  match objs !! p with
  | Some o => match object_children o with Ret l => l | _ => [] end
  | None => []
  end.

Definition edge (objs : objects) (p q : Z) : Prop := q ∈ kids objs p /\ q <> 0.
Definition reach (objs : objects) : relation Z := rtc (edge objs).

(** A reference that is null or points to an object. *)
Definition valid (objs : objects) (p : Z) : Prop := p = 0 \/ is_Some (objs !! p).

(** Every reference held by an object is valid. *)
Definition well_linked (objs : objects) : Prop :=
  forall p o, objs !! p = Some o ->
    exists l, object_children o = Ret l /\ forall q, q ∈ l -> valid objs q.

Definition marked (objs : objects) (p : Z) : Prop :=
  exists o, objs !! p = Some o /\ zaclr_object_is_marked o = true.

(** What marking and the finalizer states do not change. *)
Definition shape (o : zaclr_object_desc) : zaclr_object_desc := set_gc_state (set_gc_mark o 0) 0.
Definition same_shape (objs objs' : objects) : Prop := shape <$> objs' = shape <$> objs.

Lemma same_shape_lookup objs objs' p :
  same_shape objs objs' -> shape <$> objs' !! p = shape <$> objs !! p.
Proof. intros E. by rewrite <- !lookup_fmap, E. Qed.

Lemma same_shape_Some objs objs' p o :
  same_shape objs objs' -> objs !! p = Some o -> exists o', objs' !! p = Some o' /\ shape o' = shape o.
Proof.
  intros E Ho. pose proof (same_shape_lookup _ _ p E) as Hp. rewrite Ho in Hp.
  destruct (objs' !! p) as [o'|]; [|done]. exists o'. split; [done|]. by apply (inj Some) in Hp.
Qed.

Lemma same_shape_sym objs objs' : same_shape objs objs' -> same_shape objs' objs.
Proof. done. Qed.

Lemma shape_children o o' : shape o = shape o' -> object_children o = object_children o'.
Proof.
  intros E. transitivity (object_children (shape o)); [reflexivity|]. rewrite E. reflexivity.
Qed.

Lemma same_shape_kids objs objs' p : same_shape objs objs' -> kids objs' p = kids objs p.
Proof.
  intros E. unfold kids. pose proof (same_shape_lookup _ _ p E) as Hp.
  destruct (objs !! p) as [o|], (objs' !! p) as [o'|]; simpl in Hp; try done.
  apply (inj Some) in Hp. by rewrite (shape_children o' o).
Qed.

Lemma same_shape_valid objs objs' p : same_shape objs objs' -> valid objs p -> valid objs' p.
Proof.
  intros E [->|[o Ho]]; [by left|]. destruct (same_shape_Some _ _ _ _ E Ho) as (o' & Ho' & _).
  right. by exists o'.
Qed.

Lemma same_shape_well_linked objs objs' : same_shape objs objs' -> well_linked objs -> well_linked objs'.
Proof.
  intros E Hw p o' Ho'. destruct (same_shape_Some _ _ _ _ (same_shape_sym _ _ E) Ho') as (o & Ho & Hs).
  destruct (Hw p o Ho) as (l & Hl & Hv). exists l. rewrite (shape_children o' o) by done.
  split; [done|]. intros q Hq. eapply same_shape_valid; eauto.
Qed.

Lemma same_shape_edge objs objs' p q : same_shape objs objs' -> edge objs' p q <-> edge objs p q.
Proof. intros E. unfold edge. by rewrite (same_shape_kids objs objs'). Qed.

Lemma same_shape_reach objs objs' p q : same_shape objs objs' -> reach objs' p q <-> reach objs p q.
Proof.
  intros E. split; apply rtc_subrel; intros x y; by rewrite (same_shape_edge objs objs').
Qed.

(** ** Marking *)

(** [objs'] is [objs] with more marks. *)
Record mark_ext (objs objs' : objects) : Prop := {
  me_clear : clear <$> objs' = clear <$> objs;
  me_mono p : marked objs p -> marked objs' p }.

Lemma mark_ext_refl objs : mark_ext objs objs.
Proof. done. Qed.

Lemma mark_ext_trans a b c : mark_ext a b -> mark_ext b c -> mark_ext a c.
Proof. intros [H1 H2] [H3 H4]. split; [congruence|auto]. Qed.

Lemma mark_ext_shape objs objs' : mark_ext objs objs' -> same_shape objs objs'.
Proof.
  intros [E _]. unfold same_shape. apply (f_equal (fmap (fun o => set_gc_state o 0))) in E.
  rewrite <- !map_fmap_compose in E. exact E.
Qed.

(** The objects still to be marked. *)
Definition unmarked (objs : objects) : gset Z :=
  dom (filter (fun po => zaclr_object_is_marked po.2 = false) objs).

Lemma elem_of_unmarked objs p :
  p ∈ unmarked objs <-> exists o, objs !! p = Some o /\ zaclr_object_is_marked o = false.
Proof.
  unfold unmarked. rewrite elem_of_dom. unfold is_Some. setoid_rewrite map_lookup_filter_Some. done.
Qed.

Lemma mark_ext_lookup objs objs' p :
  mark_ext objs objs' -> is_Some (objs' !! p) <-> is_Some (objs !! p).
Proof.
  intros [E _]. apply (f_equal (fun m => m !! p)) in E. rewrite !lookup_fmap in E.
  destruct (objs !! p), (objs' !! p); simpl in E; try done.
Qed.

Lemma mark_ext_unmarked objs objs' : mark_ext objs objs' -> unmarked objs' ⊆ unmarked objs.
Proof.
  intros He p. rewrite !elem_of_unmarked. intros (o' & Ho' & Hm).
  assert (is_Some (objs !! p)) as [o Ho] by (apply (mark_ext_lookup _ _ _ He); by exists o').
  exists o. split; [done|]. destruct (zaclr_object_is_marked o) eqn:Hmo; [|done].
  destruct (me_mono _ _ He p) as (o2 & Ho2 & Hm2); [by exists o|]. congruence.
Qed.

(** What a marking step or a run of steps from [start] achieves. *)
Record marking (start : list Z) (objs objs' : objects) : Prop := {
  mk_ext : mark_ext objs objs';
  mk_start p : p ∈ start -> p <> 0 -> marked objs' p;
  mk_sound q : marked objs' q -> marked objs q \/ exists p, p ∈ start /\ p <> 0 /\ reach objs p q;
  mk_black q : marked objs' q -> marked objs q \/ forall r, edge objs q r -> marked objs' r }.

Lemma marking_nil objs : marking [] objs objs.
Proof. split; [done|set_solver|by left|by left]. Qed.

Lemma marking_null objs : marking [0] objs objs.
Proof. split; [done|set_solver|by left|by left]. Qed.

Lemma marking_app l1 l2 a b c : marking l1 a b -> marking l2 b c -> marking (l1 ++ l2) a c.
Proof.
  intros [E1 S1 R1 B1] [E2 S2 R2 B2]. pose proof (mark_ext_shape _ _ E1) as Hs. split.
  - by eapply mark_ext_trans.
  - intros p [Hp|Hp]%elem_of_app Hp0; [apply (me_mono _ _ E2); auto|auto].
  - intros q Hq. destruct (R2 q Hq) as [Hq'|(p & Hp & Hp0 & Hr)].
    + destruct (R1 q Hq') as [|(p & Hp & Hp0 & Hr)]; [by left|]. right. exists p. set_solver.
    + right. exists p. split; [set_solver|]. split; [done|]. by eapply same_shape_reach.
  - intros q Hq. destruct (B2 q Hq) as [Hq'|Hc].
    + destruct (B1 q Hq') as [|Hc]; [by left|]. right. intros r Hr. apply (me_mono _ _ E2). auto.
    + right. intros r Hr. apply Hc. by eapply same_shape_edge.
Qed.

Lemma marking_already objs p : marked objs p -> marking [p] objs objs.
Proof. intros Hp. split; [done| |by left|by left]. intros q ->%list_elem_of_singleton _. done. Qed.

(** A callback that marks from each reference it is given, with a bound. *)
Definition marks (visit : Z -> objects -> outcome objects) (fuel : nat) : Prop :=
  forall objs p, well_linked objs -> valid objs p -> (size (unmarked objs) <= fuel)%nat ->
    exists objs', visit p objs = Ret objs' /\ marking [p] objs objs'.

Lemma visit_each_marks visit fuel :
  marks visit fuel -> forall l objs,
  well_linked objs -> (forall p, p ∈ l -> valid objs p) -> (size (unmarked objs) <= fuel)%nat ->
  exists objs', visit_each visit l objs = Ret objs' /\ marking l objs objs'.
Proof.
  intros Hvisit l. induction l as [|p l IH]; intros objs Hw Hl Hf; simpl.
  { exists objs. split; [done|apply marking_nil]. }
  destruct (Hvisit objs p Hw (Hl p (list_elem_of_here _ _)) Hf) as (objs1 & -> & Hm1).
  rewrite Ret_bind. pose proof (mk_ext _ _ _ Hm1) as He.
  destruct (IH objs1) as (objs2 & -> & Hm2).
  - eapply same_shape_well_linked; [by apply mark_ext_shape|done].
  - intros q Hq. eapply same_shape_valid; [by apply mark_ext_shape|]. apply Hl. by apply list_elem_of_further.
  - etrans; [apply subseteq_size; by apply mark_ext_unmarked|done].
  - exists objs2. split; [done|]. by apply (marking_app [p] l objs objs1).
Qed.

(** Marking one object. *)
Lemma set_marked_spec objs p o :
  objs !! p = Some o -> zaclr_object_is_marked o = false ->
  let objs1 := <[p := zaclr_object_set_marked o 1]> objs in
  mark_ext objs objs1 /\ marked objs1 p /\ (forall q, marked objs1 q -> q = p \/ marked objs q) /\
  (size (unmarked objs1) < size (unmarked objs))%nat.
Proof.
  intros Ho Hm objs1.
  assert (mark_ext objs objs1) as He.
  { split.
    - unfold objs1. rewrite fmap_insert. apply insert_id. rewrite lookup_fmap, Ho. done.
    - intros q (o' & Ho' & Hm'). exists o'. split; [|done]. unfold objs1.
      rewrite lookup_insert_ne; [done|]. intros <-. congruence. }
  split; [done|]. split; [|split].
  - eexists. unfold objs1. rewrite lookup_insert_eq. done.
  - intros q (o' & Ho' & Hm'). destruct (decide (q = p)) as [->|Hne]; [by left|right].
    unfold objs1 in Ho'. rewrite lookup_insert_ne in Ho' by done. by exists o'.
  - apply subset_size. split; [by apply mark_ext_unmarked|]. intros Hsub.
    assert (p ∈ unmarked objs1) as Hp by (apply Hsub, elem_of_unmarked; by exists o).
    apply elem_of_unmarked in Hp as (o' & Ho' & Hm'). unfold objs1 in Ho'.
    rewrite lookup_insert_eq in Ho'. simplify_eq.
Qed.

Lemma mark_object_spec fuel : marks (mark_object fuel) fuel.
Proof.
  induction fuel as [|fuel IH]; intros objs p Hw Hv Hf; simpl;
    (destruct (Z.eqb_spec p 0) as [->|Hp0]; [exists objs; split; [done|apply marking_null]|]);
    (destruct Hv as [|[o Ho]]; [done|]); rewrite Ho;
    (destruct (zaclr_object_is_marked o) eqn:Hm; [exists objs; split; [done|apply marking_already; by exists o]|]).
  { exfalso. assert (p ∈ unmarked objs) as Hp by (apply elem_of_unmarked; by exists o).
    apply Nat.le_0_r, size_empty_inv in Hf. set_solver. }
  destruct (set_marked_spec objs p o Ho Hm) as (He & Hmp & Hnew & Hsize).
  set (objs1 := <[p := zaclr_object_set_marked o 1]> objs) in *.
  pose proof (mark_ext_shape _ _ He) as Hs.
  destruct (Hw p o Ho) as (l & Hl & Hlv).
  change (object_children (zaclr_object_set_marked o 1)) with (object_children o).
  rewrite Hl, Ret_bind.
  destruct (visit_each_marks _ _ IH l objs1) as (objs2 & Hrun & Hmk).
  - by eapply same_shape_well_linked.
  - intros q Hq. eapply same_shape_valid; eauto.
  - lia.
  - exists objs2. split; [done|]. destruct Hmk as [He2 Hst Hso Hbl].
    assert (forall r, edge objs p r <-> r ∈ l /\ r <> 0) as Hedge.
    { intros r. unfold edge, kids. by rewrite Ho, Hl. }
    split.
    + by eapply mark_ext_trans.
    + intros q ->%list_elem_of_singleton _. by apply (me_mono _ _ He2).
    + intros q Hq. destruct (Hso q Hq) as [Hq1|(c & Hc & Hc0 & Hr)].
      * destruct (Hnew q Hq1) as [->|]; [right; exists p; split; [apply list_elem_of_here|]; split; [done|apply rtc_refl]|by left].
      * right. exists p. split; [apply list_elem_of_here|]. split; [done|].
        eapply rtc_l; [by apply Hedge|]. by eapply same_shape_reach.
    + intros q Hq. destruct (Hbl q Hq) as [Hq1|Hc].
      * destruct (Hnew q Hq1) as [->|]; [right|by left]. intros r [Hr Hr0]%Hedge. by apply Hst.
      * right. intros r Hr. apply Hc. by eapply same_shape_edge.
Qed.

Lemma unmarked_size objs : (size (unmarked objs) <= size objs)%nat.
Proof.
  unfold unmarked. rewrite size_dom. apply map_subseteq_size. apply map_filter_subseteq.
Qed.

(** [zaclr_gc_mark_object] has enough fuel. *)
Lemma gc_mark_object_spec n : marks zaclr_gc_mark_object n.
Proof.
  intros objs p Hw Hv _. apply mark_object_spec; [done|done|apply unmarked_size].
Qed.

(** ** The roots *)

Definition handle_reference (h : Z) : list Z := if h =? 0 then [] else [h].

Definition stack_references (values : option (list zaclr_stack_value)) (count : Z) : outcome (list Z) :=
  match values with
  | None => Ret []
  | Some values => values ← first_n values count; collect value_reference values
  end.

Definition entry_reference (e : zaclr_gc_handle_entry) : list Z :=
  if is_weak (he_kind e) then [] else handle_reference (he_handle e).

Definition table_references (t : zaclr_handle_table) : outcome (list Z) :=
  entries ← first_n (ht_entries t) (ht_count t);
  collect (fun e => Ret (entry_reference e)) entries.

Definition frame_references (f : zaclr_frame) : outcome (list Z) :=
  a ← stack_references (fr_arguments f) (fr_argument_count f);
  l ← stack_references (fr_locals f) (fr_local_count f);
  e ← stack_references (stack_values (fr_eval_stack f)) (es_depth (fr_eval_stack f));
  Ret (a ++ l ++ e).

Definition assembly_references (a : zaclr_loaded_assembly) : outcome (list Z) :=
  s ← stack_references (as_static_fields a) (as_static_field_count a);
  g ← collect value_reference (as_generic_static_fields a);
  c ← match as_runtime_type_cache a with
      | None => Ret []
      | Some cache => cache ← first_n cache (as_runtime_type_cache_count a);
                      collect (fun h => Ret (handle_reference h)) cache
      end;
  Ret (s ++ g ++ c ++ handle_reference (as_exposed_assembly_handle a)).

(** The references the runtime holds: the strong entries of the finalizer queue
    and of the handle table, the current exception, the frames and the statics. *)
Definition runtime_references {K} (rt : zaclr_runtime K) : outcome (list Z) :=
  q ← table_references (rt_finalizer_queue rt);
  h ← table_references (rt_handle_table rt);
  f ← collect frame_references (rt_frames rt);
  a ← collect assembly_references (default [] (rt_domain rt));
  Ret (q ++ h ++ handle_reference (rt_current_exception rt) ++ f ++ a).

Section enumeration.
Context {S : Type} (visit : Z -> S -> outcome S).

Lemma visit_each_app {A} (f : A -> S -> outcome S) l1 l2 s :
  visit_each f (l1 ++ l2) s = (visit_each f l1 s ≫= visit_each f l2).
Proof.
  revert s. induction l1 as [|x l1 IH]; intros s; simpl; [done|].
  destruct (f x s); simpl; [apply IH|done|done|done].
Qed.

(** Visiting the parts of a list one by one. *)
Lemma visit_each_collect {A} (g : A -> S -> outcome S) (f : A -> outcome (list Z)) :
  (forall x l s, f x = Ret l -> g x s = visit_each visit l s) ->
  forall xs l s, collect f xs = Ret l -> visit_each g xs s = visit_each visit l s.
Proof.
  intros Hg xs. induction xs as [|x xs IH]; intros l s; simpl; [by intros [= <-]|].
  intros (ps & Hps & (qs & Hqs & [= <-])%bind_Ret)%bind_Ret.
  rewrite visit_each_app, (Hg x ps) by done.
  destruct (visit_each visit ps s); simpl; [by apply IH|done|done|done].
Qed.

Lemma visit_stack_value_references v l s :
  value_reference v = Ret l -> visit_stack_value visit v s = visit_each visit l s.
Proof. unfold visit_stack_value. by intros ->. Qed.

Lemma visit_stack_values_references values count l s :
  stack_references values count = Ret l ->
  zaclr_gc_visit_stack_values visit values count s = visit_each visit l s.
Proof.
  destruct values as [values|]; simpl; [|by intros [= <-]].
  intros (vs & -> & Hc)%bind_Ret. rewrite Ret_bind.
  revert Hc. apply visit_each_collect. intros. by apply visit_stack_value_references.
Qed.

Lemma visit_one_value v l s :
  value_reference v = Ret l -> zaclr_gc_visit_stack_values visit (Some [v]) 1 s = visit_each visit l s.
Proof. intros Hv. apply visit_stack_values_references. simpl. by rewrite Hv, Ret_bind, app_nil_r. Qed.

Lemma visit_handle_references h s :
  visit_handle visit h s = visit_each visit (handle_reference h) s.
Proof.
  unfold visit_handle, handle_reference, zaclr_heap_get_object.
  destruct (Z.eqb_spec h 0) as [->|Hh]; simpl; [done|].
  rewrite (proj2 (Z.eqb_neq h 0)) by done. simpl. by destruct (visit h s).
Qed.

Lemma enumerate_table_references t l s :
  table_references t = Ret l ->
  zaclr_gc_enumerate_handle_table_roots visit t s = visit_each visit l s.
Proof.
  unfold table_references, zaclr_gc_enumerate_handle_table_roots.
  intros (es & -> & Hc)%bind_Ret. rewrite Ret_bind.
  revert Hc. apply visit_each_collect. intros e l' s' [= <-]. unfold visit_entry, entry_reference.
  destruct (is_weak (he_kind e)); [by case_if|]. rewrite <- visit_handle_references.
  unfold visit_handle, zaclr_heap_get_object. by destruct (he_handle e =? 0).
Qed.

Lemma enumerate_frame_references f l s :
  frame_references f = Ret l -> zaclr_gc_enumerate_frame_roots visit f s = visit_each visit l s.
Proof.
  unfold frame_references, zaclr_gc_enumerate_frame_roots.
  intros (a & Ha & (b & Hb & (c & Hc & [= <-])%bind_Ret)%bind_Ret)%bind_Ret.
  rewrite !visit_each_app, (visit_stack_values_references _ _ a) by done.
  destruct (visit_each visit a s); simpl; try done. rewrite visit_each_app.
  rewrite (visit_stack_values_references _ _ b) by done.
  destruct (visit_each visit b a0); simpl; try done. by apply visit_stack_values_references.
Qed.

Lemma enumerate_assembly_references a l s :
  assembly_references a = Ret l ->
  zaclr_gc_enumerate_assembly_static_roots visit a s = visit_each visit l s.
Proof.
  unfold assembly_references, zaclr_gc_enumerate_assembly_static_roots.
  intros (x & Hx & (y & Hy & (z & Hz & [= <-])%bind_Ret)%bind_Ret)%bind_Ret.
  rewrite visit_each_app, (visit_stack_values_references _ _ x) by done.
  destruct (visit_each visit x s) as [s1| | |]; simpl; try done. rewrite visit_each_app.
  rewrite (visit_each_collect _ value_reference visit_one_value _ y) by done.
  destruct (visit_each visit y s1) as [s2| | |]; simpl; try done. rewrite visit_each_app.
  assert (match as_runtime_type_cache a with
      | None => Ret s2
      | Some cache => cache ← first_n cache (as_runtime_type_cache_count a);
                      visit_each (visit_handle visit) cache s2
      end = visit_each visit z s2) as ->.
  { destruct (as_runtime_type_cache a) as [cache|]; [|by simplify_eq/=].
    apply bind_Ret in Hz as (c & -> & Hc). rewrite Ret_bind. revert Hc. apply visit_each_collect.
    intros h l s' [= <-]. apply visit_handle_references. }
  destruct (visit_each visit z s2) as [s3| | |]; simpl; try done.
  rewrite <- visit_handle_references. unfold visit_handle, zaclr_heap_get_object.
  by destruct (as_exposed_assembly_handle a =? 0).
Qed.

(** The enumeration passes exactly the references of the runtime to its visitor,
    in order. *)
Lemma enumerate_runtime_references {K} (rt : zaclr_runtime K) l s :
  runtime_references rt = Ret l ->
  zaclr_gc_enumerate_runtime_roots visit rt s = visit_each visit l s.
Proof.
  unfold runtime_references, zaclr_gc_enumerate_runtime_roots.
  intros (q & Hq & (h & Hh & (f & Hf & (a & Ha & [= <-])%bind_Ret)%bind_Ret)%bind_Ret)%bind_Ret.
  rewrite visit_each_app, (enumerate_table_references _ q) by done.
  destruct (visit_each visit q s) as [s1| | |]; simpl; try done.
  rewrite visit_each_app, (enumerate_table_references _ h) by done.
  destruct (visit_each visit h s1) as [s2| | |]; simpl; try done.
  rewrite visit_each_app. unfold zaclr_gc_enumerate_thread_roots.
  assert ((if negb (rt_current_exception rt =? 0) then visit (rt_current_exception rt) s2 else Ret s2)
          = visit_each visit (handle_reference (rt_current_exception rt)) s2) as ->.
  { unfold handle_reference. destruct (rt_current_exception rt =? 0); simpl; [done|].
    by destruct (visit (rt_current_exception rt) s2). }
  destruct (visit_each visit (handle_reference (rt_current_exception rt)) s2) as [s3| | |]; simpl; try done.
  rewrite visit_each_app, (visit_each_collect _ frame_references enumerate_frame_references _ f) by done.
  destruct (visit_each visit f s3) as [s4| | |]; simpl; try done.
  destruct (rt_domain rt) as [assemblies|]; simpl in Ha; [|by simplify_eq].
  revert Ha. apply visit_each_collect. intros. by apply enumerate_assembly_references.
Qed.
End enumeration.

(** ** The marking phase *)

(** The references of marked objects are marked. *)
Definition closed_marks (objs : objects) : Prop :=
  forall p q, marked objs p -> edge objs p q -> marked objs q.

Lemma closed_marks_reach objs p q : closed_marks objs -> marked objs p -> reach objs p q -> marked objs q.
Proof. intros Hc Hp Hr. induction Hr as [|x y z Hxy _ IH]; [done|]. apply IH. by eapply Hc. Qed.

(** From closed marks, marking adds exactly what is reachable from the start, and
    the marks are closed again. *)
Lemma marking_closed l objs objs' :
  closed_marks objs -> marking l objs objs' ->
  closed_marks objs' /\
  forall q, marked objs' q <-> marked objs q \/ exists p, p ∈ l /\ p <> 0 /\ reach objs p q.
Proof.
  intros Hc [He Hst Hso Hbl]. pose proof (mark_ext_shape _ _ He) as Hs.
  assert (closed_marks objs') as Hc'.
  { intros p q Hp Hpq%(same_shape_edge objs objs'); [|done].
    destruct (Hbl p Hp) as [Hp'|Hall]; [|by apply Hall]. apply (me_mono _ _ He). by eapply Hc. }
  split; [done|]. intros q. split; [apply Hso|]. intros [Hq|(p & Hp & Hp0 & Hr)].
  - by apply (me_mono _ _ He).
  - eapply closed_marks_reach; [done|by apply Hst|]. by apply (same_shape_reach objs objs').
Qed.

Lemma mark_phase {K} (rt : zaclr_runtime K) objs roots :
  well_linked objs -> (forall p, ~ marked objs p) ->
  runtime_references rt = Ret roots -> (forall p, p ∈ roots -> valid objs p) ->
  exists objs', zaclr_gc_enumerate_runtime_roots zaclr_gc_mark_object rt objs = Ret objs' /\
    mark_ext objs objs' /\ closed_marks objs' /\
    forall q, marked objs' q <-> exists r, r ∈ roots /\ r <> 0 /\ reach objs r q.
Proof.
  intros Hw Hno Hr Hv. rewrite (enumerate_runtime_references _ _ roots) by done.
  destruct (visit_each_marks _ _ (gc_mark_object_spec (size (unmarked objs))) roots objs) as (objs' & -> & Hm);
    [done|done|done|]. exists objs'. split; [done|]. split; [apply Hm|].
  destruct (marking_closed roots objs objs') as [Hc Hiff]; [|done|].
  { intros p q Hp. by destruct (Hno p). }
  split; [done|]. intros q. rewrite Hiff. split; [|by right]. intros [Hq|?]; [by destruct (Hno q)|done].
Qed.
