(* ===== verification/GcCollect.v ===== *)
(** * Correctness of the collection and of the allocation

    The collection frees exactly the objects that are reachable neither from the
    roots nor from an object that waits for its finalizer, leaves no dangling
    reference behind, clears the short weak handles of the objects that are not
    reachable, and preserves the invariant of the runtime; the allocation loses no
    reachable object. *)

From Stdlib Require Import Strings.Byte.
From stdpp Require Import relations.
From S2P Require Import Prelude Status Bytes Token KernelHeap HandleTable TypeMap EvalStack.
From S2P Require Import ManagedObject ManagedHeap Gc GcMark.

(** ** Handle tables *)

Lemma collect_pure {A} (f : A -> list Z) l : collect (fun x => Ret (f x)) l = Ret (l ≫= f).
Proof. induction l as [|x l IH]; simpl; [done|]. by rewrite IH. Qed.

Section tables.
Context {K : Type} `{KernelHeapLaws K}.
Implicit Types (k : K) (t : zaclr_handle_table).

Lemma table_in_use k t :
  table_ok k t -> first_n (ht_entries t) (ht_count t) = Ret (take (Z.to_nat (ht_count t)) (ht_entries t)).
Proof.
  intros Hok. unfold first_n. destruct (used_entries k t Hok) as (Hl & _ & _).
  case_if; [|done]. unfold zlength in *. rewrite length_take in Hl. lia.
Qed.

(** The strong references of a table. *)
Definition strong_refs (t : zaclr_handle_table) : list Z :=
  take (Z.to_nat (ht_count t)) (ht_entries t) ≫= entry_reference.

Lemma table_references_ok k t : table_ok k t -> table_references t = Ret (strong_refs t).
Proof. intros Hok. unfold table_references. rewrite (table_in_use k t Hok), Ret_bind. apply collect_pure. Qed.

Lemma get_take {A} (l : list A) n i : 0 <= i < n -> take (Z.to_nat n) l .@ i = l .@ i.
Proof. intros Hi. unfold get. case_if; [done|]. apply lookup_take_lt. lia. Qed.

Lemma elem_of_strong_refs t p :
  p ∈ strong_refs t <-> exists i e, 0 <= i < ht_count t /\ ht_entries t .@ i = Some e /\ p ∈ entry_reference e.
Proof.
  unfold strong_refs. rewrite list_elem_of_bind. split.
  - intros (e & Hp & [i Hi]%In_get). pose proof (get_Some_range _ _ _ Hi) as Hr.
    unfold zlength in Hr. rewrite length_take in Hr. rewrite get_take in Hi by lia.
    exists i, e. split; [lia|done].
  - intros (i & e & Hi & He & Hp). exists e. split; [done|]. apply (get_In _ i). by rewrite get_take.
Qed.

(** Rewriting the entries one by one, keeping each or clearing its handle. *)
Definition keeps_or_clears (f : zaclr_gc_handle_entry -> outcome zaclr_gc_handle_entry) : Prop :=
  forall e e', f e = Ret e' -> e' = e \/ he_handle e' = 0.

Lemma mapM_Forall2 {A B} (f : A -> outcome B) l :
  Forall (fun x => exists y, f x = Ret y) l ->
  exists l', mapM f l = Ret l' /\ Forall2 (fun x y => f x = Ret y) l l'.
Proof.
  induction 1 as [|x l [y Hy] _ (l' & Hl' & Hf)].
  - by exists [].
  - exists (y :: l'). split; [|by constructor].
    change (mapM f (x :: l)) with (y0 ← f x; k ← mapM f l; mret (y0 :: k)).
    by rewrite Hy, Ret_bind, Hl', Ret_bind.
Qed.

Lemma update_entries_spec k t f :
  table_ok k t -> keeps_or_clears f ->
  (forall i e, 0 <= i < ht_count t -> ht_entries t .@ i = Some e -> exists e', f e = Ret e') ->
  exists t', update_entries f t = Ret t' /\ table_ok k t' /\ ht_buffer t' = ht_buffer t /\
    ht_count t' = ht_count t /\
    forall i e', 0 <= i < ht_count t -> ht_entries t' .@ i = Some e' ->
      exists e, ht_entries t .@ i = Some e /\ f e = Ret e'.
Proof.
  intros Hok Hkc Hf. destruct (used_entries k t Hok) as (Hul & Hum & Hue).
  unfold update_entries. rewrite (table_in_use k t Hok), Ret_bind.
  destruct (mapM_Forall2 f (take (Z.to_nat (ht_count t)) (ht_entries t))) as (l' & Hl' & H2).
  { apply Forall_forall. intros e [i Hi]%In_get.
    pose proof (get_Some_range _ _ _ Hi) as Hr. apply (Hf i); [lia|]. rewrite Hue in Hi by lia. done. }
  rewrite Hl', Ret_bind. eexists. split; [reflexivity|].
  pose proof (Forall2_length _ _ _ H2) as Hlen.
  assert (zlength l' = ht_count t) as Hl'c by (unfold zlength in *; lia).
  assert (forall i e', 0 <= i < ht_count t ->
    (l' ++ drop (Z.to_nat (ht_count t)) (ht_entries t)) .@ i = Some e' ->
    exists e, ht_entries t .@ i = Some e /\ f e = Ret e') as Hent.
  { intros i e' Hi He'. rewrite get_app_l in He' by lia. unfold get in He'. case_if_in He'; [done|].
    destruct (Forall2_lookup_r _ _ _ _ _ H2 He') as (e & He & Hfe). exists e. split; [|done].
    rewrite <- Hue by lia. unfold get. case_if; [lia|done]. }
  split; [|by simpl].
  pose proof Hok as [Hc Hn Hb Hct Hu]. split; simpl; try done.
  - intros Hb0. destruct (Hn Hb0) as [E1 E2]. rewrite E1, E2 in *. simpl in *.
    split; [|done]. apply length_zero_iff_nil. unfold zlength in *. rewrite length_app. simpl. lia.
  - intros Hb0. destruct (Hb Hb0) as (? & Hcl & ?). split; [done|]. split; [|done].
    unfold zlength in *. rewrite length_app, length_drop. lia.
  - intros i j e1 e2 (Hi & He1 & Ha1) (Hj & He2 & Ha2) Eh Ek Hne. simpl in *.
    pose proof (get_Some_range _ _ _ He1). pose proof (get_Some_range _ _ _ He2).
    destruct (Hent i e1) as (d1 & Hd1 & Hf1); [lia|done|].
    destruct (Hent j e2) as (d2 & Hd2 & Hf2); [lia|done|].
    destruct (Hkc d1 e1 Hf1) as [->|?]; [|done]. destruct (Hkc d2 e2 Hf2) as [->|?]; [|congruence].
    by apply (Hu i j d1 d2).
Qed.

Lemma strong_refs_update k t f t' :
  table_ok k t -> update_entries f t = Ret t' -> keeps_or_clears f ->
  (forall i e, 0 <= i < ht_count t -> ht_entries t .@ i = Some e -> exists e', f e = Ret e') ->
  forall p, p ∈ strong_refs t' -> p ∈ strong_refs t.
Proof.
  intros Hok Hup Hkc Hf p. destruct (update_entries_spec k t f Hok Hkc Hf) as (t2 & E & _ & _ & Hc & Hent).
  assert (t2 = t') as -> by congruence. rewrite !elem_of_strong_refs. intros (i & e' & Hi & He' & Hp).
  rewrite Hc in Hi. destruct (Hent i e' Hi He') as (e & He & Hfe). exists i, e. split; [done|].
  split; [done|]. destruct (Hkc e e' Hfe) as [->|Hz]; [done|].
  unfold entry_reference, handle_reference in Hp. rewrite Hz in Hp. simpl in Hp. case_if_in Hp; set_solver.
Qed.
End tables.

(** ** The invariant of the runtime *)

Section runtime.
Context {K : Type} `{KernelHeapLaws K}.
Implicit Types (rt : zaclr_runtime K).

Abbreviation kernel_of rt := (mg_kernel (rt_managed rt)).
Abbreviation objects_of rt := (mg_objects (rt_managed rt)).
Abbreviation heap_of rt := (mg_heap (rt_managed rt)).

(** Two buffers that are not the same block. *)
Definition apart (b b' : Z) : Prop := b <> 0 -> b <> b'.

(** No object is pinned. *)
Definition unpinned (objs : objects) : Prop :=
  forall p o, objs !! p = Some o -> flag_set (ob_gc_state o) ZACLR_OBJECT_GC_STATE_PINNED = false.

(** The references held outside the heap and the queue. *)
Definition other_references rt : outcome (list Z) :=
  f ← collect frame_references (rt_frames rt);
  a ← collect assembly_references (default [] (rt_domain rt));
  Ret (handle_reference (rt_current_exception rt) ++ f ++ a).

(** The heap and the handle tables are well formed and their buffers are apart;
    every reference held by an object, a frame, an assembly or a strong or short
    weak handle is null or points to an object; and no object is pinned (nothing
    in the program ever sets that state). *)
Record runtime_ok rt : Prop := {
  rk_heap : heap_ok (rt_managed rt);
  rk_queue : table_ok (kernel_of rt) (rt_finalizer_queue rt);
  rk_table : table_ok (kernel_of rt) (rt_handle_table rt);
  rk_apart_queue : apart (ht_buffer (rt_finalizer_queue rt)) (hp_buffer (heap_of rt)) /\
    apart (ht_buffer (rt_finalizer_queue rt)) (ht_buffer (rt_handle_table rt)) /\
    objects_of rt !! ht_buffer (rt_finalizer_queue rt) = None;
  rk_apart_table : apart (ht_buffer (rt_handle_table rt)) (hp_buffer (heap_of rt)) /\
    objects_of rt !! ht_buffer (rt_handle_table rt) = None;
  rk_linked : well_linked (objects_of rt);
  rk_queue_refs p : p ∈ strong_refs (rt_finalizer_queue rt) -> valid (objects_of rt) p;
  rk_table_refs p : p ∈ strong_refs (rt_handle_table rt) -> valid (objects_of rt) p;
  rk_weak i e : 0 <= i < ht_count (rt_handle_table rt) -> ht_entries (rt_handle_table rt) .@ i = Some e ->
    he_kind e = ZACLR_GC_HANDLE_KIND_WEAK -> valid (objects_of rt) (he_handle e);
  rk_others : exists l, other_references rt = Ret l /\ forall p, p ∈ l -> valid (objects_of rt) p;
  rk_unpinned : unpinned (objects_of rt) }.

Definition roots_of rt : list Z :=
  strong_refs (rt_finalizer_queue rt) ++ strong_refs (rt_handle_table rt)
  ++ match other_references rt with Ret l => l | _ => [] end.

Lemma runtime_ok_roots rt :
  runtime_ok rt -> runtime_references rt = Ret (roots_of rt) /\
  forall p, p ∈ roots_of rt -> valid (objects_of rt) p.
Proof.
  intros Hok. destruct (rk_others _ Hok) as (l & Hl & Hv). unfold roots_of. rewrite Hl. split.
  - unfold runtime_references. rewrite (table_references_ok _ _ (rk_queue _ Hok)), Ret_bind.
    rewrite (table_references_ok _ _ (rk_table _ Hok)), Ret_bind.
    unfold other_references in Hl. apply bind_Ret in Hl as (f & -> & Hl). rewrite Ret_bind.
    apply bind_Ret in Hl as (a & -> & [= <-]). by rewrite Ret_bind.
  - intros p [Hp|[Hp|Hp]%elem_of_app]%elem_of_app;
      [by apply (rk_queue_refs _ Hok)|by apply (rk_table_refs _ Hok)|auto].
Qed.

(** A table is unaffected by what happens to other blocks. *)
Lemma table_ok_kernel (k k' : K) t :
  table_ok k t -> (ht_buffer t <> 0 -> ht_buffer t ∈ live k') -> table_ok k' t.
Proof.
  intros [Hc Hn Hb Hct Hu] Hl. split; try done. intros Hz. destruct (Hb Hz) as (_ & ? & ?). auto.
Qed.
(** ** Promotion *)

Definition awaiting (objs : objects) (p : Z) : Prop :=
  exists o, objs !! p = Some o /\ awaits_finalizer o = true.

(** The state of the promotion that started in [rt0], before node [i]. *)
Record promoting rt0 rt (i : Z) : Prop := {
  pr_heap : heap_of rt = heap_of rt0;
  pr_rest : rt_handle_table rt = rt_handle_table rt0 /\ rt_current_exception rt = rt_current_exception rt0 /\
    rt_frames rt = rt_frames rt0 /\ rt_domain rt = rt_domain rt0;
  pr_heap_ok : heap_ok (rt_managed rt);
  pr_queue : table_ok (kernel_of rt) (rt_finalizer_queue rt);
  pr_table : table_ok (kernel_of rt) (rt_handle_table rt);
  pr_apart_queue : apart (ht_buffer (rt_finalizer_queue rt)) (hp_buffer (heap_of rt)) /\
    apart (ht_buffer (rt_finalizer_queue rt)) (ht_buffer (rt_handle_table rt)) /\
    objects_of rt !! ht_buffer (rt_finalizer_queue rt) = None;
  pr_shape : same_shape (objects_of rt0) (objects_of rt);
  pr_closed : closed_marks (objects_of rt);
  pr_mono p : marked (objects_of rt0) p -> marked (objects_of rt) p;
  pr_state p o : objects_of rt !! p = Some o -> marked (objects_of rt) p \/ objects_of rt0 !! p = Some o;
  pr_unpinned : unpinned (objects_of rt);
  pr_sound q : marked (objects_of rt) q -> marked (objects_of rt0) q \/
    exists f, awaiting (objects_of rt0) f /\ reach (objects_of rt0) f q;
  pr_done j n : j < i -> hp_nodes (heap_of rt) .@ j = Some n -> node_used n = true ->
    awaiting (objects_of rt0) (nd_object n) -> marked (objects_of rt) (nd_object n);
  pr_refs p : p ∈ strong_refs (rt_finalizer_queue rt) -> marked (objects_of rt) p }.

Lemma awaits_unmarked o : awaits_finalizer o = true -> zaclr_object_is_marked o = false.
Proof. unfold awaits_finalizer. intros. by bool_cases. Qed.

Lemma marked_lookup objs p o : objs !! p = Some o -> marked objs p <-> zaclr_object_is_marked o = true.
Proof. intros Ho. split; [intros (o' & Ho' & ?); congruence|by exists o]. Qed.

(** A node that is passed over. *)
Lemma promoting_skip rt0 rt i n o :
  promoting rt0 rt i -> hp_nodes (heap_of rt) .@ i = Some n ->
  (node_used n = true -> objects_of rt !! nd_object n = Some o /\ awaits_finalizer o = false) ->
  promoting rt0 rt (i + 1).
Proof.
  intros [] Hn Ho. split; try done. intros j n' Hj Hn' Hu Haw.
  destruct (Z.eq_dec j i) as [->|]; [|apply (pr_done0 j); (done || lia)].
  assert (n' = n) as -> by congruence. destruct (Ho Hu) as [Hob Hna].
  destruct (pr_state0 _ _ Hob) as [|Ho0]; [done|]. destruct Haw as (o' & Ho' & Haw). congruence.
Qed.

Lemma pinned_queued s :
  flag_set (u8 (Z.lor s ZACLR_OBJECT_GC_STATE_FINALIZER_QUEUED)) ZACLR_OBJECT_GC_STATE_PINNED
  = flag_set s ZACLR_OBJECT_GC_STATE_PINNED.
Proof.
  unfold flag_set, ZACLR_OBJECT_GC_STATE_PINNED, ZACLR_OBJECT_GC_STATE_FINALIZER_QUEUED, u8.
  do 2 f_equal. change 1 with (Z.ones 1). rewrite <- Z.land_ones by lia.
  rewrite <- Z.land_assoc. change (Z.land (Z.ones 8) (Z.ones 1)) with (Z.ones 1).
  rewrite Z.land_lor_distr_l. change (Z.land 4 (Z.ones 1)) with 0. apply Z.lor_0_r.
Qed.

(** Changing the finalizer state of an object. *)
Lemma set_state_spec objs p o st :
  objs !! p = Some o ->
  let objs1 := <[p := set_gc_state o st]> objs in
  same_shape objs objs1 /\ (forall q, marked objs1 q <-> marked objs q).
Proof.
  intros Ho objs1. split.
  - unfold same_shape, objs1. rewrite fmap_insert. apply insert_id. by rewrite lookup_fmap, Ho.
  - intros q. unfold marked, objs1. destruct (decide (q = p)) as [->|Hne].
    + rewrite lookup_insert_eq, Ho. split; intros (o' & [= <-] & Hm); by eexists.
    + by rewrite lookup_insert_ne.
Qed.

Lemma unmarked_same a b q o :
  mark_ext a b -> b !! q = Some o -> ~ marked b q -> a !! q = Some o.
Proof.
  intros He Hb Hm. assert (is_Some (a !! q)) as [o' Ha] by (apply (mark_ext_lookup _ _ _ He); by exists o).
  rewrite Ha. f_equal. pose proof (me_clear _ _ He) as E.
  apply (f_equal (fun m => m !! q)) in E. rewrite !lookup_fmap, Ha, Hb in E. apply (inj Some) in E.
  assert (ob_gc_mark o = 0 /\ ob_gc_mark o' = 0) as [E1 E2].
  { split.
    - destruct (Z.eq_dec (ob_gc_mark o) 0); [done|]. destruct Hm. exists o. split; [done|].
      unfold zaclr_object_is_marked. by rewrite (proj2 (Z.eqb_neq _ _)).
    - destruct (Z.eq_dec (ob_gc_mark o') 0); [done|]. destruct Hm. apply (me_mono _ _ He). exists o'.
      split; [done|]. unfold zaclr_object_is_marked. by rewrite (proj2 (Z.eqb_neq _ _)). }
  destruct o, o'. unfold clear, set_gc_mark in E. simpl in *. congruence.
Qed.

(** Queueing an object and marking from it. *)
Lemma promote_objects objs p o :
  well_linked objs -> closed_marks objs -> unpinned objs -> p <> 0 -> objs !! p = Some o ->
  let queued := set_gc_state o (u8 (Z.lor (ob_gc_state o) ZACLR_OBJECT_GC_STATE_FINALIZER_QUEUED)) in
  exists objs2, zaclr_gc_mark_object p (<[p := queued]> objs) = Ret objs2 /\ same_shape objs objs2 /\
    closed_marks objs2 /\ unpinned objs2 /\
    (forall q, marked objs2 q <-> marked objs q \/ reach objs p q) /\
    (forall q o2, objs2 !! q = Some o2 -> marked objs2 q \/ objs !! q = Some o2).
Proof.
  intros Hw Hc Hun Hp0 Ho queued. set (objs1 := <[p := queued]> objs).
  destruct (set_state_spec objs p o (ob_gc_state queued) Ho) as [Hs1 Hm1].
  change (<[p := set_gc_state o (ob_gc_state queued)]> objs) with objs1 in Hs1, Hm1.
  destruct (gc_mark_object_spec (size (unmarked objs1)) objs1 p) as (objs2 & Hrun & Hmk).
  { by eapply same_shape_well_linked. }
  { right. unfold objs1. rewrite lookup_insert_eq. by eexists. }
  { done. }
  pose proof (mk_ext _ _ _ Hmk) as He. pose proof (mark_ext_shape _ _ He) as Hs2.
  destruct (marking_closed [p] objs1 objs2) as [Hc2 Hiff]; [|done|].
  { intros a b Ha Hab%(same_shape_edge objs objs1); [|done]. rewrite Hm1 in Ha |- *. by eapply Hc. }
  assert (forall q, marked objs2 q <-> marked objs q \/ reach objs p q) as Hmarks.
  { intros q. rewrite Hiff, Hm1. split.
    - intros [|(x & ->%list_elem_of_singleton & _ & Hr)]; [by left|right]. by apply (same_shape_reach objs objs1).
    - intros [|Hr]; [by left|right]. exists p. split; [apply list_elem_of_here|]. split; [done|].
      by apply (same_shape_reach objs objs1). }
  exists objs2. split; [done|]. split; [unfold same_shape in *; congruence|]. split; [done|].
  split; [|split; [done|]].
  - intros q o2 Ho2. pose proof (me_clear _ _ He) as E. apply (f_equal (fun m => m !! q)) in E.
    rewrite !lookup_fmap, Ho2 in E. destruct (objs1 !! q) as [o1|] eqn:Ho1; [|done].
    apply (inj Some) in E. assert (ob_gc_state o2 = ob_gc_state o1) as -> by (by apply (f_equal ob_gc_state) in E).
    destruct (decide (q = p)) as [->|Hne]; unfold objs1 in Ho1.
    + rewrite lookup_insert_eq in Ho1. injection Ho1 as <-. unfold queued. simpl. rewrite pinned_queued.
      by eapply Hun.
    + rewrite lookup_insert_ne in Ho1 by done. by eapply Hun.
  - intros q o2 Ho2. destruct (decide (q ∈ unmarked objs2)) as [Hq|Hq].
    + right. apply elem_of_unmarked in Hq as (o' & Ho' & Hno). assert (o' = o2) as -> by congruence.
      assert (objs1 !! q = Some o2) as Ho1.
      { apply (unmarked_same objs1 objs2); [done|done|]. rewrite (marked_lookup _ _ _ Ho2), Hno. done. }
      unfold objs1 in Ho1. rewrite lookup_insert_ne in Ho1; [done|]. intros <-.
      assert (marked objs2 p) as Hmp by (apply Hmarks; right; apply rtc_refl).
      rewrite (marked_lookup _ _ _ Ho2) in Hmp. congruence.
    + left. exists o2. split; [done|]. destruct (zaclr_object_is_marked o2) eqn:E; [done|].
      destruct Hq. apply elem_of_unmarked. by exists o2.
Qed.

(** The blocks other than the queue's buffer stay live when it moves. *)
Lemma moved_live (k k' : K) t t' b :
  buffer_moved k t k' t' -> b ∈ live k -> b <> ht_buffer t -> b ∈ live k'.
Proof.
  intros [[_ ->]|[_ ->]] Hb Hne; [done|]. apply elem_of_union_r, elem_of_difference.
  split; [done|]. by rewrite elem_of_singleton.
Qed.

Lemma heap_buffer_live (s : managed K) :
  heap_ok s -> hp_buffer (mg_heap s) <> 0 -> hp_buffer (mg_heap s) ∈ live (mg_kernel s).
Proof.
  intros Hok Hb. destruct (Z.eq_dec (hp_node_capacity (mg_heap s)) 0) as [E|E];
    [by apply (hk_null _ Hok) in E|by apply (hk_buffer _ Hok)].
Qed.

Lemma heap_ok_objects (s : managed K) objs :
  heap_ok s -> same_shape (mg_objects s) objs -> heap_ok (mk_managed (mg_kernel s) objs (mg_heap s)).
Proof.
  intros Hok Hs. apply (heap_ok_frame s); try done.
  - intros p. pose proof (same_shape_lookup _ _ p Hs) as E. destruct (mg_objects s !! p), (objs !! p); done.
  - intros p [o Ho]. by eapply hk_live.
  - by apply heap_buffer_live.
Qed.

Lemma same_shape_None objs objs' p : same_shape objs objs' -> objs !! p = None -> objs' !! p = None.
Proof. intros Hs Hp. pose proof (same_shape_lookup _ _ p Hs) as E. rewrite Hp in E. by destruct (objs' !! p). Qed.

Lemma live_same_kernel (s : managed K) k :
  heap_ok s -> live k = live (mg_kernel s) -> heap_ok (mk_managed k (mg_objects s) (mg_heap s)).
Proof.
  intros Hok Hl. apply (heap_ok_frame s); try done; rewrite Hl.
  - intros p [o Ho]. by eapply hk_live.
  - by apply heap_buffer_live.
Qed.

Lemma table_buffer_live (k : K) t : table_ok k t -> ht_buffer t <> 0 -> ht_buffer t ∈ live k.
Proof. intros Hok Hb. by apply (tk_buffer _ _ Hok). Qed.

(** A failed growth of the queue changes nothing. *)
Lemma promoting_failed rt0 rt k i :
  promoting rt0 rt i -> live k = live (kernel_of rt) ->
  promoting rt0 (set_queue (set_kernel rt k) (rt_finalizer_queue rt)) i.
Proof.
  intros [] Hl. split; simpl; try done.
  - by apply live_same_kernel.
  - apply (table_ok_kernel (kernel_of rt)); [done|]. rewrite Hl. by apply table_buffer_live.
  - apply (table_ok_kernel (kernel_of rt)); [done|]. rewrite Hl. by apply table_buffer_live.
Qed.

(** The queue with a new entry, on its old buffer or a fresh one. *)
Lemma queue_moved_apart rt k q b :
  buffer_moved (kernel_of rt) (rt_finalizer_queue rt) k q ->
  (b <> 0 -> b ∈ live (kernel_of rt)) -> apart (ht_buffer (rt_finalizer_queue rt)) b ->
  apart (ht_buffer q) b.
Proof.
  intros [[-> _]|[Hf _]] Hb Ha; [done|]. intros Hz E. apply Hf. rewrite E. apply Hb. congruence.
Qed.

Lemma promoting_promoted rt0 rt i n o k q idx objs2 :
  promoting rt0 rt i -> hp_nodes (heap_of rt) .@ i = Some n -> node_used n = true ->
  objects_of rt !! nd_object n = Some o -> awaits_finalizer o = true ->
  table_ok k q -> buffer_moved (kernel_of rt) (rt_finalizer_queue rt) k q ->
  other_slots_kept (rt_finalizer_queue rt) q idx ->
  (exists e, live_entry q idx e /\ he_handle e = nd_object n) ->
  same_shape (objects_of rt) objs2 -> closed_marks objs2 -> unpinned objs2 ->
  (forall x, marked objs2 x <-> marked (objects_of rt) x \/ reach (objects_of rt) (nd_object n) x) ->
  (forall x o2, objs2 !! x = Some o2 -> marked objs2 x \/ objects_of rt !! x = Some o2) ->
  promoting rt0 (set_objects (set_queue (set_kernel rt k) q) objs2) (i + 1).
Proof.
  intros Hp Hn Hu Ho Haw Hq Hmoved Hslots (e & He & Heh) Hs2 Hc2 Hun2 Hmk2 Hst2.
  destruct (pr_apart_queue _ _ _ Hp) as (Ha1 & Ha2 & Ha3). pose proof (pr_heap_ok _ _ _ Hp) as Hok.
  assert (forall x, marked (objects_of rt) x -> marked objs2 x) as Hmono by (intros x Hx; apply Hmk2; by left).
  assert (~ marked (objects_of rt) (nd_object n)) as Hnm.
  { rewrite (marked_lookup _ _ _ Ho), (awaits_unmarked o Haw). done. }
  assert (objects_of rt0 !! nd_object n = Some o) as Ho0 by (by destruct (pr_state _ _ _ Hp _ _ Ho)).
  split; simpl.
  - apply Hp.
  - apply Hp.
  - apply (heap_ok_frame (rt_managed rt)); try done.
    + intros p. pose proof (same_shape_lookup _ _ p Hs2) as E.
      destruct (objects_of rt !! p), (objs2 !! p); done.
    + intros p [o' Hp']. eapply moved_live; [done|by eapply hk_live|]. intros ->. congruence.
    + intros Hb. eapply moved_live; [done|by apply heap_buffer_live|]. intros E. symmetry in E.
      destruct (Z.eq_dec (ht_buffer (rt_finalizer_queue rt)) 0); [congruence|by apply Ha1].
  - done.
  - apply (table_ok_kernel (kernel_of rt)); [apply Hp|]. intros Hb.
    eapply moved_live; [done|by apply table_buffer_live; [apply Hp|]|]. intros E. symmetry in E.
    destruct (Z.eq_dec (ht_buffer (rt_finalizer_queue rt)) 0); [congruence|by apply Ha2].
  - split; [|split].
    + apply (queue_moved_apart rt k); [done|by apply heap_buffer_live|done].
    + apply (queue_moved_apart rt k); [done| |done]. apply table_buffer_live. apply Hp.
    + apply (same_shape_None (objects_of rt)); [done|]. destruct Hmoved as [[-> _]|[Hf _]]; [done|].
      apply eq_None_not_Some. intros [o' Ho']. by apply (hk_live _ Hok) in Ho'.
  - pose proof (pr_shape _ _ _ Hp). unfold same_shape in *. congruence.
  - done.
  - intros p Hm. by apply Hmono, (pr_mono _ _ _ Hp).
  - intros p o2 Ho2. destruct (Hst2 p o2 Ho2) as [|Ho1]; [by left|].
    destruct (pr_state _ _ _ Hp p o2 Ho1); [left; by apply Hmono|by right].
  - done.
  - intros x [Hx|Hx]%Hmk2; [by apply (pr_sound _ _ _ Hp)|]. right. exists (nd_object n).
    split; [by exists o|]. apply (same_shape_reach (objects_of rt0) (objects_of rt)); [apply Hp|done].
  - intros j n' Hj Hn' Hu' Haw'. destruct (Z.eq_dec j i) as [->|].
    + assert (n' = n) as -> by congruence. apply Hmk2. right. apply rtc_refl.
    + apply Hmono. apply (pr_done _ _ _ Hp j); (done || lia).
  - intros p (j & e' & Hj & He' & Hpe)%elem_of_strong_refs. destruct (Z.eq_dec j idx) as [->|Hne].
    + destruct He as (_ & He & _). assert (e' = e) as -> by congruence.
      unfold entry_reference, handle_reference in Hpe. rewrite Heh in Hpe.
      assert (p = nd_object n) as -> by (repeat case_if_in Hpe; set_solver).
      apply Hmk2. right. apply rtc_refl.
    + destruct (Hslots j e' Hne) as [Hlt Hold]; [lia|done|].
      apply Hmono, (pr_refs _ _ _ Hp). apply elem_of_strong_refs. exists j, e'. split; [lia|done].
Qed.

Lemma promote_node_spec rt0 rt i :
  well_linked (objects_of rt0) -> promoting rt0 rt i -> 0 <= i < hp_node_count (heap_of rt) ->
  match promote_node i rt with
  | (Ret _, rt') => promoting rt0 rt' (i + 1)
  | (Err r, rt') => promoting rt0 rt' i /\
      r ∈ [process_error ZACLR_STATUS_BUFFER_TOO_SMALL; process_error ZACLR_STATUS_OUT_OF_MEMORY]
  | _ => False
  end.
Proof.
  intros Hw0 Hp Hi. unfold promote_node. pose proof (pr_heap_ok _ _ _ Hp) as Hok.
  pose proof (hk_count _ Hok). pose proof (hk_length _ Hok).
  destruct (get_Some (hp_nodes (heap_of rt)) i) as [n Hn]; [lia|]. rewrite Hn.
  destruct (node_used n) eqn:Hu; cbn [negb]; [|apply (promoting_skip _ _ _ n (new_object 0 0 0 0)); congruence].
  destruct (node_index _ i n Hok Hn Hu) as (_ & Hn0 & o & Ho). rewrite Ho.
  destruct (awaits_finalizer o) eqn:Haw; cbn [negb]; [|by apply (promoting_skip _ _ _ n o)].
  unfold zaclr_heap_get_object_handle.
  pose proof (store_ex_post (kernel_of rt) (rt_finalizer_queue rt) (nd_object n) ZACLR_GC_HANDLE_KIND_STRONG
    (pr_queue _ _ _ Hp) ltac:(done)) as Hst.
  destruct (zaclr_handle_table_store_ex _ _ _ _) as [[idx|r| |] [k q]] eqn:Hrun; try done.
  2: { destruct Hst as (-> & Hl & Hr). split; [|done]. by apply promoting_failed. }
  destruct (store_ex_frame _ _ _ _ _ _ _ (pr_queue _ _ _ Hp) Hrun) as [Hmoved Hslots].
  destruct Hst as (Hqok & _ & (e & He & Heh & _) & _).
  assert (well_linked (objects_of rt)) as Hw by (eapply same_shape_well_linked; [apply Hp|done]).
  destruct (promote_objects (objects_of rt) (nd_object n) o) as (objs2 & Hm & Hs2 & Hc2 & Hun2 & Hmk2 & Hst2);
    [done|apply Hp|apply Hp|done|done|].
  rewrite Hm. unfold step. eapply promoting_promoted; eauto.
Qed.

Lemma promote_from_spec fuel rt0 rt i :
  well_linked (objects_of rt0) -> promoting rt0 rt i -> 0 <= i <= hp_node_count (heap_of rt0) ->
  hp_node_count (heap_of rt0) - i <= Z.of_nat fuel ->
  match promote_from fuel i rt with
  | (Ret _, rt') => promoting rt0 rt' (hp_node_count (heap_of rt0))
  | (Err r, rt') => (exists j, promoting rt0 rt' j) /\
      r ∈ [process_error ZACLR_STATUS_BUFFER_TOO_SMALL; process_error ZACLR_STATUS_OUT_OF_MEMORY]
  | _ => False
  end.
Proof.
  intros Hw. revert rt i. induction fuel as [|fuel IH]; intros rt i Hp Hi Hf; simpl;
    rewrite (pr_heap _ _ _ Hp); (case_if; [|by replace (hp_node_count (heap_of rt0)) with i by lia]).
  - lia.
  - pose proof (promote_node_spec rt0 rt i Hw Hp) as Hn. rewrite (pr_heap _ _ _ Hp) in Hn.
    destruct (promote_node i rt) as [[u|r| |] rt']; [|by destruct Hn as [? ?]; [lia|]; eauto|by apply Hn; lia..].
    apply IH; [apply Hn; lia|lia|lia].
Qed.

(** ** The phases before the promotion *)

Lemma clear_short_weak_keeps objs : keeps_or_clears (clear_short_weak objs).
Proof.
  intros e e'. unfold clear_short_weak. case_if; [by intros [= <-]; left|].
  case_if; [by intros [= <-]; left|]. case_if; [by intros [= <-]; right|].
  destruct (objs !! _) as [o|]; [|done]. case_if; intros [= <-]; [by left|by right].
Qed.

Lemma clear_long_weak_keeps : keeps_or_clears clear_long_weak.
Proof.
  intros e e'. unfold clear_long_weak. case_if; [by intros [= <-]; left|].
  case_if; intros [= <-]; [by right|by left].
Qed.

Lemma heap_get_object_id h : zaclr_heap_get_object h = h.
Proof. unfold zaclr_heap_get_object. by destruct (Z.eqb_spec h 0). Qed.

(** The handle table after the short weak handles are cleared. *)
Record weak_cleared (k : K) objs (t t' : zaclr_handle_table) : Prop := {
  wc_ok : table_ok k t';
  wc_buffer : ht_buffer t' = ht_buffer t;
  wc_count : ht_count t' = ht_count t;
  wc_refs p : p ∈ strong_refs t' -> p ∈ strong_refs t;
  wc_entries i e' : 0 <= i < ht_count t -> ht_entries t' .@ i = Some e' ->
    exists e, ht_entries t .@ i = Some e /\ clear_short_weak objs e = Ret e';
  wc_weak i e : 0 <= i < ht_count t' -> ht_entries t' .@ i = Some e ->
    he_kind e = ZACLR_GC_HANDLE_KIND_WEAK -> he_handle e = 0 \/ marked objs (he_handle e) }.

Lemma clear_short_spec (k : K) objs t :
  table_ok k t ->
  (forall i e, 0 <= i < ht_count t -> ht_entries t .@ i = Some e ->
     he_kind e = ZACLR_GC_HANDLE_KIND_WEAK -> valid objs (he_handle e)) ->
  exists t', zaclr_gc_clear_short_weak_handles objs t = Ret t' /\ weak_cleared k objs t t'.
Proof.
  intros Hok Hv. unfold zaclr_gc_clear_short_weak_handles.
  destruct (Z.eqb_spec (ht_buffer t) 0) as [E|E].
  { exists t. destruct (tk_null _ _ Hok E) as [_ Hc]. split; [done|]. split; try done; lia. }
  assert (forall i e, 0 <= i < ht_count t -> ht_entries t .@ i = Some e ->
    exists e', clear_short_weak objs e = Ret e') as Htot.
  { intros i e Hi He. unfold clear_short_weak. rewrite heap_get_object_id.
    case_if; [by eexists|]. case_if; [by eexists|].
    destruct (Hv i e Hi He) as [|[o ->]]; [done|done|]. case_if; by eexists. }
  destruct (update_entries_spec k t _ Hok (clear_short_weak_keeps objs) Htot)
    as (t' & Hup & Hok' & Hb & Hc & Hent).
  exists t'. split; [done|]. split; try done.
  - apply (strong_refs_update k t _ t' Hok Hup (clear_short_weak_keeps objs) Htot).
  - intros i e' Hi He' Hk. rewrite Hc in Hi. destruct (Hent i e' Hi He') as (e & He & Hf).
    unfold clear_short_weak in Hf. rewrite heap_get_object_id in Hf.
    case_if_in Hf; [left; congruence|]. case_if_in Hf; [congruence|].
    destruct (objs !! he_handle e) as [o|] eqn:Ho; [|done].
    case_if_in Hf; simplify_eq; [right; by exists o|by left].
Qed.

(** The runtime when the promotion starts. *)
Record prepared rt rt4 : Prop := {
  pp_promoting : promoting rt4 rt4 0;
  pp_shape : same_shape (objects_of rt) (objects_of rt4);
  pp_states p o4 : objects_of rt4 !! p = Some o4 ->
    exists o, objects_of rt !! p = Some o /\ ob_gc_state o4 = ob_gc_state o;
  pp_marks q : marked (objects_of rt4) q <-> exists r, r ∈ roots_of rt /\ r <> 0 /\ reach (objects_of rt) r q;
  pp_kernel : kernel_of rt4 = kernel_of rt;
  pp_queue : rt_finalizer_queue rt4 = rt_finalizer_queue rt;
  pp_rest : rt_current_exception rt4 = rt_current_exception rt /\ rt_frames rt4 = rt_frames rt /\
    rt_domain rt4 = rt_domain rt;
  pp_heap : heap_of rt4 = set_heap_flags (heap_of rt)
    (Z.lor (hp_flags (heap_of rt)) ZACLR_HEAP_FLAG_GC_ACTIVE);
  pp_table : weak_cleared (kernel_of rt) (objects_of rt4) (rt_handle_table rt) (rt_handle_table rt4) }.

Lemma clear_shape objs : same_shape objs (clear <$> objs).
Proof. unfold same_shape. rewrite <- map_fmap_compose. done. Qed.

Lemma clear_unmarked objs p : ~ marked (clear <$> objs) p.
Proof.
  intros (o & Ho & Hm). rewrite lookup_fmap in Ho. destruct (objs !! p); simplify_eq/=.
Qed.

Lemma mark_ext_states objs objs' p o' :
  mark_ext objs objs' -> objs' !! p = Some o' ->
  exists o, objs !! p = Some o /\ ob_gc_state o' = ob_gc_state o.
Proof.
  intros He Ho'. pose proof (me_clear _ _ He) as E. apply (f_equal (fun m => m !! p)) in E.
  rewrite !lookup_fmap, Ho' in E. destruct (objs !! p) as [o|]; [|done]. apply (inj Some) in E.
  exists o. split; [done|]. by apply (f_equal ob_gc_state) in E.
Qed.

Lemma collect_prepared rt :
  runtime_ok rt -> gc_active rt = false ->
  exists rt4, prepared rt rt4 /\ zaclr_gc_collect rt = finish_collection rt4.
Proof.
  intros Hok Hact. unfold zaclr_gc_collect. rewrite Hact.
  destruct (runtime_ok_roots rt Hok) as [Hroots Hvalid].
  set (rt1 := set_rt_flags rt _).
  assert (heap_ok (rt_managed rt1)) as Hh1.
  { apply (heap_ok_frame (rt_managed rt)); try done; [apply Hok| |].
    - intros p [o Ho]. by eapply hk_live; [apply Hok|].
    - apply heap_buffer_live. apply Hok. }
  rewrite (clear_marks_spec _ Hh1). unfold step at 1. cbv zeta.
  set (objs2 := clear <$> mg_objects (rt_managed rt1)).
  set (rt2 := set_managed rt1 _).
  assert (same_shape (objects_of rt) objs2) as Hs2 by apply clear_shape.
  destruct (mark_phase rt2 objs2 (roots_of rt)) as (objs3 & Hrun & He & Hc & Hm).
  { eapply same_shape_well_linked; [done|apply Hok]. }
  { intros p. apply clear_unmarked. }
  { exact Hroots. }
  { intros p Hp. eapply same_shape_valid; [done|by apply Hvalid]. }
  change (mg_objects (rt_managed rt2)) with objs2. rewrite Hrun. unfold step at 1.
  assert (same_shape (objects_of rt) objs3) as Hs3.
  { apply mark_ext_shape in He. unfold same_shape in *. congruence. }
  set (rt3 := set_objects rt2 objs3).
  change (mg_objects (rt_managed rt3)) with objs3. change (rt_handle_table rt3) with (rt_handle_table rt).
  destruct (clear_short_spec (kernel_of rt) objs3 (rt_handle_table rt)) as (t & Ht & Hwc).
  { apply Hok. }
  { intros i e Hi Hget Hk. eapply same_shape_valid; [done|]. by eapply (rk_weak _ Hok). }
  rewrite Ht. unfold step at 1.
  exists (set_handle_table rt3 t). split; [|done].
  assert (forall q, marked objs3 q <-> exists r, r ∈ roots_of rt /\ r <> 0 /\ reach (objects_of rt) r q) as Hmarks.
  { intros q. rewrite Hm. split; intros (r & Hr & Hr0 & Hreach); exists r; (split; [done|]; split; [done|]);
      by apply (same_shape_reach (objects_of rt) objs2). }
  assert (forall p o4, objs3 !! p = Some o4 ->
    exists o, objects_of rt !! p = Some o /\ ob_gc_state o4 = ob_gc_state o) as Hstates.
  { intros p o4 Ho4. destruct (mark_ext_states _ _ _ _ He Ho4) as (o2 & Ho2 & Est).
    unfold objs2 in Ho2. rewrite lookup_fmap in Ho2.
    change (mg_objects (rt_managed rt1)) with (objects_of rt) in Ho2.
    destruct (objects_of rt !! p) as [o|] eqn:Ho; [|done]. exists o. split; [done|].
    injection Ho2 as <-. exact Est. }
  destruct (rk_apart_queue _ Hok) as (Ha1 & Ha2 & Ha3).
  split; try done. split; simpl; try done.
  - apply (heap_ok_objects (rt_managed rt1)); [done|exact Hs3].
  - apply Hok.
  - apply Hwc.
  - split; [done|]. split; [by rewrite (wc_buffer _ _ _ _ Hwc)|]. by eapply same_shape_None.
  - intros p o Ho. by right.
  - intros p o4 Ho4. destruct (Hstates p o4 Ho4) as (o & Ho & ->). by eapply (rk_unpinned _ Hok).
  - by left.
  - intros j n Hj Hn. apply get_Some_range in Hn. lia.
  - intros p Hp. apply Hmarks. exists p. split; [unfold roots_of; set_solver|]. split; [|apply rtc_refl].
    apply elem_of_strong_refs in Hp as (i & e & _ & _ & Hp). unfold entry_reference, handle_reference in Hp.
    repeat case_if_in Hp; set_solver.
Qed.

(** ** What survives a collection *)

(** An object whose finalizer is registered and has neither run, nor been queued,
    nor been suppressed. *)
Definition finalizable (o : zaclr_object_desc) : bool :=
  flag_set (ob_gc_state o) ZACLR_OBJECT_GC_STATE_FINALIZER_PENDING
  && negb (flag_set (ob_gc_state o) ZACLR_OBJECT_GC_STATE_FINALIZER_SUPPRESSED)
  && negb (flag_set (ob_gc_state o) ZACLR_OBJECT_GC_STATE_FINALIZER_QUEUED).

(** Reachable from a root or from an object that has to be finalized. *)
Definition survives rt (p : Z) : Prop :=
  exists r, r <> 0 /\ reach (objects_of rt) r p /\
    (r ∈ roots_of rt \/ exists o, objects_of rt !! r = Some o /\ finalizable o = true).

Lemma awaits_finalizable o :
  awaits_finalizer o = negb (zaclr_object_is_marked o) && finalizable o.
Proof.
  unfold awaits_finalizer, finalizable. destruct (zaclr_object_is_marked o),
    (flag_set _ ZACLR_OBJECT_GC_STATE_FINALIZER_SUPPRESSED),
    (flag_set _ ZACLR_OBJECT_GC_STATE_FINALIZER_PENDING),
    (flag_set _ ZACLR_OBJECT_GC_STATE_FINALIZER_QUEUED); done.
Qed.

Lemma object_nonzero (s : managed K) p o : heap_ok s -> mg_objects s !! p = Some o -> p <> 0.
Proof.
  intros Hok Ho ->. apply (hk_live _ Hok) in Ho. by apply null_not_live in Ho.
Qed.

Lemma promoted_marks rt rt4 rt5 q :
  runtime_ok rt -> prepared rt rt4 -> promoting rt4 rt5 (hp_node_count (heap_of rt4)) ->
  marked (objects_of rt5) q <-> survives rt q.
Proof.
  intros Hok Hpp Hpr. pose proof (pp_shape _ _ Hpp) as Hs.
  assert (forall p o, objects_of rt !! p = Some o -> exists o4, objects_of rt4 !! p = Some o4 /\
    ob_gc_state o4 = ob_gc_state o) as Hup.
  { intros p o Ho. destruct (same_shape_Some _ _ _ _ Hs Ho) as (o4 & Ho4 & _). exists o4. split; [done|].
    destruct (pp_states _ _ Hpp p o4 Ho4) as (o' & Ho' & ->). congruence. }
  assert (forall a b, reach (objects_of rt5) a b <-> reach (objects_of rt) a b) as Hreach.
  { intros a b. rewrite (same_shape_reach (objects_of rt4) (objects_of rt5)) by apply Hpr.
    by apply same_shape_reach. }
  split.
  - intros Hq. destruct (pr_sound _ _ _ Hpr q Hq) as [Hq4|(f & (o4 & Ho4 & Haw) & Hr)].
    + apply (pp_marks _ _ Hpp) in Hq4 as (r & Hr & Hr0 & Hreq). exists r. auto.
    + exists f. destruct (pp_states _ _ Hpp f o4 Ho4) as (o & Ho & Est).
      split; [by eapply object_nonzero; [apply Hok|]|].
      split; [by apply (same_shape_reach (objects_of rt) (objects_of rt4))|]. right. exists o. split; [done|].
      rewrite awaits_finalizable in Haw. bool_cases. unfold finalizable in *. by rewrite Est in *.
  - intros (r & Hr0 & Hr & Hcase). apply Hreach in Hr.
    eapply closed_marks_reach; [apply Hpr| |exact Hr]. destruct Hcase as [Hroot|(o & Ho & Hfin)].
    + apply (pr_mono _ _ _ Hpr). apply (pp_marks _ _ Hpp). exists r. split; [done|]. split; [done|apply rtc_refl].
    + destruct (Hup r o Ho) as (o4 & Ho4 & Est). destruct (zaclr_object_is_marked o4) eqn:Hmk.
      { apply (pr_mono _ _ _ Hpr). by exists o4. }
      pose proof (pp_promoting _ _ Hpp) as Hp4. pose proof (pr_heap_ok _ _ _ Hp4) as Hok4.
      destruct (hk_listed _ Hok4 r o4 Ho4) as (j & n & Hj & Hu & <-).
      apply (pr_done _ _ _ Hpr j n).
      * by apply (node_index (rt_managed rt4) j n).
      * by rewrite (pr_heap _ _ _ Hpr).
      * done.
      * exists o4. split; [done|]. rewrite awaits_finalizable, Hmk. unfold finalizable in *. by rewrite Est.
Qed.

(** The handle table at the end of a collection. *)
Lemma clear_long_spec (k : K) t :
  table_ok k t ->
  exists t', zaclr_gc_clear_long_weak_handles t = Ret t' /\ table_ok k t' /\ ht_buffer t' = ht_buffer t /\
    ht_count t' = ht_count t /\ (forall p, p ∈ strong_refs t' -> p ∈ strong_refs t) /\
    forall i e', 0 <= i < ht_count t -> ht_entries t' .@ i = Some e' ->
      exists e, ht_entries t .@ i = Some e /\ clear_long_weak e = Ret e'.
Proof.
  intros Hok. unfold zaclr_gc_clear_long_weak_handles. destruct (Z.eqb_spec (ht_buffer t) 0) as [E|E].
  { exists t. destruct (tk_null _ _ Hok E) as [_ Hc]. repeat (split; [done|]). intros; lia. }
  assert (forall i e, 0 <= i < ht_count t -> ht_entries t .@ i = Some e ->
    exists e', clear_long_weak e = Ret e') as Htot.
  { intros i e _ _. unfold clear_long_weak. repeat case_if; by eexists. }
  destruct (update_entries_spec k t _ Hok clear_long_weak_keeps Htot) as (t' & Hup & Hok' & Hb & Hc & Hent).
  exists t'. repeat (split; [done|]). split; [|done].
  apply (strong_refs_update k t _ t' Hok Hup clear_long_weak_keeps Htot).
Qed.

(** An entry of the handle table after a collection: a short weak handle is kept
    when its object is reachable from the roots and cleared when it is not; every
    other entry is kept. *)
Definition handle_after rt (e e' : zaclr_gc_handle_entry) : Prop :=
  let reachable := exists r, r ∈ roots_of rt /\ r <> 0 /\ reach (objects_of rt) r (he_handle e) in
  if (he_kind e =? ZACLR_GC_HANDLE_KIND_WEAK) && negb (he_handle e =? 0)
  then (reachable /\ e' = e) \/ (~ reachable /\ e' = clear_handle e)
  else e' = e.

Definition handles_after_collection rt rt' : Prop :=
  ht_count (rt_handle_table rt') = ht_count (rt_handle_table rt) /\
  forall i e, 0 <= i < ht_count (rt_handle_table rt) -> ht_entries (rt_handle_table rt) .@ i = Some e ->
    exists e', ht_entries (rt_handle_table rt') .@ i = Some e' /\ handle_after rt e e'.

Lemma clear_long_weak_id e : clear_long_weak e = Ret e.
Proof.
  unfold clear_long_weak. rewrite heap_get_object_id. case_if; [done|]. by case_if.
Qed.

Lemma handles_after rt rt4 t7 i e :
  prepared rt rt4 -> zlength (ht_entries t7) >= ht_count (rt_handle_table rt) ->
  (forall i e', 0 <= i < ht_count (rt_handle_table rt4) -> ht_entries t7 .@ i = Some e' ->
     exists e, ht_entries (rt_handle_table rt4) .@ i = Some e /\ clear_long_weak e = Ret e') ->
  0 <= i < ht_count (rt_handle_table rt) -> ht_entries (rt_handle_table rt) .@ i = Some e ->
  exists e', ht_entries t7 .@ i = Some e' /\ handle_after rt e e'.
Proof.
  intros Hpp Hlen Hte Hi He. pose proof (pp_table _ _ Hpp) as Hwc.
  destruct (get_Some (ht_entries t7) i) as [e7 He7]; [lia|]. exists e7. split; [done|].
  rewrite (wc_count _ _ _ _ Hwc) in Hte. destruct (Hte i e7 Hi He7) as (e4 & He4 & Hf).
  rewrite clear_long_weak_id in Hf. injection Hf as <-.
  destruct (wc_entries _ _ _ _ Hwc i e4 Hi He4) as (e0 & He0 & Hs).
  assert (e0 = e) as -> by congruence. unfold handle_after. unfold clear_short_weak in Hs.
  rewrite heap_get_object_id in Hs. destruct (Z.eqb_spec (he_handle e) 0) as [E|E]; cbn [negb].
  { rewrite andb_false_r. by injection Hs as <-. }
  rewrite andb_true_r. destruct (Z.eqb_spec (he_kind e) ZACLR_GC_HANDLE_KIND_WEAK); cbn [negb] in Hs;
    [|by injection Hs as <-].
  destruct (objects_of rt4 !! he_handle e) as [o|] eqn:Ho; [|done].
  rewrite <- (pp_marks _ _ Hpp (he_handle e)), (marked_lookup _ _ _ Ho).
  destruct (zaclr_object_is_marked o); injection Hs as <-; [by left|by right].
Qed.

(** The end of a successful collection: the sweep and the invariant. *)
Record swept rt rt' : Prop := {
  sw_ok : runtime_ok rt';
  sw_active : gc_active rt' = false;
  sw_objects p o' : objects_of rt' !! p = Some o' ->
    survives rt p /\ exists o, objects_of rt !! p = Some o /\ shape o' = shape o;
  sw_survivors p o : objects_of rt !! p = Some o -> survives rt p -> is_Some (objects_of rt' !! p);
  sw_freed p o : objects_of rt !! p = Some o -> objects_of rt' !! p = None -> p ∉ live (kernel_of rt');
  sw_rest : rt_current_exception rt' = rt_current_exception rt /\ rt_frames rt' = rt_frames rt /\
    rt_domain rt' = rt_domain rt;
  sw_handles : handles_after_collection rt rt';
  sw_nodes : hp_node_count (heap_of rt') = hp_node_count (heap_of rt) /\
    hp_allocated_bytes (heap_of rt') <= hp_allocated_bytes (heap_of rt) /\
    hp_runtime (heap_of rt') = hp_runtime (heap_of rt) /\
    hp_node_capacity (heap_of rt) <= hp_node_capacity (heap_of rt');
  sw_count : hp_collection_count (heap_of rt') = u32 (hp_collection_count (heap_of rt) + 1) }.

Lemma garbage_unmarked objs p o :
  unpinned objs -> objs !! p = Some o -> is_garbage o = negb (zaclr_object_is_marked o).
Proof.
  intros Hun Ho. unfold is_garbage, zaclr_object_is_marked. rewrite (Hun p o Ho).
  by destruct (ob_gc_mark o =? 0).
Qed.

(** The objects after the sweep are the marked ones. *)
Lemma swept_lookup objs p o :
  unpinned objs ->
  filter (fun po : Z * zaclr_object_desc => is_garbage po.2 = false) objs !! p = Some o <->
  objs !! p = Some o /\ marked objs p.
Proof.
  intros Hun. rewrite map_lookup_filter_Some. simpl. split; intros [Ho Hx]; (split; [done|]).
  - rewrite (garbage_unmarked objs p o) in Hx by done. bool_cases. by exists o.
  - rewrite (garbage_unmarked objs p o) by done. rewrite (marked_lookup _ _ _ Ho) in Hx. by rewrite Hx.
Qed.

Lemma marked_swept objs p :
  unpinned objs -> marked objs p ->
  is_Some (filter (fun po : Z * zaclr_object_desc => is_garbage po.2 = false) objs !! p).
Proof. intros Hun Hm. pose proof Hm as (o & Ho & _). exists o. by apply swept_lookup. Qed.

Lemma swept_linked objs :
  well_linked objs -> closed_marks objs -> unpinned objs ->
  well_linked (filter (fun po : Z * zaclr_object_desc => is_garbage po.2 = false) objs).
Proof.
  intros Hw Hc Hun p o Ho. apply swept_lookup in Ho as [Ho Hm]; [|done].
  destruct (Hw p o Ho) as (l & Hl & _). exists l. split; [done|]. intros q Hq.
  destruct (Z.eq_dec q 0) as [|Hq0]; [by left|right]. apply marked_swept; [done|]. apply (Hc p); [done|].
  split; [|done]. unfold kids. by rewrite Ho, Hl.
Qed.

(** A block that is not an object survives the sweep. *)
Lemma sweep_keeps_block (k k' : K) (objs objs' : objects) b :
  live k' = live k ∖ (dom objs ∖ dom objs') -> b ∈ live k -> objs !! b = None -> b ∈ live k'.
Proof.
  intros -> Hb Hn. apply elem_of_difference. split; [done|]. rewrite elem_of_difference, elem_of_dom, Hn.
  by intros [[? ?] _].
Qed.

Lemma gc_inactive rt : gc_active (end_collection rt) = false.
Proof.
  unfold gc_active, end_collection, flag_set. simpl. rewrite <- Z.land_assoc.
  change (Z.land (UINT32_MAX - ZACLR_HEAP_FLAG_GC_ACTIVE) ZACLR_HEAP_FLAG_GC_ACTIVE) with 0.
  by rewrite Z.land_0_r.
Qed.

Lemma roots_marked rt rt4 rt5 p :
  prepared rt rt4 -> (forall q, marked (objects_of rt4) q -> marked (objects_of rt5) q) ->
  p ∈ roots_of rt -> p <> 0 -> marked (objects_of rt5) p.
Proof.
  intros Hpp Hmono Hp Hp0. apply Hmono, (pp_marks _ _ Hpp). exists p.
  split; [done|]. split; [done|apply rtc_refl].
Qed.

Lemma collected_ok rt rt4 rt5 m6 t7 :
  runtime_ok rt -> prepared rt rt4 -> promoting rt4 rt5 (hp_node_count (heap_of rt4)) ->
  heap_ok m6 ->
  mg_objects m6 = filter (fun po => is_garbage po.2 = false) (objects_of rt5) ->
  live (mg_kernel m6) = live (kernel_of rt5) ∖ (dom (objects_of rt5) ∖ dom (mg_objects m6)) ->
  hp_buffer (mg_heap m6) = hp_buffer (heap_of rt5) ->
  table_ok (kernel_of rt5) t7 -> ht_buffer t7 = ht_buffer (rt_handle_table rt5) ->
  ht_count t7 = ht_count (rt_handle_table rt5) ->
  (forall p, p ∈ strong_refs t7 -> p ∈ strong_refs (rt_handle_table rt5)) ->
  (forall i e', 0 <= i < ht_count (rt_handle_table rt5) -> ht_entries t7 .@ i = Some e' ->
     exists e, ht_entries (rt_handle_table rt5) .@ i = Some e /\ clear_long_weak e = Ret e') ->
  runtime_ok (end_collection (set_handle_table (set_managed rt5 m6) t7)).
Proof.
  intros Hok Hpp Hpr Hh6 Ho6 Hl6 Hb6 Ht7 Htb Htc Htr Hte.
  pose proof (pr_unpinned _ _ _ Hpr) as Hun. pose proof (pp_table _ _ Hpp) as Hwc.
  destruct (pr_rest _ _ _ Hpr) as (Etab & Eexc & Efr & Edom).
  destruct (pr_apart_queue _ _ _ Hpr) as (Ha1 & Ha2 & Ha3).
  destruct (rk_apart_table _ Hok) as (Hb1 & Hb2).
  assert (forall p, p = 0 \/ marked (objects_of rt5) p -> valid (mg_objects m6) p) as Hval.
  { intros p [->|Hm]; [by left|right]. rewrite Ho6. by apply marked_swept. }
  assert (forall p, p ∈ roots_of rt -> valid (mg_objects m6) p) as Hroots.
  { intros p Hp. apply Hval. destruct (Z.eq_dec p 0); [by left|right].
    eapply roots_marked; [done|apply Hpr|done|done]. }
  assert (objects_of rt5 !! ht_buffer (rt_handle_table rt5) = None) as Htnone.
  { rewrite Etab, (wc_buffer _ _ _ _ Hwc). eapply same_shape_None; [apply Hpr|].
    eapply same_shape_None; [exact (pp_shape _ _ Hpp)|done]. }
  assert (forall b, objects_of rt5 !! b = None -> mg_objects m6 !! b = None) as Hnone.
  { intros b Hb. rewrite Ho6. apply map_lookup_filter_None. by left. }
  split; simpl.
  - apply (heap_ok_frame m6); try done.
    + intros p [o Ho]. by eapply hk_live.
    + by apply heap_buffer_live.
  - apply (table_ok_kernel (kernel_of rt5)); [apply Hpr|]. intros Hb.
    eapply sweep_keeps_block; [done|by apply table_buffer_live; [apply Hpr|]|done].
  - apply (table_ok_kernel (kernel_of rt5)); [done|]. intros Hb.
    eapply sweep_keeps_block; [done|by apply table_buffer_live|by rewrite Htb].
  - rewrite Hb6, Htb. split; [done|]. split; [done|]. by apply Hnone.
  - rewrite Hb6, Htb, Etab, (wc_buffer _ _ _ _ Hwc), (pr_heap _ _ _ Hpr), (pp_heap _ _ Hpp).
    split; [done|]. apply Hnone. by rewrite Etab, (wc_buffer _ _ _ _ Hwc) in Htnone.
  - rewrite Ho6. apply swept_linked; [|apply Hpr|done].
    eapply same_shape_well_linked; [apply Hpr|]. eapply same_shape_well_linked; [exact (pp_shape _ _ Hpp)|apply Hok].
  - intros p Hp. apply Hval. right. by apply (pr_refs _ _ _ Hpr).
  - intros p Hp. apply Hroots. unfold roots_of. apply elem_of_app. right. apply elem_of_app. left.
    apply (wc_refs _ _ _ _ Hwc). rewrite <- Etab. by apply Htr.
  - intros i e' Hi He' Hk. rewrite Htc in Hi. destruct (Hte i e' Hi He') as (e & He & Hf).
    unfold clear_long_weak in Hf. rewrite heap_get_object_id in Hf. apply Hval.
    assert (e' = e) as -> by (repeat case_if_in Hf; simplify_eq; congruence).
    rewrite Etab in He, Hi. destruct (wc_weak _ _ _ _ Hwc i e Hi He Hk) as [|Hm]; [by left|right].
    by apply (pr_mono _ _ _ Hpr).
  - destruct (rk_others _ Hok) as (l & Hl & _). exists l. split.
    + unfold other_references in *. simpl. destruct (pp_rest _ _ Hpp) as (E1 & E2 & E3).
      by rewrite Eexc, Efr, Edom, E1, E2, E3.
    + intros p Hp. apply Hroots. unfold roots_of. rewrite Hl. set_solver.
  - intros p o Ho. rewrite Ho6 in Ho. apply swept_lookup in Ho as [Ho _]; [|done]. by eapply Hun.
Qed.

Lemma promote_spec rt rt4 :
  runtime_ok rt -> prepared rt rt4 ->
  match zaclr_gc_promote_unreachable_finalizable_objects rt4 with
  | (Ret _, rt5) => promoting rt4 rt5 (hp_node_count (heap_of rt4))
  | (Err r, rt5) => (exists j, promoting rt4 rt5 j) /\
      r ∈ [process_error ZACLR_STATUS_BUFFER_TOO_SMALL; process_error ZACLR_STATUS_OUT_OF_MEMORY]
  | _ => False
  end.
Proof.
  intros Hok Hpp. pose proof (pp_promoting _ _ Hpp) as Hp. pose proof (pr_heap_ok _ _ _ Hp) as Hh.
  pose proof (hk_count _ Hh) as Hc. unfold zaclr_gc_promote_unreachable_finalizable_objects.
  destruct (Z.eqb_spec (hp_buffer (heap_of rt4)) 0) as [E|E].
  - destruct (Z.eq_dec (hp_node_capacity (heap_of rt4)) 0) as [E0|E0]; [|by destruct (hk_buffer _ Hh E0)].
    by replace (hp_node_count (heap_of rt4)) with 0 by lia.
  - apply promote_from_spec; [|done|lia|lia].
    eapply same_shape_well_linked; [exact (pp_shape _ _ Hpp)|apply Hok].
Qed.

(** A collection that could not queue a finalizer: nothing is freed. *)
Definition abandoned rt (r : zaclr_result) rt' : Prop :=
  runtime_ok rt' /\ gc_active rt' = false /\ same_shape (objects_of rt) (objects_of rt') /\
  (rt_current_exception rt' = rt_current_exception rt /\ rt_frames rt' = rt_frames rt /\
   rt_domain rt' = rt_domain rt) /\
  handles_after_collection rt rt' /\
  (hp_node_count (heap_of rt') = hp_node_count (heap_of rt) /\
   hp_allocated_bytes (heap_of rt') <= hp_allocated_bytes (heap_of rt) /\
   hp_runtime (heap_of rt') = hp_runtime (heap_of rt) /\
   hp_node_capacity (heap_of rt) <= hp_node_capacity (heap_of rt')) /\
  r ∈ [process_error ZACLR_STATUS_BUFFER_TOO_SMALL; process_error ZACLR_STATUS_OUT_OF_MEMORY].

Lemma abandoned_ok rt rt4 rt5 j r :
  runtime_ok rt -> prepared rt rt4 -> promoting rt4 rt5 j ->
  r ∈ [process_error ZACLR_STATUS_BUFFER_TOO_SMALL; process_error ZACLR_STATUS_OUT_OF_MEMORY] ->
  abandoned rt r (end_collection rt5).
Proof.
  intros Hok Hpp Hpr Hr. pose proof (pp_table _ _ Hpp) as Hwc.
  destruct (pr_rest _ _ _ Hpr) as (Etab & Eexc & Efr & Edom).
  destruct (pp_rest _ _ Hpp) as (E1 & E2 & E3).
  assert (same_shape (objects_of rt) (objects_of rt5)) as Hs.
  { pose proof (pr_shape _ _ _ Hpr). pose proof (pp_shape _ _ Hpp). unfold same_shape in *. congruence. }
  assert (forall p, marked (objects_of rt5) p -> valid (objects_of rt5) p) as Hmv.
  { intros p (o & Ho & _). right. by exists o. }
  assert (forall p, p ∈ roots_of rt -> valid (objects_of rt5) p) as Hroots.
  { intros p Hp. eapply same_shape_valid; [done|]. by apply (runtime_ok_roots rt Hok). }
  pose proof (pr_heap_ok _ _ _ Hpr) as Hh5.
  unfold abandoned. split; [|split; [apply gc_inactive|]].
  2: { split; [done|]. simpl. rewrite Eexc, Efr, Edom, E1, E2, E3, (pr_heap _ _ _ Hpr), (pp_heap _ _ Hpp).
       split; [done|]. split; [|done]. unfold handles_after_collection. simpl. rewrite Etab.
       split; [apply Hwc|]. intros i e Hi He. apply (handles_after rt rt4); try done.
       - destruct (used_entries _ _ (wc_ok _ _ _ _ Hwc)) as (Hul & _). unfold zlength in *.
         rewrite length_take in Hul. rewrite (wc_count _ _ _ _ Hwc) in Hul. lia.
       - intros i' e' _ He'. exists e'. split; [done|apply clear_long_weak_id]. }
  split; simpl.
  - apply (heap_ok_frame (rt_managed rt5)); try done.
    + intros p [o Ho]. by eapply hk_live.
    + by apply heap_buffer_live.
  - apply Hpr.
  - apply Hpr.
  - apply (pr_apart_queue _ _ _ Hpr).
  - rewrite Etab, (wc_buffer _ _ _ _ Hwc), (pr_heap _ _ _ Hpr), (pp_heap _ _ Hpp).
    destruct (rk_apart_table _ Hok) as [? ?]. split; [done|]. by eapply same_shape_None.
  - eapply same_shape_well_linked; [done|apply Hok].
  - intros p Hp. by apply Hmv, (pr_refs _ _ _ Hpr).
  - intros p Hp. rewrite Etab in Hp. apply Hroots. unfold roots_of. apply elem_of_app. right.
    apply elem_of_app. left. by apply (wc_refs _ _ _ _ Hwc).
  - rewrite Etab. intros i e Hi He Hk. destruct (wc_weak _ _ _ _ Hwc i e Hi He Hk) as [|Hm]; [by left|].
    apply Hmv. by apply (pr_mono _ _ _ Hpr).
  - destruct (rk_others _ Hok) as (l & Hl & _). exists l. split.
    + unfold other_references in *. simpl. by rewrite Eexc, Efr, Edom, E1, E2, E3.
    + intros p Hp. apply Hroots. unfold roots_of. rewrite Hl. set_solver.
  - apply Hpr.
Qed.

Lemma collect_spec rt :
  runtime_ok rt -> gc_active rt = false ->
  match zaclr_gc_collect rt with
  | (Ret _, rt') => swept rt rt'
  | (Err r, rt') => abandoned rt r rt'
  | _ => False
  end.
Proof.
  intros Hok Hact. destruct (collect_prepared rt Hok Hact) as (rt4 & Hpp & ->).
  unfold finish_collection. pose proof (promote_spec rt rt4 Hok Hpp) as Hpro.
  destruct (zaclr_gc_promote_unreachable_finalizable_objects rt4) as [[u|r| |] rt5]; try done.
  2: { destruct Hpro as [[j Hj] Hr]. by eapply abandoned_ok. }
  pose proof (pr_heap_ok _ _ _ Hpro) as Hh5. pose proof (pr_unpinned _ _ _ Hpro) as Hun.
  destruct (sweep_spec (rt_managed rt5) Hh5) as (m6 & -> & Hh6 & Ho6 & Hl6 & Hc6 & Hn6 & Hby6).
  unfold step at 1. cbv zeta. change (rt_handle_table (set_managed rt5 m6)) with (rt_handle_table rt5).
  destruct (clear_long_spec (kernel_of rt5) (rt_handle_table rt5)) as (t7 & -> & Ht7 & Htb & Htc & Htr & Hte);
    [apply Hpro|]. unfold step.
  assert (same_shape (objects_of rt) (objects_of rt5)) as Hs.
  { pose proof (pr_shape _ _ _ Hpro). pose proof (pp_shape _ _ Hpp). unfold same_shape in *. congruence. }
  assert (forall p, is_Some (mg_objects m6 !! p) <-> marked (objects_of rt5) p) as Hmarked.
  { intros p. rewrite Ho6. split; [|by apply marked_swept]. intros [o Ho].
    by apply swept_lookup in Ho as [_ ?]. }
  split.
  - destruct Hc6 as (_ & _ & Hb6 & _). eapply collected_ok; eauto.
  - apply gc_inactive.
  - simpl. intros p o' Ho'. split.
    + apply (promoted_marks rt rt4 rt5); [done|done|done|]. apply Hmarked. by exists o'.
    + rewrite Ho6 in Ho'. apply swept_lookup in Ho' as [Ho5 _]; [|done].
      destruct (same_shape_Some _ _ _ _ (same_shape_sym _ _ Hs) Ho5) as (o & Ho & E). by exists o.
  - simpl. intros p o Ho Hsv. apply Hmarked. by apply (promoted_marks rt rt4 rt5).
  - simpl. intros p o Ho Hp. rewrite Hl6. destruct (same_shape_Some _ _ _ _ Hs Ho) as (o5 & Ho5 & _).
    rewrite elem_of_difference, elem_of_difference, !elem_of_dom, Hp. intros [_ []]. split; [by exists o5|].
    by intros [].
  - simpl. destruct (pr_rest _ _ _ Hpro) as (_ & -> & -> & ->). apply (pp_rest _ _ Hpp).
  - pose proof (pp_table _ _ Hpp) as Hwc. destruct (pr_rest _ _ _ Hpro) as (Etab & _).
    rewrite Etab in Hte, Htc. split; simpl; [by rewrite Htc, (wc_count _ _ _ _ Hwc)|].
    intros i e Hi He. apply (handles_after rt rt4); try done.
    destruct (used_entries _ _ Ht7) as (Hul & _). unfold zlength in *. rewrite length_take in Hul.
    rewrite Htc, (wc_count _ _ _ _ Hwc) in Hul. lia.
  - simpl. destruct Hc6 as (-> & _ & _ & -> & -> & _). rewrite (pr_heap _ _ _ Hpro) in Hby6 |- *.
    by rewrite (pp_heap _ _ Hpp) in Hby6 |- *.
  - simpl. rewrite Hn6, (pr_heap _ _ _ Hpro), (pp_heap _ _ Hpp). done.
Qed.

End runtime.
