(* ===== verification/GcAllocate.v ===== *)
(** * Correctness of the collection, as clients see it, and of the allocation

    The theorems about [zaclr_gc_collect] and [zaclr_heap_allocate_object]: what a
    collection frees and keeps, and that an allocation, with the collections it
    may run, gives a fresh zeroed object and loses nothing the program holds. *)

From Stdlib Require Import Strings.Byte.
From stdpp Require Import relations.
From S2P Require Import Prelude Status Bytes Token KernelHeap HandleTable TypeMap EvalStack.
From S2P Require Import ManagedObject ManagedHeap Gc GcMark GcCollect.

Abbreviation kernel_of rt := (mg_kernel (rt_managed rt)).
Abbreviation objects_of rt := (mg_objects (rt_managed rt)).
Abbreviation heap_of rt := (mg_heap (rt_managed rt)).

Section held.
Context {K : Type} `{KernelHeapLaws K}.
Implicit Types (rt : zaclr_runtime K).

(** The references the program holds: strong handles, frames, the current
    exception, statics. *)
Definition program_roots rt : list Z :=
  strong_refs (rt_handle_table rt) ++ match other_references rt with Ret l => l | _ => [] end.

Definition held rt (p : Z) : Prop :=
  exists r, r ∈ program_roots rt /\ r <> 0 /\ reach (objects_of rt) r p.

(** [rt'] is [rt] without some of the objects that are not held. *)
Record keeps rt rt' : Prop := {
  kp_ok : runtime_ok rt';
  kp_active : gc_active rt' = false;
  kp_roots r : r ∈ program_roots rt -> r ∈ program_roots rt';
  kp_held q o : objects_of rt !! q = Some o -> held rt q ->
    exists o', objects_of rt' !! q = Some o' /\ shape o' = shape o;
  kp_old q o' : objects_of rt' !! q = Some o' -> exists o, objects_of rt !! q = Some o /\ shape o' = shape o;
  kp_nodes : hp_node_count (heap_of rt') = hp_node_count (heap_of rt) /\
    hp_allocated_bytes (heap_of rt') <= hp_allocated_bytes (heap_of rt) /\
    hp_runtime (heap_of rt') = hp_runtime (heap_of rt) /\
    hp_node_capacity (heap_of rt) <= hp_node_capacity (heap_of rt') }.

Lemma held_survives rt p : held rt p -> survives rt p.
Proof.
  intros (r & Hr & Hr0 & Hp). exists r. split; [done|]. split; [done|]. left. unfold roots_of.
  unfold program_roots in Hr. set_solver.
Qed.

(** What is held stays held. *)
Lemma keeps_held rt rt' q : runtime_ok rt -> keeps rt rt' -> held rt q -> held rt' q.
Proof.
  intros Hok Hk (r & Hr & Hr0 & Hrq). exists r. split; [by apply (kp_roots _ _ Hk)|]. split; [done|].
  assert (held rt r) as Hh by (exists r; split; [done|split; [done|apply rtc_refl]]).
  clear Hr Hr0. induction Hrq as [x|x y z Hxy _ IH]; [apply rtc_refl|].
  assert (held rt y) as Hy.
  { destruct Hh as (r' & ? & ? & ?). exists r'. split; [done|]. split; [done|]. by eapply rtc_r. }
  eapply rtc_l; [|by apply IH]. destruct Hxy as [Hk1 Hy0]. split; [|done]. unfold kids in *.
  destruct (objects_of rt !! x) as [o|] eqn:Ho; [|by apply not_elem_of_nil in Hk1].
  destruct (kp_held _ _ Hk x o Ho Hh) as (o' & -> & Hs). by rewrite (shape_children o' o).
Qed.

Lemma keeps_trans rt1 rt2 rt3 : runtime_ok rt1 -> keeps rt1 rt2 -> keeps rt2 rt3 -> keeps rt1 rt3.
Proof.
  intros Hok H1 H2. split; try apply H2.
  - intros r Hr. by apply (kp_roots _ _ H2), (kp_roots _ _ H1).
  - intros q o Ho Hh. destruct (kp_held _ _ H1 q o Ho Hh) as (o2 & Ho2 & E2).
    destruct (kp_held _ _ H2 q o2 Ho2) as (o3 & Ho3 & E3); [by eapply keeps_held|].
    exists o3. split; [done|congruence].
  - intros q o3 Ho3. destruct (kp_old _ _ H2 q o3 Ho3) as (o2 & Ho2 & E2).
    destruct (kp_old _ _ H1 q o2 Ho2) as (o & Ho & E). exists o. split; [done|congruence].
  - destruct (kp_nodes _ _ H1) as (? & ? & ? & ?), (kp_nodes _ _ H2) as (? & ? & ? & ?).
    split; [lia|]. split; [lia|]. split; [congruence|lia].
Qed.

(** Strong handles survive a collection. *)
Lemma strong_refs_after rt rt' :
  handles_after_collection rt rt' -> rt_current_exception rt' = rt_current_exception rt ->
  rt_frames rt' = rt_frames rt -> rt_domain rt' = rt_domain rt ->
  forall r, r ∈ program_roots rt -> r ∈ program_roots rt'.
Proof.
  intros [Hc Hh] E1 E2 E3 r. unfold program_roots, other_references. rewrite E1, E2, E3.
  rewrite !elem_of_app. intros [Hr|Hr]; [left|by right].
  apply elem_of_strong_refs in Hr as (i & e & Hi & He & Hr). destruct (Hh i e Hi He) as (e' & He' & Ha).
  apply elem_of_strong_refs. exists i, e'. split; [lia|]. split; [done|].
  unfold handle_after in Ha. unfold entry_reference, is_weak in Hr.
  destruct (Z.eqb_spec (he_kind e) ZACLR_GC_HANDLE_KIND_WEAK) as [E|E]; [set_solver|].
  simpl in Ha. subst e'. unfold entry_reference, is_weak. by rewrite (proj2 (Z.eqb_neq _ _) E).
Qed.

Lemma swept_keeps rt rt' : swept rt rt' -> keeps rt rt'.
Proof.
  intros Hs. destruct (sw_rest _ _ Hs) as (E1 & E2 & E3). split; try apply Hs.
  - apply strong_refs_after; [apply Hs|done|done|done].
  - intros q o Ho Hh. destruct (sw_survivors _ _ Hs q o Ho) as [o' Ho']; [by apply held_survives|].
    exists o'. split; [done|]. destruct (sw_objects _ _ Hs q o' Ho') as (_ & o2 & Ho2 & E). congruence.
Qed.

Lemma abandoned_keeps rt r rt' : abandoned rt r rt' -> keeps rt rt'.
Proof.
  intros (Hok & Hact & Hs & (E1 & E2 & E3) & Hh & Hn & _). split; try done.
  - by apply strong_refs_after.
  - intros q o Ho _. by apply (same_shape_Some (objects_of rt)).
  - intros q o' Ho'. destruct (same_shape_Some _ _ _ _ (same_shape_sym _ _ Hs) Ho') as (o & Ho & E).
    by exists o.
Qed.

Lemma collect_keeps rt :
  runtime_ok rt -> gc_active rt = false ->
  match zaclr_gc_collect rt with
  | (Ret _, rt') => keeps rt rt'
  | (Err r, rt') => keeps rt rt' /\
      r ∈ [process_error ZACLR_STATUS_BUFFER_TOO_SMALL; process_error ZACLR_STATUS_OUT_OF_MEMORY]
  | _ => False
  end.
Proof.
  intros Hok Hact. pose proof (collect_spec rt Hok Hact) as Hc.
  destruct (zaclr_gc_collect rt) as [[u|r| |] rt']; try done; [by apply swept_keeps|].
  split; [by eapply abandoned_keeps|]. apply Hc.
Qed.

(** The same objects and references over another state of the allocator. *)
Lemma keeps_kernel rt m :
  runtime_ok rt -> gc_active rt = false -> heap_ok m -> mg_objects m = objects_of rt ->
  (forall b, b ∈ live (kernel_of rt) -> b <> hp_buffer (heap_of rt) -> b ∈ live (mg_kernel m)) ->
  hp_buffer (mg_heap m) = hp_buffer (heap_of rt) \/ (hp_buffer (mg_heap m) ∉ live (kernel_of rt)) ->
  hp_flags (mg_heap m) = hp_flags (heap_of rt) ->
  hp_node_count (mg_heap m) = hp_node_count (heap_of rt) /\
    hp_allocated_bytes (mg_heap m) <= hp_allocated_bytes (heap_of rt) /\
    hp_runtime (mg_heap m) = hp_runtime (heap_of rt) /\
    hp_node_capacity (heap_of rt) <= hp_node_capacity (mg_heap m) ->
  keeps rt (set_managed rt m).
Proof.
  intros Hok Hact Hm Ho Hl Hb Hf Hn.
  destruct (rk_apart_queue _ Hok) as (Ha1 & Ha2 & Ha3). destruct (rk_apart_table _ Hok) as (Hb1 & Hb2).
  assert (forall t, table_ok (kernel_of rt) t -> apart (ht_buffer t) (hp_buffer (heap_of rt)) ->
    table_ok (mg_kernel m) t /\ apart (ht_buffer t) (hp_buffer (mg_heap m))) as Ht.
  { intros t Htok Hap. split.
    - apply (table_ok_kernel (kernel_of rt)); [done|]. intros Hz. apply Hl; [by apply table_buffer_live|by apply Hap].
    - intros Hz. destruct Hb as [->|Hb]; [by apply Hap|]. intros E. apply Hb. rewrite <- E.
      by apply table_buffer_live. }
  destruct (Ht _ (rk_queue _ Hok) Ha1) as [Hq1 Hq2]. destruct (Ht _ (rk_table _ Hok) Hb1) as [Ht1 Ht2].
  split; simpl; try done.
  - destruct Hok. split; simpl; rewrite ?Ho; try done.
  - unfold gc_active in *. simpl. by rewrite Hf.
  - intros q o Hq _. rewrite Ho. by exists o.
  - intros q o Hq. rewrite Ho in Hq. by exists o.
Qed.

(** ** Listing a new object *)

(** Zeroed memory holds no references. *)
Lemma new_object_children size type_id family flags :
  object_children (new_object size type_id family flags) = Ret [].
Proof.
  unfold object_children, new_object, zero_body. cbn [ob_family ob_body ob_flags].
  destruct (Z.eqb_spec (u16 family) ZACLR_OBJECT_FAMILY_ARRAY) as [E|E].
  { unfold array_children. simpl. by rewrite orb_true_r. }
  destruct (u16 family =? ZACLR_OBJECT_FAMILY_INSTANCE); [|done].
  destruct (flag_set flags ZACLR_OBJECT_FLAG_BOXED_VALUE); [done|].
  destruct (flag_set flags ZACLR_OBJECT_FLAG_REFERENCE_TYPE); done.
Qed.

(** The heap with the object [p] of [size] bytes appended. *)
Definition listed (h : zaclr_heap) (p size : Z) : zaclr_heap :=
  mk_heap (hp_runtime h) (hp_flags h) (hp_buffer h) (set (hp_nodes h) (hp_node_count h) (mk_node p size 1))
    (hp_node_count h + 1) (hp_node_capacity h) (hp_live_object_count h + 1)
    (hp_allocated_bytes h + size) (hp_collection_threshold_bytes h) (hp_collection_count h).

Lemma listed_ok (m : managed K) k p size o :
  heap_ok m -> p <> 0 -> (p ∉ live (mg_kernel m)) -> live k = {[p]} ∪ live (mg_kernel m) ->
  hp_node_count (mg_heap m) < hp_node_capacity (mg_heap m) -> 0 <= size ->
  heap_ok (mk_managed k (<[p := o]> (mg_objects m)) (listed (mg_heap m) p size)).
Proof.
  intros Hok Hp Hfresh Hl Hc Hs.
  assert (mg_objects m !! p = None) as Hnew.
  { apply eq_None_not_Some. intros [o' Ho']. by apply (hk_live _ Hok) in Ho'. }
  pose proof (hk_count _ Hok). pose proof (hk_length _ Hok) as Hlen.
  destruct (get_Some (hp_nodes (mg_heap m)) (hp_node_count (mg_heap m))) as [z Hz]; [lia|].
  assert (z = zero_node) as -> by (eapply (hk_beyond _ Hok); [reflexivity|done]).
  assert (forall q, q ∈ live (mg_kernel m) -> q ∈ live k) as Hup by (intros q; rewrite Hl; set_solver).
  assert (forall n, node_used n = true -> nd_object n = p -> n ∉ hp_nodes (mg_heap m)) as Hunl.
  { intros n Hu Hnp [i Hi]%In_get. destruct (node_index m i n Hok Hi Hu) as (_ & _ & o' & Ho'). congruence. }
  destruct Hok as [Hlk Hck Hcap Hnull Hb Hbey Hnode Honce Hlist Hlive Hlc Hby].
  assert (node_used (mk_node p size 1) = true) as Hun.
  { unfold node_used. simpl. by rewrite (proj2 (Z.eqb_neq p 0)). }
  split; unfold listed; cbn [mg_heap mg_objects mg_kernel hp_nodes hp_node_capacity hp_node_count hp_buffer
    hp_live_object_count hp_allocated_bytes].
  - by rewrite zlength_set.
  - lia.
  - done.
  - done.
  - intros Hz0. destruct (Hb Hz0) as (Hb0 & Hbl & Hbn). split; [done|]. split; [auto|].
    rewrite lookup_insert_ne; [done|]. intros ->. done.
  - intros i n Hi Hget. apply get_set_cases in Hget as [[-> _]|[_ Hget]]; [lia| |lia].
    eapply Hbey; [|done]. lia.
  - intros i n Hget. apply get_set_cases in Hget as [[-> ->]|[_ Hget]]; [right| |lia].
    + split; [done|]. split; [done|]. simpl. rewrite lookup_insert_eq. by eexists.
    + destruct (Hnode i n Hget) as [->|(Hu & Hsz & Ho)]; [by left|right]. split; [done|]. split; [done|].
      apply lookup_insert_is_Some. by destruct (decide (p = nd_object n)); [left|right].
  - intros i j n n' Hi Hj Hu E.
    apply get_set_cases in Hi as [[-> ->]|[Hni Hi]]; [| |lia];
      apply get_set_cases in Hj as [[-> ->]|[Hnj Hj]]; try lia.
    + simpl in E. destruct (decide (n' = zero_node)) as [->|Hnz]; [done|].
      destruct (Hnode j n' Hj) as [|(Hu' & _)]; [done|]. exfalso. eapply (Hunl n'); [done|done|by eapply get_In].
    + exfalso. eapply (Hunl n); [done|done|by eapply get_In].
    + by eapply Honce.
  - intros q o' Hq. destruct (decide (q = p)) as [->|Hne].
    + exists (hp_node_count (mg_heap m)), (mk_node p size 1). rewrite get_set_eq by lia. done.
    + rewrite lookup_insert_ne in Hq by done. destruct (Hlist q o' Hq) as (i & n & Hi & Hu & <-).
      exists i, n. split; [|done]. rewrite get_set_ne; [done|]. intros <-.
      assert (n = zero_node) as -> by congruence. done.
  - intros q o' Hq. destruct (decide (q = p)) as [->|Hne]; [rewrite Hl; set_solver|].
    rewrite lookup_insert_ne in Hq by done. apply Hup. by eapply Hlive.
  - rewrite (zsum_set _ _ _ zero_node), Hlc by done. unfold node_count_of at 3 4. rewrite Hun. simpl. lia.
  - rewrite (zsum_set _ _ _ zero_node), Hby by done. simpl. lia.
Qed.

Lemma live_count_bound (m : managed K) :
  heap_ok m -> hp_node_count (mg_heap m) < hp_node_capacity (mg_heap m) ->
  0 <= hp_live_object_count (mg_heap m) < 2 ^ 32 - 1.
Proof.
  intros Hok Hc. pose proof (heap_sizes_nonneg m Hok) as Hnn. pose proof (hk_capacity _ Hok).
  pose proof (hk_length _ Hok) as Hl. pose proof (hk_count _ Hok).
  rewrite (hk_live_count _ Hok). split; [apply zsum_nonneg; intros n Hn; by apply Hnn|].
  destruct (get_Some (hp_nodes (mg_heap m)) (hp_node_count (mg_heap m))) as [z Hz]; [lia|].
  assert (z = zero_node) as -> by (eapply (hk_beyond _ Hok); [reflexivity|done]).
  pose proof (zsum_set node_count_of _ _ _ (mk_node 1 1 1) Hz) as Hset.
  pose proof (zsum_le_length node_count_of
    (set (hp_nodes (mg_heap m)) (hp_node_count (mg_heap m)) (mk_node 1 1 1))) as Hle.
  rewrite zlength_set, Hset in Hle. unfold node_count_of at 2 3 in Hle. simpl in Hle.
  assert (zsum node_count_of (hp_nodes (mg_heap m)) - 0 + 1 <= zlength (hp_nodes (mg_heap m))); [|lia].
  apply Hle. intros x _. unfold node_count_of. by destruct (node_used x).
Qed.

(** What an allocation of [object] achieves. *)
Record allocated rt rt' (p : Z) (o : zaclr_object_desc) : Prop := {
  al_ok : runtime_ok rt';
  al_fresh : p <> 0;
  al_object : objects_of rt' !! p = Some o;
  al_held q o1 : objects_of rt !! q = Some o1 -> held rt q ->
    q <> p /\ exists o', objects_of rt' !! q = Some o' /\ shape o' = shape o1;
  al_old q o' : q <> p -> objects_of rt' !! q = Some o' ->
    exists o1, objects_of rt !! q = Some o1 /\ shape o' = shape o1 }.

Lemma valid_insert (objs : objects) p o q : valid objs q -> valid (<[p := o]> objs) q.
Proof.
  intros [->|Hq]; [by left|right]. apply lookup_insert_is_Some.
  by destruct (decide (p = q)); [left|right].
Qed.

(** Installing a block that was just allocated. *)
Lemma install_spec rt k p size type_id family flags :
  runtime_ok rt -> kernel_alloc (kernel_of rt) size = (p, k) -> p <> 0 ->
  hp_node_count (heap_of rt) < hp_node_capacity (heap_of rt) -> 0 <= size < 2 ^ 32 ->
  hp_allocated_bytes (heap_of rt) + size < 2 ^ 32 ->
  exists rt', install_object (set_kernel rt k) p size type_id family flags = (Ret p, rt') /\
    runtime_ok rt' /\ objects_of rt' = <[p := new_object size type_id family flags]> (objects_of rt) /\
    objects_of rt !! p = None.
Proof.
  intros Hok Ha Hp Hc Hs Hb. apply alloc_spec in Ha as [[? _]|(_ & Hfresh & Hl)]; [done|].
  pose proof (rk_heap _ Hok) as Hh. pose proof (hk_count _ Hh). pose proof (hk_capacity _ Hh).
  pose proof (live_count_bound _ Hh Hc). pose proof (hk_length _ Hh).
  assert (0 <= hp_allocated_bytes (heap_of rt)).
  { rewrite (hk_bytes _ Hh). apply zsum_nonneg. intros n Hn. by apply (heap_sizes_nonneg _ Hh). }
  assert (objects_of rt !! p = None) as Hnew.
  { apply eq_None_not_Some. intros [o' Ho']. by apply (hk_live _ Hh) in Ho'. }
  unfold install_object. cbn [rt_managed set_kernel set_managed mg_heap mg_objects mg_kernel].
  destruct (get_Some (hp_nodes (heap_of rt)) (hp_node_count (heap_of rt))) as [z ->]; [lia|].
  rewrite !u32_id by (rewrite ?u32_id by lia; lia).
  eexists. split; [reflexivity|]. cbn [rt_managed set_managed mg_objects]. split; [|done].
  set (o := new_object size type_id family flags).
  assert (forall q, q ∈ live (kernel_of rt) -> q ∈ live k) as Hup by (intros q; rewrite Hl; set_solver).
  assert (forall b, b <> 0 -> b ∈ live (kernel_of rt) -> objects_of rt !! b = None ->
    <[p := o]> (objects_of rt) !! b = None) as Hnone.
  { intros b _ Hbl Hbn. rewrite lookup_insert_ne; [done|]. intros ->. done. }
  assert (forall t, table_ok (kernel_of rt) t -> objects_of rt !! ht_buffer t = None ->
    <[p := o]> (objects_of rt) !! ht_buffer t = None) as Htn.
  { intros t Ht Hn. destruct (Z.eq_dec (ht_buffer t) 0) as [E|E]; [rewrite lookup_insert_ne; congruence|].
    apply Hnone; [done|by apply table_buffer_live|done]. }
  destruct (rk_apart_queue _ Hok) as (Ha1 & Ha2 & Ha3). destruct (rk_apart_table _ Hok) as (Hb1 & Hb2).
  destruct (rk_others _ Hok) as (l & Hlo & Hlv).
  split; cbn [rt_managed rt_finalizer_queue rt_handle_table set_managed set_kernel mg_objects mg_kernel mg_heap hp_buffer].
  - apply (listed_ok (rt_managed rt)); (done || lia).
  - apply (table_ok_kernel (kernel_of rt)); [apply Hok|]. intros ?. apply Hup. by apply table_buffer_live; [apply Hok|].
  - apply (table_ok_kernel (kernel_of rt)); [apply Hok|]. intros ?. apply Hup. by apply table_buffer_live; [apply Hok|].
  - split; [done|]. split; [done|]. apply Htn; [apply Hok|done].
  - split; [done|]. apply Htn; [apply Hok|done].
  - intros q o' Hq. destruct (decide (q = p)) as [->|Hne].
    + rewrite lookup_insert_eq in Hq. injection Hq as <-. exists []. split; [apply new_object_children|].
      intros q Hq. by apply not_elem_of_nil in Hq.
    + rewrite lookup_insert_ne in Hq by done. destruct (rk_linked _ Hok q o' Hq) as (l' & Hl' & Hv).
      exists l'. split; [done|]. intros q' Hq'. by apply valid_insert, Hv.
  - intros q Hq. by apply valid_insert, (rk_queue_refs _ Hok).
  - intros q Hq. by apply valid_insert, (rk_table_refs _ Hok).
  - intros i e Hi He Hk. apply valid_insert. by eapply (rk_weak _ Hok).
  - exists l. split; [exact Hlo|]. intros q Hq. by apply valid_insert, Hlv.
  - intros q o' Hq. destruct (decide (q = p)) as [->|Hne].
    + rewrite lookup_insert_eq in Hq. by injection Hq as <-.
    + rewrite lookup_insert_ne in Hq by done. by eapply (rk_unpinned _ Hok).
Qed.

Lemma install_allocated rt0 rt k p size type_id family flags :
  runtime_ok rt0 -> keeps rt0 rt -> kernel_alloc (kernel_of rt) size = (p, k) -> p <> 0 ->
  hp_node_count (heap_of rt) < hp_node_capacity (heap_of rt) -> 0 <= size < 2 ^ 32 ->
  hp_allocated_bytes (heap_of rt0) + size < 2 ^ 32 ->
  exists rt', install_object (set_kernel rt k) p size type_id family flags = (Ret p, rt') /\
    allocated rt0 rt' p (new_object size type_id family flags).
Proof.
  intros Hok0 Hk Ha Hp Hc Hs Hb. pose proof (kp_nodes _ _ Hk) as (_ & Hby & _).
  destruct (install_spec rt k p size type_id family flags) as (rt' & Hrun & Hok & Ho & Hnew);
    [apply Hk|done|done|done|done|lia|].
  exists rt'. split; [done|]. split; [done|done|by rewrite Ho, lookup_insert_eq| |].
  - intros q o1 Hq Hh. destruct (kp_held _ _ Hk q o1 Hq Hh) as (o' & Ho' & E).
    assert (q <> p) as Hne by (intros ->; congruence). split; [done|]. exists o'.
    rewrite Ho, lookup_insert_ne by done. done.
  - intros q o' Hne Hq. rewrite Ho, lookup_insert_ne in Hq by done. by apply (kp_old _ _ Hk).
Qed.

(** ** The allocation *)

(** The outcome of an allocation in [rt0]. *)
Definition allocate_post rt0 (size type_id family flags : Z) (x : outcome Z * zaclr_runtime K) : Prop :=
  match x with
  | (Ret p, rt') => allocated rt0 rt' p (new_object size type_id family flags)
  | (Err r, rt') => keeps rt0 rt' /\
      r ∈ [heap_error ZACLR_STATUS_INVALID_ARGUMENT; heap_error ZACLR_STATUS_OUT_OF_MEMORY;
           process_error ZACLR_STATUS_BUFFER_TOO_SMALL; process_error ZACLR_STATUS_OUT_OF_MEMORY]
  | _ => False
  end.

Lemma keeps_refl rt : runtime_ok rt -> gc_active rt = false -> keeps rt rt.
Proof. intros Hok Hact. split; try done; intros q o Ho; by exists o. Qed.

(** A failed allocation of memory changes nothing. *)
Lemma keeps_alloc_failed rt size p k :
  runtime_ok rt -> gc_active rt = false -> kernel_alloc (kernel_of rt) size = (p, k) -> p = 0 ->
  keeps rt (set_kernel rt k).
Proof.
  intros Hok Hact Ha ->. apply alloc_spec in Ha as [[_ Hl]|[? _]]; [|done]. pose proof (rk_heap _ Hok) as Hh.
  apply keeps_kernel; try done.
  - by apply live_same_kernel.
  - intros b Hb _. simpl. by rewrite Hl.
  - by left.
Qed.

Lemma reserve_keeps rt m u n :
  runtime_ok rt -> gc_active rt = false -> zaclr_heap_reserve_nodes (rt_managed rt) n = (u, m) ->
  0 <= n < 2 ^ 32 -> n <= hp_node_count (heap_of rt) + 1 ->
  keeps rt (set_managed rt m) /\
  match u with
  | Ret _ => n <= hp_node_capacity (mg_heap m)
  | Err r => r = heap_error ZACLR_STATUS_OUT_OF_MEMORY
  | _ => False
  end.
Proof.
  intros Hok Hact Hr Hn Hc. pose proof (rk_heap _ Hok) as Hh.
  pose proof (reserve_spec (rt_managed rt) n Hh Hn Hc) as Hs. rewrite Hr in Hs.
  destruct u as [u|r| |]; try done.
  - destruct Hs as (Hm & Ho & Hcap & Hcnt & _ & Hf & Hrt & _ & Hby & Hbuf). split; [|done].
    apply keeps_kernel; try done.
    + intros b Hb Hne. destruct Hbuf as [[_ ->]|[_ ->]]; [done|]. apply elem_of_union_r, elem_of_difference.
      split; [done|]. by rewrite elem_of_singleton.
    + destruct Hbuf as [[? _]|[? _]]; [by left|by right].
    + rewrite Hby. repeat split; try done. unfold zaclr_heap_reserve_nodes in Hr.
      pose proof (hk_count _ Hh). case_if_in Hr; [by injection Hr as <- <-|]. lia.
  - destruct Hs as (-> & Ho & Hheap & Hl). split; [|done]. apply keeps_kernel; try done; rewrite ?Hheap; try done.
    + pose proof (live_same_kernel (rt_managed rt) (mg_kernel m) Hh Hl) as Hm. rewrite <- Hheap, <- Ho in Hm.
      by destruct m.
    + intros b Hb _. by rewrite Hl.
    + by left.
Qed.

Lemma allocate_listed_spec rt0 rt size type_id family flags :
  runtime_ok rt0 -> keeps rt0 rt -> 0 <= size < 2 ^ 32 ->
  hp_allocated_bytes (heap_of rt0) + size < 2 ^ 32 -> hp_node_count (heap_of rt0) + 1 < 2 ^ 32 ->
  allocate_post rt0 size type_id family flags (allocate_listed rt size type_id family flags).
Proof.
  intros Hok0 Hk Hs Hb Hn. unfold allocate_listed. pose proof (kp_ok _ _ Hk) as Hok.
  pose proof (kp_nodes _ _ Hk) as (Hcnt & _). pose proof (hk_count _ (rk_heap _ Hok)) as Hc0.
  rewrite u32_id by lia.
  destruct (zaclr_heap_reserve_nodes (rt_managed rt) (hp_node_count (heap_of rt) + 1)) as [u m] eqn:Hr.
  destruct (reserve_keeps rt m u _ Hok (kp_active _ _ Hk) Hr) as [Hk1 Hu]; [lia|lia|].
  pose proof (keeps_trans _ _ _ Hok0 Hk Hk1) as Hk01.
  destruct u as [u|r| |]; try done; [|split; [done|]; rewrite Hu; set_solver].
  pose proof (kp_nodes _ _ Hk1) as (Hcnt1 & _). simpl in Hcnt1.
  destruct (kernel_alloc (mg_kernel m) size) as [p k] eqn:Ha.
  destruct (Z.eqb_spec p 0) as [Hp|Hp]; cbn [negb].
  - pose proof (keeps_alloc_failed (set_managed rt m) size p k (kp_ok _ _ Hk1) (kp_active _ _ Hk1) Ha Hp) as Hk2.
    pose proof (keeps_trans _ _ _ Hok0 Hk01 Hk2) as Hk02.
    rewrite (kp_active _ _ Hk2), andb_true_r. case_if; [|split; [done|set_solver]].
    set (rt2 := set_kernel (set_managed rt m) k) in *.
    pose proof (collect_keeps rt2 (kp_ok _ _ Hk2) (kp_active _ _ Hk2)) as Hcol.
    destruct (zaclr_gc_collect rt2) as [[u'|r| |] rt3]; try done.
    2: { destruct Hcol as [Hk3 Hr3]. split; [by eapply keeps_trans|]. set_solver. }
    pose proof (keeps_trans _ _ _ Hok0 Hk02 Hcol) as Hk03.
    destruct (kernel_alloc (kernel_of rt3) size) as [p3 k3] eqn:Ha3.
    destruct (Z.eqb_spec p3 0) as [Hp3|Hp3]; cbn [negb].
    { split; [|set_solver]. eapply keeps_trans; [done|exact Hk03|].
      eapply keeps_alloc_failed; [apply Hcol|apply Hcol|done|done]. }
    pose proof (kp_nodes _ _ Hcol) as (Hc3 & _ & _ & Hcap3). simpl in Hc3, Hcap3.
    destruct (install_allocated rt0 rt3 k3 p3 size type_id family flags) as (rt' & -> & Hal); try done; lia.
  - destruct (install_allocated rt0 (set_managed rt m) k p size type_id family flags) as (rt' & -> & Hal);
      try done. simpl. lia.
Qed.

Lemma allocate_object_spec rt size type_id family flags :
  runtime_ok rt -> gc_active rt = false -> 0 <= size < 2 ^ 32 ->
  hp_allocated_bytes (heap_of rt) + size < 2 ^ 32 -> hp_node_count (heap_of rt) + 1 < 2 ^ 32 ->
  allocate_post rt size type_id family flags (zaclr_heap_allocate_object rt size type_id family flags).
Proof.
  intros Hok Hact Hs Hb Hn. unfold zaclr_heap_allocate_object.
  pose proof (keeps_refl rt Hok Hact) as Hk. case_if; [split; [done|set_solver]|].
  case_if; [|by apply allocate_listed_spec].
  pose proof (collect_keeps rt Hok Hact) as Hcol.
  destruct (zaclr_gc_collect rt) as [[u|r| |] rt1]; try done; [by apply allocate_listed_spec|].
  destruct Hcol as [Hk1 Hr]. split; [done|set_solver].
Qed.

End held.

(** ** A concrete runtime

    An array that a local variable refers to and that refers to an instance, an
    unreachable instance with two weak handles, and an unreachable instance with a
    registered finalizer. *)

Definition example_array : zaclr_object_desc :=
  mk_object 64 ZACLR_OBJECT_FAMILY_ARRAY 0 0
    (Z.lor ZACLR_OBJECT_FLAG_REFERENCE_TYPE ZACLR_OBJECT_FLAG_CONTAINS_REFERENCES) None 0
    (BodyArray 1 8 (zaclr_token_make 0x01000001) (le_bytes 8 4)).

Definition example_instance (state : Z) : zaclr_object_desc :=
  mk_object 48 ZACLR_OBJECT_FAMILY_INSTANCE 0 state ZACLR_OBJECT_FLAG_REFERENCE_TYPE None 1
    (BodyReference 0 (Fields [])).

Definition example_objects : objects :=
  <[3 := example_array]> (<[4 := example_instance 0]> (<[5 := example_instance 0]>
  (<[6 := example_instance ZACLR_OBJECT_GC_STATE_FINALIZER_PENDING]> ∅))).

Definition example_heap : zaclr_heap :=
  mk_heap true 0 1 [mk_node 3 64 1; mk_node 4 48 1; mk_node 5 48 1; mk_node 6 48 1; zero_node] 4 5 4 208
    ZACLR_HEAP_DEFAULT_THRESHOLD_BYTES 0.

Definition example_handles : zaclr_handle_table :=
  mk_handle_table 0 2
    [mk_entry 5 ZACLR_GC_HANDLE_KIND_WEAK ZACLR_GC_HANDLE_ENTRY_FLAG_ALLOCATED 0;
     mk_entry 5 ZACLR_GC_HANDLE_KIND_WEAK_TRACK_RESURRECTION ZACLR_GC_HANDLE_ENTRY_FLAG_ALLOCATED 0] 2 2 0.

Definition example_kernel : small_heap :=
  mk_small_heap 4 {[1%positive; 2%positive; 3%positive; 4%positive; 5%positive; 6%positive]}.

Definition example_frame : zaclr_frame := mk_frame None 0 (Some [reference_value 3]) 1 empty_stack.

Definition example_runtime : zaclr_runtime small_heap :=
  mk_runtime (mk_managed example_kernel example_objects example_heap) (mk_handle_table 0 0 [] 0 0 0)
    example_handles 0 [example_frame] None.

Ltac each_entry Hget :=
  repeat (apply get_cons_inv in Hget as [[? ->]|[? Hget]]); [..|by rewrite get_nil in Hget].

Ltac each_object Hget :=
  repeat (apply lookup_insert_Some in Hget as [[<- <-]|[? Hget]]); [..|by rewrite lookup_empty in Hget].

Lemma example_heap_ok : heap_ok (rt_managed example_runtime).
Proof.
  split; simpl.
  - done.
  - lia.
  - lia.
  - lia.
  - intros _. split; [done|]. split; [by apply (bool_decide_unpack _)|done].
  - intros i n Hi Hget. each_entry Hget; (done || lia).
  - intros i n Hget. each_entry Hget; [right..|by left]; (split; [done|split; [done|by eexists]]).
  - intros i j n n' Hi Hj. each_entry Hi; each_entry Hj; simpl; intros; (done || lia).
  - intros p o Hp. unfold example_objects in Hp. each_object Hp.
    + by exists 0, (mk_node 3 64 1).
    + by exists 1, (mk_node 4 48 1).
    + by exists 2, (mk_node 5 48 1).
    + by exists 3, (mk_node 6 48 1).
  - intros p o Hp. unfold example_objects in Hp. each_object Hp; by apply (bool_decide_unpack _).
  - done.
  - done.
Qed.

Lemma example_runtime_ok : runtime_ok example_runtime.
Proof.
  split.
  - exact example_heap_ok.
  - split; simpl; try done. intros i j e1 e2 (? & He & _). simpl in He. by rewrite get_nil in He.
  - split; simpl; try done. intros i j e1 e2 (_ & He1 & _) (_ & He2 & _). simpl in He1, He2.
    each_entry He1; each_entry He2; simpl; intros; (done || lia).
  - done.
  - done.
  - intros p o Hp. simpl in Hp. unfold example_objects in Hp. each_object Hp.
    + exists [4]. split; [done|]. intros q ->%list_elem_of_singleton. right. by eexists.
    + exists []. split; [done|]. set_solver.
    + exists []. split; [done|]. set_solver.
    + exists []. split; [done|]. set_solver.
  - intros p Hp. by apply not_elem_of_nil in Hp.
  - intros p Hp. by apply not_elem_of_nil in Hp.
  - intros i e _ He. simpl in He. each_entry He; intros; right; by eexists.
  - exists [3]. split; [done|]. intros q ->%list_elem_of_singleton. right. by eexists.
  - intros p o Hp. simpl in Hp. unfold example_objects in Hp. each_object Hp; done.
Qed.

Lemma heap_sweep_correct_witness :
  exists s', zaclr_heap_sweep_unmarked (rt_managed example_runtime) = Ret s' /\ heap_ok s' /\
    mg_objects s' = filter (fun po => is_garbage po.2 = false) example_objects /\
    live (mg_kernel s') = live example_kernel ∖ (dom example_objects ∖ dom (mg_objects s')) /\
    same_config example_heap (mg_heap s') /\ hp_collection_count (mg_heap s') = u32 (0 + 1) /\
    hp_allocated_bytes (mg_heap s') <= 208.
Proof. exact (heap_sweep_correct (rt_managed example_runtime) example_heap_ok). Defined.

Lemma heap_reset_releases_all_witness :
  exists s', zaclr_heap_reset (rt_managed example_runtime) = Ret s' /\ mg_objects s' = ∅ /\
    mg_heap s' = zero_heap /\ live (mg_kernel s') = live example_kernel ∖ (dom example_objects ∪ {[1]}).
Proof. exact (heap_reset_releases_all (rt_managed example_runtime) example_heap_ok). Defined.

(** ** Defects *)

(** A handle that tracks resurrection is never cleared: after the collection of its
    object it holds the address of memory that was released. *)
Lemma long_weak_handle_dangles :
  let rt' := (zaclr_gc_collect example_runtime).2 in
  he_handle <$> ht_entries (rt_handle_table rt') = [0; 5] /\ mg_objects (rt_managed rt') !! 5 = None.
Proof. split; vm_compute; reflexivity. Qed.

(** The difference of the threshold and the requested size is unsigned: a request
    beyond the threshold never triggers a collection, however full the heap is. *)
Lemma large_request_skips_collection :
  over_threshold (mk_heap true 0 0 [] 0 0 0 0x7FFFFFFF ZACLR_HEAP_DEFAULT_THRESHOLD_BYTES 0) 65536 = true /\
  over_threshold (mk_heap true 0 0 [] 0 0 0 0x7FFFFFFF ZACLR_HEAP_DEFAULT_THRESHOLD_BYTES 0) 65537 = false.
Proof. split; reflexivity. Qed.

(** Only the fields of the most derived type are followed: an object that refers to
    another through an inherited field does not keep it alive. *)
Definition base_table : zaclr_method_table :=
  mk_method_table None None (Some [mk_field_layout 1 0 0 0x12 1 0 8]).
Definition derived_table : zaclr_method_table :=
  mk_method_table None (Some base_table) (Some [mk_field_layout 2 8 0 0x08 0 0 4]).
Definition derived_object : zaclr_object_desc :=
  mk_object 64 ZACLR_OBJECT_FAMILY_INSTANCE 0 0 ZACLR_OBJECT_FLAG_REFERENCE_TYPE (Some derived_table) 1
    (BodyReference 0 (Fields (le_bytes 8 4 ++ replicate 8 x00))).

Lemma inherited_reference_not_followed :
  object_children derived_object = Ret [] /\
  object_instance_field_address derived_object (token_of ZACLR_TOKEN_TABLE_FIELD 1) = Some 0 /\
  read_u64 (le_bytes 8 4 ++ replicate 8 x00) 0 = Ret 4.
Proof. repeat split; vm_compute; reflexivity. Qed.
