(* ===== verification/ObjectGraph.v ===== *)
(** * The graph of managed objects, and the collector against it

    What an object refers to is stated here from its contents and its type alone: the
    elements of an array of references, the value in a box, and every reference field
    that the type of an instance or one of its base types declares.  The theorems about
    marking, collection and allocation are stated over the graph of these references;
    [object_children], which the collector follows, only appears in their proofs.

    The collector follows the fields of the most derived type alone
    ([inherited_reference_not_followed]), so the theorems assume that no base type of an
    object on the heap declares a reference field, and that every header announces the
    body that follows it ([described]). *)

From Stdlib Require Import Strings.Byte.
From stdpp Require Import relations.
From S2P Require Import Prelude Status Bytes Token KernelHeap HandleTable TypeMap EvalStack.
From S2P Require Import ManagedObject ManagedHeap Gc GcMark GcCollect GcAllocate.

(** ** References *)

(** A type and its base types. *)
Fixpoint ancestry (mt : zaclr_method_table) : list zaclr_method_table :=
  mt :: match mt_parent mt with Some parent => ancestry parent | None => [] end.

Definition declares (mt : zaclr_method_table) (layout : zaclr_field_layout) : Prop :=
  exists fields, mt_instance_fields mt = Some fields /\ layout ∈ fields.

(** A field of an instance that holds a reference. *)
Definition reference_field (layout : zaclr_field_layout) : Prop :=
  fl_is_static layout = 0 /\ fl_is_reference layout <> 0.

Definition holds_reference (v : zaclr_stack_value) (q : Z) : Prop :=
  sv_kind v = ZACLR_STACK_VALUE_OBJECT_REFERENCE /\ sv_data v = DWord q.

(** The object refers to the address [q]: an element of an array whose header says it
    contains references, the value in a box, a field declared by the type of an instance
    or by a base type, a slot of an instance without a prepared type. *)
Inductive refers (o : zaclr_object_desc) (q : Z) : Prop :=
| refers_element length type data i :
    ob_body o = BodyArray length 8 type data -> zaclr_object_contains_references o = true ->
    0 <= i < length -> read_u64 data (8 * i) = Ret q -> refers o q
| refers_boxed type v : ob_body o = BodyBoxed type v -> holds_reference v q -> refers o q
| refers_field mt t layout capacity data :
    ob_body o = BodyReference capacity (Fields data) -> ob_method_table o = Some mt ->
    t ∈ ancestry mt -> declares t layout -> reference_field layout ->
    read_u64 data (fl_byte_offset layout) = Ret q -> refers o q
| refers_slot capacity values i v :
    ob_body o = BodyReference capacity (Compat values) -> 0 <= i < capacity ->
    values .@ i = Some v -> holds_reference v q -> refers o q.

(** ** Headers that describe their objects *)

(** The reference fields of a type: rows of the field table that name one offset each,
    inside the data of the instance; those of its base types: none. *)
Record layouts_ok (mt : zaclr_method_table) (data : list byte) : Prop := {
  lo_row l : declares mt l -> reference_field l -> 1 <= fl_field_token_row l < 2 ^ 24;
  lo_inside l : declares mt l -> reference_field l -> 0 <= fl_byte_offset l /\ fl_byte_offset l + 8 <= zlength data;
  lo_unique l l' : declares mt l -> reference_field l -> declares mt l' -> fl_is_static l' = 0 ->
    fl_field_token_row l' = fl_field_token_row l -> fl_byte_offset l' = fl_byte_offset l;
  lo_inherited p t l : mt_parent mt = Some p -> t ∈ ancestry p -> declares t l -> ~ reference_field l }.

Definition value_represented (v : zaclr_stack_value) : Prop :=
  sv_kind v = ZACLR_STACK_VALUE_OBJECT_REFERENCE -> exists w, sv_data v = DWord w.

Definition described (o : zaclr_object_desc) : Prop :=
  match ob_body o with
  | BodyPlain _ =>
    ob_family o <> ZACLR_OBJECT_FAMILY_ARRAY /\
    (ob_family o = ZACLR_OBJECT_FAMILY_INSTANCE ->
     flag_set (ob_flags o) ZACLR_OBJECT_FLAG_BOXED_VALUE = false /\ flag_set (ob_flags o) ZACLR_OBJECT_FLAG_REFERENCE_TYPE = false)
  | BodyArray length element_size _ data =>
    ob_family o = ZACLR_OBJECT_FAMILY_ARRAY /\ 0 <= length < 2 ^ 31 /\ (element_size = 8 -> 8 * length <= zlength data)
  | BodyBoxed _ value =>
    ob_family o = ZACLR_OBJECT_FAMILY_INSTANCE /\ flag_set (ob_flags o) ZACLR_OBJECT_FLAG_BOXED_VALUE = true /\ value_represented value
  | BodyReference capacity storage =>
    ob_family o = ZACLR_OBJECT_FAMILY_INSTANCE /\ flag_set (ob_flags o) ZACLR_OBJECT_FLAG_BOXED_VALUE = false /\
    flag_set (ob_flags o) ZACLR_OBJECT_FLAG_REFERENCE_TYPE = true /\
    match storage with
    | Fields data =>
      (ob_method_table o ≫= mt_instance_fields = None -> capacity = 0) /\
      forall mt, ob_method_table o = Some mt -> layouts_ok mt data
    | Compat values =>
      ob_method_table o ≫= mt_instance_fields = None /\ 0 <= capacity <= zlength values /\ Forall value_represented values
    end
  end.

(** ** The collector follows exactly these references *)

Lemma collect_total {A} (f : A -> outcome (list Z)) l : (forall x, x ∈ l -> exists ps, f x = Ret ps) ->
  exists r, collect f l = Ret r /\ forall q, q ∈ r <-> exists x ps, x ∈ l /\ f x = Ret ps /\ q ∈ ps.
Proof.
  induction l as [|x l IH]; intros Hf.
  { exists []. split; [done|]. intros q. split; [by intros ?%not_elem_of_nil|]. intros (x & ps & Hx & _). by apply not_elem_of_nil in Hx. }
  destruct (Hf x ltac:(left)) as [ps Hps]. destruct IH as (r & Hr & Hq); [intros y Hy; apply Hf; by right|].
  exists (ps ++ r). cbn [collect]. rewrite Hps, Ret_bind, Hr. split; [done|]. intros q. rewrite elem_of_app, Hq. split.
  - intros [Hin|(y & qs & Hy & E & Hin)]; [exists x, ps; split; [left|done]|exists y, qs; split; [by right|done]].
  - intros (y & qs & [-> |Hy]%elem_of_cons & E & Hin); [left; congruence|right; by exists y, qs].
Qed.

Lemma read_u64_total data p : 0 <= p -> p + 8 <= zlength data -> exists w, read_u64 data p = Ret w.
Proof.
  intros H0 Hl. unfold read_u64, read_u32, read_u8.
  destruct (get_Some data p) as [b0 ->]; [lia|]. destruct (get_Some data (p + 1)) as [b1 ->]; [lia|].
  destruct (get_Some data (p + 2)) as [b2 ->]; [lia|]. destruct (get_Some data (p + 3)) as [b3 ->]; [lia|].
  destruct (get_Some data (p + 4)) as [b4 ->]; [lia|]. destruct (get_Some data (p + 4 + 1)) as [b5 ->]; [lia|].
  destruct (get_Some data (p + 4 + 2)) as [b6 ->]; [lia|]. destruct (get_Some data (p + 4 + 3)) as [b7 ->]; [lia|].
  rewrite !Ret_bind. by eexists.
Qed.

Lemma value_reference_spec v : value_represented v ->
  exists ps, value_reference v = Ret ps /\ forall q, q <> 0 -> (q ∈ ps <-> holds_reference v q).
Proof.
  intros Hv. unfold value_reference, zaclr_stack_value_contains_references, holds_reference.
  destruct (Z.eqb_spec (sv_kind v) ZACLR_STACK_VALUE_OBJECT_REFERENCE) as [E|E].
  - destruct (Hv E) as [w Hw]. unfold value_word. rewrite Hw, Ret_bind. destruct (Z.eqb_spec w 0) as [->|Hw0]; cbn [negb].
    + exists []. split; [done|]. intros q Hq. split; [by intros ?%not_elem_of_nil|]. by intros [_ [= <-]].
    + rewrite Ret_bind. exists [w]. split; [done|]. intros q _. rewrite list_elem_of_singleton. split; [by intros ->|]. by intros [_ [= <-]].
  - rewrite Ret_bind. exists []. split; [done|]. intros q _. split; [by intros ?%not_elem_of_nil|]. by intros [? _].
Qed.

Lemma array_children_spec o length type data : ob_body o = BodyArray length 8 type data -> 0 <= length < 2 ^ 31 ->
  8 * length <= zlength data ->
  exists l, array_children o length 8 data = Ret l /\ forall q, q ∈ l <-> refers o q.
Proof.
  intros Hb Hl Hd. unfold array_children. cbn [Z.eqb Pos.eqb negb]. rewrite orb_false_r, u32_id by lia.
  destruct (zaclr_object_contains_references o) eqn:Hc; cbn [negb].
  2: { exists []. split; [done|]. intros q. split; [by intros ?%not_elem_of_nil|]. destruct 1; congruence. }
  rewrite (proj2 (Z.ltb_ge _ _)) by lia.
  destruct (collect_total (fun index => p ← read_u64 data (8 * index); Ret [p]) (seqZ 0 length)) as (r & Hr & Hq).
  { intros i [? ?]%elem_of_seqZ. destruct (read_u64_total data (8 * i)) as [w ->]; [lia|lia|]. rewrite Ret_bind. by eexists. }
  exists r. split; [done|]. intros q. rewrite Hq. split.
  - intros (i & ps & [? ?]%elem_of_seqZ & (w & Hw & [= <-])%bind_Ret & ->%list_elem_of_singleton).
    apply (refers_element o w length type data i); (done || lia).
  - destruct 1 as [n ty d i Hb' _ Hi Hw|?? Hb'|????? Hb'|???? Hb']; rewrite Hb in Hb'; try discriminate Hb'.
    injection Hb' as <- <- <-. exists i, [q]. split; [apply elem_of_seqZ; lia|]. rewrite Hw, Ret_bind. split; [done|]. by apply list_elem_of_singleton.
Qed.

(** The address of a field is the offset its type gives it. *)
Lemma field_address o mt data layout : ob_family o = ZACLR_OBJECT_FAMILY_INSTANCE -> ob_method_table o = Some mt -> layouts_ok mt data ->
  declares mt layout -> reference_field layout ->
  object_instance_field_address o (token_of ZACLR_TOKEN_TABLE_FIELD (fl_field_token_row layout)) = Some (fl_byte_offset layout).
Proof.
  intros Hf Hmt Hl Hd Hr. pose proof (lo_row _ _ Hl _ Hd Hr) as Hrow. unfold object_instance_field_address, find_field_layout.
  destruct (token_roundtrip ZACLR_TOKEN_TABLE_FIELD (fl_field_token_row layout)) as (_ & -> & ->); [done|lia|].
  rewrite Z.eqb_refl, Hmt. cbn [negb]. destruct Hd as (fields & Hfs & Hin).
  assert (exists l, find (layout_matches (fl_field_token_row layout)) fields = Some l) as [l Efind].
  { destruct (find _ fields) as [l|] eqn:E; [by exists l|]. apply list_elem_of_In in Hin. pose proof (find_none _ _ E _ Hin) as Hn.
    unfold layout_matches in Hn. rewrite (proj1 Hr), !Z.eqb_refl in Hn. done. }
  assert (find_field_layout_in mt (fl_field_token_row layout) = Some l) as ->.
  { destruct mt as [td parent fs]. cbn [find_field_layout_in mt_instance_fields] in *. rewrite Hfs. cbn [fmap option_fmap option_map default from_option]. by rewrite Efind. }
  unfold has_instance_field_base. rewrite Hf. cbn. f_equal. apply find_some in Efind as [Hl' Hm].
  unfold layout_matches in Hm. apply andb_true_iff in Hm as [Hs Hrw]. apply Z.eqb_eq in Hs, Hrw. apply list_elem_of_In in Hl'.
  apply (lo_unique _ _ Hl layout l); try done; by exists fields.
Qed.

Lemma fields_children_spec o capacity data mt fields : ob_body o = BodyReference capacity (Fields data) ->
  ob_family o = ZACLR_OBJECT_FAMILY_INSTANCE -> ob_method_table o = Some mt -> layouts_ok mt data -> mt_instance_fields mt = Some fields ->
  exists l, collect (field_reference o (Fields data)) fields = Ret l /\ forall q, q ∈ l <-> refers o q.
Proof.
  intros Hb Hf Hmt Hl Hfs.
  assert (forall l, l ∈ fields -> reference_field l -> field_reference o (Fields data) l = (p ← read_u64 data (fl_byte_offset l); Ret [p])) as Href.
  { intros l Hin [Hs Hr]. unfold field_reference. rewrite Hs, (proj2 (Z.eqb_neq _ _) Hr). cbn [Z.eqb negb orb].
    by rewrite (field_address o mt data l Hf Hmt Hl ltac:(by exists fields) (conj Hs Hr)). }
  assert (forall l, ~ reference_field l -> field_reference o (Fields data) l = Ret []) as Hother.
  { intros l Hn. unfold field_reference, reference_field in *. destruct (Z.eqb_spec (fl_is_static l) 0), (Z.eqb_spec (fl_is_reference l) 0); cbn; tauto. }
  assert (forall l, reference_field l \/ ~ reference_field l) as Hdec by (intros l; unfold reference_field; lia).
  destruct (collect_total (field_reference o (Fields data)) fields) as (r & Hr & Hq).
  { intros l Hin. destruct (Hdec l) as [H|H]; [|rewrite Hother by done; by eexists]. rewrite Href by done.
    destruct (read_u64_total data (fl_byte_offset l)) as [w ->]; [by apply (lo_inside _ _ Hl); [exists fields|]..|]. rewrite Ret_bind. by eexists. }
  exists r. split; [done|]. intros q. rewrite Hq. split.
  - intros (l & ps & Hin & E & Hps). destruct (Hdec l) as [H|H].
    + rewrite Href in E by done. apply bind_Ret in E as (w & Hw & [= <-]). apply list_elem_of_singleton in Hps as ->.
      apply (refers_field o w mt mt l capacity data); try done; [|by exists fields]. destruct mt. left.
    + rewrite Hother in E by done. injection E as <-. by apply not_elem_of_nil in Hps.
  - destruct 1 as [???? Hb'|?? Hb'|mt' t l cap d Hb' Hmt' Ht Hd Hrf Hw|???? Hb']; rewrite Hb in Hb'; try discriminate Hb'.
    injection Hb' as <- <-. rewrite Hmt in Hmt'. injection Hmt' as <-.
    assert (declares mt l) as (fs & Hfs' & Hin).
    { destruct mt as [td parent fs]. cbn [ancestry mt_parent] in Ht. apply elem_of_cons in Ht as [-> |Ht]; [done|].
      destruct parent as [p|]; [|by apply not_elem_of_nil in Ht]. exfalso. by apply (lo_inherited _ _ Hl p t l). }
    rewrite Hfs in Hfs'. injection Hfs' as <-. exists l, [q]. split; [done|]. rewrite Href, Hw by done. split; [done|]. by apply list_elem_of_singleton.
Qed.

(** Without own fields there are none at all. *)
Lemma no_fields_no_references o capacity data q : ob_body o = BodyReference capacity (Fields data) ->
  ob_method_table o ≫= mt_instance_fields = None -> (forall mt, ob_method_table o = Some mt -> layouts_ok mt data) -> ~ refers o q.
Proof.
  intros Hb Hn Hl. destruct 1 as [???? Hb'|?? Hb'|mt t l cap d Hb' Hmt Ht Hd Hr _|???? Hb']; rewrite Hb in Hb'; try discriminate Hb'.
  injection Hb' as <- <-. rewrite Hmt in Hn. destruct Hd as (fs & Hfs & Hin). specialize (Hl mt Hmt). destruct mt as [td parent fs0].
  cbn [ancestry mt_parent] in Ht. apply elem_of_cons in Ht as [-> |Ht]; [cbn in Hn, Hfs; congruence|].
  destruct parent as [p|]; [|by apply not_elem_of_nil in Ht]. apply (lo_inherited _ _ Hl p t l); try done. by exists fs.
Qed.

Lemma slots_children_spec o capacity values : ob_body o = BodyReference capacity (Compat values) -> 0 <= capacity <= zlength values ->
  Forall value_represented values ->
  exists l, collect value_reference (take (Z.to_nat capacity) values) = Ret l /\ forall q, q <> 0 -> (q ∈ l <-> refers o q).
Proof.
  intros Hb Hc Hv. rewrite Forall_forall in Hv. destruct (collect_total value_reference (take (Z.to_nat capacity) values)) as (r & Hr & Hq).
  { intros v Hin. destruct (value_reference_spec v) as (ps & E & _); [|by exists ps]. apply Hv. by eapply elem_of_take in Hin as (i & Hi%list_elem_of_lookup_2 & _). }
  exists r. split; [done|]. intros q Hq0. rewrite Hq. split.
  - intros (v & ps & Hin & E & Hps). apply elem_of_take in Hin as (i & Hi & Hlt).
    destruct (value_reference_spec v) as (ps' & E' & Hiff); [apply Hv; by eapply list_elem_of_lookup_2|]. rewrite E in E'. injection E' as <-.
    apply (refers_slot o q capacity values (Z.of_nat i) v); [done|lia| |by apply Hiff]. unfold get. case_if; [lia|]. by rewrite Nat2Z.id.
  - destruct 1 as [???? Hb'|?? Hb'|????? Hb'|cap vs i v Hb' Hi Hget Hh]; rewrite Hb in Hb'; try discriminate Hb'. injection Hb' as <- <-.
    destruct (value_reference_spec v) as (ps & E & Hiff); [apply Hv; by eapply get_In|]. exists v, ps. split; [|split; [done|by apply Hiff]].
    unfold get in Hget. case_if_in Hget; [done|]. apply elem_of_take. exists (Z.to_nat i). split; [done|lia].
Qed.

Lemma children_refer o : described o -> exists l, object_children o = Ret l /\ forall q, q <> 0 -> (q ∈ l <-> refers o q).
Proof.
  assert (forall q, q ∈ ([] : list Z) <-> False) as Hnil by (intros q; split; [by intros ?%not_elem_of_nil|done]).
  unfold described, object_children. destruct (ob_body o) as [data|n size type data|type v|cap [data|values]] eqn:Hb.
  - intros [Ha Hi]. rewrite (proj2 (Z.eqb_neq _ _) Ha). exists []. split.
    + destruct (Z.eqb_spec (ob_family o) ZACLR_OBJECT_FAMILY_INSTANCE) as [E|E]; [|done]. by destruct (Hi E) as [-> ->].
    + intros q _. rewrite Hnil. split; [done|]. destruct 1; congruence.
  - intros (-> & Hn & Hd). rewrite Z.eqb_refl. destruct (Z.eq_dec size 8) as [->|Hs].
    + destruct (array_children_spec o n type data Hb Hn (Hd eq_refl)) as (l & Hl & Hq). exists l. split; [done|]. intros q _. apply Hq.
    + unfold array_children. rewrite (proj2 (Z.eqb_neq _ _) Hs). cbn [negb]. rewrite orb_true_r. exists []. split; [done|].
      intros q _. rewrite Hnil. split; [done|]. destruct 1; congruence.
  - intros (-> & -> & Hv). destruct (value_reference_spec v Hv) as (ps & E & Hq). exists ps. split; [done|]. intros q Hq0. rewrite Hq by done.
    split; [intros Hh; by apply (refers_boxed o q type v)|]. destruct 1; congruence.
  - intros (Hfam & -> & -> & Hcap & Hl). rewrite Hfam. unfold reference_object_children. cbn [Z.eqb Pos.eqb ZACLR_OBJECT_FAMILY_ARRAY ZACLR_OBJECT_FAMILY_INSTANCE].
    destruct (ob_method_table o ≫= mt_instance_fields) as [fields|] eqn:Ef.
    + destruct (ob_method_table o) as [mt|] eqn:Hmt; [|done]. cbn in Ef.
      destruct (fields_children_spec o cap data mt fields Hb Hfam Hmt (Hl mt eq_refl) Ef) as (l & E & Hq). exists l. split; [done|]. intros q _. apply Hq.
    + rewrite (Hcap eq_refl). cbn. exists []. split; [done|]. intros q _. rewrite Hnil. split; [done|]. by apply (no_fields_no_references o cap data).
  - intros (-> & -> & -> & Hn & Hc & Hv). unfold reference_object_children. rewrite Hn. cbn [Z.eqb Pos.eqb ZACLR_OBJECT_FAMILY_ARRAY ZACLR_OBJECT_FAMILY_INSTANCE].
    rewrite (proj2 (Z.ltb_ge _ _)) by lia. destruct (slots_children_spec o cap values Hb Hc Hv) as (l & E & Hq). exists l. split; [|done].
    destruct (Z.eqb_spec cap 0) as [->|]; [|done]. by rewrite <- E.
Qed.

(** ** The graph *)

(** The object at [p] refers to the object at [q]. *)
Definition refers_in (objs : objects) (p q : Z) : Prop := exists o, objs !! p = Some o /\ refers o q /\ q <> 0.
Definition reachable (objs : objects) : relation Z := rtc (refers_in objs).

Definition described_heap (objs : objects) : Prop := forall p o, objs !! p = Some o -> described o.

(** Every header describes its object and every reference leads to an object. *)
Definition sound_heap (objs : objects) : Prop :=
  described_heap objs /\ forall p q, refers_in objs p q -> is_Some (objs !! q).

Lemma edge_refers objs p q : described_heap objs -> edge objs p q <-> refers_in objs p q.
Proof.
  intros Hd. unfold edge, kids, refers_in. destruct (objs !! p) as [o|] eqn:Ho.
  - destruct (children_refer o (Hd p o Ho)) as (l & -> & Hq). split.
    + intros [Hin Hq0]. exists o. split; [done|]. split; [by apply Hq|done].
    + intros (o' & [= <-] & Hr & Hq0). split; [by apply Hq|done].
  - split; [by intros [?%not_elem_of_nil _]|]. by intros (o & ? & _).
Qed.

Lemma reach_reachable objs p q : described_heap objs -> reach objs p q <-> reachable objs p q.
Proof. intros Hd. split; apply rtc_subrel; intros x y; by apply edge_refers. Qed.

Lemma sound_well_linked objs : sound_heap objs -> well_linked objs.
Proof.
  intros [Hd Hv] p o Ho. destruct (children_refer o (Hd p o Ho)) as (l & E & Hq). exists l. split; [done|].
  intros q Hin. destruct (Z.eq_dec q 0) as [->|Hq0]; [by left|right]. apply (Hv p q). exists o. split; [done|]. split; [by apply Hq|done].
Qed.

Lemma well_linked_sound objs : described_heap objs -> well_linked objs -> sound_heap objs.
Proof.
  intros Hd Hw. split; [done|]. intros p q (o & Ho & Hr & Hq0). destruct (Hw p o Ho) as (l & E & Hv).
  destruct (children_refer o (Hd p o Ho)) as (l' & E' & Hq). rewrite E in E'. injection E' as <-.
  destruct (Hv q) as [->|Hs]; [by apply Hq|done|done].
Qed.

(** Marks and finalizer states are no part of a description. *)
Lemma described_shape o o' : shape o' = shape o -> described o -> described o'.
Proof. intros E Hd. change (described (shape o')). rewrite E. exact Hd. Qed.

Lemma described_kept objs objs' : described_heap objs ->
  (forall p o', objs' !! p = Some o' -> exists o, objs !! p = Some o /\ shape o' = shape o) -> described_heap objs'.
Proof. intros Hd Hk p o' Ho'. destruct (Hk p o' Ho') as (o & Ho & E). eapply described_shape; [exact E|by eapply Hd]. Qed.

(** ** Marking *)


(** ** Collection *)

Section collection.
Context {K : Type} `{KernelHeapLaws K}.
Implicit Types (rt : zaclr_runtime K).

(** Reachable from a root or from an object whose finalizer has to run. *)
Definition in_use rt (p : Z) : Prop :=
  exists r, r <> 0 /\ reachable (objects_of rt) r p /\
    (r ∈ roots_of rt \/ exists o, objects_of rt !! r = Some o /\ finalizable o = true).

(** What becomes of an entry of the handle table: a short weak handle is cleared when
    its object is not reachable from the roots, every other entry is kept. *)
Definition entry_after rt (e e' : zaclr_gc_handle_entry) : Prop :=
  let found := exists r, r ∈ roots_of rt /\ r <> 0 /\ reachable (objects_of rt) r (he_handle e) in
  if (he_kind e =? ZACLR_GC_HANDLE_KIND_WEAK) && negb (he_handle e =? 0)
  then (found /\ e' = e) \/ (~ found /\ e' = clear_handle e)
  else e' = e.

Definition entries_after rt rt' : Prop :=
  ht_count (rt_handle_table rt') = ht_count (rt_handle_table rt) /\
  forall i e, 0 <= i < ht_count (rt_handle_table rt) -> ht_entries (rt_handle_table rt) .@ i = Some e ->
    exists e', ht_entries (rt_handle_table rt') .@ i = Some e' /\ entry_after rt e e'.

(** A collection that succeeded. *)
Record collected rt rt' : Prop := {
  cl_ok : runtime_ok rt' /\ sound_heap (objects_of rt') /\ gc_active rt' = false;
  cl_exact p : is_Some (objects_of rt' !! p) <-> is_Some (objects_of rt !! p) /\ in_use rt p;
  cl_contents p o o' : objects_of rt !! p = Some o -> objects_of rt' !! p = Some o' -> shape o' = shape o;
  cl_freed p : is_Some (objects_of rt !! p) -> objects_of rt' !! p = None -> p ∉ live (kernel_of rt');
  cl_roots : rt_current_exception rt' = rt_current_exception rt /\ rt_frames rt' = rt_frames rt /\ rt_domain rt' = rt_domain rt;
  cl_entries : entries_after rt rt' }.

(** A collection that could not queue a finalizer. *)
Record given_up rt (r : zaclr_result) rt' : Prop := {
  gu_ok : runtime_ok rt' /\ sound_heap (objects_of rt') /\ gc_active rt' = false;
  gu_objects : same_shape (objects_of rt) (objects_of rt');
  gu_roots : rt_current_exception rt' = rt_current_exception rt /\ rt_frames rt' = rt_frames rt /\ rt_domain rt' = rt_domain rt;
  gu_entries : entries_after rt rt';
  gu_status : r ∈ [process_error ZACLR_STATUS_BUFFER_TOO_SMALL; process_error ZACLR_STATUS_OUT_OF_MEMORY] }.

Lemma survives_in_use rt p : described_heap (objects_of rt) -> survives rt p <-> in_use rt p.
Proof. intros Hd. unfold survives, in_use. pose proof (fun a b => reach_reachable (objects_of rt) a b Hd) as Hr. by setoid_rewrite Hr. Qed.

Lemma entry_after_spec rt e e' : described_heap (objects_of rt) -> handle_after rt e e' -> entry_after rt e e'.
Proof. intros Hd. unfold handle_after, entry_after. cbv zeta. case_if; [|done]. pose proof (fun a b => reach_reachable (objects_of rt) a b Hd) as Hr. by setoid_rewrite Hr. Qed.

Lemma entries_after_spec rt rt' : described_heap (objects_of rt) -> handles_after_collection rt rt' -> entries_after rt rt'.
Proof.
  intros Hd [Hc Hh]. split; [done|]. intros i e Hi He. destruct (Hh i e Hi He) as (e' & He' & Ha). exists e'. split; [done|]. by apply entry_after_spec.
Qed.

End collection.


(** ** Allocation *)

Section allocation.
Context {K : Type} `{KernelHeapLaws K}.
Implicit Types (rt : zaclr_runtime K).

(** The program can reach the object: through a strong handle, a frame, the current
    exception or a static. *)
Definition program_reaches rt (p : Z) : Prop :=
  exists r, r ∈ program_roots rt /\ r <> 0 /\ reachable (objects_of rt) r p.

Lemma held_reaches rt p : described_heap (objects_of rt) -> held rt p <-> program_reaches rt p.
Proof. intros Hd. unfold held, program_reaches. pose proof (fun a b => reach_reachable (objects_of rt) a b Hd) as Hr. by setoid_rewrite Hr. Qed.

(** Every object the program can reach is still there, with its contents. *)
Definition nothing_lost rt rt' : Prop :=
  forall q o, objects_of rt !! q = Some o -> program_reaches rt q -> exists o', objects_of rt' !! q = Some o' /\ shape o' = shape o.

Definition allocation_post rt (size type_id family flags : Z) (x : outcome Z * zaclr_runtime K) : Prop :=
  match x with
  | (Ret p, rt') =>
    p <> 0 /\ objects_of rt' !! p = Some (new_object size type_id family flags) /\
    ~ (is_Some (objects_of rt !! p) /\ program_reaches rt p) /\ nothing_lost rt rt' /\
    (forall q o', q <> p -> objects_of rt' !! q = Some o' -> exists o, objects_of rt !! q = Some o /\ shape o' = shape o) /\
    runtime_ok rt' /\ sound_heap (objects_of rt')
  | (Err r, rt') =>
    nothing_lost rt rt' /\ (forall q o', objects_of rt' !! q = Some o' -> exists o, objects_of rt !! q = Some o /\ shape o' = shape o) /\
    runtime_ok rt' /\ sound_heap (objects_of rt') /\
    r ∈ [heap_error ZACLR_STATUS_INVALID_ARGUMENT; heap_error ZACLR_STATUS_OUT_OF_MEMORY;
         process_error ZACLR_STATUS_BUFFER_TOO_SMALL; process_error ZACLR_STATUS_OUT_OF_MEMORY]
  | _ => False
  end.

Lemma new_object_described size type_id family flags : described (new_object size type_id family flags).
Proof.
  unfold described, new_object, zero_body. cbn [ob_body ob_family ob_flags ob_method_table].
  destruct (Z.eqb_spec (u16 family) ZACLR_OBJECT_FAMILY_ARRAY) as [E|E]; [split; [done|]; split; [lia|done]|].
  destruct (Z.eqb_spec (u16 family) ZACLR_OBJECT_FAMILY_INSTANCE) as [E'|E']; [|by split].
  destruct (flag_set flags ZACLR_OBJECT_FLAG_BOXED_VALUE) eqn:Eb; [split; [done|]; by split|].
  destruct (flag_set flags ZACLR_OBJECT_FLAG_REFERENCE_TYPE) eqn:Er; [do 3 (split; [done|]); by split|by split].
Qed.

End allocation.


(** ** The example *)

Lemma example_described : described_heap example_objects.
Proof.
  intros p o Hp. unfold example_objects in Hp. each_object Hp.
  - split; [done|]. split; [lia|done].
  - repeat split; discriminate.
  - repeat split; discriminate.
  - repeat split; discriminate.
Qed.




(** An object of a type with base types whose fields are all numbers, and a field of its
    own, is described. *)
Definition node_base : zaclr_method_table := mk_method_table None None (Some [mk_field_layout 1 0 0 0x08 0 0 4]).
Definition node_type : zaclr_method_table :=
  mk_method_table None (Some node_base) (Some [mk_field_layout 2 8 0 0x12 1 0 8; mk_field_layout 3 16 0 0x08 0 0 4]).
Definition node_object (next : Z) : zaclr_object_desc :=
  mk_object 72 ZACLR_OBJECT_FAMILY_INSTANCE 0 0 ZACLR_OBJECT_FLAG_REFERENCE_TYPE (Some node_type) 1
    (BodyReference 0 (Fields (replicate 8 x00 ++ le_bytes 8 next ++ replicate 8 x00))).

Lemma node_object_described : described (node_object 4) /\ refers (node_object 4) 4.
Proof.
  assert (forall l, declares node_type l -> l = mk_field_layout 2 8 0 0x12 1 0 8 \/ l = mk_field_layout 3 16 0 0x08 0 0 4) as Hown.
  { intros l (fs & [= <-] & Hl%list_elem_of_In). simpl in Hl. intuition. }
  split.
  - do 3 (split; [done|]). split; [done|]. intros mt [= <-]. split.
    + intros l [-> | ->]%Hown _; cbn; lia.
    + intros l [-> | ->]%Hown _; vm_compute; split; congruence.
    + intros l l' [-> | ->]%Hown Hr [-> | ->]%Hown _; try done; by destruct Hr.
    + intros p t l [= <-] Ht%list_elem_of_In (fs & Hfs & Hl%list_elem_of_In) [_ Hr]. simpl in Ht. destruct Ht as [<- |[]].
      injection Hfs as <-. simpl in Hl. destruct Hl as [<- |[]]. by apply Hr.
  - apply (refers_field _ 4 node_type node_type (mk_field_layout 2 8 0 0x12 1 0 8) 0 (replicate 8 x00 ++ le_bytes 8 4 ++ replicate 8 x00));
      [done|done|left|eexists; split; [done|left]|done|vm_compute; reflexivity].
Qed.

(** The reference of an inherited field is one, and the collector does not follow it. *)
Lemma inherited_reference_is_one : refers derived_object 4 /\ object_children derived_object = Ret [].
Proof.
  split; [|done]. apply (refers_field _ 4 derived_table base_table (mk_field_layout 1 0 0 0x12 1 0 8) 0 (le_bytes 8 4 ++ replicate 8 x00));
    [done|done|right; left|eexists; split; [done|left]|done|vm_compute; reflexivity].
Qed.
