(* ===== verification/KHeap.v ===== *)
(** * The kernel heap

    [kernel/mm/heap.c]: the segmented free-list allocator behind
    [kernel_alloc]/[kernel_free] ([kernel/support/kernel_memory.c]).  Physical
    memory is a map from 8-aligned addresses to 64-bit words; a block header is
    the word at its address (the low half is [block_size], the high half
    [_pad[0]]) and the word behind it; the link of a free block is the first word
    of its user area.  The allocator's static variables are the fields of
    [kheap].  A pointer is an address, 0 is [NULL]. *)

From stdpp Require Import sorting.
From S2P Require Import Prelude Status KernelHeap.

Module KHeap.

Definition KHEAP_PAGE_ALIGN : Z := 4096.
Definition KHEAP_BLOCK_ALIGN : Z := 16.
Definition KHEAP_HEADER_SIZE : Z := 16.
Definition KHEAP_MIN_USER : Z := 16.
Definition N_FAST_BUCKETS : Z := 64.
Definition EARLY_HEAP_SIZE : Z := 8 * 1024 * 1024.

(** ** Memory *)

Definition mem := Z -> Z.

Definition write (m : mem) (a v : Z) : mem := fun x => if x =? a then v else m x.

(** The header fields: [hdr->block_size] is the low half of the header word. *)
Definition block_size (m : mem) (hdr : Z) : Z := u32 (m hdr).

Definition set_block_size (m : mem) (hdr size : Z) : mem :=
  write m hdr (m hdr / 2 ^ 32 * 2 ^ 32 + u32 size).

(** A whole header: the size and the three padding words. *)
Definition write_header (m : mem) (hdr size : Z) : mem :=
  write (write m hdr (u32 size)) (hdr + 8) 0.

(** [FREE_NEXT_PTR]. *)
Definition next_ptr (m : mem) (user_ptr : Z) : Z := m user_ptr.

Fixpoint zero_words (m : mem) (p : Z) (n : nat) : mem :=
  match n with
  | O => m
  | S n' => zero_words (write m p 0) (p + 8) n'
  end.

Definition block_zero_user (m : mem) (user_ptr n_blocks : Z) : mem :=
  let n_words := u32 (n_blocks * KHEAP_BLOCK_ALIGN) / 8 in
  zero_words m user_ptr (Z.to_nat n_words).

(** ** The allocator state *)

Record kheap := mk_kheap {
  kh_mem : mem;
  g_heap_alloc_start : Z;
  g_heap_current : Z;
  g_heap_end : Z;
  g_heap_min_start : Z;
  g_heap_size : Z;
  g_free_bytes : Z;
  g_free_buckets : list Z;
  g_overflow_list : Z }.

(** The state at boot: the static variables are zero except [g_heap_size]. *)
Definition boot_heap (m : mem) : kheap :=
  mk_kheap m 0 0 0 0 EARLY_HEAP_SIZE 0 (replicate (Z.to_nat N_FAST_BUCKETS) 0) 0.

Definition with_mem (h : kheap) (m : mem) : kheap :=
  mk_kheap m (g_heap_alloc_start h) (g_heap_current h) (g_heap_end h) (g_heap_min_start h)
    (g_heap_size h) (g_free_bytes h) (g_free_buckets h) (g_overflow_list h).

Definition with_current (h : kheap) (current : Z) : kheap :=
  mk_kheap (kh_mem h) (g_heap_alloc_start h) current (g_heap_end h) (g_heap_min_start h)
    (g_heap_size h) (g_free_bytes h) (g_free_buckets h) (g_overflow_list h).

(** A free list is addressed by its index: the fast buckets, then the overflow
    list at index [N_FAST_BUCKETS]. *)
Definition with_lists (h : kheap) (m : mem) (bytes : Z) (buckets : list Z) (overflow : Z) : kheap :=
  mk_kheap m (g_heap_alloc_start h) (g_heap_current h) (g_heap_end h) (g_heap_min_start h)
    (g_heap_size h) bytes buckets overflow.

Definition bucket (h : kheap) (idx : Z) : Z := default 0 (g_free_buckets h .@ idx).

(** ** Internal helpers *)

Definition heap_align_up (v a : Z) : Z := Z.land (u64 (v + a - 1)) (Z.lnot (a - 1)).

Definition blocks_for_size (user_size : Z) : Z :=
  let aligned := heap_align_up user_size KHEAP_BLOCK_ALIGN in
  let aligned := if aligned <? KHEAP_MIN_USER then KHEAP_MIN_USER else aligned in
  u32 (aligned / KHEAP_BLOCK_ALIGN).

Definition bucket_push (h : kheap) (user_ptr n_blocks : Z) : kheap :=
  let user_bytes := u32 (n_blocks * KHEAP_BLOCK_ALIGN) in
  let bytes := u64 (g_free_bytes h + user_bytes) in
  if (0 <? n_blocks) && (n_blocks <=? N_FAST_BUCKETS) then
    let idx := n_blocks - 1 in
    with_lists h (write (kh_mem h) user_ptr (bucket h idx)) bytes
      (set (g_free_buckets h) idx user_ptr) (g_overflow_list h)
  else
    with_lists h (write (kh_mem h) user_ptr (g_overflow_list h)) bytes
      (g_free_buckets h) user_ptr.

Definition bucket_pop_fast (h : kheap) (n_blocks : Z) : Z * kheap :=
  if (n_blocks =? 0) || (N_FAST_BUCKETS <? n_blocks) then (0, h) else
  let idx := n_blocks - 1 in
  let node := bucket h idx in
  if node =? 0 then (0, h) else
  (node, with_lists h (kh_mem h) (u64 (g_free_bytes h - u32 (n_blocks * KHEAP_BLOCK_ALIGN)))
           (set (g_free_buckets h) idx (next_ptr (kh_mem h) node)) (g_overflow_list h)).

(** The candidate of the best-fit search: the block, the cell that points to it
    ([None] is [&g_overflow_list], [Some node] the link of [node]) and its size. *)
Record candidate := mk_candidate { best : Z; best_prev : option Z; best_blocks : Z }.

Fixpoint scan_overflow (fuel : nat) (m : mem) (n_blocks : Z) (prev : option Z) (cur : Z)
    (found : option candidate) : outcome (option candidate) :=
  if cur =? 0 then Ret found else
  match fuel with
  | O => NoFuel
  | S fuel' =>
    let cur_blocks := u32 (block_size m (cur - KHEAP_HEADER_SIZE) - KHEAP_HEADER_SIZE) / KHEAP_BLOCK_ALIGN in
    if cur_blocks =? n_blocks then Ret (Some (mk_candidate cur prev cur_blocks)) else
    let found :=
      if (n_blocks <? cur_blocks) &&
         match found with None => true | Some c => cur_blocks <? best_blocks c end &&
         (cur_blocks <=? u32 (n_blocks * 20) / 16)
      then Some (mk_candidate cur prev cur_blocks) else found in
    scan_overflow fuel' m n_blocks (Some cur) (next_ptr m cur) found
  end.

(** The number of blocks the heap can hold bounds the length of a free list. *)
Definition scan_fuel (h : kheap) : nat :=
  Z.to_nat ((g_heap_current h - g_heap_alloc_start h) / KHEAP_BLOCK_ALIGN).

Definition unlink (h : kheap) (c : candidate) : kheap :=
  let next := next_ptr (kh_mem h) (best c) in
  let bytes := u64 (g_free_bytes h - u32 (best_blocks c * KHEAP_BLOCK_ALIGN)) in
  match best_prev c with
  | None => with_lists h (kh_mem h) bytes (g_free_buckets h) next
  | Some prev => with_lists h (write (kh_mem h) prev next) bytes (g_free_buckets h) (g_overflow_list h)
  end.

Definition split_block (h : kheap) (c : candidate) (n_blocks : Z) : kheap :=
  let tail_blocks := u32 (best_blocks c - n_blocks - 1) in
  let tail_hdr := u64 (best c + n_blocks * KHEAP_BLOCK_ALIGN) in
  let tail_usr := u64 (tail_hdr + KHEAP_HEADER_SIZE) in
  let m := write_header (kh_mem h) tail_hdr (KHEAP_HEADER_SIZE + tail_blocks * KHEAP_BLOCK_ALIGN) in
  let m := set_block_size m (best c - KHEAP_HEADER_SIZE) (KHEAP_HEADER_SIZE + n_blocks * KHEAP_BLOCK_ALIGN) in
  bucket_push (with_mem h m) tail_usr tail_blocks.

Definition bucket_pop_overflow (h : kheap) (n_blocks : Z) : outcome (Z * kheap) :=
  found ← scan_overflow (scan_fuel h) (kh_mem h) n_blocks None (g_overflow_list h) None;
  match found with
  | None => Ret (0, h)
  | Some c =>
    let h := unlink h c in
    let h := if u32 (n_blocks + 2) <=? best_blocks c then split_block h c n_blocks else h in
    Ret (best c, h)
  end.

(** ** Public interface *)

Definition kheap_set_size (h : kheap) (heap_size : Z) : kheap :=
  if negb (g_heap_current h =? 0) || (heap_size =? 0) then h else
  mk_kheap (kh_mem h) (g_heap_alloc_start h) (g_heap_current h) (g_heap_end h) (g_heap_min_start h)
    heap_size (g_free_bytes h) (g_free_buckets h) (g_overflow_list h).

Definition kheap_init (h : kheap) (kernel_end : Z) : kheap :=
  let start := heap_align_up kernel_end KHEAP_PAGE_ALIGN in
  let start := if start <? g_heap_min_start h
               then heap_align_up (g_heap_min_start h) KHEAP_PAGE_ALIGN else start in
  mk_kheap (kh_mem h) 0 start (u64 (start + g_heap_size h)) (g_heap_min_start h)
    (g_heap_size h) 0 (g_free_buckets h) (g_overflow_list h).

Definition kheap_reserve_until (h : kheap) (min_start : Z) : kheap :=
  if g_heap_current h =? 0 then
    if g_heap_min_start h <? min_start
    then mk_kheap (kh_mem h) (g_heap_alloc_start h) (g_heap_current h) (g_heap_end h) min_start
           (g_heap_size h) (g_free_bytes h) (g_free_buckets h) (g_overflow_list h)
    else h
  else if negb (g_heap_alloc_start h =? 0) then h
  else if min_start <=? g_heap_current h then h
  else
    let aligned := heap_align_up min_start KHEAP_BLOCK_ALIGN in
    if g_heap_end h <? aligned then with_current h (g_heap_end h) else with_current h aligned.

(** The first allocation pins the start of the block area. *)
Definition pin_start (h : kheap) : kheap :=
  if g_heap_alloc_start h =? 0 then
    let start := heap_align_up (g_heap_current h) KHEAP_BLOCK_ALIGN in
    mk_kheap (kh_mem h) start start (g_heap_end h) (g_heap_min_start h)
      (g_heap_size h) (g_free_bytes h) (g_free_buckets h) (g_overflow_list h)
  else h.

(** The fallback: a new block at the bump pointer. *)
Definition carve (h : kheap) (total_size : Z) : Z * kheap :=
  let block_start := heap_align_up (g_heap_current h) KHEAP_BLOCK_ALIGN in
  let block_end := u64 (block_start + total_size) in
  if (g_heap_end h <? block_end) || (block_end <? block_start) then (0, h) else
  (u64 (block_start + KHEAP_HEADER_SIZE),
   with_current (with_mem h (write_header (kh_mem h) block_start total_size)) block_end).

Definition zeroed (h : kheap) (user_ptr n_blocks : Z) : kheap :=
  with_mem h (block_zero_user (kh_mem h) user_ptr n_blocks).

Definition kheap_alloc (h : kheap) (size : Z) : outcome (Z * kheap) :=
  if (size =? 0) || (g_heap_current h =? 0) then Ret (0, h) else
  let n_blocks := blocks_for_size size in
  let total_size := u32 (KHEAP_HEADER_SIZE + n_blocks * KHEAP_BLOCK_ALIGN) in
  let h := pin_start h in
  let '(user_ptr, h) := bucket_pop_fast h n_blocks in
  if negb (user_ptr =? 0) then Ret (user_ptr, zeroed h user_ptr n_blocks) else
  '(user_ptr, h) ← (if N_FAST_BUCKETS <? n_blocks then bucket_pop_overflow h n_blocks else Ret (0, h));
  if negb (user_ptr =? 0) then Ret (user_ptr, zeroed h user_ptr n_blocks) else
  Ret (carve h total_size).

Definition kheap_free (h : kheap) (ptr : Z) : kheap :=
  if (ptr =? 0) || (g_heap_alloc_start h =? 0) then h else
  let hdr := u64 (ptr - KHEAP_HEADER_SIZE) in
  if (hdr <? g_heap_alloc_start h) || (g_heap_current h <=? hdr) then h else
  let size := block_size (kh_mem h) hdr in
  let n_blocks := u32 (size - KHEAP_HEADER_SIZE) / KHEAP_BLOCK_ALIGN in
  if g_heap_current h <=? u64 (hdr + size) then with_current h hdr
  else bucket_push h ptr n_blocks.

Definition kheap_get_free_bytes (h : kheap) : Z :=
  if g_heap_end h <=? g_heap_current h then g_free_bytes h
  else u64 (g_free_bytes h + (g_heap_end h - g_heap_current h)).

(** ** The invariant

    [B] maps the user pointer of every block to its number of 16-byte units,
    [C] lists the nodes of each free list. *)

Definition heads (h : kheap) : list Z := g_free_buckets h ++ [g_overflow_list h].

(** The free list a block of [n] units belongs to. *)
Definition class (n : Z) : Z := if n <=? N_FAST_BUCKETS then n - 1 else N_FAST_BUCKETS.

Fixpoint chain (m : mem) (hd : Z) (l : list Z) : Prop :=
  match l with
  | [] => hd = 0
  | p :: l' => hd = p /\ p <> 0 /\ chain m (m p) l'
  end.

Definition is_free (C : list (list Z)) (p : Z) : Prop := exists i l, C .@ i = Some l /\ p ∈ l.

Record lists_ok (m : mem) (hs : list Z) (B : gmap Z Z) (C : list (list Z)) : Prop := {
  lo_heads : zlength hs = N_FAST_BUCKETS + 1;
  lo_len : zlength C = N_FAST_BUCKETS + 1;
  lo_chain i hd l : hs .@ i = Some hd -> C .@ i = Some l -> chain m hd l;
  lo_class i l p : C .@ i = Some l -> p ∈ l -> exists n, B !! p = Some n /\ class n = i;
  lo_nodup i l : C .@ i = Some l -> NoDup l }.

Record blocks_ok (m : mem) (start current end_ : Z) (B : gmap Z Z) : Prop := {
  bo_block p n : B !! p = Some n ->
    p mod 16 = 0 /\ start + 16 <= p /\ 1 <= n /\ 16 + 16 * n < 2 ^ 32 /\
    p + 16 * n <= current /\ p + 16 * n <= end_;
  bo_header p n : B !! p = Some n -> block_size m (p - 16) = 16 + 16 * n;
  bo_disjoint p n q k : B !! p = Some n -> B !! q = Some k -> p < q -> p + 16 * n + 16 <= q }.

Definition size_of (B : gmap Z Z) (p : Z) : Z := 16 * default 0 (B !! p).
Definition free_size (B : gmap Z Z) (C : list (list Z)) : Z := zsum (zsum (size_of B)) C.

Record kheap_ok (h : kheap) (B : gmap Z Z) (C : list (list Z)) : Prop := {
  ok_region : 0 < g_heap_current h /\ g_heap_current h <= g_heap_end h + 15 /\ g_heap_end h < 2 ^ 62;
  ok_unpinned : g_heap_alloc_start h = 0 -> B = ∅ /\ g_heap_current h <= g_heap_end h;
  ok_pinned : g_heap_alloc_start h <> 0 ->
    0 < g_heap_alloc_start h <= g_heap_current h /\
    g_heap_alloc_start h mod 16 = 0 /\ g_heap_current h mod 16 = 0;
  ok_blocks : blocks_ok (kh_mem h) (g_heap_alloc_start h) (g_heap_current h) (g_heap_end h) B;
  ok_lists : lists_ok (kh_mem h) (heads h) B C;
  ok_buckets : zlength (g_free_buckets h) = N_FAST_BUCKETS;
  ok_bytes : g_free_bytes h = free_size B C }.

(** The blocks in use. *)
Definition in_use (B : gmap Z Z) (C : list (list Z)) : gset Z := dom B ∖ list_to_set (concat C).

(** ** Alignment and sizes *)

Lemma heap_align_up_16 v : 0 <= v < 2 ^ 63 -> heap_align_up v KHEAP_BLOCK_ALIGN = (v + 15) / 16 * 16.
Proof.
  intros Hv. unfold heap_align_up, KHEAP_BLOCK_ALIGN. rewrite u64_id by lia.
  change (16 - 1) with (2 ^ 4 - 1). rewrite land_lnot_ones by lia. f_equal. f_equal. lia.
Qed.

Lemma heap_align_up_fixed v : 0 <= v < 2 ^ 63 -> v mod 16 = 0 -> heap_align_up v KHEAP_BLOCK_ALIGN = v.
Proof. intros Hv Ha. rewrite heap_align_up_16 by done. zlia. Qed.

(** A request of at most 4 GiB less two units. *)
Definition fits (size : Z) : Prop := 0 < size <= 2 ^ 32 - 32.

Lemma blocks_for_size_spec size : fits size ->
  let n := blocks_for_size size in
  1 <= n /\ size <= 16 * n /\ 16 * n < size + 16 /\ 16 + 16 * n < 2 ^ 32.
Proof.
  unfold fits. intros Hs. unfold blocks_for_size. rewrite heap_align_up_16 by lia.
  unfold KHEAP_MIN_USER, KHEAP_BLOCK_ALIGN. destruct (Z.ltb_spec ((size + 15) / 16 * 16) 16); [zlia|].
  rewrite Z.div_mul by lia. rewrite u32_id; zlia.
Qed.

Lemma class_range n : 1 <= n -> 0 <= class n <= N_FAST_BUCKETS.
Proof. unfold class, N_FAST_BUCKETS. case_if; lia. Qed.

(** ** Chains *)

Lemma write_eq m a v : write m a v a = v.
Proof. unfold write. by rewrite Z.eqb_refl. Qed.

Lemma write_ne m a v x : x <> a -> write m a v x = m x.
Proof. unfold write. intros. by destruct (Z.eqb_spec x a). Qed.

Lemma chain_frame m m' hd l : (forall p, p ∈ l -> m' p = m p) -> chain m hd l -> chain m' hd l.
Proof.
  revert hd. induction l as [|p l IH]; intros hd Hm; simpl; [done|].
  intros (-> & Hp & Hc). split; [done|]. split; [done|].
  rewrite Hm by set_solver. apply IH; [set_solver|done].
Qed.

Lemma chain_null m hd l : chain m hd l -> hd = 0 <-> l = [].
Proof. destruct l; simpl; naive_solver. Qed.

Lemma chain_write m p v hd l : p ∉ l -> chain m hd l -> chain (write m p v) hd l.
Proof. intros Hp. apply chain_frame. intros q Hq. apply write_ne. set_solver. Qed.

(** Unlinking the node behind [q]. *)
Lemma chain_unlink m hd l1 q p l2 :
  NoDup (l1 ++ q :: p :: l2) -> chain m hd (l1 ++ q :: p :: l2) ->
  chain (write m q (m p)) hd (l1 ++ q :: l2).
Proof.
  revert hd. induction l1 as [|x l1 IH]; intros hd; simpl.
  - rewrite !NoDup_cons. intros (Hq & Hp & _) (-> & Hq0 & Hm & Hp0 & Hc).
    split; [done|]. split; [done|]. rewrite write_eq.
    apply chain_write; [set_solver|done].
  - rewrite NoDup_cons. intros (Hx & Hn) (-> & Hx0 & Hc). split; [done|]. split; [done|].
    rewrite write_ne by set_solver. by apply IH.
Qed.

(** ** Free lists *)

Lemma lists_ok_frame m m' hs B B' C :
  lists_ok m hs B C ->
  (forall p, is_free C p -> m' p = m p) -> (forall p, is_free C p -> B' !! p = B !! p) ->
  lists_ok m' hs B' C.
Proof.
  intros [] Hm HB. split; try done.
  - intros i hd l Hh Hl. eapply chain_frame; [|by eapply lo_chain0]. intros p Hp. apply Hm. by exists i, l.
  - intros i l p Hl Hp. rewrite HB by (by exists i, l). by eapply lo_class0.
Qed.

Lemma lists_free_block m hs B C p : lists_ok m hs B C -> is_free C p -> exists n, B !! p = Some n.
Proof. intros Ho (i & l & Hl & Hp). destruct (lo_class _ _ _ _ Ho i l p Hl Hp) as (n & ? & _). eauto. Qed.

Lemma is_free_set C i l' p :
  is_free (set C i l') p -> p ∈ l' \/ is_free C p.
Proof.
  intros (j & l & Hl & Hp). destruct (Z.eq_dec i j) as [->|Hij].
  - pose proof (get_Some_range _ _ _ Hl) as Hr. rewrite zlength_set in Hr.
    rewrite get_set_eq in Hl by done. left. congruence.
  - rewrite get_set_ne in Hl by done. right. by exists j, l.
Qed.

(** Replacing the list of one class by nodes of that class. *)
Lemma lists_ok_set m m' hs B B' C i hd l :
  lists_ok m hs B C -> 0 <= i <= N_FAST_BUCKETS ->
  (forall j q, j <> i -> forall k, C .@ j = Some k -> q ∈ k -> m' q = m q) ->
  (forall j q, j <> i -> forall k, C .@ j = Some k -> q ∈ k -> B' !! q = B !! q) ->
  chain m' hd l -> NoDup l ->
  (forall q, q ∈ l -> exists n, B' !! q = Some n /\ class n = i) ->
  lists_ok m' (set hs i hd) B' (set C i l).
Proof.
  intros [] Hi Hm HB Hc Hn Hl. split; rewrite ?zlength_set; try done.
  - intros j hd' k. destruct (Z.eq_dec i j) as [->|Hij].
    + rewrite !get_set_eq by lia. by intros [= <-] [= <-].
    + rewrite !get_set_ne by done. intros Hh Hk.
      eapply chain_frame; [|by eapply lo_chain0]. intros q Hq. by eapply (Hm j).
  - intros j k q. destruct (Z.eq_dec i j) as [->|Hij].
    + rewrite get_set_eq by lia. intros [= <-]. apply Hl.
    + rewrite get_set_ne by done. intros Hk Hq. rewrite (HB j q) with (k := k) by done. by eapply lo_class0.
  - intros j k. destruct (Z.eq_dec i j) as [->|Hij].
    + rewrite get_set_eq by lia. by intros [= <-].
    + rewrite get_set_ne by done. apply lo_nodup0.
Qed.

(** Adding a block to its free list, and taking one out of it. *)
Lemma lists_ok_push m hs B C p n hd l :
  lists_ok m hs B C -> B !! p = Some n -> 1 <= n -> p <> 0 -> ~ is_free C p ->
  hs .@ (class n) = Some hd -> C .@ (class n) = Some l ->
  lists_ok (write m p hd) (set hs (class n) p) B (set C (class n) (p :: l)).
Proof.
  intros Ho Hp Hn Hp0 Hf Hhd Hl.
  assert (p ∉ l) as Hpl by (intros ?; apply Hf; by exists (class n), l).
  apply (lists_ok_set m _ _ B); [done|by apply class_range| | | | |]; try done.
  - intros j q _ k Hk Hq. apply write_ne. intros ->. apply Hf. by exists j, k.
  - simpl. rewrite write_eq. split; [done|]. split; [done|].
    apply chain_write; [done|]. by eapply (lo_chain _ _ _ _ Ho).
  - constructor; [done|]. by eapply (lo_nodup _ _ _ _ Ho).
  - intros q [->|Hq]%elem_of_cons; [eauto|]. by eapply (lo_class _ _ _ _ Ho).
Qed.

Lemma lists_ok_pop m hs B C p n l :
  lists_ok m hs B C -> C .@ (class n) = Some (p :: l) -> 1 <= n ->
  lists_ok m (set hs (class n) (m p)) B (set C (class n) l).
Proof.
  intros Ho Hl Hn.
  destruct (get_Some hs (class n)) as (hd & Hhd).
  { rewrite (lo_heads _ _ _ _ Ho). pose proof (class_range n Hn). lia. }
  pose proof (lo_chain _ _ _ _ Ho _ _ _ Hhd Hl) as (-> & Hp0 & Hc).
  pose proof (lo_nodup _ _ _ _ Ho _ _ Hl) as [Hpl Hnd]%NoDup_cons.
  apply (lists_ok_set m _ _ B); try done; [by apply class_range|].
  intros q Hq. eapply (lo_class _ _ _ _ Ho); [exact Hl|set_solver].
Qed.

(** Unlinking from the overflow list, the cell that points to the block being
    either the head of the list or the link of the block before it. *)
Definition unlinked (m : mem) (hs : list Z) (prev : option Z) (p : Z) : mem * list Z :=
  match prev with
  | None => (m, set hs N_FAST_BUCKETS (m p))
  | Some q => (write m q (m p), hs)
  end.

Lemma set_same {A} (l : list A) i x : l .@ i = Some x -> set l i x = l.
Proof. unfold get, set. case_if; [done|]. apply list_insert_id. Qed.

Lemma lists_ok_unlink m hs B C l1 p l2 :
  lists_ok m hs B C -> C .@ N_FAST_BUCKETS = Some (l1 ++ p :: l2) ->
  let '(m', hs') := unlinked m hs (last l1) p in
  lists_ok m' hs' B (set C N_FAST_BUCKETS (l1 ++ l2)).
Proof.
  intros Ho Hl.
  destruct (get_Some hs N_FAST_BUCKETS) as (hd & Hhd).
  { rewrite (lo_heads _ _ _ _ Ho). unfold N_FAST_BUCKETS. lia. }
  pose proof (lo_chain _ _ _ _ Ho _ _ _ Hhd Hl) as Hc.
  pose proof (lo_nodup _ _ _ _ Ho _ _ Hl) as Hnd.
  assert (forall q, q ∈ l1 ++ l2 -> exists n, B !! q = Some n /\ class n = N_FAST_BUCKETS) as Hcl.
  { intros q Hq. eapply (lo_class _ _ _ _ Ho); [exact Hl|set_solver]. }
  assert (NoDup (l1 ++ l2)) as Hnd'.
  { apply NoDup_app in Hnd as (? & Hd & [_ ?]%NoDup_cons). apply NoDup_app. set_solver. }
  destruct (last l1) as [q|] eqn:Hq; simpl.
  - apply last_Some in Hq as (l0 & ->). rewrite <- app_assoc in Hc, Hnd. simpl in Hc, Hnd.
    rewrite <- (set_same hs N_FAST_BUCKETS hd) by done.
    apply (lists_ok_set m _ _ B); try done.
    + intros j x Hj k Hk Hx. apply write_ne. intros ->.
      assert (q ∈ (l0 ++ [q]) ++ p :: l2) as Hin by set_solver.
      destruct (lo_class _ _ _ _ Ho _ _ _ Hl Hin) as (n & Hn & Hc1).
      destruct (lo_class _ _ _ _ Ho _ _ _ Hk Hx) as (n' & Hn' & Hc2). congruence.
    + rewrite <- app_assoc. simpl. by apply chain_unlink.
  - apply last_None in Hq as ->. simpl in *. destruct Hc as (_ & _ & Hc).
    by apply (lists_ok_set m _ _ B).
Qed.

(** ** Packing: blocks and their headers fit between the start and the bump pointer *)

Lemma blocks_packed m start current end_ B l :
  blocks_ok m start current end_ B -> NoDup l -> start <= current ->
  (forall p, p ∈ l -> exists n, B !! p = Some n) ->
  zsum (fun p => 16 + size_of B p) l <= current - start.
Proof.
  intros Hb Hn Hsc Hl.
  assert (forall lo l, StronglySorted Z.le l -> NoDup l -> lo <= current ->
            (forall p, p ∈ l -> exists n, B !! p = Some n /\ lo + 16 <= p) ->
            zsum (fun p => 16 + size_of B p) l <= current - lo) as Hsorted.
  { clear l Hn Hl. intros lo l Hs. revert lo.
    induction Hs as [|p l Hs IH Hp]; intros lo Hn Hlo Hl; simpl; [lia|].
    apply NoDup_cons in Hn as [Hpl Hn].
    destruct (Hl p) as (n & Hpn & Hlop); [set_solver|].
    pose proof (bo_block _ _ _ _ _ Hb p n Hpn) as (_ & _ & ? & _ & ? & _).
    enough (zsum (fun p => 16 + size_of B p) l <= current - (p + 16 * n)).
    { unfold size_of at 1. rewrite Hpn. simpl. lia. }
    apply IH; [done|lia|]. intros q Hq. destruct (Hl q) as (k & Hqk & _); [set_solver|].
    exists k. split; [done|]. rewrite Forall_forall in Hp. pose proof (Hp q Hq).
    assert (p <> q) by (intros ->; done). eapply (bo_disjoint _ _ _ _ _ Hb p n q k); (done || lia). }
  rewrite <- (zsum_perm _ _ _ (merge_sort_Permutation Z.le l)).
  apply Hsorted; [apply StronglySorted_merge_sort; apply _|by rewrite merge_sort_Permutation|done|].
  intros p Hp. rewrite merge_sort_Permutation in Hp. destruct (Hl p Hp) as (n & Hpn). exists n. split; [done|].
  by pose proof (bo_block _ _ _ _ _ Hb p n Hpn) as (_ & ? & _).
Qed.

Lemma lists_NoDup m hs B C : lists_ok m hs B C -> NoDup (concat C).
Proof.
  intros Ho. apply NoDup_concat_get; [apply (lo_nodup _ _ _ _ Ho)|].
  intros i j l k x Hl Hk Hx Hx'.
  destruct (lo_class _ _ _ _ Ho _ _ _ Hl Hx) as (n & Hn & <-).
  destruct (lo_class _ _ _ _ Ho _ _ _ Hk Hx') as (n' & Hn' & <-). congruence.
Qed.

Lemma elem_of_concat_get (C : list (list Z)) p : p ∈ concat C <-> is_free C p.
Proof. apply elem_of_concat. Qed.

(** ** Facts about a well-formed heap *)

Section wf.
Context (h : kheap) (B : gmap Z Z) (C : list (list Z)) (Hok : kheap_ok h B C).

Lemma ok_started p n : B !! p = Some n ->
  0 < g_heap_alloc_start h <= g_heap_current h /\ g_heap_alloc_start h mod 16 = 0 /\ g_heap_current h mod 16 = 0.
Proof.
  intros Hp. apply (ok_pinned _ _ _ Hok). intros H0.
  destruct (ok_unpinned _ _ _ Hok H0) as [-> _]. by rewrite lookup_empty in Hp.
Qed.

Lemma block_facts p n : B !! p = Some n ->
  p mod 16 = 0 /\ g_heap_alloc_start h + 16 <= p /\ 1 <= n /\ 16 + 16 * n < 2 ^ 32 /\
  p + 16 * n <= g_heap_current h /\ p + 16 * n <= g_heap_end h /\
  block_size (kh_mem h) (p - 16) = 16 + 16 * n /\ 0 < g_heap_alloc_start h /\
  g_heap_current h <= g_heap_end h + 15 /\ g_heap_end h < 2 ^ 62 /\ g_heap_current h mod 16 = 0.
Proof.
  intros Hp. pose proof (bo_block _ _ _ _ _ (ok_blocks _ _ _ Hok) p n Hp) as (?&?&?&?&?&?).
  pose proof (bo_header _ _ _ _ _ (ok_blocks _ _ _ Hok) p n Hp).
  pose proof (ok_started p n Hp) as (?&?&?). pose proof (ok_region _ _ _ Hok) as (?&?&?).
  repeat (split; [done || lia|]). done.
Qed.

Lemma blocks_disjoint p n q k : B !! p = Some n -> B !! q = Some k -> p <> q ->
  p + 16 * n + 16 <= q \/ q + 16 * k + 16 <= p.
Proof.
  intros Hp Hq Hne. destruct (Z_lt_ge_dec p q).
  - left. by eapply (bo_disjoint _ _ _ _ _ (ok_blocks _ _ _ Hok)).
  - right. eapply (bo_disjoint _ _ _ _ _ (ok_blocks _ _ _ Hok)); (done || lia).
Qed.

Lemma heads_class n : 1 <= n -> exists hd l,
  heads h .@ (class n) = Some hd /\ C .@ (class n) = Some l /\ chain (kh_mem h) hd l.
Proof.
  intros Hn. pose proof (class_range n Hn). pose proof (ok_lists _ _ _ Hok) as Ho.
  destruct (get_Some (heads h) (class n)) as (hd & Hhd); [rewrite (lo_heads _ _ _ _ Ho); lia|].
  destruct (get_Some C (class n)) as (l & Hl); [rewrite (lo_len _ _ _ _ Ho); lia|].
  exists hd, l. split; [done|]. split; [done|]. by eapply (lo_chain _ _ _ _ Ho).
Qed.

(** The free bytes, with one more block in use, are below the heap's size. *)
Lemma free_bytes_bound p n : B !! p = Some n -> ~ is_free C p ->
  0 <= g_free_bytes h /\ g_free_bytes h + 16 * n < 2 ^ 63.
Proof.
  intros Hp Hf. pose proof (ok_lists _ _ _ Hok) as Ho. pose proof (block_facts p n Hp).
  assert (forall q, is_free C q -> exists k, B !! q = Some k) as HB
    by (intros q; by apply (lists_free_block _ _ _ _ q Ho)).
  pose proof (blocks_packed _ _ _ _ B (p :: concat C) (ok_blocks _ _ _ Hok)) as Hpk. simpl in Hpk.
  rewrite (ok_bytes _ _ _ Hok). unfold free_size. rewrite <- zsum_concat.
  assert (zsum (size_of B) (concat C) <= zsum (fun p => 16 + size_of B p) (concat C)) as Hle.
  { generalize (concat C). clear. induction l; simpl; lia. }
  assert (0 <= zsum (size_of B) (concat C)).
  { apply zsum_nonneg. intros q Hq%elem_of_concat_get. destruct (HB q Hq) as (k & Hk).
    unfold size_of. rewrite Hk. simpl. pose proof (block_facts q k Hk). lia. }
  unfold size_of at 1 in Hpk. rewrite Hp in Hpk. simpl in Hpk.
  enough (16 + 16 * n + zsum (fun p => 16 + size_of B p) (concat C) <= g_heap_current h - g_heap_alloc_start h) by lia.
  apply Hpk.
  - constructor; [by rewrite elem_of_concat_get|by eapply lists_NoDup].
  - lia.
  - intros q [->|Hq%elem_of_concat_get]%elem_of_cons; eauto.
Qed.

Lemma free_size_nonneg B' C' :
  (forall q, is_free C' q -> exists k, B' !! q = Some k /\ 0 <= k) -> 0 <= free_size B' C'.
Proof.
  intros HB. unfold free_size. rewrite <- zsum_concat. apply zsum_nonneg.
  intros q Hq%elem_of_concat_get. destruct (HB q Hq) as (k & Hk & ?). unfold size_of. rewrite Hk. simpl. lia.
Qed.

Lemma free_bytes_range : 0 <= g_free_bytes h < 2 ^ 63.
Proof.
  pose proof (ok_lists _ _ _ Hok) as Ho. rewrite (ok_bytes _ _ _ Hok).
  destruct (concat C) as [|q l] eqn:Hc.
  { unfold free_size. rewrite <- zsum_concat, Hc. simpl. lia. }
  assert (forall q, is_free C q -> exists k, B !! q = Some k) as HB
    by (intros q'; by apply (lists_free_block _ _ _ _ q' Ho)).
  split.
  - apply free_size_nonneg. intros q' Hq'. destruct (HB q' Hq') as (k & Hk). exists k.
    split; [done|]. pose proof (block_facts q' k Hk). lia.
  - assert (is_free C q) as Hq by (apply elem_of_concat_get; rewrite Hc; set_solver).
    destruct (HB q Hq) as (k & Hk). pose proof (block_facts q k Hk).
    pose proof (blocks_packed _ _ _ _ B (concat C) (ok_blocks _ _ _ Hok)) as Hpk.
    unfold free_size. rewrite <- zsum_concat.
    assert (zsum (size_of B) (concat C) <= zsum (fun p => 16 + size_of B p) (concat C)).
    { generalize (concat C). clear. induction l; simpl; lia. }
    enough (zsum (fun p => 16 + size_of B p) (concat C) <= g_heap_current h - g_heap_alloc_start h) by lia.
    apply Hpk; [by eapply lists_NoDup|lia|]. intros q' Hq'%elem_of_concat_get. by apply HB.
Qed.

(** Memory changed only inside a block in use is still well-formed. *)
Lemma user_write_ok p n m' :
  B !! p = Some n -> ~ is_free C p ->
  (forall a, m' a <> kh_mem h a -> p <= a < p + 16 * n) ->
  kheap_ok (with_mem h m') B C.
Proof.
  intros Hp Hf Hm.
  assert (forall a, a < p \/ p + 16 * n <= a -> m' a = kh_mem h a) as Hm'.
  { intros a Ha. destruct (Z.eq_dec (m' a) (kh_mem h a)) as [|Hne]; [done|]. specialize (Hm a Hne). lia. }
  pose proof (block_facts p n Hp).
  assert (forall q k, B !! q = Some k -> m' (q - 16) = kh_mem h (q - 16)) as Hh.
  { intros q k Hq. apply Hm'. destruct (Z.eq_dec q p) as [->|Hne]; [lia|].
    pose proof (blocks_disjoint p n q k Hp Hq). pose proof (block_facts q k Hq). lia. }
  destruct Hok. split; simpl; try done.
  - destruct ok_blocks0. split; [done| |done]. intros q k Hq. unfold block_size.
    rewrite (Hh q k) by done. by apply bo_header0.
  - eapply lists_ok_frame; [done| |done]. intros q Hq. apply Hm'.
    destruct (lists_free_block _ _ _ _ q ok_lists0 Hq) as (k & Hk).
    assert (q <> p) as Hne by (intros ->; done).
    pose proof (blocks_disjoint p n q k Hp Hk). pose proof (block_facts q k Hk). lia.
Qed.

End wf.

(** ** The operations on free lists *)

Lemma free_size_set B C i l l' : C .@ i = Some l ->
  free_size B (set C i l') = free_size B C - zsum (size_of B) l + zsum (size_of B) l'.
Proof. intros Hl. unfold free_size. by rewrite (zsum_set _ C i l l'). Qed.

Lemma size_of_eq B p n : B !! p = Some n -> size_of B p = 16 * n.
Proof. unfold size_of. by intros ->. Qed.

(** [bucket_push] and [bucket_pop_fast] act on the list of heads. *)
Lemma bucket_push_eq h p n : zlength (g_free_buckets h) = N_FAST_BUCKETS -> 1 <= n ->
  exists buckets overflow hd,
    heads h .@ (class n) = Some hd /\ buckets ++ [overflow] = set (heads h) (class n) p /\
    zlength buckets = N_FAST_BUCKETS /\
    bucket_push h p n = with_lists h (write (kh_mem h) p hd)
      (u64 (g_free_bytes h + u32 (n * KHEAP_BLOCK_ALIGN))) buckets overflow.
Proof.
  intros Hl Hn. unfold bucket_push, heads, class, N_FAST_BUCKETS in *.
  destruct (Z.ltb_spec 0 n); [|lia]. destruct (Z.leb_spec n 64); simpl.
  - destruct (get_Some (g_free_buckets h) (n - 1)) as (hd & Hhd); [lia|].
    eexists _, _, hd. unfold bucket. rewrite get_app_l by lia. rewrite Hhd. split; [done|].
    split; [|split; [by rewrite zlength_set|done]].
    unfold set, zlength in *. destruct (Z.ltb_spec (n - 1) 0); [lia|]. by rewrite insert_app_l by lia.
  - eexists _, _, _. rewrite get_app_r by lia. rewrite Hl. split; [done|]. split; [|split; done].
    unfold set, zlength in *. destruct (Z.ltb_spec 64 0); [lia|]. rewrite insert_app_r_alt by lia.
    by replace (Z.to_nat 64 - length (g_free_buckets h))%nat with 0%nat by lia.
Qed.

Lemma bucket_push_ok h B C p n l :
  kheap_ok h B C -> B !! p = Some n -> ~ is_free C p -> C .@ (class n) = Some l ->
  kheap_ok (bucket_push h p n) B (set C (class n) (p :: l)) /\
  forall a, a <> p -> kh_mem (bucket_push h p n) a = kh_mem h a.
Proof.
  intros Hok Hp Hf Hl. pose proof (block_facts h B C Hok p n Hp) as (_&?&?&?&_&_&_&?&_).
  destruct (bucket_push_eq h p n (ok_buckets _ _ _ Hok)) as (bs & ov & hd & Hhd & Hset & Hlen & ->); [done|].
  split; [|simpl; intros; by apply write_ne].
  pose proof (free_bytes_bound h B C Hok p n Hp Hf) as Hbytes.
  assert (blocks_ok (write (kh_mem h) p hd) (g_heap_alloc_start h) (g_heap_current h) (g_heap_end h) B) as Hb.
  { apply (ok_blocks _ B C (user_write_ok h B C Hok p n (write (kh_mem h) p hd) Hp Hf ltac:(
      intros a Ha; destruct (Z.eq_dec a p) as [->|]; [lia|]; by rewrite write_ne in Ha))). }
  destruct Hok. split; simpl; try done.
  - unfold heads. simpl. rewrite Hset. apply lists_ok_push; (done || lia).
  - rewrite (free_size_set B C _ l) by done. simpl. rewrite (size_of_eq B p n) by done.
    unfold KHEAP_BLOCK_ALIGN. rewrite u32_id by lia. rewrite u64_id by lia. lia.
Qed.

Lemma bucket_pop_fast_ok h B C n p h' :
  kheap_ok h B C -> 1 <= n -> 16 + 16 * n < 2 ^ 32 -> bucket_pop_fast h n = (p, h') ->
  (p = 0 /\ h' = h) \/
  (exists l, n <= N_FAST_BUCKETS /\ C .@ (class n) = Some (p :: l) /\ B !! p = Some n /\
     kh_mem h' = kh_mem h /\ kheap_ok h' B (set C (class n) l)).
Proof.
  intros Hok Hn Hn' E. unfold bucket_pop_fast in E.
  destruct (heads_class h B C Hok n Hn) as (hd & l & Hhd & Hl & Hc).
  case_if_in E; [left; by injection E|]. pose proof (ok_buckets _ _ _ Hok) as Hlen.
  assert (class n = n - 1) as Hcl by (unfold class; case_if; [done|lia]).
  assert (bucket h (n - 1) = hd) as Hb.
  { unfold heads in Hhd. unfold N_FAST_BUCKETS in *. rewrite get_app_l in Hhd by lia.
    unfold bucket. by rewrite <- Hcl, Hhd. }
  rewrite Hb in E. case_if_in E; [left; by injection E|]. injection E as <- <-. right.
  destruct l as [|q l]; simpl in Hc; [done|]. destruct Hc as (-> & Hq0 & Hc).
  destruct (lo_class _ _ _ _ (ok_lists _ _ _ Hok) _ _ q Hl) as (k & Hk & Hck); [set_solver|].
  pose proof (block_facts h B C Hok q k Hk).
  assert (k = n) as -> by (unfold class, N_FAST_BUCKETS in *; do 2 case_if_in Hck; lia).
  exists l. split; [lia|]. split; [done|]. split; [done|]. split; [done|].
  pose proof (free_bytes_range h B C Hok).
  pose proof (lists_ok_pop _ _ _ _ q n l (ok_lists _ _ _ Hok) Hl Hn) as Ho.
  assert (0 <= free_size B (set C (class n) l)) as Hpos.
  { apply free_size_nonneg. intros x Hx. destruct (lists_free_block _ _ _ _ x Ho Hx) as (k & Hkx).
    exists k. split; [done|]. pose proof (block_facts h B C Hok x k Hkx). lia. }
  rewrite (free_size_set B C _ (q :: l)) in Hpos by done. simpl in Hpos.
  rewrite (size_of_eq B q n) in Hpos by done. destruct Hok. split; simpl; try done.
  - unfold heads. simpl. rewrite Hcl in Ho |- *. unfold set, heads, zlength, N_FAST_BUCKETS in *.
    destruct (Z.ltb_spec (n - 1) 0); [lia|]. by rewrite insert_app_l in Ho by lia.
  - by rewrite zlength_set.
  - rewrite (free_size_set B C _ (q :: l)) by done. simpl. rewrite (size_of_eq B q n) by done.
    unfold KHEAP_BLOCK_ALIGN. rewrite u32_id by lia. rewrite u64_id by lia. lia.
Qed.

(** ** The best-fit search *)

Definition candidate_ok (B : gmap Z Z) (n : Z) (l : list Z) (c : candidate) : Prop :=
  exists l1 l2, l = l1 ++ best c :: l2 /\ best_prev c = last l1 /\
    B !! best c = Some (best_blocks c) /\ n <= best_blocks c.

Definition found_ok (B : gmap Z Z) (n : Z) (l : list Z) (found : option candidate) : Prop :=
  match found with None => True | Some c => candidate_ok B n l c end.

Lemma scan_overflow_spec h B C n l :
  kheap_ok h B C -> (forall p, p ∈ l -> exists k, B !! p = Some k) ->
  forall l2 l1 fuel cur found,
    l = l1 ++ l2 -> chain (kh_mem h) cur l2 -> (length l2 <= fuel)%nat -> found_ok B n l found ->
    exists r, scan_overflow fuel (kh_mem h) n (last l1) cur found = Ret r /\ found_ok B n l r.
Proof.
  intros Hok HB. induction l2 as [|p l2 IH]; intros l1 fuel cur found Hl Hc Hf Hfound; simpl in Hc.
  { subst cur. exists found. by destruct fuel. }
  destruct Hc as (-> & Hp0 & Hc). destruct fuel as [|fuel]; simpl in Hf; [lia|].
  destruct (HB p) as (k & Hk); [set_solver|]. pose proof (block_facts h B C Hok p k Hk) as (?&?&?&?&_&_&Hh&_).
  assert (u32 (block_size (kh_mem h) (p - KHEAP_HEADER_SIZE) - KHEAP_HEADER_SIZE) / KHEAP_BLOCK_ALIGN = k) as Hcur.
  { unfold KHEAP_HEADER_SIZE, KHEAP_BLOCK_ALIGN. rewrite Hh, u32_id by lia. zlia. }
  simpl. destruct (Z.eqb_spec p 0); [done|]. rewrite Hcur.
  assert (n <= k -> candidate_ok B n l (mk_candidate p (last l1) k)) as Hcand by (intros; by exists l1, l2).
  destruct (Z.eqb_spec k n); [eexists; split; [done|]; apply Hcand; lia|].
  replace (Some p) with (last (l1 ++ [p])) by (by rewrite last_snoc).
  apply IH; [by rewrite <- app_assoc|done|lia|].
  destruct (Z.ltb_spec n k); simpl; [|done].
  match goal with |- found_ok _ _ _ (if ?b then _ else _) => destruct b end; [apply Hcand; lia|done].
Qed.

Lemma overflow_list_short h B C l :
  kheap_ok h B C -> C .@ N_FAST_BUCKETS = Some l -> (length l <= scan_fuel h)%nat.
Proof.
  intros Hok Hl. pose proof (ok_lists _ _ _ Hok) as Ho. destruct l as [|p l']; [simpl; lia|].
  assert (forall q, q ∈ p :: l' -> exists k, B !! q = Some k) as HB.
  { intros q Hq. eapply (lists_free_block _ _ _ _ q Ho). by exists N_FAST_BUCKETS, (p :: l'). }
  destruct (HB p) as (k & Hk); [set_solver|]. pose proof (block_facts h B C Hok p k Hk).
  pose proof (blocks_packed _ _ _ _ B (p :: l') (ok_blocks _ _ _ Hok)) as Hpk.
  assert (zsum (fun p => 16 + size_of B p) (p :: l') >= 32 * zlength (p :: l')) as Hge.
  { clear -HB Hok. generalize dependent (p :: l'). intros l HB. induction l as [|q l IH]; simpl; [done|].
    rewrite zlength_cons. destruct (HB q) as (k & Hk); [set_solver|].
    pose proof (block_facts h B C Hok q k Hk). rewrite (size_of_eq B q k) by done.
    assert (zsum (fun p => 16 + size_of B p) l >= 32 * zlength l) by (apply IH; set_solver). lia. }
  specialize (Hpk (lo_nodup _ _ _ _ Ho _ _ Hl) ltac:(lia) HB).
  unfold scan_fuel, KHEAP_BLOCK_ALIGN, zlength in *. zlia.
Qed.

Lemma unlink_ok h B C c l1 l2 :
  kheap_ok h B C -> C .@ N_FAST_BUCKETS = Some (l1 ++ best c :: l2) ->
  best_prev c = last l1 -> B !! best c = Some (best_blocks c) ->
  kheap_ok (unlink h c) B (set C N_FAST_BUCKETS (l1 ++ l2)) /\
  (forall a, kh_mem (unlink h c) a <> kh_mem h a -> is_free C a).
Proof.
  intros Hok Hl Hprev Hb. pose proof (ok_lists _ _ _ Hok) as Ho.
  pose proof (lists_ok_unlink _ _ _ _ l1 (best c) l2 Ho Hl) as Hu. rewrite <- Hprev in Hu.
  pose proof (free_bytes_range h B C Hok) as Hr. pose proof (block_facts h B C Hok _ _ Hb).
  assert (g_free_bytes (unlink h c) = free_size B (set C N_FAST_BUCKETS (l1 ++ l2))) as Hbytes.
  { assert (0 <= free_size B (set C N_FAST_BUCKETS (l1 ++ l2))) as Hpos.
    { apply free_size_nonneg. intros x Hx. assert (is_free C x) as Hx'.
      { apply is_free_set in Hx as [Hx|Hx]; [|done]. exists N_FAST_BUCKETS, (l1 ++ best c :: l2). set_solver. }
      destruct (lists_free_block _ _ _ _ x Ho Hx') as (k & Hk). exists k. split; [done|].
      pose proof (block_facts h B C Hok x k Hk). lia. }
    rewrite (free_size_set B C _ _ _ Hl) in Hpos |- *. rewrite !zsum_app in *. simpl in *.
    rewrite (size_of_eq B _ _ Hb) in *. rewrite (ok_bytes _ _ _ Hok) in Hr.
    assert (g_free_bytes (unlink h c) = u64 (g_free_bytes h - u32 (best_blocks c * KHEAP_BLOCK_ALIGN))) as ->
      by (unfold unlink; by destruct (best_prev c)).
    rewrite (ok_bytes _ _ _ Hok). unfold KHEAP_BLOCK_ALIGN. rewrite u32_id by lia. rewrite u64_id by lia. lia. }
  assert (forall q, best_prev c = Some q -> is_free C q /\ exists k, B !! q = Some k) as Hpf.
  { intros q Hq. assert (is_free C q) as Hf.
    { exists N_FAST_BUCKETS, (l1 ++ best c :: l2). split; [done|]. rewrite Hprev in Hq.
      apply last_Some in Hq as (l0 & ->). set_solver. }
    split; [done|]. by eapply lists_free_block. }
  unfold unlink in Hbytes |- *. destruct (best_prev c) as [q|]; simpl in *.
  - destruct (Hpf q eq_refl) as (Hqf & k & Hk). split.
    + destruct Hok. split; simpl; try done.
      destruct ok_blocks0. split; [done| |done]. intros x kx Hx. unfold block_size, next_ptr.
      rewrite write_ne; [by apply bo_header0|]. intros <-.
      destruct (Z.eq_dec x (x - 16)); [lia|].
      pose proof (bo_disjoint0 (x - 16) k x kx Hk Hx). pose proof (bo_block0 _ _ Hk). lia.
    + intros a Ha. unfold write, next_ptr in Ha. destruct (Z.eqb_spec a q) as [Heq|]; [by rewrite Heq|done].
  - split; [|done]. destruct Hok. split; simpl; try done.
    unfold heads in Hu |- *. simpl. revert Hu. unfold set, zlength, N_FAST_BUCKETS in *.
    destruct (Z.ltb_spec 64 0); [lia|]. rewrite insert_app_r_alt by lia.
    by replace (Z.to_nat 64 - length (g_free_buckets h))%nat with 0%nat by lia.
Qed.

(** ** Splitting a block *)

Lemma block_size_write_header m hdr size a : 0 <= size < 2 ^ 32 ->
  block_size (write_header m hdr size) a =
    if a =? hdr then size else if a =? hdr + 8 then 0 else block_size m a.
Proof.
  intros Hs. unfold block_size, write_header, write.
  destruct (Z.eqb_spec a hdr) as [->|].
  - destruct (Z.eqb_spec hdr (hdr + 8)); [lia|]. rewrite (u32_id size) by lia. apply u32_id. lia.
  - by destruct (Z.eqb_spec a (hdr + 8)).
Qed.

Lemma block_size_set m hdr size a : 0 <= size < 2 ^ 32 ->
  block_size (set_block_size m hdr size) a = if a =? hdr then size else block_size m a.
Proof.
  intros Hs. unfold block_size, set_block_size, write. destruct (Z.eqb_spec a hdr) as [->|]; [|done].
  rewrite (u32_id size) by lia. unfold u32. rewrite Z.add_comm, Z.mod_add by lia. by apply Z.mod_small.
Qed.

(** The memory after both headers are written. *)
Definition split_mem (m : mem) (b n t : Z) : mem :=
  set_block_size (write_header m (b + 16 * n) (16 + 16 * t)) (b - 16) (16 + 16 * n).

Lemma split_mem_frame m b n t a :
  a <> b - 16 -> a <> b + 16 * n -> a <> b + 16 * n + 8 -> split_mem m b n t a = m a.
Proof. intros. unfold split_mem, set_block_size, write_header. rewrite !write_ne by done. done. Qed.

Lemma split_ok h B C b k n :
  kheap_ok h B C -> B !! b = Some k -> ~ is_free C b -> 1 <= n -> n + 2 <= k ->
  let t := k - n - 1 in let tail := b + 16 * n + 16 in
  B !! tail = None /\
  kheap_ok (with_mem h (split_mem (kh_mem h) b n t)) (<[tail := t]> (<[b := n]> B)) C.
Proof.
  intros Hok Hb Hf Hn Hk t tail. pose proof (block_facts h B C Hok b k Hb) as Hbf.
  assert (forall q kq, B !! q = Some kq -> q <> b -> q + 16 * kq + 16 <= b \/ b + 16 * k + 16 <= q) as Hd.
  { intros q kq Hq Hne. pose proof (blocks_disjoint h B C Hok q kq b k Hq Hb). lia. }
  assert (B !! tail = None) as Htail.
  { destruct (B !! tail) as [kt|] eqn:E; [|done]. pose proof (block_facts h B C Hok _ _ E).
    pose proof (Hd tail kt E). lia. }
  split; [done|].
  assert (forall q, is_free C q -> q <> b /\ q <> tail /\ exists kq, B !! q = Some kq) as Hq.
  { intros q Hq. destruct (lists_free_block _ _ _ _ q (ok_lists _ _ _ Hok) Hq) as (kq & Hkq).
    split; [congruence|]. split; [|eauto]. intros ->. congruence. }
  assert (forall q kq, (<[tail:=t]> (<[b:=n]> B)) !! q = Some kq ->
            (q = tail /\ kq = t) \/ (q = b /\ kq = n) \/ (q <> b /\ q <> tail /\ B !! q = Some kq)) as Hcase.
  { intros q kq. rewrite !lookup_insert_Some. naive_solver. }
  assert (free_size (<[tail:=t]> (<[b:=n]> B)) C = free_size B C) as Hfs.
  { unfold free_size. rewrite <- !zsum_concat. apply zsum_ext. intros q Hin%elem_of_concat_get.
    destruct (Hq q Hin) as (? & ? & _). unfold size_of. by rewrite !lookup_insert_ne by done. }
  pose proof Hok as Hok'. destruct Hok. split; simpl; try done.
  - intros H0. lia.
  - split.
    + intros q kq [(-> & ->)|[(-> & ->)|(Hqb & _ & Hqk)]]%Hcase; [unfold t, tail; zlia|lia|].
      by eapply bo_block.
    + intros q kq Hqk. unfold split_mem. rewrite block_size_set, block_size_write_header by lia.
      apply Hcase in Hqk as [(-> & ->)|[(-> & ->)|(Hqb & _ & Hqk)]].
      * destruct (Z.eqb_spec (tail - 16) (b - 16)); [lia|]. destruct (Z.eqb_spec (tail - 16) (b + 16 * n)); [done|lia].
      * by rewrite Z.eqb_refl.
      * pose proof (Hd q kq Hqk Hqb). pose proof (block_facts h B C Hok' _ _ Hqk).
        destruct (Z.eqb_spec (q - 16) (b - 16)); [lia|]. destruct (Z.eqb_spec (q - 16) (b + 16 * n)); [lia|].
        destruct (Z.eqb_spec (q - 16) (b + 16 * n + 8)); [lia|]. tauto.
    + intros q kq x kx Hqk Hxk Hlt.
      apply Hcase in Hqk as [(-> & ->)|[(-> & ->)|(Hqb & Hqt & Hqk)]];
        apply Hcase in Hxk as [(-> & ->)|[(-> & ->)|(Hxb & Hxt & Hxk)]]; try (unfold t, tail in *; lia).
      * pose proof (Hd x kx Hxk Hxb). pose proof (block_facts h B C Hok' _ _ Hxk). unfold t, tail in *. lia.
      * pose proof (Hd x kx Hxk Hxb). pose proof (block_facts h B C Hok' _ _ Hxk). lia.
      * pose proof (Hd q kq Hqk Hqb). unfold tail in *. lia.
      * pose proof (Hd q kq Hqk Hqb). lia.
      * by eapply (bo_disjoint _ _ _ _ _ ok_blocks0).
  - eapply lists_ok_frame; [done| |].
    + intros q Hqf. destruct (Hq q Hqf) as (? & ? & kq & Hkq). pose proof (Hd q kq Hkq ltac:(done)).
      pose proof (block_facts h B C Hok' _ _ Hkq). apply split_mem_frame; lia.
    + intros q Hqf. destruct (Hq q Hqf) as (? & ? & _). by rewrite !lookup_insert_ne by done.
  - congruence.
Qed.

(** ** What an allocation does *)

Definition used (B : gmap Z Z) (C : list (list Z)) (p k : Z) : Prop := B !! p = Some k /\ ~ is_free C p.

(** [p] is a fresh block of at least [n] units; the blocks in use before keep
    their size and contents. *)
Record alloc_effect (h : kheap) (B : gmap Z Z) (C : list (list Z)) (n p : Z)
    (h' : kheap) (B' : gmap Z Z) (C' : list (list Z)) : Prop := {
  ae_ok : kheap_ok h' B' C';
  ae_new : exists k, used B' C' p k /\ n <= k;
  ae_fresh k : ~ used B C p k;
  ae_kept q k : used B C q k ->
    used B' C' q k /\ forall a, q <= a < q + 16 * k -> kh_mem h' a = kh_mem h a;
  ae_only q k : used B' C' q k -> q = p \/ used B C q k }.

(** The free blocks after a block leaves its list or enters it. *)
Lemma free_removed m hs B C i l1 p l2 :
  lists_ok m hs B C -> C .@ i = Some (l1 ++ p :: l2) ->
  (forall q, is_free C q <-> q = p \/ is_free (set C i (l1 ++ l2)) q) /\
  ~ is_free (set C i (l1 ++ l2)) p.
Proof.
  intros Ho Hl. pose proof (get_Some_range _ _ _ Hl) as Hr.
  pose proof (lo_nodup _ _ _ _ Ho _ _ Hl) as Hnd.
  assert (p ∉ l1 ++ l2) as Hp.
  { rewrite <- Permutation_middle in Hnd. by apply NoDup_cons in Hnd as [? _]. }
  split.
  - intros q. split.
    + intros (j & k & Hj & Hq). destruct (Z.eq_dec i j) as [<-|Hne].
      * rewrite Hl in Hj. injection Hj as <-.
        destruct (Z.eq_dec q p) as [->|]; [by left|]. right. exists i, (l1 ++ l2).
        rewrite get_set_eq by done. set_solver.
      * right. exists j, k. by rewrite get_set_ne.
    + intros [->|[Hq|Hq]%is_free_set]; [| |done]; exists i, (l1 ++ p :: l2); set_solver.
  - intros (j & k & Hj & Hq). destruct (Z.eq_dec i j) as [<-|Hne].
    + rewrite get_set_eq in Hj by done. by injection Hj as <-.
    + rewrite get_set_ne in Hj by done.
      destruct (lo_class _ _ _ _ Ho _ _ _ Hj Hq) as (n & Hn & <-).
      destruct (lo_class _ _ _ _ Ho _ _ p Hl) as (n' & Hn' & Hc); [set_solver|]. congruence.
Qed.

Lemma free_pushed C i p l q : C .@ i = Some l ->
  is_free (set C i (p :: l)) q <-> q = p \/ is_free C q.
Proof.
  intros Hl. pose proof (get_Some_range _ _ _ Hl) as Hr. split.
  - intros [[->|Hq]%elem_of_cons|Hq]%is_free_set; [by left| |by right]. right. by exists i, l.
  - intros [->|(j & k & Hj & Hq)].
    + exists i, (p :: l). rewrite get_set_eq by done. set_solver.
    + destruct (Z.eq_dec i j) as [<-|Hne].
      * exists i, (p :: l). rewrite get_set_eq by done. set_solver.
      * exists j, k. by rewrite get_set_ne.
Qed.

(** Taking a free block into use without touching blocks in use. *)
Lemma alloc_effect_take h B C n p k h' C' :
  kheap_ok h B C -> kheap_ok h' B C' -> B !! p = Some k -> n <= k ->
  (forall q, is_free C q <-> q = p \/ is_free C' q) -> ~ is_free C' p ->
  (forall a, kh_mem h' a <> kh_mem h a -> is_free C a) ->
  alloc_effect h B C n p h' B C'.
Proof.
  intros Hok Hok' Hp Hn Hfree Hnf Hm. split; [done| | | |].
  - exists k. by repeat split.
  - intros k' [_ Hf]. apply Hf, Hfree. by left.
  - intros q kq [Hq Hf]. split; [split; [done|]|].
    + intros ?. apply Hf, Hfree. by right.
    + intros a Ha. destruct (Z.eq_dec (kh_mem h' a) (kh_mem h a)) as [|Hne]; [done|].
      specialize (Hm a Hne). destruct (lists_free_block _ _ _ _ a (ok_lists _ _ _ Hok) Hm) as (ka & Hka).
      assert (a <> q) by congruence. pose proof (blocks_disjoint h B C Hok a ka q kq Hka Hq).
      pose proof (block_facts h B C Hok a ka Hka). lia.
  - intros q kq [Hq Hf]. destruct (Z.eq_dec q p) as [->|]; [by left|]. right. split; [done|].
    intros [->|?]%Hfree; done.
Qed.

Lemma bucket_pop_fast_effect h B C n p h' :
  kheap_ok h B C -> 1 <= n -> 16 + 16 * n < 2 ^ 32 -> bucket_pop_fast h n = (p, h') -> p <> 0 ->
  exists B' C', alloc_effect h B C n p h' B' C'.
Proof.
  intros Hok Hn Hn' E Hp0.
  destruct (bucket_pop_fast_ok h B C n p h' Hok Hn Hn' E) as [[? _]|(l & _ & Hl & Hp & Hm & Hok')]; [done|].
  destruct (free_removed _ _ _ _ _ [] p l (ok_lists _ _ _ Hok) Hl) as [Hfree Hnf].
  exists B, (set C (class n) l). eapply alloc_effect_take; try done. intros a. by rewrite Hm.
Qed.

Lemma split_block_eq h c n k :
  best_blocks c = k -> 1 <= n -> n + 2 <= k -> 16 + 16 * k < 2 ^ 32 ->
  16 <= best c -> best c + 16 * k < 2 ^ 63 ->
  split_block h c n =
  bucket_push (with_mem h (split_mem (kh_mem h) (best c) n (k - n - 1))) (best c + 16 * n + 16) (k - n - 1).
Proof.
  intros Hk Hn Hnk Hb Hp Hend. unfold split_block, split_mem, KHEAP_HEADER_SIZE, KHEAP_BLOCK_ALIGN.
  rewrite Hk. rewrite (u32_id (k - n - 1)) by lia.
  rewrite (Z.mul_comm n 16), (Z.mul_comm (k - n - 1) 16).
  rewrite (u64_id (best c + 16 * n)) by lia. by rewrite u64_id by lia.
Qed.

Lemma bucket_pop_overflow_effect h B C n :
  kheap_ok h B C -> N_FAST_BUCKETS < n -> 16 + 16 * n < 2 ^ 32 ->
  exists p h', bucket_pop_overflow h n = Ret (p, h') /\
    ((p = 0 /\ h' = h) \/ (p <> 0 /\ exists B' C', alloc_effect h B C n p h' B' C')).
Proof.
  intros Hok Hn Hn'. unfold N_FAST_BUCKETS in Hn.
  destruct (heads_class h B C Hok 65) as (hd & l & Hhd & Hl & Hc); [lia|].
  change (class 65) with N_FAST_BUCKETS in Hhd, Hl.
  assert (hd = g_overflow_list h) as ->.
  { unfold heads in Hhd. rewrite get_app_r in Hhd by (rewrite (ok_buckets _ _ _ Hok); lia).
    rewrite (ok_buckets _ _ _ Hok), Z.sub_diag in Hhd. by injection Hhd. }
  assert (forall q, q ∈ l -> exists k, B !! q = Some k) as HB.
  { intros q Hq. eapply (lists_free_block _ _ _ _ q (ok_lists _ _ _ Hok)). by exists N_FAST_BUCKETS, l. }
  destruct (scan_overflow_spec h B C n l Hok HB l [] (scan_fuel h) (g_overflow_list h) None)
    as (r & Hr & Hrok); [done|done|by eapply overflow_list_short|done|].
  unfold bucket_pop_overflow. simpl in Hr. rewrite Hr. simpl. destruct r as [c|]; [|by eexists _, _; split; [|left]].
  destruct Hrok as (l1 & l2 & Hl12 & Hprev & Hb & Hbn). rewrite Hl12 in Hl.
  destruct (unlink_ok h B C c l1 l2 Hok Hl Hprev Hb) as [Hok1 Hm1].
  destruct (free_removed _ _ _ _ _ l1 (best c) l2 (ok_lists _ _ _ Hok) Hl) as [Hfree Hnf].
  pose proof (block_facts h B C Hok _ _ Hb) as Hbf. set (C1 := set C N_FAST_BUCKETS (l1 ++ l2)) in *.
  assert (alloc_effect h B C n (best c) (unlink h c) B C1) as Heff by (by eapply alloc_effect_take).
  eexists _, _. split; [done|]. right. split; [lia|].
  destruct (Z.leb_spec (u32 (n + 2)) (best_blocks c)) as [Hsplit|]; [|by exists B, C1].
  rewrite u32_id in Hsplit by lia. set (k := best_blocks c) in *.
  rewrite (split_block_eq (unlink h c) c n k) by lia.
  destruct (split_ok (unlink h c) B C1 (best c) k n Hok1 Hb Hnf ltac:(lia) ltac:(lia)) as (Htail & Hok2).
  set (t := k - n - 1) in *. set (tail := best c + 16 * n + 16) in *.
  set (B2 := <[tail := t]> (<[best c := n]> B)) in *. set (h2 := with_mem _ _) in *.
  assert (B2 !! tail = Some t) as HBt by (unfold B2; by rewrite lookup_insert_eq).
  assert (~ is_free C1 tail) as Htf.
  { intros Hf. destruct (lists_free_block _ _ _ _ tail (ok_lists _ _ _ Hok1) Hf) as (? & ?). congruence. }
  destruct (heads_class h2 B2 C1 Hok2 t) as (_ & lt & _ & Hlt & _); [lia|].
  destruct (bucket_push_ok h2 B2 C1 tail t lt Hok2 HBt Htf Hlt) as [Hok3 Hm3].
  exists B2, (set C1 (class t) (tail :: lt)). destruct Heff as [_ _ Hfresh Hkept Honly].
  assert (best c <> tail) as Hbt by lia.
  split; [done| |done| |].
  - exists n. split; [|lia]. split; [unfold B2; rewrite lookup_insert_ne by done; by rewrite lookup_insert_eq|].
    rewrite free_pushed by done. naive_solver.
  - intros q kq Hq. destruct (Hkept q kq Hq) as ([Hq1 Hqf] & Hmem).
    assert (q <> best c) by (intros ->; by apply (Hfresh kq)).
    assert (q <> tail) by congruence.
    pose proof (blocks_disjoint _ _ _ Hok1 q kq _ _ Hq1 Hb ltac:(done)) as Hd.
    pose proof (block_facts _ _ _ Hok1 q kq Hq1). split; [split|].
    + unfold B2. by rewrite !lookup_insert_ne by done.
    + rewrite free_pushed by done. naive_solver.
    + intros a Ha. rewrite Hm3 by lia. rewrite <- Hmem by done. unfold h2. simpl.
      apply split_mem_frame; lia.
  - intros q kq [Hq Hqf]. rewrite free_pushed in Hqf by done. unfold B2 in Hq.
    apply lookup_insert_Some in Hq as [[<- _]|[Hne Hq]]; [exfalso; naive_solver|].
    apply lookup_insert_Some in Hq as [[<- _]|[Hne' Hq]]; [by left|]. apply Honly. split; [done|naive_solver].
Qed.

Lemma pin_start_ok h B C : kheap_ok h B C ->
  kheap_ok (pin_start h) B C /\ kh_mem (pin_start h) = kh_mem h /\ g_heap_alloc_start (pin_start h) <> 0.
Proof.
  intros Hok. unfold pin_start. destruct (Z.eqb_spec (g_heap_alloc_start h) 0) as [H0|]; [|done].
  pose proof (ok_region _ _ _ Hok) as (?&?&?). pose proof (ok_unpinned _ _ _ Hok H0) as [-> ?].
  rewrite heap_align_up_16 by lia. split; [|split; [done|simpl; zlia]].
  destruct Hok. split; simpl; try done; try zlia.
Qed.

Lemma carve_effect h B C n p h' :
  kheap_ok h B C -> g_heap_alloc_start h <> 0 -> 1 <= n -> 16 + 16 * n < 2 ^ 32 ->
  carve h (16 + 16 * n) = (p, h') ->
  (p = 0 /\ h' = h /\ g_heap_end h < g_heap_current h + 16 + 16 * n) \/
  (p <> 0 /\ exists B' C', alloc_effect h B C n p h' B' C').
Proof.
  intros Hok Hs Hn Hn' E. pose proof (ok_region _ _ _ Hok) as (?&?&?).
  pose proof (ok_pinned _ _ _ Hok Hs) as (?&?&?). unfold carve in E.
  rewrite heap_align_up_fixed in E by lia. rewrite u64_id in E by lia.
  case_if_in E.
  { apply orb_true_iff in Heqb as [?|?]; bool_cases; [|lia]. left. injection E as <- <-. repeat split. lia. }
  injection E as <- <-. right.
  unfold KHEAP_HEADER_SIZE. rewrite u64_id by lia. set (cur := g_heap_current h) in *. split; [lia|].
  exists (<[cur + 16 := n]> B), C.
  assert (forall q k, B !! q = Some k -> q + 16 * k <= cur) as Hbelow by (intros q k Hq; pose proof (block_facts h B C Hok q k Hq); lia).
  assert (B !! (cur + 16) = None) as Hnew.
  { destruct (B !! (cur + 16)) eqn:E; [|done]. pose proof (Hbelow _ _ E). pose proof (block_facts h B C Hok _ _ E). lia. }
  assert (forall q, is_free C q -> q < cur /\ exists k, B !! q = Some k) as Hfr.
  { intros q Hq. destruct (lists_free_block _ _ _ _ q (ok_lists _ _ _ Hok) Hq) as (k & Hk).
    pose proof (block_facts h B C Hok q k Hk). split; [lia|eauto]. }
  assert (forall a, a < cur \/ cur + 16 <= a -> write_header (kh_mem h) cur (16 + 16 * n) a = kh_mem h a) as Hm.
  { intros a Ha. unfold write_header. by rewrite !write_ne by lia. }
  split.
  - pose proof Hok as Hok'. destruct Hok. split; simpl; try done; try zlia.
    + split.
      * intros q k [[<- <-]|[Hne Hq]]%lookup_insert_Some; [zlia|].
        pose proof (block_facts h B C Hok' q k Hq). pose proof (Hbelow q k Hq). lia.
      * intros q k. rewrite block_size_write_header by lia.
        intros [[<- <-]|[Hne Hq]]%lookup_insert_Some.
        { destruct (Z.eqb_spec (cur + 16 - 16) cur); [done|lia]. }
        pose proof (block_facts h B C Hok' q k Hq). pose proof (Hbelow q k Hq).
        destruct (Z.eqb_spec (q - 16) cur); [lia|]. destruct (Z.eqb_spec (q - 16) (cur + 8)); [lia|]. tauto.
      * intros q k x kx [[<- <-]|[Hne Hq]]%lookup_insert_Some [[<- <-]|[Hne' Hx]]%lookup_insert_Some Hlt;
          [lia| | |by eapply (bo_disjoint _ _ _ _ _ ok_blocks0)].
        -- pose proof (Hbelow x kx Hx). pose proof (block_facts h B C Hok' x kx Hx). lia.
        -- pose proof (Hbelow q k Hq). lia.
    + eapply lists_ok_frame; [done| |].
      * intros q (? & _)%Hfr. apply Hm. by left.
      * intros q (? & _)%Hfr. by rewrite lookup_insert_ne by lia.
    + rewrite ok_bytes0. unfold free_size. rewrite <- !zsum_concat. apply zsum_ext.
      intros q (? & _)%elem_of_concat_get%Hfr. unfold size_of. by rewrite lookup_insert_ne by lia.
  - exists n. split; [|lia]. split; [by rewrite lookup_insert_eq|]. intros (? & _)%Hfr. lia.
  - intros k [Hk _]. congruence.
  - intros q k [Hq Hqf]. assert (q <> cur + 16) by congruence. split; [split; [by rewrite lookup_insert_ne|done]|].
    intros a Ha. simpl. apply Hm. left. pose proof (Hbelow q k Hq). lia.
  - intros q k [[[<- _]|[_ Hq]]%lookup_insert_Some Hqf]; [by left|by right].
Qed.

Lemma zero_words_frame m p n a : a < p \/ p + 8 * Z.of_nat n <= a -> zero_words m p n a = m a.
Proof.
  revert m p. induction n as [|n IH]; intros m p Ha; simpl; [done|].
  rewrite IH by lia. apply write_ne. lia.
Qed.

Lemma zero_words_zero m p n i : (i < n)%nat -> zero_words m p n (p + 8 * Z.of_nat i) = 0.
Proof.
  revert m p i. induction n as [|n IH]; intros m p i Hi; [lia|]. simpl. destruct i as [|i].
  - rewrite zero_words_frame by lia. rewrite Z.mul_0_r, Z.add_0_r. apply write_eq.
  - replace (p + 8 * Z.of_nat (S i)) with (p + 8 + 8 * Z.of_nat i) by lia. apply IH. lia.
Qed.

(** Clearing the new block changes nothing else. *)
Lemma zeroed_effect h B C n p h' B' C' :
  16 + 16 * n < 2 ^ 32 -> 1 <= n ->
  alloc_effect h B C n p h' B' C' -> alloc_effect h B C n p (zeroed h' p n) B' C'.
Proof.
  intros Hn' Hn [Hok (k & Hk & Hnk) Hfresh Hkept Honly].
  assert (forall a, a < p \/ p + 16 * n <= a -> kh_mem (zeroed h' p n) a = kh_mem h' a) as Hm.
  { intros a Ha. simpl. unfold block_zero_user, KHEAP_BLOCK_ALIGN. apply zero_words_frame.
    rewrite u32_id by lia. zlia. }
  split; [|by eauto|done| |done].
  - destruct Hk as [Hk Hf]. apply (user_write_ok h' B' C' Hok p k); [done|done|].
    intros a Ha. destruct (Z_lt_ge_dec a p); [exfalso; apply Ha, Hm; lia|].
    destruct (Z_lt_ge_dec a (p + 16 * n)); [lia|]. exfalso. apply Ha, Hm. lia.
  - intros q kq Hq. destruct (Hkept q kq Hq) as (Hq' & Hmem). split; [done|].
    intros a Ha. rewrite Hm; [by apply Hmem|].
    assert (q <> p) by (intros ->; by apply (Hfresh kq)).
    destruct (blocks_disjoint h' B' C' Hok q kq p k (proj1 Hq') (proj1 Hk)); [done|lia|].
    pose proof (block_facts h' B' C' Hok p k (proj1 Hk)). lia.
Qed.

(** ** Allocation and release *)

Lemma alloc_effect_mem h1 h2 B C n p h' B' C' :
  kh_mem h1 = kh_mem h2 -> alloc_effect h1 B C n p h' B' C' -> alloc_effect h2 B C n p h' B' C'.
Proof. intros Hm [Hok Hnew Hfr Hk Ho]. split; try done. rewrite <- Hm. done. Qed.

Lemma kheap_alloc_effect h B C size :
  kheap_ok h B C -> fits size ->
  exists p h', kheap_alloc h size = Ret (p, h') /\
    ((p = 0 /\ kheap_ok h' B C /\ kh_mem h' = kh_mem h /\
      g_heap_end h' < g_heap_current h' + 16 + 16 * blocks_for_size size) \/
     (p <> 0 /\ exists B' C', alloc_effect h B C (blocks_for_size size) p h' B' C')).
Proof.
  intros Hok Hs. pose proof (ok_region _ _ _ Hok) as (?&_). unfold kheap_alloc.
  destruct (Z.eqb_spec size 0) as [|_]; [unfold fits in Hs; lia|].
  destruct (Z.eqb_spec (g_heap_current h) 0) as [|_]; [lia|]. simpl.
  destruct (blocks_for_size_spec size Hs) as (Hn & _ & _ & Hn'). set (n := blocks_for_size size) in *.
  destruct (pin_start_ok h B C Hok) as (Hok1 & Hm1 & Hs1). set (h1 := pin_start h) in *.
  destruct (bucket_pop_fast h1 n) as [p h2] eqn:Hpop.
  destruct (Z.eqb_spec p 0) as [->|Hp0]; simpl.
  - destruct (bucket_pop_fast_ok h1 B C n 0 h2 Hok1 Hn Hn' Hpop) as [[_ ->]|(l & _ & Hl & Hp & _)]; cycle 1.
    { pose proof (block_facts _ _ _ Hok1 _ _ Hp). lia. }
    assert (exists p h', (if N_FAST_BUCKETS <? n then bucket_pop_overflow h1 n else Ret (0, h1)) = Ret (p, h') /\
      ((p = 0 /\ h' = h1) \/ (p <> 0 /\ exists B' C', alloc_effect h1 B C n p h' B' C'))) as (p & h' & Hov & Hcase).
    { destruct (Z.ltb_spec N_FAST_BUCKETS n); [by apply bucket_pop_overflow_effect|eauto 6]. }
    rewrite Hov. simpl. destruct Hcase as [[-> ->]|(Hp0 & B' & C' & Heff)]; simpl.
    + assert (u32 (KHEAP_HEADER_SIZE + n * KHEAP_BLOCK_ALIGN) = 16 + 16 * n) as ->.
      { unfold KHEAP_HEADER_SIZE, KHEAP_BLOCK_ALIGN. rewrite u32_id; lia. }
      destruct (carve h1 (16 + 16 * n)) as [p h'] eqn:Hc. exists p, h'. split; [done|].
      destruct (carve_effect h1 B C n p h' Hok1 Hs1 Hn Hn' Hc) as [(-> & -> & ?)|(Hp0 & B' & C' & Heff)]; [by left|].
      right. split; [done|]. exists B', C'. by apply (alloc_effect_mem h1).
    + destruct (Z.eqb_spec p 0); [done|]. simpl. eexists _, _. split; [done|]. right. split; [done|].
      exists B', C'. apply zeroed_effect; [done|done|]. by apply (alloc_effect_mem h1).
  - eexists _, _. split; [done|]. right. split; [done|].
    destruct (bucket_pop_fast_effect h1 B C n p h2 Hok1 Hn Hn' Hpop Hp0) as (B' & C' & Heff).
    exists B', C'. apply zeroed_effect; [done|done|]. by apply (alloc_effect_mem h1).
Qed.

(** Releasing a block in use: the other blocks in use are untouched. *)
Record free_effect (h : kheap) (B : gmap Z Z) (C : list (list Z)) (p : Z)
    (h' : kheap) (B' : gmap Z Z) (C' : list (list Z)) : Prop := {
  fe_ok : kheap_ok h' B' C';
  fe_kept q k : used B C q k -> q <> p ->
    used B' C' q k /\ forall a, q <= a < q + 16 * k -> kh_mem h' a = kh_mem h a;
  fe_only q k : used B' C' q k -> q <> p /\ used B C q k }.

Lemma kheap_free_effect h B C p k :
  kheap_ok h B C -> used B C p k -> exists B' C', free_effect h B C p (kheap_free h p) B' C'.
Proof.
  intros Hok [Hp Hf]. pose proof (block_facts h B C Hok p k Hp) as Hbf. unfold kheap_free, KHEAP_HEADER_SIZE, KHEAP_BLOCK_ALIGN.
  destruct (Z.eqb_spec p 0); [lia|]. destruct (Z.eqb_spec (g_heap_alloc_start h) 0); [lia|]. simpl.
  rewrite (u64_id (p - 16)) by lia.
  destruct (Z.ltb_spec (p - 16) (g_heap_alloc_start h)); [lia|].
  destruct (Z.leb_spec (g_heap_current h) (p - 16)); [lia|]. simpl.
  destruct Hbf as (?&?&?&?&?&?&Hh&?&?&?&?). rewrite Hh. rewrite (u32_id (16 + 16 * k - 16)) by lia.
  replace ((16 + 16 * k - 16) / 16) with k by zlia. rewrite u64_id by lia.
  destruct (Z.leb_spec (g_heap_current h) (p - 16 + (16 + 16 * k))) as [Htop|Htop].
  - (* the top block: the bump pointer is wound back *)
    assert (forall q kq, B !! q = Some kq -> q <> p -> q + 16 * kq <= p - 16) as Hbelow.
    { intros q kq Hq Hne. pose proof (block_facts h B C Hok q kq Hq).
      pose proof (blocks_disjoint h B C Hok q kq p k Hq Hp Hne). lia. }
    assert (forall q, is_free C q -> q <> p) as Hfp by (intros q Hq ->; done).
    exists (delete p B), C. split.
    + pose proof (ok_started h B C Hok p k Hp) as (?&?&?). destruct Hok. split; simpl; try done; try zlia.
      * destruct ok_blocks0. split.
        -- intros q kq [Hne Hq]%lookup_delete_Some. pose proof (Hbelow q kq Hq ltac:(done)).
           pose proof (bo_block0 q kq Hq). lia.
        -- intros q kq [Hne Hq]%lookup_delete_Some. by apply bo_header0.
        -- intros q kq x kx [Hne Hq]%lookup_delete_Some [Hne' Hx]%lookup_delete_Some. by apply (bo_disjoint0 q kq x kx).
      * eapply lists_ok_frame; [done|done|]. intros q Hq. rewrite lookup_delete_ne; [done|]. by intros ->; apply (Hfp q).
      * rewrite ok_bytes0. unfold free_size. rewrite <- !zsum_concat. apply zsum_ext.
        intros q Hq%elem_of_concat_get. unfold size_of. rewrite lookup_delete_ne; [done|]. by intros ->; apply (Hfp q).
    + intros q kq [Hq Hqf] Hne. split; [|done]. split; [by rewrite lookup_delete_ne|done].
    + intros q kq [[Hne Hq]%lookup_delete_Some Hqf]. done.
  - destruct (heads_class h B C Hok k) as (_ & l & _ & Hl & _); [lia|].
    destruct (bucket_push_ok h B C p k l Hok Hp Hf Hl) as [Hok' Hm'].
    exists B, (set C (class k) (p :: l)). split; [done| |].
    + intros q kq [Hq Hqf] Hne. split; [split; [done|rewrite free_pushed by done; naive_solver]|].
      intros a Ha. apply Hm'. pose proof (blocks_disjoint h B C Hok q kq p k Hq Hp Hne). lia.
    + intros q kq [Hq Hqf]. rewrite free_pushed in Hqf by done. split; [naive_solver|]. split; [done|naive_solver].
Qed.

(** ** Runs of the kernel

    The heap from boot on, with the live blocks (user pointer and size in
    units): allocations, releases of live blocks or [NULL], and stores of the
    owners inside their blocks. *)

Definition booted (m : mem) (reservation floor kernel_end : Z) : kheap :=
  kheap_init (kheap_reserve_until (kheap_set_size (boot_heap m) reservation) floor) kernel_end.

Inductive reaches : kheap -> gmap Z Z -> Prop :=
| reaches_boot m reservation floor kernel_end :
    0 < reservation < 2 ^ 60 -> 0 <= floor < 2 ^ 60 -> 0 < kernel_end < 2 ^ 60 ->
    reaches (booted m reservation floor kernel_end) ∅
| reaches_alloc h L size p h' :
    reaches h L -> fits size -> kheap_alloc h size = Ret (p, h') ->
    reaches h' (if p =? 0 then L else <[p := (block_size (kh_mem h') (p - 16) - 16) / 16]> L)
| reaches_free h L p :
    reaches h L -> p = 0 \/ p ∈ dom L -> reaches (kheap_free h p) (delete p L)
| reaches_store h L p k a v :
    reaches h L -> L !! p = Some k -> p <= a < p + 16 * k ->
    reaches (with_mem h (write (kh_mem h) a v)) L.

Definition kheap_inv (h : kheap) (L : gmap Z Z) : Prop :=
  exists B C, kheap_ok h B C /\ forall p k, L !! p = Some k <-> used B C p k.

Lemma booted_ok m reservation floor kernel_end :
  0 < reservation < 2 ^ 60 -> 0 <= floor < 2 ^ 60 -> 0 < kernel_end < 2 ^ 60 ->
  kheap_ok (booted m reservation floor kernel_end) ∅ (replicate 65 []).
Proof.
  intros Hr Hfl Hk.
  assert (forall v, 0 <= v < 2 ^ 60 -> heap_align_up v KHEAP_PAGE_ALIGN = (v + 4095) / 4096 * 4096) as Ha.
  { intros v Hv. unfold heap_align_up, KHEAP_PAGE_ALIGN. rewrite u64_id by lia.
    change (4096 - 1) with (2 ^ 12 - 1). rewrite land_lnot_ones by lia. f_equal. f_equal. lia. }
  unfold booted, kheap_set_size, kheap_reserve_until, kheap_init, boot_heap. simpl.
  destruct (Z.eqb_spec reservation 0); [lia|]. simpl. rewrite Ha by lia.
  assert (exists start, 0 < start < 2 ^ 61 /\ forall h : kheap, g_heap_min_start h = (if 0 <? floor then floor else 0) ->
    (if (kernel_end + 4095) / 4096 * 4096 <? g_heap_min_start h then heap_align_up (g_heap_min_start h) KHEAP_PAGE_ALIGN
     else (kernel_end + 4095) / 4096 * 4096) = start) as (start & Hst & Hstart).
  { eexists. split; [|intros h ->; reflexivity]. destruct (Z.ltb_spec 0 floor); simpl; [|case_if; zlia].
    rewrite Ha by lia. case_if; zlia. }
  rewrite Hstart by (by destruct (0 <? floor)).
  assert (forall i l, replicate 65 [] .@ i = Some l -> l = @nil Z) as Hnil.
  { intros i l Hi%get_In. by apply elem_of_replicate in Hi as [? _]. }
  destruct (0 <? floor); simpl; (split; simpl; [rewrite u64_id by lia; lia|rewrite u64_id by lia; intros; split; [done|lia]|done|by split| |done|done]);
    (split; try done; [intros i hd l Hhd Hl; rewrite (Hnil _ _ Hl); simpl;
       apply get_In in Hhd; unfold heads in Hhd; simpl in Hhd; set_solver
      |intros i l p Hl; rewrite (Hnil _ _ Hl); set_solver
      |intros i l Hl; rewrite (Hnil _ _ Hl); constructor]).
Qed.

Lemma reaches_inv h L : reaches h L -> kheap_inv h L.
Proof.
  induction 1 as [m r f ke Hr Hf Hk|h L size p h' _ (B & C & Hok & HL) Hs E|h L p _ (B & C & Hok & HL) Hp
                 |h L p k a v _ (B & C & Hok & HL) Hp Ha].
  - exists ∅, (replicate 65 []). split; [by apply booted_ok|]. intros p k. split; [done|]. by intros [Hp _].
  - destruct (kheap_alloc_effect h B C size Hok Hs) as (p' & h'' & E' & Hcase). rewrite E in E'.
    injection E' as <- <-. destruct Hcase as [(-> & Hok' & _)|(Hp0 & B' & C' & [Hok' (k & Hk & _) Hfr Hkept Honly])].
    { exists B, C. done. }
    exists B', C'. split; [done|]. destruct (Z.eqb_spec p 0); [done|].
    pose proof (block_facts _ _ _ Hok' p k (proj1 Hk)) as (_&_&_&_&_&_&->&_).
    replace ((16 + 16 * k - 16) / 16) with k by zlia. intros q kq. split.
    + intros [[<- <-]|[Hne Hq]]%lookup_insert_Some; [done|]. apply Hkept. by apply HL.
    + intros Hq. destruct (Honly q kq Hq) as [->|Hq'].
      * destruct Hk as [Hk _], Hq as [Hq _]. rewrite lookup_insert_eq. congruence.
      * rewrite lookup_insert_ne; [by apply HL|]. intros ->. by apply (Hfr kq).
  - destruct Hp as [->|Hp].
    + exists B, C. split; [done|]. intros p k. rewrite lookup_delete_Some, HL. split; [tauto|]. intros Hu. split; [|done].
      intros <-. pose proof (block_facts _ _ _ Hok _ _ (proj1 Hu)). lia.
    + apply elem_of_dom in Hp as (k & Hk%HL). destruct (kheap_free_effect h B C p k Hok Hk) as (B' & C' & [Hok' Hkept Honly]).
      exists B', C'. split; [done|]. intros q kq. rewrite lookup_delete_Some, HL. split.
      * intros [Hne Hq]. by apply Hkept.
      * intros Hq. destruct (Honly q kq Hq). split; [done|done].
  - exists B, C. split; [|done]. apply HL in Hp as [Hp Hf]. eapply user_write_ok; [done|done|done|].
    intros x Hx. unfold write in Hx. destruct (Z.eqb_spec x a); [lia|done].
Qed.

(** ** Correctness *)

(** C29: in every state that the kernel reaches from boot (with addresses and sizes of the
    heap below 2^60) by requests of 1 byte to
    4 GiB less 32 bytes ([fits]), releases of live blocks or of NULL, and stores of the
    owners inside their blocks, the live blocks are 16-aligned, lie between the start
    and the end of the heap behind their headers, do not overlap each other or each
    other's headers, and the free bytes the heap reports fit beside them.  Larger
    requests are not covered: their size is truncated ([huge_request_truncated]). *)
Theorem kheap_blocks_disjoint h L :
  reaches h L ->
  (forall p k, L !! p = Some k ->
     p mod 16 = 0 /\ 1 <= k /\ 0 < g_heap_alloc_start h /\
     g_heap_alloc_start h + KHEAP_HEADER_SIZE <= p /\ p + 16 * k <= g_heap_end h) /\
  (forall p k q j, L !! p = Some k -> L !! q = Some j -> p <> q ->
     p + 16 * k <= q - KHEAP_HEADER_SIZE \/ q + 16 * j <= p - KHEAP_HEADER_SIZE) /\
  (g_heap_alloc_start h <> 0 -> g_heap_current h <= g_heap_end h ->
     kheap_get_free_bytes h + zsum (fun pk => 16 * pk.2) (map_to_list L) <= g_heap_end h - g_heap_alloc_start h).
Proof.
  intros (B & C & Hok & HL)%reaches_inv. unfold KHEAP_HEADER_SIZE. split; [|split].
  - intros p k [Hp _]%HL. pose proof (block_facts h B C Hok p k Hp). tauto.
  - intros p k q j [Hp _]%HL [Hq _]%HL Hne. pose proof (blocks_disjoint h B C Hok p k q j Hp Hq Hne). lia.
  - intros Hs Hle. pose proof (ok_pinned _ _ _ Hok Hs) as (?&?&?). pose proof (ok_region _ _ _ Hok) as (?&?&?).
    set (ps := (map_to_list L).*1).
    assert (zsum (fun pk => 16 * pk.2) (map_to_list L) = zsum (size_of B) ps) as ->.
    { unfold ps. assert (forall pk, pk ∈ map_to_list L -> size_of B pk.1 = 16 * pk.2) as Hl.
      { intros [p k] [Hp _]%elem_of_map_to_list%HL. by apply size_of_eq. }
      revert Hl. generalize (map_to_list L). induction l as [|pk l IH]; intros Hl; simpl; [done|].
      rewrite Hl by set_solver. rewrite IH by set_solver. done. }
    assert (forall p, p ∈ ps -> exists k, used B C p k) as Hps.
    { intros p ([q k] & -> & [Hp Hf]%elem_of_map_to_list%HL)%list_elem_of_fmap. by exists k. }
    assert (forall p, p ∈ ps ++ concat C -> exists k, B !! p = Some k) as HB.
    { intros p [Hp|Hp%elem_of_concat_get]%elem_of_app; [destruct (Hps p Hp) as (k & ? & _); eauto|].
      by eapply lists_free_block, Hp; eapply ok_lists. }
    pose proof (blocks_packed _ _ _ _ B (ps ++ concat C) (ok_blocks _ _ _ Hok)) as Hpk.
    rewrite zsum_app in Hpk.
    assert (forall l, (forall p, p ∈ l -> exists k, B !! p = Some k) -> zsum (size_of B) l <= zsum (fun p => 16 + size_of B p) l) as Hmono.
    { clear. induction l as [|p l IH]; intros HB; simpl; [done|].
      assert (zsum (size_of B) l <= zsum (fun p => 16 + size_of B p) l) by (apply IH; set_solver). lia. }
    pose proof (Hmono ps ltac:(set_solver)). pose proof (Hmono (concat C) ltac:(set_solver)).
    assert (NoDup (ps ++ concat C)) as Hnd.
    { apply NoDup_app. split; [apply NoDup_fst_map_to_list|]. split; [|by eapply lists_NoDup, ok_lists].
      intros p Hp Hf%elem_of_concat_get. destruct (Hps p Hp) as (k & _ & ?). done. }
    specialize (Hpk Hnd ltac:(lia) HB).
    pose proof (ok_bytes _ _ _ Hok) as Hb. unfold free_size in Hb. rewrite <- zsum_concat in Hb.
    pose proof (free_bytes_range h B C Hok). unfold kheap_get_free_bytes.
    destruct (Z.leb_spec (g_heap_end h) (g_heap_current h)); [lia|]. rewrite u64_id by lia. lia.
Qed.

(** C28: an allocation of 1 byte to 4 GiB less 32 bytes terminates; it either
    answers [NULL], which happens only when the bump pointer has no room for the
    block, and changes no memory; or a block of at least the requested size that
    overlaps no live block, and every live block keeps its contents. *)
Theorem kheap_alloc_correct h L size :
  reaches h L -> fits size ->
  exists p h', kheap_alloc h size = Ret (p, h') /\
    ((p = 0 /\ reaches h' L /\ kh_mem h' = kh_mem h /\
      g_heap_end h' < g_heap_current h' + KHEAP_HEADER_SIZE + (size + 15) / 16 * 16) \/
     (exists k, p <> 0 /\ size <= 16 * k /\ reaches h' (<[p := k]> L) /\ L !! p = None /\
        forall q j, L !! q = Some j ->
          (p + 16 * k <= q \/ q + 16 * j <= p) /\
          forall a, q <= a < q + 16 * j -> kh_mem h' a = kh_mem h a)).
Proof.
  intros Hr Hs. destruct (reaches_inv h L Hr) as (B & C & Hok & HL).
  destruct (kheap_alloc_effect h B C size Hok Hs) as (p & h' & E & Hcase).
  pose proof (reaches_alloc h L size p h' Hr Hs E) as Hr'. exists p, h'. split; [done|].
  pose proof (blocks_for_size_spec size Hs) as Hn. simpl in Hn. unfold KHEAP_HEADER_SIZE.
  destruct Hcase as [(-> & _ & Hm & Hfull)|(Hp0 & B' & C' & [Hok' (k & Hk & Hnk) Hfr Hkept Honly])].
  - left. simpl in Hr'. repeat split; [done|done|]. zlia.
  - right. exists k. destruct (Z.eqb_spec p 0); [done|].
    pose proof (block_facts _ _ _ Hok' p k (proj1 Hk)) as (_&_&_&_&_&_&Hsz&_).
    rewrite Hsz in Hr'. replace ((16 + 16 * k - 16) / 16) with k in Hr' by zlia.
    split; [done|]. split; [lia|]. split; [done|]. split.
    { destruct (L !! p) as [j|] eqn:Ep; [|done]. apply HL in Ep. by apply Hfr in Ep. }
    intros q j Hq%HL. destruct (Hkept q j Hq) as ([Hq' _] & Hmem). split; [|done].
    assert (q <> p) as Hne by (intros ->; by apply (Hfr j)).
    pose proof (blocks_disjoint _ _ _ Hok' p k q j (proj1 Hk) Hq'). lia.
Qed.

(** Releasing a live block leaves the contents of every other live block
    alone, and the block is no longer live. *)
Theorem kheap_free_correct h L p k :
  reaches h L -> L !! p = Some k ->
  reaches (kheap_free h p) (delete p L) /\
  forall q j, L !! q = Some j -> q <> p ->
    forall a, q <= a < q + 16 * j -> kh_mem (kheap_free h p) a = kh_mem h a.
Proof.
  intros Hr Hp. split.
  { apply reaches_free; [done|]. right. apply elem_of_dom. by exists k. }
  destruct (reaches_inv h L Hr) as (B & C & Hok & HL).
  destruct (kheap_free_effect h B C p k Hok) as (B' & C' & [_ Hkept _]); [by apply HL|].
  intros q j Hq%HL Hne. by apply Hkept.
Qed.

(** ** The interface of the runtime

    The heap with its live blocks discharges [KernelHeapLaws].  The interface is
    total, the heap is not: outside its contract (a request of 4 GiB or more, a
    pointer that is not live) this client of the heap does not call it. *)

Record client_heap := mk_client {
  cl_heap : kheap;
  cl_live : gmap Z Z;
  cl_reached : reaches cl_heap cl_live }.

Definition fitsb (size : Z) : bool := (0 <? size) && (size <=? 2 ^ 32 - 32).

Lemma fitsb_fits size : fitsb size = true -> fits size.
Proof. unfold fitsb, fits. intros. bool_cases. lia. Qed.

Definition run_alloc (h : kheap) (size : Z) : {r | kheap_alloc h size = r} :=
  exist _ (kheap_alloc h size) eq_refl.

Definition client_alloc (k : client_heap) (size : Z) : Z * client_heap :=
  match decide (fitsb size = true) with
  | left Hs =>
    match run_alloc (cl_heap k) size with
    | exist _ (Ret (p, h')) E =>
        (p, mk_client h' _ (reaches_alloc _ _ size p h' (cl_reached k) (fitsb_fits _ Hs) E))
    | _ => (0, k)
    end
  | right _ => (0, k)
  end.

Definition client_free (k : client_heap) (p : Z) : client_heap :=
  match decide (p ∈ dom (cl_live k)) with
  | left Hp => mk_client (kheap_free (cl_heap k) p) (delete p (cl_live k))
                 (reaches_free _ _ p (cl_reached k) (or_intror Hp))
  | right _ => k
  end.

#[global] Instance kheap_kernel_heap : KernelHeap client_heap := {
  kernel_alloc := client_alloc;
  kernel_free := client_free;
  live k := dom (cl_live k) }.

#[global] Instance kheap_kernel_heap_laws : KernelHeapLaws client_heap.
Proof.
  split.
  - intros k. simpl. destruct (reaches_inv _ _ (cl_reached k)) as (B & C & Hok & HL).
    intros (n & [Hn _]%HL)%elem_of_dom. pose proof (block_facts _ _ _ Hok _ _ Hn). lia.
  - intros k size p k' E. simpl in *. unfold client_alloc in E. destruct (decide _) as [Hs|]; [|left; by injection E as <- <-].
    destruct (reaches_inv _ _ (cl_reached k)) as (B & C & Hok & HL).
    destruct (kheap_alloc_effect _ B C size Hok (fitsb_fits _ Hs)) as (q & h' & Ea & Hcase).
    destruct (run_alloc (cl_heap k) size) as [r Er]. assert (r = Ret (q, h')) as -> by congruence.
    injection E as <- <-. simpl.
    destruct (Z.eqb_spec q 0) as [->|Hq0]; [by left|]. right.
    destruct Hcase as [(-> & _)|(_ & B' & C' & [_ _ Hfr _ _])]; [done|].
    split; [done|]. split.
    + intros (n & Hn%HL)%elem_of_dom. by apply (Hfr n).
    + by rewrite dom_insert_L.
  - intros k p. simpl. unfold client_free. destruct (decide _) as [Hp|Hp]; simpl; [by rewrite dom_delete_L|set_solver].
Qed.

(** ** Examples *)

Definition sample_heap : kheap := booted (fun _ => 0) 65536 0 4000.

Lemma sample_reaches : reaches sample_heap ∅.
Proof. apply reaches_boot; lia. Qed.

(** The pointer and the state of an allocation. *)
Definition alloc_or_null (h : kheap) (size : Z) : Z * kheap :=
  match kheap_alloc h size with Ret r => r | _ => (0, h) end.

Lemma kheap_alloc_correct_witness :
  fits 100 /\ exists p h', kheap_alloc sample_heap 100 = Ret (p, h') /\ p = 4112.
Proof.
  assert (fits 100) as Hs by (unfold fits; lia). split; [exact Hs|].
  destruct (kheap_alloc_correct sample_heap ∅ 100 sample_reaches Hs) as (p & h' & E & _).
  exists p, h'. split; [exact E|].
  assert (alloc_or_null sample_heap 100 = (p, h')) as E' by (unfold alloc_or_null; by rewrite E).
  apply (f_equal fst) in E'. vm_compute in E'. by symmetry.
Defined.

Lemma one_block_reaches : exists h', kheap_alloc sample_heap 100 = Ret (4112, h') /\
  reaches h' (<[4112 := 7]> ∅).
Proof.
  assert (fits 100) as Hs by (unfold fits; lia).
  assert (exists h', kheap_alloc sample_heap 100 = Ret (4112, h')) as (h' & E).
  { assert ((alloc_or_null sample_heap 100).1 = 4112) as H by (by vm_compute). unfold alloc_or_null in H.
    destruct (kheap_alloc sample_heap 100) as [[p h']| | |]; simpl in H; [|done..]. subst p. by exists h'. }
  exists h'. split; [done|].
  pose proof (reaches_alloc _ _ _ _ _ sample_reaches Hs E) as Hr.
  assert (block_size (kh_mem (alloc_or_null sample_heap 100).2) (4112 - 16) = 128) as Hb by (by vm_compute).
  unfold alloc_or_null in Hb. rewrite E in Hb. simpl in Hb, Hr. by rewrite Hb in Hr.
Qed.

Lemma kheap_free_correct_witness :
  exists h', reaches (kheap_free h' 4112) (delete 4112 (<[4112 := 7]> ∅)).
Proof.
  destruct one_block_reaches as (h' & _ & Hr). exists h'.
  exact (proj1 (kheap_free_correct h' (<[4112 := 7]> ∅) 4112 7 Hr (lookup_insert_eq ∅ 4112 7))).
Defined.

Lemma kheap_blocks_disjoint_witness :
  exists h', g_heap_alloc_start h' + KHEAP_HEADER_SIZE <= 4112.
Proof.
  destruct one_block_reaches as (h' & _ & Hr). exists h'.
  exact (proj1 (proj2 (proj2 (proj2 (proj1 (kheap_blocks_disjoint h' (<[4112 := 7]> ∅) Hr) 4112 7 (lookup_insert_eq ∅ 4112 7)))))).
Defined.

(** A request of exactly 4 GiB is answered with a block of no bytes: the size is
    truncated to 32 bits. *)
Lemma huge_request_truncated :
  let '(p, h) := alloc_or_null sample_heap (2 ^ 32) in
  p = 4112 /\ block_size (kh_mem h) (p - 16) = 16 /\ g_heap_current h = p.
Proof. vm_compute. done. Qed.

(** A block taken from the top of the heap, released and taken again is not
    cleared, although the recycled blocks of the free lists are. *)
Lemma top_block_not_cleared :
  let '(p, h) := alloc_or_null sample_heap 16 in
  let h := kheap_free (with_mem h (write (kh_mem h) p 7)) p in
  let '(q, h) := alloc_or_null h 16 in
  q = p /\ kh_mem h q = 7.
Proof. vm_compute. done. Qed.

(** Neighbouring free blocks are not merged: after the release of two adjacent
    16-byte blocks a request of 48 bytes, which their joint area would hold, is
    carved from the bump area. *)
Lemma neighbours_not_merged :
  let '(a, h) := alloc_or_null sample_heap 16 in
  let '(b, h) := alloc_or_null h 16 in
  let '(c, h) := alloc_or_null h 16 in
  let '(d, h) := alloc_or_null (kheap_free (kheap_free h a) b) 48 in
  b = a + 32 /\ c = b + 32 /\ d = c + 32.
Proof. vm_compute. done. Qed.

(** A free block more than a quarter larger than the request is not used. *)
Lemma large_block_not_split :
  let '(a, h) := alloc_or_null sample_heap 4096 in
  let '(b, h) := alloc_or_null h 16 in
  let '(c, h) := alloc_or_null (kheap_free h a) 2048 in
  c = b + 32.
Proof. vm_compute. done. Qed.

End KHeap.
