(* ===== verification/Process.v ===== *)
(** * Kernel processes and threads

    [kernel/process/process.c]: the process control block with its inline array
    of thread control blocks.  A NUL-terminated string argument is the list of
    its characters before the NUL; [main_thread], a pointer into the array
    [threads], is the index it points to.  Console output is left out. *)

From Stdlib Require Import Strings.Byte.
From S2P Require Import Prelude Status Bytes.

Module Process.

Definition PID_INVALID : Z := 0.
Definition TID_INVALID : Z := 0.
Definition PID_KERNEL : Z := 1.
Definition THREAD_NAME_MAX : Z := 32.
Definition PROCESS_NAME_MAX : Z := 32.
Definition PROCESS_MAX_THREADS : Z := 4.

Inductive process_state :=
| PROCESS_STATE_INIT | PROCESS_STATE_READY | PROCESS_STATE_RUNNING
| PROCESS_STATE_BLOCKED | PROCESS_STATE_ZOMBIE.

#[global] Instance process_state_eq_dec : EqDecision process_state.
Proof. solve_decision. Defined.

Record cpu_context := mk_ctx { ctx_sp : Z; ctx_ip : Z; ctx_flags : Z }.

Record thread := mk_thread {
  tid : Z;
  t_state : process_state;
  t_ctx : cpu_context;
  priority : Z;
  ticks_remaining : Z;
  total_ticks : Z;
  kstack_base : Z;
  managed_ctx : Z;
  t_name : list byte;
  t_next : Z }.

Record process := mk_process {
  pid : Z;
  p_state : process_state;
  thread_count : Z;
  threads : list thread;
  main_thread : option Z;
  exit_code : Z;
  p_name : list byte;
  p_next : Z }.

(** ** Internal helpers *)

(** [str_copy_n]: at most [n - 1] characters and a NUL; the buffer was zeroed, so
    its contents are the copied characters up to the first NUL. *)
Definition str_copy_n (src : list byte) (n : Z) : list byte := take (Z.to_nat (n - 1)) src.

Definition thread_zero : thread :=
  mk_thread 0 PROCESS_STATE_INIT (mk_ctx 0 0 0) 0 0 0 0 0 [] 0.

Definition process_zero : process :=
  mk_process 0 PROCESS_STATE_INIT 0 (replicate (Z.to_nat PROCESS_MAX_THREADS) thread_zero) None 0 [] 0.

Definition with_state (t : thread) (s : process_state) : thread :=
  mk_thread (tid t) s (t_ctx t) (priority t) (ticks_remaining t) (total_ticks t)
    (kstack_base t) (managed_ctx t) (t_name t) (t_next t).

(** ** Operations

    A [NULL] process or name is [None]. *)

Definition unoccupied (t : thread) : thread :=
  mk_thread TID_INVALID PROCESS_STATE_INIT (t_ctx t) (priority t) (ticks_remaining t) (total_ticks t)
    (kstack_base t) (managed_ctx t) (t_name t) (t_next t).

Definition process_init (p : option process) (new_pid : Z) (name : option (list byte))
  : bool * option process :=
  match p, name with
  | Some _, Some name =>
    let p := process_zero in
    (true, Some (mk_process new_pid PROCESS_STATE_INIT 0 (unoccupied <$> threads p) None 0
                   (str_copy_n name PROCESS_NAME_MAX) 0))
  | _, _ => (false, p)
  end.

(** The answer is the index of the thread, [None] being [NULL]. *)
Definition process_add_thread (p : process) (index new_tid : Z) (name : option (list byte))
    (prio : Z) : option Z * process :=
  if PROCESS_MAX_THREADS <=? index then (None, p) else
  if new_tid =? TID_INVALID then (None, p) else
  match name, threads p .@ index with
  | Some name, Some t =>
    if negb (tid t =? TID_INVALID) then (None, p) else
    let t := mk_thread new_tid PROCESS_STATE_INIT (mk_ctx 0 0 0) prio 0 0 0 0
               (str_copy_n name THREAD_NAME_MAX) 0 in
    let main := match main_thread p with None => Some index | m => m end in
    (Some index,
     mk_process (pid p) (p_state p) (u32 (thread_count p + 1)) (set (threads p) index t) main
       (exit_code p) (p_name p) (p_next p))
  | _, _ => (None, p)
  end.

Definition process_ready (p : process) : bool * process :=
  match p_state p with
  | PROCESS_STATE_INIT =>
    let ts :=
      match main_thread p with
      | Some i =>
        match threads p .@ i with
        | Some t => match t_state t with
                    | PROCESS_STATE_INIT => set (threads p) i (with_state t PROCESS_STATE_READY)
                    | _ => threads p
                    end
        | None => threads p
        end
      | None => threads p
      end in
    (true, mk_process (pid p) PROCESS_STATE_READY (thread_count p) ts (main_thread p)
             (exit_code p) (p_name p) (p_next p))
  | _ => (false, p)
  end.

Definition exit_thread (t : thread) : thread :=
  if tid t =? TID_INVALID then t else with_state t PROCESS_STATE_ZOMBIE.

Definition process_exit (p : process) (code : Z) : bool * process :=
  (true, mk_process (pid p) PROCESS_STATE_ZOMBIE (thread_count p) (exit_thread <$> threads p)
           (main_thread p) code (p_name p) (p_next p)).

(** ** The invariant *)

Definition occupied (t : thread) : Z := if tid t =? TID_INVALID then 0 else 1.

Record process_ok (p : process) : Prop := {
  pr_slots : zlength (threads p) = PROCESS_MAX_THREADS;
  pr_count : thread_count p = zsum occupied (threads p);
  pr_main i : main_thread p = Some i -> exists t, threads p .@ i = Some t /\ tid t <> TID_INVALID;
  pr_empty : main_thread p = None -> thread_count p = 0;
  pr_zombie : p_state p = PROCESS_STATE_ZOMBIE ->
    forall i t, threads p .@ i = Some t -> tid t <> TID_INVALID -> t_state t = PROCESS_STATE_ZOMBIE;
  pr_name : zlength (p_name p) < PROCESS_NAME_MAX }.

(** The processes that the operations build. *)
Inductive built : process -> Prop :=
| built_init p0 new_pid name p :
    process_init (Some p0) new_pid (Some name) = (true, Some p) -> built p
| built_add p index new_tid name prio r p' :
    built p -> p_state p <> PROCESS_STATE_ZOMBIE -> 0 <= index ->
    process_add_thread p index new_tid name prio = (r, p') -> built p'
| built_ready p r p' : built p -> process_ready p = (r, p') -> built p'
| built_exit p code r p' : built p -> process_exit p code = (r, p') -> built p'.

Lemma str_copy_n_length src n : 0 < n -> zlength (str_copy_n src n) < n.
Proof. unfold str_copy_n, zlength. rewrite length_take. lia. Qed.

Lemma occupied_range t : 0 <= occupied t <= 1.
Proof. unfold occupied. case_if; lia. Qed.

Lemma add_thread_ok p index new_tid name prio r p' :
  process_ok p -> p_state p <> PROCESS_STATE_ZOMBIE -> 0 <= index ->
  process_add_thread p index new_tid name prio = (r, p') -> process_ok p'.
Proof.
  intros Hok Hz Hi E. unfold process_add_thread in E.
  case_if_in E; [by injection E as <- <-|]. case_if_in E; [by injection E as <- <-|].
  destruct name as [name|]; [|by injection E as <- <-].
  destruct (threads p .@ index) as [t|] eqn:Ht; [|by injection E as <- <-].
  case_if_in E; [by injection E as <- <-|]. injection E as <- <-.
  destruct Hok as [Hs Hc Hm He _ Hn]. pose proof (get_Some_range _ _ _ Ht) as Hr.
  assert (occupied t = 0) as Ho by (unfold occupied; case_if; [done|lia]).
  split; simpl; [by rewrite zlength_set| | | |by intros|done].
  - rewrite (zsum_set _ _ _ t) by done. rewrite Ho, Hc.
    match goal with |- _ = _ + occupied ?n => assert (occupied n = 1) as -> by (unfold occupied; simpl; case_if; [done|lia]) end.
    rewrite Z.sub_0_r. apply u32_id. assert (0 <= zsum occupied (threads p)) by (apply zsum_nonneg; intros; apply occupied_range).
    assert (zsum occupied (threads p) <= zlength (threads p)) by (apply zsum_le_length; intros; apply occupied_range).
    unfold PROCESS_MAX_THREADS in *. lia.
  - intros i. destruct (main_thread p) as [m|] eqn:Em; intros [= <-].
    + destruct (Hm m eq_refl) as (t' & Ht' & Hn'). exists t'. split; [|done].
      rewrite get_set_ne; [done|]. intros ->. rewrite Ht in Ht'. injection Ht' as ->. bool_cases. done.
    + eexists. rewrite get_set_eq by done. split; [done|]. by simpl.
  - by destruct (main_thread p).
Qed.

Lemma ready_ok p r p' : process_ok p -> process_ready p = (r, p') -> process_ok p'.
Proof.
  intros Hok E. unfold process_ready in E. destruct (p_state p) eqn:Ep; injection E as <- <-; try done.
  destruct Hok as [Hs Hc Hm He _ Hn].
  assert (forall i t, threads p .@ i = Some t ->
            zsum occupied (set (threads p) i (with_state t PROCESS_STATE_READY)) = zsum occupied (threads p)) as Hz.
  { intros i t Ht. rewrite (zsum_set _ _ _ t) by done. change (occupied (with_state t _)) with (occupied t). lia. }
  destruct (main_thread p) as [m|] eqn:Em; [|split; simpl; (done || by rewrite Em)].
  destruct (Hm m eq_refl) as (t & Ht & Hnt). rewrite Ht. pose proof (get_Some_range _ _ _ Ht).
  destruct (t_state t) eqn:Et; split; simpl; rewrite ?zlength_set, ?Hz; try done.
  intros i [= <-]. exists (with_state t PROCESS_STATE_READY). by rewrite get_set_eq.
Qed.

Lemma exit_ok p code r p' : process_ok p -> process_exit p code = (r, p') -> process_ok p'.
Proof.
  intros [Hs Hc Hm He Hz Hn] [= <- <-].
  assert (forall i, (exit_thread <$> threads p) .@ i = exit_thread <$> threads p .@ i) as Hg.
  { intros i. unfold get. case_if; [done|]. by rewrite list_lookup_fmap. }
  assert (forall t, tid (exit_thread t) = tid t) as Ht by (intros t; unfold exit_thread; by case_if).
  split; simpl; try done.
  - unfold zlength in *. by rewrite length_fmap.
  - rewrite Hc. clear -Ht. induction (threads p) as [|t l IH]; simpl; [done|].
    rewrite IH. f_equal. unfold occupied. by rewrite Ht.
  - intros i Hi. destruct (Hm i Hi) as (t & Hti & Hnt). exists (exit_thread t). rewrite Hg, Hti, Ht. done.
  - intros _ i t. rewrite Hg. destruct (threads p .@ i) as [t'|]; simpl; [|done]. intros [= <-]. rewrite Ht.
    intros Hne. unfold exit_thread. case_if; [done|]. done.
Qed.

Lemma init_ok p0 new_pid name p :
  process_init (Some p0) new_pid (Some name) = (true, Some p) -> process_ok p.
Proof.
  intros [= <-]. split; simpl; try done. apply str_copy_n_length. unfold PROCESS_NAME_MAX. lia.
Qed.

(** A process built by the lifecycle operations always has four thread
    slots, a thread count equal to the number of occupied slots, a main thread
    among them as soon as there is one, and after its exit no thread that is not
    a zombie; its name is cut to the buffer. *)
Theorem process_lifecycle_ok p : built p -> process_ok p.
Proof.
  induction 1 as [p0 q name p E|p i t n pr r p' _ IH Hz Hi E|p r p' _ IH E|p c r p' _ IH E].
  - by eapply init_ok.
  - by eapply add_thread_ok.
  - by eapply ready_ok.
  - by eapply exit_ok.
Qed.

Definition sample_new : process :=
  default process_zero (process_init (Some process_zero) 7 (Some [x61])).2.
Definition sample_threaded : process := (process_add_thread sample_new 0 1 (Some [x6d]) 3).2.
Definition sample_process : process := (process_exit (process_ready sample_threaded).2 5).2.

Lemma process_lifecycle_ok_witness : process_ok sample_process /\ thread_count sample_process = 1.
Proof.
  split; [|reflexivity]. apply process_lifecycle_ok.
  apply (built_exit (process_ready sample_threaded).2 5 true); [|reflexivity].
  apply (built_ready sample_threaded true); [|reflexivity].
  apply (built_add sample_new 0 1 (Some [x6d]) 3 (Some 0)); [|discriminate|discriminate|reflexivity].
  apply (built_init process_zero 7 [x61]). reflexivity.
Defined.

End Process.
