(* ===== verification/Sched.v ===== *)
(** * The scheduler

    [kernel/sched/sched.c]: priority-ordered FIFO run queues, linked through the
    [next] field of the thread control blocks.  The control blocks are a map from
    their addresses; the address 0 is [NULL], and the dereference of an address
    without a control block is a [Fault].  Walks of a queue are bounded by the
    number of control blocks, so a cyclic queue shows as [NoFuel].  Console output
    is left out; of a context switch the bookkeeping in C is modelled, not the
    register save and restore in assembly. *)

From S2P Require Import Prelude Status Process.
Import Process.

Module Sched.

Definition SCHED_PRIO_MAX : Z := 8.
Definition SCHED_DEFAULT_QUANTUM : Z := 10.
Definition SCHED_MAX_THREADS : Z := 32.

Inductive sched_state := SCHED_IDLE | SCHED_RUNNING | SCHED_PREEMPT.

#[global] Instance sched_state_eq_dec : EqDecision sched_state.
Proof. solve_decision. Defined.

Record run_queue := mk_queue { q_head : Z; q_tail : Z; q_count : Z }.

Record sched := mk_sched {
  s_threads : gmap Z thread;
  s_queues : list run_queue;
  s_total_ready : Z;
  s_state : sched_state;
  s_preempt_requested : bool;
  s_current : Z }.

(** ** Field updates *)

Definition set_next (t : thread) (n : Z) : thread :=
  mk_thread (tid t) (t_state t) (t_ctx t) (priority t) (ticks_remaining t) (total_ticks t)
    (kstack_base t) (managed_ctx t) (t_name t) n.

Definition set_ticks (t : thread) (remaining total : Z) : thread :=
  mk_thread (tid t) (t_state t) (t_ctx t) (priority t) remaining total
    (kstack_base t) (managed_ctx t) (t_name t) (t_next t).

Definition set_priority (t : thread) (prio : Z) : thread :=
  mk_thread (tid t) (t_state t) (t_ctx t) prio (ticks_remaining t) (total_ticks t)
    (kstack_base t) (managed_ctx t) (t_name t) (t_next t).

Definition with_threads (s : sched) (ts : gmap Z thread) : sched :=
  mk_sched ts (s_queues s) (s_total_ready s) (s_state s) (s_preempt_requested s) (s_current s).

Definition put_thread (s : sched) (p : Z) (t : thread) : sched :=
  with_threads s (<[p := t]> (s_threads s)).

Definition with_sched_state (s : sched) (st : sched_state) : sched :=
  mk_sched (s_threads s) (s_queues s) (s_total_ready s) st (s_preempt_requested s) (s_current s).

Definition with_preempt (s : sched) (b : bool) : sched :=
  mk_sched (s_threads s) (s_queues s) (s_total_ready s) (s_state s) b (s_current s).

Definition thread_at (ts : gmap Z thread) (p : Z) : outcome thread :=
  match ts !! p with Some t => Ret t | None => Fault end.

Definition queue_at (s : sched) (i : Z) : outcome run_queue :=
  match s_queues s .@ i with Some q => Ret q | None => Fault end.

Definition walk_fuel (s : sched) : nat := size (s_threads s).

(** ** Queue helpers *)

Fixpoint contains_from (fuel : nat) (ts : gmap Z thread) (cur target : Z) : outcome bool :=
  if cur =? 0 then Ret false else
  if cur =? target then Ret true else
  match fuel with
  | O => NoFuel
  | S fuel' => t ← thread_at ts cur; contains_from fuel' ts (t_next t) target
  end.

Definition queue_contains (s : sched) (q : run_queue) (target : Z) : outcome bool :=
  if target =? 0 then Ret false else contains_from (walk_fuel s) (s_threads s) (q_head q) target.

(** The search of [queue_remove] in one queue: the node before [target], 0 when
    it is the head; [None] when the queue does not contain it. *)
Fixpoint find_prev (fuel : nat) (ts : gmap Z thread) (prev cur target : Z) : outcome (option Z) :=
  if cur =? 0 then Ret None else
  if cur =? target then Ret (Some prev) else
  match fuel with
  | O => NoFuel
  | S fuel' => t ← thread_at ts cur; find_prev fuel' ts cur (t_next t) target
  end.

(** The ready count after a thread left its queue; the last one leaves the
    scheduler idle. *)
Definition left_queue (s : sched) (ts : gmap Z thread) (i : Z) (q : run_queue) : sched :=
  let total := u32 (s_total_ready s - 1) in
  mk_sched ts (set (s_queues s) i q) total
    (if total =? 0 then SCHED_IDLE else s_state s) (s_preempt_requested s) (s_current s).

Definition unlink_thread (s : sched) (i : Z) (q : run_queue) (prev cur : Z) : outcome sched :=
  t ← thread_at (s_threads s) cur;
  '(ts, head) ←
    (if prev =? 0 then Ret (s_threads s, t_next t)
     else tp ← thread_at (s_threads s) prev;
          Ret (<[prev := set_next tp (t_next t)]> (s_threads s), q_head q));
  t ← thread_at ts cur;
  let tail := if q_tail q =? cur then prev else q_tail q in
  Ret (left_queue s (<[cur := set_next t 0]> ts) i (mk_queue head tail (u32 (q_count q - 1)))).

Fixpoint remove_loop (n : nat) (i : Z) (s : sched) (target : Z) : outcome (bool * sched) :=
  match n with
  | O => Ret (false, s)
  | S n' =>
    q ← queue_at s i;
    r ← find_prev (walk_fuel s) (s_threads s) 0 (q_head q) target;
    match r with
    | Some prev => s ← unlink_thread s i q prev target; Ret (true, s)
    | None => remove_loop n' (i + 1) s target
    end
  end.

Definition queue_remove (s : sched) (target : Z) : outcome (bool * sched) :=
  if target =? 0 then Ret (false, s) else remove_loop (Z.to_nat SCHED_PRIO_MAX) 0 s target.

(** ** Operations *)

Definition sched_init (s : sched) : sched :=
  mk_sched (s_threads s) (replicate (Z.to_nat SCHED_PRIO_MAX) (mk_queue 0 0 0)) 0 SCHED_IDLE false 0.

(** The thread is linked behind the tail of the queue. *)
Definition append_link (ts : gmap Z thread) (q : run_queue) (p : Z) (t : thread)
  : outcome (gmap Z thread * run_queue) :=
  let ts := <[p := set_next t 0]> ts in
  let count := u32 (q_count q + 1) in
  if q_tail q =? 0 then Ret (ts, mk_queue p p count)
  else tl ← thread_at ts (q_tail q);
       Ret (<[q_tail q := set_next tl p]> ts, mk_queue (q_head q) p count).

Definition append_thread (s : sched) (i : Z) (q : run_queue) (p : Z) (t : thread) : outcome sched :=
  '(ts, q) ← append_link (s_threads s) q p t;
  Ret (mk_sched ts (set (s_queues s) i q) (u32 (s_total_ready s + 1)) SCHED_RUNNING
         (s_preempt_requested s) (s_current s)).

Definition sched_enqueue (s : sched) (p : Z) : outcome (bool * sched) :=
  if p =? 0 then Ret (false, s) else
  t ← thread_at (s_threads s) p;
  if negb (bool_decide (t_state t = PROCESS_STATE_READY)) then Ret (false, s) else
  if SCHED_PRIO_MAX <=? priority t then Ret (false, s) else
  if SCHED_MAX_THREADS <=? s_total_ready s then Ret (false, s) else
  q ← queue_at s (priority t);
  queued ← queue_contains s q p;
  if (queued : bool) then Ret (false, s) else
  s ← append_thread s (priority t) q p t;
  Ret (true, s).

Fixpoint dequeue_loop (n : nat) (i : Z) (s : sched) : outcome (Z * sched) :=
  match n with
  | O => Ret (0, s)
  | S n' =>
    q ← queue_at s i;
    if q_head q =? 0 then dequeue_loop n' (i + 1) s else
    t ← thread_at (s_threads s) (q_head q);
    let head := t_next t in
    let tail := if head =? 0 then 0 else q_tail q in
    Ret (q_head q,
         left_queue s (<[q_head q := set_next t 0]> (s_threads s)) i
           (mk_queue head tail (u32 (q_count q - 1))))
  end.

Definition sched_dequeue (s : sched) : outcome (Z * sched) :=
  dequeue_loop (Z.to_nat SCHED_PRIO_MAX) 0 s.

(** A thread that gives up the processor: READY again, with a new quantum. *)
Definition requeued (t : thread) : thread :=
  set_ticks (with_state t PROCESS_STATE_READY) SCHED_DEFAULT_QUANTUM (total_ticks t).

Definition sched_yield (s : sched) (current : Z) : outcome (bool * sched) :=
  if current =? 0 then Ret (false, s) else
  t ← thread_at (s_threads s) current;
  if negb (bool_decide (t_state t = PROCESS_STATE_RUNNING)) then Ret (false, s) else
  sched_enqueue (with_preempt (put_thread s current (requeued t)) false) current.

Definition sched_tick (s : sched) (current : Z) : outcome sched :=
  if current =? 0 then Ret s else
  t ← thread_at (s_threads s) current;
  let total := u64 (total_ticks t + 1) in
  let remaining := if 0 <? ticks_remaining t then ticks_remaining t - 1 else ticks_remaining t in
  let s := put_thread s current (set_ticks t remaining total) in
  if remaining =? 0 then Ret (with_sched_state (with_preempt s true) SCHED_PREEMPT) else Ret s.

(** [current != NULL && current->state == PROCESS_STATE_RUNNING]. *)
Definition is_running (s : sched) (current : Z) : outcome bool :=
  if current =? 0 then Ret false else
  t ← thread_at (s_threads s) current; Ret (bool_decide (t_state t = PROCESS_STATE_RUNNING)).

Definition sched_next (s : sched) (current : Z) : outcome (Z * sched) :=
  preempt ← (if s_preempt_requested s then is_running s current else Ret false);
  '(s, current) ←
    (if (preempt : bool) then
       t ← thread_at (s_threads s) current;
       '(_, s) ← sched_enqueue (put_thread (with_preempt s false) current (requeued t)) current;
       Ret (s, 0)
     else Ret (s, current));
  '(next, s) ← sched_dequeue s;
  if next =? 0 then
    running ← is_running s current;
    if (running : bool) then Ret (current, s) else Ret (0, with_sched_state s SCHED_IDLE)
  else
    t ← thread_at (s_threads s) next;
    if ticks_remaining t =? 0
    then Ret (next, put_thread s next (set_ticks t SCHED_DEFAULT_QUANTUM (total_ticks t)))
    else Ret (next, s).

Definition sched_block (s : sched) (p : Z) : outcome (bool * sched) :=
  if p =? 0 then Ret (false, s) else
  t ← thread_at (s_threads s) p;
  match t_state t with
  | PROCESS_STATE_BLOCKED => Ret (true, s)
  | PROCESS_STATE_READY =>
    '(removed, s) ← queue_remove s p;
    if (removed : bool) then
      t ← thread_at (s_threads s) p; Ret (true, put_thread s p (with_state t PROCESS_STATE_BLOCKED))
    else Ret (false, s)
  | PROCESS_STATE_RUNNING => Ret (true, put_thread s p (with_state t PROCESS_STATE_BLOCKED))
  | _ => Ret (false, s)
  end.

Definition sched_unblock (s : sched) (p : Z) : outcome (bool * sched) :=
  if p =? 0 then Ret (false, s) else
  t ← thread_at (s_threads s) p;
  if negb (bool_decide (t_state t = PROCESS_STATE_BLOCKED)) then Ret (false, s) else
  sched_enqueue (put_thread s p (with_state t PROCESS_STATE_READY)) p.

Definition sched_set_current (s : sched) (p : Z) : sched :=
  mk_sched (s_threads s) (s_queues s) (s_total_ready s) (s_state s) (s_preempt_requested s) p.

Definition sched_get_current (s : sched) : Z := s_current s.
Definition sched_get_state (s : sched) : sched_state := s_state s.
Definition sched_get_ready_count (s : sched) : Z := s_total_ready s.

Definition sched_context_switch (s : sched) (prev next : Z) : outcome sched :=
  if (prev =? 0) || (next =? 0) then Ret s else
  t ← thread_at (s_threads s) next;
  Ret (sched_set_current (put_thread s next (with_state t PROCESS_STATE_RUNNING)) next).

(** ** The invariant

    [Q] lists the threads of each priority band from head to tail. *)

Fixpoint linked (ts : gmap Z thread) (hd : Z) (l : list Z) : Prop :=
  match l with
  | [] => hd = 0
  | p :: l' => hd = p /\ p <> 0 /\ exists t, ts !! p = Some t /\ linked ts (t_next t) l'
  end.

Record queue_rep (ts : gmap Z thread) (q : run_queue) (l : list Z) : Prop := {
  qr_linked : linked ts (q_head q) l;
  qr_tail : q_tail q = default 0 (last l);
  qr_count : q_count q = zlength l }.

Record sched_wf (s : sched) (Q : list (list Z)) : Prop := {
  wf_queues : zlength (s_queues s) = SCHED_PRIO_MAX;
  wf_len : zlength Q = SCHED_PRIO_MAX;
  wf_rep i q l : s_queues s .@ i = Some q -> Q .@ i = Some l -> queue_rep (s_threads s) q l;
  wf_nodup : NoDup (concat Q);
  wf_prio i l p : Q .@ i = Some l -> p ∈ l ->
    exists t, s_threads s !! p = Some t /\ priority t = i /\ t_state t = PROCESS_STATE_READY;
  wf_total : s_total_ready s = zlength (concat Q);
  wf_bound : s_total_ready s <= SCHED_MAX_THREADS;
  wf_idle : s_state s = SCHED_IDLE -> s_total_ready s = 0;
  wf_running : s_state s = SCHED_RUNNING -> 0 < s_total_ready s }.

Definition queued (Q : list (list Z)) (p : Z) : Prop := p ∈ concat Q.

Lemma thread_at_Some ts p t : ts !! p = Some t -> thread_at ts p = Ret t.
Proof. unfold thread_at. by intros ->. Qed.

(** ** Linked queues *)

Lemma linked_frame ts ts' hd l :
  (forall p, p ∈ l -> t_next <$> ts' !! p = t_next <$> ts !! p) -> linked ts hd l -> linked ts' hd l.
Proof.
  revert hd. induction l as [|p l IH]; intros hd Hf; simpl; [done|].
  intros (-> & Hp & t & Ht & Hl). split; [done|]. split; [done|].
  pose proof (Hf p (list_elem_of_here _ _)) as He. rewrite Ht in He. simpl in He.
  destruct (ts' !! p) as [t'|]; simpl in He; [|done]. exists t'. split; [done|].
  injection He as ->. apply IH; [|done]. intros q Hq. apply Hf. by apply list_elem_of_further.
Qed.

Lemma linked_insert ts p t hd l : p ∉ l -> linked ts hd l -> linked (<[p := t]> ts) hd l.
Proof. intros Hp. apply linked_frame. intros q Hq. rewrite lookup_insert_ne; [done|]. by intros ->. Qed.

(** A change of a control block that keeps its link. *)
Lemma linked_put ts p t t' hd l :
  ts !! p = Some t -> t_next t' = t_next t -> linked ts hd l -> linked (<[p := t']> ts) hd l.
Proof.
  intros Ht Hn. apply linked_frame. intros q _. destruct (Z.eq_dec p q) as [<-|Hne].
  - rewrite lookup_insert_eq, Ht. simpl. by rewrite Hn.
  - by rewrite lookup_insert_ne.
Qed.

Lemma linked_in ts hd l p : linked ts hd l -> p ∈ l -> p <> 0 /\ exists t, ts !! p = Some t.
Proof.
  revert hd. induction l as [|q l IH]; intros hd; simpl; [set_solver|].
  intros (-> & Hq & t & Ht & Hl) [->|Hp]%elem_of_cons; [eauto|]. by eapply IH.
Qed.

Lemma linked_null ts hd l : linked ts hd l -> hd = 0 <-> l = [].
Proof. destruct l; simpl; naive_solver. Qed.

Lemma linked_head ts hd l : linked ts hd l -> hd = default 0 (head l).
Proof. destruct l; simpl; naive_solver. Qed.

(** Appending a thread behind the last one. *)
Lemma linked_snoc ts hd l z p t tz :
  p ∉ l -> NoDup l -> p <> 0 -> last l = Some z -> ts !! p = Some t -> t_next t = 0 -> ts !! z = Some tz ->
  linked ts hd l -> linked (<[z := set_next tz p]> ts) hd (l ++ [p]).
Proof.
  intros Hp Hn Hp0 Hz Ht Ht0 Htz. revert hd Hz.
  induction l as [|q l IH]; intros hd Hz; [done|]. apply NoDup_cons in Hn as [Hql Hn].
  intros (-> & Hq0 & tq & Htq & Hl). simpl. split; [done|]. split; [done|].
  destruct l as [|q' l].
  - simpl in Hz. injection Hz as ->. assert (tq = tz) as -> by congruence.
    exists (set_next tz p). rewrite lookup_insert_eq. split; [done|]. simpl. split; [done|]. split; [done|].
    exists t. rewrite lookup_insert_ne by set_solver. done.
  - assert (z ∈ q' :: l) as Hzin by (apply last_Some_elem_of; by rewrite last_cons_cons in Hz).
    exists tq. rewrite lookup_insert_ne by (intros ->; done). split; [done|].
    apply (IH ltac:(set_solver) Hn (t_next tq)); [by rewrite last_cons_cons in Hz|done].
Qed.

(** Unlinking the thread [p] behind [q]. *)
Lemma linked_remove ts hd l1 q p l2 tq tp :
  NoDup (l1 ++ q :: p :: l2) -> ts !! q = Some tq -> ts !! p = Some tp ->
  linked ts hd (l1 ++ q :: p :: l2) ->
  linked (<[q := set_next tq (t_next tp)]> ts) hd (l1 ++ q :: l2).
Proof.
  intros Hn Hq Hp. revert hd Hn. induction l1 as [|x l1 IH]; intros hd; simpl.
  - rewrite !NoDup_cons. intros (Hq' & Hp' & _) (-> & Hq0 & tq' & Htq & Hnx & Hp0 & tp' & Htp & Hl).
    assert (tp' = tp) as -> by congruence. split; [done|]. split; [done|].
    exists (set_next tq (t_next tp)). rewrite lookup_insert_eq. split; [done|]. simpl.
    apply linked_insert; [set_solver|done].
  - rewrite NoDup_cons. intros (Hx & Hn) (-> & Hx0 & tx & Htx & Hl). split; [done|]. split; [done|].
    exists tx. rewrite lookup_insert_ne by set_solver. split; [done|]. by apply IH.
Qed.

(** ** Walking a queue *)

Lemma linked_short ts hd l : NoDup l -> linked ts hd l -> (length l <= size ts)%nat.
Proof.
  intros Hn Hl. rewrite <- (size_dom ts). rewrite <- (size_list_to_set (C := gset Z) l) by done.
  apply subseteq_size. intros p Hp%elem_of_list_to_set. destruct (linked_in _ _ _ _ Hl Hp) as (_ & t & Ht).
  apply elem_of_dom. by exists t.
Qed.

Lemma contains_from_spec ts target fuel hd l :
  (length l <= fuel)%nat -> linked ts hd l ->
  contains_from fuel ts hd target = Ret (bool_decide (target ∈ l)).
Proof.
  revert fuel hd. induction l as [|p l IH]; intros fuel hd Hf; simpl.
  - intros ->. by destruct fuel.
  - intros (-> & Hp0 & t & Ht & Hl). simpl in Hf. destruct fuel as [|fuel]; [lia|]. simpl.
    destruct (Z.eqb_spec p 0); [done|]. destruct (Z.eqb_spec p target) as [->|Hne].
    + rewrite bool_decide_true; [done|set_solver].
    + unfold thread_at. rewrite Ht. simpl. rewrite (IH fuel) by (done || lia). f_equal.
      apply bool_decide_ext. set_solver.
Qed.

Lemma find_prev_spec ts target fuel prev hd l :
  (length l <= fuel)%nat -> linked ts hd l ->
  ((target ∉ l) /\ find_prev fuel ts prev hd target = Ret None) \/
  (exists l1 l2, l = l1 ++ target :: l2 /\ find_prev fuel ts prev hd target = Ret (Some (default prev (last l1)))).
Proof.
  revert fuel prev hd. induction l as [|p l IH]; intros fuel prev hd Hf; simpl.
  - intros ->. left. split; [set_solver|]. by destruct fuel.
  - intros (-> & Hp0 & t & Ht & Hl). simpl in Hf. destruct fuel as [|fuel]; [lia|]. simpl.
    destruct (Z.eqb_spec p 0); [done|]. destruct (Z.eqb_spec p target) as [->|Hne].
    + right. by exists [], l.
    + unfold thread_at. rewrite Ht. simpl.
      destruct (IH fuel p (t_next t)) as [[Hn ->]|(l1 & l2 & -> & ->)]; [lia|done| |].
      * left. split; [set_solver|done].
      * right. exists (p :: l1), l2. split; [done|]. do 2 f_equal.
        destruct l1 as [|x l1]; [done|]. rewrite last_cons_cons.
        destruct (last (x :: l1)) eqn:E; [done|]. by apply last_None in E.
Qed.

(** ** Updating one band *)

Lemma wf_set s Q i l l' q' ts' total st :
  sched_wf s Q -> Q .@ i = Some l -> queue_rep ts' q' l' ->
  (forall x, x ∈ concat Q -> x ∉ l -> ts' !! x = s_threads s !! x) ->
  (forall x, x ∈ l' -> exists t, ts' !! x = Some t /\ priority t = i /\ t_state t = PROCESS_STATE_READY) ->
  NoDup (concat (set Q i l')) -> total = zlength (concat (set Q i l')) -> total <= SCHED_MAX_THREADS ->
  (st = SCHED_IDLE -> total = 0) -> (st = SCHED_RUNNING -> 0 < total) ->
  sched_wf (mk_sched ts' (set (s_queues s) i q') total st (s_preempt_requested s) (s_current s)) (set Q i l').
Proof.
  intros Hwf Hl Hrep Hts Hl' Hnd Htot Hmax Hidle Hrun.
  pose proof (get_Some_range _ _ _ Hl) as Hr. pose proof (wf_len _ _ Hwf). pose proof (wf_queues _ _ Hwf).
  destruct (concat_set Q i l l' Hl) as (a & b & Hc & Hc').
  assert (forall j k x, j <> i -> Q .@ j = Some k -> x ∈ k -> x ∈ concat Q /\ x ∉ l) as Hother.
  { intros j k x Hji Hk Hx. split; [apply elem_of_concat; eauto|]. intros Hxl.
    destruct (wf_prio _ _ Hwf _ _ _ Hk Hx) as (t & Ht & <- & _).
    destruct (wf_prio _ _ Hwf _ _ _ Hl Hxl) as (t' & Ht' & <- & _). congruence. }
  split; simpl; rewrite ?zlength_set; try done.
  - intros j q k. destruct (Z.eq_dec i j) as [<-|Hij].
    + rewrite !get_set_eq by lia. by intros [= <-] [= <-].
    + rewrite !get_set_ne by done. intros Hq Hk. destruct (wf_rep _ _ Hwf j q k Hq Hk) as [H1 H2 H3].
      split; [|done|done]. eapply linked_frame; [|done]. intros x Hx.
      destruct (Hother j k x) as [? ?]; [done..|]. by rewrite Hts.
  - intros j k x. destruct (Z.eq_dec i j) as [<-|Hij].
    + rewrite get_set_eq by lia. intros [= <-]. apply Hl'.
    + rewrite get_set_ne by done. intros Hk Hx. destruct (Hother j k x) as [? ?]; [done..|].
      rewrite Hts by done. by eapply (wf_prio _ _ Hwf).
Qed.

(** A control block that is in no queue can change freely; one that is queued
    can change everything but its link, priority and state. *)
Lemma wf_put_thread s Q p t :
  sched_wf s Q ->
  ~ queued Q p \/
  (exists t0, s_threads s !! p = Some t0 /\ t_next t = t_next t0 /\ priority t = priority t0 /\ t_state t = t_state t0) ->
  sched_wf (put_thread s p t) Q.
Proof.
  intros Hwf Hp.
  assert (forall hd l, (forall x, x ∈ l -> queued Q x) -> linked (s_threads s) hd l -> linked (<[p := t]> (s_threads s)) hd l) as Hlk.
  { intros hd l Hl. destruct Hp as [Hp|(t0 & Ht0 & Hn & _)].
    - apply linked_insert. intros Hpl. by apply Hp, Hl.
    - by apply linked_put with (t := t0). }
  destruct Hwf. split; simpl; try done.
  - intros i q l Hq Hl. destruct (wf_rep0 i q l Hq Hl) as [H1 H2 H3]. split; [|done|done].
    apply Hlk; [|done]. intros x Hx. apply elem_of_concat. eauto.
  - intros i l x Hl Hx. destruct (wf_prio0 i l x Hl Hx) as (tx & Htx & Hpr & Hst).
    destruct (Z.eq_dec p x) as [<-|Hne]; [|rewrite lookup_insert_ne by done; eauto].
    rewrite lookup_insert_eq. destruct Hp as [Hp|(t0 & Ht0 & _ & Hp & Hs)].
    + exfalso. apply Hp, elem_of_concat. eauto.
    + exists t. split; [done|]. assert (t0 = tx) as -> by congruence. split; congruence.
Qed.

(** Two thread maps that differ at most in the links. *)
Definition same_threads (ts ts' : gmap Z thread) : Prop :=
  forall p, (fun t => set_next t 0) <$> ts' !! p = (fun t => set_next t 0) <$> ts !! p.

#[global] Instance same_threads_equivalence : Equivalence same_threads.
Proof.
  split; unfold same_threads; [done|intros x y H p; by rewrite H|intros x y z H1 H2 p; by rewrite H2, H1].
Qed.

Lemma same_threads_insert ts p t t' :
  ts !! p = Some t -> set_next t' 0 = set_next t 0 -> same_threads ts (<[p := t']> ts).
Proof.
  intros Ht Hs q. destruct (Z.eq_dec p q) as [<-|Hne].
  - rewrite lookup_insert_eq, Ht. simpl. by rewrite Hs.
  - by rewrite lookup_insert_ne.
Qed.

Lemma same_threads_lookup ts ts' p t :
  same_threads ts ts' -> ts !! p = Some t -> exists n, ts' !! p = Some (set_next t n).
Proof.
  intros Hs Ht. specialize (Hs p). rewrite Ht in Hs. simpl in Hs. destruct (ts' !! p) as [t'|]; [|done].
  simpl in Hs. injection Hs as Hs. exists (t_next t'). f_equal.
  destruct t, t'; unfold set_next in *; simpl in *. congruence.
Qed.

(** ** Enqueue *)

Definition push_band (Q : list (list Z)) (i p : Z) : list (list Z) :=
  match Q .@ i with Some l => set Q i (l ++ [p]) | None => Q end.

Lemma push_band_perm Q i p : 0 <= i < zlength Q -> concat (push_band Q i p) ≡ₚ p :: concat Q.
Proof.
  intros Hi. unfold push_band. destruct (get_Some Q i Hi) as (l & Hl). rewrite Hl.
  destruct (concat_set Q i l (l ++ [p]) Hl) as (a & b & -> & ->). solve_Permutation.
Qed.

Lemma append_link_ok ts q l p t :
  queue_rep ts q l -> NoDup l -> p ∉ l -> p <> 0 -> ts !! p = Some t -> zlength l < 2 ^ 31 ->
  exists ts' q', append_link ts q p t = Ret (ts', q') /\ queue_rep ts' q' (l ++ [p]) /\
    same_threads ts ts' /\ forall x, x ∉ l -> x <> p -> ts' !! x = ts !! x.
Proof.
  intros [Hlk Htail Hcount] Hnd Hpl Hp0 Ht Hlen. unfold append_link. rewrite Htail, Hcount.
  rewrite u32_id by (pose proof (zlength_nonneg l); lia).
  assert (same_threads ts (<[p := set_next t 0]> ts)) as Hsame by (by eapply same_threads_insert).
  destruct (last l) as [z|] eqn:Hz; simpl.
  - pose proof (last_Some_elem_of _ _ Hz) as Hzl. destruct (linked_in _ _ _ _ Hlk Hzl) as (Hz0 & tz & Htz).
    destruct (Z.eqb_spec z 0); [done|]. unfold thread_at.
    assert (z <> p) by (intros ->; done). rewrite lookup_insert_ne by done. rewrite Htz. simpl.
    eexists _, _. split; [done|]. split; [split; simpl|split].
    + eapply linked_snoc; try done; [by rewrite lookup_insert_eq|done|by rewrite lookup_insert_ne|by apply linked_insert].
    + by rewrite last_snoc.
    + rewrite zlength_app. unfold zlength. simpl. lia.
    + etransitivity; [exact Hsame|]. eapply same_threads_insert; [by rewrite lookup_insert_ne|done].
    + intros x Hx Hxp. rewrite lookup_insert_ne by set_solver. by rewrite lookup_insert_ne.
  - apply last_None in Hz as ->. simpl. eexists _, _. split; [done|]. split; [split; simpl; try done|split; [done|]].
    + split; [done|]. split; [done|]. exists (set_next t 0). by rewrite lookup_insert_eq.
    + intros x _ Hxp. by rewrite lookup_insert_ne.
Qed.

Lemma band_facts s Q i l : sched_wf s Q -> Q .@ i = Some l ->
  NoDup l /\ zlength l <= s_total_ready s /\ 0 <= s_total_ready s <= 32.
Proof.
  intros Hwf Hl. pose proof (wf_nodup _ _ Hwf) as Hnd. pose proof (wf_bound _ _ Hwf) as Hb. unfold SCHED_MAX_THREADS in Hb.
  rewrite (wf_total _ _ Hwf) in *. destruct (concat_set Q _ _ l Hl) as (a & b & Hc & _). rewrite Hc in *.
  split; [by apply NoDup_app in Hnd as (_ & _ & (? & _)%NoDup_app)|].
  rewrite !zlength_app in *. pose proof (zlength_nonneg a). pose proof (zlength_nonneg b). pose proof (zlength_nonneg l). lia.
Qed.

Lemma enqueue_ok s Q p t :
  sched_wf s Q -> p <> 0 -> s_threads s !! p = Some t -> t_state t = PROCESS_STATE_READY ->
  0 <= priority t < SCHED_PRIO_MAX -> s_total_ready s < SCHED_MAX_THREADS -> ~ queued Q p ->
  exists s', sched_enqueue s p = Ret (true, s') /\ sched_wf s' (push_band Q (priority t) p) /\
    same_threads (s_threads s) (s_threads s') /\ s_current s' = s_current s /\
    s_preempt_requested s' = s_preempt_requested s.
Proof.
  intros Hwf Hp0 Ht Hst Hpr Htot Hnq. pose proof (wf_len _ _ Hwf) as HlenQ. pose proof (wf_queues _ _ Hwf) as Hlenq.
  destruct (get_Some Q (priority t)) as (l & Hl); [lia|].
  destruct (get_Some (s_queues s) (priority t)) as (q & Hq); [lia|].
  pose proof (wf_rep _ _ Hwf _ _ _ Hq Hl) as Hrep. pose proof (band_facts _ _ _ _ Hwf Hl) as (Hndl & Hll & Hb).
  pose proof (push_band_perm Q (priority t) p ltac:(lia)) as Hperm.
  assert (p ∉ l) as Hpl by (intros ?; apply Hnq, elem_of_concat; eauto).
  destruct (append_link_ok _ _ _ p t Hrep Hndl Hpl Hp0 Ht) as (ts' & q' & Happ & Hrep' & Hsame & Hts'); [lia|].
  assert (u32 (s_total_ready s + 1) = zlength (concat (push_band Q (priority t) p))) as Htot'.
  { assert (zlength (concat (push_band Q (priority t) p)) = 1 + zlength (concat Q)) as ->
      by (unfold zlength; rewrite Hperm; simpl; lia).
    rewrite <- (wf_total _ _ Hwf). rewrite u32_id; lia. }
  assert (NoDup (concat (push_band Q (priority t) p))) as Hnd'.
  { rewrite Hperm. constructor; [done|apply (wf_nodup _ _ Hwf)]. }
  unfold push_band in *. rewrite Hl in *. eexists. split.
  - unfold sched_enqueue. destruct (Z.eqb_spec p 0); [done|]. unfold thread_at at 1. rewrite Ht. simpl.
    rewrite bool_decide_true by done. simpl. destruct (Z.leb_spec SCHED_PRIO_MAX (priority t)); [lia|].
    destruct (Z.leb_spec SCHED_MAX_THREADS (s_total_ready s)); [lia|].
    unfold queue_at. rewrite Hq. simpl. unfold queue_contains. destruct (Z.eqb_spec p 0); [done|].
    rewrite (contains_from_spec _ _ _ _ l); [|by eapply linked_short, Hrep|apply Hrep].
    rewrite bool_decide_false by done. simpl. unfold append_thread. rewrite Happ. simpl. reflexivity.
  - simpl. split; [|done]. eapply wf_set; try done.
    + intros x Hx Hxl. apply Hts'; [done|]. intros ->. done.
    + intros x Hx. assert (exists tx, s_threads s !! x = Some tx /\ priority tx = priority t /\ t_state tx = PROCESS_STATE_READY) as (tx & Htx & Hprx & Hstx).
      { apply elem_of_app in Hx as [Hx|Hx]; [by eapply (wf_prio _ _ Hwf)|].
        apply list_elem_of_singleton in Hx as ->. eauto. }
      destruct (same_threads_lookup _ _ _ _ Hsame Htx) as (n' & Hn'). eexists. by split.
    + unfold SCHED_MAX_THREADS in *. rewrite u32_id; lia.
    + intros _. rewrite u32_id; lia.
Qed.

Lemma enqueue_refused s Q p t :
  sched_wf s Q -> p <> 0 -> s_threads s !! p = Some t -> 0 <= priority t ->
  t_state t <> PROCESS_STATE_READY \/ SCHED_PRIO_MAX <= priority t \/
    SCHED_MAX_THREADS <= s_total_ready s \/ queued Q p ->
  sched_enqueue s p = Ret (false, s).
Proof.
  intros Hwf Hp0 Ht Hpr Hc. unfold sched_enqueue. destruct (Z.eqb_spec p 0); [done|].
  unfold thread_at at 1. rewrite Ht. simpl.
  destruct (bool_decide_reflect (t_state t = PROCESS_STATE_READY)); simpl; [|done].
  destruct (Z.leb_spec SCHED_PRIO_MAX (priority t)); [done|].
  destruct (Z.leb_spec SCHED_MAX_THREADS (s_total_ready s)); [done|].
  destruct Hc as [?|[?|[?|Hq]]]; [done|lia|lia|].
  pose proof (wf_len _ _ Hwf). pose proof (wf_queues _ _ Hwf).
  destruct (get_Some Q (priority t)) as (l & Hl); [lia|].
  destruct (get_Some (s_queues s) (priority t)) as (q & Hqq); [lia|].
  pose proof (wf_rep _ _ Hwf _ _ _ Hqq Hl) as Hrep. pose proof (band_facts _ _ _ _ Hwf Hl) as (Hndl & _).
  unfold queue_at. rewrite Hqq. simpl. unfold queue_contains. destruct (Z.eqb_spec p 0); [done|].
  rewrite (contains_from_spec _ _ _ _ l); [|by eapply linked_short, Hrep|apply Hrep].
  rewrite bool_decide_true; [done|]. apply elem_of_concat in Hq as (i & k & Hk & Hpk).
  destruct (wf_prio _ _ Hwf _ _ _ Hk Hpk) as (t' & Ht' & <- & _). congruence.
Qed.

(** ** Leaving a queue *)

(** The thread leaves band [i], whose list [l] becomes [l']. *)
Lemma left_queue_ok s Q i l l' p ts q :
  sched_wf s Q -> Q .@ i = Some l -> l ≡ₚ p :: l' -> queue_rep ts q l' ->
  same_threads (s_threads s) ts -> (forall x, x ∉ l -> ts !! x = s_threads s !! x) ->
  sched_wf (left_queue s ts i q) (set Q i l') /\ concat Q ≡ₚ p :: concat (set Q i l').
Proof.
  intros Hwf Hl Hperm Hrep Hsame Hts. pose proof (band_facts _ _ _ _ Hwf Hl) as (Hndl & Hll & Hb).
  destruct (concat_set Q i l l' Hl) as (a & b & Hc & Hc').
  assert (concat Q ≡ₚ p :: concat (set Q i l')) as Hcp by (rewrite Hc, Hc', Hperm; solve_Permutation).
  split; [|done].
  assert (s_total_ready s = 1 + zlength (concat (set Q i l'))) as Htot
    by (rewrite (wf_total _ _ Hwf); unfold zlength; rewrite Hcp; simpl; lia).
  pose proof (zlength_nonneg (concat (set Q i l'))).
  assert (u32 (s_total_ready s - 1) = zlength (concat (set Q i l'))) as Hu by (rewrite u32_id; lia).
  unfold left_queue. rewrite Hu. eapply wf_set; try done.
  - intros x _ Hx. by apply Hts.
  - intros x Hx. destruct (wf_prio _ _ Hwf _ _ x Hl) as (tx & Htx & Hpr & Hst); [rewrite Hperm; set_solver|].
    destruct (same_threads_lookup _ _ _ _ Hsame Htx) as (n & Hn). eexists. by split.
  - pose proof (wf_nodup _ _ Hwf) as Hnd. rewrite Hcp in Hnd. by apply NoDup_cons in Hnd as [_ ?].
  - pose proof (wf_bound _ _ Hwf). lia.
  - case_if; [done|]. intros Hi. pose proof (wf_idle _ _ Hwf Hi). lia.
  - case_if; [done|]. intros _. lia.
Qed.

(** ** Dequeue *)

(** [p] is the first thread of the first band that is not empty. *)
Definition first_ready (Q : list (list Z)) (i p : Z) (l : list Z) : Prop :=
  Q .@ i = Some (p :: l) /\ forall j, 0 <= j < i -> Q .@ j = Some [].

Lemma dequeue_loop_ok s Q n i :
  sched_wf s Q -> 0 <= i -> i + Z.of_nat n = SCHED_PRIO_MAX -> (forall j, 0 <= j < i -> Q .@ j = Some []) ->
  (concat Q = [] /\ dequeue_loop n i s = Ret (0, s)) \/
  (exists j p l s', first_ready Q j p l /\ dequeue_loop n i s = Ret (p, s') /\ p <> 0 /\
     sched_wf s' (set Q j l) /\ concat Q ≡ₚ p :: concat (set Q j l) /\
     same_threads (s_threads s) (s_threads s') /\ s_current s' = s_current s /\
     s_preempt_requested s' = s_preempt_requested s).
Proof.
  intros Hwf. pose proof (wf_len _ _ Hwf) as HlenQ. pose proof (wf_queues _ _ Hwf) as Hlenq.
  revert i. induction n as [|n IH]; intros i Hi Hn Hbelow.
  { left. split; [|done]. destruct (concat Q) as [|x l] eqn:E; [done|].
    assert (x ∈ concat Q) as (j & k & Hj & Hx)%elem_of_concat by (rewrite E; set_solver).
    pose proof (get_Some_range _ _ _ Hj). rewrite Hbelow in Hj by lia. injection Hj as <-. set_solver. }
  destruct (get_Some Q i) as (l & Hl); [lia|]. destruct (get_Some (s_queues s) i) as (q & Hq); [lia|].
  pose proof (wf_rep _ _ Hwf _ _ _ Hq Hl) as [Hlk Htail Hcount].
  pose proof (band_facts _ _ _ _ Hwf Hl) as (Hndl & Hll & Hb).
  simpl. unfold queue_at. rewrite Hq. simpl. destruct l as [|p l]; simpl in Hlk.
  - rewrite Hlk. simpl. apply IH; [lia|lia|]. intros j Hj. destruct (Z.eq_dec j i) as [->|]; [done|]. apply Hbelow. lia.
  - destruct Hlk as (Hh & Hp0 & t & Ht & Hlk). rewrite Hh. destruct (Z.eqb_spec p 0); [done|].
    unfold thread_at. rewrite Ht. simpl. right. apply NoDup_cons in Hndl as [Hpl Hndl].
    eexists i, p, l, _. split; [done|]. split; [done|]. split; [done|].
    assert (same_threads (s_threads s) (<[p := set_next t 0]> (s_threads s))) as Hsame by (by eapply same_threads_insert).
    destruct (left_queue_ok s Q i (p :: l) l p (<[p := set_next t 0]> (s_threads s))
                (mk_queue (t_next t) (if t_next t =? 0 then 0 else q_tail q) (u32 (q_count q - 1)))) as [Hwf' Hperm];
      try done.
    + split; simpl.
      * by apply linked_insert.
      * pose proof (linked_null _ _ _ Hlk) as Hnull. destruct (Z.eqb_spec (t_next t) 0) as [Hz|Hz].
        { by rewrite (proj1 Hnull Hz). }
        rewrite Htail. destruct l as [|x l]; [exfalso; by apply Hz, Hnull|]. by rewrite last_cons_cons.
      * rewrite Hcount, zlength_cons. pose proof (zlength_nonneg l). rewrite zlength_cons in Hll. rewrite u32_id; lia.
    + intros x Hx. rewrite lookup_insert_ne; [done|]. set_solver.
Qed.

Lemma dequeue_ok s Q :
  sched_wf s Q ->
  (concat Q = [] /\ sched_dequeue s = Ret (0, s)) \/
  (exists i p l s', first_ready Q i p l /\ sched_dequeue s = Ret (p, s') /\ p <> 0 /\
     sched_wf s' (set Q i l) /\ concat Q ≡ₚ p :: concat (set Q i l) /\
     same_threads (s_threads s) (s_threads s') /\ s_current s' = s_current s /\
     s_preempt_requested s' = s_preempt_requested s).
Proof. intros Hwf. apply dequeue_loop_ok; [done|lia|done|lia]. Qed.

(** ** Removal from the middle of a queue *)

Lemma unlink_thread_ok s Q i q l1 p l2 :
  sched_wf s Q -> s_queues s .@ i = Some q -> Q .@ i = Some (l1 ++ p :: l2) ->
  exists s', unlink_thread s i q (default 0 (last l1)) p = Ret s' /\
    sched_wf s' (set Q i (l1 ++ l2)) /\ concat Q ≡ₚ p :: concat (set Q i (l1 ++ l2)) /\
    same_threads (s_threads s) (s_threads s') /\ s_current s' = s_current s /\
    s_preempt_requested s' = s_preempt_requested s.
Proof.
  intros Hwf Hq Hl. pose proof (wf_rep _ _ Hwf _ _ _ Hq Hl) as [Hlk Htail Hcount].
  pose proof (band_facts _ _ _ _ Hwf Hl) as (Hndl & Hll & Hb).
  destruct (linked_in _ _ _ p Hlk ltac:(set_solver)) as (Hp0 & t & Ht).
  assert (p ∉ l1 ++ l2) as Hpl.
  { assert (NoDup (p :: l1 ++ l2)) as [? _]%NoDup_cons by (by rewrite Permutation_middle). done. }
  assert (exists ts head, (if default 0 (last l1) =? 0 then Ret (s_threads s, t_next t)
            else tp ← thread_at (s_threads s) (default 0 (last l1));
                 Ret (<[default 0 (last l1) := set_next tp (t_next t)]> (s_threads s), q_head q)) = Ret (ts, head) /\
            linked ts head (l1 ++ l2) /\ same_threads (s_threads s) ts /\ ts !! p = Some t /\
            forall x, x ∉ l1 -> ts !! x = s_threads s !! x) as (ts & head & Hun & Hlk' & Hsame & Htp & Hts).
  { destruct (last l1) as [z|] eqn:Hz; simpl.
    - apply last_Some in Hz as (l0 & ->). rewrite <- app_assoc in Hlk, Hndl. simpl in Hlk, Hndl.
      destruct (linked_in _ _ _ z Hlk ltac:(set_solver)) as (Hz0 & tz & Htz).
      destruct (Z.eqb_spec z 0); [done|]. unfold thread_at. rewrite Htz. simpl. eexists _, _. split; [done|].
      split; [rewrite <- app_assoc; simpl; by apply (linked_remove _ _ _ z p)|].
      split; [by eapply same_threads_insert|]. assert (z <> p) by set_solver.
      split; [by rewrite lookup_insert_ne|]. intros x Hx. rewrite lookup_insert_ne; [done|set_solver].
    - apply last_None in Hz as ->. simpl in *. eexists _, _. split; [done|].
      destruct Hlk as (_ & _ & t' & Ht' & Hlk). assert (t' = t) as -> by congruence. done. }
  unfold unlink_thread. rewrite (thread_at_Some _ _ _ Ht). simpl. rewrite Hun. simpl.
  rewrite (thread_at_Some _ _ _ Htp). simpl. eexists. split; [done|].
  destruct (left_queue_ok s Q i (l1 ++ p :: l2) (l1 ++ l2) p (<[p := set_next t 0]> ts)
    (mk_queue head (if q_tail q =? p then default 0 (last l1) else q_tail q) (u32 (q_count q - 1)))) as [Hwf' Hperm];
    try done; [by rewrite Permutation_middle| | | |].
  - split; simpl.
    + by apply linked_insert.
    + rewrite Htail. rewrite last_app_cons. destruct l2 as [|x l2].
      * simpl. rewrite Z.eqb_refl. by rewrite app_nil_r.
      * rewrite last_cons_cons, last_app_cons. destruct (last (x :: l2)) as [y|] eqn:Hy; [|by apply last_None in Hy].
        simpl. pose proof (last_Some_elem_of _ _ Hy). destruct (Z.eqb_spec y p) as [->|]; [set_solver|done].
    + rewrite Hcount, !zlength_app, zlength_cons. rewrite zlength_app, zlength_cons in Hll.
      pose proof (zlength_nonneg l1). pose proof (zlength_nonneg l2). rewrite u32_id; lia.
  - etransitivity; [exact Hsame|]. by eapply same_threads_insert.
  - intros x Hx. rewrite lookup_insert_ne by set_solver. apply Hts. set_solver.
  - split; [done|]. split; [done|]. split; [|done]. simpl.
    etransitivity; [exact Hsame|]. by eapply same_threads_insert.
Qed.

Lemma remove_loop_ok s Q p n i :
  sched_wf s Q -> 0 <= i -> i + Z.of_nat n = SCHED_PRIO_MAX ->
  (forall j l, 0 <= j < i -> Q .@ j = Some l -> p ∉ l) ->
  (~ queued Q p /\ remove_loop n i s p = Ret (false, s)) \/
  (exists j l1 l2 s', Q .@ j = Some (l1 ++ p :: l2) /\ remove_loop n i s p = Ret (true, s') /\
     sched_wf s' (set Q j (l1 ++ l2)) /\ concat Q ≡ₚ p :: concat (set Q j (l1 ++ l2)) /\
     same_threads (s_threads s) (s_threads s') /\ s_current s' = s_current s /\
     s_preempt_requested s' = s_preempt_requested s).
Proof.
  intros Hwf. pose proof (wf_len _ _ Hwf) as HlenQ. pose proof (wf_queues _ _ Hwf) as Hlenq.
  revert i. induction n as [|n IH]; intros i Hi Hn Hbelow.
  { left. split; [|done]. intros (j & k & Hj & Hx)%elem_of_concat.
    pose proof (get_Some_range _ _ _ Hj). eapply Hbelow; [|exact Hj|exact Hx]. lia. }
  destruct (get_Some Q i) as (l & Hl); [lia|]. destruct (get_Some (s_queues s) i) as (q & Hq); [lia|].
  pose proof (wf_rep _ _ Hwf _ _ _ Hq Hl) as Hrep. pose proof (band_facts _ _ _ _ Hwf Hl) as (Hndl & _).
  simpl. unfold queue_at. rewrite Hq. simpl.
  destruct (find_prev_spec (s_threads s) p (walk_fuel s) 0 (q_head q) l) as [[Hnp ->]|(l1 & l2 & -> & ->)].
  - by eapply linked_short, Hrep.
  - apply Hrep.
  - simpl. apply IH; [lia|lia|]. intros j k Hj Hk. destruct (Z.eq_dec j i) as [->|]; [congruence|].
    apply (Hbelow j); [lia|done].
  - simpl. destruct (unlink_thread_ok s Q i q l1 p l2 Hwf Hq Hl) as (s' & -> & Hrest). simpl.
    right. exists i, l1, l2, s'. by split.
Qed.

Lemma queue_remove_ok s Q p :
  sched_wf s Q -> p <> 0 ->
  (~ queued Q p /\ queue_remove s p = Ret (false, s)) \/
  (exists i l1 l2 s', Q .@ i = Some (l1 ++ p :: l2) /\ queue_remove s p = Ret (true, s') /\
     sched_wf s' (set Q i (l1 ++ l2)) /\ concat Q ≡ₚ p :: concat (set Q i (l1 ++ l2)) /\
     same_threads (s_threads s) (s_threads s') /\ s_current s' = s_current s /\
     s_preempt_requested s' = s_preempt_requested s).
Proof.
  intros Hwf Hp. unfold queue_remove. destruct (Z.eqb_spec p 0); [done|].
  apply remove_loop_ok; [done|lia|done|lia].
Qed.

(** ** The other operations *)

Lemma not_ready_not_queued s Q p t :
  sched_wf s Q -> s_threads s !! p = Some t -> t_state t <> PROCESS_STATE_READY -> ~ queued Q p.
Proof.
  intros Hwf Ht Hst (i & l & Hl & Hp)%elem_of_concat.
  destruct (wf_prio _ _ Hwf _ _ _ Hl Hp) as (t' & Ht' & _ & Hr). congruence.
Qed.

Lemma wf_preempt s Q b : sched_wf s Q -> sched_wf (with_preempt s b) Q.
Proof. intros []. by split. Qed.

Lemma wf_current s Q p : sched_wf s Q -> sched_wf (sched_set_current s p) Q.
Proof. intros []. by split. Qed.

Lemma yield_ok s Q c t :
  sched_wf s Q -> c <> 0 -> s_threads s !! c = Some t -> t_state t = PROCESS_STATE_RUNNING ->
  0 <= priority t < SCHED_PRIO_MAX -> s_total_ready s < SCHED_MAX_THREADS ->
  exists s', sched_yield s c = Ret (true, s') /\ sched_wf s' (push_band Q (priority t) c) /\
    same_threads (<[c := requeued t]> (s_threads s)) (s_threads s') /\ s_current s' = s_current s.
Proof.
  intros Hwf Hc Ht Hst Hpr Htot. unfold sched_yield. destruct (Z.eqb_spec c 0); [done|].
  rewrite (thread_at_Some _ _ _ Ht). simpl. rewrite bool_decide_true by done. simpl.
  assert (~ queued Q c) as Hnq by (eapply not_ready_not_queued; [done|done|by rewrite Hst]).
  destruct (enqueue_ok (with_preempt (put_thread s c (requeued t)) false) Q c (requeued t)) as (s' & He & Hwf' & Hs & Hcur & _);
    try done.
  - apply wf_preempt, wf_put_thread; [done|by left].
  - simpl. by rewrite lookup_insert_eq.
  - eauto 10.
Qed.

Lemma unblock_ok s Q p t :
  sched_wf s Q -> p <> 0 -> s_threads s !! p = Some t -> t_state t = PROCESS_STATE_BLOCKED ->
  0 <= priority t < SCHED_PRIO_MAX -> s_total_ready s < SCHED_MAX_THREADS ->
  exists s', sched_unblock s p = Ret (true, s') /\ sched_wf s' (push_band Q (priority t) p) /\
    same_threads (<[p := with_state t PROCESS_STATE_READY]> (s_threads s)) (s_threads s') /\
    s_current s' = s_current s.
Proof.
  intros Hwf Hc Ht Hst Hpr Htot. unfold sched_unblock. destruct (Z.eqb_spec p 0); [done|].
  rewrite (thread_at_Some _ _ _ Ht). simpl. rewrite bool_decide_true by done. simpl.
  assert (~ queued Q p) as Hnq by (eapply not_ready_not_queued; [done|done|by rewrite Hst]).
  destruct (enqueue_ok (put_thread s p (with_state t PROCESS_STATE_READY)) Q p (with_state t PROCESS_STATE_READY))
    as (s' & He & Hwf' & Hs & Hcur & _); try done.
  - apply wf_put_thread; [done|by left].
  - simpl. by rewrite lookup_insert_eq.
  - eauto 10.
Qed.

(** ** Reachable scheduler states

    The ways the kernel uses the scheduler.  A context switch goes to a thread
    that was just taken from a queue. *)

(** [NULL], or the address of a control block. *)
Definition valid (s : sched) (p : Z) : Prop := p = 0 \/ is_Some (s_threads s !! p).

Inductive sched_reaches : sched -> Prop :=
| sr_init s : s_threads s = ∅ -> sched_reaches (sched_init s)
| sr_new_thread s p t : sched_reaches s -> p <> 0 -> s_threads s !! p = None -> 0 <= priority t ->
    sched_reaches (put_thread s p t)
| sr_enqueue s p r : sched_reaches s -> valid s p -> sched_enqueue s p = Ret r -> sched_reaches r.2
| sr_dispatch s prev next s1 s2 : sched_reaches s -> sched_dequeue s = Ret (next, s1) ->
    sched_context_switch s1 prev next = Ret s2 -> sched_reaches s2
| sr_next s current next s1 prev s2 : sched_reaches s -> valid s current -> sched_next s current = Ret (next, s1) ->
    sched_context_switch s1 prev next = Ret s2 -> sched_reaches s2
| sr_yield s p r : sched_reaches s -> valid s p -> sched_yield s p = Ret r -> sched_reaches r.2
| sr_tick s p s' : sched_reaches s -> valid s p -> sched_tick s p = Ret s' -> sched_reaches s'
| sr_block s p r : sched_reaches s -> valid s p -> sched_block s p = Ret r -> sched_reaches r.2
| sr_unblock s p r : sched_reaches s -> valid s p -> sched_unblock s p = Ret r -> sched_reaches r.2
| sr_set_priority s p t prio : sched_reaches s -> s_threads s !! p = Some t ->
    t_state t = PROCESS_STATE_RUNNING -> 0 <= prio -> sched_reaches (put_thread s p (set_priority t prio))
| sr_set_current s p : sched_reaches s -> sched_reaches (sched_set_current s p).

Definition threads_ok (ts : gmap Z thread) : Prop :=
  ts !! 0 = None /\ forall p t, ts !! p = Some t -> 0 <= priority t.

Definition sched_inv (s : sched) : Prop := threads_ok (s_threads s) /\ exists Q, sched_wf s Q.

(** An operation that keeps the invariant, and terminates without a fault. *)
Definition keeps {A} (m : outcome (A * sched)) : Prop :=
  match m with Ret (_, s) => sched_inv s | _ => False end.

Lemma threads_ok_same ts ts' : same_threads ts ts' -> threads_ok ts -> threads_ok ts'.
Proof.
  intros Hs [H0 Hp]. split.
  - specialize (Hs 0). rewrite H0 in Hs. simpl in Hs. by destruct (ts' !! 0).
  - intros p t Ht. symmetry in Hs. destruct (same_threads_lookup _ _ _ _ Hs Ht) as (n & Hn).
    by pose proof (Hp _ _ Hn).
Qed.

Lemma threads_ok_insert ts p t : threads_ok ts -> p <> 0 -> 0 <= priority t -> threads_ok (<[p := t]> ts).
Proof.
  intros [H0 Hp] Hp0 Ht. split; [by rewrite lookup_insert_ne by done|].
  intros q tq [[_ <-]|[_ Hq]]%lookup_insert_Some; [done|by eapply Hp].
Qed.

Lemma enqueue_keeps s p : sched_inv s -> p = 0 \/ is_Some (s_threads s !! p) -> keeps (sched_enqueue s p).
Proof.
  intros [Hts (Q & Hwf)] [->|(t & Ht)]; [by split; [|exists Q]|].
  assert (p <> 0) as Hp0 by (intros ->; destruct Hts; congruence).
  pose proof (proj2 Hts p t Ht) as Hpr.
  destruct (decide (t_state t = PROCESS_STATE_READY)) as [Hst|Hst];
    [|rewrite (enqueue_refused s Q p t) by eauto; by split; [|exists Q]].
  destruct (Z_lt_ge_dec (priority t) SCHED_PRIO_MAX);
    [|rewrite (enqueue_refused s Q p t) by (auto || lia); by split; [|exists Q]].
  destruct (Z_lt_ge_dec (s_total_ready s) SCHED_MAX_THREADS);
    [|rewrite (enqueue_refused s Q p t) by (auto || lia); by split; [|exists Q]].
  destruct (decide (p ∈ concat Q)) as [Hq|Hq];
    [rewrite (enqueue_refused s Q p t) by auto; by split; [|exists Q]|].
  destruct (enqueue_ok s Q p t) as (s' & -> & Hwf' & Hs & _); try done.
  split; [by eapply threads_ok_same|by eexists].
Qed.

Section keeping.
Context (s : sched) (Hinv : sched_inv s).

(** A change of a control block in no queue. *)
Lemma put_keeps p t t' :
  s_threads s !! p = Some t -> t_state t <> PROCESS_STATE_READY -> priority t' = priority t ->
  sched_inv (put_thread s p t').
Proof.
  destruct Hinv as [Hts (Q & Hwf)]. intros Ht Hst Hpr. split.
  - apply threads_ok_insert; [done|intros ->; destruct Hts; congruence|]. rewrite Hpr. by eapply Hts.
  - exists Q. apply wf_put_thread; [done|]. left. by eapply not_ready_not_queued.
Qed.

Lemma preempt_keeps b : sched_inv (with_preempt s b).
Proof. destruct Hinv as [Hts (Q & Hwf)]. split; [done|]. exists Q. by apply wf_preempt. Qed.

Lemma dequeue_keeps : keeps (sched_dequeue s).
Proof.
  destruct Hinv as [Hts (Q & Hwf)].
  destruct (dequeue_ok s Q Hwf) as [[_ ->]|(i & p & l & s' & _ & -> & _ & Hwf' & _ & Hs & _)].
  - done.
  - split; [by eapply threads_ok_same|by eexists].
Qed.

Lemma yield_keeps p : p = 0 \/ is_Some (s_threads s !! p) -> keeps (sched_yield s p).
Proof.
  intros Hp. unfold sched_yield. destruct (Z.eqb_spec p 0); [done|]. destruct Hp as [|(t & Ht)]; [done|].
  rewrite (thread_at_Some _ _ _ Ht). simpl. destruct (bool_decide_reflect (t_state t = PROCESS_STATE_RUNNING)) as [Hr|]; [|done].
  simpl. apply enqueue_keeps; [|right; simpl; rewrite lookup_insert_eq; by eexists].
  assert (sched_inv (put_thread s p (requeued t))) as Hi by (eapply put_keeps; [done|by rewrite Hr|done]).
  destruct Hi as [Hts' (Q' & Hwf')]. split; [done|]. exists Q'. by apply wf_preempt.
Qed.

Lemma unblock_keeps p : p = 0 \/ is_Some (s_threads s !! p) -> keeps (sched_unblock s p).
Proof.
  intros Hp. unfold sched_unblock. destruct (Z.eqb_spec p 0); [done|]. destruct Hp as [|(t & Ht)]; [done|].
  rewrite (thread_at_Some _ _ _ Ht). simpl. destruct (bool_decide_reflect (t_state t = PROCESS_STATE_BLOCKED)) as [Hr|]; [|done].
  simpl. apply enqueue_keeps; [|right; simpl; rewrite lookup_insert_eq; by eexists].
  eapply put_keeps; [done|by rewrite Hr|done].
Qed.

Lemma block_keeps p : p = 0 \/ is_Some (s_threads s !! p) -> keeps (sched_block s p).
Proof.
  intros Hp. unfold sched_block. destruct (Z.eqb_spec p 0); [done|]. destruct Hp as [|(t & Ht)]; [done|].
  rewrite (thread_at_Some _ _ _ Ht). simpl. destruct (t_state t) eqn:Hst; try done.
  - destruct Hinv as [Hts (Q & Hwf)].
    destruct (queue_remove_ok s Q p Hwf) as [[_ ->]|(i & l1 & l2 & s' & Hl & -> & Hwf' & Hperm & Hs & _)]; [done|done|].
    simpl. destruct (same_threads_lookup _ _ _ _ Hs Ht) as (nx & Hnx). rewrite (thread_at_Some _ _ _ Hnx). simpl.
    assert (~ queued (set Q i (l1 ++ l2)) p) as Hnq.
    { pose proof (wf_nodup _ _ Hwf) as Hnd. rewrite Hperm in Hnd. by apply NoDup_cons in Hnd as [? _]. }
    split; simpl.
    + apply threads_ok_insert; [by eapply threads_ok_same|done|]. simpl. by eapply Hts.
    + eexists. apply wf_put_thread; [done|by left].
  - simpl. eapply put_keeps; [done|by rewrite Hst|done].
Qed.

Lemma tick_keeps p : p = 0 \/ is_Some (s_threads s !! p) ->
  exists s', sched_tick s p = Ret s' /\ sched_inv s'.
Proof.
  intros Hp. unfold sched_tick. destruct (Z.eqb_spec p 0); [by exists s|]. destruct Hp as [|(t & Ht)]; [done|].
  rewrite (thread_at_Some _ _ _ Ht). simpl.
  set (t' := set_ticks t _ _).
  assert (sched_inv (put_thread s p t')) as [Hts' (Q & Hwf)].
  { destruct Hinv as [Hts (Q & Hwf)]. split; [apply threads_ok_insert; [done|done|exact (proj2 Hts p t Ht)]|].
    exists Q. apply wf_put_thread; [done|]. right. by exists t. }
  case_if; eexists; (split; [done|]); [|by split; [|exists Q]].
  split; [done|]. exists Q. destruct Hwf. by split.
Qed.

Lemma is_running_total p : p = 0 \/ is_Some (s_threads s !! p) -> exists b, is_running s p = Ret b.
Proof.
  intros Hp. unfold is_running. destruct (Z.eqb_spec p 0); [by eexists|]. destruct Hp as [|(t & Ht)]; [done|].
  rewrite (thread_at_Some _ _ _ Ht). by eexists.
Qed.

Lemma switch_keeps prev next :
  (forall t, s_threads s !! next = Some t -> forall Q, sched_wf s Q -> ~ queued Q next) ->
  next = 0 \/ is_Some (s_threads s !! next) ->
  exists s', sched_context_switch s prev next = Ret s' /\ sched_inv s'.
Proof.
  intros Hnq Hn. unfold sched_context_switch. destruct (Z.eqb_spec prev 0); [by exists s|].
  destruct (Z.eqb_spec next 0); [by exists s|]. destruct Hn as [|(t & Ht)]; [done|]. simpl.
  rewrite (thread_at_Some _ _ _ Ht). simpl. eexists. split; [done|].
  destruct Hinv as [Hts (Q & Hwf)]. split; simpl.
  - apply threads_ok_insert; [done|done|exact (proj2 Hts next t Ht)].
  - exists Q. apply wf_current, wf_put_thread; [done|]. left. by eapply Hnq.
Qed.

End keeping.

(** The queues are determined by the links. *)
Lemma linked_unique ts hd l l' : linked ts hd l -> linked ts hd l' -> l = l'.
Proof.
  revert hd l'. induction l as [|p l IH]; intros hd l'; destruct l' as [|p' l']; simpl; naive_solver.
Qed.

Lemma wf_unique s Q Q' : sched_wf s Q -> sched_wf s Q' -> Q = Q'.
Proof.
  intros Hwf Hwf'. apply list_eq. intros n.
  assert (forall A (l : list A), l !! n = l .@ (Z.of_nat n)) as Hg.
  { intros A l. unfold get. destruct (Z.ltb_spec (Z.of_nat n) 0); [lia|]. by rewrite Nat2Z.id. }
  rewrite !Hg. pose proof (wf_len _ _ Hwf) as H1. pose proof (wf_len _ _ Hwf') as H2. pose proof (wf_queues _ _ Hwf) as H3.
  destruct (Z_lt_ge_dec (Z.of_nat n) SCHED_PRIO_MAX) as [Hn|Hn].
  - destruct (get_Some Q (Z.of_nat n)) as (l & Hl); [lia|]. destruct (get_Some Q' (Z.of_nat n)) as (l' & Hl'); [lia|].
    destruct (get_Some (s_queues s) (Z.of_nat n)) as (q & Hq); [lia|]. rewrite Hl, Hl'. f_equal.
    eapply linked_unique; [by eapply (wf_rep _ _ Hwf)|by eapply (wf_rep _ _ Hwf')].
  - rewrite !get_None by lia. done.
Qed.

(** A thread that was taken from a queue is in no queue. *)
Lemma dequeue_unqueued s p s' :
  sched_inv s -> sched_dequeue s = Ret (p, s') -> p <> 0 ->
  sched_inv s' /\ is_Some (s_threads s' !! p) /\ forall Q, sched_wf s' Q -> ~ queued Q p.
Proof.
  intros Hinv E Hp. pose proof (dequeue_keeps s Hinv) as Hk. rewrite E in Hk. split; [done|].
  destruct Hinv as [Hts (Q & Hwf)].
  destruct (dequeue_ok s Q Hwf) as [[_ E']|(i & q & l & s1 & [Hf _] & E' & _ & Hwf' & Hperm & Hs & _)];
    rewrite E in E'; injection E' as -> ->; [done|].
  destruct (wf_prio _ _ Hwf _ _ q Hf) as (t & Ht & _); [set_solver|].
  destruct (same_threads_lookup _ _ _ _ Hs Ht) as (n & Hn). split; [by eexists|].
  intros Q' HQ'. rewrite <- (wf_unique _ _ _ Hwf' HQ'). unfold queued.
  pose proof (wf_nodup _ _ Hwf) as Hnd. rewrite Hperm in Hnd. by apply NoDup_cons in Hnd as [? _].
Qed.

(** Nothing was taken: the queues are empty, and the scheduler may go idle. *)
Lemma dequeue_none s s' : sched_inv s -> sched_dequeue s = Ret (0, s') ->
  s' = s /\ sched_inv (with_sched_state s SCHED_IDLE).
Proof.
  intros [Hts (Q & Hwf)] E.
  destruct (dequeue_ok s Q Hwf) as [[Hem E']|(i & q & l & s3 & _ & E' & Hq0 & _)]; rewrite E in E';
    injection E' as; [|done].
  split; [done|]. split; [done|]. exists Q. pose proof (wf_total _ _ Hwf) as Htot. rewrite Hem in Htot.
  destruct Hwf. by split.
Qed.

(** The first half of [sched_next]: a preempted thread goes back to its queue. *)
Lemma requeue_keeps s current :
  sched_inv s -> current = 0 \/ is_Some (s_threads s !! current) ->
  exists s1 c1,
    (preempt ← (if s_preempt_requested s then is_running s current else Ret false);
     if (preempt : bool) then
       t ← thread_at (s_threads s) current;
       '(_, s) ← sched_enqueue (put_thread (with_preempt s false) current (requeued t)) current;
       Ret (s, 0)
     else Ret (s, current)) = Ret (s1, c1) /\ sched_inv s1 /\ (c1 = 0 \/ is_Some (s_threads s1 !! c1)).
Proof.
  intros Hinv Hc. destruct (s_preempt_requested s); [|by exists s, current].
  unfold is_running. destruct (Z.eqb_spec current 0) as [->|]; [exists s, 0; auto|].
  destruct Hc as [|(t & Ht)]; [done|]. rewrite (thread_at_Some _ _ _ Ht). simpl.
  destruct (bool_decide_reflect (t_state t = PROCESS_STATE_RUNNING)) as [Hr|]; [|exists s, current; eauto].
  assert (keeps (sched_enqueue (put_thread (with_preempt s false) current (requeued t)) current)) as Hk.
  { apply enqueue_keeps; [|right; simpl; rewrite lookup_insert_eq; by eexists].
    eapply (put_keeps (with_preempt s false)); [by apply preempt_keeps|done|by rewrite Hr|done]. }
  simpl.
  destruct (sched_enqueue _ _) as [[b s1]| | |]; try done. exists s1, 0. eauto.
Qed.

Lemma next_keeps s current :
  sched_inv s -> current = 0 \/ is_Some (s_threads s !! current) ->
  exists next s', sched_next s current = Ret (next, s') /\ sched_inv s' /\
    (next = 0 \/ is_Some (s_threads s' !! next)) /\
    (next <> 0 -> forall Q, sched_wf s' Q -> ~ queued Q next).
Proof.
  intros Hinv Hc. destruct (requeue_keeps s current Hinv Hc) as (s1 & c1 & Hre & Hinv1 & Hc1).
  unfold sched_next.
  destruct (if s_preempt_requested s then _ else _) as [b| | |]; try discriminate. simpl in Hre |- *.
  rewrite Hre. simpl. pose proof (dequeue_keeps s1 Hinv1) as Hk.
  destruct (sched_dequeue s1) as [[p s2]| | |] eqn:Hd; try done. simpl. simpl in Hk.
  destruct (Z.eqb_spec p 0) as [->|Hp].
  - destruct (dequeue_none s1 s2 Hinv1 Hd) as [-> Hidle]. unfold is_running.
    destruct (Z.eqb_spec c1 0) as [->|Hc0]; simpl; [eexists _, _; split; [done|]; split; [done|]; auto|].
    destruct Hc1 as [|(t & Ht)]; [done|]. rewrite (thread_at_Some _ _ _ Ht). simpl.
    destruct (bool_decide_reflect (t_state t = PROCESS_STATE_RUNNING)) as [Hr|Hr];
      (eexists _, _; split; [done|]; split; [done|]); [|auto].
    split; [right; by eexists|]. intros _ Q HQ. eapply not_ready_not_queued; [done|done|by rewrite Hr].
  - destruct (dequeue_unqueued s1 p s2 Hinv1 Hd Hp) as ([Hts (Q2 & Hwf2)] & (t & Ht) & Hnq).
    rewrite (thread_at_Some _ _ _ Ht). simpl.
    case_if; (eexists _, _; split; [done|]); [|split; [by split; [|exists Q2]|]; split; [right; by eexists|done]].
    assert (sched_wf (put_thread s2 p (set_ticks t SCHED_DEFAULT_QUANTUM (total_ticks t))) Q2) as Hput
      by (apply wf_put_thread; [done|left; by apply Hnq]).
    split; [split; [apply threads_ok_insert; [done|done|exact (proj2 Hts p t Ht)]|by exists Q2]|]. split.
    + right. simpl. rewrite lookup_insert_eq. by eexists.
    + intros _ Q HQ. rewrite <- (wf_unique _ _ _ Hput HQ). by apply Hnq.
Qed.

Lemma keeps_Ret {A} (m : outcome (A * sched)) r : keeps m -> m = Ret r -> sched_inv r.2.
Proof. intros Hk ->. by destruct r. Qed.

Lemma sched_init_inv s : s_threads s = ∅ -> sched_inv (sched_init s).
Proof.
  intros Hs. split; [simpl; by rewrite Hs|]. exists (replicate 8 []). split; try done.
  - intros i q l Hq%get_In Hl%get_In. apply elem_of_replicate in Hq as [-> _]. by apply elem_of_replicate in Hl as [-> _].
  - simpl. constructor.
  - intros i l p Hl%get_In. apply elem_of_replicate in Hl as [-> _]. set_solver.
Qed.

Lemma sched_reaches_inv s : sched_reaches s -> sched_inv s.
Proof.
  induction 1 as [s Hs|s p t _ IH Hp Hn Hpr|s p r _ IH Hv E|s prev next s1 s2 _ IH E1 E2|s cur next s1 prev s2 _ IH Hv E1 E2
    |s p r _ IH Hv E|s p s' _ IH Hv E|s p r _ IH Hv E|s p r _ IH Hv E|s p t prio _ IH Ht Hr Hpr|s p _ IH].
  - by apply sched_init_inv.
  - destruct IH as [Hts (Q & Hwf)]. split; [by apply threads_ok_insert|]. exists Q. apply wf_put_thread; [done|].
    left. intros (i & l & Hl & Hpl)%elem_of_concat. destruct (wf_prio _ _ Hwf _ _ _ Hl Hpl) as (t' & Ht' & _). congruence.
  - eapply keeps_Ret; [by apply enqueue_keeps|done].
  - pose proof (dequeue_keeps s IH) as Hk. rewrite E1 in Hk. simpl in Hk.
    destruct (Z.eq_dec next 0) as [->|Hn].
    + unfold sched_context_switch in E2. rewrite orb_true_r in E2. by injection E2 as <-.
    + destruct (dequeue_unqueued s next s1 IH E1 Hn) as (Hk1 & Hsome & Hnq).
      destruct (switch_keeps s1 Hk1 prev next) as (s3 & E3 & Hk3); [by intros; apply Hnq|by right|]. congruence.
  - destruct (next_keeps s cur IH Hv) as (next' & s1' & E1' & Hk & Hval & Hnq). rewrite E1 in E1'. injection E1' as <- <-.
    destruct (Z.eq_dec next 0) as [->|Hn].
    + unfold sched_context_switch in E2. rewrite orb_true_r in E2. by injection E2 as <-.
    + destruct (switch_keeps s1 Hk prev next) as (s3 & E3 & Hk3); [by intros; apply Hnq|done|]. congruence.
  - eapply keeps_Ret; [by apply yield_keeps|done].
  - destruct (tick_keeps s IH p Hv) as (s2 & E' & Hk). congruence.
  - eapply keeps_Ret; [by apply block_keeps|done].
  - eapply keeps_Ret; [by apply unblock_keeps|done].
  - destruct IH as [Hts (Q & Hwf)]. split; [apply threads_ok_insert; [done| |done]; intros ->; destruct Hts; congruence|].
    exists Q. apply wf_put_thread; [done|]. left. eapply not_ready_not_queued; [done|done|by rewrite Hr].
  - destruct IH as [Hts (Q & Hwf)]. split; [done|]. exists Q. by apply wf_current.
Qed.

(** ** Effects on the control blocks *)

Lemma enqueue_frame s p : sched_inv s -> valid s p ->
  exists b s', sched_enqueue s p = Ret (b, s') /\ sched_inv s' /\
    same_threads (s_threads s) (s_threads s') /\ s_current s' = s_current s.
Proof.
  intros Hinv Hv. pose proof (enqueue_keeps s p Hinv Hv) as Hk.
  destruct Hinv as [Hts (Q & Hwf)]. destruct Hv as [->|(t & Ht)]; [by exists false, s|].
  assert (p <> 0) as Hp0 by (intros ->; destruct Hts; congruence).
  pose proof (proj2 Hts p t Ht) as Hpr.
  destruct (sched_enqueue s p) as [[b s']| | |] eqn:E; try done. exists b, s'. split; [done|]. split; [done|].
  destruct (decide (t_state t = PROCESS_STATE_READY /\ priority t < SCHED_PRIO_MAX /\
      s_total_ready s < SCHED_MAX_THREADS /\ p ∉ concat Q)) as [(?&?&?&?)|Hn].
  - destruct (enqueue_ok s Q p t) as (s1 & E1 & _ & Hs & Hc & _); try done.
    rewrite E in E1. by injection E1 as -> ->.
  - rewrite (enqueue_refused s Q p t) in E; try done; [by injection E as <- <-|].
    destruct (decide (t_state t = PROCESS_STATE_READY)) as [H1|]; [|by left].
    destruct (decide (p ∈ concat Q)) as [|H2]; [by do 3 right|].
    destruct (Z_lt_ge_dec (priority t) SCHED_PRIO_MAX) as [H3|]; [|right; left; lia].
    destruct (Z_lt_ge_dec (s_total_ready s) SCHED_MAX_THREADS) as [H4|]; [|right; right; left; lia].
    exfalso. by apply Hn.
Qed.

(** The bands after [p] was unblocked: it is the last of its band, unless its priority
    has no band or there are already [SCHED_MAX_THREADS] ready threads. *)
Definition woken_bands (s : sched) (p : Z) (Q : list (list Z)) : list (list Z) :=
  match s_threads s !! p with
  | Some t => if (priority t <? SCHED_PRIO_MAX) && (s_total_ready s <? SCHED_MAX_THREADS) then push_band Q (priority t) p else Q
  | None => Q
  end.

Lemma woken_queued s p t Q : sched_wf s Q -> s_threads s !! p = Some t -> 0 <= priority t < SCHED_PRIO_MAX ->
  s_total_ready s < SCHED_MAX_THREADS -> queued (woken_bands s p Q) p.
Proof.
  intros Hwf Ht Hp Hr. unfold woken_bands, queued. rewrite Ht. rewrite (proj2 (Z.ltb_lt _ _)), (proj2 (Z.ltb_lt _ _)) by lia. cbn [andb].
  rewrite push_band_perm by (rewrite (wf_len _ _ Hwf); lia). apply elem_of_cons. by left.
Qed.

Lemma unblock_bands s Q p t b s' : sched_inv s -> sched_wf s Q -> s_threads s !! p = Some t -> t_state t = PROCESS_STATE_BLOCKED ->
  sched_unblock s p = Ret (b, s') -> sched_wf s' (woken_bands s p Q).
Proof.
  intros Hinv Hwf Ht Hst E. assert (p <> 0) as Hp0 by (intros ->; destruct Hinv as [[H0 _] _]; congruence).
  pose proof (proj2 (proj1 Hinv) p t Ht) as Hpr. unfold woken_bands. rewrite Ht.
  destruct (Z.ltb_spec (priority t) SCHED_PRIO_MAX); [destruct (Z.ltb_spec (s_total_ready s) SCHED_MAX_THREADS)|]; cbn [andb].
  { destruct (unblock_ok s Q p t) as (s1 & E1 & Hwf1 & _); try done. rewrite E in E1. by injection E1 as -> ->. }
  all: assert (~ queued Q p) as Hnq by (eapply not_ready_not_queued; [done|done|by rewrite Hst]);
    unfold sched_unblock in E; rewrite (proj2 (Z.eqb_neq _ _) Hp0), (thread_at_Some _ _ _ Ht) in E; simpl in E;
    rewrite bool_decide_true in E by done; simpl in E;
    rewrite (enqueue_refused _ Q p (with_state t PROCESS_STATE_READY)) in E;
    [injection E as <- <-; apply wf_put_thread; [done|by left]|apply wf_put_thread; [done|by left]|done|simpl; by rewrite lookup_insert_eq|done|
     simpl; auto].
Qed.

(** Unblocking makes a BLOCKED thread READY and leaves the others alone. *)
Lemma unblock_frame s p t : sched_inv s -> s_threads s !! p = Some t -> t_state t = PROCESS_STATE_BLOCKED ->
  exists b s', sched_unblock s p = Ret (b, s') /\ sched_inv s' /\
    same_threads (<[p := with_state t PROCESS_STATE_READY]> (s_threads s)) (s_threads s') /\ s_current s' = s_current s /\
    forall Q, sched_wf s Q -> sched_wf s' (woken_bands s p Q).
Proof.
  intros Hinv Ht Hst. pose proof (fun Q b s' Hwf => unblock_bands s Q p t b s' Hinv Hwf Ht Hst) as Hbands. unfold sched_unblock in *.
  assert (p <> 0) by (intros ->; destruct Hinv as [[H0 _] _]; congruence).
  destruct (Z.eqb_spec p 0); [done|]. rewrite (thread_at_Some _ _ _ Ht) in *. simpl in *. rewrite bool_decide_true in * by done. simpl in *.
  destruct (enqueue_frame (put_thread s p (with_state t PROCESS_STATE_READY)) p) as (b & s' & E & Hk & Hs & Hc).
  - eapply put_keeps; [done|done|by rewrite Hst|done].
  - right. simpl. rewrite lookup_insert_eq. by eexists.
  - exists b, s'. split_and!; try done. intros Q Hwf. by apply (Hbands Q b s').
Qed.

Lemma dequeue_frame s : sched_inv s -> exists p s', sched_dequeue s = Ret (p, s') /\ sched_inv s' /\
  same_threads (s_threads s) (s_threads s') /\ s_current s' = s_current s /\
  (p = 0 -> s' = s /\ forall Q, sched_wf s Q -> concat Q = []) /\
  (p <> 0 -> (forall Q, sched_wf s' Q -> ~ queued Q p) /\
     exists t, s_threads s !! p = Some t /\ t_state t = PROCESS_STATE_READY).
Proof.
  intros Hinv. pose proof (dequeue_keeps s Hinv) as Hk.
  destruct (sched_dequeue s) as [[p s']| | |] eqn:E; try done. exists p, s'. split; [done|]. split; [done|].
  pose proof Hinv as [Hts (Q & Hwf)].
  destruct (dequeue_ok s Q Hwf) as [[Hem E']|(i & q & l & s1 & [Hf _] & E' & Hq0 & Hwf' & Hperm & Hs & Hc & _)];
    rewrite E in E'; injection E' as -> ->.
  - split; [done|]. split; [done|]. split; [|done]. intros _. split; [done|]. intros Q' HQ'.
    by rewrite <- (wf_unique _ _ _ Hwf HQ').
  - split; [done|]. split; [done|]. split; [done|]. intros _. split; [|].
    + by apply (dequeue_unqueued s q s1).
    + destruct (wf_prio _ _ Hwf _ _ q Hf) as (t & Ht & _ & Hst); [set_solver|]. by exists t.
Qed.

(** In every reachable state the run queues are well-formed (each queue is
    linked from its head to its tail, its threads are READY and have its
    priority, no thread is queued twice, the counts and the idle state agree),
    and every operation on [NULL] or an existing thread returns, without
    following a bad link or going round a cycle, in such a state again. *)
Theorem sched_safe s :
  sched_reaches s ->
  (exists Q, sched_wf s Q) /\ keeps (sched_dequeue s) /\
  forall p, valid s p ->
    keeps (sched_enqueue s p) /\ keeps (sched_yield s p) /\ keeps (sched_next s p) /\
    keeps (sched_block s p) /\ keeps (sched_unblock s p) /\
    exists s', sched_tick s p = Ret s' /\ sched_inv s'.
Proof.
  intros Hinv%sched_reaches_inv. split; [apply Hinv|]. split; [by apply dequeue_keeps|]. intros p Hv.
  split; [by apply enqueue_keeps|]. split; [by apply yield_keeps|].
  split; [destruct (next_keeps s p Hinv Hv) as (n & s' & -> & Hk & _); exact Hk|].
  split; [by apply block_keeps|]. split; [by apply unblock_keeps|by apply tick_keeps].
Qed.

(** C33: against the abstract run queues, one FIFO list per priority: dequeue
    answers the oldest thread of the highest non-empty priority and removes
    exactly it; enqueue accepts a READY thread that is not queued while there is
    room, puts it behind the threads of its priority, and otherwise changes
    nothing; a block removes a READY thread wherever it is queued. *)
Theorem sched_refines_bands s Q :
  sched_wf s Q ->
  ((concat Q = [] /\ sched_dequeue s = Ret (0, s)) \/
   (exists i p l s', first_ready Q i p l /\ sched_dequeue s = Ret (p, s') /\ sched_wf s' (set Q i l) /\
      same_threads (s_threads s) (s_threads s'))) /\
  (forall p t, p <> 0 -> s_threads s !! p = Some t -> 0 <= priority t ->
     (t_state t = PROCESS_STATE_READY /\ priority t < SCHED_PRIO_MAX /\ s_total_ready s < SCHED_MAX_THREADS /\
      ~ queued Q p /\ exists s', sched_enqueue s p = Ret (true, s') /\ sched_wf s' (push_band Q (priority t) p) /\
      same_threads (s_threads s) (s_threads s')) \/
     ((t_state t <> PROCESS_STATE_READY \/ SCHED_PRIO_MAX <= priority t \/ SCHED_MAX_THREADS <= s_total_ready s \/
       queued Q p) /\ sched_enqueue s p = Ret (false, s))) /\
  (forall p i l1 l2 t, Q .@ i = Some (l1 ++ p :: l2) -> s_threads s !! p = Some t -> p <> 0 ->
     exists s', sched_block s p = Ret (true, s') /\ sched_wf s' (set Q i (l1 ++ l2)) /\
       exists t', s_threads s' !! p = Some t' /\ t_state t' = PROCESS_STATE_BLOCKED).
Proof.
  intros Hwf. split; [|split].
  - destruct (dequeue_ok s Q Hwf) as [?|(i & p & l & s' & Hf & E & _ & Hwf' & _ & Hs & _)]; [by left|].
    right. by exists i, p, l, s'.
  - intros p t Hp0 Ht Hpr.
    destruct (decide (t_state t = PROCESS_STATE_READY)) as [Hst|Hst]; [|right; split; [auto|by eapply enqueue_refused; eauto]].
    destruct (Z_lt_ge_dec (priority t) SCHED_PRIO_MAX); [|right; assert (SCHED_PRIO_MAX <= priority t) by lia;
      split; [auto|eapply enqueue_refused; eauto]].
    destruct (Z_lt_ge_dec (s_total_ready s) SCHED_MAX_THREADS); [|right; assert (SCHED_MAX_THREADS <= s_total_ready s) by lia;
      split; [auto|eapply enqueue_refused; eauto]].
    destruct (decide (p ∈ concat Q)) as [Hq|Hq]; [right; split; [auto|eapply enqueue_refused; eauto]|].
    left. destruct (enqueue_ok s Q p t) as (s' & E & Hwf' & Hs & _); try done. eauto 10.
  - intros p i l1 l2 t Hl Ht Hp0. destruct (wf_prio _ _ Hwf _ _ p Hl) as (t' & Ht' & _ & Hst); [set_solver|].
    assert (t' = t) as -> by congruence. unfold sched_block. destruct (Z.eqb_spec p 0); [done|].
    rewrite (thread_at_Some _ _ _ Ht). simpl. rewrite Hst.
    destruct (queue_remove_ok s Q p Hwf Hp0) as [[Hnq _]|(j & k1 & k2 & s' & Hk & -> & Hwf' & Hperm & Hs & _)].
    { exfalso. apply Hnq, elem_of_concat. exists i, (l1 ++ p :: l2). set_solver. }
    simpl. destruct (same_threads_lookup _ _ _ _ Hs Ht) as (nx & Hnx). rewrite (thread_at_Some _ _ _ Hnx). simpl.
    destruct (wf_prio _ _ Hwf _ _ p Hk) as (t2 & Ht2 & <- & _); [set_solver|].
    destruct (wf_prio _ _ Hwf _ _ p Hl) as (t3 & Ht3 & <- & _); [set_solver|].
    assert (t2 = t3) as -> by congruence. assert (l1 ++ p :: l2 = k1 ++ p :: k2) as He by congruence.
    assert (NoDup (l1 ++ p :: l2)) as Hnd by (exact (proj1 (band_facts _ _ _ _ Hwf Hl))).
    destruct (split_unique p l1 l2 k1 k2 Hnd He) as [-> ->].
    eexists. split; [done|]. split; [|eexists; simpl; rewrite lookup_insert_eq; by split].
    apply wf_put_thread; [done|]. left. unfold queued.
    pose proof (wf_nodup _ _ Hwf) as Hnd'. rewrite Hperm in Hnd'. by apply NoDup_cons in Hnd' as [? _].
Qed.

(** ** Examples *)

Definition new_thread (id prio : Z) (st : process_state) : thread :=
  mk_thread id st (mk_ctx 0 0 0) prio 0 0 0 0 [] 0.

Definition blank_sched : sched := sched_init (mk_sched ∅ [] 0 SCHED_IDLE false 0).

(** The state of an operation that returned. *)
Definition state_of {A} (m : outcome (A * sched)) (s : sched) : sched :=
  match m with Ret (_, s') => s' | _ => s end.

(** One running thread and two READY ones of the same priority. *)
Definition sample_threads : sched :=
  sched_set_current
    (put_thread (put_thread (put_thread blank_sched 0x1000 (new_thread 1 2 PROCESS_STATE_RUNNING))
       0x2000 (new_thread 2 2 PROCESS_STATE_READY)) 0x3000 (new_thread 3 2 PROCESS_STATE_READY)) 0x1000.

Definition sample_sched : sched :=
  let s := state_of (sched_enqueue sample_threads 0x2000) sample_threads in
  state_of (sched_enqueue s 0x3000) s.

Lemma sample_threads_reach : sched_reaches sample_threads.
Proof.
  apply sr_set_current. apply sr_new_thread; [|done|by vm_compute|done]. apply sr_new_thread; [|done|by vm_compute|done].
  apply sr_new_thread; [|done|done|done]. by apply sr_init.
Qed.

Lemma enqueue_reaches s p : sched_reaches s -> valid s p -> sched_reaches (state_of (sched_enqueue s p) s).
Proof.
  intros Hs Hv. destruct (sched_enqueue s p) as [[b s']| | |] eqn:E; [|done..]. exact (sr_enqueue s p (b, s') Hs Hv E).
Qed.

Lemma sample_sched_reaches : sched_reaches sample_sched.
Proof.
  unfold sample_sched. apply enqueue_reaches; [apply enqueue_reaches; [apply sample_threads_reach|]|];
    right; vm_compute; by eexists.
Qed.

Lemma sched_safe_witness : sched_reaches sample_sched /\ keeps (sched_dequeue sample_sched).
Proof.
  split; [exact sample_sched_reaches|]. exact (proj1 (proj2 (sched_safe sample_sched sample_sched_reaches))).
Defined.

Lemma sample_bands : sched_wf sample_sched [[]; []; [0x2000; 0x3000]; []; []; []; []; []].
Proof.
  destruct (sched_reaches_inv _ sample_sched_reaches) as [_ (Q & Hwf)].
  assert (Q = [[]; []; [0x2000; 0x3000]; []; []; []; []; []]) as <-; [|done].
  pose proof (wf_len _ _ Hwf) as Hl. unfold zlength, SCHED_PRIO_MAX in Hl.
  assert (forall i q l l', s_queues sample_sched .@ i = Some q -> Q .@ i = Some l -> linked (s_threads sample_sched) (q_head q) l' -> l = l') as Hu.
  { intros i q l l' Hq Hl' Hk. eapply linked_unique; [by eapply (wf_rep _ _ Hwf)|done]. }
  do 8 (destruct Q as [|? Q]; [discriminate|]). destruct Q; [|simpl in Hl; lia].
  pose proof (Hu 0 _ _ [] eq_refl eq_refl eq_refl) as ->. pose proof (Hu 1 _ _ [] eq_refl eq_refl eq_refl) as ->.
  pose proof (Hu 3 _ _ [] eq_refl eq_refl eq_refl) as ->. pose proof (Hu 4 _ _ [] eq_refl eq_refl eq_refl) as ->.
  pose proof (Hu 5 _ _ [] eq_refl eq_refl eq_refl) as ->. pose proof (Hu 6 _ _ [] eq_refl eq_refl eq_refl) as ->.
  pose proof (Hu 7 _ _ [] eq_refl eq_refl eq_refl) as ->.
  rewrite (Hu 2 _ _ [0x2000; 0x3000] eq_refl eq_refl); [done|].
  split; [done|]. split; [done|]. eexists. split; [by vm_compute|]. split; [done|]. split; [done|].
  eexists. split; [by vm_compute|]. done.
Qed.

Lemma sched_refines_bands_witness :
  exists i p l s', first_ready [[]; []; [0x2000; 0x3000]; []; []; []; []; []] i p l /\
    sched_dequeue sample_sched = Ret (p, s').
Proof.
  destruct (proj1 (sched_refines_bands sample_sched _ sample_bands)) as [[H _]|(i & p & l & s' & Hf & E & _)];
    [discriminate|]. exists i, p, l, s'. split; [exact Hf|exact E].
Defined.

(** A thread that exits while it is queued is dispatched all the same: neither
    [process_exit] nor the dequeue looks for it. *)
Lemma zombie_dispatched :
  match s_threads sample_sched !! 0x2000 with
  | Some t =>
    let s := put_thread sample_sched 0x2000 (exit_thread t) in
    match sched_dequeue s with
    | Ret (p, s) => p = 0x2000 /\
        match sched_context_switch s 0x1000 p with
        | Ret s => t_state <$> s_threads s !! 0x2000 = Some PROCESS_STATE_RUNNING
        | _ => False
        end
    | _ => False
    end
  | None => False
  end.
Proof. vm_compute. done. Qed.

(** With [SCHED_MAX_THREADS] threads ready, a woken or preempted thread is marked READY
    but not queued: it is never dispatched again. *)
Definition crowded : sched :=
  let s := fold_left (fun s n => let p := 0x1000 + 0x100 * Z.of_nat n in
      let s := put_thread s p (new_thread (Z.of_nat n) 1 PROCESS_STATE_READY) in
      state_of (sched_enqueue s p) s) (seq 1 32) blank_sched in
  with_preempt (sched_set_current (put_thread s 0x1000 (new_thread 99 0 PROCESS_STATE_RUNNING)) 0x1000) true.

Lemma woken_thread_lost :
  match sched_unblock (put_thread crowded 0x4000 (new_thread 50 0 PROCESS_STATE_BLOCKED)) 0x4000 with
  | Ret (b, s) =>
    b = false /\ t_state <$> s_threads s !! 0x4000 = Some PROCESS_STATE_READY /\
    match s_queues s .@ 0 with Some q => q_head q = 0 | None => False end
  | _ => False
  end.
Proof. vm_compute. done. Qed.

Lemma preempted_thread_lost :
  match sched_next crowded 0x1000 with
  | Ret (_, s) =>
    t_state <$> s_threads s !! 0x1000 = Some PROCESS_STATE_READY /\
    match s_queues s .@ 0 with Some q => q_head q = 0 | None => False end
  | _ => False
  end.
Proof. vm_compute. done. Qed.

End Sched.
