(* ===== verification/Ipc.v ===== *)
(** * Message channels

    [kernel/ipc/ipc.c]: a static pool of channels, each a ring of eight messages
    with at most one thread recorded as waiting to send and one as waiting to
    receive.  The operations change the channels and, through [sched_unblock],
    [sched_block] and the context switch, the scheduler.

    A blocking call is modelled up to the point where it returns or gives the
    processor away: [ipc_send_try] and [ipc_recv_try] are one round of its loop,
    and a thread that is switched back in runs the round again, as the loop
    does.  A message pointer that is [NULL] is [None]. *)

From S2P Require Import Prelude Status Process Sched.
Import Process Sched.

Module Ipc.

Definition IPC_CHANNEL_CAPACITY : Z := 8.
Definition IPC_MSG_PAYLOAD_MAX : Z := 64.
Definition IPC_MAX_CHANNELS : Z := 16.

Definition IPC_OK : Z := 0.
Definition IPC_ERR_INVAL : Z := -1.
Definition IPC_ERR_FULL : Z := -2.
Definition IPC_ERR_EMPTY : Z := -3.
Definition IPC_ERR_AGAIN : Z := -4.
Definition IPC_ERR_TYPE : Z := -5.
Definition IPC_ERR_CLOSED : Z := -6.
Definition IPC_ERR_NOSLOT : Z := -7.

Definition IPC_MSG_TYPE_ANY : Z := 0.
Definition IPC_MSG_TYPE_USER : Z := 0x00010000.
Definition IPC_HANDLE_INVALID : Z := 0.

Record ipc_message := mk_message { m_type : Z; payload_len : Z; payload : list Z }.

Inductive channel_state := CHAN_FREE | CHAN_OPEN | CHAN_CLOSED.

#[global] Instance channel_state_eq_dec : EqDecision channel_state.
Proof. solve_decision. Defined.

Record ipc_channel := mk_channel {
  ch_state : channel_state;
  ch_handle : Z;
  ch_head : Z;
  ch_tail : Z;
  ch_count : Z;
  ch_ring : list ipc_message;
  blocked_sender : Z;
  blocked_receiver : Z }.

Record ipc := mk_ipc { s_channels : list ipc_channel; s_next_generation : Z }.

(** The scheduler and the channels, the state the operations work on. *)
Record kernel := mk_kernel { k_sched : sched; k_ipc : ipc }.

Definition with_sched (k : kernel) (s : sched) : kernel := mk_kernel s (k_ipc k).

Definition put_channel (k : kernel) (i : Z) (ch : ipc_channel) : kernel :=
  mk_kernel (k_sched k) (mk_ipc (set (s_channels (k_ipc k)) i ch) (s_next_generation (k_ipc k))).

Definition channel_at (k : kernel) (i : Z) : outcome ipc_channel :=
  match s_channels (k_ipc k) .@ i with Some ch => Ret ch | None => Fault end.

(** ** Helpers *)

(** [chan_from_handle]: the index of the channel, [None] being [NULL]. *)
Definition chan_from_handle (x : ipc) (h : Z) : option Z :=
  if h =? IPC_HANDLE_INVALID then None else
  let idx := Z.land h 0xFF in
  if (idx =? 0) || (IPC_MAX_CHANNELS <? idx) then None else
  match s_channels x .@ (idx - 1) with
  | Some ch => if ch_handle ch =? h then Some (idx - 1) else None
  | None => None
  end.

Definition msg_copy (src : ipc_message) : ipc_message :=
  mk_message (m_type src) (payload_len src) (payload src).

(** A channel slot with its positions reset and nobody waiting. *)
Definition reset_channel (ch : ipc_channel) (st : channel_state) (h : Z) : ipc_channel :=
  mk_channel st h 0 0 0 (ch_ring ch) 0 0.

Definition set_waiters (ch : ipc_channel) (sender receiver : Z) : ipc_channel :=
  mk_channel (ch_state ch) (ch_handle ch) (ch_head ch) (ch_tail ch) (ch_count ch) (ch_ring ch)
    sender receiver.

(** ** Channel lifecycle *)

Definition ipc_init (x : ipc) : ipc :=
  mk_ipc ((fun ch => reset_channel ch CHAN_FREE IPC_HANDLE_INVALID) <$> s_channels x) 1.

Definition make_handle (generation i : Z) : Z :=
  let h := Z.lor (Z.shiftl (Z.land generation 0x00FFFFFF) 8) (i + 1) in
  if h =? IPC_HANDLE_INVALID then i + 1 else h.

Definition ipc_channel_create (x : ipc) : Z * ipc :=
  match find_index (fun ch => bool_decide (ch_state ch = CHAN_FREE)) (s_channels x) with
  | Some i =>
    match s_channels x .@ i with
    | Some ch =>
      let generation := s_next_generation x in
      let next := u32 (generation + 1) in
      let next := if next =? 0 then 1 else next in
      let h := make_handle generation i in
      (h, mk_ipc (set (s_channels x) i (reset_channel ch CHAN_OPEN h)) next)
    | None => (IPC_HANDLE_INVALID, x)
    end
  | None => (IPC_HANDLE_INVALID, x)
  end.

Definition ipc_channel_destroy (x : ipc) (h : Z) : Z * ipc :=
  if h =? IPC_HANDLE_INVALID then (IPC_ERR_INVAL, x) else
  match chan_from_handle x h with
  | None => (IPC_ERR_INVAL, x)
  | Some i =>
    match s_channels x .@ i with
    | Some ch =>
      match ch_state ch with
      | CHAN_FREE => (IPC_ERR_INVAL, x)
      | _ => (IPC_OK, mk_ipc (set (s_channels x) i (reset_channel ch CHAN_FREE IPC_HANDLE_INVALID))
                        (s_next_generation x))
      end
    | None => (IPC_ERR_INVAL, x)
    end
  end.

Definition ipc_channel_is_open (x : ipc) (h : Z) : bool :=
  if h =? IPC_HANDLE_INVALID then false else
  match chan_from_handle x h with
  | Some i => match s_channels x .@ i with Some ch => bool_decide (ch_state ch = CHAN_OPEN) | None => false end
  | None => false
  end.

Definition ipc_channel_len (x : ipc) (h : Z) : Z :=
  if h =? IPC_HANDLE_INVALID then 0 else
  match chan_from_handle x h with
  | Some i => match s_channels x .@ i with
              | Some ch => if bool_decide (ch_state ch = CHAN_OPEN) then ch_count ch else 0
              | None => 0
              end
  | None => 0
  end.

(** ** Non-blocking transfer *)

(** The checks all transfers start with. *)
Definition open_channel (k : kernel) (h : Z) : outcome (Z + Z * ipc_channel) :=
  match chan_from_handle (k_ipc k) h with
  | None => Ret (inl IPC_ERR_INVAL)
  | Some i =>
    ch ← channel_at k i;
    match ch_state ch with
    | CHAN_FREE => Ret (inl IPC_ERR_INVAL)
    | CHAN_CLOSED => Ret (inl IPC_ERR_CLOSED)
    | CHAN_OPEN => Ret (inr (i, ch))
    end
  end.

(** The message goes to the tail slot. *)
Definition ring_push (ch : ipc_channel) (msg : ipc_message) : ipc_channel :=
  mk_channel (ch_state ch) (ch_handle ch) (ch_head ch)
    (u32 (ch_tail ch + 1) mod IPC_CHANNEL_CAPACITY) (u32 (ch_count ch + 1))
    (set (ch_ring ch) (ch_tail ch) (msg_copy msg)) (blocked_sender ch) (blocked_receiver ch).

Definition ring_pop (ch : ipc_channel) : ipc_channel :=
  mk_channel (ch_state ch) (ch_handle ch)
    (u32 (ch_head ch + 1) mod IPC_CHANNEL_CAPACITY) (ch_tail ch) (u32 (ch_count ch - 1))
    (ch_ring ch) (blocked_sender ch) (blocked_receiver ch).

(** A recorded waiter is unblocked. *)
Definition wake (k : kernel) (waiter : Z) : outcome kernel :=
  '(_, s) ← sched_unblock (k_sched k) waiter; Ret (with_sched k s).

Definition ipc_trysend (k : kernel) (h : Z) (msg : option ipc_message) : outcome (Z * kernel) :=
  match msg with
  | None => Ret (IPC_ERR_INVAL, k)
  | Some msg =>
    if h =? IPC_HANDLE_INVALID then Ret (IPC_ERR_INVAL, k) else
    r ← open_channel k h;
    match r with
    | inl e => Ret (e, k)
    | inr (i, ch) =>
      if IPC_CHANNEL_CAPACITY <=? ch_count ch then Ret (IPC_ERR_FULL, k) else
      let ch := ring_push ch msg in
      if blocked_receiver ch =? 0 then Ret (IPC_OK, put_channel k i ch) else
      k ← wake (put_channel k i (set_waiters ch (blocked_sender ch) 0)) (blocked_receiver ch);
      Ret (IPC_OK, k)
    end
  end.

(** On success the message is the second component. *)
Definition ipc_tryrecv (k : kernel) (h type_filter : Z) (out : bool)
  : outcome (Z * option ipc_message * kernel) :=
  if (h =? IPC_HANDLE_INVALID) || negb out then Ret (IPC_ERR_INVAL, None, k) else
  r ← open_channel k h;
  match r with
  | inl e => Ret (e, None, k)
  | inr (i, ch) =>
    if ch_count ch =? 0 then Ret (IPC_ERR_EMPTY, None, k) else
    match ch_ring ch .@ (ch_head ch) with
    | None => Fault
    | Some msg =>
      if negb (type_filter =? IPC_MSG_TYPE_ANY) && negb (m_type msg =? type_filter)
      then Ret (IPC_ERR_TYPE, None, k) else
      let ch := ring_pop ch in
      if blocked_sender ch =? 0 then Ret (IPC_OK, Some (msg_copy msg), put_channel k i ch) else
      k ← wake (put_channel k i (set_waiters ch 0 (blocked_receiver ch))) (blocked_sender ch);
      Ret (IPC_OK, Some (msg_copy msg), k)
    end
  end.

(** ** Blocking transfer *)

Inductive call (A : Type) := Returned (a : A) | SwitchedTo (next : Z).
Arguments Returned {A} _.
Arguments SwitchedTo {A} _.

(** A block is undone because there is no other thread to run. *)
Definition undo_block (s : sched) (current : Z) : outcome sched :=
  t ← thread_at (s_threads s) current;
  '(_, s) ← sched_enqueue (put_thread s current (with_state t PROCESS_STATE_READY)) current;
  t ← thread_at (s_threads s) current;
  Ret (sched_set_current (put_thread s current (with_state t PROCESS_STATE_RUNNING)) current).

(** The calling thread waits on channel [i]: [waiting] and [idle] are the channel
    with the thread recorded and with the record cleared. *)
Definition block_on (k : kernel) (i : Z) (set_waiter : ipc_channel -> Z -> ipc_channel)
  : outcome (option Z * kernel) :=
  let current := sched_get_current (k_sched k) in
  if current =? 0 then Ret (None, k) else
  ch ← channel_at k i;
  let k := put_channel k i (set_waiter ch current) in
  '(blocked, s) ← sched_block (k_sched k) current;
  let k := with_sched k s in
  if negb blocked then
    ch ← channel_at k i; Ret (None, put_channel k i (set_waiter ch 0))
  else
    '(next, s) ← sched_dequeue (k_sched k);
    let k := with_sched k s in
    if next =? 0 then
      ch ← channel_at k i;
      let k := put_channel k i (set_waiter ch 0) in
      s ← undo_block (k_sched k) current;
      Ret (None, with_sched k s)
    else
      s ← sched_context_switch (k_sched k) current next;
      Ret (Some next, with_sched k s).

Definition set_sender (ch : ipc_channel) (p : Z) : ipc_channel := set_waiters ch p (blocked_receiver ch).
Definition set_receiver (ch : ipc_channel) (p : Z) : ipc_channel := set_waiters ch (blocked_sender ch) p.

Definition ipc_send_try (k : kernel) (i h : Z) (msg : option ipc_message) : outcome (call Z * kernel) :=
  '(r, k) ← ipc_trysend k h msg;
  if negb (r =? IPC_ERR_FULL) then Ret (Returned r, k) else
  '(next, k) ← block_on k i set_sender;
  match next with
  | None => Ret (Returned IPC_ERR_AGAIN, k)
  | Some next => Ret (SwitchedTo next, k)
  end.

Definition ipc_send (k : kernel) (h : Z) (msg : option ipc_message) : outcome (call Z * kernel) :=
  match msg with
  | None => Ret (Returned IPC_ERR_INVAL, k)
  | Some _ =>
    if h =? IPC_HANDLE_INVALID then Ret (Returned IPC_ERR_INVAL, k) else
    r ← open_channel k h;
    match r with
    | inl e => Ret (Returned e, k)
    | inr (i, _) => ipc_send_try k i h msg
    end
  end.

Definition ipc_recv_try (k : kernel) (i h type_filter : Z)
  : outcome (call (Z * option ipc_message) * kernel) :=
  '(r, msg, k) ← ipc_tryrecv k h type_filter true;
  if negb (r =? IPC_ERR_EMPTY) then Ret (Returned (r, msg), k) else
  '(next, k) ← block_on k i set_receiver;
  match next with
  | None => Ret (Returned (IPC_ERR_AGAIN, None), k)
  | Some next => Ret (SwitchedTo next, k)
  end.

Definition ipc_recv (k : kernel) (h type_filter : Z) (out : bool)
  : outcome (call (Z * option ipc_message) * kernel) :=
  if (h =? IPC_HANDLE_INVALID) || negb out then Ret (Returned (IPC_ERR_INVAL, None), k) else
  r ← open_channel k h;
  match r with
  | inl e => Ret (Returned (e, None), k)
  | inr (i, _) => ipc_recv_try k i h type_filter
  end.

(** ** The ring as a queue *)

(** The messages of a channel, oldest first. *)
Definition queue_of (ch : ipc_channel) : list ipc_message :=
  omap (fun j => ch_ring ch .@ ((ch_head ch + Z.of_nat j) mod 8)) (seq 0 (Z.to_nat (ch_count ch))).

Record ring_ok (ch : ipc_channel) : Prop := {
  ro_ring : zlength (ch_ring ch) = IPC_CHANNEL_CAPACITY;
  ro_head : 0 <= ch_head ch < IPC_CHANNEL_CAPACITY;
  ro_count : 0 <= ch_count ch <= IPC_CHANNEL_CAPACITY;
  ro_tail : ch_tail ch = (ch_head ch + ch_count ch) mod IPC_CHANNEL_CAPACITY }.

Lemma msg_copy_eq msg : msg_copy msg = msg.
Proof. by destruct msg. Qed.

Lemma omap_all {A B} (f : A -> option B) l : (forall x, x ∈ l -> is_Some (f x)) -> length (omap f l) = length l.
Proof.
  induction l as [|x l IH]; intros Hf; [done|]. cbn [omap list_omap length].
  destruct (Hf x) as (y & ->); [set_solver|]. cbn [length]. f_equal. apply IH. set_solver.
Qed.

Lemma omap_map {A B C} (g : A -> B) (f : B -> option C) l : omap f (map g l) = omap (fun x => f (g x)) l.
Proof. induction l as [|x l IH]; [done|]. cbn [map omap list_omap]. by destruct (f (g x)); [f_equal|]. Qed.

Lemma queue_of_length ch : ring_ok ch -> zlength (queue_of ch) = ch_count ch.
Proof.
  intros [Hr Hh Hc _]. unfold queue_of, zlength. rewrite omap_all; [rewrite length_seq; lia|].
  intros j _. destruct (get_Some (ch_ring ch) ((ch_head ch + Z.of_nat j) mod 8)) as (m & ->); [|by eexists].
  rewrite Hr. unfold IPC_CHANNEL_CAPACITY. zlia.
Qed.

Lemma ring_push_ok ch msg :
  ring_ok ch -> ch_count ch < IPC_CHANNEL_CAPACITY ->
  ring_ok (ring_push ch msg) /\ queue_of (ring_push ch msg) = queue_of ch ++ [msg] /\
  ch_count (ring_push ch msg) = ch_count ch + 1.
Proof.
  intros Hok Hlt. destruct Hok as [Hr Hh Hc Ht]. unfold IPC_CHANNEL_CAPACITY in *.
  assert (0 <= ch_tail ch < 8) by (rewrite Ht; zlia).
  assert (u32 (ch_tail ch + 1) = ch_tail ch + 1) as Htl by (rewrite u32_id; lia).
  assert (u32 (ch_count ch + 1) = ch_count ch + 1) as Hcn by (rewrite u32_id; lia).
  split; [split; simpl; rewrite ?zlength_set, ?Htl, ?Hcn; unfold IPC_CHANNEL_CAPACITY; [done|lia|lia|rewrite Ht; zlia]|].
  split; [|done]. unfold queue_of. simpl. rewrite Hcn, msg_copy_eq.
  replace (Z.to_nat (ch_count ch + 1)) with (Z.to_nat (ch_count ch) + 1)%nat by lia.
  rewrite seq_app, omap_app. f_equal.
  - apply list_omap_ext. apply Forall2_same_length_lookup_2; [done|]. intros n x y Hx Hy.
    assert (x = y) as <- by congruence. apply lookup_seq in Hx as [-> Hn]. apply get_set_ne. rewrite Ht. zlia.
  - simpl. rewrite Z2Nat.id by lia. rewrite <- Ht. rewrite get_set_eq by lia. done.
Qed.

Lemma ring_pop_ok ch :
  ring_ok ch -> 0 < ch_count ch ->
  exists msg, ch_ring ch .@ (ch_head ch) = Some msg /\ ring_ok (ring_pop ch) /\
    queue_of ch = msg :: queue_of (ring_pop ch) /\ ch_count (ring_pop ch) = ch_count ch - 1.
Proof.
  intros Hok Hlt. destruct Hok as [Hr Hh Hc Ht]. unfold IPC_CHANNEL_CAPACITY in *.
  destruct (get_Some (ch_ring ch) (ch_head ch)) as (msg & Hm); [lia|]. exists msg. split; [done|].
  assert (u32 (ch_head ch + 1) = ch_head ch + 1) as Hhd by (rewrite u32_id; lia).
  assert (u32 (ch_count ch - 1) = ch_count ch - 1) as Hcn by (rewrite u32_id; lia).
  split; [split; simpl; rewrite ?Hhd, ?Hcn; unfold IPC_CHANNEL_CAPACITY; [done|zlia|lia|rewrite Ht; zlia]|].
  split; [|done]. unfold queue_of. simpl. rewrite Hcn, Hhd.
  replace (Z.to_nat (ch_count ch)) with (S (Z.to_nat (ch_count ch - 1))) by lia. cbn [seq omap list_omap].
  replace ((ch_head ch + Z.of_nat 0) mod 8) with (ch_head ch) by zlia. rewrite Hm. f_equal.
  rewrite <- seq_shift, omap_map.
  apply list_omap_ext. apply Forall2_same_length_lookup_2; [done|]. intros n x y Hx Hy.
  assert (x = y) as <- by congruence. simpl. f_equal. unfold IPC_CHANNEL_CAPACITY. zlia.
Qed.

(** ** The invariant of the kernel state *)

Definition has_state (s : sched) (p : Z) (st : process_state) : Prop :=
  exists t, s_threads s !! p = Some t /\ t_state t = st.

(** A thread that waits to receive is blocked and the channel is empty; one that
    waits to send is blocked and the channel is full. *)
Record channel_ok (s : sched) (i : Z) (ch : ipc_channel) : Prop := {
  co_ring : ring_ok ch;
  co_free : ch_state ch = CHAN_FREE -> ch_handle ch = IPC_HANDLE_INVALID;
  co_handle : ch_state ch <> CHAN_FREE -> ch_handle ch <> 0 /\ Z.land (ch_handle ch) 0xFF = i + 1;
  co_receiver : blocked_receiver ch <> 0 ->
    ch_count ch = 0 /\ has_state s (blocked_receiver ch) PROCESS_STATE_BLOCKED;
  co_sender : blocked_sender ch <> 0 ->
    ch_count ch = IPC_CHANNEL_CAPACITY /\ has_state s (blocked_sender ch) PROCESS_STATE_BLOCKED }.

(** The waiter of a channel, by role. *)
Definition waiter (ch : ipc_channel) (receiving : bool) : Z :=
  if receiving then blocked_receiver ch else blocked_sender ch.

Record kernel_ok (k : kernel) : Prop := {
  ko_sched : sched_inv (k_sched k);
  ko_len : zlength (s_channels (k_ipc k)) = IPC_MAX_CHANNELS;
  ko_chan i ch : s_channels (k_ipc k) .@ i = Some ch -> channel_ok (k_sched k) i ch;
  ko_waiters i ch r j ch' r' :
    s_channels (k_ipc k) .@ i = Some ch -> s_channels (k_ipc k) .@ j = Some ch' ->
    waiter ch r <> 0 -> waiter ch r = waiter ch' r' -> i = j /\ r = r' }.

(** No channel records [p] as waiting. *)
Definition not_waiting (k : kernel) (p : Z) : Prop :=
  forall i ch r, s_channels (k_ipc k) .@ i = Some ch -> waiter ch r = p -> p = 0.

Lemma same_threads_state ts ts' p st :
  same_threads ts ts' -> (exists t, ts !! p = Some t /\ t_state t = st) ->
  exists t, ts' !! p = Some t /\ t_state t = st.
Proof.
  intros Hs (t & Ht & Hst). destruct (same_threads_lookup _ _ _ _ Hs Ht) as (n & Hn). by eexists.
Qed.

(** The state of a thread survives a change of another one. *)
Lemma has_state_put s p t q st : p <> q -> has_state s q st -> has_state (put_thread s p t) q st.
Proof. intros Hne (tq & Htq & Hst). exists tq. simpl. by rewrite lookup_insert_ne. Qed.

Lemma kernel_ok_sched k s' :
  kernel_ok k -> sched_inv s' ->
  (forall p, ~ not_waiting k p -> has_state (k_sched k) p PROCESS_STATE_BLOCKED -> has_state s' p PROCESS_STATE_BLOCKED) ->
  kernel_ok (with_sched k s').
Proof.
  intros [Hs Hl Hc Hw] Hs' Hst. split; simpl; try done. intros i ch Hi.
  assert (forall r, waiter ch r <> 0 -> ~ not_waiting k (waiter ch r)) as Hnw
    by (intros r Hr Hn; by apply Hr, (Hn i ch r)).
  destruct (Hc i ch Hi) as [H1 H2 H3 H4 H5]. split; try done.
  - intros Hr. destruct (H4 Hr). split; [done|]. apply Hst; [|done]. by apply (Hnw true).
  - intros Hr. destruct (H5 Hr). split; [done|]. apply Hst; [|done]. by apply (Hnw false).
Qed.

Lemma put_channel_ok k i ch ch' :
  kernel_ok k -> s_channels (k_ipc k) .@ i = Some ch -> channel_ok (k_sched k) i ch' ->
  (forall r, waiter ch' r = 0 \/ waiter ch' r = waiter ch r) -> kernel_ok (put_channel k i ch').
Proof.
  intros [Hs Hl Hc Hw] Hi Hok Hsub. pose proof (get_Some_range _ _ _ Hi) as Hr.
  assert (forall j c r, set (s_channels (k_ipc k)) i ch' .@ j = Some c -> waiter c r <> 0 ->
            exists c0, s_channels (k_ipc k) .@ j = Some c0 /\ waiter c r = waiter c0 r) as Hback.
  { intros j c r. destruct (Z.eq_dec i j) as [<-|Hne]; [|rewrite get_set_ne by done; eauto].
    rewrite get_set_eq by done. intros [= <-] Hne. exists ch. split; [done|]. by destruct (Hsub r). }
  split; simpl; rewrite ?zlength_set; try done.
  - intros j c. destruct (Z.eq_dec i j) as [<-|Hne]; [|rewrite get_set_ne by done; apply Hc].
    rewrite get_set_eq by done. by intros [= <-].
  - intros j c r j' c' r' Hj Hj' Hne He.
    destruct (Hback j c r Hj Hne) as (c0 & Hc0 & Hw0). destruct (Hback j' c' r' Hj') as (c1 & Hc1 & Hw1); [congruence|].
    apply (Hw j c0 r j' c1 r'); congruence.
Qed.

(** Unblocking a thread no channel records. *)
Lemma wake_ok k w :
  kernel_ok k -> not_waiting k w -> has_state (k_sched k) w PROCESS_STATE_BLOCKED ->
  exists s', wake k w = Ret (with_sched k s') /\ kernel_ok (with_sched k s') /\
    has_state s' w PROCESS_STATE_READY /\ s_current s' = s_current (k_sched k) /\
    (forall Q, sched_wf (k_sched k) Q -> sched_wf s' (woken_bands (k_sched k) w Q)) /\
    (forall p st, p <> w -> has_state (k_sched k) p st -> has_state s' p st).
Proof.
  intros Hok Hnw (t & Ht & Hst).
  destruct (unblock_frame (k_sched k) w t (ko_sched _ Hok) Ht Hst) as (b & s' & E & Hinv & Hs & Hc & Hb).
  assert (forall p st, p <> w -> has_state (k_sched k) p st -> has_state s' p st) as Hkeep.
  { intros p st Hp (tp & Htp & Hstp). eapply same_threads_state; [exact Hs|]. exists tp. by rewrite lookup_insert_ne. }
  exists s'. unfold wake. rewrite E. split; [done|]. split; [|split; [|done]].
  - apply kernel_ok_sched; [done|done|]. intros p Hp Hbl. apply Hkeep; [|done]. by intros ->.
  - eapply same_threads_state; [exact Hs|]. eexists. rewrite lookup_insert_eq. done.
Qed.

(** What [open_channel] finds. *)
Lemma open_channel_spec k h :
  kernel_ok k ->
  (exists e, open_channel k h = Ret (inl e) /\ (e = IPC_ERR_INVAL \/ e = IPC_ERR_CLOSED)) \/
  (exists i ch, open_channel k h = Ret (inr (i, ch)) /\ chan_from_handle (k_ipc k) h = Some i /\
     s_channels (k_ipc k) .@ i = Some ch /\ ch_state ch = CHAN_OPEN /\ channel_ok (k_sched k) i ch).
Proof.
  intros Hok. unfold open_channel. destruct (chan_from_handle (k_ipc k) h) as [i|] eqn:Hh; [|eauto].
  assert (exists ch, s_channels (k_ipc k) .@ i = Some ch) as (ch & Hch).
  { unfold chan_from_handle in Hh. repeat case_if_in Hh; try done.
    destruct (_ .@ (_ - 1)) as [ch|] eqn:E; [|done]. case_if_in Hh; [|done]. injection Hh as <-. eauto. }
  unfold channel_at. rewrite Hch. simpl. destruct (ch_state ch) eqn:Hst; [eauto| |eauto].
  right. exists i, ch. split; [done|]. split; [done|]. split; [done|]. split; [done|]. by apply (ko_chan _ Hok).
Qed.

(** ** Non-blocking transfers *)

(** The channel found by a handle, open. *)
Record opened (k : kernel) (h i : Z) (ch : ipc_channel) : Prop := {
  op_open : open_channel k h = Ret (inr (i, ch));
  op_handle : chan_from_handle (k_ipc k) h = Some i;
  op_chan : s_channels (k_ipc k) .@ i = Some ch;
  op_state : ch_state ch = CHAN_OPEN }.

(** Channel [i] changes from [ch] to [ch'], the waiter [w] of [ch] (if any) is made
    READY and put at the end of the run queue of its priority (unless the scheduler
    refuses it, [woken_bands]), the other threads and channels are untouched. *)
Record transferred (k : kernel) (i : Z) (ch' : ipc_channel) (w : Z) (k' : kernel) : Prop := {
  tr_chan : s_channels (k_ipc k') .@ i = Some ch';
  tr_others j : j <> i -> s_channels (k_ipc k') .@ j = s_channels (k_ipc k) .@ j;
  tr_woken : w <> 0 -> has_state (k_sched k') w PROCESS_STATE_READY;
  tr_bands Q : sched_wf (k_sched k) Q -> sched_wf (k_sched k') (woken_bands (k_sched k) w Q);
  tr_current : s_current (k_sched k') = s_current (k_sched k);
  tr_state p st : p <> w -> has_state (k_sched k) p st -> has_state (k_sched k') p st }.

Lemma transfer_ok k i ch ch' w :
  kernel_ok k -> s_channels (k_ipc k) .@ i = Some ch -> channel_ok (k_sched k) i ch' ->
  (forall r, waiter ch' r = 0 \/ waiter ch' r = waiter ch r) ->
  (w <> 0 -> exists r, waiter ch r = w /\ waiter ch' r = 0 /\ has_state (k_sched k) w PROCESS_STATE_BLOCKED) ->
  exists k', (if w =? 0 then Ret (put_channel k i ch') else wake (put_channel k i ch') w) = Ret k' /\
    kernel_ok k' /\ transferred k i ch' w k'.
Proof.
  intros Hok Hi Hch' Hsub Hw. pose proof (get_Some_range _ _ _ Hi) as Hr.
  assert (kernel_ok (put_channel k i ch')) as Hok' by (by eapply put_channel_ok).
  destruct (Z.eqb_spec w 0) as [->|Hw0].
  - eexists. split; [done|]. split; [done|]. split; simpl; try done; [by rewrite get_set_eq| |].
    + intros j Hj. by rewrite get_set_ne.
    + intros Q. unfold woken_bands. by rewrite (proj1 (proj1 (ko_sched _ Hok))).
  - destruct (Hw Hw0) as (r & Hwr & Hwr' & Hst).
    destruct (wake_ok (put_channel k i ch') w) as (s' & E & Hok2 & Hready & Hcur & Hbands & Hkeep); [done| |done|].
    + intros j c r' Hj Hjr. simpl in Hj. destruct (Z.eq_dec i j) as [<-|Hne].
      * rewrite get_set_eq in Hj by done. injection Hj as <-. destruct (Hsub r') as [Hz|He]; [congruence|].
        destruct (ko_waiters _ Hok i ch r i ch r') as [_ ->]; congruence.
      * rewrite get_set_ne in Hj by done. destruct (ko_waiters _ Hok i ch r j c r') as [? _]; congruence.
    + eexists. split; [exact E|]. split; [done|]. split; simpl; try done; [by rewrite get_set_eq|].
      intros j Hj. by rewrite get_set_ne.
Qed.

Lemma trysend_spec k h msg :
  kernel_ok k -> h <> IPC_HANDLE_INVALID ->
  (exists e, ipc_trysend k h (Some msg) = Ret (e, k) /\ (e = IPC_ERR_INVAL \/ e = IPC_ERR_CLOSED) /\
     forall i ch, ~ opened k h i ch) \/
  (exists i ch, opened k h i ch /\ channel_ok (k_sched k) i ch /\
     ((ch_count ch = IPC_CHANNEL_CAPACITY /\ ipc_trysend k h (Some msg) = Ret (IPC_ERR_FULL, k)) \/
      (ch_count ch < IPC_CHANNEL_CAPACITY /\ exists k' ch', ipc_trysend k h (Some msg) = Ret (IPC_OK, k') /\
         kernel_ok k' /\ transferred k i ch' (blocked_receiver ch) k' /\
         queue_of ch' = queue_of ch ++ [msg] /\ ch_state ch' = CHAN_OPEN /\ ch_handle ch' = ch_handle ch))).
Proof.
  intros Hok Hh. unfold ipc_trysend. destruct (Z.eqb_spec h IPC_HANDLE_INVALID); [done|].
  destruct (open_channel_spec k h Hok) as [(e & E & He)|(i & ch & E & Hfrom & Hi & Hst & Hch)].
  { left. exists e. rewrite E. split; [done|]. split; [done|]. intros i ch [Ho _ _ _]. congruence. }
  right. exists i, ch. split; [by split|]. split; [done|]. rewrite E. simpl.
  pose proof (co_ring _ _ _ Hch) as Hring. pose proof (ro_count _ Hring) as Hcnt.
  destruct (Z.leb_spec IPC_CHANNEL_CAPACITY (ch_count ch)) as [Hfull|Hroom]; [left; split; [lia|done]|]. right. split; [done|].
  destruct (ring_push_ok ch msg Hring Hroom) as (Hring' & Hq & Hcount).
  assert (blocked_sender ch = 0) as Hns.
  { destruct (Z.eq_dec (blocked_sender ch) 0); [done|]. destruct (co_sender _ _ _ Hch) as [? _]; [done|lia]. }
  destruct (transfer_ok k i ch (set_waiters (ring_push ch msg) (blocked_sender ch) 0) (blocked_receiver ch))
    as (k' & Hk & Hok' & Htr); [done|done| | | |].
  - destruct Hch as [_ H2 H3 _ _]. destruct Hring'. by split.
  - intros [|]; simpl; auto.
  - intros Hr. exists true. split; [done|]. split; [done|]. by apply (co_receiver _ _ _ Hch).
  - exists k', (set_waiters (ring_push ch msg) (blocked_sender ch) 0). split; [|done].
    change (blocked_receiver (ring_push ch msg)) with (blocked_receiver ch).
    destruct (Z.eqb_spec (blocked_receiver ch) 0) as [Hz|Hz]; [|by rewrite Hk].
    injection Hk as <-. do 3 f_equal. unfold ring_push, set_waiters. simpl. by rewrite Hz.
Qed.

Definition accepts (type_filter : Z) (msg : ipc_message) : bool :=
  (type_filter =? IPC_MSG_TYPE_ANY) || (m_type msg =? type_filter).

Lemma tryrecv_spec k h f :
  kernel_ok k -> h <> IPC_HANDLE_INVALID ->
  (exists e, ipc_tryrecv k h f true = Ret (e, None, k) /\ (e = IPC_ERR_INVAL \/ e = IPC_ERR_CLOSED) /\
     forall i ch, ~ opened k h i ch) \/
  (exists i ch, opened k h i ch /\ channel_ok (k_sched k) i ch /\
     ((ch_count ch = 0 /\ queue_of ch = [] /\ ipc_tryrecv k h f true = Ret (IPC_ERR_EMPTY, None, k)) \/
      (exists msg rest, queue_of ch = msg :: rest /\
         ((accepts f msg = false /\ ipc_tryrecv k h f true = Ret (IPC_ERR_TYPE, None, k)) \/
          (accepts f msg = true /\ exists k' ch', ipc_tryrecv k h f true = Ret (IPC_OK, Some msg, k') /\
             kernel_ok k' /\ transferred k i ch' (blocked_sender ch) k' /\ queue_of ch' = rest /\
             ch_state ch' = CHAN_OPEN /\ ch_handle ch' = ch_handle ch))))).
Proof.
  intros Hok Hh. unfold ipc_tryrecv. destruct (Z.eqb_spec h IPC_HANDLE_INVALID); [done|]. simpl.
  destruct (open_channel_spec k h Hok) as [(e & E & He)|(i & ch & E & Hfrom & Hi & Hst & Hch)].
  { left. exists e. rewrite E. split; [done|]. split; [done|]. intros i ch [Ho _ _ _]. congruence. }
  right. exists i, ch. split; [by split|]. split; [done|]. rewrite E. simpl.
  pose proof (co_ring _ _ _ Hch) as Hring. pose proof (ro_count _ Hring) as Hcnt.
  destruct (Z.eqb_spec (ch_count ch) 0) as [Hz|Hnz].
  { left. split; [done|]. split; [|done]. unfold queue_of. by rewrite Hz. }
  right. destruct (ring_pop_ok ch Hring) as (msg & Hm & Hring' & Hq & Hcount); [lia|].
  exists msg, (queue_of (ring_pop ch)). split; [done|]. rewrite Hm. unfold accepts.
  assert (negb (f =? IPC_MSG_TYPE_ANY) && negb (m_type msg =? f) = negb ((f =? IPC_MSG_TYPE_ANY) || (m_type msg =? f))) as ->
    by (by rewrite negb_orb).
  destruct ((f =? IPC_MSG_TYPE_ANY) || (m_type msg =? f)); [|by left]. right. split; [done|]. simpl.
  assert (blocked_receiver ch = 0) as Hnr.
  { destruct (Z.eq_dec (blocked_receiver ch) 0); [done|]. destruct (co_receiver _ _ _ Hch) as [? _]; [done|lia]. }
  destruct (transfer_ok k i ch (set_waiters (ring_pop ch) 0 (blocked_receiver ch)) (blocked_sender ch))
    as (k' & Hk & Hok' & Htr); [done|done| | | |].
  - destruct Hch as [_ H2 H3 _ _]. destruct Hring'. by split.
  - intros [|]; simpl; auto.
  - intros Hr. exists false. split; [done|]. split; [done|]. by apply (co_sender _ _ _ Hch).
  - exists k', (set_waiters (ring_pop ch) 0 (blocked_receiver ch)). split; [|done].
    change (blocked_sender (ring_pop ch)) with (blocked_sender ch). rewrite msg_copy_eq.
    destruct (Z.eqb_spec (blocked_sender ch) 0) as [Hz|Hz]; [|by rewrite Hk].
    injection Hk as <-. do 3 f_equal. unfold ring_pop, set_waiters. simpl. by rewrite Hz.
Qed.

(** ** Blocking *)

Lemma get_set_channel (k : kernel) i ch ch' : s_channels (k_ipc k) .@ i = Some ch ->
  set (s_channels (k_ipc k)) i ch' .@ i = Some ch'.
Proof. intros Hi. apply get_set_eq. by eapply get_Some_range. Qed.

(** Recording the running thread as the waiter of a channel and blocking it. *)
Lemma block_current_ok k i ch (r : bool) t :
  kernel_ok k -> s_channels (k_ipc k) .@ i = Some ch ->
  s_threads (k_sched k) !! s_current (k_sched k) = Some t -> t_state t = PROCESS_STATE_RUNNING ->
  ch_count ch = (if r then 0 else IPC_CHANNEL_CAPACITY) ->
  let cur := s_current (k_sched k) in
  let ch' := if r then set_receiver ch cur else set_sender ch cur in
  kernel_ok (mk_kernel (put_thread (k_sched k) cur (with_state t PROCESS_STATE_BLOCKED)) (k_ipc (put_channel k i ch'))).
Proof.
  intros Hok Hi Ht Hst Hcount cur ch'. pose proof (get_Some_range _ _ _ Hi) as Hr.
  assert (forall p, has_state (k_sched k) p PROCESS_STATE_BLOCKED -> p <> cur) as Hne.
  { intros p (tp & Htp & Hb) ->. unfold cur in Htp. congruence. }
  assert (has_state (put_thread (k_sched k) cur (with_state t PROCESS_STATE_BLOCKED)) cur PROCESS_STATE_BLOCKED) as Hcur.
  { eexists. simpl. rewrite lookup_insert_eq. done. }
  assert (forall j c, s_channels (k_ipc k) .@ j = Some c -> forall r, waiter c r <> cur \/ waiter c r = 0) as Hnw.
  { intros j c Hj x; destruct x; simpl; [destruct (Z.eq_dec (blocked_receiver c) 0)|destruct (Z.eq_dec (blocked_sender c) 0)]; auto; left; apply Hne.
    - by apply (co_receiver _ _ _ (ko_chan _ Hok j c Hj)).
    - by apply (co_sender _ _ _ (ko_chan _ Hok j c Hj)). }
  assert (forall x, waiter ch' x = (if Bool.eqb x r then cur else waiter ch x)) as Hw' by (intros []; unfold ch'; by destruct r).
  assert (forall p, has_state (k_sched k) p PROCESS_STATE_BLOCKED ->
            has_state (put_thread (k_sched k) cur (with_state t PROCESS_STATE_BLOCKED)) p PROCESS_STATE_BLOCKED) as Hstay.
  { intros p Hp. apply has_state_put; [|done]. intros <-. by apply (Hne cur). }
  destruct Hok as [Hs Hl Hc Hw]. split; simpl; rewrite ?zlength_set; try done.
  - eapply put_keeps; [done|done|by rewrite Hst|done].
  - intros j c. destruct (Z.eq_dec i j) as [<-|Hne'].
    + rewrite get_set_eq by done. intros [= <-]. destruct (Hc i ch Hi) as [H1 H2 H3 H4 H5].
      unfold ch'. destruct r; (split; simpl; [by destruct H1|done|done| |]); try (intros _; by split);
        intros Hx; [destruct (H5 Hx)|destruct (H4 Hx)]; auto.
    + rewrite get_set_ne by done. intros Hj. destruct (Hc j c Hj) as [H1 H2 H3 H4 H5].
      split; try done; intros Hx; [destruct (H4 Hx)|destruct (H5 Hx)]; auto.
  - assert (forall j c (x : bool), set (s_channels (k_ipc k)) i ch' .@ j = Some c -> waiter c x <> 0 ->
        (j = i /\ x = r /\ waiter c x = cur) \/
        (exists c0, s_channels (k_ipc k) .@ j = Some c0 /\ waiter c x = waiter c0 x /\ waiter c x <> cur)) as Hcase.
    { intros j c x. destruct (Z.eq_dec i j) as [<-|Hne'].
      - rewrite get_set_eq by done. intros [= <-]. rewrite Hw'. destruct (Bool.eqb_spec x r) as [->|]; [auto|].
        intros Hx. right. exists ch. destruct (Hnw i ch Hi x); [done|congruence].
      - rewrite get_set_ne by done. intros Hj Hx. right. exists c. destruct (Hnw j c Hj x); [done|congruence]. }
    intros j c x j' c' x' Hj Hj' Hx He.
    destruct (Hcase j c x Hj Hx) as [(-> & -> & Hc1)|(c0 & Hc0 & Hw0 & Hn0)];
      destruct (Hcase j' c' x' Hj') as [(-> & -> & Hc1')|(c1 & Hc1' & Hw1 & Hn1)]; try congruence; [done|].
    apply (Hw j c0 x j' c1 x'); congruence.
Qed.

(** The processor has an idle loop, or runs a thread that is RUNNING. *)
Definition current_ok (k : kernel) : Prop :=
  s_current (k_sched k) = 0 \/ has_state (k_sched k) (s_current (k_sched k)) PROCESS_STATE_RUNNING.

(** The calling thread [cur] sleeps on channel [i], and [next] runs. *)
Record slept (k : kernel) (i : Z) (r : bool) (next : Z) (k' : kernel) : Prop := {
  sl_ok : kernel_ok k';
  sl_next : next <> 0 /\ s_current (k_sched k') = next /\ has_state (k_sched k') next PROCESS_STATE_RUNNING;
  sl_blocked : has_state (k_sched k') (s_current (k_sched k)) PROCESS_STATE_BLOCKED;
  sl_waiter : exists ch ch', s_channels (k_ipc k) .@ i = Some ch /\ s_channels (k_ipc k') .@ i = Some ch' /\
    waiter ch' r = s_current (k_sched k) /\ queue_of ch' = queue_of ch /\ ch_handle ch' = ch_handle ch;
  sl_others j : j <> i -> s_channels (k_ipc k') .@ j = s_channels (k_ipc k) .@ j }.

Definition set_waiter_of (r : bool) : ipc_channel -> Z -> ipc_channel :=
  if r then set_receiver else set_sender.

Lemma channel_at_Some k i ch : s_channels (k_ipc k) .@ i = Some ch -> channel_at k i = Ret ch.
Proof. unfold channel_at. by intros ->. Qed.

Lemma undo_block_total s cur t :
  sched_inv s -> s_threads s !! cur = Some t -> t_state t = PROCESS_STATE_BLOCKED ->
  exists s', undo_block s cur = Ret s'.
Proof.
  intros Hinv Ht Hst. unfold undo_block. rewrite (thread_at_Some _ _ _ Ht). simpl.
  destruct (enqueue_frame (put_thread s cur (with_state t PROCESS_STATE_READY)) cur) as (b & s3 & He & _ & Hs3 & _).
  { eapply put_keeps; [done|done|by rewrite Hst|done]. }
  { right. simpl. rewrite lookup_insert_eq. by eexists. }
  rewrite He. simpl. destruct (same_threads_lookup _ _ cur (with_state t PROCESS_STATE_READY) Hs3) as (n & Hn); [simpl; by rewrite lookup_insert_eq|].
  rewrite (thread_at_Some _ _ _ Hn). by eexists.
Qed.

Lemma switch_eq s prev next t : prev <> 0 -> next <> 0 -> s_threads s !! next = Some t ->
  sched_context_switch s prev next =
  Ret (sched_set_current (put_thread s next (with_state t PROCESS_STATE_RUNNING)) next).
Proof.
  intros Hp Hn Ht. unfold sched_context_switch. destruct (Z.eqb_spec prev 0); [done|].
  destruct (Z.eqb_spec next 0); [done|]. simpl. by rewrite (thread_at_Some _ _ _ Ht).
Qed.

Lemma block_on_spec k i ch (r : bool) :
  kernel_ok k -> current_ok k -> s_channels (k_ipc k) .@ i = Some ch ->
  ch_count ch = (if r then 0 else IPC_CHANNEL_CAPACITY) ->
  exists next k', block_on k i (set_waiter_of r) = Ret (next, k') /\
    match next with
    | Some n => slept k i r n k'
    | None => (s_current (k_sched k) = 0 /\ k' = k) \/
              (s_current (k_sched k) <> 0 /\ exists Q, sched_wf (k_sched k) Q /\ concat Q = [])
    end.
Proof.
  intros Hok Hcur Hi Hcount. unfold block_on, sched_get_current.
  destruct (Z.eqb_spec (s_current (k_sched k)) 0) as [Hz|Hz]; [exists None, k; eauto|].
  destruct Hcur as [|(t & Ht & Hst)]; [done|]. set (cur := s_current (k_sched k)) in *.
  pose proof (block_current_ok k i ch r t Hok Hi Ht Hst Hcount) as Hok1. cbv zeta in Hok1. fold cur in Hok1.
  set (ch' := if r then set_receiver ch cur else set_sender ch cur) in *.
  assert (set_waiter_of r ch cur = ch') as Hset by (unfold ch', set_waiter_of; by destruct r).
  rewrite (channel_at_Some _ _ _ Hi). simpl. rewrite Hset.
  assert (sched_block (k_sched k) cur = Ret (true, put_thread (k_sched k) cur (with_state t PROCESS_STATE_BLOCKED))) as Hblk.
  { unfold sched_block. destruct (Z.eqb_spec cur 0); [done|]. rewrite (thread_at_Some _ _ _ Ht). simpl. by rewrite Hst. }
  rewrite Hblk. simpl. set (s1 := put_thread (k_sched k) cur (with_state t PROCESS_STATE_BLOCKED)) in *.
  destruct (dequeue_frame s1 (ko_sched _ Hok1)) as (next & s2 & Hd & Hinv2 & Hs & Hc2 & Hnone & Hsome).
  rewrite Hd. simpl. destruct (Z.eqb_spec next 0) as [->|Hn].
  - destruct (Hnone eq_refl) as [-> Hempty].
    unfold channel_at. simpl. rewrite (get_set_channel k i ch) by done. simpl.
    destruct (undo_block_total s1 cur (with_state t PROCESS_STATE_BLOCKED) (ko_sched _ Hok1)) as (s3 & ->);
      [simpl; by rewrite lookup_insert_eq|done|].
    simpl. eexists _, _. split; [done|]. right. split; [done|].
    destruct (ko_sched _ Hok) as [_ (Q & Hwf)]. exists Q. split; [done|]. apply Hempty.
    apply wf_put_thread; [done|]. left. eapply not_ready_not_queued; [done|done|by rewrite Hst].
  - destruct (Hsome Hn) as (Hnq & tn & Htn & Hstn).
    destruct (same_threads_lookup _ _ _ _ Hs Htn) as (nx & Hnx).
    rewrite (switch_eq _ _ _ _ Hz Hn Hnx). simpl. eexists _, _. split; [done|].
    assert (next <> cur) as Hnc.
    { intros ->. simpl in Htn. rewrite lookup_insert_eq in Htn. injection Htn as <-. done. }
    assert (forall p, has_state s1 p PROCESS_STATE_BLOCKED ->
      has_state (sched_set_current (put_thread s2 next (with_state (set_next tn nx) PROCESS_STATE_RUNNING)) next) p PROCESS_STATE_BLOCKED) as Hstay.
    { intros p (tp & Htp & Hstp). destruct (same_threads_state _ _ p PROCESS_STATE_BLOCKED Hs) as (t2 & Ht2 & Hst2); [eauto|].
      exists t2. simpl. rewrite lookup_insert_ne; [done|]. intros ->. congruence. }
    split.
    + apply (kernel_ok_sched _ _ Hok1); [|intros p _; apply Hstay].
      destruct (switch_keeps s2 Hinv2 cur next) as (s3 & E3 & Hk3); [by intros; apply Hnq|right; by eexists|].
      rewrite (switch_eq _ _ _ _ Hz Hn Hnx) in E3. injection E3 as <-. exact Hk3.
    + split; [done|]. split; [done|]. eexists. simpl. rewrite lookup_insert_eq. done.
    + apply Hstay. eexists. simpl. rewrite lookup_insert_eq. done.
    + exists ch, ch'. split; [done|]. simpl. rewrite (get_set_channel k i ch) by done. split; [done|].
      unfold ch'. by destruct r.
    + intros j Hj. simpl. by rewrite get_set_ne.
Qed.

(** ** Correctness of transfers *)

(** C36: An open channel is a FIFO of at most eight messages.  A send to a channel
    that is not full appends the message, to a full one it answers FULL and changes
    nothing.  A receive looks at the oldest message only: it takes it if its type is
    accepted; if not, it answers TYPE and changes nothing, even when a later message
    would be accepted; on an empty channel it answers EMPTY and changes nothing.  The
    invariant is kept, other channels and threads are untouched, and the thread
    recorded as waiting for the transfer, if any, is made READY and becomes the last
    of the run queue of its priority, unless the scheduler refuses it because its
    priority has no queue or [SCHED_MAX_THREADS] threads are ready
    ([woken_bands], [woken_thread_lost]). *)
Theorem ipc_transfer_fifo k h i ch :
  kernel_ok k -> h <> IPC_HANDLE_INVALID -> opened k h i ch ->
  (forall msg,
     if zlength (queue_of ch) <? IPC_CHANNEL_CAPACITY then
       exists k' ch', ipc_trysend k h (Some msg) = Ret (IPC_OK, k') /\ kernel_ok k' /\
         transferred k i ch' (blocked_receiver ch) k' /\ queue_of ch' = queue_of ch ++ [msg]
     else ipc_trysend k h (Some msg) = Ret (IPC_ERR_FULL, k)) /\
  (forall f,
     match queue_of ch with
     | [] => ipc_tryrecv k h f true = Ret (IPC_ERR_EMPTY, None, k)
     | msg :: rest =>
       if accepts f msg then
         exists k' ch', ipc_tryrecv k h f true = Ret (IPC_OK, Some msg, k') /\ kernel_ok k' /\
           transferred k i ch' (blocked_sender ch) k' /\ queue_of ch' = rest
       else ipc_tryrecv k h f true = Ret (IPC_ERR_TYPE, None, k)
     end).
Proof.
  intros Hok Hh Hop. split.
  - intros msg. destruct (trysend_spec k h msg Hok Hh) as [(e & _ & _ & Hno)|(i' & ch1 & Hop' & Hch & Hc)].
    { exfalso. by apply (Hno i ch). }
    destruct Hop as [Ho _ _ _], Hop' as [Ho' _ _ _]. rewrite Ho in Ho'. injection Ho' as <- <-.
    rewrite (queue_of_length ch) by apply Hch. destruct Hc as [[Hf ->]|(Hlt & k' & ch' & E & Hok' & Htr & Hq & _)].
    + case_if; [lia|done].
    + case_if; [eauto 10|lia].
  - intros f. destruct (tryrecv_spec k h f Hok Hh) as [(e & _ & _ & Hno)|(i' & ch1 & Hop' & Hch & Hc)].
    { exfalso. by apply (Hno i ch). }
    destruct Hop as [Ho _ _ _], Hop' as [Ho' _ _ _]. rewrite Ho in Ho'. injection Ho' as <- <-.
    destruct Hc as [(_ & -> & E)|(msg & rest & -> & [[-> E]|(-> & k' & ch' & E & Hok' & Htr & Hq & _)])]; eauto 10.
Qed.

(** What a blocking receive answers. *)
Definition recv_result (k : kernel) (h f : Z) (r : call (Z * option ipc_message)) (k' : kernel) : Prop :=
  match r with
  | SwitchedTo next => exists i ch, opened k h i ch /\ queue_of ch = [] /\ slept k i true next k'
  | Returned (code, msg) =>
    (code = IPC_OK /\ kernel_ok k' /\ current_ok k' /\ exists i ch m, opened k h i ch /\ msg = Some m /\ head (queue_of ch) = Some m /\ accepts f m = true) \/
    ((code = IPC_ERR_INVAL \/ code = IPC_ERR_CLOSED \/ code = IPC_ERR_TYPE) /\ msg = None /\ k' = k) \/
    (code = IPC_ERR_AGAIN /\ msg = None /\
     ((s_current (k_sched k) = 0 /\ k' = k) \/
      (s_current (k_sched k) <> 0 /\ exists Q, sched_wf (k_sched k) Q /\ concat Q = [])))
  end.

Definition send_result (k : kernel) (h : Z) (r : call Z) (k' : kernel) : Prop :=
  match r with
  | SwitchedTo next => exists i ch, opened k h i ch /\ zlength (queue_of ch) = IPC_CHANNEL_CAPACITY /\ slept k i false next k'
  | Returned code =>
    (code = IPC_OK /\ kernel_ok k' /\ current_ok k') \/
    ((code = IPC_ERR_INVAL \/ code = IPC_ERR_CLOSED) /\ k' = k) \/
    (code = IPC_ERR_AGAIN /\
     ((s_current (k_sched k) = 0 /\ k' = k) \/
      (s_current (k_sched k) <> 0 /\ exists Q, sched_wf (k_sched k) Q /\ concat Q = [])))
  end.

Lemma transferred_current k i ch' w k' :
  kernel_ok k -> current_ok k -> transferred k i ch' w k' ->
  (w <> 0 -> has_state (k_sched k) w PROCESS_STATE_BLOCKED) -> current_ok k'.
Proof.
  intros Hok [Hz|Hr] Htr Hw; [left; by rewrite (tr_current _ _ _ _ _ Htr)|]. right.
  rewrite (tr_current _ _ _ _ _ Htr). apply (tr_state _ _ _ _ _ Htr); [|done].
  destruct Hr as (t & Ht & Hst). intros He. destruct (Z.eq_dec w 0) as [->|Hw0].
  - destruct (proj1 (ko_sched _ Hok)) as [H0 _]. congruence.
  - destruct (Hw Hw0) as (t' & Ht' & Hb). congruence.
Qed.

Section blocking.
Context (k : kernel) (h : Z) (Hok : kernel_ok k) (Hcur : current_ok k) (Hh : h <> IPC_HANDLE_INVALID).

Lemma send_spec msg : exists r k', ipc_send k h (Some msg) = Ret (r, k') /\ send_result k h r k'.
Proof using All.
  unfold ipc_send. destruct (Z.eqb_spec h IPC_HANDLE_INVALID); [done|].
  destruct (open_channel_spec k h Hok) as [(e & E & He)|(i & ch & E & Hfrom & Hi & Hst & Hch)]; rewrite E; simpl.
  { eexists _, _. split; [done|]. right. left. by destruct He as [->| ->]; auto. }
  assert (opened k h i ch) as Hop by (by split). unfold ipc_send_try.
  destruct (trysend_spec k h msg Hok Hh) as [(e & _ & _ & Hno)|(i' & ch1 & Hop' & _ & Hc)];
    [exfalso; by apply (Hno i ch)|].
  destruct Hop' as [Ho' _ _ _]. rewrite E in Ho'. injection Ho' as <- <-.
  destruct Hc as [[Hf ->]|(Hlt & k' & ch' & -> & Hok' & Htr & _)]; simpl.
  - change set_sender with (set_waiter_of false).
    destruct (block_on_spec k i ch false Hok Hcur Hi Hf) as (next & k' & -> & Hn). simpl.
    destruct next as [next|]; (eexists _, _; split; [done|]); [|right; right; eauto].
    exists i, ch. split; [done|]. split; [|done]. rewrite queue_of_length; [done|by apply Hch].
  - eexists _, _. split; [done|]. left. split; [done|]. split; [done|].
    apply (transferred_current k i ch' _ k' Hok Hcur Htr), (co_receiver _ _ _ Hch).
Qed.

Lemma recv_spec f : exists r k', ipc_recv k h f true = Ret (r, k') /\ recv_result k h f r k'.
Proof using All.
  unfold ipc_recv. destruct (Z.eqb_spec h IPC_HANDLE_INVALID); [done|]. simpl.
  destruct (open_channel_spec k h Hok) as [(e & E & He)|(i & ch & E & Hfrom & Hi & Hst & Hch)]; rewrite E; simpl.
  { eexists _, _. split; [done|]. right. left. by destruct He as [->| ->]; auto. }
  assert (opened k h i ch) as Hop by (by split). unfold ipc_recv_try.
  destruct (tryrecv_spec k h f Hok Hh) as [(e & _ & _ & Hno)|(i' & ch1 & Hop' & _ & Hc)];
    [exfalso; by apply (Hno i ch)|].
  destruct Hop' as [Ho' _ _ _]. rewrite E in Ho'. injection Ho' as <- <-.
  destruct Hc as [(Hz & Hq & ->)|(msg & rest & Hq & [[Ha ->]|(Ha & k' & ch' & -> & Hok' & Htr & _)])]; simpl.
  - change set_receiver with (set_waiter_of true).
    destruct (block_on_spec k i ch true Hok Hcur Hi Hz) as (next & k' & -> & Hn). simpl.
    destruct next as [next|]; (eexists _, _; split; [done|]); [by exists i, ch|right; right; eauto].
  - eexists _, _. split; [done|]. right. left. auto.
  - eexists _, _. split; [done|]. left. split; [done|]. split; [done|].
    split; [apply (transferred_current k i ch' _ k' Hok Hcur Htr), (co_sender _ _ _ Hch)|]. exists i, ch, msg. by rewrite Hq.
Qed.
End blocking.

(** A blocking send or receive always gets somewhere: it transfers its message,
    answers an error, or puts the calling thread to sleep, recorded on the
    channel, with another READY thread running and the invariant kept (so no
    thread sleeps on a channel that could serve it).  AGAIN is answered only when
    there is no current thread or no other thread to run. *)
Theorem ipc_blocking_correct k h :
  kernel_ok k -> current_ok k -> h <> IPC_HANDLE_INVALID ->
  (forall msg, exists r k', ipc_send k h (Some msg) = Ret (r, k') /\ send_result k h r k') /\
  (forall f, exists r k', ipc_recv k h f true = Ret (r, k') /\ recv_result k h f r k').
Proof. intros Hok Hcur Hh. split; intros; [by apply send_spec|by apply recv_spec]. Qed.

(** A handle stays good while its channel keeps the handle and stays open. *)
Lemma opened_same k k2 h i ch ch' :
  opened k h i ch -> s_channels (k_ipc k2) .@ i = Some ch' -> ch_handle ch' = ch_handle ch ->
  ch_state ch' = CHAN_OPEN -> opened k2 h i ch'.
Proof.
  intros [_ Hfrom Hchan _] Hi2 Hh' Hst'.
  assert (chan_from_handle (k_ipc k2) h = Some i) as Hf2.
  { unfold chan_from_handle in *. destruct (h =? IPC_HANDLE_INVALID); [done|].
    destruct ((Z.land h 255 =? 0) || (IPC_MAX_CHANNELS <? Z.land h 255)); [done|].
    destruct (s_channels (k_ipc k) .@ (Z.land h 255 - 1)) as [c|] eqn:Ec; [|done].
    destruct (Z.eqb_spec (ch_handle c) h) as [Hhh|]; [|done]. injection Hfrom as Hii. rewrite Hii in *.
    rewrite Hi2. assert (c = ch) as -> by congruence. rewrite Hh', Hhh, Z.eqb_refl. done. }
  split; [|done|done|done]. unfold open_channel. rewrite Hf2, (channel_at_Some _ _ _ Hi2). simpl. by rewrite Hst'.
Qed.

(** A READY thread is recorded by no channel. *)
Lemma ready_not_waiting k p : kernel_ok k -> has_state (k_sched k) p PROCESS_STATE_READY -> not_waiting k p.
Proof.
  intros Hok (t & Ht & Hst) j c r Hj He. destruct (Z.eq_dec p 0) as [|Hp]; [done|]. exfalso.
  pose proof (ko_chan _ Hok j c Hj) as Hcj.
  assert (has_state (k_sched k) (waiter c r) PROCESS_STATE_BLOCKED) as (t' & Ht' & Hbt).
  { destruct r; simpl in *; [apply (co_receiver _ _ _ Hcj)|apply (co_sender _ _ _ Hcj)]; by rewrite He. }
  rewrite He in Ht'. congruence.
Qed.

(** A round of a receive on a channel with one message. *)
Lemma recv_only_message k h i ch f msg : kernel_ok k -> h <> IPC_HANDLE_INVALID -> opened k h i ch -> queue_of ch = [msg] ->
  if accepts f msg then exists k', ipc_recv_try k i h f = Ret (Returned (IPC_OK, Some msg), k') /\ kernel_ok k'
  else ipc_recv_try k i h f = Ret (Returned (IPC_ERR_TYPE, None), k).
Proof.
  intros Hok Hh Hop Hq. unfold ipc_recv_try.
  destruct (tryrecv_spec k h f Hok Hh) as [(e & _ & _ & Hno)|(i2 & ch2 & Hop2 & _ & Hc)]; [exfalso; by apply (Hno i ch)|].
  pose proof (op_open _ _ _ _ Hop) as Ho. pose proof (op_open _ _ _ _ Hop2) as Ho2. rewrite Ho in Ho2. injection Ho2 as <- <-.
  rewrite Hq in Hc. destruct Hc as [(_ & ? & _)|(m & rest & [= <- <-] & [[-> ->]|(-> & k3 & c3 & -> & Hok3 & _)])]; [done|done|].
  simpl. eauto.
Qed.

(** C37: A message sent to a channel wakes the receiver recorded on it: the receiver is
    READY, no longer recorded, and the last of the run queue of its priority when fewer
    than [SCHED_MAX_THREADS] threads were ready and its priority is a valid one.  In any
    later state whose channel is as the send left it (no other receive came first), the
    round of its receive takes the message if its filter accepts the type, and otherwise
    answers TYPE and changes nothing.  A thread whose record another receiver replaced
    is not covered ([second_receiver_forgets_first]). *)
Theorem sleeping_receiver_served k h i ch msg :
  kernel_ok k -> h <> IPC_HANDLE_INVALID -> opened k h i ch -> blocked_receiver ch <> 0 ->
  exists k' ch', ipc_trysend k h (Some msg) = Ret (IPC_OK, k') /\ kernel_ok k' /\
    has_state (k_sched k') (blocked_receiver ch) PROCESS_STATE_READY /\ not_waiting k' (blocked_receiver ch) /\
    (forall Q t, sched_wf (k_sched k) Q -> s_threads (k_sched k) !! blocked_receiver ch = Some t -> priority t < SCHED_PRIO_MAX ->
       s_total_ready (k_sched k) < SCHED_MAX_THREADS -> sched_wf (k_sched k') (push_band Q (priority t) (blocked_receiver ch))) /\
    s_channels (k_ipc k') .@ i = Some ch' /\
    forall k2 f, kernel_ok k2 -> s_channels (k_ipc k2) .@ i = Some ch' ->
      if accepts f msg then exists k3, ipc_recv_try k2 i h f = Ret (Returned (IPC_OK, Some msg), k3) /\ kernel_ok k3
      else ipc_recv_try k2 i h f = Ret (Returned (IPC_ERR_TYPE, None), k2).
Proof.
  intros Hok Hh Hop Hw. pose proof (ko_chan _ Hok i ch (op_chan _ _ _ _ Hop)) as Hch.
  destruct (co_receiver _ _ _ Hch Hw) as [Hz Hb].
  assert (queue_of ch = []) as Hq by (unfold queue_of; by rewrite Hz).
  destruct (trysend_spec k h msg Hok Hh) as [(e & _ & _ & Hno)|(i' & ch1 & Hop' & _ & Hc)]; [exfalso; by apply (Hno i ch)|].
  pose proof (op_open _ _ _ _ Hop) as Ho. pose proof (op_open _ _ _ _ Hop') as Ho'. rewrite Ho in Ho'. injection Ho' as <- <-.
  destruct Hc as [[Hf _]|(_ & k' & ch' & E & Hok' & Htr & Hq' & Hst' & Hh')]; [unfold IPC_CHANNEL_CAPACITY in Hf; lia|].
  rewrite Hq in Hq'. exists k', ch'. split; [done|]. split; [done|]. split; [by apply (tr_woken _ _ _ _ _ Htr)|].
  split; [by apply ready_not_waiting, (tr_woken _ _ _ _ _ Htr)|]. split; [|split; [by apply (tr_chan _ _ _ _ _ Htr)|]].
  - intros Q t Hwf Ht Hp Hr. pose proof (tr_bands _ _ _ _ _ Htr Q Hwf) as Hbands. unfold woken_bands in Hbands. rewrite Ht in Hbands.
    by rewrite (proj2 (Z.ltb_lt _ _) Hp), (proj2 (Z.ltb_lt _ _) Hr) in Hbands.
  - intros k2 f Hok2 Hi2. by apply (recv_only_message k2 h i ch' f msg Hok2 Hh (opened_same k k2 h i ch ch' Hop Hi2 Hh' Hst')).
Qed.

(** ** Handles *)

Lemma make_handle_eq g i : 1 <= g < 2 ^ 24 -> 0 <= i < IPC_MAX_CHANNELS -> make_handle g i = g * 256 + (i + 1).
Proof.
  intros Hg Hi. unfold make_handle, IPC_MAX_CHANNELS in *.
  change 0x00FFFFFF with (Z.ones 24). rewrite Z.land_ones, (Z.mod_small g) by lia.
  rewrite (lor_shiftl_add 8 g (i + 1)) by lia. change (2 ^ 8) with 256.
  destruct (Z.eqb_spec (g * 256 + (i + 1)) IPC_HANDLE_INVALID); [unfold IPC_HANDLE_INVALID in *; lia|done].
Qed.

(** Every live handle carries a generation below the next one. *)
Definition generations_ok (x : ipc) : Prop :=
  1 <= s_next_generation x <= 2 ^ 24 /\ zlength (s_channels x) = IPC_MAX_CHANNELS /\
  forall i ch, s_channels x .@ i = Some ch ->
    ch_handle ch = 0 \/ exists g, 1 <= g < s_next_generation x /\ ch_handle ch = g * 256 + (i + 1).

(** What happens to the channels later: creations (fewer than 2^24 in all),
    destructions, and transfers, which change neither handles nor states. *)
Inductive ipc_steps (x0 : ipc) : ipc -> Prop :=
| steps_refl : ipc_steps x0 x0
| steps_create x : ipc_steps x0 x -> s_next_generation x < 2 ^ 24 -> ipc_steps x0 (ipc_channel_create x).2
| steps_destroy x h : ipc_steps x0 x -> ipc_steps x0 (ipc_channel_destroy x h).2
| steps_transfer x x' : ipc_steps x0 x -> s_next_generation x' = s_next_generation x ->
    ch_handle <$> s_channels x' = ch_handle <$> s_channels x -> ipc_steps x0 x'.

Lemma destroy_eq x h i : chan_from_handle x h = Some i ->
  exists ch, s_channels x .@ i = Some ch /\ ch_handle ch = h /\ h <> 0 /\ Z.land h 0xFF = i + 1 /\
    (ch_state ch <> CHAN_FREE ->
     ipc_channel_destroy x h =
       (IPC_OK, mk_ipc (set (s_channels x) i (reset_channel ch CHAN_FREE IPC_HANDLE_INVALID)) (s_next_generation x))).
Proof.
  intros Hf. pose proof Hf as Hf0. unfold chan_from_handle in Hf. unfold IPC_HANDLE_INVALID in *.
  destruct (Z.eqb_spec h 0); [done|]. case_if_in Hf; [done|].
  destruct (s_channels x .@ (Z.land h 255 - 1)) as [ch|] eqn:Hc; [|done]. case_if_in Hf; [|done]. injection Hf as <-.
  exists ch. split; [done|]. split; [done|]. split; [done|]. split; [lia|]. intros Hst.
  unfold ipc_channel_destroy, IPC_HANDLE_INVALID. destruct (Z.eqb_spec h 0); [done|]. rewrite Hf0, Hc.
  by destruct (ch_state ch).
Qed.

(** The slots after a channel was reset to FREE. *)
Lemma freed_channels x i ch : s_channels x .@ i = Some ch ->
  forall j c, set (s_channels x) i (reset_channel ch CHAN_FREE IPC_HANDLE_INVALID) .@ j = Some c ->
    ch_handle c = 0 \/ (i <> j /\ s_channels x .@ j = Some c).
Proof.
  intros Hch j c. pose proof (get_Some_range _ _ _ Hch) as Hir. destruct (Z.eq_dec i j) as [<-|Hne].
  - rewrite get_set_eq by done. intros [= <-]. by left.
  - rewrite get_set_ne by done. by right.
Qed.

Lemma generations_freed x i ch : generations_ok x -> s_channels x .@ i = Some ch ->
  generations_ok (mk_ipc (set (s_channels x) i (reset_channel ch CHAN_FREE IPC_HANDLE_INVALID)) (s_next_generation x)).
Proof.
  intros (Hr & Hl & Hc) Hch. split; [done|]. split; [simpl; by rewrite zlength_set|].
  intros j c [?|[_ Hj]]%(freed_channels x i ch Hch); [by left|by apply Hc].
Qed.

Lemma generations_create x : generations_ok x -> s_next_generation x < 2 ^ 24 -> generations_ok (ipc_channel_create x).2.
Proof.
  intros (Hr & Hl & Hc) Hnext. unfold ipc_channel_create.
  destruct (find_index _ (s_channels x)) as [i|] eqn:Hi; [|done]. destruct (s_channels x .@ i) as [ch|] eqn:Hch; [|done].
  simpl. pose proof (get_Some_range _ _ _ Hch) as Hir. unfold IPC_MAX_CHANNELS in *.
  rewrite (u32_id (s_next_generation x + 1)) by lia. destruct (Z.eqb_spec (s_next_generation x + 1) 0); [lia|].
  rewrite make_handle_eq by (unfold IPC_MAX_CHANNELS; lia).
  split; [simpl; lia|]. split; [simpl; by rewrite zlength_set|]. simpl. intros j c Hj. destruct (Z.eq_dec i j) as [<-|Hne].
  - rewrite get_set_eq in Hj by done. injection Hj as <-. right. exists (s_next_generation x). simpl. lia.
  - rewrite get_set_ne in Hj by done. destruct (Hc j c Hj) as [?|(g' & ? & ?)]; [by left|]. right. exists g'. lia.
Qed.

Lemma generations_destroy x h : generations_ok x -> generations_ok (ipc_channel_destroy x h).2.
Proof.
  intros Hg. unfold ipc_channel_destroy. destruct (h =? IPC_HANDLE_INVALID); [done|].
  destruct (chan_from_handle x h) as [i|]; [|done]. destruct (s_channels x .@ i) as [ch|] eqn:Hch; [|done].
  pose proof (generations_freed x i ch Hg Hch). by destruct (ch_state ch).
Qed.

(** A transfer changes no handle. *)
Lemma same_handles (l l' : list ipc_channel) j c : ch_handle <$> l' = ch_handle <$> l -> l' .@ j = Some c ->
  exists c0, l .@ j = Some c0 /\ ch_handle c0 = ch_handle c.
Proof.
  intros Hsame. unfold get. case_if; [done|]. intros Hj. pose proof (f_equal (fun l => l !! Z.to_nat j) Hsame) as Hl'.
  simpl in Hl'. rewrite !list_lookup_fmap, Hj in Hl'. simpl in Hl'.
  destruct (l !! Z.to_nat j) as [c0|]; [|done]. exists c0. simpl in Hl'. by injection Hl' as ->.
Qed.

Lemma generations_transfer x x' : generations_ok x -> s_next_generation x' = s_next_generation x ->
  ch_handle <$> s_channels x' = ch_handle <$> s_channels x -> generations_ok x'.
Proof.
  intros (Hr & Hl & Hc) Hnx Hsame. split; [lia|]. split.
  - unfold zlength in *. rewrite <- (length_fmap ch_handle), Hsame, length_fmap. done.
  - intros j c Hj. destruct (same_handles _ _ j c Hsame Hj) as (c0 & Hc0 & <-). rewrite Hnx. by apply Hc.
Qed.

Lemma generations_init x : zlength (s_channels x) = IPC_MAX_CHANNELS -> generations_ok (ipc_init x).
Proof.
  intros Hl. split; [simpl; lia|]. split; [unfold zlength in *; simpl; by rewrite length_fmap|].
  intros i ch Hi. left. simpl in Hi. apply get_In in Hi. by apply list_elem_of_fmap in Hi as (c & -> & _).
Qed.

Lemma generations_steps x0 x : generations_ok x0 -> ipc_steps x0 x -> generations_ok x.
Proof. intros Hg. induction 1; [done|by apply generations_create|by apply generations_destroy|by eapply generations_transfer]. Qed.

Section dead.
Context (h g : Z) (Hh : h = g * 256 + Z.land h 0xFF).

(** The handle [h] of generation [g] is carried by no channel. *)
Definition dead (x : ipc) : Prop :=
  generations_ok x /\ g < s_next_generation x /\ forall i ch, s_channels x .@ i = Some ch -> ch_handle ch <> h.

Lemma dead_create x : dead x -> s_next_generation x < 2 ^ 24 -> dead (ipc_channel_create x).2.
Proof.
  intros (Hg & Hgx & Hn) Hnext. split; [by apply generations_create|]. destruct Hg as (Hr & Hl & Hc). unfold ipc_channel_create.
  destruct (find_index _ (s_channels x)) as [i|] eqn:Hi; [|done]. destruct (s_channels x .@ i) as [ch|] eqn:Hch; [|done].
  simpl. pose proof (get_Some_range _ _ _ Hch) as Hir. unfold IPC_MAX_CHANNELS in *.
  rewrite (u32_id (s_next_generation x + 1)) by lia. destruct (Z.eqb_spec (s_next_generation x + 1) 0); [lia|].
  rewrite make_handle_eq by (unfold IPC_MAX_CHANNELS; lia). split; [lia|].
  intros j c Hj. destruct (Z.eq_dec i j) as [<-|Hne].
  - rewrite get_set_eq in Hj by done. injection Hj as <-. simpl.
    pose proof (Z.mod_pos_bound h 256 ltac:(lia)). change 255 with (Z.ones 8) in Hh. rewrite Z.land_ones in Hh by lia.
    change (2 ^ 8) with 256 in Hh. lia.
  - rewrite get_set_ne in Hj by done. by apply (Hn j).
Qed.

Lemma dead_destroy x h' : h <> 0 -> dead x -> dead (ipc_channel_destroy x h').2.
Proof.
  intros Hh0 (Hg & Hgx & Hn). unfold ipc_channel_destroy. destruct (h' =? IPC_HANDLE_INVALID); [done|].
  destruct (chan_from_handle x h') as [i|]; [|done]. destruct (s_channels x .@ i) as [ch|] eqn:Hch; [|done].
  assert (dead (mk_ipc (set (s_channels x) i (reset_channel ch CHAN_FREE IPC_HANDLE_INVALID)) (s_next_generation x))) as Hd.
  { split; [by apply generations_freed|]. split; [done|].
    intros j c [->|[_ Hj]]%(freed_channels x i ch Hch); [congruence|by apply (Hn j)]. }
  by destruct (ch_state ch).
Qed.

Lemma dead_transfer x x' : dead x -> s_next_generation x' = s_next_generation x ->
  ch_handle <$> s_channels x' = ch_handle <$> s_channels x -> dead x'.
Proof.
  intros (Hg & Hgx & Hn) Hnx Hsame. split; [by eapply generations_transfer|]. split; [lia|].
  intros j c Hj. destruct (same_handles _ _ j c Hsame Hj) as (c0 & Hc0 & <-). by apply (Hn j).
Qed.

Lemma dead_steps x0 x : h <> 0 -> dead x0 -> ipc_steps x0 x -> dead x.
Proof.
  intros Hh0 Hd. induction 1; [done|by apply dead_create|by apply dead_destroy|by eapply dead_transfer].
Qed.

Lemma dead_none x : dead x -> chan_from_handle x h = None.
Proof.
  intros (_ & _ & Hn). unfold chan_from_handle. destruct (h =? IPC_HANDLE_INVALID); [done|]. case_if; [done|].
  destruct (s_channels x .@ (Z.land h 255 - 1)) as [c|] eqn:Hc; [|done].
  destruct (Z.eqb_spec (ch_handle c) h) as [He|]; [|done]. by apply Hn in Hc.
Qed.
End dead.

(** C31: A handle is dead once its channel is destroyed.  From the initialised pool, after
    any creations, destructions and transfers, let a destruction of the channel of a
    handle succeed; whatever is created, destroyed or transferred later, every operation
    with the old handle answers INVAL and changes nothing.  Creations are counted: the
    24 bits of the generation may not be used up ([ipc_steps]). *)
Theorem stale_handle_rejected x0 x h x1 k :
  zlength (s_channels x0) = IPC_MAX_CHANNELS -> ipc_steps (ipc_init x0) x ->
  ipc_channel_destroy x h = (IPC_OK, x1) -> ipc_steps x1 (k_ipc k) ->
  chan_from_handle (k_ipc k) h = None /\
  ipc_channel_destroy (k_ipc k) h = (IPC_ERR_INVAL, k_ipc k) /\ ipc_channel_is_open (k_ipc k) h = false /\
  (forall msg, ipc_trysend k h msg = Ret (IPC_ERR_INVAL, k)) /\
  (forall f, ipc_tryrecv k h f true = Ret (IPC_ERR_INVAL, None, k)) /\
  (forall msg, ipc_send k h msg = Ret (Returned IPC_ERR_INVAL, k)) /\
  (forall f, ipc_recv k h f true = Ret (Returned (IPC_ERR_INVAL, None), k)).
Proof.
  intros Hlen Hsteps0 E Hsteps. pose proof (generations_steps _ _ (generations_init x0 Hlen) Hsteps0) as Hg.
  assert (chan_from_handle (k_ipc k) h = None) as Hnone.
  { unfold ipc_channel_destroy in E. destruct (Z.eqb_spec h IPC_HANDLE_INVALID); [done|].
    destruct (chan_from_handle x h) as [i|] eqn:Hf; [|done].
    destruct (destroy_eq x h i Hf) as (ch & Hch & Hhh & Hh0 & Hland & _). rewrite Hch in E.
    pose proof Hg as (Hr & Hl & Hc). destruct (Hc i ch Hch) as [|(g & Hgr & Hgh)]; [congruence|].
    assert (x1 = mk_ipc (set (s_channels x) i (reset_channel ch CHAN_FREE IPC_HANDLE_INVALID)) (s_next_generation x)) as ->
      by (destruct (ch_state ch); [done|by injection E|by injection E]).
    apply (dead_none h g). eapply dead_steps; [|done| |exact Hsteps]; [lia|].
    split; [by apply generations_freed|]. split; [simpl; lia|].
    intros j c [->|[Hne Hj]]%(freed_channels x i ch Hch); [congruence|]. destruct (Hc j c Hj) as [->|(g' & ? & ->)]; [congruence|].
    pose proof (get_Some_range _ _ _ Hj). pose proof (get_Some_range _ _ _ Hch). unfold IPC_MAX_CHANNELS in *. lia. }
  unfold ipc_channel_destroy, ipc_channel_is_open, ipc_trysend, ipc_tryrecv, ipc_send, ipc_recv, open_channel.
  rewrite Hnone. destruct (h =? IPC_HANDLE_INVALID); simpl; repeat split; done || (intros msg; by destruct msg).
Qed.

(** ** The life of a channel *)

Lemma make_handle_slot g i : 0 <= g -> 0 <= i < IPC_MAX_CHANNELS ->
  make_handle g i <> 0 /\ Z.land (make_handle g i) 0xFF = i + 1.
Proof.
  intros Hg Hi. unfold make_handle, IPC_MAX_CHANNELS, IPC_HANDLE_INVALID in *.
  rewrite (lor_shiftl_add 8 _ (i + 1)) by lia. pose proof (land_range g 0x00FFFFFF Hg ltac:(lia)).
  change (2 ^ 8) with 256. set (a := Z.land g 0x00FFFFFF) in *.
  destruct (Z.eqb_spec (a * 256 + (i + 1)) 0); [lia|]. split; [lia|].
  change 0xFF with (Z.ones 8). rewrite Z.land_ones by lia. change (2 ^ 8) with 256.
  rewrite Z.add_comm, Z.mod_add by lia. apply Z.mod_small. lia.
Qed.

(** A slot reset with nobody waiting. *)
Lemma reset_slot_ok k i ch st h :
  kernel_ok k -> s_channels (k_ipc k) .@ i = Some ch ->
  (st = CHAN_FREE -> h = IPC_HANDLE_INVALID) -> (st <> CHAN_FREE -> h <> 0 /\ Z.land h 0xFF = i + 1) ->
  kernel_ok (put_channel k i (reset_channel ch st h)).
Proof.
  intros Hok Hi H1 H2. eapply put_channel_ok; [done|done| |intros []; by left].
  destruct (co_ring _ _ _ (ko_chan _ Hok i ch Hi)). by split.
Qed.

Lemma kernel_boot_ok s x :
  sched_inv s -> zlength (s_channels x) = IPC_MAX_CHANNELS ->
  (forall i ch, s_channels x .@ i = Some ch -> zlength (ch_ring ch) = IPC_CHANNEL_CAPACITY) ->
  kernel_ok (mk_kernel s (ipc_init x)).
Proof.
  intros Hs Hl Hr.
  assert (forall i ch, s_channels (ipc_init x) .@ i = Some ch ->
    exists c, s_channels x .@ i = Some c /\ ch = reset_channel c CHAN_FREE IPC_HANDLE_INVALID) as Hg.
  { intros i ch. unfold get, ipc_init. simpl. case_if; [done|]. rewrite list_lookup_fmap.
    destruct (s_channels x !! Z.to_nat i) as [c|]; [|done]. intros [= <-]. by exists c. }
  split; simpl; [done|unfold zlength in *; by rewrite length_fmap| |].
  - intros i ch (c & Hc & ->)%Hg. split; try done. split; simpl; [by eapply Hr|by split|by split|done].
  - intros i ch r j ch' r' (c & _ & ->)%Hg _ Hw. by destruct r.
Qed.

(** Channel creation takes the first free slot, answers a handle that opens an
    empty channel there and touches no other; with all sixteen in use it answers
    the invalid handle.  Destruction frees the slot.  Both keep the invariant. *)
Theorem ipc_lifecycle_correct k :
  kernel_ok k -> 0 <= s_next_generation (k_ipc k) ->
  (let '(h, x') := ipc_channel_create (k_ipc k) in
   kernel_ok (mk_kernel (k_sched k) x') /\
   ((h = IPC_HANDLE_INVALID /\ x' = k_ipc k /\ forall i ch, s_channels (k_ipc k) .@ i = Some ch -> ch_state ch <> CHAN_FREE) \/
    (exists i ch, opened (mk_kernel (k_sched k) x') h i ch /\ queue_of ch = [] /\
       (forall j c, 0 <= j < i -> s_channels (k_ipc k) .@ j = Some c -> ch_state c <> CHAN_FREE) /\
       forall j, j <> i -> s_channels x' .@ j = s_channels (k_ipc k) .@ j))) /\
  (forall h i ch, opened k h i ch ->
     exists x', ipc_channel_destroy (k_ipc k) h = (IPC_OK, x') /\ kernel_ok (mk_kernel (k_sched k) x') /\
       chan_from_handle x' h = None /\ forall j, j <> i -> s_channels x' .@ j = s_channels (k_ipc k) .@ j).
Proof.
  intros Hok Hgen. split.
  - unfold ipc_channel_create. destruct (find_index _ (s_channels (k_ipc k))) as [i|] eqn:Hf.
    + apply find_index_Some in Hf as (ch & Hch & Hfree & Hbefore). rewrite Hch.
      pose proof (get_Some_range _ _ _ Hch) as Hr. rewrite (ko_len _ Hok) in Hr.
      destruct (make_handle_slot (s_next_generation (k_ipc k)) i Hgen Hr) as [Hh0 Hland].
      set (h := make_handle _ i) in *. pose proof (reset_slot_ok k i ch CHAN_OPEN h Hok Hch ltac:(done) ltac:(done)) as Hok'.
      match goal with |- kernel_ok (mk_kernel _ (mk_ipc _ ?n)) /\ _ => set (next := n) end. split; [by destruct Hok'|].
      right. exists i, (reset_channel ch CHAN_OPEN h). simpl.
      assert (set (s_channels (k_ipc k)) i (reset_channel ch CHAN_OPEN h) .@ i = Some (reset_channel ch CHAN_OPEN h)) as Hget
        by (by eapply get_set_channel).
      assert (chan_from_handle (mk_ipc (set (s_channels (k_ipc k)) i (reset_channel ch CHAN_OPEN h)) next) h = Some i) as Hfrom.
      { unfold chan_from_handle, IPC_HANDLE_INVALID. destruct (Z.eqb_spec h 0); [done|]. rewrite Hland.
        destruct (Z.eqb_spec (i + 1) 0); [lia|]. destruct (Z.ltb_spec IPC_MAX_CHANNELS (i + 1)); [lia|]. simpl.
        replace (i + 1 - 1) with i by lia. rewrite Hget. simpl. by rewrite Z.eqb_refl. }
      split; [|split; [done|split]].
      * split; [|done|done|done]. unfold open_channel. simpl. rewrite Hfrom.
        by rewrite (channel_at_Some _ i (reset_channel ch CHAN_OPEN h)).
      * intros j c Hj Hc Hst. pose proof (Hbefore j c Hj Hc) as Hb. cbv beta in Hb. by rewrite bool_decide_true in Hb.
      * intros j Hj. by rewrite get_set_ne.
    + split; [by destruct k|]. left. split; [done|]. split; [done|]. intros i ch Hi Hst.
      pose proof (find_index_None _ _ Hf ch (get_In _ _ _ Hi)) as Hb. cbv beta in Hb. by rewrite bool_decide_true in Hb.
  - intros h i ch [_ Hfrom Hchan Hst].
    destruct (destroy_eq _ _ _ Hfrom) as (ch' & Hch' & Hhh & Hh0 & Hland & Heq).
    assert (ch' = ch) as -> by congruence. rewrite Heq by (by rewrite Hst). eexists. split; [done|].
    pose proof (reset_slot_ok k i ch CHAN_FREE IPC_HANDLE_INVALID Hok Hchan ltac:(done) ltac:(done)) as Hok'.
    split; [by destruct Hok'|]. split; [|intros j Hj; simpl; by rewrite get_set_ne].
    unfold chan_from_handle. destruct (h =? IPC_HANDLE_INVALID); [done|]. rewrite Hland. case_if; [done|].
    replace (i + 1 - 1) with i by lia. simpl. rewrite (get_set_channel k i ch) by done. simpl.
    by destruct h.
Qed.

(** ** Examples *)

Definition blank_message : ipc_message := mk_message 0 0 (replicate 8 0).
Definition blank_ipc : ipc :=
  ipc_init (mk_ipc (replicate 16 (mk_channel CHAN_FREE 0 0 0 0 (replicate 8 blank_message) 0 0)) 0).

Definition sample_kernel : kernel := mk_kernel sample_sched (ipc_channel_create blank_ipc).2.
Definition sample_handle : Z := 257.
Definition sample_message : ipc_message := mk_message 2 8 [42; 0; 0; 0; 0; 0; 0; 0].

Lemma blank_kernel_ok : kernel_ok (mk_kernel sample_sched blank_ipc).
Proof.
  apply kernel_boot_ok; [apply sched_reaches_inv, sample_sched_reaches|done|].
  intros i ch Hi%get_In. simpl in Hi. by apply (elem_of_replicate 16) in Hi as [-> _].
Qed.

Lemma ipc_lifecycle_correct_witness :
  kernel_ok sample_kernel /\ 0 <= s_next_generation (k_ipc sample_kernel).
Proof.
  split; [|by vm_compute].
  exact (proj1 (proj1 (ipc_lifecycle_correct (mk_kernel sample_sched blank_ipc) blank_kernel_ok ltac:(by vm_compute)))).
Defined.

Lemma sample_kernel_ok : kernel_ok sample_kernel.
Proof.
  pose proof (reset_slot_ok (mk_kernel sample_sched blank_ipc) 0 _ CHAN_OPEN sample_handle blank_kernel_ok eq_refl) as H.
  specialize (H ltac:(done) ltac:(done)). by destruct H.
Qed.

Definition sample_channel : ipc_channel :=
  mk_channel CHAN_OPEN 257 0 0 0 (replicate 8 blank_message) 0 0.

Lemma sample_opened : opened sample_kernel sample_handle 0 sample_channel.
Proof. by split. Qed.

Lemma sample_current : current_ok sample_kernel.
Proof. right. eexists. by split; [vm_compute|]. Qed.

Lemma ipc_transfer_fifo_witness :
  exists k' ch', ipc_trysend sample_kernel sample_handle (Some sample_message) = Ret (IPC_OK, k') /\
    queue_of ch' = [sample_message].
Proof.
  destruct (proj1 (ipc_transfer_fifo sample_kernel sample_handle 0 sample_channel sample_kernel_ok ltac:(done) sample_opened)
              sample_message) as (k' & ch' & E & _ & _ & Hq).
  exists k', ch'. split; [exact E|exact Hq].
Defined.

Lemma ipc_blocking_correct_witness :
  exists r k', ipc_recv sample_kernel sample_handle 0 true = Ret (r, k') /\ recv_result sample_kernel sample_handle 0 r k'.
Proof. exact (proj2 (ipc_blocking_correct sample_kernel sample_handle sample_kernel_ok sample_current ltac:(done)) 0). Defined.

(** The kernel in which the first thread sleeps on the channel. *)
Definition sleeping_kernel : kernel :=
  match ipc_recv sample_kernel sample_handle 0 true with Ret (_, k) => k | _ => sample_kernel end.

Definition sleeping_channel : ipc_channel :=
  mk_channel CHAN_OPEN 257 0 0 0 (replicate 8 blank_message) 0 0x1000.

Lemma sleeping_ok : kernel_ok sleeping_kernel /\ opened sleeping_kernel sample_handle 0 sleeping_channel.
Proof.
  destruct (recv_spec sample_kernel sample_handle sample_kernel_ok sample_current ltac:(done) 0) as (r & k' & E & Hr).
  assert (sleeping_kernel = k') as Hk by (unfold sleeping_kernel; by rewrite E).
  assert (r = SwitchedTo 0x2000) as ->.
  { assert (match ipc_recv sample_kernel sample_handle 0 true with Ret (r, _) => r | _ => SwitchedTo 0 end = r) as <-
      by (by rewrite E). by vm_compute. }
  destruct Hr as (i & ch & _ & _ & Hs). split; [rewrite Hk; apply Hs|]. split; by vm_compute.
Qed.

Lemma sleeping_receiver_served_witness :
  exists k', ipc_trysend sleeping_kernel sample_handle (Some sample_message) = Ret (IPC_OK, k') /\
    has_state (k_sched k') 0x1000 PROCESS_STATE_READY.
Proof.
  destruct (sleeping_receiver_served sleeping_kernel sample_handle 0 sleeping_channel sample_message
    (proj1 sleeping_ok) ltac:(done) (proj2 sleeping_ok) ltac:(done)) as (k' & ch' & E & _ & Hready & _).
  exists k'. split; [exact E|exact Hready].
Defined.

Definition raw_ipc : ipc := mk_ipc (replicate 16 (mk_channel CHAN_FREE 0 0 0 0 (replicate 8 blank_message) 0 0)) 0.

Lemma stale_handle_rejected_witness :
  chan_from_handle (ipc_channel_create (ipc_channel_destroy (k_ipc sample_kernel) sample_handle).2).2 sample_handle = None.
Proof.
  apply (fun H1 H2 H3 H4 => proj1 (stale_handle_rejected raw_ipc (k_ipc sample_kernel) sample_handle
    (ipc_channel_destroy (k_ipc sample_kernel) sample_handle).2
    (mk_kernel sample_sched (ipc_channel_create (ipc_channel_destroy (k_ipc sample_kernel) sample_handle).2).2) H1 H2 H3 H4)).
  - done.
  - apply (steps_create (ipc_init raw_ipc) (ipc_init raw_ipc)); [apply steps_refl|by vm_compute].
  - by vm_compute.
  - apply steps_create; [apply steps_refl|by vm_compute].
Defined.

(** ** Behaviour to be aware of *)

(** A receive that cannot sleep, because no other thread is ready, answers AGAIN
    but leaves the running thread in the run queue. *)
Lemma failed_block_stays_queued :
  let k := mk_kernel sample_threads (k_ipc sample_kernel) in
  match ipc_recv k sample_handle 0 true with
  | Ret (Returned (code, _), k) =>
    code = IPC_ERR_AGAIN /\ t_state <$> s_threads (k_sched k) !! 0x1000 = Some PROCESS_STATE_RUNNING /\
    sched_get_ready_count (k_sched k) = 1 /\
    match s_queues (k_sched k) .@ 2 with Some q => q_head q = 0x1000 | None => False end
  | _ => False
  end.
Proof. vm_compute. done. Qed.

(** A second receiver replaces the first one's record: a message wakes only the
    second, and the first sleeps with no channel knowing of it. *)
Lemma second_receiver_forgets_first :
  match ipc_recv sleeping_kernel sample_handle 0 true with
  | Ret (SwitchedTo next, k) =>
    match ipc_trysend k sample_handle (Some sample_message) with
    | Ret (code, k) =>
      next = 0x3000 /\ code = IPC_OK /\
      t_state <$> s_threads (k_sched k) !! 0x1000 = Some PROCESS_STATE_BLOCKED /\
      t_state <$> s_threads (k_sched k) !! 0x2000 = Some PROCESS_STATE_READY /\
      blocked_receiver <$> s_channels (k_ipc k) .@ 0 = Some 0
    | _ => False
    end
  | _ => False
  end.
Proof. vm_compute. done. Qed.

(** Destroying a channel forgets the thread that sleeps on it. *)
Lemma destroy_forgets_sleeper :
  let '(code, x) := ipc_channel_destroy (k_ipc sleeping_kernel) sample_handle in
  code = IPC_OK /\ blocked_receiver <$> s_channels x .@ 0 = Some 0 /\
  t_state <$> s_threads (k_sched sleeping_kernel) !! 0x1000 = Some PROCESS_STATE_BLOCKED.
Proof. vm_compute. done. Qed.

End Ipc.
