(* ===== verification/Syscall.v ===== *)
(** * System calls

    [kernel/syscall/syscall.c]: the handlers and the dispatch table over the
    scheduler and the channels.  A handler that gives up the processor answers
    [SwitchedTo]: the call of the old thread is suspended in the context switch
    until that thread is dispatched again (at once, when the switch is to the
    caller itself).  The message buffers of the callers are a map from their
    addresses; a pointer that is neither [NULL] nor a buffer is a [Fault].  The
    traces on the console are left out. *)

From S2P Require Import Prelude Status Process Sched Ipc.
Import Process Sched Ipc.

Module Syscall.

Definition SYSCALL_YIELD : Z := 0x0001.
Definition SYSCALL_EXIT : Z := 0x0002.
Definition SYSCALL_GET_PID : Z := 0x0003.
Definition SYSCALL_GET_TID : Z := 0x0004.
Definition SYSCALL_SCHED_BLOCK : Z := 0x0101.
Definition SYSCALL_SCHED_SET_PRIORITY : Z := 0x0102.
Definition SYSCALL_SCHED_SLEEP : Z := 0x0103.
Definition SYSCALL_SCHED_GET_PRIORITY : Z := 0x0104.
Definition SYSCALL_IPC_SEND : Z := 0x0201.
Definition SYSCALL_IPC_RECV : Z := 0x0202.
Definition SYSCALL_IPC_TRYSEND : Z := 0x0203.
Definition SYSCALL_IPC_TRYRECV : Z := 0x0204.
Definition SYSCALL_DIAG_WRITE : Z := 0xF001.
Definition SYSCALL_DIAG_DUMP_SCHED : Z := 0xF002.

Definition SYSCALL_OK : Z := 0.
Definition SYSCALL_ERR_UNKNOWN : Z := -1.
Definition SYSCALL_ERR_INVAL : Z := -2.
Definition SYSCALL_ERR_AGAIN : Z := -4.
Definition SYSCALL_ERR_FULL : Z := -5.
Definition SYSCALL_ERR_EMPTY : Z := -6.
Definition SYSCALL_ERR_NOSYS : Z := -7.

Record syscall_args := mk_args { number : Z; arg0 : Z; arg1 : Z; arg2 : Z; arg3 : Z; arg4 : Z }.

(** The kernel and the message buffers of the callers. *)
Record system := mk_system { sys_kernel : kernel; sys_buffers : gmap Z ipc_message }.

Definition with_kernel (y : system) (k : kernel) : system := mk_system k (sys_buffers y).

Definition handler := syscall_args -> system -> outcome (call Z * system).

Definition ipc_result_to_syscall_result (r : Z) : Z :=
  if r =? IPC_OK then SYSCALL_OK else
  if r =? IPC_ERR_INVAL then SYSCALL_ERR_INVAL else
  if r =? IPC_ERR_FULL then SYSCALL_ERR_FULL else
  if r =? IPC_ERR_EMPTY then SYSCALL_ERR_EMPTY else
  if r =? IPC_ERR_AGAIN then SYSCALL_ERR_AGAIN else
  if r =? IPC_ERR_TYPE then SYSCALL_ERR_INVAL else
  if r =? IPC_ERR_CLOSED then SYSCALL_ERR_INVAL else
  if r =? IPC_ERR_NOSLOT then SYSCALL_ERR_AGAIN else SYSCALL_ERR_UNKNOWN.

(** ** Scheduling *)

(** The current thread stays on the processor. *)
Definition rerun (s : sched) (current : Z) : outcome sched :=
  t ← thread_at (s_threads s) current;
  Ret (sched_set_current (put_thread s current (with_state t PROCESS_STATE_RUNNING)) current).

(** The common part of [handle_yield] and [handle_sched_sleep]. *)
Definition yield_current (y : system) : outcome (call Z * system) :=
  let k := sys_kernel y in
  let current := sched_get_current (k_sched k) in
  if current =? 0 then Ret (Returned SYSCALL_OK, y) else
  '(yielded, s) ← sched_yield (k_sched k) current;
  if negb yielded then Ret (Returned SYSCALL_OK, with_kernel y (with_sched k s)) else
  '(next, s) ← sched_dequeue s;
  if next =? 0 then
    s ← rerun s current; Ret (Returned SYSCALL_OK, with_kernel y (with_sched k s))
  else
    s ← sched_context_switch s current next; Ret (SwitchedTo next, with_kernel y (with_sched k s)).

Definition handle_yield : handler := fun _ y => yield_current y.

Definition handle_exit : handler := fun _ y => Ret (Returned SYSCALL_OK, y).

Definition handle_get_pid : handler := fun _ y => Ret (Returned PID_KERNEL, y).

Definition handle_get_tid : handler := fun _ y => Ret (Returned 1, y).

Definition handle_sched_block : handler := fun _ y =>
  let k := sys_kernel y in
  let current := sched_get_current (k_sched k) in
  if current =? 0 then Ret (Returned SYSCALL_OK, y) else
  '(blocked, s) ← sched_block (k_sched k) current;
  if negb blocked then Ret (Returned SYSCALL_ERR_INVAL, with_kernel y (with_sched k s)) else
  '(next, s) ← sched_dequeue s;
  if next =? 0 then
    s ← undo_block s current; Ret (Returned SYSCALL_ERR_AGAIN, with_kernel y (with_sched k s))
  else
    s ← sched_context_switch s current next; Ret (SwitchedTo next, with_kernel y (with_sched k s)).

Definition handle_sched_set_priority : handler := fun args y =>
  let k := sys_kernel y in
  let new_prio := Z.land (arg0 args) 0xFFFFFFFF in
  if SCHED_PRIO_MAX <=? new_prio then Ret (Returned SYSCALL_ERR_INVAL, y) else
  let current := sched_get_current (k_sched k) in
  if current =? 0 then Ret (Returned SYSCALL_ERR_AGAIN, y) else
  t ← thread_at (s_threads (k_sched k)) current;
  Ret (Returned SYSCALL_OK,
       with_kernel y (with_sched k (put_thread (k_sched k) current (set_priority t new_prio)))).

Definition handle_sched_sleep : handler := fun _ y => yield_current y.

Definition handle_sched_get_priority : handler := fun _ y =>
  let s := k_sched (sys_kernel y) in
  let current := sched_get_current s in
  if current =? 0 then Ret (Returned SYSCALL_ERR_AGAIN, y) else
  t ← thread_at (s_threads s) current; Ret (Returned (priority t), y).

(** ** Channels *)

Definition message_at (y : system) (p : Z) : outcome (option ipc_message) :=
  if p =? 0 then Ret None else
  match sys_buffers y !! p with Some msg => Ret (Some msg) | None => Fault end.

(** What a receive leaves in the buffer of the caller. *)
Definition deliver (y : system) (p : Z) (msg : option ipc_message) : outcome system :=
  match msg with
  | None => Ret y
  | Some msg =>
    match sys_buffers y !! p with
    | Some _ => Ret (mk_system (sys_kernel y) (<[p := msg]> (sys_buffers y)))
    | None => Fault
    end
  end.

Definition handle_ipc_send : handler := fun args y =>
  msg ← message_at y (arg1 args);
  '(r, k) ← ipc_send (sys_kernel y) (Z.land (arg0 args) 0xFFFFFFFF) msg;
  match r with
  | Returned r => Ret (Returned (ipc_result_to_syscall_result r), with_kernel y k)
  | SwitchedTo next => Ret (SwitchedTo next, with_kernel y k)
  end.

Definition handle_ipc_recv : handler := fun args y =>
  '(r, k) ← ipc_recv (sys_kernel y) (Z.land (arg0 args) 0xFFFFFFFF) (Z.land (arg1 args) 0xFFFFFFFF)
              (negb (arg2 args =? 0));
  match r with
  | Returned (r, msg) =>
    y ← deliver (with_kernel y k) (arg2 args) msg; Ret (Returned (ipc_result_to_syscall_result r), y)
  | SwitchedTo next => Ret (SwitchedTo next, with_kernel y k)
  end.

Definition handle_ipc_trysend : handler := fun args y =>
  msg ← message_at y (arg1 args);
  '(r, k) ← ipc_trysend (sys_kernel y) (Z.land (arg0 args) 0xFFFFFFFF) msg;
  Ret (Returned (ipc_result_to_syscall_result r), with_kernel y k).

Definition handle_ipc_tryrecv : handler := fun args y =>
  '(r, msg, k) ← ipc_tryrecv (sys_kernel y) (Z.land (arg0 args) 0xFFFFFFFF) (Z.land (arg1 args) 0xFFFFFFFF)
                   (negb (arg2 args =? 0));
  y ← deliver (with_kernel y k) (arg2 args) msg;
  Ret (Returned (ipc_result_to_syscall_result r), y).

Definition handle_diag_write : handler := fun _ y => Ret (Returned SYSCALL_OK, y).

Definition handle_diag_dump_sched : handler := fun _ y => Ret (Returned SYSCALL_OK, y).

(** ** Dispatch *)

Definition s_table : list (Z * handler) :=
  [(SYSCALL_YIELD, handle_yield); (SYSCALL_EXIT, handle_exit);
   (SYSCALL_GET_PID, handle_get_pid); (SYSCALL_GET_TID, handle_get_tid);
   (SYSCALL_SCHED_BLOCK, handle_sched_block); (SYSCALL_SCHED_SET_PRIORITY, handle_sched_set_priority);
   (SYSCALL_SCHED_SLEEP, handle_sched_sleep); (SYSCALL_SCHED_GET_PRIORITY, handle_sched_get_priority);
   (SYSCALL_IPC_SEND, handle_ipc_send); (SYSCALL_IPC_RECV, handle_ipc_recv);
   (SYSCALL_IPC_TRYSEND, handle_ipc_trysend); (SYSCALL_IPC_TRYRECV, handle_ipc_tryrecv);
   (SYSCALL_DIAG_WRITE, handle_diag_write); (SYSCALL_DIAG_DUMP_SCHED, handle_diag_dump_sched)].

(** The search loop over the entries of the table. *)
Fixpoint dispatch_loop (table : list (Z * handler)) (args : syscall_args) (y : system)
  : outcome (call Z * system) :=
  match table with
  | [] => Ret (Returned SYSCALL_ERR_NOSYS, y)
  | (n, h) :: table => if n =? number args then h args y else dispatch_loop table args y
  end.

Definition syscall_dispatch (args : option syscall_args) (y : system) : outcome (call Z * system) :=
  match args with
  | None => Ret (Returned SYSCALL_ERR_INVAL, y)
  | Some args => dispatch_loop s_table args y
  end.

(** ** Safety of every system call *)

Record system_ok (y : system) : Prop := {
  so_kernel : kernel_ok (sys_kernel y);
  so_current : current_ok (sys_kernel y) }.

(** The current thread is the only one that can run. *)
Definition alone (y : system) : Prop :=
  s_current (k_sched (sys_kernel y)) <> 0 /\
  exists Q, sched_wf (k_sched (sys_kernel y)) Q /\ concat Q = [].

(** The run queues have no room for the current thread. *)
Definition no_room (y : system) : Prop :=
  let s := k_sched (sys_kernel y) in
  SCHED_MAX_THREADS <= s_total_ready s \/
  exists t, s_threads s !! s_current s = Some t /\ SCHED_PRIO_MAX <= priority t.

(** What a call leaves: the invariant, and after a switch the new thread on the
    processor.  Two answers leave less: AGAIN to a thread that would block alone,
    and a yield of a thread the run queues have no room for, which is then no
    longer RUNNING. *)
Definition call_ok (y : system) (r : call Z) (y' : system) : Prop :=
  match r with
  | SwitchedTo next => system_ok y' /\ next <> 0 /\ s_current (k_sched (sys_kernel y')) = next
  | Returned code =>
    system_ok y' \/ (code = SYSCALL_ERR_AGAIN /\ alone y) \/
    (code = SYSCALL_OK /\ no_room y /\ kernel_ok (sys_kernel y'))
  end.

(** The pointers of a request are [NULL] or buffers. *)
Definition args_ok (args : syscall_args) (y : system) : Prop :=
  ((number args = SYSCALL_IPC_SEND \/ number args = SYSCALL_IPC_TRYSEND) ->
     arg1 args = 0 \/ is_Some (sys_buffers y !! arg1 args)) /\
  ((number args = SYSCALL_IPC_RECV \/ number args = SYSCALL_IPC_TRYRECV) ->
     arg2 args = 0 \/ is_Some (sys_buffers y !! arg2 args)).

(** A change of the RUNNING thread leaves the waiting ones blocked. *)
Lemma kernel_put_current k c t t' :
  kernel_ok k -> s_threads (k_sched k) !! c = Some t -> t_state t = PROCESS_STATE_RUNNING -> 0 <= priority t' ->
  kernel_ok (with_sched k (put_thread (k_sched k) c t')).
Proof.
  intros Hok Ht Hst Hpr. apply kernel_ok_sched; [done| |].
  - destruct (ko_sched _ Hok) as [Hts (Q & Hwf)].
    split; [apply threads_ok_insert; [done| |done]; intros ->; destruct Hts; congruence|].
    exists Q. apply wf_put_thread; [done|]. left. eapply not_ready_not_queued; [done|done|by rewrite Hst].
  - intros p _ Hb. apply has_state_put; [|done]. intros <-. destruct Hb as (t2 & Ht2 & Hb). congruence.
Qed.

(** Handing the processor from the current thread, which is not RUNNING any more,
    to the first READY thread. *)
Lemma dispatch_next k c :
  kernel_ok k -> c <> 0 ->
  exists next s1, sched_dequeue (k_sched k) = Ret (next, s1) /\
    ((next = 0 /\ s1 = k_sched k /\ forall Q, sched_wf (k_sched k) Q -> concat Q = []) \/
     (next <> 0 /\ exists s2, sched_context_switch s1 c next = Ret s2 /\ kernel_ok (with_sched k s2) /\
        s_current s2 = next /\ has_state s2 next PROCESS_STATE_RUNNING)).
Proof.
  intros Hok Hc. destruct (dequeue_frame _ (ko_sched _ Hok)) as (next & s1 & Hd & Hinv & Hs & _ & Hnone & Hsome).
  exists next, s1. split; [done|]. destruct (Z.eq_dec next 0) as [->|Hn]; [left; split; [done|by apply Hnone]|right].
  split; [done|]. destruct (Hsome Hn) as (Hnq & t & Ht & Hst). destruct (same_threads_lookup _ _ _ _ Hs Ht) as (nx & Hnx).
  eexists. split; [by apply switch_eq|]. split; [|split; [done|]].
  - apply kernel_ok_sched; [done| |].
    + destruct (switch_keeps s1 Hinv c next) as (s3 & E3 & Hk3); [by intros; apply Hnq|right; by eexists|].
      rewrite (switch_eq _ _ _ _ Hc Hn Hnx) in E3. by injection E3 as <-.
    + intros p _ Hb. destruct (same_threads_state _ _ p PROCESS_STATE_BLOCKED Hs Hb) as (t2 & Ht2 & Hb2).
      exists t2. simpl. rewrite lookup_insert_ne; [done|]. intros <-. destruct Hb as (t3 & Ht3 & Hb3). congruence.
  - eexists. simpl. rewrite lookup_insert_eq. done.
Qed.

Lemma switched_ok y k s next :
  kernel_ok (with_sched k s) -> next <> 0 -> s_current s = next -> has_state s next PROCESS_STATE_RUNNING ->
  forall y0, call_ok y0 (SwitchedTo next) (with_kernel y (with_sched k s)).
Proof.
  intros Hok Hn Hc Hr y0. split; [|split; [done|exact Hc]]. split; [done|]. right. simpl. by rewrite Hc.
Qed.

(** The scheduler state in which a yield asks for the thread to be queued. *)
Lemma yield_eq s c t : c <> 0 -> s_threads s !! c = Some t -> t_state t = PROCESS_STATE_RUNNING ->
  sched_yield s c = sched_enqueue (with_preempt (put_thread s c (requeued t)) false) c.
Proof.
  intros Hc Ht Hst. unfold sched_yield. destruct (Z.eqb_spec c 0); [done|]. rewrite (thread_at_Some _ _ _ Ht). simpl.
  by rewrite bool_decide_true by done.
Qed.

Lemma yield_kernel_ok k c t : kernel_ok k -> c <> 0 -> s_threads (k_sched k) !! c = Some t ->
  t_state t = PROCESS_STATE_RUNNING ->
  exists b s', sched_yield (k_sched k) c = Ret (b, s') /\ kernel_ok (with_sched k s') /\ s_current s' = s_current (k_sched k).
Proof.
  intros Hok Hc Ht Hst. rewrite (yield_eq _ _ _ Hc Ht Hst).
  pose proof (kernel_put_current k c t (requeued t) Hok Ht Hst (proj2 (proj1 (ko_sched _ Hok)) c t Ht)) as Hok1.
  set (s1 := put_thread (k_sched k) c (requeued t)) in *.
  destruct (enqueue_frame (with_preempt s1 false) c) as (b & s' & E & Hinv & Hs & Hcur).
  { apply preempt_keeps, (ko_sched _ Hok1). }
  { right. simpl. rewrite lookup_insert_eq. by eexists. }
  exists b, s'. split; [done|]. split; [|done].
  change (with_sched k s') with (with_sched (with_sched k s1) s'). apply kernel_ok_sched; [done|done|].
  intros p _ Hb. by eapply same_threads_state.
Qed.

Lemma yield_current_ok y : system_ok y ->
  exists r y', yield_current y = Ret (r, y') /\ call_ok y r y'.
Proof.
  intros [Hok Hcur]. unfold yield_current, sched_get_current. set (k := sys_kernel y) in *.
  destruct (Z.eqb_spec (s_current (k_sched k)) 0) as [Hz|Hc]; [exists (Returned SYSCALL_OK), y; split; [done|by left; split]|].
  destruct Hcur as [|(t & Ht & Hst)]; [done|]. set (c := s_current (k_sched k)) in *.
  destruct (yield_kernel_ok k c t Hok Hc Ht Hst) as (b & s1 & Hy & Hok1 & Hcs). rewrite Hy. simpl.
  destruct (ko_sched _ Hok) as [Hts (Q & Hwf)]. pose proof (proj2 Hts c t Ht) as Hpr.
  destruct (Z_lt_ge_dec (priority t) SCHED_PRIO_MAX) as [Hlt|Hge];
    [destruct (Z_lt_ge_dec (s_total_ready (k_sched k)) SCHED_MAX_THREADS) as [Htot|Htot]|].
  - destruct (yield_ok (k_sched k) Q c t) as (s1' & Hy' & Hwf1 & _); try done. rewrite Hy in Hy'. injection Hy' as -> <-.
    simpl. destruct (dispatch_next (with_sched k s1) c Hok1 Hc) as (next & s2 & Hd & Hn). simpl in Hd. rewrite Hd. simpl.
    destruct Hn as [(-> & _ & He)|(Hn & s3 & E3 & Hok3 & Hc3 & Hr3)].
    + exfalso. specialize (He _ Hwf1). pose proof (push_band_perm Q (priority t) c) as Hp. rewrite He in Hp.
      assert (0 <= priority t < zlength Q) as Hr by (rewrite (wf_len _ _ Hwf); lia).
      by pose proof (Permutation_nil_cons (Hp Hr)).
    + destruct (Z.eqb_spec next 0); [done|]. rewrite E3. simpl. eexists _, _. split; [done|].
      by apply (switched_ok y k).
  - destruct b; simpl; [|eexists _, _; split; [done|]; right; right; split; [done|]; split; [left; fold k; lia|done]].
    exfalso. rewrite (yield_eq _ _ _ Hc Ht Hst) in Hy.
    rewrite (enqueue_refused _ Q c (requeued t)) in Hy; try done.
    + apply wf_preempt, wf_put_thread; [done|]. left. eapply not_ready_not_queued; [done|done|by rewrite Hst].
    + simpl. by rewrite lookup_insert_eq.
    + right; right; left. simpl. lia.
  - destruct b; simpl; [|eexists _, _; split; [done|]; right; right; split; [done|]; split; [right; fold k c; exists t; split; [done|lia]|done]].
    exfalso. rewrite (yield_eq _ _ _ Hc Ht Hst) in Hy.
    rewrite (enqueue_refused _ Q c (requeued t)) in Hy; try done.
    + apply wf_preempt, wf_put_thread; [done|]. left. eapply not_ready_not_queued; [done|done|by rewrite Hst].
    + simpl. by rewrite lookup_insert_eq.
    + right; left. simpl. lia.
Qed.

Lemma handle_sched_block_ok args y : system_ok y ->
  exists r y', handle_sched_block args y = Ret (r, y') /\ call_ok y r y'.
Proof.
  intros [Hok Hcur]. unfold handle_sched_block, sched_get_current. set (k := sys_kernel y) in *.
  destruct (Z.eqb_spec (s_current (k_sched k)) 0) as [Hz|Hc]; [exists (Returned SYSCALL_OK), y; split; [done|by left; split]|].
  destruct Hcur as [|(t & Ht & Hst)]; [done|]. set (c := s_current (k_sched k)) in *.
  assert (sched_block (k_sched k) c = Ret (true, put_thread (k_sched k) c (with_state t PROCESS_STATE_BLOCKED))) as ->.
  { unfold sched_block. destruct (Z.eqb_spec c 0); [done|]. rewrite (thread_at_Some _ _ _ Ht). simpl. by rewrite Hst. }
  simpl. set (s1 := put_thread _ _ _).
  assert (kernel_ok (with_sched k s1)) as Hok1
    by (eapply kernel_put_current; [done|done|done|]; exact (proj2 (proj1 (ko_sched _ Hok)) c t Ht)).
  destruct (dispatch_next (with_sched k s1) c Hok1 Hc) as (next & s2 & Hd & Hn). simpl in Hd. rewrite Hd. simpl.
  destruct Hn as [(-> & -> & He)|(Hn & s3 & E3 & Hok3 & Hc3 & Hr3)].
  - destruct (undo_block_total s1 c (with_state t PROCESS_STATE_BLOCKED) (ko_sched _ Hok1)) as (s3 & E3);
      [simpl; by rewrite lookup_insert_eq|done|]. simpl. rewrite E3. simpl. eexists _, _. split; [done|].
    right. left. split; [done|]. split; [done|]. destruct (ko_sched _ Hok) as [_ (Q & Hwf)]. exists Q. split; [done|].
    apply He. apply wf_put_thread; [done|]. left. eapply not_ready_not_queued; [done|done|by rewrite Hst].
  - destruct (Z.eqb_spec next 0); [done|]. rewrite E3. simpl. eexists _, _. split; [done|]. by apply (switched_ok y k).
Qed.

Lemma handle_sched_set_priority_ok args y : system_ok y ->
  exists r y', handle_sched_set_priority args y = Ret (r, y') /\ call_ok y r y'.
Proof.
  intros [Hok Hcur]. unfold handle_sched_set_priority, sched_get_current.
  assert (call_ok y (Returned SYSCALL_ERR_INVAL) y /\ call_ok y (Returned SYSCALL_ERR_AGAIN) y) as [H1 H2] by (split; by left; split).
  destruct (Z.leb_spec SCHED_PRIO_MAX (Z.land (arg0 args) 0xFFFFFFFF)); [eauto|].
  destruct (Z.eqb_spec (s_current (k_sched (sys_kernel y))) 0) as [Hz|Hc]; [eauto|].
  destruct Hcur as [|(t & Ht & Hst)]; [done|]. rewrite (thread_at_Some _ _ _ Ht). simpl. eexists _, _. split; [done|].
  left. split; simpl.
  - eapply kernel_put_current; [done|done|done|]. simpl. change 0xFFFFFFFF with (Z.ones 32).
    rewrite Z.land_ones by lia. by apply Z.mod_pos_bound.
  - right. eexists. simpl. rewrite lookup_insert_eq. by split; [|].
Qed.

Lemma handle_sched_get_priority_ok args y : system_ok y ->
  exists r y', handle_sched_get_priority args y = Ret (r, y') /\ call_ok y r y'.
Proof.
  intros [Hok Hcur]. unfold handle_sched_get_priority, sched_get_current.
  destruct (Z.eqb_spec (s_current (k_sched (sys_kernel y))) 0) as [Hz|Hc]; [eexists _, _; split; [done|by left; split]|].
  destruct Hcur as [|(t & Ht & Hst)] eqn:?; [done|]. rewrite (thread_at_Some _ _ _ Ht). simpl. eexists _, _. split; [done|].
  left. split; [done|]. right. by exists t.
Qed.

(** ** The channel calls *)

Section ipc_calls.
Context (args : syscall_args) (y : system) (Hy : system_ok y).

Lemma same_ok : system_ok (with_kernel y (sys_kernel y)).
Proof using Hy. destruct Hy. by split. Qed.

Lemma slept_ok i r next k' : slept (sys_kernel y) i r next k' ->
  call_ok y (SwitchedTo next) (with_kernel y k').
Proof using Hy.
  intros Hs. destruct (sl_next _ _ _ _ _ Hs) as (Hn & Hc & Hr). split; [|done].
  split; [apply Hs|]. right. simpl. by rewrite Hc.
Qed.

Lemma message_at_ok : arg1 args = 0 \/ is_Some (sys_buffers y !! arg1 args) ->
  exists msg, message_at y (arg1 args) = Ret msg.
Proof using Type.
  unfold message_at. intros [->|(m & ->)]; [by eexists|]. destruct (_ =? 0); by eexists.
Qed.

(** Answers that leave the kernel as the non-blocking transfers do. *)
Lemma trysend_total h msg : exists r k', ipc_trysend (sys_kernel y) h msg = Ret (r, k') /\
  system_ok (with_kernel y k').
Proof using Hy.
  destruct msg as [msg|]; [|by exists IPC_ERR_INVAL, (sys_kernel y); split; [|apply same_ok]].
  destruct (Z.eq_dec h IPC_HANDLE_INVALID) as [->|Hh];
    [by exists IPC_ERR_INVAL, (sys_kernel y); split; [|apply same_ok]|].
  destruct Hy as [Hok Hcur].
  destruct (trysend_spec _ h msg Hok Hh) as [(e & -> & _)|(i & ch & Hop & Hch & [[_ ->]|(_ & k' & ch' & -> & Hok' & Htr & _)])].
  - eexists _, _. split; [done|apply same_ok].
  - eexists _, _. split; [done|apply same_ok].
  - eexists _, _. split; [done|]. split; [done|]. simpl.
    apply (transferred_current _ _ _ _ _ Hok Hcur Htr), (co_receiver _ _ _ Hch).
Qed.

Lemma tryrecv_total h f out : exists r msg k', ipc_tryrecv (sys_kernel y) h f out = Ret (r, msg, k') /\
  system_ok (with_kernel y k') /\ (out = false -> msg = None).
Proof using Hy.
  destruct out; [|exists IPC_ERR_INVAL, None, (sys_kernel y); unfold ipc_tryrecv; rewrite orb_true_r; by split; [|split; [apply same_ok|]]].
  destruct (Z.eq_dec h IPC_HANDLE_INVALID) as [->|Hh];
    [by exists IPC_ERR_INVAL, None, (sys_kernel y); split; [|split; [apply same_ok|]]|].
  destruct Hy as [Hok Hcur].
  destruct (tryrecv_spec _ h f Hok Hh) as
    [(e & -> & _)|(i & ch & Hop & Hch & [(_ & _ & ->)|(msg & rest & _ & [[_ ->]|(_ & k' & ch' & -> & Hok' & Htr & _)])])].
  - eexists _, _, _. split; [done|]. split; [apply same_ok|done].
  - eexists _, _, _. split; [done|]. split; [apply same_ok|done].
  - eexists _, _, _. split; [done|]. split; [apply same_ok|done].
  - eexists _, _, _. split; [done|]. split; [|done]. split; [done|]. simpl.
    apply (transferred_current _ _ _ _ _ Hok Hcur Htr), (co_sender _ _ _ Hch).
Qed.

Lemma deliver_ok k' p msg :
  p = 0 \/ is_Some (sys_buffers y !! p) -> (p = 0 -> msg = None) -> system_ok (with_kernel y k') ->
  exists y', deliver (with_kernel y k') p msg = Ret y' /\ sys_kernel y' = k' /\
    sys_buffers y' = match msg with Some msg => <[p := msg]> (sys_buffers y) | None => sys_buffers y end /\ system_ok y'.
Proof using Type.
  intros Hp Hm [Hok Hcur]. destruct msg as [msg|]; [|by eexists].
  destruct Hp as [Hp|(m & Hp)]; [by specialize (Hm Hp)|]. simpl. rewrite Hp. by eexists.
Qed.

Lemma handle_ipc_send_ok : arg1 args = 0 \/ is_Some (sys_buffers y !! arg1 args) ->
  exists r y', handle_ipc_send args y = Ret (r, y') /\ call_ok y r y'.
Proof using Hy.
  intros Ha. unfold handle_ipc_send. destruct (message_at_ok Ha) as (msg & ->). simpl. set (h := Z.land _ _).
  assert (forall r, call_ok y (Returned r) (with_kernel y (sys_kernel y))) as Hsame by (intros r; left; apply same_ok).
  destruct msg as [msg|]; [|simpl; eauto]. destruct Hy as [Hok Hcur].
  destruct (Z.eq_dec h IPC_HANDLE_INVALID) as [Hh|Hh]; [rewrite Hh; simpl; eauto|].
  destruct (send_spec _ h Hok Hcur Hh msg) as (r & k' & -> & Hr). simpl. destruct r as [code|next]; (eexists _, _; split; [done|]).
  - destruct Hr as [(-> & Hok' & Hcur')|[(_ & ->)|(-> & [(_ & ->)|Hal])]]; [left; by split|done|done|].
    right. left. by split.
  - destruct Hr as (i & ch & _ & _ & Hs). by eapply slept_ok.
Qed.

Lemma handle_ipc_recv_ok : arg2 args = 0 \/ is_Some (sys_buffers y !! arg2 args) ->
  exists r y', handle_ipc_recv args y = Ret (r, y') /\ call_ok y r y'.
Proof using Hy.
  intros Ha. unfold handle_ipc_recv. set (h := Z.land (arg0 args) _). set (f := Z.land (arg1 args) _).
  assert (forall r, call_ok y (Returned r) (with_kernel y (sys_kernel y))) as Hsame by (intros r; left; apply same_ok).
  destruct (Z.eqb_spec (arg2 args) 0) as [Hz|Hz]; simpl; [unfold ipc_recv; rewrite orb_true_r; simpl; eauto|].
  destruct Hy as [Hok Hcur].
  destruct (Z.eq_dec h IPC_HANDLE_INVALID) as [Hh|Hh]; [rewrite Hh; simpl; eauto|].
  destruct (recv_spec _ h Hok Hcur Hh f) as (r & k' & -> & Hr). simpl. destruct r as [[code msg]|next].
  - destruct Hr as [(-> & Hok' & Hcur' & i & ch & m & _ & -> & _)|[(_ & -> & ->)|(-> & -> & [(_ & ->)|Hal])]]; simpl; eauto.
    + destruct (deliver_ok k' (arg2 args) (Some m) Ha) as (y' & E & _ & _ & Hy'); [done|by split|].
      simpl in E. rewrite E. simpl. eexists _, _. split; [done|]. by left.
    + eexists _, _. split; [done|]. right. left. by split.
  - destruct Hr as (i & ch & _ & _ & Hs). eexists _, _. split; [done|]. by eapply slept_ok.
Qed.

Lemma handle_ipc_trysend_ok : arg1 args = 0 \/ is_Some (sys_buffers y !! arg1 args) ->
  exists r y', handle_ipc_trysend args y = Ret (r, y') /\ call_ok y r y'.
Proof using Hy.
  intros Ha. unfold handle_ipc_trysend. destruct (message_at_ok Ha) as (msg & ->). simpl.
  destruct (trysend_total (Z.land (arg0 args) 0xFFFFFFFF) msg) as (r & k' & -> & Hk). simpl.
  eexists _, _. split; [done|]. by left.
Qed.

Lemma handle_ipc_tryrecv_ok : arg2 args = 0 \/ is_Some (sys_buffers y !! arg2 args) ->
  exists r y', handle_ipc_tryrecv args y = Ret (r, y') /\ call_ok y r y'.
Proof using Hy.
  intros Ha. unfold handle_ipc_tryrecv.
  destruct (tryrecv_total (Z.land (arg0 args) 0xFFFFFFFF) (Z.land (arg1 args) 0xFFFFFFFF) (negb (arg2 args =? 0)))
    as (r & msg & k' & -> & Hk & Hm). simpl.
  destruct (deliver_ok k' (arg2 args) msg Ha) as (y' & -> & _ & _ & Hy'); [intros Hz; apply Hm; by rewrite Hz|done|].
  simpl. eexists _, _. split; [done|]. by left.
Qed.
End ipc_calls.

(** C34: from a well-formed state every request whose message pointer, in the four
    calls that transfer a message, is [NULL] or a valid buffer ([args_ok]; the code does
    not check this) returns or hands the processor to another thread, without a fault,
    whatever its number and its other arguments: the invariant of scheduler and channels is kept and
    a RUNNING thread is current, except after the two documented refusals, a
    blocking call of the only runnable thread and a yield for which the run
    queues have no room.  A number outside the table answers NOSYS and changes
    nothing. *)
Theorem syscall_dispatch_safe args y :
  system_ok y -> args_ok args y ->
  (exists r y', syscall_dispatch (Some args) y = Ret (r, y') /\ call_ok y r y') /\
  (number args ∉ map fst s_table -> syscall_dispatch (Some args) y = Ret (Returned SYSCALL_ERR_NOSYS, y)) /\
  syscall_dispatch None y = Ret (Returned SYSCALL_ERR_INVAL, y).
Proof.
  intros Hy [Hs Hr]. split; [|split; [|done]].
  - assert (forall code, call_ok y (Returned code) y) as Hsame by (intros; by left).
    unfold syscall_dispatch, s_table. cbn [dispatch_loop].
    repeat (case_if; [match goal with H : _ = number args |- _ => symmetry in H end|]).
    all: unfold handle_yield, handle_exit, handle_get_pid, handle_get_tid, handle_sched_sleep, handle_diag_write, handle_diag_dump_sched.
    all: eauto using yield_current_ok, handle_sched_block_ok, handle_sched_set_priority_ok, handle_sched_get_priority_ok,
      handle_ipc_send_ok, handle_ipc_recv_ok, handle_ipc_trysend_ok, handle_ipc_tryrecv_ok.
  - intros Hn. unfold syscall_dispatch, s_table in *. cbn [dispatch_loop map fst] in *.
    repeat (case_if; [exfalso; apply Hn; set_solver|]). done.
Qed.

(** ** Fairness *)

(** Each current thread in turn makes the yield system call. *)
Fixpoint yields (n : nat) (y : system) : outcome system :=
  match n with
  | O => Ret y
  | S n => '(_, y) ← syscall_dispatch (Some (mk_args SYSCALL_YIELD 0 0 0 0 0)) y; yields n y
  end.

(** Thread [c] of priority [b] runs, the threads [l] of its priority wait, and no
    thread of a higher priority is ready. *)
Record turn (y : system) (b c : Z) (l : list Z) (Q : list (list Z)) : Prop := {
  tu_ok : system_ok y;
  tu_wf : sched_wf (k_sched (sys_kernel y)) Q;
  tu_current : s_current (k_sched (sys_kernel y)) = c /\ c <> 0;
  tu_prio : exists t, s_threads (k_sched (sys_kernel y)) !! c = Some t /\ priority t = b;
  tu_band : Q .@ b = Some l;
  tu_higher j : 0 <= j < b -> Q .@ j = Some [];
  tu_room : s_total_ready (k_sched (sys_kernel y)) < SCHED_MAX_THREADS }.

Lemma turn_step y b c l Q n l' : turn y b c l Q -> l ++ [c] = n :: l' ->
  exists y', syscall_dispatch (Some (mk_args SYSCALL_YIELD 0 0 0 0 0)) y = Ret (SwitchedTo n, y') /\
    turn y' b n l' (set Q b l').
Proof.
  intros [Hy Hwf [Hc Hc0] (t & Ht & Hb) Hl Hup Hroom] Hrot. destruct (yield_current_ok y Hy) as (r & y' & E & Hcall).
  change (syscall_dispatch (Some (mk_args SYSCALL_YIELD 0 0 0 0 0)) y) with (yield_current y).
  destruct Hy as [Hok Hcur]. destruct Hcur as [Hz|(t' & Ht' & Hst)]; [congruence|].
  rewrite Hc in Ht'. assert (t' = t) as -> by congruence. pose proof (get_Some_range _ _ _ Hl) as Hr.
  rewrite (wf_len _ _ Hwf) in Hr.
  destruct (yield_ok (k_sched (sys_kernel y)) Q c t) as (s1 & E1 & Hwf1 & Hs1 & _); try done; [lia|].
  pose proof E as E0. unfold yield_current, sched_get_current in E0. rewrite Hc in E0.
  destruct (Z.eqb_spec c 0); [done|]. rewrite E1 in E0. cbn in E0.
  rewrite Hb in Hwf1. unfold push_band in Hwf1. rewrite Hl, Hrot in Hwf1.
  destruct (dequeue_ok s1 _ Hwf1) as [[He _]|(i & p & l2 & s2 & [Hf Hlt] & E2 & Hp0 & Hwf2 & Hperm2 & Hs2 & _ & _)].
  { exfalso. assert (n ∈ concat (set Q b (n :: l'))) as Hin.
    { apply elem_of_concat. exists b, (n :: l'). rewrite get_set_eq; [set_solver|]. by rewrite (wf_len _ _ Hwf). }
    rewrite He in Hin. set_solver. }
  assert (i = b) as ->.
  { pose proof (get_Some_range _ _ _ Hf) as Hi. destruct (Z_lt_ge_dec i b) as [Hib|Hib].
    - rewrite get_set_ne in Hf by lia. rewrite Hup in Hf by lia. done.
    - destruct (Z.eq_dec i b) as [|Hne]; [done|]. specialize (Hlt b). rewrite get_set_eq in Hlt by (by rewrite (wf_len _ _ Hwf)).
      specialize (Hlt ltac:(lia)). done. }
  rewrite get_set_eq in Hf by (by rewrite (wf_len _ _ Hwf)). injection Hf as <- <-.
  rewrite E2 in E0. cbn in E0. destruct (Z.eqb_spec n 0); [done|].
  assert (exists tn, s_threads s1 !! n = Some tn /\ priority tn = b) as (tn & Htn & Hpn).
  { destruct (wf_prio _ _ Hwf1 b (n :: l') n) as (tn & Htn & Hpn & _);
      [rewrite get_set_eq; [done|by rewrite (wf_len _ _ Hwf)]|set_solver|by exists tn]. }
  destruct (same_threads_lookup _ _ _ _ Hs2 Htn) as (nx & Hnx). rewrite (switch_eq _ _ _ _ Hc0 Hp0 Hnx) in E0.
  cbn in E0. injection E0 as <- <-. eexists. split; [done|]. destruct Hcall as (Hy' & _ & Hcn).
  assert (set (set Q b (n :: l')) b l' = set Q b l') as Hset.
  { unfold set. case_if; [done|]. by rewrite list_insert_insert_eq. }
  rewrite Hset in Hwf2, Hperm2.
  split; [done| |done| | | |].
  - simpl. apply wf_current, wf_put_thread; [done|]. left. intros Hq. pose proof (wf_nodup _ _ Hwf1) as Hnd.
    rewrite Hperm2 in Hnd. by apply NoDup_cons in Hnd as [? _].
  - eexists. simpl. rewrite lookup_insert_eq. by split.
  - rewrite get_set_eq; [done|by rewrite (wf_len _ _ Hwf)].
  - intros j Hj. rewrite get_set_ne by lia. by apply Hup.
  - simpl. rewrite (wf_total _ _ Hwf2). rewrite (wf_total _ _ Hwf) in Hroom.
    assert (zlength (concat (set Q b l')) = zlength (concat Q)) as ->; [|done].
    destruct (concat_set Q b l l' Hl) as (a1 & a2 & -> & ->). rewrite !zlength_app.
    apply (f_equal zlength) in Hrot. rewrite zlength_app, !zlength_cons in Hrot. unfold zlength in *. simpl in *. lia.
Qed.

(** C35: yields are round robin.  While no thread of a higher priority is ready and fewer
    than [SCHED_MAX_THREADS] threads are ready, the threads of the current priority run in the order in which they wait: the
    [j]-th waiting thread runs after [j+1] yields, and after all of them the
    first thread runs again, with the same threads waiting in the same order. *)
Theorem yield_round_robin y b c l Q :
  turn y b c l Q ->
  (forall j p, l !! j = Some p -> exists y', yields (S j) y = Ret y' /\ system_ok y' /\
     s_current (k_sched (sys_kernel y')) = p /\ has_state (k_sched (sys_kernel y')) p PROCESS_STATE_RUNNING) /\
  exists y', yields (S (length l)) y = Ret y' /\ turn y' b c l Q.
Proof.
  intros Ht.
  assert (forall j c l Q y, turn y b c l Q -> forall pre p post, l ++ [c] = pre ++ p :: post -> length pre = j ->
    exists y', yields (S j) y = Ret y' /\ turn y' b p (post ++ pre) (set Q b (post ++ pre))) as Hrun.
  { clear. induction j as [|j IH]; intros c l Q y Ht pre p post Hsplit Hlen.
    - apply nil_length_inv in Hlen as ->. destruct (turn_step _ _ _ _ _ _ _ Ht Hsplit) as (y' & E & Ht').
      exists y'. cbn [yields]. rewrite E. by rewrite app_nil_r.
    - destruct pre as [|q pre]; [done|]. destruct (turn_step _ _ _ _ _ _ _ Ht Hsplit) as (y1 & E & Ht1).
      destruct (IH q (pre ++ p :: post) _ y1 Ht1 pre p (post ++ [q])) as (y' & E' & Ht');
        [by rewrite <- app_assoc|by injection Hlen|].
      exists y'. split; [change (yields (S (S j)) y) with ('(_, y0) ← syscall_dispatch (Some (mk_args SYSCALL_YIELD 0 0 0 0 0)) y; yields (S j) y0); by rewrite E|].
      rewrite <- app_assoc in Ht'. change ([q] ++ pre) with (q :: pre) in Ht'. fold (app pre (p :: post)) in Ht'.
      assert (set (set Q b (pre ++ p :: post)) b (post ++ q :: pre) = set Q b (post ++ q :: pre)) as Hs
        by (unfold set; case_if; [done|by rewrite list_insert_insert_eq]).
      by rewrite Hs in Ht'. }
  split.
  - intros j p Hp. apply take_drop_middle in Hp as Hd.
    destruct (Hrun j c l Q y Ht (take j l) p (drop (S j) l ++ [c])) as (y' & E & [Hy' _ [Hc Hc0] _ _ _ _]).
    + by rewrite <- Hd at 1; rewrite <- app_assoc.
    + rewrite length_take. apply lookup_lt_Some in Hp. lia.
    + exists y'. split; [done|]. split; [done|]. split; [done|]. destruct Hy' as [_ [?|?]]; [congruence|by rewrite <- Hc].
  - destruct (Hrun (length l) c l Q y Ht l c []) as (y' & E & Ht'); [done|done|]. exists y'. split; [done|].
    simpl in Ht'. assert (set Q b l = Q) as Hs; [|by rewrite Hs in Ht'].
    pose proof (tu_band _ _ _ _ _ Ht) as Hb. unfold get, set in *. case_if; [done|]. by apply list_insert_id.
Qed.

(** ** Examples *)

Definition sample_system : system := mk_system sample_kernel {[ 0x9000 := sample_message ]}.

Lemma sample_system_ok : system_ok sample_system.
Proof. split; [exact sample_kernel_ok|exact sample_current]. Qed.

Lemma syscall_dispatch_safe_witness :
  exists r y', syscall_dispatch (Some (mk_args SYSCALL_IPC_RECV sample_handle 0 0x9000 0 0)) sample_system = Ret (r, y') /\
    call_ok sample_system r y'.
Proof.
  apply (syscall_dispatch_safe (mk_args SYSCALL_IPC_RECV sample_handle 0 0x9000 0 0) sample_system sample_system_ok).
  split; intros _; [by left|right; vm_compute; by eexists].
Defined.

Lemma sample_turn : turn sample_system 2 0x1000 [0x2000; 0x3000] [[]; []; [0x2000; 0x3000]; []; []; []; []; []].
Proof.
  split; [exact sample_system_ok|exact sample_bands|by split|eexists; by split; [vm_compute|]|done| |done].
  intros j Hj. assert (j = 0 \/ j = 1) as [->| ->] by lia; done.
Qed.

Lemma yield_round_robin_witness :
  exists y', yields 2 sample_system = Ret y' /\ s_current (k_sched (sys_kernel y')) = 0x3000.
Proof.
  destruct (proj1 (yield_round_robin sample_system 2 0x1000 _ _ sample_turn) 1%nat 0x3000 eq_refl) as (y' & E & _ & Hc & _).
  exists y'. split; [exact E|exact Hc].
Defined.

(** The message pointer of a send is followed unchecked. *)
Lemma wild_pointer_faults : syscall_dispatch (Some (mk_args SYSCALL_IPC_TRYSEND sample_handle 0x1234 0 0 0)) sample_system = Fault.
Proof. by vm_compute. Qed.

(** With 32 other threads READY a yield marks the caller READY without queueing
    it, and answers OK: it runs on, but its next yield is ignored and a block
    is refused. *)
Lemma yield_without_room :
  let y := mk_system (mk_kernel (with_preempt crowded false) (k_ipc sample_kernel)) ∅ in
  match yield_current y with
  | Ret (Returned code, y) =>
    code = SYSCALL_OK /\ t_state <$> s_threads (k_sched (sys_kernel y)) !! 0x1000 = Some PROCESS_STATE_READY /\
    match handle_sched_block (mk_args SYSCALL_SCHED_BLOCK 0 0 0 0 0) y with
    | Ret (Returned code, _) => code = SYSCALL_ERR_INVAL
    | _ => False
    end
  | _ => False
  end.
Proof. vm_compute. done. Qed.

End Syscall.
