(* ===== verification/IrqRouter.v ===== *)
(** * The interrupt router and the timer

    [kernel/irq/irq_router.c] delivers interrupts as messages to the channels that
    subscribed to them; [kernel/sched/timer.c] counts ticks and publishes the timer
    interrupt.  The subscription table is a list of sixteen entries.  The critical
    sections only mask interrupts and have no counterpart; programming the
    hardware timer is left out. *)

From S2P Require Import Prelude Status Process Sched Ipc.
Import Process Sched Ipc.

Module IrqRouter.

Definition IRQ_ROUTER_STATUS_OK : Z := 0.
Definition IRQ_ROUTER_STATUS_INVALID : Z := -1.
Definition IRQ_ROUTER_TIMER_IRQ : Z := 0.
Definition IRQ_ROUTER_MESSAGE_TYPE : Z := IPC_MSG_TYPE_USER + 0x100.
Definition IRQ_ROUTER_MESSAGE_PAYLOAD_BYTES : Z := 16.
Definition IRQ_ROUTER_MAX_SUBSCRIPTIONS : Z := 16.

Record irq_subscription := mk_subscription {
  sub_handle : Z;
  irq_number : Z;
  sub_channel : Z;
  sequence : Z }.

Record router := mk_router { s_subscriptions : list irq_subscription; s_next_generation : Z }.

(** The answer and the generation counter after it. *)
Definition make_subscription_handle (r : router) (index : Z) : Z * Z :=
  let generation := s_next_generation r in
  let next := u32 (generation + 1) in
  let next := if next =? 0 then 1 else next in
  (i32 (Z.lor (Z.shiftl (Z.land generation 0x00FFFFFF) 8) (index + 1)), next).

Definition irq_router_subscribe (x : ipc) (r : router) (irq channel : Z) : Z * router :=
  if (channel =? IPC_HANDLE_INVALID) || negb (ipc_channel_is_open x channel)
  then (IRQ_ROUTER_STATUS_INVALID, r) else
  match find_index (fun s => sub_handle s =? 0) (s_subscriptions r) with
  | Some i =>
    let '(handle, next) := make_subscription_handle r i in
    (handle, mk_router (set (s_subscriptions r) i (mk_subscription handle irq channel 0)) next)
  | None => (IRQ_ROUTER_STATUS_INVALID, r)
  end.

Definition irq_router_unsubscribe (r : router) (handle : Z) : Z * router :=
  if handle <=? 0 then (IRQ_ROUTER_STATUS_INVALID, r) else
  match find_index (fun s => sub_handle s =? handle) (s_subscriptions r) with
  | Some i =>
    (IRQ_ROUTER_STATUS_OK,
     mk_router (set (s_subscriptions r) i (mk_subscription 0 0 IPC_HANDLE_INVALID 0)) (s_next_generation r))
  | None => (IRQ_ROUTER_STATUS_INVALID, r)
  end.

(** A subscription the interrupt is delivered to. *)
Definition listens (irq : Z) (s : irq_subscription) : bool :=
  negb ((sub_handle s <=? 0) || negb (irq_number s =? irq)).

Definition advance (s : irq_subscription) : irq_subscription :=
  mk_subscription (sub_handle s) (irq_number s) (sub_channel s) (u64 (sequence s + 1)).

Definition irq_message (irq seq : Z) : ipc_message :=
  mk_message IRQ_ROUTER_MESSAGE_TYPE IRQ_ROUTER_MESSAGE_PAYLOAD_BYTES [irq; seq; 0; 0; 0; 0; 0; 0].

(** The loop of [irq_router_publish] over the entries from the first on. *)
Fixpoint publish_loop (k : kernel) (irq : Z) (subs : list irq_subscription)
  : outcome (list irq_subscription * kernel) :=
  match subs with
  | [] => Ret ([], k)
  | s :: rest =>
    if listens irq s then
      let s := advance s in
      '(_, k) ← ipc_trysend k (sub_channel s) (Some (irq_message irq (sequence s)));
      '(rest, k) ← publish_loop k irq rest;
      Ret (s :: rest, k)
    else
      '(rest, k) ← publish_loop k irq rest;
      Ret (s :: rest, k)
  end.

Definition irq_router_publish (k : kernel) (r : router) (irq : Z) : outcome (router * kernel) :=
  '(subs, k) ← publish_loop k irq (s_subscriptions r);
  Ret (mk_router subs (s_next_generation r), k).

Definition irq_router_subscription_count (r : router) (irq : Z) : Z :=
  zsum (fun s => if listens irq s then 1 else 0) (s_subscriptions r).

(** ** The timer *)

Record timer := mk_timer { s_tick_count : Z; s_hz : Z; s_tick_fn : option (kernel -> outcome kernel) }.

Definition timer_init (hz : Z) : timer := mk_timer 0 hz None.

Definition timer_set_tick_callback (t : timer) (fn : option (kernel -> outcome kernel)) : timer :=
  mk_timer (s_tick_count t) (s_hz t) fn.

Definition timer_tick_handler (t : timer) (k : kernel) (r : router) : outcome (timer * router * kernel) :=
  let t := mk_timer (u64 (s_tick_count t + 1)) (s_hz t) (s_tick_fn t) in
  k ← match s_tick_fn t with Some fn => fn k | None => Ret k end;
  '(r, k) ← irq_router_publish k r IRQ_ROUTER_TIMER_IRQ;
  Ret (t, r, k).

Definition timer_get_tick_count (t : timer) : Z := s_tick_count t.
Definition timer_get_hz (t : timer) : Z := s_hz t.

(** ** Delivery *)

(** The messages the subscriptions of a channel get from one interrupt. *)
Definition messages_for (h irq : Z) (subs : list irq_subscription) : list ipc_message :=
  omap (fun s => if listens irq s && (sub_channel s =? h) then Some (irq_message irq (sequence (advance s))) else None) subs.

Definition advanced (irq : Z) (s : irq_subscription) : irq_subscription :=
  if listens irq s then advance s else s.

Lemma take_take_app {A} n (a b : list A) : take n (take n a ++ b) = take n (a ++ b).
Proof.
  destruct (decide (length a <= n)%nat); [by rewrite (take_ge a)|].
  rewrite !take_app_le by (rewrite ?length_take; lia). by rewrite take_take, Nat.min_id.
Qed.

(** A message for another channel leaves a channel alone. *)
Lemma trysend_channel k h msg i ch h' :
  kernel_ok k -> opened k h i ch -> h <> IPC_HANDLE_INVALID ->
  exists code k' ch', ipc_trysend k h' (Some msg) = Ret (code, k') /\ kernel_ok k' /\ opened k' h i ch' /\
    queue_of ch' = (if h' =? h then take 8 (queue_of ch ++ [msg]) else queue_of ch).
Proof.
  intros Hok Hop Hh. pose proof (ko_chan _ Hok i ch (op_chan _ _ _ _ Hop)) as Hch.
  pose proof (queue_of_length ch (co_ring _ _ _ Hch)) as Hlen. pose proof (ro_count _ (co_ring _ _ _ Hch)) as Hcnt.
  unfold IPC_CHANNEL_CAPACITY, zlength in *.
  destruct (Z.eqb_spec h' h) as [->|Hne].
  - destruct (trysend_spec k h msg Hok Hh) as [(e & _ & _ & Hno)|(i' & ch1 & Hop' & _ & Hc)]; [exfalso; by apply (Hno i ch)|].
    pose proof (op_open _ _ _ _ Hop) as Ho. pose proof (op_open _ _ _ _ Hop') as Ho'. rewrite Ho in Ho'. injection Ho' as <- <-.
    destruct Hc as [[Hf E]|(Hlt & k' & ch' & E & Hok' & Htr & Hq & Hst & Hhh)]; unfold IPC_CHANNEL_CAPACITY in *.
    + exists IPC_ERR_FULL, k, ch. split; [done|]. split; [done|]. split; [done|].
      rewrite take_app_le by lia. by rewrite take_ge by lia.
    + exists IPC_OK, k', ch'. split; [done|]. split; [done|]. split; [|rewrite Hq, take_ge; [done|rewrite length_app; simpl; lia]].
      eapply opened_same; [done|by apply (tr_chan _ _ _ _ _ Htr)|done|done].
  - destruct (Z.eq_dec h' IPC_HANDLE_INVALID) as [->|Hh'].
    { exists IPC_ERR_INVAL, k, ch. done. }
    destruct (trysend_spec k h' msg Hok Hh') as [(e & E & _ & Hno)|(i' & ch1 & Hop' & _ & Hc)]; [by exists e, k, ch|].
    destruct Hc as [[Hf E]|(Hlt & k' & ch' & E & Hok' & Htr & _)]; [by exists IPC_ERR_FULL, k, ch|].
    exists IPC_OK, k', ch. split; [done|]. split; [done|]. split; [|done].
    eapply opened_same; [done| |done|apply Hop]. rewrite (tr_others _ _ _ _ _ Htr); [apply Hop|].
    intros ->. apply Hne. pose proof (op_handle _ _ _ _ Hop) as H1. pose proof (op_handle _ _ _ _ Hop') as H2.
    destruct (destroy_eq _ _ _ H1) as (c1 & Hc1 & <- & _). destruct (destroy_eq _ _ _ H2) as (c2 & Hc2 & <- & _). congruence.
Qed.

Lemma publish_loop_ok irq h i subs k ch :
  kernel_ok k -> opened k h i ch -> h <> IPC_HANDLE_INVALID ->
  exists k' ch', publish_loop k irq subs = Ret (advanced irq <$> subs, k') /\ kernel_ok k' /\ opened k' h i ch' /\
    queue_of ch' = take 8 (queue_of ch ++ messages_for h irq subs).
Proof.
  intros Hok Hop Hh. revert k ch Hok Hop. induction subs as [|s subs IH]; intros k ch Hok Hop.
  { exists k, ch. split; [done|]. split; [done|]. split; [done|]. rewrite app_nil_r.
    pose proof (ko_chan _ Hok i ch (op_chan _ _ _ _ Hop)) as Hch.
    pose proof (queue_of_length ch (co_ring _ _ _ Hch)) as Hlen. pose proof (ro_count _ (co_ring _ _ _ Hch)).
    unfold zlength, IPC_CHANNEL_CAPACITY in *. rewrite take_ge; [done|lia]. }
  unfold messages_for, advanced in *. cbn [publish_loop omap list_omap fmap list_fmap]. destruct (listens irq s); simpl.
  - destruct (trysend_channel k h (irq_message irq (sequence (advance s))) i ch (sub_channel s) Hok Hop Hh)
      as (code & k1 & ch1 & E1 & Hok1 & Hop1 & Hq1). simpl in E1. rewrite E1. simpl.
    destruct (IH k1 ch1 Hok1 Hop1) as (k2 & ch2 & E2 & Hok2 & Hop2 & Hq2). rewrite E2. simpl.
    exists k2, ch2. split; [done|]. split; [done|]. split; [done|]. rewrite Hq2, Hq1.
    destruct (Z.eqb_spec (sub_channel s) h); [|done].
    by rewrite take_take_app, <- app_assoc.
  - destruct (IH k ch Hok Hop) as (k2 & ch2 & E2 & Hok2 & Hop2 & Hq2). rewrite E2. simpl. by exists k2, ch2.
Qed.

Lemma publish_loop_total irq subs k : kernel_ok k ->
  exists k', publish_loop k irq subs = Ret (advanced irq <$> subs, k') /\ kernel_ok k'.
Proof.
  revert k. induction subs as [|s subs IH]; intros k Hok; [by exists k|]. unfold advanced in *. cbn [publish_loop fmap list_fmap].
  destruct (listens irq s); simpl.
  - assert (exists code k1, ipc_trysend k (sub_channel s) (Some (irq_message irq (sequence (advance s)))) = Ret (code, k1) /\ kernel_ok k1)
      as (code & k1 & E1 & Hok1).
    { destruct (Z.eq_dec (sub_channel s) IPC_HANDLE_INVALID) as [->|Hh]; [by exists IPC_ERR_INVAL, k|].
      destruct (trysend_spec k (sub_channel s) (irq_message irq (sequence (advance s))) Hok Hh)
        as [(e & E & _)|(i & ch & _ & _ & [[_ E]|(_ & k' & ch' & E & Hok' & _)])]; eauto. }
    simpl in E1. rewrite E1. simpl. destruct (IH k1 Hok1) as (k2 & -> & Hok2). by exists k2.
  - destruct (IH k Hok) as (k2 & -> & Hok2). by exists k2.
Qed.

(** Publishing an interrupt never faults and keeps the invariant; it advances
    the sequence number of exactly the subscriptions of that interrupt, and
    appends to every open channel the messages of its subscriptions, numbered, in
    table order, until the channel is full. *)
Theorem irq_publish_correct k r irq :
  kernel_ok k ->
  exists k', irq_router_publish k r irq =
      Ret (mk_router (advanced irq <$> s_subscriptions r) (s_next_generation r), k') /\ kernel_ok k' /\
    forall h i ch, opened k h i ch -> h <> IPC_HANDLE_INVALID ->
      exists ch', opened k' h i ch' /\
        queue_of ch' = take 8 (queue_of ch ++ messages_for h irq (s_subscriptions r)).
Proof.
  intros Hok. unfold irq_router_publish. destruct (publish_loop_total irq (s_subscriptions r) k Hok) as (k' & E & Hok').
  rewrite E. exists k'. split; [done|]. split; [done|]. intros h i ch Hop Hh.
  destruct (publish_loop_ok irq h i (s_subscriptions r) k ch Hok Hop Hh) as (k2 & ch' & E2 & _ & Hop' & Hq).
  rewrite E in E2. injection E2 as <-. by exists ch'.
Qed.

(** ** Subscriptions *)

Lemma subscription_handle_pos r i : 1 <= s_next_generation r < 2 ^ 23 -> 0 <= i < IRQ_ROUTER_MAX_SUBSCRIPTIONS ->
  make_subscription_handle r i = (s_next_generation r * 256 + (i + 1), s_next_generation r + 1).
Proof.
  intros Hg Hi. unfold make_subscription_handle, IRQ_ROUTER_MAX_SUBSCRIPTIONS in *.
  rewrite (u32_id (s_next_generation r + 1)) by lia. destruct (Z.eqb_spec (s_next_generation r + 1) 0); [lia|].
  change 0x00FFFFFF with (Z.ones 24). rewrite Z.land_ones, (Z.mod_small (s_next_generation r)) by lia.
  rewrite (lor_shiftl_add 8 _ (i + 1)) by lia. change (2 ^ 8) with 256. f_equal.
  unfold i32. rewrite u32_id by lia. case_if; [done|lia].
Qed.

(** Every subscription in use carries a positive handle of its slot. *)
Definition router_ok (r : router) : Prop :=
  zlength (s_subscriptions r) = IRQ_ROUTER_MAX_SUBSCRIPTIONS /\ 1 <= s_next_generation r <= 2 ^ 23 /\
  forall i s, s_subscriptions r .@ i = Some s ->
    sub_handle s = 0 \/ exists g, 1 <= g < s_next_generation r /\ sub_handle s = g * 256 + (i + 1).

Lemma router_ok_handle r i j s t : router_ok r ->
  s_subscriptions r .@ i = Some s -> s_subscriptions r .@ j = Some t -> 0 < sub_handle s ->
  sub_handle s = sub_handle t -> i = j.
Proof.
  intros (Hl & Hg & Hs) Hi Hj Hp He. unfold IRQ_ROUTER_MAX_SUBSCRIPTIONS in *.
  pose proof (get_Some_range _ _ _ Hi). pose proof (get_Some_range _ _ _ Hj).
  destruct (Hs i s Hi) as [?|(g & ? & Hh)]; [lia|]. destruct (Hs j t Hj) as [?|(g' & ? & Hh')]; [lia|]. lia.
Qed.

(** Subscribing to an open channel with a free slot answers a fresh positive
    handle and fills the slot; unsubscribing with that handle empties exactly that
    slot again; unknown handles are refused.  The table stays well-formed for the
    first 2^23 subscriptions. *)
Theorem irq_subscribe_roundtrip x r irq channel i :
  router_ok r -> s_next_generation r < 2 ^ 23 -> ipc_channel_is_open x channel = true ->
  find_index (fun s => sub_handle s =? 0) (s_subscriptions r) = Some i ->
  exists handle r', irq_router_subscribe x r irq channel = (handle, r') /\ 0 < handle /\ router_ok r' /\
    s_subscriptions r' .@ i = Some (mk_subscription handle irq channel 0) /\
    (forall j, j <> i -> s_subscriptions r' .@ j = s_subscriptions r .@ j) /\
    (forall s, s ∈ s_subscriptions r -> sub_handle s <> handle) /\
    exists r2, irq_router_unsubscribe r' handle = (IRQ_ROUTER_STATUS_OK, r2) /\ router_ok r2 /\
      s_subscriptions r2 = set (s_subscriptions r) i (mk_subscription 0 0 IPC_HANDLE_INVALID 0) /\
      irq_router_unsubscribe r2 handle = (IRQ_ROUTER_STATUS_INVALID, r2).
Proof.
  intros Hok Hgen Hopen Hfind. pose proof Hok as (Hl & Hg & Hs).
  pose proof (find_index_range _ _ _ Hfind) as Hir. pose proof Hl as Hl'. unfold IRQ_ROUTER_MAX_SUBSCRIPTIONS in Hl'.
  set (g := s_next_generation r) in *.
  assert (irq_router_subscribe x r irq channel =
    (g * 256 + (i + 1), mk_router (set (s_subscriptions r) i (mk_subscription (g * 256 + (i + 1)) irq channel 0)) (g + 1))) as E.
  { unfold irq_router_subscribe. destruct (Z.eqb_spec channel IPC_HANDLE_INVALID) as [->|]; [done|].
    rewrite Hopen, Hfind. cbn [negb orb]. rewrite subscription_handle_pos; [done|unfold g in *; lia|]. unfold IRQ_ROUTER_MAX_SUBSCRIPTIONS. lia. }
  eexists _, _. split; [exact E|]. split; [lia|].
  assert (forall s, s ∈ s_subscriptions r -> sub_handle s <> g * 256 + (i + 1)) as Hfresh.
  { intros s (j & Hj)%In_get. pose proof (get_Some_range _ _ _ Hj). destruct (Hs j s Hj) as [->|(g' & ? & ->)]; lia. }
  set (r' := mk_router _ _).
  assert (router_ok r') as Hok'.
  { split; [simpl; by rewrite zlength_set|]. split; [simpl; lia|]. intros j s Hj. simpl in *.
    destruct (Z.eq_dec i j) as [<-|Hne].
    - rewrite get_set_eq in Hj by done. injection Hj as <-. right. exists g. simpl. lia.
    - rewrite get_set_ne in Hj by done. destruct (Hs j s Hj) as [?|(g' & ? & ?)]; [by left|]. right. exists g'. lia. }
  split; [done|]. split; [simpl; by rewrite get_set_eq|]. split; [intros j Hj; simpl; by rewrite get_set_ne|].
  split; [done|].
  assert (exists n, find_index (fun s => sub_handle s =? g * 256 + (i + 1)) (s_subscriptions r') = Some n) as (n & Hn).
  { eapply find_index_is_Some; [eapply get_In; simpl; by rewrite get_set_eq|simpl; by rewrite Z.eqb_refl]. }
  assert (n = i) as ->.
  { apply find_index_Some in Hn as (s & Hsn & He & _). bool_cases. simpl in Hsn.
    destruct (Z.eq_dec i n) as [|Hne]; [done|]. rewrite get_set_ne in Hsn by done. by apply get_In, Hfresh in Hsn. }
  eexists. split.
  { unfold irq_router_unsubscribe. case_if; [lia|]. rewrite Hn. done. }
  assert (set (s_subscriptions r') i (mk_subscription 0 0 IPC_HANDLE_INVALID 0) =
          set (s_subscriptions r) i (mk_subscription 0 0 IPC_HANDLE_INVALID 0)) as Hset.
  { simpl. unfold set. case_if; [done|]. by rewrite list_insert_insert_eq. }
  rewrite Hset. split; [|split; [done|]].
  - split; [simpl; by rewrite zlength_set|]. split; [simpl; lia|]. intros j s Hj. simpl in *.
    destruct (Z.eq_dec i j) as [<-|Hne].
    + rewrite get_set_eq in Hj by done. injection Hj as <-. by left.
    + rewrite get_set_ne in Hj by done. destruct (Hs j s Hj) as [?|(g' & ? & ?)]; [by left|]. right. exists g'. lia.
  - unfold irq_router_unsubscribe. case_if; [done|]. simpl.
    destruct (find_index _ (set (s_subscriptions r) i _)) as [n|] eqn:Hn2; [|done]. exfalso.
    apply find_index_Some in Hn2 as (s & Hsn & He & _). bool_cases. destruct (Z.eq_dec i n) as [<-|Hne].
    + rewrite get_set_eq in Hsn by done. injection Hsn as <-. simpl in He. lia.
    + rewrite get_set_ne in Hsn by done. by apply get_In, Hfresh in Hsn.
Qed.

(** ** Examples *)

Definition blank_router : router :=
  mk_router (replicate 16 (mk_subscription 0 0 IPC_HANDLE_INVALID 0)) 1.

Lemma blank_router_ok : router_ok blank_router.
Proof.
  split; [done|]. split; [done|]. intros i s Hs%get_In. apply elem_of_replicate in Hs as [-> _]. by left.
Qed.

Lemma irq_subscribe_roundtrip_witness :
  exists handle r', irq_router_subscribe (k_ipc sample_kernel) blank_router 0 sample_handle = (handle, r') /\ 0 < handle.
Proof.
  destruct (irq_subscribe_roundtrip (k_ipc sample_kernel) blank_router 0 sample_handle 0 blank_router_ok
    ltac:(by vm_compute) ltac:(by vm_compute) ltac:(by vm_compute)) as (handle & r' & E & Hp & _).
  exists handle, r'. split; [exact E|exact Hp].
Defined.

Lemma irq_publish_correct_witness :
  exists k', irq_router_publish sample_kernel (irq_router_subscribe (k_ipc sample_kernel) blank_router 0 sample_handle).2 0 =
    Ret (mk_router (mk_subscription 257 0 257 1 :: replicate 15 (mk_subscription 0 0 0 0)) 2, k') /\
    exists ch', opened k' sample_handle 0 ch' /\ queue_of ch' = [irq_message 0 1].
Proof.
  destruct (irq_publish_correct sample_kernel (irq_router_subscribe (k_ipc sample_kernel) blank_router 0 sample_handle).2 0 sample_kernel_ok)
    as (k' & E & _ & Hd).
  exists k'. split; [exact E|]. exact (Hd sample_handle 0 sample_channel sample_opened ltac:(done)).
Defined.

(** From the 2^23-th subscription on the handle is negative: it reads as an error,
    cannot be released, and its interrupts are not delivered. *)
Lemma late_subscription_dead :
  let r := mk_router (s_subscriptions blank_router) (2 ^ 23) in
  let '(handle, r') := irq_router_subscribe (k_ipc sample_kernel) r 0 sample_handle in
  handle < 0 /\ irq_router_unsubscribe r' handle = (IRQ_ROUTER_STATUS_INVALID, r') /\
  irq_router_subscription_count r' 0 = 0.
Proof. vm_compute. done. Qed.

End IrqRouter.
