(* ===== verification/Pmm.v ===== *)
(** * The physical frame allocator and the memory layout of the boot

    [kernel/mm/pmm.c] keeps the free page frames on a stack of at most 32768
    entries, filled from the Multiboot2 memory map ([boot/multiboot2.h]) or from a
    single region.  The boot sequences of [kernel/main.c] and
    [kernel/main_aarch64.c] divide the memory above the kernel image between the
    frames and the kernel heap.  The information structure of the boot loader is a
    byte image whose offsets are its addresses. *)

From S2P Require Import Prelude Status Bytes KHeap.
Import KHeap.

Module Pmm.

Definition PMM_FRAME_SIZE : Z := 4096.
Definition PMM_MAX_FREE_FRAMES : Z := 32768.
Definition PMM_MIN_USABLE_ADDR : Z := 0x00100000.
Definition ZACLR_ROOT_PROVIDER_HEAP_BYTES : Z := 32 * 1024 * 1024.
Definition MB2_TAG_END : Z := 0.
Definition MB2_TAG_MEMORY_MAP : Z := 6.
Definition MB2_MEMORY_AVAILABLE : Z := 1.

Definition mm_align_up_u64 (value alignment : Z) : Z :=
  Z.land (u64 (value + alignment - 1)) (Z.lnot (alignment - 1)).

Definition mm_max_u64 (left right : Z) : Z := if right <? left then left else right.

(** ** Multiboot2 tags *)

Definition read_u64 (m : memory) (p : Z) : outcome Z :=
  lo ← read_u32 m p;
  hi ← read_u32 m (p + 4);
  Ret (Z.lor lo (Z.shiftl hi 32)).

(** The walk over the tags from [addr]; tags of size 0 make it loop for ever. *)
Fixpoint find_tag_from (fuel : nat) (m : memory) (addr end_ type : Z) : outcome (option Z) :=
  if addr <? end_ then
    match fuel with
    | O => NoFuel
    | S fuel =>
      t ← read_u32 m addr;
      if t =? MB2_TAG_END then Ret None else
      if t =? type then Ret (Some addr) else
      size ← read_u32 m (addr + 4);
      find_tag_from fuel m (u64 (addr + Z.land (u32 (size + 7)) (u32 (Z.lnot 7)))) end_ type
    end
  else Ret None.

Definition mb2_find_tag (m : memory) (info type : Z) : outcome (option Z) :=
  total_size ← read_u32 m info;
  find_tag_from (length m) m (info + 8) (info + total_size) type.

(** ** The allocator *)

Record pmm := mk_pmm { g_free_frames : list Z; g_free_frame_count : Z; g_reserved_until : Z }.

Definition pmm_reserve_until (p : pmm) (min_addr : Z) : pmm :=
  if g_reserved_until p <? min_addr
  then mk_pmm (g_free_frames p) (g_free_frame_count p) min_addr else p.

(** The first address the frames may use. *)
Definition reserved_end (p : pmm) (kernel_end : Z) : Z :=
  let r := u64 (mm_align_up_u64 kernel_end PMM_FRAME_SIZE + EARLY_HEAP_SIZE) in
  if r <? g_reserved_until p then mm_align_up_u64 (g_reserved_until p) PMM_FRAME_SIZE else r.

Definition push_frame (p : pmm) (frame : Z) : pmm :=
  mk_pmm (set (g_free_frames p) (g_free_frame_count p) frame) (g_free_frame_count p + 1) (g_reserved_until p).

(** The frames of one region; [n] is the room left on the stack. *)
Fixpoint register_frames (n : nat) (p : pmm) (frame region_end : Z) : pmm :=
  match n with
  | O => p
  | S n =>
    if u64 (frame + PMM_FRAME_SIZE) <=? region_end
    then register_frames n (push_frame p frame) (u64 (frame + PMM_FRAME_SIZE)) region_end
    else p
  end.

Definition room (p : pmm) : nat := Z.to_nat (PMM_MAX_FREE_FRAMES - g_free_frame_count p).

(** One entry of the memory map, at address [entry]. *)
Definition register_entry (m : memory) (reserved : Z) (p : pmm) (entry : Z) : outcome pmm :=
  type ← read_u32 m (entry + 16);
  if type =? MB2_MEMORY_AVAILABLE then
    base_addr ← read_u64 m entry;
    length ← read_u64 m (entry + 8);
    let region_start := mm_align_up_u64 base_addr PMM_FRAME_SIZE in
    let region_end := u64 (base_addr + length) in
    let region_start := mm_max_u64 region_start PMM_MIN_USABLE_ADDR in
    let region_start := mm_max_u64 region_start reserved in
    Ret (register_frames (room p) p region_start region_end)
  else Ret p.

Fixpoint register_entries (n : nat) (m : memory) (reserved entry_size : Z) (p : pmm) (entry : Z) : outcome pmm :=
  match n with
  | O => Ret p
  | S n =>
    p ← register_entry m reserved p entry;
    register_entries n m reserved entry_size p (entry + entry_size)
  end.

Definition pmm_init (m : memory) (kernel_end : Z) (p : pmm) (mb_info : Z) : outcome pmm :=
  let p := mk_pmm (g_free_frames p) 0 (g_reserved_until p) in
  tag ← mb2_find_tag m mb_info MB2_TAG_MEMORY_MAP;
  match tag with
  | None => Ret p
  | Some mmap_tag =>
    let reserved := reserved_end p kernel_end in
    size ← read_u32 m (mmap_tag + 4);
    entry_size ← read_u32 m (mmap_tag + 8);
    if entry_size =? 0 then Fault else
    let entry_count := u32 (u64 (size - 16) / entry_size) in
    register_entries (Z.to_nat entry_count) m reserved entry_size p (mmap_tag + 16)
  end.

Definition pmm_init_range (kernel_end : Z) (p : pmm) (mem_base mem_size : Z) : pmm :=
  let p := mk_pmm (g_free_frames p) 0 (g_reserved_until p) in
  if mem_size =? 0 then p else
  let reserved := reserved_end p kernel_end in
  let region_start := if mem_base <? reserved then reserved else mem_base in
  let region_end := u64 (mem_base + mem_size) in
  let region_start := mm_align_up_u64 region_start PMM_FRAME_SIZE in
  register_frames (room p) p region_start region_end.

Definition pmm_alloc_frame (p : pmm) : outcome (Z * pmm) :=
  if g_free_frame_count p =? 0 then Ret (0, p) else
  let count := g_free_frame_count p - 1 in
  match g_free_frames p .@ count with
  | Some frame => Ret (frame, mk_pmm (g_free_frames p) count (g_reserved_until p))
  | None => Fault
  end.

(** The inner loop: entries [start + i], ..., [start + i + n - 1] continue the run. *)
Fixpoint is_run (n : nat) (frames : list Z) (start base i : Z) : outcome bool :=
  match n with
  | O => Ret true
  | S n =>
    match frames .@ (start + i) with
    | Some f => if negb (f =? u64 (base + u64 (i * PMM_FRAME_SIZE))) then Ret false
                else is_run n frames start base (i + 1)
    | None => Fault
    end
  end.

(** The entries from [tail] on move down by [count]; [n] are left. *)
Fixpoint shift_down (n : nat) (frames : list Z) (tail count : Z) : outcome (list Z) :=
  match n with
  | O => Ret frames
  | S n =>
    match frames .@ tail with
    | Some f => shift_down n (set frames (tail - count) f) (tail + 1) count
    | None => Fault
    end
  end.

Fixpoint find_run (fuel : nat) (p : pmm) (count start : Z) : outcome (Z * pmm) :=
  if start + count <=? g_free_frame_count p then
    match fuel with
    | O => NoFuel
    | S fuel =>
      match g_free_frames p .@ start with
      | None => Fault
      | Some base =>
        contiguous ← is_run (Z.to_nat (count - 1)) (g_free_frames p) start base 1;
        if (contiguous : bool) then
          frames ← shift_down (Z.to_nat (g_free_frame_count p - (start + count))) (g_free_frames p) (start + count) count;
          Ret (base, mk_pmm frames (g_free_frame_count p - count) (g_reserved_until p))
        else find_run fuel p count (start + 1)
      end
    end
  else Ret (0, p).

Definition pmm_alloc_contiguous (p : pmm) (count : Z) : outcome (Z * pmm) :=
  if (count =? 0) || (g_free_frame_count p <? count) then Ret (0, p)
  else find_run (S (Z.to_nat (g_free_frame_count p))) p count 0.

Definition pmm_free_frame (p : pmm) (frame : Z) : pmm :=
  if (frame =? 0) || (PMM_MAX_FREE_FRAMES <=? g_free_frame_count p) then p
  else push_frame p frame.

Definition pmm_get_free_frame_count (p : pmm) : Z := g_free_frame_count p.

(** ** The stack of free frames *)

Definition free_frames (p : pmm) : list Z := take (Z.to_nat (g_free_frame_count p)) (g_free_frames p).

Definition stack_ok (p : pmm) : Prop :=
  zlength (g_free_frames p) = PMM_MAX_FREE_FRAMES /\ 0 <= g_free_frame_count p <= PMM_MAX_FREE_FRAMES.

Lemma free_frames_length p : stack_ok p -> zlength (free_frames p) = g_free_frame_count p.
Proof. intros [Hl Hc]. unfold free_frames, zlength in *. rewrite length_take. lia. Qed.

Lemma get_take_lt {A} (l : list A) n j : 0 <= n -> take (Z.to_nat n) l .@ j = if j <? n then l .@ j else None.
Proof.
  intros Hn. unfold get. destruct (Z.ltb_spec j 0); [by case_if|]. destruct (Z.ltb_spec j n).
  - apply lookup_take_lt. lia.
  - apply lookup_take_ge. lia.
Qed.

Lemma push_frame_ok p f : stack_ok p -> g_free_frame_count p < PMM_MAX_FREE_FRAMES ->
  stack_ok (push_frame p f) /\ free_frames (push_frame p f) = free_frames p ++ [f].
Proof.
  intros [Hl Hc] Hlt. split; [split; simpl; [by rewrite zlength_set|lia]|].
  unfold free_frames, push_frame, set, zlength in *. simpl. case_if; [lia|].
  replace (Z.to_nat (g_free_frame_count p + 1)) with (S (Z.to_nat (g_free_frame_count p))) by lia.
  rewrite (take_S_r _ _ f); [by rewrite take_insert_ge by lia|]. apply list_lookup_insert_eq. lia.
Qed.

(** [k] consecutive frames from [base] on. *)
Definition frame_range (base : Z) (k : nat) : list Z := (fun i => base + PMM_FRAME_SIZE * Z.of_nat i) <$> seq 0 k.

Lemma frame_range_S base k : frame_range base (S k) = base :: frame_range (base + PMM_FRAME_SIZE) k.
Proof.
  unfold frame_range. cbn [seq]. rewrite fmap_cons. f_equal; [lia|].
  rewrite <- (fmap_S_seq 0 k), <- list_fmap_compose. apply list_fmap_ext. intros i x _. simpl. lia.
Qed.

Lemma elem_of_frame_range f base k :
  f ∈ frame_range base k <-> exists i : Z, 0 <= i < Z.of_nat k /\ f = base + PMM_FRAME_SIZE * i.
Proof.
  unfold frame_range. rewrite list_elem_of_fmap. split.
  - intros (i & -> & Hi%elem_of_seq). exists (Z.of_nat i). lia.
  - intros (i & Hi & ->). exists (Z.to_nat i). rewrite elem_of_seq. split; [|lia]. by rewrite Z2Nat.id by lia.
Qed.

Lemma NoDup_frame_range base k : NoDup (frame_range base k).
Proof.
  unfold frame_range. apply NoDup_fmap_2; [|apply NoDup_seq]. intros i j. unfold PMM_FRAME_SIZE. lia.
Qed.

Lemma frame_range_length base k : length (frame_range base k) = k.
Proof. unfold frame_range. by rewrite length_fmap, length_seq. Qed.

Lemma frame_range_get base k i : 0 <= i < Z.of_nat k -> frame_range base k .@ i = Some (base + PMM_FRAME_SIZE * i).
Proof.
  intros Hi. unfold get, frame_range. case_if; [lia|]. rewrite list_lookup_fmap, lookup_seq_lt by lia. simpl.
  by rewrite Z2Nat.id by lia.
Qed.

(** Registering a region pushes its frames in order, as many as there is room. *)
Lemma register_frames_ok n p frame region_end :
  stack_ok p -> n = room p -> 0 <= frame -> 0 <= region_end -> frame < 2 ^ 63 -> region_end < 2 ^ 63 ->
  exists k, stack_ok (register_frames n p frame region_end) /\
    free_frames (register_frames n p frame region_end) = free_frames p ++ frame_range frame k /\
    (k = O \/ frame + PMM_FRAME_SIZE * Z.of_nat k <= region_end) /\
    g_reserved_until (register_frames n p frame region_end) = g_reserved_until p.
Proof.
  revert p frame. induction n as [|n IH]; intros p frame Hp Hn Hf Hr Hf2 Hr2; simpl.
  { exists O. split; [done|]. split; [symmetry; apply app_nil_r|]. auto. }
  assert (u64 (frame + PMM_FRAME_SIZE) = frame + 4096) as -> by (unfold PMM_FRAME_SIZE; by rewrite u64_id by lia).
  destruct (Z.leb_spec (frame + 4096) region_end).
  2: { exists O. split; [done|]. split; [symmetry; apply app_nil_r|]. auto. }
  unfold room in Hn. pose proof Hp as [Hl Hc]. destruct (push_frame_ok p frame Hp) as [Hp' Hfree]; [lia|].
  destruct (IH (push_frame p frame) (frame + 4096) Hp') as (k & Hs & Hfr & Hk & Hru); try lia.
  { unfold room. simpl. lia. }
  exists (S k). split; [done|]. split; [|split; [|done]].
  - rewrite Hfr, Hfree, <- app_assoc, frame_range_S. done.
  - right. unfold PMM_FRAME_SIZE in *. destruct Hk as [->|?]; lia.
Qed.

Lemma mm_align_up_4096 v : 0 <= v < 2 ^ 63 ->
  mm_align_up_u64 v PMM_FRAME_SIZE = (v + 4095) / 4096 * 4096.
Proof.
  intros Hv. unfold mm_align_up_u64, PMM_FRAME_SIZE. rewrite u64_id by lia.
  change (4096 - 1) with (2 ^ 12 - 1). rewrite land_lnot_ones by lia. f_equal. f_equal. lia.
Qed.

Lemma mm_max_max a b : mm_max_u64 a b = Z.max a b.
Proof. unfold mm_max_u64. case_if; lia. Qed.

(** ** Initialisation *)

Record region := mk_region { rg_base : Z; rg_length : Z; rg_type : Z }.

Definition entry_at (m : memory) (a : Z) (r : region) : Prop :=
  read_u64 m a = Ret (rg_base r) /\ read_u64 m (a + 8) = Ret (rg_length r) /\ read_u32 m (a + 16) = Ret (rg_type r).

(** The memory map tag at [tag] holds the regions [rs]. *)
Record map_at (m : memory) (tag entry_size : Z) (rs : list region) : Prop := {
  ma_size : read_u32 m (tag + 4) = Ret (16 + entry_size * zlength rs);
  ma_entry_size : read_u32 m (tag + 8) = Ret entry_size;
  ma_range : 0 < entry_size /\ 16 + entry_size * zlength rs < 2 ^ 32;
  ma_entries i r : rs .@ i = Some r -> entry_at m (tag + 16 + entry_size * i) r }.

(** What the boot loader promises of the regions: they lie in the lower half of
    the address space and the available ones do not overlap. *)
Record regions_ok (rs : list region) : Prop := {
  rk_range r : r ∈ rs -> 0 <= rg_base r /\ 0 <= rg_length r /\ rg_base r + rg_length r < 2 ^ 62;
  rk_disjoint i j r t : rs .@ i = Some r -> rs .@ j = Some t -> i <> j ->
    rg_type r = MB2_MEMORY_AVAILABLE -> rg_type t = MB2_MEMORY_AVAILABLE ->
    rg_base r + rg_length r <= rg_base t \/ rg_base t + rg_length t <= rg_base r }.

(** A frame inside an available region. *)
Definition backed (rs : list region) (f : Z) : Prop :=
  exists i r, rs .@ i = Some r /\ rg_type r = MB2_MEMORY_AVAILABLE /\
    rg_base r <= f /\ f + PMM_FRAME_SIZE <= rg_base r + rg_length r.

Record frames_ok (lo : Z) (rs : list region) (p : pmm) : Prop := {
  fo_stack : stack_ok p;
  fo_nodup : NoDup (free_frames p);
  fo_frame f : f ∈ free_frames p -> f mod PMM_FRAME_SIZE = 0 /\ lo <= f /\ backed rs f }.

Lemma backed_snoc rs r f : backed rs f -> backed (rs ++ [r]) f.
Proof.
  intros (i & t & Hi & Ht). exists i, t. split; [|done]. rewrite get_app_l; [done|]. apply get_Some_range in Hi; lia.
Qed.

(** One more region, disjoint from the earlier ones. *)
Lemma register_region_ok p rs r reserved :
  frames_ok (Z.max reserved PMM_MIN_USABLE_ADDR) rs p -> regions_ok (rs ++ [r]) ->
  0 <= reserved < 2 ^ 62 -> reserved mod 4096 = 0 -> rg_type r = MB2_MEMORY_AVAILABLE ->
  let start := mm_max_u64 (mm_max_u64 (mm_align_up_u64 (rg_base r) PMM_FRAME_SIZE) PMM_MIN_USABLE_ADDR) reserved in
  frames_ok (Z.max reserved PMM_MIN_USABLE_ADDR) (rs ++ [r])
    (register_frames (room p) p start (u64 (rg_base r + rg_length r))).
Proof.
  intros [Hs Hnd Hf] Hrs Hres Hal Hty start. destruct (rk_range _ Hrs r) as (Hb & Hl & Hbl); [set_solver|].
  rewrite u64_id by lia.
  assert (start = Z.max (Z.max ((rg_base r + 4095) / 4096 * 4096) PMM_MIN_USABLE_ADDR) reserved) as Hst.
  { unfold start. by rewrite !mm_max_max, mm_align_up_4096 by lia. }
  unfold PMM_MIN_USABLE_ADDR in *.
  assert (start mod 4096 = 0 /\ rg_base r <= start /\ 0x100000 <= start /\ reserved <= start /\ start < 2 ^ 63) as (H1 & H2 & H3 & H4 & H5)
    by (rewrite Hst; zlia).
  destruct (register_frames_ok (room p) p start (rg_base r + rg_length r)) as (k & Hs' & Hfr & Hk & _); [done|done|lia..|].
  set (p' := register_frames _ _ _ _) in *.
  assert (forall f, f ∈ frame_range start k -> f mod 4096 = 0 /\ start <= f /\ f + 4096 <= rg_base r + rg_length r) as Hnew.
  { intros f (i & Hi & ->)%elem_of_frame_range. unfold PMM_FRAME_SIZE in *. destruct Hk as [->|Hk]; [lia|].
    split; [|lia]. rewrite Z.add_mod, (Z.mul_comm 4096 i), Z_mod_mult, H1 by lia. done. }
  assert (exists ir, (rs ++ [r]) .@ ir = Some r /\ ir = zlength rs) as (ir & Hir & Hire).
  { exists (zlength rs). split; [|done]. rewrite get_app_r by lia. by rewrite Z.sub_diag. }
  split; [done| |].
  - rewrite Hfr. apply NoDup_app. split; [done|]. split; [|apply NoDup_frame_range].
    intros f Hf1 Hf2. destruct (Hf f Hf1) as (_ & _ & i & t & Hi & Ht & Hb1 & Hb2).
    destruct (Hnew f Hf2) as (_ & Hn1 & Hn2). pose proof (get_Some_range _ _ _ Hi).
    unfold PMM_FRAME_SIZE in *.
    destruct (rk_disjoint _ Hrs i ir t r); [by rewrite get_app_l by lia|done|lia|done|done|lia|lia].
  - intros f. rewrite Hfr. intros [Hin|Hin]%elem_of_app.
    + destruct (Hf f Hin) as (? & ? & ?). split; [done|]. split; [done|]. by apply backed_snoc.
    + destruct (Hnew f Hin) as (Ha & Hlo & Hhi). split; [done|]. split; [lia|]. exists ir, r.
      unfold PMM_FRAME_SIZE. split; [done|]. split; [done|]. lia.
Qed.

Lemma regions_ok_prefix rs rs' : regions_ok (rs ++ rs') -> regions_ok rs.
Proof.
  intros [Hr Hd]. split; [intros r Hin; apply Hr; set_solver|]. intros i j r t Hi Hj.
  apply (Hd i j); rewrite get_app_l; try done; [apply get_Some_range in Hi|apply get_Some_range in Hj]; lia.
Qed.

Lemma register_entries_ok m reserved entry_size rs done_ p entry :
  frames_ok (Z.max reserved PMM_MIN_USABLE_ADDR) done_ p -> regions_ok (done_ ++ rs) ->
  0 <= reserved < 2 ^ 62 -> reserved mod 4096 = 0 ->
  (forall i r, rs .@ i = Some r -> entry_at m (entry + entry_size * i) r) ->
  exists p', register_entries (length rs) m reserved entry_size p entry = Ret p' /\
    frames_ok (Z.max reserved PMM_MIN_USABLE_ADDR) (done_ ++ rs) p'.
Proof.
  revert done_ p entry. induction rs as [|r rs IH]; intros done_ p entry Hp Hrs Hres Hal Hent.
  { exists p. rewrite app_nil_r in *. done. }
  pose proof (Hent 0 r eq_refl) as He. replace (entry + entry_size * 0) with entry in He by lia.
  replace (done_ ++ r :: rs) with ((done_ ++ [r]) ++ rs) in * by (by rewrite <- app_assoc).
  assert (exists p1, register_entry m reserved p entry = Ret p1 /\ frames_ok (Z.max reserved PMM_MIN_USABLE_ADDR) (done_ ++ [r]) p1)
    as (p1 & E1 & Hp1).
  { destruct He as (Hb & Hl & Ht). unfold register_entry. rewrite Ht. simpl. case_if.
    - rewrite Hb, Hl. simpl. eexists. split; [done|]. apply register_region_ok; try done. by eapply regions_ok_prefix.
    - exists p. split; [done|]. destruct Hp as [H1 H2 H3]. split; [done|done|]. intros f Hf.
      destruct (H3 f Hf) as (? & ? & ?). split; [done|]. split; [done|]. by apply backed_snoc. }
  cbn [length register_entries]. rewrite E1. simpl. apply IH; try done.
  intros i t Hi. pose proof (get_Some_range _ _ _ Hi) as Hr. specialize (Hent (i + 1) t).
  replace (entry + entry_size + entry_size * i) with (entry + entry_size * (i + 1)) by lia. apply Hent.
  change (r :: rs) with ([r] ++ rs). rewrite get_app_r by (unfold zlength; simpl; lia).
  by replace (i + 1 - zlength [r]) with i by (unfold zlength; simpl; lia).
Qed.

(** The lowest address the frames may have. *)
Lemma reserved_end_eq p kernel_end : 0 <= kernel_end < 2 ^ 60 -> 0 <= g_reserved_until p < 2 ^ 61 ->
  let r := (kernel_end + 4095) / 4096 * 4096 + EARLY_HEAP_SIZE in
  reserved_end p kernel_end = Z.max r ((g_reserved_until p + 4095) / 4096 * 4096).
Proof.
  intros Hk Hr. unfold reserved_end. rewrite mm_align_up_4096 by lia. unfold EARLY_HEAP_SIZE.
  rewrite u64_id by zlia. case_if; [rewrite mm_align_up_4096 by lia|]; zlia.
Qed.

Lemma empty_frames_ok lo p : zlength (g_free_frames p) = PMM_MAX_FREE_FRAMES ->
  frames_ok lo [] (mk_pmm (g_free_frames p) 0 (g_reserved_until p)).
Proof. intros Hl. split; [by split|constructor|set_solver]. Qed.

Section boot.
Context (p : pmm) (kernel_end : Z).
Context (Hlen : zlength (g_free_frames p) = PMM_MAX_FREE_FRAMES).
Context (Hk : 0 <= kernel_end < 2 ^ 60) (Hru : 0 <= g_reserved_until p < 2 ^ 61).

Lemma pmm_init_ok m mb_info tag entry_size rs :
  mb2_find_tag m mb_info MB2_TAG_MEMORY_MAP = Ret (Some tag) -> map_at m tag entry_size rs -> regions_ok rs ->
  exists p', pmm_init m kernel_end p mb_info = Ret p' /\
    frames_ok (Z.max (reserved_end p kernel_end) PMM_MIN_USABLE_ADDR) rs p'.
Proof using All.
  intros Hfind [Hsize Hes [He1 He2] Hent] Hrs. unfold pmm_init. rewrite Hfind. simpl. rewrite Hsize, Hes. simpl.
  destruct (Z.eqb_spec entry_size 0); [lia|].
  assert (Z.to_nat (u32 (u64 (16 + entry_size * zlength rs - 16) / entry_size)) = length rs) as ->.
  { replace (16 + entry_size * zlength rs - 16) with (zlength rs * entry_size) by lia.
    pose proof (zlength_nonneg rs). rewrite u64_id by nia. rewrite Z.div_mul by lia. rewrite u32_id by nia.
    unfold zlength. lia. }
  change (reserved_end (mk_pmm (g_free_frames p) 0 (g_reserved_until p)) kernel_end) with (reserved_end p kernel_end).
  pose proof (reserved_end_eq p kernel_end Hk Hru) as Hr. simpl in Hr. unfold EARLY_HEAP_SIZE in Hr.
  apply (register_entries_ok m (reserved_end p kernel_end) entry_size rs []); try done.
  - by apply empty_frames_ok.
  - rewrite Hr. zlia.
  - rewrite Hr. zlia.
Qed.

Lemma pmm_init_range_ok mem_base mem_size :
  0 <= mem_base -> 0 <= mem_size -> mem_base + mem_size < 2 ^ 62 ->
  frames_ok (reserved_end p kernel_end) [mk_region mem_base mem_size MB2_MEMORY_AVAILABLE]
    (pmm_init_range kernel_end p mem_base mem_size).
Proof using All.
  intros Hb Hs Hbs. unfold pmm_init_range.
  assert (frames_ok (reserved_end p kernel_end) [mk_region mem_base mem_size MB2_MEMORY_AVAILABLE]
    (mk_pmm (g_free_frames p) 0 (g_reserved_until p))) as H0 by (split; [by split|constructor|set_solver]).
  destruct (Z.eqb_spec mem_size 0); [done|].
  change (reserved_end (mk_pmm (g_free_frames p) 0 (g_reserved_until p)) kernel_end) with (reserved_end p kernel_end).
  pose proof (reserved_end_eq p kernel_end Hk Hru) as Hr. simpl in Hr. unfold EARLY_HEAP_SIZE in Hr.
  set (res := reserved_end p kernel_end) in *.
  set (lo := if mem_base <? res then res else mem_base).
  assert (lo = Z.max res mem_base) as Hlo by (unfold lo; case_if; lia).
  rewrite mm_align_up_4096 by (rewrite Hlo, Hr; zlia). rewrite u64_id by lia.
  set (start := (lo + 4095) / 4096 * 4096).
  assert (start mod 4096 = 0 /\ lo <= start < 2 ^ 63) as [Hs1 Hs2] by (unfold start; rewrite Hlo, Hr; zlia).
  set (p0 := mk_pmm _ _ _) in *.
  destruct (register_frames_ok (room p0) p0 start (mem_base + mem_size)) as (k & Hst & Hfr & Hk' & _);
    [apply H0|done|lia..|].
  split; [done| |].
  - rewrite Hfr. apply NoDup_frame_range.
  - intros f. rewrite Hfr. intros (i & Hi & ->)%elem_of_frame_range. unfold PMM_FRAME_SIZE in *.
    destruct Hk' as [->|Hk']; [lia|].
    split; [rewrite Z.add_mod, (Z.mul_comm 4096 i), Z_mod_mult, Hs1 by lia; done|]. split; [lia|].
    exists 0. eexists. split; [done|]. split; [done|]. simpl. unfold PMM_FRAME_SIZE. lia.
Qed.
End boot.

(** ** Allocation *)

Lemma alloc_frame_ok p : stack_ok p ->
  (free_frames p = [] /\ pmm_alloc_frame p = Ret (0, p)) \/
  (exists f l p', free_frames p = l ++ [f] /\ pmm_alloc_frame p = Ret (f, p') /\ stack_ok p' /\ free_frames p' = l).
Proof.
  intros [Hl Hc]. unfold pmm_alloc_frame. destruct (Z.eqb_spec (g_free_frame_count p) 0) as [Hz|Hz].
  { left. unfold free_frames. by rewrite Hz. }
  right. set (n := g_free_frame_count p - 1). destruct (get_Some (g_free_frames p) n) as (f & Hf); [lia|]. rewrite Hf.
  exists f, (take (Z.to_nat n) (g_free_frames p)), (mk_pmm (g_free_frames p) n (g_reserved_until p)).
  split; [|split; [done|split; [split; simpl; lia|done]]].
  unfold free_frames. replace (Z.to_nat (g_free_frame_count p)) with (S (Z.to_nat n)) by lia.
  apply take_S_r. unfold get in Hf. by case_if_in Hf; [lia|].
Qed.

Lemma is_run_ok n frames start base i :
  0 <= start -> 0 <= i -> start + i + Z.of_nat n <= zlength frames ->
  exists b, is_run n frames start base i = Ret b /\
    (b = true -> forall j, i <= j < i + Z.of_nat n -> frames .@ (start + j) = Some (u64 (base + u64 (j * PMM_FRAME_SIZE)))).
Proof.
  revert i. induction n as [|n IH]; intros i Hs Hi Hlen; cbn [is_run]; [exists true; split; [done|lia]|].
  destruct (get_Some frames (start + i)) as (f & Hf); [lia|]. rewrite Hf. case_if; [by exists false|].
  destruct (IH (i + 1)) as (b & E & Hb); [lia..|]. exists b. split; [done|]. intros Hbt j Hj.
  destruct (Z.eq_dec j i) as [->|]; [congruence|]. apply (Hb Hbt j). lia.
Qed.

Lemma shift_down_ok n frames tail count :
  0 < count <= tail -> tail + Z.of_nat n <= zlength frames ->
  exists frames', shift_down n frames tail count = Ret frames' /\ zlength frames' = zlength frames /\
    forall j, frames' .@ j = if (tail - count <=? j) && (j <? tail - count + Z.of_nat n) then frames .@ (j + count) else frames .@ j.
Proof.
  revert frames tail. induction n as [|n IH]; intros frames tail Hc Hlen; cbn [shift_down].
  { exists frames. split; [done|]. split; [done|]. intros j. case_if; [lia|done]. }
  destruct (get_Some frames tail) as (f & Hf); [lia|]. rewrite Hf.
  destruct (IH (set frames (tail - count) f) (tail + 1)) as (fr & E & Hl & Hg); [lia|rewrite zlength_set; lia|].
  exists fr. rewrite zlength_set in Hl. split; [done|]. split; [done|]. intros j. rewrite Hg.
  destruct (Z.eq_dec j (tail - count)) as [->|Hne].
  - destruct (Z.leb_spec (tail + 1 - count) (tail - count)); [lia|]. simpl. rewrite get_set_eq by lia.
    destruct (Z.leb_spec (tail - count) (tail - count)); [|lia].
    destruct (Z.ltb_spec (tail - count) (tail - count + Z.of_nat (S n))); [|lia]. simpl.
    by replace (tail - count + count) with tail by lia.
  - rewrite (get_set_ne _ (tail - count) j) by lia.
    destruct (Z.leb_spec (tail - count) j), (Z.leb_spec (tail + 1 - count) j); try lia; simpl; [|done].
    replace (tail + 1 - count + Z.of_nat n) with (tail - count + Z.of_nat (S n)) by lia.
    case_if; [|done]. rewrite get_set_ne by lia. done.
Qed.

Lemma list_eq_get {A} (l k : list A) : (forall j, 0 <= j -> l .@ j = k .@ j) -> l = k.
Proof.
  intros H. apply list_eq. intros i. specialize (H (Z.of_nat i)). unfold get in H. case_if_in H; [lia|].
  rewrite Nat2Z.id in H. apply H. lia.
Qed.

Lemma get_drop {A} (l : list A) n j : 0 <= n -> 0 <= j -> drop (Z.to_nat n) l .@ j = l .@ (n + j).
Proof.
  intros Hn Hj. unfold get. destruct (Z.ltb_spec j 0), (Z.ltb_spec (n + j) 0); try lia.
  rewrite lookup_drop. f_equal. lia.
Qed.

Definition small_frames (p : pmm) : Prop := forall f, f ∈ free_frames p -> 0 <= f < 2 ^ 62.

Lemma find_run_ok fuel p count start :
  stack_ok p -> small_frames p -> 0 < count -> 0 <= start -> g_free_frame_count p - start < Z.of_nat fuel ->
  exists b p', find_run fuel p count start = Ret (b, p') /\
    ((b = 0 /\ p' = p) \/
     (exists l1 l2, free_frames p = l1 ++ frame_range b (Z.to_nat count) ++ l2 /\ stack_ok p' /\ free_frames p' = l1 ++ l2)).
Proof.
  intros Hp Hsm Hc. pose proof Hp as [Hl Hcnt]. unfold PMM_MAX_FREE_FRAMES in *.
  revert start. induction fuel as [|fuel IH]; intros start Hs Hf; cbn [find_run].
  { case_if; [lia|]. exists 0, p. by split; [|left]. }
  destruct (Z.leb_spec (start + count) (g_free_frame_count p)) as [Hle|]; [|by exists 0, p; split; [|left]].
  destruct (get_Some (g_free_frames p) start) as (base & Hbase); [lia|]. rewrite Hbase.
  destruct (is_run_ok (Z.to_nat (count - 1)) (g_free_frames p) start base 1) as (b & Eb & Hb); [lia..|].
  rewrite Eb. simpl. destruct b; [|apply IH; lia]. specialize (Hb eq_refl).
  assert (forall j, free_frames p .@ j = if j <? g_free_frame_count p then g_free_frames p .@ j else None) as Hg
    by (intros j; apply get_take_lt; lia).
  assert (0 <= base < 2 ^ 62) as Hbr.
  { apply Hsm. apply (get_In _ start). rewrite Hg. case_if; [done|lia]. }
  assert (forall j, 0 <= j < count -> free_frames p .@ (start + j) = Some (base + PMM_FRAME_SIZE * j)) as Hrun.
  { intros j Hj. rewrite Hg. case_if; [|lia]. unfold PMM_FRAME_SIZE in *.
    destruct (Z.eq_dec j 0) as [->|]; [rewrite Z.add_0_r, Hbase; f_equal; lia|].
    rewrite Hb by lia. rewrite (u64_id (j * 4096)) by lia. rewrite u64_id by lia. f_equal. lia. }
  destruct (shift_down_ok (Z.to_nat (g_free_frame_count p - (start + count))) (g_free_frames p) (start + count) count)
    as (fr & Efr & Hlen & Hget); [lia|lia|]. rewrite Efr. simpl.
  eexists _, _. split; [done|]. right.
  exists (take (Z.to_nat start) (free_frames p)), (drop (Z.to_nat (start + count)) (free_frames p)).
  pose proof (free_frames_length p Hp) as Hfl.
  assert (zlength (take (Z.to_nat start) (free_frames p)) = start) as Hl1
    by (unfold zlength in *; rewrite length_take; lia).
  split; [|split; [split; simpl; unfold PMM_MAX_FREE_FRAMES; lia|]].
  - apply list_eq_get. intros j Hj. destruct (Z_lt_ge_dec j start).
    + rewrite get_app_l by lia. rewrite get_take_lt by lia. by case_if; [|lia].
    + rewrite get_app_r by lia. rewrite Hl1. destruct (Z_lt_ge_dec j (start + count)).
      * rewrite get_app_l by (unfold zlength; rewrite frame_range_length; lia).
        rewrite frame_range_get by lia. rewrite <- (Hrun (j - start)) by lia. f_equal. lia.
      * rewrite get_app_r by (unfold zlength; rewrite frame_range_length; lia).
        unfold zlength at 1. rewrite frame_range_length. rewrite get_drop by lia. f_equal. lia.
  - unfold free_frames at 1. simpl. apply list_eq_get. intros j Hj. rewrite get_take_lt by lia. rewrite Hget.
    destruct (Z_lt_ge_dec j start).
    + rewrite get_app_l by lia. rewrite get_take_lt by lia. rewrite Hg.
      destruct (Z.ltb_spec j (g_free_frame_count p - count)); [|lia].
      destruct (Z.leb_spec (start + count - count) j); [lia|]. simpl.
      destruct (Z.ltb_spec j start); [|lia]. by case_if; [|lia].
    + rewrite get_app_r by lia. rewrite Hl1, get_drop by lia. rewrite Hg.
      replace (start + count + (j - start)) with (j + count) by lia.
      destruct (Z.leb_spec (start + count - count) j); [|lia].
      destruct (Z.ltb_spec j (g_free_frame_count p - count)), (Z.ltb_spec (j + count) (g_free_frame_count p)); try lia; [|done].
      simpl. case_if; [done|lia].
Qed.

(** ** Ownership

    The runs of the allocator from an initial state, with the frames handed out. *)
Inductive owned_after (p0 : pmm) : pmm -> gset Z -> Prop :=
| oa_init : owned_after p0 p0 ∅
| oa_alloc p O f p' : owned_after p0 p O -> pmm_alloc_frame p = Ret (f, p') ->
    owned_after p0 p' (if f =? 0 then O else {[ f ]} ∪ O)
| oa_contiguous p O count f p' : owned_after p0 p O -> 0 <= count < 2 ^ 32 -> pmm_alloc_contiguous p count = Ret (f, p') ->
    owned_after p0 p' (if f =? 0 then O else list_to_set (frame_range f (Z.to_nat count)) ∪ O)
| oa_free p O f : owned_after p0 p O -> f ∈ O -> owned_after p0 (pmm_free_frame p f) (O ∖ {[ f ]}).

Record initial (p0 : pmm) : Prop := {
  in_stack : stack_ok p0;
  in_nodup : NoDup (free_frames p0);
  in_frames f : f ∈ free_frames p0 -> 0 < f < 2 ^ 62 }.

(** The frames handed out and the free ones are the initial frames. *)
Definition shared_out (p0 p : pmm) (O : gset Z) : Prop :=
  stack_ok p /\ free_frames p ++ elements O ≡ₚ free_frames p0.

Lemma shared_small p0 p O : initial p0 -> shared_out p0 p O -> small_frames p /\ 0 ∉ free_frames p.
Proof.
  intros [_ _ Hf] [_ Hperm].
  assert (forall f, f ∈ free_frames p -> 0 < f < 2 ^ 62) as H by (intros f Hin; apply Hf; rewrite <- Hperm; set_solver).
  split; [intros f Hin; specialize (H f Hin); lia|]. intros Hin. specialize (H 0 Hin). lia.
Qed.

Lemma contiguous_ok p0 p O count : initial p0 -> shared_out p0 p O -> 0 <= count ->
  exists f p', pmm_alloc_contiguous p count = Ret (f, p') /\
    ((f = 0 /\ p' = p) \/
     (f <> 0 /\ exists l1 l2, free_frames p = l1 ++ frame_range f (Z.to_nat count) ++ l2 /\ stack_ok p' /\ free_frames p' = l1 ++ l2)).
Proof.
  intros Hi Hsh Hc. destruct (shared_small _ _ _ Hi Hsh) as [Hsm H0]. unfold pmm_alloc_contiguous.
  case_if; [by exists 0, p; split; [|left]|]. pose proof Hsh as [[Hl Hcnt] _].
  destruct (find_run_ok (S (Z.to_nat (g_free_frame_count p))) p count 0) as (f & p' & E & Hcase); [by split|done|lia|lia|lia|].
  exists f, p'. split; [done|]. destruct Hcase as [?|(l1 & l2 & Hfr & Hst & Hfr')]; [by left|].
  right. split; [|by exists l1, l2]. intros ->. apply H0. rewrite Hfr.
  assert (0 ∈ frame_range 0 (Z.to_nat count)); [|set_solver]. apply elem_of_frame_range. exists 0. lia.
Qed.

Lemma elements_insert (f : Z) (O : gset Z) : f ∉ O -> elements ({[ f ]} ∪ O) ≡ₚ f :: elements O.
Proof. apply elements_union_singleton. Qed.

Lemma elements_union_list l (O : gset Z) : NoDup l -> (forall f, f ∈ l -> f ∉ O) ->
  elements (list_to_set l ∪ O) ≡ₚ l ++ elements O.
Proof.
  induction l as [|f l IH]; intros Hnd Hd; simpl; [by rewrite union_empty_l_L|].
  apply NoDup_cons in Hnd as [Hf Hnd]. rewrite <- union_assoc_L. rewrite elements_insert.
  - f_equiv. apply IH; [done|]. intros x Hx. apply Hd. set_solver.
  - rewrite elem_of_union, elem_of_list_to_set. intros [?|?]; [done|]. apply (Hd f); set_solver.
Qed.

Lemma owned_shared p0 p O : initial p0 -> owned_after p0 p O -> shared_out p0 p O.
Proof.
  intros Hi. induction 1 as [|p O f p' Ho IH E|p O count f p' Ho IH Hc E|p O f Ho IH Hf].
  - split; [apply Hi|]. by rewrite elements_empty, app_nil_r.
  - pose proof (shared_small _ _ _ Hi IH) as [_ H0]. destruct IH as [Hst Hperm].
    pose proof (in_nodup _ Hi) as Hnd. rewrite <- Hperm in Hnd. apply NoDup_app in Hnd as (Hnd1 & Hdis & _).
    destruct (alloc_frame_ok p Hst) as [[_ E']|(g & l & p1 & Hfr & E' & Hst' & Hl)]; rewrite E in E'; injection E' as -> ->; [done|].
    destruct (Z.eqb_spec g 0) as [->|Hg]; [exfalso; apply H0; rewrite Hfr; set_solver|]. split; [done|].
    assert (g ∉ O) by (rewrite <- elem_of_elements; apply Hdis; rewrite Hfr; set_solver).
    rewrite elements_insert by done. rewrite <- Hperm, Hfr, Hl. solve_Permutation.
  - destruct (contiguous_ok p0 p O count Hi IH) as (g & p1 & E' & Hcase); [lia|]. rewrite E in E'. injection E' as <- <-.
    destruct Hcase as [[-> ->]|(Hg & l1 & l2 & Hfr & Hst & Hfr')]; [done|]. destruct (Z.eqb_spec f 0); [done|].
    destruct IH as [_ Hperm]. pose proof (in_nodup _ Hi) as Hnd. rewrite <- Hperm in Hnd. apply NoDup_app in Hnd as (_ & Hdis & _).
    split; [done|]. rewrite elements_union_list; [rewrite <- Hperm, Hfr, Hfr'; solve_Permutation|apply NoDup_frame_range|].
    intros x Hx. rewrite <- elem_of_elements. apply Hdis. rewrite Hfr. set_solver.
  - destruct IH as [Hst Hperm]. assert (elements O ≡ₚ f :: elements (O ∖ {[f]})) as HO.
    { rewrite <- elements_insert by set_solver. f_equiv. by rewrite <- union_difference_singleton_L. }
    assert (f ∈ free_frames p0) as Hf0 by (rewrite <- Hperm; apply elem_of_app; right; by apply elem_of_elements).
    pose proof (in_frames _ Hi f Hf0). unfold pmm_free_frame. destruct (Z.eqb_spec f 0); [lia|]. simpl.
    assert (g_free_frame_count p < PMM_MAX_FREE_FRAMES) as Hlt.
    { rewrite <- (free_frames_length p) by done. pose proof (in_stack _ Hi) as Hst0.
      pose proof (free_frames_length p0 Hst0) as Hl0. pose proof (proj2 Hst0). rewrite HO in Hperm.
      apply Permutation_length in Hperm. rewrite length_app in Hperm. simpl in Hperm. unfold zlength in *. lia. }
    case_if; [lia|]. destruct (push_frame_ok p f Hst Hlt) as [Hst' Hfr]. split; [done|].
    rewrite Hfr, <- Hperm, HO. solve_Permutation.
Qed.

(** From an initial state of distinct frames, whatever sequence of allocations
    and releases of owned frames ran, the free and the owned frames together are
    exactly the initial ones: no frame is owned twice, lost or invented.  A
    single-frame allocation answers an unowned frame and fails only when all are
    owned; a contiguous one answers a base whose frames were all unowned; a
    released frame is the next one handed out. *)
Theorem pmm_ownership p0 p O :
  initial p0 -> owned_after p0 p O ->
  free_frames p ++ elements O ≡ₚ free_frames p0 /\
  (exists f p', pmm_alloc_frame p = Ret (f, p') /\
     ((f = 0 /\ forall x, x ∈ free_frames p0 -> x ∈ O) \/ (f ∈ free_frames p0 /\ f ∉ O))) /\
  (forall count, 0 <= count -> exists f p', pmm_alloc_contiguous p count = Ret (f, p') /\
     (f = 0 \/ forall i, 0 <= i < count -> f + PMM_FRAME_SIZE * i ∈ free_frames p0 /\ f + PMM_FRAME_SIZE * i ∉ O)) /\
  (forall f, f ∈ O -> exists p', pmm_alloc_frame (pmm_free_frame p f) = Ret (f, p') /\ free_frames p' = free_frames p).
Proof.
  intros Hi Ho. pose proof (owned_shared p0 p O Hi Ho) as Hsh. pose proof Hsh as [Hst Hperm]. split; [done|].
  pose proof (in_nodup _ Hi) as Hnd. rewrite <- Hperm in Hnd. apply NoDup_app in Hnd as (_ & Hdis & _).
  assert (forall f, f ∈ free_frames p -> f ∈ free_frames p0 /\ f ∉ O) as Hfree.
  { intros f Hf. split; [rewrite <- Hperm; set_solver|]. rewrite <- elem_of_elements. by apply Hdis. }
  split; [|split].
  - destruct (alloc_frame_ok p Hst) as [[Hem E]|(f & l & p' & Hfr & E & _)]; eexists _, _; (split; [done|]).
    + left. split; [done|]. intros x Hx. rewrite <- Hperm, Hem in Hx. by apply elem_of_elements.
    + right. apply Hfree. rewrite Hfr. set_solver.
  - intros count Hc. destruct (contiguous_ok p0 p O count Hi Hsh Hc) as (f & p' & E & H). exists f, p'. split; [done|].
    destruct H as [[-> _]|(_ & l1 & l2 & Hfr & _)]; [by left|]. right. intros i Hir. apply Hfree. rewrite Hfr.
    apply elem_of_app. right. apply elem_of_app. left. apply elem_of_frame_range. exists i. split; [lia|done].
  - intros f Hf. pose proof (owned_shared p0 _ _ Hi (oa_free p0 p O f Ho Hf)) as [Hst' Hperm'].
    assert (free_frames (pmm_free_frame p f) = free_frames p ++ [f]) as Hfr.
    { assert (f ∈ free_frames p0) as Hf0 by (rewrite <- Hperm; apply elem_of_app; right; by apply elem_of_elements).
      pose proof (in_frames _ Hi f Hf0). unfold pmm_free_frame in *. destruct (Z.eqb_spec f 0); [lia|]. simpl in *.
      case_if; [|by apply push_frame_ok; [done|lia]]. exfalso.
      assert (f ∉ free_frames p) by (intros Hin; by apply (Hfree f Hin)).
      assert (f ∈ free_frames p ++ elements (O ∖ {[f]})) as Hin by (by rewrite Hperm').
      apply elem_of_app in Hin as [?|Hin%elem_of_elements]; [done|set_solver]. }
    destruct (alloc_frame_ok _ Hst') as [[He _]|(g & l & p' & Hg & E & _ & Hl)]; rewrite Hfr in *; [by apply app_nil in He as []|].
    apply app_inj_tail in Hg as [<- <-]. by exists p'.
Qed.

(** Three frames above a kernel that ends at 1 MiB. *)
Definition sample_pmm : pmm := pmm_init_range 0x100000 (mk_pmm (replicate (Z.to_nat PMM_MAX_FREE_FRAMES) 0) 0 0) 0x900000 0x3000.

Lemma sample_frames : free_frames sample_pmm = [0x900000; 0x901000; 0x902000].
Proof. vm_compute. reflexivity. Qed.

Lemma sample_initial : initial sample_pmm.
Proof.
  assert (zlength (replicate (Z.to_nat PMM_MAX_FREE_FRAMES) 0) = PMM_MAX_FREE_FRAMES) as Hlen.
  { unfold zlength. by rewrite length_replicate. }
  pose proof (pmm_init_range_ok (mk_pmm (replicate (Z.to_nat PMM_MAX_FREE_FRAMES) 0) 0 0) 0x100000 Hlen ltac:(lia) ltac:(simpl; lia) 0x900000 0x3000
    ltac:(lia) ltac:(lia) ltac:(lia)) as [Hst Hnd _].
  split; [exact Hst|exact Hnd|]. rewrite sample_frames. clear. intros f Hf. set_solver by lia.
Qed.

Lemma sample_alloc : pmm_alloc_frame sample_pmm = Ret (0x902000, mk_pmm (g_free_frames sample_pmm) 2 (g_reserved_until sample_pmm)).
Proof.
  unfold pmm_alloc_frame. assert (g_free_frame_count sample_pmm = 3) as -> by (vm_compute; reflexivity).
  change (3 =? 0) with false. change (3 - 1) with 2. cbv iota zeta.
  assert (g_free_frames sample_pmm .@ 2 = Some 0x902000) as E by (vm_compute; reflexivity). rewrite E. reflexivity.
Qed.

Lemma pmm_ownership_witness :
  exists p', pmm_alloc_frame sample_pmm = Ret (0x902000, p') /\
    free_frames p' ++ elements (if 0x902000 =? 0 then ∅ else {[ 0x902000 ]} ∪ (∅ : gset Z)) ≡ₚ free_frames sample_pmm.
Proof.
  eexists. split; [exact sample_alloc|].
  apply (pmm_ownership sample_pmm); [exact sample_initial|]. eapply oa_alloc; [apply oa_init|exact sample_alloc].
Defined.
End Pmm.
