(* ===== verification/Tinflate.v ===== *)
(** * The DEFLATE decompressor

    [kernel/initramfs/tinflate.c].  The compressed bytes are a read-only image and
    the source pointers offsets into it; the output buffer is a list of bytes
    whose first byte is [dest_start].  Every function answers its C result and the
    new state, so that what an error leaves behind is modelled too; a read or
    write outside a buffer or an array is a [Fault].  The arrays the C code leaves
    uninitialised ([symbols], the code lengths) start with arbitrary contents that
    are arguments here. *)

From Stdlib Require Import Strings.Byte.
From S2P Require Import Prelude Status Bytes.

Module Tinflate.

Definition TINFLATE_OK : Z := 0.
Definition TINFLATE_INVALID_DATA : Z := -1.
Definition TINFLATE_OUTPUT_OVERFLOW : Z := -2.

Record tinf_tree := mk_tree { counts : list Z; symbols : list Z; max_sym : Z }.

Record tinf_data := mk_data {
  source : Z;
  source_end : Z;
  tag : Z;
  bitcount : Z;
  overflow : bool;
  dest : Z;
  dest_end : Z;
  out : list byte;
  ltree : tinf_tree;
  dtree : tinf_tree }.

(** ** Field updates *)

Definition set_bits (d : tinf_data) (source tag bitcount : Z) (overflow : bool) : tinf_data :=
  mk_data source (source_end d) tag bitcount overflow (dest d) (dest_end d) (out d) (ltree d) (dtree d).

Definition set_out (d : tinf_data) (dest : Z) (out : list byte) : tinf_data :=
  mk_data (source d) (source_end d) (tag d) (bitcount d) (overflow d) dest (dest_end d) out (ltree d) (dtree d).

Definition set_trees (d : tinf_data) (lt dt : tinf_tree) : tinf_data :=
  mk_data (source d) (source_end d) (tag d) (bitcount d) (overflow d) (dest d) (dest_end d) (out d) lt dt.

(** An array access; outside the array it is undefined. *)
Definition at_ {A} (l : list A) (i : Z) : outcome A :=
  match l .@ i with Some x => Ret x | None => Fault end.

Definition store {A} (l : list A) (i : Z) (x : A) : outcome (list A) :=
  match l .@ i with Some _ => Ret (set l i x) | None => Fault end.

(** ** Checksum *)

Definition read_le16 (m : memory) (p : Z) : outcome Z :=
  b0 ← read_u8 m p;
  b1 ← read_u8 m (p + 1);
  Ret (Z.lor b0 (Z.shiftl b1 8)).

Definition read_le32 (m : memory) (p : Z) : outcome Z :=
  b0 ← read_u8 m p;
  b1 ← read_u8 m (p + 1);
  b2 ← read_u8 m (p + 2);
  b3 ← read_u8 m (p + 3);
  Ret (Z.lor (Z.lor (Z.lor b0 (Z.shiftl b1 8)) (Z.shiftl b2 16)) (Z.shiftl b3 24)).

Definition tinf_crc32tab : list Z :=
  [0x00000000; 0x1DB71064; 0x3B6E20C8; 0x26D930AC; 0x76DC4190; 0x6B6B51F4; 0x4DB26158; 0x5005713C;
   0xEDB88320; 0xF00F9344; 0xD6D6A3E8; 0xCB61B38C; 0x9B64C2B0; 0x86D3D2D4; 0xA00AE278; 0xBDBDF21C].

(** [crc = tinf_crc32tab[crc & 0x0F] ^ (crc >> 4)]. *)
Definition crc_nibble (crc : Z) : outcome Z :=
  t ← at_ tinf_crc32tab (Z.land crc 0x0F);
  Ret (Z.lxor t (Z.shiftr crc 4)).

Fixpoint crc_loop (n : nat) (m : memory) (p crc : Z) : outcome Z :=
  match n with
  | O => Ret crc
  | S n =>
    b ← read_u8 m p;
    crc ← crc_nibble (Z.lxor crc b);
    crc ← crc_nibble crc;
    crc_loop n m (p + 1) crc
  end.

Definition tinf_crc32 (m : memory) (p length : Z) : outcome Z :=
  if length =? 0 then Ret 0 else
  crc ← crc_loop (Z.to_nat length) m p 0xFFFFFFFF;
  Ret (Z.lxor crc 0xFFFFFFFF).

(** ** Trees *)

(** [for (i = 0; i < n; ++i) symbols[at + i] = first + i]. *)
Fixpoint fill_symbols (n : nat) (symbols : list Z) (at_ first : Z) : outcome (list Z) :=
  match n with
  | O => Ret symbols
  | S n => symbols ← store symbols at_ (u16 first); fill_symbols n symbols (at_ + 1) (first + 1)
  end.

Definition tinf_build_fixed_trees (lt dt : tinf_tree) : outcome (tinf_tree * tinf_tree) :=
  let lcounts := set (set (set (replicate 16 0) 7 24) 8 152) 9 112 in
  lsym ← fill_symbols 24 (symbols lt) 0 256;
  lsym ← fill_symbols 144 lsym 24 0;
  lsym ← fill_symbols 8 lsym (24 + 144) 280;
  lsym ← fill_symbols 112 lsym (24 + 144 + 8) 144;
  dsym ← fill_symbols 32 (symbols dt) 0 0;
  Ret (mk_tree lcounts lsym 285, mk_tree (set (replicate 16 0) 5 32) dsym 29).

(** The code lengths are counted; the answer is false when one is larger than 15. *)
Fixpoint count_lengths (n : nat) (i : Z) (lengths : list Z) (t : tinf_tree) : outcome (bool * tinf_tree) :=
  match n with
  | O => Ret (true, t)
  | S n =>
    l ← at_ lengths i;
    if 15 <? l then Ret (false, t) else
    if negb (l =? 0) then
      c ← at_ (counts t) l;
      count_lengths n (i + 1) lengths (mk_tree (set (counts t) l (u16 (c + 1))) (symbols t) i)
    else count_lengths n (i + 1) lengths t
  end.

(** The offset of each length in the sorted symbols, with the final [available]
    and [num_codes]; [None] when a length has too many codes. *)
Fixpoint compute_offsets (counts : list Z) (available num_codes : Z) : option (list Z * Z * Z) :=
  match counts with
  | [] => Some ([], available, num_codes)
  | used :: counts =>
    if available <? used then None else
    match compute_offsets counts (u32 (2 * (available - used))) (u32 (num_codes + used)) with
    | Some (offs, a, n) => Some (u16 num_codes :: offs, a, n)
    | None => None
    end
  end.

Fixpoint sort_symbols (n : nat) (i : Z) (lengths offs symbols : list Z) : outcome (list Z) :=
  match n with
  | O => Ret symbols
  | S n =>
    l ← at_ lengths i;
    if negb (l =? 0) then
      o ← at_ offs l;
      symbols ← store symbols o (u16 i);
      sort_symbols n (i + 1) lengths (set offs l (u16 (o + 1))) symbols
    else sort_symbols n (i + 1) lengths offs symbols
  end.

Definition tinf_build_tree (t : tinf_tree) (lengths : list Z) (num : Z) : outcome (Z * tinf_tree) :=
  let t := mk_tree (replicate 16 0) (symbols t) (-1) in
  '(counted, t) ← count_lengths (Z.to_nat num) 0 lengths t;
  if negb counted then Ret (TINFLATE_INVALID_DATA, t) else
  match compute_offsets (counts t) 1 0 with
  | None => Ret (TINFLATE_INVALID_DATA, t)
  | Some (offs, available, num_codes) =>
    c1 ← at_ (counts t) 1;
    if ((1 <? num_codes) && (0 <? available)) || ((num_codes =? 1) && negb (c1 =? 1))
    then Ret (TINFLATE_INVALID_DATA, t) else
    sym ← sort_symbols (Z.to_nat num) 0 lengths offs (symbols t);
    if num_codes =? 1 then
      sym ← store sym 1 (u16 (max_sym t + 1));
      Ret (TINFLATE_OK, mk_tree (set (counts t) 1 2) sym (max_sym t))
    else Ret (TINFLATE_OK, mk_tree (counts t) sym (max_sym t))
  end.

(** ** Bits *)

Fixpoint refill_loop (fuel : nat) (src : memory) (d : tinf_data) (num : Z) : outcome tinf_data :=
  if bitcount d <? num then
    match fuel with
    | O => NoFuel
    | S fuel =>
      d ← (if negb (source d =? source_end d) then
             b ← read_u8 src (source d);
             Ret (set_bits d (source d + 1) (Z.lor (tag d) (u32 (Z.shiftl b (bitcount d)))) (bitcount d + 8) (overflow d))
           else Ret (set_bits d (source d) (tag d) (bitcount d + 8) true));
      refill_loop fuel src d num
    end
  else Ret d.

(** At most 13 bits are asked for: two bytes. *)
Definition tinf_refill (src : memory) (d : tinf_data) (num : Z) : outcome tinf_data := refill_loop 2 src d num.

Definition tinf_getbits_no_refill (d : tinf_data) (num : Z) : Z * tinf_data :=
  (Z.land (tag d) (Z.shiftl 1 num - 1), set_bits d (source d) (Z.shiftr (tag d) num) (bitcount d - num) (overflow d)).

Definition tinf_getbits (src : memory) (d : tinf_data) (num : Z) : outcome (Z * tinf_data) :=
  d ← tinf_refill src d num; Ret (tinf_getbits_no_refill d num).

Definition tinf_getbits_base (src : memory) (d : tinf_data) (num base : Z) : outcome (Z * tinf_data) :=
  if num =? 0 then Ret (base, d) else '(v, d) ← tinf_getbits src d num; Ret (base + v, d).

(** The loop leaves at length 16 at the latest. *)
Fixpoint decode_loop (n : nat) (src : memory) (d : tinf_data) (t : tinf_tree) (len base offs : Z) : outcome (Z * tinf_data) :=
  match n with
  | O => NoFuel
  | S n =>
    '(b, d) ← tinf_getbits src d 1;
    let offs := 2 * offs + b in
    if 15 <? len then Ret (-1, d) else
    c ← at_ (counts t) len;
    if offs <? c then s ← at_ (symbols t) (base + offs); Ret (s, d)
    else decode_loop n src d t (len + 1) (base + c) (offs - c)
  end.

Definition tinf_decode_symbol (src : memory) (d : tinf_data) (t : tinf_tree) : outcome (Z * tinf_data) :=
  decode_loop 16 src d t 1 0 0.

(** ** Dynamic trees *)

Definition clcidx : list Z := [16; 17; 18; 0; 8; 7; 9; 6; 10; 5; 11; 4; 12; 3; 13; 2; 14; 1; 15].

Fixpoint clear_lengths (n : nat) (i : Z) (lengths : list Z) : outcome (list Z) :=
  match n with
  | O => Ret lengths
  | S n => lengths ← store lengths i 0; clear_lengths n (i + 1) lengths
  end.

Fixpoint read_code_lengths (n : nat) (i : Z) (src : memory) (d : tinf_data) (lengths : list Z)
  : outcome (list Z * tinf_data) :=
  match n with
  | O => Ret (lengths, d)
  | S n =>
    k ← at_ clcidx i;
    '(v, d) ← tinf_getbits src d 3;
    lengths ← store lengths k (u8 v);
    read_code_lengths n (i + 1) src d lengths
  end.

(** [while (length-- != 0) lengths[num++] = sym]. *)
Fixpoint put_lengths (n : nat) (num sym : Z) (lengths : list Z) : outcome (list Z) :=
  match n with
  | O => Ret lengths
  | S n => lengths ← store lengths num (u8 sym); put_lengths n (num + 1) sym lengths
  end.

(** The symbol to repeat and how often; [None] when there is nothing to repeat. *)
Definition run_of_symbol (src : memory) (d : tinf_data) (lengths : list Z) (num sym : Z)
  : outcome (option (Z * Z) * tinf_data) :=
  if sym =? 16 then
    if num =? 0 then Ret (None, d) else
    prev ← at_ lengths (num - 1);
    '(length, d) ← tinf_getbits_base src d 2 3;
    Ret (Some (prev, length), d)
  else if sym =? 17 then
    '(length, d) ← tinf_getbits_base src d 3 3; Ret (Some (0, length), d)
  else if sym =? 18 then
    '(length, d) ← tinf_getbits_base src d 7 11; Ret (Some (0, length), d)
  else Ret (Some (sym, 1), d).

(** The lengths of the literal and distance codes; [total] is [hlit + hdist].
    Every round stores at least one length. *)
Fixpoint read_lengths (fuel : nat) (src : memory) (d : tinf_data) (lt : tinf_tree) (lengths : list Z) (num total : Z)
  : outcome (Z * list Z * tinf_data) :=
  if num <? total then
    match fuel with
    | O => NoFuel
    | S fuel =>
      '(sym, d) ← tinf_decode_symbol src d lt;
      if (sym <? 0) || (max_sym lt <? sym) then Ret (TINFLATE_INVALID_DATA, lengths, d) else
      '(run, d) ← run_of_symbol src d lengths num sym;
      match run with
      | None => Ret (TINFLATE_INVALID_DATA, lengths, d)
      | Some (sym, length) =>
        if total - num <? length then Ret (TINFLATE_INVALID_DATA, lengths, d) else
        lengths ← put_lengths (Z.to_nat length) num sym lengths;
        read_lengths fuel src d lt lengths (num + length) total
      end
    end
  else Ret (TINFLATE_OK, lengths, d).

(** [lengths] is the uninitialised array of the C function. *)
Definition tinf_decode_trees (src : memory) (d : tinf_data) (lengths : list Z) : outcome (Z * tinf_data) :=
  '(hlit, d) ← tinf_getbits_base src d 5 257;
  '(hdist, d) ← tinf_getbits_base src d 5 1;
  '(hclen, d) ← tinf_getbits_base src d 4 4;
  if (286 <? hlit) || (30 <? hdist) then Ret (TINFLATE_INVALID_DATA, d) else
  lengths ← clear_lengths 19 0 lengths;
  '(lengths, d) ← read_code_lengths (Z.to_nat hclen) 0 src d lengths;
  '(res, lt) ← tinf_build_tree (ltree d) lengths 19;
  let d := set_trees d lt (dtree d) in
  if negb (res =? TINFLATE_OK) then Ret (res, d) else
  if max_sym lt =? -1 then Ret (TINFLATE_INVALID_DATA, d) else
  '(res, lengths, d) ← read_lengths (Z.to_nat (hlit + hdist)) src d lt lengths 0 (hlit + hdist);
  if negb (res =? TINFLATE_OK) then Ret (res, d) else
  l256 ← at_ lengths 256;
  if l256 =? 0 then Ret (TINFLATE_INVALID_DATA, d) else
  '(res, lt) ← tinf_build_tree (ltree d) lengths hlit;
  let d := set_trees d lt (dtree d) in
  if negb (res =? TINFLATE_OK) then Ret (res, d) else
  '(res, dt) ← tinf_build_tree (dtree d) (drop (Z.to_nat hlit) lengths) hdist;
  Ret (res, set_trees d (ltree d) dt).

(** ** Blocks *)

Definition length_bits : list Z :=
  [0; 0; 0; 0; 0; 0; 0; 0; 1; 1; 1; 1; 2; 2; 2; 2; 3; 3; 3; 3; 4; 4; 4; 4; 5; 5; 5; 5; 0; 127].
Definition length_base : list Z :=
  [3; 4; 5; 6; 7; 8; 9; 10; 11; 13; 15; 17; 19; 23; 27; 31; 35; 43; 51; 59; 67; 83; 99; 115; 131; 163; 195; 227; 258; 0].
Definition dist_bits : list Z :=
  [0; 0; 0; 0; 1; 1; 2; 2; 3; 3; 4; 4; 5; 5; 6; 6; 7; 7; 8; 8; 9; 9; 10; 10; 11; 11; 12; 12; 13; 13].
Definition dist_base : list Z :=
  [1; 2; 3; 4; 5; 7; 9; 13; 17; 25; 33; 49; 65; 97; 129; 193; 257; 385; 513; 769; 1025; 1537; 2049; 3073; 4097; 6145;
   8193; 12289; 16385; 24577].

(** [for (i = 0; i < length; ++i) d->dest[i] = d->dest[i - offs]]. *)
Fixpoint copy_match (n : nat) (out : list byte) (dest offs : Z) : outcome (list byte) :=
  match n with
  | O => Ret out
  | S n =>
    b ← at_ out (dest - offs);
    out ← store out dest b;
    copy_match n out (dest + 1) offs
  end.

(** A match: [sym] is the length symbol.  [inl] is an error. *)
Definition inflate_match (src : memory) (d : tinf_data) (sym : Z) : outcome ((Z + unit) * tinf_data) :=
  if (max_sym (ltree d) <? sym) || (28 <? sym - 257) || (max_sym (dtree d) =? -1)
  then Ret (inl TINFLATE_INVALID_DATA, d) else
  let sym := sym - 257 in
  lbits ← at_ length_bits sym;
  lbase ← at_ length_base sym;
  '(length, d) ← tinf_getbits_base src d lbits lbase;
  '(dist, d) ← tinf_decode_symbol src d (dtree d);
  if (dist <? 0) || (max_sym (dtree d) <? dist) || (29 <? dist) then Ret (inl TINFLATE_INVALID_DATA, d) else
  dbits ← at_ dist_bits dist;
  dbase ← at_ dist_base dist;
  '(offs, d) ← tinf_getbits_base src d dbits dbase;
  if i32 (dest d) <? offs then Ret (inl TINFLATE_INVALID_DATA, d) else
  if i32 (dest_end d - dest d) <? length then Ret (inl TINFLATE_OUTPUT_OVERFLOW, d) else
  out ← copy_match (Z.to_nat length) (out d) (dest d) offs;
  Ret (inr tt, set_out d (dest d + length) out).

(** The loop takes a bit of input in every round. *)
Fixpoint block_loop (fuel : nat) (src : memory) (d : tinf_data) : outcome (Z * tinf_data) :=
  match fuel with
  | O => NoFuel
  | S fuel =>
    '(sym, d) ← tinf_decode_symbol src d (ltree d);
    if overflow d then Ret (TINFLATE_INVALID_DATA, d) else
    if sym <? 256 then
      if dest d =? dest_end d then Ret (TINFLATE_OUTPUT_OVERFLOW, d) else
      out ← store (out d) (dest d) (byte_of_Z sym);
      block_loop fuel src (set_out d (dest d + 1) out)
    else if sym =? 256 then Ret (TINFLATE_OK, d)
    else
      '(res, d) ← inflate_match src d sym;
      match res with
      | inl e => Ret (e, d)
      | inr _ => block_loop fuel src d
      end
  end.

Definition bit_fuel (src : memory) : nat := 8 * length src + 9.

Definition tinf_inflate_block_data (src : memory) (d : tinf_data) : outcome (Z * tinf_data) :=
  block_loop (bit_fuel src) src d.

Fixpoint copy_stored (n : nat) (src : memory) (d : tinf_data) : outcome tinf_data :=
  match n with
  | O => Ret d
  | S n =>
    b ← at_ src (source d);
    out ← store (out d) (dest d) b;
    copy_stored n src (set_out (set_bits d (source d + 1) (tag d) (bitcount d) (overflow d)) (dest d + 1) out)
  end.

Definition tinf_inflate_uncompressed_block (src : memory) (d : tinf_data) : outcome (Z * tinf_data) :=
  if u32 (source_end d - source d) <? 4 then Ret (TINFLATE_INVALID_DATA, d) else
  length ← read_le16 src (source d);
  invlength ← read_le16 src (source d + 2);
  if negb (length =? Z.land (u32 (Z.lnot invlength)) 0x0000FFFF) then Ret (TINFLATE_INVALID_DATA, d) else
  let d := set_bits d (source d + 4) (tag d) (bitcount d) (overflow d) in
  if u32 (source_end d - source d) <? length then Ret (TINFLATE_INVALID_DATA, d) else
  if u32 (dest_end d - dest d) <? length then Ret (TINFLATE_OUTPUT_OVERFLOW, d) else
  d ← copy_stored (Z.to_nat length) src d;
  Ret (TINFLATE_OK, set_bits d (source d) 0 0 (overflow d)).

(** The body of one block of type [btype]. *)
Definition inflate_block (src : memory) (lengths : list Z) (d : tinf_data) (btype : Z) : outcome (Z * tinf_data) :=
  if btype =? 0 then tinf_inflate_uncompressed_block src (set_bits d (source d) 0 0 (overflow d))
  else if btype =? 1 then
    '(lt, dt) ← tinf_build_fixed_trees (ltree d) (dtree d);
    tinf_inflate_block_data src (set_trees d lt dt)
  else if btype =? 2 then
    '(res, d) ← tinf_decode_trees src d lengths;
    if res =? TINFLATE_OK then tinf_inflate_block_data src d else Ret (res, d)
  else Ret (TINFLATE_INVALID_DATA, d).

Fixpoint blocks_loop (fuel : nat) (src : memory) (lengths : list Z) (d : tinf_data) : outcome (Z * tinf_data) :=
  match fuel with
  | O => NoFuel
  | S fuel =>
    '(bfinal, d) ← tinf_getbits src d 1;
    '(btype, d) ← tinf_getbits src d 2;
    '(res, d) ← inflate_block src lengths d btype;
    if negb (res =? TINFLATE_OK) then Ret (res, d) else
    if bfinal =? 0 then blocks_loop fuel src lengths d else Ret (TINFLATE_OK, d)
  end.

(** The uninitialised parts of the state on the C stack. *)
Record junk := mk_junk { jk_ltree : tinf_tree; jk_dtree : tinf_tree; jk_lengths : list Z }.

(** The result, the output buffer and [*dest_len]. *)
Definition tinf_uncompress (j : junk) (src : memory) (start source_len : Z) (dst : list byte) (dest_len : Z)
  : outcome (Z * list byte * Z) :=
  let d := mk_data start (start + source_len) 0 0 false 0 dest_len dst (jk_ltree j) (jk_dtree j) in
  '(res, d) ← blocks_loop (bit_fuel src) src (jk_lengths j) d;
  Ret (res, out d, if res =? TINFLATE_OK then u32 (dest d) else dest_len).

(** ** gzip *)

(** [do { if (start - src >= source_len) return error; } while ( *start++ != 0)]. *)
Fixpoint skip_text (fuel : nat) (src : memory) (start source_len : Z) : outcome (option Z) :=
  if source_len <=? u32 start then Ret None else
  match fuel with
  | O => NoFuel
  | S fuel =>
    b ← read_u8 src start;
    if b =? 0 then Ret (Some (start + 1)) else skip_text fuel src (start + 1) source_len
  end.

(** The end of the gzip header, or [None] when it is invalid. *)
Definition gzip_header (src : memory) (source_len flg : Z) : outcome (option Z) :=
  let start := 10 in
  extra ← (if flag_set flg 4 then
             xlen ← read_le16 src start;
             if source_len - 12 <? xlen then Ret None else Ret (Some (start + (xlen + 2)))
           else Ret (Some start));
  match extra with
  | None => Ret None
  | Some start =>
    name ← (if flag_set flg 8 then skip_text (length src) src start source_len else Ret (Some start));
    match name with
    | None => Ret None
    | Some start =>
      comment ← (if flag_set flg 16 then skip_text (length src) src start source_len else Ret (Some start));
      match comment with
      | None => Ret None
      | Some start =>
        if flag_set flg 2 then
          if source_len - 2 <? u32 start then Ret None else
          hcrc ← read_le16 src start;
          crc ← tinf_crc32 src 0 (u32 start);
          if negb (hcrc =? Z.land crc 0x0000FFFF) then Ret None else Ret (Some (start + 2))
        else Ret (Some start)
      end
    end
  end.

Definition tinf_gzip_uncompress (j : junk) (src : memory) (source_len : Z) (dst : list byte) (dest_len : Z)
  : outcome (Z * list byte * Z) :=
  let invalid := Ret (TINFLATE_INVALID_DATA, dst, dest_len) in
  if source_len <? 18 then invalid else
  b0 ← read_u8 src 0;
  b1 ← read_u8 src 1;
  if negb (b0 =? 0x1F) || negb (b1 =? 0x8B) then invalid else
  b2 ← read_u8 src 2;
  if negb (b2 =? 8) then invalid else
  flg ← read_u8 src 3;
  if flag_set flg 0xE0 then invalid else
  header ← gzip_header src source_len flg;
  match header with
  | None => invalid
  | Some start =>
    dlen ← read_le32 src (source_len - 4);
    crc32 ← read_le32 src (source_len - 8);
    if dest_len <? dlen then Ret (TINFLATE_OUTPUT_OVERFLOW, dst, dest_len) else
    if u32 (source_len - start) <? 8 then invalid else
    '(res, dst, dest_len) ← tinf_uncompress j src start (u32 (source_len - start - 8)) dst dest_len;
    if negb (res =? TINFLATE_OK) then Ret (res, dst, dest_len) else
    if negb (dest_len =? dlen) then Ret (TINFLATE_INVALID_DATA, dst, dest_len) else
    crc ← tinf_crc32 dst 0 dlen;
    if negb (crc32 =? crc) then Ret (TINFLATE_INVALID_DATA, dst, dest_len) else
    Ret (TINFLATE_OK, dst, dest_len)
  end.

(** The result, the output buffer and [*out_len].  The pointers are not [NULL]. *)
Definition tinflate_decompress (j : junk) (src : memory) (dst : list byte) : outcome (Z * list byte * Z) :=
  let dst_len := zlength dst in
  gzip ← (if 2 <=? zlength src then
            b0 ← read_u8 src 0; b1 ← read_u8 src 1; Ret ((b0 =? 0x1F) && (b1 =? 0x8B))
          else Ret false);
  if (gzip : bool) then tinf_gzip_uncompress j src (zlength src) dst dst_len
  else tinf_uncompress j src 0 (zlength src) dst dst_len.

End Tinflate.
