(* ===== verification/Huffman.v ===== *)
(** * Bits and Huffman codes of the decompressor

    The bit reader of [tinflate.c] as a reader of a list of bits, and its trees
    against the canonical prefix codes of RFC 1951 (section 3.2.2): which code
    lengths [tinf_build_tree] accepts, and what [tinf_decode_symbol] decodes. *)

From Stdlib Require Import Strings.Byte.
From S2P Require Import Prelude Status Bytes Tinflate.
Import Tinflate.

Module Huffman.

(** ** Bits *)

(** The [n] low bits of [v], least significant first. *)
Definition bits_of (v : Z) (n : nat) : list bool := (fun i => Z.testbit v (Z.of_nat i)) <$> seq 0 n.

Definition byte_bits (b : byte) : list bool := bits_of (byte_Z b) 8.

(** The bits a decoder has still to read. *)
Definition stream (src : memory) (d : tinf_data) : list bool :=
  bits_of (tag d) (Z.to_nat (bitcount d)) ++
  concat (byte_bits <$> chars src (source d) (source_end d - source d)).

Lemma length_bits_of v n : length (bits_of v n) = n.
Proof. unfold bits_of. by rewrite length_fmap, length_seq. Qed.

Lemma bits_of_lookup v n i : (i < n)%nat -> bits_of v n !! i = Some (Z.testbit v (Z.of_nat i)).
Proof. intros Hi. unfold bits_of. rewrite list_lookup_fmap, lookup_seq_lt by done. done. Qed.

Lemma bits_of_S v n : bits_of v (S n) = bits_of v n ++ [Z.testbit v (Z.of_nat n)].
Proof. unfold bits_of. by rewrite seq_S, fmap_app. Qed.

Lemma bits_of_app a b n m : 0 <= a < 2 ^ Z.of_nat n -> bits_of (a + b * 2 ^ Z.of_nat n) (n + m) = bits_of a n ++ bits_of b m.
Proof.
  intros Ha. unfold bits_of. rewrite seq_app, fmap_app. f_equal.
  - apply list_fmap_ext. intros i x Hx%list_elem_of_lookup_2%elem_of_seq.
    rewrite <- (Z.mod_pow2_bits_low (a + _) (Z.of_nat n)) by lia. rewrite Z_mod_plus_full, Z.mod_small by lia. done.
  - replace (seq (0 + n) m) with (seq (n + 0) m) by (f_equal; lia). rewrite <- (fmap_add_seq n 0 m), <- list_fmap_compose. apply list_fmap_ext. intros i x _. simpl.
    replace (Z.of_nat (n + x)) with (Z.of_nat x + Z.of_nat n) by lia. rewrite <- Z.div_pow2_bits by lia.
    f_equal. rewrite Z.div_add, Z.div_small by lia. lia.
Qed.

Lemma chars_cons (m : memory) p n b : 0 <= p -> 0 < n -> m .@ p = Some b -> chars m p n = b :: chars m (p + 1) (n - 1).
Proof.
  intros Hp Hn Hb. unfold chars, get in *. case_if_in Hb; [lia|].
  rewrite (drop_S m b) by done. replace (Z.to_nat n) with (S (Z.to_nat (n - 1))) by lia. simpl.
  by replace (Z.to_nat (p + 1)) with (S (Z.to_nat p)) by lia.
Qed.

(** The part of the decoder state that belongs to the bit reader. *)
Record bits_ok (src : memory) (d : tinf_data) : Prop := {
  bo_source : 0 <= source d <= source_end d;
  bo_end : source_end d <= zlength src;
  bo_count : 0 <= bitcount d < 8;
  bo_tag : 0 <= tag d < 2 ^ bitcount d;
  bo_overflow : overflow d = true -> source d = source_end d }.

(** [d'] differs from [d] in the bit reader only, which has moved on. *)
Definition read_on (d d' : tinf_data) : Prop :=
  d' = set_bits d (source d') (tag d') (bitcount d') (overflow d') /\ source d <= source d' /\
  (overflow d = true -> overflow d' = true).

#[global] Instance read_on_preorder : PreOrder read_on.
Proof.
  split.
  - intros []. by split.
  - intros d1 d2 d3 (H1 & ? & Ho1) (H2 & ? & Ho2). split; [|split; [lia|auto]].
    rewrite H2 at 1. rewrite H1 at 1. done.
Qed.

(** What the bits left in the tag and one more byte make. *)
Lemma tag_next t n b : 0 <= n <= 13 -> 0 <= t < 2 ^ n -> 0 <= b < 256 ->
  Z.lor t (u32 (Z.shiftl b n)) = t + b * 2 ^ n /\ 0 <= t + b * 2 ^ n < 2 ^ (n + 8).
Proof.
  intros Hn Ht Hb. pose proof (Z.pow_pos_nonneg 2 n). pose proof (Z.pow_le_mono_r 2 n 13).
  rewrite Z.pow_add_r by lia. change (2 ^ 8) with 256. change (2 ^ 13) with 8192 in *.
  rewrite u32_id by (rewrite Z.shiftl_mul_pow2 by lia; nia).
  rewrite Z.lor_comm, lor_shiftl_add by lia. split; [lia|nia].
Qed.

(** The reader in the middle of a refill, with up to 20 bits. *)
Record refilling (src : memory) (d : tinf_data) : Prop := {
  rf_source : 0 <= source d <= source_end d;
  rf_end : source_end d <= zlength src;
  rf_count : 0 <= bitcount d;
  rf_tag : 0 <= tag d < 2 ^ bitcount d;
  rf_overflow : overflow d = true -> source d = source_end d }.

Lemma refill_loop_ok fuel src d num :
  refilling src d -> 0 <= num <= 13 -> num <= bitcount d + 8 * Z.of_nat fuel ->
  exists d', refill_loop fuel src d num = Ret d' /\ refilling src d' /\ read_on d d' /\
    num <= bitcount d' /\ bitcount d' < Z.max (bitcount d + 1) (num + 8) /\
    (overflow d' = false -> stream src d' = stream src d) /\
    (overflow d' = true -> overflow d = true \/ Z.of_nat (length (stream src d)) < num).
Proof.
  revert d. induction fuel as [|fuel IH]; intros d Hd Hn Hf; cbn [refill_loop]; pose proof Hd as [Hs He Hc Ht Ho].
  all: destruct (Z.ltb_spec (bitcount d) num) as [Hlt|Hge];
    [|exists d; split; [done|]; split; [done|]; split; [done|]; repeat split; auto; lia].
  { lia. }
  destruct (Z.eqb_spec (source d) (source_end d)) as [Heq|Hne]; simpl.
  - set (d1 := set_bits d (source d) (tag d) (bitcount d + 8) true).
    destruct (IH d1) as (d' & E & Hd' & Hro & Hn' & Hb' & _ & _); [|done|simpl; lia|].
    { split; simpl; try done; [lia|]. rewrite Z.pow_add_r by lia. lia. }
    assert (overflow d' = true) as Hov by (by apply Hro).
    exists d'. split; [done|]. split; [done|]. split; [|split; [done|split; [simpl in *; lia|]]].
    + transitivity d1; [|done]. by split; [destruct d|].
    + rewrite Hov. split; [done|]. intros _. right. unfold stream. rewrite Heq, Z.sub_diag. unfold chars. simpl.
      rewrite app_nil_r, length_bits_of. lia.
  - destruct (get_Some src (source d)) as (b & Hb); [lia|]. unfold read_u8. rewrite Hb. simpl.
    destruct (tag_next (tag d) (bitcount d) (byte_Z b)) as [Htag Hrange]; [lia|lia|apply byte_Z_range|].
    set (d1 := set_bits _ _ _ _ _).
    destruct (IH d1) as (d' & E & Hd' & Hro & Hn' & Hb' & Hstr & Hov); [|done|simpl; lia|].
    { split; simpl; [lia|done|lia|by rewrite Htag|]. intros H. specialize (Ho H). lia. }
    assert (stream src d1 = stream src d) as Hst.
    { unfold stream. simpl. rewrite (chars_cons src (source d) (source_end d - source d) b) by (done || lia).
      rewrite Htag. replace (Z.to_nat (bitcount d + 8)) with (Z.to_nat (bitcount d) + 8)%nat by lia.
      replace (2 ^ bitcount d) with (2 ^ Z.of_nat (Z.to_nat (bitcount d))) by (by rewrite Z2Nat.id).
      rewrite bits_of_app by (by rewrite Z2Nat.id). rewrite fmap_cons. cbn [concat].
      replace (source_end d - (source d + 1)) with (source_end d - source d - 1) by lia.
      by rewrite <- app_assoc. }
    rewrite Hst in *. exists d'. split; [done|]. split; [done|]. split; [|split; [done|split; [simpl in *; lia|by split]]].
    transitivity d1; [|done]. split; [by destruct d|]. simpl. split; [lia|done].
Qed.

Lemma getbits_ok src d num : bits_ok src d -> 0 <= num <= 13 ->
  exists v d', tinf_getbits src d num = Ret (v, d') /\ 0 <= v < 2 ^ num /\ bits_ok src d' /\ read_on d d' /\
    (overflow d' = false -> stream src d = bits_of v (Z.to_nat num) ++ stream src d') /\
    (overflow d' = true -> overflow d = true \/ Z.of_nat (length (stream src d)) < num).
Proof.
  intros [Hs He Hc Ht Ho] Hn. unfold tinf_getbits, tinf_refill.
  destruct (refill_loop_ok 2 src d num) as (d1 & E & [Hs1 He1 Hc1 Ht1 Ho1] & Hro & Hn1 & Hb1 & Hst & Hov);
    [by split; lia || done|done|lia|]. rewrite E. simpl. unfold tinf_getbits_no_refill.
  rewrite Z.shiftl_1_l. replace (2 ^ num - 1) with (Z.ones num) by (rewrite Z.ones_equiv; lia).
  rewrite Z.land_ones, Z.shiftr_div_pow2 by lia. pose proof (Z.pow_pos_nonneg 2 num).
  assert (2 ^ bitcount d1 = 2 ^ num * 2 ^ (bitcount d1 - num)) as Hpow by (rewrite <- Z.pow_add_r by lia; f_equal; lia).
  eexists _, _. split; [done|]. split; [apply Z.mod_pos_bound; lia|]. split; [|split; [|split]].
  - split; simpl; try done; [lia|]. split; [apply Z.div_pos; lia|]. apply Z.div_lt_upper_bound; lia.
  - transitivity d1; [done|]. split; [by destruct d1|]. simpl. split; [lia|done].
  - simpl. intros Hf. rewrite <- Hst by done. unfold stream. simpl. rewrite app_assoc. f_equal.
    replace (Z.to_nat (bitcount d1)) with (Z.to_nat num + Z.to_nat (bitcount d1 - num))%nat by lia.
    rewrite (Z.div_mod (tag d1) (2 ^ num)) at 1 by lia.
    replace (2 ^ num * (tag d1 / 2 ^ num) + tag d1 mod 2 ^ num) with (tag d1 mod 2 ^ num + tag d1 / 2 ^ num * 2 ^ Z.of_nat (Z.to_nat num))
      by (rewrite Z2Nat.id by lia; lia).
    apply bits_of_app. rewrite Z2Nat.id by lia. apply Z.mod_pos_bound. lia.
  - simpl. done.
Qed.

(** ** Canonical codes

    [c l] is the number of codes of length [l].  The codes of a length are
    consecutive numbers, starting behind the codes of the shorter lengths
    extended by zeros. *)

Fixpoint first_code (c : nat -> Z) (l : nat) : Z :=
  match l with O => 0 | S l => 2 * (first_code c l + c l) end.

(** The number of codes shorter than [l]. *)
Fixpoint before (c : nat -> Z) (l : nat) : Z :=
  match l with O => 0 | S l => before c l + c l end.

Arguments first_code : simpl never.
Arguments before : simpl never.

Lemma first_code_S c l : first_code c (S l) = 2 * (first_code c l + c l).
Proof. done. Qed.

Lemma before_S c l : before c (S l) = before c l + c l.
Proof. done. Qed.

(** A code is written most significant bit first. *)
Definition code_bits (code : Z) (l : nat) : list bool := rev (bits_of code l).

Definition tree_count (t : tinf_tree) (l : nat) : Z := default 0 (counts t .@ (Z.of_nat l)).

Record tree_ok (t : tinf_tree) : Prop := {
  to_counts : zlength (counts t) = 16;
  to_zero : tree_count t 0 = 0;
  to_nonneg l : 0 <= tree_count t l;
  to_total : before (tree_count t) 16 <= 288;
  to_symbols : zlength (symbols t) = 288;
  to_symbol s : s ∈ symbols t -> 0 <= s < 65536 }.

(** Every sequence of 15 bits starts with a code. *)
Definition tree_complete (t : tinf_tree) : Prop := first_code (tree_count t) 16 = 2 ^ 16.

(** Symbol [s] has the code [code] of length [l]. *)
Record in_tree (t : tinf_tree) (s : Z) (l : nat) (code : Z) : Prop := {
  it_length : (1 <= l <= 15)%nat;
  it_code : first_code (tree_count t) l <= code < first_code (tree_count t) l + tree_count t l;
  it_symbol : symbols t .@ (before (tree_count t) l + (code - first_code (tree_count t) l)) = Some s }.

Section codes.
Context (c : nat -> Z) (Hc : forall l, 0 <= c l).

Lemma first_code_nonneg l : 0 <= first_code c l.
Proof using Hc. induction l as [|l IH]; [done|]. rewrite first_code_S. specialize (Hc l). lia. Qed.

Lemma before_mono l k : (l <= k)%nat -> before c l <= before c k.
Proof using Hc. induction 1 as [|k _ IH]; [done|]. rewrite before_S. specialize (Hc k). lia. Qed.

(** The codes of a shorter length are smaller than the prefixes of the longer. *)
Lemma first_code_prefix j m : 2 ^ Z.of_nat (S m) * (first_code c j + c j) <= first_code c (j + S m).
Proof using Hc.
  induction m as [|m IH].
  - rewrite Nat.add_1_r, first_code_S. change (2 ^ Z.of_nat 1) with 2. lia.
  - rewrite Nat.add_succ_r, first_code_S, Nat2Z.inj_succ, Z.pow_succ_r by lia.
    pose proof (Hc (j + S m)). lia.
Qed.
End codes.

Lemma at_Some {A} (l : list A) i x : l .@ i = Some x -> at_ l i = Ret x.
Proof. unfold at_. by intros ->. Qed.

Lemma tree_at t l : tree_ok t -> (l < 16)%nat -> counts t .@ (Z.of_nat l) = Some (tree_count t l).
Proof.
  intros Ht Hl. unfold tree_count. destruct (get_Some (counts t) (Z.of_nat l)) as (x & Hx); [rewrite (to_counts _ Ht); lia|].
  by rewrite Hx.
Qed.

(** The next bit of a code. *)
Lemma code_step code m : code / 2 ^ Z.of_nat m = 2 * (code / 2 ^ Z.of_nat (S m)) + Z.b2z (Z.testbit code (Z.of_nat m)).
Proof.
  rewrite Nat2Z.inj_succ, Z.pow_succ_r, (Z.mul_comm 2 (2 ^ _)), <- Z.div_div by lia.
  rewrite <- (Z.shiftr_div_pow2 code (Z.of_nat m)) by lia.
  assert (Z.testbit code (Z.of_nat m) = Z.odd (Z.shiftr code (Z.of_nat m))) as ->.
  { rewrite <- Z.bit0_odd, Z.shiftr_spec by lia. f_equal. }
  pose proof (Zmod_odd (Z.shiftr code (Z.of_nat m))) as Ho. pose proof (Z.div_mod (Z.shiftr code (Z.of_nat m)) 2).
  destruct (Z.odd _); simpl Z.b2z; lia.
Qed.

Lemma bits_of_1 v : 0 <= v < 2 -> bits_of v 1 = [Z.odd v].
Proof. intros. assert (v = 0 \/ v = 1) as [->| ->] by lia; done. Qed.

Lemma odd_bit v : 0 <= v < 2 -> v = Z.b2z (Z.odd v).
Proof. intros. assert (v = 0 \/ v = 1) as [->| ->] by lia; done. Qed.

(** Decoding a code answers its symbol and takes exactly its bits. *)
Lemma decode_loop_code src t s l code rest n k d :
  tree_ok t -> in_tree t s l code -> bits_ok src d -> overflow d = false ->
  (n + k = 16)%nat -> (k < l)%nat ->
  stream src d = code_bits code (l - k) ++ rest ->
  exists d', decode_loop n src d t (Z.of_nat (S k)) (before (tree_count t) (S k))
      (code / 2 ^ Z.of_nat (l - k) - first_code (tree_count t) k - tree_count t k) = Ret (s, d') /\
    bits_ok src d' /\ read_on d d' /\ overflow d' = false /\ stream src d' = rest.
Proof.
  intros Ht [Hl Hcode Hsym]. set (c := tree_count t) in *. revert k d.
  induction n as [|n IH]; intros k d Hd Hov Hnk Hkl Hst; [lia|]. cbn [decode_loop].
  destruct (getbits_ok src d 1 Hd) as (b & d1 & E & Hb & Hd1 & Hro & Hst1 & Hov1); [lia|]. rewrite E, Ret_bind. cbv beta iota zeta.
  destruct (l - k)%nat as [|m] eqn:Hm; [lia|].
  assert (overflow d1 = false) as Hov1'.
  { destruct (overflow d1); [|done]. destruct (Hov1 eq_refl) as [?|Hlen]; [congruence|]. rewrite Hst in Hlen.
    unfold code_bits in Hlen. rewrite length_app, length_rev, length_bits_of in Hlen. lia. }
  specialize (Hst1 Hov1'). rewrite Hst in Hst1. unfold code_bits in Hst1. rewrite bits_of_S, rev_app_distr in Hst1.
  change (Z.to_nat 1) with 1%nat in Hst1. rewrite bits_of_1 in Hst1 by done. simpl in Hst1. injection Hst1 as Hbit Hst1.
  replace (2 * (code / 2 ^ Z.of_nat (S m) - first_code c k - c k) + b) with (code / 2 ^ Z.of_nat m - first_code c (S k)).
  2: { rewrite code_step, Hbit, <- odd_bit, first_code_S by done. lia. }
  destruct (Z.ltb_spec 15 (Z.of_nat (S k))); [lia|].
  rewrite (at_Some _ _ _ (tree_at t (S k) Ht ltac:(lia))). fold c. rewrite Ret_bind.
  destruct (Nat.eq_dec m 0) as [->|Hm0].
  - assert (l = S k) as -> by lia. change (2 ^ Z.of_nat 0) with 1. rewrite Z.div_1_r.
    destruct (Z.ltb_spec (code - first_code c (S k)) (c (S k))); [|lia].
    rewrite (at_Some _ _ _ Hsym), Ret_bind. exists d1. auto.
  - pose proof (first_code_prefix c (to_nonneg _ Ht) (S k) (m - 1)) as Hpre.
    replace (S k + S (m - 1))%nat with l in Hpre by lia. replace (S (m - 1)) with m in Hpre by lia.
    pose proof (Z.pow_pos_nonneg 2 (Z.of_nat m)).
    assert (first_code c (S k) + c (S k) <= code / 2 ^ Z.of_nat m) by (apply Z.div_le_lower_bound; lia).
    destruct (Z.ltb_spec (code / 2 ^ Z.of_nat m - first_code c (S k)) (c (S k))); [lia|].
    destruct (IH (S k) d1) as (d' & E' & Hd' & Hro' & Hov' & Hst'); try done; [lia|lia|..].
    { replace (l - S k)%nat with m by lia. auto. }
    replace (l - S k)%nat with m in E' by lia.
    exists d'. split; [|split; [done|split; [by etransitivity|done]]].
    rewrite <- E'. f_equal. lia.
Qed.

Lemma decode_code src t s l code rest d :
  tree_ok t -> in_tree t s l code -> bits_ok src d -> overflow d = false ->
  stream src d = code_bits code l ++ rest -> 0 <= code < 2 ^ Z.of_nat l ->
  exists d', tinf_decode_symbol src d t = Ret (s, d') /\
    bits_ok src d' /\ read_on d d' /\ overflow d' = false /\ stream src d' = rest.
Proof.
  intros Ht Hin Hd Hov Hst Hcode.
  destruct (decode_loop_code src t s l code rest 16 0 d) as (d' & E & H); try done.
  { destruct Hin. lia. }
  { by rewrite Nat.sub_0_r. }
  exists d'. split; [|done]. unfold tinf_decode_symbol. rewrite <- E.
  rewrite Nat.sub_0_r, Z.div_small by done. rewrite before_S, (to_zero _ Ht). done.
Qed.

(** On any bits decoding terminates inside the arrays; a complete tree always
    has an answer. *)
Lemma decode_loop_ok src t n k d offs :
  tree_ok t -> bits_ok src d -> (n + k = 16)%nat -> (k < 16)%nat -> 0 <= offs ->
  exists s d', decode_loop n src d t (Z.of_nat (S k)) (before (tree_count t) (S k)) offs = Ret (s, d') /\
    bits_ok src d' /\ read_on d d' /\ (s = -1 \/ s ∈ symbols t) /\
    (overflow d' = false -> (length (stream src d') < length (stream src d))%nat) /\
    (tree_complete t -> offs < 2 ^ Z.of_nat k - first_code (tree_count t) k - tree_count t k -> s <> -1).
Proof.
  intros Ht. unfold tree_complete. set (c := tree_count t). revert k d offs.
  induction n as [|n IH]; intros k d offs Hd Hnk Hk Hoffs; [lia|]. cbn [decode_loop].
  destruct (getbits_ok src d 1 Hd) as (b & d1 & E & Hb & Hd1 & Hro & Hst1 & Hov1); [lia|]. rewrite E, Ret_bind. cbv beta iota zeta.
  assert (overflow d1 = false -> (length (stream src d1) < length (stream src d))%nat) as Hshort.
  { intros Hf. rewrite (Hst1 Hf), length_app, length_bits_of. lia. }
  destruct (Z.ltb_spec 15 (Z.of_nat (S k))) as [Hlen|Hlen].
  { assert (k = 15)%nat as -> by lia. exists (-1), d1. split; [done|]. split; [done|]. split; [done|].
    split; [by left|]. split; [done|]. intros Hcomp Hlt. rewrite first_code_S in Hcomp.
    change (2 ^ Z.of_nat 15) with (2 ^ 15) in Hlt. lia. }
  rewrite (at_Some _ _ _ (tree_at t (S k) Ht ltac:(lia))). fold c. rewrite Ret_bind.
  destruct (Z.ltb_spec (2 * offs + b) (c (S k))) as [Hlt|Hge].
  - pose proof (before_mono c (to_nonneg _ Ht) (S (S k)) 16) as Hmono. pose proof (to_total _ Ht) as Htot. fold c in Htot.
    assert (0 <= before c (S k)) by (apply (before_mono c (to_nonneg _ Ht) 0 (S k)); lia).
    rewrite (before_S c (S k)) in Hmono.
    destruct (get_Some (symbols t) (before c (S k) + (2 * offs + b))) as (s & Hs); [rewrite (to_symbols _ Ht); lia|].
    rewrite (at_Some _ _ _ Hs), Ret_bind. exists s, d1. split; [done|]. split; [done|]. split; [done|].
    apply get_In in Hs. split; [by right|]. split; [done|]. intros _ _. apply (to_symbol _ Ht) in Hs. lia.
  - destruct (IH (S k) d1 (2 * offs + b - c (S k))) as (s & d' & E' & Hd' & Hro' & Hs & Hsh & Hcm); [done|lia|lia|lia|].
    exists s, d'. split; [|split; [done|split; [by etransitivity|split; [done|split]]]].
    + rewrite <- E'. f_equal. lia.
    + intros Hf. specialize (Hsh Hf). assert (overflow d1 = false) as Hf1 by (destruct (overflow d1) eqn:?; [|done]; destruct Hro' as (_ & _ & Ho); by rewrite Ho in Hf).
      specialize (Hshort Hf1). lia.
    + intros Hcomp Hlt. apply Hcm; [done|]. rewrite Nat2Z.inj_succ, Z.pow_succ_r, first_code_S by lia. lia.
Qed.

Lemma decode_symbol_ok src t d : tree_ok t -> bits_ok src d ->
  exists s d', tinf_decode_symbol src d t = Ret (s, d') /\ bits_ok src d' /\ read_on d d' /\ (s = -1 \/ s ∈ symbols t) /\
    (overflow d' = false -> (length (stream src d') < length (stream src d))%nat) /\ (tree_complete t -> s <> -1).
Proof.
  intros Ht Hd. destruct (decode_loop_ok src t 16 0 d 0 Ht Hd) as (s & d' & E & H1 & H2 & H3 & H4 & H5); [lia|lia|lia|].
  exists s, d'. split; [|split; [done|split; [done|split; [done|split; [done|]]]]].
  - unfold tinf_decode_symbol. rewrite <- E. by rewrite before_S, (to_zero _ Ht).
  - intros Hc. apply H5; [done|]. rewrite (to_zero _ Ht). done.
Qed.

(** ** Code lengths *)

Definition count (l : Z) (lens : list Z) : Z := zsum (fun x => if x =? l then 1 else 0) lens.

Definition lens_count (lens : list Z) (l : nat) : Z := match l with O => 0 | S _ => count (Z.of_nat l) lens end.

(** The lengths of the symbols that have a code. *)
Definition codes (lens : list Z) : list Z := filter (fun l => l <> 0) lens.

(** The share of all sequences of 15 bits the codes take, by Kraft. *)
Definition kraft (lens : list Z) : Z := zsum (fun l => if l =? 0 then 0 else 2 ^ (15 - l)) lens.

(** The index of the last symbol that has a code. *)
Fixpoint last_code_from (i : Z) (lens : list Z) (acc : Z) : Z :=
  match lens with
  | [] => acc
  | l :: lens => last_code_from (i + 1) lens (if l =? 0 then acc else i)
  end.

Definition last_code (lens : list Z) : Z := last_code_from 0 lens (-1).

(** Lengths of a complete code, of a single code of one bit, or of no code. *)
Definition code_ok (lens : list Z) : Prop :=
  (forall l, l ∈ lens -> 0 <= l <= 15) /\ (kraft lens = 2 ^ 15 \/ codes lens = [] \/ codes lens = [1]).

(** The canonical code of symbol [s] of length [l]. *)
Definition canonical (lens : list Z) (s l : Z) : Z :=
  first_code (lens_count lens) (Z.to_nat l) + count l (take (Z.to_nat s) lens).

Lemma count_nonneg l lens : 0 <= count l lens.
Proof. apply zsum_nonneg. intros x _. by case_if. Qed.

Lemma lens_count_nonneg lens l : 0 <= lens_count lens l.
Proof. destruct l; [done|]. apply count_nonneg. Qed.

Lemma count_app l a b : count l (a ++ b) = count l a + count l b.
Proof. apply zsum_app. Qed.

Lemma count_one l x : count l [x] = if x =? l then 1 else 0.
Proof. unfold count. simpl. by case_if. Qed.

Lemma last_code_from_snoc i lens l acc :
  last_code_from i (lens ++ [l]) acc = if l =? 0 then last_code_from i lens acc else i + zlength lens.
Proof.
  revert i acc. induction lens as [|x lens IH]; intros i acc; simpl; [case_if; [done|unfold zlength; simpl; lia]|].
  rewrite IH. case_if; [done|]. rewrite zlength_cons. lia.
Qed.

Lemma last_code_snoc lens l : last_code (lens ++ [l]) = if l =? 0 then last_code lens else zlength lens.
Proof. unfold last_code. rewrite last_code_from_snoc. by rewrite Z.add_0_l. Qed.

Lemma last_code_range lens : -1 <= last_code lens < zlength lens.
Proof.
  induction lens as [|l lens IH] using rev_ind; [unfold last_code, zlength; simpl; lia|].
  rewrite last_code_snoc, zlength_app. unfold zlength in *. simpl. case_if; lia.
Qed.

Section linear.
Context (c e : nat -> Z).

Lemma first_code_add k : first_code (fun l => c l + e l) k = first_code c k + first_code e k.
Proof using Type. induction k as [|k IH]; [done|]. rewrite !first_code_S, IH. lia. Qed.

Lemma before_add k : before (fun l => c l + e l) k = before c k + before e k.
Proof using Type. induction k as [|k IH]; [done|]. rewrite !before_S, IH. lia. Qed.

Lemma first_code_ext k : (forall l, (l < k)%nat -> c l = e l) -> first_code c k = first_code e k.
Proof using Type. induction k as [|k IH]; intros H; [done|]. rewrite !first_code_S, IH, H by auto. done. Qed.

Lemma before_ext k : (forall l, (l < k)%nat -> c l = e l) -> before c k = before e k.
Proof using Type. induction k as [|k IH]; intros H; [done|]. rewrite !before_S, IH, H by auto. done. Qed.
End linear.

Definition single (x l : nat) : Z := if Nat.eqb l x then 1 else 0.

Lemma first_code_single x k : first_code (single x) k = if (x <? k)%nat then 2 ^ (Z.of_nat k - Z.of_nat x) else 0.
Proof.
  induction k as [|k IH]; [done|]. rewrite first_code_S, IH. unfold single.
  destruct (Nat.eqb_spec k x) as [He|Hne], (Nat.ltb_spec x k), (Nat.ltb_spec x (S k)); try lia.
  - replace (Z.of_nat (S k) - Z.of_nat x) with 1 by lia. lia.
  - replace (Z.of_nat (S k) - Z.of_nat x) with (Z.succ (Z.of_nat k - Z.of_nat x)) by lia. rewrite Z.pow_succ_r by lia. lia.
Qed.

Lemma before_single x k : before (single x) k = if (x <? k)%nat then 1 else 0.
Proof.
  induction k as [|k IH]; [done|]. rewrite before_S, IH. unfold single.
  destruct (Nat.eqb_spec k x), (Nat.ltb_spec x k), (Nat.ltb_spec x (S k)); lia.
Qed.

Lemma lens_count_cons x lens l : 0 <= x ->
  lens_count (x :: lens) l = lens_count lens l + (if x =? 0 then 0 else single (Z.to_nat x) l).
Proof.
  intros Hx. unfold lens_count, single, count. destruct l as [|l]; simpl zsum.
  - destruct (Z.eqb_spec x 0); [done|]. destruct (Nat.eqb_spec 0 (Z.to_nat x)); lia.
  - destruct (Z.eqb_spec x 0), (Z.eqb_spec x (Z.of_nat (S l))), (Nat.eqb_spec (S l) (Z.to_nat x)); lia.
Qed.

(** The end of the last code is the Kraft sum, and the codes are counted. *)
Lemma first_code_kraft lens : (forall l, l ∈ lens -> 0 <= l <= 15) ->
  first_code (lens_count lens) 16 = 2 * kraft lens /\ before (lens_count lens) 16 = zlength (codes lens).
Proof.
  induction lens as [|x lens IH]; intros Hl; [done|].
  destruct IH as [IH1 IH2]; [intros l Hin; apply Hl; set_solver|]. pose proof (Hl x (list_elem_of_here _ _)) as Hx.
  set (e := fun l => if x =? 0 then 0 else single (Z.to_nat x) l).
  rewrite (first_code_ext (lens_count (x :: lens)) (fun l => lens_count lens l + e l)) by (intros; apply lens_count_cons; lia).
  rewrite (before_ext (lens_count (x :: lens)) (fun l => lens_count lens l + e l)) by (intros; apply lens_count_cons; lia).
  rewrite first_code_add, before_add, IH1, IH2. unfold kraft, codes, e. simpl zsum.
  destruct (Z.eqb_spec x 0) as [->|Hne].
  - rewrite filter_cons_False by naive_solver. split; [|].
    + assert (forall k, first_code (fun _ => 0) k = 0) as -> by (intros k; induction k as [|k IHk]; [done|rewrite first_code_S; lia]). lia.
    + assert (forall k, before (fun _ => 0) k = 0) as -> by (intros k; induction k as [|k IHk]; [done|rewrite before_S; lia]). lia.
  - rewrite filter_cons_True by done. rewrite zlength_cons.
    change (fun l => single (Z.to_nat x) l) with (single (Z.to_nat x)). rewrite first_code_single, before_single.
    destruct (Nat.ltb_spec (Z.to_nat x) 16); [|lia]. split; [|lia].
    replace (Z.of_nat 16 - Z.of_nat (Z.to_nat x)) with (Z.succ (15 - x)) by lia. rewrite Z.pow_succ_r by lia. lia.
Qed.

(** ** Building a tree *)

Lemma get_middle {A} (a : list A) x b : (a ++ x :: b) .@ (zlength a) = Some x.
Proof. rewrite get_app_r by lia. by rewrite Z.sub_diag. Qed.

Lemma get_snoc_inv {A} (a : list A) x s y :
  (a ++ [x]) .@ s = Some y -> (s < zlength a /\ a .@ s = Some y) \/ (s = zlength a /\ y = x).
Proof.
  intros Hs. pose proof (get_Some_range _ _ _ Hs) as Hr. rewrite zlength_app in Hr. change (zlength [x]) with 1 in Hr.
  destruct (Z_lt_ge_dec s (zlength a)) as [Hlt|]; [left; by rewrite get_app_l in Hs|right].
  assert (s = zlength a) as -> by lia. rewrite get_middle in Hs. split; [done|congruence].
Qed.

Lemma count_le l lens : count l lens <= zlength lens.
Proof. apply zsum_le_length. intros x _. by case_if. Qed.

(** The counters after the lengths [pre]. *)
Definition counted (t : tinf_tree) (pre : list Z) : Prop :=
  zlength (counts t) = 16 /\ (forall l, tree_count t l = lens_count pre l) /\ max_sym t = last_code pre.

Lemma counted_step t pre l :
  counted t pre -> 0 < l <= 15 -> zlength pre < 65535 ->
  counts t .@ l = Some (count l pre) /\
  counted (mk_tree (set (counts t) l (u16 (count l pre + 1))) (symbols t) (zlength pre)) (pre ++ [l]).
Proof.
  intros (Hlen & Hcnt & _) Hl Hpre. pose proof (count_nonneg l pre). pose proof (count_le l pre).
  assert (tree_count t (Z.to_nat l) = count l pre) as Hc.
  { rewrite Hcnt. unfold lens_count. destruct (Z.to_nat l) eqn:E; [lia|]. f_equal. lia. }
  destruct (get_Some (counts t) l) as (x & Hx); [lia|].
  unfold tree_count in Hc. rewrite Z2Nat.id, Hx in Hc by lia. simpl in Hc. subst x. split; [done|].
  split; [simpl; by rewrite zlength_set|]. split.
  - intros k. unfold tree_count. simpl. rewrite u16_id by lia. destruct (Z.eq_dec l (Z.of_nat k)) as [->|Hne].
    + rewrite get_set_eq by lia. unfold lens_count. destruct k; [lia|]. rewrite count_app, count_one, Z.eqb_refl. done.
    + rewrite get_set_ne by done. fold (tree_count t k). rewrite Hcnt. unfold lens_count. destruct k; [done|].
      rewrite count_app, count_one. destruct (Z.eqb_spec l (Z.of_nat (S k))); lia.
  - simpl. rewrite last_code_snoc. case_if; [lia|done].
Qed.

Lemma counted_zero t pre : counted t pre -> counted t (pre ++ [0]).
Proof.
  intros (Hlen & Hcnt & Hmax). split; [done|]. split; [|by rewrite last_code_snoc].
  intros k. rewrite Hcnt. unfold lens_count. destruct k; [done|]. rewrite count_app, count_one. simpl. lia.
Qed.

Lemma count_lengths_ok rest pre tail t :
  counted t pre -> (forall l, l ∈ rest -> 0 <= l) -> zlength (pre ++ rest) <= 288 ->
  exists b t', count_lengths (length rest) (zlength pre) (pre ++ rest ++ tail) t = Ret (b, t') /\ symbols t' = symbols t /\
    if b then counted t' (pre ++ rest) /\ forall l, l ∈ rest -> l <= 15 else exists l, l ∈ rest /\ 15 < l.
Proof.
  revert pre t. induction rest as [|l rest IH]; intros pre t Ht Hnn Hlen; cbn [length count_lengths].
  { exists true, t. rewrite app_nil_r. split; [done|]. split; [done|]. split; [done|set_solver]. }
  change ((l :: rest) ++ tail) with (l :: (rest ++ tail)).
  rewrite (at_Some _ _ _ (get_middle pre l (rest ++ tail))), Ret_bind.
  pose proof (Hnn l (list_elem_of_here _ _)) as Hl0. rewrite zlength_app, zlength_cons in Hlen.
  pose proof (zlength_nonneg rest). pose proof (zlength_nonneg pre).
  destruct (Z.ltb_spec 15 l) as [Hbig|Hsmall].
  { exists false, t. split; [done|]. split; [done|]. exists l. split; [set_solver|done]. }
  replace (zlength pre + 1) with (zlength (pre ++ [l])) by (rewrite zlength_app; unfold zlength; simpl; lia).
  replace (pre ++ l :: rest ++ tail) with ((pre ++ [l]) ++ rest ++ tail) by (by rewrite <- app_assoc).
  replace (pre ++ l :: rest) with ((pre ++ [l]) ++ rest) by (by rewrite <- app_assoc).
  assert (forall x, x ∈ rest -> 0 <= x) as Hnn' by (intros; apply Hnn; set_solver).
  assert (zlength ((pre ++ [l]) ++ rest) <= 288) as Hlen' by (rewrite !zlength_app; unfold zlength in *; simpl; lia).
  assert (exists t1, (if negb (l =? 0) then
      c ← at_ (counts t) l;
      count_lengths (length rest) (zlength (pre ++ [l])) ((pre ++ [l]) ++ rest ++ tail)
        (mk_tree (set (counts t) l (u16 (c + 1))) (symbols t) (zlength pre))
     else count_lengths (length rest) (zlength (pre ++ [l])) ((pre ++ [l]) ++ rest ++ tail) t) =
     count_lengths (length rest) (zlength (pre ++ [l])) ((pre ++ [l]) ++ rest ++ tail) t1 /\
     counted t1 (pre ++ [l]) /\ symbols t1 = symbols t) as (t1 & -> & Ht1 & Hs1).
  { destruct (Z.eqb_spec l 0) as [->|Hne]; simpl negb.
    - exists t. split; [done|]. split; [by apply counted_zero|done].
    - destruct (counted_step t pre l Ht) as [Hx Ht1]; [lia|lia|]. rewrite (at_Some _ _ _ Hx), Ret_bind. by eexists. }
  destruct (IH (pre ++ [l]) t1 Ht1 Hnn' Hlen') as (b & t' & E & Hs & Hb). exists b, t'. split; [done|]. split; [congruence|].
  destruct b; [|destruct Hb as (x & ? & ?); exists x; set_solver].
  destruct Hb as [Hc Hall]. split; [done|]. intros x [->|Hx]%elem_of_cons; [done|by apply Hall].
Qed.

Lemma compute_offsets_ok c n k :
  (forall l, 0 <= c l) -> before c (k + n) <= 288 -> (k + n <= 16)%nat -> first_code c k <= 2 ^ Z.of_nat k ->
  (compute_offsets (c <$> seq k n) (2 ^ Z.of_nat k - first_code c k) (before c k) =
     Some (before c <$> seq k n, 2 ^ Z.of_nat (k + n) - first_code c (k + n), before c (k + n)) /\
   first_code c (k + n) <= 2 ^ Z.of_nat (k + n) /\
   forall l, (k <= l < k + n)%nat -> first_code c l + c l <= 2 ^ Z.of_nat l) \/
  (compute_offsets (c <$> seq k n) (2 ^ Z.of_nat k - first_code c k) (before c k) = None /\
   exists l, (k <= l < k + n)%nat /\ 2 ^ Z.of_nat l < first_code c l + c l).
Proof.
  intros Hc. revert k. induction n as [|n IH]; intros k Htot Hk Hfc; cbn [seq fmap list_fmap compute_offsets].
  { left. rewrite Nat.add_0_r. split; [done|]. split; [done|lia]. }
  pose proof (Hc k). pose proof (first_code_nonneg c Hc k).
  destruct (Z.ltb_spec (2 ^ Z.of_nat k - first_code c k) (c k)) as [Hlt|Hge].
  { right. split; [done|]. exists k. lia. }
  pose proof (before_mono c Hc 0 k). pose proof (before_mono c Hc (S k) (k + S n)). pose proof (before_S c k).
  pose proof (Z.pow_pos_nonneg 2 (Z.of_nat k)). assert (2 ^ Z.of_nat k <= 2 ^ 15) by (apply Z.pow_le_mono_r; lia).
  assert (before c 0 = 0) as Hb0 by done.
  rewrite (u32_id (2 * _)) by lia. rewrite (u32_id (before c k + c k)) by lia. rewrite (u16_id (before c k)) by lia.
  replace (2 * (2 ^ Z.of_nat k - first_code c k - c k)) with (2 ^ Z.of_nat (S k) - first_code c (S k))
    by (rewrite first_code_S, Nat2Z.inj_succ, Z.pow_succ_r by lia; lia).
  rewrite <- before_S. replace (k + S n)%nat with (S k + n)%nat in * by lia.
  destruct (IH (S k)) as [(E & Hfin & Hall)|(E & l & Hl & Hbad)]; [done|lia|..].
  - rewrite first_code_S, Nat2Z.inj_succ, Z.pow_succ_r by lia. lia.
  - left. rewrite E. split; [done|]. split; [done|]. intros l Hl.
    destruct (Nat.eq_dec l k) as [->|]; [lia|]. apply Hall. lia.
  - right. rewrite E. split; [done|]. exists l. split; [lia|done].
Qed.

(** The places of different symbols differ. *)
Lemma place_inj c l k r q : (forall l, 0 <= c l) ->
  0 <= r < c l -> 0 <= q < c k -> before c l + r = before c k + q -> l = k /\ r = q.
Proof.
  intros Hc Hr Hq He. destruct (Nat.lt_trichotomy l k) as [Hlt|[->|Hlt]]; [|split; [done|lia]|].
  - pose proof (before_mono c Hc (S l) k Hlt). rewrite before_S in *. lia.
  - pose proof (before_mono c Hc (S k) l Hlt). rewrite before_S in *. lia.
Qed.

Lemma place_range c l r : (forall l, 0 <= c l) -> (l <= 15)%nat -> 0 <= r < c l -> before c 16 <= 288 ->
  0 <= before c l + r < 288.
Proof.
  intros Hc Hl Hr Htot. pose proof (before_mono c Hc (S l) 16). pose proof (before_mono c Hc 0 l). pose proof (before_S c l).
  assert (before c 0 = 0) by done. lia.
Qed.

(** The sorted symbols after the lengths [pre] of [lens]. *)
Record sorted_to (lens pre offs syms : list Z) : Prop := {
  st_offs_len : zlength offs = 16;
  st_offs l : 0 < l <= 15 -> offs .@ l = Some (before (lens_count lens) (Z.to_nat l) + count l pre);
  st_syms_len : zlength syms = 288;
  st_syms s : s ∈ syms -> 0 <= s < 65536;
  st_place s l : pre .@ s = Some l -> l <> 0 ->
    syms .@ (before (lens_count lens) (Z.to_nat l) + count l (take (Z.to_nat s) pre)) = Some s }.

Lemma lens_count_Z lens l : 0 < l -> lens_count lens (Z.to_nat l) = count l lens.
Proof. intros Hl. unfold lens_count. destruct (Z.to_nat l) eqn:E; [lia|]. f_equal. lia. Qed.

Lemma take_get_app {A} (a b : list A) s x : a .@ s = Some x -> take (Z.to_nat s) (a ++ b) = take (Z.to_nat s) a.
Proof. intros Hs%get_Some_range. unfold zlength in Hs. apply take_app_le. lia. Qed.

Lemma elem_of_set {A} (l : list A) i x y : y ∈ set l i x -> y = x \/ y ∈ l.
Proof.
  unfold set. case_if; [by right|]. intros (j & Hj)%list_elem_of_lookup. apply list_lookup_insert_Some in Hj as [(_ & -> & _)|[_ Hj]]; [by left|].
  right. by eapply list_elem_of_lookup_2.
Qed.

(** The place of a symbol of [pre] among its length is below the next free one. *)
Lemma count_take_lt l pre s : pre .@ s = Some l -> count l (take (Z.to_nat s) pre) < count l pre.
Proof.
  intros Hs. pose proof (get_Some_range _ _ _ Hs). unfold get in Hs. case_if_in Hs; [done|].
  rewrite <- (take_drop_middle pre (Z.to_nat s) l) at 2 by done. rewrite count_app.
  change (l :: drop (S (Z.to_nat s)) pre) with ([l] ++ drop (S (Z.to_nat s)) pre). rewrite count_app, count_one, Z.eqb_refl.
  pose proof (count_nonneg l (drop (S (Z.to_nat s)) pre)). lia.
Qed.

Lemma sorted_step lens pre l rest offs syms :
  lens = pre ++ l :: rest -> before (lens_count lens) 16 <= 288 -> zlength lens <= 288 -> (forall x, x ∈ lens -> 0 <= x <= 15) ->
  sorted_to lens pre offs syms -> l <> 0 ->
  exists o, at_ offs l = Ret o /\ (exists syms', store syms o (u16 (zlength pre)) = Ret syms' /\
    sorted_to lens (pre ++ [l]) (set offs l (u16 (o + 1))) syms').
Proof.
  intros Hlens Htot Hlen Hrange [Hol Ho Hsl Hsr Hp] Hne. assert (0 < l <= 15) as Hl by (specialize (Hrange l); rewrite Hlens in Hrange; specialize (Hrange ltac:(set_solver)); lia).
  set (c := lens_count lens) in *. pose proof (lens_count_nonneg lens) as Hc. fold c in Hc.
  assert (count l pre < c (Z.to_nat l)) as Hlt.
  { unfold c. rewrite lens_count_Z, Hlens, count_app by lia. change (l :: rest) with ([l] ++ rest).
    rewrite count_app, count_one, Z.eqb_refl. pose proof (count_nonneg l rest). lia. }
  pose proof (count_nonneg l pre) as Hcp. pose proof (zlength_nonneg pre). pose proof (zlength_nonneg rest).
  assert (zlength pre < 288) as Hpl by (rewrite Hlens, zlength_app, zlength_cons in Hlen; lia).
  pose proof (place_range c (Z.to_nat l) (count l pre) Hc ltac:(lia) ltac:(lia) Htot) as Hr.
  set (o := before c (Z.to_nat l) + count l pre) in *. exists o. split; [apply at_Some; by apply Ho|].
  exists (set syms o (zlength pre)). rewrite u16_id by lia. rewrite u16_id by lia. split.
  { unfold store. destruct (get_Some syms o) as (x & ->); [lia|done]. }
  split.
  - by rewrite zlength_set.
  - intros k Hk. rewrite count_app, count_one. destruct (Z.eq_dec l k) as [<-|Hlk].
    + rewrite get_set_eq by lia. rewrite Z.eqb_refl. f_equal. unfold o. fold c. lia.
    + rewrite get_set_ne by done. rewrite Ho by done. destruct (Z.eqb_spec l k); [done|]. f_equal. fold c. lia.
  - by rewrite zlength_set.
  - intros x [->|Hx]%elem_of_set; [lia|by apply Hsr].
  - intros s k [[Hsp Hs]|[-> ->]]%get_snoc_inv Hk.
    + rewrite (take_get_app _ _ _ _ Hs).
      assert (0 < k <= 15) as Hk' by (specialize (Hrange k); rewrite Hlens in Hrange; apply get_In in Hs; specialize (Hrange ltac:(set_solver)); lia).
      rewrite get_set_ne; [by apply Hp|]. intros He.
      pose proof (count_take_lt _ _ _ Hs) as Hct. pose proof (count_nonneg k (take (Z.to_nat s) pre)) as Hcn.
      assert (count k pre <= c (Z.to_nat k)) as Hck by (unfold c; rewrite lens_count_Z, Hlens, count_app by lia; pose proof (count_nonneg k (l :: rest)); lia).
      destruct (place_inj c (Z.to_nat l) (Z.to_nat k) (count l pre) (count k (take (Z.to_nat s) pre))) as [Hlk Hrk]; [done|lia|lia|done|].
      assert (l = k) as -> by lia. lia.
    + replace (Z.to_nat (zlength pre)) with (length pre) by (unfold zlength; lia). rewrite take_app_length.
      fold c. fold o. by rewrite get_set_eq by lia.
Qed.

Lemma sorted_skip lens pre offs syms : sorted_to lens pre offs syms -> sorted_to lens (pre ++ [0]) offs syms.
Proof.
  intros [Hol Ho Hsl Hsr Hp]. split; try done.
  - intros l Hl. rewrite Ho, count_app, count_one by done. destruct (Z.eqb_spec 0 l); [lia|]. f_equal. lia.
  - intros s l [[Hsp Hs]|[-> ->]]%get_snoc_inv Hl; [|done].
    rewrite (take_get_app _ _ _ _ Hs). by apply Hp.
Qed.

Lemma sort_symbols_ok lens rest pre tail offs syms :
  lens = pre ++ rest -> before (lens_count lens) 16 <= 288 -> zlength lens <= 288 -> (forall x, x ∈ lens -> 0 <= x <= 15) ->
  sorted_to lens pre offs syms ->
  exists offs' syms', sort_symbols (length rest) (zlength pre) (pre ++ rest ++ tail) offs syms = Ret syms' /\
    sorted_to lens lens offs' syms'.
Proof.
  revert pre offs syms. induction rest as [|l rest IH]; intros pre offs syms Hlens Htot Hlen Hrange Hst; cbn [length sort_symbols].
  { exists offs, syms. split; [done|]. rewrite app_nil_r in Hlens. by subst. }
  change ((l :: rest) ++ tail) with (l :: (rest ++ tail)). rewrite (at_Some _ _ _ (get_middle pre l (rest ++ tail))), Ret_bind.
  replace (zlength pre + 1) with (zlength (pre ++ [l])) by (rewrite zlength_app; unfold zlength; simpl; lia).
  replace (pre ++ l :: rest ++ tail) with ((pre ++ [l]) ++ rest ++ tail) by (by rewrite <- app_assoc).
  assert (lens = (pre ++ [l]) ++ rest) as Hlens' by (by rewrite <- app_assoc).
  destruct (Z.eqb_spec l 0) as [->|Hne]; simpl negb.
  - apply IH; try done. by apply sorted_skip.
  - destruct (sorted_step lens pre l rest offs syms Hlens Htot Hlen Hrange Hst Hne) as (o & -> & syms1 & Hstore & Hst1).
    rewrite Ret_bind, Hstore, Ret_bind. by apply IH.
Qed.

Lemma zsum_codes f lens : f 0 = 0 -> zsum f (codes lens) = zsum f lens.
Proof.
  intros Hf. unfold codes. induction lens as [|x lens IH]; [done|]. destruct (decide (x <> 0)) as [Hx|Hx].
  - rewrite filter_cons_True by done. simpl. lia.
  - rewrite filter_cons_False by done. assert (x = 0) as -> by lia. simpl. lia.
Qed.

Lemma kraft_codes lens : kraft (codes lens) = kraft lens.
Proof. unfold kraft. by rewrite (zsum_codes (fun l => if l =? 0 then 0 else 2 ^ (15 - l))). Qed.

Lemma count_codes l lens : l <> 0 -> count l (codes lens) = count l lens.
Proof. intros Hl. unfold count. apply (zsum_codes (fun x => if x =? l then 1 else 0)). case_if; [lia|done]. Qed.

Lemma codes_le lens : zlength (codes lens) <= zlength lens.
Proof. unfold codes, zlength. pose proof (length_filter (fun l : Z => l <> 0) lens). lia. Qed.

(** A single code does not use up the space. *)
Lemma kraft_one x : 0 < x <= 15 -> kraft [x] = 2 ^ 15 -> False.
Proof.
  intros Hx Hk. unfold kraft in Hk. simpl in Hk. destruct (Z.eqb_spec x 0); [lia|].
  pose proof (Z.pow_lt_mono_r 2 (15 - x) 15 ltac:(lia) ltac:(lia) ltac:(lia)) as Hp. change (2 ^ 15) with 32768 in *. lia.
Qed.

(** When the number of codes and the space left by them are acceptable. *)
Lemma code_ok_cond lens : (forall l, l ∈ lens -> 0 <= l <= 15) -> kraft lens <= 2 ^ 15 ->
  if ((1 <? zlength (codes lens)) && (0 <? 2 ^ 16 - 2 * kraft lens)) ||
     ((zlength (codes lens) =? 1) && negb (count 1 lens =? 1))
  then ~ code_ok lens else code_ok lens.
Proof.
  intros Hr Hk. rewrite <- (count_codes 1) by done. pose proof (kraft_codes lens) as Ek.
  assert (forall l, l ∈ codes lens -> 0 < l <= 15) as Hr'.
  { intros l Hl%list_elem_of_filter. destruct Hl as [? Hl]. specialize (Hr l Hl). lia. }
  unfold code_ok. rewrite <- Ek in *. clear Ek. destruct (codes lens) as [|x [|y cs]].
  - simpl. auto.
  - change (zlength [x]) with 1. simpl orb. rewrite count_one. specialize (Hr' x ltac:(set_solver)).
    destruct (Z.eqb_spec x 1) as [->|Hne]; simpl; [auto|].
    intros [_ [Hkr|[?|?]]]; [|done|congruence]. apply kraft_one in Hkr; lia.
  - rewrite !zlength_cons. pose proof (zlength_nonneg cs).
    destruct (Z.ltb_spec 1 (1 + (1 + zlength cs))); [|lia]. destruct (Z.eqb_spec (1 + (1 + zlength cs)) 1); [lia|].
    simpl andb. rewrite orb_false_r. case_if.
    + intros [_ [?|[?|?]]]; [lia|done|done].
    + split; [done|]. left. lia.
Qed.

Lemma not_code_ok lens : 2 ^ 15 < kraft lens -> ~ code_ok lens.
Proof.
  intros Hk [_ [H|[H|H]]]; [lia| |]; rewrite <- kraft_codes, H in Hk; unfold kraft in Hk; simpl in Hk; lia.
Qed.

Lemma counts_list t : zlength (counts t) = 16 -> counts t = tree_count t <$> seq 0 16.
Proof.
  intros Hl. apply list_eq. intros i. destruct (decide (i < 16)%nat) as [Hi|Hi].
  - rewrite list_lookup_fmap, lookup_seq_lt by done. simpl. unfold tree_count, get. case_if; [lia|]. rewrite Nat2Z.id.
    destruct (lookup_lt_is_Some_2 (counts t) i) as (x & Hx); [unfold zlength in Hl; lia|]. by rewrite Hx.
  - rewrite !lookup_ge_None_2; [done|rewrite length_fmap, length_seq; lia|unfold zlength in Hl; lia].
Qed.

(** The tree built from acceptable lengths. *)
Record tree_for (lens : list Z) (t : tinf_tree) : Prop := {
  tf_ok : tree_ok t;
  tf_max : max_sym t = last_code lens;
  tf_complete : codes lens <> [] -> tree_complete t;
  tf_code s l : lens .@ s = Some l -> l <> 0 ->
    in_tree t s (Z.to_nat l) (canonical lens s l) /\ 0 <= canonical lens s l < 2 ^ l }.

(** A symbol of its length has its code below the end of the codes. *)
Lemma canonical_range lens s l : (forall l, l ∈ lens -> 0 <= l <= 15) -> kraft lens <= 2 ^ 15 -> lens .@ s = Some l -> l <> 0 ->
  let c := lens_count lens in
  (1 <= Z.to_nat l <= 15)%nat /\ first_code c (Z.to_nat l) <= canonical lens s l < first_code c (Z.to_nat l) + c (Z.to_nat l) /\
  0 <= canonical lens s l < 2 ^ l.
Proof.
  intros Hr Hk Hs Hl c. pose proof (get_In _ _ _ Hs) as Hin. specialize (Hr l Hin) as Hlr.
  destruct (first_code_kraft lens Hr) as [Hfk _]. fold c in Hfk.
  pose proof (count_take_lt _ _ _ Hs) as Hlt. pose proof (count_nonneg l (take (Z.to_nat s) lens)).
  assert (c (Z.to_nat l) = count l lens) as Hc by (unfold c; rewrite lens_count_Z by lia; done).
  unfold canonical. fold c. split; [lia|]. split; [lia|].
  pose proof (first_code_nonneg c (lens_count_nonneg lens) (Z.to_nat l)). split; [lia|].
  pose proof (first_code_prefix c (lens_count_nonneg lens) (Z.to_nat l) (15 - Z.to_nat l)) as Hp.
  replace (Z.to_nat l + S (15 - Z.to_nat l))%nat with 16%nat in Hp by lia. rewrite Hfk in Hp.
  replace (Z.of_nat (S (15 - Z.to_nat l))) with (16 - l) in Hp by lia.
  assert (2 ^ 16 = 2 ^ l * 2 ^ (16 - l)) as Hpow by (rewrite <- Z.pow_add_r by lia; f_equal; lia).
  pose proof (Z.pow_pos_nonneg 2 l). pose proof (Z.pow_pos_nonneg 2 (16 - l)). nia.
Qed.

Lemma tree_for_full lens t syms : (forall l, l ∈ lens -> 0 <= l <= 15) -> kraft lens = 2 ^ 15 \/ codes lens = [] ->
  zlength lens <= 288 -> counted t lens -> (exists offs, sorted_to lens lens offs syms) ->
  tree_for lens (mk_tree (counts t) syms (max_sym t)).
Proof.
  intros Hr Hk Hlen (Hcl & Hcnt & Hmax) (offs & [_ _ Hsl Hsr Hp]).
  destruct (first_code_kraft lens Hr) as [Hfk Hbk]. pose proof (codes_le lens).
  assert (forall l, tree_count (mk_tree (counts t) syms (max_sym t)) l = lens_count lens l) as Hcnt' by done.
  assert (kraft lens <= 2 ^ 15) as Hkr by (destruct Hk as [->|Hk]; [done|rewrite <- kraft_codes, Hk; done]).
  split; [split|..]; try done.
  - intros l. rewrite Hcnt'. apply lens_count_nonneg.
  - rewrite (before_ext _ (lens_count lens)) by auto. lia.
  - intros Hne. unfold tree_complete. rewrite (first_code_ext _ (lens_count lens)) by auto. destruct Hk as [Hk|]; [lia|done].
  - intros s l Hs Hl. destruct (canonical_range lens s l Hr Hkr Hs Hl) as (H1 & H2 & H3). split; [|done].
    split; [done| |]; rewrite !(first_code_ext _ (lens_count lens)), ?Hcnt' by auto; [done|].
    rewrite (before_ext _ (lens_count lens)) by auto. unfold canonical.
    replace (_ + count l (take (Z.to_nat s) lens) - _) with (count l (take (Z.to_nat s) lens)) by lia. simpl. by apply Hp.
Qed.

Lemma tree_for_single lens t syms : (forall l, l ∈ lens -> 0 <= l <= 15) -> codes lens = [1] ->
  zlength lens <= 288 -> counted t lens -> (exists offs, sorted_to lens lens offs syms) ->
  tree_for lens (mk_tree (set (counts t) 1 2) (set syms 1 (u16 (max_sym t + 1))) (max_sym t)).
Proof.
  intros Hr Hk Hlen (Hcl & Hcnt & Hmax) (offs & [_ _ Hsl Hsr Hp]). set (t' := mk_tree _ _ _).
  assert (kraft lens = 2 ^ 14) as Hkr by (rewrite <- kraft_codes, Hk; done).
  assert (forall l, tree_count t' l = single 1 l + single 1 l) as Hcnt'.
  { intros l. unfold tree_count, t'. simpl. destruct (Z.eq_dec 1 (Z.of_nat l)) as [He|Hne].
    - assert (l = 1)%nat as -> by lia. by rewrite get_set_eq by lia.
    - rewrite get_set_ne by done. fold (tree_count t l). rewrite Hcnt. unfold single. destruct (Nat.eqb_spec l 1); [lia|].
      unfold lens_count. destruct l; [done|]. rewrite <- count_codes by lia. rewrite Hk, count_one. case_if; [lia|done]. }
  assert (forall l, lens_count lens l = single 1 l) as Hl1.
  { intros l. unfold lens_count, single. destruct l as [|l]; [done|]. rewrite <- count_codes by lia. rewrite Hk, count_one.
    destruct (Z.eqb_spec 1 (Z.of_nat (S l))), (Nat.eqb_spec (S l) 1); lia. }
  split; [split|..].
  - simpl. by rewrite zlength_set.
  - by rewrite Hcnt'.
  - intros l. rewrite Hcnt'. unfold single. destruct (Nat.eqb l 1); lia.
  - rewrite (before_ext _ (fun l => single 1 l + single 1 l)) by auto. rewrite before_add, before_single. simpl. lia.
  - simpl. by rewrite zlength_set.
  - simpl. intros s [->|Hs]%elem_of_set; [apply u16_range|by apply Hsr].
  - done.
  - intros _. unfold tree_complete. rewrite (first_code_ext _ (fun l => single 1 l + single 1 l)) by auto.
    rewrite first_code_add, first_code_single. done.
  - intros s l Hs Hl. destruct (canonical_range lens s l Hr ltac:(lia) Hs Hl) as (H1 & H2 & H3). split; [|done].
    assert (l = 1) as ->.
    { pose proof (get_In _ _ _ Hs) as Hin. assert (l ∈ codes lens) as Hc by (by apply list_elem_of_filter). rewrite Hk in Hc. set_solver. }
    change (Z.to_nat 1) with 1%nat in *. rewrite Hl1 in H2. unfold single in H2. simpl in H2.
    assert (forall c, (forall l, c l = single 1 l + single 1 l \/ c l = single 1 l) -> first_code c 1 = 0 /\ before c 1 = 0) as Hz.
    { intros c Hc. rewrite first_code_S, before_S. change (first_code c 0) with 0. change (before c 0) with 0.
      destruct (Hc 0%nat) as [->| ->]; done. }
    destruct (Hz (tree_count t')) as [Hf Hb]; [auto|]. destruct (Hz (lens_count lens)) as [Hf2 Hb2]; [auto|].
    specialize (Hp s 1 Hs Hl). change (Z.to_nat 1) with 1%nat in Hp. rewrite Hb2 in Hp. rewrite Hf2 in H2.
    assert (canonical lens s 1 = 0) as Hcan by lia. rewrite Hcan in *.
    unfold canonical in Hcan. change (Z.to_nat 1) with 1%nat in Hcan. rewrite Hf2 in Hcan.
    split; [lia| |].
    + rewrite Hf, Hcnt'. unfold single. simpl. lia.
    + rewrite Hf, Hb. unfold t'. simpl. rewrite get_set_ne by lia. rewrite <- Hp. f_equal. lia.
Qed.

Lemma counted_nil syms : counted (mk_tree (replicate 16 0) syms (-1)) [].
Proof.
  split; [done|]. split; [|done]. intros l. do 16 (destruct l as [|l]; [done|]).
  unfold tree_count, lens_count. rewrite get_None; [done|]. change (zlength _) with 16. lia.
Qed.

Lemma build_tree_ok t lens tail :
  zlength (symbols t) = 288 -> (forall s, s ∈ symbols t -> 0 <= s < 65536) ->
  zlength lens <= 288 -> (forall l, l ∈ lens -> 0 <= l) ->
  (code_ok lens /\ exists t', tinf_build_tree t (lens ++ tail) (zlength lens) = Ret (TINFLATE_OK, t') /\ tree_for lens t') \/
  (~ code_ok lens /\ exists t', tinf_build_tree t (lens ++ tail) (zlength lens) = Ret (TINFLATE_INVALID_DATA, t') /\
     zlength (symbols t') = 288 /\ forall s, s ∈ symbols t' -> 0 <= s < 65536).
Proof.
  intros Hsl Hsr Hlen Hnn. unfold tinf_build_tree.
  replace (Z.to_nat (zlength lens)) with (length lens) by (unfold zlength; lia).
  destruct (count_lengths_ok lens [] tail (mk_tree (replicate 16 0) (symbols t) (-1))) as (b & t1 & E & Hs1 & Hb); [|done|done|].
  { apply counted_nil. }
  change (zlength []) with 0 in E. cbn [app symbols] in E, Hs1, Hb. rewrite E, Ret_bind. destruct b; simpl negb; cbv iota.
  2: { right. split; [intros [Hr _]; destruct Hb as (l & Hl & Hbig); specialize (Hr l Hl); lia|]. exists t1. by rewrite Hs1. }
  destruct Hb as [Hcounted Hle]. pose proof Hcounted as (Hcl & Hcnt & _).
  assert (forall l, l ∈ lens -> 0 <= l <= 15) as Hr by (intros l Hl; split; [by apply Hnn|by apply Hle]).
  destruct (first_code_kraft lens Hr) as [Hfk Hbk]. pose proof (codes_le lens) as Hcle.
  set (c := lens_count lens) in *.
  assert (counts t1 = c <$> seq 0 16) as Hcs.
  { rewrite counts_list by done. apply list_fmap_ext. intros i x _. apply Hcnt. }
  destruct (compute_offsets_ok c 16 0 (lens_count_nonneg lens)) as [(Eo & Hfin & _)|(Eo & l & Hl & Hbad)];
    [change (0 + 16)%nat with 16%nat; lia|lia|done|..];
    rewrite <- Hcs in Eo; change (2 ^ Z.of_nat 0 - first_code c 0) with 1 in Eo; change (before c 0) with 0 in Eo; rewrite Eo.
  2: { right. split; [|exists t1; by rewrite Hs1]. apply not_code_ok.
    pose proof (first_code_prefix c (lens_count_nonneg lens) l (15 - l)) as Hp.
    replace (l + S (15 - l))%nat with 16%nat in Hp by lia. rewrite Hfk in Hp.
    assert (2 ^ 16 = 2 ^ Z.of_nat l * 2 ^ Z.of_nat (S (15 - l))) as Hpow by (rewrite <- Z.pow_add_r by lia; f_equal; lia).
    pose proof (Z.pow_pos_nonneg 2 (Z.of_nat (S (15 - l)))). nia. }
  simpl Nat.add. change (Z.of_nat (0 + 16)) with 16 in *. simpl Nat.add in *. rewrite Hfk in *. rewrite Hbk.
  assert (counts t1 .@ 1 = Some (count 1 lens)) as Hc1.
  { pose proof (Hcnt 1%nat) as H1. unfold tree_count in H1. destruct (get_Some (counts t1) 1) as (x & Hx); [lia|].
    change (Z.of_nat 1) with 1 in H1. rewrite Hx in *. simpl in H1. by rewrite H1. }
  rewrite (at_Some _ _ _ Hc1), Ret_bind.
  pose proof (code_ok_cond lens Hr ltac:(lia)) as Hcond. destruct (_ || _)%bool; [right; split; [done|]; exists t1; by rewrite Hs1|].
  left. split; [done|].
  destruct (sort_symbols_ok lens lens [] tail (before c <$> seq 0 16) (symbols t)) as (offs' & syms & Es & Hst);
    [done|fold c; lia|done|done|..].
  { split; try done; [|].
    - intros l Hl. unfold get. case_if; [lia|]. rewrite list_lookup_fmap, lookup_seq_lt by lia. simpl. f_equal.
      change (count l []) with 0. fold c. lia.
    - intros s l Hs. by rewrite get_nil in Hs. }
  change (zlength []) with 0 in Es. cbn [app] in Es. rewrite Hs1, Es, Ret_bind.
  destruct (Z.eqb_spec (zlength (codes lens)) 1) as [H1|H1].
  - unfold store. destruct (get_Some syms 1) as (x & ->); [rewrite (st_syms_len _ _ _ _ Hst); lia|]. rewrite Ret_bind.
    eexists. split; [done|]. apply tree_for_single; [done| |done|done|by exists offs'].
    destruct Hcond as [_ [Hk|[Hc|Hc]]]; [|by rewrite Hc in H1|done].
    exfalso. rewrite <- kraft_codes in Hk.
    assert (forall l, l ∈ codes lens -> 0 < l <= 15) as Hr' by (intros l Hl%list_elem_of_filter; destruct Hl as [? Hl]; specialize (Hr l Hl); lia).
    destruct (codes lens) as [|x0 [|y cs]]; [done| |rewrite !zlength_cons in H1; pose proof (zlength_nonneg cs); lia].
    apply (kraft_one x0); [|done]. apply Hr'. set_solver.
  - eexists. split; [done|]. apply tree_for_full; [done| |done|done|by exists offs'].
    destruct Hcond as [_ [Hk|[Hc|Hc]]]; [by left|by right|by rewrite Hc in H1].
Qed.
(** C32: [tinf_build_tree] accepts exactly the code lengths of a complete prefix
    code, of a single code of one bit, or of no code (Kraft's equality), whatever
    its arrays held before.  The tree it builds is the canonical code of RFC 1951:
    [tinf_decode_symbol], at the canonical code of any symbol in the bit stream,
    answers that symbol and takes exactly the bits of the code, and with at least
    one code every bit stream whatsoever decodes to some symbol. *)
Theorem huffman_correct t lens tail :
  zlength (symbols t) = 288 -> (forall s, s ∈ symbols t -> 0 <= s < 65536) ->
  zlength lens <= 288 -> (forall l, l ∈ lens -> 0 <= l) ->
  exists (res : Z) (t' : tinf_tree), tinf_build_tree t (lens ++ tail) (zlength lens) = Ret (res, t') /\
    (res = TINFLATE_OK <-> code_ok lens) /\ (res = TINFLATE_OK \/ res = TINFLATE_INVALID_DATA) /\
    (code_ok lens -> forall src d, bits_ok src d ->
      (forall s l rest, lens .@ s = Some l -> l <> 0 -> overflow d = false ->
        stream src d = code_bits (canonical lens s l) (Z.to_nat l) ++ rest ->
        exists d', tinf_decode_symbol src d t' = Ret (s, d') /\ bits_ok src d' /\ overflow d' = false /\ stream src d' = rest) /\
      (codes lens <> [] -> exists s d', tinf_decode_symbol src d t' = Ret (s, d') /\ s ∈ symbols t')).
Proof.
  intros Hsl Hsr Hlen Hnn.
  destruct (build_tree_ok t lens tail Hsl Hsr Hlen Hnn) as [(Hok & t' & E & Ht)|(Hok & t' & E & _)]; eexists _, t'; (split; [exact E|]).
  - split; [done|]. split; [by left|]. intros _ src d Hd. pose proof (tf_ok _ _ Ht) as Htree. split.
    + intros s l rest Hs Hl Hov Hst. destruct (tf_code _ _ Ht s l Hs Hl) as [Hin Hrange]. pose proof (it_length _ _ _ _ Hin).
      destruct (decode_code src t' s (Z.to_nat l) (canonical lens s l) rest d Htree Hin Hd Hov Hst) as (d' & E' & Hd' & _ & Hrest).
      { rewrite Z2Nat.id by lia. done. }
      by exists d'.
    + intros Hne. destruct (decode_symbol_ok src t' d Htree Hd) as (s & d' & E' & _ & _ & Hs & _ & Hc).
      exists s, d'. split; [done|]. destruct Hs as [->|]; [|done]. by destruct (Hc (tf_complete _ _ Ht Hne)).
  - split; [|split; [by right|done]]. unfold TINFLATE_INVALID_DATA, TINFLATE_OK. by split.
Qed.

(** The code of lengths 2, 1, 2: the byte 1 starts with the bits 1 and 0, the code
    of symbol 0. *)
Lemma huffman_correct_witness :
  exists res t', tinf_build_tree (mk_tree [] (replicate 288 0) 0) ([2; 1; 2] ++ [7]) 3 = Ret (res, t') /\ res = TINFLATE_OK /\
    exists d', tinf_decode_symbol (bytes_of [1]) (mk_data 0 1 0 0 false 0 0 [] t' t') t' = Ret (0, d').
Proof.
  destruct (huffman_correct (mk_tree [] (replicate 288 0) 0) [2; 1; 2] [7]) as (res & t' & E & [_ Hok] & _ & Hdec).
  - reflexivity.
  - intros s Hs%elem_of_replicate. lia.
  - vm_compute. discriminate.
  - intros l Hl. set_solver by lia.
  - assert (code_ok [2; 1; 2]) as Hcode.
    { split; [clear; intros l Hl; set_solver by lia|]. left. reflexivity. }
    exists res, t'. split; [exact E|]. split; [by apply Hok|].
    destruct (Hdec Hcode (bytes_of [1]) (mk_data 0 1 0 0 false 0 0 [] t' t')) as [Hs _].
    { split; simpl; unfold zlength; simpl; lia || done. }
    destruct (Hs 0 2 (bits_of 0 6)) as (d' & Ed & _); [reflexivity|done|reflexivity|reflexivity|].
    exists d'. exact Ed.
Defined.

End Huffman.
