(* ===== verification/Inflate.v ===== *)
(** * Safety of the decompressor

    On any input whatsoever [tinflate.c] terminates, reads and writes inside its
    buffers and arrays only, and answers one of its codes. *)

From Stdlib Require Import Strings.Byte.
From S2P Require Import Prelude Status Bytes Tinflate Huffman.
Import Tinflate Huffman.

Module Inflate.

(** The symbol array of a tree, which the C code leaves uninitialised. *)
Definition syms_ok (t : tinf_tree) : Prop :=
  zlength (symbols t) = 288 /\ forall s, s ∈ symbols t -> 0 <= s < 65536.

(** An array of 320 code lengths. *)
Definition lens_ok (lens : list Z) : Prop :=
  zlength lens = 320 /\ forall l, l ∈ lens -> 0 <= l < 256.

Record data_ok (src : memory) (d : tinf_data) : Prop := {
  do_bits : bits_ok src d;
  do_dest : 0 <= dest d <= dest_end d;
  do_end : dest_end d = zlength (out d);
  do_lsyms : syms_ok (ltree d);
  do_dsyms : syms_ok (dtree d) }.

(** What every operation of the decoder keeps. *)
Record step_ok (src : memory) (d d' : tinf_data) : Prop := {
  so_ok : data_ok src d';
  so_source : source_end d' = source_end d;
  so_dest : dest_end d' = dest_end d;
  so_sticky : overflow d = true -> overflow d' = true;
  so_stream : overflow d' = false -> (length (stream src d') <= length (stream src d))%nat }.

Lemma step_trans src d1 d2 d3 : step_ok src d1 d2 -> step_ok src d2 d3 -> step_ok src d1 d3.
Proof.
  intros [_ Hs1 Hd1 Hst1 Hl1] [Hok Hs2 Hd2 Hst2 Hl2]. split; [done|congruence|congruence|auto|].
  intros Hf. specialize (Hl2 Hf). assert (overflow d2 = false) as Hf2 by (destruct (overflow d2); [rewrite Hst2 in Hf|]; done).
  specialize (Hl1 Hf2). lia.
Qed.

Lemma step_refl src d : data_ok src d -> step_ok src d d.
Proof. by split. Qed.

Lemma not_overflow src d d' : step_ok src d d' -> overflow d' = false -> overflow d = false.
Proof. intros H Hf. destruct (overflow d) eqn:Ho; [|done]. by rewrite (so_sticky _ _ _ H Ho) in Hf. Qed.

Lemma read_fields d d' : read_on d d' ->
  source_end d' = source_end d /\ dest d' = dest d /\ dest_end d' = dest_end d /\ out d' = out d /\
  ltree d' = ltree d /\ dtree d' = dtree d.
Proof. intros (E & _). by rewrite E. Qed.

Lemma read_step src d d' : data_ok src d -> bits_ok src d' -> read_on d d' ->
  (overflow d' = false -> (length (stream src d') <= length (stream src d))%nat) -> step_ok src d d'.
Proof.
  intros [_ Hd He Hl Hs] Hb Hro Hlen. destruct (read_fields _ _ Hro) as (E1 & E2 & E3 & E4 & E5 & E6).
  split; [split|..]; rewrite ?E1, ?E2, ?E3, ?E4, ?E5, ?E6; try done. apply Hro.
Qed.

(** ** The bit reader *)

Lemma getbits_safe src d num : data_ok src d -> 0 <= num <= 13 ->
  exists v d', tinf_getbits src d num = Ret (v, d') /\ 0 <= v < 2 ^ num /\ step_ok src d d' /\ read_on d d' /\
    (overflow d' = false -> length (stream src d) = Z.to_nat num + length (stream src d'))%nat.
Proof.
  intros Hd Hn. destruct (getbits_ok src d num (do_bits _ _ Hd) Hn) as (v & d' & E & Hv & Hb & Hro & Hst & _).
  assert (overflow d' = false -> length (stream src d) = Z.to_nat num + length (stream src d'))%nat as Hlen.
  { intros Hf. by rewrite (Hst Hf), length_app, length_bits_of. }
  exists v, d'. split; [done|]. split; [done|]. split; [|done]. apply read_step; [done..|]. intros Hf. specialize (Hlen Hf). lia.
Qed.

Lemma getbits_base_safe src d num base : data_ok src d -> 0 <= num <= 13 ->
  exists v d', tinf_getbits_base src d num base = Ret (v, d') /\ base <= v < base + 2 ^ num /\ step_ok src d d' /\ read_on d d'.
Proof.
  intros Hd Hn. unfold tinf_getbits_base. destruct (Z.eqb_spec num 0) as [->|Hne].
  - exists base, d. split; [done|]. split; [simpl; lia|]. split; [by apply step_refl|done].
  - destruct (getbits_safe src d num Hd Hn) as (v & d' & -> & Hv & Hs & Hro & _). simpl. exists (base + v), d'.
    split; [done|]. split; [lia|]. by split.
Qed.

Lemma decode_symbol_safe src t d : tree_ok t -> data_ok src d ->
  exists s d', tinf_decode_symbol src d t = Ret (s, d') /\ step_ok src d d' /\ read_on d d' /\ -1 <= s < 65536 /\
    (overflow d' = false -> (length (stream src d') < length (stream src d))%nat).
Proof.
  intros Ht Hd. destruct (decode_symbol_ok src t d Ht (do_bits _ _ Hd)) as (s & d' & E & Hb & Hro & Hs & Hlen & _).
  exists s, d'. split; [done|]. split; [apply read_step; [done..|]; intros Hf; specialize (Hlen Hf); lia|]. split; [done|].
  split; [|done]. destruct Hs as [->|Hs]; [lia|]. apply (to_symbol _ Ht) in Hs. lia.
Qed.

(** ** Arrays *)

Lemma store_ok {A} (l : list A) i x : 0 <= i < zlength l -> store l i x = Ret (set l i x).
Proof. intros Hi. unfold store. by destruct (get_Some l i Hi) as (y & ->). Qed.

Lemma lens_set lens i x : lens_ok lens -> 0 <= x < 256 -> lens_ok (set lens i x).
Proof. intros [Hl Hr] Hx. split; [by rewrite zlength_set|]. intros l [->|Hl']%elem_of_set; auto. Qed.

Lemma clear_lengths_ok n i lens : lens_ok lens -> 0 <= i -> i + Z.of_nat n <= 320 ->
  exists lens', clear_lengths n i lens = Ret lens' /\ lens_ok lens'.
Proof.
  revert i lens. induction n as [|n IH]; intros i lens Hl Hi Hn; [by exists lens|]. cbn [clear_lengths].
  rewrite store_ok by (rewrite (proj1 Hl); lia). rewrite Ret_bind. apply IH; [by apply lens_set|lia|lia].
Qed.

Lemma put_lengths_ok n num sym lens : lens_ok lens -> 0 <= num -> num + Z.of_nat n <= 320 ->
  exists lens', put_lengths n num sym lens = Ret lens' /\ lens_ok lens'.
Proof.
  revert num lens. induction n as [|n IH]; intros i lens Hl Hi Hn; [by exists lens|]. cbn [put_lengths].
  rewrite store_ok by (rewrite (proj1 Hl); lia). rewrite Ret_bind. apply IH; [apply lens_set; [done|apply u8_range]|lia|lia].
Qed.

Lemma read_code_lengths_safe n i src d lens : data_ok src d -> lens_ok lens -> 0 <= i -> i + Z.of_nat n <= 19 ->
  exists lens' d', read_code_lengths n i src d lens = Ret (lens', d') /\ lens_ok lens' /\ step_ok src d d' /\ read_on d d'.
Proof.
  revert i d lens. induction n as [|n IH]; intros i d lens Hd Hl Hi Hn.
  { exists lens, d. split; [done|]. split; [done|]. split; [by apply step_refl|done]. }
  cbn [read_code_lengths]. destruct (get_Some clcidx i) as (k & Hk); [change (zlength clcidx) with 19; lia|].
  rewrite (at_Some _ _ _ Hk), Ret_bind.
  destruct (getbits_safe src d 3 Hd) as (v & d1 & -> & Hv & Hs & Hro & _); [lia|]. rewrite Ret_bind. cbv beta iota zeta.
  assert (0 <= k < 19) as Hk19.
  { apply get_In in Hk. revert k Hk. apply Forall_forall. unfold clcidx. repeat constructor; lia. }
  rewrite store_ok by (rewrite (proj1 Hl); lia). rewrite Ret_bind.
  destruct (IH (i + 1) d1 (set lens k (u8 v))) as (lens' & d' & E & Hl' & Hs' & Hro'); [apply Hs|apply lens_set; [done|apply u8_range]|lia|lia|].
  exists lens', d'. split; [done|]. split; [done|]. split; [by eapply step_trans|by etransitivity].
Qed.

Lemma run_of_symbol_safe src d lens num sym : data_ok src d -> lens_ok lens -> 0 <= num < 320 -> 0 <= sym ->
  exists run d', run_of_symbol src d lens num sym = Ret (run, d') /\ step_ok src d d' /\ read_on d d' /\
    (forall s n, run = Some (s, n) -> 1 <= n).
Proof.
  intros Hd Hl Hnum Hsym. unfold run_of_symbol. destruct (sym =? 16); [destruct (Z.eqb_spec num 0)|destruct (sym =? 17); [|destruct (sym =? 18)]].
  - exists None, d. split; [done|]. split; [by apply step_refl|done].
  - destruct (get_Some lens (num - 1)) as (prev & Hp); [rewrite (proj1 Hl); lia|]. rewrite (at_Some _ _ _ Hp), Ret_bind.
    destruct (getbits_base_safe src d 2 3 Hd) as (v & d' & -> & Hv & Hs); [lia|]. rewrite Ret_bind.
    eexists _, _. split; [done|]. split; [apply Hs|]. split; [apply Hs|]. intros ? ? [= _ <-]. lia.
  - destruct (getbits_base_safe src d 3 3 Hd) as (v & d' & -> & Hv & Hs); [lia|]. rewrite Ret_bind.
    eexists _, _. split; [done|]. split; [apply Hs|]. split; [apply Hs|]. intros ? ? [= _ <-]. lia.
  - destruct (getbits_base_safe src d 7 11 Hd) as (v & d' & -> & Hv & Hs); [lia|]. rewrite Ret_bind.
    eexists _, _. split; [done|]. split; [apply Hs|]. split; [apply Hs|]. intros ? ? [= _ <-]. lia.
  - exists (Some (sym, 1)), d. split; [done|]. split; [by apply step_refl|]. split; [done|]. intros ? ? [= _ <-]. lia.
Qed.

(** ** Trees *)

Definition is_code (res : Z) : Prop := res = TINFLATE_OK \/ res = TINFLATE_INVALID_DATA \/ res = TINFLATE_OUTPUT_OVERFLOW.

Lemma read_lengths_safe fuel src d lt lens num total :
  data_ok src d -> tree_ok lt -> lens_ok lens -> 0 <= num <= total -> total <= 316 -> total - num <= Z.of_nat fuel ->
  exists res lens' d', read_lengths fuel src d lt lens num total = Ret (res, lens', d') /\ is_code res /\
    lens_ok lens' /\ step_ok src d d' /\ read_on d d'.
Proof.
  intros Hd Ht. revert d lens num Hd. induction fuel as [|fuel IH]; intros d lens num Hd Hl Hn Htot Hf; cbn [read_lengths].
  all: destruct (Z.ltb_spec num total); [|eexists _, lens, d; split; [done|]; split; [by left|]; split; [done|]; split; [by apply step_refl|done]].
  { lia. }
  destruct (decode_symbol_safe src lt d Ht Hd) as (s & d1 & -> & Hs1 & Hro1 & Hsym & _). rewrite Ret_bind. cbv beta iota zeta.
  destruct (_ || _) eqn:Hbad.
  { eexists _, lens, d1. split; [done|]. split; [by right; left|]. by split_and!. }
  apply orb_false_iff in Hbad as [Hs0 _]. apply Z.ltb_ge in Hs0.
  destruct (run_of_symbol_safe src d1 lens num s (so_ok _ _ _ Hs1) Hl) as (run & d2 & -> & Hs2 & Hro2 & Hrun); [lia|done|].
  assert (step_ok src d d2) as Hs12 by (by eapply step_trans). assert (read_on d d2) as Hro12 by (by etransitivity).
  rewrite Ret_bind. cbv beta iota zeta. destruct run as [[sym n]|].
  2: { eexists _, lens, d2. split; [done|]. split; [by right; left|]. by split_and!. }
  specialize (Hrun sym n eq_refl). destruct (Z.ltb_spec (total - num) n).
  { eexists _, lens, d2. split; [done|]. split; [by right; left|]. by split_and!. }
  destruct (put_lengths_ok (Z.to_nat n) num sym lens Hl) as (lens' & -> & Hl'); [lia|lia|]. rewrite Ret_bind.
  destruct (IH d2 lens' (num + n)) as (res & lens2 & d' & E & Hc & Hl2 & Hs & Hro); [apply Hs2|done|lia|lia|lia|].
  exists res, lens2, d'. split; [done|]. split; [done|]. split; [done|]. split; [by eapply step_trans|by etransitivity].
Qed.

Lemma build_tree_safe t lens num : syms_ok t -> 0 <= num <= 288 -> num <= zlength lens -> (forall l, l ∈ lens -> 0 <= l) ->
  exists res t', tinf_build_tree t lens num = Ret (res, t') /\ syms_ok t' /\
    (res = TINFLATE_OK /\ tree_for (take (Z.to_nat num) lens) t' \/ res = TINFLATE_INVALID_DATA).
Proof.
  intros [Hsl Hsr] Hn Hlen Hnn.
  assert (zlength (take (Z.to_nat num) lens) = num) as Hz by (unfold zlength in *; rewrite length_take; lia).
  destruct (build_tree_ok t (take (Z.to_nat num) lens) (drop (Z.to_nat num) lens) Hsl Hsr) as [(_ & t' & E & Ht)|(_ & t' & E & Hs)];
    [lia|intros l Hl%elem_of_take; destruct Hl as (i & Hl & _); apply Hnn; by eapply list_elem_of_lookup_2|..];
    rewrite Hz, take_drop in E; eexists _, t'; (split; [done|]).
  - pose proof (tf_ok _ _ Ht) as [_ _ _ _ ? ?]. split; [done|]. by left.
  - split; [done|]. by right.
Qed.

Lemma step_set_trees src d lt dt : data_ok src d -> syms_ok lt -> syms_ok dt -> step_ok src d (set_trees d lt dt).
Proof. intros [[]] Hl Hd. split; simpl; try done. Qed.

(** Both trees can be decoded with. *)
Definition trees_ok (d : tinf_data) : Prop := tree_ok (ltree d) /\ tree_ok (dtree d).

(** The result of an operation that answers a code and the new state. *)
Definition answers (src : memory) (d : tinf_data) (Q : Z -> tinf_data -> Prop) (r : outcome (Z * tinf_data)) : Prop :=
  exists res d', r = Ret (res, d') /\ is_code res /\ step_ok src d d' /\ Q res d'.

Lemma answers_at src d d' res (Q : Z -> tinf_data -> Prop) : is_code res -> step_ok src d d' -> Q res d' -> answers src d Q (Ret (res, d')).
Proof. intros. by exists res, d'. Qed.

Lemma answers_from src d d1 Q r : step_ok src d d1 -> answers src d1 Q r -> answers src d Q r.
Proof. intros Hs (res & d' & E & Hc & Hs' & HQ). exists res, d'. split; [done|]. split; [done|]. split; [by eapply step_trans|done]. Qed.

Lemma invalid_code : is_code TINFLATE_INVALID_DATA.
Proof. by right; left. Qed.

Lemma overflow_code : is_code TINFLATE_OUTPUT_OVERFLOW.
Proof. by right; right. Qed.

#[local] Hint Resolve invalid_code overflow_code step_refl : core.

(** From a step on, the new state is the state. *)
Ltac from_step Hd Hs :=
  rewrite Ret_bind; cbv beta iota zeta; apply (answers_from _ _ _ _ _ Hs); apply so_ok in Hs; clear Hd; rename Hs into Hd.

Lemma decode_trees_safe src d lens : data_ok src d -> lens_ok lens ->
  answers src d (fun res d' => res = TINFLATE_OK -> trees_ok d') (tinf_decode_trees src d lens).
Proof.
  intros Hd Hl. unfold tinf_decode_trees.
  destruct (getbits_base_safe src d 5 257 Hd) as (hlit & d1 & -> & Hv1 & Hs & _); [lia|]. from_step Hd Hs.
  destruct (getbits_base_safe src d1 5 1 Hd) as (hdist & d2 & -> & Hv2 & Hs & _); [lia|]. from_step Hd Hs.
  destruct (getbits_base_safe src d2 4 4 Hd) as (hclen & d3 & -> & Hv3 & Hs & _); [lia|]. from_step Hd Hs.
  change (2 ^ 4) with 16 in Hv3.
  destruct (_ || _) eqn:Hbad; [apply answers_at; auto; done|]. apply orb_false_iff in Hbad as [Hlit%Z.ltb_ge Hdist%Z.ltb_ge].
  destruct (clear_lengths_ok 19 0 lens Hl) as (lens0 & -> & Hl0); [lia|lia|]. rewrite Ret_bind.
  destruct (read_code_lengths_safe (Z.to_nat hclen) 0 src d3 lens0 Hd Hl0) as (lens1 & d4 & -> & Hl1 & Hs & _); [lia|lia|].
  from_step Hd Hs.
  destruct (build_tree_safe (ltree d4) lens1 19 (do_lsyms _ _ Hd)) as (res & lt & -> & Hlt & Hres); [lia|rewrite (proj1 Hl1); lia|intros l ?; by apply Hl1|].
  pose proof (step_set_trees src d4 lt (dtree d4) Hd Hlt (do_dsyms _ _ Hd)) as Hs. from_step Hd Hs.
  destruct Hres as [[-> Htl]| ->]; [|apply answers_at; auto; done]. change (negb (TINFLATE_OK =? TINFLATE_OK)) with false. cbv iota.
  destruct (max_sym lt =? -1); [apply answers_at; auto; done|].
  destruct (read_lengths_safe (Z.to_nat (hlit + hdist)) src (set_trees d4 lt (dtree d4)) lt lens1 0 (hlit + hdist) Hd (tf_ok _ _ Htl) Hl1)
    as (res & lens2 & d5 & -> & Hc & Hl2 & Hs & _); [lia|lia|lia|]. from_step Hd Hs.
  destruct (negb _) eqn:Hne; [apply answers_at; auto; intros ->; done|].
  destruct (get_Some lens2 256) as (l256 & H256); [rewrite (proj1 Hl2); lia|]. rewrite (at_Some _ _ _ H256), Ret_bind.
  destruct (l256 =? 0); [apply answers_at; auto; done|].
  destruct (build_tree_safe (ltree d5) lens2 hlit (do_lsyms _ _ Hd)) as (res2 & lt2 & -> & Hlt2 & Hres2); [lia|rewrite (proj1 Hl2); lia|intros l ?; by apply Hl2|].
  pose proof (step_set_trees src d5 lt2 (dtree d5) Hd Hlt2 (do_dsyms _ _ Hd)) as Hs. from_step Hd Hs.
  destruct Hres2 as [[-> Htl2]| ->]; [|apply answers_at; auto; done]. change (negb (TINFLATE_OK =? TINFLATE_OK)) with false. cbv iota.
  change (dtree (set_trees d5 lt2 (dtree d5))) with (dtree d5).
  destruct (build_tree_safe (dtree d5) (drop (Z.to_nat hlit) lens2) hdist (do_dsyms _ _ Hd)) as (res3 & dt & -> & Hdt & Hres3); [lia| | |].
  { destruct Hl2 as [Hl2 _]. unfold zlength in *. rewrite length_drop. lia. }
  { intros l Hin. apply Hl2. rewrite <- (take_drop (Z.to_nat hlit) lens2). apply elem_of_app. by right. }
  rewrite Ret_bind. apply answers_at; [|by apply step_set_trees|].
  - destruct Hres3 as [[-> _]| ->]; [by left|auto].
  - intros ->. destruct Hres3 as [[_ Htd]|?]; [|done]. split; [apply (tf_ok _ _ Htl2)|apply (tf_ok _ _ Htd)].
Qed.

(** *** The fixed trees *)

Definition run_from (first : Z) (n : nat) : list Z := (fun i => first + Z.of_nat i) <$> seq 0 n.

Lemma run_from_S first n : run_from first (S n) = first :: run_from (first + 1) n.
Proof.
  unfold run_from. simpl. rewrite Z.add_0_r. f_equal. rewrite <- (fmap_S_seq 0 n), <- list_fmap_compose.
  apply list_fmap_ext. intros i x _. simpl. lia.
Qed.

Lemma set_middle {A} (a : list A) x b y : set (a ++ x :: b) (zlength a) y = a ++ y :: b.
Proof.
  unfold set, zlength. destruct (Z.ltb_spec (Z.of_nat (length a)) 0); [lia|]. rewrite Nat2Z.id.
  by rewrite insert_app_r_alt, Nat.sub_diag.
Qed.

Lemma fill_symbols_eq n pre mid post first : length mid = n -> 0 <= first -> first + Z.of_nat n <= 65536 ->
  fill_symbols n (pre ++ mid ++ post) (zlength pre) first = Ret (pre ++ run_from first n ++ post).
Proof.
  revert pre mid first. induction n as [|n IH]; intros pre mid first Hlen Hf Hn; cbn [fill_symbols].
  { by destruct mid. }
  destruct mid as [|x mid]; [done|]. simpl in Hlen. injection Hlen as Hlen.
  rewrite store_ok by (rewrite !zlength_app, zlength_cons; pose proof (zlength_nonneg pre); pose proof (zlength_nonneg mid);
    pose proof (zlength_nonneg post); lia). rewrite Ret_bind. cbn [app]. rewrite set_middle, u16_id by lia.
  replace (zlength pre + 1) with (zlength (pre ++ [first])) by (rewrite zlength_app; done).
  replace (pre ++ first :: mid ++ post) with ((pre ++ [first]) ++ mid ++ post) by (by rewrite <- app_assoc).
  rewrite IH by (done || lia). by rewrite <- app_assoc, run_from_S.
Qed.

Lemma fill_symbols_at n pre mid post at_ first : length mid = n -> 0 <= first -> first + Z.of_nat n <= 65536 -> zlength pre = at_ ->
  fill_symbols n (pre ++ mid ++ post) at_ first = Ret (pre ++ run_from first n ++ post).
Proof. intros ? ? ? <-. by apply fill_symbols_eq. Qed.

Definition fixed_ltree : tinf_tree :=
  mk_tree (set (set (set (replicate 16 0) 7 24) 8 152) 9 112) (run_from 256 24 ++ run_from 0 144 ++ run_from 280 8 ++ run_from 144 112) 285.

Definition fixed_dtree (rest : list Z) : tinf_tree :=
  mk_tree (set (replicate 16 0) 5 32) (run_from 0 32 ++ rest) 29.

Lemma build_fixed_eq lt dt : syms_ok lt -> syms_ok dt ->
  tinf_build_fixed_trees lt dt = Ret (fixed_ltree, fixed_dtree (drop 32 (symbols dt))).
Proof.
  intros [Hl _] [Hd _]. unfold tinf_build_fixed_trees. destruct lt as [? ls ?], dt as [? ds ?]. simpl symbols in *.
  assert (forall n (l : list Z), (n <= length l)%nat -> exists a b, l = a ++ b /\ length a = n) as Hsplit.
  { intros n l Hn. exists (take n l), (drop n l). rewrite take_drop, length_take. split; [done|lia]. }
  unfold zlength in *.
  destruct (Hsplit 24%nat ls) as (a & r & -> & Ha); [lia|]. rewrite length_app in Hl.
  destruct (Hsplit 144%nat r) as (b & r2 & -> & Hb); [lia|]. rewrite length_app in Hl.
  destruct (Hsplit 8%nat r2) as (c & e & -> & Hc); [lia|]. rewrite length_app in Hl.
  rewrite (fill_symbols_at 24 [] a (b ++ c ++ e)), Ret_bind by (done || lia). cbn [app].
  rewrite (fill_symbols_at 144 (run_from 256 24) b (c ++ e)), Ret_bind by (done || lia).
  rewrite (app_assoc (run_from 256 24)), (fill_symbols_at 8 _ c e), Ret_bind by (done || lia).
  rewrite (app_assoc _ (run_from 280 8)), <- (app_nil_r e), (fill_symbols_at 112 _ e []), Ret_bind by (done || lia).
  destruct (Hsplit 32%nat ds) as (f & g & -> & Hf); [lia|].
  rewrite (fill_symbols_at 32 [] f g), Ret_bind by (done || lia). cbn [app]. unfold fixed_ltree.
  rewrite app_nil_r, <- !app_assoc.
  by rewrite drop_app_length'.
Qed.

Lemma run_from_range first n x : x ∈ run_from first n -> first <= x < first + Z.of_nat n.
Proof. unfold run_from. intros (i & -> & Hi%elem_of_seq)%list_elem_of_fmap. lia. Qed.

Lemma tree_count_nonneg t l : zlength (counts t) = 16 -> Forall (fun c => 0 <= c) (counts t) -> 0 <= tree_count t l.
Proof.
  intros Hlen Hf. unfold tree_count. destruct (counts t .@ (Z.of_nat l)) as [x|] eqn:Hx; [|done].
  apply get_In in Hx. by apply (proj1 (Forall_forall _ _) Hf).
Qed.

Lemma fixed_ltree_ok : tree_ok fixed_ltree.
Proof.
  split; [done|done| |by vm_compute|done|].
  - intros l. apply tree_count_nonneg; [done|]. unfold fixed_ltree. vm_compute. repeat constructor; discriminate.
  - intros s. unfold fixed_ltree. cbn [symbols]. rewrite !elem_of_app.
    intros [H|[H|[H|H]]]; apply run_from_range in H; lia.
Qed.

Lemma fixed_dtree_ok t : syms_ok t -> tree_ok (fixed_dtree (drop 32 (symbols t))).
Proof.
  intros [Hl Hr]. split; [done|done| |by vm_compute|..].
  - intros l. apply tree_count_nonneg; [done|]. vm_compute. repeat constructor; discriminate.
  - unfold fixed_dtree. cbn [symbols]. rewrite zlength_app. change (zlength (run_from 0 32)) with 32. unfold zlength in *. rewrite length_drop. lia.
  - unfold fixed_dtree. cbn [symbols]. intros s [H%run_from_range|H]%elem_of_app; [lia|]. apply Hr.
    rewrite <- (take_drop 32 (symbols t)). apply elem_of_app. by right.
Qed.

(** ** Blocks *)

Lemma copy_match_ok n out dest offs : 0 < offs <= dest -> dest + Z.of_nat n <= zlength out ->
  exists out', copy_match n out dest offs = Ret out' /\ zlength out' = zlength out.
Proof.
  revert out dest. induction n as [|n IH]; intros out dest Ho Hd; [by exists out|]. cbn [copy_match].
  destruct (get_Some out (dest - offs)) as (b & Hb); [lia|]. rewrite (at_Some _ _ _ Hb), Ret_bind, store_ok by lia. rewrite Ret_bind.
  destruct (IH (set out dest b) (dest + 1)) as (out' & E & Hl); [lia|rewrite zlength_set; lia|].
  exists out'. by rewrite zlength_set in Hl.
Qed.

(** Only the trees stay as they are. *)
Definition same_trees (d d' : tinf_data) : Prop := ltree d' = ltree d /\ dtree d' = dtree d.

Lemma step_out src d n out' : data_ok src d -> 0 <= n <= dest_end d - dest d -> zlength out' = zlength (out d) ->
  step_ok src d (set_out d (dest d + n) out').
Proof. intros [[] ? ? ? ?] Hn Hl. split; simpl; try done. split; simpl; try done; [lia|congruence]. Qed.


Lemma i32_le x : 0 <= x -> i32 x <= x.
Proof. intros Hx. unfold i32. pose proof (u32_le x Hx). case_if; lia. Qed.

(** The entries of the tables. *)
Lemma length_tables i : 0 <= i <= 28 ->
  exists b base, length_bits .@ i = Some b /\ length_base .@ i = Some base /\ 0 <= b <= 13 /\ 1 <= base.
Proof.
  intros Hi. destruct (get_Some length_bits i) as (b & Hb); [change (zlength length_bits) with 30; lia|].
  destruct (get_Some length_base i) as (base & Hbase); [change (zlength length_base) with 30; lia|].
  exists b, base. split; [done|]. split; [done|].
  change length_bits with (take 29 length_bits ++ [127]) in Hb. change length_base with (take 29 length_base ++ [0]) in Hbase.
  rewrite get_app_l in Hb, Hbase by (change (zlength (take 29 _)) with 29; lia). apply get_In in Hb, Hbase. split.
  - revert b Hb. apply Forall_forall. vm_compute take. repeat constructor; lia.
  - revert base Hbase. apply Forall_forall. vm_compute take. repeat constructor; lia.
Qed.

Lemma dist_tables i : 0 <= i <= 29 ->
  exists b base, dist_bits .@ i = Some b /\ dist_base .@ i = Some base /\ 0 <= b <= 13 /\ 1 <= base.
Proof.
  intros Hi. destruct (get_Some dist_bits i) as (b & Hb); [change (zlength dist_bits) with 30; lia|].
  destruct (get_Some dist_base i) as (base & Hbase); [change (zlength dist_base) with 30; lia|].
  exists b, base. split; [done|]. split; [done|]. apply get_In in Hb, Hbase. split.
  - revert b Hb. apply Forall_forall. unfold dist_bits. repeat constructor; lia.
  - revert base Hbase. apply Forall_forall. unfold dist_base. repeat constructor; lia.
Qed.

Lemma inflate_match_safe src d sym : data_ok src d -> trees_ok d -> 256 < sym ->
  exists res d', inflate_match src d sym = Ret (res, d') /\ step_ok src d d' /\ same_trees d d' /\
    (forall e, res = inl e -> is_code e /\ e <> TINFLATE_OK).
Proof.
  intros Hd [Hlt Hdt] Hsym. unfold inflate_match. destruct (_ || _ || _)%bool eqn:Hbad.
  { eexists _, d. split; [done|]. split; [auto|]. split; [done|]. intros e [= <-]. split; [auto|done]. }
  apply orb_false_iff in Hbad as [Hbad _]. apply orb_false_iff in Hbad as [_ H28%Z.ltb_ge]. cbv zeta.
  destruct (length_tables (sym - 257)) as (lb & lbase & Hlb & Hlbase & Hlbr & Hlbaser); [lia|].
  rewrite (at_Some _ _ _ Hlb), Ret_bind, (at_Some _ _ _ Hlbase), Ret_bind.
  destruct (getbits_base_safe src d lb lbase Hd) as (len & d1 & -> & Hlen & Hs1 & Hro1); [lia|]. rewrite Ret_bind. cbv beta iota zeta.
  destruct (read_fields _ _ Hro1) as (_ & _ & _ & _ & El1 & Ed1).
  destruct (decode_symbol_safe src (dtree d1) d1) as (dist & d2 & -> & Hs2 & Hro2 & Hdist & _); [by rewrite Ed1|apply Hs1|].
  destruct (read_fields _ _ Hro2) as (_ & _ & _ & _ & El2 & Ed2). assert (step_ok src d d2) as Hs12 by (by eapply step_trans).
  assert (same_trees d d2) as Hst by (split; congruence).
  rewrite Ret_bind. cbv beta iota zeta. destruct (_ || _ || _)%bool eqn:Hbad.
  { eexists _, d2. split; [done|]. split; [done|]. split; [done|]. intros e [= <-]. split; [auto|done]. }
  apply orb_false_iff in Hbad as [Hbad H29%Z.ltb_ge]. apply orb_false_iff in Hbad as [H0%Z.ltb_ge _].
  destruct (dist_tables dist) as (db & dbase & Hdb & Hdbase & Hdbr & Hdbaser); [lia|].
  rewrite (at_Some _ _ _ Hdb), Ret_bind, (at_Some _ _ _ Hdbase), Ret_bind.
  destruct (getbits_base_safe src d2 db dbase (so_ok _ _ _ Hs2)) as (offs & d3 & -> & Hoffs & Hs3 & Hro3); [lia|]. rewrite Ret_bind. cbv beta iota zeta.
  destruct (read_fields _ _ Hro3) as (_ & _ & _ & _ & El3 & Ed3). assert (step_ok src d d3) as Hs13 by (by eapply step_trans).
  assert (same_trees d d3) as Hst3 by (split; destruct Hst; congruence). pose proof (so_ok _ _ _ Hs13) as Hd3.
  destruct (Z.ltb_spec (i32 (dest d3)) offs) as [Hlt1|Hge1].
  { eexists _, d3. split; [done|]. split; [done|]. split; [done|]. intros e [= <-]. split; [auto|done]. }
  destruct (Z.ltb_spec (i32 (dest_end d3 - dest d3)) len) as [Hlt2|Hge2].
  { eexists _, d3. split; [done|]. split; [done|]. split; [done|]. intros e [= <-]. split; [auto|done]. }
  pose proof (do_dest _ _ Hd3). pose proof (do_end _ _ Hd3). pose proof (i32_le (dest d3)). pose proof (i32_le (dest_end d3 - dest d3)).
  destruct (copy_match_ok (Z.to_nat len) (out d3) (dest d3) offs) as (out' & -> & Hl'); [lia|lia|]. rewrite Ret_bind.
  eexists _, _. split; [done|]. split; [|by split].
  eapply step_trans; [done|]. apply step_out; [done|lia|done].
Qed.

(** Once the input has run out the next symbol ends the block. *)
Lemma block_loop_overflow fuel src d : data_ok src d -> trees_ok d -> overflow d = true ->
  answers src d (fun res d' => res = TINFLATE_OK -> overflow d' = false) (block_loop (S fuel) src d).
Proof.
  intros Hd Htr Ho. cbn [block_loop].
  destruct (decode_symbol_safe src (ltree d) d (proj1 Htr) Hd) as (sym & d1 & -> & Hs & _). rewrite Ret_bind. cbv beta iota zeta.
  rewrite (so_sticky _ _ _ Hs Ho). apply answers_at; auto. done.
Qed.

Lemma block_loop_safe fuel src d : data_ok src d -> trees_ok d -> (length (stream src d) < fuel)%nat ->
  answers src d (fun res d' => res = TINFLATE_OK -> overflow d' = false) (block_loop fuel src d).
Proof.
  revert d. induction fuel as [|fuel IH]; intros d Hd Htr Hf; [lia|]. cbn [block_loop].
  destruct (decode_symbol_safe src (ltree d) d (proj1 Htr) Hd) as (sym & d1 & -> & Hs & Hro & Hsym & Hlen).
  destruct (read_fields _ _ Hro) as (_ & _ & _ & _ & El & Ed).
  assert (trees_ok d1) as Htr1 by (unfold trees_ok; by rewrite El, Ed). clear Htr Hro El Ed. from_step Hd Hs.
  destruct (overflow d1) eqn:Hov; [apply answers_at; auto; done|]. specialize (Hlen eq_refl).
  destruct (Z.ltb_spec sym 256); [|destruct (Z.eqb_spec sym 256)].
  - destruct (Z.eqb_spec (dest d1) (dest_end d1)); [apply answers_at; auto; done|]. pose proof (do_dest _ _ Hd). pose proof (do_end _ _ Hd).
    rewrite store_ok by lia.
    assert (step_ok src d1 (set_out d1 (dest d1 + 1) (set (out d1) (dest d1) (byte_of_Z sym)))) as Hs
      by (apply step_out; [done|lia|apply zlength_set]). from_step Hd Hs.
    apply IH; [done|done|]. change (stream src (set_out _ _ _)) with (stream src d1). lia.
  - apply answers_at; auto. by left.
  - destruct (inflate_match_safe src d1 sym Hd Htr1) as (res & d2 & -> & Hs & [El Ed] & Herr); [lia|].
    pose proof (so_stream _ _ _ Hs) as Hlen2. from_step Hd Hs. destruct res as [e|[]].
    + destruct (Herr e eq_refl). by apply answers_at; auto.
    + destruct (overflow d2) eqn:Hov2; [|apply IH; [done|unfold trees_ok; by rewrite El, Ed|specialize (Hlen2 eq_refl); lia]].
      destruct fuel as [|fuel]; [lia|]. apply block_loop_overflow; [done|unfold trees_ok; by rewrite El, Ed|done].
Qed.

Lemma length_byte_bits l : length (concat (byte_bits <$> l)) = (8 * length l)%nat.
Proof. induction l as [|b l IH]; [done|]. rewrite fmap_cons. cbn [concat]. rewrite length_app, IH. unfold byte_bits. rewrite length_bits_of. simpl. lia. Qed.

Lemma length_stream src d : bits_ok src d -> Z.of_nat (length (stream src d)) = bitcount d + 8 * (source_end d - source d).
Proof.
  intros [Hs He Hc _ _]. unfold stream. rewrite length_app, length_bits_of, length_byte_bits. unfold chars.
  rewrite length_take, length_drop. unfold zlength in He. lia.
Qed.

(** The reader moves forward without bits. *)
Lemma step_skip src d s : data_ok src d -> source d <= s <= source_end d ->
  step_ok src d (set_bits d s 0 0 (overflow d)).
Proof.
  intros [Hb Hd He Hl Ht] Hs. pose proof Hb as [Hs0 Hse Hc Htag Ho].
  assert (bits_ok src (set_bits d s 0 0 (overflow d))) as Hb'.
  { split; simpl; try lia. intros H. specialize (Ho H). lia. }
  split; simpl; try done. intros _. pose proof (length_stream src d Hb). pose proof (length_stream _ _ Hb'). simpl in *. lia.
Qed.

Lemma copy_stored_ok n src d : data_ok src d -> tag d = 0 -> bitcount d = 0 ->
  Z.of_nat n <= source_end d - source d -> Z.of_nat n <= dest_end d - dest d ->
  exists d', copy_stored n src d = Ret d' /\ step_ok src d d' /\ overflow d' = overflow d.
Proof.
  revert d. induction n as [|n IH]; intros d Hd Ht Hc Hn Hm; [exists d; split; [done|]; auto|]. cbn [copy_stored].
  pose proof (do_bits _ _ Hd) as [Hs He _ _ _]. pose proof (do_dest _ _ Hd). pose proof (do_end _ _ Hd).
  destruct (get_Some src (source d)) as (b & Hb); [lia|]. rewrite (at_Some _ _ _ Hb), Ret_bind, store_ok by lia. rewrite Ret_bind, Ht, Hc.
  pose proof (step_skip src d (source d + 1) Hd ltac:(lia)) as Hs1. pose proof (so_ok _ _ _ Hs1) as Hd1.
  set (d1 := set_bits d _ _ _ _) in *.
  assert (step_ok src d1 (set_out d1 (dest d1 + 1) (set (out d) (dest d) b))) as Hs2 by (apply step_out; [done|simpl; lia|apply zlength_set]).
  change (dest d1) with (dest d) in Hs2. destruct (IH _ (so_ok _ _ _ Hs2)) as (d' & E & Hs' & Ho); [done|done|simpl; lia|simpl; lia|].
  exists d'. split; [done|]. split; [|done]. eapply step_trans; [exact Hs1|]. by eapply step_trans.
Qed.

Lemma read_le16_ok m p : 0 <= p -> p + 2 <= zlength m -> exists v, read_le16 m p = Ret v /\ 0 <= v < 65536.
Proof.
  intros Hp Hl. unfold read_le16, read_u8.
  destruct (get_Some m p) as (a & ->); [lia|]. destruct (get_Some m (p + 1)) as (b & ->); [lia|]. simpl.
  pose proof (byte_Z_range a). pose proof (byte_Z_range b). eexists. split; [done|].
  rewrite Z.lor_comm, lor_shiftl_add by lia. lia.
Qed.

Lemma uncompressed_safe src d : data_ok src d -> tag d = 0 -> bitcount d = 0 ->
  answers src d (fun res d' => res = TINFLATE_OK -> overflow d' = false) (tinf_inflate_uncompressed_block src d).
Proof.
  intros Hd Ht Hc. unfold tinf_inflate_uncompressed_block. pose proof (do_bits _ _ Hd) as [Hs He _ _ Ho].
  pose proof (u32_le (source_end d - source d)) as Hu. destruct (Z.ltb_spec (u32 (source_end d - source d)) 4); [apply answers_at; auto; done|].
  destruct (read_le16_ok src (source d)) as (len & -> & Hlen); [lia|lia|]. rewrite Ret_bind.
  destruct (read_le16_ok src (source d + 2)) as (inv & -> & _); [lia|lia|]. rewrite Ret_bind.
  destruct (negb _); [apply answers_at; auto; done|]. rewrite Ht, Hc. cbv zeta.
  assert (overflow d = false) as Hov by (destruct (overflow d); [specialize (Ho eq_refl); lia|done]).
  pose proof (step_skip src d (source d + 4) Hd ltac:(lia)) as Hs1. apply (answers_from _ _ _ _ _ Hs1). apply so_ok in Hs1.
  set (d1 := set_bits d _ _ _ _) in *. pose proof (do_dest _ _ Hs1). pose proof (u32_le (source_end d1 - source d1)) as Hu1.
  pose proof (u32_le (dest_end d1 - dest d1)). assert (source_end d1 - source d1 = source_end d - source d - 4) as Hsz by (simpl; lia).
  destruct (Z.ltb_spec (u32 (source_end d1 - source d1)) len); [apply answers_at; auto; done|].
  destruct (Z.ltb_spec (u32 (dest_end d1 - dest d1)) len); [apply answers_at; auto; done|].
  destruct (copy_stored_ok (Z.to_nat len) src d1 Hs1) as (d2 & -> & Hs2 & Ho2); [done|done|lia|lia|]. rewrite Ret_bind.
  apply (answers_from _ _ _ _ _ Hs2). apply so_ok in Hs2. rewrite Ho2. apply answers_at; [by left| |done].
  rewrite <- Ho2. apply step_skip; [done|]. pose proof (do_bits _ _ Hs2) as []. lia.
Qed.

(** A round for every bit of the input and the bits already read is enough. *)
Lemma stream_fuel src d : bits_ok src d -> (length (stream src d) < bit_fuel src)%nat.
Proof. intros Hb. pose proof (length_stream src d Hb). destruct Hb. unfold bit_fuel, zlength in *. lia. Qed.

Lemma inflate_block_safe src lens d btype : data_ok src d -> lens_ok lens ->
  answers src d (fun res d' => res = TINFLATE_OK -> overflow d' = false) (inflate_block src lens d btype).
Proof.
  intros Hd Hl. unfold inflate_block. destruct (btype =? 0); [|destruct (btype =? 1); [|destruct (btype =? 2)]].
  - pose proof (do_bits _ _ Hd) as [Hs _ _ _ _]. pose proof (step_skip src d (source d) Hd ltac:(lia)) as Hs1.
    apply (answers_from _ _ _ _ _ Hs1). apply uncompressed_safe; [apply Hs1|done|done].
  - rewrite build_fixed_eq by apply Hd. rewrite Ret_bind. cbv beta iota zeta.
    pose proof fixed_ltree_ok as Hlt. pose proof (fixed_dtree_ok _ (do_dsyms _ _ Hd)) as Hdt.
    eapply answers_from; [apply step_set_trees; [done|split; apply Hlt|split; apply Hdt]|].
    apply block_loop_safe; [apply step_set_trees; [done|split; apply Hlt|split; apply Hdt]|by split|].
    exact (stream_fuel src d (do_bits _ _ Hd)).
  - destruct (decode_trees_safe src d lens Hd Hl) as (res & d1 & -> & Hc & Hs & Htr).
    from_step Hd Hs. destruct (Z.eqb_spec res TINFLATE_OK) as [->|Hne]; [|by apply answers_at; auto].
    destruct (overflow d1) eqn:Ho.
    + unfold tinf_inflate_block_data, bit_fuel. rewrite Nat.add_succ_r. apply block_loop_overflow; auto.
    + apply block_loop_safe; [done|auto|]. by apply stream_fuel, Hd.
  - apply answers_at; auto. done.
Qed.

Lemma blocks_loop_safe fuel src lens d : data_ok src d -> lens_ok lens -> (length (stream src d) < fuel)%nat ->
  answers src d (fun res d' => res = TINFLATE_OK -> overflow d' = false) (blocks_loop fuel src lens d).
Proof.
  revert d. induction fuel as [|fuel IH]; intros d Hd Hl Hf; [lia|]. cbn [blocks_loop].
  destruct (getbits_safe src d 1 Hd) as (bfinal & d1 & -> & _ & Hs1 & _ & Hlen); [lia|]. rewrite Ret_bind. cbv beta iota zeta.
  destruct (getbits_safe src d1 2 (so_ok _ _ _ Hs1)) as (btype & d2 & -> & _ & Hs2 & _ & _); [lia|]. rewrite Ret_bind. cbv beta iota zeta.
  destruct (inflate_block_safe src lens d2 btype (so_ok _ _ _ Hs2) Hl) as (res & d3 & -> & Hc & Hs3 & Hok). rewrite Ret_bind. cbv beta iota zeta.
  assert (step_ok src d d3) as Hs by (eapply step_trans; [done|]; by eapply step_trans).
  destruct (Z.eqb_spec res TINFLATE_OK) as [->|Hne]; simpl negb; cbv iota; [|by apply answers_at].
  specialize (Hok eq_refl). destruct (bfinal =? 0); [|apply answers_at; [by left|done|done]].
  apply (answers_from _ _ _ _ _ Hs). apply IH; [apply Hs|done|].
  pose proof (so_stream _ _ _ Hs3 Hok). pose proof (not_overflow _ _ _ Hs3 Hok) as Ho2. pose proof (so_stream _ _ _ Hs2 Ho2).
  pose proof (not_overflow _ _ _ Hs2 Ho2) as Ho1. specialize (Hlen Ho1). lia.
Qed.

(** ** The entry points *)

Record junk_ok (j : junk) : Prop := {
  jo_ltree : syms_ok (jk_ltree j);
  jo_dtree : syms_ok (jk_dtree j);
  jo_lengths : lens_ok (jk_lengths j) }.

(** The answer of an entry point: a code, the output buffer as long as it was,
    and the output length, which is not over the buffer. *)
Definition answer_ok (dst : list byte) (r : outcome (Z * list byte * Z)) : Prop :=
  exists res dst' len, r = Ret (res, dst', len) /\ is_code res /\ zlength dst' = zlength dst /\ 0 <= len <= zlength dst.

Lemma uncompress_safe j src start source_len dst : junk_ok j -> 0 <= start -> 0 <= source_len -> start + source_len <= zlength src ->
  answer_ok dst (tinf_uncompress j src start source_len dst (zlength dst)).
Proof.
  intros [Hlt Hdt Hl] Hs Hn Hend. unfold tinf_uncompress. pose proof (zlength_nonneg dst).
  set (d := mk_data _ _ _ _ _ _ _ _ _ _). assert (data_ok src d) as Hd by (split; [split|..]; simpl; done || lia).
  destruct (blocks_loop_safe (bit_fuel src) src (jk_lengths j) d Hd Hl) as (res & d' & -> & Hc & Hs' & _); [by apply stream_fuel, Hd|].
  rewrite Ret_bind. pose proof (so_ok _ _ _ Hs') as [_ Hd' He' _ _]. rewrite (so_dest _ _ _ Hs') in *. simpl in Hd', He'.
  eexists _, _, _. split; [done|]. split; [done|]. split; [done|]. pose proof (u32_le (dest d')). pose proof (u32_range (dest d')). case_if; lia.
Qed.

(** ** The checksum *)

(** One bit of CRC-32: division by the reversed polynomial. *)
Definition crc_bit (c : Z) : Z := if Z.odd c then Z.lxor (Z.shiftr c 1) 0xEDB88320 else Z.shiftr c 1.

Definition crc_byte (c : Z) (b : byte) : Z := Nat.iter 8 crc_bit (Z.lxor c (byte_Z b)).

(** The CRC-32 of a message, bit by bit. *)
Definition crc32 (l : list byte) : Z := Z.lxor (foldl crc_byte 0xFFFFFFFF l) 0xFFFFFFFF.

Lemma odd_lxor a b : Z.odd (Z.lxor a b) = xorb (Z.odd a) (Z.odd b).
Proof. by rewrite <- !Z.bit0_odd, Z.lxor_spec. Qed.

Lemma crc_bit_lxor a b : crc_bit (Z.lxor a b) = Z.lxor (crc_bit a) (crc_bit b).
Proof.
  unfold crc_bit. rewrite odd_lxor, Z.shiftr_lxor. apply Z.bits_inj'. intros n _.
  destruct (Z.odd a), (Z.odd b); simpl; rewrite !Z.lxor_spec; repeat destruct (Z.testbit _ n); done.
Qed.

Lemma crc_bit_shift q n : 0 < n -> crc_bit (Z.shiftl q n) = Z.shiftl q (n - 1).
Proof.
  intros Hn. unfold crc_bit. rewrite <- Z.bit0_odd, Z.shiftl_spec_low by lia.
  rewrite Z.shiftr_shiftl_l by lia. done.
Qed.

(** The table holds the effect of four bits. *)
Lemma crc_nibble_eq c : crc_nibble c = Ret (Nat.iter 4 crc_bit c).
Proof.
  assert (c = Z.lxor (Z.shiftl (Z.shiftr c 4) 4) (Z.land c 15)) as Hc.
  { apply Z.bits_inj'. intros n Hn. rewrite Z.lxor_spec, Z.land_spec. change 15 with (Z.ones 4). destruct (Z.ltb_spec n 4).
    - rewrite Z.shiftl_spec_low, Z.ones_spec_low by lia. by rewrite andb_true_r, xorb_false_l.
    - rewrite Z.shiftl_spec, Z.shiftr_spec, Z.ones_spec_high by lia. rewrite andb_false_r, xorb_false_r. f_equal. lia. }
  assert (Nat.iter 4 crc_bit c = Z.lxor (Z.shiftr c 4) (Nat.iter 4 crc_bit (Z.land c 15))) as ->.
  { rewrite Hc at 1. simpl Nat.iter. rewrite !crc_bit_lxor, !crc_bit_shift by lia. by rewrite Z.shiftl_0_r. }
  unfold crc_nibble. clear Hc.
  assert (0 <= Z.land c 15 < 16) as Hr.
  { change 15 with (Z.ones 4). rewrite Z.land_ones by lia. apply Z.mod_pos_bound. lia. }
  generalize dependent (Z.land c 15). intros r Hr.
  assert (at_ tinf_crc32tab r = Ret (Nat.iter 4 crc_bit r)) as ->; [|rewrite Ret_bind; by rewrite Z.lxor_comm].
  assert (r ∈ run_from 0 16) as Hin.
  { unfold run_from. apply list_elem_of_fmap. exists (Z.to_nat r). split; [lia|]. apply elem_of_seq. lia. }
  clear Hr. revert r Hin. apply Forall_forall. vm_compute. repeat constructor.
Qed.

Lemma crc_loop_eq n m p c : 0 <= p -> p + Z.of_nat n <= zlength m ->
  crc_loop n m p c = Ret (foldl crc_byte c (chars m p (Z.of_nat n))).
Proof.
  revert p c. induction n as [|n IH]; intros p c Hp Hn; [done|]. cbn [crc_loop].
  destruct (get_Some m p) as (b & Hb); [lia|]. rewrite (chars_cons m p (Z.of_nat (S n)) b) by (done || lia).
  unfold read_u8. rewrite Hb, Ret_bind, crc_nibble_eq, Ret_bind, crc_nibble_eq, Ret_bind, IH by lia.
  replace (Z.of_nat (S n) - 1) with (Z.of_nat n) by lia. done.
Qed.

Lemma crc32_eq m p n : 0 <= p -> 0 <= n -> p + n <= zlength m -> tinf_crc32 m p n = Ret (crc32 (chars m p n)).
Proof.
  intros Hp Hn Hl. unfold tinf_crc32. destruct (Z.eqb_spec n 0) as [->|Hne]; [done|].
  rewrite crc_loop_eq by lia. rewrite Z2Nat.id by lia. done.
Qed.

Lemma lxor_lt a b n : 0 <= n -> 0 <= a < 2 ^ n -> 0 <= b < 2 ^ n -> 0 <= Z.lxor a b < 2 ^ n.
Proof.
  intros Hn Ha Hb. assert (0 <= Z.lxor a b) as H0 by (apply Z.lxor_nonneg; lia). split; [done|].
  destruct (Z.eq_dec (Z.lxor a b) 0) as [->|Hne]; [lia|]. apply Z.log2_lt_pow2; [lia|].
  pose proof (Z.log2_lxor a b ltac:(lia) ltac:(lia)).
  assert (forall x, 0 <= x < 2 ^ n -> x = 0 \/ Z.log2 x < n) as Hlog.
  { intros x Hx. destruct (Z.eq_dec x 0); [by left|]. right. apply Z.log2_lt_pow2; lia. }
  assert (n <> 0) by (intros ->; change (2 ^ 0) with 1 in *; apply Hne; replace a with 0 by lia; replace b with 0 by lia; done).
  destruct (Hlog a Ha) as [->|]; destruct (Hlog b Hb) as [->|]; simpl Z.log2 in *; lia.
Qed.

Lemma crc_bit_range c : 0 <= c < 2 ^ 32 -> 0 <= crc_bit c < 2 ^ 32.
Proof.
  intros Hc. assert (0 <= Z.shiftr c 1 < 2 ^ 32) by (rewrite Z.shiftr_div_pow2 by lia; change (2 ^ 1) with 2;
    pose proof (Z.div_pos c 2); pose proof (Z.div_le_upper_bound c 2 c); lia).
  unfold crc_bit. destruct (Z.odd c); [|done]. by apply lxor_lt.
Qed.

(** The polynomial sets the top bit, so a step can be undone. *)
Lemma crc_bit_top c : 0 <= c < 2 ^ 32 -> Z.testbit (crc_bit c) 31 = Z.odd c.
Proof.
  intros Hc. assert (Z.testbit (Z.shiftr c 1) 31 = false) as H31.
  { rewrite Z.shiftr_spec by lia. simpl (31 + 1). destruct (Z.eq_dec c 0) as [->|]; [done|].
    apply Z.bits_above_log2; [lia|]. apply Z.log2_lt_pow2; lia. }
  unfold crc_bit. destruct (Z.odd c); [|done]. by rewrite Z.lxor_spec, H31.
Qed.

Lemma crc_bit_inj a b : 0 <= a < 2 ^ 32 -> 0 <= b < 2 ^ 32 -> crc_bit a = crc_bit b -> a = b.
Proof.
  intros Ha Hb E. pose proof (crc_bit_top a Ha) as Ta. rewrite E, (crc_bit_top b Hb) in Ta. unfold crc_bit in E. rewrite Ta in E.
  assert (Z.shiftr a 1 = Z.shiftr b 1) as Es.
  { destruct (Z.odd a); [|done]. apply (f_equal (fun x => Z.lxor x 0xEDB88320)) in E.
    by rewrite !Z.lxor_assoc, !Z.lxor_nilpotent, !Z.lxor_0_r in E. }
  rewrite <- !Z.div2_spec in Es. rewrite (Z.div2_odd a), (Z.div2_odd b), Es, Ta. done.
Qed.

Lemma crc_iter_range n c : 0 <= c < 2 ^ 32 -> 0 <= Nat.iter n crc_bit c < 2 ^ 32.
Proof. intros Hc. induction n; simpl; [done|by apply crc_bit_range]. Qed.

Lemma crc_iter_inj n a b : 0 <= a < 2 ^ 32 -> 0 <= b < 2 ^ 32 -> Nat.iter n crc_bit a = Nat.iter n crc_bit b -> a = b.
Proof.
  intros Ha Hb. induction n as [|n IH]; simpl; [done|]. intros E. apply IH, crc_bit_inj; by try apply crc_iter_range.
Qed.

Lemma crc_byte_range c b : 0 <= c < 2 ^ 32 -> 0 <= crc_byte c b < 2 ^ 32.
Proof.
  intros Hc. unfold crc_byte. pose proof (byte_Z_range b). apply crc_iter_range, lxor_lt; lia.
Qed.

Lemma crc_byte_inj a b x y : 0 <= a < 2 ^ 32 -> 0 <= b < 2 ^ 32 -> crc_byte a x = crc_byte b y -> Z.lxor a (byte_Z x) = Z.lxor b (byte_Z y).
Proof.
  intros Ha Hb. pose proof (byte_Z_range x). pose proof (byte_Z_range y). apply crc_iter_inj; apply lxor_lt; lia.
Qed.

Lemma lxor_cancel_r a b c : Z.lxor a c = Z.lxor b c -> a = b.
Proof.
  intros E. apply (f_equal (fun x => Z.lxor x c)) in E.
  by rewrite !Z.lxor_assoc, !Z.lxor_nilpotent, !Z.lxor_0_r in E.
Qed.

Lemma crc_fold_inj l a b : 0 <= a < 2 ^ 32 -> 0 <= b < 2 ^ 32 -> foldl crc_byte a l = foldl crc_byte b l -> a = b.
Proof.
  revert a b. induction l as [|x l IH]; intros a b Ha Hb; simpl; [done|]. intros E.
  apply IH in E; [|by apply crc_byte_range..]. apply crc_byte_inj in E; [|done..]. by apply lxor_cancel_r in E.
Qed.

Lemma crc_fold_range l c : 0 <= c < 2 ^ 32 -> 0 <= foldl crc_byte c l < 2 ^ 32.
Proof. revert c. induction l as [|x l IH]; intros c Hc; simpl; [done|]. by apply IH, crc_byte_range. Qed.

(** A message with one byte changed has another checksum. *)
Lemma crc32_detects pre post (x y : byte) : crc32 (pre ++ x :: post) = crc32 (pre ++ y :: post) -> x = y.
Proof.
  unfold crc32. intros E%lxor_cancel_r. rewrite !foldl_app in E. simpl in E.
  pose proof (crc_fold_range pre 0xFFFFFFFF ltac:(lia)) as Hr.
  apply crc_fold_inj in E; [|by apply crc_byte_range..]. apply crc_byte_inj in E; [|done..].
  rewrite !(Z.lxor_comm (foldl _ _ _)) in E. apply lxor_cancel_r in E. by apply byte_Z_inj.
Qed.

(** ** gzip *)

Lemma skip_text_safe fuel src start : 0 <= start -> zlength src - start <= Z.of_nat fuel -> start <= zlength src < 2 ^ 32 ->
  exists o, skip_text fuel src start (zlength src) = Ret o /\ forall s, o = Some s -> start <= s <= zlength src.
Proof.
  revert start. induction fuel as [|fuel IH]; intros start Hs Hf Hl; cbn [skip_text]; rewrite u32_id by lia.
  all: destruct (Z.leb_spec (zlength src) start); [exists None; by split|].
  { lia. }
  destruct (get_Some src start) as (b & Hb); [lia|]. unfold read_u8. rewrite Hb, Ret_bind. destruct (byte_Z b =? 0).
  - exists (Some (start + 1)). split; [done|]. intros s [= <-]. lia.
  - destruct (IH (start + 1)) as (o & E & Ho); [lia|lia|lia|]. exists o. split; [done|]. intros s H'. specialize (Ho s H'). lia.
Qed.

Lemma gzip_header_safe src flg : 18 <= zlength src < 2 ^ 32 ->
  exists o, gzip_header src (zlength src) flg = Ret o /\ forall s, o = Some s -> 10 <= s <= zlength src.
Proof.
  intros Hl. unfold gzip_header. cbv zeta.
  assert (exists o, (if flag_set flg 4 then
      xlen ← read_le16 src 10; if zlength src - 12 <? xlen then Ret None else Ret (Some (10 + (xlen + 2)))
    else Ret (Some 10)) = Ret o /\ forall s, o = Some s -> 10 <= s <= zlength src) as (o1 & -> & Ho1).
  { destruct (flag_set flg 4); [|exists (Some 10); split; [done|]; intros s [= <-]; lia].
    destruct (read_le16_ok src 10) as (xlen & -> & Hx); [lia|lia|]. rewrite Ret_bind.
    destruct (Z.ltb_spec (zlength src - 12) xlen); [by exists None|]. eexists. split; [done|]. intros s [= <-]. lia. }
  assert (forall (b : bool) start, 10 <= start <= zlength src ->
    exists o, (if b then skip_text (length src) src start (zlength src) else Ret (Some start)) = Ret o /\
      forall s, o = Some s -> 10 <= s <= zlength src) as Htext.
  { intros [] start Hst; [|exists (Some start); split; [done|]; intros s [= <-]; lia].
    destruct (skip_text_safe (length src) src start) as (o & E & Ho); [lia|unfold zlength; lia|lia|].
    exists o. split; [done|]. intros s Hs. specialize (Ho s Hs). lia. }
  rewrite Ret_bind. destruct o1 as [s1|]; [|by exists None]. specialize (Ho1 s1 eq_refl).
  destruct (Htext (flag_set flg 8) s1 Ho1) as (o2 & -> & Ho2). rewrite Ret_bind.
  destruct o2 as [s2|]; [|by exists None]. specialize (Ho2 s2 eq_refl).
  destruct (Htext (flag_set flg 16) s2 Ho2) as (o3 & -> & Ho3). rewrite Ret_bind.
  destruct o3 as [s3|]; [|by exists None]. specialize (Ho3 s3 eq_refl). rewrite u32_id by lia.
  destruct (flag_set flg 2); [|exists (Some s3); split; [done|]; intros s [= <-]; lia].
  destruct (Z.ltb_spec (zlength src - 2) s3); [by exists None|].
  destruct (read_le16_ok src s3) as (hcrc & -> & _); [lia|lia|]. rewrite Ret_bind, crc32_eq, Ret_bind by lia.
  destruct (negb _); [by exists None|]. eexists. split; [done|]. intros s [= <-]. lia.
Qed.

Lemma read_le32_ok m p : 0 <= p -> p + 4 <= zlength m -> exists v, read_le32 m p = Ret v /\ 0 <= v < 2 ^ 32.
Proof.
  intros Hp Hl. unfold read_le32, read_u8.
  destruct (get_Some m p) as (a & ->); [lia|]. destruct (get_Some m (p + 1)) as (b & ->); [lia|].
  destruct (get_Some m (p + 2)) as (c & ->); [lia|]. destruct (get_Some m (p + 3)) as (e & ->); [lia|]. simpl.
  pose proof (byte_Z_range a). pose proof (byte_Z_range b). pose proof (byte_Z_range c). pose proof (byte_Z_range e).
  eexists. split; [done|]. rewrite lor_le32 by done. lia.
Qed.

(** An accepted file has the length and the checksum of its trailer. *)
Definition gzip_checked (src : memory) (r : outcome (Z * list byte * Z)) : Prop :=
  forall dst' len, r = Ret (TINFLATE_OK, dst', len) ->
    read_le32 src (zlength src - 4) = Ret len /\ read_le32 src (zlength src - 8) = Ret (crc32 (chars dst' 0 len)).

Lemma answer_dst dst res : is_code res -> answer_ok dst (Ret (res, dst, zlength dst)).
Proof. intros. pose proof (zlength_nonneg dst). by exists res, dst, (zlength dst). Qed.

Lemma gzip_safe j src dst : junk_ok j -> zlength src < 2 ^ 32 ->
  answer_ok dst (tinf_gzip_uncompress j src (zlength src) dst (zlength dst)) /\
  gzip_checked src (tinf_gzip_uncompress j src (zlength src) dst (zlength dst)).
Proof.
  intros Hj Hl. unfold tinf_gzip_uncompress. cbv zeta.
  assert (forall res, is_code res -> res <> TINFLATE_OK ->
    answer_ok dst (Ret (res, dst, zlength dst)) /\ gzip_checked src (Ret (res, dst, zlength dst))) as Herr.
  { intros res Hc Hne. split; [by apply answer_dst|]. by intros ? ? [= ? _ _]. }
  destruct (Z.ltb_spec (zlength src) 18); [by apply Herr; auto|].
  unfold read_u8. destruct (get_Some src 0) as (b0 & ->); [lia|]. destruct (get_Some src 1) as (b1 & ->); [lia|].
  destruct (get_Some src 2) as (b2 & ->); [lia|]. destruct (get_Some src 3) as (b3 & ->); [lia|]. rewrite !Ret_bind.
  destruct (_ || _); [by apply Herr; auto|].  destruct (negb _); [by apply Herr; auto|]. 
  destruct (flag_set _ _); [by apply Herr; auto|].
  destruct (gzip_header_safe src (byte_Z b3)) as (o & -> & Ho); [lia|]. rewrite Ret_bind. destruct o as [start|]; [|by apply Herr; auto].
  specialize (Ho start eq_refl). destruct (read_le32_ok src (zlength src - 4)) as (dlen & E4 & Hdlen); [lia|lia|].
  destruct (read_le32_ok src (zlength src - 8)) as (crc & E8 & _); [lia|lia|]. rewrite E4, Ret_bind, E8, Ret_bind.
  destruct (Z.ltb_spec (zlength dst) dlen); [by apply Herr; auto|]. rewrite u32_id by lia.
  destruct (Z.ltb_spec (zlength src - start) 8); [by apply Herr; auto|]. rewrite u32_id by lia.
  destruct (uncompress_safe j src start (zlength src - start - 8) dst Hj) as (res & dst' & len & -> & Hc & Hdst & Hlen); [lia|lia|lia|].
  rewrite Ret_bind. cbv beta iota zeta.
  assert (forall r, is_code r -> r <> TINFLATE_OK -> answer_ok dst (Ret (r, dst', len)) /\ gzip_checked src (Ret (r, dst', len))) as Herr'.
  { intros r Hr Hne. split; [by exists r, dst', len|]. by intros ? ? [= ? _ _]. }
  destruct (Z.eqb_spec res TINFLATE_OK) as [->|Hne]; simpl negb; cbv iota; [|by apply Herr'].
  destruct (Z.eqb_spec len dlen) as [->|Hne]; simpl negb; cbv iota; [|by apply Herr'; auto].
  rewrite crc32_eq by lia. rewrite Ret_bind. destruct (Z.eqb_spec crc (crc32 (chars dst' 0 dlen))) as [->|Hne]; simpl negb; cbv iota; [|by apply Herr'; auto].
  split; [by exists TINFLATE_OK, dst', dlen|]. by intros ? ? [= <- <-].
Qed.

(** C30: On every input and every output buffer, and whatever the uninitialised
    arrays on its stack hold, [tinflate_decompress] terminates without reading or
    writing outside its input, its output buffer, its trees or its tables; it
    answers success, invalid data or output overflow, and an output length within
    the buffer. *)
Theorem inflate_safe j src dst : junk_ok j -> zlength src < 2 ^ 32 -> answer_ok dst (tinflate_decompress j src dst).
Proof.
  intros Hj Hl. unfold tinflate_decompress, read_u8. cbv zeta. pose proof (zlength_nonneg src) as H0.
  destruct (Z.leb_spec 2 (zlength src)); [|apply uncompress_safe; done || lia].
  destruct (get_Some src 0) as (b0 & ->); [lia|]. destruct (get_Some src 1) as (b1 & ->); [lia|]. rewrite !Ret_bind.
  case_if; [by apply gzip_safe|apply uncompress_safe; done || lia].
Qed.

Definition sample_junk : junk :=
  mk_junk (mk_tree [] (replicate 288 77) 5) (mk_tree [] (replicate 288 1) 5) (replicate 320 9).

Lemma sample_junk_ok : junk_ok sample_junk.
Proof. split; split; try done; intros s Hs%elem_of_replicate; lia. Qed.

Lemma inflate_safe_witness :
  junk_ok sample_junk /\ answer_ok (bytes_of [0; 0; 0; 0]) (tinflate_decompress sample_junk (bytes_of [1; 3; 0; 252; 255; 80; 81; 82]) (bytes_of [0; 0; 0; 0])).
Proof. split; [apply sample_junk_ok|]. apply inflate_safe; [apply sample_junk_ok|]. by vm_compute. Defined.

(** The nibble-table checksum is CRC-32: [tinf_crc32] over any range of any
    buffer answers the remainder computed bit by bit with the polynomial
    0xEDB88320.  A changed byte always changes it; and a gzip file is accepted
    only when the length and checksum of its trailer are those of the output. *)
Theorem gzip_checksum_correct :
  (forall m p n, 0 <= p -> 0 <= n -> p + n <= zlength m -> tinf_crc32 m p n = Ret (crc32 (chars m p n))) /\
  (forall pre post (x y : byte), crc32 (pre ++ x :: post) = crc32 (pre ++ y :: post) -> x = y) /\
  (forall j src dst, junk_ok j -> zlength src < 2 ^ 32 -> gzip_checked src (tinf_gzip_uncompress j src (zlength src) dst (zlength dst))).
Proof. split; [exact crc32_eq|]. split; [exact crc32_detects|]. intros j src dst Hj Hl. by apply gzip_safe. Qed.

End Inflate.
