(* ===== verification/Deflate.v ===== *)
(** * The DEFLATE format

    RFC 1951 as an executable encoder: tokens, the three kinds of blocks and
    their expansion.  The decompressor of [tinflate.c] decodes every stream of
    the format, whatever matches, code lengths and block kinds the compressor
    chose, to the expansion of its tokens. *)

From Stdlib Require Import Strings.Byte.
From S2P Require Import Prelude Status Bytes Tinflate Huffman Inflate.
Import Tinflate Huffman Inflate.

Module Deflate.

(** ** Tokens *)

(** The extra bits and the smallest value of a length code (sections 3.2.5). *)
Definition len_extra (i : Z) : Z := if i <? 8 then 0 else if i =? 28 then 0 else i / 4 - 1.
Definition len_first (i : Z) : Z :=
  if i <? 8 then 3 + i else if i =? 28 then 258 else 3 + (4 + i mod 4) * 2 ^ (i / 4 - 1).

(** The same of a distance code. *)
Definition dist_extra (i : Z) : Z := if i <? 4 then 0 else i / 2 - 1.
Definition dist_first (i : Z) : Z := if i <? 4 then 1 + i else 1 + (2 + i mod 2) * 2 ^ (i / 2 - 1).

(** A literal, or a match by its length and distance codes and extra bits. *)
Inductive token :=
| Lit (b : byte)
| Copy (ls le ds de : Z).

(** [n] more bytes, each the one [dist] back. *)
Fixpoint copy_back (n : nat) (dist : Z) (out : list byte) : list byte :=
  match n with
  | O => out
  | S n => copy_back n dist (out ++ [default x00 (out .@ (zlength out - dist))])
  end.

Definition expand_token (out : list byte) (t : token) : list byte :=
  match t with
  | Lit b => out ++ [b]
  | Copy ls le ds de => copy_back (Z.to_nat (len_first ls + le)) (dist_first ds + de) out
  end.

Definition expand (out : list byte) (ts : list token) : list byte := foldl expand_token out ts.

(** The lengths of the literal and distance codes. *)
Record book := mk_book { bk_lit : list Z; bk_dist : list Z }.

Definition has_code (lens : list Z) (s : Z) : Prop := exists l, lens .@ s = Some l /\ l <> 0.

(** A token that the codes of [bk] can express behind [out]. *)
Definition token_ok (bk : book) (out : list byte) (t : token) : Prop :=
  match t with
  | Lit b => has_code (bk_lit bk) (byte_Z b)
  | Copy ls le ds de =>
    has_code (bk_lit bk) (257 + ls) /\ has_code (bk_dist bk) ds /\ 0 <= ls <= 28 /\ 0 <= ds <= 29 /\
    0 <= le < 2 ^ len_extra ls /\ 0 <= de < 2 ^ dist_extra ds /\ dist_first ds + de <= zlength out
  end.

Fixpoint tokens_ok (bk : book) (out : list byte) (ts : list token) : Prop :=
  match ts with
  | [] => True
  | t :: ts => token_ok bk out t /\ tokens_ok bk (expand_token out t) ts
  end.

(** The bits of a symbol: its canonical code. *)
Definition sym_bits (lens : list Z) (s : Z) : list bool :=
  let l := default 0 (lens .@ s) in code_bits (canonical lens s l) (Z.to_nat l).

Definition token_bits (bk : book) (t : token) : list bool :=
  match t with
  | Lit b => sym_bits (bk_lit bk) (byte_Z b)
  | Copy ls le ds de =>
    sym_bits (bk_lit bk) (257 + ls) ++ bits_of le (Z.to_nat (len_extra ls)) ++
    sym_bits (bk_dist bk) ds ++ bits_of de (Z.to_nat (dist_extra ds))
  end.

(** The tokens and the end of the block. *)
Definition tokens_bits (bk : book) (ts : list token) : list bool := concat (token_bits bk <$> ts) ++ sym_bits (bk_lit bk) 256.

(** ** Blocks *)

(** The codes of section 3.2.6. *)
Definition fixed_book : book :=
  mk_book (replicate 144 8 ++ replicate 112 9 ++ replicate 24 7 ++ replicate 8 8) (replicate 32 5).

(** The run-length code of the code lengths. *)
Inductive item :=
| Len (l : Z)
| Again (n : Z)
| Zeros (n : Z)
| ManyZeros (n : Z).

Definition item_sym (it : item) : Z :=
  match it with Len l => l | Again _ => 16 | Zeros _ => 17 | ManyZeros _ => 18 end.

Definition item_extra (it : item) : list bool :=
  match it with
  | Len _ => []
  | Again n => bits_of (n - 3) 2
  | Zeros n => bits_of (n - 3) 3
  | ManyZeros n => bits_of (n - 11) 7
  end.

(** What an item behind [lens] stands for: how many of which length. *)
Definition item_run (lens : list Z) (it : item) : Z * Z :=
  match it with
  | Len l => (1, l)
  | Again n => (n, List.last lens 0)
  | Zeros n | ManyZeros n => (n, 0)
  end.

Definition expand_item (lens : list Z) (it : item) : list Z :=
  lens ++ replicate (Z.to_nat (item_run lens it).1) (item_run lens it).2.

Definition item_ok (lens : list Z) (it : item) : Prop :=
  match it with
  | Len l => 0 <= l <= 15
  | Again n => 3 <= n <= 6 /\ lens <> []
  | Zeros n => 3 <= n <= 10
  | ManyZeros n => 11 <= n <= 138
  end.

Fixpoint items_ok (cl lens : list Z) (its : list item) : Prop :=
  match its with
  | [] => True
  | it :: its => item_ok lens it /\ has_code cl (item_sym it) /\ items_ok cl (expand_item lens it) its
  end.

Definition item_bits (cl : list Z) (it : item) : list bool := sym_bits cl (item_sym it) ++ item_extra it.

Record header := mk_header {
  hd_lit : Z;
  hd_dist : Z;
  hd_clen : Z;
  hd_cl : list Z;
  hd_items : list item }.

Definition hd_lens (h : header) : list Z := foldl expand_item [] (hd_items h).
Definition hd_book (h : header) : book :=
  mk_book (take (Z.to_nat (hd_lit h)) (hd_lens h)) (drop (Z.to_nat (hd_lit h)) (hd_lens h)).

(** The order in which the lengths of the code length code are sent. *)
Definition cl_order : list Z := [16; 17; 18; 0; 8; 7; 9; 6; 10; 5; 11; 4; 12; 3; 13; 2; 14; 1; 15].

Record header_ok (h : header) : Prop := {
  ho_lit : 257 <= hd_lit h <= 286;
  ho_dist : 1 <= hd_dist h <= 30;
  ho_clen : 4 <= hd_clen h <= 19;
  ho_cl_len : zlength (hd_cl h) = 19;
  ho_cl l : l ∈ hd_cl h -> 0 <= l < 8;
  ho_cl_rest i k : hd_clen h <= i -> cl_order .@ i = Some k -> hd_cl h .@ k = Some 0;
  ho_cl_code : code_ok (hd_cl h);
  ho_cl_some : codes (hd_cl h) <> [];
  ho_items : items_ok (hd_cl h) [] (hd_items h);
  ho_total : zlength (hd_lens h) = hd_lit h + hd_dist h;
  ho_end : has_code (bk_lit (hd_book h)) 256;
  ho_lit_code : code_ok (bk_lit (hd_book h));
  ho_dist_code : code_ok (bk_dist (hd_book h)) }.

Definition header_bits (h : header) : list bool :=
  bits_of (hd_lit h - 257) 5 ++ bits_of (hd_dist h - 1) 5 ++ bits_of (hd_clen h - 4) 4 ++
  concat ((fun k => bits_of (default 0 (hd_cl h .@ k)) 3) <$> take (Z.to_nat (hd_clen h)) cl_order) ++
  concat (item_bits (hd_cl h) <$> hd_items h).

Inductive block :=
| Stored (bs : list byte)
| Fixed (ts : list token)
| Dynamic (h : header) (ts : list token).

Definition expand_block (out : list byte) (b : block) : list byte :=
  match b with
  | Stored bs => out ++ bs
  | Fixed ts | Dynamic _ ts => expand out ts
  end.

Definition block_ok (out : list byte) (b : block) : Prop :=
  match b with
  | Stored bs => zlength bs < 65536
  | Fixed ts => tokens_ok fixed_book out ts
  | Dynamic h ts => header_ok h /\ tokens_ok (hd_book h) out ts
  end.

Fixpoint blocks_ok (out : list byte) (bs : list block) : Prop :=
  match bs with
  | [] => True
  | b :: bs => block_ok out b /\ blocks_ok (expand_block out b) bs
  end.

Definition bytes_bits (l : list byte) : list bool := concat (byte_bits <$> l).

Definition block_type (b : block) : Z :=
  match b with Stored _ => 0 | Fixed _ => 1 | Dynamic _ _ => 2 end.

(** The bits of a block behind its type, from bit [pos] of the stream on; the
    bytes of a stored block start at the next byte. *)
Definition block_body (pos : nat) (b : block) : list bool :=
  match b with
  | Stored bs =>
    replicate ((8 - pos mod 8) mod 8) false ++
    bytes_bits (encode_u16 (zlength bs) ++ encode_u16 (65535 - zlength bs) ++ bs)
  | Fixed ts => tokens_bits fixed_book ts
  | Dynamic h ts => header_bits h ++ tokens_bits (hd_book h) ts
  end.

Definition block_bits (pos : nat) (final : bool) (b : block) : list bool :=
  bits_of (Z.b2z final) 1 ++ bits_of (block_type b) 2 ++ block_body (pos + 3) b.

Fixpoint deflate (pos : nat) (bs : list block) : list bool :=
  match bs with
  | [] => []
  | b :: bs =>
    let bits := block_bits pos (match bs with [] => true | _ => false end) b in
    bits ++ deflate (pos + length bits) bs
  end.

Definition inflated (bs : list block) : list byte := foldl expand_block [] bs.

(** ** Reading bits *)

(** The decoder has exactly [bits] left to read. *)
Record at_bits (src : memory) (d : tinf_data) (bits : list bool) : Prop := {
  ab_ok : data_ok src d;
  ab_overflow : overflow d = false;
  ab_stream : stream src d = bits }.

Lemma bits_of_inj v w n : 0 <= v < 2 ^ Z.of_nat n -> 0 <= w < 2 ^ Z.of_nat n -> bits_of v n = bits_of w n -> v = w.
Proof.
  intros Hv Hw E. apply Z.bits_inj'. intros i Hi. destruct (Z.ltb_spec i (Z.of_nat n)) as [Hlt|Hge].
  - pose proof (bits_of_lookup v n (Z.to_nat i) ltac:(lia)) as H1. pose proof (bits_of_lookup w n (Z.to_nat i) ltac:(lia)) as H2.
    rewrite Z2Nat.id in H1, H2 by lia. rewrite E in H1. congruence.
  - rewrite <- (Z.mod_small v (2 ^ Z.of_nat n)), <- (Z.mod_small w (2 ^ Z.of_nat n)) by done.
    by rewrite !Z.mod_pow2_bits_high by lia.
Qed.

Lemma at_bits_read src d d' bits : data_ok src d -> bits_ok src d' -> read_on d d' -> overflow d' = false -> stream src d' = bits ->
  (length bits <= length (stream src d))%nat -> at_bits src d' bits.
Proof. intros Hd Hb Hro Ho Hst Hlen. split; [|done|done]. eapply so_ok, (read_step src d d'); try done. intros _. by rewrite Hst. Qed.

Lemma getbits_at src d v n rest : at_bits src d (bits_of v n ++ rest) -> (n <= 13)%nat -> 0 <= v < 2 ^ Z.of_nat n ->
  exists d', tinf_getbits src d (Z.of_nat n) = Ret (v, d') /\ at_bits src d' rest /\ read_on d d'.
Proof.
  intros [Hd Ho Hst] Hn Hv. destruct (getbits_ok src d (Z.of_nat n) (do_bits _ _ Hd)) as (w & d' & E & Hw & Hb & Hro & Hst' & Hov); [lia|].
  assert (overflow d' = false) as Ho'.
  { destruct (overflow d') eqn:Ho'; [|done]. destruct (Hov eq_refl) as [?|Hlen]; [congruence|].
    rewrite Hst, length_app, length_bits_of in Hlen. lia. }
  specialize (Hst' Ho'). rewrite Hst, Nat2Z.id in Hst'. apply app_inj_1 in Hst' as [Ebits Erest]; [|by rewrite !length_bits_of].
  apply bits_of_inj in Ebits as <-; [|done|done]. exists d'. split; [done|]. split; [|done].
  eapply at_bits_read; try done. rewrite Hst, length_app. lia.
Qed.

Lemma getbits_base_at src d v n base rest : at_bits src d (bits_of v (Z.to_nat n) ++ rest) -> 0 <= n <= 13 -> 0 <= v < 2 ^ n ->
  exists d', tinf_getbits_base src d n base = Ret (base + v, d') /\ at_bits src d' rest /\ read_on d d'.
Proof.
  intros Hd Hn Hv. unfold tinf_getbits_base. destruct (Z.eqb_spec n 0) as [->|Hne].
  - change (2 ^ 0) with 1 in Hv. assert (v = 0) as -> by lia. exists d. rewrite Z.add_0_r. split; [done|]. by split.
  - destruct (getbits_at src d v (Z.to_nat n) rest Hd) as (d' & E & H); [lia|by rewrite Z2Nat.id by lia|].
    rewrite Z2Nat.id in E by lia. rewrite E, Ret_bind. by exists d'.
Qed.

(** The tree decodes the canonical codes of [lens]. *)
Definition decodes (t : tinf_tree) (lens : list Z) : Prop :=
  tree_ok t /\ forall s l, lens .@ s = Some l -> l <> 0 ->
    in_tree t s (Z.to_nat l) (canonical lens s l) /\ 0 <= canonical lens s l < 2 ^ l.

Lemma decode_at src d t lens s rest : at_bits src d (sym_bits lens s ++ rest) -> decodes t lens -> has_code lens s ->
  exists d', tinf_decode_symbol src d t = Ret (s, d') /\ at_bits src d' rest /\ read_on d d'.
Proof.
  intros [Hd Ho Hst] [Ht Hc] (l & Hs & Hl). destruct (Hc s l Hs Hl) as [Hin Hr].
  pose proof (it_length _ _ _ _ Hin). unfold sym_bits in Hst. rewrite Hs in Hst. simpl in Hst.
  destruct (decode_code src t s (Z.to_nat l) (canonical lens s l) rest d Ht Hin (do_bits _ _ Hd) Ho Hst) as (d' & E & Hb & Hro & Ho' & Hst').
  { by rewrite Z2Nat.id by lia. }
  exists d'. split; [done|]. split; [|done]. eapply at_bits_read; try done. rewrite Hst, length_app. lia.
Qed.

Lemma sym_bits_pos t lens s : decodes t lens -> has_code lens s -> (1 <= length (sym_bits lens s))%nat.
Proof.
  intros [_ Hc] (l & Hs & Hl). destruct (Hc s l Hs Hl) as [Hin _]. pose proof (it_length _ _ _ _ Hin).
  unfold sym_bits. rewrite Hs. unfold code_bits. simpl. rewrite length_rev, length_bits_of. lia.
Qed.

(** ** Tokens *)

(** The output so far is [pre], in the buffer [dst]. *)
Record wrote (d : tinf_data) (pre dst : list byte) : Prop := {
  wr_dest : dest d = zlength pre;
  wr_end : dest_end d = zlength dst;
  wr_out : out d = pre ++ drop (length pre) dst;
  wr_len : (length pre <= length dst)%nat }.

Lemma wrote_read d d' pre dst : wrote d pre dst -> read_on d d' -> wrote d' pre dst.
Proof. intros [] Hro. destruct (read_fields _ _ Hro) as (_ & E1 & E2 & E3 & _). split; congruence. Qed.

Lemma length_copy_back n dist out : length (copy_back n dist out) = (length out + n)%nat.
Proof. revert out. induction n as [|n IH]; intros out; simpl; [lia|]. rewrite IH, length_app. simpl. lia. Qed.

Lemma copy_match_eq n pre rest dist : 0 < dist <= zlength pre -> (n <= length rest)%nat ->
  copy_match n (pre ++ rest) (zlength pre) dist = Ret (copy_back n dist pre ++ drop n rest).
Proof.
  revert pre rest. induction n as [|n IH]; intros pre rest Hd Hn; [done|]. cbn [copy_match copy_back].
  destruct rest as [|x rest]; simpl in Hn; [lia|].
  destruct (get_Some pre (zlength pre - dist)) as (b & Hb); [lia|].
  rewrite (at_Some _ _ b) by (rewrite get_app_l by lia; done). rewrite Ret_bind, store_ok by (rewrite zlength_app, zlength_cons; pose proof (zlength_nonneg rest); lia).
  rewrite Ret_bind, set_middle, Hb. simpl default. simpl drop.
  replace (zlength pre + 1) with (zlength (pre ++ [b])) by (by rewrite zlength_app).
  change (pre ++ b :: rest) with (pre ++ [b] ++ rest). rewrite app_assoc. apply IH; [rewrite zlength_app; pose proof (zlength_nonneg [b]); lia|lia].
Qed.

(** The tables of the decoder are those of the format. *)
Lemma length_table i : 0 <= i <= 28 ->
  length_bits .@ i = Some (len_extra i) /\ length_base .@ i = Some (len_first i) /\ 0 <= len_extra i <= 13 /\ 3 <= len_first i.
Proof.
  intros Hi. pose (f i := bool_decide (length_bits .@ i = Some (len_extra i)) && bool_decide (length_base .@ i = Some (len_first i)) &&
    (0 <=? len_extra i) && (len_extra i <=? 13) && (3 <=? len_first i)).
  pose proof (byte_cases f 29 eq_refl i ltac:(lia)) as H. unfold f in H.
  rewrite !andb_true_iff, !bool_decide_eq_true, !Z.leb_le in H. tauto.
Qed.

Lemma dist_table i : 0 <= i <= 29 ->
  dist_bits .@ i = Some (dist_extra i) /\ dist_base .@ i = Some (dist_first i) /\ 0 <= dist_extra i <= 13 /\ 1 <= dist_first i.
Proof.
  intros Hi. pose (f i := bool_decide (dist_bits .@ i = Some (dist_extra i)) && bool_decide (dist_base .@ i = Some (dist_first i)) &&
    (0 <=? dist_extra i) && (dist_extra i <=? 13) && (1 <=? dist_first i)).
  pose proof (byte_cases f 30 eq_refl i ltac:(lia)) as H. unfold f in H.
  rewrite !andb_true_iff, !bool_decide_eq_true, !Z.leb_le in H. tauto.
Qed.

(** The trees of the decoder are for the codes of [bk]. *)
Record has_book (d : tinf_data) (bk : book) : Prop := {
  hb_lit : decodes (ltree d) (bk_lit bk);
  hb_dist : decodes (dtree d) (bk_dist bk);
  hb_lit_max s : has_code (bk_lit bk) s -> s <= 285 -> s <= max_sym (ltree d);
  hb_dist_max s : has_code (bk_dist bk) s -> s <= 29 -> s <= max_sym (dtree d) }.

Lemma has_book_trees d d' bk : has_book d bk -> ltree d' = ltree d -> dtree d' = dtree d -> has_book d' bk.
Proof. intros [] El Ed. split; rewrite ?El, ?Ed; done. Qed.

Lemma has_book_read d d' bk : has_book d bk -> read_on d d' -> has_book d' bk.
Proof. intros Hb Hro. destruct (read_fields _ _ Hro) as (_ & _ & _ & _ & El & Ed). by eapply has_book_trees. Qed.

Lemma at_bits_out src d bits n out' : at_bits src d bits -> 0 <= n <= dest_end d - dest d -> zlength out' = zlength (out d) ->
  at_bits src (set_out d (dest d + n) out') bits.
Proof. intros [Hd Ho Hst] Hn Hl. split; [|done|done]. by eapply so_ok, step_out. Qed.

Lemma inflate_match_eq src d bk ls le ds de rest pre dst :
  at_bits src d (bits_of le (Z.to_nat (len_extra ls)) ++ sym_bits (bk_dist bk) ds ++ bits_of de (Z.to_nat (dist_extra ds)) ++ rest) ->
  has_book d bk -> wrote d pre dst -> token_ok bk pre (Copy ls le ds de) -> zlength dst < 2 ^ 31 ->
  zlength (expand_token pre (Copy ls le ds de)) <= zlength dst ->
  exists d', inflate_match src d (257 + ls) = Ret (inr tt, d') /\ at_bits src d' rest /\ has_book d' bk /\
    wrote d' (expand_token pre (Copy ls le ds de)) dst.
Proof.
  intros Hd Hbk Hw (Hcl & Hcd & Hls & Hds & Hle & Hde & Hdist) Hmax Hfit. unfold inflate_match.
  pose proof (hb_lit_max _ _ Hbk _ Hcl ltac:(lia)). pose proof (hb_dist_max _ _ Hbk _ Hcd ltac:(lia)).
  destruct (length_table ls Hls) as (Elb & Elf & Hlb & Hlf). destruct (dist_table ds Hds) as (Edb & Edf & Hdb & Hdf).
  destruct (Z.ltb_spec (max_sym (ltree d)) (257 + ls)); [lia|]. destruct (Z.ltb_spec 28 (257 + ls - 257)); [lia|].
  destruct (Z.eqb_spec (max_sym (dtree d)) (-1)); [lia|]. simpl orb. cbv iota zeta. replace (257 + ls - 257) with ls by lia.
  rewrite (at_Some _ _ _ Elb), Ret_bind, (at_Some _ _ _ Elf), Ret_bind.
  destruct (getbits_base_at src d le _ (len_first ls) _ Hd Hlb Hle) as (d1 & -> & Hd1 & Hro1). rewrite Ret_bind. cbv beta iota zeta.
  apply (has_book_read _ _ _ Hbk) in Hro1 as Hbk1. apply (wrote_read _ _ _ _ Hw) in Hro1 as Hw1.
  destruct (decode_at src d1 (dtree d1) _ ds _ Hd1 (hb_dist _ _ Hbk1) Hcd) as (d2 & -> & Hd2 & Hro2). rewrite Ret_bind. cbv beta iota zeta.
  apply (has_book_read _ _ _ Hbk1) in Hro2 as Hbk2. apply (wrote_read _ _ _ _ Hw1) in Hro2 as Hw2.
  pose proof (hb_dist_max _ _ Hbk2 _ Hcd ltac:(lia)).
  destruct (Z.ltb_spec ds 0); [lia|]. destruct (Z.ltb_spec (max_sym (dtree d2)) ds); [lia|]. destruct (Z.ltb_spec 29 ds); [lia|]. simpl orb. cbv iota.
  rewrite (at_Some _ _ _ Edb), Ret_bind, (at_Some _ _ _ Edf), Ret_bind.
  destruct (getbits_base_at src d2 de _ (dist_first ds) _ Hd2 Hdb Hde) as (d3 & -> & Hd3 & Hro3). rewrite Ret_bind. cbv beta iota zeta.
  apply (has_book_read _ _ _ Hbk2) in Hro3 as Hbk3. apply (wrote_read _ _ _ _ Hw2) in Hro3 as [Edest Eend Eout Hlen].
  cbn [expand_token] in *. unfold zlength in Hfit at 1. rewrite length_copy_back in Hfit. pose proof (zlength_nonneg pre).
  assert (zlength pre + (len_first ls + le) <= zlength dst) as Hfit' by (unfold zlength in *; lia).
  rewrite Edest, Eend, !i32_id by lia.
  destruct (Z.ltb_spec (zlength pre) (dist_first ds + de)); [lia|].
  destruct (Z.ltb_spec (zlength dst - zlength pre) (len_first ls + le)); [lia|].
  rewrite Eout, copy_match_eq by (rewrite ?length_drop; unfold zlength in *; lia). rewrite Ret_bind, drop_drop.
  assert (zlength pre + (len_first ls + le) = zlength (copy_back (Z.to_nat (len_first ls + le)) (dist_first ds + de) pre)) as El.
  { unfold zlength. rewrite length_copy_back. lia. }
  eexists. split; [done|]. split; [|split].
  - rewrite <- Edest. apply at_bits_out; [done|lia|]. rewrite Eout. unfold zlength in *. rewrite !length_app, !length_drop, length_copy_back. lia.
  - by eapply has_book_trees.
  - split; [exact El|done| |].
    + simpl. by rewrite length_copy_back.
    + rewrite length_copy_back. unfold zlength in *. lia.
Qed.

Lemma expand_token_len pre t : (length pre <= length (expand_token pre t))%nat.
Proof. destruct t; simpl; [rewrite length_app; lia|rewrite length_copy_back; lia]. Qed.

Lemma expand_len pre ts : (length pre <= length (expand pre ts))%nat.
Proof.
  revert pre. induction ts as [|t ts IH]; intros pre; [done|]. change (expand pre (t :: ts)) with (expand (expand_token pre t) ts).
  pose proof (expand_token_len pre t). specialize (IH (expand_token pre t)). lia.
Qed.

Lemma block_loop_eq fuel src d bk ts rest pre dst :
  at_bits src d (tokens_bits bk ts ++ rest) -> has_book d bk -> wrote d pre dst -> tokens_ok bk pre ts -> has_code (bk_lit bk) 256 ->
  zlength (expand pre ts) <= zlength dst -> zlength dst < 2 ^ 31 -> (length ts < fuel)%nat ->
  exists d', block_loop fuel src d = Ret (TINFLATE_OK, d') /\ at_bits src d' rest /\ wrote d' (expand pre ts) dst.
Proof.
  intros Hd Hbk Hw Hts H256 Hfit Hmax. revert d pre fuel Hd Hbk Hw Hts Hfit.
  induction ts as [|t ts IH]; intros d pre [|fuel] Hd Hbk Hw Hts Hfit Hfuel; [simpl in Hfuel; lia| |simpl in Hfuel; lia|]; cbn [block_loop].
  { destruct (decode_at src d (ltree d) _ 256 rest Hd (hb_lit _ _ Hbk) H256) as (d' & -> & Hd' & Hro). rewrite Ret_bind. cbv beta iota zeta.
    rewrite (ab_overflow _ _ _ Hd'). simpl. exists d'. split; [done|]. split; [done|]. by eapply wrote_read. }
  assert (forall d1, at_bits src d1 (tokens_bits bk ts ++ rest) -> has_book d1 bk -> wrote d1 (expand_token pre t) dst ->
    exists d', block_loop fuel src d1 = Ret (TINFLATE_OK, d') /\ at_bits src d' rest /\ wrote d' (expand pre (t :: ts)) dst) as Hnext.
  { intros d1 Hd1 Hbk1 Hw1. destruct Hts as [_ Hts]. apply (IH d1 (expand_token pre t)); try done. simpl in Hfuel. lia. }
  destruct Hts as [Ht _]. unfold tokens_bits in Hd. cbn [fmap list_fmap concat] in Hd.
  assert (zlength (expand_token pre t) <= zlength dst) as Hfit1.
  { pose proof (expand_len (expand_token pre t) ts). unfold zlength in *. change (expand pre (t :: ts)) with (expand (expand_token pre t) ts) in Hfit. lia. }
  destruct t as [b|ls le ds de]; cbn [token_bits] in Hd; rewrite <- !app_assoc in Hd.
  - destruct (decode_at src d (ltree d) _ (byte_Z b) _ Hd (hb_lit _ _ Hbk) Ht) as (d1 & -> & Hd1 & Hro). rewrite Ret_bind. cbv beta iota zeta.
    rewrite (ab_overflow _ _ _ Hd1). pose proof (byte_Z_range b). destruct (Z.ltb_spec (byte_Z b) 256); [|lia].
    apply (has_book_read _ _ _ Hbk) in Hro as Hbk1. apply (wrote_read _ _ _ _ Hw) in Hro as [Edest Eend Eout Hlen].
    cbn [expand_token] in Hfit1. rewrite zlength_app in Hfit1. change (zlength [b]) with 1 in Hfit1.
    destruct (Z.eqb_spec (dest d1) (dest_end d1)); [lia|].
    destruct (drop (length pre) dst) as [|x r] eqn:Edrop.
    { apply (f_equal length) in Edrop. rewrite length_drop in Edrop. unfold zlength in *. simpl in Edrop. lia. }
    rewrite Eout, Edest, store_ok by (rewrite zlength_app, zlength_cons; pose proof (zlength_nonneg pre); pose proof (zlength_nonneg r); lia).
    rewrite Ret_bind, set_middle, byte_of_Z_Z. apply Hnext.
    + rewrite <- Edest. apply at_bits_out; [by unfold tokens_bits; rewrite <- app_assoc|lia|]. rewrite Eout, !zlength_app, !zlength_cons. lia.
    + by eapply has_book_trees.
    + split; simpl; [by rewrite zlength_app|done| |].
      * rewrite length_app. rewrite <- drop_drop, Edrop. simpl. by rewrite drop_0, <- app_assoc.
      * rewrite length_app. unfold zlength in *. simpl. lia.
  - destruct (decode_at src d (ltree d) _ (257 + ls) _ Hd (hb_lit _ _ Hbk) (proj1 Ht)) as (d1 & -> & Hd1 & Hro). rewrite Ret_bind. cbv beta iota zeta.
    rewrite (ab_overflow _ _ _ Hd1). pose proof Ht as (_ & _ & Hls & _).
    destruct (Z.ltb_spec (257 + ls) 256); [lia|]. destruct (Z.eqb_spec (257 + ls) 256); [lia|].
    apply (has_book_read _ _ _ Hbk) in Hro as Hbk1. apply (wrote_read _ _ _ _ Hw) in Hro as Hw1.
    destruct (inflate_match_eq src d1 bk ls le ds de _ pre dst Hd1 Hbk1 Hw1 Ht Hmax Hfit1) as (d2 & -> & Hd2 & Hbk2 & Hw2).
    rewrite Ret_bind. cbv beta iota zeta. apply Hnext; [|done|done]. by unfold tokens_bits; rewrite <- app_assoc.
Qed.

(** Every token takes a bit. *)
Lemma tokens_bits_len d bk pre ts : has_book d bk -> tokens_ok bk pre ts -> (length ts <= length (tokens_bits bk ts))%nat.
Proof.
  intros Hbk Hts. unfold tokens_bits. rewrite length_app.
  enough (length ts <= length (concat (token_bits bk <$> ts)))%nat by lia. revert pre Hts.
  induction ts as [|t ts IH]; intros pre Hts; [done|]. destruct Hts as [Ht Hts]. specialize (IH _ Hts).
  rewrite fmap_cons. cbn [concat length]. rewrite length_app.
  assert (1 <= length (token_bits bk t))%nat; [|lia]. destruct t; simpl in *.
  - by apply (sym_bits_pos _ _ _ (hb_lit _ _ Hbk)).
  - rewrite !length_app. destruct Ht as [Hc _]. pose proof (sym_bits_pos _ _ _ (hb_lit _ _ Hbk) Hc). lia.
Qed.

Lemma block_data_eq src d bk ts rest pre dst :
  at_bits src d (tokens_bits bk ts ++ rest) -> has_book d bk -> wrote d pre dst -> tokens_ok bk pre ts -> has_code (bk_lit bk) 256 ->
  zlength (expand pre ts) <= zlength dst -> zlength dst < 2 ^ 31 ->
  exists d', tinf_inflate_block_data src d = Ret (TINFLATE_OK, d') /\ at_bits src d' rest /\ wrote d' (expand pre ts) dst.
Proof.
  intros Hd Hbk Hw Hts H256 Hfit Hmax. unfold tinf_inflate_block_data. apply (block_loop_eq _ _ _ bk); try done.
  pose proof (stream_fuel src d (do_bits _ _ (ab_ok _ _ _ Hd))) as Hf. rewrite (ab_stream _ _ _ Hd), length_app in Hf.
  pose proof (tokens_bits_len d bk pre ts Hbk Hts). lia.
Qed.

(** ** Fixed blocks *)

Definition in_treeb (t : tinf_tree) (lens : list Z) (s : Z) : bool :=
  match lens .@ s with
  | None => true
  | Some l =>
    let c := tree_count t in let code := canonical lens s l in let k := Z.to_nat l in
    (1 <=? l) && (l <=? 15) && (first_code c k <=? code) && (code <? first_code c k + c k) &&
    bool_decide (symbols t .@ (before c k + (code - first_code c k)) = Some s) && (0 <=? code) && (code <? 2 ^ l)
  end.

Lemma in_treeb_decodes t lens : tree_ok t -> forallb (in_treeb t lens) (seqZ 0 (zlength lens)) = true -> decodes t lens.
Proof.
  intros Ht Hall. split; [done|]. intros s l Hs Hl. pose proof (get_Some_range _ _ _ Hs).
  pose proof (byte_cases _ _ Hall s ltac:(lia)) as H0. unfold in_treeb in H0. rewrite Hs in H0. cbv zeta in H0.
  rewrite !andb_true_iff, bool_decide_eq_true, !Z.leb_le, !Z.ltb_lt in H0. destruct H0 as ((((((? & ?) & ?) & ?) & ?) & ?) & ?).
  split; [split; [lia|lia|done]|lia].
Qed.

Lemma fixed_lit_decodes : decodes fixed_ltree (bk_lit fixed_book).
Proof. apply in_treeb_decodes; [apply fixed_ltree_ok|]. vm_compute. reflexivity. Qed.

Lemma fixed_dist_decodes t : syms_ok t -> decodes (fixed_dtree (drop 32 (symbols t))) (bk_dist fixed_book).
Proof. intros Ht. apply in_treeb_decodes; [by apply fixed_dtree_ok|]. vm_compute. reflexivity. Qed.

(** ** Stored blocks *)

Lemma bytes_bits_cons b l : bytes_bits (b :: l) = byte_bits b ++ bytes_bits l.
Proof. done. Qed.

Lemma bytes_bits_app l m : bytes_bits (l ++ m) = bytes_bits l ++ bytes_bits m.
Proof. unfold bytes_bits. by rewrite fmap_app, concat_app. Qed.

Lemma byte_bits_inj b c : byte_bits b = byte_bits c -> b = c.
Proof. intros E. apply byte_Z_inj. unfold byte_bits in E. apply bits_of_inj in E; [done|apply byte_Z_range..]. Qed.

Lemma bytes_bits_prefix l m rest : bytes_bits m = bytes_bits l ++ rest -> exists r, m = l ++ r /\ rest = bytes_bits r.
Proof.
  revert m. induction l as [|b l IH]; intros m E; [by exists m|]. rewrite bytes_bits_cons in E. destruct m as [|c m].
  { by apply (f_equal length) in E. }
  rewrite bytes_bits_cons, <- app_assoc in E. apply app_inj_1 in E as [Eb E]; [|unfold byte_bits; by rewrite !length_bits_of].
  apply byte_bits_inj in Eb as <-. destruct (IH m E) as (r & -> & ->). by exists r.
Qed.

(** A reader at a byte boundary. *)
Lemma stream_bytes src d : bitcount d = 0 -> stream src d = bytes_bits (chars src (source d) (source_end d - source d)).
Proof. intros E. unfold stream. by rewrite E. Qed.

Lemma chars_seg src p n l r : 0 <= p -> chars src p n = l ++ r -> seg src p l.
Proof.
  intros Hp E i b Hi. assert (chars src p n .@ i = Some b) as Hb.
  { rewrite E. pose proof (get_Some_range _ _ _ Hi). by rewrite get_app_l by lia. }
  pose proof (get_Some_range _ _ _ Hi). unfold chars, get in *. destruct (Z.ltb_spec i 0); [lia|]. destruct (Z.ltb_spec (p + i) 0); [lia|].
  apply lookup_take_Some in Hb as [Hb _]. rewrite lookup_drop in Hb. rewrite <- Hb. f_equal. lia.
Qed.

Lemma chars_drop src p n l r : 0 <= p -> 0 <= n -> chars src p n = l ++ r -> chars src (p + zlength l) (n - zlength l) = r.
Proof.
  intros Hp Hn E. unfold chars, zlength in *. apply (f_equal (drop (length l))) in E. rewrite drop_app_length in E. rewrite <- E.
  rewrite skipn_firstn_comm, drop_drop. f_equal; [lia|]. f_equal. lia.
Qed.

Lemma copy_stored_eq bs src d pre old post :
  seg src (source d) bs -> dest d = zlength pre -> out d = pre ++ old ++ post -> length old = length bs ->
  copy_stored (length bs) src d =
    Ret (set_out (set_bits d (source d + zlength bs) (tag d) (bitcount d) (overflow d)) (dest d + zlength bs) (pre ++ bs ++ post)).
Proof.
  revert d pre old. induction bs as [|b bs IH]; intros d pre old Hseg Hdest Hout Hlen; cbn [copy_stored length].
  - destruct old; [|done]. change (zlength []) with 0. rewrite !Z.add_0_r. destruct d; simpl in *. by subst.
  - destruct old as [|x old]; [done|]. simpl in Hlen. injection Hlen as Hlen. apply seg_cons in Hseg as [Hb Hseg].
    rewrite (at_Some _ _ _ Hb), Ret_bind, Hout, Hdest, store_ok by
      (rewrite !zlength_app, zlength_cons; pose proof (zlength_nonneg pre); pose proof (zlength_nonneg old); pose proof (zlength_nonneg post); lia).
    rewrite Ret_bind. change (pre ++ (x :: old) ++ post) with (pre ++ x :: (old ++ post)). rewrite set_middle.
    rewrite (IH _ (pre ++ [b]) old); [|done|by rewrite zlength_app|by rewrite <- app_assoc|done].
    simpl. rewrite zlength_cons, <- app_assoc, Z.add_assoc. do 2 f_equal. lia.
Qed.

Lemma lnot_u16 v : 0 <= v < 65536 -> Z.land (u32 (Z.lnot v)) 0x0000FFFF = 65535 - v.
Proof.
  intros Hv. pose proof (Z.land_ones (u32 (Z.lnot v)) 16 ltac:(lia)) as E. change (Z.ones 16) with 65535 in E. rewrite E. clear E. unfold u32, Z.lnot.
  rewrite Z.mod_mod_divide by (by exists 65536).
  replace (Z.pred (- v)) with (65535 - v + -1 * 2 ^ 16) by lia. rewrite Z_mod_plus_full. apply Z.mod_small. lia.
Qed.

Lemma stored_eq src d bs rest pre dst :
  at_bits src d (bytes_bits (encode_u16 (zlength bs) ++ encode_u16 (65535 - zlength bs) ++ bs) ++ rest) ->
  tag d = 0 -> bitcount d = 0 -> wrote d pre dst -> zlength bs < 65536 -> zlength (pre ++ bs) <= zlength dst ->
  zlength dst < 2 ^ 31 -> zlength src < 2 ^ 32 ->
  exists d', tinf_inflate_uncompressed_block src d = Ret (TINFLATE_OK, d') /\ at_bits src d' rest /\ wrote d' (pre ++ bs) dst.
Proof.
  intros [Hd Ho Hst] Ht Hc [Edest Eend Eout Hlen] Hbs Hfit Hmax Hsrc. pose proof (do_bits _ _ Hd) as [Hs He _ _ _].
  pose proof (zlength_nonneg bs). pose proof (zlength_nonneg pre). rewrite zlength_app in Hfit.
  rewrite stream_bytes in Hst by done. apply bytes_bits_prefix in Hst as (r & Hch & ->).
  assert (source_end d - source d = 4 + zlength bs + zlength r) as Hsize.
  { apply (f_equal zlength) in Hch. rewrite !zlength_app in Hch. change (zlength (encode_u16 _)) with 2 in Hch.
    unfold zlength at 1 in Hch. unfold chars in Hch. rewrite length_take, length_drop in Hch. unfold zlength in *. lia. }
  pose proof (zlength_nonneg r). unfold tinf_inflate_uncompressed_block. rewrite u32_id by lia. destruct (Z.ltb_spec (source_end d - source d) 4); [lia|].
  pose proof (chars_seg _ _ _ _ _ (proj1 Hs) Hch) as Hseg. apply seg_app in Hseg as [Hseg1 Hseg]. apply seg_app in Hseg as [Hseg2 Hseg3].
  change (zlength (encode_u16 _)) with 2 in *.
  assert (read_le16 src (source d) = Ret (zlength bs)) as -> by (apply seg_read_u16; [lia|done]). rewrite Ret_bind.
  assert (read_le16 src (source d + 2) = Ret (65535 - zlength bs)) as -> by (apply seg_read_u16; [lia|done]).
  rewrite Ret_bind, lnot_u16 by lia. replace (65535 - (65535 - zlength bs)) with (zlength bs) by lia. rewrite Z.eqb_refl. cbv iota zeta delta [negb].
  cbn [source source_end dest dest_end set_bits]. rewrite !u32_id by lia. rewrite Edest, Eend.
  destruct (Z.ltb_spec (source_end d - (source d + 4)) (zlength bs)); [lia|]. destruct (Z.ltb_spec (zlength dst - zlength pre) (zlength bs)); [lia|].
  replace (Z.to_nat (zlength bs)) with (length bs) by (unfold zlength; lia).
  rewrite (copy_stored_eq bs src _ pre (take (length bs) (drop (length pre) dst)) (drop (length bs) (drop (length pre) dst))).
  2: { cbn [source set_bits]. by replace (source d + 4) with (source d + 2 + 2) by lia. }
  2: { exact Edest. }
  2: { by rewrite take_drop. }
  2: { rewrite length_take, length_drop. unfold zlength in *. lia. }
  rewrite Ret_bind. cbn. eexists. split; [done|]. rewrite Ho. split.
  - split; [|done|].
    + pose proof Hd as [? ? ? ? ?]. split; simpl; try done; [split; simpl; done || lia|lia|]. rewrite Eend, zlength_app, drop_drop.
      unfold zlength in *. rewrite length_app, length_drop. lia.
    + rewrite stream_bytes by done. cbn [source source_end set_bits set_out]. f_equal.
      pose proof (chars_drop src (source d) (source_end d - source d) _ _ (proj1 Hs) ltac:(lia) Hch) as E. rewrite !zlength_app in E. change (zlength (encode_u16 _)) with 2 in E.
      rewrite <- E. f_equal; lia.
  - split; cbn; [by rewrite zlength_app, Edest|done| |].
    + rewrite length_app, <- app_assoc. by rewrite drop_drop.
    + rewrite length_app. unfold zlength in *. lia.
Qed.

(** ** Dynamic blocks *)

Lemma set_app_l {A} (a b : list A) k v : 0 <= k < zlength a -> set (a ++ b) k v = set a k v ++ b.
Proof. unfold set, zlength. intros Hk. destruct (Z.ltb_spec k 0); [lia|]. apply insert_app_l. lia. Qed.

Lemma clear_lengths_eq n pre mid post : length mid = n ->
  clear_lengths n (zlength pre) (pre ++ mid ++ post) = Ret (pre ++ replicate n 0 ++ post).
Proof.
  revert pre mid. induction n as [|n IH]; intros pre mid Hlen; cbn [clear_lengths]; [by destruct mid|].
  destruct mid as [|x mid]; [done|]. simpl in Hlen. injection Hlen as Hlen.
  rewrite store_ok by (rewrite !zlength_app, zlength_cons; pose proof (zlength_nonneg pre); pose proof (zlength_nonneg mid); pose proof (zlength_nonneg post); lia).
  rewrite Ret_bind. cbn [app]. rewrite set_middle. replace (zlength pre + 1) with (zlength (pre ++ [0])) by (rewrite zlength_app; done).
  replace (pre ++ 0 :: mid ++ post) with ((pre ++ [0]) ++ mid ++ post) by (by rewrite <- app_assoc).
  rewrite IH by done. by rewrite <- app_assoc.
Qed.

Lemma put_lengths_eq n pre mid post sym : length mid = n -> 0 <= sym < 256 ->
  put_lengths n (zlength pre) sym (pre ++ mid ++ post) = Ret (pre ++ replicate n sym ++ post).
Proof.
  intros Hlen Hsym. revert pre mid Hlen. induction n as [|n IH]; intros pre mid Hlen; cbn [put_lengths]; [by destruct mid|].
  destruct mid as [|x mid]; [done|]. simpl in Hlen. injection Hlen as Hlen.
  rewrite store_ok by (rewrite !zlength_app, zlength_cons; pose proof (zlength_nonneg pre); pose proof (zlength_nonneg mid); pose proof (zlength_nonneg post); lia).
  rewrite Ret_bind, u8_id by done. cbn [app]. rewrite set_middle. replace (zlength pre + 1) with (zlength (pre ++ [sym])) by (rewrite zlength_app; done).
  replace (pre ++ sym :: mid ++ post) with ((pre ++ [sym]) ++ mid ++ post) by (by rewrite <- app_assoc).
  rewrite IH by done. by rewrite <- app_assoc.
Qed.

(** The first [i] lengths of the code length code have been read. *)
Definition cl_read (cl a : list Z) (i : Z) : Prop :=
  zlength a = 19 /\ forall j k, cl_order .@ j = Some k -> a .@ k = if j <? i then cl .@ k else Some 0.

Lemma cl_order_range j k : cl_order .@ j = Some k -> 0 <= k < 19.
Proof. intros Hk%get_In. revert k Hk. apply Forall_forall. unfold cl_order. repeat constructor; lia. Qed.

Lemma cl_order_inj i j k : cl_order .@ i = Some k -> cl_order .@ j = Some k -> i = j.
Proof.
  intros Hi Hj. pose proof (get_Some_range _ _ _ Hi) as Hri. pose proof (get_Some_range _ _ _ Hj) as Hrj. change (zlength cl_order) with 19 in *.
  pose (f i := forallb (fun j => negb (bool_decide (cl_order .@ i = cl_order .@ j)) || (i =? j)) (seqZ 0 19)).
  pose proof (byte_cases f 19 eq_refl i Hri) as H. unfold f in H. pose proof (byte_cases _ 19 H j Hrj) as H2.
  rewrite Hi, Hj in H2. rewrite bool_decide_true in H2 by done. simpl in H2. lia.
Qed.

Lemma cl_order_all k : 0 <= k < 19 -> exists j, cl_order .@ j = Some k.
Proof.
  intros Hk. apply In_get. pose (f k := bool_decide (k ∈ cl_order)). pose proof (byte_cases f 19 eq_refl k Hk) as H.
  by apply bool_decide_eq_true in H.
Qed.

Lemma read_cl_eq n i src d cl a tail rest :
  at_bits src d (concat ((fun k => bits_of (default 0 (cl .@ k)) 3) <$> take n (drop (Z.to_nat i) cl_order)) ++ rest) ->
  0 <= i -> i + Z.of_nat n <= 19 -> cl_read cl a i -> zlength cl = 19 -> (forall l, l ∈ cl -> 0 <= l < 8) ->
  exists a' d', read_code_lengths n i src d (a ++ tail) = Ret (a' ++ tail, d') /\ cl_read cl a' (i + Z.of_nat n) /\
    at_bits src d' rest /\ read_on d d'.
Proof.
  intros Hd Hi Hn Ha Hcl Hr. revert i d a Hd Hi Hn Ha. induction n as [|n IH]; intros i d a Hd Hi Hn Ha; cbn [read_code_lengths].
  { exists a, d. rewrite Z.add_0_r. split; [done|]. split; [done|]. by split. }
  destruct (get_Some cl_order i) as (k & Hk); [change (zlength cl_order) with 19; lia|]. pose proof (cl_order_range _ _ Hk) as Hk19.
  change clcidx with cl_order. rewrite (at_Some _ _ _ Hk), Ret_bind.
  assert (drop (Z.to_nat i) cl_order = k :: drop (Z.to_nat (i + 1)) cl_order) as Edrop.
  { unfold get in Hk. destruct (Z.ltb_spec i 0); [done|]. replace (Z.to_nat (i + 1)) with (S (Z.to_nat i)) by lia. by apply drop_S. }
  rewrite Edrop in Hd. cbn [take fmap list_fmap concat] in Hd. rewrite <- app_assoc in Hd.
  destruct (get_Some cl k) as (v & Hv); [lia|]. rewrite Hv in Hd. simpl default in Hd. specialize (Hr v (get_In _ _ _ Hv)) as Hvr.
  destruct (getbits_at src d v 3 _ Hd) as (d1 & E & Hd1 & Hro); [lia|simpl; lia|]. change (Z.of_nat 3) with 3 in E. rewrite E, Ret_bind. cbv beta iota zeta.
  destruct Ha as [Hal Ha]. rewrite store_ok by (rewrite zlength_app; pose proof (zlength_nonneg tail); lia).
  rewrite Ret_bind, set_app_l, u8_id by lia.
  destruct (IH (i + 1) d1 (set a k v)) as (a' & d' & E' & Ha' & Hd' & Hro'); [done|lia|lia| |].
  { split; [by rewrite zlength_set|]. intros j k' Hk'. destruct (Z.eq_dec k k') as [<-|Hne].
    - assert (j = i) as -> by (by eapply cl_order_inj). rewrite get_set_eq by lia. destruct (Z.ltb_spec i (i + 1)); [done|lia].
    - rewrite get_set_ne, (Ha j) by done. assert (j <> i) by (intros ->; congruence).
      destruct (Z.ltb_spec j i), (Z.ltb_spec j (i + 1)); done || lia. }
  exists a', d'. split; [done|]. split; [by replace (i + Z.of_nat (S n)) with (i + 1 + Z.of_nat n) by lia|]. split; [done|by etransitivity].
Qed.

Lemma get_ext {A} (a b : list A) : (forall k, 0 <= k -> a .@ k = b .@ k) -> a = b.
Proof.
  intros H. apply list_eq. intros i. specialize (H (Z.of_nat i) ltac:(lia)). unfold get in H.
  destruct (Z.ltb_spec (Z.of_nat i) 0); [lia|]. by rewrite Nat2Z.id in H.
Qed.

Lemma cl_read_all h a : header_ok h -> cl_read (hd_cl h) a (hd_clen h) -> a = hd_cl h.
Proof.
  intros Hh [Hl Ha]. apply get_ext. intros k Hk. destruct (Z.ltb_spec k 19) as [Hlt|Hge].
  - destruct (cl_order_all k) as (j & Hj); [lia|]. rewrite (Ha j k Hj). destruct (Z.ltb_spec j (hd_clen h)); [done|].
    symmetry. by eapply (ho_cl_rest _ Hh).
  - rewrite !get_None; [done|rewrite (ho_cl_len _ Hh); lia|lia].
Qed.

Lemma last_code_ge lens s : has_code lens s -> s <= last_code lens.
Proof.
  intros (l & Hs & Hl). induction lens as [|x lens IH] using rev_ind; [by rewrite get_nil in Hs|].
  rewrite last_code_snoc. pose proof (last_code_range lens). apply get_snoc_inv in Hs as [[Hlt Hs]|[-> ->]].
  - specialize (IH Hs). case_if; [done|lia].
  - case_if; lia.
Qed.

Lemma tree_for_decodes lens t : tree_for lens t -> decodes t lens.
Proof. intros [H1 _ _ H2]. by split. Qed.

Lemma build_tree_eq t lens tail : syms_ok t -> zlength lens <= 288 -> code_ok lens ->
  exists t', tinf_build_tree t (lens ++ tail) (zlength lens) = Ret (TINFLATE_OK, t') /\ tree_for lens t' /\ syms_ok t'.
Proof.
  intros [Hl Hs] Hlen Hok. destruct (build_tree_ok t lens tail Hl Hs Hlen) as [(_ & t' & E & Ht)|[? _]]; [|..|done].
  - intros l Hin. apply (proj1 Hok) in Hin. lia.
  - exists t'. split; [done|]. split; [done|]. pose proof (tf_ok _ _ Ht) as []. by split.
Qed.

Lemma item_run_range lens it : item_ok lens it -> (forall l, l ∈ lens -> 0 <= l <= 15) ->
  1 <= (item_run lens it).1 /\ 0 <= (item_run lens it).2 <= 15.
Proof.
  intros Hit Hr. destruct it as [l|n|n|n]; simpl in *; [lia| |lia|lia].
  split; [lia|]. destruct Hit as [_ Hne].
  destruct (exists_last Hne) as (pre & x & ->). rewrite last_last. apply Hr, elem_of_app. right. by apply list_elem_of_singleton.
Qed.

Lemma expand_item_range lens it : item_ok lens it -> (forall l, l ∈ lens -> 0 <= l <= 15) ->
  (forall l, l ∈ expand_item lens it -> 0 <= l <= 15) /\ zlength (expand_item lens it) = zlength lens + (item_run lens it).1.
Proof.
  intros Hit Hr. destruct (item_run_range lens it Hit Hr) as [Hn Hs]. unfold expand_item. split.
  - intros l [Hl|Hl%elem_of_replicate]%elem_of_app; [by apply Hr|lia].
  - rewrite zlength_app. unfold zlength at 2. rewrite length_replicate. lia.
Qed.

Lemma run_of_symbol_eq src d lens post it rest :
  at_bits src d (item_extra it ++ rest) -> item_ok lens it ->
  exists d', run_of_symbol src d (lens ++ post) (zlength lens) (item_sym it) = Ret (Some ((item_run lens it).2, (item_run lens it).1), d') /\
    at_bits src d' rest /\ read_on d d'.
Proof.
  intros Hd Hit. unfold run_of_symbol. destruct it as [l|n|n|n]; simpl in *.
  - destruct (Z.eqb_spec l 16); [lia|]. destruct (Z.eqb_spec l 17); [lia|]. destruct (Z.eqb_spec l 18); [lia|]. by exists d.
  - destruct Hit as [Hn Hne]. destruct (exists_last Hne) as (pre & x & ->). rewrite last_last.
    destruct (Z.eqb_spec (zlength (pre ++ [x])) 0) as [H0|_]; [rewrite zlength_app in H0; pose proof (zlength_nonneg pre); change (zlength [x]) with 1 in H0; lia|].
    replace (zlength (pre ++ [x]) - 1) with (zlength pre) by (rewrite zlength_app; change (zlength [x]) with 1; lia).
    rewrite <- app_assoc. cbn [app]. rewrite (at_Some _ _ _ (get_middle pre x post)), Ret_bind.
    destruct (getbits_base_at src d (n - 3) 2 3 rest Hd) as (d' & -> & H'); [lia|simpl; lia|]. rewrite Ret_bind.
    exists d'. by replace (3 + (n - 3)) with n by lia.
  - destruct (getbits_base_at src d (n - 3) 3 3 rest Hd) as (d' & -> & H'); [lia|simpl; lia|]. rewrite Ret_bind.
    exists d'. by replace (3 + (n - 3)) with n by lia.
  - destruct (getbits_base_at src d (n - 11) 7 11 rest Hd) as (d' & -> & H'); [lia|simpl; lia|]. rewrite Ret_bind.
    exists d'. by replace (11 + (n - 11)) with n by lia.
Qed.

Lemma expand_items_len lens its cl : items_ok cl lens its -> (forall l, l ∈ lens -> 0 <= l <= 15) ->
  zlength lens <= zlength (foldl expand_item lens its) /\ (forall l, l ∈ foldl expand_item lens its -> 0 <= l <= 15).
Proof.
  revert lens. induction its as [|it its IH]; intros lens Hits Hr; simpl; [done|]. destruct Hits as (Hit & _ & Hits).
  destruct (expand_item_range lens it Hit Hr) as [Hr1 Hl1]. destruct (item_run_range lens it Hit Hr) as [Hn _].
  destruct (IH (expand_item lens it) Hits Hr1) as [IH1 IH2]. split; [lia|done].
Qed.

Lemma read_lengths_eq fuel src d lt cl its rest lens arr total :
  at_bits src d (concat (item_bits cl <$> its) ++ rest) -> decodes lt cl -> (forall s, has_code cl s -> 0 <= s <= max_sym lt) ->
  items_ok cl lens its -> (forall l, l ∈ lens -> 0 <= l <= 15) ->
  zlength (foldl expand_item lens its) = total -> total <= zlength arr -> total - zlength lens <= Z.of_nat fuel ->
  exists d', read_lengths fuel src d lt (lens ++ drop (length lens) arr) (zlength lens) total =
      Ret (TINFLATE_OK, foldl expand_item lens its ++ drop (Z.to_nat total) arr, d') /\ at_bits src d' rest /\ read_on d d'.
Proof.
  intros Hd Hlt Hmax Hits Hr Htot Harr Hfuel. revert fuel lens d Hd Hits Hr Htot Hfuel.
  induction its as [|it its IH]; intros fuel lens d Hd Hits Hr Htot Hfuel.
  { simpl in Htot. subst total. exists d. split; [|by split]. unfold zlength at 3. rewrite Nat2Z.id.
    destruct fuel; cbn [read_lengths]; by rewrite Z.ltb_irrefl. }
  destruct Hits as (Hit & Hc & Hits). destruct (expand_item_range lens it Hit Hr) as [Hr1 Hl1].
  destruct (item_run_range lens it Hit Hr) as [Hn Hsym].
  destruct (expand_items_len (expand_item lens it) its cl Hits Hr1) as [Hle _]. simpl in Htot. rewrite Htot in Hle.
  destruct fuel as [|fuel]; [lia|]. cbn [read_lengths]. destruct (Z.ltb_spec (zlength lens) total); [|lia].
  rewrite fmap_cons in Hd. cbn [concat] in Hd. unfold item_bits in Hd at 1. rewrite <- !app_assoc in Hd.
  destruct (decode_at src d lt cl (item_sym it) _ Hd Hlt Hc) as (d1 & -> & Hd1 & Hro1). rewrite Ret_bind. cbv beta iota zeta.
  specialize (Hmax _ Hc) as Hsr. destruct (Z.ltb_spec (item_sym it) 0); [lia|]. destruct (Z.ltb_spec (max_sym lt) (item_sym it)); [lia|]. simpl orb. cbv iota.
  destruct (run_of_symbol_eq src d1 lens (drop (length lens) arr) it _ Hd1 Hit) as (d2 & -> & Hd2 & Hro2).
  rewrite Ret_bind. cbv beta iota zeta. destruct (Z.ltb_spec (total - zlength lens) (item_run lens it).1); [lia|].
  set (n := (item_run lens it).1) in *. set (sym := (item_run lens it).2) in *.
  rewrite <- (take_drop (Z.to_nat n) (drop (length lens) arr)), put_lengths_eq; [|rewrite length_take, length_drop; unfold zlength in *; lia|lia].
  rewrite Ret_bind, app_assoc. fold (expand_item lens it). rewrite drop_drop, <- Hl1.
  replace (length lens + Z.to_nat n)%nat with (length (expand_item lens it)) by (unfold zlength in *; lia).
  destruct (IH fuel (expand_item lens it) d2 Hd2 Hits Hr1 Htot ltac:(lia)) as (d' & E & Hd' & Hro'). exists d'.
  split; [done|]. split; [done|]. etransitivity; [done|]. by etransitivity.
Qed.

Lemma at_bits_trees src d bits lt dt : at_bits src d bits -> syms_ok lt -> syms_ok dt -> at_bits src (set_trees d lt dt) bits.
Proof. intros [Hd Ho Hst] Hl Ht. split; [|done|done]. by eapply so_ok, step_set_trees. Qed.

Lemma read_cl_start src d h lens rest : header_ok h -> lens_ok lens ->
  at_bits src d (concat ((fun k => bits_of (default 0 (hd_cl h .@ k)) 3) <$> take (Z.to_nat (hd_clen h)) cl_order) ++ rest) ->
  exists lens0 d', clear_lengths 19 0 lens = Ret lens0 /\
    read_code_lengths (Z.to_nat (hd_clen h)) 0 src d lens0 = Ret (hd_cl h ++ drop 19 lens, d') /\ at_bits src d' rest /\ read_on d d'.
Proof.
  intros Hh [Hl _] Hd. pose proof (ho_clen _ Hh).
  pose proof (clear_lengths_eq 19 [] (take 19 lens) (drop 19 lens)) as E. change (zlength []) with 0 in E. cbn [app] in E.
  rewrite take_drop in E. specialize (E ltac:(rewrite length_take; unfold zlength in Hl; lia)).
  destruct (read_cl_eq (Z.to_nat (hd_clen h)) 0 src d (hd_cl h) (replicate 19 0) (drop 19 lens) rest) as (a & d' & Er & Ha & Hd' & Hro);
    [done|lia|lia| |apply Hh|apply Hh|].
  { split; [done|]. intros j k Hk. pose proof (get_Some_range _ _ _ Hk). destruct (Z.ltb_spec j 0); [lia|].
    pose proof (cl_order_range _ _ Hk). destruct (get_Some (replicate 19 0) k) as (x & Hx); [change (zlength (replicate 19 0)) with 19; lia|].
    rewrite Hx. f_equal. apply get_In, elem_of_replicate in Hx. tauto. }
  rewrite Z.add_0_l, Z2Nat.id in Ha by lia. apply cl_read_all in Ha as ->; [|done]. by eexists _, d'.
Qed.

Lemma max_codes lens t : tree_for lens t -> forall s, has_code lens s -> 0 <= s <= max_sym t.
Proof.
  intros Ht s Hs. pose proof (last_code_ge _ _ Hs). rewrite (tf_max _ _ Ht). destruct Hs as (l & Hs & _).
  pose proof (get_Some_range _ _ _ Hs). lia.
Qed.

Lemma codes_some lens : codes lens <> [] -> exists s, has_code lens s.
Proof.
  intros Hne. destruct (codes lens) as [|l cs] eqn:E; [done|].
  assert (l ∈ codes lens) as Hl by (rewrite E; apply list_elem_of_here). apply list_elem_of_filter in Hl as [Hl Hin].
  apply In_get in Hin as (s & Hs). by exists s, l.
Qed.

(** The two trees from all the lengths. *)
Lemma build_trees_eq src d h tail rest : header_ok h -> at_bits src d rest ->
  exists d', (l256 ← at_ (hd_lens h ++ tail) 256;
    if l256 =? 0 then Ret (TINFLATE_INVALID_DATA, d) else
    '(res, lt) ← tinf_build_tree (ltree d) (hd_lens h ++ tail) (hd_lit h);
    let d := set_trees d lt (dtree d) in
    if negb (res =? TINFLATE_OK) then Ret (res, d) else
    '(res, dt) ← tinf_build_tree (dtree d) (drop (Z.to_nat (hd_lit h)) (hd_lens h ++ tail)) (hd_dist h);
    Ret (res, set_trees d (ltree d) dt)) = Ret (TINFLATE_OK, d') /\
    at_bits src d' rest /\ has_book d' (hd_book h) /\ exists lt dt, d' = set_trees d lt dt.
Proof.
  intros Hh Hd. pose proof (ho_lit _ Hh). pose proof (ho_dist _ Hh). pose proof (ho_total _ Hh) as Htot.
  set (ll := take (Z.to_nat (hd_lit h)) (hd_lens h)). set (dl := drop (Z.to_nat (hd_lit h)) (hd_lens h)).
  assert (zlength ll = hd_lit h) as Hll by (unfold ll, zlength in *; rewrite length_take; lia).
  assert (zlength dl = hd_dist h) as Hdl by (unfold dl, zlength in *; rewrite length_drop; lia).
  assert (hd_lens h ++ tail = ll ++ dl ++ tail) as -> by (unfold ll, dl; by rewrite app_assoc, take_drop).
  pose proof (ho_end _ Hh) as (l & H256 & Hl). cbn [hd_book bk_lit] in H256. fold ll in H256.
  rewrite (at_Some _ _ l) by (rewrite get_app_l by lia; done). rewrite Ret_bind. destruct (Z.eqb_spec l 0); [done|].
  destruct (build_tree_eq (ltree d) ll (dl ++ tail)) as (lt & E & Hlt & Hls); [apply (ab_ok _ _ _ Hd)|lia|apply Hh|].
  rewrite Hll in E. rewrite E, Ret_bind. cbv beta iota zeta. change (negb (TINFLATE_OK =? TINFLATE_OK)) with false. cbv iota.
  replace (drop (Z.to_nat (hd_lit h)) (ll ++ dl ++ tail)) with (dl ++ tail) by (rewrite drop_app_length'; [done|unfold zlength in Hll; lia]).
  destruct (build_tree_eq (dtree d) dl tail) as (dt & Ed & Hdt & Hds); [apply (ab_ok _ _ _ Hd)|lia|apply Hh|].
  change (dtree (set_trees d lt (dtree d))) with (dtree d). rewrite Hdl in Ed. rewrite Ed, Ret_bind.
  eexists. split; [done|]. split; [by apply at_bits_trees; [apply at_bits_trees|..]; try done; apply (ab_ok _ _ _ Hd)|]. split; [|by eexists _, _].
  split; [by apply tree_for_decodes|by apply tree_for_decodes|..]; intros s Hs _; by eapply max_codes.
Qed.

Lemma decode_trees_eq src d h lens rest pre dst :
  at_bits src d (header_bits h ++ rest) -> header_ok h -> lens_ok lens -> wrote d pre dst ->
  exists d', tinf_decode_trees src d lens = Ret (TINFLATE_OK, d') /\ at_bits src d' rest /\ has_book d' (hd_book h) /\ wrote d' pre dst.
Proof.
  intros Hd Hh Hl Hw. unfold tinf_decode_trees, header_bits in *. rewrite <- !app_assoc in Hd. pose proof (ho_lit _ Hh). pose proof (ho_dist _ Hh). pose proof (ho_clen _ Hh).
  destruct (getbits_base_at src d (hd_lit h - 257) 5 257 _ Hd) as (d1 & -> & Hd1 & Hro1); [lia|simpl; lia|]. rewrite Ret_bind. cbv beta iota zeta.
  destruct (getbits_base_at src d1 (hd_dist h - 1) 5 1 _ Hd1) as (d2 & -> & Hd2 & Hro2); [lia|simpl; lia|]. rewrite Ret_bind. cbv beta iota zeta.
  destruct (getbits_base_at src d2 (hd_clen h - 4) 4 4 _ Hd2) as (d3 & -> & Hd3 & Hro3); [lia|simpl; lia|]. rewrite Ret_bind. cbv beta iota zeta.
  replace (257 + (hd_lit h - 257)) with (hd_lit h) by lia. replace (1 + (hd_dist h - 1)) with (hd_dist h) by lia.
  replace (4 + (hd_clen h - 4)) with (hd_clen h) by lia.
  destruct (Z.ltb_spec 286 (hd_lit h)); [lia|]. destruct (Z.ltb_spec 30 (hd_dist h)); [lia|]. simpl orb. cbv iota.
  destruct (read_cl_start src d3 h lens _ Hh Hl Hd3) as (lens0 & d4 & -> & E4 & Hd4 & Hro4). rewrite Ret_bind, E4, Ret_bind. cbv beta iota zeta.
  assert (syms_ok (ltree d4) /\ syms_ok (dtree d4)) as [Hls Hds] by (split; apply (ab_ok _ _ _ Hd4)).
  destruct (build_tree_eq (ltree d4) (hd_cl h) (drop 19 lens) Hls) as (lt & Et & Hlt & Hlts); [rewrite (ho_cl_len _ Hh); lia|apply Hh|].
  rewrite (ho_cl_len _ Hh) in Et. rewrite Et, Ret_bind. cbv beta iota zeta. change (negb (TINFLATE_OK =? TINFLATE_OK)) with false. cbv iota.
  destruct (codes_some _ (ho_cl_some _ Hh)) as (s0 & Hs0). pose proof (max_codes _ _ Hlt s0 Hs0).
  destruct (Z.eqb_spec (max_sym lt) (-1)); [lia|].
  assert (zlength (hd_cl h ++ drop 19 lens) = 320) as Harr.
  { destruct Hl as [Hl _]. rewrite zlength_app, (ho_cl_len _ Hh). unfold zlength in *. rewrite length_drop. lia. }
  destruct (read_lengths_eq (Z.to_nat (hd_lit h + hd_dist h)) src (set_trees d4 lt (dtree d4)) lt (hd_cl h) (hd_items h) rest [] (hd_cl h ++ drop 19 lens) (hd_lit h + hd_dist h))
    as (d5 & E5 & Hd5 & Hro5); [by apply at_bits_trees|by apply tree_for_decodes|by apply max_codes|apply Hh|intros l ?%not_elem_of_nil; done|apply Hh|lia|change (zlength []) with 0; lia|].
  change (zlength []) with 0 in E5. cbn [app length] in E5. rewrite drop_0 in E5. rewrite E5, Ret_bind. cbv beta iota zeta.
  change (negb (TINFLATE_OK =? TINFLATE_OK)) with false. cbv iota. fold (hd_lens h).
  destruct (build_trees_eq src d5 h (drop (Z.to_nat (hd_lit h + hd_dist h)) (hd_cl h ++ drop 19 lens)) rest Hh Hd5) as (d' & E' & Hd' & Hbk & lt' & dt' & ->).
  eexists. split; [exact E'|]. split; [done|]. split; [done|].
  assert (wrote d4 pre dst) as Hw4 by (eapply wrote_read; [|done]; eapply wrote_read; [|done]; eapply wrote_read; [|done]; by eapply wrote_read).
  assert (wrote (set_trees d4 lt (dtree d4)) pre dst) as Hw4' by (by destruct Hw4).
  by destruct (wrote_read _ _ _ _ Hw4' Hro5).
Qed.

(** ** Streams *)

Lemma bitcount_pos src d pos k : bits_ok src d -> ((pos + length (stream src d)) mod 8 = 0)%nat -> (k = (8 - pos mod 8) mod 8)%nat ->
  bitcount d = Z.of_nat k.
Proof.
  intros Hb Hpos ->. pose proof (length_stream src d Hb) as Hl. destruct Hb as [Hs _ Hc _ _].
  apply (f_equal Z.of_nat) in Hpos. rewrite Nat2Z.inj_mod, Nat2Z.inj_add, Hl in Hpos. rewrite Nat2Z.inj_mod, Nat2Z.inj_sub, Nat2Z.inj_mod.
  2: { pose proof (Nat.mod_upper_bound pos 8). lia. }
  change (Z.of_nat 8) with 8 in *. change (Z.of_nat 0) with 0 in Hpos. Z.to_euclidean_division_equations. lia.
Qed.

Lemma align_eq src d pos bits : at_bits src d (replicate ((8 - pos mod 8) mod 8) false ++ bits) -> ((pos + length (stream src d)) mod 8 = 0)%nat ->
  at_bits src (set_bits d (source d) 0 0 (overflow d)) bits.
Proof.
  intros [Hd Ho Hst] Hpos. pose proof (bitcount_pos src d pos _ (do_bits _ _ Hd) Hpos eq_refl) as Hc.
  pose proof (do_bits _ _ Hd) as [Hs _ _ _ _]. split; [eapply so_ok, step_skip; [done|lia]|done|].
  rewrite stream_bytes by done. cbn [source source_end set_bits]. unfold stream in Hst. rewrite Hc, Nat2Z.id in Hst.
  apply app_inj_1 in Hst as [_ <-]; [done|]. by rewrite length_bits_of, length_replicate.
Qed.

Lemma inflate_block_eq src lens d b pos rest pre dst :
  at_bits src d (block_body pos b ++ rest) -> ((pos + length (stream src d)) mod 8 = 0)%nat -> lens_ok lens ->
  wrote d pre dst -> block_ok pre b -> zlength (expand_block pre b) <= zlength dst -> zlength dst < 2 ^ 31 -> zlength src < 2 ^ 32 ->
  exists d', inflate_block src lens d (block_type b) = Ret (TINFLATE_OK, d') /\ at_bits src d' rest /\ wrote d' (expand_block pre b) dst.
Proof.
  intros Hd Hpos Hl Hw Hb Hfit Hmax Hsrc. destruct b as [bs|ts|h ts]; unfold inflate_block; cbn [block_type Z.eqb block_body expand_block] in *.
  - rewrite <- app_assoc in Hd. apply align_eq in Hd; [|done]. apply stored_eq; try done. by destruct Hw.
  - pose proof (ab_ok _ _ _ Hd) as Hok. rewrite build_fixed_eq by apply Hok. rewrite Ret_bind. cbv beta iota zeta.
    pose proof fixed_ltree_ok as Hlt. pose proof (fixed_dtree_ok _ (do_dsyms _ _ Hok)) as Hdt.
    apply (block_data_eq _ _ fixed_book); try done.
    + apply at_bits_trees; [done|split; apply Hlt|split; apply Hdt].
    + split; [apply fixed_lit_decodes|apply fixed_dist_decodes, Hok|by intros|by intros].
    + by destruct Hw.
    + by exists 7.
  - rewrite <- app_assoc in Hd. destruct Hb as [Hh Hts].
    destruct (decode_trees_eq src d h lens _ pre dst Hd Hh Hl Hw) as (d1 & -> & Hd1 & Hbk & Hw1). rewrite Ret_bind. cbv beta iota zeta.
    change (TINFLATE_OK =? TINFLATE_OK) with true. cbv iota. apply (block_data_eq _ _ (hd_book h)); try done. apply Hh.
Qed.

Lemma expand_block_len pre b : (length pre <= length (expand_block pre b))%nat.
Proof. destruct b; simpl; [rewrite length_app; lia|apply expand_len..]. Qed.

Lemma expand_blocks_len pre bs : (length pre <= length (foldl expand_block pre bs))%nat.
Proof. revert pre. induction bs as [|b bs IH]; intros pre; simpl; [done|]. specialize (IH (expand_block pre b)). pose proof (expand_block_len pre b). lia. Qed.

Lemma block_step_eq fuel src lens d (final : bool) b pos rest pre dst :
  at_bits src d (block_bits pos final b ++ rest) -> ((pos + length (stream src d)) mod 8 = 0)%nat -> lens_ok lens ->
  wrote d pre dst -> block_ok pre b -> zlength (expand_block pre b) <= zlength dst -> zlength dst < 2 ^ 31 -> zlength src < 2 ^ 32 ->
  exists d', blocks_loop (S fuel) src lens d = (if final then Ret (TINFLATE_OK, d') else blocks_loop fuel src lens d') /\
    at_bits src d' rest /\ wrote d' (expand_block pre b) dst /\
    ((pos + length (block_bits pos final b) + length (stream src d')) mod 8 = 0)%nat.
Proof.
  intros Hd Hpos Hl Hw Hb Hfit Hmax Hsrc. cbn [blocks_loop]. pose proof (ab_stream _ _ _ Hd) as Hst.
  unfold block_bits in Hd. rewrite <- !app_assoc in Hd.
  destruct (getbits_at src d (Z.b2z final) 1 _ Hd) as (d1 & E1 & Hd1 & Hro1); [lia|by destruct final|]. change (Z.of_nat 1) with 1 in E1. rewrite E1, Ret_bind. cbv beta iota zeta.
  destruct (getbits_at src d1 (block_type b) 2 _ Hd1) as (d2 & E2 & Hd2 & Hro2); [lia|by destruct b|]. change (Z.of_nat 2) with 2 in E2. rewrite E2, Ret_bind. cbv beta iota zeta.
  destruct (inflate_block_eq src lens d2 b (pos + 3) rest pre dst Hd2) as (d3 & -> & Hd3 & Hw3); try done.
  { etransitivity; [|exact Hpos]. f_equal. rewrite (ab_stream _ _ _ Hd2), Hst. unfold block_bits. rewrite !length_app, !length_bits_of. lia. }
  { eapply wrote_read; [|done]. by eapply wrote_read. }
  rewrite Ret_bind. cbv beta iota zeta. change (negb (TINFLATE_OK =? TINFLATE_OK)) with false. cbv iota.
  exists d3. split; [by destruct final|]. split; [done|]. split; [done|].
  etransitivity; [|exact Hpos]. f_equal. rewrite (ab_stream _ _ _ Hd3), Hst, length_app. lia.
Qed.

Lemma blocks_loop_eq fuel src lens d b bs pos pad pre dst :
  at_bits src d (deflate pos (b :: bs) ++ pad) -> ((pos + length (stream src d)) mod 8 = 0)%nat -> lens_ok lens ->
  wrote d pre dst -> blocks_ok pre (b :: bs) -> zlength (foldl expand_block pre (b :: bs)) <= zlength dst -> zlength dst < 2 ^ 31 ->
  zlength src < 2 ^ 32 -> (length bs < fuel)%nat ->
  exists d', blocks_loop fuel src lens d = Ret (TINFLATE_OK, d') /\ at_bits src d' pad /\ wrote d' (foldl expand_block pre (b :: bs)) dst.
Proof.
  intros Hd Hpos Hl Hw Hb Hfit Hmax Hsrc. revert fuel d b pos pre Hd Hpos Hw Hb Hfit.
  induction bs as [|b2 bs IH]; intros [|fuel] d b pos pre Hd Hpos Hw [Hb Hbs] Hfit Hfuel; [simpl in Hfuel; lia| |simpl in Hfuel; lia|].
  - cbn [deflate] in Hd. rewrite app_nil_r in Hd.
    destruct (block_step_eq fuel src lens d true b pos pad pre dst) as (d' & -> & Hd' & Hw' & _); try done. by exists d'.
  - change (deflate pos (b :: b2 :: bs)) with (block_bits pos false b ++ deflate (pos + length (block_bits pos false b)) (b2 :: bs)) in Hd.
    rewrite <- app_assoc in Hd. pose proof (expand_blocks_len (expand_block pre b) (b2 :: bs)).
    change (foldl expand_block pre (b :: b2 :: bs)) with (foldl expand_block (expand_block pre b) (b2 :: bs)) in *.
    destruct (block_step_eq fuel src lens d false b pos _ pre dst Hd) as (d1 & -> & Hd1 & Hw1 & Hpos1); try done; [unfold zlength in *; lia|].
    apply (IH fuel d1 b2 (pos + length (block_bits pos false b))%nat); try done. simpl in Hfuel. lia.
Qed.

Lemma deflate_len pos bs : (length bs <= length (deflate pos bs))%nat.
Proof.
  revert pos. induction bs as [|b bs IH]; intros pos; [done|]. cbn [deflate length]. rewrite length_app. cbv zeta.
  specialize (IH (pos + length (block_bits pos (match bs with [] => true | _ => false end) b))%nat).
  unfold block_bits at 1. rewrite length_app, length_bits_of. lia.
Qed.

(** A buffer with the output at its start. *)
Definition filled (out dst : list byte) : list byte := out ++ drop (length out) dst.

Lemma uncompress_eq j src start source_len bs pad dst : junk_ok j ->
  0 <= start -> 0 <= source_len -> start + source_len <= zlength src < 2 ^ 32 ->
  bytes_bits (chars src start source_len) = deflate 0 bs ++ pad -> bs <> [] -> blocks_ok [] bs ->
  zlength (inflated bs) <= zlength dst < 2 ^ 31 ->
  tinf_uncompress j src start source_len dst (zlength dst) = Ret (TINFLATE_OK, filled (inflated bs) dst, zlength (inflated bs)).
Proof.
  intros [Hlt Hdt Hl] Hs Hn Hend Hbits Hne Hok Hfit. unfold tinf_uncompress. set (d := mk_data _ _ _ _ _ _ _ _ _ _).
  pose proof (zlength_nonneg dst). pose proof (zlength_nonneg (inflated bs)).
  assert (data_ok src d) as Hd by (split; [split|..]; simpl; done || lia).
  assert (stream src d = deflate 0 bs ++ pad) as Hst.
  { rewrite stream_bytes by done. simpl. by replace (start + source_len - start) with source_len by lia. }
  pose proof (stream_fuel src d (do_bits _ _ Hd)) as Hf. rewrite Hst, length_app in Hf. pose proof (deflate_len 0 bs).
  destruct bs as [|b bs]; [done|].
  destruct (blocks_loop_eq (bit_fuel src) src (jk_lengths j) d b bs 0 pad [] dst) as (d' & -> & _ & [Edest _ Eout _]); try done.
  - pose proof (length_stream src d (do_bits _ _ Hd)) as Hls. simpl bitcount in Hls.
    apply Nat2Z.inj. rewrite Nat2Z.inj_mod. simpl Nat.add. rewrite Hls, Z.add_0_l, Z.mul_comm. apply Z_mod_mult.
  - split; simpl; [done|done|by rewrite drop_0|lia].
  - apply Hfit.
  - apply Hfit.
  - apply Hend.
  - simpl in *. lia.
  - rewrite Ret_bind. change (TINFLATE_OK =? TINFLATE_OK) with true. cbv iota. rewrite Eout, Edest, u32_id; [done|]. unfold inflated in *. lia.
Qed.

(** A stream of blocks does not start like a gzip file: there is no block type 3. *)
Lemma not_gzip_magic src bs pad b : bytes_bits src = deflate 0 bs ++ pad -> bs <> [] -> src .@ 0 = Some b -> byte_Z b <> 0x1F.
Proof.
  intros E Hne Hb Hmagic. destruct src as [|b' src]; [done|]. injection Hb as ->. rewrite bytes_bits_cons in E.
  destruct bs as [|blk bs]; [done|]. cbn [deflate] in E. cbv zeta in E. unfold block_bits at 1 in E. rewrite <- !app_assoc in E.
  unfold byte_bits in E. rewrite Hmagic in E. destruct blk; simpl in E; congruence.
Qed.

(** A gzip file without optional fields. *)
Definition gzip_file (meta body out : list byte) : list byte :=
  bytes_of [0x1F; 0x8B; 8; 0] ++ meta ++ body ++ encode_u32 (crc32 out) ++ encode_u32 (zlength out).

Lemma raw_eq j src bs pad dst : junk_ok j -> zlength src < 2 ^ 32 -> bytes_bits src = deflate 0 bs ++ pad -> bs <> [] -> blocks_ok [] bs ->
  zlength (inflated bs) <= zlength dst < 2 ^ 31 ->
  tinflate_decompress j src dst = Ret (TINFLATE_OK, filled (inflated bs) dst, zlength (inflated bs)).
Proof.
  intros Hj Hsrc Hbits Hne Hok Hfit. pose proof (zlength_nonneg src).
  assert (tinf_uncompress j src 0 (zlength src) dst (zlength dst) = Ret (TINFLATE_OK, filled (inflated bs) dst, zlength (inflated bs))) as E.
  { apply (uncompress_eq j src 0 (zlength src) bs pad dst); [done|done|done|lia| |done|done|done]. unfold chars, zlength. rewrite Nat2Z.id, drop_0, firstn_all. done. }
  unfold tinflate_decompress. cbv zeta. destruct (Z.leb_spec 2 (zlength src)); [|by rewrite Ret_bind].
  unfold read_u8. destruct (get_Some src 0) as (b0 & Hb0); [lia|]. destruct (get_Some src 1) as (b1 & Hb1); [lia|]. rewrite Hb0, Hb1, !Ret_bind.
  pose proof (not_gzip_magic _ _ _ _ Hbits Hne Hb0). destruct (Z.eqb_spec (byte_Z b0) 0x1F); [done|]. exact E.
Qed.

Lemma crc32_range l : 0 <= crc32 l < 2 ^ 32.
Proof. unfold crc32. apply lxor_lt; [lia|apply crc_fold_range; lia|lia]. Qed.

Lemma gzip_eq j meta body bs pad dst : junk_ok j -> length meta = 6%nat -> zlength (gzip_file meta body (inflated bs)) < 2 ^ 32 ->
  bytes_bits body = deflate 0 bs ++ pad -> bs <> [] -> blocks_ok [] bs -> zlength (inflated bs) <= zlength dst < 2 ^ 31 ->
  tinflate_decompress j (gzip_file meta body (inflated bs)) dst = Ret (TINFLATE_OK, filled (inflated bs) dst, zlength (inflated bs)).
Proof.
  intros Hj Hmeta Hsrc Hbits Hne Hok Hfit. set (src := gzip_file _ _ _) in *. set (o := inflated bs) in *. pose proof (zlength_nonneg o).
  assert (zlength src = 18 + zlength body) as Hlen.
  { unfold src, gzip_file. rewrite !zlength_app. change (zlength (bytes_of _)) with 4. change (zlength (encode_u32 _)) with 4. unfold zlength. lia. }
  pose proof (zlength_nonneg body).
  assert (seg src 0 (bytes_of [0x1F; 0x8B; 8; 0])) as Hmagic.
  { pose proof (seg_refl src) as Hs. unfold src in Hs at 2. unfold gzip_file in Hs. by apply seg_app in Hs as [Hs _]. }
  assert (seg src (10 + zlength body) (encode_u32 (crc32 o)) /\ seg src (14 + zlength body) (encode_u32 (zlength o))) as [Hcrc Hisize].
  { pose proof (seg_refl src) as Hs. unfold src in Hs at 2. unfold gzip_file in Hs. rewrite !seg_app in Hs. destruct Hs as (_ & _ & _ & Hs1 & Hs2).
    change (zlength (bytes_of _)) with 4 in *. change (zlength (encode_u32 _)) with 4 in *. assert (zlength meta = 6) as Em by (unfold zlength; lia).
    rewrite Em in *. split; [by replace (10 + zlength body) with (0 + 4 + 6 + zlength body) by lia|].
    by replace (14 + zlength body) with (0 + 4 + 6 + zlength body + 4) by lia. }
  assert (chars src 10 (zlength body) = body) as Hbody.
  { unfold src, gzip_file, chars. rewrite app_assoc, drop_app_length' by (rewrite length_app; simpl; lia). apply take_app_length'. unfold zlength. lia. }
  unfold bytes_of in Hmagic. rewrite !fmap_cons, !seg_cons in Hmagic. destruct Hmagic as (M0 & M1 & M2 & M3 & _). simpl Z.add in *.
  assert (forall p z b, src .@ p = Some b -> byte_Z b = z -> read_u8 src p = Ret z) as Hread by (intros p z b Hp <-; unfold read_u8; by rewrite Hp).
  unfold tinflate_decompress, tinf_gzip_uncompress. cbv zeta.
  rewrite (Hread 0 0x1F _ M0 eq_refl), (Hread 1 0x8B _ M1 eq_refl), (Hread 2 8 _ M2 eq_refl), (Hread 3 0 _ M3 eq_refl), !Ret_bind.
  destruct (Z.leb_spec 2 (zlength src)); [|lia]. cbv beta. rewrite Ret_bind. change (_ && _) with true. cbv iota.
  destruct (Z.ltb_spec (zlength src) 18); [lia|]. change (_ || _) with false. cbv iota. change (negb (8 =? 8)) with false. change (flag_set 0 0xE0) with false. cbv iota.
  change (gzip_header src (zlength src) 0) with (Ret (Some 10) : outcome (option Z)). rewrite Ret_bind.
  pose proof (crc32_range o). assert (read_le32 src (zlength src - 4) = Ret (zlength o)) as ->.
  { replace (zlength src - 4) with (14 + zlength body) by lia. apply seg_read_u32; [lia|done]. }
  assert (read_le32 src (zlength src - 8) = Ret (crc32 o)) as ->.
  { replace (zlength src - 8) with (10 + zlength body) by lia. apply seg_read_u32; [lia|done]. }
  rewrite !Ret_bind. destruct (Z.ltb_spec (zlength dst) (zlength o)); [lia|]. rewrite !u32_id by lia.
  destruct (Z.ltb_spec (zlength src - 10) 8); [lia|]. replace (zlength src - 10 - 8) with (zlength body) by lia.
  rewrite (uncompress_eq j src 10 (zlength body) bs pad dst); [|done|lia|lia|lia|by rewrite Hbody|done|done|done].
  rewrite Ret_bind. cbv beta iota zeta. change (negb (TINFLATE_OK =? TINFLATE_OK)) with false. cbv iota. fold o. rewrite Z.eqb_refl. cbv iota delta [negb].
  rewrite crc32_eq by (unfold filled; rewrite ?zlength_app; pose proof (zlength_nonneg (drop (length o) dst)); lia). rewrite Ret_bind.
  assert (chars (filled o dst) 0 (zlength o) = o) as -> by (unfold chars, filled, zlength; rewrite Nat2Z.id, drop_0; apply take_app_length).
  by rewrite Z.eqb_refl.
Qed.

(** C7: [tinflate_decompress] inverts the DEFLATE format of RFC 1951.  For every
    stream of stored, fixed and dynamic blocks (any literals and matches, any
    valid code lengths, any run-length coding of them), raw and followed by
    anything, or in a gzip file without optional header fields, the decompressor answers success, its buffer
    starts with the expansion of the tokens and is otherwise as before, and the
    output length is the length of the expansion. *)
Theorem inflate_roundtrip j bs pad body dst : junk_ok j -> bs <> [] -> blocks_ok [] bs -> bytes_bits body = deflate 0 bs ++ pad ->
  zlength (inflated bs) <= zlength dst < 2 ^ 31 -> zlength body < 2 ^ 32 - 18 ->
  tinflate_decompress j body dst = Ret (TINFLATE_OK, filled (inflated bs) dst, zlength (inflated bs)) /\
  forall meta, length meta = 6%nat ->
    tinflate_decompress j (gzip_file meta body (inflated bs)) dst = Ret (TINFLATE_OK, filled (inflated bs) dst, zlength (inflated bs)).
Proof.
  intros Hj Hne Hok Hbits Hfit Hsize. split; [apply (raw_eq _ _ _ pad); try done; lia|]. intros meta Hmeta. apply (gzip_eq _ _ _ _ pad); try done.
  unfold gzip_file. rewrite !zlength_app. change (zlength (bytes_of _)) with 4. change (zlength (encode_u32 _)) with 4. unfold zlength in *. lia.
Qed.

(** The bytes of a bit stream. *)
Fixpoint pack (fuel : nat) (bits : list bool) : list byte :=
  match fuel, bits with
  | S fuel, _ :: _ =>
    byte_of_Z (foldr (fun (b : bool) v => Z.b2z b + 2 * v) 0 (take 8 bits)) :: pack fuel (drop 8 bits)
  | _, _ => []
  end.

(** Codes for the literal 97, the end, the length 3 and the distance 1. *)
Definition sample_header : header :=
  mk_header 258 1 18 [0; 2; 2; 0; 0; 0; 0; 0; 0; 0; 0; 0; 0; 0; 0; 0; 0; 0; 1]
    [ManyZeros 97; Len 1; ManyZeros 138; ManyZeros 20; Len 2; Len 2; Len 1].

Definition sample_blocks : list block :=
  [Stored (bytes_of [1; 2; 3]); Fixed [Lit "a"; Copy 2 0 3 0]; Dynamic sample_header [Lit "a"; Copy 0 0 0 0]].

Definition sample_body : list byte := pack 100 (deflate 0 sample_blocks).

Lemma code_okb lens : forallb (fun l => (0 <=? l) && (l <=? 15)) lens = true -> kraft lens = 2 ^ 15 \/ codes lens = [] \/ codes lens = [1] -> code_ok lens.
Proof.
  intros Hr Hk. split; [|done]. intros l Hl%list_elem_of_In. rewrite forallb_forall in Hr. specialize (Hr l Hl). lia.
Qed.

Lemma sample_header_ok : header_ok sample_header.
Proof.
  split; try (vm_compute; repeat split; discriminate).
  - intros l Hl%list_elem_of_In. simpl in Hl. lia.
  - intros i k Hi Hk. pose proof (get_Some_range _ _ _ Hk). change (zlength cl_order) with 19 in *. simpl in Hi.
    assert (i = 18) as -> by lia. injection Hk as <-. reflexivity.
  - apply code_okb; [reflexivity|]. left. reflexivity.
  - simpl. unfold has_code. split_and!; try lia; try done; eexists; split; reflexivity || lia.
  - by exists 2.
  - apply code_okb; [reflexivity|]. left. vm_compute. reflexivity.
  - apply code_okb; [reflexivity|]. right. right. vm_compute. reflexivity.
Qed.

Lemma sample_blocks_ok : blocks_ok [] sample_blocks.
Proof.
  pose proof sample_header_ok. simpl. unfold has_code. split_and!; try done; try (vm_compute; discriminate); eexists; vm_compute; split; reflexivity || discriminate.
Qed.

Lemma inflate_roundtrip_witness :
  inflated sample_blocks = bytes_of [1; 2; 3; 97; 1; 2; 3; 97; 1; 97; 97; 97; 97] /\
  tinflate_decompress sample_junk sample_body (replicate 20 x00) =
    Ret (TINFLATE_OK, filled (inflated sample_blocks) (replicate 20 x00), zlength (inflated sample_blocks)).
Proof.
  split; [vm_compute; reflexivity|].
  destruct (inflate_roundtrip sample_junk sample_blocks (drop (length (deflate 0 sample_blocks)) (bytes_bits sample_body)) sample_body (replicate 20 x00))
    as [E _]; [..|exact E].
  - apply sample_junk_ok.
  - discriminate.
  - apply sample_blocks_ok.
  - vm_compute. reflexivity.
  - vm_compute. split; [discriminate|reflexivity].
  - vm_compute. reflexivity.
Defined.
End Deflate.
