(* ===== verification/Cpio.v ===== *)
(** * The boot archive

    [kernel/initramfs/cpio.c], [ramdisk.c], [loader.c] and [bootstrap.c]: the
    archive a boot loader hands over, decompressed if need be, walked entry by
    entry and indexed in place.  The archive is an image and the pointers into it
    are offsets; an access outside it is a [Fault].  Console output is left out. *)

From Stdlib Require Import Strings.Byte.
From S2P Require Import Prelude Status Bytes Tinflate.
Import Tinflate.

Module Cpio.

Definition CPIO_OK : Z := 0.
Definition CPIO_INVALID_FORMAT : Z := -1.
Definition CPIO_END_OF_ARCHIVE : Z := -2.
Definition CPIO_OUTPUT_OVERFLOW : Z := -3.
Definition CPIO_INVALID_FILENAME : Z := -4.

Definition CPIO_NEWC_MAGIC : list byte := ["0"; "7"; "0"; "7"; "0"; "1"]%byte.
Definition CPIO_TRAILER : list byte := ["T"; "R"; "A"; "I"; "L"; "E"; "R"; "!"; "!"; "!"]%byte.

Record cpio_entry := mk_entry {
  inode : Z;
  mode : Z;
  uid : Z;
  gid : Z;
  nlink : Z;
  mtime : Z;
  filesize : Z;
  dev_major : Z;
  dev_minor : Z;
  rdev_major : Z;
  rdev_minor : Z;
  namesize : Z;
  check : Z;
  filename : Z;
  data : Z }.

Record cpio_iterator := mk_iter { archive_size : Z; pos : Z; entry_count : Z }.

(** [ptr[0] == m0 && ptr[1] == m1 && ...]. *)
Fixpoint cpio_check_magic (m : memory) (p : Z) (magic : list byte) : outcome bool :=
  match magic with
  | [] => Ret true
  | x :: magic => c ← read_u8 m p; if c =? byte_Z x then cpio_check_magic m (p + 1) magic else Ret false
  end.

Definition hex_digit (c : Z) : option Z :=
  if (0x30 <=? c) && (c <=? 0x39) then Some (c - 0x30)
  else if (0x61 <=? c) && (c <=? 0x66) then Some (c - 0x61 + 10)
  else if (0x41 <=? c) && (c <=? 0x46) then Some (c - 0x41 + 10)
  else None.

Fixpoint parse_hex_loop (len : nat) (m : memory) (p val : Z) : outcome (option Z) :=
  match len with
  | O => Ret (Some val)
  | S len =>
    c ← read_u8 m p;
    match hex_digit c with
    | None => Ret None
    | Some digit => parse_hex_loop len m (p + 1) (Z.lor (u32 (Z.shiftl val 4)) digit)
    end
  end.

Definition cpio_parse_hex (m : memory) (p : Z) : outcome (option Z) := parse_hex_loop 8 m p 0.

(** The name at [a] against a string [b] without its terminator; 0 when equal. *)
Fixpoint cpio_strcmp (m : memory) (a : Z) (b : list byte) : outcome Z :=
  c ← read_u8 m a;
  match b with
  | [] => Ret (if c =? 0 then 0 else 1)
  | x :: b => if c =? byte_Z x then cpio_strcmp m (a + 1) b else Ret 1
  end.

Definition cpio_align4 (pos : Z) : Z := Z.land (u32 (pos + 3)) 0xFFFFFFFC.

Definition cpio_iter_init (m : memory) (size : Z) : outcome (Z * option cpio_iterator) :=
  if size <? 6 then Ret (CPIO_INVALID_FORMAT, None) else
  ok ← cpio_check_magic m 0 CPIO_NEWC_MAGIC;
  if negb ok then Ret (CPIO_INVALID_FORMAT, None) else
  Ret (CPIO_OK, Some (mk_iter size 0 0)).

(** [if (!cpio_parse_hex(p, 8, &field)) return CPIO_INVALID_FORMAT]: the 13 fields
    one after the other. *)
Fixpoint parse_fields (n : nat) (m : memory) (p : Z) : outcome (option (list Z)) :=
  match n with
  | O => Ret (Some [])
  | S n =>
    v ← cpio_parse_hex m p;
    match v with
    | None => Ret None
    | Some v =>
      vs ← parse_fields n m (p + 8);
      Ret (match vs with Some vs => Some (v :: vs) | None => None end)
    end
  end.

(** The status, the iterator and, for [CPIO_OK], the entry. *)
Definition cpio_iter_next (m : memory) (it : cpio_iterator) : outcome (Z * cpio_iterator * option cpio_entry) :=
  let invalid := Ret (CPIO_INVALID_FORMAT, it, None) in
  if archive_size it <=? pos it then invalid else
  if archive_size it - pos it <? 6 then invalid else
  ok ← cpio_check_magic m (pos it) CPIO_NEWC_MAGIC;
  if negb ok then invalid else
  if archive_size it - pos it <? 110 then invalid else
  fields ← parse_fields 13 m (pos it + 6);
  match fields with
  | Some [inode; mode; uid; gid; nlink; mtime; filesize; dev_major; dev_minor; rdev_major; rdev_minor; namesize; check] =>
    let p := u32 (pos it + 110) in
    if archive_size it <? u32 (p + namesize) then invalid else
    trailer ← cpio_strcmp m p CPIO_TRAILER;
    if trailer =? 0 then Ret (CPIO_END_OF_ARCHIVE, it, None) else
    let q := cpio_align4 (u32 (p + namesize)) in
    if archive_size it <? u32 (q + filesize) then invalid else
    Ret (CPIO_OK, mk_iter (archive_size it) (cpio_align4 (u32 (q + filesize))) (u32 (entry_count it + 1)),
         Some (mk_entry inode mode uid gid nlink mtime filesize dev_major dev_minor rdev_major rdev_minor namesize check p q))
  | _ => invalid
  end.

(** The bytes [p], ..., [p + n - 1] for a copy; outside the image undefined. *)
Definition copy_bytes (m : memory) (p n : Z) : outcome (list byte) :=
  if (0 <=? p) && (p + n <=? zlength m) then Ret (chars m p n) else Fault.

(** The status, the new contents of [dst] and [*out_len]. *)
Fixpoint extract_loop (fuel : nat) (m : memory) (it : cpio_iterator) (name dst : list byte) (out_len : Z)
  : outcome (Z * list byte * Z) :=
  match fuel with
  | O => NoFuel
  | S fuel =>
    '(status, it, entry) ← cpio_iter_next m it;
    if status =? CPIO_END_OF_ARCHIVE then Ret (CPIO_INVALID_FILENAME, dst, out_len) else
    match entry with
    | None => Ret (status, dst, out_len)
    | Some e =>
      same ← cpio_strcmp m (filename e) name;
      if same =? 0 then
        if zlength dst <? filesize e then Ret (CPIO_OUTPUT_OVERFLOW, dst, out_len) else
        bytes ← copy_bytes m (data e) (filesize e);
        Ret (CPIO_OK, bytes ++ drop (length bytes) dst, filesize e)
      else extract_loop fuel m it name dst out_len
    end
  end.

Definition cpio_extract_file (fuel : nat) (m : memory) (size : Z) (name dst : list byte) (out_len : Z)
  : outcome (Z * list byte * Z) :=
  '(status, it) ← cpio_iter_init m size;
  match it with
  | None => Ret (status, dst, out_len)
  | Some it => extract_loop fuel m it name dst out_len
  end.

(** ** The ramdisk *)

Definition RAMDISK_OK : Z := 0.
Definition RAMDISK_NO_SUCH_FILE : Z := -2.
Definition RAMDISK_CORRUPTED : Z := -3.
Definition RAMDISK_MAX_FILES : Z := 128.

Record ramdisk_entry := mk_file { rd_filename : Z; rd_data : Z; rd_size : Z; rd_mode : Z; rd_mtime : Z }.

Record ramdisk := mk_ramdisk { files : list ramdisk_entry; file_count : Z; initialized : bool }.

(** [g_ramdisk] at boot. *)
Definition empty_ramdisk : ramdisk := mk_ramdisk (replicate 128 (mk_file 0 0 0 0 0)) 0 false.

(** The entries are written to the index one by one; the final index is the
    number of files, or the status of a corrupted archive. *)
Fixpoint index_loop (fuel : nat) (m : memory) (it : cpio_iterator) (files : list ramdisk_entry) (idx : Z)
  : outcome (list ramdisk_entry * option Z) :=
  match fuel with
  | O => NoFuel
  | S fuel =>
    '(status, it, entry) ← cpio_iter_next m it;
    if status =? CPIO_END_OF_ARCHIVE then Ret (files, Some idx) else
    match entry with
    | None => Ret (files, None)
    | Some e =>
      if RAMDISK_MAX_FILES <=? idx then Ret (files, Some idx) else
      if filesize e =? 0 then index_loop fuel m it files idx else
      files ← store files idx (mk_file (filename e) (data e) (filesize e) (mode e) (mtime e));
      index_loop fuel m it files (idx + 1)
    end
  end.

Definition ramdisk_init_from_archive (fuel : nat) (m : memory) (size : Z) (g : ramdisk) : outcome (Z * ramdisk) :=
  if size =? 0 then Ret (RAMDISK_CORRUPTED, g) else
  if initialized g then Ret (RAMDISK_OK, g) else
  '(_, it) ← cpio_iter_init m size;
  match it with
  | None => Ret (RAMDISK_CORRUPTED, g)
  | Some it =>
    '(fs, idx) ← index_loop fuel m it (files g) 0;
    match idx with
    | None => Ret (RAMDISK_CORRUPTED, mk_ramdisk fs (file_count g) (initialized g))
    | Some n => Ret (RAMDISK_OK, mk_ramdisk fs n true)
    end
  end.

(** The search of [ramdisk_lookup] from index [i] on. *)
Fixpoint lookup_loop (n : nat) (m : memory) (fs : list ramdisk_entry) (i : Z) (name : list byte) : outcome (option ramdisk_entry) :=
  match n with
  | O => Ret None
  | S n =>
    e ← at_ fs i;
    same ← cpio_strcmp m (rd_filename e) name;
    if same =? 0 then Ret (Some e) else lookup_loop n m fs (i + 1) name
  end.

Definition ramdisk_lookup (m : memory) (g : ramdisk) (name : list byte) : outcome (Z * option ramdisk_entry) :=
  if negb (initialized g) then Ret (RAMDISK_CORRUPTED, None) else
  r ← lookup_loop (Z.to_nat (file_count g)) m (files g) 0 name;
  Ret (match r with Some e => (RAMDISK_OK, Some e) | None => (RAMDISK_NO_SUCH_FILE, None) end).

Definition ramdisk_file_count (g : ramdisk) : Z := file_count g.

Definition ramdisk_get_file (g : ramdisk) (index : Z) : outcome (Z * option ramdisk_entry) :=
  if negb (initialized g) then Ret (RAMDISK_CORRUPTED, None) else
  if file_count g <=? index then Ret (RAMDISK_NO_SUCH_FILE, None) else
  e ← at_ (files g) index; Ret (RAMDISK_OK, Some e).

(** ** The loader *)

Definition one_of (c a b : Z) : bool := (c =? a) || (c =? b).

Definition filename_ends_with_dll (m : memory) (name : Z) : outcome bool :=
  len ← kernel_strlen m (Some name);
  if len <? 4 then Ret false else
  let p := name + len - 4 in
  c0 ← read_u8 m p; c1 ← read_u8 m (p + 1); c2 ← read_u8 m (p + 2); c3 ← read_u8 m (p + 3);
  Ret ((c0 =? 0x2E) && one_of c1 0x44 0x64 && one_of c2 0x4C 0x6C && one_of c3 0x4C 0x6C).

Definition has_mz_header (m : memory) (data size : Z) : outcome bool :=
  if size <? 2 then Ret false else
  c0 ← read_u8 m data; c1 ← read_u8 m (data + 1); Ret ((c0 =? 0x4D) && (c1 =? 0x5A)).

Fixpoint load_loop (n : nat) (m : memory) (g : ramdisk) (i loaded : Z) : outcome Z :=
  match n with
  | O => Ret loaded
  | S n =>
    '(status, file) ← ramdisk_get_file g i;
    match file with
    | None => load_loop n m g (i + 1) loaded
    | Some f =>
      dll ← filename_ends_with_dll m (rd_filename f);
      if negb dll then load_loop n m g (i + 1) loaded else
      mz ← has_mz_header m (rd_data f) (rd_size f);
      if negb mz then load_loop n m g (i + 1) loaded else
      load_loop n m g (i + 1) (u32 (loaded + 1))
    end
  end.

(** The build with [ZACLR_ENABLED]: the assemblies stay in the ramdisk. *)
Definition initramfs_load_drivers (m : memory) (g : ramdisk) : outcome Z :=
  load_loop (Z.to_nat (ramdisk_file_count g)) m g 0 0.

(** ** The bootstrap *)

(** [module_start] is the address of the module, 0 for [NULL], and [m] its bytes. *)
Definition initramfs_is_cpio_newc (module_start : Z) (m : memory) (size : Z) : outcome bool :=
  if (module_start =? 0) || (size <? 6) then Ret false else cpio_check_magic m 0 CPIO_NEWC_MAGIC.

Definition initramfs_expected_size (module_start : Z) (m : memory) (size : Z) : outcome Z :=
  if (module_start =? 0) || (size <? 18) then Ret 0 else
  b0 ← read_u8 m 0;
  b1 ← read_u8 m 1;
  isize ← (if (b0 =? 0x1F) && (b1 =? 0x8B) then read_le32 m (size - 4) else Ret 0);
  if negb (isize =? 0) then Ret isize else
  let isize := u32 (size * 2048) in
  let isize := if isize <? 64 * 1024 then 64 * 1024 else isize in
  Ret (if 4 * 1024 * 1024 <? isize then 4 * 1024 * 1024 else isize).

Definition initramfs_required_heap_bytes (module_start : Z) (m : memory) (size : Z) : outcome Z :=
  if (module_start =? 0) || (size =? 0) then Ret 0 else
  newc ← initramfs_is_cpio_newc module_start m size;
  if (newc : bool) then Ret 0 else
  expected_size ← initramfs_expected_size module_start m size;
  if expected_size =? 0 then Ret 0 else
  let required_size := u32 (expected_size + 2 * 1024 * 1024) in
  Ret (if required_size <? expected_size then expected_size else required_size).

(** What [initramfs_bootstrap] reports on the console. *)
Inductive report :=
| Skipped
| InvalidSize
| AllocationFailed
| DecompressFailed (status : Z)
| RamdiskFailed (status : Z)
| Ready.

Definition report_of (status : Z) : report := if status =? RAMDISK_OK then Ready else RamdiskFailed status.

(** The report, the ramdisk and the image its pointers lead to.  [alloc] is the
    buffer that [kernel_alloc(expected_size)] answers. *)
Definition initramfs_bootstrap (fuel : nat) (j : junk) (alloc : Z -> option (list byte)) (module_start : Z) (m : memory)
    (g : ramdisk) : outcome (report * ramdisk * memory) :=
  let size := zlength m in
  if (module_start =? 0) || (size =? 0) then Ret (Skipped, g, m) else
  newc ← initramfs_is_cpio_newc module_start m size;
  if (newc : bool) then
    '(status, g) ← ramdisk_init_from_archive fuel m size g; Ret (report_of status, g, m)
  else
    expected_size ← initramfs_expected_size module_start m size;
    if expected_size =? 0 then Ret (InvalidSize, g, m) else
    match alloc expected_size with
    | None => Ret (AllocationFailed, g, m)
    | Some buffer =>
      '(status, archive, len) ← tinflate_decompress j m buffer;
      if negb (status =? TINFLATE_OK) then Ret (DecompressFailed status, g, archive) else
      '(status, g) ← ramdisk_init_from_archive fuel archive len g; Ret (report_of status, g, archive)
    end.

End Cpio.
