(* ===== verification/Initramfs.v ===== *)
(** * The boot archive, end to end

    The newc format of cpio as an executable encoder.  Every archive of the
    format is indexed and looked up correctly, also out of a compressed module. *)

From Stdlib Require Import Strings.Byte.
From S2P Require Import Prelude Status Bytes Tinflate Huffman Inflate Deflate Cpio.
Import Tinflate Huffman Inflate Deflate Cpio.

Module Initramfs.

(** ** The format *)

Definition hex_char (up : bool) (d : Z) : byte :=
  byte_of_Z (if d <? 10 then 0x30 + d else if up then 0x41 + (d - 10) else 0x61 + (d - 10)).

Fixpoint hex (up : bool) (n : nat) (v : Z) : list byte :=
  match n with
  | O => []
  | S n => hex_char up (v / 16 ^ Z.of_nat n) :: hex up n (v mod 16 ^ Z.of_nat n)
  end.

Record file := mk_boot_file {
  f_name : list byte;
  f_data : list byte;
  f_mode : Z;
  f_mtime : Z;
  f_ids : Z * Z * Z * Z;
  f_devs : Z * Z * Z * Z;
  f_check : Z }.

(** The 13 numbers of a header. *)
Definition fields (f : file) : list Z :=
  let '(inode, uid, gid, nlink) := f_ids f in
  let '(dmaj, dmin, rmaj, rmin) := f_devs f in
  [inode; f_mode f; uid; gid; nlink; f_mtime f; zlength (f_data f); dmaj; dmin; rmaj; rmin; zlength (f_name f) + 1; f_check f].

(** The bytes up to the next multiple of 4. *)
Definition pad4 (n : Z) : list byte := replicate (Z.to_nat ((- n) mod 4)) x00.

Definition header (up : bool) (f : file) : list byte := CPIO_NEWC_MAGIC ++ concat (hex up 8 <$> fields f).

Definition named (up : bool) (f : file) : list byte := header up f ++ f_name f ++ [x00].

Definition entry (up : bool) (f : file) : list byte :=
  named up f ++ pad4 (zlength (named up f)) ++ f_data f ++ pad4 (zlength (f_data f)).

Definition trailer : file := mk_boot_file CPIO_TRAILER [] 0 0 (0, 0, 0, 1) (0, 0, 0, 0) 0.

Definition archive (up : bool) (fs : list file) (tail : list byte) : list byte :=
  concat (entry up <$> fs) ++ entry up trailer ++ tail.

(** A string without terminators inside. *)
Definition no_nul (s : list byte) : Prop := forall b, b ∈ s -> byte_Z b <> 0.

Record file_ok (f : file) : Prop := {
  fo_name : no_nul (f_name f);
  fo_trailer : f_name f <> CPIO_TRAILER;
  fo_fields v : v ∈ fields f -> 0 <= v < 2 ^ 32 }.

(** ** Numbers and names *)

Lemma hex_char_digit up d : 0 <= d < 16 -> hex_digit (byte_Z (hex_char up d)) = Some d.
Proof.
  intros Hd. pose (f up d := bool_decide (hex_digit (byte_Z (hex_char up d)) = Some d)).
  pose proof (byte_cases (f up) 16 ltac:(by destruct up) d Hd) as H. by apply bool_decide_eq_true in H.
Qed.

Lemma parse_hex_eq up n m p val v : seg m p (hex up n v) -> 0 <= v < 16 ^ Z.of_nat n -> 0 <= val -> val * 16 ^ Z.of_nat n + v < 2 ^ 32 ->
  parse_hex_loop n m p val = Ret (Some (val * 16 ^ Z.of_nat n + v)).
Proof.
  revert p val v. induction n as [|n IH]; intros p val v Hseg Hv Hval Hmax; cbn [parse_hex_loop hex] in *.
  { change (16 ^ Z.of_nat 0) with 1 in *. do 2 f_equal. lia. }
  rewrite Nat2Z.inj_succ, Z.pow_succ_r in * by lia. set (P := 16 ^ Z.of_nat n) in *. assert (0 < P) by (apply Z.pow_pos_nonneg; lia).
  assert (0 <= v / P < 16) as Hd by (split; [apply Z.div_pos; lia|apply Z.div_lt_upper_bound; lia]).
  pose proof (Z.div_mod v P ltac:(lia)) as Hdm. pose proof (Z.mod_pos_bound v P ltac:(lia)).
  rewrite (seg_read_u8 _ _ _ _ Hseg), Ret_bind, hex_char_digit by done. apply seg_cons in Hseg as [_ Hseg].
  assert (Z.lor (u32 (Z.shiftl val 4)) (v / P) = 16 * val + v / P) as ->.
  { rewrite u32_id by (rewrite Z.shiftl_mul_pow2 by lia; nia). rewrite lor_shiftl_add by lia. lia. }
  rewrite (IH (p + 1) (16 * val + v / P) (v mod P)) by (done || nia). do 2 f_equal. fold P. nia.
Qed.

Lemma length_hex up n v : length (hex up n v) = n.
Proof. revert v. induction n as [|n IH]; intros v; simpl; [done|]. by rewrite IH. Qed.

Lemma parse_fields_eq up vs m p : seg m p (concat (hex up 8 <$> vs)) -> (forall v, v ∈ vs -> 0 <= v < 2 ^ 32) ->
  parse_fields (length vs) m p = Ret (Some vs).
Proof.
  revert p. induction vs as [|v vs IH]; intros p Hseg Hr; [done|]. rewrite fmap_cons in Hseg. cbn [concat] in Hseg. cbn [length parse_fields].
  apply seg_app in Hseg as [Hseg1 Hseg2]. specialize (Hr v (list_elem_of_here _ _)) as Hv. unfold cpio_parse_hex.
  rewrite (parse_hex_eq up 8 m p 0 v) by (done || lia). rewrite Ret_bind. rewrite Z.mul_0_l, Z.add_0_l.
  assert (zlength (hex up 8 v) = 8) as E by (unfold zlength; by rewrite length_hex). rewrite E in Hseg2.
  rewrite IH; [done|done|]. intros w Hw. apply Hr. by apply elem_of_cons; right.
Qed.

Lemma check_magic_eq m p l : seg m p l -> cpio_check_magic m p l = Ret true.
Proof.
  revert p. induction l as [|x l IH]; intros p Hseg; [done|]. cbn [cpio_check_magic].
  rewrite (seg_read_u8 _ _ _ _ Hseg), Ret_bind, Z.eqb_refl. apply IH. by apply seg_cons in Hseg as [_ Hseg].
Qed.

Lemma strcmp_eq m p a b : seg m p (a ++ [x00]) -> no_nul a -> no_nul b ->
  cpio_strcmp m p b = Ret (if decide (a = b) then 0 else 1).
Proof.
  revert p b. induction a as [|x a IH]; intros p b Hseg Ha Hb.
  - pose proof (seg_read_u8 _ _ _ _ Hseg) as Hr. destruct b as [|y b]; cbn [cpio_strcmp]; rewrite Hr, Ret_bind; [done|].
    change (byte_Z x00) with 0. destruct (Z.eqb_spec 0 (byte_Z y)) as [E|_]; [|by destruct (decide _)].
    specialize (Hb y (list_elem_of_here _ _)). congruence.
  - pose proof (seg_read_u8 _ _ _ _ Hseg) as Hr. apply seg_cons in Hseg as [_ Hseg]. specialize (Ha x (list_elem_of_here _ _)) as Hx.
    destruct b as [|y b]; cbn [cpio_strcmp]; rewrite Hr, Ret_bind.
    { destruct (Z.eqb_spec (byte_Z x) 0); [done|]. by destruct (decide _). }
    destruct (Z.eqb_spec (byte_Z x) (byte_Z y)) as [E|Hne].
    + apply byte_Z_inj in E as ->. rewrite IH; [|done|intros c Hc; apply Ha; by apply elem_of_cons; right|intros c Hc; apply Hb; by apply elem_of_cons; right].
      destruct (decide (a = b)) as [->|Hne]; destruct (decide _); congruence.
    + destruct (decide _) as [E|]; [congruence|done].
Qed.

Lemma land_align x : 0 <= x < 2 ^ 32 -> Z.land x 0xFFFFFFFC = x / 4 * 4.
Proof.
  intros Hx. change 0xFFFFFFFC with (Z.shiftl (Z.ones 30) 2).
  assert (Z.land x (Z.shiftl (Z.ones 30) 2) = Z.shiftl (Z.land (Z.shiftr x 2) (Z.ones 30)) 2) as ->.
  { apply Z.bits_inj'. intros n Hn. rewrite Z.land_spec. destruct (Z.ltb_spec n 2).
    - rewrite !Z.shiftl_spec_low by lia. apply andb_false_r.
    - rewrite !Z.shiftl_spec, Z.land_spec, Z.shiftr_spec by lia. f_equal. f_equal. lia. }
  rewrite Z.land_ones, Z.shiftr_div_pow2, Z.shiftl_mul_pow2 by lia. change (2 ^ 2) with 4.
  rewrite Z.mod_small; [done|]. split; [apply Z.div_pos; lia|apply Z.div_lt_upper_bound; lia].
Qed.

Lemma align4_eq n : 0 <= n < 2 ^ 31 -> cpio_align4 n = n + (- n) mod 4.
Proof.
  intros Hn. unfold cpio_align4. rewrite u32_id, land_align by lia. Z.to_euclidean_division_equations. lia.
Qed.

(** ** One entry *)

Lemma zlength_header up f : zlength (header up f) = 110.
Proof.
  unfold header. rewrite zlength_app. change (zlength CPIO_NEWC_MAGIC) with 6. unfold fields.
  destruct (f_ids f) as [[[? ?] ?] ?], (f_devs f) as [[[? ?] ?] ?]. rewrite !fmap_cons. cbn [concat fmap list_fmap].
  unfold zlength. rewrite !length_app, !length_hex. simpl. lia.
Qed.

Lemma zlength_named up f : zlength (named up f) = 110 + (zlength (f_name f) + 1).
Proof. unfold named. rewrite !zlength_app, zlength_header. done. Qed.

Lemma zlength_pad4 n : zlength (pad4 n) = (- n) mod 4.
Proof. unfold pad4, zlength. rewrite length_replicate. pose proof (Z.mod_pos_bound (- n) 4). lia. Qed.

(** Where the data of an entry at [p] stands. *)
Definition data_at (f : file) (p : Z) : Z := let n := 110 + (zlength (f_name f) + 1) in p + n + (- n) mod 4.

Definition entry_at (f : file) (p data : Z) : cpio_entry :=
  let '(inode, uid, gid, nlink) := f_ids f in
  let '(dmaj, dmin, rmaj, rmin) := f_devs f in
  mk_entry inode (f_mode f) uid gid nlink (f_mtime f) (zlength (f_data f)) dmaj dmin rmaj rmin (zlength (f_name f) + 1) (f_check f)
    (p + 110) data.

Lemma zlength_entry up f : zlength (entry up f) = data_at f 0 + zlength (f_data f) + (- zlength (f_data f)) mod 4.
Proof. unfold entry. rewrite !zlength_app, !zlength_pad4, zlength_named. unfold data_at. lia. Qed.

Lemma entry_segs up f m p : seg m p (entry up f) ->
  seg m p CPIO_NEWC_MAGIC /\ seg m (p + 6) (concat (hex up 8 <$> fields f)) /\ seg m (p + 110) (f_name f ++ [x00]) /\ seg m (data_at f p) (f_data f).
Proof.
  unfold entry. intros Hseg. apply seg_app in Hseg as [Hn Hrest]. apply seg_app in Hrest as [_ Hrest]. apply seg_app in Hrest as [Hd _].
  rewrite zlength_pad4, zlength_named in Hd. unfold named in Hn. apply seg_app in Hn as [Hh Hn]. rewrite zlength_header in Hn.
  unfold header in Hh. apply seg_app in Hh as [Hm Hf]. split; [done|]. split; [done|]. split; [done|].
  exact Hd.
Qed.

Lemma seg_end m p l : 0 <= p -> p <= zlength m -> seg m p l -> p + zlength l <= zlength m.
Proof.
  intros Hp Hm Hseg. destruct (Z.eq_dec (zlength l) 0) as [->|Hne]; [lia|]. pose proof (zlength_nonneg l).
  destruct (get_Some l (zlength l - 1)) as (b & Hb); [lia|]. specialize (Hseg _ _ Hb). apply get_Some_range in Hseg. lia.
Qed.

(** The header of an entry is read whatever the rest is. *)
Lemma iter_next_header up f m it : seg m (pos it) (named up f) -> (forall v, v ∈ fields f -> 0 <= v < 2 ^ 32) -> no_nul (f_name f) ->
  archive_size it = zlength m -> zlength m < 2 ^ 31 -> 0 <= pos it -> pos it <= zlength m ->
  cpio_iter_next m it =
    if decide (f_name f = CPIO_TRAILER) then Ret (CPIO_END_OF_ARCHIVE, it, None) else
    let q := cpio_align4 (pos it + zlength (named up f)) in
    if zlength m <? u32 (q + zlength (f_data f)) then Ret (CPIO_INVALID_FORMAT, it, None) else
    Ret (CPIO_OK, mk_iter (zlength m) (cpio_align4 (u32 (q + zlength (f_data f)))) (u32 (entry_count it + 1)),
         Some (entry_at f (pos it) q)).
Proof.
  intros Hseg Hr Hnul Hsz Hmax Hp Hpm. pose proof (seg_end _ _ _ Hp Hpm Hseg) as Hend. rewrite zlength_named in *. pose proof (zlength_nonneg (f_name f)).
  unfold named, header in Hseg. apply seg_app in Hseg as [Hseg Hname]. apply seg_app in Hseg as [Hm Hf].
  fold (header up f) in Hname. rewrite zlength_header in Hname. change (zlength CPIO_NEWC_MAGIC) with 6 in Hf.
  unfold cpio_iter_next. rewrite Hsz. destruct (Z.leb_spec (zlength m) (pos it)); [lia|]. destruct (Z.ltb_spec (zlength m - pos it) 6); [lia|].
  rewrite check_magic_eq by done. rewrite Ret_bind. cbv iota delta [negb]. destruct (Z.ltb_spec (zlength m - pos it) 110); [lia|].
  pose proof (parse_fields_eq up (fields f) m (pos it + 6) Hf Hr) as E. unfold entry_at. unfold fields in E, Hr.
  destruct (f_ids f) as [[[? ?] ?] ?], (f_devs f) as [[[? ?] ?] ?]. cbn [length] in E. rewrite E, Ret_bind.
  assert (no_nul CPIO_TRAILER) as Htr by (intros b Hb%list_elem_of_In; simpl in Hb; intuition subst; done).
  rewrite (u32_id (pos it + 110)) by lia. rewrite (u32_id (pos it + 110 + _)) by lia.
  destruct (Z.ltb_spec (zlength m) (pos it + 110 + (zlength (f_name f) + 1))); [lia|].
  rewrite (strcmp_eq m (pos it + 110) (f_name f) CPIO_TRAILER Hname Hnul Htr), Ret_bind.
  destruct (decide _); [done|]. cbv zeta. change (1 =? 0) with false. cbv iota. by rewrite (Z.add_assoc (pos it) 110).
Qed.

Lemma iter_next_eq up f m it : seg m (pos it) (entry up f) -> file_ok f -> archive_size it = zlength m -> zlength m < 2 ^ 31 ->
  0 <= pos it <= zlength m -> pos it mod 4 = 0 -> pos it + zlength (entry up f) <= zlength m ->
  cpio_iter_next m it =
    Ret (CPIO_OK, mk_iter (archive_size it) (pos it + zlength (entry up f)) (u32 (entry_count it + 1)), Some (entry_at f (pos it) (data_at f (pos it)))).
Proof.
  intros Hseg [Hnul Htr Hr] Hsz Hmax Hp H4 Hend. rewrite (iter_next_header up f); try done; [|by apply seg_app in Hseg as [? _]|lia|lia].
  destruct (decide _) as [|_]; [done|]. rewrite zlength_entry in *. rewrite zlength_named. unfold data_at in *. cbv zeta in *.
  set (n := 110 + (zlength (f_name f) + 1)) in *. pose proof (zlength_nonneg (f_name f)). pose proof (zlength_nonneg (f_data f)).
  pose proof (Z.mod_pos_bound (- n) 4 ltac:(lia)). pose proof (Z.mod_pos_bound (- zlength (f_data f)) 4 ltac:(lia)).
  rewrite align4_eq by lia.
  assert ((- (pos it + n)) mod 4 = (- n) mod 4) as -> by (Z.to_euclidean_division_equations; lia).
  rewrite u32_id by lia. destruct (Z.ltb_spec (zlength m) (pos it + n + (- n) mod 4 + zlength (f_data f))); [lia|].
  rewrite align4_eq by lia. rewrite Hsz. do 4 f_equal.
  assert ((- (pos it + n + (- n) mod 4 + zlength (f_data f))) mod 4 = (- zlength (f_data f)) mod 4) as ->
    by (Z.to_euclidean_division_equations; lia). lia.
Qed.

(** ** The index *)

(** The files of an archive that the ramdisk keeps. *)
Definition nonempty (f : file) : bool := negb (zlength (f_data f) =? 0).
Definition kept (fs : list file) : list file := take 128 (List.filter nonempty fs).

(** The index entry of a file whose header is at [p]. *)
Definition indexed (p : Z) (f : file) : ramdisk_entry := mk_file (p + 110) (data_at f p) (zlength (f_data f)) (f_mode f) (f_mtime f).

(** Index entries stand for files: at the places they point to are the name and
    the data. *)
Definition stands_for (m : memory) (e : ramdisk_entry) (f : file) : Prop :=
  exists p, 0 <= p /\ e = indexed p f /\ seg m (p + 110) (f_name f ++ [x00]) /\ seg m (data_at f p) (f_data f).

(** The iterator stands before the files [fs] and the trailer. *)
Record at_files (m : memory) (it : cpio_iterator) (up : bool) (fs : list file) : Prop := {
  af_seg : seg m (pos it) (concat (entry up <$> fs) ++ entry up trailer);
  af_ok : Forall file_ok fs;
  af_size : archive_size it = zlength m;
  af_max : zlength m < 2 ^ 31;
  af_pos : 0 <= pos it;
  af_align : pos it mod 4 = 0;
  af_end : pos it + zlength (concat (entry up <$> fs) ++ entry up trailer) <= zlength m }.

Lemma at_files_end m it up : at_files m it up [] -> cpio_iter_next m it = Ret (CPIO_END_OF_ARCHIVE, it, None).
Proof.
  intros [Hseg _ Hsz Hmax Hp _ Hend]. cbn [fmap list_fmap concat app] in *. pose proof (zlength_nonneg (entry up trailer)).
  assert (no_nul CPIO_TRAILER) as Htr by (intros b Hb%list_elem_of_In; simpl in Hb; intuition subst; done).
  rewrite (iter_next_header up trailer); [done|by apply seg_app in Hseg as [? _]|..|exact Htr|done|done|done|lia].
  intros v Hv%list_elem_of_In. vm_compute in Hv. intuition lia.
Qed.

Lemma zlength_entry_mod up f : zlength (entry up f) mod 4 = 0.
Proof. rewrite zlength_entry. unfold data_at. cbv zeta. Z.to_euclidean_division_equations. lia. Qed.

Lemma at_files_next m it up f fs : at_files m it up (f :: fs) ->
  exists it', cpio_iter_next m it = Ret (CPIO_OK, it', Some (entry_at f (pos it) (data_at f (pos it)))) /\ at_files m it' up fs /\
    stands_for m (indexed (pos it) f) f.
Proof.
  intros [Hseg Hok Hsz Hmax Hp H4 Hend]. rewrite fmap_cons in *. cbn [concat] in *. rewrite <- app_assoc in *.
  apply seg_app in Hseg as [Hf Hseg]. rewrite zlength_app in Hend. apply Forall_cons in Hok as [Hfo Hok].
  pose proof (zlength_nonneg (concat (entry up <$> fs) ++ entry up trailer)). pose proof (zlength_nonneg (entry up f)).
  rewrite (iter_next_eq up f) by (done || lia). eexists. split; [done|]. split.
  - split; simpl; try done; [lia| |lia]. pose proof (zlength_entry_mod up f). Z.to_euclidean_division_equations. lia.
  - destruct (entry_segs up f m (pos it) Hf) as (_ & _ & Hn & Hd). by exists (pos it).
Qed.

Lemma entry_at_fields f p q : let e := entry_at f p q in
  mk_file (filename e) (data e) (filesize e) (mode e) (mtime e) = mk_file (p + 110) q (zlength (f_data f)) (f_mode f) (f_mtime f) /\
  filesize e = zlength (f_data f) /\ filename e = p + 110 /\ data e = q.
Proof. unfold entry_at. by destruct (f_ids f) as [[[? ?] ?] ?], (f_devs f) as [[[? ?] ?] ?]. Qed.

Lemma index_loop_eq up fs fuel m it acc arr kept_ : at_files m it up fs -> (length fs < fuel)%nat ->
  zlength arr = 128 -> (length acc <= 128)%nat -> Forall2 (stands_for m) acc kept_ ->
  exists acc', index_loop fuel m it (acc ++ drop (length acc) arr) (zlength acc) = Ret (acc' ++ drop (length acc') arr, Some (zlength acc')) /\
    (length acc' <= 128)%nat /\ Forall2 (stands_for m) acc' (take 128 (kept_ ++ List.filter nonempty fs)).
Proof.
  intros Hat Hfuel Harr. revert fuel it acc kept_ Hat Hfuel.
  induction fs as [|f fs IH]; intros [|fuel] it acc kept_ Hat Hfuel Hacc Hk; [simpl in Hfuel; lia| |simpl in Hfuel; lia|]; cbn [index_loop].
  all: pose proof (Forall2_length _ _ _ Hk) as Hlk.
  - rewrite at_files_end with (up := up) by done. rewrite Ret_bind. cbv beta iota zeta. change (_ =? _) with true. cbv iota.
    exists acc. split; [done|]. split; [done|]. simpl List.filter. rewrite app_nil_r, take_ge by lia. done.
  - destruct (at_files_next m it up f fs Hat) as (it' & -> & Hat' & Hst). rewrite Ret_bind. cbv beta iota zeta.
    change (CPIO_OK =? CPIO_END_OF_ARCHIVE) with false. cbv iota.
    destruct (entry_at_fields f (pos it) (data_at f (pos it))) as (Ef & Es & _). rewrite Ef, Es. fold (indexed (pos it) f).
    unfold RAMDISK_MAX_FILES. destruct (Z.leb_spec 128 (zlength acc)) as [Hfull|Hroom].
    { exists acc. split; [done|]. split; [done|]. rewrite take_app_length'; [done|unfold zlength in Hfull; lia]. }
    simpl List.filter. unfold nonempty at 1. destruct (Z.eqb_spec (zlength (f_data f)) 0) as [Hz|Hz]; simpl negb; cbv iota.
    + apply IH; [done|simpl in Hfuel; lia|done|done].
    + destruct (drop (length acc) arr) as [|x r] eqn:Edrop.
      { apply (f_equal length) in Edrop. rewrite length_drop in Edrop. unfold zlength in *. simpl in Edrop. lia. }
      rewrite store_ok by (rewrite zlength_app, zlength_cons; pose proof (zlength_nonneg acc); pose proof (zlength_nonneg r); lia).
      rewrite Ret_bind, set_middle.
      destruct (IH fuel it' (acc ++ [indexed (pos it) f]) (kept_ ++ [f])) as (acc' & E & Hl & Hk'); [done|simpl in Hfuel; lia| | |].
      * rewrite length_app. unfold zlength in Hroom. simpl. lia.
      * by apply Forall2_app; [|constructor].
      * exists acc'. rewrite <- app_assoc in Hk'. split; [|done]. rewrite <- E. rewrite zlength_app. f_equal.
        rewrite length_app, <- drop_drop, Edrop, <- app_assoc. simpl. by rewrite drop_0.
Qed.

(** The ramdisk indexes the files [fs] of the image. *)
Definition indexes (m : memory) (g : ramdisk) (fs : list file) : Prop :=
  initialized g = true /\ zlength (files g) = 128 /\
  exists es rest, files g = es ++ rest /\ file_count g = zlength es /\ Forall2 (stands_for m) es (kept fs).

Lemma at_files_start up fs tail : Forall file_ok fs -> zlength (archive up fs tail) < 2 ^ 31 ->
  at_files (archive up fs tail) (mk_iter (zlength (archive up fs tail)) 0 0) up fs.
Proof.
  intros Hok Hmax. split; simpl; try done.
  - pose proof (seg_refl (archive up fs tail)) as H. unfold archive in H at 2. rewrite app_assoc in H. by apply seg_app in H as [H _].
  - unfold archive. rewrite app_assoc, (zlength_app _ tail). pose proof (zlength_nonneg tail). lia.
Qed.

Lemma archive_magic up fs tail : seg (archive up fs tail) 0 CPIO_NEWC_MAGIC.
Proof.
  assert (exists f r, archive up fs tail = entry up f ++ r) as (f & r & ->).
  { unfold archive. destruct fs as [|f fs]; [by eexists trailer, tail|]. rewrite fmap_cons. cbn [concat]. rewrite <- app_assoc. by eexists _, _. }
  pose proof (seg_refl (entry up f ++ r)) as H. apply seg_app in H as [H _]. by destruct (entry_segs up f _ _ H).
Qed.

Lemma archive_long up fs tail : 124 <= zlength (archive up fs tail).
Proof.
  unfold archive. rewrite !zlength_app. pose proof (zlength_nonneg (concat (entry up <$> fs))). pose proof (zlength_nonneg tail).
  assert (zlength (entry up trailer) = 124) by (by destruct up). lia.
Qed.

Lemma iter_init_eq up fs tail : cpio_iter_init (archive up fs tail) (zlength (archive up fs tail)) =
  Ret (CPIO_OK, Some (mk_iter (zlength (archive up fs tail)) 0 0)).
Proof.
  unfold cpio_iter_init. pose proof (archive_long up fs tail). destruct (Z.ltb_spec (zlength (archive up fs tail)) 6); [lia|].
  by rewrite check_magic_eq by apply archive_magic.
Qed.

Lemma ramdisk_init_eq up fs tail fuel g : Forall file_ok fs -> zlength (archive up fs tail) < 2 ^ 31 -> (length fs < fuel)%nat ->
  initialized g = false -> zlength (files g) = 128 ->
  exists g', ramdisk_init_from_archive fuel (archive up fs tail) (zlength (archive up fs tail)) g = Ret (RAMDISK_OK, g') /\
    indexes (archive up fs tail) g' fs.
Proof.
  intros Hok Hmax Hfuel Hi Hl. unfold ramdisk_init_from_archive. pose proof (archive_long up fs tail).
  destruct (Z.eqb_spec (zlength (archive up fs tail)) 0); [lia|]. rewrite Hi, iter_init_eq, Ret_bind. cbv beta iota zeta.
  destruct (index_loop_eq up fs fuel (archive up fs tail) _ [] (files g) [] (at_files_start up fs tail Hok Hmax) Hfuel Hl) as (acc & E & Hal & Hk);
    [simpl; lia|constructor|]. change (zlength []) with 0 in E. cbn [app length] in E. rewrite drop_0 in E. rewrite E, Ret_bind. cbv beta iota zeta.
  eexists. split; [done|]. split; [done|]. split; simpl.
  - rewrite zlength_app. unfold zlength in *. rewrite length_drop. lia.
  - by eexists acc, _.
Qed.

(** The file a name stands for. *)
Definition find_file (name : list byte) (fs : list file) : option file := List.find (fun f => bool_decide (f_name f = name)) (kept fs).

(** The answer of a lookup. *)
Definition lookup_answer (m : memory) (o : option file) (r : outcome (Z * option ramdisk_entry)) : Prop :=
  match o with
  | None => r = Ret (RAMDISK_NO_SUCH_FILE, None)
  | Some f => exists e, r = Ret (RAMDISK_OK, Some e) /\ chars m (rd_data e) (rd_size e) = f_data f /\
      rd_size e = zlength (f_data f) /\ rd_mode e = f_mode f /\ rd_mtime e = f_mtime f
  end.

Lemma seg_chars m p l : 0 <= p -> seg m p l -> chars m p (zlength l) = l.
Proof.
  revert p. induction l as [|x l IH]; intros p Hp Hseg; [done|]. apply seg_cons in Hseg as [Hx Hseg].
  pose proof (zlength_nonneg l). rewrite zlength_cons. rewrite (chars_cons m p (1 + zlength l) x) by (done || lia).
  replace (1 + zlength l - 1) with (zlength l) by lia. by rewrite IH by (done || lia).
Qed.

Lemma lookup_loop_eq m pre es rest kept_ name : Forall2 (stands_for m) es kept_ -> Forall (fun f => no_nul (f_name f)) kept_ -> no_nul name ->
  exists o, lookup_loop (length es) m (pre ++ es ++ rest) (zlength pre) name = Ret o /\
    match List.find (fun f => bool_decide (f_name f = name)) kept_ with
    | None => o = None
    | Some f => exists e, o = Some e /\ stands_for m e f
    end.
Proof.
  intros Hk Hn Hname. revert pre. induction Hk as [|e f es kept_ Hst Hk IH]; intros pre; [by exists None|].
  apply Forall_cons in Hn as [Hf Hn]. cbn [length lookup_loop]. change ((e :: es) ++ rest) with (e :: (es ++ rest)).
  rewrite (at_Some _ _ _ (get_middle pre e (es ++ rest))), Ret_bind. pose proof Hst as (p & _ & -> & Hnm & _). cbn [indexed rd_filename].
  rewrite (strcmp_eq m (p + 110) (f_name f) name Hnm Hf Hname), Ret_bind. cbn [List.find].
  destruct (decide (f_name f = name)) as [E|Hne].
  - rewrite bool_decide_true by done. simpl. eexists. split; [done|]. by eexists.
  - rewrite bool_decide_false by done. simpl. destruct (IH Hn (pre ++ [indexed p f])) as (o & E & Ho).
    exists o. split; [|done]. rewrite <- E, <- app_assoc. f_equal. rewrite zlength_app. done.
Qed.

Lemma kept_names fs : Forall file_ok fs -> Forall (fun f => no_nul (f_name f)) (kept fs).
Proof.
  intros Hok. apply Forall_take. apply Forall_forall. intros f Hf%list_elem_of_In%filter_In. destruct Hf as [Hf _].
  apply list_elem_of_In in Hf. by apply (proj1 (Forall_forall _ _) Hok) in Hf as [].
Qed.

Lemma lookup_eq m g fs name : indexes m g fs -> Forall file_ok fs -> no_nul name -> lookup_answer m (find_file name fs) (ramdisk_lookup m g name).
Proof.
  intros (Hi & _ & es & rest & Hfs & Hc & Hk) Hok Hn. unfold ramdisk_lookup. rewrite Hi. cbv iota delta [negb].
  destruct (lookup_loop_eq m [] es rest (kept fs) name Hk (kept_names fs Hok) Hn) as (o & E & Ho).
  change (zlength []) with 0 in E. cbn [app] in E. rewrite <- Hfs in E.
  rewrite Hc. replace (Z.to_nat (zlength es)) with (length es) by (unfold zlength; lia). rewrite E, Ret_bind.
  unfold find_file. destruct (List.find _ _) as [f|]; [|by subst o]. destruct Ho as (e & -> & p & Hp & -> & _ & Hd).
  eexists. split; [done|]. split; [|done]. cbn [indexed rd_data rd_size]. apply seg_chars; [|done].
  unfold data_at. pose proof (zlength_nonneg (f_name f)). cbv zeta.
  pose proof (Z.mod_pos_bound (- (110 + (zlength (f_name f) + 1))) 4 ltac:(lia)). lia.
Qed.

(** ** The loader *)

Definition is_dll (name : list byte) : bool :=
  match rev name with
  | l2 :: l1 :: d :: dot :: _ =>
    bool_decide (dot = ".")%byte && one_of (byte_Z d) 0x44 0x64 && one_of (byte_Z l1) 0x4C 0x6C && one_of (byte_Z l2) 0x4C 0x6C
  | _ => false
  end.

(** An assembly: the name ends in [.dll] and the data starts with [MZ]. *)
Definition is_assembly (f : file) : bool :=
  is_dll (f_name f) && match f_data f with b0 :: b1 :: _ => bool_decide (b0 = "M"%byte) && bool_decide (b1 = "Z"%byte) | _ => false end.

Lemma strlen_eq m p s : 0 <= p -> seg m p (s ++ [x00]) -> no_nul s -> kernel_strlen m (Some p) = Ret (zlength s).
Proof.
  intros Hp Hseg Hn. unfold kernel_strlen. destruct (Z.ltb_spec p 0); [lia|].
  assert (forall n, strlen_from (drop (Z.to_nat p) m) n = Ret (n + zlength s)) as ->; [|done].
  revert p Hp H Hseg. induction s as [|x s IH]; intros p Hp _ Hseg n.
  all: apply seg_cons in Hseg as [Hx Hseg]; unfold get in Hx; destruct (Z.ltb_spec p 0); [lia|]; rewrite (drop_S _ _ _ Hx); cbn [strlen_from].
  - change (byte_Z x00 =? 0) with true. cbv iota. change (zlength []) with 0. f_equal. lia.
  - destruct (Z.eqb_spec (byte_Z x) 0) as [E|_]; [by destruct (Hn x (list_elem_of_here _ _))|].
    replace (S (Z.to_nat p)) with (Z.to_nat (p + 1)) by lia. rewrite IH; [rewrite zlength_cons; f_equal; lia| |lia|lia|done].
    intros c Hc. apply Hn. by apply elem_of_cons; right.
Qed.

Lemma byte_eqb b c : (byte_Z b =? byte_Z c) = bool_decide (b = c).
Proof. destruct (Z.eqb_spec (byte_Z b) (byte_Z c)) as [->%byte_Z_inj|]; [by rewrite bool_decide_true|rewrite bool_decide_false; congruence]. Qed.

Lemma seg_suffix m p a b c d s : seg m p ((s ++ [a; b; c; d]) ++ [x00]) -> forall q, q = p + zlength s ->
  read_u8 m q = Ret (byte_Z a) /\ read_u8 m (q + 1) = Ret (byte_Z b) /\ read_u8 m (q + 2) = Ret (byte_Z c) /\ read_u8 m (q + 3) = Ret (byte_Z d).
Proof.
  intros Hseg q ->. rewrite <- app_assoc in Hseg. apply seg_app in Hseg as [_ Hseg]. cbn [app] in Hseg. rewrite !seg_cons in Hseg.
  destruct Hseg as (Ha & Hb & Hc & Hd & _). replace (p + zlength s + 1 + 1) with (p + zlength s + 2) in * by lia.
  replace (p + zlength s + 2 + 1) with (p + zlength s + 3) in * by lia. unfold read_u8. by rewrite Ha, Hb, Hc, Hd.
Qed.

Lemma ends_with_dll_eq m p s : 0 <= p -> seg m p (s ++ [x00]) -> no_nul s -> filename_ends_with_dll m p = Ret (is_dll s).
Proof.
  intros Hp Hseg Hn. unfold filename_ends_with_dll. rewrite (strlen_eq m p s Hp Hseg Hn), Ret_bind. unfold is_dll.
  destruct (rev s) as [|d [|c [|b [|a r]]]] eqn:Er; apply (f_equal (@rev byte)) in Er; rewrite rev_involutive in Er; [by subst..|].
  assert (s = rev r ++ [a; b; c; d]) as -> by (rewrite Er; simpl; by rewrite <- !app_assoc). clear Er.
  assert (zlength (rev r ++ [a; b; c; d]) = zlength (rev r) + 4) as El by (by rewrite zlength_app). rewrite El. pose proof (zlength_nonneg (rev r)).
  destruct (Z.ltb_spec (zlength (rev r) + 4) 4); [lia|]. cbv zeta.
  destruct (seg_suffix m p a b c d (rev r) Hseg (p + (zlength (rev r) + 4) - 4)) as (-> & -> & -> & ->); [lia|]. rewrite !Ret_bind.
  change 0x2E with (byte_Z "."). by rewrite byte_eqb.
Qed.

Lemma mz_header_eq m p s : 0 <= p -> seg m p s ->
  has_mz_header m p (zlength s) = Ret (match s with b0 :: b1 :: _ => bool_decide (b0 = "M"%byte) && bool_decide (b1 = "Z"%byte) | _ => false end).
Proof.
  intros Hp Hseg. unfold has_mz_header. destruct s as [|b0 [|b1 s]]; [done|done|]. rewrite !zlength_cons. pose proof (zlength_nonneg s).
  destruct (Z.ltb_spec (1 + (1 + zlength s)) 2); [lia|]. rewrite (seg_read_u8 _ _ _ _ Hseg), Ret_bind. apply seg_cons in Hseg as [_ Hseg].
  rewrite (seg_read_u8 _ _ _ _ Hseg), Ret_bind. change 0x4D with (byte_Z "M"). change 0x5A with (byte_Z "Z"). by rewrite !byte_eqb.
Qed.

Lemma load_loop_eq m g pre es rest fs loaded :
  initialized g = true -> files g = pre ++ es ++ rest -> file_count g = zlength pre + zlength es ->
  Forall2 (stands_for m) es fs -> Forall (fun f => no_nul (f_name f)) fs -> 0 <= loaded -> loaded + zlength es < 2 ^ 32 ->
  load_loop (length es) m g (zlength pre) loaded = Ret (loaded + zlength (List.filter is_assembly fs)).
Proof.
  intros Hi Hfs Hc Hk Hn Hl Hmax. revert pre loaded Hfs Hc Hl Hmax. induction Hk as [|e f es fs Hst Hk IH]; intros pre loaded Hfs Hc Hl Hmax.
  { simpl. f_equal. change (zlength []) with 0. lia. }
  apply Forall_cons in Hn as [Hf Hn]. cbn [length load_loop]. unfold ramdisk_get_file. rewrite Hi. cbv iota delta [negb].
  rewrite zlength_cons in Hc, Hmax. pose proof (zlength_nonneg es). pose proof (zlength_nonneg pre). destruct (Z.leb_spec (file_count g) (zlength pre)); [lia|].
  assert (files g .@ (zlength pre) = Some e) as He by (rewrite Hfs; apply get_middle). rewrite (at_Some _ _ _ He), !Ret_bind.
  pose proof Hst as (p & Hp & -> & Hnm & Hd). cbn [indexed rd_filename rd_data rd_size].
  assert (0 <= data_at f p) by (unfold data_at; cbv zeta; pose proof (zlength_nonneg (f_name f)); pose proof (Z.mod_pos_bound (- (110 + (zlength (f_name f) + 1))) 4); lia).
  rewrite (ends_with_dll_eq m (p + 110) (f_name f)), Ret_bind by (done || lia).
  assert (forall k, 0 <= k <= 1 -> load_loop (length es) m g (zlength pre + 1) (loaded + k) = Ret (loaded + k + zlength (List.filter is_assembly fs))) as Hnext.
  { intros k Hk1. replace (zlength pre + 1) with (zlength (pre ++ [indexed p f])) by (by rewrite zlength_app).
    apply IH; [done|by rewrite <- app_assoc|rewrite zlength_app; change (zlength [indexed p f]) with 1; lia|lia|lia]. }
  pose proof (Hnext 0 ltac:(lia)) as Hskip. rewrite !Z.add_0_r in Hskip. cbn [List.filter]. unfold is_assembly at 1.
  destruct (is_dll (f_name f)); cbn [negb andb]; [|done]. rewrite mz_header_eq, Ret_bind by done.
  destruct (match f_data f with [] => _ | _ => _ end) eqn:Hmz; cbn [negb]; [|done].
  rewrite u32_id by lia. rewrite (Hnext 1) by lia. rewrite zlength_cons. f_equal. lia.
Qed.

Lemma load_drivers_eq m g fs : indexes m g fs -> Forall file_ok fs ->
  initramfs_load_drivers m g = Ret (zlength (List.filter is_assembly (kept fs))).
Proof.
  intros (Hi & Hl & es & rest & Hfs & Hc & Hk) Hok. unfold initramfs_load_drivers, ramdisk_file_count. rewrite Hc.
  assert (length es <= 128)%nat by (apply (f_equal zlength) in Hfs; rewrite zlength_app in Hfs; pose proof (zlength_nonneg rest); unfold zlength in *; lia).
  replace (Z.to_nat (zlength es)) with (length es) by (unfold zlength; lia).
  apply (load_loop_eq m g [] es rest (kept fs) 0); try done; [by apply kept_names|unfold zlength; lia].
Qed.

(** ** The bootstrap *)

(** An allocator that answers [NULL] or a buffer of the size it was asked for. *)
Definition allocator_ok (alloc : Z -> option (list byte)) : Prop := forall n b, alloc n = Some b -> zlength b = n.

Lemma bootstrap_plain fuel j alloc start up fs tail g : start <> 0 -> Forall file_ok fs -> zlength (archive up fs tail) < 2 ^ 31 -> (length fs < fuel)%nat ->
  initialized g = false -> zlength (files g) = 128 ->
  exists g', initramfs_bootstrap fuel j alloc start (archive up fs tail) g = Ret (Ready, g', archive up fs tail) /\ indexes (archive up fs tail) g' fs.
Proof.
  intros Hst Hok Hmax Hfuel Hi Hl. unfold initramfs_bootstrap, initramfs_is_cpio_newc. cbv zeta. rewrite (proj2 (Z.eqb_neq start 0)) by done. cbn [orb]. pose proof (archive_long up fs tail).
  destruct (Z.eqb_spec (zlength (archive up fs tail)) 0); [lia|]. destruct (Z.ltb_spec (zlength (archive up fs tail)) 6); [lia|].
  rewrite check_magic_eq by apply archive_magic. rewrite Ret_bind.
  destruct (ramdisk_init_eq up fs tail fuel g) as (g' & -> & Hg'); try done. by exists g'.
Qed.

Lemma bootstrap_gzip fuel j alloc start up fs tail g meta body bs pad : start <> 0 -> Forall file_ok fs -> (length fs < fuel)%nat ->
  initialized g = false -> zlength (files g) = 128 -> junk_ok j -> allocator_ok alloc -> length meta = 6%nat ->
  bs <> [] -> blocks_ok [] bs -> bytes_bits body = deflate 0 bs ++ pad -> inflated bs = archive up fs tail ->
  zlength (archive up fs tail) < 2 ^ 31 -> zlength body < 2 ^ 31 ->
  let a := archive up fs tail in
  match alloc (zlength a) with
  | None => initramfs_bootstrap fuel j alloc start (gzip_file meta body a) g = Ret (AllocationFailed, g, gzip_file meta body a)
  | Some _ => exists g', initramfs_bootstrap fuel j alloc start (gzip_file meta body a) g = Ret (Ready, g', a) /\ indexes a g' fs
  end.
Proof.
  intros Hst Hok Hfuel Hi Hl Hj Halloc Hmeta Hne Hbs Hbits Hinf Hmax Hbody. cbv zeta. unfold initramfs_bootstrap. cbv zeta.
  rewrite (proj2 (Z.eqb_neq start 0)) by done. cbn [orb]. pose proof (archive_long up fs tail). set (a := archive up fs tail) in *. set (src := gzip_file meta body a).
  pose proof (zlength_nonneg body). assert (zlength src = 18 + zlength body) as Hlen.
  { unfold src, gzip_file. rewrite !zlength_app. change (zlength (bytes_of _)) with 4. change (zlength (encode_u32 _)) with 4. unfold zlength. lia. }
  assert (read_u8 src 0 = Ret 0x1F /\ read_u8 src 1 = Ret 0x8B) as [R0 R1] by (by split).
  destruct (Z.eqb_spec (zlength src) 0); [lia|].
  assert (initramfs_is_cpio_newc start src (zlength src) = Ret false) as ->.
  { unfold initramfs_is_cpio_newc. rewrite (proj2 (Z.eqb_neq start 0)) by done. cbn [orb]. destruct (Z.ltb_spec (zlength src) 6); [lia|]. unfold CPIO_NEWC_MAGIC. cbn [cpio_check_magic]. by rewrite R0, Ret_bind. }
  rewrite Ret_bind. cbv iota.
  assert (initramfs_expected_size start src (zlength src) = Ret (zlength a)) as ->.
  { unfold initramfs_expected_size. rewrite (proj2 (Z.eqb_neq start 0)) by done. cbn [orb]. destruct (Z.ltb_spec (zlength src) 18); [lia|]. rewrite R0, R1, !Ret_bind. change (_ && _) with true. cbv iota.
    assert (read_le32 src (zlength src - 4) = Ret (zlength a)) as ->.
    { apply seg_read_u32; [lia|]. pose proof (seg_refl src) as Hs. unfold src in Hs at 2. unfold gzip_file in Hs. rewrite !seg_app in Hs.
      destruct Hs as (_ & _ & _ & _ & Hs). change (zlength (bytes_of _)) with 4 in Hs. change (zlength (encode_u32 _)) with 4 in Hs.
      assert (zlength meta = 6) as Em by (unfold zlength; lia). rewrite Em in Hs.
      by replace (zlength src - 4) with (0 + 4 + 6 + zlength body + 4) by lia. }
    rewrite Ret_bind. destruct (Z.eqb_spec (zlength a) 0); [lia|done]. }
  rewrite Ret_bind. destruct (Z.eqb_spec (zlength a) 0); [lia|]. destruct (alloc (zlength a)) as [b|] eqn:Eb; [|done]. pose proof (Halloc _ _ Eb) as Hb.
  assert (tinflate_decompress j src b = Ret (TINFLATE_OK, a, zlength a)) as ->.
  { assert (zlength (gzip_file meta body (inflated bs)) < 2 ^ 32) as Hsrc by (rewrite Hinf; fold src; lia).
    unfold src. rewrite <- Hinf in *. rewrite (gzip_eq j meta body bs pad b); try done; [|lia].
    unfold filled. rewrite drop_ge by (unfold zlength in Hb; lia). by rewrite app_nil_r. }
  rewrite Ret_bind. cbv beta iota zeta. change (negb (TINFLATE_OK =? TINFLATE_OK)) with false. cbv iota.
  destruct (ramdisk_init_eq up fs tail fuel g) as (g' & E & Hg'); try done. fold a in E. rewrite E, Ret_bind. by exists g'.
Qed.

(** ** Extraction *)

Definition find_any (name : list byte) (fs : list file) : option file := List.find (fun f => bool_decide (f_name f = name)) fs.

Lemma extract_loop_eq up fs fuel m it name dst len : at_files m it up fs -> (length fs < fuel)%nat -> no_nul name ->
  extract_loop fuel m it name dst len =
    match find_any name fs with
    | None => Ret (CPIO_INVALID_FILENAME, dst, len)
    | Some f => if zlength dst <? zlength (f_data f) then Ret (CPIO_OUTPUT_OVERFLOW, dst, len)
                else Ret (CPIO_OK, filled (f_data f) dst, zlength (f_data f))
    end.
Proof.
  intros Hat Hfuel Hn. revert fuel it Hat Hfuel. induction fs as [|f fs IH]; intros [|fuel] it Hat Hfuel; [simpl in Hfuel; lia| |simpl in Hfuel; lia|]; cbn [extract_loop].
  - by rewrite at_files_end with (up := up) by done.
  - pose proof (af_ok _ _ _ _ Hat) as [Hfo _]%Forall_cons. destruct (at_files_next m it up f fs Hat) as (it' & -> & Hat' & p & Hp & E & Hnm & Hd).
    pose proof Hat as [_ _ _ _ Hpos _ Hend]. injection E as E _. assert (p = pos it) as -> by lia. clear E Hp. rewrite Ret_bind. cbv beta iota zeta.
    change (CPIO_OK =? CPIO_END_OF_ARCHIVE) with false. cbv iota.
    destruct (entry_at_fields f (pos it) (data_at f (pos it))) as (_ & Es & En & Ed). rewrite En, Es, Ed.
    rewrite (strcmp_eq m (pos it + 110) (f_name f) name Hnm (fo_name _ Hfo) Hn), Ret_bind. unfold find_any. cbn [List.find].
    destruct (decide (f_name f = name)) as [Eq|Hne].
    + rewrite bool_decide_true by done. change (0 =? 0) with true. cbv iota. destruct (zlength dst <? zlength (f_data f)); [done|].
      unfold copy_bytes. assert (0 <= data_at f (pos it)).
      { unfold data_at. cbv zeta. pose proof (zlength_nonneg (f_name f)). pose proof (Z.mod_pos_bound (- (110 + (zlength (f_name f) + 1))) 4). lia. }
      rewrite fmap_cons in Hend. cbn [concat] in Hend. rewrite <- app_assoc, zlength_app, zlength_entry in Hend.
      pose proof (zlength_nonneg (concat (entry up <$> fs) ++ entry up trailer)). pose proof (Z.mod_pos_bound (- zlength (f_data f)) 4).
      assert (data_at f (pos it) = pos it + data_at f 0) as Eda by (unfold data_at; lia).
      destruct (Z.leb_spec 0 (data_at f (pos it))); [|lia]. destruct (Z.leb_spec (data_at f (pos it) + zlength (f_data f)) (zlength m)); [|lia].
      simpl andb. cbv iota. rewrite Ret_bind, seg_chars by done. done.
    + rewrite bool_decide_false by done. change (1 =? 0) with false. cbv iota. apply IH; [done|simpl in Hfuel; lia].
Qed.

(** The newc archive format is inverted: for every list of files and whatever
    follows the trailer, [cpio_extract_file] copies out exactly the data of the
    first file of a name, or answers that the buffer is too small or that there
    is no such file. *)
Theorem cpio_extract_correct up fs tail fuel name dst len :
  Forall file_ok fs -> zlength (archive up fs tail) < 2 ^ 31 -> (length fs < fuel)%nat -> no_nul name ->
  cpio_extract_file fuel (archive up fs tail) (zlength (archive up fs tail)) name dst len =
    match find_any name fs with
    | None => Ret (CPIO_INVALID_FILENAME, dst, len)
    | Some f => if zlength dst <? zlength (f_data f) then Ret (CPIO_OUTPUT_OVERFLOW, dst, len)
                else Ret (CPIO_OK, filled (f_data f) dst, zlength (f_data f))
    end.
Proof.
  intros Hok Hmax Hfuel Hn. unfold cpio_extract_file. rewrite iter_init_eq, Ret_bind. cbv beta iota zeta.
  apply (extract_loop_eq up); [by apply at_files_start|done|done].
Qed.

(** The modules of an archive [a]: itself, or a gzip file of it with any blocks. *)
Inductive module_of (a : list byte) : memory -> Prop :=
| plain_module : module_of a a
| gzip_module meta body bs pad : length meta = 6%nat -> bs <> [] -> blocks_ok [] bs -> bytes_bits body = deflate 0 bs ++ pad ->
    inflated bs = a -> zlength body < 2 ^ 31 -> module_of a (gzip_file meta body a).

(** A compressed module is not an archive itself. *)
Lemma gzip_not_archive meta body up fs tail a : gzip_file meta body a <> archive up fs tail.
Proof.
  intros E. apply (f_equal (fun l => l .@ 0)) in E. pose proof (archive_magic up fs tail) as Hs.
  assert (archive up fs tail .@ 0 = Some "0"%byte) as E0 by (by apply (Hs 0)). rewrite E0 in E. discriminate E.
Qed.

(** C8: From the boot module to the files.  A module at an address other than 0 holds a
    newc archive, plain or as a gzip file (without optional header fields) of any DEFLATE
    blocks.  A plain archive, and a compressed one for which the kernel heap has a buffer
    of the size of the archive, ends [initramfs_bootstrap] with the ramdisk ready: then
    [ramdisk_lookup] answers, for every name, the data, size, mode and time of the first
    of the kept files (the first 128 files that are not empty) with that name, or that
    there is none, and [initramfs_load_drivers] counts exactly the kept assemblies.  When
    the heap refuses the buffer of a compressed archive, the failure is reported and the
    ramdisk stays as it was. *)
Theorem bootstrap_correct j alloc start up fs tail fuel module :
  start <> 0 -> Forall file_ok fs -> zlength (archive up fs tail) < 2 ^ 31 -> (length fs < fuel)%nat -> junk_ok j -> allocator_ok alloc ->
  module_of (archive up fs tail) module ->
  (module = archive up fs tail \/ is_Some (alloc (zlength (archive up fs tail))) ->
   exists g, initramfs_bootstrap fuel j alloc start module empty_ramdisk = Ret (Ready, g, archive up fs tail) /\
     (forall name, no_nul name -> lookup_answer (archive up fs tail) (find_file name fs) (ramdisk_lookup (archive up fs tail) g name)) /\
     initramfs_load_drivers (archive up fs tail) g = Ret (zlength (List.filter is_assembly (kept fs)))) /\
  (module <> archive up fs tail -> alloc (zlength (archive up fs tail)) = None ->
   initramfs_bootstrap fuel j alloc start module empty_ramdisk = Ret (AllocationFailed, empty_ramdisk, module)).
Proof.
  intros Hst Hok Hmax Hfuel Hj Halloc Hm. set (a := archive up fs tail) in *.
  assert ((module = a \/ is_Some (alloc (zlength a)) -> exists g, initramfs_bootstrap fuel j alloc start module empty_ramdisk = Ret (Ready, g, a) /\ indexes a g fs) /\
    (module <> a -> alloc (zlength a) = None -> initramfs_bootstrap fuel j alloc start module empty_ramdisk = Ret (AllocationFailed, empty_ramdisk, module)))
    as [Hready Hfailed].
  { destruct Hm as [|meta body bs pad Hmeta Hne Hbs Hbits Hinf Hbody]; [split; [intros _; by apply bootstrap_plain|done]|].
    pose proof (bootstrap_gzip fuel j alloc start up fs tail empty_ramdisk meta body bs pad Hst Hok Hfuel eq_refl eq_refl Hj Halloc Hmeta Hne Hbs Hbits Hinf Hmax Hbody) as Hg.
    cbv zeta in Hg. fold a in Hg. split.
    - intros [E|[b Eb]]; [by apply gzip_not_archive in E|by rewrite Eb in Hg].
    - intros _ En. by rewrite En in Hg. }
  split; [|done]. intros Hr. destruct (Hready Hr) as (g & E & Hg). exists g. split; [done|].
  split; [intros name Hn; by apply lookup_eq|by apply load_drivers_eq].
Qed.

(** *** Samples *)

Definition sample_files : list file :=
  [mk_boot_file ["d"]%byte [] 0x41ED 5 (1, 0, 0, 2) (0, 0, 0, 0) 0;
   mk_boot_file ["a"; "."; "d"; "l"; "l"]%byte ["M"; "Z"; "x"]%byte 0x81A4 7 (2, 0, 0, 1) (8, 1, 0, 0) 0].

Definition sample_archive : list byte := archive false sample_files (bytes_of [0; 0; 0]).

Lemma name_okb s : forallb (fun b => negb (byte_Z b =? 0)) s = true -> no_nul s.
Proof. intros H b Hb%list_elem_of_In E. rewrite forallb_forall in H. specialize (H b Hb). by rewrite E in H. Qed.

Lemma sample_files_ok : Forall file_ok sample_files.
Proof.
  unfold sample_files. constructor; [|constructor; [|constructor]].
  all: split; [by apply name_okb|discriminate|]; intros v Hv%list_elem_of_In; vm_compute in Hv; intuition lia.
Qed.

Lemma cpio_extract_correct_witness :
  cpio_extract_file 3 sample_archive (zlength sample_archive) ["a"; "."; "d"; "l"; "l"]%byte (replicate 5 x00) 0 =
    Ret (CPIO_OK, ["M"; "Z"; "x"; x00; x00]%byte, 3).
Proof.
  unfold sample_archive. rewrite cpio_extract_correct; [reflexivity|apply sample_files_ok|vm_compute; reflexivity|simpl; lia|by apply name_okb].
Defined.

(** A module with the archive in one stored block. *)
Definition sample_stored : list block := [Stored sample_archive].
Definition sample_module : memory := gzip_file (replicate 6 x00) (pack 1000 (deflate 0 sample_stored)) sample_archive.

(** A heap with a megabyte left. *)
Definition some_buffer (n : Z) : option (list byte) := if (0 <=? n) && (n <=? 0x100000) then Some (replicate (Z.to_nat n) x00) else None.
Lemma some_buffer_ok : allocator_ok some_buffer.
Proof. intros n b. unfold some_buffer. case_if; [|done]. intros [= <-]. bool_cases. unfold zlength. rewrite length_replicate. lia. Qed.

Lemma bootstrap_correct_witness :
  exists g, initramfs_bootstrap 3 sample_junk some_buffer 0x200000 sample_module empty_ramdisk = Ret (Ready, g, sample_archive) /\
    initramfs_load_drivers sample_archive g = Ret 1.
Proof.
  destruct (bootstrap_correct sample_junk some_buffer 0x200000 false sample_files (bytes_of [0; 0; 0]) 3 sample_module) as [Hr _].
  - done.
  - apply sample_files_ok.
  - vm_compute. reflexivity.
  - simpl. lia.
  - apply sample_junk_ok.
  - apply some_buffer_ok.
  - apply (gzip_module _ _ _ sample_stored []).
    + reflexivity.
    + discriminate.
    + split; [|exact I]. vm_compute. reflexivity.
    + vm_compute. reflexivity.
    + vm_compute. reflexivity.
    + vm_compute. reflexivity.
  - destruct Hr as (g & E & _ & Hl); [right; by eexists|]. exists g. split; [exact E|exact Hl].
Defined.

(** ** Where the bounds checks wrap

    [pos + namesize] is computed in 32 bits: with a name size just below 2^32 the
    sum wraps to the start of the archive, the check passes, and the iterator
    stands where it was.  [ramdisk_init_from_archive] then never returns. *)

Definition wrap_archive : list byte :=
  CPIO_NEWC_MAGIC ++ concat (hex true 8 <$> [0; 0; 0; 0; 0; 0; 0; 0; 0; 0; 0; 2 ^ 32 - 110; 0]) ++ ["a"; x00]%byte.

Lemma wrap_next n : exists e, cpio_iter_next wrap_archive (mk_iter 112 0 n) = Ret (CPIO_OK, mk_iter 112 0 (u32 (n + 1)), Some e) /\ filesize e = 0.
Proof. eexists. split; [reflexivity|reflexivity]. Qed.

Lemma wrap_loops fuel n fs idx : idx < 128 -> index_loop fuel wrap_archive (mk_iter 112 0 n) fs idx = NoFuel.
Proof.
  intros Hidx. revert n. induction fuel as [|fuel IH]; intros n; [done|]. cbn [index_loop].
  destruct (wrap_next n) as (e & -> & Hz). rewrite Ret_bind. cbv beta iota zeta. change (CPIO_OK =? CPIO_END_OF_ARCHIVE) with false. cbv iota.
  unfold RAMDISK_MAX_FILES. destruct (Z.leb_spec 128 idx); [lia|]. rewrite Hz. apply IH.
Qed.

Lemma wrap_never_ends fuel g : initialized g = false -> ramdisk_init_from_archive fuel wrap_archive 112 g = NoFuel.
Proof.
  intros Hi. unfold ramdisk_init_from_archive. change (112 =? 0) with false. cbv iota. rewrite Hi.
  change (cpio_iter_init wrap_archive 112) with (Ret (CPIO_OK, Some (mk_iter 112 0 0)) : outcome (Z * option cpio_iterator)).
  rewrite Ret_bind. cbv beta iota zeta. by rewrite wrap_loops by lia.
Qed.

(** A name at the very end is compared with the trailer without regard to
    [namesize]: the comparison reads behind the archive. *)
Lemma name_overread :
  cpio_iter_next (CPIO_NEWC_MAGIC ++ concat (hex true 8 <$> [0; 0; 0; 0; 0; 0; 0; 0; 0; 0; 0; 0; 0])) (mk_iter 110 0 0) = Fault.
Proof. reflexivity. Qed.

End Initramfs.
