(* ===== verification/Boot.v ===== *)
(** * Memory at boot

    The part of [kernel_main] ([kernel/main.c]) and [kernel_main_aarch64]
    ([kernel/main_aarch64.c]) that divides the memory above the kernel image: the
    boot module is found, the kernel heap is given its size, the frame allocator
    is told to stay above the heap.  The bytes of the module are a separate image;
    its addresses matter only for the division. *)

From Stdlib Require Import Strings.Byte.
From S2P Require Import Prelude Status Bytes KHeap Pmm Tinflate Cpio.
Import KHeap Pmm Cpio.

Module Boot.

Definition MB2_TAG_MODULE : Z := 3.

(** [g_initramfs_start] and [g_initramfs_size]. *)
Definition boot_discover_initramfs (m : memory) (mb_info : Z) : outcome (Z * Z) :=
  tag ← mb2_find_tag m mb_info MB2_TAG_MODULE;
  match tag with
  | None => Ret (0, 0)
  | Some t =>
    mod_start ← read_u32 m (t + 8);
    mod_end ← read_u32 m (t + 12);
    Ret (mod_start, u32 (mod_end - mod_start))
  end.

Definition boot_get_heap_floor (kernel_end start size : Z) : Z :=
  let heap_floor := mm_align_up_u64 kernel_end 4096 in
  if negb (size =? 0) then
    let module_end := mm_align_up_u64 (u64 (start + size)) 4096 in
    if heap_floor <? module_end then module_end else heap_floor
  else heap_floor.

(** [module] holds the bytes at [g_initramfs_start]. *)
Definition boot_get_heap_reservation_bytes (start : Z) (module : memory) (size : Z) : outcome Z :=
  initramfs_extra ← initramfs_required_heap_bytes start module size;
  let required := EARLY_HEAP_SIZE + ZACLR_ROOT_PROVIDER_HEAP_BYTES in
  Ret (if required <? initramfs_extra then initramfs_extra else required).

(** The memory part of [kernel_main]: the frame allocator and the heap. *)
Definition boot_memory (m : memory) (mb_info kernel_end : Z) (module : memory) (words : mem) (p : pmm) : outcome (pmm * kheap) :=
  '(start, size) ← boot_discover_initramfs m mb_info;
  let floor := boot_get_heap_floor kernel_end start size in
  bytes ← boot_get_heap_reservation_bytes start module size;
  let p := pmm_reserve_until p (u64 (floor + bytes)) in
  p ← pmm_init m kernel_end p mb_info;
  let h := kheap_set_size (boot_heap words) bytes in
  let h := kheap_reserve_until h floor in
  Ret (p, kheap_init h kernel_end).

(** The memory part of [kernel_main_aarch64]; the region and the module come from
    the device tree. *)
Definition boot_memory_aarch64 (kernel_end mem_base mem_size initrd_start initrd_end : Z) (module : memory) (words : mem) (p : pmm)
  : outcome (pmm * kheap) :=
  heap_reservation_bytes ← initramfs_required_heap_bytes initrd_start module (u32 (initrd_end - initrd_start));
  let provider_heap_bytes := EARLY_HEAP_SIZE + ZACLR_ROOT_PROVIDER_HEAP_BYTES in
  let bytes := if heap_reservation_bytes <? provider_heap_bytes then provider_heap_bytes else heap_reservation_bytes in
  let p := pmm_reserve_until p (u64 (kernel_end + bytes)) in
  let p := pmm_init_range kernel_end p mem_base mem_size in
  let h := kheap_set_size (boot_heap words) bytes in
  Ret (p, kheap_init h kernel_end).

(** ** The division *)

(** The frame allocator before it is initialised. *)
Definition fresh_pmm (frames : list Z) : pmm := mk_pmm frames 0 0.

Lemma align_page v : 0 <= v < 2 ^ 63 -> mm_align_up_u64 v 4096 = (v + 4095) / 4096 * 4096.
Proof. apply mm_align_up_4096. Qed.

Lemma floor_eq kernel_end start size : 0 <= kernel_end < 2 ^ 59 -> 0 <= start < 2 ^ 32 -> 0 <= size < 2 ^ 32 ->
  let floor := boot_get_heap_floor kernel_end start size in
  floor mod 4096 = 0 /\ kernel_end <= floor < 2 ^ 60 /\ (size <> 0 -> start + size <= floor) /\
  (kernel_end + 4095) / 4096 * 4096 <= floor.
Proof.
  intros Hk Hs Hz. unfold boot_get_heap_floor. rewrite align_page by lia.
  destruct (Z.eqb_spec size 0); simpl; [zlia|]. rewrite u64_id, align_page by lia. case_if; zlia.
Qed.

Lemma read_le32_range m p v : Tinflate.read_le32 m p = Ret v -> 0 <= v < 2 ^ 32.
Proof.
  unfold Tinflate.read_le32, read_u8. destruct (m .@ p) as [a|]; [|done]. destruct (m .@ (p + 1)) as [b|]; [|done].
  destruct (m .@ (p + 2)) as [c|]; [|done]. destruct (m .@ (p + 3)) as [e|]; [|done]. simpl. intros [= <-].
  pose proof (byte_Z_range a). pose proof (byte_Z_range b). pose proof (byte_Z_range c). pose proof (byte_Z_range e).
  rewrite lor_le32 by done. lia.
Qed.

(** The heap for the module is large enough for what it unpacks to. *)
Lemma required_bytes_range start m size v : initramfs_required_heap_bytes start m size = Ret v -> 0 <= v < 2 ^ 32.
Proof.
  unfold initramfs_required_heap_bytes. case_if; [intros [= <-]; lia|].
  destruct (initramfs_is_cpio_newc start m size) as [[]| | |]; try done; simpl; [intros [= <-]; lia|].
  destruct (initramfs_expected_size start m size) as [e| | |] eqn:He; try done. simpl. case_if; [intros [= <-]; lia|].
  assert (0 <= e < 2 ^ 32) as Hr.
  { unfold initramfs_expected_size in He. case_if_in He; [injection He as <-; lia|].
    destruct (read_u8 m 0) as [b0| | |]; try done. destruct (read_u8 m 1) as [b1| | |]; try done. simpl in He.
    destruct (_ && _).
    - destruct (Tinflate.read_le32 m (size - 4)) as [i| | |] eqn:Hi; try done. simpl in He. apply read_le32_range in Hi.
      case_if_in He; [injection He as <-; done|]. injection He as <-. pose proof (u32_range (size * 2048)). repeat case_if; lia.
    - simpl in He. injection He as <-. pose proof (u32_range (size * 2048)). repeat case_if; lia. }
  pose proof (u32_range (e + 2 * 1024 * 1024)). intros [= <-]. case_if; lia.
Qed.

Lemma heap_align_page v : 0 <= v < 2 ^ 63 -> heap_align_up v KHEAP_PAGE_ALIGN = (v + 4095) / 4096 * 4096.
Proof. apply mm_align_up_4096. Qed.

(** The heap starts at the floor and has the size reserved for it. *)
Lemma heap_place words bytes floor kernel_end :
  0 < bytes < 2 ^ 60 -> 0 <= kernel_end < 2 ^ 60 -> floor mod 4096 = 0 -> (kernel_end + 4095) / 4096 * 4096 <= floor < 2 ^ 61 -> 0 < floor ->
  let h := booted words bytes floor kernel_end in g_heap_current h = floor /\ g_heap_end h = floor + bytes /\ g_heap_alloc_start h = 0.
Proof.
  intros Hb Hk Ha Hf Hpos. unfold booted, kheap_set_size, kheap_reserve_until, kheap_init, boot_heap. simpl.
  destruct (Z.eqb_spec bytes 0); [lia|]. simpl. destruct (Z.ltb_spec 0 floor); [|lia]. simpl. rewrite !heap_align_page by lia.
  assert ((floor + 4095) / 4096 * 4096 = floor) as -> by zlia. case_if.
  - split; [done|]. split; [|done]. apply u64_id. lia.
  - assert ((kernel_end + 4095) / 4096 * 4096 = floor) as -> by lia. split; [done|]. split; [|done]. apply u64_id. lia.
Qed.

(** What stands in memory after the boot: the kernel image below [kernel_end], the
    module, the heap, and the frames. *)
Record memory_divided (kernel_end start size : Z) (rs : list region) (p : pmm) (h : kheap) : Prop := {
  md_frames : frames_ok 0 rs p;
  md_kernel : kernel_end <= g_heap_current h;
  md_module : size <> 0 -> start + size <= g_heap_current h;
  md_heap : g_heap_current h <= g_heap_end h;
  md_above f : f ∈ free_frames p -> g_heap_end h <= f }.

Lemma bytes_range start module size bytes : boot_get_heap_reservation_bytes start module size = Ret bytes ->
  EARLY_HEAP_SIZE + ZACLR_ROOT_PROVIDER_HEAP_BYTES <= bytes < 2 ^ 32.
Proof.
  unfold boot_get_heap_reservation_bytes. intros Hbytes.
  destruct (initramfs_required_heap_bytes start module size) as [e| | |] eqn:He; try done. simpl in Hbytes.
  apply required_bytes_range in He. injection Hbytes as <-. unfold EARLY_HEAP_SIZE, ZACLR_ROOT_PROVIDER_HEAP_BYTES. case_if; lia.
Qed.

(** C38: The boot divides memory without overlap.  For every boot information with
    a memory map of disjoint available regions below 2^62 (the boot loader has to
    provide one), with or without a module, the frames given
    to the frame allocator are distinct, page-aligned, inside available regions,
    and above the end of the kernel heap; the heap lies above the kernel image and
    the module and has room for the decompressed module; and the heap is in its
    initial state. *)
Theorem boot_memory_disjoint m mb_info kernel_end start size bytes tag entry_size rs module words frames :
  0 < kernel_end < 2 ^ 59 -> boot_discover_initramfs m mb_info = Ret (start, size) -> 0 <= start < 2 ^ 32 /\ 0 <= size < 2 ^ 32 ->
  boot_get_heap_reservation_bytes start module size = Ret bytes ->
  mb2_find_tag m mb_info MB2_TAG_MEMORY_MAP = Ret (Some tag) -> map_at m tag entry_size rs -> regions_ok rs ->
  zlength frames = PMM_MAX_FREE_FRAMES ->
  exists p h, boot_memory m mb_info kernel_end module words (fresh_pmm frames) = Ret (p, h) /\
    memory_divided kernel_end start size rs p h /\ reaches h ∅ /\ g_heap_end h - g_heap_current h = bytes.
Proof.
  intros Hk Hmodule Hrange Hbytes Htag Hmap Hregions Hframes.
  pose proof (bytes_range _ _ _ _ Hbytes) as Hb. unfold EARLY_HEAP_SIZE, ZACLR_ROOT_PROVIDER_HEAP_BYTES in Hb.
  destruct (floor_eq kernel_end start size) as (Hfa & Hfk & Hfm & Hfp); [lia|tauto|tauto|].
  unfold boot_memory. rewrite Hmodule, Ret_bind. cbv beta iota zeta. rewrite Hbytes, Ret_bind. set (floor := boot_get_heap_floor kernel_end start size) in *.
  rewrite u64_id by lia. unfold pmm_reserve_until, fresh_pmm. cbn [g_reserved_until g_free_frames g_free_frame_count].
  destruct (Z.ltb_spec 0 (floor + bytes)); [|lia].
  destruct (pmm_init_ok (mk_pmm frames 0 (floor + bytes)) kernel_end Hframes) with (m := m) (mb_info := mb_info) (tag := tag) (entry_size := entry_size) (rs := rs)
    as (p & Ep & [Hst Hnd Hfr]); [lia|simpl; lia|done|done|done|].
  rewrite Ep, Ret_bind. exists p. eexists. split; [done|].
  change (kheap_init _ _) with (booted words bytes floor kernel_end).
  destruct (heap_place words bytes floor kernel_end) as (Hc & He & _); [lia|lia|done|lia|lia|].
  split; [|split; [constructor; lia|lia]]. split; rewrite ?Hc, ?He; [|lia|done|lia|].
  - split; [done|done|]. intros f Hf. destruct (Hfr f Hf) as (? & ? & ?). split; [done|]. split; [|done]. unfold PMM_MIN_USABLE_ADDR in *. lia.
  - intros f Hf. destruct (Hfr f Hf) as (_ & Hlo & _). rewrite reserved_end_eq in Hlo by (simpl; lia). simpl in Hlo. zlia.
Qed.


(** *** A machine with 64 MiB and a module of eight bytes *)

(** The information structure at address 0: the module, the memory map with the
    regions at 0 and at 1 MiB, the end tag. *)
Definition sample_info : memory :=
  bytes_of ([88; 0; 0; 0; 0; 0; 0; 0] ++
    [3; 0; 0; 0; 16; 0; 0; 0; 0; 0; 32; 0; 8; 0; 32; 0] ++
    [6; 0; 0; 0; 64; 0; 0; 0; 24; 0; 0; 0; 0; 0; 0; 0] ++
    [0; 0; 0; 0; 0; 0; 0; 0; 0; 252; 9; 0; 0; 0; 0; 0; 1; 0; 0; 0; 0; 0; 0; 0] ++
    [0; 0; 16; 0; 0; 0; 0; 0; 0; 48; 177; 2; 0; 0; 0; 0; 1; 0; 0; 0; 0; 0; 0; 0]).

Definition sample_regions : list region := [mk_region 0 0x9FC00 1; mk_region 0x100000 0x2B13000 1].

Lemma sample_regions_ok : regions_ok sample_regions.
Proof.
  split.
  - intros r Hr%list_elem_of_In. simpl in Hr. intuition subst; simpl; lia.
  - intros i j r t Hi Hj Hij _ _. apply get_cons_inv in Hi as [[-> ->]|[_ Hi]]; apply get_cons_inv in Hj as [[-> ->]|[_ Hj]]; [done|..].
    + apply get_cons_inv in Hj as [[_ ->]|[_ Hj]]; [simpl; lia|by rewrite get_nil in Hj].
    + apply get_cons_inv in Hi as [[_ ->]|[_ Hi]]; [simpl; lia|by rewrite get_nil in Hi].
    + apply get_cons_inv in Hi as [[Hi ->]|[_ Hi]]; [|by rewrite get_nil in Hi]. apply get_cons_inv in Hj as [[Hj ->]|[_ Hj]]; [lia|by rewrite get_nil in Hj].
Qed.

Lemma sample_map : map_at sample_info 24 24 sample_regions.
Proof.
  split; [reflexivity|reflexivity|by vm_compute|].
  intros i r Hi. apply get_cons_inv in Hi as [[-> ->]|[_ Hi]]; [by split|].
  apply get_cons_inv in Hi as [[Hi ->]|[_ Hi]]; [|by rewrite get_nil in Hi]. assert (i = 1) as -> by lia. by split.
Qed.

Definition sample_module_bytes : memory := bytes_of [0; 1; 2; 3; 4; 5; 6; 7].

Lemma boot_memory_disjoint_witness :
  exists p h, boot_memory sample_info 0 0x123450 sample_module_bytes (fun _ => 0) (fresh_pmm (replicate (Z.to_nat PMM_MAX_FREE_FRAMES) 0)) = Ret (p, h) /\
    memory_divided 0x123450 0x200000 8 sample_regions p h.
Proof.
  destruct (boot_memory_disjoint sample_info 0 0x123450 0x200000 8 0x2800000 24 24 sample_regions sample_module_bytes (fun _ => 0) (replicate (Z.to_nat PMM_MAX_FREE_FRAMES) 0))
    as (p & h & E & Hd & _).
  - lia.
  - reflexivity.
  - lia.
  - vm_compute. reflexivity.
  - reflexivity.
  - apply sample_map.
  - apply sample_regions_ok.
  - unfold zlength. rewrite length_replicate. reflexivity.
  - exists p, h. split; [exact E|exact Hd].
Defined.

(** ** The AArch64 boot

    The frames stay above the heap there as well, as long as the heap is a whole
    number of pages; but nothing keeps them off the module. *)

Lemma aarch64_module_unprotected :
  exists p h, boot_memory_aarch64 0x40200000 0x40000000 0x2C00000 0x42B00000 0x42B01000 (bytes_of [48; 55; 48; 55; 48; 49]) (fun _ => 0)
      (fresh_pmm (replicate (Z.to_nat PMM_MAX_FREE_FRAMES) 0)) = Ret (p, h) /\ 0x42B00000 ∈ free_frames p.
Proof.
  eexists _, _. split; [reflexivity|]. apply list_elem_of_In.
  match goal with |- List.In ?f ?l => assert (existsb (Z.eqb f) l = true) as H by (vm_compute; reflexivity) end.
  apply existsb_exists in H as (x & Hx & E). apply Z.eqb_eq in E. subst x. exact Hx.
Qed.

End Boot.
