(* ===== verification/EmulatedFloat.v ===== *)
(** * Emulated floating point

    [zaclr/exec/zaclr_emulated_float.h]: the kernel is built without a floating
    point unit ([PLATFORM_EMULATED_FLOATINGPOINT]), and the interpreter computes
    on 64-bit fixed-point numbers with 16 fraction bits.  An IEEE literal of the
    program text is converted when it is loaded.  The theorem says what is kept of
    the literal: its truncation to 10 (binary32) or 16 (binary64) fraction bits,
    saturated, and that the product of two fixed-point numbers is the truncated
    exact product as long as it can be represented. *)

From S2P Require Import Prelude.

Module EmulatedFloat.

Definition k_float32_shift : Z := 10.
Definition k_float64_shift : Z := 16.

Definition decode_r4_to_common (bits : Z) : Z :=
  let mantissa := Z.lor (Z.land bits 0x7FFFFF) 0x800000 in
  let exponent := Z.land (Z.shiftr bits 23) 0xFF - 127 - (23 - k_float32_shift) in
  let result :=
    if bits =? 0 then 0
    else if exponent <=? -31 then 0
    else if 31 <=? exponent then 0x7FFFFFFF
    else if 0 <? exponent then
      let temp := u64 (Z.shiftl mantissa exponent) in
      if negb (Z.shiftr temp 31 =? 0) then 0x7FFFFFFF else i32 temp
    else if exponent <? 0 then i32 (Z.shiftr mantissa (- exponent))
    else i32 mantissa in
  let result := if flag_set bits 0x80000000 then i32 (- result) else result in
  i64 (Z.shiftl result (k_float64_shift - k_float32_shift)).

Definition decode_r8_to_common (bits : Z) : Z :=
  let mantissa := Z.lor (Z.land bits 0xFFFFFFFFFFFFF) 0x10000000000000 in
  let exponent := Z.land (Z.shiftr bits 52) 0x7FF - 1023 - (52 - k_float64_shift) in
  let mask := 0xFFFFFFFFFFFFFFFF in
  let result :=
    if bits =? 0 then 0
    else if exponent <=? -63 then 0
    else if 63 <=? exponent then 0x7FFFFFFFFFFFFFFF
    else if 0 <? exponent then
      let mask := u64 (Z.shiftl mask (63 - exponent)) in
      if negb (Z.land mask mantissa =? 0) then 0x7FFFFFFFFFFFFFFF
      else i64 (u64 (Z.shiftl mantissa exponent))
    else if exponent <? 0 then i64 (Z.shiftr mantissa (- exponent))
    else i64 mantissa in
  if flag_set bits 0x8000000000000000 then i64 (- result) else result.

Definition multiply_common (left_common right_common : Z) : Z :=
  let op1 := u64 (if left_common <? 0 then i64 (- left_common) else left_common) in
  let op2 := u64 (if right_common <? 0 then i64 (- right_common) else right_common) in
  let negative := xorb (left_common <? 0) (right_common <? 0) in
  let part := u64 (op1 * u16 (Z.shiftr op2 0)) in
  let acc := u64 (0 + Z.shiftr part k_float64_shift) in
  let part := u64 (op1 * u16 (Z.shiftr op2 16)) in
  let acc := u64 (acc + part) in
  let part := u64 (op1 * u16 (Z.shiftr op2 32)) in
  let acc := u64 (acc + u64 (Z.shiftl part 16)) in
  let part := u64 (op1 * u16 (Z.shiftr op2 48)) in
  let acc := u64 (acc + u64 (Z.shiftl part 32)) in
  if negative && negb (acc =? 0) then i64 (- i64 acc) else i64 acc.

(** ** What an IEEE number means

    A finite number of [w] fraction bits with biased exponent [e] is
    [significand * 2^(e - bias - w)], negative when the sign bit is set. *)

Definition fraction (w bits : Z) : Z := bits mod 2 ^ w.
Definition biased (w ew bits : Z) : Z := bits / 2 ^ w mod 2 ^ ew.
Definition negative (w ew bits : Z) : bool := Z.odd (bits / 2 ^ (w + ew)).

(** Subnormal numbers have no hidden bit and the exponent of the smallest normal
    ones. *)
Definition significand (w ew bits : Z) : Z :=
  if biased w ew bits =? 0 then fraction w bits else 2 ^ w + fraction w bits.
Definition exponent (w ew bits : Z) : Z :=
  Z.max 1 (biased w ew bits) - (2 ^ (ew - 1) - 1) - w.

(** [scaled m e] is [m * 2^e] truncated to an integer. *)
Definition scaled (m e : Z) : Z := if 0 <=? e then m * 2 ^ e else m / 2 ^ (- e).

(** The number with [bits] as fixed-point number with [shift] fraction bits,
    saturated at [limit]; infinities and NaNs saturate. *)
Definition fixed_point (w ew shift limit bits : Z) : Z :=
  let magnitude := if biased w ew bits =? 2 ^ ew - 1 then limit
    else Z.min limit (scaled (significand w ew bits) (exponent w ew bits + shift)) in
  if negative w ew bits then - magnitude else magnitude.

(** ** Lemmas *)

Lemma land_low x w : 0 <= w -> Z.land x (2 ^ w - 1) = x mod 2 ^ w.
Proof. intros. rewrite <- Z.land_ones by done. f_equal. rewrite Z.ones_equiv. lia. Qed.

(** The hidden bit is set by an addition. *)
Lemma lor_hidden x w : 0 <= w -> Z.lor (x mod 2 ^ w) (2 ^ w) = 2 ^ w + x mod 2 ^ w.
Proof.
  intros Hw. pose proof (Z.mod_pos_bound x (2 ^ w) ltac:(lia)).
  pose proof (lor_shiftl_add w 1 (x mod 2 ^ w) Hw H) as E.
  rewrite Z.shiftl_mul_pow2, Z.mul_1_l in E by done. by rewrite Z.lor_comm.
Qed.

Lemma flag_set_bit b n : 0 <= n -> flag_set b (2 ^ n) = Z.odd (b / 2 ^ n).
Proof.
  intros Hn. rewrite <- Z.shiftr_div_pow2, <- Z.testbit_odd by done. unfold flag_set.
  destruct (Z.testbit b n) eqn:Hb.
  - destruct (Z.eqb_spec (Z.land b (2 ^ n)) 0) as [E|]; [|done].
    assert (Z.testbit (Z.land b (2 ^ n)) n = true) as Ht.
    { rewrite Z.land_spec, Hb, Z.pow2_bits_true by done. done. }
    by rewrite E, Z.bits_0 in Ht.
  - rewrite (proj2 (Z.eqb_eq _ 0)); [done|]. apply Z.bits_inj'. intros k Hk.
    rewrite Z.land_spec, Z.bits_0. destruct (Z.eq_dec k n) as [->|Hne]; [by rewrite Hb|].
    rewrite Z.pow2_bits_false by lia. apply andb_false_r.
Qed.

Lemma pow2_le a b : 0 <= a <= b -> 2 ^ a <= 2 ^ b.
Proof. intros. apply Z.pow_le_mono_r; lia. Qed.

Lemma scaled_small m e l : 0 <= m < 2 ^ l -> 0 <= l -> e <= - l -> scaled m e = 0.
Proof.
  intros Hm Hl He. unfold scaled. destruct (Z.leb_spec 0 e).
  - replace l with 0 in Hm by lia. assert (m = 0) as -> by lia. lia.
  - apply Z.div_small. pose proof (pow2_le l (- e)). lia.
Qed.

Lemma scaled_large m e l : 1 <= m -> 0 <= l <= e -> 2 ^ l <= scaled m e.
Proof.
  intros Hm He. unfold scaled. rewrite (proj2 (Z.leb_le 0 e)) by lia.
  pose proof (pow2_le l e). pose proof (Z.pow_pos_nonneg 2 e). nia.
Qed.

(** The magnitude of [fixed_point]. *)
Definition magnitude (w ew shift limit bits : Z) : Z :=
  if biased w ew bits =? 2 ^ ew - 1 then limit
  else Z.min limit (scaled (significand w ew bits) (exponent w ew bits + shift)).

Lemma fixed_point_magnitude w ew shift limit bits :
  fixed_point w ew shift limit bits =
  if negative w ew bits then - magnitude w ew shift limit bits else magnitude w ew shift limit bits.
Proof. done. Qed.

(** The case analysis both conversions make on the exponent computes the
    magnitude. *)
Lemma magnitude_cases w ew shift l bits r :
  0 <= w -> w + 1 <= l -> 1 <= ew -> 0 <= bits ->
  let bias := 2 ^ (ew - 1) - 1 in
  l <= bias + w - shift -> l <= 2 ^ ew - 1 - bias - (w - shift) ->
  let m := 2 ^ w + bits mod 2 ^ w in let e := biased w ew bits - bias - (w - shift) in
  (bits = 0 \/ e <= - l -> r = 0) ->
  (bits <> 0 -> l <= e -> r = 2 ^ l - 1) ->
  (bits <> 0 -> 0 < e < l -> r = Z.min (2 ^ l - 1) (m * 2 ^ e)) ->
  (bits <> 0 -> - l < e < 0 -> r = m / 2 ^ (- e)) ->
  (bits <> 0 -> e = 0 -> r = m) ->
  r = magnitude w ew shift (2 ^ l - 1) bits.
Proof.
  intros Hw Hl Hew Hb bias Hlo Hhi m e H0 Hsat Hpos Hneg Hz. unfold magnitude, exponent, significand.
  fold bias. unfold fraction. pose proof (Z.mod_pos_bound bits (2 ^ w) ltac:(lia)) as Hf.
  assert (2 ^ (w + 1) = 2 * 2 ^ w) as Ew by (rewrite Z.pow_add_r by lia; lia).
  assert (2 ^ (w + 1) <= 2 ^ l) as Hwl by (apply pow2_le; lia).
  assert (2 ^ ew = 2 * 2 ^ (ew - 1)) as Eb by (rewrite <- Z.pow_succ_r by lia; f_equal; lia).
  pose proof (pow2_le 0 (ew - 1)). pose proof (Z.pow_pos_nonneg 2 w). set (b := biased w ew bits) in *.
  assert (0 <= b < 2 ^ ew) by (apply Z.mod_pos_bound; lia).
  destruct (Z.eqb_spec b 0) as [E0|E0].
  { rewrite (proj2 (Z.eqb_neq b (2 ^ ew - 1))) by lia. rewrite (scaled_small _ _ w) by lia.
    rewrite H0 by (right; lia). lia. }
  assert (bits <> 0) as Hnz. { intros ->. apply E0. unfold b, biased. rewrite Z.div_0_l by lia. done. }
  destruct (Z.eqb_spec b (2 ^ ew - 1)) as [E1|E1]; [apply Hsat; [done|lia]|].
  fold m. replace (Z.max 1 b - bias - w + shift) with e by lia.
  destruct (Z.le_gt_cases e (- l)). { rewrite (scaled_small _ _ (w + 1)) by lia. rewrite H0 by auto. lia. }
  destruct (Z.le_gt_cases l e). { pose proof (scaled_large m e l). rewrite Hsat by done. lia. }
  unfold scaled. destruct (Z.leb_spec 0 e) as [He|He].
  - destruct (Z.eq_dec e 0) as [E|E]; [rewrite (Hz Hnz E), E; lia|]. apply Hpos; lia.
  - rewrite Hneg by lia. pose proof (Z.pow_pos_nonneg 2 (- e)).
    assert (m / 2 ^ (- e) < 2 ^ l); [|lia]. apply Z.div_lt_upper_bound; nia.
Qed.

Lemma magnitude_range w ew shift l bits :
  0 <= w -> 0 <= l -> 0 <= magnitude w ew shift (2 ^ l - 1) bits < 2 ^ l.
Proof.
  intros Hw Hl. pose proof (Z.pow_pos_nonneg 2 l). unfold magnitude.
  assert (0 <= significand w ew bits) as Hs.
  { unfold significand, fraction. pose proof (Z.mod_pos_bound bits (2 ^ w) ltac:(lia)). case_if; lia. }
  destruct (_ =? _); [lia|]. assert (0 <= scaled (significand w ew bits) (exponent w ew bits + shift)); [|lia].
  unfold scaled. destruct (Z.leb_spec 0 (exponent w ew bits + shift)).
  - apply Z.mul_nonneg_nonneg; [done|]. apply Z.pow_nonneg; lia.
  - apply Z.div_pos; [done|]. apply Z.pow_pos_nonneg; lia.
Qed.

Lemma decode_r4_eq bits : 0 <= bits < 2 ^ 32 ->
  decode_r4_to_common bits = fixed_point 23 8 k_float32_shift (2 ^ 31 - 1) bits * 2 ^ 6.
Proof.
  intros Hb. unfold decode_r4_to_common. rewrite fixed_point_magnitude.
  change 0x7FFFFF with (2 ^ 23 - 1). change 0x800000 with (2 ^ 23). change 0xFF with (2 ^ 8 - 1).
  change 0x80000000 with (2 ^ 31). change 0x7FFFFFFF with (2 ^ 31 - 1).
  rewrite !land_low, Z.shiftr_div_pow2, lor_hidden, flag_set_bit by lia.
  pose proof (magnitude_range 23 8 k_float32_shift 31 bits ltac:(lia) ltac:(lia)) as Hr.
  set (r := if bits =? 0 then 0 else _).
  assert (r = magnitude 23 8 k_float32_shift (2 ^ 31 - 1) bits) as ->.
  { unfold r. fold (biased 23 8 bits). pose proof (Z.mod_pos_bound bits (2 ^ 23) ltac:(lia)).
    apply magnitude_cases; try done; [lia|..]; change (2 ^ (8 - 1) - 1) with 127;
      set (e := biased 23 8 bits - 127 - _); set (m := 2 ^ 23 + _) in *; intros Hc.
    all: destruct (Z.eqb_spec bits 0), (Z.leb_spec e (-31)), (Z.leb_spec 31 e), (Z.ltb_spec 0 e), (Z.ltb_spec e 0);
      try lia; intros He.
    - rewrite Z.shiftl_mul_pow2 by lia. pose proof (pow2_le e 30). pose proof (Z.pow_pos_nonneg 2 e).
      rewrite u64_id, Z.shiftr_div_pow2 by nia. assert (0 <= m * 2 ^ e) by nia.
      destruct (Z.eqb_spec (m * 2 ^ e / 2 ^ 31) 0) as [E|E]; cbn [negb]; cbv iota.
      + apply Z.div_small_iff in E; [|lia]. rewrite i32_id by lia. lia.
      + destruct (Z.lt_ge_cases (m * 2 ^ e) (2 ^ 31)); [|lia]. exfalso. apply E, Z.div_small. lia.
    - rewrite Z.shiftr_div_pow2 by lia. apply i32_id. pose proof (Z.pow_pos_nonneg 2 (- e)).
      pose proof (Z.div_le_upper_bound m (2 ^ (- e)) m). pose proof (Z.div_pos m (2 ^ (- e))). nia.
    - apply i32_id. lia. }
  rewrite Z.shiftl_mul_pow2 by done. change (k_float64_shift - k_float32_shift) with 6.
  unfold negative. change (23 + 8) with 31.
  destruct (Z.odd _); [rewrite (i32_id (- _)) by lia|]; rewrite i64_id by lia; done.
Qed.

Lemma land_high a b k : 0 <= k -> 0 <= b -> (Z.land (a * 2 ^ k) b = 0 <-> Z.land a (b / 2 ^ k) = 0).
Proof.
  intros Hk Hb. rewrite <- Z.shiftl_mul_pow2, <- Z.shiftr_div_pow2 by done. split; intros E; apply Z.bits_inj'; intros i Hi.
  - rewrite Z.land_spec, Z.shiftr_spec, Z.bits_0 by lia.
    apply (f_equal (fun z => Z.testbit z (i + k))) in E. rewrite Z.land_spec, Z.shiftl_spec, Z.bits_0 in E by lia.
    by replace (i + k - k) with i in E by lia.
  - rewrite Z.land_spec, Z.bits_0, Z.shiftl_spec by lia. destruct (Z.lt_ge_cases i k).
    + rewrite Z.testbit_neg_r by lia. done.
    + apply (f_equal (fun z => Z.testbit z (i - k))) in E. rewrite Z.land_spec, Z.shiftr_spec, Z.bits_0 in E by lia.
      by replace (i - k + k) with i in E by lia.
Qed.

(** The mask of [decode_r8_to_common] tests whether a bit leaves the 63-bit range. *)
Lemma mask_test m e : 0 <= m < 2 ^ 53 -> 0 < e < 63 ->
  (Z.land (u64 (Z.shiftl (2 ^ 64 - 1) (63 - e))) m =? 0) = (m * 2 ^ e <? 2 ^ 63).
Proof.
  intros Hm He. pose proof (Z.pow_pos_nonneg 2 e). pose proof (Z.pow_pos_nonneg 2 (63 - e)).
  assert (2 ^ 63 = 2 ^ (63 - e) * 2 ^ e) as E63 by (rewrite <- Z.pow_add_r by lia; f_equal; lia).
  assert (2 ^ 64 = 2 ^ (63 - e) * 2 ^ (e + 1)) as E64 by (rewrite <- Z.pow_add_r by lia; f_equal; lia).
  pose proof (Z.pow_pos_nonneg 2 (e + 1)).
  assert (u64 (Z.shiftl (2 ^ 64 - 1) (63 - e)) = (2 ^ (e + 1) - 1) * 2 ^ (63 - e)) as ->.
  { unfold u64. rewrite Z.shiftl_mul_pow2 by lia. symmetry.
    apply (Z.mod_unique _ _ (2 ^ (63 - e) - 1)); [left; nia|]. nia. }
  apply Bool.eq_iff_eq_true. rewrite Z.eqb_eq, Z.ltb_lt, land_high, Z.land_comm, land_low by lia. rewrite E63. split.
  - intros E. destruct (Z.lt_ge_cases m (2 ^ (63 - e))); [nia|]. exfalso.
    assert (1 <= m / 2 ^ (63 - e)) by (apply Z.div_le_lower_bound; lia).
    rewrite Z.mod_small in E; [lia|]. split; [lia|]. apply Z.div_lt_upper_bound; [lia|].
    pose proof (pow2_le 53 64). lia.
  - intros Hlt. rewrite (Z.div_small m) by nia. done.
Qed.

Lemma decode_r8_eq bits : 0 <= bits < 2 ^ 64 ->
  decode_r8_to_common bits = fixed_point 52 11 k_float64_shift (2 ^ 63 - 1) bits.
Proof.
  intros Hb. unfold decode_r8_to_common. rewrite fixed_point_magnitude.
  change 0xFFFFFFFFFFFFF with (2 ^ 52 - 1). change 0x10000000000000 with (2 ^ 52). change 0x7FF with (2 ^ 11 - 1).
  change 0x8000000000000000 with (2 ^ 63). change 0x7FFFFFFFFFFFFFFF with (2 ^ 63 - 1).
  change 0xFFFFFFFFFFFFFFFF with (2 ^ 64 - 1).
  rewrite !land_low, Z.shiftr_div_pow2, lor_hidden, flag_set_bit by lia.
  pose proof (magnitude_range 52 11 k_float64_shift 63 bits ltac:(lia) ltac:(lia)) as Hr.
  set (r := if bits =? 0 then 0 else _).
  assert (r = magnitude 52 11 k_float64_shift (2 ^ 63 - 1) bits) as ->.
  { unfold r. fold (biased 52 11 bits). pose proof (Z.mod_pos_bound bits (2 ^ 52) ltac:(lia)).
    apply magnitude_cases; try done; [lia|..]; change (2 ^ (11 - 1) - 1) with 1023;
      set (e := biased 52 11 bits - 1023 - _); set (m := 2 ^ 52 + _) in *; intros Hc.
    all: destruct (Z.eqb_spec bits 0), (Z.leb_spec e (-63)), (Z.leb_spec 63 e), (Z.ltb_spec 0 e), (Z.ltb_spec e 0);
      try lia; intros He.
    - rewrite mask_test by lia. rewrite Z.shiftl_mul_pow2 by lia. pose proof (Z.pow_pos_nonneg 2 e).
      assert (0 <= m * 2 ^ e) by nia. destruct (Z.ltb_spec (m * 2 ^ e) (2 ^ 63)); cbn [negb]; cbv iota; [|lia].
      rewrite u64_id, i64_id by lia. lia.
    - rewrite Z.shiftr_div_pow2 by lia. apply i64_id. pose proof (Z.pow_pos_nonneg 2 (- e)).
      pose proof (Z.div_le_upper_bound m (2 ^ (- e)) m). pose proof (Z.div_pos m (2 ^ (- e))). nia.
    - apply i64_id. lia. }
  unfold negative. change (52 + 11) with 63. destruct (Z.odd _); [|done]. apply i64_id. lia.
Qed.

(** The four partial products add up to the product without its lowest 16 bits. *)
Lemma partial_products a b : 0 <= a -> 0 <= b < 2 ^ 64 ->
  a * u16 (Z.shiftr b 0) / 2 ^ 16 + a * u16 (Z.shiftr b 16) + a * u16 (Z.shiftr b 32) * 2 ^ 16
    + a * u16 (Z.shiftr b 48) * 2 ^ 32 = a * b / 2 ^ 16.
Proof.
  intros Ha Hb. unfold u16. rewrite !Z.shiftr_div_pow2 by lia. change (2 ^ 0) with 1. rewrite Z.div_1_r.
  change (2 ^ 48) with (2 ^ 32 * 2 ^ 16). change (2 ^ 32) with (2 ^ 16 * 2 ^ 16) at 1 2.
  rewrite <- !Z.div_div by lia. set (p := 2 ^ 16). set (b1 := b / p). set (b2 := b1 / p). set (b3 := b2 / p).
  assert (b = p * b1 + b mod p) as E0 by (apply Z.div_mod; done).
  assert (b1 = p * b2 + b1 mod p) as E1 by (apply Z.div_mod; done).
  assert (b2 = p * b3 + b2 mod p) as E2 by (apply Z.div_mod; done).
  assert (b3 mod p = b3) as E3.
  { apply Z.mod_small. split; [repeat (apply Z.div_pos; [|done]); lia|].
    unfold b3, b2, b1. rewrite !Z.div_div by done. apply Z.div_lt_upper_bound; [done|]. unfold p. lia. }
  rewrite E3. assert (a * b = a * (b mod p) + a * b1 * p) as -> by (rewrite E0 at 1; ring).
  rewrite Z.div_add by done.
  assert (a * b1 = a * (b1 mod p) + a * (b2 mod p) * p + a * b3 * (p * p)) as -> by (rewrite E1 at 1; rewrite E2 at 1; ring).
  change (2 ^ 32) with (p * p). ring.
Qed.

Lemma multiply_eq l r : - 2 ^ 63 < l < 2 ^ 63 -> - 2 ^ 63 < r < 2 ^ 63 ->
  Z.abs l * (Z.abs r mod 2 ^ 16) < 2 ^ 64 -> Z.abs l * Z.abs r < 2 ^ 79 ->
  multiply_common l r = Z.quot (l * r) (2 ^ 16).
Proof.
  intros Hl Hr Hlow Hp. unfold multiply_common.
  assert (forall x, - 2 ^ 63 < x < 2 ^ 63 -> u64 (if x <? 0 then i64 (- x) else x) = Z.abs x) as Habs.
  { intros x Hx. destruct (Z.ltb_spec x 0); [rewrite i64_id by lia|]; rewrite u64_id by lia; lia. }
  rewrite !Habs by done. pose proof (partial_products (Z.abs l) (Z.abs r) ltac:(lia) ltac:(lia)) as Hs.
  unfold k_float64_shift. rewrite (Z.shiftr_div_pow2 (u64 _)), !Z.shiftl_mul_pow2 by lia.
  assert (Z.abs l * Z.abs r / 2 ^ 16 < 2 ^ 63) as Hq by (apply Z.div_lt_upper_bound; lia).
  assert (0 <= Z.abs l * Z.abs r / 2 ^ 16) as Hq0 by (apply Z.div_pos; lia).
  pose proof (Z.mod_pos_bound (Z.shiftr (Z.abs r) 16) (2 ^ 16) ltac:(lia)) as H1.
  pose proof (Z.mod_pos_bound (Z.shiftr (Z.abs r) 32) (2 ^ 16) ltac:(lia)) as H2.
  pose proof (Z.mod_pos_bound (Z.shiftr (Z.abs r) 48) (2 ^ 16) ltac:(lia)) as H3.
  change (Z.shiftr (Z.abs r) 0) with (Z.abs r) in *. unfold u16 in *.
  pose proof (Z.mod_pos_bound (Z.abs r) (2 ^ 16) ltac:(lia)) as H0.
  set (q0 := Z.abs l * (Z.abs r mod 2 ^ 16)) in *. set (q1 := Z.abs l * (Z.shiftr _ 16 mod 2 ^ 16)) in *.
  set (q2 := Z.abs l * (Z.shiftr _ 32 mod 2 ^ 16)) in *. set (q3 := Z.abs l * (Z.shiftr _ 48 mod 2 ^ 16)) in *.
  assert (0 <= q0) by (unfold q0; nia). assert (0 <= q1) by (unfold q1; nia).
  assert (0 <= q2) by (unfold q2; nia). assert (0 <= q3) by (unfold q3; nia).
  assert (0 <= q0 / 2 ^ 16) by (apply Z.div_pos; lia). clearbody q0 q1 q2 q3. clear H0 H1 H2 H3.
  rewrite Z.add_0_l. repeat rewrite (u64_id q0), (u64_id q1), (u64_id q2), (u64_id q3) by lia.
  rewrite (u64_id (q0 / 2 ^ 16)), (u64_id (q2 * 2 ^ 16)), (u64_id (q3 * 2 ^ 32)) by lia.
  rewrite (u64_id (_ + q1)) by lia. rewrite (u64_id (_ + q2 * 2 ^ 16)) by lia. rewrite u64_id by lia.
  rewrite Hs, (i64_id (Z.abs l * Z.abs r / 2 ^ 16)) by lia. rewrite (Z.quot_div (l * r)) by lia.
  rewrite Z.abs_mul, Z.sgn_mul. change (Z.abs (2 ^ 16)) with (2 ^ 16). change (Z.sgn (2 ^ 16)) with 1.
  assert (l = 0 \/ r = 0 -> Z.abs l * Z.abs r / 2 ^ 16 = 0) as Hz by (by intros [-> | ->]; rewrite ?Z.mul_0_r).
  set (q := Z.abs l * Z.abs r / 2 ^ 16) in *. clearbody q.
  destruct (Z.ltb_spec l 0), (Z.ltb_spec r 0), (Z.eqb_spec q 0), (Z.sgn_spec l) as [[? ->]|[[? ->]|[? ->]]],
    (Z.sgn_spec r) as [[? ->]|[[? ->]|[? ->]]]; cbn [xorb andb negb]; rewrite ?i64_id; lia.
Qed.

(** What the emulated floating point keeps of a number.  A binary32 literal
    loads as its value truncated to 10 fraction bits (and shifted to the common
    format), a binary64 literal as its value truncated to 16 fraction bits;
    numbers outside the range, infinities and NaNs saturate, and nothing wraps.
    The product of two fixed-point numbers is the exact product truncated towards
    zero, as long as the result fits into 63 bits and the partial product of the
    lowest 16 bits of the right factor into 64. *)
Theorem emulated_float_correct :
  (forall bits, 0 <= bits < 2 ^ 32 ->
     decode_r4_to_common bits = fixed_point 23 8 k_float32_shift (2 ^ 31 - 1) bits * 2 ^ 6) /\
  (forall bits, 0 <= bits < 2 ^ 64 ->
     decode_r8_to_common bits = fixed_point 52 11 k_float64_shift (2 ^ 63 - 1) bits) /\
  (forall l r, - 2 ^ 63 < l < 2 ^ 63 -> - 2 ^ 63 < r < 2 ^ 63 ->
     Z.abs l * (Z.abs r mod 2 ^ 16) < 2 ^ 64 -> Z.abs l * Z.abs r < 2 ^ 79 ->
     multiply_common l r = Z.quot (l * r) (2 ^ 16)).
Proof. split; [exact decode_r4_eq|]. split; [exact decode_r8_eq|exact multiply_eq]. Qed.

End EmulatedFloat.
