(* ===== verification/Opcode.v ===== *)
(** * Instruction codes

    [zaclr/include/zaclr_opcodes.h]: the enumeration [zaclr_opcode], whose members
    and values come from a table the build generates.  The members are those of the
    instructions that [Dispatch] models, under the names of the source; their values
    are the parameter [OpcodeTable], with the two facts the engine relies on: no two
    instructions have the same value, and the values of the two-byte instructions
    are those with the prefix 0xFE.  [ecma_table] has the values of ECMA-335. *)

From S2P Require Import Prelude.

Module Opcode.

Inductive zaclr_opcode :=
| CEE_NOP | CEE_LDARG_0 | CEE_LDARG_1 | CEE_LDARG_2 | CEE_LDARG_3 | CEE_LDLOC_0 | CEE_LDLOC_1 |
  CEE_LDLOC_2 | CEE_LDLOC_3 | CEE_STLOC_0 | CEE_STLOC_1 | CEE_STLOC_2 | CEE_STLOC_3 | CEE_LDARG_S |
  CEE_LDARGA_S | CEE_STARG_S | CEE_LDLOC_S | CEE_LDLOCA_S | CEE_STLOC_S | CEE_LDNULL | CEE_LDC_I4_M1 |
  CEE_LDC_I4_0 | CEE_LDC_I4_1 | CEE_LDC_I4_2 | CEE_LDC_I4_3 | CEE_LDC_I4_4 | CEE_LDC_I4_5 |
  CEE_LDC_I4_6 | CEE_LDC_I4_7 | CEE_LDC_I4_8 | CEE_LDC_I4_S | CEE_LDC_I4 | CEE_LDC_I8 | CEE_LDC_R4 |
  CEE_LDC_R8 | CEE_DUP | CEE_POP | CEE_RET | CEE_BR_S | CEE_BRFALSE_S | CEE_BRTRUE_S | CEE_BEQ_S |
  CEE_BGE_S | CEE_BGT_S | CEE_BLE_S | CEE_BLT_S | CEE_BNE_UN_S | CEE_BGE_UN_S | CEE_BGT_UN_S |
  CEE_BLE_UN_S | CEE_BLT_UN_S | CEE_BR | CEE_BRFALSE | CEE_BRTRUE | CEE_BEQ | CEE_BGE | CEE_BGT |
  CEE_BLE | CEE_BLT | CEE_BNE_UN | CEE_BGE_UN | CEE_BGT_UN | CEE_BLE_UN | CEE_BLT_UN | CEE_SWITCH |
  CEE_ADD | CEE_SUB | CEE_MUL | CEE_DIV | CEE_DIV_UN | CEE_REM | CEE_REM_UN | CEE_AND | CEE_OR |
  CEE_XOR | CEE_SHL | CEE_SHR | CEE_SHR_UN | CEE_NEG | CEE_NOT | CEE_CONV_I1 | CEE_CONV_I2 |
  CEE_CONV_I4 | CEE_CONV_I8 | CEE_CONV_R4 | CEE_CONV_R8 | CEE_CONV_U4 | CEE_CONV_U8 | CEE_CONV_R_UN |
  CEE_THROW | CEE_CONV_OVF_I1_UN | CEE_CONV_OVF_I2_UN | CEE_CONV_OVF_I4_UN | CEE_CONV_OVF_I8_UN |
  CEE_CONV_OVF_U1_UN | CEE_CONV_OVF_U2_UN | CEE_CONV_OVF_U4_UN | CEE_CONV_OVF_U8_UN |
  CEE_CONV_OVF_I_UN | CEE_CONV_OVF_U_UN | CEE_CONV_OVF_I1 | CEE_CONV_OVF_U1 | CEE_CONV_OVF_I2 |
  CEE_CONV_OVF_U2 | CEE_CONV_OVF_I4 | CEE_CONV_OVF_U4 | CEE_CONV_OVF_I8 | CEE_CONV_OVF_U8 |
  CEE_CONV_U2 | CEE_CONV_U1 | CEE_CONV_I | CEE_CONV_OVF_I | CEE_CONV_OVF_U | CEE_ADD_OVF |
  CEE_ADD_OVF_UN | CEE_MUL_OVF | CEE_MUL_OVF_UN | CEE_SUB_OVF | CEE_SUB_OVF_UN | CEE_ENDFINALLY |
  CEE_LEAVE | CEE_LEAVE_S | CEE_CONV_U | CEE_CEQ | CEE_CGT | CEE_CGT_UN | CEE_CLT | CEE_CLT_UN |
  CEE_LDLOC | CEE_ENDFILTER | CEE_UNALIGNED | CEE_VOLATILE | CEE_TAILCALL | CEE_CONSTRAINED |
  CEE_READONLY.

(** The opcode is preceded by the prefix byte 0xFE. *)
Definition two_bytes (o : zaclr_opcode) : bool :=
  match o with
  | CEE_CEQ | CEE_CGT | CEE_CGT_UN | CEE_CLT | CEE_CLT_UN | CEE_LDLOC | CEE_ENDFILTER | CEE_UNALIGNED |
  CEE_VOLATILE | CEE_TAILCALL | CEE_CONSTRAINED | CEE_READONLY => true
  | _ => false
  end.

Class OpcodeTable := { opcode_value : zaclr_opcode -> Z }.

Class OpcodeTableLaws `{OpcodeTable} : Prop := {
  opcode_value_inj o o' : opcode_value o = opcode_value o' -> o = o';
  opcode_value_range o :
    if two_bytes o then 0xFE00 <= opcode_value o <= 0xFEFF else 0 <= opcode_value o < 0xFE }.

Definition all_opcodes : list zaclr_opcode :=
  [ CEE_NOP; CEE_LDARG_0; CEE_LDARG_1; CEE_LDARG_2; CEE_LDARG_3; CEE_LDLOC_0; CEE_LDLOC_1; CEE_LDLOC_2;
  CEE_LDLOC_3; CEE_STLOC_0; CEE_STLOC_1; CEE_STLOC_2; CEE_STLOC_3; CEE_LDARG_S; CEE_LDARGA_S;
  CEE_STARG_S; CEE_LDLOC_S; CEE_LDLOCA_S; CEE_STLOC_S; CEE_LDNULL; CEE_LDC_I4_M1; CEE_LDC_I4_0;
  CEE_LDC_I4_1; CEE_LDC_I4_2; CEE_LDC_I4_3; CEE_LDC_I4_4; CEE_LDC_I4_5; CEE_LDC_I4_6; CEE_LDC_I4_7;
  CEE_LDC_I4_8; CEE_LDC_I4_S; CEE_LDC_I4; CEE_LDC_I8; CEE_LDC_R4; CEE_LDC_R8; CEE_DUP; CEE_POP;
  CEE_RET; CEE_BR_S; CEE_BRFALSE_S; CEE_BRTRUE_S; CEE_BEQ_S; CEE_BGE_S; CEE_BGT_S; CEE_BLE_S;
  CEE_BLT_S; CEE_BNE_UN_S; CEE_BGE_UN_S; CEE_BGT_UN_S; CEE_BLE_UN_S; CEE_BLT_UN_S; CEE_BR;
  CEE_BRFALSE; CEE_BRTRUE; CEE_BEQ; CEE_BGE; CEE_BGT; CEE_BLE; CEE_BLT; CEE_BNE_UN; CEE_BGE_UN;
  CEE_BGT_UN; CEE_BLE_UN; CEE_BLT_UN; CEE_SWITCH; CEE_ADD; CEE_SUB; CEE_MUL; CEE_DIV; CEE_DIV_UN;
  CEE_REM; CEE_REM_UN; CEE_AND; CEE_OR; CEE_XOR; CEE_SHL; CEE_SHR; CEE_SHR_UN; CEE_NEG; CEE_NOT;
  CEE_CONV_I1; CEE_CONV_I2; CEE_CONV_I4; CEE_CONV_I8; CEE_CONV_R4; CEE_CONV_R8; CEE_CONV_U4;
  CEE_CONV_U8; CEE_CONV_R_UN; CEE_THROW; CEE_CONV_OVF_I1_UN; CEE_CONV_OVF_I2_UN; CEE_CONV_OVF_I4_UN;
  CEE_CONV_OVF_I8_UN; CEE_CONV_OVF_U1_UN; CEE_CONV_OVF_U2_UN; CEE_CONV_OVF_U4_UN; CEE_CONV_OVF_U8_UN;
  CEE_CONV_OVF_I_UN; CEE_CONV_OVF_U_UN; CEE_CONV_OVF_I1; CEE_CONV_OVF_U1; CEE_CONV_OVF_I2;
  CEE_CONV_OVF_U2; CEE_CONV_OVF_I4; CEE_CONV_OVF_U4; CEE_CONV_OVF_I8; CEE_CONV_OVF_U8; CEE_CONV_U2;
  CEE_CONV_U1; CEE_CONV_I; CEE_CONV_OVF_I; CEE_CONV_OVF_U; CEE_ADD_OVF; CEE_ADD_OVF_UN; CEE_MUL_OVF;
  CEE_MUL_OVF_UN; CEE_SUB_OVF; CEE_SUB_OVF_UN; CEE_ENDFINALLY; CEE_LEAVE; CEE_LEAVE_S; CEE_CONV_U;
  CEE_CEQ; CEE_CGT; CEE_CGT_UN; CEE_CLT; CEE_CLT_UN; CEE_LDLOC; CEE_ENDFILTER; CEE_UNALIGNED;
  CEE_VOLATILE; CEE_TAILCALL; CEE_CONSTRAINED; CEE_READONLY ].

(** The modelled instruction with this value. *)
Definition find_opcode `{OpcodeTable} (value : Z) : option zaclr_opcode :=
  List.find (fun o => opcode_value o =? value) all_opcodes.

Lemma all_opcodes_all o : In o all_opcodes.
Proof. destruct o; unfold all_opcodes; repeat (first [left; reflexivity | right]). Qed.

Lemma find_opcode_value `{OpcodeTableLaws} o : find_opcode (opcode_value o) = Some o.
Proof.
  unfold find_opcode. destruct (List.find _ all_opcodes) as [o'|] eqn:Hf.
  - apply List.find_some in Hf as [_ He]. apply Z.eqb_eq, opcode_value_inj in He. by subst.
  - pose proof (List.find_none _ _ Hf o (all_opcodes_all o)) as Hn. cbv beta in Hn. rewrite Z.eqb_refl in Hn. done.
Qed.

(** ** The values of ECMA-335, partition III *)

Definition ecma_value (o : zaclr_opcode) : Z :=
  match o with
  | CEE_NOP => 0x00
  | CEE_LDARG_0 => 0x02
  | CEE_LDARG_1 => 0x03
  | CEE_LDARG_2 => 0x04
  | CEE_LDARG_3 => 0x05
  | CEE_LDLOC_0 => 0x06
  | CEE_LDLOC_1 => 0x07
  | CEE_LDLOC_2 => 0x08
  | CEE_LDLOC_3 => 0x09
  | CEE_STLOC_0 => 0x0A
  | CEE_STLOC_1 => 0x0B
  | CEE_STLOC_2 => 0x0C
  | CEE_STLOC_3 => 0x0D
  | CEE_LDARG_S => 0x0E
  | CEE_LDARGA_S => 0x0F
  | CEE_STARG_S => 0x10
  | CEE_LDLOC_S => 0x11
  | CEE_LDLOCA_S => 0x12
  | CEE_STLOC_S => 0x13
  | CEE_LDNULL => 0x14
  | CEE_LDC_I4_M1 => 0x15
  | CEE_LDC_I4_0 => 0x16
  | CEE_LDC_I4_1 => 0x17
  | CEE_LDC_I4_2 => 0x18
  | CEE_LDC_I4_3 => 0x19
  | CEE_LDC_I4_4 => 0x1A
  | CEE_LDC_I4_5 => 0x1B
  | CEE_LDC_I4_6 => 0x1C
  | CEE_LDC_I4_7 => 0x1D
  | CEE_LDC_I4_8 => 0x1E
  | CEE_LDC_I4_S => 0x1F
  | CEE_LDC_I4 => 0x20
  | CEE_LDC_I8 => 0x21
  | CEE_LDC_R4 => 0x22
  | CEE_LDC_R8 => 0x23
  | CEE_DUP => 0x25
  | CEE_POP => 0x26
  | CEE_RET => 0x2A
  | CEE_BR_S => 0x2B
  | CEE_BRFALSE_S => 0x2C
  | CEE_BRTRUE_S => 0x2D
  | CEE_BEQ_S => 0x2E
  | CEE_BGE_S => 0x2F
  | CEE_BGT_S => 0x30
  | CEE_BLE_S => 0x31
  | CEE_BLT_S => 0x32
  | CEE_BNE_UN_S => 0x33
  | CEE_BGE_UN_S => 0x34
  | CEE_BGT_UN_S => 0x35
  | CEE_BLE_UN_S => 0x36
  | CEE_BLT_UN_S => 0x37
  | CEE_BR => 0x38
  | CEE_BRFALSE => 0x39
  | CEE_BRTRUE => 0x3A
  | CEE_BEQ => 0x3B
  | CEE_BGE => 0x3C
  | CEE_BGT => 0x3D
  | CEE_BLE => 0x3E
  | CEE_BLT => 0x3F
  | CEE_BNE_UN => 0x40
  | CEE_BGE_UN => 0x41
  | CEE_BGT_UN => 0x42
  | CEE_BLE_UN => 0x43
  | CEE_BLT_UN => 0x44
  | CEE_SWITCH => 0x45
  | CEE_ADD => 0x58
  | CEE_SUB => 0x59
  | CEE_MUL => 0x5A
  | CEE_DIV => 0x5B
  | CEE_DIV_UN => 0x5C
  | CEE_REM => 0x5D
  | CEE_REM_UN => 0x5E
  | CEE_AND => 0x5F
  | CEE_OR => 0x60
  | CEE_XOR => 0x61
  | CEE_SHL => 0x62
  | CEE_SHR => 0x63
  | CEE_SHR_UN => 0x64
  | CEE_NEG => 0x65
  | CEE_NOT => 0x66
  | CEE_CONV_I1 => 0x67
  | CEE_CONV_I2 => 0x68
  | CEE_CONV_I4 => 0x69
  | CEE_CONV_I8 => 0x6A
  | CEE_CONV_R4 => 0x6B
  | CEE_CONV_R8 => 0x6C
  | CEE_CONV_U4 => 0x6D
  | CEE_CONV_U8 => 0x6E
  | CEE_CONV_R_UN => 0x76
  | CEE_THROW => 0x7A
  | CEE_CONV_OVF_I1_UN => 0x82
  | CEE_CONV_OVF_I2_UN => 0x83
  | CEE_CONV_OVF_I4_UN => 0x84
  | CEE_CONV_OVF_I8_UN => 0x85
  | CEE_CONV_OVF_U1_UN => 0x86
  | CEE_CONV_OVF_U2_UN => 0x87
  | CEE_CONV_OVF_U4_UN => 0x88
  | CEE_CONV_OVF_U8_UN => 0x89
  | CEE_CONV_OVF_I_UN => 0x8A
  | CEE_CONV_OVF_U_UN => 0x8B
  | CEE_CONV_OVF_I1 => 0xB3
  | CEE_CONV_OVF_U1 => 0xB4
  | CEE_CONV_OVF_I2 => 0xB5
  | CEE_CONV_OVF_U2 => 0xB6
  | CEE_CONV_OVF_I4 => 0xB7
  | CEE_CONV_OVF_U4 => 0xB8
  | CEE_CONV_OVF_I8 => 0xB9
  | CEE_CONV_OVF_U8 => 0xBA
  | CEE_CONV_U2 => 0xD1
  | CEE_CONV_U1 => 0xD2
  | CEE_CONV_I => 0xD3
  | CEE_CONV_OVF_I => 0xD4
  | CEE_CONV_OVF_U => 0xD5
  | CEE_ADD_OVF => 0xD6
  | CEE_ADD_OVF_UN => 0xD7
  | CEE_MUL_OVF => 0xD8
  | CEE_MUL_OVF_UN => 0xD9
  | CEE_SUB_OVF => 0xDA
  | CEE_SUB_OVF_UN => 0xDB
  | CEE_ENDFINALLY => 0xDC
  | CEE_LEAVE => 0xDD
  | CEE_LEAVE_S => 0xDE
  | CEE_CONV_U => 0xE0
  | CEE_CEQ => 0xFE01
  | CEE_CGT => 0xFE02
  | CEE_CGT_UN => 0xFE03
  | CEE_CLT => 0xFE04
  | CEE_CLT_UN => 0xFE05
  | CEE_LDLOC => 0xFE0C
  | CEE_ENDFILTER => 0xFE11
  | CEE_UNALIGNED => 0xFE12
  | CEE_VOLATILE => 0xFE13
  | CEE_TAILCALL => 0xFE14
  | CEE_CONSTRAINED => 0xFE16
  | CEE_READONLY => 0xFE1E
  end.

#[global] Instance ecma_table : OpcodeTable := {| opcode_value := ecma_value |}.

Definition ecma_opcode (value : Z) : option zaclr_opcode :=
  match value with
  | 0x00 => Some CEE_NOP
  | 0x02 => Some CEE_LDARG_0
  | 0x03 => Some CEE_LDARG_1
  | 0x04 => Some CEE_LDARG_2
  | 0x05 => Some CEE_LDARG_3
  | 0x06 => Some CEE_LDLOC_0
  | 0x07 => Some CEE_LDLOC_1
  | 0x08 => Some CEE_LDLOC_2
  | 0x09 => Some CEE_LDLOC_3
  | 0x0A => Some CEE_STLOC_0
  | 0x0B => Some CEE_STLOC_1
  | 0x0C => Some CEE_STLOC_2
  | 0x0D => Some CEE_STLOC_3
  | 0x0E => Some CEE_LDARG_S
  | 0x0F => Some CEE_LDARGA_S
  | 0x10 => Some CEE_STARG_S
  | 0x11 => Some CEE_LDLOC_S
  | 0x12 => Some CEE_LDLOCA_S
  | 0x13 => Some CEE_STLOC_S
  | 0x14 => Some CEE_LDNULL
  | 0x15 => Some CEE_LDC_I4_M1
  | 0x16 => Some CEE_LDC_I4_0
  | 0x17 => Some CEE_LDC_I4_1
  | 0x18 => Some CEE_LDC_I4_2
  | 0x19 => Some CEE_LDC_I4_3
  | 0x1A => Some CEE_LDC_I4_4
  | 0x1B => Some CEE_LDC_I4_5
  | 0x1C => Some CEE_LDC_I4_6
  | 0x1D => Some CEE_LDC_I4_7
  | 0x1E => Some CEE_LDC_I4_8
  | 0x1F => Some CEE_LDC_I4_S
  | 0x20 => Some CEE_LDC_I4
  | 0x21 => Some CEE_LDC_I8
  | 0x22 => Some CEE_LDC_R4
  | 0x23 => Some CEE_LDC_R8
  | 0x25 => Some CEE_DUP
  | 0x26 => Some CEE_POP
  | 0x2A => Some CEE_RET
  | 0x2B => Some CEE_BR_S
  | 0x2C => Some CEE_BRFALSE_S
  | 0x2D => Some CEE_BRTRUE_S
  | 0x2E => Some CEE_BEQ_S
  | 0x2F => Some CEE_BGE_S
  | 0x30 => Some CEE_BGT_S
  | 0x31 => Some CEE_BLE_S
  | 0x32 => Some CEE_BLT_S
  | 0x33 => Some CEE_BNE_UN_S
  | 0x34 => Some CEE_BGE_UN_S
  | 0x35 => Some CEE_BGT_UN_S
  | 0x36 => Some CEE_BLE_UN_S
  | 0x37 => Some CEE_BLT_UN_S
  | 0x38 => Some CEE_BR
  | 0x39 => Some CEE_BRFALSE
  | 0x3A => Some CEE_BRTRUE
  | 0x3B => Some CEE_BEQ
  | 0x3C => Some CEE_BGE
  | 0x3D => Some CEE_BGT
  | 0x3E => Some CEE_BLE
  | 0x3F => Some CEE_BLT
  | 0x40 => Some CEE_BNE_UN
  | 0x41 => Some CEE_BGE_UN
  | 0x42 => Some CEE_BGT_UN
  | 0x43 => Some CEE_BLE_UN
  | 0x44 => Some CEE_BLT_UN
  | 0x45 => Some CEE_SWITCH
  | 0x58 => Some CEE_ADD
  | 0x59 => Some CEE_SUB
  | 0x5A => Some CEE_MUL
  | 0x5B => Some CEE_DIV
  | 0x5C => Some CEE_DIV_UN
  | 0x5D => Some CEE_REM
  | 0x5E => Some CEE_REM_UN
  | 0x5F => Some CEE_AND
  | 0x60 => Some CEE_OR
  | 0x61 => Some CEE_XOR
  | 0x62 => Some CEE_SHL
  | 0x63 => Some CEE_SHR
  | 0x64 => Some CEE_SHR_UN
  | 0x65 => Some CEE_NEG
  | 0x66 => Some CEE_NOT
  | 0x67 => Some CEE_CONV_I1
  | 0x68 => Some CEE_CONV_I2
  | 0x69 => Some CEE_CONV_I4
  | 0x6A => Some CEE_CONV_I8
  | 0x6B => Some CEE_CONV_R4
  | 0x6C => Some CEE_CONV_R8
  | 0x6D => Some CEE_CONV_U4
  | 0x6E => Some CEE_CONV_U8
  | 0x76 => Some CEE_CONV_R_UN
  | 0x7A => Some CEE_THROW
  | 0x82 => Some CEE_CONV_OVF_I1_UN
  | 0x83 => Some CEE_CONV_OVF_I2_UN
  | 0x84 => Some CEE_CONV_OVF_I4_UN
  | 0x85 => Some CEE_CONV_OVF_I8_UN
  | 0x86 => Some CEE_CONV_OVF_U1_UN
  | 0x87 => Some CEE_CONV_OVF_U2_UN
  | 0x88 => Some CEE_CONV_OVF_U4_UN
  | 0x89 => Some CEE_CONV_OVF_U8_UN
  | 0x8A => Some CEE_CONV_OVF_I_UN
  | 0x8B => Some CEE_CONV_OVF_U_UN
  | 0xB3 => Some CEE_CONV_OVF_I1
  | 0xB4 => Some CEE_CONV_OVF_U1
  | 0xB5 => Some CEE_CONV_OVF_I2
  | 0xB6 => Some CEE_CONV_OVF_U2
  | 0xB7 => Some CEE_CONV_OVF_I4
  | 0xB8 => Some CEE_CONV_OVF_U4
  | 0xB9 => Some CEE_CONV_OVF_I8
  | 0xBA => Some CEE_CONV_OVF_U8
  | 0xD1 => Some CEE_CONV_U2
  | 0xD2 => Some CEE_CONV_U1
  | 0xD3 => Some CEE_CONV_I
  | 0xD4 => Some CEE_CONV_OVF_I
  | 0xD5 => Some CEE_CONV_OVF_U
  | 0xD6 => Some CEE_ADD_OVF
  | 0xD7 => Some CEE_ADD_OVF_UN
  | 0xD8 => Some CEE_MUL_OVF
  | 0xD9 => Some CEE_MUL_OVF_UN
  | 0xDA => Some CEE_SUB_OVF
  | 0xDB => Some CEE_SUB_OVF_UN
  | 0xDC => Some CEE_ENDFINALLY
  | 0xDD => Some CEE_LEAVE
  | 0xDE => Some CEE_LEAVE_S
  | 0xE0 => Some CEE_CONV_U
  | 0xFE01 => Some CEE_CEQ
  | 0xFE02 => Some CEE_CGT
  | 0xFE03 => Some CEE_CGT_UN
  | 0xFE04 => Some CEE_CLT
  | 0xFE05 => Some CEE_CLT_UN
  | 0xFE0C => Some CEE_LDLOC
  | 0xFE11 => Some CEE_ENDFILTER
  | 0xFE12 => Some CEE_UNALIGNED
  | 0xFE13 => Some CEE_VOLATILE
  | 0xFE14 => Some CEE_TAILCALL
  | 0xFE16 => Some CEE_CONSTRAINED
  | 0xFE1E => Some CEE_READONLY
  | _ => None
  end.

Lemma ecma_opcode_value o : ecma_opcode (ecma_value o) = Some o.
Proof. by destruct o. Qed.

#[global] Instance ecma_table_laws : OpcodeTableLaws.
Proof.
  split.
  - intros o o' E. cbn [opcode_value ecma_table] in E. apply (f_equal ecma_opcode) in E.
    rewrite !ecma_opcode_value in E. congruence.
  - intros o. destruct o; cbn [opcode_value ecma_table ecma_value two_bytes]; lia.
Qed.

#[global] Instance zaclr_opcode_eq_dec : EqDecision zaclr_opcode.
Proof.
  intros o o'. destruct (decide (ecma_value o = ecma_value o')) as [E|E].
  - left. apply (f_equal ecma_opcode) in E. rewrite !ecma_opcode_value in E. congruence.
  - right. congruence.
Defined.

End Opcode.
