(* ===== verification/GenericContext.v ===== *)
(** * Generic contexts

    [zaclr/typesystem/zaclr_generic_context.cpp]: the type arguments of a generic
    instantiation, as trees of arguments in buffers of their own, with the parser of
    instantiation blobs, deep copies, substitution and release.

    An argument is the record of its scalar fields, the address of the buffer of its
    nested arguments (0 is [NULL]) and the contents of that buffer; a buffer belongs
    to the argument that points to it.  Assemblies are their addresses.  The lookup
    of the assembly a type token resolves to belongs to the type system and is a
    parameter.  The contexts a caller passes to be written, and the runtime, are never
    [NULL]: the guards for them are not modelled; sources and substitutions may be
    [NULL]. *)

From S2P Require Import Prelude Status Bytes Token Signature KernelHeap.

Module GenericContext.

Definition ZACLR_GENERIC_ARGUMENT_KIND_NONE : Z := 0.
Definition ZACLR_GENERIC_ARGUMENT_KIND_CONCRETE_TYPE : Z := 1.
Definition ZACLR_GENERIC_ARGUMENT_KIND_PRIMITIVE : Z := 2.
Definition ZACLR_GENERIC_ARGUMENT_KIND_TYPE_VAR : Z := 3.
Definition ZACLR_GENERIC_ARGUMENT_KIND_METHOD_VAR : Z := 4.
Definition ZACLR_GENERIC_ARGUMENT_KIND_GENERIC_INST : Z := 5.

Definition sizeof_generic_argument : Z := 32.

(** [contents] is what the buffer [instantiation_args] holds. *)
Inductive zaclr_generic_argument := mk_argument
  (kind element_type reserved0 token assembly generic_param_index instantiation_arg_count instantiation_args : Z)
  (contents : list zaclr_generic_argument).

Definition ga_kind (a : zaclr_generic_argument) : Z := let 'mk_argument k _ _ _ _ _ _ _ _ := a in k.
Definition ga_index (a : zaclr_generic_argument) : Z := let 'mk_argument _ _ _ _ _ i _ _ _ := a in i.

Definition zero_argument : zaclr_generic_argument := mk_argument 0 0 0 0 0 0 0 0 [].

Record zaclr_generic_context := mk_context {
  type_arg_count : Z;
  type_args : Z;
  type_contents : list zaclr_generic_argument;
  method_arg_count : Z;
  method_args : Z;
  method_contents : list zaclr_generic_argument }.

Definition empty_context : zaclr_generic_context := mk_context 0 0 [] 0 0 [].

Definition set_type_args (count p : Z) (l : list zaclr_generic_argument) (c : zaclr_generic_context) : zaclr_generic_context :=
  mk_context count p l (method_arg_count c) (method_args c) (method_contents c).
Definition set_method_args (count p : Z) (l : list zaclr_generic_argument) (c : zaclr_generic_context) : zaclr_generic_context :=
  mk_context (type_arg_count c) (type_args c) (type_contents c) count p l.

Definition invalid_argument : zaclr_result := zaclr_result_make ZACLR_STATUS_INVALID_ARGUMENT ZACLR_STATUS_CATEGORY_METADATA.
Definition unsupported : zaclr_result := zaclr_result_make ZACLR_STATUS_NOT_IMPLEMENTED ZACLR_STATUS_CATEGORY_METADATA.
Definition out_of_memory : zaclr_result := zaclr_result_make ZACLR_STATUS_OUT_OF_MEMORY ZACLR_STATUS_CATEGORY_METADATA.
Definition not_found : zaclr_result := zaclr_result_make ZACLR_STATUS_NOT_FOUND ZACLR_STATUS_CATEGORY_METADATA.

(** ** Loops over arrays *)

(** [for (index = 0; index < n; ++index) step(&destination[index], &source[index])]
    until a step fails: the destinations written, and what the others hold then.  The
    source array ends before [n]: a [Fault]. *)
Section each.
Context {K A : Type} (step : K -> A -> outcome unit * (zaclr_generic_argument * K)).

Fixpoint each (k : K) (n : nat) (source : list A) {struct source}
  : outcome unit * (list zaclr_generic_argument * list zaclr_generic_argument * K) :=
  match n, source with
  | O, _ => (Ret (), ([], [], k))
  | S _, [] => (Fault, ([], [], k))
  | S n, a :: source =>
    match step k a with
    | (Ret _, (b, k)) => let '(o, (written, rest, k)) := each k n source in (o, (b :: written, rest, k))
    | (o, (b, k)) => (o, ([], b :: replicate n zero_argument, k))
    end
  end.

End each.

Section reset.
Context {K : Type} (step : K -> zaclr_generic_argument -> outcome K).

Fixpoint reset_each (k : K) (n : nat) (l : list zaclr_generic_argument) {struct l} : outcome K :=
  match n, l with
  | O, _ => Ret k
  | S _, [] => Fault
  | S n, a :: l => k ← step k a; reset_each k n l
  end.

End reset.

(** ** Reading instantiation blobs *)

Section decoding.
(** [zaclr_type_system_resolve_type_desc]: the assembly (0 is [NULL]) in which the
    token of an assembly resolves. *)
Context (resolve_type_desc : Z -> zaclr_token -> outcome Z).

Definition decode_compressed_uint (m : memory) (blob : zaclr_slice) (offset : Z) : outcome (Z * Z) :=
  match sl_data blob with
  | None => Err bad_metadata
  | Some _ => Signature.decode_compressed_uint m blob offset
  end.

Definition decode_type_def_or_ref_token (m : memory) (blob : zaclr_slice) (offset : Z) : outcome (zaclr_token * Z) :=
  '(coded_value, offset) ← decode_compressed_uint m blob offset;
  let tag := Z.land coded_value 0x3 in
  table ← (if tag =? 0 then Ret ZACLR_TOKEN_TABLE_TYPEDEF
           else if tag =? 1 then Ret ZACLR_TOKEN_TABLE_TYPEREF
           else if tag =? 2 then Ret ZACLR_TOKEN_TABLE_TYPESPEC else Err unsupported);
  Ret (zaclr_token_make (Z.lor (u32 (Z.shiftl table 24)) (Z.shiftr coded_value 2)), offset).

Definition resolve_argument_assembly (current_assembly : Z) (token : zaclr_token) : outcome Z :=
  if current_assembly =? 0 then Ret current_assembly
  else match resolve_type_desc current_assembly token with
       | Ret a => Ret (if a =? 0 then current_assembly else a)
       | Err r =>
         if bool_decide (status r = ZACLR_STATUS_NOT_IMPLEMENTED) || bool_decide (status r = ZACLR_STATUS_NOT_FOUND)
         then Ret current_assembly else Err r
       | o => o
       end.

Definition is_primitive (et : Z) : bool :=
  existsb (Z.eqb et)
    [ZACLR_ELEMENT_TYPE_BOOLEAN; ZACLR_ELEMENT_TYPE_CHAR; ZACLR_ELEMENT_TYPE_I1; ZACLR_ELEMENT_TYPE_U1;
     ZACLR_ELEMENT_TYPE_I2; ZACLR_ELEMENT_TYPE_U2; ZACLR_ELEMENT_TYPE_I4; ZACLR_ELEMENT_TYPE_U4;
     ZACLR_ELEMENT_TYPE_I8; ZACLR_ELEMENT_TYPE_U8; ZACLR_ELEMENT_TYPE_R4; ZACLR_ELEMENT_TYPE_R8;
     ZACLR_ELEMENT_TYPE_STRING; ZACLR_ELEMENT_TYPE_OBJECT; ZACLR_ELEMENT_TYPE_I; ZACLR_ELEMENT_TYPE_U].

Definition primitive_argument (et assembly : Z) : zaclr_generic_argument :=
  mk_argument ZACLR_GENERIC_ARGUMENT_KIND_PRIMITIVE et 0 0 assembly 0 0 0 [].
Definition concrete_argument (et : Z) (token : zaclr_token) (assembly : Z) : zaclr_generic_argument :=
  mk_argument ZACLR_GENERIC_ARGUMENT_KIND_CONCRETE_TYPE et 0 (raw token) assembly 0 0 0 [].
Definition variable_argument (et assembly index : Z) : zaclr_generic_argument :=
  mk_argument (if et =? ZACLR_ELEMENT_TYPE_VAR then ZACLR_GENERIC_ARGUMENT_KIND_TYPE_VAR
               else ZACLR_GENERIC_ARGUMENT_KIND_METHOD_VAR) et 0 0 assembly index 0 0 [].

(** An argument without nested ones, or the head of an instantiation: its element
    type, token, assembly and number of arguments. *)
Inductive decoded_head :=
  | Leaf (a : zaclr_generic_argument)
  | Inst (et : Z) (token : zaclr_token) (assembly count : Z).

Definition decode_head (m : memory) (blob : zaclr_slice) (current_assembly offset : Z) : outcome (decoded_head * Z) :=
  if sl_size blob <=? offset then Err invalid_argument else
  data ← deref (sl_data blob);
  et ← read_u8 m (data + offset);
  let offset := u32 (offset + 1) in
  if is_primitive et then Ret (Leaf (primitive_argument et current_assembly), offset)
  else if (et =? ZACLR_ELEMENT_TYPE_CLASS) || (et =? ZACLR_ELEMENT_TYPE_VALUETYPE) then
    '(token, offset) ← decode_type_def_or_ref_token m blob offset;
    assembly ← resolve_argument_assembly current_assembly token;
    Ret (Leaf (concrete_argument et token assembly), offset)
  else if et =? ZACLR_ELEMENT_TYPE_GENERICINST then
    if sl_size blob <=? offset then Err bad_metadata else
    owner ← read_u8 m (data + offset);
    if negb (owner =? ZACLR_ELEMENT_TYPE_CLASS) && negb (owner =? ZACLR_ELEMENT_TYPE_VALUETYPE) then Err unsupported else
    let offset := u32 (offset + 1) in
    '(token, offset) ← decode_type_def_or_ref_token m blob offset;
    assembly ← resolve_argument_assembly current_assembly token;
    '(argument_count, offset) ← decode_compressed_uint m blob offset;
    Ret (Inst owner token assembly argument_count, offset)
  else if (et =? ZACLR_ELEMENT_TYPE_VAR) || (et =? ZACLR_ELEMENT_TYPE_MVAR) then
    '(generic_index, offset) ← decode_compressed_uint m blob offset;
    Ret (Leaf (variable_argument et current_assembly generic_index), offset)
  else Err unsupported.

End decoding.

Section contexts.
Context {K : Type} `{KernelHeap K}.

(** A block of [count] zeroed arguments, or [NULL] for none. *)
Definition allocate_arguments (k : K) (count : Z) : outcome Z * K :=
  if count =? 0 then (Ret 0, k)
  else
    let '(p, k) := kernel_alloc k (sizeof_generic_argument * count) in
    if p =? 0 then (Err out_of_memory, k) else (Ret p, k).

Fixpoint reset_argument (k : K) (argument : zaclr_generic_argument) {struct argument} : outcome K :=
  match argument with
  | mk_argument _ _ _ _ _ _ count p contents =>
    if p =? 0 then Ret k
    else k ← reset_each reset_argument k (Z.to_nat count) contents; Ret (kernel_free k p)
  end.

(** The array of a context, or a cleared one. *)
Definition reset_arguments (k : K) (count p : Z) (contents : list zaclr_generic_argument) : outcome K :=
  if p =? 0 then Ret k
  else k ← reset_each reset_argument k (Z.to_nat count) contents; Ret (kernel_free k p).

Definition reset_type_arguments (k : K) (c : zaclr_generic_context) : outcome (K * zaclr_generic_context) :=
  k ← reset_arguments k (type_arg_count c) (type_args c) (type_contents c); Ret (k, set_type_args 0 0 [] c).
Definition reset_method_arguments (k : K) (c : zaclr_generic_context) : outcome (K * zaclr_generic_context) :=
  k ← reset_arguments k (method_arg_count c) (method_args c) (method_contents c); Ret (k, set_method_args 0 0 [] c).

Definition zaclr_generic_context_reset (k : K) (c : zaclr_generic_context) : outcome (K * zaclr_generic_context) :=
  '(k, c) ← reset_type_arguments k c; reset_method_arguments k c.

(** [o], with the state [k] that the cleanup leaves. *)
Definition after_cleanup {A} (o : outcome unit) (cleanup : outcome K) (k : K) (a : A) : outcome unit * (A * K) :=
  match cleanup with
  | Ret k => (o, (a, k))
  | Err r => (Err r, (a, k))
  | Fault => (Fault, (a, k))
  | NoFuel => (NoFuel, (a, k))
  end.

(** ** Copies *)

Fixpoint clone_argument (k : K) (source : zaclr_generic_argument) {struct source}
  : outcome unit * (zaclr_generic_argument * K) :=
  match source with
  | mk_argument kind et res token asm index count p contents =>
    if (count =? 0) || (p =? 0) then (Ret (), (mk_argument kind et res token asm index count 0 [], k))
    else
      match allocate_arguments k count with
      | (Ret q, k) =>
        match each clone_argument k (Z.to_nat count) contents with
        | (Ret _, (written, _, k)) => (Ret (), (mk_argument kind et res token asm index count q written, k))
        | (o, (written, _, k)) =>
          after_cleanup o (k ← reset_each reset_argument k (length written) written; Ret (kernel_free k q)) k zero_argument
        end
      | (Err r, k) => (Err r, (zero_argument, k))
      | (Fault, k) => (Fault, (zero_argument, k))
      | (NoFuel, k) => (NoFuel, (zero_argument, k))
      end
  end.

(** The body [clone_argument_array] and [substitute_argument_array] share: the new
    array, or nothing. *)
Definition argument_array (step : K -> zaclr_generic_argument -> outcome unit * (zaclr_generic_argument * K))
    (k : K) (source_count source_arguments : Z) (source : list zaclr_generic_argument)
  : outcome unit * (Z * Z * list zaclr_generic_argument * K) :=
  if (source_arguments =? 0) || (source_count =? 0) then (Ret (), (0, 0, [], k))
  else
    match allocate_arguments k source_count with
    | (Ret q, k) =>
      match each step k (Z.to_nat source_count) source with
      | (Ret _, (written, _, k)) => (Ret (), (source_count, q, written, k))
      | (o, (written, _, k)) =>
        after_cleanup o (k ← reset_each reset_argument k (length written) written; Ret (kernel_free k q)) k (0, 0, [])
      end
    | (Err r, k) => (Err r, (0, 0, [], k))
    | (Fault, k) => (Fault, (0, 0, [], k))
    | (NoFuel, k) => (NoFuel, (0, 0, [], k))
    end.

Definition clone_argument_array := argument_array clone_argument.

(** The steps of [zaclr_generic_context_clone] that fill the type arguments, and those
    that fill the method arguments, of a cleared context.  The count is stored after
    the loop, so the reset of a failed loop frees the array alone. *)
Definition fail_reset (o : outcome unit) (k : K) (c : zaclr_generic_context) : outcome unit * (zaclr_generic_context * K) :=
  match zaclr_generic_context_reset k c with
  | Ret (k, c) => (o, (c, k))
  | Err r => (Err r, (c, k))
  | Fault => (Fault, (c, k))
  | NoFuel => (NoFuel, (c, k))
  end.

Definition clone_type_args (k : K) (source destination : zaclr_generic_context) : outcome unit * (zaclr_generic_context * K) :=
  match allocate_arguments k (type_arg_count source) with
  | (Ret p, k) =>
    match each clone_argument k (Z.to_nat (type_arg_count source)) (type_contents source) with
    | (Ret _, (written, _, k)) => (Ret (), (set_type_args (type_arg_count source) p written destination, k))
    | (o, (written, rest, k)) => fail_reset o k (set_type_args 0 p (written ++ rest) destination)
    end
  | (Err r, k) => (Err r, (destination, k))
  | (Fault, k) => (Fault, (destination, k))
  | (NoFuel, k) => (NoFuel, (destination, k))
  end.

Definition clone_method_args (k : K) (source destination : zaclr_generic_context) : outcome unit * (zaclr_generic_context * K) :=
  match allocate_arguments k (method_arg_count source) with
  | (Ret p, k) =>
    match each clone_argument k (Z.to_nat (method_arg_count source)) (method_contents source) with
    | (Ret _, (written, _, k)) => (Ret (), (set_method_args (method_arg_count source) p written destination, k))
    | (o, (written, rest, k)) => fail_reset o k (set_method_args 0 p (written ++ rest) destination)
    end
  | (o, k) => fail_reset (_ ← o; Ret ()) k destination
  end.

Definition zaclr_generic_context_clone (k : K) (destination : zaclr_generic_context) (source : option zaclr_generic_context)
  : outcome unit * (zaclr_generic_context * K) :=
  match fail_reset (Ret ()) k destination with
  | (Ret _, (destination, k)) =>
    match source with
    | None => (Ret (), (destination, k))
    | Some source =>
      match clone_type_args k source destination with
      | (Ret _, (destination, k)) => clone_method_args k source destination
      | x => x
      end
    end
  | x => x
  end.

(** The arrays of a context that may be [NULL]. *)
Definition type_array (c : option zaclr_generic_context) : Z * Z * list zaclr_generic_argument :=
  match c with Some c => (type_arg_count c, type_args c, type_contents c) | None => (0, 0, []) end.
Definition method_array (c : option zaclr_generic_context) : Z * Z * list zaclr_generic_argument :=
  match c with Some c => (method_arg_count c, method_args c, method_contents c) | None => (0, 0, []) end.

Definition zaclr_generic_context_assign_type_args (k : K) (destination : zaclr_generic_context) (source : option zaclr_generic_context)
  : outcome unit * (zaclr_generic_context * K) :=
  let '(count, p, l) := type_array source in
  match clone_argument_array k count p l with
  | (Ret _, (count, q, l, k)) =>
    match reset_type_arguments k destination with
    | Ret (k, destination) => (Ret (), (set_type_args count q l destination, k))
    | Err r => (Err r, (destination, k))
    | Fault => (Fault, (destination, k))
    | NoFuel => (NoFuel, (destination, k))
    end
  | (o, (_, _, _, k)) => (o, (destination, k))
  end.

Definition zaclr_generic_context_assign_method_args (k : K) (destination : zaclr_generic_context) (source : option zaclr_generic_context)
  : outcome unit * (zaclr_generic_context * K) :=
  let '(count, p, l) := method_array source in
  match clone_argument_array k count p l with
  | (Ret _, (count, q, l, k)) =>
    match reset_method_arguments k destination with
    | Ret (k, destination) => (Ret (), (set_method_args count q l destination, k))
    | Err r => (Err r, (destination, k))
    | Fault => (Fault, (destination, k))
    | NoFuel => (NoFuel, (destination, k))
    end
  | (o, (_, _, _, k)) => (o, (destination, k))
  end.

(** ** Substitution *)

(** Which argument of the substitution replaces the variable, if any. *)
Definition replacement (source : zaclr_generic_argument) (substitution : option zaclr_generic_context)
  : option (option zaclr_generic_argument) :=
  match substitution with
  | None => None
  | Some s =>
    if (ga_kind source =? ZACLR_GENERIC_ARGUMENT_KIND_TYPE_VAR) && negb (type_args s =? 0) && (ga_index source <? type_arg_count s)
    then Some (type_contents s .@ (ga_index source))
    else if (ga_kind source =? ZACLR_GENERIC_ARGUMENT_KIND_TYPE_VAR) && ((type_args s =? 0) || (type_arg_count s =? 0))
            && negb (method_args s =? 0) && (ga_index source <? method_arg_count s)
    then Some (method_contents s .@ (ga_index source))
    else if (ga_kind source =? ZACLR_GENERIC_ARGUMENT_KIND_METHOD_VAR) && negb (method_args s =? 0) && (ga_index source <? method_arg_count s)
    then Some (method_contents s .@ (ga_index source))
    else None
  end.

Fixpoint substitute_argument (substitution : option zaclr_generic_context) (k : K) (source : zaclr_generic_argument) {struct source}
  : outcome unit * (zaclr_generic_argument * K) :=
  match replacement source substitution with
  | Some (Some a) => clone_argument k a
  | Some None => (Fault, (zero_argument, k))
  | None =>
    match source with
    | mk_argument kind et res token asm index count p contents =>
      if negb (kind =? ZACLR_GENERIC_ARGUMENT_KIND_GENERIC_INST) || (count =? 0) || (p =? 0) then clone_argument k source
      else
        match allocate_arguments k count with
        | (Ret q, k) =>
          match each (substitute_argument substitution) k (Z.to_nat count) contents with
          | (Ret _, (written, _, k)) => (Ret (), (mk_argument kind et res token asm index count q written, k))
          | (o, (written, rest, k)) =>
            after_cleanup o (reset_argument k (mk_argument kind et res token asm index count q (written ++ rest))) k zero_argument
          end
        | (Err r, k) => (Err r, (zero_argument, k))
        | (Fault, k) => (Fault, (zero_argument, k))
        | (NoFuel, k) => (NoFuel, (zero_argument, k))
        end
    end
  end.

Definition substitute_argument_array (substitution : option zaclr_generic_context) := argument_array (substitute_argument substitution).

Definition zaclr_generic_context_substitute_type_args (k : K) (out_context : zaclr_generic_context)
    (source substitution : option zaclr_generic_context) : outcome unit * (zaclr_generic_context * K) :=
  match fail_reset (Ret ()) k out_context with
  | (Ret _, (out_context, k)) =>
    let '(count, p, l) := type_array source in
    if (count =? 0) || (p =? 0) then (Ret (), (out_context, k))
    else
      let '(o, (count, q, l, k)) := substitute_argument_array substitution k count p l in
      (o, (set_type_args count q l out_context, k))
  | x => x
  end.

Definition zaclr_generic_context_substitute_method_args (k : K) (out_context : zaclr_generic_context)
    (source substitution : option zaclr_generic_context) : outcome unit * (zaclr_generic_context * K) :=
  match fail_reset (Ret ()) k out_context with
  | (Ret _, (out_context, k)) =>
    let '(count, p, l) := method_array source in
    if (count =? 0) || (p =? 0) then (Ret (), (out_context, k))
    else
      let '(o, (count, q, l, k)) := substitute_argument_array substitution k count p l in
      (o, (set_method_args count q l out_context, k))
  | x => x
  end.

(** ** Instantiations *)

Section loop.
Context (decode : K -> Z -> outcome unit * (zaclr_generic_argument * Z * K)).

(** The loop over the [n] arguments of an instantiation, from [offset] on. *)
Fixpoint decode_loop (k : K) (n : nat) (offset : Z)
  : outcome unit * (list zaclr_generic_argument * list zaclr_generic_argument * Z * K) :=
  match n with
  | O => (Ret (), ([], [], offset, k))
  | S n =>
    match decode k offset with
    | (Ret _, (a, offset, k)) =>
      let '(o, (written, rest, offset, k)) := decode_loop k n offset in (o, (a :: written, rest, offset, k))
    | (o, (a, offset, k)) => (o, ([], a :: replicate n zero_argument, offset, k))
    end
  end.

End loop.

Context (resolve_type_desc : Z -> zaclr_token -> outcome Z).

(** [fuel] bounds the nesting.  A failed call leaves in its destination no buffer,
    and scalar fields that no caller reads: they are cleared here. *)
Fixpoint decode_instantiation_argument (fuel : nat) (m : memory) (blob : zaclr_slice) (current_assembly : Z)
    (k : K) (offset : Z) : outcome unit * (zaclr_generic_argument * Z * K) :=
  match fuel with
  | O => (NoFuel, (zero_argument, offset, k))
  | S fuel =>
    match decode_head resolve_type_desc m blob current_assembly offset with
    | Ret (Leaf a, offset) => (Ret (), (a, offset, k))
    | Ret (Inst et token assembly argument_count, offset) =>
      match allocate_arguments k argument_count with
      | (Ret q, k) =>
        let inst l := mk_argument ZACLR_GENERIC_ARGUMENT_KIND_GENERIC_INST et 0 (raw token) assembly 0 argument_count q l in
        match decode_loop (decode_instantiation_argument fuel m blob current_assembly) k (Z.to_nat argument_count) offset with
        | (Ret _, (written, _, offset, k)) => (Ret (), (inst written, offset, k))
        | (o, (written, rest, offset, k)) => after_cleanup o (reset_argument k (inst (written ++ rest))) k (zero_argument, offset)
        end
      | (Err r, k) => (Err r, (zero_argument, offset, k))
      | (Fault, k) => (Fault, (zero_argument, offset, k))
      | (NoFuel, k) => (NoFuel, (zero_argument, offset, k))
      end
    | Err r => (Err r, (zero_argument, offset, k))
    | Fault => (Fault, (zero_argument, offset, k))
    | NoFuel => (NoFuel, (zero_argument, offset, k))
    end
  end.

Definition blob_fuel (blob : zaclr_slice) : nat := S (Z.to_nat (sl_size blob)).

(** The number of arguments, the array and its contents.  A failure frees the array,
    not the arrays of the arguments that were read. *)
Definition parse_instantiation_arguments (m : memory) (current_assembly : Z) (k : K) (blob : zaclr_slice)
  : outcome unit * (Z * Z * list zaclr_generic_argument * K) :=
  match sl_data blob with
  | None => (Ret (), (0, 0, [], k))
  | Some data =>
    if sl_size blob =? 0 then (Ret (), (0, 0, [], k)) else
    match (marker ← read_u8 m data;
           if negb (marker =? 0x0A) then Err bad_metadata else decode_compressed_uint m blob 1) with
    | Ret (argument_count, offset) =>
      match allocate_arguments k argument_count with
      | (Ret q, k) =>
        match decode_loop (decode_instantiation_argument (blob_fuel blob) m blob current_assembly) k (Z.to_nat argument_count) offset with
        | (Ret _, (written, _, _, k)) => (Ret (), (argument_count, q, written, k))
        | (o, (_, _, _, k)) => (o, (0, 0, [], kernel_free k q))
        end
      | (Err r, k) => (Err r, (0, 0, [], k))
      | (Fault, k) => (Fault, (0, 0, [], k))
      | (NoFuel, k) => (NoFuel, (0, 0, [], k))
      end
    | Err r => (Err r, (0, 0, [], k))
    | Fault => (Fault, (0, 0, [], k))
    | NoFuel => (NoFuel, (0, 0, [], k))
    end
  end.

(** The old array is freed without its arguments. *)
Definition free_array (k : K) (p : Z) : K := if p =? 0 then k else kernel_free k p.

Definition zaclr_generic_context_set_method_instantiation (m : memory) (current_assembly : Z) (k : K)
    (c : zaclr_generic_context) (blob : zaclr_slice) : outcome unit * (zaclr_generic_context * K) :=
  match parse_instantiation_arguments m current_assembly k blob with
  | (Ret _, (count, q, l, k)) => (Ret (), (set_method_args count q l c, free_array k (method_args c)))
  | (o, (_, _, _, k)) => (o, (c, k))
  end.

Definition zaclr_generic_context_set_type_instantiation (m : memory) (current_assembly : Z) (k : K)
    (c : zaclr_generic_context) (blob : zaclr_slice) : outcome unit * (zaclr_generic_context * K) :=
  match parse_instantiation_arguments m current_assembly k blob with
  | (Ret _, (count, q, l, k)) => (Ret (), (set_type_args count q l c, free_array k (type_args c)))
  | (o, (_, _, _, k)) => (o, (c, k))
  end.

(** ** Queries *)

(** [None] is [NULL]; an index inside the count and outside the array is a [Fault]. *)
Definition zaclr_generic_context_get_type_argument (c : option zaclr_generic_context) (index : Z)
  : outcome (option zaclr_generic_argument) :=
  match c with
  | None => Ret None
  | Some c =>
    if (type_args c =? 0) || (type_arg_count c <=? index) then Ret None
    else match type_contents c .@ index with Some a => Ret (Some a) | None => Fault end
  end.

Definition zaclr_generic_context_get_method_argument (c : option zaclr_generic_context) (index : Z)
  : outcome (option zaclr_generic_argument) :=
  match c with
  | None => Ret None
  | Some c =>
    if (method_args c =? 0) || (method_arg_count c <=? index) then Ret None
    else match method_contents c .@ index with Some a => Ret (Some a) | None => Fault end
  end.

Definition resolve_variable (k : K) (found : outcome (option zaclr_generic_argument)) : outcome unit * (zaclr_generic_argument * K) :=
  match found with
  | Ret (Some a) => clone_argument k a
  | Ret None => (Err not_found, (zero_argument, k))
  | Err r => (Err r, (zero_argument, k))
  | Fault => (Fault, (zero_argument, k))
  | NoFuel => (NoFuel, (zero_argument, k))
  end.

Definition zaclr_generic_context_resolve_signature_type (c : option zaclr_generic_context) (current_assembly : Z) (k : K)
    (t : zaclr_signature_type) : outcome unit * (zaclr_generic_argument * K) :=
  let et := element_type t in
  if et =? ZACLR_ELEMENT_TYPE_VAR then resolve_variable k (zaclr_generic_context_get_type_argument c (generic_param_index t))
  else if et =? ZACLR_ELEMENT_TYPE_MVAR then resolve_variable k (zaclr_generic_context_get_method_argument c (generic_param_index t))
  else if (et =? ZACLR_ELEMENT_TYPE_CLASS) || (et =? ZACLR_ELEMENT_TYPE_VALUETYPE) then
    if zaclr_token_is_nil (Some (type_token t)) then (Ret (), (concrete_argument et (type_token t) current_assembly, k))
    else match resolve_argument_assembly resolve_type_desc current_assembly (type_token t) with
         | Ret a => (Ret (), (concrete_argument et (type_token t) a, k))
         | Err r => (Err r, (concrete_argument et (type_token t) current_assembly, k))
         | Fault => (Fault, (concrete_argument et (type_token t) current_assembly, k))
         | NoFuel => (NoFuel, (concrete_argument et (type_token t) current_assembly, k))
         end
  else if is_primitive et then (Ret (), (primitive_argument et current_assembly, k))
  else (Err unsupported, (zero_argument, k)).

End contexts.

End GenericContext.
