(* ===== verification/GenericCorrect.v ===== *)
(** * Correctness of generic contexts

    Ownership of the argument buffers (which copies are fresh, what a failure leaves
    behind, what a reset gives back), substitution against its definition on trees,
    and the instantiation blobs of ECMA-335 II.23.2.15. *)

From Stdlib Require Import Strings.Byte.
From S2P Require Import Prelude Status Bytes Token Signature KernelHeap GenericContext.

Module GenericCorrect.
Import GenericContext.

Implicit Types (a b : zaclr_generic_argument) (l : list zaclr_generic_argument) (c : zaclr_generic_context).

(** ** Trees *)

Definition argument_rect (P : zaclr_generic_argument -> Prop)
    (Hmk : forall kind et res token asm i n p l, Forall P l -> P (mk_argument kind et res token asm i n p l)) :
  forall a, P a :=
  fix go a := match a with
    mk_argument kind et res token asm i n p l =>
      Hmk kind et res token asm i n p l
        ((fix all (l : list zaclr_generic_argument) : Forall P l :=
            match l with [] => Forall_nil_2 P | a :: l => Forall_cons_2 P a l (go a) (all l) end) l)
    end.

(** The buffers of a tree. *)
Fixpoint buffers a : list Z :=
  match a with mk_argument _ _ _ _ _ _ _ p l => if p =? 0 then [] else p :: concat (map buffers l) end.
Definition all_buffers l : list Z := concat (map buffers l).

(** The tree without its addresses. *)
Fixpoint erase a : zaclr_generic_argument :=
  match a with
  | mk_argument kind et res token asm i n p l => mk_argument kind et res token asm i n (if p =? 0 then 0 else 1) (map erase l)
  end.

Inductive argument_ok : zaclr_generic_argument -> Prop :=
  | leaf_ok kind et res token asm i : 0 <= i -> argument_ok (mk_argument kind et res token asm i 0 0 [])
  | inst_ok kind et res token asm i p l : 0 <= i -> p <> 0 -> l <> [] -> Forall argument_ok l ->
    argument_ok (mk_argument kind et res token asm i (zlength l) p l).

(** An array of a context. *)
Definition array_ok (count p : Z) l : Prop :=
  Forall argument_ok l /\ count = zlength l /\ (p = 0 <-> l = []).
Definition array_buffers (p : Z) l : list Z := if p =? 0 then [] else p :: all_buffers l.

Definition context_ok c : Prop :=
  array_ok (type_arg_count c) (type_args c) (type_contents c) /\ array_ok (method_arg_count c) (method_args c) (method_contents c).
Definition context_buffers c : list Z :=
  array_buffers (type_args c) (type_contents c) ++ array_buffers (method_args c) (method_contents c).
Definition erase_context c : list zaclr_generic_argument * list zaclr_generic_argument :=
  (map erase (type_contents c), map erase (method_contents c)).

Lemma zero_ok : argument_ok zero_argument.
Proof. by apply leaf_ok. Qed.

Lemma all_buffers_cons a l : all_buffers (a :: l) = buffers a ++ all_buffers l.
Proof. done. Qed.

Lemma all_buffers_app l l' : all_buffers (l ++ l') = all_buffers l ++ all_buffers l'.
Proof. unfold all_buffers. by rewrite map_app, concat_app. Qed.

Lemma zlength_pos {A} (l : list A) : l <> [] -> 0 < zlength l.
Proof. destruct l; [done|]. rewrite zlength_cons. pose proof (zlength_nonneg l). lia. Qed.

Lemma to_nat_zlength {A} (l : list A) : Z.to_nat (zlength l) = length l.
Proof. unfold zlength. lia. Qed.

Section heap.
Context {K : Type} `{KernelHeapLaws K}.
Implicit Types (k : K) (bs : list Z).

(** The new blocks of a computation. *)
Record fresh_blocks k bs k' : Prop := {
  fb_nodup : NoDup bs;
  fb_fresh : forall p, p ∈ bs -> p ∉ live k;
  fb_live : live k' = list_to_set bs ∪ live k }.

Lemma fresh_nil k : fresh_blocks k [] k.
Proof. split; [constructor|set_solver|set_solver]. Qed.

Lemma fresh_app k1 bs1 k2 bs2 k3 : fresh_blocks k1 bs1 k2 -> fresh_blocks k2 bs2 k3 -> fresh_blocks k1 (bs1 ++ bs2) k3.
Proof.
  intros [N1 F1 L1] [N2 F2 L2]. split.
  - apply NoDup_app. split; [done|]. split; [|done]. intros p Hp1 Hp2. apply (F2 p Hp2). rewrite L1. set_solver.
  - intros p Hp. apply elem_of_app in Hp as [Hp|Hp]; [by apply F1|]. intros Hl. apply (F2 p Hp). rewrite L1. set_solver.
  - rewrite L2, L1, list_to_set_app_L. set_solver.
Qed.

Lemma allocate_spec k count : count <> 0 ->
  match allocate_arguments k count with
  | (Ret p, k') => p <> 0 /\ fresh_blocks k [p] k'
  | (Err r, k') => r = out_of_memory /\ live k' = live k
  | _ => False
  end.
Proof.
  intros Hc. unfold allocate_arguments. rewrite (proj2 (Z.eqb_neq _ _) Hc).
  destruct (kernel_alloc k _) as [p k'] eqn:E. apply alloc_spec in E as [[-> E]|(Hp & Hn & E)]; [done|].
  rewrite (proj2 (Z.eqb_neq _ _) Hp). split; [done|]. split; [apply NoDup_singleton|set_solver|set_solver].
Qed.

(** ** Release *)

Lemma reset_each_spec n l k : Forall (fun a => forall k, exists k', reset_argument k a = Ret k' /\ live k' = live k ∖ list_to_set (buffers a)) l ->
  n = length l -> exists k', reset_each reset_argument k n l = Ret k' /\ live k' = live k ∖ list_to_set (all_buffers l).
Proof.
  intros Hl. revert n k. induction Hl as [|a l Ha Hl IH]; intros n k ->.
  - exists k. split; [done|]. set_solver.
  - destruct (Ha k) as (k1 & E1 & L1). destruct (IH _ k1 eq_refl) as (k2 & E2 & L2). exists k2. simpl.
    rewrite E1, Ret_bind. split; [done|]. rewrite L2, L1, all_buffers_cons, list_to_set_app_L. set_solver.
Qed.

Lemma reset_argument_spec a : argument_ok a -> forall k,
  exists k', reset_argument k a = Ret k' /\ live k' = live k ∖ list_to_set (buffers a).
Proof.
  induction a as [kind et res token asm i n p l IH] using argument_rect. intros Hok k. inversion Hok as [? ? ? ? ? ? Hi|? ? ? ? ? ? ? ? Hi Hp Hne Hl]; subst.
  - exists k. split; [done|]. set_solver.
  - simpl. rewrite (proj2 (Z.eqb_neq _ _) Hp), to_nat_zlength.
    destruct (reset_each_spec (length l) l k) as (k1 & E1 & L1); [|done|].
    { rewrite Forall_forall in IH, Hl |- *. intros a Ha. by apply IH, Hl. }
    exists (kernel_free k1 p). rewrite E1, Ret_bind. split; [done|]. rewrite free_spec, L1. simpl. set_solver.
Qed.

Lemma reset_all_spec l k n : Forall argument_ok l -> n = length l ->
  exists k', reset_each reset_argument k n l = Ret k' /\ live k' = live k ∖ list_to_set (all_buffers l).
Proof.
  intros Hl. apply reset_each_spec. eapply Forall_impl; [exact Hl|]. intros a Ha. by apply reset_argument_spec.
Qed.

Lemma reset_array_spec k count p l : array_ok count p l ->
  exists k', reset_arguments k count p l = Ret k' /\ live k' = live k ∖ list_to_set (array_buffers p l).
Proof.
  intros (Hl & -> & Hp). unfold reset_arguments, array_buffers. destruct (Z.eqb_spec p 0); [exists k; split; [done|]; set_solver|].
  rewrite to_nat_zlength. destruct (reset_all_spec l k _ Hl eq_refl) as (k1 & E1 & L1). rewrite E1, Ret_bind.
  exists (kernel_free k1 p). split; [done|]. rewrite free_spec, L1. simpl. set_solver.
Qed.

Lemma context_reset_spec k c : context_ok c ->
  exists k', zaclr_generic_context_reset k c = Ret (k', empty_context) /\ live k' = live k ∖ list_to_set (context_buffers c).
Proof.
  intros [Ht Hm]. unfold zaclr_generic_context_reset, reset_type_arguments, reset_method_arguments.
  destruct (reset_array_spec k _ _ _ Ht) as (k1 & E1 & L1). rewrite E1, Ret_bind. rewrite Ret_bind.
  cbn [set_type_args method_arg_count method_args method_contents].
  destruct (reset_array_spec k1 _ _ _ Hm) as (k2 & E2 & L2). rewrite E2, Ret_bind. exists k2. split; [done|].
  unfold context_buffers. rewrite L2, L1, list_to_set_app_L. set_solver.
Qed.

(** ** Loops that copy *)

(** What a step makes of the element [a]. *)
Definition step_post (R : zaclr_generic_argument -> Prop) k (x : outcome unit * (zaclr_generic_argument * K)) : Prop :=
  match x with
  | (Ret _, (b, k')) => argument_ok b /\ R b /\ fresh_blocks k (buffers b) k'
  | (Err r, (b, k')) => r = out_of_memory /\ b = zero_argument /\ live k' = live k
  | _ => False
  end.

Lemma each_spec step (R : zaclr_generic_argument -> zaclr_generic_argument -> Prop) l :
  Forall (fun a => forall k, step_post (R a) k (step k a)) l -> forall k,
  match each step k (length l) l with
  | (Ret _, (written, rest, k')) =>
    Forall argument_ok written /\ Forall2 R l written /\ fresh_blocks k (all_buffers written) k'
  | (Err r, (written, rest, k')) =>
    r = out_of_memory /\ Forall argument_ok written /\ Forall argument_ok rest /\ all_buffers rest = [] /\
    length (written ++ rest) = length l /\ fresh_blocks k (all_buffers written) k'
  | _ => False
  end.
Proof.
  induction 1 as [|a l Ha Hl IH]; intros k; [split; [done|]; split; [constructor|apply fresh_nil]|].
  cbn [length each]. specialize (Ha k). destruct (step k a) as [[[]|r| |] [b k1]]; try done.
  - destruct Ha as (Hb & HR & Hf). specialize (IH k1).
    destruct (each step k1 (length l) l) as [[[]|r| |] [[written rest] k2]]; try done.
    + destruct IH as (H1 & H2 & H3). split; [by constructor|]. split; [by constructor|]. rewrite all_buffers_cons. by eapply fresh_app.
    + destruct IH as (H1 & H2 & H3 & H4 & H5 & H6). split_and!; try done; [by constructor|simpl; lia|].
      rewrite all_buffers_cons. by eapply fresh_app.
  - destruct Ha as (-> & -> & Hf).
    assert (all_buffers (zero_argument :: replicate (length l) zero_argument) = []) as E.
    { clear. induction (length l) as [|n IH]; [done|]. done. }
    split_and!; try done.
    + constructor; [apply zero_ok|]. apply Forall_replicate, zero_ok.
    + simpl. by rewrite length_replicate.
    + split; [constructor|set_solver|]. rewrite Hf. set_solver.
Qed.

(** The cleanup of a failed loop, and of its array. *)
Lemma cleanup_spec k q written k1 k2 : q <> 0 -> fresh_blocks k [q] k1 -> Forall argument_ok written ->
  fresh_blocks k1 (all_buffers written) k2 ->
  exists k', (k ← reset_each reset_argument k2 (length written) written; Ret (kernel_free k q)) = Ret k' /\ live k' = live k.
Proof.
  intros Hq [N1 F1 L1] Hw [N2 F2 L2]. destruct (reset_all_spec written k2 _ Hw eq_refl) as (k3 & E3 & L3).
  rewrite E3, Ret_bind. exists (kernel_free k3 q). split; [done|]. rewrite free_spec, L3, L2, L1.
  apply set_eq. intros p. specialize (F2 p). specialize (F1 p). rewrite L1 in F2. set_unfold. destruct (decide (p = q)); naive_solver.
Qed.

(** ** Copies *)

Lemma erase_map l l' : Forall2 (fun a b => erase b = erase a) l l' -> map erase l' = map erase l.
Proof. induction 1; simpl; congruence. Qed.

Lemma clone_argument_spec a : argument_ok a -> forall k, step_post (fun b => erase b = erase a) k (clone_argument k a).
Proof.
  induction a as [kind et res token asm i n p l IH] using argument_rect. intros Hok k. inversion Hok as [? ? ? ? ? ? Hi|? ? ? ? ? ? ? ? Hi Hp Hne Hl]; subst.
  - simpl. split; [by constructor|]. split; [done|apply fresh_nil].
  - cbn [clone_argument]. pose proof (zlength_pos l Hne). rewrite (proj2 (Z.eqb_neq (zlength l) 0)), (proj2 (Z.eqb_neq p 0)) by (done || lia).
    cbn [orb]. pose proof (allocate_spec k (zlength l) ltac:(lia)) as Ha. destruct (allocate_arguments k (zlength l)) as [[q|r| |] k1]; try done;
      [|by destruct Ha]. destruct Ha as [Hq Hf1]. rewrite to_nat_zlength.
    assert (Forall (fun a => forall k, step_post (fun b => erase b = erase a) k (clone_argument k a)) l) as Hs.
    { rewrite Forall_forall in IH, Hl |- *. intros a Ha. by apply IH, Hl. }
    pose proof (each_spec clone_argument (fun a b => erase b = erase a) l Hs k1) as He.
    destruct (each clone_argument k1 (length l) l) as [[[]|r| |] [[written rest] k2]]; try done.
    + destruct He as (A1 & A2 & A3). assert (zlength written = zlength l) as El by (unfold zlength; by rewrite (Forall2_length _ _ _ A2)).
      split; [|split].
      * rewrite <- El. apply inst_ok; [done..| |done]. intros ->. apply Forall2_nil_inv_r in A2. done.
      * simpl. rewrite (erase_map _ _ A2). by rewrite (proj2 (Z.eqb_neq q 0)), (proj2 (Z.eqb_neq p 0)).
      * simpl. rewrite (proj2 (Z.eqb_neq q 0)) by done. by apply (fresh_app k [q] k1).
    + destruct He as (-> & A1 & A2 & A3 & A4 & A5). destruct (cleanup_spec k q written k1 k2) as (k3 & E3 & L3); try done.
      unfold after_cleanup. by rewrite E3.
Qed.

(** What [argument_array] makes of an array, with a step that makes [R a] of [a]. *)
Lemma argument_array_spec step (R : zaclr_generic_argument -> zaclr_generic_argument -> Prop) k count p l : array_ok count p l ->
  Forall (fun a => forall k, step_post (R a) k (step k a)) l ->
  match argument_array step k count p l with
  | (Ret _, (count', q, l', k')) => array_ok count' q l' /\ Forall2 R l l' /\ fresh_blocks k (array_buffers q l') k'
  | (Err r, (count', q, l', k')) => r = out_of_memory /\ (count', q, l') = (0, 0, []) /\ live k' = live k
  | _ => False
  end.
Proof.
  intros (Hl & -> & Hp) Hs. unfold argument_array. destruct (Z.eqb_spec p 0) as [->|Hp0].
  { assert (l = []) as -> by (by apply Hp). simpl. split; [by repeat split|]. split; [constructor|apply fresh_nil]. }
  assert (l <> []) as Hne by naive_solver. pose proof (zlength_pos l Hne). cbn [orb].
  rewrite (proj2 (Z.eqb_neq (zlength l) 0)) by lia.
  pose proof (allocate_spec k (zlength l) ltac:(lia)) as Ha. destruct (allocate_arguments k (zlength l)) as [[q|r| |] k1]; try done.
  2: { by destruct Ha. }
  destruct Ha as [Hq Hf1]. rewrite to_nat_zlength. pose proof (each_spec step R l Hs k1) as He.
  destruct (each step k1 (length l) l) as [[[]|r| |] [[written rest] k2]]; try done.
  - destruct He as (A1 & A2 & A3). pose proof (Forall2_length _ _ _ A2) as El. split; [|split; [done|]].
    + split; [done|]. split; [unfold zlength; lia|]. split; [done|]. intros ->. apply Forall2_nil_inv_r in A2. done.
    + unfold array_buffers. rewrite (proj2 (Z.eqb_neq q 0)) by done. by apply (fresh_app k [q] k1).
  - destruct He as (-> & A1 & A2 & A3 & A4 & A5). destruct (cleanup_spec k q written k1 k2) as (k3 & E3 & L3); try done.
    unfold after_cleanup. by rewrite E3.
Qed.

Lemma clone_steps l : Forall argument_ok l -> Forall (fun a => forall k, step_post (fun b => erase b = erase a) k (clone_argument k a)) l.
Proof. intros Hl. eapply Forall_impl; [exact Hl|]. intros a Ha k. by apply clone_argument_spec. Qed.

(** ** The copy of a context *)

(** The parts [clone_type_args] and [clone_method_args] fill. *)
Lemma fail_reset_spec k c o : context_ok c -> 
  exists k', fail_reset o k c = (o, (empty_context, k')) /\ live k' = live k ∖ list_to_set (context_buffers c).
Proof.
  intros Hc. unfold fail_reset. destruct (context_reset_spec k c Hc) as (k' & E & L). rewrite E. by exists k'.
Qed.

Lemma empty_ok : context_ok empty_context.
Proof. by repeat split. Qed.

(** The array of a context, copied into an empty one; [finish] stores it. *)
Lemma clone_array_spec k count p l : array_ok count p l ->
  match allocate_arguments k count with
  | (Ret q, k1) =>
    match each clone_argument k1 (Z.to_nat count) l with
    | (Ret _, (written, rest, k2)) =>
      array_ok count q written /\ map erase written = map erase l /\ fresh_blocks k (array_buffers q written) k2
    | (Err r, (written, rest, k2)) => r = out_of_memory /\ q <> 0 /\ live k ⊆ live k2 ∖ {[q]}
    | _ => False
    end
  | (Err r, k1) => r = out_of_memory /\ live k1 = live k
  | _ => False
  end.
Proof.
  intros (Hl & -> & Hp). rewrite to_nat_zlength. destruct (decide (l = [])) as [->|Hne].
  { simpl. split; [by repeat split|]. split; [done|]. apply fresh_nil. }
  pose proof (zlength_pos l Hne). pose proof (allocate_spec k (zlength l) ltac:(lia)) as Ha.
  destruct (allocate_arguments k (zlength l)) as [[q|r| |] k1]; try done. destruct Ha as [Hq Hf1].
  pose proof (each_spec clone_argument _ l (clone_steps l Hl) k1) as He.
  destruct (each clone_argument k1 (length l) l) as [[[]|r| |] [[written rest] k2]]; try done.
  - destruct He as (A1 & A2 & A3). pose proof (Forall2_length _ _ _ A2) as El. split; [|split].
    + split; [done|]. split; [unfold zlength; lia|]. split; [done|]. intros ->. apply Forall2_nil_inv_r in A2. done.
    + by apply erase_map.
    + unfold array_buffers. rewrite (proj2 (Z.eqb_neq q 0)) by done. by apply (fresh_app k [q] k1).
  - destruct He as (-> & A1 & A2 & A3 & A4 & A5). split; [done|]. split; [done|].
    destruct Hf1 as [_ F1 L1]. destruct A5 as [_ _ L2]. rewrite L2, L1. specialize (F1 q). set_solver.
Qed.

(** The reset of a context whose new array has not got its count yet. *)
Lemma fail_reset_type k q l o : q <> 0 -> fail_reset o k (set_type_args 0 q l empty_context) = (o, (empty_context, kernel_free k q)).
Proof. intros Hq. unfold fail_reset, zaclr_generic_context_reset, reset_type_arguments, reset_arguments. simpl. rewrite (proj2 (Z.eqb_neq q 0)) by done. by destruct l. Qed.

Lemma fail_reset_method k q l o c : q <> 0 -> array_ok (type_arg_count c) (type_args c) (type_contents c) -> 
  exists k', fail_reset o k (set_method_args 0 q l c) = (o, (empty_context, k')) /\
    live k' = live k ∖ list_to_set (array_buffers (type_args c) (type_contents c)) ∖ {[q]}.
Proof.
  intros Hq Ht. unfold fail_reset, zaclr_generic_context_reset, reset_type_arguments, reset_method_arguments.
  cbn [set_method_args type_arg_count type_args type_contents]. destruct (reset_array_spec k _ _ _ Ht) as (k1 & E1 & L1).
  rewrite E1, !Ret_bind. cbn [set_type_args set_method_args method_arg_count method_args method_contents]. unfold reset_arguments.
  rewrite (proj2 (Z.eqb_neq q 0)) by done. assert (reset_each reset_argument k1 (Z.to_nat 0) l = Ret k1) as -> by (by destruct l).
  rewrite !Ret_bind. exists (kernel_free k1 q). split; [done|]. by rewrite free_spec, L1.
Qed.

(** What a copy over [destination] promises: the old blocks are given back, the new
    ones are fresh; a failure leaves an empty context and loses nothing. *)
Definition clone_post k (destination source : zaclr_generic_context) (x : outcome unit * (zaclr_generic_context * K)) : Prop :=
  let kept := live k ∖ list_to_set (context_buffers destination) in
  match x with
  | (Ret _, (c, k')) =>
    context_ok c /\ erase_context c = erase_context source /\ NoDup (context_buffers c) /\
    (forall p, p ∈ context_buffers c -> p ∉ kept) /\ live k' = list_to_set (context_buffers c) ∪ kept
  | (Err r, (c, k')) => r = out_of_memory /\ c = empty_context /\ kept ⊆ live k'
  | _ => False
  end.

Lemma clone_context_spec k destination source : context_ok destination -> context_ok source ->
  clone_post k destination source (zaclr_generic_context_clone k destination (Some source)).
Proof.
  intros Hd [Ht Hm]. unfold zaclr_generic_context_clone, clone_post.
  destruct (fail_reset_spec k destination (Ret ()) Hd) as (k0 & E0 & L0). rewrite E0, <- L0. unfold clone_type_args.
  pose proof (clone_array_spec k0 _ _ _ Ht) as Ha. destruct (allocate_arguments k0 _) as [[q|r| |] k1]; try done.
  2: { destruct Ha as [-> L]. split; [done|]. split; [done|]. rewrite L. done. }
  destruct (each clone_argument k1 _ _) as [[[]|r| |] [[written rest] k2]]; try done.
  2: { destruct Ha as (-> & Hq & Hl). rewrite fail_reset_type by done. split; [done|]. split; [done|]. by rewrite free_spec. }
  destruct Ha as (Hok1 & He1 & Hf1). unfold clone_method_args.
  pose proof (clone_array_spec k2 _ _ _ Hm) as Hb. set (c1 := set_type_args _ q written empty_context).
  assert (array_ok (type_arg_count c1) (type_args c1) (type_contents c1)) as Hc1 by done.
  assert (live k0 ⊆ live k2 ∖ list_to_set (array_buffers q written)) as Hk0.
  { destruct Hf1 as [_ F1 L1]. rewrite L1. set_unfold. intros p Hp. specialize (F1 p). naive_solver. }
  destruct (allocate_arguments k2 _) as [[q'|r| |] k3]; try done.
  2: { destruct Hb as [-> L]. rewrite Err_bind. destruct (fail_reset_spec k3 c1 (Err out_of_memory)) as (k4 & E4 & L4); [by split; [|apply empty_ok]|].
       rewrite E4. split; [done|]. split; [done|]. rewrite L4, L. unfold context_buffers. simpl. rewrite app_nil_r. done. }
  destruct (each clone_argument k3 _ _) as [[[]|r| |] [[written' rest'] k4]]; try done.
  - destruct Hb as (Hok2 & He2 & Hf2). pose proof (fresh_app _ _ _ _ _ Hf1 Hf2) as [N F L].
    split; [by split|]. split; [by unfold erase_context; simpl; rewrite He1, He2|]. done.
  - destruct Hb as (-> & Hq & Hl). destruct (fail_reset_method k4 q' (written' ++ rest') (Err out_of_memory) c1 Hq Hc1) as (k5 & E5 & L5).
    rewrite E5. split; [done|]. split; [done|]. rewrite L5. simpl. set_solver.
Qed.

(** ** Assignments *)

Lemma type_array_ok source : (forall c, source = Some c -> context_ok c) ->
  let '(count, p, l) := type_array source in array_ok count p l.
Proof. intros Hs. destruct source as [c|]; [apply (Hs c eq_refl)|]. by repeat split. Qed.
Lemma method_array_ok source : (forall c, source = Some c -> context_ok c) ->
  let '(count, p, l) := method_array source in array_ok count p l.
Proof. intros Hs. destruct source as [c|]; [apply (Hs c eq_refl)|]. by repeat split. Qed.

Definition typed_array c : Z * Z * list zaclr_generic_argument := type_array (Some c).
Definition methods_array c : Z * Z * list zaclr_generic_argument := method_array (Some c).

(** What replacing an array with the blocks [old] promises: the new array has the
    contents [trees], the [other] array stays, the old one is given back, a failure
    changes nothing. *)
Definition assign_post k (old : list Z) (trees : list zaclr_generic_argument) c
    (get other : zaclr_generic_context -> Z * Z * list zaclr_generic_argument) (x : outcome unit * (zaclr_generic_context * K)) : Prop :=
  match x with
  | (Ret _, (c', k')) =>
    let '(count, q, l) := get c' in
    context_ok c' /\ other c' = other c /\ map erase l = trees /\ NoDup (array_buffers q l) /\ (forall p, p ∈ array_buffers q l -> p ∉ live k) /\
    live k' = (list_to_set (array_buffers q l) ∪ live k) ∖ list_to_set old
  | (Err r, (c', k')) => r = out_of_memory /\ c' = c /\ live k' = live k
  | _ => False
  end.

Lemma assign_type_spec k c source : context_ok c -> (forall c, source = Some c -> context_ok c) ->
  assign_post k (array_buffers (type_args c) (type_contents c)) (map erase (type_array source).2) c typed_array methods_array
    (zaclr_generic_context_assign_type_args k c source).
Proof.
  intros [Ht Hm] Hs. pose proof (type_array_ok source Hs) as Ha. unfold zaclr_generic_context_assign_type_args, clone_argument_array.
  destruct (type_array source) as [[count p] l]. pose proof (argument_array_spec clone_argument _ k count p l Ha (clone_steps l (proj1 Ha))) as Hc.
  destruct (argument_array clone_argument k count p l) as [[[]|r| |] [[[count' q] l'] k1]]; try done.
  - destruct Hc as (A1 & A2 & [A3 A4 A5]). unfold reset_type_arguments. destruct (reset_array_spec k1 _ _ _ Ht) as (k2 & E2 & L2).
    rewrite E2, Ret_bind. simpl. split; [by split|]. split; [done|]. split; [by apply erase_map|]. split; [done|]. split; [done|]. by rewrite L2, A5.
  - by destruct Hc as (-> & _ & L).
Qed.

Lemma assign_method_spec k c source : context_ok c -> (forall c, source = Some c -> context_ok c) ->
  assign_post k (array_buffers (method_args c) (method_contents c)) (map erase (method_array source).2) c methods_array typed_array
    (zaclr_generic_context_assign_method_args k c source).
Proof.
  intros [Ht Hm] Hs. pose proof (method_array_ok source Hs) as Ha. unfold zaclr_generic_context_assign_method_args, clone_argument_array.
  destruct (method_array source) as [[count p] l]. pose proof (argument_array_spec clone_argument _ k count p l Ha (clone_steps l (proj1 Ha))) as Hc.
  destruct (argument_array clone_argument k count p l) as [[[]|r| |] [[[count' q] l'] k1]]; try done.
  - destruct Hc as (A1 & A2 & [A3 A4 A5]). unfold reset_method_arguments. destruct (reset_array_spec k1 _ _ _ Hm) as (k2 & E2 & L2).
    rewrite E2, Ret_bind. simpl. split; [by split|]. split; [done|]. split; [by apply erase_map|]. split; [done|]. split; [done|]. by rewrite L2, A5.
  - by destruct Hc as (-> & _ & L).
Qed.

End heap.

(** ** Substitution on trees *)

(** The variables of a tree are replaced by the arguments of the context; a variable
    the context has no argument for stays.  A context without type arguments offers
    its method arguments for type variables. *)
Fixpoint subst (s : option zaclr_generic_context) a : zaclr_generic_argument :=
  match replacement a s with
  | Some (Some b) => erase b
  | Some None => zero_argument
  | None =>
    match a with
    | mk_argument kind et res token asm i n p l =>
      if negb (kind =? ZACLR_GENERIC_ARGUMENT_KIND_GENERIC_INST) || (n =? 0) || (p =? 0) then erase a
      else mk_argument kind et res token asm i n 1 (map (subst s) l)
    end
  end.

Lemma replacement_found a s r : argument_ok a -> (forall c, s = Some c -> context_ok c) -> replacement a s = Some r ->
  exists b, r = Some b /\ argument_ok b.
Proof.
  intros Ha Hs Hr. destruct s as [c|]; [|done]. destruct (Hs c eq_refl) as [(Ht & Htc & _) (Hm & Hmc & _)].
  assert (0 <= ga_index a) as Hi by (by destruct Ha).
  assert (forall l, Forall argument_ok l -> ga_index a < zlength l -> exists b, l .@ (ga_index a) = Some b /\ argument_ok b) as Hget.
  { intros l Hl Hlt. destruct (get_Some l (ga_index a)) as [b Hb]; [lia|]. exists b. split; [done|].
    rewrite Forall_forall in Hl. apply Hl. by eapply get_In. }
  unfold replacement in Hr.
  repeat match type of Hr with
  | (if ?t then _ else _) = _ => destruct t eqn:?; [injection Hr as <-; apply Hget; [done|]; bool_cases; lia|]
  end. done.
Qed.

Section substitution.
Context {K : Type} `{KernelHeapLaws K} (s : option zaclr_generic_context) (Hs : forall c, s = Some c -> context_ok c).

Lemma subst_map l l' : Forall2 (fun a b => erase b = subst s a) l l' -> map erase l' = map (subst s) l.
Proof. induction 1; simpl; congruence. Qed.

Lemma substitute_argument_spec a : argument_ok a -> forall k : K,
  step_post (fun b => erase b = subst s a) k (substitute_argument s k a).
Proof.
  induction a as [kind et res token asm i n p l IH] using argument_rect. intros Hok k. cbn [substitute_argument subst].
  destruct (replacement _ s) as [r|] eqn:Er.
  { destruct (replacement_found _ _ _ Hok Hs Er) as (b & -> & Hb). by apply clone_argument_spec. }
  destruct (negb _ || _ || _) eqn:Et; [by apply clone_argument_spec|].
  inversion Hok as [? ? ? ? ? ? Hi|? ? ? ? ? ? ? ? Hi Hp Hne Hl]; subst; [by rewrite orb_true_r in Et|].
  pose proof (zlength_pos l Hne). pose proof (allocate_spec k (zlength l) ltac:(lia)) as Ha.
  destruct (allocate_arguments k (zlength l)) as [[q|r| |] k1]; try done; [|by destruct Ha]. destruct Ha as [Hq Hf1]. rewrite to_nat_zlength.
  assert (Forall (fun a => forall k, step_post (fun b => erase b = subst s a) k (substitute_argument s k a)) l) as Hst.
  { rewrite Forall_forall in IH, Hl |- *. intros a Ha. by apply IH, Hl. }
  pose proof (each_spec (substitute_argument s) (fun a b => erase b = subst s a) l Hst k1) as He.
  destruct (each (substitute_argument s) k1 (length l) l) as [[[]|r| |] [[written rest] k2]]; try done.
  - destruct He as (A1 & A2 & A3). assert (zlength written = zlength l) as El by (unfold zlength; by rewrite (Forall2_length _ _ _ A2)).
    split; [|split].
    + rewrite <- El. apply inst_ok; [done..| |done]. intros ->. apply Forall2_nil_inv_r in A2. done.
    + cbn [erase]. rewrite (subst_map _ _ A2). by rewrite (proj2 (Z.eqb_neq q 0)).
    + cbn [buffers]. rewrite (proj2 (Z.eqb_neq q 0)) by done. by apply (fresh_app k [q] k1).
  - destruct He as (-> & A1 & A2 & A3 & A4 & A5). unfold after_cleanup.
    assert (written ++ rest <> []) as Hwr by (intros E; rewrite E in A4; by destruct l).
    destruct (reset_argument_spec (mk_argument kind et res token asm i (zlength l) q (written ++ rest))) with k2 as (k3 & E3 & L3).
    { replace (zlength l) with (zlength (written ++ rest)) by (unfold zlength; lia). apply inst_ok; [done..|]. by apply Forall_app. }
    rewrite E3. split; [done|]. split; [done|]. rewrite L3. cbn [buffers]. rewrite (proj2 (Z.eqb_neq q 0)) by done.
    change (concat (map buffers (written ++ rest))) with (all_buffers (written ++ rest)). rewrite all_buffers_app, A3, app_nil_r.
    destruct Hf1 as [_ F1 L1]. destruct A5 as [_ F2 L2]. rewrite L2, L1. apply set_eq. intros x. specialize (F1 x). specialize (F2 x).
    rewrite L1 in F2. set_unfold. destruct (decide (x = q)); naive_solver.
Qed.

End substitution.

(** ** Laws of substitution *)

Lemma map_eq_Forall {A B} (f g : A -> B) (l : list A) : Forall (fun x => f x = g x) l -> map f l = map g l.
Proof. induction 1; simpl; congruence. Qed.

Lemma pointer_bit (p : Z) : ((if p =? 0 then 0 else 1) =? 0) = (p =? 0).
Proof. by destruct (p =? 0). Qed.

Lemma erase_idem a : erase (erase a) = erase a.
Proof.
  induction a as [kind et res token asm i n p l IH] using argument_rect. cbn [erase]. rewrite pointer_bit, map_map.
  by rewrite (map_eq_Forall _ _ l IH).
Qed.

Definition is_variable a : bool :=
  (ga_kind a =? ZACLR_GENERIC_ARGUMENT_KIND_TYPE_VAR) || (ga_kind a =? ZACLR_GENERIC_ARGUMENT_KIND_METHOD_VAR).

(** Only instantiations have nested arguments. *)
Fixpoint proper a : Prop :=
  match a with
  | mk_argument kind _ _ _ _ _ _ _ l =>
    (kind = ZACLR_GENERIC_ARGUMENT_KIND_GENERIC_INST \/ l = []) /\ fold_right (fun a P => proper a /\ P) True l
  end.

(** An environment: the trees of the type and of the method arguments. *)
Definition env : Type := list zaclr_generic_argument * list zaclr_generic_argument.
Implicit Types (e : env).

Definition lookup_variable e a : option zaclr_generic_argument :=
  if ga_kind a =? ZACLR_GENERIC_ARGUMENT_KIND_TYPE_VAR then (match e.1 with [] => e.2 | l => l end) .@ (ga_index a)
  else if ga_kind a =? ZACLR_GENERIC_ARGUMENT_KIND_METHOD_VAR then e.2 .@ (ga_index a) else None.

(** Substitution, on trees alone. *)
Fixpoint instantiate e a : zaclr_generic_argument :=
  match lookup_variable e a with
  | Some b => b
  | None => let 'mk_argument kind et res token asm i n p l := a in mk_argument kind et res token asm i n p (map (instantiate e) l)
  end.

Definition env_of (s : option zaclr_generic_context) : env := match s with Some c => erase_context c | None => ([], []) end.

Lemma get_map {A B} (f : A -> B) (l : list A) i : map f l .@ i = f <$> l .@ i.
Proof. unfold get. case_if; [done|]. apply list_lookup_fmap. Qed.

Lemma fold_right_Forall {A} (P : A -> Prop) (l : list A) : fold_right (fun y Q => P y /\ Q) True l <-> Forall P l.
Proof. induction l as [|x l IH]; simpl; [split; [constructor|done]|]. rewrite Forall_cons, IH. done. Qed.

Lemma lookup_not_variable e a : is_variable a = false -> lookup_variable e a = None.
Proof. unfold is_variable, lookup_variable. intros Hv. apply orb_false_iff in Hv as [E1 E2]. by rewrite E1, E2. Qed.

(** The lookup of the code is that of the environment. *)
Lemma array_lookup count p l i : array_ok count p l -> 0 <= i ->
  (if negb (p =? 0) && (i <? count) then Some (l .@ i) else None) = Some <$> (l .@ i) /\ ((p =? 0) || (count =? 0)) = bool_decide (l = []).
Proof.
  intros (_ & -> & Hp) Hi. destruct (Z.eqb_spec p 0) as [->|Hp0]; cbn [negb andb orb].
  { assert (l = []) as -> by (by apply Hp). by rewrite get_nil. }
  split.
  - destruct (Z.ltb_spec i (zlength l)) as [Hlt|Hge]; [|by rewrite get_None].
    destruct (get_Some l i) as [x Hx]; [lia|]. by rewrite Hx.
  - assert (l <> []) as Hne by naive_solver. rewrite bool_decide_false by done. apply Z.eqb_neq. pose proof (zlength_pos l Hne). lia.
Qed.

Lemma replacement_lookup a s : argument_ok a -> (forall c, s = Some c -> context_ok c) ->
  (fmap (M := option) erase <$> replacement a s) = Some <$> lookup_variable (env_of s) (erase a).
Proof.
  intros Ha Hs. assert (0 <= ga_index a) as Hi by (by destruct Ha).
  assert (lookup_variable (env_of s) (erase a) = lookup_variable (env_of s) a) as -> by (by destruct a).
  unfold replacement, lookup_variable. destruct s as [c|]; [|by simpl; rewrite get_nil; repeat case_if].
  destruct (Hs c eq_refl) as [Ht Hm]. destruct (array_lookup _ _ _ _ Ht Hi) as [Lt Et]. destruct (array_lookup _ _ _ _ Hm Hi) as [Lm _].
  cbn [env_of erase_context fst snd]. rewrite get_map, Et.
  destruct (Z.eqb_spec (ga_kind a) ZACLR_GENERIC_ARGUMENT_KIND_TYPE_VAR) as [->|_]; cbn [andb].
  - destruct (type_contents c) as [|x l] eqn:El.
    + rewrite get_nil in Lt. cbn [map]. rewrite get_map. destruct (negb (type_args c =? 0) && (_ <? _)); [done|].
      change (bool_decide (@nil zaclr_generic_argument = [])) with true. cbn [andb]. destruct (negb (method_args c =? 0) && (_ <? _)).
      * by destruct (method_contents c .@ (ga_index a)).
      * change (ZACLR_GENERIC_ARGUMENT_KIND_TYPE_VAR =? ZACLR_GENERIC_ARGUMENT_KIND_METHOD_VAR) with false. by destruct (method_contents c .@ (ga_index a)).
    + cbn [map]. rewrite <- map_cons, get_map. rewrite bool_decide_false by done. cbn [andb].
      change (ZACLR_GENERIC_ARGUMENT_KIND_TYPE_VAR =? ZACLR_GENERIC_ARGUMENT_KIND_METHOD_VAR) with false.
      destruct (negb (type_args c =? 0) && (_ <? _)); by destruct ((x :: l) .@ (ga_index a)).
  - destruct (Z.eqb_spec (ga_kind a) ZACLR_GENERIC_ARGUMENT_KIND_METHOD_VAR) as [_|_]; cbn [andb]; [|done].
    destruct (negb (method_args c =? 0) && (_ <? _)); by destruct (method_contents c .@ (ga_index a)).
Qed.

Lemma instantiate_leaf e a : lookup_variable e a = None -> (let 'mk_argument _ _ _ _ _ _ _ _ l := a in l = []) -> instantiate e a = a.
Proof. destruct a. cbn [instantiate]. by intros -> ->. Qed.

Lemma subst_instantiate a s : argument_ok a -> proper a -> (forall c, s = Some c -> context_ok c) ->
  subst s a = instantiate (env_of s) (erase a).
Proof.
  intros Ha Hp Hs. revert Ha Hp. induction a as [kind et res token asm i n p l IH] using argument_rect. intros Ha [Hk Hp].
  pose proof (replacement_lookup _ s Ha Hs) as Hr. cbn [subst]. destruct (replacement _ s) as [r|] eqn:Er.
  { destruct (lookup_variable _ _) as [b|] eqn:El; [|done]. destruct r as [b'|]; [|done]. injection Hr as <-.
    cbn [erase] in El |- *. cbn [instantiate]. by rewrite El. }
  destruct (lookup_variable _ _) as [b|] eqn:El; [done|]. cbn [erase] in El |- *.
  destruct (negb _ || _ || _) eqn:Et.
  { symmetry. apply instantiate_leaf; [done|]. inversion Ha as [| ? ? ? ? ? ? ? ? Hi Hq Hne Hl]; subst; [done|].
    destruct Hk as [-> | ->]; [|done]. pose proof (zlength_pos l Hne). bool_cases; lia || done. }
  cbn [instantiate]. rewrite El. assert ((p =? 0) = false) as -> by (by destruct (p =? 0); [rewrite orb_true_r in Et|]).
  rewrite map_map. f_equal. apply map_eq_Forall. apply fold_right_Forall in Hp.
  inversion Ha as [| ? ? ? ? ? ? ? ? Hi Hq Hne Hl]; subst; [done|]. rewrite Forall_forall in *. auto.
Qed.

(** Every variable of the tree is bound. *)
Fixpoint bound_in e a : Prop :=
  match a with
  | mk_argument _ _ _ _ _ _ _ _ l =>
    (is_variable a = true -> exists b, lookup_variable e a = Some b) /\ fold_right (fun a P => bound_in e a /\ P) True l
  end.
Fixpoint closed a : Prop :=
  match a with
  | mk_argument _ _ _ _ _ _ _ _ l => is_variable a = false /\ fold_right (fun a P => closed a /\ P) True l
  end.

(** [e], then [e']. *)
Definition compose e e' : env := (map (instantiate e') e.1, map (instantiate e') e.2).

Lemma lookup_compose e e' a : lookup_variable (compose e e') a = instantiate e' <$> lookup_variable e a.
Proof.
  unfold lookup_variable, compose. destruct e as [[|x ts] ms]; cbn [fst snd map]; rewrite ?get_map; repeat case_if; try done.
  by rewrite <- map_cons, get_map.
Qed.

Lemma instantiate_composes e e' a : bound_in e a -> instantiate e' (instantiate e a) = instantiate (compose e e') a.
Proof.
  induction a as [kind et res token asm i n p l IH] using argument_rect. intros [Hv Hb]. cbn [instantiate]. rewrite lookup_compose.
  destruct (lookup_variable e _) as [b|] eqn:El; [done|]. cbn [fmap option_fmap option_map instantiate].
  destruct (is_variable (mk_argument kind et res token asm i n p l)) eqn:Ev; [by destruct (Hv eq_refl)|].
  rewrite (lookup_not_variable e' (mk_argument kind et res token asm i n p _)) by exact Ev.
  rewrite map_map. f_equal. apply map_eq_Forall. apply fold_right_Forall in Hb. rewrite Forall_forall in *. auto.
Qed.

Lemma instantiate_closed e a : Forall closed e.1 -> Forall closed e.2 -> bound_in e a -> closed (instantiate e a).
Proof.
  intros Ht Hm. induction a as [kind et res token asm i n p l IH] using argument_rect. intros [Hv Hb]. cbn [instantiate].
  destruct (lookup_variable e _) as [b|] eqn:El.
  { unfold lookup_variable in El. rewrite Forall_forall in Ht, Hm. revert El. destruct e as [[|x ts] ms]; repeat case_if; intros El; try done;
      apply get_In in El; auto. }
  split; [destruct (is_variable _) eqn:Ev; [by destruct (Hv eq_refl)|done]|].
  apply fold_right_Forall. apply fold_right_Forall in Hb. rewrite Forall_forall in *. intros b Hin.
  apply list_elem_of_In, in_map_iff in Hin as (x & <- & Hx). apply list_elem_of_In in Hx. auto.
Qed.

(** ** Reading instantiations is safe *)

Section parsing.
Context {K : Type} `{KernelHeapLaws K} (resolve : Z -> zaclr_token -> outcome Z).
(** The lookup of a type answers or reports a status. *)
Context (Hresolve : forall assembly token, safe (resolve assembly token)).
Context (m : memory) (blob : zaclr_slice) (Hblob : blob_ok m blob) (current : Z).
Implicit Types (k : K).

Lemma decode_uint_safe off : 0 <= off ->
  safe_post (decode_compressed_uint m blob off) (fun '(v, off') => 0 <= v < 2 ^ 29 /\ off < off' <= sl_size blob).
Proof. intros Ho. unfold decode_compressed_uint. destruct (sl_data blob); [|done]. by apply decode_compressed_uint_post. Qed.

Lemma decode_token_safe off : 0 <= off ->
  safe_post (decode_type_def_or_ref_token m blob off) (fun '(_, off') => off < off' <= sl_size blob).
Proof.
  intros Ho. unfold decode_type_def_or_ref_token. step; [by apply decode_uint_safe|]. intros [v off'] _ Hv.
  cbv beta iota in Hv. apply (safe_post_bind _ _ (fun _ => True)); [by repeat case_if|]. intros t _ _. simpl. lia.
Qed.

Lemma resolve_safe token : safe_post (resolve_argument_assembly resolve current token) (fun _ => True).
Proof.
  unfold resolve_argument_assembly. case_if; [done|]. destruct (Hresolve current token) as [Hf Hn].
  destruct (resolve current token); try done. by case_if.
Qed.

(** A leaf owns nothing, the count of an instantiation is a compressed integer. *)
Definition head_ok (h : decoded_head) : Prop :=
  match h with Leaf a => argument_ok a /\ buffers a = [] | Inst _ _ _ n => 0 <= n < 2 ^ 29 end.

Lemma decode_head_safe off : 0 <= off ->
  safe_post (decode_head resolve m blob current off) (fun '(h, off') => head_ok h /\ off < off' <= sl_size blob).
Proof.
  intros Ho. unfold decode_head. destruct (Z.leb_spec (sl_size blob) off); [done|].
  destruct (blob_ok_data m blob off Hblob) as (d & Hd & Hd0 & Hdl); [lia|]. pose proof (proj2 Hblob). rewrite Hd. simpl deref.
  step; [simpl; exact I|]. intros ? [= <-] _. step; [apply read_u8_post; lia|]. intros et _ _. rewrite (u32_id (off + 1)) by lia.
  case_if; [simpl; split; [split; [by constructor|done]|lia]|]. case_if.
  { step; [apply decode_token_safe; lia|]. intros [t o1] _ Ho1. cbv beta iota in Ho1. step; [apply resolve_safe|]. intros asm _ _.
    simpl. split; [split; [by constructor|done]|lia]. }
  case_if.
  { destruct (Z.leb_spec (sl_size blob) (off + 1)); [done|]. step; [apply read_u8_post; lia|]. intros owner _ _. case_if; [done|].
    rewrite u32_id by lia. step; [apply decode_token_safe; lia|]. intros [t o1] _ Ho1. cbv beta iota in Ho1.
    step; [apply resolve_safe|]. intros asm _ _. step; [apply decode_uint_safe; lia|]. intros [n o2] _ [Hn Ho2]. simpl. lia. }
  case_if; [|done]. step; [apply decode_uint_safe; lia|]. intros [i o1] _ [Hi Ho1]. simpl. split; [split; [constructor; lia|done]|lia].
Qed.

Definition decode_post k off (x : outcome unit * (zaclr_generic_argument * Z * K)) : Prop :=
  match x with
  | (Ret _, (a, off', k')) => argument_ok a /\ fresh_blocks k (buffers a) k' /\ off < off' <= sl_size blob
  | (Err r, (a, off', k')) => a = zero_argument /\ live k' = live k
  | _ => False
  end.

Lemma decode_loop_spec decode bound n k off : 0 <= off -> bound <= off -> off <= sl_size blob ->
  (forall k off, bound <= off <= sl_size blob -> decode_post k off (decode k off)) ->
  match decode_loop decode k n off with
  | (Ret _, (written, rest, off', k')) =>
    Forall argument_ok written /\ length written = n /\ fresh_blocks k (all_buffers written) k' /\ off <= off' <= sl_size blob
  | (Err r, (written, rest, off', k')) =>
    Forall argument_ok written /\ Forall argument_ok rest /\ all_buffers rest = [] /\
    length (written ++ rest) = n /\ fresh_blocks k (all_buffers written) k'
  | _ => False
  end.
Proof.
  intros H0' Hb Hsz Hd. revert k off H0' Hb Hsz. induction n as [|n IH]; intros k off H0' Hb Hsz.
  { simpl. split_and!; try done. apply fresh_nil. }
  cbn [decode_loop]. pose proof (Hd k off ltac:(lia)) as Ha. destruct (decode k off) as [[[]|r| |] [[a o1] k1]]; try done.
  - destruct Ha as (Hok & Hf & Ho1). specialize (IH k1 o1 ltac:(lia) ltac:(lia) ltac:(lia)).
    destruct (decode_loop decode k1 n o1) as [[[]|r| |] [[[written rest] o2] k2]]; try done.
    + destruct IH as (A1 & A2 & A3 & A4). split_and!; try lia; [by constructor|simpl; lia|rewrite all_buffers_cons; by eapply fresh_app].
    + destruct IH as (A1 & A2 & A3 & A4 & A5). split_and!; try done; [by constructor|simpl; lia|rewrite all_buffers_cons; by eapply fresh_app].
  - destruct Ha as (-> & Hl).
    assert (all_buffers (zero_argument :: replicate n zero_argument) = []) as E by (clear; induction n; done).
    split_and!; try done; [|simpl; by rewrite length_replicate|].
    + constructor; [apply zero_ok|]. apply Forall_replicate, zero_ok.
    + split; [constructor|set_solver|]. rewrite Hl. set_solver.
Qed.

(** A failed instantiation gives back its array and the arguments read so far. *)
Lemma inst_cleanup k q k1 written rest k2 kind et res token asm i n : q <> 0 -> 0 <= i -> n = zlength (written ++ rest) -> 0 < n ->
  fresh_blocks k [q] k1 -> Forall argument_ok written -> Forall argument_ok rest -> all_buffers rest = [] ->
  fresh_blocks k1 (all_buffers written) k2 ->
  exists k3, reset_argument k2 (mk_argument kind et res token asm i n q (written ++ rest)) = Ret k3 /\ live k3 = live k.
Proof.
  intros Hq Hi -> Hn [N1 F1 L1] A1 A2 A3 [N2 F2 L2].
  destruct (reset_argument_spec (mk_argument kind et res token asm i (zlength (written ++ rest)) q (written ++ rest))) with k2 as (k3 & E3 & L3).
  { apply inst_ok; [done..| |by apply Forall_app]. intros E. rewrite E in Hn. done. }
  exists k3. split; [done|]. rewrite L3. cbn [buffers]. rewrite (proj2 (Z.eqb_neq q 0)) by done.
  change (concat (map buffers (written ++ rest))) with (all_buffers (written ++ rest)). rewrite all_buffers_app, A3, app_nil_r, L2, L1.
  apply set_eq. intros x. specialize (F1 x). specialize (F2 x). rewrite L1 in F2. set_unfold. destruct (decide (x = q)); naive_solver.
Qed.

Lemma decode_argument_spec fuel k off : 0 <= off <= sl_size blob -> sl_size blob - off < Z.of_nat fuel ->
  decode_post k off (decode_instantiation_argument resolve fuel m blob current k off).
Proof.
  revert k off. induction fuel as [|fuel IH]; intros k off Ho Hf; [lia|]. cbn [decode_instantiation_argument].
  pose proof (decode_head_safe off ltac:(lia)) as Hh.
  destruct (decode_head resolve m blob current off) as [[[a|et token asm n] o1]|r| |]; try done.
  { destruct Hh as [[Hok Hb] Ho1]. split; [done|]. split; [|done]. rewrite Hb. apply fresh_nil. }
  destruct Hh as [Hn Ho1]. simpl in Hn. destruct (Z.eq_dec n 0) as [->|Hn0].
  { simpl. split; [by constructor|]. split; [apply fresh_nil|done]. }
  pose proof (allocate_spec k n Hn0) as Ha. destruct (allocate_arguments k n) as [[q|r| |] k1]; try done; [|by destruct Ha].
  destruct Ha as [Hq Hf1].
  pose proof (decode_loop_spec (decode_instantiation_argument resolve fuel m blob current) o1 (Z.to_nat n) k1 o1
    ltac:(lia) ltac:(lia) ltac:(lia) ltac:(intros; apply IH; lia)) as Hloop.
  destruct (decode_loop _ k1 (Z.to_nat n) o1) as [[[]|r| |] [[[written rest] o2] k2]]; try done.
  - destruct Hloop as (A1 & A2 & A3 & A4). assert (n = zlength written) as En by (unfold zlength; lia). split; [|split; [|lia]].
    + rewrite En. apply inst_ok; try done. intros ->. done.
    + cbn [buffers]. rewrite (proj2 (Z.eqb_neq q 0)) by done. by apply (fresh_app k [q] k1).
  - destruct Hloop as (A1 & A2 & A3 & A4 & A5). unfold after_cleanup.
    destruct (inst_cleanup k q k1 written rest k2 ZACLR_GENERIC_ARGUMENT_KIND_GENERIC_INST et 0 (raw token) asm 0 n) as (k3 & E3 & L3);
      try done; [unfold zlength; lia|lia|]. by rewrite E3.
Qed.

(** What the parser promises on any blob.  A failure frees the new array and loses
    nothing the heap held; the arrays of arguments already read may stay behind. *)
Lemma parse_spec k :
  match parse_instantiation_arguments resolve m current k blob with
  | (Ret _, (count, q, l, k')) => array_ok count q l /\ fresh_blocks k (array_buffers q l) k'
  | (Err r, (count, q, l, k')) => (count, q, l) = (0, 0, []) /\ live k ⊆ live k'
  | _ => False
  end.
Proof.
  unfold parse_instantiation_arguments. assert (array_ok 0 0 []) as H00 by (by repeat split).
  destruct (sl_data blob) as [d|] eqn:Hd; [|split; [done|apply fresh_nil]].
  destruct (Z.eqb_spec (sl_size blob) 0) as [?|?]; [split; [done|apply fresh_nil]|].
  pose proof Hblob as [[Hs0 Hs] Hs31]. rewrite Hd in Hs.
  assert (safe_post (marker ← read_u8 m d; if negb (marker =? 0x0A) then Err bad_metadata else decode_compressed_uint m blob 1)
    (fun '(v, off') => 0 <= v < 2 ^ 29 /\ 1 < off' <= sl_size blob)) as Hhead.
  { step; [apply read_u8_post; lia|]. intros b _ _. case_if; [done|]. by apply decode_uint_safe. }
  destruct (_ ≫= _) as [[count o1]|r| |]; try done. destruct Hhead as [Hn Ho1].
  destruct (Z.eq_dec count 0) as [->|Hn0]; [simpl; split; [done|apply fresh_nil]|].
  pose proof (allocate_spec k count Hn0) as Ha. destruct (allocate_arguments k count) as [[q|r| |] k1]; try done.
  2: { destruct Ha as [_ L]. split; [done|]. by rewrite L. }
  destruct Ha as [Hq Hf1].
  pose proof (decode_loop_spec (decode_instantiation_argument resolve (blob_fuel blob) m blob current) o1 (Z.to_nat count) k1 o1
    ltac:(lia) ltac:(lia) ltac:(lia) ltac:(intros; apply decode_argument_spec; unfold blob_fuel; lia)) as Hloop.
  destruct (decode_loop _ k1 (Z.to_nat count) o1) as [[[]|r| |] [[[written rest] o2] k2]]; try done.
  - destruct Hloop as (A1 & A2 & A3 & A4). split.
    + split; [done|]. split; [unfold zlength; lia|]. split; [done|]. intros ->. simpl in A2. lia.
    + unfold array_buffers. rewrite (proj2 (Z.eqb_neq q 0)) by done. by apply (fresh_app k [q] k1).
  - destruct Hloop as (A1 & A2 & A3 & A4 & A5). split; [done|]. rewrite free_spec. destruct Hf1 as [_ F1 L1]. destruct A5 as [_ _ L2].
    rewrite L2, L1. specialize (F1 q). set_solver.
Qed.

(** ** Instantiations are read back *)

Context (resolved : zaclr_token -> Z) (Hresolved : forall token, resolve_argument_assembly resolve current token = Ret (resolved token)).

Definition coded_table (coded : Z) : Z :=
  if Z.land coded 3 =? 0 then ZACLR_TOKEN_TABLE_TYPEDEF
  else if Z.land coded 3 =? 1 then ZACLR_TOKEN_TABLE_TYPEREF else ZACLR_TOKEN_TABLE_TYPESPEC.
Definition token_of (coded : Z) : zaclr_token :=
  zaclr_token_make (Z.lor (Z.shiftl (coded_table coded) 24) (Z.shiftr coded 2)).

Definition coded_ok (coded : Z) : bool := is_uint29 coded && negb (Z.land coded 3 =? 3).

(** The type arguments the runtime supports. *)
Fixpoint supported (t : sig_type) : bool :=
  match t with
  | TPrim e => is_primitive e
  | TNamed _ coded => coded_ok coded
  | TVar _ i => is_uint29 i
  | TInst _ coded l => coded_ok coded && is_uint29 (zlength l) && forallb supported l
  | _ => false
  end.

(** The tree of a type argument, without addresses. *)
Fixpoint tree_of (t : sig_type) : zaclr_generic_argument :=
  match t with
  | TPrim e => primitive_argument e current
  | TNamed vt coded => concrete_argument (named_code vt) (token_of coded) (resolved (token_of coded))
  | TVar mv i => variable_argument (if mv then ZACLR_ELEMENT_TYPE_MVAR else ZACLR_ELEMENT_TYPE_VAR) current i
  | TInst vt coded l =>
    mk_argument ZACLR_GENERIC_ARGUMENT_KIND_GENERIC_INST (named_code vt) 0 (raw (token_of coded)) (resolved (token_of coded)) 0
      (zlength l) (if bool_decide (l = []) then 0 else 1) (map tree_of l)
  | _ => zero_argument
  end.

Definition head_of (t : sig_type) : decoded_head :=
  match t with
  | TInst vt coded l => Inst (named_code vt) (token_of coded) (resolved (token_of coded)) (zlength l)
  | t => Leaf (tree_of t)
  end.

(** The bytes of [t] before its arguments. *)
Definition encode_head (t : sig_type) : list byte :=
  match t with
  | TInst vt coded l =>
    byte_of_Z ZACLR_ELEMENT_TYPE_GENERICINST :: byte_of_Z (named_code vt) :: encode_uint coded ++ encode_uint (zlength l)
  | t => encode_type t
  end.
Definition arguments_of (t : sig_type) : list sig_type := match t with TInst _ _ l => l | _ => [] end.

Lemma encode_split t : supported t = true -> encode_type t = encode_head t ++ concat (map encode_type (arguments_of t)).
Proof. destruct t; try done; simpl; intros _; rewrite ?app_nil_r; try done. by rewrite <- !app_assoc. Qed.

Context (d : Z) (Hd : sl_data blob = Some d).

Lemma decode_uint_encoded off v : 0 <= off -> is_uint29 v = true -> seg m (d + off) (encode_uint v) ->
  off + zlength (encode_uint v) <= sl_size blob -> decode_compressed_uint m blob off = Ret (v, off + zlength (encode_uint v)).
Proof. intros Ho Hv Hs Hl. unfold decode_compressed_uint. rewrite Hd. by apply (decode_encode_uint m blob d). Qed.

Lemma decode_token_encoded off coded : 0 <= off -> coded_ok coded = true -> seg m (d + off) (encode_uint coded) ->
  off + zlength (encode_uint coded) <= sl_size blob ->
  decode_type_def_or_ref_token m blob off = Ret (token_of coded, off + zlength (encode_uint coded)).
Proof.
  intros Ho Hc Hs Hl. unfold coded_ok in Hc. apply andb_true_iff in Hc as [Hu Ht]. unfold decode_type_def_or_ref_token.
  rewrite (decode_uint_encoded off coded) by done. rewrite Ret_bind. unfold token_of, coded_table.
  assert (0 <= Z.land coded 3 < 4) as Hr by (change 3 with (Z.ones 2); apply (land_le_ones coded 2); lia). bool_cases.
  destruct (Z.eqb_spec (Z.land coded 3) 0); [done|]. destruct (Z.eqb_spec (Z.land coded 3) 1); [done|].
  destruct (Z.eqb_spec (Z.land coded 3) 2); [done|lia].
Qed.

Lemma primitive_range (e : Z) : is_primitive e = true -> 0 <= e < 256.
Proof. unfold is_primitive. cbn [existsb]. rewrite !orb_true_iff, !Z.eqb_eq. unfold ZACLR_ELEMENT_TYPE_BOOLEAN, ZACLR_ELEMENT_TYPE_CHAR,
  ZACLR_ELEMENT_TYPE_I1, ZACLR_ELEMENT_TYPE_U1, ZACLR_ELEMENT_TYPE_I2, ZACLR_ELEMENT_TYPE_U2, ZACLR_ELEMENT_TYPE_I4, ZACLR_ELEMENT_TYPE_U4,
  ZACLR_ELEMENT_TYPE_I8, ZACLR_ELEMENT_TYPE_U8, ZACLR_ELEMENT_TYPE_R4, ZACLR_ELEMENT_TYPE_R8, ZACLR_ELEMENT_TYPE_STRING,
  ZACLR_ELEMENT_TYPE_OBJECT, ZACLR_ELEMENT_TYPE_I, ZACLR_ELEMENT_TYPE_U. intuition lia. Qed.

(** The first byte of an argument. *)
Lemma head_byte off (e : Z) rest : 0 <= off -> 0 <= e < 256 -> seg m (d + off) (byte_of_Z e :: rest) -> off + zlength (byte_of_Z e :: rest) <= sl_size blob ->
  off < sl_size blob /\ read_u8 m (d + off) = Ret e /\ u32 (off + 1) = off + 1 /\ seg m (d + (off + 1)) rest /\
  off + 1 + zlength rest <= sl_size blob.
Proof.
  intros Ho He Hs Hl. rewrite zlength_cons in Hl. pose proof (zlength_nonneg rest). pose proof (proj2 Hblob).
  split; [lia|]. split; [by rewrite (seg_read_u8 _ _ _ _ Hs), byte_Z_of_Z, u8_id|]. split; [by apply u32_id; lia|].
  apply seg_cons in Hs as [_ Hs]. rewrite Z.add_assoc. split; [done|lia].
Qed.

Lemma head_encoded t off : supported t = true -> 0 <= off -> seg m (d + off) (encode_head t) ->
  off + zlength (encode_head t) <= sl_size blob ->
  decode_head resolve m blob current off = Ret (head_of t, off + zlength (encode_head t)).
Proof.
  intros Ht Ho Hs Hl. unfold decode_head. rewrite Hd. change (deref (Some d)) with (Ret d : outcome Z).
  destruct t as [e|vt coded|mv i| | |vt coded args| |]; try done; cbn [encode_head encode_type supported] in Ht, Hs, Hl.
  - destruct (head_byte off e [] Ho (primitive_range e Ht) Hs Hl) as (H1 & H2 & H3 & H4 & H5).
    rewrite (proj2 (Z.leb_gt _ _) H1), Ret_bind, H2, Ret_bind, Ht, H3. done.
  - destruct (head_byte off (named_code vt) _ Ho ltac:(by destruct vt) Hs Hl) as (H1 & H2 & H3 & H4 & H5).
    rewrite (proj2 (Z.leb_gt _ _) H1), Ret_bind, H2, Ret_bind, H3. 
    assert (is_primitive (named_code vt) = false) as -> by (by destruct vt).
    assert ((named_code vt =? ZACLR_ELEMENT_TYPE_CLASS) || (named_code vt =? ZACLR_ELEMENT_TYPE_VALUETYPE) = true) as -> by (by destruct vt).
    rewrite (decode_token_encoded (off + 1) coded) by (done || lia). rewrite Ret_bind. cbv beta iota. rewrite Hresolved, Ret_bind.
    cbn [head_of tree_of encode_head encode_type]. rewrite zlength_cons. do 2 f_equal. lia.
  - set (e := if mv then _ else _) in *. destruct (head_byte off e _ Ho ltac:(by destruct mv) Hs Hl) as (H1 & H2 & H3 & H4 & H5).
    rewrite (proj2 (Z.leb_gt _ _) H1), Ret_bind, H2, Ret_bind, H3. 
    assert (is_primitive e = false /\ (e =? ZACLR_ELEMENT_TYPE_CLASS) || (e =? ZACLR_ELEMENT_TYPE_VALUETYPE) = false /\
      (e =? ZACLR_ELEMENT_TYPE_GENERICINST) = false /\ (e =? ZACLR_ELEMENT_TYPE_VAR) || (e =? ZACLR_ELEMENT_TYPE_MVAR) = true)
      as (-> & -> & -> & ->) by (by destruct mv).
    rewrite (decode_uint_encoded (off + 1) i) by (done || lia). rewrite Ret_bind. cbv beta iota.
    cbn [head_of tree_of encode_head encode_type]. fold e. rewrite zlength_cons. do 2 f_equal. lia.
  - rewrite !andb_true_iff in Ht. destruct Ht as [[Hc Hn] Hargs].
    destruct (head_byte off ZACLR_ELEMENT_TYPE_GENERICINST _ Ho ltac:(done) Hs Hl) as (H1 & H2 & H3 & H4 & H5).
    rewrite (proj2 (Z.leb_gt _ _) H1), Ret_bind, H2, Ret_bind, H3.
    change (is_primitive ZACLR_ELEMENT_TYPE_GENERICINST) with false. cbv iota.
    destruct (head_byte (off + 1) (named_code vt) _ ltac:(lia) ltac:(by destruct vt) H4 H5) as (H6 & H7 & H8 & H9 & H10).
    change ((ZACLR_ELEMENT_TYPE_GENERICINST =? ZACLR_ELEMENT_TYPE_CLASS) || (ZACLR_ELEMENT_TYPE_GENERICINST =? ZACLR_ELEMENT_TYPE_VALUETYPE)) with false.
    change (ZACLR_ELEMENT_TYPE_GENERICINST =? ZACLR_ELEMENT_TYPE_GENERICINST) with true. cbv iota.
    rewrite (proj2 (Z.leb_gt _ _) H6), H7, Ret_bind, H8.
    assert (negb (named_code vt =? ZACLR_ELEMENT_TYPE_CLASS) && negb (named_code vt =? ZACLR_ELEMENT_TYPE_VALUETYPE) = false) as -> by (by destruct vt).
    apply seg_app in H9 as [H9 H11]. rewrite zlength_app in H10. pose proof (zlength_nonneg (encode_uint (zlength args))).
    pose proof (zlength_nonneg (encode_uint coded)).
    rewrite (decode_token_encoded _ coded) by (done || lia). rewrite Ret_bind. cbv beta iota. rewrite Hresolved, Ret_bind.
    rewrite (decode_uint_encoded _ (zlength args)); [|lia|done|by rewrite Z.add_assoc|lia].
    rewrite Ret_bind. cbv beta iota. cbn [head_of encode_head]. rewrite !zlength_cons, zlength_app. do 2 f_equal. lia.
Qed.

(** What decoding the argument [t] at [off] promises. *)
Definition encoded_at off t : Prop := 0 <= off /\ seg m (d + off) (encode_type t) /\ off + zlength (encode_type t) <= sl_size blob.
Definition read_post off t (x : outcome unit * (zaclr_generic_argument * Z * K)) : Prop :=
  match x with
  | (Ret _, (a, off', _)) => erase a = tree_of t /\ off' = off + zlength (encode_type t)
  | (Err r, _) => r = out_of_memory
  | _ => False
  end.

Lemma loop_encoded decode off0 (l : list sig_type) : forallb supported l = true ->
  (forall t k off, off0 <= off -> supported t = true -> encoded_at off t -> read_post off t (decode k off)) ->
  forall k off, off0 <= off -> 0 <= off -> seg m (d + off) (concat (map encode_type l)) -> off + zlength (concat (map encode_type l)) <= sl_size blob ->
  match decode_loop decode k (length l) off with
  | (Ret _, (written, _, off', _)) => map erase written = map tree_of l /\ off' = off + zlength (concat (map encode_type l))
  | (Err r, _) => r = out_of_memory
  | _ => False
  end.
Proof.
  intros Hl Hdec. induction l as [|t l IH]; intros k off Hoff0 Hoff Hs Hfit; [simpl; rewrite Z.add_0_r; done|].
  cbn [forallb] in Hl. apply andb_true_iff in Hl as [Ht Hl]. cbn [map concat] in Hs, Hfit. rewrite zlength_app in Hfit.
  apply seg_app in Hs as [Hs1 Hs2]. pose proof (zlength_nonneg (concat (map encode_type l))) as Hp. pose proof (zlength_nonneg (encode_type t)) as Hq.
  cbn [length decode_loop]. pose proof (Hdec t k off Hoff0 Ht ltac:(split; [done|]; split; [done|lia])) as Ha.
  destruct (decode k off) as [[[]|r| |] [[a o1] k1]]; try done. destruct Ha as [Ha ->].
  rewrite <- Z.add_assoc in Hs2. specialize (IH Hl k1 (off + zlength (encode_type t)) ltac:(lia) ltac:(lia) Hs2 ltac:(lia)).
  destruct (decode_loop decode k1 (length l) _) as [[[]|r| |] [[[written rest] o2] k2]]; try done.
  destruct IH as [IH ->]. simpl. rewrite Ha, IH, zlength_app. split; [done|lia].
Qed.

Lemma decode_encoded fuel t k off : supported t = true -> encoded_at off t -> sl_size blob - off < Z.of_nat fuel ->
  read_post off t (decode_instantiation_argument resolve fuel m blob current k off).
Proof.
  revert t k off. induction fuel as [|fuel IH]; intros t k off Ht (Ho & Hs & Hl) Hf; [pose proof (zlength_nonneg (encode_type t)); lia|].
  cbn [decode_instantiation_argument]. unfold read_post. rewrite encode_split, zlength_app in Hl |- * by done. rewrite encode_split in Hs by done.
  apply seg_app in Hs as [Hs1 Hs2]. pose proof (zlength_nonneg (concat (map encode_type (arguments_of t)))) as Hn.
  pose proof (decode_head_safe off Ho) as Hh. rewrite (head_encoded t off) in Hh |- * by (done || lia). simpl in Hh. destruct Hh as [_ Ho1].
  destruct t as [e|vt coded|mv i| | |vt coded args| |]; try done; cbn [head_of]; try (by split; [|cbn [arguments_of map concat]; change (zlength []) with 0; lia]).
  cbn [supported] in Ht. rewrite !andb_true_iff in Ht. destruct Ht as [[Hc Hu] Ha]. set (o1 := off + zlength _) in *. cbn [arguments_of] in *.
  destruct (decide (args = [])) as [->|Hne].
  { cbn. split; [done|]. unfold o1. cbn [encode_head]. unfold zlength. cbn [length]. lia. }
  pose proof (zlength_pos args Hne) as Hpos. pose proof (allocate_spec k (zlength args) ltac:(lia)) as Hq.
  destruct (allocate_arguments k (zlength args)) as [[q|r| |] k1]; try done; [|by destruct Hq]. destruct Hq as [Hq Hf1].
  rewrite to_nat_zlength. rewrite <- Z.add_assoc in Hs2. fold o1 in Hs2.
  pose proof (loop_encoded (decode_instantiation_argument resolve fuel m blob current) o1 args Ha
    ltac:(intros; apply IH; [done|done|lia]) k1 o1 ltac:(lia) ltac:(lia) Hs2 ltac:(lia)) as Hloop.
  pose proof (decode_loop_spec (decode_instantiation_argument resolve fuel m blob current) o1 (length args) k1 o1
    ltac:(lia) ltac:(lia) ltac:(lia) ltac:(intros; apply decode_argument_spec; lia)) as Hsafe.
  destruct (decode_loop _ k1 (length args) o1) as [[[]|r| |] [[[written rest] o2] k2]]; try done.
  - destruct Hloop as [E ->]. split; [|unfold o1; lia]. cbn [erase tree_of]. rewrite E.
    rewrite (proj2 (Z.eqb_neq q 0) Hq), bool_decide_false by done. done.
  - destruct Hsafe as (A1 & A2 & A3 & A4 & A5). unfold after_cleanup.
    destruct (inst_cleanup k q k1 written rest k2 ZACLR_GENERIC_ARGUMENT_KIND_GENERIC_INST (named_code vt) 0 (raw (token_of coded))
      (resolved (token_of coded)) 0 (zlength args)) as (k3 & E3 & L3); try done; [unfold zlength; lia|].
    by rewrite E3.
Qed.

(** The blob of an instantiation of a method, as an assembly stores it. *)
Definition encode_instantiation (l : list sig_type) : list byte := byte_of_Z 0x0A :: encode_uint (zlength l) ++ concat (map encode_type l).

Lemma parse_encoded k (l : list sig_type) : forallb supported l = true -> is_uint29 (zlength l) = true -> seg m d (encode_instantiation l) ->
  sl_size blob = zlength (encode_instantiation l) ->
  match parse_instantiation_arguments resolve m current k blob with
  | (Ret _, (count, _, written, _)) => count = zlength l /\ map erase written = map tree_of l
  | (Err r, _) => r = out_of_memory
  | _ => False
  end.
Proof.
  intros Hl Hu Hs Hsz. unfold parse_instantiation_arguments. rewrite Hd. unfold encode_instantiation in Hs, Hsz.
  rewrite zlength_cons, zlength_app in Hsz. pose proof (zlength_nonneg (concat (map encode_type l))) as H1.
  pose proof (zlength_nonneg (encode_uint (zlength l))) as H2. rewrite (proj2 (Z.eqb_neq (sl_size blob) 0)) by lia.
  rewrite (seg_read_u8 _ _ _ _ Hs), Ret_bind. change (negb _) with false. cbv iota. apply seg_cons in Hs as [_ Hs]. apply seg_app in Hs as [Hs1 Hs2].
  rewrite (decode_uint_encoded 1 (zlength l)) by (done || lia). cbv iota beta. set (o1 := 1 + zlength _) in *.
  destruct (decide (l = [])) as [->|Hne]; [done|].
  pose proof (zlength_pos l Hne) as Hpos. pose proof (allocate_spec k (zlength l) ltac:(lia)) as Hq.
  destruct (allocate_arguments k (zlength l)) as [[q|r| |] k1]; try done; [|by destruct Hq]. rewrite to_nat_zlength.
  pose proof (loop_encoded (decode_instantiation_argument resolve (blob_fuel blob) m blob current) o1 l Hl
    ltac:(intros; apply decode_encoded; [done|done|unfold blob_fuel; lia]) k1 o1 ltac:(lia) ltac:(lia)
    ltac:(by unfold o1; rewrite Z.add_assoc) ltac:(lia)) as Hloop.
  destruct (decode_loop _ k1 (length l) o1) as [[[]|r| |] [[[written rest] o2] k2]]; try done. by destruct Hloop.
Qed.

End parsing.

End GenericCorrect.
