(* ===== verification/GenericTheorems.v ===== *)
(** * Generic contexts: what their operations promise

    The operations of [zaclr_generic_context.cpp] on whole contexts: copies and
    assignments own fresh buffers, substitution is substitution on trees and composes,
    and the instantiation blobs of an assembly are read back.  The destination, the
    source and the substitution of a call are distinct objects, as at every call of
    the runtime. *)

From Stdlib Require Import Strings.Byte.
From S2P Require Import Prelude Status Bytes Token Signature KernelHeap GenericContext GenericCorrect.

Module GenericTheorems.
Import GenericContext GenericCorrect.

(** ** Substitution over a context *)

(** Only instantiations have nested arguments, in both arrays. *)
Definition proper_context (c : zaclr_generic_context) : Prop := Forall proper (type_contents c) /\ Forall proper (method_contents c).
Definition option_ok (s : option zaclr_generic_context) : Prop := forall c, s = Some c -> context_ok c.
Definition option_proper (s : option zaclr_generic_context) : Prop := forall c, s = Some c -> proper_context c.

Section substitution.
Context {K : Type} `{KernelHeapLaws K}.
Implicit Types (k : K).

(** What writing a new context over [out] promises: its trees, buffers of its own, the
    old buffers given back; a failure leaves an empty context and no new buffer. *)
Definition substitute_post k (out : zaclr_generic_context) (trees : env) (x : outcome unit * (zaclr_generic_context * K)) : Prop :=
  let kept := live k ∖ list_to_set (context_buffers out) in
  match x with
  | (Ret _, (c, k')) =>
    context_ok c /\ erase_context c = trees /\ NoDup (context_buffers c) /\
    (forall p, p ∈ context_buffers c -> p ∉ kept) /\ live k' = list_to_set (context_buffers c) ∪ kept
  | (Err r, (c, k')) => r = out_of_memory /\ c = empty_context /\ live k' = kept
  | _ => False
  end.

Lemma substitute_array_spec k s count p l : array_ok count p l -> Forall proper l -> option_ok s ->
  match substitute_argument_array s k count p l with
  | (Ret _, (count', q, l', k')) =>
    array_ok count' q l' /\ map erase l' = map (instantiate (env_of s)) (map erase l) /\ fresh_blocks k (array_buffers q l') k'
  | (Err r, (count', q, l', k')) => r = out_of_memory /\ (count', q, l') = (0, 0, []) /\ live k' = live k
  | _ => False
  end.
Proof.
  intros Ha Hp Hs. pose proof Ha as [Hl _]. unfold substitute_argument_array.
  pose proof (argument_array_spec (substitute_argument s) (fun a b => erase b = subst s a) k count p l Ha) as Hspec.
  destruct (argument_array _ k count p l) as [[[]|r| |] [[[count' q] l'] k1]]; try apply Hspec;
    try (eapply Forall_impl; [exact Hl|]; intros a Hok k0; by apply substitute_argument_spec).
  destruct Hspec as (A1 & A2 & A3); [eapply Forall_impl; [exact Hl|]; intros a Hok k0; by apply substitute_argument_spec|].
  split; [done|]. split; [|done]. rewrite (subst_map s _ _ A2), map_map. apply map_eq_Forall.
  rewrite Forall_forall in *. intros a Hin. apply subst_instantiate; auto.
Qed.

(** No array, no work. *)
Lemma empty_array count p l : array_ok count p l -> (count =? 0) || (p =? 0) = true -> l = [].
Proof.
  intros (_ & -> & Hp) E. apply orb_true_iff in E as [E|E]; apply Z.eqb_eq in E; [|by apply Hp].
  destruct l; [done|]. rewrite zlength_cons in E. pose proof (zlength_nonneg l). lia.
Qed.

Lemma substitute_type_spec k out source s : context_ok out -> option_ok source -> option_proper source -> option_ok s ->
  substitute_post k out (map (instantiate (env_of s)) (env_of source).1, []) (zaclr_generic_context_substitute_type_args k out source s).
Proof.
  intros Ho Hsrc Hp Hs. unfold zaclr_generic_context_substitute_type_args, substitute_post.
  destruct (fail_reset_spec k out (Ret ()) Ho) as (k0 & E0 & L0). rewrite E0, <- L0. pose proof (type_array_ok source Hsrc) as Ha.
  assert ((env_of source).1 = map erase (type_array source).2) as -> by (by destruct source).
  assert (Forall proper (type_array source).2) as Hpl by (destruct source as [c|]; [by destruct (Hp c)|constructor]).
  destruct (type_array source) as [[count p] l]. cbn [snd] in *. destruct ((count =? 0) || (p =? 0)) eqn:Ec.
  { rewrite (empty_array _ _ _ Ha Ec). split; [apply empty_ok|]. split; [done|]. split; [constructor|]. split; [by intros ? []%not_elem_of_nil|].
    simpl. by rewrite union_empty_l_L. }
  pose proof (substitute_array_spec k0 s count p l Ha Hpl Hs) as Hspec.
  destruct (substitute_argument_array s k0 count p l) as [[[]|r| |] [[[count' q] l'] k1]]; try done.
  - destruct Hspec as (A1 & A2 & [A3 A4 A5]). split; [by split; [|apply empty_ok]|]. split; [by unfold erase_context; simpl; rewrite A2|].
    unfold context_buffers. simpl. by rewrite app_nil_r.
  - by destruct Hspec as (-> & [= -> -> ->] & L).
Qed.

Lemma substitute_method_spec k out source s : context_ok out -> option_ok source -> option_proper source -> option_ok s ->
  substitute_post k out ([], map (instantiate (env_of s)) (env_of source).2) (zaclr_generic_context_substitute_method_args k out source s).
Proof.
  intros Ho Hsrc Hp Hs. unfold zaclr_generic_context_substitute_method_args, substitute_post.
  destruct (fail_reset_spec k out (Ret ()) Ho) as (k0 & E0 & L0). rewrite E0, <- L0. pose proof (method_array_ok source Hsrc) as Ha.
  assert ((env_of source).2 = map erase (method_array source).2) as -> by (by destruct source).
  assert (Forall proper (method_array source).2) as Hpl by (destruct source as [c|]; [by destruct (Hp c)|constructor]).
  destruct (method_array source) as [[count p] l]. cbn [snd] in *. destruct ((count =? 0) || (p =? 0)) eqn:Ec.
  { rewrite (empty_array _ _ _ Ha Ec). split; [apply empty_ok|]. split; [done|]. split; [constructor|]. split; [by intros ? []%not_elem_of_nil|].
    simpl. by rewrite union_empty_l_L. }
  pose proof (substitute_array_spec k0 s count p l Ha Hpl Hs) as Hspec.
  destruct (substitute_argument_array s k0 count p l) as [[[]|r| |] [[[count' q] l'] k1]]; try done.
  - destruct Hspec as (A1 & A2 & [A3 A4 A5]). split; [by split; [apply empty_ok|]|]. split; [by unfold erase_context; simpl; rewrite A2|].
    done.
  - by destruct Hspec as (-> & [= -> -> ->] & L).
Qed.

End substitution.

(** ** Composition *)

Lemma proper_erase a : proper (erase a) <-> proper a.
Proof.
  induction a as [kind et res token asm i n p l IH] using argument_rect. cbn [erase proper]. rewrite !fold_right_Forall, Forall_map.
  assert (map erase l = [] <-> l = []) as -> by (by destruct l).
  assert (Forall (fun a => proper (erase a)) l <-> Forall proper l) as E; [|by setoid_rewrite E].
  rewrite !Forall_forall in *. naive_solver.
Qed.

Lemma instantiate_proper e a : Forall proper e.1 -> Forall proper e.2 -> proper a -> proper (instantiate e a).
Proof.
  intros Ht Hm. induction a as [kind et res token asm i n p l IH] using argument_rect. intros [Hk Hp]. cbn [instantiate].
  destruct (lookup_variable e _) as [b|] eqn:El.
  { unfold lookup_variable in El. rewrite Forall_forall in Ht, Hm. revert El. destruct e as [[|x ts] ms]; repeat case_if; intros El; try done;
      apply get_In in El; auto. }
  cbn [proper]. rewrite fold_right_Forall in Hp |- *. rewrite Forall_map. split; [destruct Hk as [-> | ->]; auto|].
  rewrite Forall_forall in *. auto.
Qed.

Lemma proper_env c : proper_context c -> Forall proper (erase_context c).1 /\ Forall proper (erase_context c).2.
Proof. intros [Ht Hm]. simpl. rewrite !Forall_map. split; (eapply Forall_impl; [eassumption|]); intros a; apply proper_erase. Qed.

Lemma substitute_erase {K} `{KernelHeapLaws K} (k k' : K) source s c : context_ok source -> proper_context source -> context_ok s ->
  zaclr_generic_context_substitute_type_args k empty_context (Some source) (Some s) = (Ret (), (c, k')) ->
  context_ok c /\ erase_context c = (map (instantiate (erase_context s)) (erase_context source).1, []).
Proof.
  intros A1 A2 A3 E. pose proof (substitute_type_spec k empty_context (Some source) (Some s) empty_ok) as Hs.
  rewrite E in Hs. destruct Hs as (B1 & B2 & _); [by intros ? [= <-]..|]. done.
Qed.

Lemma substitute_proper {K} `{KernelHeapLaws K} (k k' : K) source s c : context_ok source -> proper_context source -> context_ok s -> proper_context s ->
  zaclr_generic_context_substitute_type_args k empty_context (Some source) (Some s) = (Ret (), (c, k')) -> proper_context c.
Proof.
  intros A1 A2 A3 A4 E. destruct (substitute_erase _ _ _ _ _ A1 A2 A3 E) as [_ [= B1 B2]]. apply proper_env in A2 as [A2 _], A4 as [A4 A5].
  split.
  - assert (Forall proper (map erase (type_contents c))) as Hf; [|rewrite Forall_map in Hf; eapply Forall_impl; [exact Hf|]; intros a; apply proper_erase].
    rewrite B1, Forall_map. eapply Forall_impl; [exact A2|]. intros a Ha. by apply instantiate_proper.
  - apply map_eq_nil in B2. rewrite B2. constructor.
Qed.

(** ** The theorems *)

(** [zaclr_generic_context_clone] over any well-formed context, and the assignments
    of the type and of the method arguments: the copy has the trees of the source in
    buffers that are fresh and pairwise distinct, the buffers the destination had are
    given back and the other array of an assignment is not touched.  The only failure
    is exhausted memory; an assignment that fails changes neither the destination nor
    the set of live buffers, a clone that fails leaves an empty context. *)
Theorem generic_copies_correct {K} `{KernelHeapLaws K} (k : K) destination source : context_ok destination -> context_ok source ->
  clone_post k destination source (zaclr_generic_context_clone k destination (Some source)) /\
  assign_post k (array_buffers (type_args destination) (type_contents destination)) (map erase (type_contents source)) destination
    typed_array methods_array (zaclr_generic_context_assign_type_args k destination (Some source)) /\
  assign_post k (array_buffers (method_args destination) (method_contents destination)) (map erase (method_contents source)) destination
    methods_array typed_array (zaclr_generic_context_assign_method_args k destination (Some source)).
Proof.
  intros Hd Hs. split; [by apply clone_context_spec|]. assert (forall c, Some source = Some c -> context_ok c) as Hs' by (by intros ? [= <-]).
  split; [by apply (assign_type_spec k destination (Some source))|by apply (assign_method_spec k destination (Some source))].
Qed.

(** C16: [zaclr_generic_context_substitute_type_args] and [..._method_args] compute
    substitution on trees: in the new array every bound variable, at any depth, is
    replaced by a copy of the argument it names and the rest is kept.  All buffers of
    the result are fresh, the context written over gives its buffers back, and when
    memory runs out half way no buffer is left behind. *)
Theorem generic_substitution_correct {K} `{KernelHeapLaws K} (k : K) out source s : context_ok out -> context_ok source -> proper_context source ->
  option_ok s ->
  substitute_post k out (map (instantiate (env_of s)) (map erase (type_contents source)), [])
    (zaclr_generic_context_substitute_type_args k out (Some source) s) /\
  substitute_post k out ([], map (instantiate (env_of s)) (map erase (method_contents source)))
    (zaclr_generic_context_substitute_method_args k out (Some source) s).
Proof.
  intros Ho Hc Hp Hs. assert (option_ok (Some source)) as A by (by intros ? [= <-]). assert (option_proper (Some source)) as B by (by intros ? [= <-]).
  split; [by apply (substitute_type_spec k out (Some source))|by apply (substitute_method_spec k out (Some source))].
Qed.

(** Substitution composes: substituting [t] and then [s] gives the trees that
    substituting once with the arguments of [t] under [s] gives, when [t] binds every
    variable of the source.  If the arguments of [t] are closed, so are those of the
    result. *)
Theorem generic_substitution_composes {K} `{KernelHeapLaws K} (k k1 k2 k3 k4 : K) source t s u c1 c2 c3 :
  context_ok source -> context_ok t -> context_ok s -> context_ok u -> proper_context source -> proper_context t ->
  Forall (bound_in (erase_context t)) (map erase (type_contents source)) ->
  erase_context u = compose (erase_context t) (erase_context s) ->
  zaclr_generic_context_substitute_type_args k empty_context (Some source) (Some t) = (Ret (), (c1, k1)) ->
  zaclr_generic_context_substitute_type_args k1 empty_context (Some c1) (Some s) = (Ret (), (c2, k2)) ->
  zaclr_generic_context_substitute_type_args k3 empty_context (Some source) (Some u) = (Ret (), (c3, k4)) ->
  erase_context c2 = erase_context c3 /\
  (Forall closed (erase_context t).1 -> Forall closed (erase_context t).2 -> Forall closed (erase_context c1).1).
Proof.
  intros A1 A2 A3 A4 P1 P2 Hb Hu E1 E2 E3.
  destruct (substitute_erase _ _ _ _ _ A1 P1 A2 E1) as [B1 T1]. pose proof (substitute_proper _ _ _ _ _ A1 P1 A2 P2 E1) as P3.
  destruct (substitute_erase _ _ _ _ _ B1 P3 A3 E2) as [B2 T2]. destruct (substitute_erase _ _ _ _ _ A1 P1 A4 E3) as [B3 T3].
  cbn [erase_context fst] in Hb. rewrite T2, T3, T1, Hu. cbn [fst]. split.
  - f_equal. rewrite map_map. apply map_eq_Forall. eapply Forall_impl; [exact Hb|]. intros a. apply instantiate_composes.
  - intros Ht Hm. rewrite Forall_map. eapply Forall_impl; [exact Hb|]. intros a. by apply instantiate_closed.
Qed.

(** What replacing an array by the instantiation in a blob promises. *)
Definition instantiation_post {K} `{KernelHeap K} (k : K) c (P : list zaclr_generic_argument -> Prop) (E : zaclr_result -> Prop)
    (get other : zaclr_generic_context -> Z * Z * list zaclr_generic_argument) (x : outcome unit * (zaclr_generic_context * K)) : Prop :=
  match x with
  | (Ret _, (c', k')) =>
    let '(count, q, l) := get c' in
    context_ok c' /\ other c' = other c /\ P l /\
    exists k1, fresh_blocks k (array_buffers q l) k1 /\ live k' = live k1 ∖ (if (get c).1.2 =? 0 then ∅ else {[(get c).1.2]})
  | (Err r, (c', k')) => c' = c /\ E r /\ live k ⊆ live k'
  | _ => False
  end.

Lemma free_array_live {K} `{KernelHeapLaws K} (k : K) p : live (free_array k p) = live k ∖ (if p =? 0 then ∅ else {[p]}).
Proof. unfold free_array. destruct (p =? 0); [set_solver|apply free_spec]. Qed.

(** On any blob of an image the instantiation setters stop without a fault: they
    store a well-formed array of fresh buffers and leave the other array alone, or
    report an error, change nothing in the context and free nothing that was live. *)
Theorem generic_instantiation_safe {K} `{KernelHeapLaws K} (resolve : Z -> zaclr_token -> outcome Z) m blob current (k : K) c :
  (forall assembly token, safe (resolve assembly token)) -> blob_ok m blob -> context_ok c ->
  instantiation_post k c (fun _ => True) (fun _ => True) typed_array methods_array
    (zaclr_generic_context_set_type_instantiation resolve m current k c blob) /\
  instantiation_post k c (fun _ => True) (fun _ => True) methods_array typed_array
    (zaclr_generic_context_set_method_instantiation resolve m current k c blob).
Proof.
  intros Hr Hb [Ht Hm]. pose proof (parse_spec resolve Hr m blob Hb current k) as Hp.
  unfold zaclr_generic_context_set_type_instantiation, zaclr_generic_context_set_method_instantiation.
  destruct (parse_instantiation_arguments resolve m current k blob) as [[[]|r| |] [[[count q] l] k1]]; try done.
  - destruct Hp as [Ha Hf]. split; (split; [by split|]; split; [done|]; split; [done|]; exists k1; split; [done|apply free_array_live]).
  - by destruct Hp as [_ Hl].
Qed.

(** C17: An instantiation is read back: from the blob that encodes the type arguments
    [l] (primitive and named types, variables, and instantiations of them to any
    depth), the setters store exactly the trees of [l], unless memory runs out. *)
Theorem generic_instantiation_roundtrip {K} `{KernelHeapLaws K} (resolve : Z -> zaclr_token -> outcome Z) resolved m blob d current (k : K) c
    (l : list sig_type) :
  (forall assembly token, safe (resolve assembly token)) ->
  (forall token, resolve_argument_assembly resolve current token = Ret (resolved token)) ->
  blob_ok m blob -> sl_data blob = Some d -> context_ok c ->
  forallb supported l = true -> is_uint29 (zlength l) = true -> seg m d (encode_instantiation l) -> sl_size blob = zlength (encode_instantiation l) ->
  instantiation_post k c (fun trees => map erase trees = map (tree_of current resolved) l) (fun r => r = out_of_memory) typed_array methods_array
    (zaclr_generic_context_set_type_instantiation resolve m current k c blob) /\
  instantiation_post k c (fun trees => map erase trees = map (tree_of current resolved) l) (fun r => r = out_of_memory) methods_array typed_array
    (zaclr_generic_context_set_method_instantiation resolve m current k c blob).
Proof.
  intros Hr Hres Hb Hd [Ht Hm] Hl Hu Hs Hz. pose proof (parse_spec resolve Hr m blob Hb current k) as Hp.
  pose proof (parse_encoded resolve Hr m blob Hb current resolved Hres d Hd k l Hl Hu Hs Hz) as He.
  unfold zaclr_generic_context_set_type_instantiation, zaclr_generic_context_set_method_instantiation.
  destruct (parse_instantiation_arguments resolve m current k blob) as [[[]|r| |] [[[count q] l'] k1]]; try done.
  - destruct Hp as [Ha Hf]. destruct He as [_ He].
    split; (split; [by split|]; split; [done|]; split; [done|]; exists k1; split; [done|apply free_array_live]).
  - by destruct Hp as [_ Hlive].
Qed.

(** ** Examples *)

(** [List<!0>] and [int], in the buffers 4 and 5 of an assembly at 9. *)
Definition var0 : zaclr_generic_argument := variable_argument ZACLR_ELEMENT_TYPE_VAR 9 0.
Definition mvar0 : zaclr_generic_argument := variable_argument ZACLR_ELEMENT_TYPE_MVAR 9 0.
Definition int_arg : zaclr_generic_argument := primitive_argument ZACLR_ELEMENT_TYPE_I4 9.
Definition list_of (p : Z) (a : zaclr_generic_argument) : zaclr_generic_argument := mk_argument 5 ZACLR_ELEMENT_TYPE_CLASS 0 0x02000003 9 0 1 p [a].
Definition sample_context : zaclr_generic_context := mk_context 2 4 [list_of 5 var0; int_arg] 0 0 [].
Definition method_variable : zaclr_generic_context := mk_context 1 6 [mvar0] 0 0 [].
Definition method_int : zaclr_generic_context := mk_context 0 0 [] 1 7 [int_arg].
Definition type_int : zaclr_generic_context := mk_context 1 8 [int_arg] 0 0 [].
Definition sample_heap (blocks : nat) : small_heap := mk_small_heap blocks (list_to_set [4; 5; 6; 7; 8]%positive).

Lemma list_of_ok p a : p <> 0 -> argument_ok a -> argument_ok (list_of p a).
Proof. intros Hp Ha. unfold list_of. by apply (inst_ok 5 ZACLR_ELEMENT_TYPE_CLASS 0 0x02000003 9 0 p [a]); [..|constructor]. Qed.

Lemma samples_ok : context_ok sample_context /\ context_ok method_variable /\ context_ok method_int /\ context_ok type_int /\
  proper_context sample_context /\ proper_context method_variable.
Proof.
  assert (argument_ok (list_of 5 var0)) as Hl by (apply list_of_ok; [done|by constructor]).
  assert (array_ok 0 0 []) as H0 by (by repeat split).
  assert (forall p a, p <> 0 -> argument_ok a -> array_ok 1 p [a]) as Hone.
  { intros p a Hp Ha. split; [by repeat constructor|]. split; [done|]. by split. }
  assert (forall i, 0 <= i -> forall kind et, argument_ok (mk_argument kind et 0 0 9 i 0 0 [])) as Hleaf by (intros; by constructor).
  split; [split; [|done]|split; [split; [|done]|split; [split; [done|]|split; [split; [|done]|]]]]; cbn; try (by apply Hone, Hleaf).
  - split; [constructor; [done|]; constructor; [by apply Hleaf|constructor]|]. split; [done|]. by split.
  - split; split; cbn; repeat constructor; try done; by left.
Qed.

Lemma generic_copies_correct_witness :
  (zaclr_generic_context_clone (sample_heap 9) type_int (Some sample_context)).1 = Ret () /\
  erase_context (zaclr_generic_context_clone (sample_heap 9) type_int (Some sample_context)).2.1 = erase_context sample_context.
Proof.
  destruct samples_ok as (H1 & _ & _ & H4 & _). split; [vm_compute; reflexivity|].
  destruct (generic_copies_correct (sample_heap 9) type_int sample_context H4 H1) as [(_ & Hc & _) _]. exact Hc.
Defined.

(** [List<!0>] under [!0 = int]. *)
Lemma generic_substitution_correct_witness :
  (zaclr_generic_context_substitute_type_args (sample_heap 9) empty_context (Some sample_context) (Some type_int)).1 = Ret () /\
  erase_context (zaclr_generic_context_substitute_type_args (sample_heap 9) empty_context (Some sample_context) (Some type_int)).2.1
  = ([list_of 1 int_arg; int_arg], []).
Proof.
  destruct samples_ok as (H1 & _ & _ & H4 & H5 & _). split; [vm_compute; reflexivity|].
  destruct (generic_substitution_correct (sample_heap 9) empty_context sample_context (Some type_int) empty_ok H1 H5) as [(_ & Hc & _) _];
    [by intros ? [= <-]|]. exact Hc.
Defined.

Definition substituted (s t : zaclr_generic_context) : zaclr_generic_context * small_heap :=
  (zaclr_generic_context_substitute_type_args (sample_heap 9) empty_context (Some s) (Some t)).2.

(** [!0 = !!0], then [!!0 = int], is [!0 = int]. *)
Lemma generic_substitution_composes_witness :
  exists c1 k1 c2 k2, zaclr_generic_context_substitute_type_args (sample_heap 9) empty_context (Some sample_context) (Some method_variable) = (Ret (), (c1, k1)) /\
    zaclr_generic_context_substitute_type_args k1 empty_context (Some c1) (Some method_int) = (Ret (), (c2, k2)) /\
    erase_context c2 = erase_context (substituted sample_context type_int).1.
Proof.
  destruct samples_ok as (H1 & H2 & H3 & H4 & H5 & H6). do 4 eexists. split; [vm_compute; reflexivity|]. split; [vm_compute; reflexivity|].
  eapply (generic_substitution_composes (sample_heap 9) _ _ (sample_heap 9) _ sample_context method_variable method_int type_int);
    try (assumption || (vm_compute; reflexivity)).
  constructor; [|constructor; [|constructor]]; cbn; split_and!; try done; intros _; by eexists.
Defined.

(** The instantiation [<List<!!0>, int>] in a blob. *)
Definition blob_types : list sig_type := [TInst false 0xC [TVar true 0]; TPrim ZACLR_ELEMENT_TYPE_I4].
Definition blob_memory : memory := encode_instantiation blob_types.
Definition instantiation_blob : zaclr_slice := mk_slice (Some 0) (zlength blob_memory).

Lemma instantiation_blob_ok : blob_ok blob_memory instantiation_blob.
Proof. split; [split|]; vm_compute; try split; congruence. Qed.

(** Every type is found in the assembly itself. *)
Definition local_lookup (assembly : Z) (token : zaclr_token) : outcome Z := Ret assembly.

Lemma generic_instantiation_safe_witness :
  instantiation_post (sample_heap 9) type_int (fun _ => True) (fun _ => True) typed_array methods_array
    (zaclr_generic_context_set_type_instantiation local_lookup blob_memory 9 (sample_heap 9) type_int instantiation_blob).
Proof.
  destruct samples_ok as (_ & _ & _ & H4 & _).
  destruct (generic_instantiation_safe local_lookup blob_memory instantiation_blob 9 (sample_heap 9) type_int) as [Hs _];
    [done|apply instantiation_blob_ok|done|exact Hs].
Defined.

Lemma generic_instantiation_roundtrip_witness :
  (zaclr_generic_context_set_method_instantiation local_lookup blob_memory 9 (sample_heap 9) type_int instantiation_blob).1 = Ret () /\
  map erase (method_contents (zaclr_generic_context_set_method_instantiation local_lookup blob_memory 9 (sample_heap 9) type_int instantiation_blob).2.1)
  = [list_of 1 mvar0; int_arg].
Proof.
  destruct samples_ok as (_ & _ & _ & H4 & _). split; [vm_compute; reflexivity|].
  destruct (generic_instantiation_roundtrip local_lookup (fun _ => 9) blob_memory instantiation_blob 0 9 (sample_heap 9) type_int blob_types)
    as [_ (_ & _ & Hc & _)]; [done|done|apply instantiation_blob_ok|done|done|reflexivity|reflexivity|apply seg_refl|reflexivity|]. exact Hc.
Defined.

(** ** What a failure leaves behind *)

(** The count of a copied context is stored after the loop, so the reset of a failed
    clone frees the new array and not the arrays inside it: with memory for the array
    and its first argument only, the buffer of [List<!0>] stays live. *)
Definition two_lists : zaclr_generic_context := mk_context 2 4 [list_of 5 var0; list_of 6 var0] 0 0 [].

Lemma clone_failure_leaks :
  let '(o, (c, k)) := zaclr_generic_context_clone (sample_heap 2) empty_context (Some two_lists) in
  o = Err out_of_memory /\ c = empty_context /\ live k <> live (sample_heap 2).
Proof. vm_compute. split; [done|]. split; [done|]. intros E. discriminate. Qed.

(** A new instantiation frees the old array alone: what [sample_context] had inside
    its array stays live, although no context owns it any more. *)
Lemma set_instantiation_leaks :
  let '(o, (c, k)) := zaclr_generic_context_set_type_instantiation local_lookup blob_memory 9 (sample_heap 9) sample_context (mk_slice None 0) in
  o = Ret () /\ c = empty_context /\ 5 ∈ live k.
Proof. vm_compute. repeat split. Qed.

(** A blob whose second argument is truncated: the array is freed, the buffer of the
    first argument is not. *)
Lemma parse_failure_leaks :
  let '(o, (c, k)) := zaclr_generic_context_set_type_instantiation local_lookup blob_memory 9 (sample_heap 9) empty_context
                        (mk_slice (Some 0) (zlength blob_memory - 1)) in
  o = Err invalid_argument /\ c = empty_context /\ live k <> live (sample_heap 9).
Proof. vm_compute. split; [done|]. split; [done|]. intros E. discriminate. Qed.

(** Array, pointer and by-reference arguments are refused: [List<int[]>] cannot be
    instantiated. *)
Lemma array_argument_unsupported :
  (zaclr_generic_context_set_type_instantiation local_lookup (bytes_of [0x0A; 1; ZACLR_ELEMENT_TYPE_SZARRAY; ZACLR_ELEMENT_TYPE_I4]) 9
     (sample_heap 9) empty_context (mk_slice (Some 0) 4)).1 = Err unsupported.
Proof. vm_compute. reflexivity. Qed.

End GenericTheorems.
