(* ===== verification/Frame.v ===== *)
(** * Frames and the interpreter's monad

    [zaclr/exec/zaclr_frame.h] and the helpers of [zaclr/exec/zaclr_dispatch.cpp]
    that move values between the arguments, the locals and the evaluation stack of
    the current frame.

    A frame keeps the bytes of its method from [il_start] on: a read past the last
    byte of the image is a [Fault].  [arguments] and [locals] are the arrays with
    the addresses of their buffers; [argument_count] and [local_count] are their
    lengths.  Of the method the frame keeps whether it returns a value.  The assembly
    of a frame is only used by the instructions that are not modelled.

    The interpreter's routines return a status and may have changed the frame
    before they fail, so a computation is a function from the state to an outcome
    and the state. *)

From Stdlib Require Import Strings.Byte.
From S2P Require Import Prelude Status Bytes KernelHeap EvalStack Gc GenericContext.

Module Frame.

Record zaclr_exception_clause := mk_clause {
  cl_flags : Z;
  try_offset : Z;
  try_length : Z;
  handler_offset : Z;
  handler_length : Z;
  class_token : Z }.

(** The five [pending_finally_*] and the four [pending_filter_*] members. *)
Record pending_finally := mk_finally {
  pf_kind : Z;
  pf_next_clause_index : Z;
  pf_source_offset : Z;
  pf_leave_target : Z;
  pf_exception_handle : Z }.

Record pending_filter := mk_filter {
  pt_handler_offset : Z;
  pt_next_clause_index : Z;
  pt_throw_offset : Z;
  pt_exception_handle : Z }.

Record zaclr_frame := mk_frame {
  frame_ptr : Z;
  il_start : memory;
  il_size : Z;
  il_offset : Z;
  max_stack : Z;
  arguments : list zaclr_stack_value;
  arguments_ptr : Z;
  locals : list zaclr_stack_value;
  locals_ptr : Z;
  exception_clauses : list zaclr_exception_clause;
  exception_clauses_ptr : Z;
  eval_stack : zaclr_eval_stack;
  generic_context : GenericContext.zaclr_generic_context;
  pending_constrained_token_raw : Z;
  filter_state : pending_filter;
  finally_state : pending_finally;
  frame_flags : Z;
  returns_value : bool }.

Definition no_filter : pending_filter := mk_filter 0 0 0 0.
Definition no_finally : pending_finally := mk_finally 0 0 0 0 0.

Definition k_zaclr_frame_flag_newobj_ctor : Z := 0x1.
Definition k_zaclr_frame_flag_filter_pending : Z := 0x2.
Definition k_zaclr_frame_flag_finally_pending : Z := 0x4.
Definition k_zaclr_pending_finally_leave : Z := 1.
Definition k_zaclr_pending_finally_throw : Z := 2.
Definition ZACLR_STACK_VALUE_FLAG_BYREF_STACK_SLOT : Z := 0x2.

Definition set_il_offset (o : Z) (f : zaclr_frame) : zaclr_frame :=
  mk_frame (frame_ptr f) (il_start f) (il_size f) o (max_stack f) (arguments f) (arguments_ptr f) (locals f)
    (locals_ptr f) (exception_clauses f) (exception_clauses_ptr f) (eval_stack f) (generic_context f)
    (pending_constrained_token_raw f) (filter_state f) (finally_state f) (frame_flags f) (returns_value f).
Definition set_arguments (l : list zaclr_stack_value) (f : zaclr_frame) : zaclr_frame :=
  mk_frame (frame_ptr f) (il_start f) (il_size f) (il_offset f) (max_stack f) l (arguments_ptr f) (locals f)
    (locals_ptr f) (exception_clauses f) (exception_clauses_ptr f) (eval_stack f) (generic_context f)
    (pending_constrained_token_raw f) (filter_state f) (finally_state f) (frame_flags f) (returns_value f).
Definition set_locals (l : list zaclr_stack_value) (f : zaclr_frame) : zaclr_frame :=
  mk_frame (frame_ptr f) (il_start f) (il_size f) (il_offset f) (max_stack f) (arguments f) (arguments_ptr f)
    l (locals_ptr f) (exception_clauses f) (exception_clauses_ptr f) (eval_stack f) (generic_context f)
    (pending_constrained_token_raw f) (filter_state f) (finally_state f) (frame_flags f) (returns_value f).
Definition set_eval_stack (st : zaclr_eval_stack) (f : zaclr_frame) : zaclr_frame :=
  mk_frame (frame_ptr f) (il_start f) (il_size f) (il_offset f) (max_stack f) (arguments f) (arguments_ptr f)
    (locals f) (locals_ptr f) (exception_clauses f) (exception_clauses_ptr f) st (generic_context f)
    (pending_constrained_token_raw f) (filter_state f) (finally_state f) (frame_flags f) (returns_value f).
Definition set_constrained (t : Z) (f : zaclr_frame) : zaclr_frame :=
  mk_frame (frame_ptr f) (il_start f) (il_size f) (il_offset f) (max_stack f) (arguments f) (arguments_ptr f)
    (locals f) (locals_ptr f) (exception_clauses f) (exception_clauses_ptr f) (eval_stack f) (generic_context f) t
    (filter_state f) (finally_state f) (frame_flags f) (returns_value f).
Definition set_filter (p : pending_filter) (f : zaclr_frame) : zaclr_frame :=
  mk_frame (frame_ptr f) (il_start f) (il_size f) (il_offset f) (max_stack f) (arguments f) (arguments_ptr f)
    (locals f) (locals_ptr f) (exception_clauses f) (exception_clauses_ptr f) (eval_stack f) (generic_context f)
    (pending_constrained_token_raw f) p (finally_state f) (frame_flags f) (returns_value f).
Definition set_finally (p : pending_finally) (f : zaclr_frame) : zaclr_frame :=
  mk_frame (frame_ptr f) (il_start f) (il_size f) (il_offset f) (max_stack f) (arguments f) (arguments_ptr f)
    (locals f) (locals_ptr f) (exception_clauses f) (exception_clauses_ptr f) (eval_stack f) (generic_context f)
    (pending_constrained_token_raw f) (filter_state f) p (frame_flags f) (returns_value f).
Definition set_flags (x : Z) (f : zaclr_frame) : zaclr_frame :=
  mk_frame (frame_ptr f) (il_start f) (il_size f) (il_offset f) (max_stack f) (arguments f) (arguments_ptr f)
    (locals f) (locals_ptr f) (exception_clauses f) (exception_clauses_ptr f) (eval_stack f) (generic_context f)
    (pending_constrained_token_raw f) (filter_state f) (finally_state f) x (returns_value f).

(** ** The monad *)

Section monad.
Context {K : Type}.

(** The kernel heap with the value buffers, the current frame, and the exception
    object of the thread. *)
Record fstate := mk_fstate { fs_store : store K; fs_frame : zaclr_frame; fs_exception : Z }.

Definition exec (A : Type) : Type := fstate -> outcome A * fstate.

#[global] Instance exec_ret : MRet exec := fun A a s => (Ret a, s).
#[global] Instance exec_bind : MBind exec := fun A B k m s =>
  match m s with
  | (Ret a, s') => k a s'
  | (Err r, s') => (Err r, s')
  | (Fault, s') => (Fault, s')
  | (NoFuel, s') => (NoFuel, s')
  end.

Definition lift {A} (m : outcome A) : exec A := fun s => (m, s).
Definition fail {A} (st : zaclr_status) : exec A := lift (Err (exec_error st)).
Definition gets {A} (g : zaclr_frame -> A) : exec A := fun s => (Ret (g (fs_frame s)), s).
Definition modify (g : zaclr_frame -> zaclr_frame) : exec unit := fun s =>
  (Ret (), mk_fstate (fs_store s) (g (fs_frame s)) (fs_exception s)).

(** A computation on values: it uses the store, not the frame. *)
Definition on_store {A} (m : store K -> outcome A) : exec A := fun s => (m (fs_store s), s).
Definition with_store {A} (m : store K -> outcome A * store K) : exec A := fun s =>
  let '(o, st) := m (fs_store s) in (o, mk_fstate st (fs_frame s) (fs_exception s)).

End monad.
Arguments fstate K : clear implicits.
Arguments exec K A : clear implicits.

(** ** Stack operations of the current frame *)

Section frames.
Context {K : Type} `{KernelHeap K}.

Definition push (v : zaclr_stack_value) : exec K unit := fun s =>
  let '(o, (st, e)) := zaclr_eval_stack_push (fs_store s) (eval_stack (fs_frame s)) v in
  (o, mk_fstate st (set_eval_stack e (fs_frame s)) (fs_exception s)).

Definition pop : exec K zaclr_stack_value := fun s =>
  let '(o, e) := zaclr_eval_stack_pop (eval_stack (fs_frame s)) in
  (o, mk_fstate (fs_store s) (set_eval_stack e (fs_frame s)) (fs_exception s)).

(** [zaclr_eval_stack_peek] into a local variable with the contents [d]. *)
Definition peek (d : zaclr_stack_value) : exec K zaclr_stack_value := fun s =>
  let '(o, (st, v)) := zaclr_eval_stack_peek (fs_store s) (eval_stack (fs_frame s)) d in
  (match o with Ret _ => Ret v | Err r => Err r | Fault => Fault | NoFuel => NoFuel end,
   mk_fstate st (fs_frame s) (fs_exception s)).

(** [zaclr_stack_value_reset] of a local variable. *)
Definition reset_value (v : zaclr_stack_value) : exec K unit :=
  with_store (fun st => (Ret (), (zaclr_stack_value_reset st v).1)).

(** [frame->il_offset += n]. *)
Definition advance (n : Z) : exec K unit := modify (fun f => set_il_offset (u32 (il_offset f + n)) f).

(** A value whose union holds the word [w]. *)
Definition word_value (kind w : Z) : zaclr_stack_value := mk_value kind 0 0 0 0 0 (DWord w).

Definition push_i4 (value : Z) : exec K unit := push (word_value ZACLR_STACK_VALUE_I4 value).
Definition push_i8 (value : Z) : exec K unit := push (word_value ZACLR_STACK_VALUE_I8 value).
Definition push_r4 (bits : Z) : exec K unit := push (word_value ZACLR_STACK_VALUE_R4 bits).
Definition push_r8 (bits : Z) : exec K unit := push (word_value ZACLR_STACK_VALUE_R8 bits).
Definition push_object_handle (value : Z) : exec K unit :=
  push (word_value ZACLR_STACK_VALUE_OBJECT_REFERENCE (zaclr_heap_get_object value)).

(** ** Arguments and locals *)

Definition load_local (local_index : Z) : exec K unit :=
  l ← gets locals;
  match l .@ local_index with
  | None => fail ZACLR_STATUS_DISPATCH_ERROR
  | Some v => push v
  end.

Definition load_argument (argument_index : Z) : exec K unit :=
  l ← gets arguments;
  match l .@ argument_index with
  | None => fail ZACLR_STATUS_DISPATCH_ERROR
  | Some v => push v
  end.

Definition store_local (local_index : Z) : exec K unit :=
  l ← gets locals;
  match l .@ local_index with
  | None => fail ZACLR_STATUS_DISPATCH_ERROR
  | Some old =>
    value ← pop;
    reset_value old;;
    modify (fun f => set_locals (set (locals f) local_index value) f)
  end.

(** No instruction creates a value of kind [ZACLR_STACK_VALUE_LOCAL_ADDRESS]; the
    write through such an argument goes to memory outside the frame. *)
Definition store_argument (argument_index : Z) : exec K unit :=
  l ← gets arguments;
  match l .@ argument_index with
  | None => fail ZACLR_STATUS_DISPATCH_ERROR
  | Some old =>
    value ← pop;
    if sv_kind old =? ZACLR_STACK_VALUE_LOCAL_ADDRESS then
      match sv_data old with
      | DWord p => if p =? 0 then fail ZACLR_STATUS_DISPATCH_ERROR else lift Fault
      | DBytes _ => lift Fault
      end
    else modify (fun f => set_arguments (set (arguments f) argument_index value) f)
  end.

Definition push_slot_address (base index : Z) : exec K unit :=
  push (mk_value ZACLR_STACK_VALUE_BYREF 0 sizeof_stack_value 0
          (Z.land ZACLR_STACK_VALUE_FLAG_BYREF_STACK_SLOT 0xFFFFFFFE) 0
          (DWord (base + sizeof_stack_value * index))).

Definition push_local_address (local_index : Z) : exec K unit :=
  f ← gets id;
  if negb (local_index <? zlength (locals f)) then fail ZACLR_STATUS_DISPATCH_ERROR
  else push_slot_address (locals_ptr f) local_index.

Definition push_argument_address (argument_index : Z) : exec K unit :=
  f ← gets id;
  if negb (argument_index <? zlength (arguments f)) then fail ZACLR_STATUS_DISPATCH_ERROR
  else push_slot_address (arguments_ptr f) argument_index.

(** ** Operands of instructions *)

Definition il_u8 (offset : Z) : exec K Z := c ← gets il_start; lift (read_u8 c offset).
Definition il_u16 (offset : Z) : exec K Z := c ← gets il_start; lift (read_u16 c offset).
Definition il_u32 (offset : Z) : exec K Z := c ← gets il_start; lift (read_u32 c offset).
Definition il_u64 (offset : Z) : exec K Z :=
  lo ← il_u32 offset; hi ← il_u32 (offset + 4); mret (Z.lor lo (Z.shiftl hi 32)).

End frames.

End Frame.
