(* ===== verification/Arith.v ===== *)
(** * Arithmetic, conversions and comparisons

    The value computations of [zaclr/exec/zaclr_dispatch.cpp]: reading a stack value
    as an integer or a fixed-point number, the binary operators with and without
    overflow check, the conversions and the comparisons.  They are functions from
    the operands to what the instruction pushes; [Dispatch] pops the operands and
    pushes the result.  A checked operation answers [None] where the source raises
    the overflow exception.

    Signed 32- and 64-bit arithmetic wraps around, which is what the compiler's
    instructions do (C leaves it undefined).  The quotient of the smallest number
    by -1 is a [Fault]: the division instruction traps on x86-64.

    [x86_64] says whether the kernel is built with [ARCH_X86_64]. *)

From Stdlib Require Import Strings.Byte.
From S2P Require Import Prelude Status Bytes KernelHeap EvalStack ManagedObject Gc.
From S2P Require Import EmulatedFloat Opcode Frame.

Module Arith.
Import EmulatedFloat Opcode Frame.

Definition k_int32_max : Z := 0x7FFFFFFF.
Definition k_int32_min : Z := -2147483647 - 1.
Definition k_uint32_max : Z := 0xFFFFFFFF.
Definition k_int64_max : Z := 0x7FFFFFFFFFFFFFFF.
Definition k_int64_min : Z := - 0x7FFFFFFFFFFFFFFF - 1.
Definition k_uint64_max : Z := 0xFFFFFFFFFFFFFFFF.

(** [(int8_t)x] and [(int16_t)x]. *)
Definition i8 (x : Z) : Z := if u8 x <? 2 ^ 7 then u8 x else u8 x - 2 ^ 8.
Definition i16 (x : Z) : Z := if u16 x <? 2 ^ 15 then u16 x else u16 x - 2 ^ 16.

(** ** Reading stack values *)

Section reading.
Context {K : Type}.

(** The bytes of a value type of at most four, or of eight bytes as a word. *)
Definition valuetype_word (s : store K) (v : zaclr_stack_value) : outcome Z :=
  p ← zaclr_stack_value_payload s v;
  match p with
  | None => Err (exec_error ZACLR_STATUS_DISPATCH_ERROR)
  | Some bytes =>
    if sv_payload_size v <=? 4 then l ← copy_bytes bytes (sv_payload_size v); Ret (le_word l)
    else if sv_payload_size v =? 8 then l ← copy_bytes bytes 8; Ret (le_word l)
    else Err (exec_error ZACLR_STATUS_DISPATCH_ERROR)
  end.

Definition stack_value_to_i32 (s : store K) (v : zaclr_stack_value) : outcome Z :=
  if (sv_kind v =? ZACLR_STACK_VALUE_I4) || (sv_kind v =? ZACLR_STACK_VALUE_I8)
     || (sv_kind v =? ZACLR_STACK_VALUE_BYREF) || (sv_kind v =? ZACLR_STACK_VALUE_OBJECT_REFERENCE)
  then w ← value_word v; Ret (i32 w)
  else if sv_kind v =? ZACLR_STACK_VALUE_VALUETYPE then w ← valuetype_word s v; Ret (i32 w)
  else Err (exec_error ZACLR_STATUS_DISPATCH_ERROR).

Definition stack_value_to_u32 (s : store K) (v : zaclr_stack_value) : outcome Z :=
  w ← stack_value_to_i32 s v; Ret (u32 w).

Definition stack_value_to_i64 (s : store K) (v : zaclr_stack_value) : outcome Z :=
  if (sv_kind v =? ZACLR_STACK_VALUE_I8) || (sv_kind v =? ZACLR_STACK_VALUE_BYREF)
     || (sv_kind v =? ZACLR_STACK_VALUE_OBJECT_REFERENCE)
  then w ← value_word v; Ret (i64 w)
  else if sv_kind v =? ZACLR_STACK_VALUE_I4 then w ← value_word v; Ret (i32 w)
  else if sv_kind v =? ZACLR_STACK_VALUE_VALUETYPE then w ← valuetype_word s v; Ret (i64 w)
  else Err (exec_error ZACLR_STATUS_DISPATCH_ERROR).

End reading.

Definition stack_value_to_common_float_bits (v : zaclr_stack_value) : outcome Z :=
  if sv_kind v =? ZACLR_STACK_VALUE_R4 then
    w ← value_word v; Ret (i64 (Z.shiftl (i32 w) (k_float64_shift - k_float32_shift)))
  else if sv_kind v =? ZACLR_STACK_VALUE_R8 then w ← value_word v; Ret (i64 w)
  else if sv_kind v =? ZACLR_STACK_VALUE_I4 then
    w ← value_word v; Ret (i64 (Z.shiftl (i32 w) k_float64_shift))
  else if sv_kind v =? ZACLR_STACK_VALUE_I8 then
    w ← value_word v; Ret (i64 (Z.shiftl (i64 w) k_float64_shift))
  else Ret 0.

Definition stack_value_to_common_float_bits_unsigned (v : zaclr_stack_value) : outcome Z :=
  if sv_kind v =? ZACLR_STACK_VALUE_R4 then
    w ← value_word v; Ret (i64 (Z.shiftl (i32 w) (k_float64_shift - k_float32_shift)))
  else if sv_kind v =? ZACLR_STACK_VALUE_R8 then w ← value_word v; Ret (i64 w)
  else if sv_kind v =? ZACLR_STACK_VALUE_I4 then
    w ← value_word v; Ret (i64 (Z.shiftl (u32 w) k_float64_shift))
  else if sv_kind v =? ZACLR_STACK_VALUE_I8 then
    w ← value_word v; Ret (i64 (u64 (Z.shiftl (u64 w) k_float64_shift)))
  else Ret 0.

Definition stack_value_is_i8_branch_operand (v : zaclr_stack_value) : bool :=
  (sv_kind v =? ZACLR_STACK_VALUE_I8)
  || ((sv_kind v =? ZACLR_STACK_VALUE_VALUETYPE) && (sv_payload_size v =? 8)).

Definition stack_value_is_float (v : zaclr_stack_value) : bool :=
  (sv_kind v =? ZACLR_STACK_VALUE_R4) || (sv_kind v =? ZACLR_STACK_VALUE_R8).

Definition value_of_i4 (x : Z) : zaclr_stack_value := word_value ZACLR_STACK_VALUE_I4 x.
Definition value_of_i8 (x : Z) : zaclr_stack_value := word_value ZACLR_STACK_VALUE_I8 x.
Definition value_of_r4 (x : Z) : zaclr_stack_value := word_value ZACLR_STACK_VALUE_R4 x.
Definition value_of_r8 (x : Z) : zaclr_stack_value := word_value ZACLR_STACK_VALUE_R8 x.

(** ** Binary operators *)

(** The signed division of the host: a zero divisor and the quotient that does not fit
    are undefined in C++ and trap on x86. *)
Definition host_div (min left right : Z) : outcome Z :=
  if (right =? 0) || ((left =? min) && (right =? -1)) then Fault else Ret (Z.quot left right).
Definition host_rem (min left right : Z) : outcome Z :=
  if (right =? 0) || ((left =? min) && (right =? -1)) then Fault else Ret (Z.rem left right).
(** The unsigned division of the host. *)
Definition host_udiv (left right : Z) : outcome Z := if right =? 0 then Fault else Ret (left / right).
Definition host_urem (left right : Z) : outcome Z := if right =? 0 then Fault else Ret (left mod right).

Definition binary_i4_result (op : zaclr_opcode) (left right : Z) : outcome Z :=
  let nonzero (m : outcome Z) := if right =? 0 then Err (exec_error ZACLR_STATUS_DISPATCH_ERROR) else m in
  match op with
  | CEE_ADD => Ret (i32 (left + right))
  | CEE_SUB => Ret (i32 (left - right))
  | CEE_MUL => Ret (i32 (left * right))
  | CEE_DIV => nonzero (host_div k_int32_min left right)
  | CEE_DIV_UN => nonzero (q ← host_udiv (u32 left) (u32 right); Ret (i32 q))
  | CEE_REM => nonzero (host_rem k_int32_min left right)
  | CEE_REM_UN => nonzero (q ← host_urem (u32 left) (u32 right); Ret (i32 q))
  | CEE_AND => Ret (Z.land left right)
  | CEE_OR => Ret (Z.lor left right)
  | CEE_XOR => Ret (Z.lxor left right)
  | CEE_SHL => Ret (i32 (Z.shiftl left (Z.land right 31)))
  | CEE_SHR => Ret (Z.shiftr left (Z.land right 31))
  | CEE_SHR_UN => Ret (i32 (Z.shiftr (u32 left) (Z.land right 31)))
  | _ => Err (exec_error ZACLR_STATUS_NOT_IMPLEMENTED)
  end.

Definition binary_i8_result (op : zaclr_opcode) (left right : Z) : outcome Z :=
  let nonzero (m : outcome Z) := if right =? 0 then Err (exec_error ZACLR_STATUS_DISPATCH_ERROR) else m in
  match op with
  | CEE_ADD => Ret (i64 (left + right))
  | CEE_SUB => Ret (i64 (left - right))
  | CEE_MUL => Ret (i64 (left * right))
  | CEE_DIV => nonzero (host_div k_int64_min left right)
  | CEE_DIV_UN => nonzero (q ← host_udiv (u64 left) (u64 right); Ret (i64 q))
  | CEE_REM => nonzero (host_rem k_int64_min left right)
  | CEE_REM_UN => nonzero (q ← host_urem (u64 left) (u64 right); Ret (i64 q))
  | CEE_AND => Ret (Z.land left right)
  | CEE_OR => Ret (Z.lor left right)
  | CEE_XOR => Ret (Z.lxor left right)
  | CEE_SHL => Ret (i64 (Z.shiftl left (Z.land right 63)))
  | CEE_SHR => Ret (Z.shiftr left (Z.land right 63))
  | CEE_SHR_UN => Ret (i64 (Z.shiftr (u64 left) (Z.land right 63)))
  | _ => Err (exec_error ZACLR_STATUS_NOT_IMPLEMENTED)
  end.

(** [push_common_float]. *)
Definition common_float_value (value : Z) (as_r8 : bool) : zaclr_stack_value :=
  if as_r8 then value_of_r8 (u64 value) else value_of_r4 (u32 (Z.shiftr value (k_float64_shift - k_float32_shift))).

Definition binary_r8_result (op : zaclr_opcode) (left right : zaclr_stack_value) : outcome zaclr_stack_value :=
  left_common ← stack_value_to_common_float_bits left;
  right_common ← stack_value_to_common_float_bits right;
  let as_r8 := (sv_kind left =? ZACLR_STACK_VALUE_R8) || (sv_kind right =? ZACLR_STACK_VALUE_R8) in
  result_common ←
    match op with
    | CEE_ADD => Ret (i64 (left_common + right_common))
    | CEE_SUB => Ret (i64 (left_common - right_common))
    | CEE_MUL => Ret (multiply_common left_common right_common)
    | CEE_DIV => if right_common =? 0 then Ret 0
                 else q ← host_div k_int64_min left_common right_common; Ret (i64 (Z.shiftl q k_float64_shift))
    | CEE_REM => if right_common =? 0 then Ret 0 else host_rem k_int64_min left_common right_common
    | _ => Err (exec_error ZACLR_STATUS_NOT_IMPLEMENTED)
    end;
  Ret (common_float_value result_common as_r8).

(** ** Checked operators *)

Definition checked (overflow : bool) (result_value : Z) : outcome (option Z) :=
  Ret (if overflow then None else Some result_value).

Definition binary_i4_checked_result (op : zaclr_opcode) (left right : Z) : outcome (option Z) :=
  match op with
  | CEE_ADD_OVF =>
    checked (((0 <? right) && (k_int32_max - right <? left)) || ((right <? 0) && (left <? k_int32_min - right)))
      (i32 (left + right))
  | CEE_ADD_OVF_UN => checked (k_uint32_max - u32 right <? u32 left) (i32 (u32 (u32 left + u32 right)))
  | CEE_SUB_OVF =>
    checked (((right <? 0) && (k_int32_max + right <? left)) || ((0 <? right) && (left <? k_int32_min + right)))
      (i32 (left - right))
  | CEE_SUB_OVF_UN => checked (u32 left <? u32 right) (i32 (u32 (u32 left - u32 right)))
  | CEE_MUL_OVF =>
    let result_value := i64 (left * right) in
    checked ((k_int32_max <? result_value) || (result_value <? k_int32_min)) (i32 result_value)
  | CEE_MUL_OVF_UN =>
    let unsigned_result := u64 (u32 left * u32 right) in
    checked (k_uint32_max <? unsigned_result) (i32 (i64 unsigned_result))
  | _ => Err (exec_error ZACLR_STATUS_NOT_IMPLEMENTED)
  end.

(** The magnitude of a number, computed without leaving [int64_t]. *)
Definition abs_u64 (x : Z) : Z := if x <? 0 then u64 (u64 (- (x + 1)) + 1) else u64 x.

Definition binary_i8_checked_result (op : zaclr_opcode) (left right : Z) : outcome (option Z) :=
  match op with
  | CEE_ADD_OVF =>
    checked (((0 <? right) && (k_int64_max - right <? left)) || ((right <? 0) && (left <? k_int64_min - right)))
      (i64 (left + right))
  | CEE_ADD_OVF_UN => checked (k_uint64_max - u64 right <? u64 left) (i64 (u64 (u64 left + u64 right)))
  | CEE_SUB_OVF =>
    checked (((right <? 0) && (k_int64_max + right <? left)) || ((0 <? right) && (left <? k_int64_min + right)))
      (i64 (left - right))
  | CEE_SUB_OVF_UN => checked (u64 left <? u64 right) (i64 (u64 (u64 left - u64 right)))
  | CEE_MUL_OVF =>
    if (left =? 0) || (right =? 0) then checked false 0
    else if ((left =? -1) && (right =? k_int64_min)) || ((right =? -1) && (left =? k_int64_min))
    then checked true 0
    else
      let product_negative := xorb (left <? 0) (right <? 0) in
      let abs_left := abs_u64 left in
      let abs_right := abs_u64 right in
      let limit := if product_negative then 0x8000000000000000 else 0x7FFFFFFFFFFFFFFF in
      checked (negb (abs_left =? 0) && (limit / abs_left <? abs_right)) (i64 (left * right))
  | CEE_MUL_OVF_UN =>
    let unsigned_result := u64 (u64 left * u64 right) in
    checked (negb (u64 left =? 0) && (k_uint64_max / u64 left <? u64 right)) (i64 unsigned_result)
  | _ => Err (exec_error ZACLR_STATUS_NOT_IMPLEMENTED)
  end.

(** ** Conversions *)

Section conversions.
Context {K : Type} (x86_64 : bool).

Definition converted_value (s : store K) (op : zaclr_opcode) (v : zaclr_stack_value) : outcome zaclr_stack_value :=
  let from_i32 (f : Z -> Z) := w ← stack_value_to_i32 s v; Ret (value_of_i4 (f w)) in
  let from_i64 (f : Z -> Z) := w ← stack_value_to_i64 s v; Ret (value_of_i8 (f w)) in
  let unsigned w := if sv_kind v =? ZACLR_STACK_VALUE_I4 then i64 (u32 w) else i64 (u64 w) in
  match op with
  | CEE_CONV_I1 => from_i32 i8
  | CEE_CONV_I2 => from_i32 i16
  | CEE_CONV_I4 => from_i32 (fun w => w)
  | CEE_CONV_I => if x86_64 then from_i64 (fun w => w) else from_i32 (fun w => w)
  | CEE_CONV_I8 => from_i64 (fun w => w)
  | CEE_CONV_U1 => from_i32 u8
  | CEE_CONV_U2 => from_i32 u16
  | CEE_CONV_U4 => from_i32 (fun w => i32 (u32 w))
  | CEE_CONV_U => if x86_64 then from_i64 unsigned else from_i32 (fun w => i32 (u32 w))
  | CEE_CONV_U8 => from_i64 unsigned
  | CEE_CONV_R4 => w ← stack_value_to_common_float_bits v;
                   Ret (value_of_r4 (u32 (Z.shiftr w (k_float64_shift - k_float32_shift))))
  | CEE_CONV_R8 => w ← stack_value_to_common_float_bits v; Ret (value_of_r8 (u64 w))
  | CEE_CONV_R_UN => w ← stack_value_to_common_float_bits_unsigned v; Ret (value_of_r8 (u64 w))
  | _ => Err (exec_error ZACLR_STATUS_NOT_IMPLEMENTED)
  end.

(** The instructions that read their operand as an unsigned number. *)
Definition is_unsigned_source (op : zaclr_opcode) : bool :=
  match op with
  | CEE_CONV_OVF_I1_UN | CEE_CONV_OVF_I2_UN | CEE_CONV_OVF_I4_UN | CEE_CONV_OVF_I8_UN
  | CEE_CONV_OVF_U1_UN | CEE_CONV_OVF_U2_UN | CEE_CONV_OVF_U4_UN | CEE_CONV_OVF_U8_UN
  | CEE_CONV_OVF_I_UN | CEE_CONV_OVF_U_UN => true
  | _ => false
  end.

(** The operand: [unsigned_value] when the source is unsigned, [signed_value]
    otherwise. *)
Definition conversion_operand (s : store K) (op : zaclr_opcode) (v : zaclr_stack_value) : outcome Z :=
  if is_unsigned_source op then
    if sv_kind v =? ZACLR_STACK_VALUE_I8 then w ← value_word v; Ret (u64 (i64 w))
    else if sv_kind v =? ZACLR_STACK_VALUE_I4 then w ← value_word v; Ret (u32 (i32 w))
    else Err (exec_error ZACLR_STATUS_DISPATCH_ERROR)
  else stack_value_to_i64 s v.

Definition checked_converted_value (s : store K) (op : zaclr_opcode) (v : zaclr_stack_value)
  : outcome (option zaclr_stack_value) :=
  w ← conversion_operand s op v;
  let uns := is_unsigned_source op in
  let narrow (lo hi : Z) (f : Z -> Z) :=
    Ret (if (uns && (hi <? w)) || (negb uns && ((w <? lo) || (hi <? w))) then None
         else Some (value_of_i4 (f w))) in
  match op with
  | CEE_CONV_OVF_I1 | CEE_CONV_OVF_I1_UN => narrow (-128) 127 i8
  | CEE_CONV_OVF_U1 | CEE_CONV_OVF_U1_UN => narrow 0 255 u8
  | CEE_CONV_OVF_I2 | CEE_CONV_OVF_I2_UN => narrow (-32768) 32767 i16
  | CEE_CONV_OVF_U2 | CEE_CONV_OVF_U2_UN => narrow 0 65535 u16
  | CEE_CONV_OVF_I4 | CEE_CONV_OVF_I4_UN => narrow k_int32_min k_int32_max i32
  | CEE_CONV_OVF_I | CEE_CONV_OVF_I_UN =>
    if x86_64 then
      Ret (if uns then if 0x7FFFFFFFFFFFFFFF <? w then None else Some (value_of_i8 (i64 w))
           else if (w <? k_int64_min) || (k_int64_max <? w) then None else Some (value_of_i8 w))
    else narrow k_int32_min k_int32_max i32
  | CEE_CONV_OVF_U4 | CEE_CONV_OVF_U | CEE_CONV_OVF_U4_UN | CEE_CONV_OVF_U_UN =>
    narrow 0 0xFFFFFFFF (fun w => i32 (u32 w))
  | CEE_CONV_OVF_I8 =>
    Ret (if (w <? k_int64_min) || (k_int64_max <? w) then None else Some (value_of_i8 w))
  | CEE_CONV_OVF_I8_UN => Ret (if 0x7FFFFFFFFFFFFFFF <? w then None else Some (value_of_i8 (i64 w)))
  | CEE_CONV_OVF_U8 => Ret (if negb uns && (w <? 0) then None else Some (value_of_i8 w))
  | CEE_CONV_OVF_U8_UN => Ret (Some (value_of_i8 (i64 w)))
  | _ => Err (exec_error ZACLR_STATUS_NOT_IMPLEMENTED)
  end.

(** ** Comparisons *)

Definition truth (b : bool) : Z := if b then 1 else 0.

(** The comparison of two numbers, [unsigned] being the conversion the unsigned
    instructions apply first. *)
Definition compare_numbers (unsigned : Z -> Z) (op : zaclr_opcode) (left right : Z) : outcome Z :=
  match op with
  | CEE_CEQ => Ret (truth (left =? right))
  | CEE_CGT => Ret (truth (right <? left))
  | CEE_CLT => Ret (truth (left <? right))
  | CEE_CGT_UN => Ret (truth (unsigned right <? unsigned left))
  | CEE_CLT_UN => Ret (truth (unsigned left <? unsigned right))
  | _ => Err (exec_error ZACLR_STATUS_NOT_IMPLEMENTED)
  end.

Definition is_kind (k : Z) (v : zaclr_stack_value) : bool := sv_kind v =? k.

Definition compared_handle (v : zaclr_stack_value) : outcome Z :=
  if is_kind ZACLR_STACK_VALUE_OBJECT_REFERENCE v
  then w ← value_word v; Ret (zaclr_heap_get_object_handle w) else Ret 0.

Definition compare_result (s : store K) (op : zaclr_opcode) (left right : zaclr_stack_value) : outcome Z :=
  let either k := is_kind k left || is_kind k right in
  if either ZACLR_STACK_VALUE_OBJECT_REFERENCE then
    left_handle ← compared_handle left;
    right_handle ← compared_handle right;
    match op with
    | CEE_CEQ => Ret (truth (left_handle =? right_handle))
    | CEE_CGT_UN => Ret (truth (negb (left_handle =? right_handle) && negb (left_handle =? 0)))
    | CEE_CLT_UN => Ret (truth (negb (right_handle =? left_handle) && negb (right_handle =? 0)))
    | _ => Err (exec_error ZACLR_STATUS_NOT_IMPLEMENTED)
    end
  else if either ZACLR_STACK_VALUE_I8 || either ZACLR_STACK_VALUE_VALUETYPE then
    left_i8 ← stack_value_to_i64 s left;
    right_i8 ← stack_value_to_i64 s right;
    compare_numbers u64 op left_i8 right_i8
  else
    left_i4 ← stack_value_to_i32 s left;
    right_i4 ← stack_value_to_i32 s right;
    compare_numbers u32 op left_i4 right_i4.

(** [neg] and [not]. *)
Definition unary_result (op : zaclr_opcode) (v : zaclr_stack_value) : outcome zaclr_stack_value :=
  let neg := bool_decide (op = CEE_NEG) in
  if is_kind ZACLR_STACK_VALUE_I8 v then
    w ← value_word v; Ret (value_of_i8 (if neg then i64 (- i64 w) else Z.lnot (i64 w)))
  else if is_kind ZACLR_STACK_VALUE_I4 v then
    w ← value_word v; Ret (value_of_i4 (if neg then i32 (- i32 w) else Z.lnot (i32 w)))
  else Err (exec_error ZACLR_STATUS_DISPATCH_ERROR).

(** The condition of [brtrue] and [brfalse]. *)
Definition branch_condition (s : store K) (v : zaclr_stack_value) : outcome bool :=
  if is_kind ZACLR_STACK_VALUE_I4 v then w ← value_word v; Ret (negb (i32 w =? 0))
  else if is_kind ZACLR_STACK_VALUE_I8 v then w ← value_word v; Ret (negb (i64 w =? 0))
  else if is_kind ZACLR_STACK_VALUE_OBJECT_REFERENCE v then w ← value_word v; Ret (negb (w =? 0))
  else if is_kind ZACLR_STACK_VALUE_VALUETYPE v then w ← valuetype_word s v; Ret (negb (w =? 0))
  else Err (exec_error ZACLR_STATUS_DISPATCH_ERROR).

End conversions.

(** The word a value holds as an integer of its kind. *)
Definition int_value (kind w : Z) : Z := if kind =? ZACLR_STACK_VALUE_I4 then i32 w else i64 w.

(** ** The checked operators, specified

    The operators of ECMA-335 on numbers of [w] bits: the exact result of the
    operation on the signed or on the unsigned operands, when a number of [w] bits
    can represent it. *)

Definition wrap (w x : Z) : Z := x mod 2 ^ w.
Definition signed (w x : Z) : Z := if wrap w x <? 2 ^ (w - 1) then wrap w x else wrap w x - 2 ^ w.
Definition fits_signed (w x : Z) : bool := (- 2 ^ (w - 1) <=? x) && (x <? 2 ^ (w - 1)).
Definition fits_unsigned (w x : Z) : bool := (0 <=? x) && (x <? 2 ^ w).

(** Whether the operands are signed, and the operation. *)
Definition ovf_operator (op : zaclr_opcode) : option (bool * (Z -> Z -> Z)) :=
  match op with
  | CEE_ADD_OVF => Some (true, Z.add)
  | CEE_SUB_OVF => Some (true, Z.sub)
  | CEE_MUL_OVF => Some (true, Z.mul)
  | CEE_ADD_OVF_UN => Some (false, Z.add)
  | CEE_SUB_OVF_UN => Some (false, Z.sub)
  | CEE_MUL_OVF_UN => Some (false, Z.mul)
  | _ => None
  end.

Definition checked_spec (w : Z) (op : zaclr_opcode) (left right : Z) : outcome (option Z) :=
  match ovf_operator op with
  | Some (true, f) =>
    let x := f left right in Ret (if fits_signed w x then Some x else None)
  | Some (false, f) =>
    let x := f (wrap w left) (wrap w right) in
    Ret (if fits_unsigned w x then Some (signed w x) else None)
  | None => Err (exec_error ZACLR_STATUS_NOT_IMPLEMENTED)
  end.

Definition in_int (w x : Z) : Prop := - 2 ^ (w - 1) <= x < 2 ^ (w - 1).

(** ** Lemmas *)

Lemma signed_id w x : 1 <= w -> in_int w x -> signed w x = x.
Proof.
  unfold in_int, signed, wrap. intros Hw Hx.
  assert (2 ^ w = 2 * 2 ^ (w - 1)) as E by (rewrite <- Z.pow_succ_r by lia; by rewrite Z.sub_1_r, Z.succ_pred).
  destruct (Z.ltb_spec x 0).
  - rewrite <- (Z.mod_unique x (2 ^ w) (-1) (x + 2 ^ w)) by lia. case_if; lia.
  - rewrite Z.mod_small by lia. case_if; lia.
Qed.

Lemma checked_eq b b' x y : b' = negb b -> (b = false -> x = y) ->
  checked b x = Ret (if b' then Some y else None).
Proof. intros -> H. unfold checked. destruct b; [done|]. by rewrite H. Qed.

Lemma div_lt_mul a b limit : 0 < a -> (limit / a <? b) = (limit <? a * b).
Proof.
  intros Ha. pose proof (Z.div_mod limit a ltac:(lia)). pose proof (Z.mod_pos_bound limit a Ha).
  apply Bool.eq_iff_eq_true. rewrite !Z.ltb_lt. split; nia.
Qed.

Lemma abs_u64_eq x : in_int 64 x -> abs_u64 x = Z.abs x.
Proof.
  unfold in_int, abs_u64. intros Hx. destruct (Z.ltb_spec x 0).
  - rewrite (u64_id (- (x + 1))), u64_id by lia. lia.
  - rewrite u64_id by lia. lia.
Qed.

(** Decide a comparison of booleans built from comparisons of integers. *)
Ltac bool_lia :=
  apply Bool.eq_iff_eq_true;
  repeat first [rewrite andb_true_iff | rewrite orb_true_iff | rewrite negb_true_iff];
  rewrite ?orb_false_iff, ?andb_false_iff, ?Z.ltb_lt, ?Z.leb_le, ?Z.ltb_ge, ?Z.leb_gt, ?Z.eqb_eq, ?Z.eqb_neq;
  lia.

Lemma checked_i4 op l r : in_int 32 l -> in_int 32 r -> binary_i4_checked_result op l r = checked_spec 32 op l r.
Proof.
  unfold in_int. change (2 ^ (32 - 1)) with (2 ^ 31). intros Hl Hr. pose proof (u32_range l). pose proof (u32_range r).
  assert (- 2 ^ 63 <= l * r < 2 ^ 63) as Hm by nia. assert (0 <= u32 l * u32 r < 2 ^ 64) as Hu by nia.
  destruct op; try reflexivity; unfold checked_spec, binary_i4_checked_result; cbn [ovf_operator];
    change (wrap 32) with u32; rewrite ?i64_id, ?(u64_id (u32 l * u32 r)) by done; apply checked_eq;
    unfold fits_signed, fits_unsigned, k_int32_max, k_int32_min, k_uint32_max; change (2 ^ (32 - 1)) with (2 ^ 31).
  all: try bool_lia. all: intros Ho; bool_cases; try (apply i32_id; lia); change (signed 32) with i32.
  - by rewrite (u32_id (_ + _)) by lia.
  - by rewrite i64_id by lia.
  - by rewrite (u32_id (_ - _)) by lia.
Qed.

Lemma checked_mul_i8 l r : in_int 64 l -> in_int 64 r ->
  binary_i8_checked_result CEE_MUL_OVF l r = checked_spec 64 CEE_MUL_OVF l r.
Proof.
  intros Hl Hr. unfold binary_i8_checked_result, checked_spec. cbn [ovf_operator]. rewrite !abs_u64_eq by done.
  unfold in_int, k_int64_min in *. change (2 ^ (64 - 1)) with (2 ^ 63) in *.
  destruct (Z.eqb_spec l 0) as [->|Hl0]; [done|]. destruct (Z.eqb_spec r 0) as [->|Hr0]; [by rewrite Z.mul_0_r|].
  cbn [orb]. case_if.
  { assert (l * r = 2 ^ 63) as -> by (apply orb_true_iff in Heqb as [E|E]; bool_cases; subst; lia). done. }
  rewrite (proj2 (Z.eqb_neq (Z.abs l) 0)) by lia. cbn [negb andb]. rewrite div_lt_mul by lia.
  rewrite <- Z.abs_mul. apply checked_eq.
  - unfold fits_signed. change (2 ^ (64 - 1)) with (2 ^ 63).
    destruct (Z.ltb_spec l 0), (Z.ltb_spec r 0); cbn [xorb];
      [assert (0 < l * r) by nia|assert (l * r < 0) by nia|assert (l * r < 0) by nia|assert (0 < l * r) by nia]; bool_lia.
  - intros Ho. apply i64_id. bool_cases. destruct (Z.ltb_spec l 0), (Z.ltb_spec r 0); cbn [xorb] in Ho; nia.
Qed.

Lemma checked_i8 op l r : in_int 64 l -> in_int 64 r -> binary_i8_checked_result op l r = checked_spec 64 op l r.
Proof.
  intros Hl Hr. destruct (decide (op = CEE_MUL_OVF)) as [->|Hop]; [by apply checked_mul_i8|].
  unfold in_int in *. change (2 ^ (64 - 1)) with (2 ^ 63) in *. pose proof (u64_range l). pose proof (u64_range r).
  destruct op; try reflexivity; try done; unfold checked_spec, binary_i8_checked_result; cbn [ovf_operator];
    change (wrap 64) with u64; apply checked_eq;
    unfold fits_signed, fits_unsigned, k_int64_max, k_int64_min, k_uint64_max; change (2 ^ (64 - 1)) with (2 ^ 63).
  all: try bool_lia. all: try (intros Ho; bool_cases; first [apply i64_id; lia | change (signed 64) with i64; rewrite (u64_id (_ + _)) by lia; done
    | change (signed 64) with i64; rewrite (u64_id (_ - _)) by lia; done]).
  - destruct (Z.eqb_spec (u64 l) 0) as [->|]; [done|]. cbn [negb andb]. rewrite div_lt_mul by lia.
    assert (0 <= u64 l * u64 r) by nia. bool_lia.
  - intros Ho. change (signed 64) with i64. f_equal. apply u64_id. split; [nia|].
    destruct (Z.eqb_spec (u64 l) 0) as [->|]; [lia|]. cbn [negb andb] in Ho. rewrite div_lt_mul in Ho by lia. bool_cases. lia.
Qed.

(** ** The conversions, specified *)

(** The type a conversion converts to: signed or unsigned, its width, and whether
    the result is pushed as a 64-bit value.  The native integers have the width the
    source gives them. *)
Definition conversion_target (x86_64 : bool) (op : zaclr_opcode) : option (bool * Z * bool) :=
  match op with
  | CEE_CONV_I1 | CEE_CONV_OVF_I1 | CEE_CONV_OVF_I1_UN => Some (true, 8, false)
  | CEE_CONV_I2 | CEE_CONV_OVF_I2 | CEE_CONV_OVF_I2_UN => Some (true, 16, false)
  | CEE_CONV_I4 | CEE_CONV_OVF_I4 | CEE_CONV_OVF_I4_UN => Some (true, 32, false)
  | CEE_CONV_I8 | CEE_CONV_OVF_I8 | CEE_CONV_OVF_I8_UN => Some (true, 64, true)
  | CEE_CONV_U1 | CEE_CONV_OVF_U1 | CEE_CONV_OVF_U1_UN => Some (false, 8, false)
  | CEE_CONV_U2 | CEE_CONV_OVF_U2 | CEE_CONV_OVF_U2_UN => Some (false, 16, false)
  | CEE_CONV_U4 | CEE_CONV_OVF_U4 | CEE_CONV_OVF_U4_UN => Some (false, 32, false)
  | CEE_CONV_U8 | CEE_CONV_OVF_U8 | CEE_CONV_OVF_U8_UN => Some (false, 64, true)
  | CEE_CONV_I | CEE_CONV_OVF_I | CEE_CONV_OVF_I_UN => Some (true, if x86_64 then 64 else 32, x86_64)
  | CEE_CONV_U | CEE_CONV_OVF_U | CEE_CONV_OVF_U_UN => Some (false, if x86_64 then 64 else 32, x86_64)
  | _ => None
  end.

(** The instructions with an overflow check. *)
Definition is_checked (op : zaclr_opcode) : bool :=
  match op with
  | CEE_CONV_OVF_I1 | CEE_CONV_OVF_U1 | CEE_CONV_OVF_I2 | CEE_CONV_OVF_U2 | CEE_CONV_OVF_I4 | CEE_CONV_OVF_U4
  | CEE_CONV_OVF_I8 | CEE_CONV_OVF_U8 | CEE_CONV_OVF_I | CEE_CONV_OVF_U => true
  | _ => is_unsigned_source op
  end.

(** An integer of the stack: its width is 64 bits when [wide]. *)
Definition int_width (wide : bool) : Z := if wide then 64 else 32.
Definition int_of (wide : bool) (x : Z) : zaclr_stack_value :=
  if wide then value_of_i8 (signed 64 x) else value_of_i4 (signed 32 x).

(** The number a conversion starts from: the operand, or its unsigned reading for
    the instructions with an unsigned source and for the widening [conv.u8] and
    [conv.u]. *)
Definition conversion_source (x86_64 : bool) (op : zaclr_opcode) (wide : bool) (x : Z) : Z :=
  match op with
  | CEE_CONV_U8 => wrap (int_width wide) x
  | CEE_CONV_U => if x86_64 then wrap (int_width wide) x else x
  | _ => if is_unsigned_source op then wrap (int_width wide) x else x
  end.

Definition fits (sgn : bool) (w x : Z) : bool := if sgn then fits_signed w x else fits_unsigned w x.

(** The number of the target type with the same low bits. *)
Definition truncated (sgn : bool) (w x : Z) : Z := if sgn then signed w x else wrap w x.

Definition conversion_spec (x86_64 : bool) (op : zaclr_opcode) (wide : bool) (x : Z)
  : option (option zaclr_stack_value) :=
  match conversion_target x86_64 op with
  | None => None
  | Some (sgn, w, wide') =>
    let y := conversion_source x86_64 op wide x in
    Some (if is_checked op && negb (fits sgn w y) then None else Some (int_of wide' (truncated sgn w y)))
  end.

Definition convert {K} (x86_64 : bool) (s : store K) (op : zaclr_opcode) (v : zaclr_stack_value)
  : outcome (option zaclr_stack_value) :=
  if is_checked op then checked_converted_value x86_64 s op v
  else w ← converted_value x86_64 s op v; Ret (Some w).

Lemma wrap_id w x : 0 <= x < 2 ^ w -> wrap w x = x.
Proof. apply Z.mod_small. Qed.

Lemma wrap_range w x : 0 <= w -> 0 <= wrap w x < 2 ^ w.
Proof. intros. apply Z.mod_pos_bound. lia. Qed.

(** Truncation only looks at the low bits. *)
Lemma wrap_wrap w w' x : 0 <= w <= w' -> wrap w (wrap w' x) = wrap w x.
Proof.
  intros Hw. apply Z.mod_mod_divide. exists (2 ^ (w' - w)). rewrite <- Z.pow_add_r by lia. f_equal. lia.
Qed.

Lemma wrap_signed w w' x : 0 <= w <= w' -> 1 <= w' -> wrap w (signed w' x) = wrap w x.
Proof.
  intros Hw Hw'. unfold signed. case_if; [by apply wrap_wrap|].
  rewrite <- (wrap_wrap w w' x) by done. unfold wrap.
  replace (2 ^ w') with (2 ^ w * 2 ^ (w' - w)) by (rewrite <- Z.pow_add_r by lia; f_equal; lia).
  set (y := x mod _). replace (y - 2 ^ w * 2 ^ (w' - w)) with (y + - 2 ^ (w' - w) * 2 ^ w) by ring.
  apply Z_mod_plus_full.
Qed.

Lemma signed_signed w w' x : 1 <= w <= w' -> signed w (signed w' x) = signed w x.
Proof. intros. unfold signed at 1 3. by rewrite wrap_signed by lia. Qed.

Lemma signed_wrap w w' x : 1 <= w <= w' -> signed w (wrap w' x) = signed w x.
Proof. intros. unfold signed. by rewrite wrap_wrap by lia. Qed.

Lemma signed_range w x : 1 <= w -> in_int w (signed w x).
Proof.
  intros Hw. pose proof (wrap_range w x). unfold in_int, signed.
  assert (2 ^ w = 2 * 2 ^ (w - 1)) as E by (rewrite <- Z.pow_succ_r by lia; by rewrite Z.sub_1_r, Z.succ_pred). case_if; lia.
Qed.

(** A number of a narrow type is a number of the wider one. *)
Lemma signed_widen w w' x : 1 <= w <= w' -> signed w' (signed w x) = signed w x.
Proof.
  intros Hw. apply signed_id; [lia|]. pose proof (signed_range w x). unfold in_int in *.
  pose proof (EmulatedFloat.pow2_le (w - 1) (w' - 1)). lia.
Qed.

Lemma wrap_widen w w' x : 0 <= w < w' -> signed w' (wrap w x) = wrap w x.
Proof.
  intros Hw. apply signed_id; [lia|]. pose proof (wrap_range w x). unfold in_int.
  pose proof (EmulatedFloat.pow2_le w (w' - 1)). pose proof (Z.pow_pos_nonneg 2 (w' - 1)). lia.
Qed.

(** The conversions of C are those of the specification. *)
Ltac fold_widths :=
  change i8 with (signed 8); change i16 with (signed 16); change i32 with (signed 32);
  change i64 with (signed 64); change u8 with (wrap 8); change u16 with (wrap 16);
  change u32 with (wrap 32); change u64 with (wrap 64).

Lemma in_int_widen w w' x : 1 <= w <= w' -> in_int w x -> in_int w' x.
Proof. intros Hw. unfold in_int. pose proof (EmulatedFloat.pow2_le (w - 1) (w' - 1)). lia. Qed.

(** An integer of the stack is read back as itself, or truncated. *)
Lemma read_i32 {K} (s : store K) wide x : in_int (int_width wide) x ->
  stack_value_to_i32 s (int_of wide x) = Ret (signed 32 x).
Proof.
  intros Hx. unfold stack_value_to_i32, int_of. destruct wide; cbn; f_equal.
  - change i32 with (signed 32). by rewrite signed_signed by lia.
  - change i32 with (signed 32). by rewrite signed_signed by lia.
Qed.

Lemma read_i64 {K} (s : store K) wide x : in_int (int_width wide) x ->
  stack_value_to_i64 s (int_of wide x) = Ret x.
Proof.
  intros Hx. unfold stack_value_to_i64, int_of. destruct wide; cbn; f_equal.
  - change i64 with (signed 64). rewrite signed_signed by lia. by apply signed_id.
  - change i32 with (signed 32). rewrite signed_signed by lia. by apply signed_id.
Qed.

Lemma converted_eq {K} x86_64 (s : store K) op wide x sgn w wide' :
  in_int (int_width wide) x -> is_checked op = false -> conversion_target x86_64 op = Some (sgn, w, wide') ->
  converted_value x86_64 s op (int_of wide x) =
    Ret (int_of wide' (truncated sgn w (conversion_source x86_64 op wide x))).
Proof.
  intros Hx Hc Ht. unfold converted_value. rewrite read_i32, read_i64 by done.
  pose proof (in_int_widen (int_width wide) 64 x ltac:(destruct wide; simpl; lia) Hx) as Hx64.
  destruct op; try discriminate Ht; try discriminate Hc; cbn in Ht; injection Ht as <- <- <-;
    unfold conversion_source, truncated; cbn [is_unsigned_source]; try destruct x86_64; cbn; f_equal; f_equal;
    fold_widths; try destruct wide; cbn;
    rewrite ?(signed_id 64 x), ?signed_widen, ?wrap_widen, ?signed_signed, ?wrap_signed, ?signed_wrap by (done || lia);
    rewrite ?(signed_id 64 x), ?signed_widen, ?wrap_widen, ?wrap_wrap by (done || lia); done.
Qed.

Lemma fits_truncated sgn w x : 1 <= w -> fits sgn w x = true -> truncated sgn w x = x.
Proof.
  intros Hw. unfold fits, truncated, fits_signed, fits_unsigned.
  destruct sgn; intros; bool_cases; [apply signed_id; [done|]; done|apply wrap_id; lia].
Qed.

Lemma operand_eq {K} x86_64 (s : store K) op wide x : in_int (int_width wide) x -> is_checked op = true ->
  conversion_operand s op (int_of wide x) = Ret (conversion_source x86_64 op wide x).
Proof.
  intros Hx Hc. unfold conversion_operand, conversion_source. rewrite read_i64 by done.
  destruct op; try discriminate Hc; cbn [is_unsigned_source]; try done; destruct wide; cbn; f_equal;
    fold_widths; rewrite wrap_signed, wrap_signed by lia; done.
Qed.

(** The source of an unsigned conversion is not negative. *)
Lemma source_range x86_64 op wide x : in_int (int_width wide) x ->
  let y := conversion_source x86_64 op wide x in
  - 2 ^ 63 <= y < 2 ^ 64 /\ (is_unsigned_source op = true -> 0 <= y) /\ (is_unsigned_source op = false -> is_checked op = true -> y < 2 ^ 63).
Proof.
  intros Hx y. pose proof (wrap_range (int_width wide) x ltac:(destruct wide; simpl; lia)) as Hr.
  unfold in_int in Hx. unfold y, conversion_source.
  destruct wide; cbn [int_width] in *; change (2 ^ (64 - 1)) with (2 ^ 63) in *; change (2 ^ (32 - 1)) with (2 ^ 31) in *;
    destruct op; cbn [is_unsigned_source is_checked]; try destruct x86_64; lia.
Qed.

Lemma checked_converted_eq {K} x86_64 (s : store K) op wide x sgn w wide' :
  in_int (int_width wide) x -> is_checked op = true -> conversion_target x86_64 op = Some (sgn, w, wide') ->
  (x86_64 = true -> op <> CEE_CONV_OVF_U /\ op <> CEE_CONV_OVF_U_UN) ->
  let y := conversion_source x86_64 op wide x in
  checked_converted_value x86_64 s op (int_of wide x) =
    Ret (if fits sgn w y then Some (int_of wide' (truncated sgn w y)) else None).
Proof.
  intros Hx Hc Ht Hn y. unfold checked_converted_value. rewrite (operand_eq x86_64) by done. rewrite Ret_bind.
  destruct (source_range x86_64 op wide x Hx) as (Hy & Hyu & Hys). fold y in Hy, Hyu, Hys |- *. clearbody y.
  assert (fits sgn w y = true -> truncated sgn w y = y) as Htr.
  { intros Hf. apply fits_truncated; [|done]. destruct op; try discriminate Ht; cbn in Ht; injection Ht as <- <- <-;
      try destruct x86_64; lia. }
  destruct op; try discriminate Hc; cbn in Ht; injection Ht as <- <- <-; cbn [is_unsigned_source is_checked negb andb orb] in *;
    try specialize (Hyu eq_refl); try specialize (Hys eq_refl eq_refl); try destruct x86_64;
    try (by destruct (Hn eq_refl)); unfold fits, fits_signed, fits_unsigned in *;
    unfold k_int32_min, k_int32_max, k_int64_min, k_int64_max, truncated in *; cbn [negb andb orb];
    repeat (case_if; try lia); try reflexivity; rewrite Htr by done; unfold int_of; do 3 f_equal; fold_widths;
    rewrite ?signed_wrap by lia; try reflexivity; rewrite ?wrap_id, ?signed_id; unfold in_int; lia.
Qed.


(** ** The unchecked operators, specified

    Addition, subtraction and multiplication keep the low bits of the exact result;
    the shift count is taken modulo the width; a left shift multiplies and a right
    shift divides, rounding down.  [None] is the trap of the division. *)

Definition binary_spec (w : Z) (op : zaclr_opcode) (l r : Z) : outcome Z :=
  let divided (m : outcome Z) := if r =? 0 then Err (exec_error ZACLR_STATUS_DISPATCH_ERROR) else m in
  match op with
  | CEE_ADD => Ret (signed w (l + r))
  | CEE_SUB => Ret (signed w (l - r))
  | CEE_MUL => Ret (signed w (l * r))
  | CEE_DIV => divided (if fits_signed w (Z.quot l r) then Ret (Z.quot l r) else Fault)
  | CEE_REM => divided (if fits_signed w (Z.quot l r) then Ret (l - r * Z.quot l r) else Fault)
  | CEE_DIV_UN => divided (Ret (signed w (wrap w l / wrap w r)))
  | CEE_REM_UN => divided (Ret (signed w (wrap w l mod wrap w r)))
  | CEE_AND => Ret (signed w (Z.land (wrap w l) (wrap w r)))
  | CEE_OR => Ret (signed w (Z.lor (wrap w l) (wrap w r)))
  | CEE_XOR => Ret (signed w (Z.lxor (wrap w l) (wrap w r)))
  | CEE_SHL => Ret (signed w (l * 2 ^ (r mod w)))
  | CEE_SHR => Ret (l / 2 ^ (r mod w))
  | CEE_SHR_UN => Ret (signed w (wrap w l / 2 ^ (r mod w)))
  | _ => Err (exec_error ZACLR_STATUS_NOT_IMPLEMENTED)
  end.

(** The bits of a number of [w] bits above its sign bit are copies of it. *)
Lemma in_int_bits w x i : 1 <= w -> in_int w x -> w - 1 <= i -> Z.testbit x i = (x <? 0).
Proof.
  unfold in_int. intros Hw Hx Hi. pose proof (EmulatedFloat.pow2_le (w - 1) i).
  destruct (Z.ltb_spec x 0).
  - rewrite <- (Z.lnot_involutive x). rewrite Z.lnot_spec by lia.
    assert (0 <= Z.lnot x < 2 ^ i) by (unfold Z.lnot; lia).
    destruct (Z.eq_dec (Z.lnot x) 0) as [->|]; [by rewrite Z.bits_0|].
    rewrite Z.bits_above_log2; [done|lia|]. apply Z.log2_lt_pow2; lia.
  - destruct (Z.eq_dec x 0) as [->|]; [apply Z.bits_0|]. apply Z.bits_above_log2; [lia|]. apply Z.log2_lt_pow2; lia.
Qed.

Lemma bits_in_int w x : 1 <= w -> (forall i, w - 1 <= i -> Z.testbit x i = (x <? 0)) -> in_int w x.
Proof.
  intros Hw Hb. unfold in_int.
  assert (forall y, 0 <= y -> (forall i, w - 1 <= i -> Z.testbit y i = false) -> y < 2 ^ (w - 1)) as Hpos.
  { intros y Hy Hbit. destruct (Z.eq_dec y 0) as [->|]; [apply Z.pow_pos_nonneg; lia|].
    apply Z.log2_lt_pow2; [lia|]. destruct (Z.lt_ge_cases (Z.log2 y) (w - 1)); [done|].
    specialize (Hbit (Z.log2 y) H). rewrite Z.bit_log2 in Hbit by lia. done. }
  destruct (Z.ltb_spec x 0).
  - assert (Z.lnot x < 2 ^ (w - 1)); [|unfold Z.lnot in *; lia]. apply Hpos; [unfold Z.lnot; lia|].
    intros i Hi. rewrite Z.lnot_spec, Hb by lia. done.
  - pose proof (Hpos x ltac:(lia) Hb). pose proof (Z.pow_pos_nonneg 2 (w - 1)). lia.
Qed.

(** A bitwise operator on two's complement numbers is the operator on their bits. *)
Lemma bitwise_signed (f : Z -> Z -> Z) (g : bool -> bool -> bool) w l r :
  1 <= w -> (forall a b i, 0 <= i -> Z.testbit (f a b) i = g (Z.testbit a i) (Z.testbit b i)) ->
  (forall a b, (f a b <? 0) = g (a <? 0) (b <? 0)) -> g false false = false ->
  in_int w l -> in_int w r -> in_int w (f l r) /\ f l r = signed w (f (wrap w l) (wrap w r)).
Proof.
  intros Hw Hf Hs Hg Hl Hr. assert (in_int w (f l r)) as Hin.
  { apply bits_in_int; [done|]. intros i Hi. rewrite Hf, Hs by lia. by rewrite !(in_int_bits w) by done. }
  split; [done|]. rewrite <- (signed_id w (f l r)) by done. unfold signed.
  assert (wrap w (f l r) = wrap w (f (wrap w l) (wrap w r))) as ->; [|done].
  unfold wrap. rewrite <- !Z.land_ones by lia. apply Z.bits_inj'. intros i Hi.
  rewrite !Z.land_spec, !Hf, !Z.land_spec by done. destruct (Z.testbit (Z.ones w) i); [by rewrite !andb_true_r|].
  by rewrite !andb_false_r.
Qed.

Lemma quot_fits w l r : 1 <= w -> in_int w l -> in_int w r -> r <> 0 ->
  fits_signed w (Z.quot l r) = negb ((l =? - 2 ^ (w - 1)) && (r =? -1)).
Proof.
  intros Hw Hl Hr Hr0. unfold in_int, fits_signed in *. set (p := 2 ^ (w - 1)) in *.
  destruct (Z.eq_dec r (-1)) as [->|Hr1].
  { assert (Z.quot l (-1) = - l) as -> by (change (-1) with (Z.opp 1); rewrite Z.quot_opp_r, Z.quot_1_r by lia; done).
    bool_lia. }
  assert (Z.abs (Z.quot l r) <= Z.abs l) as Ha.
  { rewrite <- Z.quot_abs by lia. apply Z.quot_le_upper_bound; [lia|]. nia. }
  destruct (Z.eq_dec l (- p)) as [->|Hlp].
  - rewrite (proj2 (Z.eqb_neq r (-1))) by done. rewrite andb_false_r. cbn [negb].
    destruct (Z.eq_dec r 1) as [->|Hr2]; [rewrite Z.quot_1_r; bool_lia|].
    assert (Z.abs (Z.quot (- p) r) < p); [|bool_lia].
    rewrite <- Z.quot_abs by lia. apply Z.quot_lt_upper_bound; nia.
  - rewrite (proj2 (Z.eqb_neq l (- p))) by done. cbn [andb negb]. bool_lia.
Qed.

Lemma host_div_spec w l r : 1 <= w -> in_int w l -> in_int w r -> r <> 0 ->
  host_div (- 2 ^ (w - 1)) l r = if fits_signed w (Z.quot l r) then Ret (Z.quot l r) else Fault.
Proof.
  intros Hw Hl Hr Hr0. rewrite quot_fits by done. unfold host_div. rewrite (proj2 (Z.eqb_neq r 0)) by done.
  cbn [orb]. by destruct (_ && _).
Qed.

Lemma host_rem_spec w l r : 1 <= w -> in_int w l -> in_int w r -> r <> 0 ->
  host_rem (- 2 ^ (w - 1)) l r = if fits_signed w (Z.quot l r) then Ret (l - r * Z.quot l r) else Fault.
Proof.
  intros Hw Hl Hr Hr0. rewrite quot_fits, <- Z.rem_eq by done. unfold host_rem. rewrite (proj2 (Z.eqb_neq r 0)) by done.
  cbn [orb]. by destruct (_ && _).
Qed.

Lemma wrap_nonzero w r : 1 <= w -> in_int w r -> r <> 0 -> (wrap w r =? 0) = false.
Proof.
  intros Hw Hr Hr0. apply Z.eqb_neq. unfold in_int, wrap in *. intros E. apply Z.mod_divide in E as [q Hq]; [|lia].
  assert (2 ^ w = 2 * 2 ^ (w - 1)) as Hp by (rewrite <- Z.pow_succ_r by lia; by rewrite Z.sub_1_r, Z.succ_pred).
  assert (q = 0 \/ q <= -1 \/ 1 <= q) as [-> |[?|?]] by lia; [lia|nia|nia].
Qed.

Lemma land_signed w l r : 1 <= w -> in_int w l -> in_int w r -> Z.land l r = signed w (Z.land (wrap w l) (wrap w r)).
Proof.
  intros. apply (bitwise_signed Z.land andb); try done; [intros; apply Z.land_spec|].
  intros a b. apply Bool.eq_iff_eq_true. rewrite andb_true_iff, !Z.ltb_lt. apply Z.land_neg.
Qed.

Lemma lor_signed w l r : 1 <= w -> in_int w l -> in_int w r -> Z.lor l r = signed w (Z.lor (wrap w l) (wrap w r)).
Proof.
  intros. apply (bitwise_signed Z.lor orb); try done; [intros; apply Z.lor_spec|].
  intros a b. apply Bool.eq_iff_eq_true. rewrite orb_true_iff, !Z.ltb_lt. apply Z.lor_neg.
Qed.

Lemma lxor_signed w l r : 1 <= w -> in_int w l -> in_int w r -> Z.lxor l r = signed w (Z.lxor (wrap w l) (wrap w r)).
Proof.
  intros. apply (bitwise_signed Z.lxor xorb); try done; [intros; apply Z.lxor_spec|].
  intros a b. pose proof (Z.lxor_nonneg a b).
  destruct (Z.ltb_spec (Z.lxor a b) 0), (Z.ltb_spec a 0), (Z.ltb_spec b 0); cbn; lia.
Qed.

(** Every result is a number of [w] bits. *)
Lemma binary_spec_range w op l r v : 1 <= w -> in_int w l -> in_int w r -> binary_spec w op l r = Ret v -> in_int w v.
Proof.
  intros Hw Hl Hr. pose proof (signed_range w) as Hs. unfold binary_spec.
  destruct op; try discriminate; repeat (case_if; try discriminate); intros [= <-]; auto.
  - unfold fits_signed in *. bool_cases. done.
  - rewrite <- Z.rem_eq by lia. pose proof (Z.rem_bound_abs l r ltac:(lia)). unfold in_int in *. lia.
  - unfold in_int in *. pose proof (Z.pow_pos_nonneg 2 (r mod w) ltac:(lia)) as Hp.
    pose proof (Z.mod_pos_bound r w ltac:(lia)). specialize (Hp ltac:(lia)).
    split; [apply Z.div_le_lower_bound; nia|apply Z.div_lt_upper_bound; nia].
Qed.

Lemma binary_eq_i4 op l r : in_int 32 l -> in_int 32 r -> binary_i4_result op l r = binary_spec 32 op l r.
Proof.
  intros Hl Hr. unfold binary_i4_result, binary_spec. pose proof (Z.mod_pos_bound r 32 ltac:(lia)).
  change 31 with (2 ^ 5 - 1). rewrite EmulatedFloat.land_low by lia. change (2 ^ 5) with 32.
  change k_int32_min with (- 2 ^ (32 - 1)).
  destruct op; try reflexivity; try (destruct (Z.eqb_spec r 0); [done|]; first
    [ by apply host_div_spec | by apply host_rem_spec
    | change (u32 r) with (wrap 32 r); unfold host_udiv, host_urem; by rewrite (wrap_nonzero 32) ]).
  - f_equal. by apply land_signed.
  - f_equal. by apply lor_signed.
  - f_equal. by apply lxor_signed.
  - by rewrite Z.shiftl_mul_pow2 by lia.
  - by rewrite Z.shiftr_div_pow2 by lia.
  - by rewrite Z.shiftr_div_pow2 by lia.
Qed.

Lemma binary_eq_i8 op l r : in_int 64 l -> in_int 64 r -> binary_i8_result op l r = binary_spec 64 op l r.
Proof.
  intros Hl Hr. unfold binary_i8_result, binary_spec. pose proof (Z.mod_pos_bound r 64 ltac:(lia)).
  change 63 with (2 ^ 6 - 1). rewrite EmulatedFloat.land_low by lia. change (2 ^ 6) with 64.
  change k_int64_min with (- 2 ^ (64 - 1)).
  destruct op; try reflexivity; try (destruct (Z.eqb_spec r 0); [done|]; first
    [ by apply host_div_spec | by apply host_rem_spec
    | change (u64 r) with (wrap 64 r); unfold host_udiv, host_urem; by rewrite (wrap_nonzero 64) ]).
  - f_equal. by apply land_signed.
  - f_equal. by apply lor_signed.
  - f_equal. by apply lxor_signed.
  - by rewrite Z.shiftl_mul_pow2 by lia.
  - by rewrite Z.shiftr_div_pow2 by lia.
  - by rewrite Z.shiftr_div_pow2 by lia.
Qed.

(** ** Theorems *)

(** C25: the operators with overflow check raise the exception exactly when the
    exact result, of the signed or of the unsigned operands as the instruction
    says, is not a number of the width of the operands, and push that result
    otherwise.  This holds for all operands of 32 and of 64 bits; the source never
    computes with more than 64 bits to decide it. *)
Theorem checked_arithmetic_exact :
  (forall op l r, in_int 32 l -> in_int 32 r -> binary_i4_checked_result op l r = checked_spec 32 op l r) /\
  (forall op l r, in_int 64 l -> in_int 64 r -> binary_i8_checked_result op l r = checked_spec 64 op l r).
Proof. split; [exact checked_i4|exact checked_i8]. Qed.

(** C26: the operators without overflow check compute what ECMA-335 says of them
    on numbers of 32 and of 64 bits, their result is a number of that width, and
    they trap exactly on the quotient and the remainder whose exact quotient does
    not fit. *)
Theorem integer_operators_correct :
  (forall op l r, in_int 32 l -> in_int 32 r -> binary_i4_result op l r = binary_spec 32 op l r /\
     forall v, binary_i4_result op l r = Ret v -> in_int 32 v) /\
  (forall op l r, in_int 64 l -> in_int 64 r -> binary_i8_result op l r = binary_spec 64 op l r /\
     forall v, binary_i8_result op l r = Ret v -> in_int 64 v).
Proof.
  split; intros op l r Hl Hr.
  - rewrite binary_eq_i4 by done. split; [done|]. intros v. by apply binary_spec_range.
  - rewrite binary_eq_i8 by done. split; [done|]. intros v. by apply binary_spec_range.
Qed.

Lemma conversion_meets {K} (x86_64 : bool) (s : store K) op wide x r :
  in_int (int_width wide) x -> (x86_64 = true -> op <> CEE_CONV_OVF_U /\ op <> CEE_CONV_OVF_U_UN) ->
  conversion_spec x86_64 op wide x = Some r -> convert x86_64 s op (int_of wide x) = Ret r.
Proof.
  intros Hx Hn. unfold conversion_spec, convert.
  destruct (conversion_target x86_64 op) as [[[sgn w] wide']|] eqn:Ht; [|done]. intros [= <-].
  destruct (is_checked op) eqn:Hc; cbn [andb].
  - rewrite (checked_converted_eq x86_64 s op wide x sgn w wide') by done. f_equal. by destruct (fits _ _ _).
  - by rewrite (converted_eq x86_64 s op wide x sgn w wide').
Qed.



(** ** Where the code departs from the specification *)

(** The smallest number divided by -1 is not an overflow exception. *)
Lemma division_traps : binary_i4_result CEE_DIV k_int32_min (-1) = Fault.
Proof. reflexivity. Qed.

(** On x86-64 [conv.ovf.u] rejects a number of the 64-bit native type. *)
Lemma conv_ovf_u_checks_32_bits :
  checked_converted_value true example_store CEE_CONV_OVF_U (value_of_i8 (2 ^ 32)) = Ret None.
Proof. reflexivity. Qed.

(** Comparing two floating-point numbers is an error. *)
Lemma float_comparison_fails :
  compare_result example_store CEE_CLT (value_of_r8 0) (value_of_r8 (2 ^ 16))
  = Err (exec_error ZACLR_STATUS_DISPATCH_ERROR).
Proof. reflexivity. Qed.

(** One divided by two is zero: the quotient is truncated to an integer before it
    is scaled. *)
Lemma float_division_truncates :
  binary_r8_result CEE_DIV (value_of_r8 (2 ^ 16)) (value_of_r8 (2 ^ 17)) = Ret (value_of_r8 0).
Proof. reflexivity. Qed.

End Arith.
