(* ===== verification/Exceptions.v ===== *)
(** * Exception handling

    The exception part of [zaclr/exec/zaclr_dispatch.cpp]: the search for a handler
    in the clause table of a method, [throw], [leave], [endfinally] and
    [endfilter].  A finally block that has to run before control reaches the target
    of a [leave] or the handler of an exception is entered by the interpreter; what
    has to happen afterwards is kept in the pending state of the frame, and
    [endfinally] takes it up.

    The parameters are the type test of a catch clause, which the type system
    performs, and the allocation of the exception object of a failed overflow
    check. *)

From Stdlib Require Import Strings.Byte Sorting.Sorted.
From S2P Require Import Prelude Status Bytes KernelHeap EvalStack ManagedObject Gc GenericContext.
From S2P Require Import Opcode Frame Arith.

Module Exceptions.
Import Opcode Frame Arith.

Definition clause_kind (c : zaclr_exception_clause) : Z := Z.land (cl_flags c) 0x7.

Definition covers (c : zaclr_exception_clause) (offset : Z) : bool :=
  negb ((offset <? try_offset c) || (u32 (try_offset c + try_length c) <=? offset)).

Definition finally_clause_is_between (c : zaclr_exception_clause) (source_offset target_offset : Z) : bool :=
  if negb (clause_kind c =? 2) then false
  else
    let try_start := try_offset c in
    let try_end := u32 (try_offset c + try_length c) in
    let handler_start := handler_offset c in
    let handler_end := u32 (handler_offset c + handler_length c) in
    (((try_start <=? source_offset) && (source_offset <? try_end))
     || ((handler_start <=? source_offset) && (source_offset <? handler_end)))
    && (handler_end <=? target_offset).

(** The loop of [find_next_finally_clause] over the clauses from [clause_index]
    on; [found] is the clause found so far, with the offset of its handler. *)
Fixpoint scan_finally (cs : list zaclr_exception_clause) (clause_index source_offset target_offset : Z)
    (found : option (Z * Z)) : option (Z * Z) :=
  match cs with
  | [] => found
  | c :: cs =>
    let found' :=
      if finally_clause_is_between c source_offset target_offset then
        match found with
        | None => Some (clause_index, handler_offset c)
        | Some (_, found_handler_offset) =>
          if handler_offset c <? found_handler_offset then Some (clause_index, handler_offset c) else found
        end
      else found in
    scan_finally cs (clause_index + 1) source_offset target_offset found'
  end.

Definition find_next_finally_clause (f : zaclr_frame) (source_offset target_offset start_clause_index : Z)
  : option Z :=
  fst <$> scan_finally (drop (Z.to_nat start_clause_index) (exception_clauses f)) start_clause_index
            source_offset target_offset None.

Section handlers.
Context {K : Type} `{KernelHeap K}.
(** [object_matches_type] of the exception object and the token of the clause. *)
Context (object_matches_type : Z -> Z -> bool).
(** The allocation of the exception object in [create_managed_exception]. *)
Context (new_exception : store K -> outcome Z * store K).

Definition does_catch_clause_match (c : zaclr_exception_clause) (exception_handle : Z) : bool :=
  if negb (clause_kind c =? 0) then false
  else if class_token c =? 0 then true
  else object_matches_type exception_handle (class_token c).

(** The clause accepts the exception: a catch clause that matches, or a filter. *)
Definition accepts (c : zaclr_exception_clause) (exception_handle throw_offset : Z) : bool :=
  covers c throw_offset
  && (((clause_kind c =? 0) && does_catch_clause_match c exception_handle) || (clause_kind c =? 1)).

Fixpoint find_accepting (cs : list zaclr_exception_clause) (clause_index exception_handle throw_offset : Z)
  : option (Z * zaclr_exception_clause) :=
  match cs with
  | [] => None
  | c :: cs => if accepts c exception_handle throw_offset then Some (clause_index, c)
               else find_accepting cs (clause_index + 1) exception_handle throw_offset
  end.

Definition reset_eval_stack_for_exception_object (exception_handle : Z) : exec K unit :=
  (fun s =>
     let '(st, _) := zaclr_eval_stack_destroy (fs_store s) (eval_stack (fs_frame s)) in
     let '(o, (st, e)) := zaclr_eval_stack_initialize st (max_stack (fs_frame s)) in
     (o, mk_fstate st (set_eval_stack e (fs_frame s)) (fs_exception s)));;
  push_object_handle exception_handle.

Definition clear_filter (f : zaclr_frame) : zaclr_frame :=
  set_filter no_filter (set_flags (Z.ldiff (frame_flags f) k_zaclr_frame_flag_filter_pending) f).
Definition clear_finally (f : zaclr_frame) : zaclr_frame :=
  set_finally no_finally (set_flags (Z.ldiff (frame_flags f) k_zaclr_frame_flag_finally_pending) f).
Definition set_pending_finally (p : pending_finally) (f : zaclr_frame) : zaclr_frame :=
  set_finally p (set_flags (Z.lor (frame_flags f) k_zaclr_frame_flag_finally_pending) f).

Definition dispatch_exception_to_handler_at_offset_from_clause
    (exception_handle throw_offset start_clause_index : Z) : exec K unit :=
  modify clear_filter;;
  cs ← gets exception_clauses;
  match find_accepting (drop (Z.to_nat start_clause_index) cs) start_clause_index exception_handle throw_offset with
  | None => fail ZACLR_STATUS_NOT_IMPLEMENTED
  | Some (clause_index, c) =>
    reset_eval_stack_for_exception_object exception_handle;;
    if clause_kind c =? 0 then modify (set_il_offset (handler_offset c))
    else
      modify (fun f => set_filter (mk_filter (handler_offset c) (clause_index + 1) throw_offset exception_handle)
                (set_flags (Z.lor (frame_flags f) k_zaclr_frame_flag_filter_pending) f));;
      modify (set_il_offset (class_token c))
  end.

Definition dispatch_exception_to_handler_at_offset (exception_handle throw_offset : Z) : exec K unit :=
  dispatch_exception_to_handler_at_offset_from_clause exception_handle throw_offset 0.

Definition find_exception_handler_entry_offset (f : zaclr_frame) (exception_handle throw_offset : Z) : option Z :=
  match find_accepting (exception_clauses f) 0 exception_handle throw_offset with
  | None => None
  | Some (_, c) => Some (if clause_kind c =? 0 then handler_offset c else class_token c)
  end.

Definition dispatch_next_finally_for_leave (source_offset target_offset start_clause_index : Z) : exec K unit :=
  f ← gets id;
  match find_next_finally_clause f source_offset target_offset start_clause_index with
  | None => modify clear_finally;; modify (set_il_offset target_offset)
  | Some clause_index =>
    match exception_clauses f .@ clause_index with
    | None => lift Fault
    | Some c =>
      modify (set_pending_finally
                (mk_finally k_zaclr_pending_finally_leave (clause_index + 1) source_offset target_offset 0));;
      modify (set_il_offset (handler_offset c))
    end
  end.

Definition dispatch_next_finally_for_throw (throw_offset exception_handle start_clause_index : Z) : exec K unit :=
  f ← gets id;
  let target_offset := default (il_size f) (find_exception_handler_entry_offset f exception_handle throw_offset) in
  match find_next_finally_clause f throw_offset target_offset start_clause_index with
  | None => modify clear_finally;; dispatch_exception_to_handler_at_offset exception_handle throw_offset
  | Some clause_index =>
    match exception_clauses f .@ clause_index with
    | None => lift Fault
    | Some c =>
      modify (set_pending_finally
                (mk_finally k_zaclr_pending_finally_throw (clause_index + 1) throw_offset 0 exception_handle));;
      modify (set_il_offset (handler_offset c))
    end
  end.

Definition dispatch_exception_to_handler (exception_handle : Z) : exec K unit :=
  f ← gets id; dispatch_next_finally_for_throw (il_offset f) exception_handle 0.

Definition set_current_exception (object : Z) : exec K unit := fun s =>
  (Ret (), mk_fstate (fs_store s) (fs_frame s) object).

Definition create_managed_exception : exec K Z :=
  handle ← with_store new_exception;
  set_current_exception (zaclr_heap_get_object handle);;
  if zaclr_heap_get_object handle =? 0
  then lift (Err (zaclr_result_make ZACLR_STATUS_NOT_FOUND ZACLR_STATUS_CATEGORY_HEAP)) else mret handle.

Definition raise_overflow_exception : exec K unit :=
  exception_handle ← create_managed_exception;
  f ← gets id;
  dispatch_exception_to_handler_at_offset exception_handle
    (if negb (il_offset f =? 0) then il_offset f - 1 else il_offset f).

(** ** The instructions *)

Definition stack_value_to_object_handle (v : zaclr_stack_value) : outcome Z :=
  if negb (sv_kind v =? ZACLR_STACK_VALUE_OBJECT_REFERENCE) then Err (exec_error ZACLR_STATUS_DISPATCH_ERROR)
  else w ← value_word v; Ret (zaclr_heap_get_object_handle w).

Definition step_throw : exec K unit :=
  exception_value ← pop;
  exception_handle ← lift (stack_value_to_object_handle exception_value);
  if exception_handle =? 0 then fail ZACLR_STATUS_INVALID_ARGUMENT
  else if zaclr_heap_get_object exception_handle =? 0
  then lift (Err (zaclr_result_make ZACLR_STATUS_NOT_FOUND ZACLR_STATUS_CATEGORY_HEAP))
  else
    set_current_exception (zaclr_heap_get_object exception_handle);;
    dispatch_exception_to_handler exception_handle.

(** [leave] to a target the caller has computed from the operand. *)
Definition step_leave (target_offset : Z) : exec K unit :=
  f ← gets id; dispatch_next_finally_for_leave (il_offset f) target_offset 0.

Definition step_endfinally : exec K unit :=
  f ← gets id;
  if negb (flag_set (frame_flags f) k_zaclr_frame_flag_finally_pending) then fail ZACLR_STATUS_BAD_STATE
  else
    let p := finally_state f in
    modify clear_finally;;
    if pf_kind p =? k_zaclr_pending_finally_leave then
      dispatch_next_finally_for_leave (pf_source_offset p) (pf_leave_target p) (u16 (pf_next_clause_index p))
    else if pf_kind p =? k_zaclr_pending_finally_throw then
      dispatch_next_finally_for_throw (pf_source_offset p) (pf_exception_handle p) (u16 (pf_next_clause_index p))
    else fail ZACLR_STATUS_BAD_STATE.

Definition step_endfilter : exec K unit :=
  f ← gets id;
  if negb (flag_set (frame_flags f) k_zaclr_frame_flag_filter_pending) then fail ZACLR_STATUS_BAD_STATE
  else
    filter_result ← pop;
    let p := filter_state f in
    accepted ← (fun s => (stack_value_to_i32 (fs_store s) filter_result,
                          mk_fstate (zaclr_stack_value_reset (fs_store s) filter_result).1 (fs_frame s) (fs_exception s)));
    if negb (accepted =? 0) then
      modify clear_filter;;
      reset_eval_stack_for_exception_object (pt_exception_handle p);;
      modify (set_il_offset (pt_handler_offset p))
    else
      dispatch_exception_to_handler_at_offset_from_clause (pt_exception_handle p) (pt_throw_offset p)
        (u16 (pt_next_clause_index p)).

End handlers.

(** ** Clause tables

    What a compiler emits: the handler follows its protected block (a finally
    handler at once), and of two finally clauses the inner one comes first in the
    table, lying in the protected block or in the handler of the outer one. *)

Definition in_try (c : zaclr_exception_clause) (o : Z) : bool :=
  (try_offset c <=? o) && (o <? try_offset c + try_length c).
Definition in_handler (c : zaclr_exception_clause) (o : Z) : bool :=
  (handler_offset c <=? o) && (o <? handler_offset c + handler_length c).
Definition is_finally (c : zaclr_exception_clause) : bool := clause_kind c =? 2.

Record clause_ok (size : Z) (c : zaclr_exception_clause) : Prop := {
  co_try : 0 <= try_offset c /\ 0 <= try_length c;
  co_order : try_offset c + try_length c <= handler_offset c;
  co_handler : 0 < handler_length c /\ handler_offset c + handler_length c <= size;
  co_finally : is_finally c = true -> handler_offset c = try_offset c + try_length c;
  co_filter : clause_kind c = 1 -> try_offset c + try_length c <= class_token c }.

(** [c] lies in the block of [length] bytes at [start]. *)
Definition lies_in (c : zaclr_exception_clause) (start length : Z) : Prop :=
  start <= try_offset c /\ handler_offset c + handler_length c <= start + length.

Definition nested (c d : zaclr_exception_clause) : Prop :=
  is_finally c = true -> is_finally d = true ->
  lies_in c (try_offset d) (try_length d) \/ lies_in c (handler_offset d) (handler_length d)
  \/ handler_offset c + handler_length c <= try_offset d
  \/ handler_offset d + handler_length d <= try_offset c.

Record clauses_ok (size : Z) (cs : list zaclr_exception_clause) : Prop := {
  cs_size : 0 <= size < 2 ^ 31;
  cs_count : zlength cs < 2 ^ 16;
  cs_each : Forall (clause_ok size) cs;
  cs_nested : StronglySorted nested cs }.

(** The finally blocks that control has to pass on its way from [source] to
    [target]: those that protect [source] and not [target]. *)
Definition must_run (source target : Z) (c : zaclr_exception_clause) : bool :=
  is_finally c && in_try c source && negb (in_try c target || in_handler c target).

(** Control does not jump out of a finally handler. *)
Definition stays_in_handlers (cs : list zaclr_exception_clause) (source target : Z) : Prop :=
  Forall (fun c => is_finally c = true -> in_handler c source = true -> in_handler c target = true) cs.

(** ** The search for the next finally block *)

Section search.
Context (size source target : Z).
Implicit Types (c : zaclr_exception_clause) (cs : list zaclr_exception_clause).

Lemma between_must_run c :
  0 <= size < 2 ^ 31 -> clause_ok size c -> source <= target ->
  (is_finally c = true -> in_handler c source = true -> in_handler c target = true) ->
  finally_clause_is_between c source target = must_run source target c.
Proof.
  intros Hs [Htry Ho Hh Hf _] Hst Hin. unfold finally_clause_is_between, must_run. fold (is_finally c).
  destruct (is_finally c) eqn:Hk; cbn [negb andb]; [|done]. specialize (Hf eq_refl). specialize (Hin eq_refl).
  rewrite !u32_id by lia. fold (in_try c source). fold (in_handler c source).
  unfold in_try, in_handler in *.
  destruct (Z.leb_spec (try_offset c) source), (Z.ltb_spec source (try_offset c + try_length c)); cbn [andb orb].
  - rewrite Hf. bool_lia.
  - destruct (_ && _)%bool eqn:E; cbn [andb]; [|done]. specialize (Hin eq_refl). bool_cases. bool_lia.
  - destruct (_ && _)%bool eqn:E; cbn [andb]; [|done]. specialize (Hin eq_refl). bool_cases. bool_lia.
  - destruct (_ && _)%bool eqn:E; cbn [andb]; [|done]. specialize (Hin eq_refl). bool_cases. bool_lia.
Qed.

(** The inner of two finally blocks around [source] comes first and has the
    smaller offset. *)
Lemma nested_ascending c d : clause_ok size c -> clause_ok size d -> nested c d ->
  must_run source target c = true -> must_run source target d = true -> handler_offset c < handler_offset d.
Proof.
  intros [] [] Hn Hc Hd. unfold must_run, in_try in *. bool_cases.
  unfold nested, lies_in in Hn. destruct (Hn ltac:(done) ltac:(done)) as [H'|[H'|[H'|H']]]; lia.
Qed.

Definition later (c d : zaclr_exception_clause) : Prop :=
  finally_clause_is_between c source target = true -> finally_clause_is_between d source target = true ->
  handler_offset c < handler_offset d.

Lemma scan_skip cs i k h :
  Forall (fun d => finally_clause_is_between d source target = true -> h < handler_offset d) cs ->
  scan_finally cs i source target (Some (k, h)) = Some (k, h).
Proof.
  revert i. induction cs as [|c cs IH]; intros i Hf; [done|]. inversion Hf as [|? ? Hc Hcs]; subst. simpl.
  destruct (finally_clause_is_between c source target) eqn:Hb; [|by apply IH].
  specialize (Hc eq_refl). rewrite (proj2 (Z.ltb_ge _ _)) by lia. by apply IH.
Qed.

Lemma scan_cons c cs i : StronglySorted later (c :: cs) ->
  scan_finally (c :: cs) i source target None =
  if finally_clause_is_between c source target then Some (i, handler_offset c)
  else scan_finally cs (i + 1) source target None.
Proof.
  intros Hs. apply StronglySorted_inv in Hs as [_ Hf]. simpl.
  destruct (finally_clause_is_between c source target) eqn:Hb; [|done]. apply scan_skip.
  eapply Forall_impl; [exact Hf|]. intros d Hd. by apply Hd.
Qed.

Lemma clauses_later cs : clauses_ok size cs -> source <= target -> stays_in_handlers cs source target ->
  StronglySorted later cs /\
  Forall (fun c => finally_clause_is_between c source target = must_run source target c) cs.
Proof.
  intros [Hsz _ He Hn] Hst Hin.
  assert (Forall (fun c => clause_ok size c /\ finally_clause_is_between c source target = must_run source target c) cs) as Hall.
  { unfold stays_in_handlers in Hin. rewrite Forall_forall in *. intros c Hc. specialize (He c Hc). split; [done|].
    apply between_must_run; auto. }
  split; [|eapply Forall_impl; [exact Hall|]; tauto].
  clear He Hin. induction Hn as [|c cs Hs IH Hf]; [constructor|]. inversion Hall as [|? ? [Hc Hcb] Hcs]; subst.
  constructor; [auto|]. rewrite Forall_forall in *. intros d Hd. destruct (Hcs d Hd) as [Hd1 Hd2].
  unfold later. rewrite Hcb, Hd2. apply nested_ascending; auto.
Qed.

End search.

(** ** Running the finally blocks *)

Section running.
Context {K : Type} `{KernelHeap K}.
Context (object_matches_type : Z -> Z -> bool).

(** The execution of a finally handler up to its [endfinally].  It may change the
    stack, the locals, the arguments and the heap. *)
Context (body : exec K unit).
Implicit Types (s : fstate K) (f : zaclr_frame).

(** The pending state and the clause table are as they were. *)
Definition same_handling (f f' : zaclr_frame) : Prop :=
  exception_clauses f' = exception_clauses f /\ il_size f' = il_size f /\ max_stack f' = max_stack f /\
  finally_state f' = finally_state f /\ frame_flags f' = frame_flags f.

Definition body_ok : Prop := forall s, exists s', body s = (Ret (), s') /\ same_handling (fs_frame s) (fs_frame s').

(** Control at a finally handler: run it, and take up what is pending.  The result
    is the list of the handlers entered. *)
Fixpoint run_finallies (fuel : nat) : exec K (list Z) :=
  f ← gets id;
  if flag_set (frame_flags f) k_zaclr_frame_flag_finally_pending then
    match fuel with
    | O => lift NoFuel
    | S fuel =>
      body;;
      step_endfinally object_matches_type;;
      l ← run_finallies fuel;
      mret (il_offset f :: l)
    end
  else mret [].

Lemma bind_eq {A B} (m : exec K A) (k : A -> exec K B) s a s' : m s = (Ret a, s') -> (m ≫= k) s = k a s'.
Proof. unfold mbind, exec_bind. by intros ->. Qed.

Lemma bind_inv {A B} (m : exec K A) (k : A -> exec K B) s b s' : (m ≫= k) s = (Ret b, s') ->
  exists a s1, m s = (Ret a, s1) /\ k a s1 = (Ret b, s').
Proof. unfold mbind, exec_bind. destruct (m s) as [[a|r| |] s1]; intros E; try done. eauto. Qed.

Lemma clear_not_pending f : flag_set (frame_flags (clear_finally f)) k_zaclr_frame_flag_finally_pending = false.
Proof.
  unfold flag_set, k_zaclr_frame_flag_finally_pending. simpl. by rewrite Z.land_ldiff.
Qed.

Lemma set_pending p f : flag_set (frame_flags (set_pending_finally p f)) k_zaclr_frame_flag_finally_pending = true.
Proof.
  unfold flag_set, k_zaclr_frame_flag_finally_pending. simpl. apply negb_true_iff, Z.eqb_neq. intros E.
  apply (f_equal (fun z => Z.testbit z 2)) in E. rewrite Z.land_spec, Z.lor_spec, orb_true_r in E. done.
Qed.

(** The states between which control passes: everything but the pending state, the
    offset and what the handlers change is as in [f]. *)
Definition same_table (f f' : zaclr_frame) : Prop :=
  exception_clauses f' = exception_clauses f /\ il_size f' = il_size f /\ max_stack f' = max_stack f.

(** One dispatch: the state it leaves. *)
Lemma leave_none source target start s :
  find_next_finally_clause (fs_frame s) source target start = None ->
  dispatch_next_finally_for_leave source target start s =
    (Ret (), mk_fstate (fs_store s) (set_il_offset target (clear_finally (fs_frame s))) (fs_exception s)).
Proof.
  intros E. unfold dispatch_next_finally_for_leave, mbind, exec_bind, gets, id. cbv beta iota. by rewrite E.
Qed.

Lemma leave_some source target start s i c :
  find_next_finally_clause (fs_frame s) source target start = Some i ->
  exception_clauses (fs_frame s) .@ i = Some c ->
  dispatch_next_finally_for_leave source target start s =
    (Ret (), mk_fstate (fs_store s) (set_il_offset (handler_offset c)
       (set_pending_finally (mk_finally k_zaclr_pending_finally_leave (i + 1) source target 0) (fs_frame s)))
       (fs_exception s)).
Proof.
  intros E Ec. unfold dispatch_next_finally_for_leave, mbind, exec_bind, gets, id. cbv beta iota. rewrite E, Ec. done.
Qed.

Lemma endfinally_leave source target i s :
  flag_set (frame_flags (fs_frame s)) k_zaclr_frame_flag_finally_pending = true ->
  finally_state (fs_frame s) = mk_finally k_zaclr_pending_finally_leave i source target 0 -> 0 <= i < 2 ^ 16 ->
  step_endfinally object_matches_type s =
    dispatch_next_finally_for_leave source target i
      (mk_fstate (fs_store s) (clear_finally (fs_frame s)) (fs_exception s)).
Proof.
  intros Hf Hp Hi. unfold step_endfinally, mbind, exec_bind, gets, id, modify. cbv beta iota.
  rewrite Hf, Hp. cbn [negb pf_kind pf_source_offset pf_leave_target pf_next_clause_index].
  change (k_zaclr_pending_finally_leave =? k_zaclr_pending_finally_leave) with true. cbv iota.
  by rewrite u16_id by lia.
Qed.

(** Without pending finally the run is over. *)
Lemma run_done fuel s : flag_set (frame_flags (fs_frame s)) k_zaclr_frame_flag_finally_pending = false ->
  run_finallies fuel s = (Ret [], s).
Proof. intros E. destruct fuel; simpl; unfold mbind, exec_bind, gets, id; cbv beta iota; by rewrite E. Qed.

Lemma run_step fuel s s1 s2 l s3 : flag_set (frame_flags (fs_frame s)) k_zaclr_frame_flag_finally_pending = true ->
  body s = (Ret (), s1) -> step_endfinally object_matches_type s1 = (Ret (), s2) -> run_finallies fuel s2 = (Ret l, s3) ->
  run_finallies (S fuel) s = (Ret (il_offset (fs_frame s) :: l), s3).
Proof.
  intros E E1 E2 E3. simpl. unfold mbind, exec_bind, gets, id. cbv beta iota. rewrite E, E1, E2, E3. done.
Qed.

Lemma run_unfold fuel s s1 : flag_set (frame_flags (fs_frame s)) k_zaclr_frame_flag_finally_pending = true ->
  body s = (Ret (), s1) ->
  run_finallies (S fuel) s =
    (step_endfinally object_matches_type;; l ← run_finallies fuel; mret (il_offset (fs_frame s) :: l)) s1.
Proof. intros E E1. simpl. unfold mbind, exec_bind, gets, id. cbv beta iota. by rewrite E, E1. Qed.

(** The clauses from [zlength pre] on. *)
Lemma drop_prefix {A} (pre l : list A) : drop (Z.to_nat (zlength pre)) (pre ++ l) = l.
Proof. unfold zlength. rewrite Nat2Z.id. apply drop_app_length. Qed.

Lemma find_next_cons f source target pre c suf :
  exception_clauses f = pre ++ c :: suf -> StronglySorted (later source target) (c :: suf) ->
  find_next_finally_clause f source target (zlength pre) =
  if finally_clause_is_between c source target then Some (zlength pre)
  else find_next_finally_clause f source target (zlength (pre ++ [c])).
Proof.
  intros Hcs Hs. unfold find_next_finally_clause. rewrite Hcs, drop_prefix, scan_cons by done.
  destruct (finally_clause_is_between c source target); [done|].
  rewrite (app_assoc pre [c] suf : pre ++ c :: suf = _), drop_prefix, zlength_app. done.
Qed.

Lemma find_next_nil f source target : 
  find_next_finally_clause f source target (zlength (exception_clauses f)) = None.
Proof.
  unfold find_next_finally_clause. rewrite <- (app_nil_r (exception_clauses f)) at 2. by rewrite drop_prefix.
Qed.

Lemma leave_from source target pre suf fuel s :
  body_ok -> exception_clauses (fs_frame s) = pre ++ suf -> zlength (pre ++ suf) < 2 ^ 16 ->
  StronglySorted (later source target) suf -> (length suf <= fuel)%nat ->
  exists s', (dispatch_next_finally_for_leave source target (zlength pre);; run_finallies fuel) s =
    (Ret (map handler_offset (List.filter (fun c => finally_clause_is_between c source target) suf)), s') /\
    il_offset (fs_frame s') = target /\ same_table (fs_frame s) (fs_frame s') /\
    flag_set (frame_flags (fs_frame s')) k_zaclr_frame_flag_finally_pending = false.
Proof.
  intros Hbody. revert pre fuel s. induction suf as [|c suf IH]; intros pre fuel s Hcs Hlen Hsort Hfuel.
  - rewrite app_nil_r in Hcs. eexists. rewrite (bind_eq _ _ _ _ _ (leave_none source target (zlength pre) s ltac:(rewrite <- Hcs; apply find_next_nil))).
    rewrite run_done by apply clear_not_pending. repeat split. apply clear_not_pending.
  - pose proof (find_next_cons _ source target pre c suf Hcs Hsort) as Hn. simpl List.filter.
    apply StronglySorted_inv in Hsort as [Hsort _]. rewrite (app_assoc pre [c] suf : pre ++ c :: suf = _) in Hcs, Hlen.
    simpl in Hfuel. destruct (finally_clause_is_between c source target) eqn:Hb.
    + assert (exception_clauses (fs_frame s) .@ (zlength pre) = Some c) as Hc.
      { rewrite Hcs, get_app_l, get_app_r, Z.sub_diag by (rewrite ?zlength_app; unfold zlength; simpl; lia). done. }
      rewrite (bind_eq _ _ _ _ _ (leave_some source target _ s _ c Hn Hc)).
      destruct fuel as [|fuel]; [lia|]. set (s1 := mk_fstate _ _ _).
      destruct (Hbody s1) as (s2 & E2 & Ecl & Esz & Ems & Efs & Efl).
      destruct (IH (pre ++ [c]) fuel (mk_fstate (fs_store s2) (clear_finally (fs_frame s2)) (fs_exception s2)))
        as (s3 & E3 & Ho & (Ht1 & Ht2 & Ht3) & Hp); [simpl; by rewrite Ecl|done|done|lia|].
      apply bind_inv in E3 as ([] & s4 & E4 & E5).
      exists s3. split; [|split; [done|split; [|done]]].
      * apply (run_step fuel s1 s2 s4); [apply set_pending|done| |done].
        rewrite (endfinally_leave source target (zlength pre + 1)); [by rewrite zlength_app in E4|..].
        -- rewrite Efl. apply set_pending.
        -- by rewrite Efs.
        -- rewrite zlength_app in Hlen. rewrite zlength_app in Hlen. unfold zlength in *. simpl in *. lia.
      * simpl in *. repeat split; congruence.
    + destruct (IH (pre ++ [c]) fuel s Hcs Hlen Hsort ltac:(lia)) as (s' & E & Hrest). exists s'. split; [|done].
      rewrite <- E. unfold mbind, exec_bind. unfold dispatch_next_finally_for_leave, mbind, exec_bind, gets, id.
      cbv beta iota. rewrite Hn. done.
Qed.

(** *** Throw *)

Lemma throw_none throw h start s :
  find_next_finally_clause (fs_frame s) throw
    (default (il_size (fs_frame s)) (find_exception_handler_entry_offset object_matches_type (fs_frame s) h throw)) start = None ->
  dispatch_next_finally_for_throw object_matches_type throw h start s =
    dispatch_exception_to_handler_at_offset object_matches_type h throw
      (mk_fstate (fs_store s) (clear_finally (fs_frame s)) (fs_exception s)).
Proof.
  intros E. unfold dispatch_next_finally_for_throw, gets. unfold mbind, exec_bind. cbv beta iota zeta.
  change (id (fs_frame s)) with (fs_frame s). rewrite E. done.
Qed.

Lemma throw_some throw h start s i c :
  find_next_finally_clause (fs_frame s) throw
    (default (il_size (fs_frame s)) (find_exception_handler_entry_offset object_matches_type (fs_frame s) h throw)) start = Some i ->
  exception_clauses (fs_frame s) .@ i = Some c ->
  dispatch_next_finally_for_throw object_matches_type throw h start s =
    (Ret (), mk_fstate (fs_store s) (set_il_offset (handler_offset c)
       (set_pending_finally (mk_finally k_zaclr_pending_finally_throw (i + 1) throw 0 h) (fs_frame s)))
       (fs_exception s)).
Proof.
  intros E Ec. unfold dispatch_next_finally_for_throw, gets. unfold mbind, exec_bind. cbv beta iota zeta.
  change (id (fs_frame s)) with (fs_frame s). rewrite E, Ec. done.
Qed.

Lemma endfinally_throw throw h i s :
  flag_set (frame_flags (fs_frame s)) k_zaclr_frame_flag_finally_pending = true ->
  finally_state (fs_frame s) = mk_finally k_zaclr_pending_finally_throw i throw 0 h -> 0 <= i < 2 ^ 16 ->
  step_endfinally object_matches_type s =
    dispatch_next_finally_for_throw object_matches_type throw h i
      (mk_fstate (fs_store s) (clear_finally (fs_frame s)) (fs_exception s)).
Proof.
  intros Hf Hp Hi. unfold step_endfinally, mbind, exec_bind, gets, id, modify. cbv beta iota.
  rewrite Hf, Hp. cbn [negb pf_kind pf_source_offset pf_exception_handle pf_next_clause_index].
  change (k_zaclr_pending_finally_throw =? k_zaclr_pending_finally_leave) with false.
  change (k_zaclr_pending_finally_throw =? k_zaclr_pending_finally_throw) with true. cbv iota.
  by rewrite u16_id by lia.
Qed.

(** The entry of the handler depends on the clause table only. *)
Lemma entry_same f f' h throw : same_table f f' ->
  default (il_size f') (find_exception_handler_entry_offset object_matches_type f' h throw) =
  default (il_size f) (find_exception_handler_entry_offset object_matches_type f h throw).
Proof. intros (E1 & E2 & _). unfold find_exception_handler_entry_offset. by rewrite E1, E2. Qed.

Lemma find_next_same f f' source target start : exception_clauses f' = exception_clauses f ->
  find_next_finally_clause f' source target start = find_next_finally_clause f source target start.
Proof. unfold find_next_finally_clause. by intros ->. Qed.

(** The frame after the evaluation stack was reset, when memory sufficed. *)
Definition at_handler (f : zaclr_frame) (h : Z) (f' : zaclr_frame) : Prop :=
  same_table f f' /\ finally_state f' = finally_state f /\ filter_state f' = filter_state f /\
  frame_flags f' = frame_flags f /\ locals f' = locals f /\ arguments f' = arguments f /\
  es_depth (eval_stack f') = 1 /\ es_capacity (eval_stack f') = max_stack f /\
  es_values (eval_stack f') .@ 0 = Some (word_value ZACLR_STACK_VALUE_OBJECT_REFERENCE h).

Lemma reset_stack_spec h s : 0 < max_stack (fs_frame s) ->
  (exists s', reset_eval_stack_for_exception_object h s = (Err (exec_error ZACLR_STATUS_OUT_OF_MEMORY), s')) \/
  exists s', reset_eval_stack_for_exception_object h s = (Ret (), s') /\ at_handler (fs_frame s) h (fs_frame s').
Proof.
  intros Hm. unfold reset_eval_stack_for_exception_object, mbind, exec_bind.
  destruct (zaclr_eval_stack_destroy _ _) as [st e]. unfold zaclr_eval_stack_initialize.
  rewrite (proj2 (Z.eqb_neq _ 0)) by lia. destruct (kernel_alloc st.1 _) as [p k].
  destruct (p =? 0); [left; eauto|right]. cbv iota beta.
  unfold push_object_handle, push, zaclr_eval_stack_push. cbn [fs_frame fs_store eval_stack set_eval_stack es_capacity es_depth es_values].
  rewrite (proj2 (Z.leb_gt _ 0)) by lia.
  assert (replicate (Z.to_nat (max_stack (fs_frame s))) zero_value .@ 0 = Some zero_value) as ->.
  { unfold get. simpl. apply lookup_replicate. split; [done|lia]. }
  unfold zaclr_stack_value_assign, zaclr_stack_value_reset. change (owned_buffer zero_value) with (@None Z). cbv iota beta.
  unfold zaclr_stack_value_clone. cbn. eexists. split; [done|]. repeat split; try done.
  simpl. rewrite get_set_eq by (unfold zlength; rewrite length_replicate; lia).
  unfold zaclr_heap_get_object. by destruct (Z.eqb_spec h 0) as [->|].
Qed.

Definition handler_flags (c : zaclr_exception_clause) (flags : Z) : Z :=
  let flags := Z.ldiff flags k_zaclr_frame_flag_filter_pending in
  if clause_kind c =? 0 then flags else Z.lor flags k_zaclr_frame_flag_filter_pending.

(** The filter flag is not the finally flag. *)
Lemma handler_flags_finally c flags :
  flag_set (handler_flags c flags) k_zaclr_frame_flag_finally_pending = flag_set flags k_zaclr_frame_flag_finally_pending.
Proof.
  unfold flag_set, handler_flags, k_zaclr_frame_flag_filter_pending, k_zaclr_frame_flag_finally_pending.
  f_equal. f_equal. apply Z.bits_inj'. intros n Hn. destruct (Z.eq_dec n 2) as [->|Hne].
  - destruct (_ =? _); rewrite ?Z.land_spec, ?Z.lor_spec, ?Z.ldiff_spec; simpl; rewrite ?andb_true_r, ?orb_false_r; done.
  - rewrite !Z.land_spec. change 4 with (2 ^ 2). rewrite Z.pow2_bits_false by lia. by rewrite !andb_false_r.
Qed.

(** Where the search for a handler leads. *)
Lemma handler_found h throw s i c : 0 < max_stack (fs_frame s) ->
  find_accepting object_matches_type (exception_clauses (fs_frame s)) 0 h throw = Some (i, c) ->
  (exists s', dispatch_exception_to_handler_at_offset object_matches_type h throw s =
     (Err (exec_error ZACLR_STATUS_OUT_OF_MEMORY), s')) \/
  exists s', dispatch_exception_to_handler_at_offset object_matches_type h throw s = (Ret (), s') /\
    same_table (fs_frame s) (fs_frame s') /\
    il_offset (fs_frame s') = (if clause_kind c =? 0 then handler_offset c else class_token c) /\
    frame_flags (fs_frame s') = handler_flags c (frame_flags (fs_frame s)) /\
    filter_state (fs_frame s') = (if clause_kind c =? 0 then no_filter else mk_filter (handler_offset c) (i + 1) throw h) /\
    es_depth (eval_stack (fs_frame s')) = 1 /\
    es_values (eval_stack (fs_frame s')) .@ 0 = Some (word_value ZACLR_STACK_VALUE_OBJECT_REFERENCE h).
Proof.
  intros Hm Hf. unfold dispatch_exception_to_handler_at_offset, dispatch_exception_to_handler_at_offset_from_clause.
  set (s0 := mk_fstate (fs_store s) (clear_filter (fs_frame s)) (fs_exception s)).
  rewrite (bind_eq (modify clear_filter) _ s () s0) by done.
  rewrite (bind_eq (gets exception_clauses) _ s0 _ s0) by done. simpl drop. rewrite drop_0.
  change (exception_clauses (fs_frame s0)) with (exception_clauses (fs_frame s)). rewrite Hf.
  destruct (reset_stack_spec h s0 Hm) as [[s' E]|(s' & E & (T1 & T2 & T3) & _ & Hpt & Hfl & _ & _ & Hd & _ & Hv)].
  { left. exists s'. unfold mbind, exec_bind. by rewrite E. }
  right. rewrite (bind_eq _ _ _ _ _ E). unfold handler_flags. destruct (clause_kind c =? 0) eqn:Hk.
  - eexists. split; [reflexivity|]. simpl in *. split_and!; done.
  - eexists. split; [reflexivity|]. simpl in *. split_and!; try done. by rewrite Hfl.
Qed.

Lemma handler_missing h throw s :
  find_accepting object_matches_type (exception_clauses (fs_frame s)) 0 h throw = None ->
  dispatch_exception_to_handler_at_offset object_matches_type h throw s =
    (Err (exec_error ZACLR_STATUS_NOT_IMPLEMENTED), mk_fstate (fs_store s) (clear_filter (fs_frame s)) (fs_exception s)).
Proof.
  intros Hf. unfold dispatch_exception_to_handler_at_offset, dispatch_exception_to_handler_at_offset_from_clause.
  set (s0 := mk_fstate (fs_store s) (clear_filter (fs_frame s)) (fs_exception s)).
  rewrite (bind_eq (modify clear_filter) _ s () s0) by done.
  rewrite (bind_eq (gets exception_clauses) _ s0 _ s0) by done. simpl drop. rewrite drop_0.
  change (exception_clauses (fs_frame s0)) with (exception_clauses (fs_frame s)). by rewrite Hf.
Qed.

(** The exception passes the finally blocks of [suf] and then the search for its
    handler starts, in a state [s1] with nothing pending. *)
Lemma throw_from throw h target pre suf fuel s :
  body_ok -> 0 < max_stack (fs_frame s) ->
  exception_clauses (fs_frame s) = pre ++ suf -> zlength (pre ++ suf) < 2 ^ 16 ->
  target = default (il_size (fs_frame s)) (find_exception_handler_entry_offset object_matches_type (fs_frame s) h throw) ->
  StronglySorted (later throw target) suf -> (length suf <= fuel)%nat ->
  exists s1, same_table (fs_frame s) (fs_frame s1) /\
    (dispatch_next_finally_for_throw object_matches_type throw h (zlength pre);; run_finallies fuel) s =
    (dispatch_exception_to_handler_at_offset object_matches_type h throw;;
     mret (map handler_offset (List.filter (fun c => finally_clause_is_between c throw target) suf))) s1.
Proof.
  intros Hbody. revert pre fuel s. induction suf as [|c suf IH]; intros pre fuel s Hm Hcs Hlen Ht Hsort Hfuel.
  - rewrite app_nil_r in Hcs. set (s1 := mk_fstate (fs_store s) (clear_finally (fs_frame s)) (fs_exception s)).
    exists s1. split; [done|]. unfold mbind, exec_bind.
    rewrite throw_none by (rewrite <- Hcs; apply find_next_nil). fold s1.
    destruct (find_accepting object_matches_type (exception_clauses (fs_frame s1)) 0 h throw) as [[i c]|] eqn:Hf.
    + destruct (handler_found h throw s1 i c Hm Hf) as [[s' ->]|(s' & -> & _ & _ & Hfl & _)]; [done|].
      apply run_done. rewrite Hfl, handler_flags_finally. apply clear_not_pending.
    + by rewrite handler_missing.
  - pose proof (find_next_cons _ throw target pre c suf Hcs Hsort) as Hn. simpl List.filter.
    apply StronglySorted_inv in Hsort as [Hsort _]. rewrite (app_assoc pre [c] suf : pre ++ c :: suf = _) in Hcs, Hlen.
    simpl in Hfuel. destruct (finally_clause_is_between c throw target) eqn:Hb.
    + assert (exception_clauses (fs_frame s) .@ (zlength pre) = Some c) as Hc.
      { rewrite Hcs, get_app_l, get_app_r, Z.sub_diag by (rewrite ?zlength_app; unfold zlength; simpl; lia). done. }
      rewrite Ht in Hn. rewrite (bind_eq _ _ _ _ _ (throw_some throw h _ s _ c Hn Hc)).
      destruct fuel as [|fuel]; [lia|]. set (s0 := mk_fstate _ _ _).
      destruct (Hbody s0) as (s2 & E2 & Ecl & Esz & Ems & Efs & Efl).
      destruct (IH (pre ++ [c]) fuel (mk_fstate (fs_store s2) (clear_finally (fs_frame s2)) (fs_exception s2)))
        as (s1 & (Ht1 & Ht2 & Ht3) & E3); [simpl; by rewrite Ems|simpl; by rewrite Ecl|done| |done|lia|].
      { rewrite Ht. symmetry. apply entry_same. simpl. done. }
      exists s1. split; [simpl in *; repeat split; congruence|].
      rewrite (run_unfold fuel s0 s2); [|apply set_pending|done].
      unfold mbind, exec_bind in *.
      rewrite (endfinally_throw throw h (zlength pre + 1)); [rewrite zlength_app in E3|..].
      * change (zlength [c]) with 1 in E3.
        destruct (dispatch_next_finally_for_throw _ _ _ _ _) as [[u|r| |] s4]; [rewrite E3| | |];
          destruct (dispatch_exception_to_handler_at_offset _ _ _ _) as [[u'|r'| |] s5]; try done.
        all: by injection E3 as -> ->.
      * rewrite Efl. apply set_pending.
      * by rewrite Efs.
      * rewrite zlength_app in Hlen. rewrite zlength_app in Hlen. unfold zlength in *. simpl in *. lia.
    + destruct (IH (pre ++ [c]) fuel s Hm Hcs Hlen Ht Hsort ltac:(lia)) as (s1 & Hs1 & E). exists s1. split; [done|].
      rewrite <- E. unfold dispatch_next_finally_for_throw, mbind, exec_bind, gets.
      cbv beta iota zeta. change (id (fs_frame s)) with (fs_frame s). rewrite <- Ht, Hn. done.
Qed.

End running.

(** ** Theorems *)

Lemma filter_same {A} (p q : A -> bool) (l : list A) : Forall (fun x => p x = q x) l -> List.filter p l = List.filter q l.
Proof. induction 1 as [|x l Hx _ IH]; [done|]. simpl. by rewrite Hx, IH. Qed.

(** C9: [leave] to the same or a later instruction.  In a method with a well-nested clause
    table, such a [leave] runs the handlers of exactly the finally clauses that protect
    the [leave] and not its target, each once, innermost first, and then control is at
    the target with nothing pending.  A [leave] in a finally handler has to stay in it
    ([stays_in_handlers]).  The handlers may change the stack, the locals and the heap;
    they complete and leave the frame's exception handling alone ([body_ok]).  The number
    of blocks entered is at most the number of clauses.  A backward [leave] is not
    covered: it skips the finally blocks ([backward_leave_skips_finally]). *)
Theorem leave_runs_finallies {K} `{KernelHeap K} matches (body : exec K unit) (s : fstate K) target :
  body_ok body ->
  let f := fs_frame s in let cs := exception_clauses f in
  clauses_ok (il_size f) cs -> 0 <= il_offset f <= target -> stays_in_handlers cs (il_offset f) target ->
  exists s', (step_leave target;; run_finallies matches body (length cs)) s =
    (Ret (map handler_offset (List.filter (must_run (il_offset f) target) cs)), s') /\
    il_offset (fs_frame s') = target /\
    flag_set (frame_flags (fs_frame s')) k_zaclr_frame_flag_finally_pending = false.
Proof.
  intros Hbody f cs Hcs Ho Hin. destruct (clauses_later (il_size f) (il_offset f) target cs Hcs) as [Hsort Hall]; [lia|done|].
  destruct (leave_from matches body (il_offset f) target [] cs (length cs) s) as (s' & E & Ht & _ & Hp); try done.
  { by apply (cs_count _ _ Hcs). }
  rewrite (filter_same _ _ _ Hall) in E. exists s'. split; [exact E|done].
Qed.

(** Who handles an exception thrown at [throw]: the first clause of the table that
    protects the instruction and is a filter, a catch-all or a catch clause of the type
    of the exception.  Control enters it at its handler, or at its filter. *)
Definition takes (matches : Z -> Z -> bool) (h : Z) (c : zaclr_exception_clause) : bool :=
  if clause_kind c =? 0 then (class_token c =? 0) || matches h (class_token c) else clause_kind c =? 1.
Definition handler_for (matches : Z -> Z -> bool) (cs : list zaclr_exception_clause) (h throw : Z) : option zaclr_exception_clause :=
  List.find (fun c => in_try c throw && takes matches h c) cs.
Definition handler_entry (c : zaclr_exception_clause) : Z :=
  if clause_kind c =? 0 then handler_offset c else class_token c.

Lemma accepts_takes matches size c h throw : 0 <= size < 2 ^ 31 -> clause_ok size c ->
  accepts matches c h throw = in_try c throw && takes matches h c.
Proof.
  intros Hs [Htry Ho Hh _ _]. unfold accepts, covers, in_try, takes, does_catch_clause_match. rewrite u32_id by lia.
  rewrite negb_orb, <- Z.leb_antisym, <- Z.ltb_antisym. f_equal.
  destruct (Z.eqb_spec (clause_kind c) 0) as [E|E]; cbn [negb andb orb]; [|done].
  rewrite E. cbn. rewrite orb_false_r. by destruct (class_token c =? 0).
Qed.

Lemma find_accepting_handler matches size cs k h throw : 0 <= size < 2 ^ 31 -> Forall (clause_ok size) cs ->
  snd <$> find_accepting matches cs k h throw = handler_for matches cs h throw.
Proof.
  intros Hs Hcs. revert k. induction Hcs as [|c cs Hc _ IH]; intros k; [done|]. unfold handler_for. cbn [find_accepting List.find].
  rewrite (accepts_takes matches size) by done. case_if; [done|]. apply IH.
Qed.

(** The outcome of a throw: which handler gets control, with what on the stack. *)
Definition throw_post {K} matches (f : zaclr_frame) h (hs : list Z) (r : outcome (list Z) * fstate K) : Prop :=
  match handler_for matches (exception_clauses f) h (il_offset f) with
  | None => r.1 = Err (exec_error ZACLR_STATUS_NOT_IMPLEMENTED)
  | Some c => r.1 = Err (exec_error ZACLR_STATUS_OUT_OF_MEMORY) \/
    r.1 = Ret hs /\ let f' := fs_frame r.2 in
      il_offset f' = handler_entry c /\
      flag_set (frame_flags f') k_zaclr_frame_flag_filter_pending = negb (clause_kind c =? 0) /\
      es_depth (eval_stack f') = 1 /\
      es_values (eval_stack f') .@ 0 = Some (word_value ZACLR_STACK_VALUE_OBJECT_REFERENCE h)
  end.

Lemma handler_flags_filter c flags :
  flag_set (handler_flags c flags) k_zaclr_frame_flag_filter_pending = negb (clause_kind c =? 0).
Proof.
  unfold flag_set, handler_flags, k_zaclr_frame_flag_filter_pending. destruct (clause_kind c =? 0).
  - by rewrite Z.land_ldiff.
  - apply negb_true_iff, Z.eqb_neq. intros E. apply (f_equal (fun z => Z.testbit z 1)) in E.
    rewrite Z.land_spec, Z.lor_spec, orb_true_r in E. done.
Qed.


(** ** A method with three clauses

    An inner [try/finally] (bytes 2 to 4, handler 4 to 6) in a [try/catch] (2 to 8,
    handler 8 to 10) in an outer [try/finally] (0 to 12, handler 12 to 14). *)

Definition sample_clauses : list zaclr_exception_clause :=
  [ mk_clause 2 2 2 4 2 0; mk_clause 0 2 6 8 2 0x02000005; mk_clause 2 0 12 12 2 0 ].

Definition frame_at (offset flags : Z) (p : pending_finally) : zaclr_frame :=
  mk_frame 0 [] 20 offset 2 [] 0 [] 0 sample_clauses 0 example_stack GenericContext.empty_context 0 no_filter p flags false.
Definition state_at (offset flags : Z) (p : pending_finally) : fstate small_heap :=
  mk_fstate example_store (frame_at offset flags p) 0.
Definition catch_all (h token : Z) : bool := true.

Lemma sample_clauses_ok : clauses_ok 20 sample_clauses.
Proof.
  split; [lia|unfold zlength; simpl; lia| |].
  - repeat constructor; simpl; try lia; try done.
  - repeat constructor; unfold nested, lies_in; simpl; try done; lia.
Qed.

Lemma empty_body_ok : body_ok (mret () : exec small_heap unit).
Proof. intros s. exists s. repeat split. Qed.

Lemma leave_runs_finallies_witness :
  clauses_ok 20 sample_clauses /\
  exists s', (step_leave 16;; run_finallies catch_all (mret ()) 3) (state_at 3 0 no_finally) = (Ret [4; 12], s') /\
    il_offset (fs_frame s') = 16 /\ flag_set (frame_flags (fs_frame s')) k_zaclr_frame_flag_finally_pending = false.
Proof.
  split; [apply sample_clauses_ok|].
  apply (leave_runs_finallies catch_all (mret ()) (state_at 3 0 no_finally) 16);
    [apply empty_body_ok|apply sample_clauses_ok|simpl; lia|repeat constructor; done].
Defined.


(** ** Where the code departs from the specification *)

(** A [leave] to an earlier instruction, the [continue] of a loop whose condition
    comes first, does not run the finally block it leaves. *)
Lemma backward_leave_skips_finally :
  let s' := (step_leave 0 (mk_fstate example_store
    (mk_frame 0 [] 20 7 2 [] 0 [] 0 [mk_clause 2 4 8 12 2 0] 0 example_stack GenericContext.empty_context 0 no_filter no_finally 0 false) 0)).2 in
  must_run 7 0 (mk_clause 2 4 8 12 2 0) = true /\ il_offset (fs_frame s') = 0.
Proof. split; reflexivity. Qed.

(** An exception thrown in a finally handler restarts that handler. *)
Lemma throw_in_finally_restarts :
  let r := dispatch_exception_to_handler catch_all 7 (state_at 13 0 no_finally) in
  r.1 = Ret () /\ il_offset (fs_frame r.2) = 12.
Proof. split; reflexivity. Qed.

(** A [leave] in a finally handler, at the end of a [try/catch] inside it, forgets
    what was pending: the [endfinally] of the handler fails. *)
Lemma leave_in_finally_forgets :
  let pending := mk_finally k_zaclr_pending_finally_leave 3 3 16 0 in
  let s' := (step_leave 13 (state_at 12 k_zaclr_frame_flag_finally_pending pending)).2 in
  il_offset (fs_frame s') = 13 /\
  (step_endfinally catch_all s').1 = Err (exec_error ZACLR_STATUS_BAD_STATE).
Proof. split; reflexivity. Qed.

(** The exception of an overflow check does not run the finally blocks on its way:
    the instruction after offset 2 is protected by the inner finally clause. *)
Lemma overflow_skips_finally :
  let r := raise_overflow_exception catch_all (fun st => (Ret 7, st)) (state_at 3 0 no_finally) in
  must_run 2 8 (mk_clause 2 2 2 4 2 0) = true /\ r.1 = Ret () /\ il_offset (fs_frame r.2) = 8.
Proof. split; [reflexivity|]. split; reflexivity. Qed.

End Exceptions.
