(* ===== verification/Dispatch.v ===== *)
(** * The instruction dispatcher and the engine

    [zaclr_dispatch_step] of [zaclr/exec/zaclr_dispatch.cpp] for the instructions
    that work on the current frame: constants, arguments and locals, the evaluation
    stack, branches, arithmetic, conversions, comparisons, exception handling and
    the return; and the loop of [zaclr/exec/zaclr_engine.cpp].

    The parameters are the instruction values ([OpcodeTable]), the type test of
    catch clauses, the allocation of exception objects, the constructed value of a
    [newobj] frame, the instructions that are not modelled, and [uninit]: some
    cases let [zaclr_eval_stack_peek] overwrite a local variable that was never
    initialised, and [uninit] is what that variable held. *)

From Stdlib Require Import Strings.Byte.
From S2P Require Import Prelude Status Bytes KernelHeap EvalStack ManagedObject Gc GenericContext.
From S2P Require Import EmulatedFloat Opcode Frame Arith Exceptions.

Module Dispatch.
Import EmulatedFloat Opcode Frame Arith Exceptions.

Definition compute_short_branch_target (il_offset delta : Z) : Z := u32 (i32 (i32 il_offset + 2 + delta)).
Definition compute_inline_branch_target (il_offset delta : Z) : Z := u32 (i32 (i32 il_offset + 5 + delta)).

Definition is_byref_plus_or_minus_integer (op : zaclr_opcode) (left right : zaclr_stack_value) : bool :=
  (bool_decide (op = CEE_ADD) || bool_decide (op = CEE_SUB))
  && is_kind ZACLR_STACK_VALUE_BYREF left
  && (is_kind ZACLR_STACK_VALUE_I4 right || is_kind ZACLR_STACK_VALUE_I8 right).

Definition is_ovf (op : zaclr_opcode) : bool :=
  match op with
  | CEE_ADD_OVF | CEE_ADD_OVF_UN | CEE_SUB_OVF | CEE_SUB_OVF_UN | CEE_MUL_OVF | CEE_MUL_OVF_UN => true
  | _ => false
  end.

(** The branch with a four-byte operand that has the condition of a short one. *)
Definition inline_form (op : zaclr_opcode) : zaclr_opcode :=
  match op with
  | CEE_BEQ_S => CEE_BEQ | CEE_BNE_UN_S => CEE_BNE_UN
  | CEE_BGE_S => CEE_BGE | CEE_BGT_S => CEE_BGT | CEE_BLE_S => CEE_BLE | CEE_BLT_S => CEE_BLT
  | CEE_BGE_UN_S => CEE_BGE_UN | CEE_BGT_UN_S => CEE_BGT_UN
  | CEE_BLE_UN_S => CEE_BLE_UN | CEE_BLT_UN_S => CEE_BLT_UN
  | op => op
  end.

(** The branches that compare signed numbers. *)
Definition signed_branch (op : zaclr_opcode) : bool :=
  match op with
  | CEE_BEQ | CEE_BNE_UN | CEE_BGE | CEE_BGT | CEE_BLE | CEE_BLT => true
  | _ => false
  end.

Definition branch_relation (op : zaclr_opcode) (left right : Z) : bool :=
  match op with
  | CEE_BEQ => left =? right
  | CEE_BNE_UN => negb (left =? right)
  | CEE_BGE | CEE_BGE_UN => right <=? left
  | CEE_BGT | CEE_BGT_UN => right <? left
  | CEE_BLE | CEE_BLE_UN => left <=? right
  | CEE_BLT | CEE_BLT_UN => left <? right
  | _ => false
  end.

Section dispatch.
Context {K : Type} `{KernelHeap K} (x86_64 : bool).
Context (object_matches_type : Z -> Z -> bool) (new_exception : store K -> outcome Z * store K).
Context (uninit : zaclr_stack_value).

(** ** Branches *)

Definition pop_pair : exec K (zaclr_stack_value * zaclr_stack_value) :=
  rhs ← pop; lhs ← pop; mret (lhs, rhs).

Definition pop_branch_i4_pair : exec K (Z * Z) :=
  '(lhs, rhs) ← pop_pair;
  if is_kind ZACLR_STACK_VALUE_OBJECT_REFERENCE lhs && is_kind ZACLR_STACK_VALUE_OBJECT_REFERENCE rhs then
    l ← lift (compared_handle lhs); r ← lift (compared_handle rhs); mret (i32 l, i32 r)
  else
    l ← on_store (fun s => stack_value_to_i32 s lhs);
    r ← on_store (fun s => stack_value_to_i32 s rhs); mret (l, r).

Definition pop_branch_u4_pair : exec K (Z * Z) :=
  '(lhs, rhs) ← pop_pair;
  l ← on_store (fun s => stack_value_to_u32 s lhs);
  r ← on_store (fun s => stack_value_to_u32 s rhs); mret (l, r).

Definition pop_branch_i8_pair : exec K (Z * Z) :=
  '(lhs, rhs) ← pop_pair;
  l ← on_store (fun s => stack_value_to_i64 s lhs);
  r ← on_store (fun s => stack_value_to_i64 s rhs); mret (l, r).

Definition pop_branch_u8_pair : exec K (Z * Z) :=
  '(l, r) ← pop_branch_i8_pair; mret (u64 l, u64 r).

Definition pop_branch_float_pair : exec K (Z * Z) :=
  '(lhs, rhs) ← pop_pair;
  l ← lift (stack_value_to_common_float_bits lhs);
  r ← lift (stack_value_to_common_float_bits rhs); mret (l, r).

Definition branch_operands (op : zaclr_opcode) : exec K (Z * Z) :=
  peek_right ← peek uninit;
  if stack_value_is_float peek_right then pop_branch_float_pair
  else if stack_value_is_i8_branch_operand peek_right then
    if signed_branch op then pop_branch_i8_pair else pop_branch_u8_pair
  else if signed_branch op then pop_branch_i4_pair else pop_branch_u4_pair.

(** [frame->il_offset = branch ? target : next]. *)
Definition short_branch (branch : bool) (delta : Z) : exec K unit :=
  modify (fun f => set_il_offset (if branch then compute_short_branch_target (il_offset f) delta
                                  else u32 (il_offset f + 2)) f).
Definition inline_branch (branch : bool) (delta : Z) : exec K unit :=
  modify (fun f => set_il_offset (if branch then compute_inline_branch_target (il_offset f) delta
                                  else u32 (il_offset f + 5)) f).

(** The operand of a branch, read before the stack is touched. *)
Definition short_delta : exec K Z := f ← gets id; b ← il_u8 (u32 (il_offset f + 1)); mret (i8 b).
Definition inline_delta : exec K Z := f ← gets id; w ← il_u32 (il_offset f + 1); mret (i32 w).

Definition step_brtrue (short sense : bool) : exec K unit :=
  delta ← (if short then short_delta else inline_delta);
  v ← pop;
  b ← on_store (fun s => branch_condition s v);
  (if short then short_branch else inline_branch) (Bool.eqb b sense) delta.

Definition step_compare_branch (short : bool) (op : zaclr_opcode) : exec K unit :=
  delta ← (if short then short_delta else inline_delta);
  '(l, r) ← branch_operands op;
  (if short then short_branch else inline_branch) (branch_relation op l r) delta.

Definition step_switch : exec K unit :=
  value ← pop;
  index ← on_store (fun s => stack_value_to_u32 s value);
  f ← gets id;
  count ← il_u32 (il_offset f + 1);
  let table_offset := u32 (il_offset f + 5) in
  let next_offset := u32 (table_offset + u32 (count * 4)) in
  if index <? count then
    delta ← il_u32 (table_offset + u32 (index * 4));
    modify (set_il_offset (u32 (i32 (i32 next_offset + i32 delta))))
  else modify (set_il_offset next_offset).

(** ** Arithmetic *)

Definition push_pointer_offset_result (op : zaclr_opcode) (pointer offset_value : zaclr_stack_value) : exec K unit :=
  offset ← on_store (fun s => stack_value_to_i64 s offset_value);
  raw ← lift (value_word pointer);
  let offset := if bool_decide (op = CEE_SUB) then i64 (- offset) else offset in
  push (mk_value (sv_kind pointer) (sv_reserved pointer) (sv_payload_size pointer) (sv_type_token_raw pointer)
          (sv_flags pointer) (sv_extra pointer) (DWord (u64 (raw + offset)))).

Definition push_checked (wide : bool) (r : option Z) : exec K unit :=
  match r with
  | None => raise_overflow_exception object_matches_type new_exception
  | Some v => if wide then push_i8 v else push_i4 v
  end.

Definition step_binary (op : zaclr_opcode) : exec K unit :=
  '(lhs, rhs) ← pop_pair;
  advance 1;;
  if is_byref_plus_or_minus_integer op lhs rhs then push_pointer_offset_result op lhs rhs
  else if bool_decide (op = CEE_ADD) && is_byref_plus_or_minus_integer op rhs lhs
  then push_pointer_offset_result op rhs lhs
  else if stack_value_is_float lhs || stack_value_is_float rhs then
    match op with
    | CEE_ADD | CEE_SUB | CEE_MUL | CEE_DIV | CEE_REM => v ← lift (binary_r8_result op lhs rhs); push v
    | _ => fail ZACLR_STATUS_NOT_IMPLEMENTED
    end
  else if is_kind ZACLR_STACK_VALUE_I8 lhs || is_kind ZACLR_STACK_VALUE_I8 rhs then
    left_i8 ← on_store (fun s => stack_value_to_i64 s lhs);
    right_i8 ← on_store (fun s => stack_value_to_i64 s rhs);
    if is_ovf op then r ← lift (binary_i8_checked_result op left_i8 right_i8); push_checked true r
    else v ← lift (binary_i8_result op left_i8 right_i8); push_i8 v
  else
    left_i4 ← on_store (fun s => stack_value_to_i32 s lhs);
    right_i4 ← on_store (fun s => stack_value_to_i32 s rhs);
    if is_ovf op then r ← lift (binary_i4_checked_result op left_i4 right_i4); push_checked false r
    else v ← lift (binary_i4_result op left_i4 right_i4); push_i4 v.

Definition step_unary (op : zaclr_opcode) : exec K unit :=
  value ← pop; advance 1;; v ← lift (unary_result op value); push v.

Definition step_convert (op : zaclr_opcode) : exec K unit :=
  value ← pop;
  advance 1;;
  if is_checked op then
    r ← on_store (fun s => checked_converted_value x86_64 s op value);
    match r with
    | None => raise_overflow_exception object_matches_type new_exception
    | Some v => push v
    end
  else v ← on_store (fun s => converted_value x86_64 s op value); push v.

Definition step_compare (op : zaclr_opcode) : exec K unit :=
  '(lhs, rhs) ← pop_pair;
  advance 2;;
  v ← on_store (fun s => compare_result s op lhs rhs); push_i4 v.

(** ** One instruction

    The return, which ends the frame, is [step_ret] below. *)

Definition short_operand (k : Z -> exec K unit) : exec K unit :=
  f ← gets id; b ← il_u8 (u32 (il_offset f + 1)); advance 2;; k b.

(** Prefixes, arguments and the null reference. *)
Definition step_argument (op : zaclr_opcode) : exec K unit :=
  match op with
  | CEE_NOP => advance 1
  | CEE_READONLY | CEE_VOLATILE | CEE_TAILCALL => advance 2
  | CEE_UNALIGNED => advance 3
  | CEE_CONSTRAINED =>
    f ← gets id; t ← il_u32 (il_offset f + 2); modify (set_constrained t);; advance 6
  | CEE_LDARG_0 => advance 1;; load_argument 0
  | CEE_LDARG_1 => advance 1;; load_argument 1
  | CEE_LDARG_2 => advance 1;; load_argument 2
  | CEE_LDARG_3 => advance 1;; load_argument 3
  | CEE_LDARG_S => short_operand load_argument
  | CEE_LDARGA_S => short_operand push_argument_address
  | CEE_STARG_S => short_operand store_argument
  | _ => advance 1;; push_object_handle 0
  end.

Definition step_stloc (op : zaclr_opcode) : exec K unit :=
  match op with
  | CEE_STLOC_0 => advance 1;; store_local 0
  | CEE_STLOC_1 => advance 1;; store_local 1
  | CEE_STLOC_2 => advance 1;; store_local 2
  | CEE_STLOC_3 => advance 1;; store_local 3
  | _ => short_operand store_local
  end.

Definition step_ldloc (op : zaclr_opcode) : exec K unit :=
  match op with
  | CEE_LDLOC_0 => advance 1;; load_local 0
  | CEE_LDLOC_1 => advance 1;; load_local 1
  | CEE_LDLOC_2 => advance 1;; load_local 2
  | CEE_LDLOC_3 => advance 1;; load_local 3
  | CEE_LDLOC_S => short_operand load_local
  | CEE_LDLOCA_S => short_operand push_local_address
  | _ => f ← gets id; i ← il_u16 (il_offset f + 2); advance 4;; load_local i
  end.

Definition step_ldc (op : zaclr_opcode) : exec K unit :=
  match op with
  | CEE_LDC_I4_M1 => advance 1;; push_i4 (-1)
  | CEE_LDC_I4_0 => advance 1;; push_i4 0
  | CEE_LDC_I4_1 => advance 1;; push_i4 1
  | CEE_LDC_I4_2 => advance 1;; push_i4 2
  | CEE_LDC_I4_3 => advance 1;; push_i4 3
  | CEE_LDC_I4_4 => advance 1;; push_i4 4
  | CEE_LDC_I4_5 => advance 1;; push_i4 5
  | CEE_LDC_I4_6 => advance 1;; push_i4 6
  | CEE_LDC_I4_7 => advance 1;; push_i4 7
  | CEE_LDC_I4_8 => advance 1;; push_i4 8
  | CEE_LDC_I4_S => short_operand (fun b => push_i4 (i8 b))
  | CEE_LDC_I4 => f ← gets id; w ← il_u32 (il_offset f + 1); advance 5;; push_i4 (i32 w)
  | CEE_LDC_I8 => f ← gets id; w ← il_u64 (il_offset f + 1); advance 9;; push_i8 (i64 w)
  | CEE_LDC_R4 =>
    f ← gets id; w ← il_u32 (il_offset f + 1); advance 5;;
    push_r4 (u32 (Z.shiftr (decode_r4_to_common w) (k_float64_shift - k_float32_shift)))
  | _ =>
    f ← gets id; w ← il_u64 (il_offset f + 1); advance 9;; push_r8 (u64 (decode_r8_to_common w))
  end.

Definition step_dup : exec K unit := v ← peek uninit; advance 1;; push v.
Definition step_pop : exec K unit := advance 1;; pop;; mret ().

Definition step_br (op : zaclr_opcode) : exec K unit :=
  match op with
  | CEE_BR_S => delta ← short_delta; short_branch true delta
  | _ => delta ← inline_delta; inline_branch true delta
  end.

Definition step_leave_to (op : zaclr_opcode) : exec K unit :=
  match op with
  | CEE_LEAVE_S => delta ← short_delta; f ← gets id; step_leave (compute_short_branch_target (il_offset f) delta)
  | _ => delta ← inline_delta; f ← gets id; step_leave (compute_inline_branch_target (il_offset f) delta)
  end.

Definition dispatch_frame_step (op : zaclr_opcode) : exec K unit :=
  match op with
  | CEE_NOP | CEE_READONLY | CEE_VOLATILE | CEE_TAILCALL | CEE_UNALIGNED | CEE_CONSTRAINED
  | CEE_LDARG_0 | CEE_LDARG_1 | CEE_LDARG_2 | CEE_LDARG_3 | CEE_LDARG_S | CEE_LDARGA_S | CEE_STARG_S
  | CEE_LDNULL => step_argument op
  | CEE_STLOC_0 | CEE_STLOC_1 | CEE_STLOC_2 | CEE_STLOC_3 | CEE_STLOC_S => step_stloc op
  | CEE_LDLOC_0 | CEE_LDLOC_1 | CEE_LDLOC_2 | CEE_LDLOC_3 | CEE_LDLOC_S | CEE_LDLOCA_S | CEE_LDLOC => step_ldloc op
  | CEE_LDC_I4_M1 | CEE_LDC_I4_0 | CEE_LDC_I4_1 | CEE_LDC_I4_2 | CEE_LDC_I4_3 | CEE_LDC_I4_4 | CEE_LDC_I4_5
  | CEE_LDC_I4_6 | CEE_LDC_I4_7 | CEE_LDC_I4_8 | CEE_LDC_I4_S | CEE_LDC_I4 | CEE_LDC_I8 | CEE_LDC_R4
  | CEE_LDC_R8 => step_ldc op
  | CEE_DUP => step_dup
  | CEE_POP => step_pop
  | CEE_BR_S | CEE_BR => step_br op
  | CEE_BRTRUE_S => step_brtrue true true
  | CEE_BRFALSE_S => step_brtrue true false
  | CEE_BRTRUE => step_brtrue false true
  | CEE_BRFALSE => step_brtrue false false
  | CEE_BEQ_S | CEE_BNE_UN_S | CEE_BGE_S | CEE_BGT_S | CEE_BLE_S | CEE_BLT_S
  | CEE_BGE_UN_S | CEE_BGT_UN_S | CEE_BLE_UN_S | CEE_BLT_UN_S => step_compare_branch true (inline_form op)
  | CEE_BEQ | CEE_BNE_UN | CEE_BGE | CEE_BGT | CEE_BLE | CEE_BLT
  | CEE_BGE_UN | CEE_BGT_UN | CEE_BLE_UN | CEE_BLT_UN => step_compare_branch false op
  | CEE_SWITCH => step_switch
  | CEE_ADD | CEE_ADD_OVF | CEE_ADD_OVF_UN | CEE_SUB | CEE_SUB_OVF | CEE_SUB_OVF_UN
  | CEE_MUL | CEE_MUL_OVF | CEE_MUL_OVF_UN | CEE_DIV | CEE_DIV_UN | CEE_REM | CEE_REM_UN
  | CEE_AND | CEE_OR | CEE_XOR | CEE_SHL | CEE_SHR | CEE_SHR_UN => step_binary op
  | CEE_LEAVE_S | CEE_LEAVE => step_leave_to op
  | CEE_ENDFILTER => step_endfilter object_matches_type
  | CEE_ENDFINALLY => step_endfinally object_matches_type
  | CEE_THROW => step_throw object_matches_type
  | CEE_NEG | CEE_NOT => step_unary op
  | CEE_CEQ | CEE_CGT | CEE_CLT | CEE_CGT_UN | CEE_CLT_UN => step_compare op
  | CEE_RET => fail ZACLR_STATUS_NOT_IMPLEMENTED
  | _ => step_convert op
  end.

(** ** Frames of the engine *)

(** The heap, the frames from the current one to the root, and the exception of
    the thread. *)
Record engine_state := mk_engine { en_store : store K; en_frames : list zaclr_frame; en_exception : Z }.

Definition free_buffer (s : store K) (p : Z) : store K := if p =? 0 then s else (kernel_free s.1 p, s.2).

Definition zaclr_frame_destroy (s : store K) (f : zaclr_frame) : outcome (store K) :=
  let '(s, _) := zaclr_eval_stack_destroy s (eval_stack f) in
  let s := free_buffer s (exception_clauses_ptr f) in
  '(k, _) ← GenericContext.zaclr_generic_context_reset s.1 (generic_context f);
  let s := (k, s.2) in
  let s := if locals_ptr f =? 0 then s else free_buffer (reset_all s (locals f)) (locals_ptr f) in
  let s := if arguments_ptr f =? 0 then s else free_buffer (reset_all s (arguments f)) (arguments_ptr f) in
  Ret (kernel_free s.1 (frame_ptr f), s.2).

(** [o], in the state [next] makes of what the destruction [d] leaves. *)
Definition after_destroy (o : outcome unit) (d : outcome (store K)) (next : store K -> engine_state) (s : engine_state)
  : outcome unit * engine_state :=
  match d with
  | Ret st => (o, next st)
  | Err r => (Err r, s)
  | Fault => (Fault, s)
  | NoFuel => (NoFuel, s)
  end.

(** The type, the payload (or [NULL]) and its size of the value type a [newobj]
    frame has constructed; [None] when it has constructed an object. *)
Context (constructed_value : zaclr_frame -> option (Z * option (list byte) * Z)).

Definition push_to (s : store K) (parent : zaclr_frame) (v : zaclr_stack_value) : outcome unit * (store K * zaclr_frame) :=
  let '(o, (s, e)) := zaclr_eval_stack_push s (eval_stack parent) v in (o, (s, set_eval_stack e parent)).

(** What a returning frame hands to its parent. *)
Definition return_to (s : store K) (f parent : zaclr_frame) : outcome unit * (store K * zaclr_frame * zaclr_frame) :=
  if returns_value f then
    let '(o, e) := zaclr_eval_stack_pop (eval_stack f) in
    let f := set_eval_stack e f in
    match o with
    | Ret v => let '(o, (s, parent)) := push_to s parent v in (o, (s, f, parent))
    | Err r => (Err r, (s, f, parent))
    | Fault => (Fault, (s, f, parent))
    | NoFuel => (NoFuel, (s, f, parent))
    end
  else if flag_set (frame_flags f) k_zaclr_frame_flag_newobj_ctor then
    match arguments f with
    | this :: _ =>
      if is_kind ZACLR_STACK_VALUE_OBJECT_REFERENCE this then
        match constructed_value f with
        | Some (token, payload, payload_size) =>
          match zaclr_stack_value_set_valuetype s zero_value token payload payload_size with
          | (Ret _, (s, v)) =>
            let '(o, (s, parent)) := push_to s parent v in
            (o, ((zaclr_stack_value_reset s v).1, f, parent))
          | (o, (s, v)) => (o, ((zaclr_stack_value_reset s v).1, f, parent))
          end
        | None => let '(o, (s, parent)) := push_to s parent this in (o, (s, f, parent))
        end
      else (Ret (), (s, f, parent))
    | [] => (Ret (), (s, f, parent))
    end
  else (Ret (), (s, f, parent)).

Definition step_ret (s : engine_state) : outcome unit * engine_state :=
  match en_frames s with
  | [] => (Err (exec_error ZACLR_STATUS_INVALID_ARGUMENT), s)
  | [f] => after_destroy (Ret ()) (zaclr_frame_destroy (en_store s) f) (fun st => mk_engine st [] (en_exception s)) s
  | f :: parent :: rest =>
    match return_to (en_store s) f parent with
    | (Ret _, (st, f, parent)) =>
      after_destroy (Ret ()) (zaclr_frame_destroy st f) (fun st => mk_engine st (parent :: rest) (en_exception s))
        (mk_engine st (f :: parent :: rest) (en_exception s))
    | (o, (st, f, parent)) => (o, mk_engine st (f :: parent :: rest) (en_exception s))
    end
  end.

(** The instructions that are not modelled. *)
Context `{OpcodeTable} (other_instruction : Z -> engine_state -> outcome unit * engine_state).

Definition zaclr_dispatch_step (opcode : Z) (s : engine_state) : outcome unit * engine_state :=
  match en_frames s with
  | [] => (Err (exec_error ZACLR_STATUS_INVALID_ARGUMENT), s)
  | f :: rest =>
    match find_opcode opcode with
    | None => other_instruction opcode s
    | Some CEE_RET => step_ret s
    | Some op =>
      let '(o, s') := dispatch_frame_step op (mk_fstate (en_store s) f (en_exception s)) in
      (o, mk_engine (fs_store s') (fs_frame s' :: rest) (fs_exception s'))
    end
  end.

(** The value of the instruction at the offset of a frame: one byte, or the prefix
    0xFE and a second byte. *)
Definition fetch_opcode (f : zaclr_frame) : outcome Z :=
  require il_offset f <? il_size f else exec_error ZACLR_STATUS_DISPATCH_ERROR;
  raw_opcode ← read_u8 (il_start f) (il_offset f);
  if raw_opcode =? 0xFE then
    require u32 (il_offset f + 1) <? il_size f else exec_error ZACLR_STATUS_DISPATCH_ERROR;
    second ← read_u8 (il_start f) (u32 (il_offset f + 1));
    Ret (u16 (Z.lor 0xFE00 second))
  else Ret raw_opcode.

Fixpoint destroy_frames (s : store K) (frames : list zaclr_frame) : outcome (store K) :=
  match frames with
  | [] => Ret s
  | f :: frames => s ← zaclr_frame_destroy s f; destroy_frames s frames
  end.

(** [fuel] bounds the number of instructions.  A fetch outside the method destroys
    the current frame only. *)
Fixpoint zaclr_engine_execute_frame_loop (fuel : nat) (s : engine_state) : outcome unit * engine_state :=
  match en_frames s with
  | [] => (Ret (), s)
  | f :: rest =>
    match fuel with
    | O => (NoFuel, s)
    | S fuel =>
      match fetch_opcode f with
      | Err r => after_destroy (Err r) (zaclr_frame_destroy (en_store s) f) (fun st => mk_engine st [] (en_exception s)) s
      | Fault => (Fault, s)
      | NoFuel => (NoFuel, s)
      | Ret opcode =>
        match zaclr_dispatch_step opcode s with
        | (Ret _, s) => zaclr_engine_execute_frame_loop fuel s
        | (Err r, s) => after_destroy (Err r) (destroy_frames (en_store s) (en_frames s)) (fun st => mk_engine st [] (en_exception s)) s
        | (o, s) => (o, s)
        end
      end
    end
  end.

End dispatch.
Arguments engine_state K : clear implicits.

End Dispatch.
