(* ===== verification/DispatchSafe.v ===== *)
(** * The interpreter keeps its frames well formed

    The invariant of a frame and its proof for every instruction of [Dispatch]: the
    values of the evaluation stack, the locals and the arguments have the
    representation their kind says (a 32-bit integer is a number of 32 bits, ...),
    the buffer of every large value type is live, and no two values share one. *)

From Stdlib Require Import Strings.Byte.
From S2P Require Import Prelude Status Bytes KernelHeap EvalStack ManagedObject Gc GenericContext.
From S2P Require Import EmulatedFloat Opcode Frame Arith Exceptions Dispatch.

Module DispatchSafe.
Import EmulatedFloat Opcode Frame Arith Exceptions Dispatch.

(** ** The invariant *)

Definition word_typed (kind w : Z) : Prop :=
  if kind =? ZACLR_STACK_VALUE_I4 then in_int 32 w
  else if kind =? ZACLR_STACK_VALUE_I8 then in_int 64 w
  else if kind =? ZACLR_STACK_VALUE_R4 then 0 <= w < 2 ^ 32
  else if kind =? ZACLR_STACK_VALUE_R8 then 0 <= w < 2 ^ 64
  else True.

(** A value has the representation of its kind. *)
Definition typed (v : zaclr_stack_value) : Prop :=
  sv_kind v <> ZACLR_STACK_VALUE_LOCAL_ADDRESS /\
  if is_valuetype v then True
  else match sv_data v with DWord w => word_typed (sv_kind v) w | DBytes _ => False end.

Section safe.
Context {K : Type} `{KernelHeapLaws K}.
Implicit Types (s : store K) (v : zaclr_stack_value) (st : zaclr_eval_stack) (f : zaclr_frame).

Definition slot_ok s v : Prop := value_ok s v /\ typed v.

(** The locals and the arguments. *)
Definition slots f : list zaclr_stack_value := locals f ++ arguments f.

Definition owns (l : list zaclr_stack_value) (p : Z) : Prop :=
  exists i v, l .@ i = Some v /\ owned_buffer v = Some p.

(** The buffers an evaluation stack frees when it is destroyed. *)
Definition stack_owns st (p : Z) : Prop := owns (es_values st) p \/ (es_capacity st <> 0 /\ p = es_buffer st).

Definition distinct_owners (l : list zaclr_stack_value) : Prop :=
  forall i j v w p, l .@ i = Some v -> l .@ j = Some w -> owned_buffer v = Some p -> owned_buffer w = Some p -> i = j.

Record frame_ok s f : Prop := {
  fo_stack : stack_ok s (eval_stack f);
  fo_typed : Forall typed (es_values (eval_stack f));
  fo_slots : Forall (slot_ok s) (slots f);
  fo_owned : distinct_owners (slots f);
  fo_apart : forall p, owns (slots f) p -> ~ stack_owns (eval_stack f) p;
  fo_max : 0 <= max_stack f < 2 ^ 16 }.

(** Live buffers outside [D] stay live and keep their contents. *)
Definition keeps (D : Z -> Prop) s s' : Prop :=
  forall p, p ∈ live s.1 -> ~ D p -> p ∈ live s'.1 /\ s'.2 !! p = s.2 !! p.

Lemma extends_keeps D s s' : extends s s' -> keeps D s s'.
Proof. intros He p Hp _. by apply He. Qed.

Lemma value_ok_keeps D s s' v : keeps D s s' -> value_ok s v -> (forall p, owned_buffer v = Some p -> ~ D p) -> value_ok s' v.
Proof.
  intros Hk Hv Hd Hval. destruct (Hv Hval) as [Hs Hb]. split; [done|].
  destruct (owns_flag v) eqn:Ho; [|done]. destruct Hb as (Hsz & p & l & Hp & Hp0 & Hl & Hm & Hz).
  assert (owned_buffer v = Some p) as Hop.
  { unfold owned_buffer. rewrite Hval, Ho, Hp. simpl. by rewrite (proj2 (Z.eqb_neq p 0)). }
  split; [done|]. exists p, l. destruct (Hk p Hl (Hd p Hop)) as [? ->]. done.
Qed.

Lemma owns_live s l p : Forall (value_ok s) l -> owns l p -> p ∈ live s.1 /\ p <> 0.
Proof.
  intros Hf (i & v & Hi & Hp). apply (owned_buffer_ok s v); [|done].
  apply get_In in Hi. rewrite Forall_forall in Hf. by apply Hf.
Qed.

Lemma slots_ok_keeps D s s' l : keeps D s s' -> Forall (slot_ok s) l -> (forall p, owns l p -> ~ D p) -> Forall (slot_ok s') l.
Proof.
  intros Hk Hf Hd. rewrite Forall_forall in *. intros v Hv. destruct (Hf v Hv) as [Hok Ht]. split; [|done].
  apply (value_ok_keeps D s s'); [done|done|]. intros p Hp. apply Hd. apply In_get in Hv as [i Hi]. by exists i, v.
Qed.

Lemma stack_owns_live s st p : stack_ok s st -> stack_owns st p -> p ∈ live s.1.
Proof.
  intros Hok [(i & v & Hi & Hp)|[Hc ->]].
  - eapply owned_buffer_ok; [|exact Hp]. by apply (sk_values _ _ Hok i).
  - by apply (sk_buffer _ _ Hok).
Qed.

(** A stack survives the release of buffers it does not own. *)
Lemma stack_ok_keeps D s s' st : keeps D s s' -> stack_ok s st -> (forall p, stack_owns st p -> ~ D p) -> stack_ok s' st.
Proof.
  intros Hk Hok Hd. pose proof Hok as [? ? ? ? Hv ? ? Hb]. split; try done.
  - intros i v Hi. apply (value_ok_keeps D s s'); [done|by apply (Hv i)|]. intros p Hp. apply Hd. left. by exists i, v.
  - intros Hc. destruct (Hb Hc) as (H1 & H2 & H3). split; [done|]. split; [|done].
    apply Hk; [done|]. apply Hd. by right.
Qed.

(** ** Pushing and popping keep the invariant *)

Lemma typed_zero : typed zero_value.
Proof. split; [done|]. simpl. unfold word_typed. simpl. lia. Qed.

Lemma forall_set {A} (P : A -> Prop) (l : list A) i x : Forall P l -> P x -> Forall P (set l i x).
Proof. intros Hl Hx. unfold set. case_if; [done|]. by apply Forall_insert. Qed.

Lemma owns_set l i v p : 0 <= i < zlength l -> owns (set l i v) p -> owned_buffer v = Some p \/
  exists j w, j <> i /\ l .@ j = Some w /\ owned_buffer w = Some p.
Proof.
  intros Hi (j & w & Hj & Hp). apply get_set_cases in Hj as [[-> ->]|[Hne Hj]]; [by left| |done]. right. by exists j, w.
Qed.

(** A frame that differs in the stack, its offset and its pending state only. *)
Definition same_slots f f' : Prop :=
  slots f' = slots f /\ max_stack f' = max_stack f.

Lemma frame_ok_same s f f' : frame_ok s f -> same_slots f f' -> eval_stack f' = eval_stack f -> frame_ok s f'.
Proof.
  intros [] [E1 E2] E. split; rewrite ?E, ?E1, ?E2; done.
Qed.

Lemma frame_eta f : set_eval_stack (eval_stack f) f = f.
Proof. by destruct f. Qed.

(** A new stack that owns buffers of the old one and fresh ones. *)
Lemma frame_ok_stack s s' f st : frame_ok s f -> extends s s' -> stack_ok s' st -> Forall typed (es_values st) ->
  (forall p, stack_owns st p -> stack_owns (eval_stack f) p \/ p ∉ live s.1) -> frame_ok s' (set_eval_stack st f).
Proof.
  intros [Hs Ht Hsl Ho Ha Hm] He Hst Hty Hown. split; try done.
  - apply (slots_ok_keeps (fun _ => False) s s'); [by apply extends_keeps|done|auto].
  - intros p Hpo Hso. simpl in *. destruct (Hown p Hso) as [Hold|Hnew]; [by apply (Ha p)|].
    apply Hnew. apply (owns_live s (slots f)); [|done]. eapply Forall_impl; [exact Hsl|]. by intros v [].
Qed.

(** Releasing buffers the frame does not own. *)
Lemma frame_ok_keeps s s' f (D : Z -> Prop) : frame_ok s f -> keeps D s s' ->
  (forall p, D p -> ~ stack_owns (eval_stack f) p /\ ~ owns (slots f) p) -> frame_ok s' f.
Proof.
  intros [Hs Ht Hsl Ho Ha Hm] Hk Hd. split; try done.
  - apply (stack_ok_keeps D s s'); [done|done|]. intros p Hp HD. by destruct (Hd p HD).
  - apply (slots_ok_keeps D s s'); [done|done|]. intros p Hp HD. by destruct (Hd p HD).
Qed.

Lemma clone_typed s v s' w : typed v -> zaclr_stack_value_clone s v = (Ret (), (s', w)) -> typed w.
Proof.
  intros Ht. unfold zaclr_stack_value_clone. destruct (is_valuetype v) eqn:Hv; cbn [negb]; [|congruence].
  assert (forall x, sv_kind x = ZACLR_STACK_VALUE_VALUETYPE -> typed x) as Hval.
  { intros x Hx. split; [by rewrite Hx|]. unfold is_valuetype. by rewrite Hx. }
  destruct (zaclr_stack_value_payload s v) as [b|r| |]; try done. unfold zaclr_stack_value_set_valuetype.
  destruct b as [l|]; unfold zaclr_stack_value_reset; change (owned_buffer zero_value) with (@None Z); cbv iota beta;
    repeat (case_match; try done); intros [= <- <-]; by apply Hval.
Qed.

Lemma push_keeps_frame s f v : frame_ok s f -> slot_ok s v ->
  let '(o, (s', st')) := zaclr_eval_stack_push s (eval_stack f) v in
  frame_ok s' (set_eval_stack st' f) /\ o <> Fault /\ o <> NoFuel /\ extends s s'.
Proof.
  intros Hf [Hv Ht]. pose proof (fo_stack _ _ Hf) as Hok. pose proof (push_spec s (eval_stack f) v Hok Hv) as Hp.
  destruct (zaclr_eval_stack_push s (eval_stack f) v) as [[u|r| |] [s' st']] eqn:E; try done; unfold push_post in Hp.
  - destruct Hp as (Hok' & He & Hd & Hd' & Hbelow & w & Hw & Hsame). split; [|done].
    revert E. unfold zaclr_eval_stack_push. rewrite (proj2 (Z.leb_gt _ _)) by lia.
    destruct (es_values (eval_stack f) .@ (es_depth (eval_stack f))) as [slot|] eqn:Hslot; [|done].
    assert (slot = zero_value) as -> by (eapply (sk_above _ _ Hok); [reflexivity|done]).
    unfold zaclr_stack_value_assign, zaclr_stack_value_reset at 1.
    change (owned_buffer zero_value) with (@None Z). cbv iota beta.
    pose proof (clone_spec s v Hv) as Hc. pose proof (clone_typed s v) as Hct.
    destruct (zaclr_stack_value_clone s v) as [[[]|r| |] [s1 x]]; try done.
    intros E. injection E as <- <- <-. destruct Hc as (Hx & _ & _ & Hob).
    pose proof (sk_depth _ _ Hok). pose proof (sk_length _ _ Hok).
    apply (frame_ok_stack s); [done|done|done| |].
    + simpl. apply forall_set; [apply Hf|]. by apply (Hct s1).
    + intros p [Hown|[Hcap ->]]; [|by left; right]. simpl in Hown.
      apply owns_set in Hown as [Hp|(j & y & _ & Hj & Hp)]; [| |lia].
      * right. rewrite Hp in Hob. apply Hob.
      * left. left. by exists j, y.
  - destruct Hp as (-> & Hl & Hm & _). assert (extends s s') as He by (intros p Hp; rewrite Hl, Hm; done).
    split; [|done]. apply (frame_ok_stack s); [done|done| |apply Hf|by left].
    apply (stack_ok_keeps (fun _ => False) s); [by apply extends_keeps|done|auto].
Qed.

Lemma pop_frame_ok s f : frame_ok s f ->
  let '(o, st') := zaclr_eval_stack_pop (eval_stack f) in
  frame_ok s (set_eval_stack st' f) /\
  match o with
  | Ret v => slot_ok s v /\ forall p, owned_buffer v = Some p -> ~ stack_owns st' p /\ ~ owns (slots f) p
  | Err _ => True
  | _ => False
  end.
Proof.
  intros Hf. pose proof (fo_stack _ _ Hf) as Hok. pose proof (pop_spec s (eval_stack f) Hok) as Hp.
  destruct (zaclr_eval_stack_pop (eval_stack f)) as [[v|r| |] st']; try done.
  - destruct Hp as (Hd & Hv & Hvok & Hst & Hok' & Hown). pose proof (sk_depth _ _ Hok). pose proof (sk_length _ _ Hok).
    split; [|split].
    + apply (frame_ok_stack s); [done|apply extends_refl|done| |].
      * rewrite Hst. simpl. apply forall_set; [apply Hf|apply typed_zero].
      * subst st'. intros p [Ho|Hb]; [|left; by right]. left. left. simpl in Ho.
        apply owns_set in Ho as [Hp|(j & y & _ & Hj & Hp)]; [done|by exists j, y|lia].
    + split; [done|]. apply get_In in Hv. pose proof (fo_typed _ _ Hf) as Ht. rewrite Forall_forall in Ht. auto.
    + intros p Hp. split.
      * intros [(j & w & Hj & Hw)|[Hc ->]]; [by apply (Hown j w p)|]. subst st'. simpl in *.
        destruct (sk_buffer _ _ Hok Hc) as (_ & _ & Hnb). by apply (Hnb _ _ Hv).
      * intros Ho. apply (fo_apart _ _ Hf p Ho). left. by exists (es_depth (eval_stack f) - 1), v.
  - destruct Hp as (_ & -> & _). split; [|done]. by apply (frame_ok_same s f).
Qed.

(** ** Reading values does not fault *)

Lemma typed_word v : typed v -> is_valuetype v = false -> exists w, sv_data v = DWord w /\ word_typed (sv_kind v) w.
Proof. intros [_ Ht] Hv. rewrite Hv in Ht. destruct (sv_data v) as [w|l]; [by exists w|done]. Qed.

Lemma value_word_safe v : typed v -> is_valuetype v = false -> safe_post (value_word v) (word_typed (sv_kind v)).
Proof. intros Ht Hv. destruct (typed_word v Ht Hv) as (w & Hd & Hw). unfold value_word. by rewrite Hd. Qed.

Lemma valuetype_word_safe s v : slot_ok s v -> is_valuetype v = true -> safe_post (valuetype_word s v) (fun _ => True).
Proof.
  intros [Hok _] Hv. destruct (payload_ok s v Hok Hv) as (bytes & E & Hlen & _). unfold valuetype_word. rewrite E.
  destruct (Hok Hv) as [Hsz _]. rewrite Ret_bind. cbv iota. unfold copy_bytes.
  destruct (Z.leb_spec (sv_payload_size v) 4).
  - rewrite (proj2 (Z.ltb_ge _ _)) by lia. done.
  - destruct (Z.eqb_spec (sv_payload_size v) 8); [|done]. rewrite (proj2 (Z.ltb_ge _ _)) by lia. done.
Qed.

Lemma is_valuetype_kind v k : sv_kind v = k -> is_valuetype v = (k =? ZACLR_STACK_VALUE_VALUETYPE).
Proof. by intros <-. Qed.

(** A kind test settles that the value is no value type. *)
Ltac by_kind := match goal with Hk : sv_kind ?v = _ |- is_valuetype ?v = _ => by rewrite (is_valuetype_kind v _ Hk) end.

Lemma i32_safe s v : slot_ok s v -> safe_post (stack_value_to_i32 s v) (in_int 32).
Proof.
  intros Hv. unfold stack_value_to_i32. case_if.
  - assert (is_valuetype v = false) as Hk.
    { rewrite !orb_true_iff, !Z.eqb_eq in Heqb. destruct Heqb as [[[E|E]|E]|E]; by rewrite (is_valuetype_kind v _ E). }
    eapply safe_post_bind; [by apply value_word_safe, Hk; apply Hv|]. intros w _ _. apply (signed_range 32). lia.
  - case_if; [|done]. eapply safe_post_bind; [apply (valuetype_word_safe s v Hv); by apply Z.eqb_eq|].
    intros w _ _. apply (signed_range 32). lia.
Qed.

Lemma u32_safe s v : slot_ok s v -> safe_post (stack_value_to_u32 s v) (fun x => 0 <= x < 2 ^ 32).
Proof. intros Hv. eapply safe_post_bind; [by apply i32_safe|]. intros w _ _. apply u32_range. Qed.

Lemma i64_safe s v : slot_ok s v -> safe_post (stack_value_to_i64 s v) (in_int 64).
Proof.
  intros Hv. unfold stack_value_to_i64. case_if.
  - assert (is_valuetype v = false) as Hk.
    { rewrite !orb_true_iff, !Z.eqb_eq in Heqb. destruct Heqb as [[E|E]|E]; by rewrite (is_valuetype_kind v _ E). }
    eapply safe_post_bind; [by apply value_word_safe, Hk; apply Hv|]. intros w _ _. apply (signed_range 64). lia.
  - case_if.
    + eapply safe_post_bind; [apply value_word_safe; [apply Hv|by_kind]|].
      intros w _ _. apply (in_int_widen 32); [lia|]. apply (signed_range 32). lia.
    + case_if; [|done]. eapply safe_post_bind; [apply (valuetype_word_safe s v Hv); by apply Z.eqb_eq|].
      intros w _ _. apply (signed_range 64). lia.
Qed.

Lemma float_safe v : typed v -> safe_post (stack_value_to_common_float_bits v) (in_int 64).
Proof.
  intros Hv. unfold stack_value_to_common_float_bits.
  repeat (case_if; [eapply safe_post_bind; [apply value_word_safe; [done|by_kind]|];
    intros w _ _; apply (signed_range 64); lia|]).
  simpl. unfold in_int. lia.
Qed.

Lemma float_unsigned_safe v : typed v -> safe_post (stack_value_to_common_float_bits_unsigned v) (in_int 64).
Proof.
  intros Hv. unfold stack_value_to_common_float_bits_unsigned.
  repeat (case_if; [eapply safe_post_bind; [apply value_word_safe; [done|by_kind]|];
    intros w _ _; apply (signed_range 64); lia|]).
  simpl. unfold in_int. lia.
Qed.

Lemma handle_safe v : typed v -> safe_post (compared_handle v) (fun _ => True).
Proof.
  intros Hv. unfold compared_handle, is_kind. case_if; [|done].
  eapply safe_post_bind; [apply value_word_safe; [done|by_kind]|done].
Qed.

Lemma condition_safe s v : slot_ok s v -> safe_post (branch_condition s v) (fun _ => True).
Proof.
  intros Hv. unfold branch_condition, is_kind.
  repeat (case_if; [eapply safe_post_bind; [apply value_word_safe; [apply Hv|by_kind]|done]|]).
  case_if; [|done]. eapply safe_post_bind; [apply (valuetype_word_safe s v Hv); by apply Z.eqb_eq|done].
Qed.

(** ** The values the instructions push are well formed *)

Lemma word_slot_ok s kind w : kind <> ZACLR_STACK_VALUE_VALUETYPE -> kind <> ZACLR_STACK_VALUE_LOCAL_ADDRESS ->
  word_typed kind w -> slot_ok s (word_value kind w).
Proof.
  intros Hk Hl Hw. assert (is_valuetype (word_value kind w) = false) as Hv by (by apply Z.eqb_neq).
  split; [intros E; congruence|]. split; [done|]. by rewrite Hv.
Qed.

Lemma i4_ok s x : in_int 32 x -> slot_ok s (value_of_i4 x).
Proof. intros. by apply word_slot_ok. Qed.
Lemma i8_ok s x : in_int 64 x -> slot_ok s (value_of_i8 x).
Proof. intros. by apply word_slot_ok. Qed.
Lemma r4_ok s x : slot_ok s (value_of_r4 (u32 x)).
Proof. apply word_slot_ok; try done. apply u32_range. Qed.
Lemma r8_ok s x : slot_ok s (value_of_r8 (u64 x)).
Proof. apply word_slot_ok; try done. apply u64_range. Qed.

Lemma in_int_small w x : 1 <= w <= 31 -> 0 <= x < 2 ^ w -> in_int 32 x.
Proof. intros Hw Hx. unfold in_int. pose proof (pow2_le w 31). lia. Qed.

Lemma converted_safe x86_64 s op v : slot_ok s v -> safe_post (converted_value x86_64 s op v) (slot_ok s).
Proof.
  intros Hv. unfold converted_value.
  assert (forall g, (forall w, in_int 32 w -> in_int 32 (g w)) ->
    safe_post (w ← stack_value_to_i32 s v; Ret (value_of_i4 (g w))) (slot_ok s)) as H32.
  { intros g Hg. eapply safe_post_bind; [by apply i32_safe|]. intros w _ Hw. by apply i4_ok, Hg. }
  assert (forall g, (forall w, in_int 64 w -> in_int 64 (g w)) ->
    safe_post (w ← stack_value_to_i64 s v; Ret (value_of_i8 (g w))) (slot_ok s)) as H64.
  { intros g Hg. eapply safe_post_bind; [by apply i64_safe|]. intros w _ Hw. by apply i8_ok, Hg. }
  assert (forall w, in_int 32 (signed 32 w)) as S32 by (intros; apply (signed_range 32); lia).
  assert (forall w, in_int 64 (signed 64 w)) as S64 by (intros; apply (signed_range 64); lia).
  destruct op; try done; try destruct x86_64; try (apply H32; intros w Hw); try (apply H64; intros w Hw); try done;
    try (by apply S32); try (case_if; by apply S64).
  all: try (apply (in_int_widen 8 32); [lia|]; apply (signed_range 8); lia).
  all: try (apply (in_int_widen 16 32); [lia|]; apply (signed_range 16); lia).
  all: try (apply (in_int_small 8); [lia|]; apply u8_range).
  all: try (apply (in_int_small 16); [lia|]; apply u16_range).
  all: try (eapply safe_post_bind; [apply float_safe, Hv|]; intros w _ _; first [apply r4_ok | apply r8_ok]).
  all: eapply safe_post_bind; [apply float_unsigned_safe, Hv|]; intros w _ _; apply r8_ok.
Qed.

Lemma operand_safe s op v : slot_ok s v ->
  safe_post (conversion_operand s op v) (fun w => if is_unsigned_source op then 0 <= w < 2 ^ 64 else in_int 64 w).
Proof.
  intros Hv. unfold conversion_operand. destruct (is_unsigned_source op); [|by apply i64_safe].
  case_if; [eapply safe_post_bind; [apply value_word_safe; [apply Hv|by_kind]|]; intros w _ _; apply u64_range|].
  case_if; [|done]. eapply safe_post_bind; [apply value_word_safe; [apply Hv|by_kind]|]. intros w _ _.
  simpl. pose proof (u32_range (i32 w)). lia.
Qed.

Lemma checked_converted_safe x86_64 s op v : slot_ok s v ->
  safe_post (checked_converted_value x86_64 s op v) (fun r => forall w, r = Some w -> slot_ok s w).
Proof.
  intros Hv. unfold checked_converted_value. eapply safe_post_bind; [by apply operand_safe|]. intros w _ Hw.
  assert (forall x, in_int 32 (signed 32 x)) as S32 by (intros; apply (signed_range 32); lia).
  assert (forall x, in_int 64 (signed 64 x)) as S64 by (intros; apply (signed_range 64); lia).
  destruct op; try done; cbn [is_unsigned_source andb negb orb] in *; try destruct x86_64;
    cbn [safe_post]; intros z; try case_if; try done; intros [= <-];
    first [apply i4_ok | apply i8_ok]; try (by apply S32); try (by apply S64); try done.
  all: try (apply (in_int_widen 8 32); [lia|]; apply (signed_range 8); lia).
  all: try (apply (in_int_widen 16 32); [lia|]; apply (signed_range 16); lia).
  all: try (apply (in_int_small 8); [lia|]; apply u8_range).
  all: try (apply (in_int_small 16); [lia|]; apply u16_range).
Qed.

Lemma checked_spec_safe w op l r : 1 <= w -> safe_post (checked_spec w op l r) (fun x => forall y : Z, x = Some y -> in_int w y).
Proof.
  intros Hw. unfold checked_spec. destruct (ovf_operator op) as [[[] g]|]; simpl; [| |done]; intros y; case_if; try done;
    intros [= <-]; [|by apply signed_range]. unfold fits_signed in *. bool_cases. done.
Qed.

(** An operator faults on a quotient that does not fit only. *)
Lemma binary_spec_safe w op l r : 1 <= w -> in_int w l -> in_int w r ->
  match binary_spec w op l r with
  | Ret v => in_int w v
  | Err _ => True
  | Fault => op = CEE_DIV \/ op = CEE_REM
  | NoFuel => False
  end.
Proof.
  intros Hw Hl Hr. pose proof (fun y => binary_spec_range w op l r y Hw Hl Hr) as Hv.
  destruct (binary_spec w op l r) eqn:E; [by apply Hv|done| |]; revert E; unfold binary_spec;
    destruct op; try done; repeat (case_if; try done); auto.
Qed.

Lemma binary_r8_safe s op l r : typed l -> typed r ->
  match binary_r8_result op l r with
  | Ret v => slot_ok s v
  | Err _ => True
  | Fault => op = CEE_DIV \/ op = CEE_REM
  | NoFuel => False
  end.
Proof.
  intros Hl Hr. pose proof (float_safe l Hl) as H1. pose proof (float_safe r Hr) as H2. unfold binary_r8_result.
  destruct (stack_value_to_common_float_bits l); try done. destruct (stack_value_to_common_float_bits r); try done.
  cbn [mbind outcome_bind]. unfold common_float_value, host_div, host_rem.
  destruct op; try done; repeat (case_if; cbn [mbind outcome_bind]; try (by auto)); cbn [mbind outcome_bind];
    repeat (case_if; try (by auto)); first [apply r8_ok | apply r4_ok | auto].
Qed.

Lemma compare_safe s op l r : slot_ok s l -> slot_ok s r -> safe_post (compare_result s op l r) (in_int 32).
Proof.
  intros Hl Hr. assert (forall b, in_int 32 (truth b)) as Ht by (intros []; unfold in_int; simpl; lia).
  unfold compare_result. case_if.
  - eapply safe_post_bind; [apply handle_safe, Hl|]. intros x _ _. eapply safe_post_bind; [apply handle_safe, Hr|].
    intros y _ _. destruct op; try done; apply Ht.
  - case_if.
    + eapply safe_post_bind; [by apply i64_safe|]. intros x _ _. eapply safe_post_bind; [by apply i64_safe|].
      intros y _ _. destruct op; try done; apply Ht.
    + eapply safe_post_bind; [by apply i32_safe|]. intros x _ _. eapply safe_post_bind; [by apply i32_safe|].
      intros y _ _. destruct op; try done; apply Ht.
Qed.

Lemma unary_safe s op v : slot_ok s v -> safe_post (unary_result op v) (slot_ok s).
Proof.
  intros Hv. unfold unary_result, is_kind. case_if.
  - eapply safe_post_bind; [apply value_word_safe; [apply Hv|by_kind]|]. intros w _ _. apply i8_ok.
    pose proof (signed_range 64 w ltac:(lia)) as Hw. change i64 with (signed 64). case_if; [apply signed_range; lia|].
    unfold in_int, Z.lnot in *. lia.
  - case_if; [|done]. eapply safe_post_bind; [apply value_word_safe; [apply Hv|by_kind]|]. intros w _ _. apply i4_ok.
    pose proof (signed_range 32 w ltac:(lia)) as Hw. change i32 with (signed 32). case_if; [apply signed_range; lia|].
    unfold in_int, Z.lnot in *. lia.
Qed.

(** ** Rules for the monad

    Errors leave a well-formed frame; a fault is only possible where [trap] says
    so. *)

Context (trap : Prop).
Implicit Types (x : fstate K).

Definition ok_state x : Prop := frame_ok (fs_store x) (fs_frame x).

Definition hoare {A} (P : fstate K -> Prop) (m : exec K A) (Q : A -> fstate K -> Prop) : Prop :=
  forall x, P x -> match m x with
                   | (Ret a, x') => Q a x'
                   | (Err _, x') => ok_state x'
                   | (Fault, x') => trap /\ ok_state x'
                   | (NoFuel, _) => False
                   end.

(** The invariant, with values held in variables of the routine. *)
Definition holding (vs : list zaclr_stack_value) x : Prop := ok_state x /\ Forall (slot_ok (fs_store x)) vs.

Lemma hoare_bind {A B} P (m : exec K A) (k : A -> exec K B) Q R :
  hoare P m Q -> (forall a, hoare (Q a) (k a) R) -> hoare P (m ≫= k) R.
Proof.
  intros Hm Hk x Hx. specialize (Hm x Hx). unfold mbind, exec_bind. destruct (m x) as [[a|r| |] x']; try done. by apply Hk.
Qed.

Lemma hoare_pre {A} (P P' : fstate K -> Prop) (m : exec K A) Q : hoare P m Q -> (forall x, P' x -> P x) -> hoare P' m Q.
Proof. intros Hm HP x Hx. apply Hm. auto. Qed.

Lemma hoare_post {A} (P : fstate K -> Prop) (m : exec K A) (Q Q' : A -> fstate K -> Prop) :
  hoare P m Q -> (forall a x, Q a x -> Q' a x) -> hoare P m Q'.
Proof. intros Hm HQ x Hx. specialize (Hm x Hx). destruct (m x) as [[a|r| |] x']; auto. Qed.

Lemma hoare_ret {A} (a : A) Q : hoare (Q a) (mret a) Q.
Proof. intros x Hx. exact Hx. Qed.

Lemma hoare_lift {A} P (m : outcome A) (R : A -> Prop) : (forall x, P x -> ok_state x /\ safe_post m R) ->
  hoare P (lift m) (fun a x => P x /\ R a).
Proof. intros Hm x Hx. destruct (Hm x Hx) as [Hok Hs]. unfold lift. by destruct m. Qed.

Lemma hoare_fail {A} P (r : zaclr_status) Q : (forall x, P x -> ok_state x) -> hoare P (fail r : exec K A) Q.
Proof. intros Hm x Hx. apply (Hm x Hx). Qed.

Lemma hoare_store {A} P (m : store K -> outcome A) (R : A -> Prop) :
  (forall x, P x -> ok_state x /\ safe_post (m (fs_store x)) R) -> hoare P (on_store m) (fun a x => P x /\ R a).
Proof. intros Hm x Hx. destruct (Hm x Hx) as [Hok Hs]. unfold on_store. by destruct (m (fs_store x)). Qed.

Lemma hoare_gets {A} P (g : zaclr_frame -> A) : hoare P (gets g) (fun a x => P x /\ a = g (fs_frame x)).
Proof. intros x Hx. done. Qed.

(** Changing the offset or the pending state. *)
Lemma hoare_modify vs g : (forall f, same_slots f (g f) /\ eval_stack (g f) = eval_stack f) ->
  hoare (holding vs) (modify g) (fun _ => holding vs).
Proof. intros Hg x [Hok Hv]. destruct (Hg (fs_frame x)). split; [by apply (frame_ok_same _ (fs_frame x))|done]. Qed.

Lemma hoare_advance vs n : hoare (holding vs) (advance n) (fun _ => holding vs).
Proof. apply hoare_modify. intros f. repeat split. Qed.

Lemma hoare_push vs v : v ∈ vs -> hoare (holding vs) (push v) (fun _ => ok_state).
Proof.
  intros Hin x [Hok Hvs]. rewrite Forall_forall in Hvs. pose proof (push_keeps_frame _ _ v Hok (Hvs v Hin)) as Hp.
  unfold push. destruct (zaclr_eval_stack_push _ _ _) as [o [s' st']]. destruct Hp as (Hf & Hn1 & Hn2 & _).
  by destruct o.
Qed.

Lemma hoare_push_ok v : (forall s, slot_ok s v) -> hoare ok_state (push v) (fun _ => ok_state).
Proof. intros Hv. eapply hoare_pre; [apply (hoare_push [v]); by left|]. intros x Hx. split; [done|]. auto. Qed.

Lemma hoare_pop vs : hoare (holding vs) pop (fun v => holding (v :: vs)).
Proof.
  intros x [Hok Hvs]. pose proof (pop_frame_ok _ _ Hok) as Hp. unfold pop.
  destruct (zaclr_eval_stack_pop _) as [o st']. destruct Hp as [Hf Ho]. destruct o; try done.
  destruct Ho as [Hv _]. split; [done|]. by constructor.
Qed.

Lemma hoare_pop_pair vs : hoare (holding vs) pop_pair (fun '(l, r) => holding (l :: r :: vs)).
Proof.
  unfold pop_pair. eapply hoare_bind; [apply hoare_pop|]. intros r. eapply hoare_bind; [apply hoare_pop|].
  intros l. apply (hoare_ret (l, r) (fun '(l, r) => holding (l :: r :: vs))).
Qed.

Lemma hoare_peek d : owned_buffer d = None -> hoare ok_state (peek d) (fun v => holding [v]).
Proof.
  intros Hd x Hok. unfold peek, zaclr_eval_stack_peek. pose proof (fo_stack _ _ Hok) as Hst.
  pose proof (sk_depth _ _ Hst). pose proof (sk_length _ _ Hst).
  destruct (Z.eqb_spec (es_depth (eval_stack (fs_frame x))) 0); [done|].
  destruct (get_Some (es_values (eval_stack (fs_frame x))) (es_depth (eval_stack (fs_frame x)) - 1)) as [v Hv]; [lia|].
  rewrite Hv. unfold zaclr_stack_value_assign, zaclr_stack_value_reset at 1. rewrite Hd. cbv iota beta.
  assert (typed v) as Ht. { apply get_In in Hv. pose proof (fo_typed _ _ Hok) as Hty. rewrite Forall_forall in Hty. auto. }
  pose proof (clone_spec (fs_store x) v (sk_values _ _ Hst _ _ Hv)) as Hc. pose proof (clone_typed (fs_store x) v) as Hct.
  assert (forall s', extends (fs_store x) s' -> frame_ok s' (fs_frame x)) as Hext.
  { intros s' He. rewrite <- (frame_eta (fs_frame x)). apply (frame_ok_stack (fs_store x)); try done.
    - apply (stack_ok_keeps (fun _ => False) (fs_store x)); [by apply extends_keeps|done|auto].
    - apply Hok.
    - by left. }
  destruct (zaclr_stack_value_clone (fs_store x) v) as [[[]|r| |] [s1 w]]; try done.
  - destruct Hc as (Hw & _ & He & _). split; [by apply Hext|]. apply Forall_singleton. split; [done|]. by apply (Hct s1).
  - destruct Hc as (-> & -> & Hl & Hm). unfold zaclr_stack_value_reset. change (owned_buffer zero_value) with (@None Z).
    apply Hext. intros p Hp. simpl. by rewrite Hl, Hm.
Qed.

(** ** Arguments and locals *)

Lemma reset_keeps s v : keeps (fun p => owned_buffer v = Some p) s (zaclr_stack_value_reset s v).1.
Proof.
  intros p Hp Hne. unfold zaclr_stack_value_reset. destruct (owned_buffer v) as [q|]; [|done]. simpl.
  assert (p <> q) by congruence. rewrite free_spec, lookup_delete_ne by congruence. set_solver.
Qed.

(** Replacing the value of a slot, after its buffer was released or not. *)
Lemma frame_ok_set s s' f f' i v old :
  frame_ok s f -> slots f .@ i = Some old -> keeps (fun p => owned_buffer old = Some p) s s' -> slot_ok s v ->
  (forall p, owned_buffer v = Some p -> ~ stack_owns (eval_stack f) p /\ ~ owns (slots f) p) ->
  slots f' = set (slots f) i v -> eval_stack f' = eval_stack f -> max_stack f' = max_stack f -> frame_ok s' f'.
Proof.
  intros [Hst Ht Hsl Ho Ha Hm] Hold Hk [Hv Htv] Hown Es Ee Em.
  pose proof (get_Some_range _ _ _ Hold) as Hi.
  split; rewrite ?Ee, ?Em, ?Es; try done.
  - apply (stack_ok_keeps _ s s' _ Hk Hst). intros p Hso Hd. apply (Ha p); [|done]. by exists i, old.
  - rewrite Forall_forall. intros w Hw. apply In_get in Hw as [j Hj].
    apply get_set_cases in Hj as [[-> ->]|[Hne Hj]]; [| |done].
    + split; [|done]. apply (value_ok_keeps _ s s' v Hk Hv). intros p Hpv Hd. destruct (Hown p Hpv) as [_ Hn].
      apply Hn. by exists i, old.
    + rewrite Forall_forall in Hsl. destruct (Hsl w (get_In _ _ _ Hj)) as [Hw Htw]. split; [|done].
      apply (value_ok_keeps _ s s' w Hk Hw). intros p Hpw Hd. apply Hne. by apply (Ho j i w old p).
  - intros j k w1 w2 p H1 H2 Hp1 Hp2.
    apply get_set_cases in H1 as [[-> ->]|[Hn1 H1]]; [| |done]; apply get_set_cases in H2 as [[-> ->]|[Hn2 H2]]; try done.
    + destruct (Hown p Hp1) as [_ Hn]. exfalso. apply Hn. by exists k, w2.
    + destruct (Hown p Hp2) as [_ Hn]. exfalso. apply Hn. by exists j, w1.
    + by apply (Ho j k w1 w2 p).
  - intros p Hpo. apply owns_set in Hpo as [Hpv|(j & w & _ & Hj & Hpw)]; [|  |done].
    + by apply Hown.
    + apply Ha. by exists j, w.
Qed.

Lemma get_slot_local f i v : locals f .@ i = Some v -> slots f .@ i = Some v.
Proof. intros Hv. unfold slots. rewrite get_app_l; [done|]. apply get_Some_range in Hv. lia. Qed.

Lemma get_slot_argument f i v : arguments f .@ i = Some v -> slots f .@ (zlength (locals f) + i) = Some v.
Proof.
  intros Hv. pose proof (get_Some_range _ _ _ Hv). unfold slots. rewrite get_app_r by (pose proof (zlength_nonneg (locals f)); lia).
  by replace (zlength (locals f) + i - zlength (locals f)) with i by lia.
Qed.

Lemma set_app_left {A} (l l' : list A) i (y : A) : 0 <= i < zlength l -> set l i y ++ l' = set (l ++ l') i y.
Proof. intros Hi. unfold set, zlength in *. case_if; [done|]. rewrite insert_app_l; [done|lia]. Qed.

Lemma set_app_right {A} (l l' : list A) i (y : A) : 0 <= i -> l ++ set l' i y = set (l ++ l') (zlength l + i) y.
Proof.
  intros Hi. unfold set, zlength in *. do 2 (case_if; [lia|]). rewrite insert_app_r_alt by lia. do 2 f_equal. lia.
Qed.

Lemma slot_in s f i v : frame_ok s f -> slots f .@ i = Some v -> slot_ok s v.
Proof. intros Hok Hi. pose proof (fo_slots _ _ Hok) as Hs. rewrite Forall_forall in Hs. eapply Hs, get_In, Hi. Qed.

Lemma hoare_load (g : zaclr_frame -> list zaclr_stack_value) i :
  (forall s f v, frame_ok s f -> g f .@ i = Some v -> slot_ok s v) ->
  hoare ok_state (l ← gets g; match l .@ i with None => fail ZACLR_STATUS_DISPATCH_ERROR | Some v => push v end)
    (fun _ => ok_state).
Proof.
  intros Hg. eapply hoare_bind; [apply hoare_gets|]. intros l. destruct (l .@ i) as [v|] eqn:Hv.
  - eapply hoare_pre; [apply (hoare_push [v]); by left|]. intros x [Hx ->]. split; [done|]. apply Forall_singleton. by eapply Hg.
  - apply hoare_fail. by intros x [].
Qed.

Lemma hoare_load_local i : hoare ok_state (load_local i) (fun _ => ok_state).
Proof. apply (hoare_load locals). intros s f v Hok Hv. eapply slot_in; [done|]. by apply get_slot_local. Qed.

Lemma hoare_load_argument i : hoare ok_state (load_argument i) (fun _ => ok_state).
Proof. apply (hoare_load arguments). intros s f v Hok Hv. eapply slot_in; [done|]. by apply get_slot_argument. Qed.

Lemma hoare_store_local i : hoare ok_state (store_local i) (fun _ => ok_state).
Proof.
  intros x Hok. unfold store_local, mbind, exec_bind, gets, pop. cbv beta iota.
  destruct (locals (fs_frame x) .@ i) as [old|] eqn:Hi; [|done].
  pose proof (pop_frame_ok _ _ Hok) as Hp. destruct (zaclr_eval_stack_pop _) as [[v|r| |] st']; try done; try (by destruct Hp).
  destruct Hp as (Hf & Hv & Hown). pose proof (get_Some_range _ _ _ Hi).
  apply (frame_ok_set (fs_store x) _ (set_eval_stack st' (fs_frame x)) _ i v old); try done.
  - by apply get_slot_local.
  - apply reset_keeps.
  - unfold slots. simpl. by apply set_app_left.
Qed.

Lemma hoare_store_argument i : hoare ok_state (store_argument i) (fun _ => ok_state).
Proof.
  intros x Hok. unfold store_argument, mbind, exec_bind, gets, pop. cbv beta iota.
  destruct (arguments (fs_frame x) .@ i) as [old|] eqn:Hi; [|done].
  pose proof (pop_frame_ok _ _ Hok) as Hp. destruct (zaclr_eval_stack_pop _) as [[v|r| |] st']; try done; try (by destruct Hp).
  destruct Hp as (Hf & Hv & Hown). pose proof (get_Some_range _ _ _ Hi).
  pose proof (slot_in _ _ _ _ Hok (get_slot_argument _ _ _ Hi)) as [_ [Hk _]]. rewrite (proj2 (Z.eqb_neq _ _) Hk).
  apply (frame_ok_set (fs_store x) _ (set_eval_stack st' (fs_frame x)) _ (zlength (locals (fs_frame x)) + i) v old); try done.
  - by apply (get_slot_argument (set_eval_stack st' (fs_frame x))).
  - unfold slots. simpl. apply set_app_right. lia.
Qed.

Lemma hoare_slot_address base i : hoare ok_state (push_slot_address base i) (fun _ => ok_state).
Proof. apply hoare_push_ok. intros s. split; [done|]. split; done. Qed.

Lemma hoare_local_address i : hoare ok_state (push_local_address i) (fun _ => ok_state).
Proof.
  unfold push_local_address. eapply hoare_bind; [apply hoare_gets|]. intros f.
  case_if; [apply hoare_fail; by intros x []|]. eapply hoare_pre; [apply hoare_slot_address|]. by intros x [].
Qed.

Lemma hoare_argument_address i : hoare ok_state (push_argument_address i) (fun _ => ok_state).
Proof.
  unfold push_argument_address. eapply hoare_bind; [apply hoare_gets|]. intros f.
  case_if; [apply hoare_fail; by intros x []|]. eapply hoare_pre; [apply hoare_slot_address|]. by intros x [].
Qed.

(** ** Exceptions *)

Lemma keeps_union (D D' : Z -> Prop) s1 s2 s3 : keeps D s1 s2 -> keeps D' s2 s3 -> keeps (fun p => D p \/ D' p) s1 s3.
Proof.
  intros H1 H2 p Hp Hn. destruct (H1 p Hp) as [Hl E]; [tauto|]. destruct (H2 p Hl) as [Hl' E']; [tauto|].
  split; [done|]. congruence.
Qed.

Lemma reset_all_keeps l s : keeps (fun p => exists v, v ∈ l /\ owned_buffer v = Some p) s (reset_all s l).
Proof.
  revert s. induction l as [|v l IH]; intros s; [done|].
  change (reset_all s (v :: l)) with (reset_all (zaclr_stack_value_reset s v).1 l).
  intros p Hp Hn. apply (keeps_union _ _ _ _ _ (reset_keeps s v) (IH _)); [done|].
  intros [Hv|(w & Hw & Hp')]; apply Hn; [exists v|exists w]; (split; [|done]); [left|by right].
Qed.

Lemma destroy_keeps s st : stack_ok s st -> keeps (stack_owns st) s (zaclr_eval_stack_destroy s st).1.
Proof.
  intros Hok p Hp Hn. unfold zaclr_eval_stack_destroy. destruct (Z.eqb_spec (es_buffer st) 0) as [|Hb]; [done|].
  simpl. destruct (reset_all_keeps (es_values st) s p Hp) as [Hl E].
  { intros (v & Hv & Hpv). apply Hn. left. apply In_get in Hv as [i Hi]. by exists i, v. }
  rewrite free_spec. split; [|done]. assert (p <> es_buffer st); [|set_solver].
  intros ->. apply Hn. right. split; [|done]. intros Hc. by apply Hb, (sk_null _ _ Hok).
Qed.

Lemma hoare_reset_stack h : hoare ok_state (reset_eval_stack_for_exception_object h) (fun _ => ok_state).
Proof.
  unfold reset_eval_stack_for_exception_object.
  apply (hoare_bind _ _ _ (fun _ => ok_state)); [|intros _; apply hoare_push_ok; intros s; by apply word_slot_ok].
  intros x Hok. pose proof (destroy_keeps _ _ (fo_stack _ _ Hok)) as Hk.
  destruct (zaclr_eval_stack_destroy (fs_store x) (eval_stack (fs_frame x))) as [s1 e1].
  pose proof (initialize_spec s1 (max_stack (fs_frame x)) ltac:(pose proof (fo_max _ _ Hok); lia)) as Hi.
  assert (Forall (slot_ok s1) (slots (fs_frame x))) as Hsl.
  { apply (slots_ok_keeps _ _ _ _ Hk); [apply Hok|]. intros p Hp. by apply (fo_apart _ _ Hok). }
  assert (forall s2 st2, extends s1 s2 -> stack_ok s2 st2 -> Forall typed (es_values st2) ->
    (forall p, stack_owns st2 p -> p ∉ live s1.1) -> frame_ok s2 (set_eval_stack st2 (fs_frame x))) as Hnew.
  { intros s2 st2 He Hst Hty Hown. split; try done; try apply Hok.
    - apply (slots_ok_keeps (fun _ => False) s1); [by apply extends_keeps|done|auto].
    - intros p Hp Hso. apply (Hown p Hso). eapply owns_live; [|exact Hp]. eapply Forall_impl; [exact Hsl|]. by intros v []. }
  assert (Forall typed (replicate (Z.to_nat (max_stack (fs_frame x))) zero_value)) as Hrep
    by (apply Forall_replicate, typed_zero).
  revert Hi. unfold zaclr_eval_stack_initialize. destruct (Z.eqb_spec (max_stack (fs_frame x)) 0) as [E|E]; simpl.
  { intros (Hst & _ & _ & He & _). apply Hnew; [done|done|constructor|].
    intros p [(i & v & Hi & _)|[Hc _]]; [simpl in Hi; by rewrite get_nil in Hi|done]. }
  destruct (kernel_alloc s1.1 _) as [p k]. case_if; simpl.
  - intros (_ & _ & Hl & Hm). apply Hnew; [intros q Hq; simpl in *; by rewrite Hl|split; simpl; try done; try lia; intros *; by rewrite ?get_nil|constructor|].
    intros q [(i & v & Hi & _)|[Hc _]]; [simpl in Hi; by rewrite get_nil in Hi|done].
  - intros (Hst & _ & _ & He & _ & Hfresh). apply Hnew; [done|done|done|].
    intros q [(i & v & Hi & Hv)|[Hc ->]]; [|by apply Hfresh]. simpl in Hi. by apply get_replicate in Hi as ->.
Qed.

Lemma hoare_modify_ok g : (forall f, same_slots f (g f) /\ eval_stack (g f) = eval_stack f) ->
  hoare ok_state (modify g) (fun _ => ok_state).
Proof. intros Hg x Hok. destruct (Hg (fs_frame x)). by apply (frame_ok_same _ (fs_frame x)). Qed.

Context (matches : Z -> Z -> bool) (new_exception : store K -> outcome Z * store K).

(** The allocation of an exception object leaves the value buffers alone. *)
Definition allocation_ok : Prop := forall s,
  extends s (new_exception s).2 /\ (new_exception s).1 <> Fault /\ (new_exception s).1 <> NoFuel.
Context (Hnew : allocation_ok).

(** Sequencing at the invariant. *)
Ltac seq := apply (hoare_bind _ _ _ (fun _ => ok_state)); [|intros _].

(** The clause found lies in the table. *)
Lemma scan_range cs i source target found k h :
  scan_finally cs i source target found = Some (k, h) -> found = Some (k, h) \/ i <= k < i + zlength cs.
Proof.
  revert i found. induction cs as [|c cs IH]; intros i found; [by left|]. simpl. intros Hs.
  apply IH in Hs as [Hs|Hs]; rewrite zlength_cons; [|lia].
  destruct (finally_clause_is_between c source target); [|by left].
  pose proof (zlength_nonneg cs). destruct found as [[k' h']|]; [destruct (_ <? _)|]; try (by left);
    injection Hs as <- <-; right; lia.
Qed.

Lemma find_next_get f source target start i :
  find_next_finally_clause f source target start = Some i -> 0 <= start -> exception_clauses f .@ i <> None.
Proof.
  unfold find_next_finally_clause. destruct (scan_finally _ _ _ _ _) as [[k h]|] eqn:Hs; [|done]. intros [= <-] Hst.
  apply scan_range in Hs as [?|Hs]; [done|]. destruct (get_Some (exception_clauses f) k) as [c ->]; [|done].
  unfold zlength in *. rewrite length_drop in Hs. lia.
Qed.

Lemma hoare_to_handler h throw start :
  hoare ok_state (dispatch_exception_to_handler_at_offset_from_clause matches h throw start) (fun _ => ok_state).
Proof.
  unfold dispatch_exception_to_handler_at_offset_from_clause. seq; [by apply hoare_modify_ok|].
  eapply hoare_bind; [apply hoare_gets|]. intros cs.
  destruct (find_accepting _ _ _ _ _) as [[i c]|]; [|apply hoare_fail; by intros x []].
  eapply hoare_pre; [|by intros x [Hx _]; exact Hx]. seq; [apply hoare_reset_stack|].
  case_if; [by apply hoare_modify_ok|]. seq; by apply hoare_modify_ok.
Qed.

Lemma hoare_next_leave source target start : 0 <= start ->
  hoare ok_state (dispatch_next_finally_for_leave source target start) (fun _ => ok_state).
Proof.
  intros Hst. unfold dispatch_next_finally_for_leave. eapply hoare_bind; [apply hoare_gets|]. intros f.
  destruct (find_next_finally_clause _ _ _ _) as [i|] eqn:Hf.
  - destruct (exception_clauses f .@ i) as [c|] eqn:Hc.
    + eapply hoare_pre; [|by intros x [Hx _]; exact Hx]. seq; by apply hoare_modify_ok.
    + exfalso. by apply (find_next_get f _ _ _ _ Hf Hst).
  - eapply hoare_pre; [|by intros x [Hx _]; exact Hx]. seq; by apply hoare_modify_ok.
Qed.

Lemma hoare_next_throw throw h start : 0 <= start ->
  hoare ok_state (dispatch_next_finally_for_throw matches throw h start) (fun _ => ok_state).
Proof.
  intros Hst. unfold dispatch_next_finally_for_throw. eapply hoare_bind; [apply hoare_gets|]. intros f. cbv zeta.
  destruct (find_next_finally_clause _ _ _ _) as [i|] eqn:Hf.
  - destruct (exception_clauses f .@ i) as [c|] eqn:Hc.
    + eapply hoare_pre; [|by intros x [Hx _]; exact Hx]. seq; by apply hoare_modify_ok.
    + exfalso. by apply (find_next_get f _ _ _ _ Hf Hst).
  - eapply hoare_pre; [|by intros x [Hx _]; exact Hx]. seq; [by apply hoare_modify_ok|]. apply hoare_to_handler.
Qed.

Lemma hoare_set_exception o : hoare ok_state (set_current_exception o) (fun _ => ok_state).
Proof. by intros x Hx. Qed.

Lemma hoare_create_exception : hoare ok_state (create_managed_exception new_exception) (fun _ => ok_state).
Proof.
  unfold create_managed_exception. apply (hoare_bind _ _ _ (fun _ => ok_state)).
  - intros x Hx. unfold with_store. destruct (Hnew (fs_store x)) as (He & Hf & Hn).
    assert (frame_ok (new_exception (fs_store x)).2 (fs_frame x)) as Hok.
    { rewrite <- (frame_eta (fs_frame x)). apply (frame_ok_stack (fs_store x)); try done.
      - apply (stack_ok_keeps (fun _ => False) (fs_store x)); [by apply extends_keeps|apply Hx|auto].
      - apply Hx.
      - by left. }
    destruct (new_exception (fs_store x)) as [[a|r| |] s']; done.
  - intros h. seq; [apply hoare_set_exception|]. case_if; [by intros x Hx|]. apply (hoare_ret h (fun _ => ok_state)).
Qed.

Lemma hoare_raise : hoare ok_state (raise_overflow_exception matches new_exception) (fun _ => ok_state).
Proof.
  unfold raise_overflow_exception. apply (hoare_bind _ _ _ (fun _ => ok_state)); [apply hoare_create_exception|]. intros h.
  eapply hoare_bind; [apply hoare_gets|]. intros f. eapply hoare_pre; [apply hoare_to_handler|]. by intros x [].
Qed.

Lemma hoare_throw : hoare ok_state (step_throw matches) (fun _ => ok_state).
Proof.
  unfold step_throw. eapply hoare_bind; [eapply hoare_pre; [apply (hoare_pop [])|by intros x Hx]|]. intros v.
  eapply hoare_bind.
  - apply (hoare_lift _ _ (fun _ => True)). intros x [Hx Hv]. split; [done|]. apply Forall_singleton in Hv as [_ Ht].
    unfold stack_value_to_object_handle. case_if; [done|]. eapply safe_post_bind; [apply value_word_safe; [done|by_kind]|done].
  - intros h. apply (hoare_pre ok_state); [|by intros x [[Hx _] _]]. case_if; [by apply hoare_fail|].
    case_if; [by intros x Hx|]. seq; [apply hoare_set_exception|]. unfold dispatch_exception_to_handler.
    eapply hoare_bind; [apply hoare_gets|]. intros f. eapply hoare_pre; [by apply hoare_next_throw|]. by intros x [].
Qed.

Lemma hoare_leave target : hoare ok_state (step_leave target) (fun _ => ok_state).
Proof.
  unfold step_leave. eapply hoare_bind; [apply hoare_gets|]. intros f. eapply hoare_pre; [by apply hoare_next_leave|]. by intros x [].
Qed.

Lemma hoare_endfinally : hoare ok_state (step_endfinally matches) (fun _ => ok_state).
Proof.
  unfold step_endfinally. eapply hoare_bind; [apply hoare_gets|]. intros f. apply (hoare_pre ok_state); [|by intros x []].
  case_if; [by apply hoare_fail|]. cbv zeta. seq; [by apply hoare_modify_ok|].
  case_if; [apply hoare_next_leave, u16_range|]. case_if; [apply hoare_next_throw, u16_range|by apply hoare_fail].
Qed.

Lemma hoare_filter_result a p : hoare ok_state
  (if negb (a =? 0) then
     modify clear_filter;;
     reset_eval_stack_for_exception_object (pt_exception_handle p);;
     modify (set_il_offset (pt_handler_offset p))
   else dispatch_exception_to_handler_at_offset_from_clause matches (pt_exception_handle p) (pt_throw_offset p)
          (u16 (pt_next_clause_index p))) (fun _ => ok_state).
Proof.
  case_if; [|apply hoare_to_handler]. seq; [by apply hoare_modify_ok|]. seq; [apply hoare_reset_stack|].
  by apply hoare_modify_ok.
Qed.

Lemma hoare_endfilter : hoare ok_state (step_endfilter matches) (fun _ => ok_state).
Proof.
  unfold step_endfilter. eapply hoare_bind; [apply hoare_gets|]. intros f. apply (hoare_pre ok_state); [|by intros x []].
  case_if; [by apply hoare_fail|]. cbv zeta.
  intros x Hok. unfold mbind at 1, exec_bind at 1, pop. pose proof (pop_frame_ok _ _ Hok) as Hp.
  destruct (zaclr_eval_stack_pop _) as [[v|r| |] st']; try done; try (by destruct Hp). destruct Hp as (Hf & Hv & Hown).
  set (x1 := mk_fstate _ _ _). set (x2 := mk_fstate (zaclr_stack_value_reset (fs_store x) v).1 (fs_frame x1) (fs_exception x)).
  assert (ok_state x2) as Hok2.
  { apply (frame_ok_keeps (fs_store x) _ (fs_frame x1) _ Hf (reset_keeps _ v)). intros p Hp. by apply Hown. }
  unfold mbind at 1, exec_bind at 1. cbv beta iota. change (fs_store x1) with (fs_store x).
  pose proof (i32_safe (fs_store x) v Hv) as Hi. destruct (stack_value_to_i32 (fs_store x) v) as [a|r| |]; try done.
  exact (hoare_filter_result a (filter_state f) x2 Hok2).
Qed.

(** ** Instructions with operands *)

(** The instruction at the offset has [n] bytes inside the image. *)
Definition at_code (n : Z) x : Prop :=
  ok_state x /\ 0 <= il_offset (fs_frame x) /\ il_offset (fs_frame x) + n <= zlength (il_start (fs_frame x)) /\
  zlength (il_start (fs_frame x)) < 2 ^ 32.

Lemma hoare_il {A} P (m : memory -> outcome A) (R : A -> Prop) :
  (forall x, P x -> ok_state x /\ safe_post (m (il_start (fs_frame x))) R) ->
  hoare P (c ← gets il_start; lift (m c)) (fun a x => P x /\ R a).
Proof.
  intros Hm x Hx. unfold mbind, exec_bind, gets, lift. cbv beta iota.
  destruct (Hm x Hx) as [Hok Hs]. by destruct (m (il_start (fs_frame x))).
Qed.

Lemma hoare_short_operand k : (forall b, 0 <= b < 256 -> hoare ok_state (k b) (fun _ => ok_state)) ->
  hoare (at_code 2) (short_operand k) (fun _ => ok_state).
Proof.
  intros Hk. unfold short_operand. eapply hoare_bind; [apply hoare_gets|]. intros f.
  eapply hoare_bind; [apply (hoare_il _ (fun c => read_u8 c _) (fun b => 0 <= b < 256))|].
  { intros x [(Hok & H0' & Hn & Hs) ->]. split; [done|]. apply read_u8_post. unfold id. rewrite u32_id by lia. lia. }
  intros b. intros x [[(Hok & _) _] Hb]. revert x Hok. seq; [|by apply Hk]. by apply hoare_modify_ok.
Qed.

Lemma hoare_u32_at n off (k : Z -> exec K unit) : 0 <= off -> off + 4 <= n ->
  (forall w, 0 <= w < 2 ^ 32 -> hoare ok_state (k w) (fun _ => ok_state)) ->
  hoare (at_code n) (f ← gets id; w ← il_u32 (il_offset f + off); k w) (fun _ => ok_state).
Proof.
  intros Ho Hn Hk. eapply hoare_bind; [apply hoare_gets|]. intros f.
  eapply hoare_bind; [apply (hoare_il _ (fun c => read_u32 c _) (fun w => 0 <= w < 2 ^ 32))|].
  { intros x [(Hok & H0' & Hl & Hs) ->]. split; [done|]. apply read_u32_post; unfold id; lia. }
  intros w x [[(Hok & _) _] Hw]. revert x Hok. by apply Hk.
Qed.

Lemma hoare_u64_at off (k : Z -> exec K unit) : off = 1 ->
  (forall w, hoare ok_state (k w) (fun _ => ok_state)) ->
  hoare (at_code 9) (f ← gets id; w ← il_u64 (il_offset f + off); k w) (fun _ => ok_state).
Proof.
  intros -> Hk. eapply hoare_bind; [apply hoare_gets|]. intros f.
  apply (hoare_bind _ _ _ (fun _ => ok_state)); [|done]. unfold il_u64.
  eapply hoare_bind; [apply (hoare_il _ (fun c => read_u32 c _) (fun _ => True))|].
  { intros x [(Hok & H0' & Hl & Hs) ->]. split; [done|]. eapply safe_post_mono; [apply read_u32_post; unfold id; lia|done]. }
  intros lo. eapply hoare_bind; [apply (hoare_il _ (fun c => read_u32 c _) (fun _ => True))|].
  { intros x [[(Hok & H0' & Hl & Hs) ->] _]. split; [done|]. eapply safe_post_mono; [apply read_u32_post; unfold id; lia|done]. }
  intros hi x [[[(Hok & _) _] _] _]. exact Hok.
Qed.

(** The operand of a branch is read first. *)
Lemma hoare_short_delta (k : Z -> exec K unit) : (forall d, hoare ok_state (k d) (fun _ => ok_state)) ->
  hoare (at_code 2) (delta ← short_delta; k delta) (fun _ => ok_state).
Proof.
  intros Hk. apply (hoare_bind _ _ _ (fun _ => ok_state)); [|done]. unfold short_delta.
  eapply hoare_bind; [apply hoare_gets|]. intros f.
  eapply hoare_bind; [apply (hoare_il _ (fun c => read_u8 c _) (fun _ => True))|].
  { intros x [(Hok & H0' & Hn & Hs) ->]. split; [done|]. eapply safe_post_mono; [|done]. apply read_u8_post. unfold id. rewrite u32_id by lia. lia. }
  intros b x [[(Hok & _) _] _]. exact Hok.
Qed.

Lemma hoare_inline_delta (k : Z -> exec K unit) : (forall d, hoare ok_state (k d) (fun _ => ok_state)) ->
  hoare (at_code 5) (delta ← inline_delta; k delta) (fun _ => ok_state).
Proof.
  intros Hk. apply (hoare_bind _ _ _ (fun _ => ok_state)); [|done]. unfold inline_delta.
  eapply hoare_bind; [apply hoare_gets|]. intros f.
  eapply hoare_bind; [apply (hoare_il _ (fun c => read_u32 c _) (fun _ => True))|].
  { intros x [(Hok & H0' & Hn & Hs) ->]. split; [done|]. eapply safe_post_mono; [apply read_u32_post; unfold id; lia|done]. }
  intros b x [[(Hok & _) _] _]. exact Hok.
Qed.

Lemma hoare_pop_ok (k : zaclr_stack_value -> exec K unit) : (forall v, hoare (holding [v]) (k v) (fun _ => ok_state)) ->
  hoare ok_state (v ← pop; k v) (fun _ => ok_state).
Proof. intros Hk. eapply hoare_bind; [eapply hoare_pre; [apply (hoare_pop [])|by intros x Hx]|]. exact Hk. Qed.

Lemma hoare_pair_ok {A} (k : zaclr_stack_value * zaclr_stack_value -> exec K A) (Q : A -> fstate K -> Prop) :
  (forall l r, hoare (holding [l; r]) (k (l, r)) Q) -> hoare ok_state (p ← pop_pair; k p) Q.
Proof.
  intros Hk. eapply hoare_bind; [eapply hoare_pre; [apply (hoare_pop_pair [])|by intros x Hx]|]. intros [l r]. apply Hk.
Qed.

(** Reading two values that are held. *)
Lemma hoare_read2 {A B} l r (g h : store K -> outcome A) (R : A -> Prop) (k : A -> A -> exec K B) Q :
  (forall s, slot_ok s l -> safe_post (g s) R) -> (forall s, slot_ok s r -> safe_post (h s) R) ->
  (forall a b, R a -> R b -> hoare (holding [l; r]) (k a b) Q) ->
  hoare (holding [l; r]) (a ← on_store g; b ← on_store h; k a b) Q.
Proof.
  intros Hg Hh Hk. eapply hoare_bind.
  { apply (hoare_store _ g R). intros x [Hok Hv]. split; [done|]. apply Hg. inversion Hv; subst. done. }
  intros a. eapply hoare_bind.
  { apply (hoare_store _ h R). intros x [[Hok Hv] _]. split; [done|]. apply Hh. inversion Hv as [|? ? _ Hv']; subst. by inversion Hv'; subst. }
  intros b x [[Hx Ha] Hb]. by apply (Hk a b Ha Hb x Hx).
Qed.

Lemma holding_ok vs x : holding vs x -> ok_state x.
Proof. by intros []. Qed.

Lemma hoare_forget {A} vs (m : exec K A) Q : hoare ok_state m Q -> hoare (holding vs) m Q.
Proof. intros Hm. eapply hoare_pre; [exact Hm|]. apply holding_ok. Qed.

Lemma hoare_operands uninit op : owned_buffer uninit = None -> hoare ok_state (branch_operands uninit op) (fun _ => ok_state).
Proof.
  intros Hu. unfold branch_operands. eapply hoare_bind; [by apply hoare_peek|]. intros v. apply hoare_forget.
  assert (hoare ok_state pop_branch_i8_pair (fun _ => ok_state)) as H8.
  { unfold pop_branch_i8_pair. apply hoare_pair_ok. intros l r. apply (hoare_read2 l r _ _ (fun _ => True));
      [intros; eapply safe_post_mono; [by apply i64_safe|done]..|]. intros a b _ _. apply hoare_forget, (hoare_ret (a, b) (fun _ => ok_state)). }
  case_if.
  { unfold pop_branch_float_pair. apply hoare_pair_ok. intros l r. eapply hoare_bind.
    { apply (hoare_lift _ _ (fun _ => True)). intros x [Hok Hv]. split; [done|]. inversion Hv as [|? ? [_ Ht] _]; subst.
      eapply safe_post_mono; [by apply float_safe|done]. }
    intros a. eapply hoare_bind.
    { apply (hoare_lift _ _ (fun _ => True)). intros x [[Hok Hv] _]. split; [done|]. inversion Hv as [|? ? _ Hv']; subst.
      inversion Hv' as [|? ? [_ Ht] _]; subst. eapply safe_post_mono; [by apply float_safe|done]. }
    intros b x [[[Hok _] _] _]. exact Hok. }
  case_if.
  { case_if; [done|]. unfold pop_branch_u8_pair. apply (hoare_bind _ _ _ (fun _ => ok_state)); [done|]. intros [a b] x Hx. exact Hx. }
  case_if; unfold pop_branch_i4_pair, pop_branch_u4_pair; apply hoare_pair_ok; intros l r.
  - case_if.
    + eapply hoare_bind.
      { apply (hoare_lift _ _ (fun _ => True)). intros x [Hok Hv]. split; [done|]. inversion Hv as [|? ? [_ Ht] _]; subst. by apply handle_safe. }
      intros a. eapply hoare_bind.
      { apply (hoare_lift _ _ (fun _ => True)). intros x [[Hok Hv] _]. split; [done|]. inversion Hv as [|? ? _ Hv']; subst.
        inversion Hv' as [|? ? [_ Ht] _]; subst. by apply handle_safe. }
      intros b x [[[Hok _] _] _]. exact Hok.
    + apply (hoare_read2 l r _ _ (fun _ => True)); [intros; eapply safe_post_mono; [by apply i32_safe|done]..|].
      intros a b _ _. apply hoare_forget, (hoare_ret (a, b) (fun _ => ok_state)).
  - apply (hoare_read2 l r _ _ (fun _ => True)); [intros; eapply safe_post_mono; [by apply u32_safe|done]..|].
    intros a b _ _. apply hoare_forget, (hoare_ret (a, b) (fun _ => ok_state)).
Qed.

(** ** Branches, arithmetic, conversions *)

Lemma hoare_branch short b d : hoare ok_state ((if short : bool then short_branch else inline_branch) b d) (fun _ => ok_state).
Proof. destruct short; by apply hoare_modify_ok. Qed.

Lemma hoare_delta short (k : Z -> exec K unit) : (forall d, hoare ok_state (k d) (fun _ => ok_state)) ->
  hoare (at_code (if short : bool then 2 else 5)) (delta ← (if short then short_delta else inline_delta); k delta) (fun _ => ok_state).
Proof. intros Hk. destruct short; [by apply hoare_short_delta|by apply hoare_inline_delta]. Qed.

Lemma hoare_brtrue short sense : hoare (at_code (if short : bool then 2 else 5)) (step_brtrue short sense) (fun _ => ok_state).
Proof.
  apply hoare_delta. intros d. apply hoare_pop_ok. intros v. eapply hoare_bind.
  { apply (hoare_store _ _ (fun _ => True)). intros x [Hok Hv]. split; [done|]. apply condition_safe. by inversion Hv. }
  intros b. eapply hoare_pre; [apply hoare_branch|]. by intros x [[Hok _] _].
Qed.

Lemma hoare_compare_branch uninit short op : owned_buffer uninit = None ->
  hoare (at_code (if short : bool then 2 else 5)) (step_compare_branch uninit short op) (fun _ => ok_state).
Proof.
  intros Hu. apply hoare_delta. intros d. apply (hoare_bind _ _ _ (fun _ => ok_state)); [by apply hoare_operands|].
  intros [l r]. apply hoare_branch.
Qed.

(** The jump table of a [switch] lies in the image. *)
Definition table_inside f : Prop := forall count, read_u32 (il_start f) (il_offset f + 1) = Ret count ->
  il_offset f + 5 + 4 * count <= zlength (il_start f).

Lemma il_u32_eq a (x : fstate K) : il_u32 a x = (read_u32 (il_start (fs_frame x)) a, x).
Proof. done. Qed.

Lemma hoare_switch : hoare (fun x => at_code 5 x /\ table_inside (fs_frame x)) step_switch (fun _ => ok_state).
Proof.
  intros x [(Hok & Ho & Hn & Hs) Ht]. unfold step_switch. unfold mbind at 1, exec_bind at 1, pop.
  pose proof (pop_frame_ok _ _ Hok) as Hp.
  destruct (zaclr_eval_stack_pop _) as [[v|r| |] st']; try done; try (by destruct Hp). destruct Hp as (Hf & Hv & _).
  set (x1 := mk_fstate _ _ _). assert (ok_state x1) as Hok1 by done.
  assert (il_offset (fs_frame x1) = il_offset (fs_frame x)) as Eo by done.
  assert (il_start (fs_frame x1) = il_start (fs_frame x)) as Es by done.
  unfold mbind at 1, exec_bind at 1, on_store. cbv beta iota. change (fs_store x1) with (fs_store x).
  pose proof (u32_safe (fs_store x) v Hv) as Hu. destruct (stack_value_to_u32 (fs_store x) v) as [index|r| |]; try done.
  unfold mbind, exec_bind, gets, modify, id. cbv beta iota zeta. rewrite Eo, il_u32_eq, Es.
  pose proof (read_u32_post (il_start (fs_frame x)) (il_offset (fs_frame x) + 1) ltac:(lia) ltac:(lia)) as Hr.
  destruct (read_u32 (il_start (fs_frame x)) (il_offset (fs_frame x) + 1)) as [count|r| |] eqn:Ec; try done.
  specialize (Ht count Ec). simpl in Hu, Hr. destruct (Z.ltb_spec index count).
  - rewrite (u32_id (il_offset (fs_frame x) + 5)), (u32_id (index * 4)), il_u32_eq, Es by lia.
    pose proof (read_u32_post (il_start (fs_frame x)) (il_offset (fs_frame x) + 5 + index * 4) ltac:(lia) ltac:(lia)) as Hr2.
    destruct (read_u32 (il_start (fs_frame x)) (il_offset (fs_frame x) + 5 + index * 4)) as [d|r| |]; try done.
    by apply (frame_ok_same _ (fs_frame x1)).
  - by apply (frame_ok_same _ (fs_frame x1)).
Qed.

Lemma hoare_pointer_offset op p o vs : is_kind ZACLR_STACK_VALUE_BYREF p = true -> p ∈ vs -> o ∈ vs ->
  hoare (holding vs) (push_pointer_offset_result op p o) (fun _ => ok_state).
Proof.
  intros Hk Hp Ho. apply Z.eqb_eq in Hk. unfold push_pointer_offset_result. eapply hoare_bind.
  { apply (hoare_store _ _ (fun _ => True)). intros x [Hok Hv]. split; [done|]. rewrite Forall_forall in Hv.
    eapply safe_post_mono; [by apply i64_safe, Hv|done]. }
  intros d. eapply hoare_bind.
  { apply (hoare_lift _ _ (fun _ => True)). intros x [[Hok Hv] _]. split; [done|]. rewrite Forall_forall in Hv.
    eapply safe_post_mono; [apply value_word_safe; [apply (Hv p Hp)|by_kind]|done]. }
  intros w. eapply hoare_pre; [apply hoare_push_ok|by intros x [[[Hok _] _] _]].
  intros s. unfold slot_ok, value_ok, typed, is_valuetype. simpl. rewrite Hk. done.
Qed.

Lemma hoare_checked wide r : (forall y : Z, r = Some y -> in_int (int_width wide) y) ->
  hoare ok_state (push_checked matches new_exception wide r) (fun _ => ok_state).
Proof.
  intros Hr. unfold push_checked. destruct r as [y|]; [|apply hoare_raise]. specialize (Hr y eq_refl).
  destruct wide; apply hoare_push_ok; intros s; [by apply i8_ok|by apply i4_ok].
Qed.

(** A value that an operator computes, or its trap. *)
Lemma hoare_operator {A} (m : outcome A) (R : A -> Prop) (k : A -> exec K unit) :
  match m with Ret y => R y | Err _ => True | Fault => trap | NoFuel => False end ->
  (forall y, R y -> hoare ok_state (k y) (fun _ => ok_state)) ->
  hoare ok_state (y ← lift m; k y) (fun _ => ok_state).
Proof.
  intros Hm Hk x Hx. unfold mbind, exec_bind, lift. destruct m; try done. by apply (Hk a Hm).
Qed.

Lemma hoare_binary op : (op = CEE_DIV \/ op = CEE_REM -> trap) ->
  hoare ok_state (step_binary matches new_exception op) (fun _ => ok_state).
Proof.
  intros Htrap. unfold step_binary. apply hoare_pair_ok. intros l r.
  apply (hoare_bind _ _ _ (fun _ => holding [l; r])); [apply hoare_advance|]. intros _.
  case_if. { unfold is_byref_plus_or_minus_integer in *. bool_cases. apply hoare_pointer_offset; [done|left|right; left]. }
  case_if. { unfold is_byref_plus_or_minus_integer in *. bool_cases. apply hoare_pointer_offset; [done|right; left|left]. }
  case_if.
  { intros x [Hok Hv]. inversion Hv as [|? ? [_ Hl] Hv']; subst. inversion Hv' as [|? ? [_ Hr] _]; subst.
    pose proof (binary_r8_safe (fs_store x) op l r Hl Hr) as Hb. revert x Hok Hv Hv' Hb.
    assert (forall x, ok_state x -> match binary_r8_result op l r with
      | Ret v => slot_ok (fs_store x) v | Err _ => True | Fault => op = CEE_DIV \/ op = CEE_REM | NoFuel => False end ->
      match (v ← lift (binary_r8_result op l r); push v) x with
      | (Ret _, x') => ok_state x' | (Err _, x') => ok_state x' | (Fault, x') => trap /\ ok_state x' | (NoFuel, _) => False end) as Hgo.
    { intros x Hok Hb. unfold mbind, exec_bind, lift. destruct (binary_r8_result op l r) as [v|e| |]; auto.
      apply (hoare_push [v]); [left|]. split; [done|]. by apply Forall_singleton. }
    intros x Hok _ _ Hb. destruct op; try (by apply Hgo); exact Hok. }
  case_if.
  { apply (hoare_read2 l r _ _ (in_int 64)); [intros; by apply i64_safe..|]. intros a b Ha Hb. apply hoare_forget. case_if.
    - rewrite checked_i8 by done. apply (hoare_operator _ (fun q => forall y : Z, q = Some y -> in_int 64 y)).
      + pose proof (checked_spec_safe 64 op a b ltac:(lia)) as Hc. by destruct (checked_spec 64 op a b).
      + intros q Hq. by apply (hoare_checked true).
    - rewrite binary_eq_i8 by done. apply (hoare_operator _ (in_int 64)).
      + pose proof (binary_spec_safe 64 op a b ltac:(lia) Ha Hb) as Hc. destruct (binary_spec 64 op a b); auto.
      + intros y Hy. apply hoare_push_ok. intros s. by apply i8_ok. }
  apply (hoare_read2 l r _ _ (in_int 32)); [intros; by apply i32_safe..|]. intros a b Ha Hb. apply hoare_forget. case_if.
  - rewrite checked_i4 by done. apply (hoare_operator _ (fun q => forall y : Z, q = Some y -> in_int 32 y)).
    + pose proof (checked_spec_safe 32 op a b ltac:(lia)) as Hc. by destruct (checked_spec 32 op a b).
    + intros q Hq. by apply (hoare_checked false).
  - rewrite binary_eq_i4 by done. apply (hoare_operator _ (in_int 32)).
    + pose proof (binary_spec_safe 32 op a b ltac:(lia) Ha Hb) as Hc. destruct (binary_spec 32 op a b); auto.
    + intros y Hy. apply hoare_push_ok. intros s. by apply i4_ok.
Qed.

Lemma hoare_unary op : hoare ok_state (step_unary op) (fun _ => ok_state).
Proof.
  unfold step_unary. apply hoare_pop_ok. intros v. apply (hoare_bind _ _ _ (fun _ => holding [v])); [apply hoare_advance|].
  intros _ x [Hok Hv]. rewrite Forall_singleton in Hv. pose proof (unary_safe _ op v Hv) as Hu.
  unfold mbind, exec_bind, lift. destruct (unary_result op v) as [w|e| |]; try done.
  apply (hoare_push [w]); [left|]. split; [done|]. by apply Forall_singleton.
Qed.

Lemma hoare_convert (x86_64 : bool) op : hoare ok_state (step_convert x86_64 matches new_exception op) (fun _ => ok_state).
Proof.
  unfold step_convert. apply hoare_pop_ok. intros v. apply (hoare_bind _ _ _ (fun _ => holding [v])); [apply hoare_advance|].
  intros _. case_if.
  - intros x [Hok Hv]. rewrite Forall_singleton in Hv. pose proof (checked_converted_safe x86_64 _ op v Hv) as Hc.
    unfold mbind, exec_bind, on_store. destruct (checked_converted_value x86_64 (fs_store x) op v) as [[w|]|e| |]; try done.
    + apply (hoare_push [w]); [left|]. split; [done|]. apply Forall_singleton. by apply Hc.
    + by apply hoare_raise.
  - intros x [Hok Hv]. rewrite Forall_singleton in Hv. pose proof (converted_safe x86_64 _ op v Hv) as Hc.
    unfold mbind, exec_bind, on_store. destruct (converted_value x86_64 (fs_store x) op v) as [w|e| |]; try done.
    apply (hoare_push [w]); [left|]. split; [done|]. by apply Forall_singleton.
Qed.

Lemma hoare_compare op : hoare ok_state (step_compare op) (fun _ => ok_state).
Proof.
  unfold step_compare. apply hoare_pair_ok. intros l r. apply (hoare_bind _ _ _ (fun _ => holding [l; r])); [apply hoare_advance|].
  intros _ x [Hok Hv]. inversion Hv as [|? ? Hl Hv']; subst. inversion Hv' as [|? ? Hr _]; subst.
  pose proof (compare_safe _ op l r Hl Hr) as Hc. unfold mbind, exec_bind, on_store.
  destruct (compare_result (fs_store x) op l r) as [w|e| |]; try done.
  apply (hoare_push_ok (value_of_i4 w)); [|done]. intros s. by apply i4_ok.
Qed.

(** ** Every instruction *)

(** The bytes of an instruction and its operand; for [switch] without the table. *)
Definition instruction_length (op : zaclr_opcode) : Z :=
  match op with
  | CEE_LDARG_S | CEE_LDARGA_S | CEE_STARG_S | CEE_STLOC_S | CEE_LDLOC_S | CEE_LDLOCA_S | CEE_LDC_I4_S
  | CEE_BR_S | CEE_BRTRUE_S | CEE_BRFALSE_S | CEE_BEQ_S | CEE_BNE_UN_S | CEE_BGE_S | CEE_BGT_S | CEE_BLE_S
  | CEE_BLT_S | CEE_BGE_UN_S | CEE_BGT_UN_S | CEE_BLE_UN_S | CEE_BLT_UN_S | CEE_LEAVE_S => 2
  | CEE_LDC_I4 | CEE_LDC_R4 | CEE_BR | CEE_BRTRUE | CEE_BRFALSE | CEE_BEQ | CEE_BNE_UN | CEE_BGE | CEE_BGT
  | CEE_BLE | CEE_BLT | CEE_BGE_UN | CEE_BGT_UN | CEE_BLE_UN | CEE_BLT_UN | CEE_LEAVE | CEE_SWITCH => 5
  | CEE_LDC_I8 | CEE_LDC_R8 => 9
  | CEE_LDLOC => 4
  | CEE_CONSTRAINED => 6
  | CEE_CEQ | CEE_CGT | CEE_CLT | CEE_CGT_UN | CEE_CLT_UN => 2
  | _ => 1
  end.

(** The instruction lies inside the image. *)
Definition operand_inside (op : zaclr_opcode) f : Prop :=
  0 <= il_offset f /\ il_offset f + instruction_length op <= zlength (il_start f) /\ zlength (il_start f) < 2 ^ 32 /\
  (op = CEE_SWITCH -> table_inside f).

Lemma hoare_constrained : hoare (at_code 6)
  (f ← gets id; t ← il_u32 (il_offset f + 2); modify (set_constrained t);; advance 6) (fun _ => ok_state).
Proof. apply hoare_u32_at; [lia..|]. intros w _. seq; by apply hoare_modify_ok. Qed.

Lemma hoare_ldloc : hoare (at_code 4)
  (f ← gets id; i ← il_u16 (il_offset f + 2); advance 4;; load_local i) (fun _ => ok_state).
Proof.
  eapply hoare_bind; [apply hoare_gets|]. intros f.
  eapply hoare_bind; [apply (hoare_il _ (fun c => read_u16 c _) (fun _ => True))|].
  { intros x [(Hok & H0' & Hl & Hs) ->]. split; [done|]. eapply safe_post_mono; [apply read_u16_post; unfold id; lia|done]. }
  intros w x [[(Hok & _) _] _]. revert x Hok. seq; [by apply hoare_modify_ok|apply hoare_load_local].
Qed.

Lemma hoare_at op n (m : exec K unit) : instruction_length op = n -> hoare (at_code n) m (fun _ => ok_state) ->
  hoare (fun x => ok_state x /\ operand_inside op (fs_frame x)) m (fun _ => ok_state).
Proof. intros <- Hm. eapply hoare_pre; [exact Hm|]. by intros x (Hok & H1 & H2 & H3 & _). Qed.

Lemma hoare_any op (m : exec K unit) : hoare ok_state m (fun _ => ok_state) ->
  hoare (fun x => ok_state x /\ operand_inside op (fs_frame x)) m (fun _ => ok_state).
Proof. intros Hm. eapply hoare_pre; [exact Hm|]. by intros x []. Qed.

Lemma hoare_next n (m : exec K unit) : hoare ok_state m (fun _ => ok_state) -> hoare ok_state (advance n;; m) (fun _ => ok_state).
Proof. intros Hm. seq; [by apply hoare_modify_ok|done]. Qed.

Lemma hoare_push_i4 w : in_int 32 w -> hoare ok_state (push_i4 w) (fun _ => ok_state).
Proof. intros Hw. apply hoare_push_ok. intros s. by apply i4_ok. Qed.
Lemma hoare_push_i8 w : hoare ok_state (push_i8 (i64 w)) (fun _ => ok_state).
Proof. apply hoare_push_ok. intros s. apply i8_ok, (signed_range 64). lia. Qed.
Lemma hoare_push_r4 w : hoare ok_state (push_r4 (u32 w)) (fun _ => ok_state).
Proof. apply hoare_push_ok. intros s. apply r4_ok. Qed.
Lemma hoare_push_r8 w : hoare ok_state (push_r8 (u64 w)) (fun _ => ok_state).
Proof. apply hoare_push_ok. intros s. apply r8_ok. Qed.

Lemma hoare_pop_instruction : hoare ok_state (pop;; mret ()) (fun _ => ok_state).
Proof. apply hoare_pop_ok. intros v. apply hoare_forget, (hoare_ret () (fun _ => ok_state)). Qed.

Lemma hoare_dup uninit : owned_buffer uninit = None -> hoare ok_state (v ← peek uninit; advance 1;; push v) (fun _ => ok_state).
Proof.
  intros Hu. eapply hoare_bind; [by apply hoare_peek|]. intros v.
  apply (hoare_bind _ _ _ (fun _ => holding [v])); [apply hoare_advance|]. intros _. apply hoare_push. left.
Qed.

Lemma hoare_leave_at (target : zaclr_frame -> Z) : hoare ok_state (f ← gets id; step_leave (target f)) (fun _ => ok_state).
Proof.
  eapply hoare_bind; [apply hoare_gets|]. intros f. eapply hoare_pre; [apply hoare_leave|]. by intros x [].
Qed.

Lemma hoare_step (x86_64 : bool) uninit op : owned_buffer uninit = None -> (op = CEE_DIV \/ op = CEE_REM -> trap) ->
  hoare (fun x => ok_state x /\ operand_inside op (fs_frame x))
    (dispatch_frame_step x86_64 matches new_exception uninit op) (fun _ => ok_state).
Proof.
  intros Hu Htrap. destruct op; try (apply hoare_any; by apply hoare_modify_ok).
  all: cbn [dispatch_frame_step step_argument step_stloc step_ldloc step_ldc step_br step_leave_to]; unfold step_dup, step_pop.
  all: try (apply hoare_any, hoare_next; first [apply hoare_load_argument | apply hoare_store_local
    | apply hoare_load_local | apply hoare_pop_instruction | by apply hoare_push_i4
    | apply hoare_push_ok; intros s; by apply word_slot_ok ]).
  all: try (apply hoare_any; first [by apply hoare_dup | by apply hoare_binary; auto | apply hoare_unary | apply hoare_compare
    | apply hoare_convert | apply hoare_throw | apply hoare_endfinally | apply hoare_endfilter]).
  all: try (apply (hoare_at _ 2); [done|]; first
    [ apply hoare_short_operand; intros b Hb; first [apply hoare_load_argument | apply hoare_argument_address
        | apply hoare_store_argument | apply hoare_store_local | apply hoare_load_local | apply hoare_local_address
        | apply hoare_push_i4, (in_int_widen 8 32); [lia|]; apply (signed_range 8); lia ]
    | apply (hoare_brtrue true) | by apply (hoare_compare_branch _ true)
    | apply hoare_short_delta; intros d; first [apply (hoare_branch true) | apply hoare_leave_at] ]).
  all: try (apply (hoare_at _ 5); [done|]; first [apply (hoare_brtrue false) | by apply (hoare_compare_branch _ false)
    | apply hoare_inline_delta; intros d; first [apply (hoare_branch false) | apply hoare_leave_at]
    | apply (hoare_u32_at 5 1); [lia..|]; intros w Hw; apply hoare_next; first [apply hoare_push_r4
        | apply hoare_push_i4, (signed_range 32); lia ] ]).
  all: try (apply (hoare_at _ 9); [done|]; apply (hoare_u64_at 1); [lia..|]; intros w; apply hoare_next;
    first [apply hoare_push_i8 | apply hoare_push_r8]).
  - apply hoare_any. by apply hoare_fail.
  - eapply hoare_pre; [apply hoare_switch|]. intros x (Hok & H1 & H2 & H3 & Ht). by split; [|apply Ht].
  - apply (hoare_at _ 4); [done|apply hoare_ldloc].
  - apply (hoare_at _ 6); [done|apply hoare_constrained].
Qed.

End safe.

(** ** The one fault *)

(** The operands of a division whose quotient does not fit: the smallest number of the
    type the division is computed in, divided by -1. *)
Definition division_overflows {K} (s : store K) (lhs rhs : zaclr_stack_value) : Prop :=
  if stack_value_is_float lhs || stack_value_is_float rhs then
    stack_value_to_common_float_bits lhs = Ret (- 2 ^ 63) /\ stack_value_to_common_float_bits rhs = Ret (-1)
  else if is_kind ZACLR_STACK_VALUE_I8 lhs || is_kind ZACLR_STACK_VALUE_I8 rhs then
    stack_value_to_i64 s lhs = Ret (- 2 ^ 63) /\ stack_value_to_i64 s rhs = Ret (-1)
  else stack_value_to_i32 s lhs = Ret (- 2 ^ 31) /\ stack_value_to_i32 s rhs = Ret (-1).

(** The operands of the instruction are two values of which the division overflows. *)
Definition overflowing_operands {K} (x : fstate K) : Prop :=
  exists lhs rhs x1, pop_pair x = (Ret (lhs, rhs), x1) /\ division_overflows (fs_store x1) lhs rhs.

Lemma host_div_fault min l r : host_div min l r = Fault -> r = 0 \/ (l = min /\ r = -1).
Proof. unfold host_div. case_if; [|done]. intros _. bool_cases; lia. Qed.

Lemma host_rem_fault min l r : host_rem min l r = Fault -> r = 0 \/ (l = min /\ r = -1).
Proof. unfold host_rem. case_if; [|done]. intros _. bool_cases; lia. Qed.

Lemma binary_fault_i4 op l r : op = CEE_DIV \/ op = CEE_REM -> binary_i4_result op l r = Fault -> l = - 2 ^ 31 /\ r = -1.
Proof.
  intros [-> | ->]; cbn; case_if; try done; bool_cases; [intros [?|?]%host_div_fault|intros [?|?]%host_rem_fault]; done.
Qed.

Lemma binary_fault_i8 op l r : op = CEE_DIV \/ op = CEE_REM -> binary_i8_result op l r = Fault -> l = - 2 ^ 63 /\ r = -1.
Proof.
  intros [-> | ->]; cbn; case_if; try done; bool_cases; [intros [?|?]%host_div_fault|intros [?|?]%host_rem_fault]; done.
Qed.

Lemma binary_fault_r8 op l r : typed l -> typed r -> op = CEE_DIV \/ op = CEE_REM -> binary_r8_result op l r = Fault ->
  stack_value_to_common_float_bits l = Ret (- 2 ^ 63) /\ stack_value_to_common_float_bits r = Ret (-1).
Proof.
  intros Hl Hr Hop. pose proof (float_safe l Hl) as H1. pose proof (float_safe r Hr) as H2. unfold binary_r8_result.
  destruct (stack_value_to_common_float_bits l) as [a| | |]; try done.
  destruct (stack_value_to_common_float_bits r) as [b| | |]; try done.
  cbn [mbind outcome_bind]. destruct Hop as [-> | ->]; case_if; try done; bool_cases.
  - destruct (host_div k_int64_min a b) eqn:E; try done. by apply host_div_fault in E as [?|[-> ->]].
  - destruct (host_rem k_int64_min a b) eqn:E; try done. by apply host_rem_fault in E as [?|[-> ->]].
Qed.

(** What is pushed is never read outside its buffers. *)
Lemma push_no_fault {K} `{KernelHeapLaws K} (x : fstate K) v : ok_state x -> slot_ok (fs_store x) v -> (push v x).1 <> Fault.
Proof.
  intros Hok Hv. assert (Forall (slot_ok (fs_store x)) [v]) as Hvs by (by apply Forall_singleton).
  pose proof (hoare_push False [v] v ltac:(left) x (conj Hok Hvs)) as Hh.
  destruct (push v x) as [[| | |] x']; try done. by destruct Hh.
Qed.

Lemma binary_fault {K} `{KernelHeapLaws K} matches new_exception op (x : fstate K) : ok_state x -> op = CEE_DIV \/ op = CEE_REM ->
  (step_binary matches new_exception op x).1 = Fault -> overflowing_operands x.
Proof.
  intros Hok Hop. pose proof (hoare_pop_pair False [] x (conj Hok (Forall_nil_2 _))) as Hp. unfold step_binary, overflowing_operands.
  unfold mbind at 1, exec_bind at 1. destruct (pop_pair x) as [[[l r]|e| |] x1]; try done; [|by destruct Hp as [[] _]].
  intros Hf. exists l, r, x1. split; [done|]. revert Hf. destruct Hp as [Hok1 Hv]. inversion Hv as [|? ? Hl Hv']; subst.
  inversion Hv' as [|? ? Hr _]; subst. pose proof (hoare_advance False [l; r] 1 x1 (conj Hok1 Hv)) as Ha.
  unfold mbind at 1, exec_bind at 1. unfold advance, modify in *. cbn [fst] in *. set (x2 := mk_fstate _ _ _) in *.
  assert (fs_store x1 = fs_store x2) as Es by done. rewrite Es in Hl, Hr |- *. clearbody x2. destruct Ha as [Hok2 _].
  assert (forall a b, is_byref_plus_or_minus_integer op a b = false) as Hby.
  { intros a b. unfold is_byref_plus_or_minus_integer. by destruct Hop as [-> | ->]. }
  rewrite !Hby, andb_false_r. unfold division_overflows. destruct (stack_value_is_float l || stack_value_is_float r).
  { intros Hf. pose proof (binary_r8_safe (fs_store x2) op l r (proj2 Hl) (proj2 Hr)) as Hs.
    apply (binary_fault_r8 op); [apply Hl|apply Hr|done|].
    assert (((v ← lift (binary_r8_result op l r); push v) x2).1 = Fault) as Hf' by (by destruct Hop as [-> | ->]).
    revert Hf'. unfold mbind, exec_bind, lift. destruct (binary_r8_result op l r) as [v|e| |]; try done.
    intros Hf'. by destruct (push_no_fault x2 v Hok2 Hs). }
  destruct (is_kind ZACLR_STACK_VALUE_I8 l || is_kind ZACLR_STACK_VALUE_I8 r).
  - unfold mbind at 1, exec_bind at 1, on_store at 1. pose proof (i64_safe _ l Hl) as S1. pose proof (i64_safe _ r Hr) as S2.
    destruct (stack_value_to_i64 (fs_store x2) l) as [a| | |]; try done. unfold mbind at 1, exec_bind at 1, on_store at 1.
    destruct (stack_value_to_i64 (fs_store x2) r) as [b| | |]; try done.
    assert (is_ovf op = false) as -> by (by destruct Hop as [-> | ->]). unfold mbind, exec_bind, lift.
    pose proof (binary_spec_safe 64 op a b ltac:(lia) S1 S2) as Hb. rewrite <- binary_eq_i8 in Hb by done.
    destruct (binary_i8_result op a b) as [v|e| |] eqn:E; try done.
    + intros Hf. by destruct (push_no_fault x2 (value_of_i8 v) Hok2 (i8_ok _ v Hb)).
    + apply binary_fault_i8 in E as [-> ->]; done.
  - unfold mbind at 1, exec_bind at 1, on_store at 1. pose proof (i32_safe _ l Hl) as S1. pose proof (i32_safe _ r Hr) as S2.
    destruct (stack_value_to_i32 (fs_store x2) l) as [a| | |]; try done. unfold mbind at 1, exec_bind at 1, on_store at 1.
    destruct (stack_value_to_i32 (fs_store x2) r) as [b| | |]; try done.
    assert (is_ovf op = false) as -> by (by destruct Hop as [-> | ->]). unfold mbind, exec_bind, lift.
    pose proof (binary_spec_safe 32 op a b ltac:(lia) S1 S2) as Hb. rewrite <- binary_eq_i4 in Hb by done.
    destruct (binary_i4_result op a b) as [v|e| |] eqn:E; try done.
    + intros Hf. by destruct (push_no_fault x2 (value_of_i4 v) Hok2 (i4_ok _ v Hb)).
    + apply binary_fault_i4 in E as [-> ->]; done.
Qed.

(** ** The invariant over one instruction *)

(** C5: every modelled instruction, executed in a well-formed frame, leaves the frame
    well formed, whether it succeeds or fails: every slot has the representation of its
    kind, every buffer a slot owns is live, and no two slots share one.  No instruction
    reads outside its operands or through a dead buffer.  The only machine fault is the
    signed overflow of [div] and [rem]: the two operands are the smallest number of their
    type and -1; in particular no division by zero reaches the machine.  Assumed are that
    the bytes of the instruction lie inside the image ([operand_inside]; the code does not
    check this), that the allocator of exception objects keeps the store
    ([allocation_ok]), and that a variable the dispatcher never initialises does not look
    like the owner of a buffer ([uninit]; the code does not ensure this either, see
    [uninitialised_peek_frees]). *)
Theorem dispatch_step_safe {K : Type} `{KernelHeapLaws K} (x86_64 : bool) (matches : Z -> Z -> bool)
    (new_exception : store K -> outcome Z * store K) (uninit : zaclr_stack_value) (op : zaclr_opcode) (x : fstate K) :
  allocation_ok new_exception -> owned_buffer uninit = None -> ok_state x -> operand_inside op (fs_frame x) ->
  let '(o, x') := dispatch_frame_step x86_64 matches new_exception uninit op x in
  ok_state x' /\ o <> NoFuel /\ (o = Fault -> (op = CEE_DIV \/ op = CEE_REM) /\ overflowing_operands x).
Proof.
  intros Hnew Hu Hok Hin.
  pose proof (hoare_step (op = CEE_DIV \/ op = CEE_REM) matches new_exception Hnew x86_64 uninit op Hu id x (conj Hok Hin)) as Hh.
  destruct (dispatch_frame_step _ _ _ _ op x) as [[[]|r| |] x'] eqn:E; try done.
  destruct Hh as [Hop Hok']. split; [done|]. split; [done|]. intros _. split; [done|].
  apply (binary_fault matches new_exception op); [done|done|].
  apply (f_equal fst) in E. by destruct Hop as [-> | ->].
Qed.

(** ** A frame whose local owns a value type of 20 bytes *)

Definition sample_frame : zaclr_frame :=
  mk_frame 0 [x06; x2a] 2 0 2 [] 0 [example_big.2] 0 [] 0 example_stack GenericContext.empty_context 0 no_filter no_finally 0 false.
Definition sample_fstate : fstate small_heap := mk_fstate example_big.1 sample_frame 0.

Lemma sample_fstate_ok : ok_state sample_fstate.
Proof.
  assert (forall p, owned_buffer example_big.2 = Some p -> p = 2) as H2 by (intros p [= <-]; done).
  assert (forall p, ~ owns (es_values example_stack) p) as Hz.
  { intros p (i & v & Hi & Hp). apply (get_replicate 2) in Hi. by subst v. }
  split.
  - apply example_stack_ok.
  - exact (Forall_cons_2 _ _ _ typed_zero (Forall_cons_2 _ _ _ typed_zero (Forall_nil_2 _))).
  - apply Forall_singleton. by split; [apply example_big_ok|].
  - intros i j v w p Hi Hj Hv Hw. unfold slots in *. simpl in *. apply get_Some_range in Hi, Hj. unfold zlength in *. simpl in *. lia.
  - intros p (i & v & Hi & Hp) [Ho|[_ Ho]]; [by apply (Hz p)|]. apply get_In in Hi. simpl in Hi.
    apply list_elem_of_singleton in Hi as ->. apply H2 in Hp as ->. done.
  - simpl. lia.
Qed.

Definition no_exception : store small_heap -> outcome Z * store small_heap := fun s => (Err (exec_error ZACLR_STATUS_OUT_OF_MEMORY), s).

Lemma dispatch_step_safe_witness :
  let '(o, x') := dispatch_frame_step true (fun _ _ => false) no_exception zero_value CEE_LDLOC_0 sample_fstate in
  o = Ret () /\ ok_state x' /\ es_depth (eval_stack (fs_frame x')) = 1.
Proof.
  assert (allocation_ok no_exception) as Hnew by (intros s; split; [by apply extends_refl|done]).
  assert (operand_inside CEE_LDLOC_0 sample_frame) as Hin by (repeat split; cbn; try lia; done).
  pose proof (dispatch_step_safe true (fun _ _ => false) no_exception zero_value CEE_LDLOC_0 sample_fstate
    Hnew eq_refl sample_fstate_ok Hin) as Hs.
  assert ((dispatch_frame_step true (fun _ _ => false) no_exception zero_value CEE_LDLOC_0 sample_fstate).1 = Ret () /\
    es_depth (eval_stack (fs_frame (dispatch_frame_step true (fun _ _ => false) no_exception zero_value CEE_LDLOC_0 sample_fstate).2)) = 1)
    as [E1 E2] by (split; vm_compute; reflexivity).
  destruct (dispatch_frame_step true (fun _ _ => false) no_exception zero_value CEE_LDLOC_0 sample_fstate) as [o x'].
  split; [exact E1|]. split; [apply Hs|exact E2].
Defined.

(** ** What the invariant does not promise *)

Definition run_frame (uninit : zaclr_stack_value) (ops : list zaclr_opcode) (x : fstate small_heap) : fstate small_heap :=
  fold_left (fun x op => (dispatch_frame_step true (fun _ _ => false) no_exception uninit op x).2) ops x.

(** The variable that [dup] peeks into is not initialised: when the bytes it happens
    to hold look like a value that owns a buffer, that buffer is released, here the
    one of the local variable. *)
Lemma uninitialised_peek_frees :
  let x := run_frame zero_value [CEE_LDC_I4_1] sample_fstate in
  ok_state x /\ 2 ∈ live (fs_store x).1 /\ 2 ∉ live (fs_store (run_frame example_big.2 [CEE_DUP] x)).1.
Proof.
  split; [|split; by apply (bool_decide_unpack _); vm_compute].
  assert (allocation_ok no_exception) as Hnew by (intros s; split; [by apply extends_refl|done]).
  assert (operand_inside CEE_LDC_I4_1 sample_frame) as Hin by (repeat split; cbn; try lia; done).
  pose proof (hoare_step False (fun _ _ => false) no_exception Hnew true zero_value CEE_LDC_I4_1 eq_refl
    ltac:(by intros [|]) sample_fstate (conj sample_fstate_ok Hin)) as Hh.
  unfold run_frame. cbn [fold_left]. destruct (dispatch_frame_step _ _ _ _ CEE_LDC_I4_1 sample_fstate) as [[| | |] x]; try done. by destruct Hh.
Qed.

(** [dup] of a large value type makes two copies and forgets one of them: the
    buffer 4 is live, and neither the stack nor a local owns it. *)
Definition big_store : store small_heap := (mk_small_heap 8 {[1%positive]}, ∅).
Definition big_value : store small_heap * zaclr_stack_value :=
  (zaclr_stack_value_set_valuetype big_store zero_value 0x02000003 (Some example_payload) 20).2.

Lemma dup_leaks :
  let x := run_frame zero_value [CEE_LDLOC_0; CEE_DUP] (mk_fstate big_value.1 sample_frame 0) in
  4 ∈ live (fs_store x).1 /\ es_depth (eval_stack (fs_frame x)) = 2 /\
  omap owned_buffer (es_values (eval_stack (fs_frame x)) ++ locals (fs_frame x)) = [3; 5; 2].
Proof.
  split; [by apply (bool_decide_unpack _); vm_compute|]. split; vm_compute; reflexivity.
Qed.

End DispatchSafe.
