(* ===== verification/Program.v ===== *)
(** * The engine runs structured programs

    A small imperative language on 32-bit integers, with the instruction sequences a
    compiler emits for it, and the proof that the engine of [Dispatch] (fetch,
    dispatch, operators, evaluation stack, branches, return) computes what the
    program means: expressions, assignments, conditionals and loops of a method, and
    the value it returns to its caller. *)

From Stdlib Require Import Strings.Byte.
From S2P Require Import Prelude Status Bytes KernelHeap EvalStack ManagedObject Gc GenericContext GenericCorrect.
From S2P Require Import EmulatedFloat Opcode Frame Arith Exceptions Dispatch.

Module Program.
Import EmulatedFloat Opcode Frame Arith Exceptions Dispatch.

(** ** The language *)

Inductive expr :=
  | Const (z : Z)
  | Local (i : Z)
  | Arg (i : Z)
  | Unary (op : zaclr_opcode) (e : expr)
  | Binary (op : zaclr_opcode) (l r : expr)
  | Compare (op : zaclr_opcode) (l r : expr).

(** The value of an expression is tested, or two values are compared. *)
Inductive cond :=
  | Test (sense : bool) (e : expr)
  | Rel (op : zaclr_opcode) (l r : expr).

Inductive cmd :=
  | Skip
  | Assign (i : Z) (e : expr)
  | Seq (c1 c2 : cmd)
  | If (b : cond) (c1 c2 : cmd)
  | While (b : cond) (c : cmd).

Definition is_compare (op : zaclr_opcode) : bool :=
  match op with CEE_CEQ | CEE_CGT | CEE_CLT | CEE_CGT_UN | CEE_CLT_UN => true | _ => false end.
Definition is_unary (op : zaclr_opcode) : bool :=
  match op with CEE_NEG | CEE_NOT => true | _ => false end.
Definition is_binary (op : zaclr_opcode) : bool :=
  match op with
  | CEE_ADD | CEE_SUB | CEE_MUL | CEE_DIV | CEE_DIV_UN | CEE_REM | CEE_REM_UN
  | CEE_AND | CEE_OR | CEE_XOR | CEE_SHL | CEE_SHR | CEE_SHR_UN => true
  | _ => false
  end.
Definition is_relation (op : zaclr_opcode) : bool :=
  match op with
  | CEE_BEQ | CEE_BNE_UN | CEE_BGE | CEE_BGT | CEE_BLE | CEE_BLT
  | CEE_BGE_UN | CEE_BGT_UN | CEE_BLE_UN | CEE_BLT_UN => true
  | _ => false
  end.

(** ** What programs mean *)

Definition unary_spec (op : zaclr_opcode) (x : Z) : Z :=
  if bool_decide (op = CEE_NEG) then signed 32 (- x) else - x - 1.

Definition compare_spec (op : zaclr_opcode) (l r : Z) : bool :=
  match op with
  | CEE_CEQ => l =? r
  | CEE_CGT => r <? l
  | CEE_CLT => l <? r
  | CEE_CGT_UN => wrap 32 r <? wrap 32 l
  | _ => wrap 32 l <? wrap 32 r
  end.

(** The ten conditional branches, on the signed or the unsigned operands. *)
Definition relation_spec (op : zaclr_opcode) (l r : Z) : bool :=
  match op with
  | CEE_BEQ => l =? r
  | CEE_BNE_UN => negb (l =? r)
  | CEE_BGE => r <=? l
  | CEE_BGT => r <? l
  | CEE_BLE => l <=? r
  | CEE_BLT => l <? r
  | CEE_BGE_UN => wrap 32 r <=? wrap 32 l
  | CEE_BGT_UN => wrap 32 r <? wrap 32 l
  | CEE_BLE_UN => wrap 32 l <=? wrap 32 r
  | _ => wrap 32 l <? wrap 32 r
  end.

Section semantics.
Context (args : list Z).

(** A local is [None] until it is assigned.  The result is [None] for a division by
    zero, a quotient that does not fit, or a variable that is not assigned or that the
    method does not have. *)
Fixpoint eval (env : list (option Z)) (e : expr) : option Z :=
  match e with
  | Const z => Some z
  | Local i => v ← env .@ i; v
  | Arg i => args .@ i
  | Unary op e => x ← eval env e; Some (unary_spec op x)
  | Binary op l r =>
    x ← eval env l; y ← eval env r;
    match binary_spec 32 op x y with Ret z => Some z | _ => None end
  | Compare op l r => x ← eval env l; y ← eval env r; Some (truth (compare_spec op x y))
  end.

Definition eval_cond (env : list (option Z)) (b : cond) : option bool :=
  match b with
  | Test sense e => x ← eval env e; Some (Bool.eqb (negb (x =? 0)) sense)
  | Rel op l r => x ← eval env l; y ← eval env r; Some (relation_spec op x y)
  end.

(** Big steps: the locals before and after a command. *)
Inductive runs : list (option Z) -> cmd -> list (option Z) -> Prop :=
  | runs_skip env : runs env Skip env
  | runs_assign env i e v : eval env e = Some v -> 0 <= i < zlength env -> runs env (Assign i e) (set env i (Some v))
  | runs_seq env c1 env1 c2 env2 : runs env c1 env1 -> runs env1 c2 env2 -> runs env (Seq c1 c2) env2
  | runs_if env b t c1 c2 env' : eval_cond env b = Some t -> runs env (if t : bool then c1 else c2) env' -> runs env (If b c1 c2) env'
  | runs_done env b c : eval_cond env b = Some false -> runs env (While b c) env
  | runs_loop env b c env1 env2 : eval_cond env b = Some true -> runs env c env1 -> runs env1 (While b c) env2 ->
    runs env (While b c) env2.

End semantics.

(** ** Their instructions *)

Section compile.
Context `{OpcodeTable}.

Definition emit (op : zaclr_opcode) : list byte :=
  if two_bytes op then [xfe; byte_of_Z (opcode_value op)] else [byte_of_Z (opcode_value op)].

Definition emit_branch (op : zaclr_opcode) (delta : Z) : list byte := emit op ++ encode_u32 (u32 delta).

Fixpoint compile (e : expr) : list byte :=
  match e with
  | Const z => emit CEE_LDC_I4 ++ encode_u32 (u32 z)
  | Local i => emit CEE_LDLOC_S ++ [byte_of_Z i]
  | Arg i => emit CEE_LDARG_S ++ [byte_of_Z i]
  | Unary op e => compile e ++ emit op
  | Binary op l r | Compare op l r => compile l ++ compile r ++ emit op
  end.

(** The evaluation of a condition, and the branch that is taken when it holds. *)
Definition compile_cond (b : cond) (delta : Z) : list byte :=
  match b with
  | Test sense e => compile e ++ emit_branch (if sense then CEE_BRTRUE else CEE_BRFALSE) delta
  | Rel op l r => compile l ++ compile r ++ emit_branch op delta
  end.
Definition cond_size (b : cond) : Z := zlength (compile_cond b 0).

Fixpoint compile_cmd (c : cmd) : list byte :=
  match c with
  | Skip => []
  | Assign i e => compile e ++ emit CEE_STLOC_S ++ [byte_of_Z i]
  | Seq c1 c2 => compile_cmd c1 ++ compile_cmd c2
  | If b c1 c2 =>
    let then_code := compile_cmd c1 in
    let else_code := compile_cmd c2 in
    compile_cond b (zlength else_code + 5) ++ else_code ++ emit_branch CEE_BR (zlength then_code) ++ then_code
  | While b c =>
    let body := compile_cmd c in
    emit_branch CEE_BR (zlength body) ++ body ++ compile_cond b (- (zlength body + cond_size b))
  end.

(** A method that runs [c] and returns the value of [e]. *)
Definition compile_method (c : cmd) (e : expr) : list byte := compile_cmd c ++ compile e ++ emit CEE_RET.

End compile.

(** ** Well-formed programs *)

Fixpoint expr_ok (e : expr) : bool :=
  match e with
  | Const z => (- 2 ^ 31 <=? z) && (z <? 2 ^ 31)
  | Local i | Arg i => (0 <=? i) && (i <? 256)
  | Unary op e => is_unary op && expr_ok e
  | Binary op l r => is_binary op && expr_ok l && expr_ok r
  | Compare op l r => is_compare op && expr_ok l && expr_ok r
  end.

Definition cond_ok (b : cond) : bool :=
  match b with Test _ e => expr_ok e | Rel op l r => is_relation op && expr_ok l && expr_ok r end.

Fixpoint cmd_ok (c : cmd) : bool :=
  match c with
  | Skip => true
  | Assign i e => (0 <=? i) && (i <? 256) && expr_ok e
  | Seq c1 c2 => cmd_ok c1 && cmd_ok c2
  | If b c1 c2 => cond_ok b && cmd_ok c1 && cmd_ok c2
  | While b c => cond_ok b && cmd_ok c
  end.

(** The slots of the evaluation stack a program uses. *)
Fixpoint expr_depth (e : expr) : Z :=
  match e with
  | Const _ | Local _ | Arg _ => 1
  | Unary _ e => expr_depth e
  | Binary _ l r | Compare _ l r => Z.max (expr_depth l) (1 + expr_depth r)
  end.
Definition cond_depth (b : cond) : Z :=
  match b with Test _ e => expr_depth e | Rel _ l r => Z.max (expr_depth l) (1 + expr_depth r) end.
Fixpoint cmd_depth (c : cmd) : Z :=
  match c with
  | Skip => 0
  | Assign _ e => expr_depth e
  | Seq c1 c2 => Z.max (cmd_depth c1) (cmd_depth c2)
  | If b c1 c2 => Z.max (cond_depth b) (Z.max (cmd_depth c1) (cmd_depth c2))
  | While b c => Z.max (cond_depth b) (cmd_depth c)
  end.

(** ** Values of expressions are numbers of 32 bits *)

Lemma unary_range op x : in_int 32 x -> in_int 32 (unary_spec op x).
Proof.
  intros Hx. unfold unary_spec. case_bool_decide; [apply (signed_range 32); lia|]. unfold in_int in *. lia.
Qed.

Lemma truth_range b : in_int 32 (truth b).
Proof. unfold in_int. destruct b; simpl; lia. Qed.

(** A local that is assigned holds a number of 32 bits. *)
Definition local_ok (o : option Z) : Prop := from_option (in_int 32) True o.

Lemma eval_range args env e v : Forall (in_int 32) args -> Forall local_ok env -> expr_ok e = true ->
  eval args env e = Some v -> in_int 32 v.
Proof.
  intros Ha He. revert v. induction e as [z|i|i|op e IH|op l IHl r IHr|op l IHl r IHr]; simpl; intros v Hok Hv.
  - injection Hv as <-. unfold in_int. lia.
  - destruct (env .@ i) as [o|] eqn:E; [|done]. simpl in Hv. subst o. apply get_In in E. rewrite Forall_forall in He. by apply (He (Some v)).
  - apply get_In in Hv. rewrite Forall_forall in Ha. auto.
  - destruct (eval args env e) as [x|]; [|done]. injection Hv as <-. apply andb_true_iff in Hok as [_ Hok].
    apply unary_range. auto.
  - rewrite !andb_true_iff in Hok. destruct Hok as [[_ Hl] Hr].
    destruct (eval args env l) as [x|]; [|done]. destruct (eval args env r) as [y|]; [|done]. simpl in Hv.
    destruct (binary_spec 32 op x y) as [z| | |] eqn:E; try done. injection Hv as <-.
    apply (binary_spec_range 32 op x y); auto; lia.
  - destruct (eval args env l) as [x|]; [|done]. destruct (eval args env r) as [y|]; [|done]. injection Hv as <-.
    apply truth_range.
Qed.

(** ** The evaluation stack of a running program *)

Definition pushed (st : zaclr_eval_stack) (v : zaclr_stack_value) : zaclr_eval_stack :=
  set_slot st (es_depth st) v (es_depth st + 1).

(** The next [n] slots exist and are clear. *)
Definition room (st : zaclr_eval_stack) (n : Z) : Prop :=
  0 <= es_depth st /\ es_depth st + n <= es_capacity st < 2 ^ 32 /\
  forall i, 0 <= i < n -> es_values st .@ (es_depth st + i) = Some zero_value.

Lemma room_weaken st n m : m <= n -> room st n -> room st m.
Proof. intros Hm (H1 & H2 & H3). split; [done|]. split; [lia|]. intros i Hi. apply H3. lia. Qed.

Lemma room_pushed st n v : 0 <= n -> room st (1 + n) -> room (pushed st v) n.
Proof.
  intros Hn (H1 & H2 & H3). split; [simpl; lia|]. split; [simpl; lia|]. intros i Hi. simpl.
  rewrite get_set_ne by lia. rewrite <- Z.add_assoc. apply H3. lia.
Qed.

Lemma set_set_id {A} (l : list A) i (x y : A) : l .@ i = Some y -> set (set l i x) i y = l.
Proof.
  unfold get, set. case_if; [done|]. intros Hy. rewrite list_insert_insert_eq. by apply list_insert_id.
Qed.

Lemma pushed_top st v : room st 1 ->
  es_depth (pushed st v) <> 0 /\ es_values (pushed st v) .@ (es_depth (pushed st v) - 1) = Some v.
Proof.
  intros (H1 & H2 & H3). specialize (H3 0 ltac:(lia)). rewrite Z.add_0_r in H3. pose proof (get_Some_range _ _ _ H3).
  simpl. rewrite Z.add_simpl_r, get_set_eq by lia. by split; [lia|].
Qed.

Lemma pop_pushed st v : room st 1 -> zaclr_eval_stack_pop (pushed st v) = (Ret v, st).
Proof.
  intros (H1 & H2 & H3). specialize (H3 0 ltac:(lia)). rewrite Z.add_0_r in H3. pose proof (get_Some_range _ _ _ H3).
  unfold zaclr_eval_stack_pop, pushed. simpl. rewrite (proj2 (Z.eqb_neq _ _)) by lia.
  rewrite Z.add_simpl_r, get_set_eq by lia. f_equal. unfold set_slot. destruct st as [b vs d c]. simpl in *. f_equal.
  by apply set_set_id.
Qed.

(** A local that is not assigned is the cleared value of a new frame. *)
Definition local_value (o : option Z) : zaclr_stack_value := from_option value_of_i4 zero_value o.

Section machine.
Context {K : Type} `{KernelHeap K} (x86_64 : bool) (matches : Z -> Z -> bool) (new_exception : store K -> outcome Z * store K).
Context (uninit : zaclr_stack_value) (Huninit : owned_buffer uninit = None).
Context (constructed : zaclr_frame -> option (Z * option (list byte) * Z)) `{OpcodeTableLaws}.
Context (other_instruction : Z -> engine_state K -> outcome unit * engine_state K).
Context (sto : store K) (f : zaclr_frame) (rest : list zaclr_frame) (ex : Z) (args : list Z).
Hypothesis Hargs : arguments f = value_of_i4 <$> args.
Hypothesis Hargs_range : Forall (in_int 32) args.
Hypothesis Hsize : il_size f < 2 ^ 31.

Abbreviation run := (zaclr_engine_execute_frame_loop x86_64 matches new_exception uninit constructed other_instruction).
Abbreviation dispatch := (dispatch_frame_step x86_64 matches new_exception uninit).

(** The frame [f] at the offset [pc], with a stack and locals. *)
Definition at_pc (pc : Z) (st : zaclr_eval_stack) (env : list (option Z)) : zaclr_frame :=
  set_il_offset pc (set_locals (local_value <$> env) (set_eval_stack st f)).
Definition fconf pc st env : fstate K := mk_fstate sto (at_pc pc st env) ex.
Definition conf pc st env : engine_state K := mk_engine sto (at_pc pc st env :: rest) ex.

(** [n] instructions lead from [s] to [s']. *)
Definition steps (n : nat) (s s' : engine_state K) : Prop := forall fuel, run (n + fuel) s = run fuel s'.
Definition reaches (s s' : engine_state K) : Prop := exists n, steps n s s'.

Lemma reaches_refl s : reaches s s.
Proof. by exists 0%nat. Qed.
Lemma reaches_trans s1 s2 s3 : reaches s1 s2 -> reaches s2 s3 -> reaches s1 s3.
Proof. intros [n Hn] [m Hm]. exists (n + m)%nat. intros fuel. rewrite <- Nat.add_assoc, Hn. apply Hm. Qed.

(** The method has the instructions [l] at [pc]. *)
Definition code_at (pc : Z) (l : list byte) : Prop := 0 <= pc /\ seg (il_start f) pc l /\ pc + zlength l <= il_size f.

Lemma code_at_app pc l1 l2 : code_at pc (l1 ++ l2) <-> code_at pc l1 /\ code_at (pc + zlength l1) l2.
Proof.
  unfold code_at. rewrite seg_app, zlength_app. pose proof (zlength_nonneg l1). pose proof (zlength_nonneg l2).
  split; [intros (?&[]&?)|intros [(?&?&?) (?&?&?)]]; repeat split; try done; lia.
Qed.

Lemma zlength_emit op : zlength (emit op) = if two_bytes op then 2 else 1.
Proof. unfold emit. by destruct (two_bytes op). Qed.

Lemma fetch_emit pc op st env : code_at pc (emit op) -> fetch_opcode (at_pc pc st env) = Ret (opcode_value op).
Proof.
  intros (H1' & Hs & Hl). pose proof (opcode_value_range op) as Hr. unfold emit in *. unfold fetch_opcode. simpl.
  destruct (two_bytes op); rewrite ?zlength_cons in Hl; change (zlength (@nil byte)) with 0 in Hl.
  - rewrite (proj2 (Z.ltb_lt _ _)) by lia. simpl. rewrite (seg_read_u8 _ _ _ _ Hs), Ret_bind. change (byte_Z xfe =? 0xFE) with true.
    cbv iota. rewrite u32_id by lia. rewrite (proj2 (Z.ltb_lt _ _)) by lia. apply seg_cons in Hs as [_ Hs].
    simpl. rewrite (seg_read_u8 _ _ _ _ Hs), Ret_bind, byte_Z_of_Z. f_equal. unfold u8, u16.
    replace (opcode_value op mod 2 ^ 8) with (opcode_value op - 0xFE00) by (apply Z.mod_unique with 0xFE; lia).
    change 0xFE00 with (Z.shiftl 0xFE 8) at 1. rewrite lor_shiftl_add by lia. rewrite Z.mod_small; lia.
  - rewrite (proj2 (Z.ltb_lt _ _)) by lia. simpl. rewrite (seg_read_u8 _ _ _ _ Hs), Ret_bind, byte_Z_of_Z.
    unfold u8. rewrite Z.mod_small by lia. by rewrite (proj2 (Z.eqb_neq _ _)) by lia.
Qed.

(** One instruction of the loop. *)
Lemma step_instruction pc op st env pc' st' env' : op <> CEE_RET -> code_at pc (emit op) ->
  dispatch op (fconf pc st env) = (Ret (), fconf pc' st' env') -> reaches (conf pc st env) (conf pc' st' env').
Proof.
  intros Hop Hc Hd. exists 1%nat. intros fuel. change (1 + fuel)%nat with (S fuel). cbn [zaclr_engine_execute_frame_loop conf en_frames].
  rewrite (fetch_emit pc op st env Hc). unfold zaclr_dispatch_step. cbn [conf en_frames en_store en_exception]. rewrite find_opcode_value.
  unfold fconf in Hd. destruct op; try done; by rewrite Hd.
Qed.

(** ** The parts of an instruction *)

Lemma bind_run {A B} (m : exec K A) (k : A -> exec K B) x a x' : m x = (Ret a, x') -> (m ≫= k) x = k a x'.
Proof. intros E. unfold mbind, exec_bind. by rewrite E. Qed.

Lemma advance_run n pc st env : 0 <= pc + n < 2 ^ 32 -> advance n (fconf pc st env) = (Ret (), fconf (pc + n) st env).
Proof. intros Hn. unfold advance, modify, fconf, at_pc. simpl. by rewrite u32_id. Qed.

Lemma assign_word d v : owned_buffer d = None -> is_valuetype v = false -> zaclr_stack_value_assign sto d v = (Ret (), (sto, v)).
Proof. intros Hd Hv. unfold zaclr_stack_value_assign, zaclr_stack_value_reset, zaclr_stack_value_clone. by rewrite Hd, Hv. Qed.

Lemma push_value st v : room st 1 -> is_valuetype v = false -> zaclr_eval_stack_push sto st v = (Ret (), (sto, pushed st v)).
Proof.
  intros (H1' & H2 & H3) Hv. specialize (H3 0 ltac:(lia)). rewrite Z.add_0_r in H3. unfold zaclr_eval_stack_push.
  rewrite (proj2 (Z.leb_gt _ _)) by lia. rewrite H3, assign_word by done. unfold pushed. by rewrite u32_id by lia.
Qed.

Lemma push_run pc st env v : room st 1 -> is_valuetype v = false -> push v (fconf pc st env) = (Ret (), fconf pc (pushed st v) env).
Proof. intros Hr Hv. unfold push, fconf. cbn [fs_store fs_frame fs_exception at_pc eval_stack set_il_offset set_locals set_eval_stack]. by rewrite push_value. Qed.

Lemma pop_run pc st env v : room st 1 -> pop (fconf pc (pushed st v) env) = (Ret v, fconf pc st env).
Proof. intros Hr. unfold pop, fconf. cbn [fs_store fs_frame fs_exception at_pc eval_stack set_il_offset set_locals set_eval_stack]. by rewrite pop_pushed. Qed.

Lemma pop_pair_run pc st env l r : room st 2 ->
  pop_pair (fconf pc (pushed (pushed st l) r) env) = (Ret (l, r), fconf pc st env).
Proof.
  intros Hr. unfold pop_pair. assert (room (pushed st l) 1) by (apply room_pushed; [lia|done]).
  assert (room st 1) by (by apply (room_weaken st 2); [lia|]).
  erewrite bind_run by (by apply pop_run). erewrite bind_run by (by apply pop_run). done.
Qed.

Lemma peek_run pc st env v : room st 1 -> is_valuetype v = false ->
  peek uninit (fconf pc (pushed st v) env) = (Ret v, fconf pc (pushed st v) env).
Proof.
  intros Hr Hv. destruct (pushed_top st v Hr) as [Hd Ht]. unfold peek, fconf, zaclr_eval_stack_peek.
  cbn [fs_store fs_frame fs_exception at_pc eval_stack set_il_offset set_locals set_eval_stack].
  by rewrite (proj2 (Z.eqb_neq _ _) Hd), Ht, assign_word.
Qed.

Lemma read_i4 (s : store K) x : in_int 32 x -> stack_value_to_i32 s (value_of_i4 x) = Ret x.
Proof. intros Hx. unfold stack_value_to_i32. cbn. change i32 with (signed 32). by rewrite signed_id. Qed.

Lemma i32_run x fs : in_int 32 x -> on_store (fun s : store K => stack_value_to_i32 s (value_of_i4 x)) fs = (Ret x, fs).
Proof. intros Hx. unfold on_store. by rewrite read_i4. Qed.

Lemma u32_run x fs : in_int 32 x -> on_store (fun s : store K => stack_value_to_u32 s (value_of_i4 x)) fs = (Ret (wrap 32 x), fs).
Proof. intros Hx. unfold on_store, stack_value_to_u32. by rewrite read_i4. Qed.

Lemma lift_run {A} (a : A) (fs : fstate K) : lift (Ret a) fs = (Ret a, fs).
Proof. done. Qed.

(** The operand bytes of the instruction at [pc]. *)
Lemma il_u8_run pc st env off b : seg (il_start f) off [byte_of_Z b] -> 0 <= b < 256 ->
  il_u8 off (fconf pc st env) = (Ret b, fconf pc st env).
Proof.
  intros Hs Hb. unfold il_u8, mbind, exec_bind, gets, lift. cbn [fs_frame fconf at_pc set_il_offset set_locals set_eval_stack il_start].
  rewrite (seg_read_u8 _ _ _ _ Hs), byte_Z_of_Z. unfold u8. by rewrite Z.mod_small.
Qed.

Lemma il_u32_run pc st env off w : seg (il_start f) off (encode_u32 (u32 w)) -> 
  il_u32 off (fconf pc st env) = (Ret (u32 w), fconf pc st env).
Proof.
  intros Hs. unfold il_u32, mbind, exec_bind, gets, lift. cbn [fs_frame fconf at_pc set_il_offset set_locals set_eval_stack il_start].
  by rewrite (seg_read_u32 _ _ (u32 w)); [|apply u32_range|].
Qed.

(** ** Instructions *)

Lemma run_ldc pc st env z : in_int 32 z -> room st 1 -> code_at pc (emit CEE_LDC_I4 ++ encode_u32 (u32 z)) ->
  reaches (conf pc st env) (conf (pc + 5) (pushed st (value_of_i4 z)) env).
Proof.
  intros Hz Hr Hc. apply code_at_app in Hc as [Hc (Hp & Ho & Hl)]. apply (step_instruction _ CEE_LDC_I4); [done..|].
  change (zlength (emit CEE_LDC_I4)) with 1 in *. change (zlength (encode_u32 _)) with 4 in Hl. cbn [dispatch_frame_step step_ldc].
  erewrite bind_run by reflexivity. unfold id. erewrite bind_run by (by apply il_u32_run).
  erewrite bind_run by (apply advance_run; lia). change i32 with (signed 32). change u32 with (wrap 32).
  rewrite signed_wrap, signed_id by (done || lia). by apply push_run.
Qed.

(** An instruction with an operand of one byte. *)
Lemma run_short op (k : Z -> exec K unit) pc st env i st' env' :
  op <> CEE_RET -> two_bytes op = false -> dispatch op = short_operand k -> 0 <= i < 256 -> code_at pc (emit op ++ [byte_of_Z i]) ->
  k i (fconf (pc + 2) st env) = (Ret (), fconf (pc + 2) st' env') -> reaches (conf pc st env) (conf (pc + 2) st' env').
Proof.
  intros Hop H1b Hd Hi Hc Hk. apply code_at_app in Hc as [Hc (Hp & Ho & Hl)]. rewrite zlength_emit, H1b in *.
  change (zlength [byte_of_Z i]) with 1 in Hl. apply (step_instruction _ op); [done..|]. rewrite Hd. unfold short_operand.
  erewrite bind_run by reflexivity. unfold id. cbn [fconf fs_frame at_pc set_il_offset il_offset]. rewrite u32_id by (destruct Hc; lia).
  erewrite bind_run by (by apply il_u8_run). by erewrite bind_run by (apply advance_run; destruct Hc; lia).
Qed.

Lemma get_values (l : list Z) i v : l .@ i = Some v -> (value_of_i4 <$> l) .@ i = Some (value_of_i4 v).
Proof. unfold get. case_if; [done|]. intros E. by rewrite list_lookup_fmap, E. Qed.

Lemma get_locals (l : list (option Z)) i o : l .@ i = Some o -> (local_value <$> l) .@ i = Some (local_value o).
Proof. unfold get. case_if; [done|]. intros E. by rewrite list_lookup_fmap, E. Qed.

Lemma set_locals_value (l : list (option Z)) i v : local_value <$> set l i (Some v) = set (local_value <$> l) i (value_of_i4 v).
Proof. unfold set. case_if; [done|]. apply (list_fmap_insert local_value l _ (Some v)). Qed.

Lemma run_ldloc pc st env i v : env .@ i = Some (Some v) -> room st 1 -> 0 <= i < 256 -> code_at pc (emit CEE_LDLOC_S ++ [byte_of_Z i]) ->
  reaches (conf pc st env) (conf (pc + 2) (pushed st (value_of_i4 v)) env).
Proof.
  intros Hv Hr Hi Hc. apply (run_short CEE_LDLOC_S load_local _ _ _ i); try done. unfold load_local.
  erewrite bind_run by reflexivity. cbn [fconf fs_frame at_pc set_il_offset set_locals locals]. rewrite (get_locals _ _ _ Hv).
  by apply push_run.
Qed.

Lemma run_ldarg pc st env i v : args .@ i = Some v -> room st 1 -> 0 <= i < 256 -> code_at pc (emit CEE_LDARG_S ++ [byte_of_Z i]) ->
  reaches (conf pc st env) (conf (pc + 2) (pushed st (value_of_i4 v)) env).
Proof.
  intros Hv Hr Hi Hc. apply (run_short CEE_LDARG_S load_argument _ _ _ i); try done. unfold load_argument.
  erewrite bind_run by reflexivity. cbn [fconf fs_frame at_pc set_il_offset set_locals set_eval_stack arguments].
  rewrite Hargs, (get_values _ _ _ Hv). by apply push_run.
Qed.

Lemma run_stloc pc st env i v : 0 <= i < zlength env -> room st 1 -> i < 256 -> code_at pc (emit CEE_STLOC_S ++ [byte_of_Z i]) ->
  reaches (conf pc (pushed st (value_of_i4 v)) env) (conf (pc + 2) st (set env i (Some v))).
Proof.
  intros Hi Hr Hb Hc. apply (run_short CEE_STLOC_S store_local _ _ _ i); try done; [lia|]. unfold store_local.
  destruct (get_Some env i Hi) as [old Hold].
  erewrite bind_run by reflexivity. cbn [fconf fs_frame at_pc set_il_offset set_locals locals]. rewrite (get_locals _ _ _ Hold).
  erewrite bind_run by (by apply pop_run). unfold reset_value, with_store, modify, mbind, exec_bind.
  assert (owned_buffer (local_value old) = None) as Ho by (by destruct old).
  cbn -[owned_buffer local_value]. unfold zaclr_stack_value_reset. rewrite Ho. unfold fconf, at_pc. by rewrite set_locals_value.
Qed.

(** An instruction without operand, with the values it pops on the stack. *)
Lemma run_plain op m pc st env st' : op <> CEE_RET -> dispatch op = m -> code_at pc (emit op) ->
  m (fconf pc st env) = (Ret (), fconf (pc + zlength (emit op)) st' env) ->
  reaches (conf pc st env) (conf (pc + zlength (emit op)) st' env).
Proof. intros Hop Hd Hc Hm. apply (step_instruction _ op); [done..|]. by rewrite Hd. Qed.

Lemma unary_value op x : is_unary op = true -> in_int 32 x -> unary_result op (value_of_i4 x) = Ret (value_of_i4 (unary_spec op x)).
Proof.
  intros Hop Hx. unfold unary_result. cbn. change i32 with (signed 32). rewrite !(signed_id 32 x) by (done || lia).
  unfold unary_spec. by case_bool_decide.
Qed.

Lemma run_unary pc st env op x : is_unary op = true -> in_int 32 x -> room st 1 -> code_at pc (emit op) ->
  reaches (conf pc (pushed st (value_of_i4 x)) env) (conf (pc + zlength (emit op)) (pushed st (value_of_i4 (unary_spec op x))) env).
Proof.
  intros Hop Hx Hr Hc. apply (run_plain op (step_unary op)); [by destruct op|by destruct op|done|]. unfold step_unary.
  erewrite bind_run by (by apply pop_run). destruct Hc as (Hp & Hs & Hl). rewrite zlength_emit in *.
  assert (two_bytes op = false) as E by (by destruct op). rewrite E in *.
  erewrite bind_run by (apply advance_run; lia). rewrite unary_value by done. rewrite (bind_run _ _ _ _ _ (lift_run _ _)). apply push_run; done.
Qed.

Lemma run_binary pc st env op x y z : is_binary op = true -> in_int 32 x -> in_int 32 y -> binary_spec 32 op x y = Ret z -> room st 2 ->
  code_at pc (emit op) ->
  reaches (conf pc (pushed (pushed st (value_of_i4 x)) (value_of_i4 y)) env) (conf (pc + zlength (emit op)) (pushed st (value_of_i4 z)) env).
Proof.
  intros Hop Hx Hy Hz Hr Hc. apply (run_plain op (step_binary matches new_exception op)); [by destruct op|by destruct op|done|].
  unfold step_binary. erewrite bind_run by (by apply pop_pair_run). cbv beta iota. destruct Hc as (Hp & Hs & Hl). rewrite zlength_emit in *.
  assert (two_bytes op = false) as E by (by destruct op). rewrite E in *. erewrite bind_run by (apply advance_run; lia).
  assert (forall u v, is_byref_plus_or_minus_integer op (value_of_i4 u) (value_of_i4 v) = false) as Hb.
  { intros u v. unfold is_byref_plus_or_minus_integer. change (is_kind ZACLR_STACK_VALUE_BYREF (value_of_i4 u)) with false.
    by rewrite andb_false_r. }
  rewrite !Hb, andb_false_r. cbn -[binary_i4_result binary_i4_checked_result].
  rewrite (bind_run _ _ _ _ _ (i32_run x _ Hx)), (bind_run _ _ _ _ _ (i32_run y _ Hy)).
  assert (is_ovf op = false) as -> by (by destruct op). rewrite binary_eq_i4, Hz by done.
  rewrite (bind_run _ _ _ _ _ (lift_run _ _)). apply push_run; [by apply (room_weaken st 2); [lia|]|done].
Qed.

Lemma compare_value op x y : is_compare op = true -> in_int 32 x -> in_int 32 y ->
  compare_result sto op (value_of_i4 x) (value_of_i4 y) = Ret (truth (compare_spec op x y)).
Proof.
  intros Hop Hx Hy. unfold compare_result. cbn -[stack_value_to_i32 compare_numbers].
  rewrite !read_i4, !Ret_bind by done. by destruct op.
Qed.

Lemma run_compare pc st env op x y : is_compare op = true -> in_int 32 x -> in_int 32 y -> room st 2 -> code_at pc (emit op) ->
  reaches (conf pc (pushed (pushed st (value_of_i4 x)) (value_of_i4 y)) env)
    (conf (pc + zlength (emit op)) (pushed st (value_of_i4 (truth (compare_spec op x y)))) env).
Proof.
  intros Hop Hx Hy Hr Hc. apply (run_plain op (step_compare op)); [by destruct op|by destruct op|done|].
  unfold step_compare. erewrite bind_run by (by apply pop_pair_run). cbv beta iota. destruct Hc as (Hp & Hs & Hl). rewrite zlength_emit in *.
  assert (two_bytes op = true) as E by (by destruct op). rewrite E in *. erewrite bind_run by (apply advance_run; lia).
  erewrite bind_run by (unfold on_store; cbn [fconf fs_store]; by rewrite compare_value).
  apply push_run; [by apply (room_weaken st 2); [lia|]|done].
Qed.

(** ** Expressions *)

Lemma expr_depth_pos e : 1 <= expr_depth e.
Proof. induction e; simpl; lia. Qed.

Definition runs_expr (e : expr) : Prop := forall pc st env v,
  expr_ok e = true -> Forall local_ok env -> eval args env e = Some v ->
  room st (expr_depth e) -> code_at pc (compile e) ->
  reaches (conf pc st env) (conf (pc + zlength (compile e)) (pushed st (value_of_i4 v)) env).

(** Two operands. *)
Lemma run_operands l r pc st env x y code : runs_expr l -> runs_expr r -> expr_ok l = true -> expr_ok r = true ->
  Forall local_ok env -> eval args env l = Some x -> eval args env r = Some y ->
  room st (Z.max (expr_depth l) (1 + expr_depth r)) -> code_at pc (compile l ++ compile r ++ code) ->
  reaches (conf pc st env) (conf (pc + zlength (compile l) + zlength (compile r)) (pushed (pushed st (value_of_i4 x)) (value_of_i4 y)) env) /\
  in_int 32 x /\ in_int 32 y /\ room st 2 /\ code_at (pc + zlength (compile l) + zlength (compile r)) code.
Proof.
  intros Hl Hr Hokl Hokr Henv Ex Ey Hroom Hc. apply code_at_app in Hc as [Hcl Hc]. apply code_at_app in Hc as [Hcr Hc].
  pose proof (expr_depth_pos l). pose proof (expr_depth_pos r). split_and!.
  - eapply reaches_trans; [apply (Hl pc st env x); try done|apply (Hr _ _ env y); try done].
    + eapply room_weaken; [|exact Hroom]. lia.
    + apply room_pushed; [lia|]. eapply room_weaken; [|exact Hroom]. lia.
  - by apply (eval_range args env l).
  - by apply (eval_range args env r).
  - eapply room_weaken; [|exact Hroom]. lia.
  - done.
Qed.

Lemma run_expr e : runs_expr e.
Proof.
  induction e as [z|i|i|op e IH|op l IHl r IHr|op l IHl r IHr]; intros pc st env v Hok Henv Hv Hr Hc; simpl in Hok, Hv.
  - injection Hv as <-. apply run_ldc; [unfold in_int; lia|done..].
  - destruct (env .@ i) as [o|] eqn:E; [|done]. simpl in Hv. subst o. apply (run_ldloc pc st env i); try done; lia.
  - apply (run_ldarg pc st env i); try done; lia.
  - apply andb_true_iff in Hok as [Hop Hok]. destruct (eval args env e) as [x|] eqn:E; [|done]. injection Hv as <-.
    cbn [compile] in *. apply code_at_app in Hc as [Hc Hc']. rewrite zlength_app, Z.add_assoc.
    eapply reaches_trans; [by apply (IH pc st env x)|]. pose proof (expr_depth_pos e).
    apply run_unary; [done|by apply (eval_range args env e)|by apply (room_weaken st (expr_depth e)); [lia|]|done].
  - rewrite !andb_true_iff in Hok. destruct Hok as [[Hop Hl] Hr'].
    destruct (eval args env l) as [x|] eqn:El; [|done]. destruct (eval args env r) as [y|] eqn:Er; [|done]. simpl in Hv.
    destruct (binary_spec 32 op x y) as [z| | |] eqn:Ez; try done. injection Hv as <-.
    cbn [compile] in *. rewrite !zlength_app, !Z.add_assoc.
    destruct (run_operands l r pc st env x y (emit op)) as (Hs & Hx & Hy & Hr2 & Hc2); try done.
    eapply reaches_trans; [exact Hs|]. by apply (run_binary _ _ _ _ x y).
  - rewrite !andb_true_iff in Hok. destruct Hok as [[Hop Hl] Hr'].
    destruct (eval args env l) as [x|] eqn:El; [|done]. destruct (eval args env r) as [y|] eqn:Er; [|done]. injection Hv as <-.
    cbn [compile] in *. rewrite !zlength_app, !Z.add_assoc.
    destruct (run_operands l r pc st env x y (emit op)) as (Hs & Hx & Hy & Hr2 & Hc2); try done.
    eapply reaches_trans; [exact Hs|]. by apply run_compare.
Qed.

(** ** Branches *)

Definition branch_delta_ok (pc delta : Z) : Prop := 0 <= pc + 5 + delta < 2 ^ 31 /\ - 2 ^ 31 <= delta < 2 ^ 31.

Lemma target_eq pc delta : 0 <= pc < 2 ^ 31 -> branch_delta_ok pc delta -> compute_inline_branch_target pc delta = pc + 5 + delta.
Proof.
  intros Hp [H1' H2]. unfold compute_inline_branch_target. change i32 with (signed 32). rewrite (signed_id 32 pc) by (unfold in_int; lia).
  rewrite (signed_id 32) by (unfold in_int; lia). rewrite u32_id; lia.
Qed.

Lemma inline_branch_run t delta pc st env : 0 <= pc < 2 ^ 31 - 5 -> branch_delta_ok pc delta ->
  inline_branch t delta (fconf pc st env) = (Ret (), fconf (pc + 5 + if t then delta else 0) st env).
Proof.
  intros Hp Hd. assert ((if t then compute_inline_branch_target pc delta else u32 (pc + 5)) = pc + 5 + (if t then delta else 0)) as E.
  { destruct t; [apply target_eq; [lia|done]|]. rewrite u32_id; lia. }
  unfold inline_branch, modify, fconf. cbn [fs_frame fs_store fs_exception at_pc set_il_offset il_offset]. by rewrite E.
Qed.

Lemma run_branch op pc st env st' delta (t : bool) (m : Z -> exec K unit) :
  op <> CEE_RET -> two_bytes op = false -> dispatch op = (d ← inline_delta; m d) -> branch_delta_ok pc delta ->
  code_at pc (emit_branch op delta) ->
  m delta (fconf pc st env) = (inline_branch t delta) (fconf pc st' env) ->
  reaches (conf pc st env) (conf (pc + 5 + if t then delta else 0) st' env).
Proof.
  intros Hop H1b Hd Hdelta Hc Hm. apply code_at_app in Hc as [Hc (Hp & Ho & Hl)]. rewrite zlength_emit, H1b in *.
  change (zlength (encode_u32 (u32 delta))) with 4 in Hl. destruct Hdelta as [Hd1 Hd2].
  apply (step_instruction _ op); [done..|]. rewrite Hd.
  assert (inline_delta (fconf pc st env) = (Ret delta, fconf pc st env)) as E.
  { unfold inline_delta. erewrite bind_run by reflexivity. unfold id. erewrite bind_run by (by apply il_u32_run).
    change i32 with (signed 32). change u32 with (wrap 32).
    rewrite (signed_wrap 32 32) by lia. by rewrite (signed_id 32) by (unfold in_int; lia). }
  rewrite (bind_run _ _ _ _ _ E), Hm. apply inline_branch_run; destruct Hc; [lia|done].
Qed.

Lemma run_br pc st env delta : branch_delta_ok pc delta -> code_at pc (emit_branch CEE_BR delta) ->
  reaches (conf pc st env) (conf (pc + 5 + delta) st env).
Proof. intros Hd Hc. by apply (run_branch CEE_BR pc st env st delta true (inline_branch true)). Qed.

Lemma run_test pc st env sense x delta : in_int 32 x -> room st 1 -> branch_delta_ok pc delta ->
  code_at pc (emit_branch (if sense : bool then CEE_BRTRUE else CEE_BRFALSE) delta) ->
  reaches (conf pc (pushed st (value_of_i4 x)) env)
    (conf (pc + 5 + if Bool.eqb (negb (x =? 0)) sense then delta else 0) st env).
Proof.
  intros Hx Hr Hd Hc.
  apply (run_branch _ pc (pushed st (value_of_i4 x)) env st delta (Bool.eqb (negb (x =? 0)) sense)
    (fun d => v ← pop; b ← on_store (fun s => branch_condition s v); inline_branch (Bool.eqb b sense) d)) in Hc;
    [done|by destruct sense..|done|].
  erewrite bind_run by (by apply pop_run). unfold on_store, mbind, exec_bind, branch_condition. cbn -[inline_branch].
  change i32 with (signed 32). by rewrite (signed_id 32 x).
Qed.

(** The operands of a conditional branch, and its decision. *)
Lemma relation_run op pc st env x y : is_relation op = true -> in_int 32 x -> in_int 32 y -> room st 2 ->
  exists l r, branch_operands uninit op (fconf pc (pushed (pushed st (value_of_i4 x)) (value_of_i4 y)) env) = (Ret (l, r), fconf pc st env) /\
    branch_relation op l r = relation_spec op x y.
Proof.
  intros Hop Hx Hy Hr. unfold branch_operands. assert (room (pushed st (value_of_i4 x)) 1) by (apply room_pushed; [lia|done]).
  erewrite bind_run by (by apply peek_run). change (stack_value_is_float (value_of_i4 y)) with false.
  change (stack_value_is_i8_branch_operand (value_of_i4 y)) with false. cbv iota.
  assert (pop_branch_i4_pair (fconf pc (pushed (pushed st (value_of_i4 x)) (value_of_i4 y)) env) = (Ret (x, y), fconf pc st env)) as Es.
  { unfold pop_branch_i4_pair. erewrite bind_run by (by apply pop_pair_run). cbn -[stack_value_to_i32].
    by rewrite (bind_run _ _ _ _ _ (i32_run x _ Hx)), (bind_run _ _ _ _ _ (i32_run y _ Hy)). }
  assert (pop_branch_u4_pair (fconf pc (pushed (pushed st (value_of_i4 x)) (value_of_i4 y)) env) =
    (Ret (wrap 32 x, wrap 32 y), fconf pc st env)) as Eu.
  { unfold pop_branch_u4_pair. erewrite bind_run by (by apply pop_pair_run). cbn -[stack_value_to_u32].
    by rewrite (bind_run _ _ _ _ _ (u32_run x _ Hx)), (bind_run _ _ _ _ _ (u32_run y _ Hy)). }
  destruct op; try done; cbn [signed_branch]; first [by exists x, y; rewrite Es | by exists (wrap 32 x), (wrap 32 y); rewrite Eu].
Qed.

Lemma run_relation op pc st env x y delta : is_relation op = true -> in_int 32 x -> in_int 32 y -> room st 2 -> branch_delta_ok pc delta ->
  code_at pc (emit_branch op delta) ->
  reaches (conf pc (pushed (pushed st (value_of_i4 x)) (value_of_i4 y)) env)
    (conf (pc + 5 + if relation_spec op x y then delta else 0) st env).
Proof.
  intros Hop Hx Hy Hr Hd Hc. destruct (relation_run op pc st env x y Hop Hx Hy Hr) as (l & r & E & Er).
  apply (run_branch _ pc (pushed (pushed st (value_of_i4 x)) (value_of_i4 y)) env st delta (relation_spec op x y)
    (fun d => '(l, r) ← branch_operands uninit op; inline_branch (branch_relation op l r) d)) in Hc;
    [done|by destruct op..|done|].
  erewrite bind_run by exact E. cbv beta iota. by rewrite Er.
Qed.

(** ** Conditions and commands *)

Lemma zlength_branch op delta : zlength (emit_branch op delta) = (if two_bytes op then 2 else 1) + 4.
Proof. unfold emit_branch. by rewrite zlength_app, zlength_emit. Qed.

Lemma branch_one_byte b delta : cond_ok b = true -> zlength (compile_cond b delta) = cond_size b.
Proof.
  unfold cond_size. destruct b as [sense e|op l r]; simpl; intros _; by rewrite !zlength_app, !zlength_branch.
Qed.

(** The delta of the branch of a condition is relative to its end. *)
Lemma run_cond b pc st env t delta : cond_ok b = true -> Forall local_ok env -> eval_cond args env b = Some t ->
  room st (cond_depth b) -> code_at pc (compile_cond b delta) ->
  0 <= pc + cond_size b + delta < 2 ^ 31 -> - 2 ^ 31 <= delta < 2 ^ 31 ->
  reaches (conf pc st env) (conf (pc + cond_size b + if t then delta else 0) st env).
Proof.
  intros Hok Henv Ht Hr Hc Hd1 Hd2. destruct b as [sense e|op l r]; cbn [eval_cond cond_ok cond_depth compile_cond] in *.
  - destruct (eval args env e) as [x|] eqn:E; [|done]. injection Ht as <-. pose proof (expr_depth_pos e).
    apply code_at_app in Hc as [Hc Hb]. eapply reaches_trans; [by apply (run_expr e pc st env x)|].
    assert (cond_size (Test sense e) = zlength (compile e) + 5) as Es.
    { unfold cond_size. simpl. rewrite zlength_app, zlength_branch. by destruct sense. }
    rewrite Es in *. rewrite !Z.add_assoc in *. apply run_test; [by apply (eval_range args env e)| |done|done].
    eapply room_weaken; [|exact Hr]. lia.
  - rewrite !andb_true_iff in Hok. destruct Hok as [[Hop Hl] Hr'].
    destruct (eval args env l) as [x|] eqn:El; [|done]. destruct (eval args env r) as [y|] eqn:Er; [|done]. injection Ht as <-.
    destruct (run_operands l r pc st env x y (emit_branch op delta)) as (Hs & Hx & Hy & Hr2 & Hc2); try done; [by apply run_expr..|].
    eapply reaches_trans; [exact Hs|].
    assert (cond_size (Rel op l r) = zlength (compile l) + zlength (compile r) + 5) as Es.
    { unfold cond_size. simpl. rewrite !zlength_app, zlength_branch.
      assert (two_bytes op = false) as -> by (by destruct op). lia. }
    rewrite Es in *. rewrite !Z.add_assoc in *. by apply run_relation.
Qed.

Lemma set_range env i v : Forall local_ok env -> in_int 32 v -> Forall local_ok (set env i (Some v)).
Proof. intros He Hv. unfold set. case_if; [done|]. by apply Forall_insert. Qed.

Lemma runs_range env c env' : runs args env c env' -> cmd_ok c = true -> Forall local_ok env -> Forall local_ok env'.
Proof.
  induction 1 as [|env i e v He Hi| |env b t c1 c2 env' Ht Hrun IH| |]; simpl; rewrite ?andb_true_iff; intros Hok Henv; auto.
  - apply set_range; [done|]. apply (eval_range args env e); try done. apply Hok.
  - destruct Hok. auto.
  - apply IH; [destruct t; apply Hok|done].
  - destruct Hok as [Hb Hc]. apply IHruns2; [by simpl; rewrite Hb, Hc|auto].
Qed.

Lemma zlength_br delta : zlength (emit_branch CEE_BR delta) = 5.
Proof. done. Qed.

(** A loop starts at its condition. *)
Definition entry (pc : Z) (c : cmd) : Z :=
  match c with While _ body => pc + 5 + zlength (compile_cmd body) | _ => pc end.

Lemma cond_size_pos b : 5 <= cond_size b.
Proof.
  unfold cond_size. destruct b as [sense e|op l r]; simpl; rewrite !zlength_app, zlength_branch.
  - pose proof (zlength_nonneg (compile e)). case_match; lia.
  - pose proof (zlength_nonneg (compile l)). pose proof (zlength_nonneg (compile r)). case_match; lia.
Qed.

Lemma run_enter pc c st env : cmd_ok c = true -> code_at pc (compile_cmd c) -> reaches (conf pc st env) (conf (entry pc c) st env).
Proof.
  intros Hok Hc. destruct c as [| | | |b c]; try apply reaches_refl. cbn [compile_cmd entry] in *.
  pose proof (zlength_nonneg (compile_cmd c)). apply code_at_app in Hc as [Hb Hc]. apply run_br; [|done].
  destruct Hc as (Hp & _ & Hl). destruct Hb as (Hp' & _). rewrite zlength_app in Hl. rewrite zlength_br in *.
  pose proof (zlength_nonneg (compile_cond b (- (zlength (compile_cmd c) + cond_size b)))).
  split; lia.
Qed.

(** The layout of a conditional. *)
Lemma code_if pc b c1 c2 : cond_ok b = true -> code_at pc (compile_cmd (If b c1 c2)) ->
  let else_pc := pc + cond_size b in
  let then_pc := else_pc + zlength (compile_cmd c2) + 5 in
  code_at pc (compile_cond b (zlength (compile_cmd c2) + 5)) /\ code_at else_pc (compile_cmd c2) /\
  code_at (else_pc + zlength (compile_cmd c2)) (emit_branch CEE_BR (zlength (compile_cmd c1))) /\
  code_at then_pc (compile_cmd c1) /\ then_pc + zlength (compile_cmd c1) = pc + zlength (compile_cmd (If b c1 c2)) /\
  then_pc + zlength (compile_cmd c1) < 2 ^ 31.
Proof.
  intros Hok Hc. cbn [compile_cmd] in *. pose proof Hc as (_ & _ & Hl).
  rewrite !zlength_app, branch_one_byte, zlength_br in * by done.
  apply code_at_app in Hc as [H1' Hc]. apply code_at_app in Hc as [H2 Hc]. apply code_at_app in Hc as [H3 H4].
  rewrite branch_one_byte, zlength_br in * by done. cbv zeta.
  split_and!; try done; lia.
Qed.

(** The layout of a loop. *)
Lemma code_while pc b c : cond_ok b = true -> code_at pc (compile_cmd (While b c)) ->
  code_at (pc + 5) (compile_cmd c) /\
  code_at (entry pc (While b c)) (compile_cond b (- (zlength (compile_cmd c) + cond_size b))) /\
  entry pc (While b c) + cond_size b = pc + zlength (compile_cmd (While b c)) /\
  pc + zlength (compile_cmd (While b c)) < 2 ^ 31 /\ 0 <= pc.
Proof.
  intros Hok Hc. cbn [compile_cmd entry] in *. pose proof Hc as (Hp & _ & Hl).
  rewrite !zlength_app, branch_one_byte, zlength_br in * by done.
  apply code_at_app in Hc as [H1' Hc]. apply code_at_app in Hc as [H2 H3].
  rewrite zlength_br in *. split_and!; try done; lia.
Qed.

Lemma run_from_entry env c env' : runs args env c env' -> forall pc st, cmd_ok c = true -> Forall local_ok env ->
  room st (cmd_depth c) -> code_at pc (compile_cmd c) ->
  reaches (conf (entry pc c) st env) (conf (pc + zlength (compile_cmd c)) st env').
Proof.
  induction 1 as [env|env i e v He Hi|env c1 env1 c2 env2 H1' IH1 H2' IH2|env b t c1 c2 env' Ht Hrun IH|env b c Ht|env b c env1 env2 Ht Hbody IHb Hloop IHl];
    intros pc st Hok Henv Hr Hc; cbn [cmd_ok cmd_depth] in Hok, Hr.
  - simpl. change (zlength (@nil byte)) with 0. rewrite Z.add_0_r. apply reaches_refl.
  - rewrite !andb_true_iff in Hok. destruct Hok as [[Hi1 Hi2] Hok]. cbn [compile_cmd entry] in *. apply code_at_app in Hc as [Hc Hs].
    rewrite !zlength_app, Z.add_assoc. eapply reaches_trans; [by apply (run_expr e pc st env v)|].
    apply run_stloc; try done; [|lia]. pose proof (expr_depth_pos e). eapply room_weaken; [|exact Hr]. lia.
  - apply andb_true_iff in Hok as [Hok1 Hok2]. cbn [compile_cmd] in *. apply code_at_app in Hc as [Hc1 Hc2]. rewrite zlength_app, Z.add_assoc.
    eapply reaches_trans; [by apply (run_enter pc c1)|].
    eapply reaches_trans; [apply IH1; try done; eapply room_weaken; [|exact Hr]; lia|].
    eapply reaches_trans; [by apply (run_enter _ c2)|].
    apply IH2; try done; [by eapply runs_range|eapply room_weaken; [|exact Hr]; lia].
  - rewrite !andb_true_iff in Hok. destruct Hok as [[Hb Hok1] Hok2]. pose proof (cond_size_pos b).
    pose proof (zlength_nonneg (compile_cmd c1)). pose proof (zlength_nonneg (compile_cmd c2)). assert (0 <= pc) by apply Hc.
    destruct (code_if pc b c1 c2 Hb Hc) as (Hcb & Hc2 & Hbr & Hc1 & Hend & Hlim). rewrite <- Hend. cbn [entry]. clear Hc.
    eapply reaches_trans; [apply (run_cond b pc st env t); try done; [eapply room_weaken; [|exact Hr]|..]; lia|].
    destruct t.
    + rewrite <- !Z.add_assoc, (Z.add_assoc (zlength (compile_cmd c2))), !Z.add_assoc in *. 
      eapply reaches_trans; [by apply (run_enter _ c1)|]. apply IH; try done. eapply room_weaken; [|exact Hr]. lia.
    + rewrite Z.add_0_r. eapply reaches_trans; [by apply (run_enter _ c2)|].
      eapply reaches_trans; [apply IH; try done; eapply room_weaken; [|exact Hr]; lia|].
      apply run_br; [|done]. split; lia.
  - apply andb_true_iff in Hok as [Hb Hok]. destruct (code_while pc b c Hb Hc) as (Hcc & Hcb & Hend & Hlim & Hp).
    pose proof (zlength_nonneg (compile_cmd c)). pose proof (cond_size_pos b). rewrite <- Hend in *. cbn [entry] in *.
    rewrite <- (Z.add_0_r (pc + 5 + zlength (compile_cmd c) + cond_size b)).
    apply (run_cond b _ st env false (- (zlength (compile_cmd c) + cond_size b))); try done; [eapply room_weaken; [|exact Hr]|..]; lia.
  - pose proof Hok as Hokw. apply andb_true_iff in Hok as [Hb Hok].
    destruct (code_while pc b c Hb Hc) as (Hcc & Hcb & Hend & Hlim & Hp).
    pose proof (zlength_nonneg (compile_cmd c)). pose proof (cond_size_pos b).
    apply (reaches_trans _ (conf (pc + 5) st env)).
    { replace (pc + 5) with (entry pc (While b c) + cond_size b + (- (zlength (compile_cmd c) + cond_size b))) by (cbn [entry]; lia).
      apply (run_cond b _ st env true (- (zlength (compile_cmd c) + cond_size b))); try done; cbn [entry] in *;
        [eapply room_weaken; [|exact Hr]|..]; lia. }
    eapply reaches_trans; [by apply (run_enter _ c)|].
    eapply reaches_trans; [apply IHb; try done; eapply room_weaken; [|exact Hr]; lia|].
    apply IHl; try done. by apply (runs_range env c).
Qed.

(** ** The return *)

Lemma run_ret pc st env v parent frames s' : zaclr_frame_destroy sto (at_pc pc st env) = Ret s' -> rest = parent :: frames ->
  returns_value f = true -> room st 1 -> room (eval_stack parent) 1 -> code_at pc (emit CEE_RET) ->
  reaches (conf pc (pushed st (value_of_i4 v)) env)
    (mk_engine s' (set_eval_stack (pushed (eval_stack parent) (value_of_i4 v)) parent :: frames) ex).
Proof.
  intros Hdestroy Hrest Hret Hr Hp Hc. exists 1%nat. intros fuel. change (1 + fuel)%nat with (S fuel).
  cbn [zaclr_engine_execute_frame_loop conf en_frames]. rewrite (fetch_emit pc CEE_RET _ env Hc).
  unfold zaclr_dispatch_step. cbn [conf en_frames en_store en_exception]. rewrite find_opcode_value. unfold step_ret. cbn [conf en_frames].
  rewrite Hrest. unfold return_to. cbn [at_pc set_il_offset set_locals set_eval_stack returns_value eval_stack en_store]. rewrite Hret.
  rewrite pop_pushed by done. unfold push_to. rewrite push_value by done.
  change (set_eval_stack st (at_pc pc (pushed st (value_of_i4 v)) env)) with (at_pc pc st env). by rewrite Hdestroy.
Qed.

(** The return of a frame without a caller drops the result. *)
Lemma run_ret_root pc st env v s' : zaclr_frame_destroy sto (at_pc pc (pushed st (value_of_i4 v)) env) = Ret s' -> rest = [] ->
  code_at pc (emit CEE_RET) -> reaches (conf pc (pushed st (value_of_i4 v)) env) (mk_engine s' [] ex).
Proof.
  intros Hdestroy Hrest Hc. exists 1%nat. intros fuel. change (1 + fuel)%nat with (S fuel).
  cbn [zaclr_engine_execute_frame_loop conf en_frames]. rewrite (fetch_emit pc CEE_RET _ env Hc).
  unfold zaclr_dispatch_step. cbn [conf en_frames en_store en_exception]. rewrite find_opcode_value. unfold step_ret. cbn [conf en_frames en_store].
  rewrite Hrest, Hdestroy. done.
Qed.

(** The body up to its return. *)
Lemma run_to_ret pc st env env' c e v : cmd_ok c = true -> expr_ok e = true -> Forall local_ok env -> runs args env c env' ->
  eval args env' e = Some v -> room st (Z.max (cmd_depth c) (expr_depth e)) -> code_at pc (compile_method c e) ->
  exists pc', reaches (conf pc st env) (conf pc' (pushed st (value_of_i4 v)) env') /\ code_at pc' (emit CEE_RET) /\ room st 1.
Proof.
  intros Hc He Henv Hrun Hv Hr Hcode. apply code_at_app in Hcode as [Hcc Hcode]. apply code_at_app in Hcode as [Hce Hcr].
  pose proof (expr_depth_pos e). eexists. split; [|split; [exact Hcr|eapply room_weaken; [|exact Hr]; lia]].
  eapply reaches_trans; [by apply (run_enter pc c)|].
  eapply reaches_trans; [apply (run_from_entry env c env'); try done; eapply room_weaken; [|exact Hr]; lia|].
  apply (run_expr e _ _ env' v); try done.
  - by apply (runs_range env c).
  - eapply room_weaken; [|exact Hr]. lia.
Qed.

Lemma run_body pc st env env' c e v parent frames s' : zaclr_frame_destroy sto (at_pc 0 st env') = Ret s' -> rest = parent :: frames -> returns_value f = true ->
  cmd_ok c = true -> expr_ok e = true -> Forall local_ok env -> runs args env c env' -> eval args env' e = Some v ->
  room st (Z.max (cmd_depth c) (expr_depth e)) -> room (eval_stack parent) 1 -> code_at pc (compile_method c e) ->
  reaches (conf pc st env)
    (mk_engine s' (set_eval_stack (pushed (eval_stack parent) (value_of_i4 v)) parent :: frames) ex).
Proof.
  intros Hdestroy Hrest Hret Hc He Henv Hrun Hv Hr Hp Hcode. destruct (run_to_ret pc st env env' c e v) as (pc' & Hs & Hcr & Hr1); try done.
  eapply reaches_trans; [exact Hs|]. by apply run_ret.
Qed.

Lemma run_body_root pc st env env' c e v s' : zaclr_frame_destroy sto (at_pc 0 (pushed st (value_of_i4 v)) env') = Ret s' -> rest = [] ->
  cmd_ok c = true -> expr_ok e = true -> Forall local_ok env -> runs args env c env' -> eval args env' e = Some v ->
  room st (Z.max (cmd_depth c) (expr_depth e)) -> code_at pc (compile_method c e) ->
  reaches (conf pc st env) (mk_engine s' [] ex).
Proof.
  intros Hdestroy Hrest Hc He Henv Hrun Hv Hr Hcode. destruct (run_to_ret pc st env env' c e v) as (pc' & Hs & Hcr & Hr1); try done.
  eapply reaches_trans; [exact Hs|]. by apply run_ret_root.
Qed.

End machine.

(** ** The frame is released *)

(** The allocations of a frame. *)
Definition frame_buffers (f : zaclr_frame) : gset Z :=
  {[es_buffer (eval_stack f); exception_clauses_ptr f; locals_ptr f; arguments_ptr f; frame_ptr f]} ∪
  list_to_set (GenericCorrect.context_buffers (generic_context f)).

Lemma reset_all_words {K} `{KernelHeap K} (s : store K) l : Forall (fun v => owned_buffer v = None) l -> reset_all s l = s.
Proof.
  intros Hl. unfold reset_all. induction Hl as [|v l Hv Hl IH]; [done|]. simpl. by rewrite Hv.
Qed.

Lemma words_own_nothing l : Forall (fun v => owned_buffer v = None) (value_of_i4 <$> l).
Proof. induction l; by constructor. Qed.

Lemma locals_own_nothing l : Forall (fun v => owned_buffer v = None) (local_value <$> l).
Proof. induction l as [|[|]]; by constructor. Qed.

Lemma free_buffer_live {K} `{KernelHeapLaws K} (s : store K) p : live (free_buffer s p).1 = live s.1 ∖ {[p]} /\ (free_buffer s p).2 = s.2.
Proof.
  unfold free_buffer. destruct (Z.eqb_spec p 0) as [->|]; [|by split; [apply free_spec|]]. split; [|done].
  pose proof (null_not_live s.1). set_solver.
Qed.

Lemma destroy_words {K} `{KernelHeapLaws K} (s : store K) f :
  Forall (fun v => owned_buffer v = None) (es_values (eval_stack f)) -> Forall (fun v => owned_buffer v = None) (locals f) ->
  Forall (fun v => owned_buffer v = None) (arguments f) -> GenericCorrect.context_ok (generic_context f) ->
  exists s', zaclr_frame_destroy s f = Ret s' /\ live s'.1 = live s.1 ∖ frame_buffers f /\ s'.2 = s.2.
Proof.
  intros Hst Hlo Har Hctx. unfold zaclr_frame_destroy, zaclr_eval_stack_destroy. rewrite !reset_all_words by done.
  assert (forall p (t : store K), (if p =? 0 then t else free_buffer t p) = free_buffer t p) as Hp.
  { intros p t. unfold free_buffer. by destruct (p =? 0). }
  assert ((if es_buffer (eval_stack f) =? 0 then (s, empty_stack) else ((kernel_free s.1 (es_buffer (eval_stack f)), s.2), empty_stack)) =
    (free_buffer s (es_buffer (eval_stack f)), empty_stack)) as -> by (unfold free_buffer; by destruct (_ =? 0)).
  cbv beta iota zeta. set (s1 := free_buffer s _). set (s2 := free_buffer s1 _).
  destruct (GenericCorrect.context_reset_spec s2.1 _ Hctx) as (k & Ek & Lk). rewrite Ek, Ret_bind. cbv beta iota.
  rewrite !reset_all_words by done. rewrite !Hp.
  set (s3 := free_buffer (k, s2.2) _). set (s4 := free_buffer s3 _).
  destruct (free_buffer_live s (es_buffer (eval_stack f))) as [L1 M1]. destruct (free_buffer_live s1 (exception_clauses_ptr f)) as [L2 M2].
  destruct (free_buffer_live (k, s2.2) (locals_ptr f)) as [L3 M3]. destruct (free_buffer_live s3 (arguments_ptr f)) as [L4 M4].
  fold s1 in L1, M1. fold s2 in L2, M2. fold s3 in L3, M3. fold s4 in L4, M4. eexists. split; [done|]. cbn [fst snd] in *.
  rewrite free_spec, L4, L3, Lk, L2, L1. split; [|congruence]. unfold frame_buffers. set_solver.
Qed.

(** ** The engine against the meaning of programs *)

(** The frame of a call: the method [c; return e], the arguments and locals, and an
    evaluation stack with enough clear slots. *)
Record method_frame `{OpcodeTable} (f : zaclr_frame) (args : list Z) (env : list (option Z)) (c : cmd) (e : expr) : Prop := {
  mf_code : seg (il_start f) 0 (compile_method c e);
  mf_size : il_size f = zlength (compile_method c e) /\ il_size f < 2 ^ 31;
  mf_offset : il_offset f = 0;
  mf_returns : returns_value f = true;
  mf_arguments : arguments f = value_of_i4 <$> args /\ Forall (in_int 32) args;
  mf_locals : locals f = local_value <$> env /\ Forall local_ok env;
  mf_context : GenericCorrect.context_ok (generic_context f);
  mf_program : cmd_ok c = true /\ expr_ok e = true;
  mf_stack : room (eval_stack f) (Z.max (cmd_depth c) (expr_depth e));
  mf_clear : Forall (fun v => owned_buffer v = None) (es_values (eval_stack f)) }.

Lemma at_pc_id f env : il_offset f = 0 -> locals f = local_value <$> env -> at_pc f 0 (eval_stack f) env = f.
Proof. destruct f. simpl. intros -> ->. done. Qed.

Lemma engine_runs {K : Type} `{KernelHeapLaws K} `{OpcodeTableLaws} (x86_64 : bool) (matches : Z -> Z -> bool)
    (new_exception : store K -> outcome Z * store K) (uninit : zaclr_stack_value)
    (constructed : zaclr_frame -> option (Z * option (list byte) * Z))
    (other_instruction : Z -> engine_state K -> outcome unit * engine_state K)
    (s : store K) (f parent : zaclr_frame) (frames : list zaclr_frame) (ex : Z) (args : list Z) (env env' : list (option Z)) (c : cmd) (e : expr) (v : Z) :
  owned_buffer uninit = None -> method_frame f args env c e -> room (eval_stack parent) 1 ->
  runs args env c env' -> eval args env' e = Some v ->
  exists n s', live s'.1 = live s.1 ∖ frame_buffers f /\ s'.2 = s.2 /\
    forall fuel,
      zaclr_engine_execute_frame_loop x86_64 matches new_exception uninit constructed other_instruction (n + fuel)
        (mk_engine s (f :: parent :: frames) ex) =
      zaclr_engine_execute_frame_loop x86_64 matches new_exception uninit constructed other_instruction fuel
        (mk_engine s' (set_eval_stack (pushed (eval_stack parent) (value_of_i4 v)) parent :: frames) ex).
Proof.
  intros Hu [Hcode [Hsz Hlim] Hoff Hret [Harg Har] [Hloc Henv] Hctx [Hc He] Hr Hclear] Hp Hrun Hv.
  destruct (destroy_words s (at_pc f 0 (eval_stack f) env')) as (s' & Hd & HL & HM); simpl;
    [done|apply locals_own_nothing|rewrite Harg; apply words_own_nothing|done|].
  destruct (run_body x86_64 matches new_exception uninit Hu constructed other_instruction s f (parent :: frames) ex args Harg Har Hlim
    0 (eval_stack f) env env' c e v parent frames s') as (n & Hn); try done.
  { split; [done|]. split; [done|]. rewrite Hsz. lia. }
  unfold steps, conf in Hn. rewrite at_pc_id in Hn by done. by exists n, s'.
Qed.

(** The root frame of a method runs to its end and is released. *)
Lemma engine_runs_root {K : Type} `{KernelHeapLaws K} `{OpcodeTableLaws} (x86_64 : bool) (matches : Z -> Z -> bool)
    (new_exception : store K -> outcome Z * store K) (uninit : zaclr_stack_value)
    (constructed : zaclr_frame -> option (Z * option (list byte) * Z))
    (other_instruction : Z -> engine_state K -> outcome unit * engine_state K)
    (s : store K) (f : zaclr_frame) (ex : Z) (args : list Z) (env env' : list (option Z)) (c : cmd) (e : expr) (v : Z) :
  owned_buffer uninit = None -> method_frame f args env c e -> runs args env c env' -> eval args env' e = Some v ->
  exists n s', live s'.1 = live s.1 ∖ frame_buffers f /\ s'.2 = s.2 /\
    forall fuel,
      zaclr_engine_execute_frame_loop x86_64 matches new_exception uninit constructed other_instruction (n + fuel) (mk_engine s [f] ex) =
      (Ret (), mk_engine s' [] ex).
Proof.
  intros Hu [Hcode [Hsz Hlim] Hoff Hret [Harg Har] [Hloc Henv] Hctx [Hc He] Hr Hclear] Hrun Hv.
  destruct (destroy_words s (at_pc f 0 (pushed (eval_stack f) (value_of_i4 v)) env')) as (s' & Hd & HL & HM); simpl;
    [|apply locals_own_nothing|rewrite Harg; apply words_own_nothing|done|].
  { unfold set. case_if; [done|]. by apply Forall_insert. }
  destruct (run_body_root x86_64 matches new_exception uninit Hu constructed other_instruction s f [] ex args Harg Har Hlim
    0 (eval_stack f) env env' c e v s') as (n & Hn); try done.
  { split; [done|]. split; [done|]. rewrite Hsz. lia. }
  unfold steps, conf in Hn. rewrite at_pc_id in Hn by done. exists n, s'. split; [done|]. split; [done|]. intros fuel. rewrite Hn. by destruct fuel.
Qed.

(** C4: the engine computes what a program means.  The instructions emitted for a
    method body (assignments, conditionals and loops over 32-bit locals and
    arguments, with every arithmetic, bitwise, shift, comparison and conditional
    branch instruction) and for its result are run from the start of its frame: if
    the body takes the locals to [env'] and the result has the value [v] there, then
    after finitely many instructions the engine is back in the caller, with [v] on
    top of the caller's evaluation stack and nothing else of the caller changed,
    and exactly the allocations of the finished frame are released. *)
Theorem engine_runs_method {K : Type} `{KernelHeapLaws K} `{OpcodeTableLaws} (x86_64 : bool) (matches : Z -> Z -> bool)
    (new_exception : store K -> outcome Z * store K) (uninit : zaclr_stack_value)
    (constructed : zaclr_frame -> option (Z * option (list byte) * Z))
    (other_instruction : Z -> engine_state K -> outcome unit * engine_state K)
    (s : store K) (f parent : zaclr_frame) (frames : list zaclr_frame) (ex : Z) (args : list Z) (env env' : list (option Z)) (c : cmd) (e : expr) (v : Z) :
  owned_buffer uninit = None -> method_frame f args env c e -> room (eval_stack parent) 1 ->
  runs args env c env' -> eval args env' e = Some v ->
  exists n s', live s'.1 = live s.1 ∖ frame_buffers f /\ s'.2 = s.2 /\
    forall fuel,
      zaclr_engine_execute_frame_loop x86_64 matches new_exception uninit constructed other_instruction (n + fuel)
        (mk_engine s (f :: parent :: frames) ex) =
      zaclr_engine_execute_frame_loop x86_64 matches new_exception uninit constructed other_instruction fuel
        (mk_engine s' (set_eval_stack (pushed (eval_stack parent) (value_of_i4 v)) parent :: frames) ex).
Proof. apply engine_runs. Qed.

(** ** A method that computes a factorial *)

(** The meaning of commands as a function, [n] bounding the iterations. *)
Fixpoint run_cmd (n : nat) (args : list Z) (env : list (option Z)) (c : cmd) : option (list (option Z)) :=
  match n with
  | O => None
  | S n =>
    match c with
    | Skip => Some env
    | Assign i e => v ← eval args env e; if (0 <=? i) && (i <? zlength env) then Some (set env i (Some v)) else None
    | Seq c1 c2 => env1 ← run_cmd n args env c1; run_cmd n args env1 c2
    | If b c1 c2 => t ← eval_cond args env b; run_cmd n args env (if t : bool then c1 else c2)
    | While b c =>
      t ← eval_cond args env b;
      if t : bool then env1 ← run_cmd n args env c; run_cmd n args env1 (While b c) else Some env
    end
  end.

Lemma run_cmd_sound n : forall args env c env', run_cmd n args env c = Some env' -> runs args env c env'.
Proof.
  induction n as [|n IH]; [done|]. intros args env c env'. destruct c as [|i e|c1 c2|b c1 c2|b c]; cbn [run_cmd].
  - intros [= <-]. constructor.
  - destruct (eval args env e) as [v|] eqn:E; [|done]. simpl. case_if; [|done]. intros [= <-]. constructor; [done|lia].
  - destruct (run_cmd n args env c1) as [env1|] eqn:E; [|done]. simpl. intros E2. by eapply runs_seq; apply IH.
  - destruct (eval_cond args env b) as [t|] eqn:E; [|done]. simpl. intros E2. apply (runs_if _ _ _ t); auto.
  - destruct (eval_cond args env b) as [t|] eqn:E; [|done]. simpl. destruct t; [|intros [= <-]; by constructor].
    destruct (run_cmd n args env c) as [env1|] eqn:E1; [|done]. simpl. intros E2. by apply (runs_loop _ _ _ _ env1); auto.
Qed.

(** [acc = 1; for (i = arg0; i > 1; i--) acc *= i; return acc;] *)
Definition factorial_body : cmd :=
  Seq (Assign 1 (Const 1)) (Seq (Assign 0 (Arg 0))
    (While (Rel CEE_BGT (Local 0) (Const 1))
      (Seq (Assign 1 (Binary CEE_MUL (Local 1) (Local 0))) (Assign 0 (Binary CEE_SUB (Local 0) (Const 1)))))).
Definition factorial_code : list byte := compile_method factorial_body (Local 1).

Definition factorial_frame : zaclr_frame :=
  mk_frame 5 factorial_code (zlength factorial_code) 0 2 [value_of_i4 5] 4 [zero_value; zero_value] 3 [] 0
    (mk_eval_stack 2 [zero_value; zero_value] 0 2) GenericContext.empty_context 0 no_filter no_finally 0 true.
Definition caller_frame : zaclr_frame :=
  mk_frame 0 [x2a] 1 0 2 [] 0 [] 0 [] 0 example_stack GenericContext.empty_context 0 no_filter no_finally 0 false.

Lemma factorial_frame_ok : method_frame factorial_frame [5] [None; None] factorial_body (Local 1).
Proof.
  split; try done.
  - apply seg_refl.
  - split; [done|]. repeat constructor; unfold in_int; lia.
  - split; [done|]. repeat constructor; unfold in_int; lia.
  - split; [simpl; lia|]. split; [vm_compute; by split|]. intros i Hi. change (0 <= i < 2) in Hi. simpl.
    assert (i = 0 \/ i = 1) as [->| ->] by lia; done.
  - change (Forall (fun v => owned_buffer v = None) [zero_value; zero_value]). by repeat constructor.
Qed.

Lemma engine_runs_method_witness :
  exists n s', live s'.1 = live (example_store.1) ∖ frame_buffers factorial_frame /\
    zaclr_engine_execute_frame_loop true (fun _ _ => false) (fun s => (Err (exec_error ZACLR_STATUS_OUT_OF_MEMORY), s))
      zero_value (fun _ => None) (fun _ s => (Err (exec_error ZACLR_STATUS_NOT_IMPLEMENTED), s)) (n + 0)
      (mk_engine example_store [factorial_frame; caller_frame] 0) =
    (NoFuel, mk_engine s' [set_eval_stack (pushed example_stack (value_of_i4 120)) caller_frame] 0).
Proof.
  destruct (engine_runs_method true (fun _ _ => false) (fun s => (Err (exec_error ZACLR_STATUS_OUT_OF_MEMORY), s))
    zero_value (fun _ => None) (fun _ s => (Err (exec_error ZACLR_STATUS_NOT_IMPLEMENTED), s))
    example_store factorial_frame caller_frame [] 0 [5] [None; None] [Some 1; Some 120] factorial_body (Local 1) 120)
    as (n & s' & HL & HM & Hn).
  - done.
  - apply factorial_frame_ok.
  - split; [simpl; lia|]. split; [vm_compute; by split|]. intros i Hi. assert (i = 0) as -> by lia. done.
  - apply (run_cmd_sound 20). vm_compute. reflexivity.
  - reflexivity.
  - exists n, s'. split; [exact HL|]. rewrite (Hn 0%nat). reflexivity.
Defined.

End Program.
