(* ===== verification/FrameCreate.v ===== *)
(** * The creation of frames

    [zaclr/exec/zaclr_frame.cpp]: a frame is built from the method body in the image of
    an assembly (the tiny or the fat header of ECMA-335 II.25.4, the signature of the
    locals and the section of exception clauses), and its arguments are taken from the
    evaluation stack of the caller.

    The image of the assembly is a part of the memory [m].  An identifier is handed out
    per frame; the runtime, the thread and the process a frame points to are not used
    by the operations below.  Traces on the console are left out. *)

From Stdlib Require Import Strings.Byte.
From S2P Require Import Prelude Status Bytes Token Signature MetadataTables MetadataReader PeImage MethodMap.
From S2P Require Import KernelHeap EvalStack Gc GenericContext Frame.

Module FrameCreate.
Import Frame.

(** The members of an assembly that frames are made of. *)
Record zaclr_loaded_assembly := mk_assembly { la_image : zaclr_pe_image; la_metadata : zaclr_metadata_reader }.

Definition sizeof_frame : Z := 208.
Definition sizeof_exception_clause : Z := 24.

Definition zero_clause : zaclr_exception_clause := mk_clause 0 0 0 0 0 0.

(** ** Reading method bodies *)

Section bodies.
Context (m : memory).

Definition decode_compressed_uint (blob : zaclr_slice) (offset : Z) : outcome (Z * Z) :=
  match sl_data blob with
  | None => Err (exec_error ZACLR_STATUS_BAD_METADATA)
  | Some data =>
    require negb (sl_size blob <=? offset) else exec_error ZACLR_STATUS_BAD_METADATA;
    first ← read_u8 m (data + offset);
    if Z.land first 0x80 =? 0 then Ret (first, u32 (offset + 1))
    else if Z.land first 0xC0 =? 0x80 then
      require negb (sl_size blob <=? u32 (offset + 1)) else exec_error ZACLR_STATUS_BAD_METADATA;
      b1 ← read_u8 m (data + u32 (offset + 1));
      Ret (Z.lor (Z.shiftl (Z.land first 0x3F) 8) b1, u32 (offset + 2))
    else
      require negb (sl_size blob <=? u32 (offset + 3)) else exec_error ZACLR_STATUS_BAD_METADATA;
      b1 ← read_u8 m (data + u32 (offset + 1));
      b2 ← read_u8 m (data + u32 (offset + 2));
      b3 ← read_u8 m (data + u32 (offset + 3));
      Ret (Z.lor (Z.lor (Z.lor (Z.shiftl (Z.land first 0x1F) 24) (Z.shiftl b1 16)) (Z.shiftl b2 8)) b3, u32 (offset + 4))
  end.

(** The number of locals, cut to 16 bits. *)
Definition parse_local_count (assembly : zaclr_loaded_assembly) (local_sig_token : Z) : outcome Z :=
  if (local_sig_token =? 0) || (Z.land local_sig_token 0x00FFFFFF =? 0) then Ret 0
  else
    row ← zaclr_metadata_reader_get_standalonesig_row m (la_metadata assembly) (Z.land local_sig_token 0x00FFFFFF);
    signature_blob ← zaclr_metadata_reader_get_blob m (la_metadata assembly) (standalonesig_signature_blob_index row);
    require negb (sl_size signature_blob =? 0) else exec_error ZACLR_STATUS_BAD_METADATA;
    data ← deref (sl_data signature_blob);
    marker ← read_u8 m data;
    require marker =? 0x07 else exec_error ZACLR_STATUS_BAD_METADATA;
    '(local_count, _) ← decode_compressed_uint signature_blob 1;
    Ret (u16 local_count).

Definition read_fat_clause (clause : Z) : outcome zaclr_exception_clause :=
  flags ← read_u32 m clause;
  try_offset ← read_u32 m (clause + 4);
  try_length ← read_u32 m (clause + 8);
  handler_offset ← read_u32 m (clause + 12);
  handler_length ← read_u32 m (clause + 16);
  class_token ← read_u32 m (clause + 20);
  Ret (mk_clause flags try_offset try_length handler_offset handler_length class_token).

Definition read_small_clause (clause : Z) : outcome zaclr_exception_clause :=
  flags ← read_u16 m clause;
  try_offset ← read_u16 m (clause + 2);
  try_length ← read_u8 m (clause + 4);
  handler_offset ← read_u16 m (clause + 5);
  handler_length ← read_u8 m (clause + 7);
  class_token ← read_u32 m (clause + 8);
  Ret (mk_clause flags try_offset try_length handler_offset handler_length class_token).

Fixpoint read_clauses (read : Z -> outcome zaclr_exception_clause) (clause_size : Z) (n : nat) (clause : Z)
  : outcome (list zaclr_exception_clause) :=
  match n with
  | O => Ret []
  | S n => c ← read clause; l ← read_clauses read clause_size n (clause + clause_size); Ret (c :: l)
  end.

(** The contents of the array at [clauses]. *)
Definition parse_exception_clauses (section section_size clauses clause_count : Z) : outcome (list zaclr_exception_clause) :=
  if clauses =? 0 then Err (exec_error ZACLR_STATUS_INVALID_ARGUMENT)
  else if clause_count =? 0 then Ret []
  else
    kind ← read_u8 m section;
    if flag_set kind 0x40 then
      require negb (section_size <? u32 (4 + u32 (clause_count * 24))) else exec_error ZACLR_STATUS_BAD_IMAGE;
      read_clauses read_fat_clause 24 (Z.to_nat clause_count) (section + 4)
    else
      require negb (section_size <? u32 (4 + u32 (clause_count * 12))) else exec_error ZACLR_STATUS_BAD_IMAGE;
      read_clauses read_small_clause 12 (Z.to_nat clause_count) (section + 4).

End bodies.

(** ** A state monad for routines that clean up when they fail *)

Section create.
Context {K : Type} `{KernelHeap K}.

(** The heap with the value buffers, and [next_frame_id] of the engine. *)
Record create_state := mk_create { cs_store : store K; cs_next_frame_id : Z }.

Definition creation (A : Type) : Type := create_state -> outcome A * create_state.

#[global] Instance creation_ret : MRet creation := fun A a s => (Ret a, s).
#[global] Instance creation_bind : MBind creation := fun A B k m s =>
  match m s with
  | (Ret a, s') => k a s'
  | (Err r, s') => (Err r, s')
  | (Fault, s') => (Fault, s')
  | (NoFuel, s') => (NoFuel, s')
  end.

Definition lift {A} (o : outcome A) : creation A := fun s => (o, s).
Definition fail {A} (st : zaclr_status) : creation A := lift (Err (exec_error st)).

Definition kernel_free_block (p : Z) (s : create_state) : create_state :=
  mk_create (kernel_free (cs_store s).1 p, (cs_store s).2) (cs_next_frame_id s).
Definition free_array (p : Z) (s : create_state) : create_state := if p =? 0 then s else kernel_free_block p s.

(** [body], and [cleanup] when it reports an error. *)
Definition guarded {A} (cleanup : create_state -> create_state) (body : creation A) : creation A := fun s =>
  match body s with
  | (Err r, s') => (Err r, cleanup s')
  | x => x
  end.

(** [kernel_alloc], [NULL] being an error. *)
Definition allocate (size : Z) : creation Z := fun s =>
  let '(p, k) := kernel_alloc (cs_store s).1 size in
  let s := mk_create (k, (cs_store s).2) (cs_next_frame_id s) in
  if p =? 0 then (Err (exec_error ZACLR_STATUS_OUT_OF_MEMORY), s) else (Ret p, s).

Definition allocate_stack_values (count : Z) : creation (Z * list zaclr_stack_value) :=
  if count =? 0 then mret (0, [])
  else p ← allocate (sizeof_stack_value * count); mret (p, replicate (Z.to_nat count) zero_value).

Definition allocate_exception_clauses (count : Z) : creation Z :=
  if count =? 0 then mret 0 else allocate (sizeof_exception_clause * count).

Definition initialize_eval_stack (max_stack : Z) : creation zaclr_eval_stack := fun s =>
  let '(o, (st, e)) := zaclr_eval_stack_initialize (cs_store s) max_stack in
  (_ ← o; Ret e, mk_create st (cs_next_frame_id s)).

Definition clone_context (source : GenericContext.zaclr_generic_context) : creation GenericContext.zaclr_generic_context := fun s =>
  let '(o, (c, k)) := GenericContext.zaclr_generic_context_clone (cs_store s).1 GenericContext.empty_context (Some source) in
  (_ ← o; Ret c, mk_create (k, (cs_store s).2) (cs_next_frame_id s)).

Definition next_frame_id : creation Z := fun s =>
  (Ret (cs_next_frame_id s), mk_create (cs_store s) (u32 (cs_next_frame_id s + 1))).

Section method.
Context (m : memory) (assembly : zaclr_loaded_assembly).

(** The array of clauses and its contents.  The offset of the section from the body
    is compared with the size of the image. *)
Definition parse_exception_section (body header_size_bytes il_size : Z) : creation (Z * list zaclr_exception_clause) :=
  let section_offset := Z.land (u32 (u32 (header_size_bytes + il_size) + 3)) 0xFFFFFFFC in
  if sl_size (pe_image (la_image assembly)) <=? section_offset then mret (0, [])
  else
    let section := body + section_offset in
    kind ← lift (read_u8 m section);
    if negb (flag_set kind 0x01) then mret (0, [])
    else
      b1 ← lift (read_u8 m (section + 1)); b2 ← lift (read_u8 m (section + 2)); b3 ← lift (read_u8 m (section + 3));
      let section_size := Z.lor (Z.lor b1 (Z.shiftl b2 8)) (Z.shiftl b3 16) in
      if section_size <? 4 then fail ZACLR_STATUS_BAD_IMAGE
      else
        let clause_size := if flag_set kind 0x40 then 24 else 12 in
        if negb ((section_size - 4) mod clause_size =? 0) then fail ZACLR_STATUS_BAD_IMAGE
        else
          let clause_count := (section_size - 4) / clause_size in
          if 0xFFFF <? clause_count then fail ZACLR_STATUS_BAD_IMAGE
          else
            p ← allocate_exception_clauses clause_count;
            clauses ← guarded (kernel_free_block p) (lift (parse_exception_clauses m section section_size p clause_count));
            mret (p, clauses).

(** What a header says: the address and the size of the instructions, the depth of
    the evaluation stack, the number of locals and the exception clauses. *)
Record method_header := mk_header {
  mh_il_start : Z; mh_il_size : Z; mh_max_stack : Z; mh_local_count : Z; mh_clauses : Z * list zaclr_exception_clause }.

Definition read_header (body header : Z) : creation method_header :=
  if Z.land header 0x3 =? 0x2 then mret (mk_header (body + 1) (Z.shiftr header 2) 8 0 (0, []))
  else if Z.land header 0x3 =? 0x3 then
    fat_header_flags ← lift (read_u16 m body);
    let header_size_dwords := Z.land (Z.shiftr fat_header_flags 12) 0x0F in
    let header_size_bytes := header_size_dwords * 4 in
    local_sig_token ← lift (read_u32 m (body + 8));
    if header_size_dwords <? 3 then fail ZACLR_STATUS_BAD_IMAGE
    else
      max_stack ← lift (read_u16 m (body + 2));
      il_size ← lift (read_u32 m (body + 4));
      local_count ← lift (parse_local_count m assembly local_sig_token);
      clauses ← (if flag_set fat_header_flags 0x0008 then parse_exception_section body header_size_bytes il_size else mret (0, []));
      mret (mk_header (body + header_size_bytes) il_size max_stack local_count clauses)
  else fail ZACLR_STATUS_BAD_IMAGE.

Definition argument_count (method : zaclr_method_desc) : Z :=
  let n := parameter_count (md_signature method) in
  if flag_set (calling_convention (md_signature method)) 0x20 then u32 (n + 1) else n.

Definition method_returns_value (method : zaclr_method_desc) : bool :=
  negb (element_type (return_type (md_signature method)) =? ZACLR_ELEMENT_TYPE_VOID).

(** The steps after the allocation of the block [frame]. *)
Definition fill_frame (parent : option zaclr_frame) (method : zaclr_method_desc) (body header frame id : Z) : creation (Z * zaclr_frame) :=
  context ← match parent with None => mret GenericContext.empty_context | Some parent => clone_context (generic_context parent) end;
  if 0xFFFF <? argument_count method then fail ZACLR_STATUS_BAD_METADATA
  else
    h ← read_header body header;
    args ← allocate_stack_values (argument_count method);
    guarded (free_array args.1) (
      locals ← allocate_stack_values (mh_local_count h);
      guarded (free_array locals.1) (
        stack ← initialize_eval_stack (mh_max_stack h);
        mret (id, mk_frame frame (drop (Z.to_nat (mh_il_start h)) m) (mh_il_size h) 0 (mh_max_stack h) args.2 args.1
                    locals.2 locals.1 (mh_clauses h).2 (mh_clauses h).1 stack context 0 no_filter no_finally 0
                    (method_returns_value method)))).

(** The identifier of the frame and the frame.  A failure frees the frame and the
    arrays of values, not the exception clauses and the arrays of the generic context. *)
Definition initialize_frame_common (parent : option zaclr_frame) (method : zaclr_method_desc) : creation (Z * zaclr_frame) :=
  if md_rva method =? 0 then fail ZACLR_STATUS_NOT_FOUND
  else
    body_offset ← lift (zaclr_pe_image_rva_to_offset (la_image assembly) (md_rva method));
    data ← lift (deref (sl_data (pe_image (la_image assembly))));
    let body := data + body_offset in
    header ← lift (read_u8 m body);
    frame ← allocate sizeof_frame;
    id ← next_frame_id;
    guarded (kernel_free_block frame) (fill_frame parent method body header frame id).

Definition zaclr_frame_create_child := initialize_frame_common.

(** The members of the thread that a root frame changes. *)
Record zaclr_thread := mk_thread { th_state : Z; th_current_frame : Z }.
Definition ZACLR_THREAD_STATE_RUNNING : Z := 2.

Definition zaclr_frame_create_root (entry_method : zaclr_method_desc) (thread : zaclr_thread)
  : create_state -> outcome zaclr_frame * (zaclr_thread * create_state) := fun s =>
  match initialize_frame_common None entry_method s with
  | (Ret (id, f), s) => (Ret f, (mk_thread ZACLR_THREAD_STATE_RUNNING id, s))
  | (Err r, s) => (Err r, (thread, s))
  | (Fault, s) => (Fault, (thread, s))
  | (NoFuel, s) => (NoFuel, (thread, s))
  end.

End method.

End create.
Arguments create_state K : clear implicits.
Arguments creation K A : clear implicits.

(** ** Binding arguments *)

(** The address of a local of the caller replaces its index. *)
Definition relocate_argument (parent : option zaclr_frame) (v : zaclr_stack_value) : outcome zaclr_stack_value :=
  if sv_kind v =? ZACLR_STACK_VALUE_LOCAL_ADDRESS then
    match sv_data v with
    | DBytes _ => Fault
    | DWord raw =>
      match parent with
      | None => Ret v
      | Some parent =>
        if u32 raw <? zlength (locals parent)
        then Ret (mk_value (sv_kind v) (sv_reserved v) (sv_payload_size v) (sv_type_token_raw v) (sv_flags v) (sv_extra v)
                    (DWord (locals_ptr parent + sizeof_stack_value * u32 raw)))
        else Ret v
      end
    end
  else Ret v.

(** The loop, from the last argument to the first. *)
Fixpoint bind_loop (parent : option zaclr_frame) (n : nat) (args : list zaclr_stack_value) (caller_stack : zaclr_eval_stack)
  : outcome unit * (list zaclr_stack_value * zaclr_eval_stack) :=
  match n with
  | O => (Ret (), (args, caller_stack))
  | S n =>
    match zaclr_eval_stack_pop caller_stack with
    | (Ret v, caller_stack) =>
      match relocate_argument parent v with
      | Ret v => bind_loop parent n (set args (Z.of_nat n) v) caller_stack
      | Err r => (Err r, (args, caller_stack))
      | Fault => (Fault, (args, caller_stack))
      | NoFuel => (NoFuel, (args, caller_stack))
      end
    | (Err r, caller_stack) => (Err r, (args, caller_stack))
    | (Fault, caller_stack) => (Fault, (args, caller_stack))
    | (NoFuel, caller_stack) => (NoFuel, (args, caller_stack))
    end
  end.

Definition zaclr_frame_bind_arguments (frame : zaclr_frame) (parent : option zaclr_frame) (caller_stack : zaclr_eval_stack)
  : outcome unit * (zaclr_frame * zaclr_eval_stack) :=
  if es_depth caller_stack <? zlength (arguments frame) then (Err (exec_error ZACLR_STATUS_DISPATCH_ERROR), (frame, caller_stack))
  else
    let '(o, (args, caller_stack)) := bind_loop parent (length (arguments frame)) (arguments frame) caller_stack in
    (o, (set_arguments args frame, caller_stack)).

Definition zaclr_frame_flags (frame : option zaclr_frame) : Z := match frame with Some f => frame_flags f | None => 0 end.

End FrameCreate.
