(* ===== verification/FrameCorrect.v ===== *)
(** * Created frames are the frames the image describes

    The encoding of method bodies (ECMA-335 II.25.4), the ownership of what the
    creation of a frame allocates, and the frame a body yields. *)

From Stdlib Require Import Strings.Byte.
From S2P Require Import Prelude Status Bytes Token Signature MetadataTables MetadataReader PeImage MethodMap.
From S2P Require Import KernelHeap EvalStack Gc GenericContext GenericCorrect Frame FrameCreate.

Module FrameCorrect.
Import Frame FrameCreate GenericCorrect.

(** ** Routines that allocate *)

Section allocation.
Context {K : Type} `{KernelHeapLaws K}.

(** The routine answers a value with [P] and the new blocks it owns, or runs out of
    memory, and never frees a block that was live. *)
Definition allocates {A} (c : creation K A) (P : A -> list Z -> Prop) : Prop := forall s,
  match c s with
  | (Ret a, s') => exists bs, P a bs /\ fresh_blocks (cs_store s).1 bs (cs_store s').1 /\ (cs_store s').2 = (cs_store s).2
  | (Err r, s') => status r = ZACLR_STATUS_OUT_OF_MEMORY /\ live (cs_store s).1 ⊆ live (cs_store s').1 /\ (cs_store s').2 = (cs_store s).2
  | _ => False
  end.

Lemma allocates_ret {A} (a : A) (P : A -> list Z -> Prop) : P a [] -> allocates (mret a) P.
Proof. intros Hp s. exists []. split; [done|]. split; [apply fresh_nil|done]. Qed.

Lemma allocates_bind {A B} (c : creation K A) (k : A -> creation K B) P1 P :
  allocates c P1 -> (forall a bs, P1 a bs -> allocates (k a) (fun b bs' => P b (bs ++ bs'))) -> allocates (c ≫= k) P.
Proof.
  intros Hc Hk s. unfold mbind, creation_bind. specialize (Hc s). destruct (c s) as [[a|r| |] s1]; try done.
  destruct Hc as (bs & Hp & Hf & Hm). specialize (Hk a bs Hp s1). destruct (k a s1) as [[b|r| |] s2]; try done.
  - destruct Hk as (bs' & Hp' & Hf' & Hm'). exists (bs ++ bs'). split; [done|]. split; [by eapply fresh_app|by rewrite Hm', Hm].
  - destruct Hk as (Hr & Hl & Hm'). split; [done|]. split; [|by rewrite Hm', Hm]. destruct Hf as [_ _ L]. rewrite L in Hl. set_solver.
Qed.

Lemma allocates_weaken {A} (c : creation K A) (P Q : A -> list Z -> Prop) :
  allocates c P -> (forall a bs, P a bs -> Q a bs) -> allocates c Q.
Proof.
  intros Hc Hpq s. specialize (Hc s). destruct (c s) as [[a|r| |] s1]; try done. destruct Hc as (bs & ? & ?). exists bs. auto.
Qed.

(** [cleanup] gives the blocks [bs] back. *)
Definition releases (cleanup : create_state K -> create_state K) (bs : list Z) : Prop := forall s,
  live (cs_store (cleanup s)).1 = live (cs_store s).1 ∖ list_to_set bs /\ (cs_store (cleanup s)).2 = (cs_store s).2.

Lemma allocates_guarded {A B} (c : creation K A) (cleanup : A -> create_state K -> create_state K) (k : A -> creation K B) P1 P :
  allocates c P1 -> (forall a bs, P1 a bs -> releases (cleanup a) bs) ->
  (forall a bs, P1 a bs -> allocates (k a) (fun b bs' => P b (bs ++ bs'))) ->
  allocates (c ≫= fun a => guarded (cleanup a) (k a)) P.
Proof.
  intros Hc Hr Hk s. unfold mbind, creation_bind, guarded. specialize (Hc s). destruct (c s) as [[a|r| |] s1]; try done.
  destruct Hc as (bs & Hp & Hf & Hm). specialize (Hk a bs Hp s1). destruct (k a s1) as [[b|r| |] s2]; try done.
  - destruct Hk as (bs' & Hp' & Hf' & Hm'). exists (bs ++ bs'). split; [done|]. split; [by eapply fresh_app|by rewrite Hm', Hm].
  - destruct Hk as (Hst & Hl & Hm'). destruct (Hr a bs Hp s2) as [L2 M2]. split; [done|]. split; [|by rewrite M2, Hm', Hm].
    destruct Hf as [_ F L]. rewrite L in Hl. rewrite L2. intros x Hx. specialize (F x). set_solver.
Qed.

Lemma lift_Ret_bind {A B} (a : A) (k : A -> creation K B) : (lift (Ret a) ≫= k) = k a.
Proof. done. Qed.

Lemma creation_bind_assoc {A B C} (c : creation K A) (f : A -> creation K B) (g : B -> creation K C) s :
  ((c ≫= f) ≫= g) s = (c ≫= fun a => f a ≫= g) s.
Proof. unfold mbind, creation_bind. by destruct (c s) as [[a|r| |] s1]. Qed.

Lemma allocates_ext {A} (c c' : creation K A) P : (forall s, c s = c' s) -> allocates c P -> allocates c' P.
Proof. intros E Hc s. rewrite <- E. apply Hc. Qed.

(** ** The allocations of a frame *)

(** A block, unless the pointer is [NULL]. *)
Definition block (p : Z) : list Z := if p =? 0 then [] else [p].

Lemma allocate_allocates size : allocates (allocate (K := K) size) (fun p bs => p <> 0 /\ bs = [p]).
Proof.
  intros s. unfold allocate. destruct (kernel_alloc (cs_store s).1 size) as [p k] eqn:E. apply alloc_spec in E.
  destruct (Z.eqb_spec p 0) as [->|Hp]; simpl.
  - destruct E as [[_ L]|[? _]]; [|done]. by rewrite L.
  - destruct E as [[? _]|(_ & Hf & L)]; [done|]. exists [p]. split; [done|]. split; [|done]. split.
    + apply NoDup_singleton.
    + intros q ->%list_elem_of_singleton. done.
    + rewrite L. set_solver.
Qed.

Lemma stack_values_allocates count : allocates (allocate_stack_values (K := K) count)
  (fun '(p, l) bs => l = replicate (Z.to_nat count) zero_value /\ (p = 0 -> count = 0) /\ bs = block p).
Proof.
  unfold allocate_stack_values. destruct (Z.eqb_spec count 0) as [->|Hc]; [by apply allocates_ret|].
  eapply allocates_bind; [apply allocate_allocates|]. intros p bs [Hp ->]. apply allocates_ret. split; [done|]. split; [done|].
  unfold block. by rewrite (proj2 (Z.eqb_neq p 0)).
Qed.

Lemma exception_clauses_allocates count : allocates (allocate_exception_clauses (K := K) count)
  (fun p bs => (p = 0 <-> count = 0) /\ bs = block p).
Proof.
  unfold allocate_exception_clauses. destruct (Z.eqb_spec count 0) as [->|Hc]; [by apply allocates_ret|].
  eapply allocates_weaken; [apply allocate_allocates|]. intros p bs [Hp ->]. split; [done|]. unfold block. by rewrite (proj2 (Z.eqb_neq p 0)).
Qed.

(** The evaluation stack of a new frame. *)
Definition fresh_stack (capacity : Z) (e : zaclr_eval_stack) : Prop :=
  e = mk_eval_stack (es_buffer e) (replicate (Z.to_nat capacity) zero_value) 0 capacity /\ (es_buffer e = 0 <-> capacity = 0).

Lemma eval_stack_allocates capacity : 0 <= capacity < 2 ^ 32 ->
  allocates (initialize_eval_stack (K := K) capacity) (fun e bs => fresh_stack capacity e /\ bs = block (es_buffer e)).
Proof.
  intros Hc s. unfold initialize_eval_stack, zaclr_eval_stack_initialize.
  destruct (Z.eqb_spec capacity 0) as [->|Hc0]; [exists []; split; [by split|]; split; [apply fresh_nil|done]|].
  pose proof (allocate_allocates (sizeof_stack_value * capacity) s) as Ha. unfold allocate in Ha.
  destruct (kernel_alloc (cs_store s).1 (sizeof_stack_value * capacity)) as [p k].
  destruct (Z.eqb_spec p 0) as [->|Hp]; [exact Ha|]. destruct Ha as (bs & [_ ->] & Hf & Hm). exists [p]. split; [|done].
  split; [by split|]. unfold block. simpl. by rewrite (proj2 (Z.eqb_neq p 0)).
Qed.

Lemma context_allocates c : context_ok c ->
  allocates (clone_context (K := K) c) (fun c' bs => context_ok c' /\ erase_context c' = erase_context c /\ bs = context_buffers c').
Proof.
  intros Hc s. unfold clone_context. pose proof (clone_context_spec (cs_store s).1 GenericContext.empty_context c empty_ok Hc) as Hs.
  destruct (GenericContext.zaclr_generic_context_clone _ _ _) as [[[]|r| |] [c' k]]; try done; unfold clone_post in Hs; simpl in Hs;
    rewrite difference_empty_L in Hs.
  - destruct Hs as (A1 & A2 & A3 & A4 & A5). exists (context_buffers c'). split; [done|]. by split.
  - destruct Hs as (-> & -> & Hl). done.
Qed.

Lemma free_block_releases p : p <> 0 -> releases (kernel_free_block (K := K) p) (block p).
Proof. intros Hp s. split; [|done]. simpl. rewrite free_spec. unfold block. rewrite (proj2 (Z.eqb_neq p 0)) by done. set_solver. Qed.

Lemma free_array_releases p : releases (free_array (K := K) p) (block p).
Proof.
  unfold free_array. intros s. destruct (Z.eqb_spec p 0) as [->|Hp]; [simpl; split; [set_solver|done]|]. by apply free_block_releases.
Qed.

End allocation.

(** ** Exception clauses *)

(** The clauses a section can hold: the small format has 16-bit offsets and 8-bit
    lengths. *)
Definition clause_fits (fat : bool) (c : zaclr_exception_clause) : Prop :=
  let word := if fat then 2 ^ 32 else 2 ^ 16 in let length := if fat then 2 ^ 32 else 2 ^ 8 in
  0 <= cl_flags c < word /\ 0 <= try_offset c < word /\ 0 <= try_length c < length /\
  0 <= handler_offset c < word /\ 0 <= handler_length c < length /\ 0 <= class_token c < 2 ^ 32.

Definition encode_clause (fat : bool) (c : zaclr_exception_clause) : list byte :=
  if fat
  then encode_u32 (cl_flags c) ++ encode_u32 (try_offset c) ++ encode_u32 (try_length c) ++
       encode_u32 (handler_offset c) ++ encode_u32 (handler_length c) ++ encode_u32 (class_token c)
  else encode_u16 (cl_flags c) ++ encode_u16 (try_offset c) ++ [byte_of_Z (try_length c)] ++
       encode_u16 (handler_offset c) ++ [byte_of_Z (handler_length c)] ++ encode_u32 (class_token c).
Definition clause_size (fat : bool) : Z := if fat then 24 else 12.

Definition encode_u24 (v : Z) : list byte := [byte_of_Z v; byte_of_Z (v / 2 ^ 8); byte_of_Z (v / 2 ^ 16)].
Definition section_size (fat : bool) (l : list zaclr_exception_clause) : Z := 4 + zlength l * clause_size fat.
Definition encode_section (fat : bool) (l : list zaclr_exception_clause) : list byte :=
  byte_of_Z (if fat then 0x41 else 0x01) :: encode_u24 (section_size fat l) ++ concat (map (encode_clause fat) l).

Lemma zlength_clause fat c : zlength (encode_clause fat c) = clause_size fat.
Proof. by destruct fat. Qed.

Lemma zlength_clauses fat l : zlength (concat (map (encode_clause fat) l)) = zlength l * clause_size fat.
Proof.
  induction l as [|c l IH]; [done|]. cbn [map concat]. rewrite zlength_app, IH, zlength_clause, zlength_cons. lia.
Qed.

Section parsing.
Context (m : memory).

Lemma read_byte p v l : 0 <= v < 2 ^ 8 -> seg m p (byte_of_Z v :: l) -> read_u8 m p = Ret v.
Proof. intros Hv Hs. rewrite (seg_read_u8 _ _ _ _ Hs), byte_Z_of_Z. by rewrite u8_id. Qed.

Lemma read_clause_encoded fat p c : clause_fits fat c -> seg m p (encode_clause fat c) ->
  (if fat then read_fat_clause m p else read_small_clause m p) = Ret c.
Proof.
  intros (H1 & H2 & H3 & H4 & H5 & H6) Hs. destruct c as [fl t1 t2 h1 h2 tok]. destruct fat; cbn [encode_clause] in Hs;
    repeat (let H := fresh "S" in apply seg_app in Hs as [H Hs]); unfold zlength in *; cbn [length encode_u16 encode_u32] in *;
    rewrite <- !Z.add_assoc in *; simpl (_ + _) in *; cbn [cl_flags try_offset try_length handler_offset handler_length class_token] in *.
  - unfold read_fat_clause. rewrite (seg_read_u32 m p fl), Ret_bind by done. rewrite (seg_read_u32 m (p + 4) t1), Ret_bind by done.
    rewrite (seg_read_u32 m (p + 8) t2), Ret_bind by done. rewrite (seg_read_u32 m (p + 12) h1), Ret_bind by done.
    rewrite (seg_read_u32 m (p + 16) h2), Ret_bind by done. by rewrite (seg_read_u32 m (p + 20) tok), Ret_bind by done.
  - unfold read_small_clause. rewrite (seg_read_u16 m p fl), Ret_bind by done. rewrite (seg_read_u16 m (p + 2) t1), Ret_bind by done.
    rewrite (read_byte (p + 4) t2 []), Ret_bind by done. rewrite (seg_read_u16 m (p + 5) h1), Ret_bind by done.
    rewrite (read_byte (p + 7) h2 []), Ret_bind by done. by rewrite (seg_read_u32 m (p + 8) tok), Ret_bind by done.
Qed.

Lemma read_clauses_encoded fat l p : Forall (clause_fits fat) l -> seg m p (concat (map (encode_clause fat) l)) ->
  read_clauses (if fat then read_fat_clause m else read_small_clause m) (clause_size fat) (length l) p = Ret l.
Proof.
  intros Hl. revert p. induction Hl as [|c l Hc Hl IH]; intros p Hs; [done|]. cbn [map concat] in Hs. apply seg_app in Hs as [S1 S2].
  rewrite zlength_clause in S2. cbn [length read_clauses].
  assert ((if fat then read_fat_clause m else read_small_clause m) p = Ret c) as -> by (destruct fat; by apply (read_clause_encoded _ p c) in S1).
  rewrite Ret_bind, IH by done. done.
Qed.

Lemma read_u24 p v : 0 <= v < 2 ^ 24 -> seg m p (encode_u24 v) ->
  exists b1 b2 b3, read_u8 m p = Ret b1 /\ read_u8 m (p + 1) = Ret b2 /\ read_u8 m (p + 2) = Ret b3 /\
    Z.lor (Z.lor b1 (Z.shiftl b2 8)) (Z.shiftl b3 16) = v.
Proof.
  intros Hv Hs. exists (u8 v), (u8 (v / 2 ^ 8)), (u8 (v / 2 ^ 16)). pose proof Hs as Hs0.
  apply seg_cons in Hs as [_ Hs1]. pose proof Hs1 as Hs2. apply seg_cons in Hs2 as [_ Hs2]. rewrite <- Z.add_assoc in Hs2. change (1 + 1) with 2 in Hs2.
  rewrite (seg_read_u8 _ _ _ _ Hs0), (seg_read_u8 _ _ _ _ Hs1), (seg_read_u8 _ _ _ _ Hs2), !byte_Z_of_Z. split_and!; try done.
  pose proof (lor_le32 (u8 v) (u8 (v / 2 ^ 8)) (u8 (v / 2 ^ 16)) 0) as E. rewrite Z.shiftl_0_l, Z.lor_0_r in E.
  pose proof (u8_shifts_32 v ltac:(lia)) as E2. rewrite (Z.div_small v (2 ^ 24)) in E2 by lia. change (u8 0) with 0 in E2.
  assert (forall x, 0 <= u8 x < 256) as Hu by (intros x; apply (Z.mod_pos_bound x 256); lia).
  rewrite E; [lia|apply Hu..|lia].
Qed.

End parsing.

(** The next multiple of four. *)
Definition align4 (n : Z) : Z := (n + 3) / 4 * 4.

Lemma align4_mask n : 0 <= n < 2 ^ 31 -> Z.land (u32 (u32 n + 3)) 0xFFFFFFFC = align4 n.
Proof.
  intros Hn. rewrite !u32_id by (rewrite ?u32_id by lia; lia). change 0xFFFFFFFC with (Z.land (Z.ones 32) (Z.lnot (2 ^ 2 - 1))).
  rewrite Z.land_assoc, Z.land_ones, Z.mod_small by lia. apply land_lnot_ones. lia.
Qed.

(** The signature of the locals: none, or a blob of the LOCAL_SIG form. *)
Definition declares_locals (m : memory) (assembly : zaclr_loaded_assembly) (token n : Z) : Prop :=
  (Z.land token 0x00FFFFFF = 0 /\ n = 0) \/
  exists row blob d rest, Z.land token 0x00FFFFFF <> 0 /\ 0 <= n < 2 ^ 16 /\ blob_ok m blob /\
    zaclr_metadata_reader_get_standalonesig_row m (la_metadata assembly) (Z.land token 0x00FFFFFF) = Ret row /\
    zaclr_metadata_reader_get_blob m (la_metadata assembly) (standalonesig_signature_blob_index row) = Ret blob /\
    sl_data blob = Some d /\ seg m d (byte_of_Z 0x07 :: encode_uint n ++ rest) /\
    sl_size blob = zlength (byte_of_Z 0x07 :: encode_uint n ++ rest).

(** This decoder accepts what that of the signatures accepts. *)
Lemma decode_agrees m blob d off r : sl_data blob = Some d -> Signature.decode_compressed_uint m blob off = Ret r ->
  decode_compressed_uint m blob off = Ret r.
Proof.
  intros Hd. unfold Signature.decode_compressed_uint, decode_compressed_uint. rewrite Hd. change (deref (Some d)) with (Ret d : outcome Z).
  destruct (sl_size blob <=? off); [done|]. rewrite Ret_bind. cbn [negb]. destruct (read_u8 m (d + off)) as [first| | |]; try done.
  rewrite !Ret_bind. case_if; [done|]. case_if.
  - destruct (sl_size blob <=? u32 (off + 1)); done.
  - case_if; [|done]. destruct (sl_size blob <=? u32 (off + 3)); done.
Qed.

Lemma parse_locals m assembly token n : declares_locals m assembly token n -> parse_local_count m assembly token = Ret n.
Proof.
  unfold parse_local_count. intros [[E ->]|(row & blob & d & rest & E & Hn & Hbok & Hrow & Hblob & Hd & Hs & Hz)].
  { rewrite E. by rewrite orb_true_r. }
  assert ((token =? 0) || (Z.land token 0x00FFFFFF =? 0) = false) as ->.
  { rewrite (proj2 (Z.eqb_neq _ 0) E), orb_false_r. apply Z.eqb_neq. by intros ->. }
  rewrite Hrow, Ret_bind, Hblob, Ret_bind. pose proof (zlength_nonneg (encode_uint n)). pose proof (zlength_nonneg rest).
  rewrite zlength_cons, zlength_app in Hz. rewrite (proj2 (Z.eqb_neq (sl_size blob) 0)) by lia. cbn [negb].
  rewrite Hd. change (deref (Some d)) with (Ret d : outcome Z). rewrite Ret_bind.
  rewrite (seg_read_u8 _ _ _ _ Hs), Ret_bind. change (byte_Z (byte_of_Z 7) =? 7) with true. cbv iota.
  apply seg_cons in Hs as [_ Hs]. apply seg_app in Hs as [Hs _].
  rewrite (decode_agrees m blob d 1 (n, 1 + zlength (encode_uint n)) Hd), Ret_bind.
  { f_equal. by apply u16_id. }
  apply (decode_encode_uint m blob d); try done; try lia. unfold is_uint29. lia.
Qed.

Section sections.
Context {K : Type} `{KernelHeapLaws K} (m : memory) (assembly : zaclr_loaded_assembly).

(** The section of the exception clauses behind the instructions. *)
Lemma section_allocates body header_size il_size fat l :
  0 <= header_size + il_size < 2 ^ 31 -> align4 (header_size + il_size) < sl_size (pe_image (la_image assembly)) ->
  l <> [] -> zlength l <= 0xFFFF -> section_size fat l < 2 ^ 24 -> Forall (clause_fits fat) l ->
  seg m (body + align4 (header_size + il_size)) (encode_section fat l) ->
  allocates (K := K) (parse_exception_section m assembly body header_size il_size) (fun '(p, l') bs => l' = l /\ bs = block p).
Proof.
  intros Hr Hin Hne Hcount Hsz Hl Hs. unfold parse_exception_section. rewrite align4_mask by done.
  rewrite (proj2 (Z.leb_gt _ _) Hin). set (sec := body + align4 _) in *. pose proof Hs as Hk. unfold encode_section in Hs.
  apply seg_cons in Hs as [_ Hs]. apply seg_app in Hs as [Hsize Hs]. change (zlength (encode_u24 _)) with 3 in Hs. rewrite <- Z.add_assoc in Hs.
  change (1 + 3) with 4 in Hs.
  assert (0 < zlength l) as Hpos by (by apply zlength_pos). assert (0 <= section_size fat l) as H0s by (unfold section_size; destruct fat; simpl; lia).
  destruct (read_u24 m _ _ (conj H0s Hsz) Hsize) as (b1 & b2 & b3 & R1 & R2 & R3 & Ev). rewrite <- Z.add_assoc in R2, R3.
  change (1 + 1) with 2 in R2. change (1 + 2) with 3 in R3.
  assert (read_u8 m sec = Ret (if fat then 0x41 else 0x01)) as Rk.
  { apply (read_byte m sec _ (encode_u24 (section_size fat l) ++ concat (map (encode_clause fat) l))); [by destruct fat|exact Hk]. }
  rewrite Rk, lift_Ret_bind. assert (negb (flag_set (if fat then 0x41 else 0x01) 0x01) = false) as -> by (by destruct fat).
  rewrite R1, lift_Ret_bind, R2, lift_Ret_bind, R3, lift_Ret_bind, Ev.
  assert ((if flag_set (if fat then 0x41 else 0x01) 0x40 then 24 else 12) = clause_size fat) as -> by (by destruct fat).
  assert (0 < clause_size fat) as Hcs by (by destruct fat).
  assert (section_size fat l - 4 = zlength l * clause_size fat) as Esz by (unfold section_size; lia).
  assert (0 <= zlength l * clause_size fat) by (apply Z.mul_nonneg_nonneg; lia).
  rewrite (proj2 (Z.ltb_ge (section_size fat l) 4)) by lia. rewrite Esz, Z.mod_mul, Z.div_mul by lia. cbn [Z.eqb negb].
  rewrite (proj2 (Z.ltb_ge 0xFFFF _)) by lia.
  eapply (allocates_bind _ _ (fun p bs => p <> 0 /\ bs = block p)).
  { eapply allocates_weaken; [apply exception_clauses_allocates|]. intros p bs [Hp ->]. split; [|done]. intros E. apply Hp in E. lia. }
  intros p bs [Hp ->].
  assert (parse_exception_clauses m sec (section_size fat l) p (zlength l) = Ret l) as Ep.
  { unfold parse_exception_clauses. rewrite (proj2 (Z.eqb_neq p 0)), (proj2 (Z.eqb_neq (zlength l) 0)) by lia. rewrite Rk, Ret_bind.
    rewrite to_nat_zlength. pose proof (read_clauses_encoded m fat l (sec + 4) Hl Hs) as Er. unfold section_size in *.
    destruct fat; cbn [clause_size] in *; rewrite !u32_id by (rewrite ?u32_id by lia; lia).
    - change (flag_set 65 64) with true. cbv iota. by rewrite Z.ltb_irrefl.
    - change (flag_set 1 64) with false. cbv iota. by rewrite Z.ltb_irrefl. }
  rewrite Ep. intros s. exists []. split; [by rewrite app_nil_r|]. split; [apply fresh_nil|done].
Qed.

End sections.

(** ** Method bodies *)

Inductive method_body :=
  | Tiny (code : list byte)
  | Fat (max_stack local_sig : Z) (init_locals : bool) (code : list byte) (fat_section : bool) (clauses : list zaclr_exception_clause).

Definition body_code (b : method_body) : list byte := match b with Tiny code => code | Fat _ _ _ code _ _ => code end.
Definition body_max_stack (b : method_body) : Z := match b with Tiny _ => 8 | Fat n _ _ _ _ _ => n end.
Definition body_clauses (b : method_body) : list zaclr_exception_clause := match b with Tiny _ => [] | Fat _ _ _ _ _ l => l end.

Definition fat_flags (init more_sections : bool) : Z := 0x3003 + (if init then 0x10 else 0) + (if more_sections then 0x8 else 0).
Definition padding (n : Z) : list byte := replicate (Z.to_nat (align4 n - n)) x00.

Definition encode_body (b : method_body) : list byte :=
  match b with
  | Tiny code => byte_of_Z (4 * zlength code + 2) :: code
  | Fat n local_sig init code fat clauses =>
    encode_u16 (fat_flags init (negb (bool_decide (clauses = [])))) ++ encode_u16 n ++ encode_u32 (zlength code) ++ encode_u32 local_sig ++
    code ++ if bool_decide (clauses = []) then [] else padding (12 + zlength code) ++ encode_section fat clauses
  end.

Definition body_ok (b : method_body) : Prop :=
  match b with
  | Tiny code => zlength code < 64
  | Fat n local_sig _ code fat clauses =>
    0 <= n < 2 ^ 16 /\ 0 <= local_sig < 2 ^ 32 /\ 12 + zlength code < 2 ^ 31 /\
    zlength clauses <= 0xFFFF /\ section_size fat clauses < 2 ^ 24 /\ Forall (clause_fits fat) clauses
  end.

Definition body_locals (m : memory) (assembly : zaclr_loaded_assembly) (b : method_body) (n : Z) : Prop :=
  match b with Tiny _ => n = 0 | Fat _ local_sig _ _ _ _ => declares_locals m assembly local_sig n end.

Lemma body_stack_range b : body_ok b -> 0 <= body_max_stack b < 2 ^ 16.
Proof. destruct b; simpl; [lia|tauto]. Qed.

Lemma align4_bounds n : n <= align4 n < n + 4.
Proof. unfold align4. pose proof (Z.div_mod (n + 3) 4 ltac:(lia)). pose proof (Z.mod_pos_bound (n + 3) 4 ltac:(lia)). lia. Qed.

Lemma zlength_padding n : zlength (padding n) = align4 n - n.
Proof. unfold padding, zlength. rewrite length_replicate. pose proof (align4_bounds n). lia. Qed.

(** The header describes the body [b], which starts at [body]. *)
Record describes (m : memory) (body : Z) (b : method_body) (n : Z) (h : method_header) : Prop := {
  ds_code : seg m (mh_il_start h) (body_code b);
  ds_start : body < mh_il_start h;
  ds_size : mh_il_size h = zlength (body_code b);
  ds_stack : mh_max_stack h = body_max_stack b;
  ds_locals : mh_local_count h = n;
  ds_clauses : (mh_clauses h).2 = body_clauses b }.

Section headers.
Context {K : Type} `{KernelHeapLaws K} (m : memory) (assembly : zaclr_loaded_assembly).
Lemma header_allocates data off b n : 0 <= off -> body_ok b -> seg m (data + off) (encode_body b) ->
  off + zlength (encode_body b) <= sl_size (pe_image (la_image assembly)) -> body_locals m assembly b n ->
  exists header, read_u8 m (data + off) = Ret header /\
    allocates (K := K) (read_header m assembly (data + off) header) (fun h bs => describes m (data + off) b n h /\ bs = block (mh_clauses h).1).
Proof.
  intros Hoff Hok Hseg Hfits Hlocals. destruct b as [code|ms sig init code fat clauses]; cbn [encode_body body_ok body_locals] in Hok, Hseg, Hfits, Hlocals.
  - pose proof (zlength_nonneg code). exists (4 * zlength code + 2). split; [by apply (read_byte m _ _ code); [lia|]|].
    unfold read_header. assert (Z.land (4 * zlength code + 2) 0x3 = 2) as ->.
    { change 3 with (Z.ones 2). rewrite Z.land_ones, Z.add_comm, Z.mul_comm by lia. change (2 ^ 2) with 4. by rewrite Z.mod_add by lia. }
    cbn [Z.eqb Pos.eqb]. apply allocates_ret. split; [|done]. apply seg_cons in Hseg as [_ Hs]. split; cbn; try done; [lia|].
    rewrite Z.shiftr_div_pow2 by lia. change (2 ^ 2) with 4. rewrite Z.add_comm, Z.mul_comm, Z.div_add by lia. done.
  - destruct Hok as (Hms & Hsig & Hlen & Hcount & Hsz & Hl). pose proof (zlength_nonneg code).
    set (more := negb (bool_decide (clauses = []))) in *.
    assert (0 <= fat_flags init more < 2 ^ 16) as Hfl by (destruct init, more; done).
    exists (u8 (fat_flags init more)). split; [by rewrite (seg_read_u8 _ _ _ _ Hseg), byte_Z_of_Z|].
    rewrite !zlength_app in Hfits. change (zlength (encode_u16 _)) with 2 in Hfits. change (zlength (encode_u32 _)) with 4 in Hfits.
    remember (data + off) as body eqn:Ebody.
    apply seg_app in Hseg as [S1 S2]. apply seg_app in S2 as [S2 S3]. apply seg_app in S3 as [S3 S4]. apply seg_app in S4 as [S4 S5].
    apply seg_app in S5 as [S5 S6]. change (zlength (encode_u16 _)) with 2 in *. change (zlength (encode_u32 _)) with 4 in *.
    replace (body + 2 + 2) with (body + 4) in * by lia. replace (body + 4 + 4) with (body + 8) in * by lia.
    replace (body + 8 + 4) with (body + 12) in * by lia. unfold read_header.
    assert (Z.land (u8 (fat_flags init more)) 0x3 = 3) as -> by (by destruct init, more). cbn [Z.eqb Pos.eqb].
    rewrite (seg_read_u16 m body (fat_flags init more)), lift_Ret_bind by done.
    assert (Z.land (Z.shiftr (fat_flags init more) 12) 0x0F = 3) as -> by (by destruct init, more).
    rewrite (seg_read_u32 m (body + 8) sig), lift_Ret_bind by done. change (3 <? 3) with false. cbv iota.
    rewrite (seg_read_u16 m (body + 2) ms), lift_Ret_bind by done. rewrite (seg_read_u32 m (body + 4) (zlength code)), lift_Ret_bind by (done || lia).
    rewrite (parse_locals _ _ _ _ Hlocals), lift_Ret_bind. change (3 * 4) with 12.
    assert (flag_set (fat_flags init more) 0x0008 = more) as -> by (by destruct init, more).
    eapply (allocates_bind _ _ (fun '(p, l) bs => l = clauses /\ bs = block p)).
    2: { intros [p l] bs [-> ->]. apply allocates_ret. rewrite app_nil_r. split; [|done]. split; cbn; try done; lia. }
    unfold more in *. case_bool_decide as Hc; cbn [negb].
    { apply allocates_ret. by rewrite Hc. }
    rewrite zlength_app, zlength_padding in Hfits. apply seg_app in S6 as [_ S6]. rewrite zlength_padding in S6.
    unfold encode_section in Hfits. rewrite zlength_cons, zlength_app, zlength_clauses in Hfits.
    change (zlength (encode_u24 _)) with 3 in Hfits. assert (0 < zlength clauses) as Hp by (by apply zlength_pos).
    assert (0 < zlength clauses * clause_size fat) by (apply Z.mul_pos_pos; [done|by destruct fat]).
    apply section_allocates with fat; try done; try lia.
    by replace (body + align4 (12 + zlength code)) with (body + 12 + zlength code + (align4 (12 + zlength code) - (12 + zlength code))) by lia.
Qed.

End headers.

(** ** Frames *)

Lemma seg_drop m p l : 0 <= p -> seg m p l -> seg (drop (Z.to_nat p) m) 0 l.
Proof.
  intros Hp Hs i x Hi. specialize (Hs i x Hi). pose proof (get_Some_range _ _ _ Hi). unfold get in *.
  destruct (Z.ltb_spec (p + i) 0); [lia|]. destruct (Z.ltb_spec (0 + i) 0); [lia|]. rewrite lookup_drop. rewrite <- Hs. f_equal. lia.
Qed.

(** The blocks a frame owns, in the order of their allocation. *)
Definition frame_blocks (f : zaclr_frame) : list Z :=
  [frame_ptr f] ++ context_buffers (generic_context f) ++ block (exception_clauses_ptr f) ++ block (arguments_ptr f) ++
  block (locals_ptr f) ++ block (es_buffer (eval_stack f)).

(** The frame of the body [b] with [args] arguments, [n] locals and a copy of the
    generic context [c]: everything else is cleared. *)
Record created (b : method_body) (args n : Z) (c : GenericContext.zaclr_generic_context) (returns : bool) (f : zaclr_frame) : Prop := {
  cr_code : seg (il_start f) 0 (body_code b);
  cr_size : il_size f = zlength (body_code b);
  cr_offset : il_offset f = 0;
  cr_max : max_stack f = body_max_stack b;
  cr_arguments : arguments f = replicate (Z.to_nat args) zero_value;
  cr_locals : locals f = replicate (Z.to_nat n) zero_value;
  cr_pointers : frame_ptr f <> 0 /\ (arguments_ptr f = 0 -> args = 0) /\ (locals_ptr f = 0 -> n = 0);
  cr_clauses : exception_clauses f = body_clauses b;
  cr_stack : fresh_stack (body_max_stack b) (eval_stack f);
  cr_context : context_ok (generic_context f) /\ erase_context (generic_context f) = erase_context c;
  cr_cleared : pending_constrained_token_raw f = 0 /\ filter_state f = no_filter /\ finally_state f = no_finally /\ frame_flags f = 0;
  cr_returns : returns_value f = returns }.

(** The generic context a new frame inherits. *)
Definition inherited (parent : option zaclr_frame) : GenericContext.zaclr_generic_context :=
  match parent with Some p => generic_context p | None => GenericContext.empty_context end.

(** [b] is the body of [method]: it lies in the image at the offset of its address, and
    declares [n] locals. *)
Record method_in_image (m : memory) (assembly : zaclr_loaded_assembly) (method : zaclr_method_desc) (b : method_body) (n : Z) : Prop := {
  mi_rva : md_rva method <> 0;
  mi_arguments : 0 <= argument_count method <= 0xFFFF;
  mi_body : body_ok b;
  mi_locals : body_locals m assembly b n;
  mi_image : exists data off, sl_data (pe_image (la_image assembly)) = Some data /\ 0 <= data /\ 0 <= off /\
    zaclr_pe_image_rva_to_offset (la_image assembly) (md_rva method) = Ret off /\
    seg m (data + off) (encode_body b) /\ off + zlength (encode_body b) <= sl_size (pe_image (la_image assembly)) }.

Section creation.
Context {K : Type} `{KernelHeapLaws K} (m : memory) (assembly : zaclr_loaded_assembly).

Lemma next_frame_id_allocates : allocates (next_frame_id (K := K)) (fun _ bs => bs = []).
Proof. intros s. exists []. split; [done|]. split; [apply fresh_nil|done]. Qed.

Lemma inherited_allocates parent : context_ok (inherited parent) ->
  allocates (K := K) (match parent with None => mret GenericContext.empty_context | Some p => clone_context (generic_context p) end)
    (fun c bs => context_ok c /\ erase_context c = erase_context (inherited parent) /\ bs = context_buffers c).
Proof. destruct parent; intros Hc; [by apply context_allocates|]. apply allocates_ret. by split; [apply empty_ok|]. Qed.

Lemma fill_allocates parent method b n data off header fp id : 0 <= data -> 0 <= off -> fp <> 0 ->
  0 <= argument_count method <= 0xFFFF -> body_ok b -> context_ok (inherited parent) ->
  allocates (K := K) (read_header m assembly (data + off) header) (fun h bs => describes m (data + off) b n h /\ bs = block (mh_clauses h).1) ->
  allocates (K := K) (fill_frame m assembly parent method (data + off) header fp id)
    (fun '(_, f) bs => created b (argument_count method) n (inherited parent) (method_returns_value method) f /\ [fp] ++ bs = frame_blocks f).
Proof.
  intros Hd Hoff Hfp Hargs Hbody Hctx Hh. unfold fill_frame.
  eapply allocates_bind; [by apply inherited_allocates|]. intros c bs (Hc & Hec & ->).
  rewrite (proj2 (Z.ltb_ge 0xFFFF _)) by lia. eapply allocates_bind; [exact Hh|]. intros h bs [[D1 D2 D3 D4 D5 D6] ->].
  eapply allocates_guarded; [apply stack_values_allocates|intros [ap al] bs (_ & _ & ->); apply free_array_releases|].
  intros [ap al] bs (-> & Hap & ->). cbn [fst snd].
  eapply allocates_guarded; [apply stack_values_allocates|intros [lp ll] bs (_ & _ & ->); apply free_array_releases|].
  intros [lp ll] bs (-> & Hlp & ->). cbn [fst snd]. pose proof (body_stack_range b Hbody).
  eapply allocates_bind; [apply eval_stack_allocates; lia|]. intros e bs (He & ->). apply allocates_ret.
  split; [|unfold frame_blocks; cbn; by rewrite ?app_nil_r].
  split; cbn; try done; try (by rewrite ?D5).
  - apply seg_drop; [lia|done].
  - by rewrite D5 in Hlp.
  - by rewrite D4 in He.
Qed.

Lemma create_allocates parent method b n : method_in_image m assembly method b n -> context_ok (inherited parent) ->
  allocates (K := K) (initialize_frame_common m assembly parent method)
    (fun '(_, f) bs => created b (argument_count method) n (inherited parent) (method_returns_value method) f /\ bs = frame_blocks f).
Proof.
  intros [Hrva Hargs Hbody Hlocals (data & off & Hdata & Hd0 & Hoff & Hrto & Hseg & Hfits)] Hctx. unfold initialize_frame_common.
  rewrite (proj2 (Z.eqb_neq _ 0) Hrva), Hrto, lift_Ret_bind, Hdata. change (deref (Some data)) with (Ret data : outcome Z). rewrite lift_Ret_bind.
  destruct (header_allocates (K := K) m assembly data off b n Hoff Hbody Hseg Hfits Hlocals) as (header & Hr & Hh). rewrite Hr, lift_Ret_bind.
  eapply (allocates_ext (x ← (frame ← allocate sizeof_frame; id ← next_frame_id; mret (frame, id));
    guarded (kernel_free_block x.1) (fill_frame m assembly parent method (data + off) header x.1 x.2))).
  { intros s. unfold mbind, creation_bind. by destruct (allocate sizeof_frame s) as [[p|r| |] s1]. }
  eapply (allocates_guarded _ _ _ (fun x bs => x.1 <> 0 /\ bs = [x.1])).
  { eapply allocates_bind; [apply allocate_allocates|]. intros p bs [Hp ->]. eapply allocates_bind; [apply next_frame_id_allocates|].
    intros id ? ->. by apply allocates_ret. }
  { intros [p id] bs [Hp ->]. pose proof (free_block_releases (K := K) p Hp) as Hf. unfold block in Hf. by rewrite (proj2 (Z.eqb_neq p 0)) in Hf. }
  intros [fp id] bs [Hfp ->]. eapply allocates_weaken; [by apply fill_allocates|]. intros [id' f] bs [Hc Hb]. done.
Qed.

End creation.

End FrameCorrect.
