(* ===== verification/Call.v ===== *)
(** * Calls

    The entry of a method: the fragment of the call instruction of
    [zaclr/exec/zaclr_dispatch.cpp] that creates the frame of the callee, gives it the
    generic arguments of the call and binds its arguments, and the entry points of
    [zaclr/exec/zaclr_engine.cpp] that run a method from outside.

    The resolution of the callee, native bodies and intrinsics come before this
    fragment and are not modelled.  The engine runs with the instructions that are not
    modelled as a parameter; the identifiers of frames they create are not counted. *)

From Stdlib Require Import Strings.Byte.
From S2P Require Import Prelude Status Bytes Token Signature MetadataTables MetadataReader PeImage MethodMap.
From S2P Require Import KernelHeap EvalStack ManagedObject Gc GenericContext Opcode Frame Arith Exceptions Dispatch FrameCreate.

Module Call.
Import Opcode Frame Dispatch FrameCreate.

Definition set_generic_context (c : GenericContext.zaclr_generic_context) (f : zaclr_frame) : zaclr_frame :=
  mk_frame (frame_ptr f) (il_start f) (il_size f) (il_offset f) (max_stack f) (arguments f) (arguments_ptr f) (locals f)
    (locals_ptr f) (exception_clauses f) (exception_clauses_ptr f) (eval_stack f) c
    (pending_constrained_token_raw f) (filter_state f) (finally_state f) (frame_flags f) (returns_value f).

Section calls.
Context {K : Type} `{KernelHeap K} (m : memory).

Definition set_store (k : K) (s : create_state K) : create_state K := mk_create (k, (cs_store s).2) (cs_next_frame_id s).

(** [zaclr_frame_destroy] of a frame that was just created, before the error [r] is
    reported. *)
Definition destroy_child {A} (child : zaclr_frame) (r : zaclr_result) : creation K A := fun s =>
  match zaclr_frame_destroy (cs_store s) child with
  | Ret st => (Err r, mk_create st (cs_next_frame_id s))
  | Err r => (Err r, s)
  | Fault => (Fault, s)
  | NoFuel => (NoFuel, s)
  end.

(** ** The generic arguments of a call *)

Context (resolve_type_desc : Z -> zaclr_token -> outcome Z).

(** [zaclr_generic_context_reset] of a local context. *)
Definition reset_context (c : GenericContext.zaclr_generic_context) (k : K) : outcome K :=
  '(k, _) ← GenericContext.zaclr_generic_context_reset k c; Ret k.

(** The method arguments in the blob, under the generic context of the caller, become
    those of [child].  Both temporary contexts are released at the end. *)
Definition instantiate_child (current_assembly : Z) (blob : zaclr_slice) (caller child : GenericContext.zaclr_generic_context) (k : K)
  : outcome unit * (GenericContext.zaclr_generic_context * K) :=
  let '(o, (methodspec_context, k)) :=
    GenericContext.zaclr_generic_context_set_method_instantiation resolve_type_desc m current_assembly k GenericContext.empty_context blob in
  let '(o, (concrete_context, k)) :=
    match o with
    | Ret _ =>
      GenericContext.zaclr_generic_context_substitute_method_args k GenericContext.empty_context (Some methodspec_context) (Some caller)
    | o => (o, (GenericContext.empty_context, k))
    end in
  let '(o, (child, k)) :=
    match o with
    | Ret _ => GenericContext.zaclr_generic_context_assign_method_args k child (Some concrete_context)
    | o => (o, (child, k))
    end in
  match (k ← reset_context concrete_context k; reset_context methodspec_context k) with
  | Ret k => (o, (child, k))
  | Err r => (Err r, (child, k))
  | Fault => (Fault, (child, k))
  | NoFuel => (NoFuel, (child, k))
  end.

Definition instantiation_error (r : zaclr_result) : zaclr_result :=
  if bool_decide (status r = ZACLR_STATUS_NOT_IMPLEMENTED) then exec_error ZACLR_STATUS_NOT_IMPLEMENTED else r.

Definition give_arguments (current_assembly : Z) (instantiation : option zaclr_slice) (frame child : zaclr_frame) : creation K zaclr_frame :=
  match instantiation with
  | None => mret child
  | Some blob => fun s =>
    let '(o, (c, k)) := instantiate_child current_assembly blob (generic_context frame) (generic_context child) (cs_store s).1 in
    let child := set_generic_context c child in
    match o with
    | Ret _ => (Ret child, set_store k s)
    | Err r => destroy_child child (instantiation_error r) (set_store k s)
    | Fault => (Fault, set_store k s)
    | NoFuel => (NoFuel, set_store k s)
    end
  end.

(** ** The entry of a method *)

(** The caller [frame] enters [method]: the frame of the callee, and the caller without
    the arguments.  A failed binding has taken arguments off the stack of the caller. *)
Definition enter_method (current_assembly : Z) (target_assembly : zaclr_loaded_assembly) (method : zaclr_method_desc)
    (instantiation : option zaclr_slice) (frame : zaclr_frame) : create_state K -> outcome zaclr_frame * (zaclr_frame * create_state K) := fun s =>
  match ('(_, child) ← zaclr_frame_create_child m target_assembly (Some frame) method;
         give_arguments current_assembly instantiation frame child) s with
  | (Ret child, s) =>
    let '(o, (child, stack)) := zaclr_frame_bind_arguments child (Some frame) (eval_stack frame) in
    let frame := set_eval_stack stack frame in
    match o with
    | Ret _ => (Ret child, (frame, s))
    | Err r => let '(o, s) := destroy_child child r s in (o, (frame, s))
    | Fault => (Fault, (frame, s))
    | NoFuel => (NoFuel, (frame, s))
    end
  | (Err r, s) => (Err r, (frame, s))
  | (Fault, s) => (Fault, (frame, s))
  | (NoFuel, s) => (NoFuel, (frame, s))
  end.

(** ** The entry points of the engine *)

Context `{OpcodeTable} (x86_64 : bool) (matches : Z -> Z -> bool) (new_exception : store K -> outcome Z * store K).
Context (uninit : zaclr_stack_value) (constructed : zaclr_frame -> option (Z * option (list byte) * Z)).
Context (other_instruction : Z -> engine_state K -> outcome unit * engine_state K).

Definition zaclr_engine_initialize (s : store K) : create_state K := mk_create s 1.

(** The loop from [frame], with the exception of the thread. *)
Definition execute_frame (fuel : nat) (frame : zaclr_frame) (exception : Z) (s : create_state K) : outcome unit * (Z * create_state K) :=
  let '(o, e) := zaclr_engine_execute_frame_loop x86_64 matches new_exception uninit constructed other_instruction fuel
                   (mk_engine (cs_store s) [frame] exception) in
  (o, (en_exception e, mk_create (en_store e) (cs_next_frame_id s))).

(** [prepare] makes the frame that is run. *)
Definition execute_with (fuel : nat) (prepare : creation K zaclr_frame) (exception : Z) (s : create_state K) : outcome unit * (Z * create_state K) :=
  match prepare s with
  | (Ret frame, s) => execute_frame fuel frame exception s
  | (Err r, s) => (Err r, (exception, s))
  | (Fault, s) => (Fault, (exception, s))
  | (NoFuel, s) => (NoFuel, (exception, s))
  end.

Definition zaclr_engine_execute_method (fuel : nat) (assembly : zaclr_loaded_assembly) (method : zaclr_method_desc)
  : Z -> create_state K -> outcome unit * (Z * create_state K) :=
  execute_with fuel ('(_, frame) ← zaclr_frame_create_child m assembly None method; mret frame).

(** The type arguments of [type_context] replace the empty context of the frame. *)
Definition give_type_context (type_context : option GenericContext.zaclr_generic_context) (frame : zaclr_frame) : creation K zaclr_frame := fun s =>
  match type_context with
  | Some c =>
    if 0 <? GenericContext.type_arg_count c then
      let '(o, (c, k)) := GenericContext.zaclr_generic_context_clone (cs_store s).1 (generic_context frame) (Some c) in
      let frame := set_generic_context c frame in
      match o with
      | Ret _ => (Ret frame, set_store k s)
      | Err r => destroy_child frame r (set_store k s)
      | Fault => (Fault, set_store k s)
      | NoFuel => (NoFuel, set_store k s)
      end
    else (Ret frame, s)
  | None => (Ret frame, s)
  end.

Definition zaclr_engine_execute_method_with_type_context (fuel : nat) (assembly : zaclr_loaded_assembly) (method : zaclr_method_desc)
    (type_context : option GenericContext.zaclr_generic_context) : Z -> create_state K -> outcome unit * (Z * create_state K) :=
  execute_with fuel ('(_, frame) ← zaclr_frame_create_child m assembly None method; give_type_context type_context frame).

Definition k_has_this_calling_convention : Z := 0x20.

(** The first argument becomes the object; its other members stay cleared. *)
Definition give_instance (instance : Z) (frame : zaclr_frame) : creation K zaclr_frame :=
  match arguments frame with
  | [] => destroy_child frame (exec_error ZACLR_STATUS_BAD_METADATA)
  | this :: args =>
    if arguments_ptr frame =? 0 then destroy_child frame (exec_error ZACLR_STATUS_BAD_METADATA)
    else mret (set_arguments (mk_value ZACLR_STACK_VALUE_OBJECT_REFERENCE (sv_reserved this) (sv_payload_size this) (sv_type_token_raw this)
                                (sv_flags this) (sv_extra this) (DWord instance) :: args) frame)
  end.

Definition zaclr_engine_execute_instance_method (fuel : nat) (assembly : zaclr_loaded_assembly) (method : zaclr_method_desc) (instance : Z)
  : Z -> create_state K -> outcome unit * (Z * create_state K) := fun exception s =>
  if instance =? 0 then (Err (exec_error ZACLR_STATUS_INVALID_ARGUMENT), (exception, s))
  else if negb (flag_set (calling_convention (md_signature method)) k_has_this_calling_convention)
  then (Err (exec_error ZACLR_STATUS_INVALID_ARGUMENT), (exception, s))
  else execute_with fuel ('(_, frame) ← zaclr_frame_create_child m assembly None method; give_instance instance frame) exception s.

(** What a launch changes of the runtime and of its thread. *)
Record zaclr_launch := mk_launch { ln_thread : zaclr_thread; ln_runtime_flags : Z; ln_boot_completed_method_id : Z }.

Definition ZACLR_RUNTIME_STATE_FLAG_BOOT_EXECUTED : Z := 0x1.
Definition ZACLR_RUNTIME_STATE_FLAG_BOOT_COMPLETED : Z := 0x2.
Definition ZACLR_THREAD_STATE_STOPPED : Z := 5.

Definition zaclr_engine_execute_launch (fuel : nat) (assembly : zaclr_loaded_assembly) (entry_method : zaclr_method_desc)
    (launch : zaclr_launch) (exception : Z) (s : create_state K) : outcome unit * (zaclr_launch * (Z * create_state K)) :=
  let '(o, (thread, s)) := zaclr_frame_create_root m assembly entry_method (ln_thread launch) s in
  match o with
  | Ret frame =>
    let flags := Z.lor (ln_runtime_flags launch) ZACLR_RUNTIME_STATE_FLAG_BOOT_EXECUTED in
    let '(o, r) := execute_frame fuel frame exception s in
    match o with
    | Ret _ => (Ret (), (mk_launch (mk_thread ZACLR_THREAD_STATE_STOPPED 0) (Z.lor flags ZACLR_RUNTIME_STATE_FLAG_BOOT_COMPLETED)
                           (md_id entry_method), r))
    | o => (o, (mk_launch thread flags (ln_boot_completed_method_id launch), r))
    end
  | Err r => (Err r, (mk_launch thread (ln_runtime_flags launch) (ln_boot_completed_method_id launch), (exception, s)))
  | Fault => (Fault, (mk_launch thread (ln_runtime_flags launch) (ln_boot_completed_method_id launch), (exception, s)))
  | NoFuel => (NoFuel, (mk_launch thread (ln_runtime_flags launch) (ln_boot_completed_method_id launch), (exception, s)))
  end.

End calls.

End Call.
