(* ===== verification/CallCorrect.v ===== *)
(** * Calls are correct

    A method of an image, called with arguments on the evaluation stack of its caller,
    computes what its body means and leaves nothing behind: the composition of the
    creation of frames, the binding of arguments, the engine and the return. *)

From Stdlib Require Import Strings.Byte.
From S2P Require Import Prelude Status Bytes Token Signature MetadataTables MetadataReader PeImage MethodMap.
From S2P Require Import KernelHeap EvalStack ManagedObject Gc GenericContext GenericCorrect GenericTheorems.
From S2P Require Import Opcode Frame Arith Exceptions Dispatch DispatchSafe Program FrameCreate FrameCorrect Call.

Module CallCorrect.
Import Opcode Frame Arith Dispatch DispatchSafe Program FrameCreate GenericCorrect FrameCorrect Call.

(** ** Arguments *)

Definition pushes (st : zaclr_eval_stack) (l : list zaclr_stack_value) : zaclr_eval_stack := fold_left pushed l st.

Lemma room_pushes st l n : 0 <= n -> room st (zlength l + n) -> room (pushes st l) n.
Proof.
  intros Hn. revert st. induction l as [|v l IH]; intros st Hr; [exact Hr|]. rewrite zlength_cons in Hr. pose proof (zlength_nonneg l).
  apply (IH (pushed st v)). apply room_pushed; [lia|]. by replace (1 + (zlength l + n)) with (1 + zlength l + n) by lia.
Qed.

Lemma pushes_snoc st l v : pushes st (l ++ [v]) = pushed (pushes st l) v.
Proof. unfold pushes. by rewrite fold_left_app. Qed.

Lemma pushes_depth st l : es_depth (pushes st l) = es_depth st + zlength l.
Proof.
  revert st. induction l as [|v l IH]; intros st; [unfold zlength; simpl; lia|]. change (pushes st (v :: l)) with (pushes (pushed st v) l).
  rewrite IH, zlength_cons. simpl. lia.
Qed.

Lemma drop_set {A} (l : list A) n x : (n < length l)%nat -> drop n (set l (Z.of_nat n) x) = x :: drop (S n) l.
Proof.
  intros Hn. unfold set. destruct (Z.ltb_spec (Z.of_nat n) 0); [lia|]. rewrite Nat2Z.id, insert_take_drop by done.
  rewrite drop_app_length'; [done|]. rewrite length_take. lia.
Qed.

(** A value the caller may pass as it is. *)
Definition plain (v : zaclr_stack_value) : Prop := sv_kind v <> ZACLR_STACK_VALUE_LOCAL_ADDRESS.

Lemma bind_loop_spec parent l : Forall plain l -> forall a st, room st (zlength l) -> (length l <= length a)%nat ->
  bind_loop parent (length l) a (pushes st l) = (Ret (), (l ++ drop (length l) a, st)).
Proof.
  induction l as [|v l IH] using rev_ind; intros Hl a st Hr Ha; [done|]. apply Forall_app in Hl as [Hl Hv]. rewrite Forall_singleton in Hv.
  rewrite zlength_app in Hr. change (zlength [v]) with 1 in Hr. rewrite length_app, Nat.add_1_r in *. rewrite pushes_snoc. cbn [bind_loop].
  rewrite pop_pushed by (apply room_pushes; [lia|done]). unfold relocate_argument. rewrite (proj2 (Z.eqb_neq _ _) Hv).
  rewrite IH; [|done|eapply room_weaken; [|exact Hr]; lia|].
  - rewrite drop_set by lia. by rewrite <- app_assoc.
  - unfold set. case_if; [lia|]. rewrite length_insert. lia.
Qed.

Lemma bind_spec frame parent l st : Forall plain l -> zlength (arguments frame) = zlength l -> room st (zlength l) ->
  zaclr_frame_bind_arguments frame parent (pushes st l) = (Ret (), (set_arguments l frame, st)).
Proof.
  intros Hl Ha Hr. unfold zaclr_frame_bind_arguments. rewrite pushes_depth. destruct Hr as (H1 & H2 & H3).
  rewrite (proj2 (Z.ltb_ge _ _)) by lia. assert (length (arguments frame) = length l) as E by (unfold zlength in Ha; lia).
  rewrite E, bind_loop_spec by (done || lia). by rewrite drop_ge, app_nil_r by lia.
Qed.

(** ** Frames *)

Lemma fresh_stack_ok {K} `{KernelHeapLaws K} (s : store K) capacity e : fresh_stack capacity e -> 0 <= capacity < 2 ^ 32 ->
  (capacity <> 0 -> es_buffer e ∈ live s.1) -> stack_ok s e.
Proof.
  intros [He Hb] Hc Hl. rewrite He. destruct e as [buf vals d cap]. cbn in *. split; cbn; try done; try lia.
  - unfold zlength. rewrite length_replicate. lia.
  - intros i v _ Hv. by apply get_replicate in Hv.
  - intros i v Hv. apply get_replicate in Hv as ->. apply zero_value_ok.
  - intros i j v w q Hv Hw Hq. by apply get_replicate in Hv as ->.
  - intros Hne. split; [tauto|]. split; [by apply Hl|]. intros i v Hv. by apply get_replicate in Hv as ->.
Qed.

Lemma fresh_stack_room capacity e n : fresh_stack capacity e -> 0 <= capacity < 2 ^ 32 -> n <= capacity -> room e n.
Proof.
  intros [He _] Hc Hn. rewrite He. split; [done|]. split; [cbn; lia|]. intros i Hi. cbn. unfold get. case_if; [lia|].
  apply lookup_replicate. split; [done|lia].
Qed.

Lemma block_live p (X : gset Z) : p <> 0 -> list_to_set (block p) ⊆ X -> p ∈ X.
Proof. intros Hp. unfold block. rewrite (proj2 (Z.eqb_neq p 0)) by done. set_solver. Qed.

Lemma zero_owns n p : ~ owns (replicate n zero_value) p.
Proof. intros (i & v & Hi & Hp). by apply get_replicate in Hi as ->. Qed.

Lemma created_ok {K} `{KernelHeapLaws K} (s s' : store K) b args n c returns f : body_ok b -> created b args n c returns f ->
  fresh_blocks s.1 (frame_blocks f) s'.1 -> frame_ok s' f.
Proof.
  intros Hb [A1 A2 A3 A4 A5 A6 A7 A8 A9 A10 A11 A12] [_ _ L]. pose proof (body_stack_range b Hb) as Hm.
  assert (slots f = replicate (Z.to_nat n + Z.to_nat args) zero_value) as Es by (unfold slots; by rewrite A5, A6, replicate_add).
  split; rewrite ?Es.
  - eapply fresh_stack_ok; [exact A9|lia|]. intros Hc. apply block_live; [by destruct A9 as [_ ?]; naive_solver|].
    rewrite L. unfold frame_blocks. rewrite !list_to_set_app_L. set_solver.
  - destruct A9 as [-> _]. cbn. apply Forall_replicate, typed_zero.
  - apply Forall_replicate. split; [apply zero_value_ok|apply typed_zero].
  - intros i j v w p Hi Hj Hv Hw. by apply get_replicate in Hi as ->.
  - intros p Hp. by apply zero_owns in Hp.
  - by rewrite A4.
Qed.

(** ** What a frame gives back *)

Lemma elem_of_block p x : x <> 0 -> x ∈ block p <-> x = p.
Proof. intros Hx. unfold block. destruct (Z.eqb_spec p 0) as [->|]; set_unfold; tauto. Qed.

Lemma buffers_blocks f x : x <> 0 -> x ∈ frame_buffers f <-> x ∈ frame_blocks f.
Proof.
  intros Hx. unfold frame_buffers, frame_blocks. rewrite !elem_of_app, !elem_of_union, !elem_of_singleton, elem_of_list_to_set, list_elem_of_singleton.
  rewrite !elem_of_block by done. tauto.
Qed.

Lemma released {K} `{KernelHeapLaws K} (k k1 k2 : K) f : fresh_blocks k (frame_blocks f) k1 ->
  live k2 = live k1 ∖ frame_buffers f -> live k2 = live k.
Proof.
  intros [_ F L] L2. pose proof (null_not_live k) as H0'. pose proof (null_not_live k2) as H02. apply set_eq. intros x.
  destruct (decide (x = 0)) as [->|Hx]; [done|]. rewrite L2, L. specialize (F x). pose proof (buffers_blocks f x Hx) as E.
  rewrite elem_of_difference, elem_of_union, elem_of_list_to_set. tauto.
Qed.

(** ** Programs in method bodies *)

(** [method] is in the image, with the body that computes [c; return e]. *)
Record program_method `{OpcodeTable} (m : memory) (assembly : zaclr_loaded_assembly) (method : zaclr_method_desc) (c : cmd) (e : expr)
    (params : Z) (n : Z) : Prop := {
  pm_body : exists b, method_in_image m assembly method b n /\ body_code b = compile_method c e /\ zlength (body_code b) < 2 ^ 31 /\
    Z.max (cmd_depth c) (expr_depth e) <= body_max_stack b;
  pm_program : cmd_ok c = true /\ expr_ok e = true;
  pm_params : argument_count method = params;
  pm_returns : method_returns_value method = true }.

Definition no_locals (n : Z) : list (option Z) := replicate (Z.to_nat n) None.

Lemma created_method_frame `{OpcodeTable} b n ctx f c e args : created b (zlength args) n ctx true f -> body_ok b ->
  body_code b = compile_method c e -> zlength (body_code b) < 2 ^ 31 -> Z.max (cmd_depth c) (expr_depth e) <= body_max_stack b ->
  cmd_ok c = true -> expr_ok e = true -> Forall (in_int 32) args ->
  method_frame (set_arguments (value_of_i4 <$> args) f) args (no_locals n) c e.
Proof.
  intros [A1 A2 A3 A4 A5 A6 A7 A8 A9 A10 A11 A12] Hb Hcode Hlen Hmax Hc He Hargs. pose proof (body_stack_range b Hb). rewrite Hcode in *.
  split; cbn; try done.
  - by rewrite A2.
  - split; [rewrite A6; unfold no_locals; by rewrite fmap_replicate|]. by apply Forall_replicate.
  - apply A10.
  - eapply fresh_stack_room; [exact A9|lia|done].
  - destruct A9 as [-> _]. cbn. by apply Forall_replicate.
Qed.

Section running.
Context {K : Type} `{KernelHeapLaws K} `{OpcodeTableLaws} (x86_64 : bool) (matches : Z -> Z -> bool).
Context (new_exception : store K -> outcome Z * store K) (uninit : zaclr_stack_value) (Huninit : owned_buffer uninit = None).
Context (constructed : zaclr_frame -> option (Z * option (list byte) * Z)).
Context (other_instruction : Z -> engine_state K -> outcome unit * engine_state K).
Context (m : memory) (assembly : zaclr_loaded_assembly) (method : zaclr_method_desc) (c : cmd) (e : expr).

Abbreviation loop := (zaclr_engine_execute_frame_loop x86_64 matches new_exception uninit constructed other_instruction).

Lemma create_program parent params n (s : create_state K) : program_method m assembly method c e params n -> context_ok (inherited parent) ->
  match zaclr_frame_create_child m assembly parent method s with
  | (Ret (_, f), s1) => zlength (arguments f) = params /\ fresh_blocks (cs_store s).1 (frame_blocks f) (cs_store s1).1 /\
      (cs_store s1).2 = (cs_store s).2 /\
      forall args, zlength args = params -> Forall (in_int 32) args -> method_frame (set_arguments (value_of_i4 <$> args) f) args (no_locals n) c e
  | (Err r, s1) => status r = ZACLR_STATUS_OUT_OF_MEMORY /\ live (cs_store s).1 ⊆ live (cs_store s1).1 /\ (cs_store s1).2 = (cs_store s).2
  | _ => False
  end.
Proof.
  intros [(b & Hi & Hcode & Hlen & Hmax) [Hc He] Hp Hret] Hctx. pose proof (create_allocates (K := K) m assembly parent method b n Hi Hctx s) as Ha.
  unfold zaclr_frame_create_child. destruct (initialize_frame_common m assembly parent method s) as [[[id f]|r| |] s1]; try done.
  destruct Ha as (bs & [Hcr ->] & Hf & Hm). rewrite Hp, Hret in Hcr. split; [|split; [done|split; [done|]]].
  - rewrite (cr_arguments _ _ _ _ _ _ Hcr). unfold zlength. rewrite length_replicate. destruct Hi as [_ Hr _ _ _]. lia.
  - intros args <- Hargs. eapply created_method_frame; try done. apply Hi.
Qed.

(** The caller enters the method and gets its value back. *)
Lemma call_runs resolve current n frame st args frames ex env' v (s : create_state K) :
  program_method m assembly method c e (zlength args) n -> context_ok (generic_context frame) ->
  eval_stack frame = pushes st (value_of_i4 <$> args) -> room st (Z.max 1 (zlength args)) -> Forall (in_int 32) args ->
  runs args (no_locals n) c env' -> eval args env' e = Some v ->
  match enter_method m resolve current assembly method None frame s with
  | (Ret callee, (caller, s1)) =>
    caller = set_eval_stack st frame /\
    exists k s', live s'.1 = live (cs_store s).1 /\ s'.2 = (cs_store s).2 /\
      forall fuel, loop (k + fuel) (mk_engine (cs_store s1) (callee :: caller :: frames) ex) =
                   loop fuel (mk_engine s' (set_eval_stack (pushed st (value_of_i4 v)) frame :: frames) ex)
  | (Err r, (caller, s1)) => status r = ZACLR_STATUS_OUT_OF_MEMORY /\ caller = frame /\ live (cs_store s).1 ⊆ live (cs_store s1).1
  | _ => False
  end.
Proof.
  intros Hm Hctx Hst Hroom Hargs Hrun Hv. unfold enter_method, give_arguments, mbind, creation_bind.
  pose proof (create_program (Some frame) _ n s Hm Hctx) as Hc.
  destruct (zaclr_frame_create_child m assembly (Some frame) method s) as [[[id f]|r| |] s1]; try done; [|by destruct Hc as (? & ? & ?)].
  destruct Hc as (Hlen & Hf & Hmap & Hframe). cbn -[zaclr_frame_bind_arguments]. rewrite Hst.
  rewrite bind_spec with (l := value_of_i4 <$> args).
  2: { apply Forall_fmap, Forall_true. done. }
  2: { rewrite Hlen. unfold zlength. by rewrite length_fmap. }
  2: { eapply room_weaken; [|exact Hroom]. unfold zlength. rewrite length_fmap. fold (zlength args). lia. }
  split; [done|].
  destruct (engine_runs x86_64 matches new_exception uninit constructed other_instruction (cs_store s1)
    (set_arguments (value_of_i4 <$> args) f) (set_eval_stack st frame) frames ex args (no_locals n) env' c e v Huninit)
    as (k & s' & HL & HM & Hk); try done; [by apply Hframe|eapply room_weaken; [|exact Hroom]; lia|].
  exists k, s'. split; [|split; [by rewrite HM|exact Hk]]. by eapply released.
Qed.

(** A root frame runs to the end of its method. *)
Lemma root_runs n (s s1 : create_state K) f ex env' v :
  fresh_blocks (cs_store s).1 (frame_blocks f) (cs_store s1).1 -> arguments f = [] ->
  method_frame (set_arguments (value_of_i4 <$> []) f) [] (no_locals n) c e -> runs [] (no_locals n) c env' -> eval [] env' e = Some v ->
  exists k s', live s'.1 = live (cs_store s).1 /\ s'.2 = (cs_store s1).2 /\
    forall fuel, execute_frame x86_64 matches new_exception uninit constructed other_instruction (k + fuel) f ex s1 =
                 (Ret (), (ex, mk_create s' (cs_next_frame_id s1))).
Proof.
  intros Hf Ha Hframe Hrun Hv. assert (set_arguments (value_of_i4 <$> []) f = f) as E by (destruct f; cbn in *; by subst). rewrite E in Hframe.
  destruct (engine_runs_root x86_64 matches new_exception uninit constructed other_instruction (cs_store s1) f ex [] (no_locals n) env' c e v
    Huninit Hframe Hrun Hv) as (k & s' & HL & HM & Hk).
  exists k, s'. split; [by eapply released|]. split; [done|]. intros fuel. unfold execute_frame. by rewrite Hk.
Qed.

End running.

(** ** Generic arguments of a call *)

Section generic.
Context {K : Type} `{KernelHeapLaws K} (resolve : Z -> zaclr_token -> outcome Z) (resolved : zaclr_token -> Z) (m : memory).
Context (blob : zaclr_slice) (d current : Z) (l : list sig_type).

Lemma tree_proper t : supported t = true -> proper (tree_of current resolved t).
Proof.
  revert t. fix IH 1. intros t. destruct t as [e|vt coded|mv i| | |vt coded args| |]; try done; cbn [supported tree_of proper]; intros Ht;
    try (by split; [right|]).
  split; [by left|]. apply fold_right_Forall. rewrite !andb_true_iff in Ht. destruct Ht as [_ Ht]. clear vt coded.
  induction args as [|a args IHa]; [constructor|]. cbn [forallb] in Ht. apply andb_true_iff in Ht as [Ha Ht]. constructor; [by apply IH|by apply IHa].
Qed.

Lemma reset_context_spec c (k : K) : context_ok c -> exists k', reset_context c k = Ret k' /\ live k' = live k ∖ list_to_set (context_buffers c).
Proof. intros Hc. unfold reset_context. destruct (context_reset_spec k c Hc) as (k' & E & L). rewrite E, Ret_bind. by exists k'. Qed.

(** Both temporary contexts are released. *)
Lemma reset_both c1 c2 (k : K) : context_ok c1 -> context_ok c2 ->
  exists k', (k ← reset_context c1 k; reset_context c2 k) = Ret k' /\
    live k' = live k ∖ list_to_set (context_buffers c1) ∖ list_to_set (context_buffers c2).
Proof.
  intros H1 H2. destruct (reset_context_spec c1 k H1) as (k1 & E1 & L1). destruct (reset_context_spec c2 k1 H2) as (k2 & E2 & L2).
  exists k2. rewrite E1, Ret_bind. split; [done|]. by rewrite L2, L1.
Qed.

Lemma empty_buffers : context_buffers GenericContext.empty_context = [].
Proof. done. Qed.

Hypothesis Hresolve : forall assembly token, safe (resolve assembly token).
Hypothesis Hresolved : forall token, GenericContext.resolve_argument_assembly resolve current token = Ret (resolved token).
Hypothesis Hblob : blob_ok m blob.
Hypothesis Hd : sl_data blob = Some d.
Hypothesis Hl : forallb supported l = true.
Hypothesis Hu : is_uint29 (zlength l) = true.
Hypothesis Hs : seg m d (encode_instantiation l).
Hypothesis Hz : sl_size blob = zlength (encode_instantiation l).

(** The method arguments in the blob. *)
Lemma methodspec_spec (k : K) :
  match GenericContext.zaclr_generic_context_set_method_instantiation resolve m current k GenericContext.empty_context blob with
  | (Ret _, (c, k')) =>
    context_ok c /\ GenericTheorems.proper_context c /\ map erase (GenericContext.method_contents c) = map (tree_of current resolved) l /\
    fresh_blocks k (context_buffers c) k'
  | (Err r, (c, k')) => r = GenericContext.out_of_memory /\ c = GenericContext.empty_context /\ live k ⊆ live k'
  | _ => False
  end.
Proof.
  pose proof (parse_spec resolve Hresolve m blob Hblob current k) as Hp.
  pose proof (parse_encoded resolve Hresolve m blob Hblob current resolved Hresolved d Hd k l Hl Hu Hs Hz) as He.
  unfold GenericContext.zaclr_generic_context_set_method_instantiation.
  destruct (GenericContext.parse_instantiation_arguments resolve m current k blob) as [[[]|r| |] [[[count q] l'] k1]]; try done.
  2: { by destruct Hp as [_ Hp]. }
  destruct Hp as [Ha Hf]. destruct He as [_ He]. split; [by split; [apply empty_ok|]|]. split; [|by split; [|exact Hf]].
  split; [constructor|]. cbn. rewrite Forall_forall. intros a Hin. apply GenericTheorems.proper_erase.
  assert (erase a ∈ map (tree_of current resolved) l) as Ht by (rewrite <- He; by apply list_elem_of_fmap_2).
  apply list_elem_of_In, in_map_iff in Ht as (t & <- & Ht). apply tree_proper. rewrite forallb_forall in Hl. by apply Hl.
Qed.

(** The child gets the arguments of the call under the context of the caller; whatever
    happens, no buffer of the caller, of the child or of anybody else is lost, and a
    success leaves no temporary buffer. *)
Lemma instantiate_child_spec caller child (k : K) : context_ok caller -> context_ok child ->
  match instantiate_child m resolve current blob caller child k with
  | (Ret _, (c, k')) =>
    context_ok c /\ typed_array c = typed_array child /\
    map erase (GenericContext.method_contents c) = map (instantiate (erase_context caller)) (map (tree_of current resolved) l) /\
    let old := array_buffers (GenericContext.method_args child) (GenericContext.method_contents child) in
    let new := array_buffers (GenericContext.method_args c) (GenericContext.method_contents c) in
    NoDup new /\ (forall p, p ∈ new -> p ∉ live k) /\
    ((forall p, p ∈ old -> p ∈ live k) -> live k' = (list_to_set new ∪ live k) ∖ list_to_set old)
  | (Err r, (c, k')) => r = GenericContext.out_of_memory /\ c = child /\ live k ⊆ live k'
  | _ => False
  end.
Proof.
  intros Hcaller Hchild. unfold instantiate_child. pose proof (methodspec_spec k) as Hm.
  destruct (GenericContext.zaclr_generic_context_set_method_instantiation _ _ _ k _ _) as [[[]|r| |] [c1 k1]]; try done.
  2: { destruct Hm as (-> & -> & Hk). destruct (reset_both GenericContext.empty_context GenericContext.empty_context k1 empty_ok empty_ok) as (k' & E & L).
       rewrite E. split; [done|]. split; [done|]. rewrite L. set_solver. }
  destruct Hm as (Ok1 & Pr1 & Er1 & [_ F1 L1]).
  pose proof (GenericTheorems.substitute_method_spec k1 GenericContext.empty_context (Some c1) (Some caller) empty_ok) as Hsub.
  unfold GenericTheorems.substitute_post in Hsub. rewrite empty_buffers in Hsub. change (list_to_set (@nil Z)) with (∅ : gset Z) in Hsub.
  rewrite difference_empty_L in Hsub. specialize (Hsub ltac:(by intros ? [= <-]) ltac:(by intros ? [= <-]) ltac:(by intros ? [= <-])).
  destruct (GenericContext.zaclr_generic_context_substitute_method_args k1 _ _ _) as [[[]|r| |] [c2 k2]]; try done.
  2: { destruct Hsub as (-> & -> & L2). destruct (reset_both GenericContext.empty_context c1 k2 empty_ok Ok1) as (k' & E & L).
       rewrite E. split; [done|]. split; [done|]. rewrite L, L2, L1. intros x Hx. specialize (F1 x). set_solver. }
  destruct Hsub as (Ok2 & Er2 & _ & F2 & L2).
  pose proof (assign_method_spec k2 child (Some c2) Hchild ltac:(by intros ? [= <-])) as Has. unfold assign_post in Has.
  destruct (GenericContext.zaclr_generic_context_assign_method_args k2 child (Some c2)) as [[[]|r| |] [c3 k3]]; try done.
  - cbn [methods_array GenericContext.method_array snd] in Has. destruct Has as (Ok3 & Ot3 & Er3 & Nd3 & F3 & L3).
    destruct (reset_both c2 c1 k3 Ok2 Ok1) as (k' & E & L). rewrite E. split; [done|]. split; [done|]. split.
    + rewrite Er3. injection Er2 as _ ->. cbn [env_of erase_context snd]. by rewrite Er1.
    + split; [done|]. split; [intros p Hp Hin; apply (F3 p Hp); rewrite L2, L1; set_solver|]. intros Hold. rewrite L, L3. apply set_eq. intros x.
      specialize (F3 x). specialize (F2 x). specialize (F1 x). specialize (Hold x). rewrite L2, L1 in F3. rewrite L1 in F2. rewrite L2, L1.
      rewrite !elem_of_difference, !elem_of_union, !elem_of_list_to_set in *.
      destruct (decide (x ∈ context_buffers c1)), (decide (x ∈ context_buffers c2)), (decide (x ∈ live k)); naive_solver.
  - destruct Has as (-> & -> & L3). destruct (reset_both c2 c1 k3 Ok2 Ok1) as (k' & E & L). rewrite E. split; [done|]. split; [done|].
    rewrite L, L3, L2, L1. intros x Hx. specialize (F1 x). specialize (F2 x). rewrite L1 in F2. set_solver.
Qed.

End generic.

(** ** The theorems *)

(** C6: [zaclr_frame_create_child] and [zaclr_frame_create_root] invert the encoding of
    method bodies: from a body in the image (tiny, or fat with a signature of its locals
    and with exception clauses in the small or the fat format) they build the frame with
    exactly its instructions, stack depth, clauses and cleared arguments and locals, a
    copy of the caller's generic context, and blocks that are fresh and pairwise
    distinct; the frame satisfies the invariant of the interpreter.  The only failure is
    exhausted memory, and it frees nothing that was live. *)
Theorem frame_create_correct {K} `{KernelHeapLaws K} m assembly parent method b n (s : create_state K) :
  method_in_image m assembly method b n -> context_ok (inherited parent) ->
  match zaclr_frame_create_child m assembly parent method s with
  | (Ret (_, f), s') =>
    created b (argument_count method) n (inherited parent) (method_returns_value method) f /\ frame_ok (cs_store s') f /\
    fresh_blocks (cs_store s).1 (frame_blocks f) (cs_store s').1 /\ (cs_store s').2 = (cs_store s).2
  | (Err r, s') => status r = ZACLR_STATUS_OUT_OF_MEMORY /\ live (cs_store s).1 ⊆ live (cs_store s').1 /\ (cs_store s').2 = (cs_store s).2
  | _ => False
  end.
Proof.
  intros Hi Hc. pose proof (create_allocates (K := K) m assembly parent method b n Hi Hc s) as Ha. unfold zaclr_frame_create_child.
  destruct (initialize_frame_common m assembly parent method s) as [[[id f]|r| |] s1]; try done.
  destruct Ha as (bs & [Hcr ->] & Hf & Hm). split; [done|]. split; [|done]. eapply created_ok; [apply Hi|done|exact Hf].
Qed.

(** C20: [zaclr_frame_bind_arguments]: with fewer values on the caller's stack than the
    method has arguments it reports DISPATCH_ERROR and changes nothing; otherwise the
    top values become the arguments, the deepest first, and leave the stack as it was
    before they were pushed. *)
Theorem bind_arguments_correct frame parent st l :
  (es_depth st < zlength (arguments frame) ->
   zaclr_frame_bind_arguments frame parent st = (Err (exec_error ZACLR_STATUS_DISPATCH_ERROR), (frame, st))) /\
  (Forall plain l -> zlength (arguments frame) = zlength l -> room st (zlength l) ->
   zaclr_frame_bind_arguments frame parent (pushes st l) = (Ret (), (set_arguments l frame, st))).
Proof.
  split; [|apply bind_spec]. intros Hd. unfold zaclr_frame_bind_arguments. by rewrite (proj2 (Z.ltb_lt _ _) Hd).
Qed.

(** C3: A call computes what the method means.  The caller has 32-bit arguments on its
    evaluation stack; the callee's body in the image is that of a structured program.
    Entering the method takes the arguments off the caller's stack, and finitely many
    instructions later the engine is back in the caller with the value of the program
    under these arguments (and unassigned locals) pushed, nothing else of the caller
    changed, and exactly the blocks live that were live before the call.  If memory runs
    out on entry, the caller is as it was and no live block is freed.  The variables that
    the dispatcher does not initialise before a peek are assumed not to look like the
    owner of a buffer ([uninit]). *)
Theorem method_call_correct {K} `{KernelHeapLaws K} `{OpcodeTableLaws} (x86_64 : bool) (matches : Z -> Z -> bool)
    (new_exception : store K -> outcome Z * store K) (uninit : zaclr_stack_value)
    (constructed : zaclr_frame -> option (Z * option (list byte) * Z))
    (other_instruction : Z -> engine_state K -> outcome unit * engine_state K)
    m assembly method c e resolve current n frame st args frames ex env' v (s : create_state K) :
  owned_buffer uninit = None -> program_method m assembly method c e (zlength args) n -> context_ok (generic_context frame) ->
  eval_stack frame = pushes st (value_of_i4 <$> args) -> room st (Z.max 1 (zlength args)) -> Forall (in_int 32) args ->
  runs args (no_locals n) c env' -> eval args env' e = Some v ->
  match enter_method m resolve current assembly method None frame s with
  | (Ret callee, (caller, s1)) =>
    caller = set_eval_stack st frame /\
    exists k s', live s'.1 = live (cs_store s).1 /\ s'.2 = (cs_store s).2 /\
      forall fuel,
        zaclr_engine_execute_frame_loop x86_64 matches new_exception uninit constructed other_instruction (k + fuel)
          (mk_engine (cs_store s1) (callee :: caller :: frames) ex) =
        zaclr_engine_execute_frame_loop x86_64 matches new_exception uninit constructed other_instruction fuel
          (mk_engine s' (set_eval_stack (pushed st (value_of_i4 v)) frame :: frames) ex)
  | (Err r, (caller, s1)) => status r = ZACLR_STATUS_OUT_OF_MEMORY /\ caller = frame /\ live (cs_store s).1 ⊆ live (cs_store s1).1
  | _ => False
  end.
Proof. intros Hu Hm Hctx Hst Hroom Hargs Hrun Hv. by apply (call_runs x86_64 matches new_exception uninit Hu constructed other_instruction m assembly method c e resolve current n frame st args frames ex env' v s). Qed.

(** C19: A launch of a terminating entry method completes: for every number of
    instructions from some bound on, [zaclr_engine_execute_launch] answers OK, the thread
    is stopped without a frame, both boot flags and the method's id are recorded, and
    exactly the blocks live before are live; or memory runs out when the frame is created
    and the launch state is as it was.  The assumption on [uninit] is the same as
    for a call. *)
Theorem launch_completes {K} `{KernelHeapLaws K} `{OpcodeTableLaws} (x86_64 : bool) (matches : Z -> Z -> bool)
    (new_exception : store K -> outcome Z * store K) (uninit : zaclr_stack_value)
    (constructed : zaclr_frame -> option (Z * option (list byte) * Z))
    (other_instruction : Z -> engine_state K -> outcome unit * engine_state K)
    m assembly method c e n launch ex env' v (s : create_state K) :
  owned_buffer uninit = None -> program_method m assembly method c e 0 n -> runs [] (no_locals n) c env' -> eval [] env' e = Some v ->
  exists k, forall fuel,
    match zaclr_engine_execute_launch m x86_64 matches new_exception uninit constructed other_instruction (k + fuel) assembly method launch ex s with
    | (Ret _, (launch', (ex', s'))) =>
      ex' = ex /\ ln_thread launch' = mk_thread ZACLR_THREAD_STATE_STOPPED 0 /\ ln_boot_completed_method_id launch' = md_id method /\
      flag_set (ln_runtime_flags launch') ZACLR_RUNTIME_STATE_FLAG_BOOT_EXECUTED = true /\
      flag_set (ln_runtime_flags launch') ZACLR_RUNTIME_STATE_FLAG_BOOT_COMPLETED = true /\
      live (cs_store s').1 = live (cs_store s).1 /\ (cs_store s').2 = (cs_store s).2
    | (Err r, (launch', (ex', s'))) =>
      status r = ZACLR_STATUS_OUT_OF_MEMORY /\ launch' = launch /\ ex' = ex /\ live (cs_store s).1 ⊆ live (cs_store s').1
    | _ => False
    end.
Proof.
  intros Hu Hm Hrun Hv. unfold zaclr_engine_execute_launch, zaclr_frame_create_root.
  pose proof (create_program m assembly method c e None 0 n s Hm empty_ok) as Hc. unfold zaclr_frame_create_child in Hc.
  destruct (initialize_frame_common m assembly None method s) as [[[id f]|r| |] s1]; try done.
  2: { exists 0%nat. intros _. destruct Hc as (Hr & Hl & _). by destruct launch. }
  destruct Hc as (Hlen & Hf & Hmap & Hframe). assert (arguments f = []) as Ha by (apply nil_length_inv; unfold zlength in Hlen; lia).
  destruct (root_runs x86_64 matches new_exception uninit Hu constructed other_instruction c e n s s1 f ex env' v Hf Ha) as (k & s' & HL & HM & Hk);
    [by apply Hframe|done|done|].
  exists k. intros fuel. rewrite Hk. cbn. split_and!; try done; [| |by rewrite HM].
  - unfold flag_set. apply negb_true_iff, Z.eqb_neq. rewrite !Z.land_lor_distr_l. intros E. apply Z.lor_eq_0_iff in E as [E _].
    by apply Z.lor_eq_0_iff in E as [_ E].
  - unfold flag_set. apply negb_true_iff, Z.eqb_neq. rewrite Z.land_lor_distr_l. intros E. by apply Z.lor_eq_0_iff in E as [_ E].
Qed.

(** C18: A call of a generic method gives the callee its arguments: the types in the
    instantiation blob, with the variables of the caller replaced by the caller's own
    arguments, become the callee's method arguments in fresh buffers, its type arguments
    are not touched, and both temporary contexts are released.  If memory runs out the
    callee's context is as it was. *)
Theorem generic_call_correct {K} `{KernelHeapLaws K} (resolve : Z -> zaclr_token -> outcome Z) resolved m blob d current
    (l : list sig_type) caller child (k : K) :
  (forall assembly token, safe (resolve assembly token)) ->
  (forall token, GenericContext.resolve_argument_assembly resolve current token = Ret (resolved token)) ->
  blob_ok m blob -> sl_data blob = Some d -> forallb supported l = true -> is_uint29 (zlength l) = true ->
  seg m d (encode_instantiation l) -> sl_size blob = zlength (encode_instantiation l) -> context_ok caller -> context_ok child ->
  match instantiate_child m resolve current blob caller child k with
  | (Ret _, (c, k')) =>
    context_ok c /\ typed_array c = typed_array child /\
    map erase (GenericContext.method_contents c) = map (instantiate (erase_context caller)) (map (tree_of current resolved) l) /\
    let old := array_buffers (GenericContext.method_args child) (GenericContext.method_contents child) in
    let new := array_buffers (GenericContext.method_args c) (GenericContext.method_contents c) in
    NoDup new /\ (forall p, p ∈ new -> p ∉ live k) /\
    ((forall p, p ∈ old -> p ∈ live k) -> live k' = (list_to_set new ∪ live k) ∖ list_to_set old)
  | (Err r, (c, k')) => r = GenericContext.out_of_memory /\ c = child /\ live k ⊆ live k'
  | _ => False
  end.
Proof. intros. by apply (instantiate_child_spec resolve resolved m blob d current l). Qed.

(** ** An assembly with a factorial *)

(** One StandAloneSig row, the blob of two [int] locals, and the body at offset 8: a
    fat header, the instructions, and a finally clause in a small section. *)
Definition finally_clause : zaclr_exception_clause := mk_clause 2 0 4 4 2 0.
Definition factorial_method_body : method_body := Fat 2 0x11000001 true factorial_code false [finally_clause].
Definition assembly_image : memory := bytes_of [1; 0; 0; 4; 7; 2; 8; 8] ++ encode_body factorial_method_body.
Definition assembly_metadata : zaclr_metadata_reader :=
  mk_reader zero_slice zero_slice (mk_slice (Some 2) 6) zero_slice zero_slice 0 0
    (set (replicate 64 (mk_table_view None 0 0)) 0x11 (mk_table_view (Some 0) 2 1)) [] 0.
(** An image with one section, mapped at 0x2000. *)
Definition image_assembly (image : memory) : zaclr_loaded_assembly :=
  mk_assembly (mk_pe_image (mk_slice (Some 0) (zlength image)) zero_name zero_slice 0 0 0 0 0 0 0 1
    [mk_section 0x2000 0x1000 0 0x1000] 0) assembly_metadata.
Definition sample_assembly : zaclr_loaded_assembly := image_assembly assembly_image.
Definition int_type : zaclr_signature_type := mk_sigtype ZACLR_ELEMENT_TYPE_I4 (zaclr_token_make 0) 0 0.
Definition method_at (rva params : Z) : zaclr_method_desc :=
  mk_method_desc 7 (zaclr_token_make 0x06000001) (zaclr_token_make 0x02000002) zero_name
    (mk_sigdesc zero_slice 0 1 params 0 2 int_type 0) rva 0 0 0 0 zero_name zero_name.
Definition factorial_method : zaclr_method_desc := method_at 0x2008 1.

Lemma factorial_locals : declares_locals assembly_image sample_assembly 0x11000001 2.
Proof.
  right. exists (mk_standalonesig_row 1), (mk_slice (Some 4) 4), 4, (bytes_of [8; 8]). split; [done|]. split; [lia|].
  split; [split; [split|]; vm_compute; try split; congruence|]. split; [vm_compute; reflexivity|]. split; [vm_compute; reflexivity|].
  split; [done|]. split; [|done]. change 4 with (zlength (bytes_of [1; 0; 0; 4])).
  change assembly_image with (bytes_of [1; 0; 0; 4] ++ (bytes_of [7; 2; 8; 8] ++ encode_body factorial_method_body)).
  pose proof (seg_refl (bytes_of [1; 0; 0; 4] ++ (bytes_of [7; 2; 8; 8] ++ encode_body factorial_method_body))) as Hs.
  apply seg_app in Hs as [_ Hs]. by apply seg_app in Hs as [Hs _].
Qed.

(** A body in the image of [sample_assembly]. *)
Lemma factorial_in_image : method_in_image assembly_image sample_assembly factorial_method factorial_method_body 2.
Proof.
  split; [by vm_compute|by vm_compute| |apply factorial_locals|].
  - split; [lia|]. split; [lia|]. split; [by vm_compute|]. split; [by vm_compute|]. split; [by vm_compute|].
    apply Forall_singleton. by vm_compute.
  - exists 0, 8. split; [reflexivity|]. split; [lia|]. split; [lia|]. split; [vm_compute; reflexivity|]. split; [|by vm_compute].
    pose proof (seg_refl assembly_image) as Hs. by apply seg_app in Hs as [_ Hs].
Qed.

Lemma factorial_program : program_method assembly_image sample_assembly factorial_method factorial_body (Local 1) 1 2.
Proof.
  split; try done. exists factorial_method_body. split; [apply factorial_in_image|]. split; [done|]. split; [vm_compute; congruence|vm_compute; congruence].
Qed.

(** A caller with the argument 5 on its evaluation stack of two slots. *)
Definition calling_frame : zaclr_frame := set_eval_stack (pushes example_stack (value_of_i4 <$> [5])) caller_frame.
Definition call_state : create_state small_heap := mk_create (mk_small_heap 20 {[1%positive]}, ∅) 3.

Lemma example_room : room example_stack 1.
Proof. split; [simpl; lia|]. split; [vm_compute; by split|]. intros i Hi. by assert (i = 0) as -> by lia. Qed.

Lemma frame_create_correct_witness :
  exists f s', (zaclr_frame_create_child assembly_image sample_assembly None factorial_method call_state) = (Ret (3, f), s') /\
    exception_clauses f = [finally_clause] /\ zlength (locals f) = 2 /\ frame_ok (cs_store s') f.
Proof.
  pose proof (frame_create_correct assembly_image sample_assembly None factorial_method factorial_method_body 2 call_state
    factorial_in_image empty_ok) as Hc.
  assert (match (zaclr_frame_create_child assembly_image sample_assembly None factorial_method call_state).1 with Ret p => p.1 | _ => 0 end = 3)
    as E by (vm_compute; reflexivity).
  destruct (zaclr_frame_create_child assembly_image sample_assembly None factorial_method call_state) as [[[id f]|r| |] s']; try discriminate E.
  cbn in E. subst id. destruct Hc as (Hc & Hok & _). exists f, s'. split; [done|]. split; [apply Hc|]. split; [|exact Hok].
  rewrite (cr_locals _ _ _ _ _ _ Hc). done.
Defined.

Lemma bind_arguments_correct_witness :
  zaclr_frame_bind_arguments factorial_frame None (pushes example_stack [value_of_i4 9]) =
  (Ret (), (set_arguments [value_of_i4 9] factorial_frame, example_stack)).
Proof. apply (bind_arguments_correct factorial_frame None example_stack [value_of_i4 9]); [by repeat constructor|done|apply example_room]. Defined.

Definition no_types (assembly : Z) (token : zaclr_token) : outcome Z := Ret assembly.

(** The caller gets 120. *)
Lemma method_call_correct_witness :
  exists callee s1 k s', enter_method assembly_image no_types 9 sample_assembly factorial_method None calling_frame call_state =
      (Ret callee, (set_eval_stack example_stack calling_frame, s1)) /\
    live s'.1 = live (cs_store call_state).1 /\
    zaclr_engine_execute_frame_loop true (fun _ _ => false) (fun s => (Err (exec_error ZACLR_STATUS_OUT_OF_MEMORY), s))
      zero_value (fun _ => None) (fun _ s => (Err (exec_error ZACLR_STATUS_NOT_IMPLEMENTED), s)) (k + 0)
      (mk_engine (cs_store s1) [callee; set_eval_stack example_stack calling_frame] 0) =
    (NoFuel, mk_engine s' [set_eval_stack (pushed example_stack (value_of_i4 120)) calling_frame] 0).
Proof.
  pose proof (method_call_correct true (fun _ _ => false) (fun s => (Err (exec_error ZACLR_STATUS_OUT_OF_MEMORY), s))
    zero_value (fun _ => None) (fun _ s => (Err (exec_error ZACLR_STATUS_NOT_IMPLEMENTED), s))
    assembly_image sample_assembly factorial_method factorial_body (Local 1) no_types 9 2 calling_frame example_stack [5] [] 0
    [Some 1; Some 120] 120 call_state eq_refl factorial_program empty_ok eq_refl example_room) as Hc.
  assert (match (enter_method assembly_image no_types 9 sample_assembly factorial_method None calling_frame call_state).1 with Ret _ => true | _ => false end = true)
    as E by (vm_compute; reflexivity).
  destruct (enter_method assembly_image no_types 9 sample_assembly factorial_method None calling_frame call_state) as [[callee|r| |] [caller s1]];
    try discriminate E.
  destruct Hc as (-> & k & s' & HL & _ & Hk); [constructor; [unfold in_int; lia|constructor]|apply (run_cmd_sound 20); vm_compute; reflexivity|reflexivity|].
  exists callee, s1, k, s'. split; [done|]. split; [exact HL|]. rewrite (Hk 0%nat). reflexivity.
Defined.

(** An entry method without parameters or locals, whose body has a tiny header. *)
Definition entry_body : method_body := Tiny (compile_method Skip (Binary CEE_MUL (Const 6) (Const 7))).
Definition entry_image : memory := encode_body entry_body.
Definition entry_assembly : zaclr_loaded_assembly := image_assembly entry_image.
Definition entry_method : zaclr_method_desc := method_at 0x2000 0.

Lemma entry_program : program_method entry_image entry_assembly entry_method Skip (Binary CEE_MUL (Const 6) (Const 7)) 0 0.
Proof.
  split; [|by vm_compute|by vm_compute|by vm_compute]. exists entry_body. split; [|split; [reflexivity|split; by vm_compute]].
  split; [by vm_compute|by vm_compute|by vm_compute|reflexivity|]. exists 0, 0. split; [reflexivity|]. split; [lia|]. split; [lia|].
  split; [vm_compute; reflexivity|]. split; [apply (seg_refl entry_image)|by vm_compute].
Qed.

Definition launch_start : zaclr_launch := mk_launch (mk_thread 0 0) 0 0.

Definition launch_entry (fuel : nat) : outcome unit * (zaclr_launch * (Z * create_state small_heap)) :=
  zaclr_engine_execute_launch entry_image true (fun _ _ => false) (fun s => (Err (exec_error ZACLR_STATUS_OUT_OF_MEMORY), s)) zero_value
    (fun _ => None) (fun _ s => (Err (exec_error ZACLR_STATUS_NOT_IMPLEMENTED), s)) fuel entry_assembly entry_method launch_start 0 call_state.

(** The launch stops the thread and records the method; five instructions are enough. *)
Lemma launch_completes_witness :
  (launch_entry 5).1 = Ret () /\ ln_boot_completed_method_id (launch_entry 5).2.1 = 7 /\
  exists k, forall fuel, match launch_entry (k + fuel) with
    | (Ret _, (launch, _)) => ln_thread launch = mk_thread ZACLR_THREAD_STATE_STOPPED 0 /\ ln_boot_completed_method_id launch = 7
    | (Err r, _) => status r = ZACLR_STATUS_OUT_OF_MEMORY
    | _ => False
    end.
Proof.
  split; [vm_compute; reflexivity|]. split; [vm_compute; reflexivity|].
  destruct (launch_completes true (fun _ _ => false) (fun s => (Err (exec_error ZACLR_STATUS_OUT_OF_MEMORY), s))
    zero_value (fun _ => None) (fun _ s => (Err (exec_error ZACLR_STATUS_NOT_IMPLEMENTED), s))
    entry_image entry_assembly entry_method Skip (Binary CEE_MUL (Const 6) (Const 7)) 0 launch_start 0 [] 42 call_state
    eq_refl entry_program) as [k Hk]; [constructor|reflexivity|].
  exists k. intros fuel. specialize (Hk fuel). unfold launch_entry.
  destruct (zaclr_engine_execute_launch _ _ _ _ _ _ _ _ _ _ _ _ _) as [[u|r| |] [launch [ex s']]]; [|exact (proj1 Hk)|exact Hk|exact Hk].
  destruct Hk as (_ & Ht & Hm & _). split; [exact Ht|exact Hm].
Defined.

(** A generic call: the callee gets the arguments in the blob. *)
Lemma generic_call_correct_witness :
  (instantiate_child GenericTheorems.blob_memory GenericTheorems.local_lookup 9 GenericTheorems.instantiation_blob GenericTheorems.method_int GenericTheorems.type_int (GenericTheorems.sample_heap 20)).1 = Ret () /\
  map erase (GenericContext.method_contents (instantiate_child GenericTheorems.blob_memory GenericTheorems.local_lookup 9 GenericTheorems.instantiation_blob GenericTheorems.method_int GenericTheorems.type_int (GenericTheorems.sample_heap 20)).2.1)
  = map (instantiate (erase_context GenericTheorems.method_int)) (map (tree_of 9 (fun _ => 9)) GenericTheorems.blob_types).
Proof.
  destruct GenericTheorems.samples_ok as (_ & _ & Hm & Ht & _).
  pose proof (generic_call_correct GenericTheorems.local_lookup (fun _ => 9) GenericTheorems.blob_memory GenericTheorems.instantiation_blob 0 9 GenericTheorems.blob_types GenericTheorems.method_int GenericTheorems.type_int (GenericTheorems.sample_heap 20)
    ltac:(done) ltac:(done) GenericTheorems.instantiation_blob_ok eq_refl eq_refl eq_refl (seg_refl _) eq_refl Hm Ht) as Hc.
  assert ((instantiate_child GenericTheorems.blob_memory GenericTheorems.local_lookup 9 GenericTheorems.instantiation_blob GenericTheorems.method_int GenericTheorems.type_int (GenericTheorems.sample_heap 20)).1 = Ret ()) as E by (vm_compute; reflexivity).
  destruct (instantiate_child _ _ _ _ _ _ _) as [[u|r| |] [c k']]; try discriminate E. split; [exact E|]. exact (proj1 (proj2 (proj2 Hc))).
Defined.

(** ** What the code gets wrong *)

Definition create_in (image : memory) (parent : option zaclr_frame) (method : zaclr_method_desc) (blocks : nat) :=
  zaclr_frame_create_child image (image_assembly image) parent method (mk_create (mk_small_heap blocks (list_to_set [4; 5; 6; 7; 8]%positive), ∅) 3).

Definition generic_caller : zaclr_frame := set_generic_context GenericTheorems.type_int caller_frame.

(** When memory runs out for the arguments, the copy of the generic context and the
    exception clauses stay allocated: the frame is freed, what it points to is not. *)
Lemma create_failure_leaks :
  let '(o, s) := create_in assembly_image (Some generic_caller) factorial_method 3 in
  o = Err (exec_error ZACLR_STATUS_OUT_OF_MEMORY) /\
  size (live (cs_store s).1) = (size (live (GenericTheorems.sample_heap 3)) + 2)%nat.
Proof. vm_compute. by split. Qed.

(** A section without clauses makes the method unusable. *)
Lemma empty_section_rejected :
  (create_in (encode_u16 0x300B ++ encode_u16 8 ++ encode_u32 4 ++ encode_u32 0 ++ bytes_of [0; 0; 0; 0x2A; 1; 4; 0; 0]) None (method_at 0x2000 0) 9).1
  = Err (exec_error ZACLR_STATUS_INVALID_ARGUMENT).
Proof. vm_compute. reflexivity. Qed.

(** The offset of the section is counted from the body but compared with the size of the
    image, so the section of a body at the end of the image is read past the image. *)
Lemma section_read_outside_image :
  (create_in (replicate 16 x00 ++ encode_u16 0x300B ++ encode_u16 8 ++ encode_u32 4 ++ encode_u32 0 ++ bytes_of [0; 0; 0; 0x2A])
     None (method_at 0x2010 0) 9).1 = Fault.
Proof. vm_compute. reflexivity. Qed.

(** The address of a body may be the end of the image. *)
Lemma header_read_outside_image : (create_in (replicate 16 x00) None (method_at 0x2010 0) 9).1 = Fault.
Proof. vm_compute. reflexivity. Qed.

(** The number of locals is cut to 16 bits: 65,537 locals become one. *)
Lemma local_count_truncated :
  let image := bytes_of [1; 0; 0; 6; 7; 0xC0; 1; 0; 1; 8] in parse_local_count image (mk_assembly (la_image (image_assembly image))
    (mk_reader zero_slice zero_slice (mk_slice (Some 2) 8) zero_slice zero_slice 0 0
      (set (replicate 64 (mk_table_view None 0 0)) 0x11 (mk_table_view (Some 0) 2 1)) [] 0)) 0x11000001 = Ret 1.
Proof. vm_compute. reflexivity. Qed.

(** A cleared local is not the number 0: [return -local0] of a method with the
    initialisation flag reports a dispatch error. *)
Lemma cleared_local_is_not_a_number :
  let image := bytes_of [1; 0; 0; 4; 7; 2; 8; 8] ++ encode_body (Fat 2 0x11000001 true (compile_method Skip (Unary CEE_NEG (Local 0))) false []) in
  (zaclr_engine_execute_launch image true (fun _ _ => false) (fun s => (Err (exec_error ZACLR_STATUS_OUT_OF_MEMORY), s)) zero_value
    (fun _ => None) (fun _ s => (Err (exec_error ZACLR_STATUS_NOT_IMPLEMENTED), s)) 9 (image_assembly image) (method_at 0x2008 0)
    launch_start 0 call_state).1 = Err (exec_error ZACLR_STATUS_DISPATCH_ERROR).
Proof. vm_compute. reflexivity. Qed.

End CallCorrect.
