(* ===== verification/Arrays.v ===== *)
(** * Arrays

    [zaclr/heap/zaclr_array.cpp] and the array instructions of
    [zaclr/exec/zaclr_dispatch.cpp]: [newarr], [ldlen], [ldelem], [stelem] and
    [ldelema] with the helpers that read and write elements.

    The instructions work on the current frame and on the managed heap, and [newarr]
    may run a collection, whose roots are the frames from the current one on.  An object
    that is not an array and is used as one, which the code does not check, is a
    [Fault].  The name of the type a token denotes is a parameter: the code finds it
    through the metadata of the assembly. *)

From Stdlib Require Import Strings.Byte Strings.String.
From S2P Require Import Prelude Status Bytes Token KernelHeap EvalStack ManagedObject ManagedHeap Gc GenericContext.
From S2P Require Import EmulatedFloat Opcode Frame Arith Exceptions.

Module Arrays.
Import EmulatedFloat Frame Arith Exceptions.

(** ** [zaclr_array.cpp] *)

Definition zaclr_array_object_flags (element_type : zaclr_token) : Z :=
  let table := zaclr_token_table (Some element_type) in
  let contains_references :=
    (table =? ZACLR_TOKEN_TABLE_TYPEREF) || (table =? ZACLR_TOKEN_TABLE_TYPEDEF) || (table =? ZACLR_TOKEN_TABLE_TYPESPEC) in
  Z.lor ZACLR_OBJECT_FLAG_REFERENCE_TYPE (if contains_references then ZACLR_OBJECT_FLAG_CONTAINS_REFERENCES else 0).

(** The members of an array that follow the header, and its data. *)
Record zaclr_array_desc := mk_array { ar_length : Z; ar_element_size : Z; ar_element_type : zaclr_token; ar_data : list byte }.

Definition array_of (o : zaclr_object_desc) : option zaclr_array_desc :=
  match ob_body o with
  | BodyArray length element_size element_type data => Some (mk_array length element_size element_type data)
  | _ => None
  end.

Definition set_array (a : zaclr_array_desc) (o : zaclr_object_desc) : zaclr_object_desc :=
  mk_object (ob_size_bytes o) (ob_family o) (ob_gc_mark o) (ob_gc_state o) (ob_flags o) (ob_method_table o) (ob_type_id o)
    (BodyArray (ar_length a) (ar_element_size a) (ar_element_type a) (ar_data a)).

(** [length] is an [int32_t], the result a [uint32_t]. *)
Definition zaclr_array_length (value : option zaclr_array_desc) : Z :=
  match value with Some a => u32 (ar_length a) | None => 0 end.
Definition zaclr_array_element_size (value : option zaclr_array_desc) : Z :=
  match value with Some a => ar_element_size a | None => 0 end.
Definition zaclr_array_element_type (value : option zaclr_array_desc) : zaclr_token :=
  match value with Some a => ar_element_type a | None => zaclr_token_make 0 end.

(** The address of the data of the array at [array]. *)
Definition zaclr_array_data (array : Z) : Z := if array =? 0 then 0 else array + sizeof_array_desc.

Definition zaclr_array_from_handle (handle : Z) : Z := zaclr_heap_get_object handle.

Section heap.
Context {K : Type} `{KernelHeap K}.

(** A change of the object at [p]. *)
Definition update_object (p : Z) (g : zaclr_object_desc -> zaclr_object_desc) (rt : zaclr_runtime K) : zaclr_runtime K :=
  set_objects rt (alter g p (mg_objects (rt_managed rt))).

(** The data of the new object are the zeros behind the header of an array. *)
Definition zaclr_array_allocate (rt : zaclr_runtime K) (type_id : Z) (element_type : zaclr_token) (element_size length : Z)
  : outcome Z * zaclr_runtime K :=
  if element_size =? 0 then (Err (heap_error ZACLR_STATUS_INVALID_ARGUMENT), rt)
  else
    let data_size := u32 (element_size * length) in
    match zaclr_heap_allocate_object rt (sizeof_array_desc + data_size) type_id ZACLR_OBJECT_FAMILY_ARRAY
            (zaclr_array_object_flags element_type) with
    | (Ret array, rt) =>
      match mg_objects (rt_managed rt) !! array ≫= array_of with
      | Some a =>
        (Ret array, update_object array (set_array (mk_array (i32 length) element_size element_type (ar_data a))) rt)
      | None => (Fault, rt)
      end
    | x => x
    end.

Definition zaclr_array_allocate_handle (rt : zaclr_runtime K) (type_id : Z) (element_type : zaclr_token) (element_size length : Z)
  : outcome Z * zaclr_runtime K :=
  match zaclr_array_allocate rt type_id element_type element_size length with
  | (Ret array, rt) => (Ret (zaclr_heap_get_object_handle array), rt)
  | x => x
  end.

(** ** The monad of instructions on the heap *)

(** The current frame, the buffers of its values, and the runtime with the frames of
    the callers. *)
Record heap_state := mk_heap_state { hs_runtime : zaclr_runtime K; hs_buffers : gmap Z (list byte); hs_frame : Frame.zaclr_frame }.

Definition heap_exec (A : Type) : Type := heap_state -> outcome A * heap_state.

#[global] Instance heap_exec_ret : MRet heap_exec := fun A a s => (Ret a, s).
#[global] Instance heap_exec_bind : MBind heap_exec := fun A B k m s =>
  match m s with
  | (Ret a, s') => k a s'
  | (Err r, s') => (Err r, s')
  | (Fault, s') => (Fault, s')
  | (NoFuel, s') => (NoFuel, s')
  end.

Definition answer {A} (o : outcome A) : heap_exec A := fun s => (o, s).

Definition frame_state (s : heap_state) : fstate K :=
  mk_fstate (mg_kernel (rt_managed (hs_runtime s)), hs_buffers s) (hs_frame s) (rt_current_exception (hs_runtime s)).

Definition set_exception (p : Z) (rt : zaclr_runtime K) : zaclr_runtime K :=
  mk_runtime (rt_managed rt) (rt_finalizer_queue rt) (rt_handle_table rt) p (rt_frames rt) (rt_domain rt).
Definition set_frames (l : list Gc.zaclr_frame) (rt : zaclr_runtime K) : zaclr_runtime K :=
  mk_runtime (rt_managed rt) (rt_finalizer_queue rt) (rt_handle_table rt) (rt_current_exception rt) l (rt_domain rt).

(** A routine that works on the frame. *)
Definition in_frame {A} (c : exec K A) : heap_exec A := fun s =>
  let '(o, f) := c (frame_state s) in
  (o, mk_heap_state (set_exception (fs_exception f) (set_kernel (hs_runtime s) (fs_store f).1)) (fs_store f).2 (fs_frame f)).

(** What the collector sees of a frame. *)
Definition gc_frame (f : Frame.zaclr_frame) : Gc.zaclr_frame :=
  Gc.mk_frame (if arguments_ptr f =? 0 then None else Some (arguments f)) (zlength (arguments f))
    (if locals_ptr f =? 0 then None else Some (locals f)) (zlength (locals f)) (eval_stack f).

(** The runtime while the current frame is active. *)
Definition running (s : heap_state) : zaclr_runtime K := set_frames (gc_frame (hs_frame s) :: rt_frames (hs_runtime s)) (hs_runtime s).

(** A routine that works on the runtime, under the frames of the thread. *)
Definition in_runtime {A} (c : zaclr_runtime K -> outcome A * zaclr_runtime K) : heap_exec A := fun s =>
  let '(o, rt) := c (running s) in
  (o, mk_heap_state (set_frames (rt_frames (hs_runtime s)) rt) (hs_buffers s) (hs_frame s)).

Definition array_at (p : Z) : heap_exec zaclr_array_desc := fun s =>
  match mg_objects (rt_managed (hs_runtime s)) !! p ≫= array_of with
  | Some a => (Ret a, s)
  | None => (Fault, s)
  end.

Definition write_array (p : Z) (a : zaclr_array_desc) : heap_exec unit := fun s =>
  (Ret (), mk_heap_state (update_object p (set_array a) (hs_runtime s)) (hs_buffers s) (hs_frame s)).

(** ** Elements *)

Inductive load_opcode :=
| CEE_LDELEM_I1 | CEE_LDELEM_U1 | CEE_LDELEM_I2 | CEE_LDELEM_U2 | CEE_LDELEM_I4 | CEE_LDELEM_U4 | CEE_LDELEM_I8 | CEE_LDELEM_I
| CEE_LDELEM_R4 | CEE_LDELEM_R8 | CEE_LDELEM_REF | CEE_LDELEM.

Inductive store_opcode :=
| CEE_STELEM_I | CEE_STELEM_I1 | CEE_STELEM_I2 | CEE_STELEM_I4 | CEE_STELEM_I8 | CEE_STELEM_R4 | CEE_STELEM_R8 | CEE_STELEM_REF
| CEE_STELEM.

Definition token_is_heap_reference (token : zaclr_token) : bool :=
  zaclr_token_matches_table (Some token) ZACLR_TOKEN_TABLE_TYPEDEF
  || zaclr_token_matches_table (Some token) ZACLR_TOKEN_TABLE_TYPEREF
  || zaclr_token_matches_table (Some token) ZACLR_TOKEN_TABLE_TYPESPEC.

Definition read_object_handle_value (data : list byte) (offset : Z) : outcome Z := read_u64 data offset.

(** The value of the element at [byte_offset] for an instruction. *)
Definition element_value (op : load_opcode) (a : zaclr_array_desc) (byte_offset : Z) : heap_exec unit :=
  let data := ar_data a in
  match op with
  | CEE_LDELEM_I1 => w ← answer (read_u8 data byte_offset); in_frame (push_i4 (signed 8 w))
  | CEE_LDELEM_U1 => w ← answer (read_u8 data byte_offset); in_frame (push_i4 w)
  | CEE_LDELEM_I2 => w ← answer (read_u16 data byte_offset); in_frame (push_i4 (signed 16 w))
  | CEE_LDELEM_U2 => w ← answer (read_u16 data byte_offset); in_frame (push_i4 w)
  | CEE_LDELEM_I4 | CEE_LDELEM_U4 | CEE_LDELEM_I => w ← answer (read_u32 data byte_offset); in_frame (push_i4 (i32 w))
  | CEE_LDELEM_I8 => w ← answer (read_u64 data byte_offset); in_frame (push_i8 (i64 w))
  | CEE_LDELEM_R4 => w ← answer (read_u32 data byte_offset); in_frame (push_r4 w)
  | CEE_LDELEM_R8 => w ← answer (read_u64 data byte_offset); in_frame (push_r8 w)
  | CEE_LDELEM_REF => w ← answer (read_object_handle_value data byte_offset); in_frame (push_object_handle w)
  | CEE_LDELEM =>
    if token_is_heap_reference (ar_element_type a) then
      w ← answer (read_object_handle_value data byte_offset); in_frame (push_object_handle w)
    else if ar_element_size a =? 1 then w ← answer (read_u8 data byte_offset); in_frame (push_i4 w)
    else if ar_element_size a =? 2 then w ← answer (read_u16 data byte_offset); in_frame (push_i4 w)
    else if ar_element_size a =? 4 then w ← answer (read_u32 data byte_offset); in_frame (push_i4 (i32 w))
    else if ar_element_size a =? 8 then w ← answer (read_u64 data byte_offset); in_frame (push_i8 (i64 w))
    else answer (Err (exec_error ZACLR_STATUS_NOT_IMPLEMENTED))
  end.

Definition read_array_indexed_value (array index : Z) (op : load_opcode) : heap_exec unit :=
  a ← array_at array;
  if zaclr_array_length (Some a) <=? index then answer (Err (exec_error ZACLR_STATUS_DISPATCH_ERROR))
  else element_value op a (index * zaclr_array_element_size (Some a)).

(** The bytes an instruction stores for a value. *)
Definition element_bytes (op : store_opcode) (a : zaclr_array_desc) (value : zaclr_stack_value) : heap_exec (list byte) :=
  match op with
  | CEE_STELEM_I1 => v ← in_frame (on_store (fun st => stack_value_to_i32 st value)); mret (le_bytes 1 v)
  | CEE_STELEM_I2 => v ← in_frame (on_store (fun st => stack_value_to_i32 st value)); mret (le_bytes 2 (u16 v))
  | CEE_STELEM_I | CEE_STELEM_I4 => v ← in_frame (on_store (fun st => stack_value_to_i32 st value)); mret (le_bytes 4 (u32 v))
  | CEE_STELEM_I8 => v ← in_frame (on_store (fun st => stack_value_to_i64 st value)); mret (le_bytes 8 (u64 v))
  | CEE_STELEM_R4 =>
    v ← answer (stack_value_to_common_float_bits value); mret (le_bytes 4 (u32 (Z.shiftr v (k_float64_shift - k_float32_shift))))
  | CEE_STELEM_R8 => v ← answer (stack_value_to_common_float_bits value); mret (le_bytes 8 (u64 v))
  | CEE_STELEM_REF => p ← answer (stack_value_to_object_handle value); mret (le_bytes 8 p)
  | CEE_STELEM =>
    if token_is_heap_reference (ar_element_type a) then p ← answer (stack_value_to_object_handle value); mret (le_bytes 8 p)
    else if ar_element_size a =? 1 then v ← in_frame (on_store (fun st => stack_value_to_i32 st value)); mret (le_bytes 1 v)
    else if ar_element_size a =? 2 then v ← in_frame (on_store (fun st => stack_value_to_i32 st value)); mret (le_bytes 2 (u16 v))
    else if ar_element_size a =? 4 then v ← in_frame (on_store (fun st => stack_value_to_i32 st value)); mret (le_bytes 4 (u32 v))
    else if ar_element_size a =? 8 then v ← in_frame (on_store (fun st => stack_value_to_i64 st value)); mret (le_bytes 8 (u64 v))
    else answer (Err (exec_error ZACLR_STATUS_NOT_IMPLEMENTED))
  end.

Definition write_array_indexed_value (array index : Z) (op : store_opcode) (value : zaclr_stack_value) : heap_exec unit :=
  a ← array_at array;
  if zaclr_array_length (Some a) <=? index then answer (Err (exec_error ZACLR_STATUS_DISPATCH_ERROR))
  else
    bytes ← element_bytes op a value;
    data ← answer (write_bytes (ar_data a) (index * zaclr_array_element_size (Some a)) bytes);
    write_array array (mk_array (ar_length a) (ar_element_size a) (ar_element_type a) data).

(** ** Instructions *)

Definition stack_value_to_object_reference (value : zaclr_stack_value) : outcome Z :=
  if negb (sv_kind value =? ZACLR_STACK_VALUE_OBJECT_REFERENCE) then Err (exec_error ZACLR_STATUS_DISPATCH_ERROR)
  else value_word value.

(** The name of the type of a token, [None] being [NULL]. *)
Context (metadata_get_type_name : zaclr_token -> outcome (option string)).

Definition element_size_for_type_name (type_name : option string) : Z :=
  match type_name with
  | None => 8
  | Some n =>
    if (n =? "Byte")%string || (n =? "SByte")%string || (n =? "Boolean")%string then 1
    else if (n =? "Int16")%string || (n =? "UInt16")%string || (n =? "Char")%string then 2
    else if (n =? "Int64")%string || (n =? "UInt64")%string || (n =? "Double")%string then 8
    else if (n =? "Int32")%string || (n =? "UInt32")%string || (n =? "Single")%string then 4
    else 8
  end.

(** The lookup reports errors; it does not fault. *)
Definition element_size_for_token (token : zaclr_token) : Z :=
  if zaclr_token_matches_table (Some token) ZACLR_TOKEN_TABLE_TYPESPEC then 8
  else match metadata_get_type_name token with
       | Ret type_name => element_size_for_type_name type_name
       | _ => 8
       end.

Definition il_token : exec K zaclr_token := f ← gets id; w ← il_u32 (il_offset f + 1); mret (zaclr_token_make w).

Definition step_newarr : heap_exec unit :=
  token ← in_frame il_token;
  count_value ← in_frame pop;
  length ← in_frame (on_store (fun st => stack_value_to_u32 st count_value));
  array ← in_runtime (fun rt => zaclr_array_allocate rt 0 token (element_size_for_token token) length);
  _ ← in_frame (advance 5);
  in_frame (push_object_handle (zaclr_heap_get_object_handle array)).

Definition heap_not_found {A} : heap_exec A := answer (Err (heap_error ZACLR_STATUS_NOT_FOUND)).

Definition step_ldlen : heap_exec unit :=
  array_value ← in_frame pop;
  array ← answer (stack_value_to_object_reference array_value);
  if array =? 0 then heap_not_found
  else
    _ ← in_frame (advance 1);
    a ← array_at array;
    in_frame (push_i4 (i32 (zaclr_array_length (Some a)))).

(** The index and the array, which [ldelem], [stelem] and [ldelema] pop. *)
Definition pop_element : heap_exec (Z * Z) :=
  index_value ← in_frame pop;
  array_value ← in_frame pop;
  index ← in_frame (on_store (fun st => stack_value_to_u32 st index_value));
  array ← answer (stack_value_to_object_reference array_value);
  mret (array, index).

Definition step_ldelem (op : load_opcode) : heap_exec unit :=
  '(array, index) ← pop_element;
  if array =? 0 then heap_not_found
  else
    _ ← in_frame (advance (match op with CEE_LDELEM => 5 | _ => 1 end));
    read_array_indexed_value array index op.

Definition step_stelem (op : store_opcode) : heap_exec unit :=
  element_value ← in_frame pop;
  '(array, index) ← pop_element;
  if array =? 0 then heap_not_found
  else
    _ ← in_frame (advance (match op with CEE_STELEM => 5 | _ => 1 end));
    write_array_indexed_value array index op element_value.

(** The address of the element; a null array is refused before its length is read. *)
Definition step_ldelema : heap_exec unit :=
  token ← in_frame il_token;
  '(array, index) ← pop_element;
  if array =? 0 then answer (Err (exec_error ZACLR_STATUS_DISPATCH_ERROR))
  else
    a ← array_at array;
    if zaclr_array_length (Some a) <=? index then answer (Err (exec_error ZACLR_STATUS_DISPATCH_ERROR))
    else
      _ ← in_frame (advance 5);
      address_value ← in_frame (with_store (fun st =>
        let '(st, v) := zaclr_stack_value_set_byref st zero_value
          (zaclr_array_data array + index * zaclr_array_element_size (Some a)) (zaclr_array_element_size (Some a))
          (if negb (raw token =? 0) then raw token else raw (zaclr_array_element_type (Some a))) 0 in
        (Ret v, st)));
      in_frame (push address_value).

End heap.
Arguments heap_state K : clear implicits.
Arguments heap_exec K A : clear implicits.

End Arrays.
