(* ===== verification/ArraysCorrect.v ===== *)
(** * Arrays are correct

    Elements are stored and loaded at their width and nowhere else, indices are checked,
    a new array is zeroed and survives, and references stored in arrays keep the heap
    well linked and their objects alive. *)

From Stdlib Require Import Strings.Byte Strings.String.
From stdpp Require Import relations.
From S2P Require Import Prelude Status Bytes Token KernelHeap HandleTable TypeMap EvalStack ManagedObject ManagedHeap Gc GcMark GcCollect GcAllocate.
From S2P Require Import GenericContext EmulatedFloat Opcode Frame Arith Exceptions Dispatch DispatchSafe Program Arrays.

Module ArraysCorrect.
Import EmulatedFloat Frame Arith Exceptions Program Arrays.

(** ** Words in the data *)

Definition word (data : list byte) (offset n : Z) : Z := le_word (chars data offset n).

Lemma le_word_range l : 0 <= le_word l < 256 ^ zlength l.
Proof.
  induction l as [|b l IH]; [done|]. cbn [le_word]. rewrite zlength_cons, Z.pow_add_r by (pose proof (zlength_nonneg l); lia).
  pose proof (byte_Z_range b). lia.
Qed.

Lemma le_bytes_word l : le_bytes (length l) (le_word l) = l.
Proof.
  induction l as [|b l IH]; [done|]. cbn [length le_bytes le_word]. pose proof (byte_Z_range b) as Hb. f_equal.
  - rewrite <- (byte_of_Z_Z b) at 2. apply byte_Z_inj. rewrite !byte_Z_of_Z. unfold u8. rewrite (Z.mul_comm 256), Z.mod_add by lia. done.
  - rewrite Z.mul_comm, Z.div_add, Z.div_small by lia. apply IH.
Qed.

Lemma zlength_chars (data : list byte) offset n : 0 <= offset -> 0 <= n -> offset + n <= zlength data -> zlength (chars data offset n) = n.
Proof. intros. unfold chars, zlength in *. rewrite length_take, length_drop. lia. Qed.

Lemma chars_at_seg (data : list byte) offset n : 0 <= offset -> seg data offset (chars data offset n).
Proof.
  intros Ho i b. unfold chars, get. case_if; [done|]. intros Hi. rewrite lookup_take_Some, lookup_drop in Hi. destruct Hi as [Hi _].
  case_if; [lia|]. rewrite <- Hi. f_equal. lia.
Qed.

(** The bytes of a word of [n] bytes. *)
Lemma word_seg (data : list byte) offset n : 0 <= offset -> 0 <= n -> offset + n <= zlength data ->
  seg data offset (le_bytes (Z.to_nat n) (word data offset n)) /\ 0 <= word data offset n < 256 ^ n.
Proof.
  intros Ho Hn Hl. pose proof (zlength_chars data offset n Ho Hn Hl) as Hz. unfold word. split.
  - assert (Z.to_nat n = length (chars data offset n)) as -> by (unfold zlength in Hz; lia). rewrite le_bytes_word. by apply chars_at_seg.
  - pose proof (le_word_range (chars data offset n)) as Hr. by rewrite Hz in Hr.
Qed.

Lemma read_word1 data offset : 0 <= offset -> offset + 1 <= zlength data -> read_u8 data offset = Ret (word data offset 1).
Proof.
  intros Ho Hl. destruct (word_seg data offset 1 Ho ltac:(lia) Hl) as [Hs Hr]. rewrite (seg_read_u8 _ _ _ _ Hs), byte_Z_of_Z.
  by rewrite u8_id by (change (256 ^ 1) with 256 in Hr; lia).
Qed.

Lemma read_word2 data offset : 0 <= offset -> offset + 2 <= zlength data -> read_u16 data offset = Ret (word data offset 2).
Proof. intros Ho Hl. destruct (word_seg data offset 2 Ho ltac:(lia) Hl) as [Hs Hr]. by apply seg_read_u16. Qed.

Lemma le_bytes4 v : le_bytes 4 v = encode_u32 v.
Proof. cbn [le_bytes]. unfold encode_u32. rewrite !Z.div_div by lia. done. Qed.

Lemma read_word4 data offset : 0 <= offset -> offset + 4 <= zlength data -> read_u32 data offset = Ret (word data offset 4).
Proof.
  intros Ho Hl. destruct (word_seg data offset 4 Ho ltac:(lia) Hl) as [Hs Hr]. change (Z.to_nat 4) with 4%nat in Hs. rewrite le_bytes4 in Hs.
  by apply seg_read_u32.
Qed.

Lemma le_word_app l l' : le_word (l ++ l') = le_word l + 256 ^ zlength l * le_word l'.
Proof.
  induction l as [|b l IH]; [change (256 ^ zlength (@nil byte)) with 1; cbn [app le_word]; lia|]. cbn [app le_word]. rewrite IH, zlength_cons, Z.pow_add_r by (pose proof (zlength_nonneg l); lia). lia.
Qed.

Lemma read_word8 data offset : 0 <= offset -> offset + 8 <= zlength data -> read_u64 data offset = Ret (word data offset 8).
Proof.
  intros Ho Hl. unfold read_u64. rewrite (read_word4 data offset), (read_word4 data (offset + 4)), !Ret_bind by lia. f_equal. unfold word.
  assert (chars data offset 8 = chars data offset 4 ++ chars data (offset + 4) 4) as ->.
  { unfold chars. rewrite Z2Nat.inj_add, <- drop_drop by lia. change (Z.to_nat 8) with (Z.to_nat 4 + Z.to_nat 4)%nat.
    by rewrite take_take_drop. }
  rewrite le_word_app, zlength_chars by lia. change (256 ^ 4) with (2 ^ 32). lia.
Qed.

(** ** The values of elements *)

(** The bytes an instruction reads, and the value it makes of them. *)
Definition load_width (op : load_opcode) (a : zaclr_array_desc) : Z :=
  match op with
  | CEE_LDELEM_I1 | CEE_LDELEM_U1 => 1
  | CEE_LDELEM_I2 | CEE_LDELEM_U2 => 2
  | CEE_LDELEM_I4 | CEE_LDELEM_U4 | CEE_LDELEM_I | CEE_LDELEM_R4 => 4
  | CEE_LDELEM_I8 | CEE_LDELEM_R8 | CEE_LDELEM_REF => 8
  | CEE_LDELEM => if token_is_heap_reference (ar_element_type a) then 8 else ar_element_size a
  end.

Definition loaded (op : load_opcode) (a : zaclr_array_desc) (w : Z) : zaclr_stack_value :=
  match op with
  | CEE_LDELEM_I1 => value_of_i4 (signed 8 w)
  | CEE_LDELEM_I2 => value_of_i4 (signed 16 w)
  | CEE_LDELEM_U1 | CEE_LDELEM_U2 => value_of_i4 w
  | CEE_LDELEM_I4 | CEE_LDELEM_U4 | CEE_LDELEM_I => value_of_i4 (i32 w)
  | CEE_LDELEM_I8 => value_of_i8 (i64 w)
  | CEE_LDELEM_R4 => value_of_r4 w
  | CEE_LDELEM_R8 => value_of_r8 w
  | CEE_LDELEM_REF => reference_value w
  | CEE_LDELEM =>
    if token_is_heap_reference (ar_element_type a) then reference_value w
    else if ar_element_size a =? 4 then value_of_i4 (i32 w)
    else if ar_element_size a =? 8 then value_of_i8 (i64 w)
    else value_of_i4 w
  end.

(** The sizes for which the instructions with a token are implemented. *)
Definition simple (a : zaclr_array_desc) : Prop :=
  token_is_heap_reference (ar_element_type a) = true \/ ar_element_size a = 1 \/ ar_element_size a = 2 \/ ar_element_size a = 4 \/ ar_element_size a = 8.

Lemma answer_bind {K A B} (o : A) (k : A -> heap_exec K B) : (answer (Ret o) ≫= k) = k o.
Proof. done. Qed.

Lemma push_reference {K} `{KernelHeap K} w : push_object_handle (K := K) w = push (reference_value w).
Proof. unfold push_object_handle. by rewrite heap_get_object_id. Qed.

Lemma element_value_spec {K} `{KernelHeap K} op a offset : 0 <= offset -> 0 < load_width op a -> offset + load_width op a <= zlength (ar_data a) ->
  (op = CEE_LDELEM -> simple a) ->
  element_value op a offset = in_frame (K := K) (push (loaded op a (word (ar_data a) offset (load_width op a)))).
Proof.
  intros Ho Hw Hl Hs. unfold element_value, load_width, loaded in *. unfold read_object_handle_value.
  destruct op.
  1,2: by rewrite (read_word1 _ _ Ho Hl), answer_bind.
  1,2: by rewrite (read_word2 _ _ Ho Hl), answer_bind.
  1,2,4,5: by rewrite (read_word4 _ _ Ho Hl), answer_bind.
  1,2: by rewrite (read_word8 _ _ Ho Hl), answer_bind.
  1: by rewrite (read_word8 _ _ Ho Hl), answer_bind, push_reference.
  destruct (token_is_heap_reference (ar_element_type a)) eqn:Et; [by rewrite (read_word8 _ _ Ho Hl), answer_bind, push_reference|].
  destruct (Hs eq_refl) as [?|[E|[E|[E|E]]]]; [congruence|rewrite E in Hl |- *; cbn [Z.eqb Pos.eqb]..].
  - by rewrite (read_word1 _ _ Ho Hl), answer_bind.
  - by rewrite (read_word2 _ _ Ho Hl), answer_bind.
  - by rewrite (read_word4 _ _ Ho Hl), answer_bind.
  - by rewrite (read_word8 _ _ Ho Hl), answer_bind.
Qed.

(** ** Words modulo their width *)

Lemma i32_congr w : exists k, i32 w = w + k * 2 ^ 32.
Proof.
  unfold i32, u32. pose proof (Z.div_mod w (2 ^ 32) ltac:(lia)). case_if; [exists (- (w / 2 ^ 32))|exists (- (w / 2 ^ 32) - 1)]; lia.
Qed.

Lemma i64_congr w : exists k, i64 w = w + k * 2 ^ 64.
Proof.
  unfold i64, u64. pose proof (Z.div_mod w (2 ^ 64) ltac:(lia)). case_if; [exists (- (w / 2 ^ 64))|exists (- (w / 2 ^ 64) - 1)]; lia.
Qed.

Lemma i32_mod w m : 0 < m -> (m | 2 ^ 32) -> i32 w mod m = w mod m.
Proof. intros Hm [d Hd]. destruct (i32_congr w) as [k ->]. rewrite Hd, Z.mul_assoc. by apply Z.mod_add; lia. Qed.

Lemma i64_mod_word w : i64 w mod 2 ^ 64 = w mod 2 ^ 64.
Proof. destruct (i64_congr w) as [k ->]. by apply Z.mod_add. Qed.

Lemma signed_mod n w : 0 < n -> signed n (w mod 2 ^ n) = signed n w.
Proof. intros Hn. unfold signed, wrap. by rewrite Z.mod_mod by lia. Qed.

Lemma i32_of_mod w : i32 (w mod 2 ^ 32) = i32 w.
Proof. unfold i32, u32. by rewrite Z.mod_mod by lia. Qed.

Lemma i64_of_mod w : i64 (w mod 2 ^ 64) = i64 w.
Proof. unfold i64, u64. by rewrite Z.mod_mod by lia. Qed.

Lemma float_bits w : u32 (Z.shiftr (i64 (Z.shiftl (i32 w) (k_float64_shift - k_float32_shift))) (k_float64_shift - k_float32_shift)) = u32 w.
Proof.
  assert (- 2 ^ 31 <= i32 w < 2 ^ 31) as Hr.
  { unfold i32, u32. pose proof (Z.mod_pos_bound w (2 ^ 32) ltac:(lia)). case_if; lia. }
  rewrite i64_id by (rewrite Z.shiftl_mul_pow2 by done; unfold k_float64_shift, k_float32_shift; lia).
  rewrite Z.shiftr_shiftl_l by done. rewrite Z.sub_diag, Z.shiftl_0_r. by apply i32_mod; [|exists 1].
Qed.

(** ** Running instructions *)

Section running.
Context {K : Type} `{KernelHeap K}.
Implicit Types (s : heap_state K).

Definition with_frame s (f : Frame.zaclr_frame) : heap_state K := mk_heap_state (hs_runtime s) (hs_buffers s) f.
Definition on_stack s (st : zaclr_eval_stack) : heap_state K := with_frame s (set_eval_stack st (hs_frame s)).
Definition moved s (n : Z) : heap_state K := with_frame s (set_il_offset (u32 (il_offset (hs_frame s) + n)) (hs_frame s)).

Lemma in_frame_run {A} (c : exec K A) s o f :
  c (frame_state s) = (o, mk_fstate (fs_store (frame_state s)) f (fs_exception (frame_state s))) -> in_frame c s = (o, with_frame s f).
Proof. intros E. unfold in_frame. rewrite E. destruct s as [[[] ? ? ? ? ?] ? ?]. done. Qed.

Lemma pop_step s st v : eval_stack (hs_frame s) = pushed st v -> room st 1 -> in_frame pop s = (Ret v, on_stack s st).
Proof. intros E Hr. apply in_frame_run. unfold pop, frame_state. cbn. by rewrite E, pop_pushed. Qed.

Lemma push_step s v : room (eval_stack (hs_frame s)) 1 -> is_valuetype v = false ->
  in_frame (push v) s = (Ret (), on_stack s (pushed (eval_stack (hs_frame s)) v)).
Proof. intros Hr Hv. apply in_frame_run. unfold push, frame_state. cbn. by rewrite push_value. Qed.

Lemma advance_step s n : in_frame (advance n) s = (Ret (), moved s n).
Proof. by apply in_frame_run. Qed.

Lemma store_step {A} (g : store K -> outcome A) s : in_frame (on_store g) s = (g (fs_store (frame_state s)), s).
Proof. rewrite (in_frame_run _ _ (g (fs_store (frame_state s))) (hs_frame s)) by done. by destruct s. Qed.

Lemma bind_step {A B} (c : heap_exec K A) (k : A -> heap_exec K B) s a s' : c s = (Ret a, s') -> (c ≫= k) s = k a s'.
Proof. intros E. unfold mbind, heap_exec_bind. by rewrite E. Qed.

Lemma bind_error {A B} (c : heap_exec K A) (k : A -> heap_exec K B) s r s' : c s = (Err r, s') -> (c ≫= k) s = (Err r, s').
Proof. intros E. unfold mbind, heap_exec_bind. by rewrite E. Qed.

(** The two operands are popped before the array is looked at. *)
Lemma pop_element_any s st o v i : eval_stack (hs_frame s) = pushed (pushed st o) v -> room st 2 ->
  (forall t : store K, stack_value_to_i32 t v = Ret i) ->
  pop_element s = (array ← answer (stack_value_to_object_reference o); mret (array, u32 i)) (on_stack s st).
Proof.
  intros E Hr Hi. unfold pop_element. erewrite bind_step; [|eapply pop_step; [exact E|apply room_pushed; [lia|exact Hr]]].
  erewrite bind_step; [|eapply pop_step; [reflexivity|eapply room_weaken; [|exact Hr]; lia]].
  erewrite bind_step; [|rewrite store_step; unfold stack_value_to_u32; rewrite Hi, Ret_bind; reflexivity]. done.
Qed.

Lemma pop_element_step s st p i : eval_stack (hs_frame s) = pushed (pushed st (reference_value p)) (value_of_i4 i) -> room st 2 -> in_int 32 i ->
  pop_element s = (Ret (p, u32 i), on_stack s st).
Proof. intros E Hr Hi. rewrite (pop_element_any s st (reference_value p) (value_of_i4 i) i); [done..|]. intros t. by apply read_i4. Qed.

(** ** Stores and loads that fit together *)

Inductive matching (a : zaclr_array_desc) : store_opcode -> load_opcode -> zaclr_stack_value -> zaclr_stack_value -> Prop :=
| match_i1 w : 1 <= ar_element_size a -> matching a CEE_STELEM_I1 CEE_LDELEM_I1 (value_of_i4 w) (value_of_i4 (signed 8 w))
| match_u1 w : 1 <= ar_element_size a -> matching a CEE_STELEM_I1 CEE_LDELEM_U1 (value_of_i4 w) (value_of_i4 (u8 w))
| match_i2 w : 2 <= ar_element_size a -> matching a CEE_STELEM_I2 CEE_LDELEM_I2 (value_of_i4 w) (value_of_i4 (signed 16 w))
| match_u2 w : 2 <= ar_element_size a -> matching a CEE_STELEM_I2 CEE_LDELEM_U2 (value_of_i4 w) (value_of_i4 (u16 w))
| match_i4 w : 4 <= ar_element_size a -> matching a CEE_STELEM_I4 CEE_LDELEM_I4 (value_of_i4 w) (value_of_i4 (i32 w))
| match_u4 w : 4 <= ar_element_size a -> matching a CEE_STELEM_I4 CEE_LDELEM_U4 (value_of_i4 w) (value_of_i4 (i32 w))
| match_i w : 4 <= ar_element_size a -> matching a CEE_STELEM_I CEE_LDELEM_I (value_of_i4 w) (value_of_i4 (i32 w))
| match_i8 w : 8 <= ar_element_size a -> matching a CEE_STELEM_I8 CEE_LDELEM_I8 (value_of_i8 w) (value_of_i8 (i64 w))
| match_r4 w : 4 <= ar_element_size a -> matching a CEE_STELEM_R4 CEE_LDELEM_R4 (value_of_r4 w) (value_of_r4 (u32 w))
| match_r8 w : 8 <= ar_element_size a -> matching a CEE_STELEM_R8 CEE_LDELEM_R8 (value_of_r8 w) (value_of_r8 (u64 w))
| match_ref p : 8 <= ar_element_size a -> 0 <= p < 2 ^ 64 -> matching a CEE_STELEM_REF CEE_LDELEM_REF (reference_value p) (reference_value p)
| match_token_ref p : 8 <= ar_element_size a -> 0 <= p < 2 ^ 64 -> token_is_heap_reference (ar_element_type a) = true ->
    matching a CEE_STELEM CEE_LDELEM (reference_value p) (reference_value p)
| match_token_1 w : token_is_heap_reference (ar_element_type a) = false -> ar_element_size a = 1 ->
    matching a CEE_STELEM CEE_LDELEM (value_of_i4 w) (value_of_i4 (u8 w))
| match_token_2 w : token_is_heap_reference (ar_element_type a) = false -> ar_element_size a = 2 ->
    matching a CEE_STELEM CEE_LDELEM (value_of_i4 w) (value_of_i4 (u16 w))
| match_token_4 w : token_is_heap_reference (ar_element_type a) = false -> ar_element_size a = 4 ->
    matching a CEE_STELEM CEE_LDELEM (value_of_i4 w) (value_of_i4 (i32 w))
| match_token_8 w : token_is_heap_reference (ar_element_type a) = false -> ar_element_size a = 8 ->
    matching a CEE_STELEM CEE_LDELEM (value_of_i8 w) (value_of_i8 (i64 w)).

(** The bytes of a value that is converted from the stack. *)
Ltac stored := intros s; unfold element_bytes; rewrite_all_tokens; first [erewrite bind_step; [reflexivity|rewrite store_step; reflexivity] | reflexivity]
with rewrite_all_tokens := repeat match goal with
  | Et : token_is_heap_reference _ = _ |- _ => rewrite Et; clear Et
  | Es : ar_element_size _ = _ |- _ => rewrite Es; clear Es; cbn [Z.eqb Pos.eqb]
  end.

Lemma matching_spec a so lo v v' : matching a so lo v v' -> exists n w, n = load_width lo a /\ 1 <= n <= ar_element_size a /\
  (forall s, element_bytes so a v s = (Ret (le_bytes (Z.to_nat n) w), s)) /\ loaded lo a (w mod 256 ^ n) = v' /\ (lo = CEE_LDELEM -> simple a).
Proof.
  assert (forall w, i32 w mod 2 ^ 8 = w mod 2 ^ 8) as H8 by (intros w; apply i32_mod; [done|by exists (2 ^ 24)]).
  assert (forall w, i32 w mod 2 ^ 16 = w mod 2 ^ 16) as H16 by (intros w; apply i32_mod; [done|by exists (2 ^ 16)]).
  assert (forall w, i32 w mod 2 ^ 32 = w mod 2 ^ 32) as H32 by (intros w; apply i32_mod; [done|by exists 1]).
  intros Hm. destruct Hm as [w He|w He|w He|w He|w He|w He|w He|w He|w He|w He|p He Hp|p He Hp Et|w Et Es|w Et Es|w Et Es|w Et Es].
  - exists 1, (i32 w). do 2 (split; [done || lia|]). split; [stored|]. split; [|done]. unfold loaded. change (256 ^ 1) with (2 ^ 8).
    by rewrite H8, signed_mod.
  - exists 1, (i32 w). do 2 (split; [done || lia|]). split; [stored|]. split; [|done]. unfold loaded. change (256 ^ 1) with (2 ^ 8). by rewrite H8.
  - exists 2, (u16 (i32 w)). do 2 (split; [done || lia|]). split; [stored|]. split; [|done]. unfold loaded. change (256 ^ 2) with (2 ^ 16).
    unfold u16. by rewrite Z.mod_mod, H16, signed_mod.
  - exists 2, (u16 (i32 w)). do 2 (split; [done || lia|]). split; [stored|]. split; [|done]. unfold loaded. change (256 ^ 2) with (2 ^ 16).
    unfold u16. by rewrite Z.mod_mod, H16.
  - exists 4, (u32 (i32 w)). do 2 (split; [done || lia|]). split; [stored|]. split; [|done]. unfold loaded. change (256 ^ 4) with (2 ^ 32).
    unfold u32. by rewrite Z.mod_mod, H32, i32_of_mod.
  - exists 4, (u32 (i32 w)). do 2 (split; [done || lia|]). split; [stored|]. split; [|done]. unfold loaded. change (256 ^ 4) with (2 ^ 32).
    unfold u32. by rewrite Z.mod_mod, H32, i32_of_mod.
  - exists 4, (u32 (i32 w)). do 2 (split; [done || lia|]). split; [stored|]. split; [|done]. unfold loaded. change (256 ^ 4) with (2 ^ 32).
    unfold u32. by rewrite Z.mod_mod, H32, i32_of_mod.
  - exists 8, (u64 (i64 w)). do 2 (split; [done || lia|]). split; [stored|]. split; [|done]. unfold loaded. change (256 ^ 8) with (2 ^ 64).
    unfold u64. by rewrite Z.mod_mod, i64_mod_word, i64_of_mod.
  - exists 4, (u32 w). do 2 (split; [done || lia|]). split; [intros s; rewrite <- (float_bits w); reflexivity|]. split; [|done]. unfold loaded.
    change (256 ^ 4) with (2 ^ 32). unfold u32. by rewrite Z.mod_mod.
  - exists 8, (u64 (i64 w)). do 2 (split; [done || lia|]). split; [stored|]. split; [|done]. unfold loaded. change (256 ^ 8) with (2 ^ 64).
    unfold u64. by rewrite Z.mod_mod, i64_mod_word.
  - exists 8, p. do 2 (split; [done || lia|]). split; [stored|]. split; [|done]. unfold loaded. change (256 ^ 8) with (2 ^ 64). by rewrite Z.mod_small.
  - exists 8, p. unfold load_width, loaded. rewrite Et. do 2 (split; [done || lia|]). split; [stored|]. split; [|by left].
    change (256 ^ 8) with (2 ^ 64). by rewrite Z.mod_small.
  - exists 1, (i32 w). unfold load_width, loaded. rewrite Et, Es. do 2 (split; [done || lia|]). split; [stored|]. split; [|by right; left].
    change (256 ^ 1) with (2 ^ 8). by rewrite H8.
  - exists 2, (u16 (i32 w)). unfold load_width, loaded. rewrite Et, Es. do 2 (split; [done || lia|]). split; [stored|]. split; [|by do 2 right; left].
    change (256 ^ 2) with (2 ^ 16). unfold u16. by rewrite Z.mod_mod, H16.
  - exists 4, (u32 (i32 w)). unfold load_width, loaded. rewrite Et, Es. do 2 (split; [done || lia|]). split; [stored|]. split; [|by do 3 right; left].
    change (256 ^ 4) with (2 ^ 32). cbn [Z.eqb Pos.eqb]. unfold u32. by rewrite Z.mod_mod, H32, i32_of_mod.
  - exists 8, (u64 (i64 w)). unfold load_width, loaded. rewrite Et, Es. do 2 (split; [done || lia|]). split; [stored|]. split; [|by do 4 right].
    change (256 ^ 8) with (2 ^ 64). cbn [Z.eqb Pos.eqb]. unfold u64. by rewrite Z.mod_mod, i64_mod_word, i64_of_mod.
Qed.

(** ** Accesses *)

(** The data of an array are its elements. *)
Record array_ok (a : zaclr_array_desc) : Prop := {
  ao_length : 0 <= ar_length a < 2 ^ 31;
  ao_size : 0 < ar_element_size a;
  ao_data : zlength (ar_data a) = ar_length a * ar_element_size a }.

Definition objects_in s : objects := mg_objects (rt_managed (hs_runtime s)).
Definition array_in s (p : Z) (a : zaclr_array_desc) : Prop := p <> 0 /\ exists o, objects_in s !! p = Some o /\ array_of o = Some a.

(** The bytes of an element. *)
Definition element (a : zaclr_array_desc) (i : Z) : list byte := chars (ar_data a) (i * ar_element_size a) (ar_element_size a).

Definition set_data (a : zaclr_array_desc) (data : list byte) : zaclr_array_desc :=
  mk_array (ar_length a) (ar_element_size a) (ar_element_type a) data.

Definition with_array s (p : Z) (a : zaclr_array_desc) : heap_state K :=
  mk_heap_state (update_object p (set_array a) (hs_runtime s)) (hs_buffers s) (hs_frame s).

Definition load_size (op : load_opcode) : Z := match op with CEE_LDELEM => 5 | _ => 1 end.
Definition store_size (op : store_opcode) : Z := match op with CEE_STELEM => 5 | _ => 1 end.

Lemma array_length_ok a : array_ok a -> zaclr_array_length (Some a) = ar_length a.
Proof. intros [Hl _ _]. unfold zaclr_array_length. by rewrite u32_id by lia. Qed.

Lemma element_bounds a i : array_ok a -> 0 <= i < ar_length a -> 0 <= i * ar_element_size a /\ i * ar_element_size a + ar_element_size a <= zlength (ar_data a).
Proof. intros [Hl Hs Hd] Hi. rewrite Hd. nia. Qed.

Lemma array_at_step s p a : array_in s p a -> array_at p s = (Ret a, s).
Proof. intros (_ & o & Ho & Ha). unfold array_at. unfold objects_in in Ho. rewrite Ho. cbn. by rewrite Ha. Qed.

Lemma array_in_moved s st n p a : array_in s p a -> array_in (moved (on_stack s st) n) p a.
Proof. done. Qed.

(** An index outside the array. *)
Lemma write_outside s p a i op v : array_in s p a -> array_ok a -> ar_length a <= i ->
  write_array_indexed_value p i op v s = (Err (exec_error ZACLR_STATUS_DISPATCH_ERROR), s).
Proof.
  intros Ha Hok Hi. unfold write_array_indexed_value. erewrite bind_step; [|by apply array_at_step]. rewrite array_length_ok by done.
  by rewrite (proj2 (Z.leb_le _ _) Hi).
Qed.

Lemma read_outside s p a i op : array_in s p a -> array_ok a -> ar_length a <= i ->
  read_array_indexed_value p i op s = (Err (exec_error ZACLR_STATUS_DISPATCH_ERROR), s).
Proof.
  intros Ha Hok Hi. unfold read_array_indexed_value. erewrite bind_step; [|by apply array_at_step]. rewrite array_length_ok by done.
  by rewrite (proj2 (Z.leb_le _ _) Hi).
Qed.

Lemma write_inside s p a i op v bytes : array_in s p a -> array_ok a -> 0 <= i < ar_length a ->
  element_bytes op a v s = (Ret bytes, s) -> zlength bytes <= ar_element_size a ->
  exists data, write_bytes (ar_data a) (i * ar_element_size a) bytes = Ret data /\
    write_array_indexed_value p i op v s = (Ret (), with_array s p (set_data a data)).
Proof.
  intros Ha Hok Hi Hb Hz. destruct (element_bounds a i Hok Hi) as [B1 B2].
  destruct (write_bytes_Ret (ar_data a) (i * ar_element_size a) bytes B1 ltac:(lia)) as (data & E & _). exists data. split; [done|].
  unfold write_array_indexed_value. erewrite bind_step; [|by apply array_at_step]. rewrite array_length_ok by done.
  rewrite (proj2 (Z.leb_gt _ _)) by lia. erewrite bind_step; [|exact Hb]. unfold zaclr_array_element_size. rewrite E. done.
Qed.

Lemma read_inside s p a i op : array_in s p a -> array_ok a -> 0 <= i < ar_length a -> 1 <= load_width op a <= ar_element_size a ->
  (op = CEE_LDELEM -> simple a) ->
  read_array_indexed_value p i op s = in_frame (push (loaded op a (word (ar_data a) (i * ar_element_size a) (load_width op a)))) s.
Proof.
  intros Ha Hok Hi Hw Hs. destruct (element_bounds a i Hok Hi) as [B1 B2].
  unfold read_array_indexed_value. erewrite bind_step; [|by apply array_at_step]. rewrite array_length_ok by done.
  rewrite (proj2 (Z.leb_gt _ _)) by lia. unfold zaclr_array_element_size. by rewrite element_value_spec by (done || lia).
Qed.

(** The operands on the evaluation stack. *)
Definition element_operands s (st : zaclr_eval_stack) (p i : Z) : Prop :=
  eval_stack (hs_frame s) = pushed (pushed st (reference_value p)) (value_of_i4 i) /\ room st 2 /\ in_int 32 i.

Lemma ldelem_enter op s st p i : element_operands s st p i -> p <> 0 ->
  step_ldelem op s = read_array_indexed_value p (u32 i) op (moved (on_stack s st) (load_size op)).
Proof.
  intros (E & Hr & Hi) Hp. unfold step_ldelem. erewrite bind_step; [|by apply pop_element_step]. cbv beta iota. rewrite (proj2 (Z.eqb_neq _ _) Hp).
  erewrite bind_step; [|apply advance_step]. done.
Qed.

Lemma stelem_enter op s st p i v : eval_stack (hs_frame s) = pushed (pushed (pushed st (reference_value p)) (value_of_i4 i)) v -> room st 3 ->
  in_int 32 i -> p <> 0 -> step_stelem op s = write_array_indexed_value p (u32 i) op v (moved (on_stack s st) (store_size op)).
Proof.
  intros E Hr Hi Hp. unfold step_stelem.
  erewrite bind_step; [|eapply pop_step; [exact E|apply room_pushed; [lia|apply room_pushed; [lia|exact Hr]]]].
  erewrite bind_step; [|eapply pop_element_step; [reflexivity|eapply room_weaken; [|exact Hr]; lia|done]].
  cbv beta iota. rewrite (proj2 (Z.eqb_neq _ _) Hp). erewrite bind_step; [|apply advance_step]. done.
Qed.

(** Operands that are refused: [i] is what the code takes for the index, the low 32 bits
    of the index value. *)
Inductive bad_access s (i : Z) : zaclr_stack_value -> zaclr_result -> Prop :=
| bad_kind o : sv_kind o <> ZACLR_STACK_VALUE_OBJECT_REFERENCE -> bad_access s i o (exec_error ZACLR_STATUS_DISPATCH_ERROR)
| bad_null : bad_access s i (reference_value 0) (heap_error ZACLR_STATUS_NOT_FOUND)
| bad_index p a : array_in s p a -> array_ok a -> i < 0 \/ ar_length a <= i ->
    bad_access s i (reference_value p) (exec_error ZACLR_STATUS_DISPATCH_ERROR).

Definition refused s (st : zaclr_eval_stack) (r : zaclr_result) (x : outcome unit * heap_state K) : Prop :=
  x.1 = Err r /\ hs_runtime x.2 = hs_runtime s /\ hs_buffers x.2 = hs_buffers s /\ eval_stack (hs_frame x.2) = st.

Lemma outside_index (a : zaclr_array_desc) i : array_ok a -> in_int 32 i -> i < 0 \/ ar_length a <= i -> ar_length a <= u32 i.
Proof.
  intros [Hl _ _] Hi [Hn|Hn]; [|rewrite u32_id; [done|unfold in_int in Hi; lia]]. unfold in_int in Hi. unfold u32.
  rewrite <- (Z.mod_add _ 1), Z.mod_small by lia. lia.
Qed.

(** An access that pops its two operands, refuses the null array, advances, and then
    refuses an index outside the array. *)
Lemma access_refused s st o i r n (access : Z -> Z -> heap_exec K unit) : bad_access s i o r ->
  forall v, eval_stack (hs_frame s) = pushed (pushed st o) v -> room st 2 -> (forall t : store K, stack_value_to_i32 t v = Ret i) ->
  in_int 32 i -> (forall p a, array_in s p a -> array_ok a -> ar_length a <= u32 i ->
     access p (u32 i) (moved (on_stack s st) n) = (Err (exec_error ZACLR_STATUS_DISPATCH_ERROR), moved (on_stack s st) n)) ->
  refused s st r (('(array, index) ← pop_element;
                   if array =? 0 then heap_not_found else _ ← in_frame (advance n); access array index) s).
Proof.
  intros Hb v E Hr Hv Hi Hacc. unfold mbind at 1, heap_exec_bind at 1. rewrite (pop_element_any s st o v i E Hr Hv).
  destruct Hb as [o Hk| |p a Ha Hok Ho].
  - unfold stack_value_to_object_reference. rewrite (proj2 (Z.eqb_neq _ _) Hk). done.
  - done.
  - change (refused s st (exec_error ZACLR_STATUS_DISPATCH_ERROR)
      ((if p =? 0 then heap_not_found else (_ ← in_frame (advance n); access p (u32 i))) (on_stack s st))).
    rewrite (proj2 (Z.eqb_neq _ _) (proj1 Ha)). erewrite bind_step; [|apply advance_step].
    rewrite (Hacc p a Ha Hok) by (by apply outside_index). done.
Qed.

Lemma loaded_plain op a w : is_valuetype (loaded op a w) = false.
Proof. destruct op; try done. cbn [loaded]. by repeat case_if. Qed.

Lemma array_in_with s p a a' : array_in s p a -> array_in (with_array s p a') p a'.
Proof.
  intros (Hp & o & Ho & _). split; [done|]. exists (set_array a' o). unfold objects_in in *. cbn. rewrite lookup_alter_eq, Ho. by destruct a'.
Qed.

Lemma word_chars data offset n w : read_bytes data offset n = Ret (le_bytes (Z.to_nat n) w) -> 0 <= n ->
  word data offset n = w mod 256 ^ n.
Proof.
  unfold read_bytes. case_if; [done|]. intros [= E] Hn. unfold word. by rewrite E, le_word_bytes, Z2Nat.id.
Qed.

End running.

(** What a store writes. *)
Lemma stelem_stores {K} `{KernelHeap K} (s : heap_state K) st p a i so lo v v' :
  array_in s p a -> array_ok a -> 0 <= i < ar_length a -> matching a so lo v v' ->
  eval_stack (hs_frame s) = pushed (pushed (pushed st (reference_value p)) (value_of_i4 i)) v -> room st 3 ->
  exists n w data, step_stelem so s = (Ret (), with_array (moved (on_stack s st) (store_size so)) p (set_data a data)) /\
    array_ok (set_data a data) /\ n = load_width lo a /\ 1 <= n <= ar_element_size a /\ loaded lo a (w mod 256 ^ n) = v' /\
    (lo = CEE_LDELEM -> simple a) /\ word data (i * ar_element_size a) n = w mod 256 ^ n /\
    forall o m, 0 <= o -> 0 <= m -> o + m <= zlength (ar_data a) -> o + m <= i * ar_element_size a \/ i * ar_element_size a + n <= o ->
      chars data o m = chars (ar_data a) o m.
Proof.
  intros Ha Hok Hi Hm E Hr. destruct (matching_spec (K := K) a so lo v v' Hm) as (n & w & Hn & Hw & Hb & Hv & Hs).
  destruct (element_bounds a i Hok Hi) as [B1 B2]. pose proof (ao_length a Hok) as Hl. destruct Ha as [Hp Ha].
  assert (zlength (le_bytes (Z.to_nat n) w) = n) as Hbl by (unfold zlength; rewrite le_bytes_length; lia).
  destruct (write_bytes_Ret (ar_data a) (i * ar_element_size a) (le_bytes (Z.to_nat n) w) B1 ltac:(lia)) as (data & Ew & Ld & Rd & Od).
  rewrite Hbl in Rd, Od. exists n, w, data.
  destruct (write_inside (moved (on_stack s st) (store_size so)) p a i so v _ (conj Hp Ha) Hok Hi (Hb _) ltac:(lia)) as (data2 & Ew2 & Es).
  rewrite Ew in Ew2. injection Ew2 as <-. assert (in_int 32 i) as Hi32 by (unfold in_int; lia).
  split; [by rewrite (stelem_enter so s st p i v), u32_id by (done || lia)|].
  split; [split; cbn; [done|apply Hok|by rewrite Ld; apply Hok]|]. do 4 (split; [done|]). split; [by apply word_chars; [|lia]|].
  intros o m Ho Hm' Hz Hd. specialize (Od o m Ho Hm' Hd). unfold read_bytes in Od. rewrite Ld in Od.
  rewrite (proj2 (Z.ltb_ge _ _) Ho), (proj2 (Z.ltb_ge _ _) Hz) in Od. by injection Od.
Qed.

(** C11: An element is what was stored.  On a well-formed array, [stelem] at an index below the
    length changes exactly the bytes of that element, no other element, object or part of
    the frame, and a later [ldelem] of the same kind at that index pushes the value, cut
    to the width of the element and extended with or without its sign as the instruction
    says.  This covers the integer, the floating-point and the reference instructions
    and both instructions with a token. *)
Theorem array_store_load {K} `{KernelHeap K} (s : heap_state K) st p a i so lo v v' :
  array_in s p a -> array_ok a -> 0 <= i < ar_length a -> matching a so lo v v' ->
  eval_stack (hs_frame s) = pushed (pushed (pushed st (reference_value p)) (value_of_i4 i)) v -> room st 3 ->
  exists data, step_stelem so s = (Ret (), with_array (moved (on_stack s st) (store_size so)) p (set_data a data)) /\
    array_ok (set_data a data) /\
    (forall j, 0 <= j < ar_length a -> j <> i -> element (set_data a data) j = element a j) /\
    forall s2 st2, array_in s2 p (set_data a data) -> element_operands s2 st2 p i ->
      step_ldelem lo s2 = (Ret (), on_stack (moved (on_stack s2 st2) (load_size lo)) (pushed st2 v')).
Proof.
  intros Ha Hok Hi Hm E Hr. destruct (stelem_stores s st p a i so lo v v' Ha Hok Hi Hm E Hr) as (n & w & data & Es & Hok' & Hn & Hw & Hv & Hs & Hword & Hrest).
  pose proof (ao_length a Hok) as Hl. pose proof (ao_size a Hok) as Hz. destruct Ha as [Hp Ha]. exists data. split; [done|]. split; [done|]. split.
  - intros j Hj Hne. destruct (element_bounds a j Hok Hj) as [C1 C2]. unfold element. cbn [ar_data ar_element_size set_data].
    apply Hrest; [done|lia|done|nia].
  - intros s2 st2 Ha2 Hop. pose proof Hop as (_ & Hr2 & _). rewrite (ldelem_enter lo s2 st2 p i Hop Hp), u32_id by lia.
    assert (load_width lo (set_data a data) = n) as Hwd by (rewrite Hn; by destruct lo).
    rewrite (read_inside _ p (set_data a data) i lo) by (done || (cbn; lia) || (rewrite Hwd; cbn; lia)).
    rewrite Hwd. cbn [ar_data ar_element_size set_data]. rewrite Hword.
    rewrite push_step; [|eapply room_weaken; [|exact Hr2]; lia|apply loaded_plain]. rewrite <- Hv. by destruct lo.
Qed.

(** C15: Accesses are checked on the low 32 bits of their index.  The index is an integer of
    either width, [i]; the code truncates it to 32 bits.  A value that is not a reference,
    the null array, and an index whose low 32 bits are, as a signed number, negative or
    not below the length make the loads and the stores fail with DISPATCH_ERROR,
    NOT_FOUND and DISPATCH_ERROR; the operands have been taken off the evaluation stack,
    and the heap, the arrays and the buffers of values are unchanged.  A 32-bit index is
    its own truncation, so every 32-bit index outside the array is refused; a 64-bit one
    is not ([wide_index_truncated]). *)
Theorem array_access_checked {K} `{KernelHeap K} (s : heap_state K) st o wide i r so lo v : in_int (int_width wide) i -> room st 3 ->
  bad_access s (signed 32 i) o r -> (wide = false -> signed 32 i = i) /\
  (eval_stack (hs_frame s) = pushed (pushed st o) (int_of wide i) -> refused s st r (step_ldelem lo s)) /\
  (eval_stack (hs_frame s) = pushed (pushed (pushed st o) (int_of wide i)) v -> refused s st r (step_stelem so s)).
Proof.
  intros Hi Hr Hb. assert (room st 2) as Hr2 by (eapply room_weaken; [|exact Hr]; lia).
  assert (in_int 32 (signed 32 i)) as Hs by (apply signed_range; lia).
  assert (forall t : store K, stack_value_to_i32 t (int_of wide i) = Ret (signed 32 i)) as Hv by (intros t; by apply read_i32).
  split; [intros ->; by apply signed_id|]. split; intros E.
  - apply (access_refused s st o (signed 32 i) r (load_size lo) (fun p i => read_array_indexed_value p i lo) Hb (int_of wide i)); try done.
    intros p a Ha Hok Hl. by apply (read_outside _ p a).
  - unfold step_stelem. erewrite bind_step; [|eapply pop_step; [exact E|apply room_pushed; [lia|apply room_pushed; [lia|exact Hr]]]].
    apply (access_refused (on_stack s (pushed (pushed st o) (int_of wide i))) st o (signed 32 i) r (store_size so)
      (fun p i => write_array_indexed_value p i so v)) with (v := int_of wide i); try done.
    + destruct Hb; [by constructor|by constructor|by eapply bad_index].
    + intros p a Ha Hok Hl. by apply (write_outside _ p a).
Qed.

End ArraysCorrect.
