(* ===== verification/ArraysHeap.v ===== *)
(** * Arrays in the collected heap

    [newarr] gives a zeroed array that the frame holds, whatever collections it runs, and
    storing references in arrays keeps the heap well linked: the invariant of the
    collector is an invariant of the array instructions. *)

From Stdlib Require Import Strings.Byte Strings.String.
From stdpp Require Import relations.
From S2P Require Import Prelude Status Bytes Token KernelHeap HandleTable TypeMap EvalStack ManagedObject ManagedHeap Gc GcMark GcCollect GcAllocate ObjectGraph.
From S2P Require Import GenericContext EmulatedFloat Opcode Frame Arith Exceptions Dispatch DispatchSafe Program Arrays ArraysCorrect.

Module ArraysHeap.
Import EmulatedFloat Frame Arith Exceptions Program Arrays ArraysCorrect.

Section heap.
Context {K : Type} `{KernelHeapLaws K}.
Implicit Types (rt : zaclr_runtime K) (s : heap_state K).

(** ** Changes that keep the runtime well formed *)

Lemma runtime_ok_objects rt objs : runtime_ok rt -> (forall q, is_Some (objs !! q) <-> is_Some (objects_of rt !! q)) ->
  well_linked objs -> unpinned objs -> runtime_ok (set_objects rt objs).
Proof.
  intros Hok Hdom Hlink Hpin. pose proof Hok as [A1 A2 A3 A4 A5 A6 A7 A8 A9 A10 A11].
  assert (forall q, objects_of rt !! q = None -> objs !! q = None) as Hnone.
  { intros q Hq. destruct (objs !! q) eqn:E; [|done]. assert (is_Some (objects_of rt !! q)) as [? E'] by (apply Hdom; by eexists). congruence. }
  assert (forall q, valid (objects_of rt) q -> valid objs q) as Hval by (intros q [->|Hq]; [by left|right; by apply Hdom]).
  split; cbn; try done.
  - apply (heap_ok_frame (rt_managed rt)); try done; [intros q [o Ho]; by eapply hk_live|by apply heap_buffer_live].
  - destruct A4 as (? & ? & ?). auto.
  - destruct A5 as (? & ?). auto.
  - intros q Hq. by apply Hval, A7.
  - intros q Hq. by apply Hval, A8.
  - intros i e Hi He Hk. by eapply Hval, A9.
  - destruct A10 as (l & El & Hl). exists l. split; [exact El|]. intros q Hq. by apply Hval, Hl.
Qed.

Lemma runtime_ok_frames rt frames l : runtime_ok rt -> collect frame_references frames = Ret l -> (forall q, q ∈ l -> valid (objects_of rt) q) ->
  runtime_ok (set_frames frames rt).
Proof.
  intros [A1 A2 A3 A4 A5 A6 A7 A8 A9 A10 A11] Hl Hv. split; cbn; try done. destruct A10 as (l0 & El & Hl0).
  unfold other_references in *. cbn. rewrite Hl, Ret_bind. apply bind_Ret in El as (f & _ & El). apply bind_Ret in El as (as_ & Ea & [= <-]).
  rewrite Ea, Ret_bind. eexists. split; [reflexivity|]. intros q Hq. rewrite !elem_of_app in *. destruct Hq as [?|[?|?]]; [|auto|];
    apply Hl0; rewrite !elem_of_app; auto.
Qed.

(** The references of the frames of a thread, of which the current one is [f]. *)
Lemma running_references s : runtime_ok (running s) ->
  exists l r, frame_references (gc_frame (hs_frame s)) = Ret l /\ collect frame_references (rt_frames (hs_runtime s)) = Ret r /\
    forall q, q ∈ l ++ r -> valid (objects_in s) q.
Proof.
  intros Hok. destruct (rk_others _ Hok) as (l0 & El & Hv). unfold other_references in El. apply bind_Ret in El as (f & Ef & El).
  apply bind_Ret in El as (as_ & Ea & [= <-]). cbn [rt_frames running set_frames collect] in Ef. apply bind_Ret in Ef as (l & E1 & Ef).
  apply bind_Ret in Ef as (r & E2 & [= <-]). exists l, r. split; [done|]. split; [done|]. intros q Hq. apply Hv. rewrite !elem_of_app in *. tauto.
Qed.

Lemma collect_app {A} (f : A -> outcome (list Z)) l1 l2 : collect f (l1 ++ l2) = (a ← collect f l1; b ← collect f l2; Ret (a ++ b)).
Proof.
  induction l1 as [|x l1 IH]; cbn [app collect]; [rewrite Ret_bind; by destruct (collect f l2)|].
  destruct (f x) as [a|r| |]; try done. rewrite !Ret_bind, IH. destruct (collect f l1) as [b|r| |]; try done. rewrite !Ret_bind.
  destruct (collect f l2) as [c|r| |]; try done. by rewrite !Ret_bind, app_assoc.
Qed.

Definition stack_refs (st : zaclr_eval_stack) : outcome (list Z) := stack_references (stack_values st) (es_depth st).

(** A value that is pushed is the last the collector visits. *)
Lemma stack_refs_pushed st v : room st 1 -> es_buffer st <> 0 -> stack_refs (pushed st v) = (a ← stack_refs st; b ← value_reference v; Ret (a ++ b)).
Proof.
  intros (Hd & Hc & Hz) Hb. specialize (Hz 0 ltac:(lia)). rewrite Z.add_0_r in Hz. pose proof (get_Some_range _ _ _ Hz) as Hr.
  unfold stack_refs, stack_values, pushed, set_slot. cbn [es_buffer es_values es_depth]. rewrite (proj2 (Z.eqb_neq _ _) Hb).
  unfold stack_references, first_n. rewrite zlength_set. rewrite !(proj2 (Z.ltb_ge _ _)) by lia. rewrite !Ret_bind.
  assert (take (Z.to_nat (es_depth st + 1)) (set (es_values st) (es_depth st) v) = take (Z.to_nat (es_depth st)) (es_values st) ++ [v]) as ->.
  { rewrite Z2Nat.inj_add, Nat.add_1_r by lia. unfold set. rewrite (proj2 (Z.ltb_ge _ _)) by lia.
    erewrite take_S_r; [|apply list_lookup_insert_eq; unfold zlength in Hr; lia]. by rewrite take_insert_ge by lia. }
  rewrite collect_app. destruct (collect value_reference (take _ (es_values st))) as [a|r| |]; try done. rewrite !Ret_bind. cbn [collect].
  destruct (value_reference v) as [b|r| |]; try done. by rewrite !Ret_bind, app_nil_r.
Qed.

(** The frame with another evaluation stack. *)
Lemma frame_refs_stack f st l e : frame_references (gc_frame f) = Ret l -> stack_refs st = Ret e ->
  exists l', frame_references (gc_frame (set_eval_stack st f)) = Ret l' /\ (forall q, q ∈ l' -> q ∈ l \/ q ∈ e) /\ (forall q, q ∈ e -> q ∈ l').
Proof.
  unfold frame_references. intros E He. apply bind_Ret in E as (a & Ea & E). apply bind_Ret in E as (lo & El & E). apply bind_Ret in E as (e0 & E0 & [= <-]).
  cbn [gc_frame fr_arguments fr_argument_count fr_locals fr_local_count fr_eval_stack arguments arguments_ptr locals locals_ptr eval_stack set_eval_stack] in *.
  fold (stack_refs st). exists (a ++ lo ++ e). rewrite Ea, Ret_bind, El, Ret_bind, He, Ret_bind. split; [done|].
  split; intros q; rewrite !elem_of_app; tauto.
Qed.

Lemma frame_refs_top f l : frame_references (gc_frame f) = Ret l -> exists e, stack_refs (eval_stack f) = Ret e /\ forall q, q ∈ e -> q ∈ l.
Proof.
  unfold frame_references. intros E. apply bind_Ret in E as (a & Ea & E). apply bind_Ret in E as (lo & El & E). apply bind_Ret in E as (e0 & E0 & [= <-]).
  exists e0. split; [done|]. intros q. rewrite !elem_of_app. tauto.
Qed.

Lemma running_stack s st e : runtime_ok (running s) -> stack_refs st = Ret e -> (forall q, q ∈ e -> valid (objects_in s) q) ->
  runtime_ok (running (on_stack s st)).
Proof.
  intros Hok He Hv. destruct (running_references s Hok) as (l & r & El & Er & Hl).
  destruct (frame_refs_stack (hs_frame s) st l e El He) as (l' & El' & Hl' & _).
  apply (runtime_ok_frames (running s) (gc_frame (set_eval_stack st (hs_frame s)) :: rt_frames (hs_runtime s)) (l' ++ r) Hok).
  - cbn [collect]. by rewrite El', Ret_bind, Er, Ret_bind.
  - intros q [Hq|Hq]%elem_of_app; [|by apply Hl, elem_of_app; right].
    destruct (Hl' q Hq) as [Hq'|Hq']; [by apply Hl, elem_of_app; left|by apply Hv].
Qed.

Lemma running_pop s st v : runtime_ok (running s) -> eval_stack (hs_frame s) = pushed st v -> room st 1 -> es_buffer st <> 0 ->
  runtime_ok (running (on_stack s st)) /\ exists r, value_reference v = Ret r /\ forall q, q ∈ r -> valid (objects_in s) q.
Proof.
  intros Hok E Hr Hb. destruct (running_references s Hok) as (l & r & El & Er & Hl). destruct (frame_refs_top _ _ El) as (e & Ee & He).
  rewrite E, stack_refs_pushed in Ee by done. apply bind_Ret in Ee as (e0 & E0 & Ee). apply bind_Ret in Ee as (x & Ex & [= <-]).
  assert (forall q, q ∈ e0 ++ x -> valid (objects_in s) q) as Hv by (intros q Hq; apply Hl, elem_of_app; left; by apply He).
  split; [apply (running_stack s st e0); [done|done|]|exists x; split; [done|]]; intros q Hq; apply Hv, elem_of_app; auto.
Qed.

Lemma running_push s v r : runtime_ok (running s) -> room (eval_stack (hs_frame s)) 1 -> es_buffer (eval_stack (hs_frame s)) <> 0 ->
  value_reference v = Ret r -> (forall q, q ∈ r -> valid (objects_in s) q) -> runtime_ok (running (on_stack s (pushed (eval_stack (hs_frame s)) v))).
Proof.
  intros Hok Hr Hb Er Hv. destruct (running_references s Hok) as (l & r0 & El & _ & Hl). destruct (frame_refs_top _ _ El) as (e & Ee & He).
  apply (running_stack s _ (e ++ r)); [done|by rewrite stack_refs_pushed, Ee, Ret_bind, Er, Ret_bind by done|].
  intros q [Hq|Hq]%elem_of_app; [|by apply Hv]. apply Hl, elem_of_app. left. by apply He.
Qed.

Lemma reference_refs q : value_reference (reference_value q) = Ret (if q =? 0 then [] else [q]).
Proof. unfold value_reference, zaclr_stack_value_contains_references. cbn. by destruct (q =? 0). Qed.

Lemma i4_refs i : value_reference (value_of_i4 i) = Ret [].
Proof. done. Qed.

(** ** References in arrays *)

Lemma collect_words data l : (forall i, i ∈ l -> 0 <= i /\ 8 * i + 8 <= zlength data) ->
  collect (fun index => p ← read_u64 data (8 * index); Ret [p]) l = Ret ((fun i => word data (8 * i) 8) <$> l).
Proof.
  induction l as [|i l IH]; intros Hl; [done|]. destruct (Hl i) as [Hi Hz]; [set_solver|]. cbn [collect fmap list_fmap].
  rewrite read_word8, Ret_bind by lia. rewrite Ret_bind, IH by (intros j Hj; apply Hl; set_solver). done.
Qed.

(** An array whose elements the collector follows. *)
Definition holds_references (o : zaclr_object_desc) (a : zaclr_array_desc) : Prop :=
  ob_family o = ZACLR_OBJECT_FAMILY_ARRAY /\ zaclr_object_contains_references o = true /\ array_ok a /\ ar_element_size a = 8.

Lemma reference_array_children o a : holds_references o a ->
  object_children (set_array a o) = Ret ((fun i => word (ar_data a) (8 * i) 8) <$> seqZ 0 (ar_length a)).
Proof.
  intros (Hf & Hc & [Hl Hs Hd] & He). unfold object_children. cbn [ob_family ob_body set_array]. rewrite Hf, He. cbn [Z.eqb Pos.eqb ZACLR_OBJECT_FAMILY_ARRAY].
  unfold array_children. unfold zaclr_object_contains_references in *. cbn [ob_flags set_array]. rewrite Hc. cbn [negb orb Z.eqb Pos.eqb].
  rewrite u32_id by lia. rewrite He in Hd. rewrite (proj2 (Z.ltb_ge _ _)) by lia. apply collect_words. intros i Hi%elem_of_seqZ. lia.
Qed.

Lemma update_array_ok rt p o a' l : runtime_ok rt -> objects_of rt !! p = Some o -> object_children (set_array a' o) = Ret l ->
  (forall q, q ∈ l -> valid (objects_of rt) q) -> runtime_ok (update_object p (set_array a') rt).
Proof.
  intros Hok Ho Hc Hv. set (objs := alter (set_array a') p (objects_of rt)).
  assert (forall q, is_Some (objs !! q) <-> is_Some (objects_of rt !! q)) as Hdom by (intros q; unfold objs; apply lookup_alter_is_Some).
  apply (runtime_ok_objects rt objs Hok Hdom).
  - intros q x Hx. assert (forall z, valid (objects_of rt) z -> valid objs z) as Hval by (intros z [->|Hz]; [by left|right; by apply Hdom]).
    apply lookup_alter_Some in Hx as [(-> & y & Hy & ->)|[Hne Hx]].
    + rewrite Ho in Hy. injection Hy as <-. exists l. split; [done|]. intros z Hz. by apply Hval, Hv.
    + destruct (rk_linked _ Hok q x Hx) as (l' & El & Hl). exists l'. split; [done|]. intros z Hz. by apply Hval, Hl.
  - intros q x Hx. apply lookup_alter_Some in Hx as [(-> & y & Hy & ->)|[Hne Hx]]; by apply (rk_unpinned _ Hok _ _ Hy) || by apply (rk_unpinned _ Hok _ _ Hx).
Qed.

Lemma set_array_id o a : array_of o = Some a -> set_array a o = o.
Proof. destruct o as [? ? ? ? ? ? ? body]. unfold array_of. cbn. destruct body; try done. intros [= <-]. done. Qed.

Lemma matching_reference a so lo q : matching a so lo (reference_value q) (reference_value q) -> load_width lo a = 8 /\ 0 <= q < 2 ^ 64.
Proof. intros Hm. inversion Hm; subst; try discriminate; cbn [load_width]; [done|]. by match goal with E : token_is_heap_reference _ = _ |- _ => rewrite E end. Qed.

Lemma loaded_reference lo a w q : loaded lo a w = reference_value q -> w = q.
Proof. destruct lo; try discriminate; [by intros [= ->]|]. cbn [loaded]. repeat case_if; try discriminate. by intros [= ->]. Qed.

(** The references of an array after a store at [i]. *)
Lemma stored_references a data i q : array_ok a -> ar_element_size a = 8 -> 0 <= i < ar_length a ->
  word data (i * 8) 8 = q ->
  (forall o m, 0 <= o -> 0 <= m -> o + m <= zlength (ar_data a) -> o + m <= i * 8 \/ i * 8 + 8 <= o -> chars data o m = chars (ar_data a) o m) ->
  forall j, 0 <= j < ar_length a -> word data (8 * j) 8 = if j =? i then q else word (ar_data a) (8 * j) 8.
Proof.
  intros [Hl _ Hd] He Hi Hq Hrest j Hj. rewrite He in Hd. destruct (Z.eqb_spec j i) as [->|Hne]; [by rewrite (Z.mul_comm 8)|].
  unfold word. rewrite Hrest; [done|lia..].
Qed.

(** The three operands of a store are popped; the value was valid. *)
Lemma running_pop3 s st x y v r : runtime_ok (running s) -> eval_stack (hs_frame s) = pushed (pushed (pushed st x) y) v -> room st 3 -> es_buffer st <> 0 ->
  value_reference v = Ret r -> runtime_ok (running (on_stack s st)) /\ forall q, q ∈ r -> valid (objects_in s) q.
Proof.
  intros Hok E Hr Hb Hv. pose proof (room_pushed st 2 x ltac:(lia) Hr) as Hr2. pose proof (room_pushed (pushed st x) 1 y ltac:(lia) Hr2) as Hr1.
  destruct (running_pop s _ v Hok E) as [Hok1 (r' & Hr' & Hv')]; [done|done|]. rewrite Hv in Hr'. injection Hr' as <-.
  destruct (running_pop _ (pushed st x) y Hok1) as [Hok2 _]; [done|eapply room_weaken; [|exact Hr2]; lia|done|].
  destruct (running_pop _ st x Hok2) as [Hok3 _]; [done|eapply room_weaken; [|exact Hr]; lia|done|]. by split.
Qed.

Lemma reference_store s st p o a i q so lo : runtime_ok (running s) -> p <> 0 -> objects_in s !! p = Some o -> array_of o = Some a -> holds_references o a ->
  0 <= i < ar_length a -> matching a so lo (reference_value q) (reference_value q) ->
  eval_stack (hs_frame s) = pushed (pushed (pushed st (reference_value p)) (value_of_i4 i)) (reference_value q) -> room st 3 -> es_buffer st <> 0 ->
  exists s', step_stelem so s = (Ret (), s') /\ runtime_ok (running s') /\ dom (objects_in s') = dom (objects_in s) /\
    forall j, 0 <= j < ar_length a -> kids (objects_in s') p !! Z.to_nat j = if j =? i then Some q else kids (objects_in s) p !! Z.to_nat j.
Proof.
  intros Hok Hp Ho Ha Hh Hi Hm E Hr Hb. pose proof Hh as (Hf & Hc & Haok & He). destruct (matching_reference a so lo q Hm) as [Hw Hq].
  destruct (stelem_stores s st p a i so lo _ _ (conj Hp (ex_intro _ o (conj Ho Ha))) Haok Hi Hm E Hr)
    as (n & w & data & Es & Hok' & Hn & Hnw & Hl & _ & Hword & Hrest).
  apply loaded_reference in Hl. rewrite Hn, Hw, He, Hl in *. subst n.
  destruct (running_pop3 s st _ _ _ _ Hok E Hr Hb (reference_refs q)) as [Hok1 Hqv].
  pose proof (stored_references a data i q Haok He Hi Hword Hrest) as Hws.
  assert (holds_references o (set_data a data)) as Hh' by (by split_and!).
  pose proof (reference_array_children o (set_data a data) Hh') as Hch. pose proof (reference_array_children o a Hh) as Hold.
  rewrite (set_array_id o a Ha) in Hold. destruct (rk_linked _ Hok p o Ho) as (l0 & El0 & Hv0). rewrite Hold in El0. injection El0 as <-.
  eexists. split; [exact Es|]. split; [|split].
  - eapply (update_array_ok (running (on_stack s st)) p o (set_data a data) _ Hok1 Ho Hch). intros z (j & -> & Hj%elem_of_seqZ)%list_elem_of_fmap.
    rewrite Hws by (cbn in Hj; lia). destruct (j =? i).
    + destruct (Z.eqb_spec q 0) as [->|?]; [by left|]. apply Hqv. by apply list_elem_of_singleton.
    + apply Hv0. apply list_elem_of_fmap. exists j. split; [done|]. apply elem_of_seqZ. cbn in Hj. lia.
  - unfold objects_in. cbn. apply dom_alter_L.
  - intros j Hj. unfold kids. assert (objects_in (with_array (moved (on_stack s st) (store_size so)) p (set_data a data)) !! p = Some (set_array (set_data a data) o)) as ->.
    { unfold objects_in in *. cbn. by rewrite lookup_alter_eq, Ho. }
    rewrite Hch, Ho, Hold, !list_lookup_fmap. cbn [ar_length set_data ar_data]. rewrite lookup_seqZ_lt by lia. cbn. rewrite Z.add_0_l, Z2Nat.id, Hws by lia.
    by destruct (j =? i).
Qed.

(** ** Allocation *)

Lemma zeros_word n offset k : word (replicate n x00) offset k = 0.
Proof.
  unfold word, chars. rewrite drop_replicate, take_replicate. generalize (Z.to_nat k `min` (n - Z.to_nat offset))%nat. intros m.
  induction m as [|m IH]; [done|]. cbn [replicate le_word]. rewrite IH. done.
Qed.

(** A zeroed array refers to nothing. *)
Lemma zero_array_children o n es token : ob_family o = ZACLR_OBJECT_FAMILY_ARRAY -> 0 <= n < 2 ^ 31 -> 0 < es ->
  exists l, object_children (set_array (mk_array n es token (replicate (Z.to_nat (es * n)) x00)) o) = Ret l /\ forall q, q ∈ l -> q = 0.
Proof.
  intros Hf Hn He. destruct (decide (zaclr_object_contains_references o = true /\ es = 8)) as [[Hc ->]|Hno].
  - eexists. split; [apply reference_array_children; split_and!; try done; split; cbn; try lia; unfold zlength; rewrite length_replicate; lia|].
    cbn [ar_length ar_data]. intros q (j & -> & _)%list_elem_of_fmap. apply zeros_word.
  - exists []. split; [|set_solver]. unfold object_children. cbn [ob_family ob_body set_array]. rewrite Hf. cbn [Z.eqb Pos.eqb ZACLR_OBJECT_FAMILY_ARRAY].
    unfold array_children, zaclr_object_contains_references in *. cbn [ob_flags set_array ar_element_size]. destruct (flag_set (ob_flags o) _); [|done].
    cbn [negb orb]. destruct (Z.eqb_spec es 8); [tauto|done].
Qed.

(** What is held in [rt] is still in [rt']. *)
Definition survive_in rt rt' : Prop :=
  forall q o, objects_of rt !! q = Some o -> held rt q -> exists o', objects_of rt' !! q = Some o' /\ shape o' = shape o.

(** Nothing appears in [rt'] but at [p]. *)
Definition only_new rt rt' (p : Z) : Prop :=
  forall q o', q <> p -> objects_of rt' !! q = Some o' -> exists o, objects_of rt !! q = Some o /\ shape o' = shape o.

Definition array_statuses : list zaclr_result :=
  [heap_error ZACLR_STATUS_INVALID_ARGUMENT; heap_error ZACLR_STATUS_OUT_OF_MEMORY;
   process_error ZACLR_STATUS_BUFFER_TOO_SMALL; process_error ZACLR_STATUS_OUT_OF_MEMORY].

Lemma array_allocate_spec rt token es n : runtime_ok rt -> gc_active rt = false -> 0 < es -> 0 <= n < 2 ^ 31 ->
  hp_allocated_bytes (heap_of rt) + sizeof_array_desc + es * n < 2 ^ 32 -> hp_node_count (heap_of rt) + 1 < 2 ^ 32 ->
  0 <= hp_allocated_bytes (heap_of rt) ->
  match zaclr_array_allocate rt 0 token es n with
  | (Ret p, rt') => runtime_ok rt' /\ p <> 0 /\ survive_in rt rt' /\ (forall q, is_Some (objects_of rt !! q) -> held rt q -> q <> p) /\
      exists o, objects_of rt' !! p = Some o /\ array_of o = Some (mk_array n es token (replicate (Z.to_nat (es * n)) x00)) /\
        ob_family o = ZACLR_OBJECT_FAMILY_ARRAY /\ only_new rt rt' p
  | (Err r, rt') => runtime_ok rt' /\ survive_in rt rt' /\ r ∈ array_statuses /\ only_new rt rt' 0
  | _ => False
  end.
Proof.
  intros Hok Hact He Hn Hb Hc Hb0. unfold zaclr_array_allocate. rewrite (proj2 (Z.eqb_neq es 0)) by lia. rewrite u32_id by (unfold sizeof_array_desc in Hb; nia).
  pose proof (allocate_object_spec rt (sizeof_array_desc + es * n) 0 ZACLR_OBJECT_FAMILY_ARRAY (zaclr_array_object_flags token) Hok Hact
    ltac:(unfold sizeof_array_desc in *; nia) ltac:(lia) Hc) as Ha. unfold allocate_post in Ha.
  destruct (zaclr_heap_allocate_object _ _ _ _ _) as [[p|r| |] rt']; try done.
  2: { destruct Ha as [Hk Hr]. split; [apply Hk|]. split; [intros q o Ho Hq; by apply (kp_held _ _ Hk)|]. split; [exact Hr|].
       intros q o' _ Ho'. by apply (kp_old _ _ Hk). }
  destruct Ha as [A1 A2 A3 A4 A5]. rewrite A3. cbn -[new_object]. set (o := new_object _ _ _ _) in *.
  assert (array_of o = Some (mk_array 0 0 (zaclr_token_make 0) (replicate (Z.to_nat (es * n)) x00))) as Hbody.
  { unfold array_of, o, new_object, zero_body. cbn [ob_body]. change (u16 ZACLR_OBJECT_FAMILY_ARRAY =? ZACLR_OBJECT_FAMILY_ARRAY) with true.
    cbn iota. do 3 f_equal. lia. }
  rewrite Hbody. cbn [ar_data]. rewrite i32_id by lia. set (a := mk_array n es token _). split; [|split; [done|split; [|split]]].
  - destruct (zero_array_children o n es token) as (l & El & Hl); [done|done|done|].
    apply (update_array_ok rt' p o a l A1 A3 El). intros q Hq. left. by apply Hl.
  - intros q x Hx Hq. destruct (A4 q x Hx Hq) as [Hne (x' & Hx' & Hs)]. exists x'. split; [|done]. cbn. by rewrite lookup_alter_ne by done.
  - intros q [x Hx] Hq. by apply (A4 q x).
  - exists (set_array a o). split; [cbn; by rewrite lookup_alter_eq, A3|]. split; [by destruct o|]. split; [reflexivity|].
    intros q o' Hne Ho'. cbn in Ho'. rewrite lookup_alter_ne in Ho' by done. by apply (A5 q o').
Qed.

Lemma frame_reference_root s l r q : runtime_ok (running s) -> frame_references (gc_frame (hs_frame s)) = Ret l ->
  collect frame_references (rt_frames (hs_runtime s)) = Ret r -> q ∈ l ++ r -> q ∈ program_roots (running s).
Proof.
  intros Hok El Er Hq. unfold program_roots. apply elem_of_app. right.
  destruct (rk_others _ Hok) as (l0 & E0 & _). rewrite E0. unfold other_references in E0. apply bind_Ret in E0 as (f & Ef & E0).
  cbn [rt_frames running set_frames collect] in Ef. rewrite El, Ret_bind, Er, Ret_bind in Ef. injection Ef as <-.
  apply bind_Ret in E0 as (as_ & _ & [= <-]). rewrite !elem_of_app in *. tauto.
Qed.

Lemma frame_reference_held s l r q : runtime_ok (running s) -> frame_references (gc_frame (hs_frame s)) = Ret l ->
  collect frame_references (rt_frames (hs_runtime s)) = Ret r -> q ∈ l ++ r -> q <> 0 -> held (running s) q.
Proof. intros Hok El Er Hq Hq0. exists q. split; [by apply (frame_reference_root s l r)|]. split; [done|apply rtc_refl]. Qed.

(** After a routine of the heap the frames are still well formed. *)
Lemma running_survives s rt' : runtime_ok (running s) -> runtime_ok rt' -> survive_in (running s) rt' ->
  runtime_ok (set_frames (gc_frame (hs_frame s) :: rt_frames (hs_runtime s)) rt').
Proof.
  intros Hok Hok' Hs. destruct (running_references s Hok) as (l & r & El & Er & Hv).
  apply (runtime_ok_frames rt' _ (l ++ r) Hok'); [cbn [collect]; by rewrite El, Ret_bind, Er, Ret_bind|].
  intros q Hq. destruct (Z.eq_dec q 0) as [->|Hq0]; [by left|]. destruct (Hv q Hq) as [?|[o Ho]]; [done|]. right.
  destruct (Hs q o Ho) as (o' & Ho' & _); [|by eexists]. by eapply frame_reference_held.
Qed.

Lemma token_step s token : seg (il_start (hs_frame s)) (il_offset (hs_frame s) + 1) (encode_u32 (raw token)) -> 0 <= raw token < 2 ^ 32 ->
  in_frame il_token s = (Ret token, s).
Proof.
  intros Hseg Hr. rewrite (in_frame_run _ _ (Ret token) (hs_frame s)); [by destruct s|]. unfold il_token, il_u32, gets, lift, mbind, exec_bind. cbn.
  rewrite (seg_read_u32 _ _ _ Hr Hseg). by destruct token.
Qed.

Lemma element_size_positive names token : 0 < element_size_for_token names token.
Proof.
  unfold element_size_for_token, element_size_for_type_name. repeat case_match; lia.
Qed.

Lemma top_root s st p : runtime_ok (running s) -> eval_stack (hs_frame s) = pushed st (reference_value p) -> room st 1 -> es_buffer st <> 0 -> p <> 0 ->
  p ∈ program_roots (running s).
Proof.
  intros Hok E Hr Hb Hp. destruct (running_references s Hok) as (l & r & El & Er & _). destruct (frame_refs_top _ _ El) as (e & Ee & He).
  apply (frame_reference_root s l r); try done. apply elem_of_app. left. apply He. rewrite E, stack_refs_pushed, reference_refs in Ee by done.
  apply bind_Ret in Ee as (e0 & _ & Ee). rewrite Ret_bind, (proj2 (Z.eqb_neq _ _) Hp) in Ee. injection Ee as <-. set_solver.
Qed.

Lemma allocated_bytes_nonneg rt : runtime_ok rt -> 0 <= hp_allocated_bytes (heap_of rt).
Proof.
  intros Hok. pose proof (rk_heap _ Hok) as Hh. rewrite (hk_bytes _ Hh). apply zsum_nonneg. intros n Hn. by apply (heap_sizes_nonneg _ Hh).
Qed.

End heap.

(** A heap of described objects after an allocation. *)
Lemma described_new {K} (rt rt' : zaclr_runtime K) p : described_heap (objects_of rt) -> only_new rt rt' p ->
  (forall o, objects_of rt' !! p = Some o -> described o) -> described_heap (objects_of rt').
Proof.
  intros Hd Ho Hp q o' Hq. destruct (Z.eq_dec q p) as [->|Hne]; [by apply Hp|]. destruct (Ho q o' Hne Hq) as (o & Hq' & E).
  eapply described_shape; [exact E|by eapply Hd].
Qed.

Lemma array_described o a : array_of o = Some a -> array_ok a -> ob_family o = ZACLR_OBJECT_FAMILY_ARRAY -> described o.
Proof.
  unfold array_of, described. destruct (ob_body o) as [|n es ty data| |]; try done. intros [= <-] [Hl He Hd] Hf. cbn in *.
  split; [done|]. split; [lia|]. intros ->. lia.
Qed.

Lemma newarr_spec {K} `{KernelHeapLaws K} names (s : heap_state K) st n token :
  runtime_ok (running s) -> gc_active (hs_runtime s) = false ->
  eval_stack (hs_frame s) = pushed st (value_of_i4 n) -> room st 1 -> es_buffer st <> 0 -> 0 <= n < 2 ^ 31 ->
  seg (il_start (hs_frame s)) (il_offset (hs_frame s) + 1) (encode_u32 (raw token)) -> 0 <= raw token < 2 ^ 32 ->
  hp_allocated_bytes (heap_of (hs_runtime s)) + sizeof_array_desc + element_size_for_token names token * n < 2 ^ 32 ->
  hp_node_count (heap_of (hs_runtime s)) + 1 < 2 ^ 32 ->
  match step_newarr names s with
  | (Ret _, s') => runtime_ok (running s') /\ survive_in (running (on_stack s st)) (running s') /\
      exists p a, eval_stack (hs_frame s') = pushed st (reference_value p) /\ array_in s' p a /\ array_ok a /\ ar_length a = n /\
        ar_element_size a = element_size_for_token names token /\ ar_element_type a = token /\ (forall b, b ∈ ar_data a -> b = x00) /\
        p ∈ program_roots (running s') /\ ~ (is_Some (objects_in s !! p) /\ held (running (on_stack s st)) p) /\
        (forall o, objects_in s' !! p = Some o -> described o) /\ only_new (running (on_stack s st)) (running s') p
  | (Err r, s') => runtime_ok (running s') /\ survive_in (running (on_stack s st)) (running s') /\ eval_stack (hs_frame s') = st /\ r ∈ array_statuses /\
      only_new (running (on_stack s st)) (running s') 0
  | _ => False
  end.
Proof.
  intros Hok Hact E Hr Hb Hn Hseg Htok Hbytes Hcount. set (es := element_size_for_token names token) in *.
  pose proof (element_size_positive names token) as Hes. fold es in Hes.
  destruct (running_pop s st _ Hok E Hr Hb) as [Hok1 _]. unfold step_newarr.
  erewrite bind_step; [|by apply token_step]. erewrite bind_step; [|by apply pop_step].
  erewrite bind_step; [|rewrite store_step; unfold stack_value_to_u32; rewrite read_i4 by (unfold in_int; lia); rewrite Ret_bind; reflexivity].
  change (wrap 32 n) with (u32 n). rewrite u32_id by lia. fold es.
  pose proof (array_allocate_spec (running (on_stack s st)) token es n Hok1 Hact Hes Hn Hbytes Hcount (allocated_bytes_nonneg _ Hok1)) as Ha.
  unfold mbind at 1, heap_exec_bind at 1, in_runtime.
  destruct (zaclr_array_allocate (running (on_stack s st)) 0 token es n) as [[p|r| |] rt']; try done.
  2: { destruct Ha as (A1 & A2 & A3 & A4). split; [exact (running_survives (on_stack s st) rt' Hok1 A1 A2)|]. by split_and!. }
  destruct Ha as (A1 & A2 & A3 & A4 & o & A5 & A6 & A7 & A8). erewrite bind_step; [|apply advance_step]. rewrite push_reference.
  rewrite push_step by done. set (s2 := mk_heap_state (set_frames (rt_frames (hs_runtime (on_stack s st))) rt') (hs_buffers (on_stack s st)) (hs_frame (on_stack s st))).
  assert (runtime_ok (running s2)) as Hok2 by exact (running_survives (on_stack s st) rt' Hok1 A1 A3).
  assert (runtime_ok (running (on_stack (moved s2 5) (pushed st (reference_value p))))) as Hok3.
  { apply (running_push (moved s2 5) (reference_value p) _ Hok2 Hr Hb (reference_refs p)). intros q Hq. right.
    rewrite (proj2 (Z.eqb_neq _ _) A2) in Hq. apply list_elem_of_singleton in Hq as ->. by eexists. }
  split; [done|]. split; [exact A3|]. exists p, (mk_array n es token (replicate (Z.to_nat (es * n)) x00)).
  split; [done|]. split; [by split; [|exists o]|].
  assert (array_ok (mk_array n es token (replicate (Z.to_nat (es * n)) x00))) as Hao by (split; cbn; [done|done|unfold zlength; rewrite length_replicate; nia]). split; [done|].
  do 3 (split; [done|]). split; [cbn; by intros b [-> _]%elem_of_replicate|]. split; [by eapply top_root|].
  split; [intros [Hs Hh]; by apply (A4 p)|]. split; [|exact A8]. intros o' Ho'. change (objects_of rt' !! p = Some o') in Ho'. rewrite A5 in Ho'. injection Ho' as <-.
  by eapply array_described.
Qed.


(** C13: Storing a reference in an array keeps the collector's invariant: the runtime is well
    formed, the element refers to the stored object, the other references of the array
    and the set of objects are as before, so the stored object is held as long as the
    array is. *)
Theorem reference_store_keeps {K} `{KernelHeapLaws K} (s : heap_state K) st p o a i q so lo :
  runtime_ok (running s) -> p <> 0 -> objects_in s !! p = Some o -> array_of o = Some a -> holds_references o a -> 0 <= i < ar_length a ->
  matching a so lo (reference_value q) (reference_value q) ->
  eval_stack (hs_frame s) = pushed (pushed (pushed st (reference_value p)) (value_of_i4 i)) (reference_value q) -> room st 3 -> es_buffer st <> 0 ->
  exists s', step_stelem so s = (Ret (), s') /\ runtime_ok (running s') /\ dom (objects_in s') = dom (objects_in s) /\
    (forall j, 0 <= j < ar_length a -> kids (objects_in s') p !! Z.to_nat j = if j =? i then Some q else kids (objects_in s) p !! Z.to_nat j) /\
    (q <> 0 -> held (running s') p -> held (running s') q).
Proof.
  intros Hok Hp Ho Ha Hh Hi Hm E Hr Hb. destruct (reference_store s st p o a i q so lo Hok Hp Ho Ha Hh Hi Hm E Hr Hb) as (s' & Es & Hok' & Hd & Hk).
  exists s'. do 4 (split; [done|]). intros Hq (r & Hr' & Hr0 & Hreach). exists r. split; [done|]. split; [done|].
  eapply rtc_r; [exact Hreach|]. split; [|done]. specialize (Hk i Hi). rewrite Z.eqb_refl in Hk. by eapply list_elem_of_lookup_2.
Qed.

(** ** A frame over the example heap *)

(** The local refers to the array at 3, whose element refers to the object at 4. *)
Definition array_frame (code : memory) (st : zaclr_eval_stack) : Frame.zaclr_frame :=
  Frame.mk_frame 20 code (zlength code) 0 4 [] 0 [reference_value 3] 21 [] 0 st GenericContext.empty_context 0 no_filter no_finally 0 false.
Definition wide_stack : zaclr_eval_stack := mk_eval_stack 22 (replicate 4 zero_value) 0 4.
Definition example_state (code : memory) (l : list zaclr_stack_value) : heap_state small_heap :=
  mk_heap_state example_runtime ∅ (array_frame code (fold_left pushed l wide_stack)).

Lemma wide_room n : n <= 4 -> room wide_stack n.
Proof.
  intros Hn. split; [done|]. split; [cbn; lia|]. intros i Hi. cbn [es_depth es_values wide_stack]. rewrite Z.add_0_l. unfold get. case_if; [lia|].
  apply lookup_replicate. split; [done|lia].
Qed.

Lemma example_running code l r : collect frame_references [gc_frame (hs_frame (example_state code l)); example_frame] = Ret r ->
  (forall q, q ∈ r -> q = 3 \/ q = 4) -> runtime_ok (running (example_state code l)).
Proof.
  intros E Hr. apply (runtime_ok_frames example_runtime _ r example_runtime_ok E). intros q Hq. right. destruct (Hr q Hq) as [-> | ->]; by eexists.
Qed.

Definition int_names (token : zaclr_token) : outcome (option string) := Ret (Some "Int32"%string).
Definition long_names (token : zaclr_token) : outcome (option string) := Ret (Some "Int64"%string).
(** [newarr] with the token of a type reference. *)
Definition newarr_code : memory := bytes_of [0x8D; 2; 0; 0; 1].


(** The element is replaced by a reference to the array itself. *)
Lemma reference_store_keeps_witness :
  exists s', step_stelem CEE_STELEM_REF (example_state [] [reference_value 3; value_of_i4 0; reference_value 3]) = (Ret (), s') /\
    runtime_ok (running s') /\ kids (objects_in s') 3 !! Z.to_nat 0 = Some 3.
Proof.
  destruct (reference_store_keeps (example_state [] [reference_value 3; value_of_i4 0; reference_value 3]) wide_stack 3 example_array
    (mk_array 1 8 (zaclr_token_make 0x01000001) (le_bytes 8 4)) 0 3 CEE_STELEM_REF CEE_LDELEM_REF) as (s' & E & Hok & _ & Hk & _).
  - eapply example_running; [vm_compute; reflexivity|]. intros q Hq. set_solver.
  - done.
  - reflexivity.
  - reflexivity.
  - split; [done|]. split; [done|]. split; [|done]. by split; cbn; try lia.
  - cbn. lia.
  - apply match_ref; cbn; lia.
  - reflexivity.
  - by apply wide_room.
  - done.
  - exists s'. split; [exact E|]. split; [exact Hok|]. exact (Hk 0 ltac:(cbn; lia)).
Defined.

(** An [int\[3\]] at 9. *)
Definition int_array : zaclr_array_desc := mk_array 3 4 (zaclr_token_make 0x01000002) (replicate 12 x00).
Definition int_state (l : list zaclr_stack_value) : heap_state small_heap :=
  mk_heap_state (set_objects example_runtime (<[9 := set_array int_array example_array]> example_objects)) ∅
    (array_frame [] (fold_left pushed l wide_stack)).

Lemma int_array_ok : array_ok int_array.
Proof. by split; cbn; try lia. Qed.

Lemma int_array_in l : array_in (int_state l) 9 int_array.
Proof. split; [done|]. by exists (set_array int_array example_array). Qed.

(** -2 is stored in the second element and loaded again. *)
Lemma array_store_load_witness :
  exists data, step_stelem CEE_STELEM_I4 (int_state [reference_value 9; value_of_i4 1; value_of_i4 (-2)]) =
      (Ret (), with_array (moved (on_stack (int_state [reference_value 9; value_of_i4 1; value_of_i4 (-2)]) wide_stack) 1) 9 (set_data int_array data)) /\
    element (set_data int_array data) 2 = element int_array 2 /\
    step_ldelem CEE_LDELEM_I4 (with_array (int_state [reference_value 9; value_of_i4 1]) 9 (set_data int_array data)) =
      (Ret (), on_stack (moved (on_stack (with_array (int_state [reference_value 9; value_of_i4 1]) 9 (set_data int_array data)) wide_stack) 1)
                 (pushed wide_stack (value_of_i4 (-2)))).
Proof.
  destruct (array_store_load (int_state [reference_value 9; value_of_i4 1; value_of_i4 (-2)]) wide_stack 9 int_array 1 CEE_STELEM_I4 CEE_LDELEM_I4
    (value_of_i4 (-2)) (value_of_i4 (-2)) (int_array_in _) int_array_ok) as (data & E & _ & Ho & Hl).
  - cbn. lia.
  - exact (match_i4 int_array (-2) ltac:(cbn; lia)).
  - reflexivity.
  - by apply wide_room.
  - exists data. split; [exact E|]. split; [apply (Ho 2); cbn; lia|]. apply Hl; [apply (array_in_with _ _ int_array), int_array_in|].
    split; [reflexivity|]. split; [by apply wide_room|unfold in_int; lia].
Defined.

(** An index one past the end. *)
Lemma array_access_checked_witness :
  refused (int_state [reference_value 9; value_of_i8 3]) wide_stack (exec_error ZACLR_STATUS_DISPATCH_ERROR)
    (step_ldelem CEE_LDELEM_I4 (int_state [reference_value 9; value_of_i8 3])).
Proof.
  refine (proj1 (proj2 (array_access_checked (int_state [reference_value 9; value_of_i8 3]) wide_stack (reference_value 9) true 3
    (exec_error ZACLR_STATUS_DISPATCH_ERROR) CEE_STELEM_I4 CEE_LDELEM_I4 zero_value _ _ _)) eq_refl); [unfold in_int; cbn; lia|by apply wide_room|].
  apply (bad_index _ _ 9 int_array (int_array_in _) int_array_ok). right. by vm_compute.
Defined.

(** ** What the code gets wrong *)

(** The 64-bit index 2^32 is outside every array, and it reads the element at 0. *)
Lemma wide_index_truncated :
  (ar_length int_array <= 2 ^ 32) /\
  exists s, step_ldelem CEE_LDELEM_I4 (int_state [reference_value 9; value_of_i8 (2 ^ 32)]) = (Ret (), s) /\
    step_ldelem CEE_LDELEM_I4 (int_state [reference_value 9; value_of_i4 0]) = (Ret (), s).
Proof. split; [by vm_compute|]. eexists. split; vm_compute; reflexivity. Qed.

(** The state after an instruction, with the values [l] pushed on an empty stack. *)
Definition again (l : list zaclr_stack_value) (s : heap_state small_heap) : heap_state small_heap :=
  on_stack s (fold_left pushed l wide_stack).
Definition run {A} (c : heap_exec small_heap A) (s : heap_state small_heap) : heap_state small_heap := (c s).2.

(** The size of the data is computed in 32 bits: [new int\[0x40000001\]] gets four bytes
    and keeps its length, so a store at index 1, which is checked, is outside the block. *)
Lemma array_size_wraps :
  let s := example_state newarr_code [value_of_i4 0x40000001] in
  let s1 := run (step_newarr int_names) s in
  (step_newarr int_names s).1 = Ret () /\
  (step_stelem CEE_STELEM_I4 (again [reference_value 7; value_of_i4 1; value_of_i4 5] s1)).1 = Fault.
Proof. split; vm_compute; reflexivity. Qed.

(** Every array whose element type has a token in a type table is marked as containing
    references, and the collector follows the elements of those with eight bytes: a
    number in a [long\[\]] is taken for the address of an object. *)
Lemma long_array_followed :
  let s1 := run (step_newarr long_names) (example_state newarr_code [value_of_i4 1]) in
  let s2 := run (step_stelem CEE_STELEM_I8) (again [reference_value 7; value_of_i4 0; value_of_i8 1000] s1) in
  (zaclr_gc_collect (running (again [reference_value 7] s1))).1 = Ret () /\
  (zaclr_gc_collect (running (again [reference_value 7] s2))).1 = Fault.
Proof. split; vm_compute; reflexivity. Qed.

(** [ldelem] with a token takes every element type with a token in a type table for a
    reference type: it reads eight bytes of an [int\[\]], at the last element past its end. *)
Lemma token_load_overreads :
  (step_ldelem CEE_LDELEM (int_state [reference_value 9; value_of_i4 2])).1 = Fault.
Proof. vm_compute. reflexivity. Qed.

(** [stelem.i] and [ldelem.i] move four bytes although native integers have eight. *)
Lemma native_element_truncated :
  let s := run (step_stelem CEE_STELEM_I) (again [reference_value 3; value_of_i4 0; value_of_i8 (2 ^ 32 + 7)] (example_state [] [])) in
  es_values (eval_stack (hs_frame (run (step_ldelem CEE_LDELEM_I) (again [reference_value 3; value_of_i4 0] s)))) .@ 0 = Some (value_of_i4 7).
Proof. vm_compute. reflexivity. Qed.

End ArraysHeap.
