(* ===== verification/ManagedStrings.v ===== *)
(** * Strings

    [zaclr/heap/zaclr_string.cpp], and the [ldstr] instruction of
    [zaclr/exec/zaclr_dispatch.cpp] with the routine that reads a user string from the
    metadata.

    Behind the object header a string has its length, its code units, and a copy of the
    low bytes of the code units with a terminating zero: the data of the object.  The
    method table of [System.String] comes from the type system and is a parameter. *)

From Stdlib Require Import Strings.Byte.
From stdpp Require Import relations.
From S2P Require Import Prelude Status Bytes Token Signature MetadataTables MetadataReader KernelHeap HandleTable TypeMap EvalStack.
From S2P Require Import ManagedObject ManagedHeap Gc GcMark GcCollect GcAllocate GenericContext Opcode Frame Arith Exceptions Dispatch Program.
From S2P Require Import PeImage FrameCreate FrameCorrect Arrays ArraysCorrect ArraysHeap.

Module ManagedStrings.
Import Frame Arith Arrays.

Definition sizeof_string_desc : Z := 48.
(** The place of [first_char] behind the header. *)
Definition first_char : Z := 4.

Definition string_data (o : zaclr_object_desc) : option (list byte) :=
  match ob_body o with BodyPlain data => Some data | _ => None end.

Definition set_string (method_table : option zaclr_method_table) (data : list byte) (o : zaclr_object_desc) : zaclr_object_desc :=
  mk_object (ob_size_bytes o) (ob_family o) (ob_gc_mark o) (ob_gc_state o) (ob_flags o) method_table (ob_type_id o) (BodyPlain data).

(** ** Accessors *)

Definition zaclr_string_char_count (value : option (list byte)) : outcome Z :=
  match value with
  | None => Ret 0
  | Some data => length ← read_u32 data 0; Ret (if 0 <? i32 length then length else 0)
  end.

Definition zaclr_string_length (value : option (list byte)) : outcome Z := zaclr_string_char_count value.

Definition string_ascii_storage (data : list byte) : outcome Z :=
  length ← zaclr_string_length (Some data); Ret (first_char + length * 2).

Definition zaclr_string_char_at (value : option (list byte)) (index : Z) : outcome Z :=
  match value with
  | None => Ret 0
  | Some data =>
    length ← zaclr_string_length value;
    if index <? length then read_u16 data (first_char + 2 * index) else Ret 0
  end.

Definition zaclr_string_from_handle (handle : Z) : Z := zaclr_heap_get_object handle.

(** ** Allocation *)

Fixpoint copy_code_units (text : list Z) (index : Z) (data : list byte) : outcome (list byte) :=
  match text with
  | [] => Ret data
  | c :: text =>
    data ← write_bytes data (first_char + 2 * index) (le_bytes 2 c);
    ascii ← string_ascii_storage data;
    data ← write_bytes data (ascii + index) (le_bytes 1 c);
    copy_code_units text (index + 1) data
  end.

(** The contents of a new string. *)
Definition fill_string (text : list Z) (data : list byte) : outcome (list byte) :=
  data ← write_bytes data 0 (le_bytes 4 (u32 (zlength text)));
  data ← write_bytes data first_char (le_bytes 2 0);
  data ← copy_code_units text 0 data;
  ascii ← string_ascii_storage data;
  write_bytes data (ascii + zlength text) (le_bytes 1 0).

Section heap.
Context {K : Type} `{KernelHeap K}.
(** The method table of strings, [None] where it cannot be prepared. *)
Context (string_type : zaclr_runtime K -> option zaclr_method_table * zaclr_runtime K).

Definition string_allocation_size (length : Z) : Z :=
  sizeof_string_desc + (if 1 <? length then (length - 1) * 2 else 0) + (length + 1).

Definition zaclr_string_allocate_utf16 (rt : zaclr_runtime K) (text : list Z) : outcome Z * zaclr_runtime K :=
  match zaclr_heap_allocate_object rt (string_allocation_size (zlength text)) 0 ZACLR_OBJECT_FAMILY_STRING
          (Z.lor ZACLR_OBJECT_FLAG_STRING ZACLR_OBJECT_FLAG_REFERENCE_TYPE) with
  | (Ret value, rt) =>
    let '(method_table, rt) := if hp_runtime (mg_heap (rt_managed rt)) then string_type rt else (None, rt) in
    match mg_objects (rt_managed rt) !! value ≫= string_data with
    | None => (Fault, rt)
    | Some data =>
      match fill_string text data with
      | Ret data => (Ret value, update_object value (set_string method_table data) rt)
      | Err r => (Err r, rt)
      | Fault => (Fault, rt)
      | NoFuel => (NoFuel, rt)
      end
    end
  | x => x
  end.

Definition zaclr_string_allocate_utf16_handle (rt : zaclr_runtime K) (text : list Z) : outcome Z * zaclr_runtime K :=
  match zaclr_string_allocate_utf16 rt text with
  | (Ret value, rt) => (Ret (zaclr_heap_get_object_handle value), rt)
  | x => x
  end.

(** [kernel_free] of the temporary text, unless it is [NULL]. *)
Definition free_text (p : Z) (rt : zaclr_runtime K) : zaclr_runtime K :=
  if p =? 0 then rt else set_kernel rt (kernel_free (mg_kernel (rt_managed rt)) p).

Definition zaclr_string_allocate_ascii (rt : zaclr_runtime K) (text : list byte) : outcome Z * zaclr_runtime K :=
  let '(p, rt) :=
    if zlength text =? 0 then (0, rt)
    else let '(p, k) := kernel_alloc (mg_kernel (rt_managed rt)) (2 * zlength text) in (p, set_kernel rt k) in
  if negb (zlength text =? 0) && (p =? 0) then (Err (heap_error ZACLR_STATUS_OUT_OF_MEMORY), rt)
  else
    let '(o, rt) := zaclr_string_allocate_utf16 rt (byte_Z <$> text) in
    (o, free_text p rt).

Definition zaclr_string_allocate_ascii_handle (rt : zaclr_runtime K) (text : list byte) : outcome Z * zaclr_runtime K :=
  match zaclr_string_allocate_ascii rt text with
  | (Ret value, rt) => (Ret (zaclr_heap_get_object_handle value), rt)
  | x => x
  end.

(** ** User strings *)

Section metadata.
Context (m : memory) (reader : zaclr_metadata_reader).

Definition decode_compressed_uint (heap : zaclr_slice) (offset : Z) : outcome (Z * Z) :=
  match sl_data heap with
  | None => Err (exec_error ZACLR_STATUS_BAD_METADATA)
  | Some data =>
    require negb (sl_size heap <=? offset) else exec_error ZACLR_STATUS_BAD_METADATA;
    first ← read_u8 m (data + offset);
    if Z.land first 0x80 =? 0 then Ret (first, u32 (offset + 1))
    else if Z.land first 0xC0 =? 0x80 then
      require negb (sl_size heap <=? u32 (offset + 1)) else exec_error ZACLR_STATUS_BAD_METADATA;
      b1 ← read_u8 m (data + u32 (offset + 1));
      Ret (Z.lor (Z.shiftl (Z.land first 0x3F) 8) b1, u32 (offset + 2))
    else
      require negb (sl_size heap <=? u32 (offset + 3)) else exec_error ZACLR_STATUS_BAD_METADATA;
      b1 ← read_u8 m (data + u32 (offset + 1));
      b2 ← read_u8 m (data + u32 (offset + 2));
      b3 ← read_u8 m (data + u32 (offset + 3));
      Ret (Z.lor (Z.lor (Z.lor (Z.shiftl (Z.land first 0x1F) 24) (Z.shiftl b1 16)) (Z.shiftl b2 8)) b3, u32 (offset + 4))
  end.

Fixpoint read_code_units (n : nat) (p : Z) : outcome (list Z) :=
  match n with
  | O => Ret []
  | S n => c ← read_u16 m p; l ← read_code_units n (p + 2); Ret (c :: l)
  end.

(** The text, and whether it goes through a temporary buffer. *)
Definition user_string (index : Z) : outcome (option (list Z)) :=
  match sl_data (user_string_heap reader) with
  | None => Err (exec_error ZACLR_STATUS_INVALID_ARGUMENT)
  | Some data =>
    require negb (sl_size (user_string_heap reader) <=? index) else exec_error ZACLR_STATUS_INVALID_ARGUMENT;
    '(byte_length, offset) ← decode_compressed_uint (user_string_heap reader) index;
    require negb (sl_size (user_string_heap reader) <? offset + byte_length) else exec_error ZACLR_STATUS_BAD_METADATA;
    if byte_length =? 0 then Ret None
    else
      require negb (Z.land byte_length 1 =? 0) else exec_error ZACLR_STATUS_BAD_METADATA;
      text ← read_code_units (Z.to_nat (byte_length / 2)) (data + offset);
      Ret (Some text)
  end.

(** The buffer is allocated before the text is read, with no consequence for what is
    read. *)
Definition metadata_get_user_string_handle (index : Z) (rt : zaclr_runtime K) : outcome Z * zaclr_runtime K :=
  match user_string index with
  | Ret None => zaclr_string_allocate_utf16_handle rt []
  | Ret (Some text) =>
    let '(p, k) := kernel_alloc (mg_kernel (rt_managed rt)) (2 * zlength text) in
    let rt := set_kernel rt k in
    if negb (zlength text =? 0) && (p =? 0) then (Err (exec_error ZACLR_STATUS_OUT_OF_MEMORY), rt)
    else
      let '(o, rt) := zaclr_string_allocate_utf16_handle rt text in
      (o, free_text p rt)
  | Err r => (Err r, rt)
  | Fault => (Fault, rt)
  | NoFuel => (NoFuel, rt)
  end.

Definition step_ldstr : heap_exec K unit :=
  token ← in_frame il_token;
  string_handle ← in_runtime (metadata_get_user_string_handle (Z.land (raw token) 0x00FFFFFF));
  _ ← in_frame (advance 5);
  in_frame (push_object_handle string_handle).

End metadata.

End heap.

(** ** What strings hold *)
Import Program ArraysCorrect ArraysHeap.

Lemma write_word data offset k w : 0 <= offset -> offset + Z.of_nat k <= zlength data ->
  exists data', write_bytes data offset (le_bytes k w) = Ret data' /\ zlength data' = zlength data /\
    word data' offset (Z.of_nat k) = w mod 256 ^ Z.of_nat k /\
    forall o n, 0 <= o -> 0 <= n -> o + n <= zlength data -> o + n <= offset \/ offset + Z.of_nat k <= o -> word data' o n = word data o n.
Proof.
  intros Ho Hk. assert (zlength (le_bytes k w) = Z.of_nat k) as Hl by (unfold zlength; by rewrite le_bytes_length).
  destruct (write_bytes_Ret data offset (le_bytes k w) Ho ltac:(lia)) as (data' & E & Lz & Rd & Od). rewrite Hl in Rd, Od.
  exists data'. split; [done|]. split; [done|]. split; [apply word_chars; [|lia]; by rewrite Nat2Z.id|].
  intros o n H1 H2 H3 H4. specialize (Od o n H1 H2 H4). unfold read_bytes in Od. rewrite Lz in Od.
  rewrite (proj2 (Z.ltb_ge _ _) H1), (proj2 (Z.ltb_ge _ _) H3) in Od. unfold word. by injection Od as ->.
Qed.

(** The data hold the length [n], and the code units [text] from the place [k] on, with
    their low bytes. *)
Record spells (data : list byte) (n k : Z) (text : list Z) : Prop := {
  sp_length : word data 0 4 = n;
  sp_units i c : text .@ i = Some c -> word data (first_char + 2 * (k + i)) 2 = c;
  sp_ascii i c : text .@ i = Some c -> word data (first_char + 2 * n + (k + i)) 1 = u8 c }.

Lemma char_count_word data n : word data 0 4 = n -> 0 <= n < 2 ^ 31 -> 4 <= zlength data -> zaclr_string_char_count (Some data) = Ret n.
Proof.
  intros Hw Hn Hz. unfold zaclr_string_char_count. rewrite read_word4, Ret_bind, Hw, i32_id by lia. destruct (Z.ltb_spec 0 n); [done|]. f_equal. lia.
Qed.

Lemma ascii_storage_word data n : word data 0 4 = n -> 0 <= n < 2 ^ 31 -> 4 <= zlength data -> string_ascii_storage data = Ret (first_char + n * 2).
Proof. intros. unfold string_ascii_storage, zaclr_string_length. by rewrite (char_count_word data n), Ret_bind. Qed.

Lemma copy_spec text : Forall (fun c => 0 <= c < 2 ^ 16) text -> forall k n data, 0 <= k -> n = k + zlength text -> n < 2 ^ 31 ->
  word data 0 4 = n -> first_char + 3 * n + 1 <= zlength data ->
  exists data', copy_code_units text k data = Ret data' /\ zlength data' = zlength data /\ spells data' n k text /\
    (forall i, 0 <= i < k -> word data' (first_char + 2 * i) 2 = word data (first_char + 2 * i) 2 /\
                             word data' (first_char + 2 * n + i) 1 = word data (first_char + 2 * n + i) 1).
Proof.
  unfold first_char. induction 1 as [|c text Hc Ht IH]; intros k n data Hk Hn Hn31 Hw Hz.
  - exists data. split; [done|]. split; [done|]. split; [split; [done|..]; intros i c Hi; by rewrite get_nil in Hi|done].
  - rewrite zlength_cons in Hn. pose proof (zlength_nonneg text). cbn [copy_code_units]. unfold first_char.
    destruct (write_word data (4 + 2 * k) 2 c ltac:(lia) ltac:(lia)) as (d1 & E1 & L1 & W1 & O1). rewrite E1, Ret_bind. change (Z.of_nat 2) with 2 in *.
    assert (word d1 0 4 = n) as Hw1 by (rewrite O1 by lia; done). rewrite (ascii_storage_word d1 n), Ret_bind by lia. unfold first_char.
    destruct (write_word d1 (4 + n * 2 + k) 1 c ltac:(lia) ltac:(lia)) as (d2 & E2 & L2 & W2 & O2). rewrite E2, Ret_bind. change (Z.of_nat 1) with 1 in *.
    destruct (IH (k + 1) n d2) as (d3 & E3 & L3 & [S1 S2 S3] & Hold); [lia|lia|lia|rewrite O2 by lia; done|lia|].
    exists d3. split; [done|]. split; [congruence|]. destruct (Hold k ltac:(lia)) as [K1 K2]. split.
    + unfold first_char in *. split; [done|..]; intros i x Hi; apply get_cons_inv in Hi as [[-> ->]|[Hi0 Hi]]; unfold first_char; rewrite ?Z.add_0_r.
      * rewrite K1, O2, W1 by lia. by rewrite Z.mod_small.
      * replace (k + i) with (k + 1 + (i - 1)) by lia. by apply S2.
      * rewrite K2. replace (4 + 2 * n + k) with (4 + n * 2 + k) by lia. by rewrite W2.
      * replace (k + i) with (k + 1 + (i - 1)) by lia. by apply S3.
    + intros i Hi. destruct (Hold i ltac:(lia)) as [H1 H2]. rewrite H1, H2. rewrite !O2, !O1 by lia. done.
Qed.

(** What a client sees of a string with the code units [text]. *)
Record is_string (data : list byte) (text : list Z) : Prop := {
  is_length : zaclr_string_length (Some data) = Ret (zlength text);
  is_units i c : text .@ i = Some c -> zaclr_string_char_at (Some data) i = Ret c;
  is_end i : zlength text <= i -> zaclr_string_char_at (Some data) i = Ret 0;
  is_ascii : exists a, string_ascii_storage data = Ret a /\ (forall i c, text .@ i = Some c -> read_u8 data (a + i) = Ret (u8 c)) /\
    read_u8 data (a + zlength text) = Ret 0 }.

Lemma spells_string data text : spells data (zlength text) 0 text -> zlength text < 2 ^ 31 -> first_char + 3 * zlength text + 1 <= zlength data ->
  word data (first_char + 3 * zlength text) 1 = 0 -> is_string data text.
Proof.
  intros [S1 S2 S3] Hn Hz Hnul. pose proof (zlength_nonneg text). unfold first_char in *.
  assert (zaclr_string_char_count (Some data) = Ret (zlength text)) as Hc by (apply char_count_word; lia || done).
  split; [done|..].
  - intros i c Hi. pose proof (get_Some_range _ _ _ Hi). unfold zaclr_string_char_at, zaclr_string_length. rewrite Hc, Ret_bind.
    rewrite (proj2 (Z.ltb_lt _ _)) by lia. unfold first_char. rewrite read_word2 by lia. f_equal. by apply (S2 i).
  - intros i Hi. unfold zaclr_string_char_at, zaclr_string_length. rewrite Hc, Ret_bind. by rewrite (proj2 (Z.ltb_ge _ _)).
  - exists (4 + zlength text * 2). split; [by rewrite (ascii_storage_word data (zlength text)) by (done || lia)|]. split.
    + intros i c Hi. pose proof (get_Some_range _ _ _ Hi). rewrite read_word1 by lia. f_equal. rewrite <- (S3 i c Hi). f_equal. lia.
    + rewrite read_word1 by lia. f_equal. rewrite <- Hnul. f_equal. lia.
Qed.

Lemma fill_spec text data : Forall (fun c => 0 <= c < 2 ^ 16) text -> zlength text < 2 ^ 31 -> first_char + 3 * zlength text + 1 <= zlength data ->
  8 <= zlength data -> exists data', fill_string text data = Ret data' /\ is_string data' text.
Proof.
  intros Ht Hn Hz H8. pose proof (zlength_nonneg text). unfold fill_string, first_char in *.
  destruct (write_word data 0 4 (u32 (zlength text)) ltac:(lia) ltac:(lia)) as (d1 & E1 & L1 & W1 & O1). change (Z.of_nat 4) with 4 in *.
  rewrite E1, Ret_bind. rewrite u32_id, Z.mod_small in W1 by lia.
  destruct (write_word d1 4 2 0 ltac:(lia) ltac:(lia)) as (d2 & E2 & L2 & W2 & O2). rewrite E2, Ret_bind.
  destruct (copy_spec text Ht 0 (zlength text) d2) as (d3 & E3 & L3 & [S1 S2 S3] & _); [lia|lia|lia|rewrite O2 by lia; done|unfold first_char; lia|].
  rewrite E3, Ret_bind, (ascii_storage_word d3 (zlength text)), Ret_bind by lia. unfold first_char in *.
  destruct (write_word d3 (4 + zlength text * 2 + zlength text) 1 0 ltac:(lia) ltac:(lia)) as (d4 & E4 & L4 & W4 & O4). change (Z.of_nat 1) with 1 in *.
  exists d4. split; [exact E4|]. apply spells_string; unfold first_char; [|lia|lia|].
  - split; [rewrite O4 by lia; done|..]; intros i c Hi; pose proof (get_Some_range _ _ _ Hi); unfold first_char.
    + rewrite O4 by lia. by apply S2.
    + rewrite O4 by lia. by apply S3.
  - replace (4 + 3 * zlength text) with (4 + zlength text * 2 + zlength text) by lia. by rewrite W4.
Qed.

(** ** Strings in the heap *)

Section allocation.
Context {K : Type} `{KernelHeapLaws K} (string_type : zaclr_runtime K -> option zaclr_method_table * zaclr_runtime K).
(** The preparation of a type leaves the objects alone. *)
Hypothesis Htype : forall rt, objects_of (string_type rt).2 = objects_of rt.

(** [rt'] has a string [text] at [p]. *)
Definition string_at (rt' : zaclr_runtime K) (p : Z) (text : list Z) : Prop :=
  p <> 0 /\ exists o data, objects_of rt' !! p = Some o /\ string_data o = Some data /\ is_string data text /\
    ob_family o = ZACLR_OBJECT_FAMILY_STRING /\ object_children o = Ret [].

Lemma zlength_zeros n : 0 <= n -> zlength (replicate (Z.to_nat n) x00) = n.
Proof. intros Hn. unfold zlength. rewrite length_replicate. lia. Qed.

Lemma string_data_size n : 0 <= n -> first_char + 3 * n + 1 <= string_allocation_size n - sizeof_object_desc /\ 8 <= string_allocation_size n - sizeof_object_desc.
Proof. intros Hn. unfold string_allocation_size, first_char, sizeof_string_desc, sizeof_object_desc. destruct (Z.ltb_spec 1 n); lia. Qed.

Lemma allocate_utf16_spec rt text : runtime_ok rt -> gc_active rt = false -> Forall (fun c => 0 <= c < 2 ^ 16) text -> zlength text < 2 ^ 31 ->
  hp_allocated_bytes (heap_of rt) + string_allocation_size (zlength text) < 2 ^ 32 -> hp_node_count (heap_of rt) + 1 < 2 ^ 32 ->
  match zaclr_string_allocate_utf16 string_type rt text with
  | (Ret p, rt') => string_at rt' p text /\ survive_in rt rt' /\ (forall q, is_Some (objects_of rt !! q) -> held rt q -> q <> p)
  | (Err r, rt') => survive_in rt rt' /\ r ∈ array_statuses
  | _ => False
  end.
Proof.
  intros Hok Hact Ht Hn Hb Hc. pose proof (zlength_nonneg text) as Hn0. pose proof (allocated_bytes_nonneg rt Hok) as Hb0.
  destruct (string_data_size (zlength text) Hn0) as [Hz1 Hz2]. unfold zaclr_string_allocate_utf16.
  assert (0 <= string_allocation_size (zlength text) < 2 ^ 32) as Hsz by (change sizeof_object_desc with 40 in Hz2; lia).
  pose proof (allocate_object_spec rt (string_allocation_size (zlength text)) 0 ZACLR_OBJECT_FAMILY_STRING
    (Z.lor ZACLR_OBJECT_FLAG_STRING ZACLR_OBJECT_FLAG_REFERENCE_TYPE) Hok Hact Hsz Hb Hc) as Ha.
  unfold allocate_post in Ha. destruct (zaclr_heap_allocate_object _ _ _ _ _) as [[p|r| |] rt1]; try done.
  2: { destruct Ha as [Hk Hr]. split; [|exact Hr]. intros q o Ho Hq. by apply (kp_held _ _ Hk). }
  destruct Ha as [A1 A2 A3 A4 A5].
  assert (objects_of (if hp_runtime (heap_of rt1) then string_type rt1 else (None, rt1)).2 = objects_of rt1) as Hobj by (by destruct (hp_runtime _)).
  destruct (if hp_runtime (heap_of rt1) then string_type rt1 else (None, rt1)) as [mt rt2]. cbn [snd] in Hobj. rewrite Hobj, A3. cbn [mbind option_bind].
  change (string_data (new_object _ 0 ZACLR_OBJECT_FAMILY_STRING _)) with (Some (replicate (Z.to_nat (string_allocation_size (zlength text) - sizeof_object_desc)) x00)).
  destruct (fill_spec text (replicate (Z.to_nat (string_allocation_size (zlength text) - sizeof_object_desc)) x00)) as (data & E & Hs);
    [done|done|by rewrite zlength_zeros by lia|by rewrite zlength_zeros by lia|]. rewrite E.
  split; [|split].
  - split; [done|]. eexists _, data. split; [cbn; rewrite Hobj, lookup_alter_eq, A3; reflexivity|]. by split_and!.
  - intros q x Hx Hq. destruct (A4 q x Hx Hq) as [Hne (x' & Hx' & Hsh)]. exists x'. split; [|done]. cbn. by rewrite Hobj, lookup_alter_ne by done.
  - intros q [x Hx] Hq. by apply (A4 q x).
Qed.

End allocation.

(** ** User strings *)

(** The blob of a user string (ECMA-335 II.24.2.4): its size, the code units, and a byte
    that says whether they need special treatment. *)
Definition encode_units (text : list Z) : list byte := text ≫= encode_u16.
Definition encode_user_string (text : list Z) (flag : byte) : list byte :=
  encode_uint (2 * zlength text + 1) ++ encode_units text ++ [flag].

Lemma zlength_units text : zlength (encode_units text) = 2 * zlength text.
Proof.
  induction text as [|c text IH]; [done|]. unfold encode_units in *. cbn [mbind list_bind]. rewrite zlength_app, IH, zlength_cons.
  change (zlength (encode_u16 c)) with 2. lia.
Qed.

Lemma read_units_spec m text p : Forall (fun c => 0 <= c < 2 ^ 16) text -> seg m p (encode_units text) -> read_code_units m (length text) p = Ret text.
Proof.
  intros Ht. revert p. induction Ht as [|c text Hc Ht IH]; intros p Hs; [done|]. unfold encode_units in *. cbn [mbind list_bind] in Hs.
  apply seg_app in Hs as [H1 H2]. change (zlength (encode_u16 c)) with 2 in H2. cbn [length read_code_units].
  by rewrite (seg_read_u16 _ _ _ Hc H1), Ret_bind, IH, Ret_bind.
Qed.

Lemma decode_same m heap d off r : sl_data heap = Some d -> Signature.decode_compressed_uint m heap off = Ret r ->
  decode_compressed_uint m heap off = Ret r.
Proof. exact (FrameCorrect.decode_agrees m heap d off r). Qed.

Lemma user_string_spec m reader d index text flag : sl_data (user_string_heap reader) = Some d -> blob_ok m (user_string_heap reader) -> 0 <= index ->
  seg m (d + index) (encode_user_string text flag) -> index + zlength (encode_user_string text flag) <= sl_size (user_string_heap reader) ->
  is_uint29 (2 * zlength text + 1) = true -> Forall (fun c => 0 <= c < 2 ^ 16) text -> user_string m reader index = Ret (Some text).
Proof.
  intros Hd Hok Hi Hs Hz Hu Ht. pose proof (zlength_nonneg text). pose proof (encode_uint_length (2 * zlength text + 1)) as Hel.
  unfold encode_user_string in Hs, Hz. rewrite !zlength_app, zlength_units in Hz. change (zlength [flag]) with 1 in Hz.
  apply seg_app in Hs as [H1 H2]. apply seg_app in H2 as [H2 _]. unfold user_string. rewrite Hd.
  destruct (Z.leb_spec (sl_size (user_string_heap reader)) index); [lia|]. cbn [negb].
  rewrite (decode_same m _ d index (2 * zlength text + 1, index + zlength (encode_uint (2 * zlength text + 1))) Hd)
    by (apply (decode_encode_uint _ _ d); try done; lia).
  rewrite Ret_bind. rewrite (proj2 (Z.ltb_ge _ _)) by lia. rewrite (proj2 (Z.eqb_neq _ 0)) by lia. cbn [negb].
  assert (Z.land (2 * zlength text + 1) 1 = 1) as ->.
  { change 1 with (Z.ones 1) at 2. rewrite Z.land_ones, Z.add_comm, Z.mul_comm, Z.mod_add by lia. done. }
  assert ((2 * zlength text + 1) / 2 = zlength text) as -> by (rewrite Z.add_comm, Z.mul_comm, Z.div_add by lia; done).
  cbn [negb Z.eqb]. rewrite Z.add_assoc. unfold zlength at 1. by rewrite Nat2Z.id, (read_units_spec m text).
Qed.

Section ldstr.
Context {K : Type} `{KernelHeapLaws K} (string_type : zaclr_runtime K -> option zaclr_method_table * zaclr_runtime K).
Hypothesis Htype : forall rt, objects_of (string_type rt).2 = objects_of rt.
Implicit Types (rt : zaclr_runtime K).

Lemma alloc_keeps_runtime rt n p k : runtime_ok rt -> gc_active rt = false -> kernel_alloc (kernel_of rt) n = (p, k) -> runtime_ok (set_kernel rt k).
Proof.
  intros Hok Hact Ha. pose proof (rk_heap _ Hok) as Hh.
  assert (forall b, b ∈ live (kernel_of rt) -> b ∈ live k) as Hl.
  { intros b Hb. apply alloc_spec in Ha as [[_ ->]|(_ & _ & ->)]; set_solver. }
  apply (keeps_kernel rt (mk_managed k (objects_of rt) (heap_of rt))); try done; [|auto|by left].
  apply (heap_ok_frame (rt_managed rt)); try done; [intros q [o Ho]; apply Hl; by eapply hk_live|]. intros Hb. apply Hl. by apply heap_buffer_live.
Qed.

Lemma free_text_objects p rt : objects_of (free_text p rt) = objects_of rt.
Proof. unfold free_text. by case_if. Qed.

(** Room for a string of [n] code units. *)
Definition string_fits rt (n : Z) : Prop :=
  n < 2 ^ 31 /\ hp_allocated_bytes (heap_of rt) + string_allocation_size n < 2 ^ 32 /\ hp_node_count (heap_of rt) + 1 < 2 ^ 32.

Definition string_statuses : list zaclr_result := exec_error ZACLR_STATUS_OUT_OF_MEMORY :: array_statuses.

Lemma user_string_handle_spec m reader index text rt : user_string m reader index = Ret (Some text) -> Forall (fun c => 0 <= c < 2 ^ 16) text ->
  runtime_ok rt -> gc_active rt = false -> string_fits rt (zlength text) ->
  match metadata_get_user_string_handle string_type m reader index rt with
  | (Ret p, rt') => string_at rt' p text /\ survive_in rt rt' /\ (forall q, is_Some (objects_of rt !! q) -> held rt q -> q <> p)
  | (Err r, rt') => survive_in rt rt' /\ r ∈ string_statuses
  | _ => False
  end.
Proof.
  intros Hu Ht Hok Hact (Hn & Hb & Hc). unfold metadata_get_user_string_handle. rewrite Hu.
  destruct (kernel_alloc (kernel_of rt) (2 * zlength text)) as [p k] eqn:Ek. pose proof (alloc_keeps_runtime rt _ p k Hok Hact Ek) as Hok1.
  case_if; [split; [intros q o Ho _; by exists o|by left]|].
  unfold zaclr_string_allocate_utf16_handle. pose proof (allocate_utf16_spec string_type Htype (set_kernel rt k) text Hok1 Hact Ht Hn Hb Hc) as Ha.
  destruct (zaclr_string_allocate_utf16 string_type (set_kernel rt k) text) as [[v|r| |] rt']; try done.
  - destruct Ha as ((Hv & o & data & Ho & Hs) & Hsv & Hf). split; [|split; [|exact Hf]].
    + split; [done|]. exists o, data. by rewrite free_text_objects.
    + intros q x Hx Hq. rewrite free_text_objects. by apply Hsv.
  - destruct Ha as [Hsv Hr]. split; [|by right]. intros q x Hx Hq. rewrite free_text_objects. by apply Hsv.
Qed.

End ldstr.

(** C14: [ldstr] gives the string of the metadata.  If the user string heap of the assembly has
    the encoding of [text] at the row of the token, the instruction pushes a reference to
    a new string object with exactly these code units: its length, every character, zero
    beyond the end, and the copy of the low bytes with its terminating zero are those of
    [text], and every object the program held (everything the collector's marking reaches)
    is still there.  The objects with the string take less than 4 GiB ([string_fits]).
    The only other outcome is one of the statuses of an exhausted heap, with the frame as it was. *)
Theorem ldstr_correct {K} `{KernelHeapLaws K} string_type m reader (s : heap_state K) d token text flag :
  (forall rt, objects_of (string_type rt).2 = objects_of rt) ->
  runtime_ok (running s) -> gc_active (hs_runtime s) = false -> room (eval_stack (hs_frame s)) 1 ->
  seg (il_start (hs_frame s)) (il_offset (hs_frame s) + 1) (encode_u32 (raw token)) -> 0 <= raw token < 2 ^ 32 ->
  sl_data (user_string_heap reader) = Some d -> blob_ok m (user_string_heap reader) ->
  seg m (d + zaclr_token_row (Some token)) (encode_user_string text flag) ->
  zaclr_token_row (Some token) + zlength (encode_user_string text flag) <= sl_size (user_string_heap reader) ->
  is_uint29 (2 * zlength text + 1) = true -> Forall (fun c => 0 <= c < 2 ^ 16) text -> string_fits (hs_runtime s) (zlength text) ->
  match step_ldstr string_type m reader s with
  | (Ret _, s') => exists p, eval_stack (hs_frame s') = pushed (eval_stack (hs_frame s)) (reference_value p) /\ string_at (hs_runtime s') p text /\
      survive_in (running s) (running s') /\ ~ (is_Some (objects_in s !! p) /\ held (running s) p)
  | (Err r, s') => r ∈ string_statuses /\ hs_frame s' = hs_frame s /\ survive_in (running s) (running s')
  | _ => False
  end.
Proof.
  intros Htype Hok Hact Hr Hseg Htok Hd Hbok Hus Hz Hu Ht Hfit. unfold step_ldstr. erewrite bind_step; [|by apply token_step].
  change (Z.land (raw token) 16777215) with (zaclr_token_row (Some token)).
  assert (0 <= zaclr_token_row (Some token)) as Hrow by (cbn; apply Z.land_nonneg; by right).
  pose proof (user_string_spec m reader d _ text flag Hd Hbok Hrow Hus Hz Hu Ht) as Hs.
  pose proof (user_string_handle_spec string_type Htype m reader _ text (running s) Hs Ht Hok Hact Hfit) as Ha.
  unfold mbind at 1, heap_exec_bind at 1, in_runtime.
  destruct (metadata_get_user_string_handle string_type m reader _ (running s)) as [[p|r| |] rt']; try done; [|by destruct Ha].
  destruct Ha as (Hp & Hsv & Hf). erewrite bind_step; [|apply advance_step]. rewrite push_reference, push_step by done.
  exists p. split; [done|]. split; [exact Hp|]. split; [exact Hsv|]. intros [Ho Hh]. by apply (Hf p).
Qed.

(** The user string heap with the string "Hi" in row 1. *)
Definition hi_units : list Z := [72; 105].
Definition user_strings : memory := x00 :: encode_user_string hi_units x00.
Definition string_reader : zaclr_metadata_reader :=
  mk_reader zero_slice zero_slice zero_slice (mk_slice (Some 0) (zlength user_strings)) zero_slice 0 0 [] [] 0.
Definition ldstr_code : memory := bytes_of [0x72; 1; 0; 0; 0x70].
Definition no_type (rt : zaclr_runtime small_heap) : option zaclr_method_table * zaclr_runtime small_heap := (None, rt).

Lemma ldstr_correct_witness :
  exists s' p, step_ldstr no_type user_strings string_reader (example_state ldstr_code []) = (Ret (), s') /\ string_at (hs_runtime s') p hi_units.
Proof.
  pose proof (ldstr_correct no_type user_strings string_reader (example_state ldstr_code []) 0 (zaclr_token_make 0x70000001) hi_units x00) as Hl.
  assert ((step_ldstr no_type user_strings string_reader (example_state ldstr_code [])).1 = Ret ()) as E by (vm_compute; reflexivity).
  destruct (step_ldstr no_type user_strings string_reader (example_state ldstr_code [])) as [[[]|r| |] s']; try discriminate E.
  destruct Hl as (p & _ & Hp & _); [done| |reflexivity|by apply wide_room| |cbn; lia|reflexivity| | |by vm_compute|reflexivity| | |].
  - eapply example_running; [vm_compute; reflexivity|]. intros q Hq. set_solver.
  - intros i b Hi. pose proof (get_Some_range _ _ _ Hi) as Hr. change (0 <= i < 4) in Hr.
    assert (i = 0 \/ i = 1 \/ i = 2 \/ i = 3) as [-> |[-> |[-> | ->]]] by lia; exact Hi.
  - split; [split|]; vm_compute; try split; congruence.
  - pose proof (seg_refl user_strings) as Hs. unfold user_strings in Hs at 2. by apply seg_cons in Hs as [_ Hs].
  - repeat constructor; done.
  - split; [done|]. split; by vm_compute.
  - exists s', p. by split.
Defined.

End ManagedStrings.
